(* ===== verification/_CoqProject ===== *)
-Q . S2P
Prelude.v
Counting.v
GoStr.v
GoPath.v
Workspace.v
WorkspaceProps.v
Elyph.v
ElyphProps.v
FileText.v
FileEdit.v
FileTextProps.v
FileEditProps.v
FileDiff.v
FileDiffProps.v
FileSystem.v
FileIO.v
FileIOProps.v
LockTable.v
Rollback.v
RollbackProps.v
RollbackSystem.v
RollbackTheorems.v
Segment.v
Turn.v
TurnProps.v
Queue.v
QueueProps.v
QueueSystem.v
Emission.v
Signal.v
Admission.v
AdmissionProps.v
Binding.v
HookEvent.v
HookProps.v
HookPipeline.v
HookPipelineProps.v
HookRules.v
HookRulesProps.v
HookRender.v
Sse.v
SseProps.v
Retry.v
ToolPermit.v
ToolRegistry.v
ToolRegistryProps.v
ToolDiscovery.v
ToolDiscoveryProps.v
ToolState.v
ToolStateProps.v
ShellRisk.v
ShellRiskProps.v
CronManager.v
CronManagerProps.v
CronDelivery.v
CronDeliveryProps.v
CronRun.v
CronRunProps.v
Elnis.v
ElnisProps.v
ElnisRun.v
ElnisRunProps.v
ToolTranscript.v
ToolTranscriptProps.v
ToolBatch.v
ToolBatchProps.v
ChatPrompt.v
ChatLoop.v
ChatLoopProps.v
NativeStore.v
NativeTurn.v
NativeLoad.v
NativeCommit.v
NativeTurnProps.v
NativeTheorems.v
Expiry.v
Shared.v
SharedProps.v
