(* ===== verification/Prelude.v ===== *)
(** * Elbot: a verification development (root file)

    Elbot is a chat bot written in Go: platforms deliver messages to an agent
    that talks to language models, runs tools for them, keeps sessions in a
    database and runs jobs in the background. This library models the parts of
    src/internal whose own logic decides whether that is safe, and proves what
    they promise. Definitions keep the names of the source; each file opens
    with the Go files it models, and definitions come before theorems.

    ** Parts of the program and where they are

    - Generic: this file (strings as lists of bytes, [res] for a result, an
      error or a panic, tactics), Counting.v, GoStr.v (the
      used parts of [strings], [strconv], [unicode/utf8]), GoPath.v ([path/filepath]
      on Unix).
    - Files (internal/fileops): FileText.v, FileEdit.v and FileDiff.v are pure
      functions on texts (line endings, the edit engine, the line diff);
      FileSystem.v and FileIO.v resolve, read, encode and write files;
      LockTable.v, Rollback.v and RollbackSystem.v run edits and rollbacks as
      interleaved calls over one file system and one manager.
    - Working directories (internal/workspace, tool/builtin/file_guard.go):
      Workspace.v.
    - Shell commands (tool/builtin/shell*.go): ShellRisk.v, which feeds the
      permissions of ToolPermit.v.
    - Sessions (internal/session/binding): Admission.v (the ordered locks of
      scopes and sessions) and Binding.v (current sessions of scopes).
    - Turns (internal/turn): Turn.v, one table of turns with their attempts,
      confirmations and queued input.
    - Signals (internal/signal): Queue.v with QueueSystem.v (the callback
      queue), Emission.v and Signal.v.
    - Hooks (internal/hook): HookEvent.v (events and conditions),
      HookPipeline.v (registry and runs), HookRules.v and HookRender.v (rules
      from configuration files), Expiry.v and Shared.v (the store that stateful
      hooks share, with its heap of deadlines and the loop that sweeps it).
    - Models (internal/llm): Segment.v (messages), Sse.v
      (streams of server-sent events), Retry.v (errors and retries).
    - Tools (internal/tool, internal/security): ToolRegistry.v, ToolDiscovery.v
      and ToolState.v (definitions, their discovery and what a session holds of
      them), ToolPermit.v (risk levels and confirmations), ToolTranscript.v (the
      stored rows of a batch), ToolBatch.v (a batch of calls with its workers).
    - The agent (internal/agent/chat, agent/dialogue): ChatPrompt.v (the
      messages of a request) and ChatLoop.v (the rounds of a turn), whose rounds
      run the batches of ToolBatch.v over the rows of ToolTranscript.v.
    - The agent for providers that keep the conversation (agent/responses,
      storage/sqlite): NativeStore.v (items, stored rows and their commits),
      NativeTurn.v (windows rebuilt from the rows, forks, and a turn as a step
      relation over the rows of all sessions, with the provider's memory as a
      ghost). NativeLoad.v, NativeCommit.v and NativeTurnProps.v prove that
      loading, commits and turns keep its invariant, NativeTheorems.v what
      follows.
    - Background jobs (internal/background): CronManager.v (the scheduler),
      CronDelivery.v and CronRun.v (reports and runs of cron jobs), Elnis.v and
      ElnisRun.v (events from other programs).
    - Elyph.v: the parser and linter of task notes (internal/elyph).

    A file X.v has its lemmas and theorems in XProps.v or after its definitions;
    where those grew, in XTheorems.v or a second file named in its header.

    ** How the code becomes definitions

    - A Go string is a list of bytes; an int is a [Z] (with its 64-bit wrap
      where overflow can happen) or a [nat] where the code keeps it
      non-negative; a map is a [gmap], a slice a list with the panic of an index
      out of range written out ([Panic] of [res]). An error is its message,
      except where the code asks for its kind (Retry.v, ToolPermit.v).
    - Code that shares state under a mutex is a transition system: one step per
      critical section, channel operation or external call; the interleaving,
      the results of databases, agents, tools, platforms and hooks, and the end
      of contexts are chosen by the environment (Admission.v, Turn.v, Queue.v,
      RollbackSystem.v, ToolBatch.v, CronManager.v, ElnisRun.v, Shared.v). Objects
      that several containers point to are a heap of numbered objects (Expiry.v). Goroutines that
      only pass values on are functions of what they receive (Sse.v).
    - Code that is not in the repository is a parameter: Unicode tables beyond
      ASCII, [url.Parse], regular expressions, text encodings, hashes, JSON,
      [mime], base64, the parser of shell commands (its list of nodes), the cron
      library (its documented [Stop]), [os.Stat], clocks and fresh ids.
      Hypotheses on parameters are documented behaviour and each theorem that
      has one has a witness with a concrete function.
    - Log records, spans and metrics are left out unless a definition says
      otherwise.

    ** What the theorems show

    - Concurrency: admission has no deadlock and excludes (AdmissionProps.v),
      the queue starts every job once, in the order of its key, and drains
      (QueueSystem.v), the turn lifecycle closes each channel once
      (TurnProps.v), edits and rollbacks are safe under any interleaving and
      a rollback restores the file (RollbackTheorems.v), the
      schedule of cron jobs converges to the records and stopping is final
      (CronManagerProps.v), an event is run once and its report is in one hand
      (ElnisRunProps.v).
    - Safety of what a model may do: only permitted and confirmed calls run,
      every call is answered, batches and turns end (ToolBatchProps.v,
      ChatLoopProps.v), restricted paths and shell commands stay in their
      directory (WorkspaceProps.v, ShellRiskProps.v), accepted events are
      confined (ElnisProps.v), what queries and discovery return was allowed
      (ToolRegistryProps.v, ToolDiscoveryProps.v).
    - The store of hooks: every request acts on a map of live values within the
      limits, and what has expired is swept without a request (SharedProps.v); the
      heap is a map with a least element (Expiry.v).
    - Functional correctness: the edit engine refines a specification by
      positions (FileEditProps.v), the diff is minimal (FileDiffProps.v), edits
      read back (FileIOProps.v), streams are split exactly (SseProps.v),
      accepted documents follow the grammar (ElyphProps.v), reports of jobs are
      sent once (CronRunProps.v), requests are well-formed conversations
      (ChatLoopProps.v), discovery finds exactly the tools that are reachable
      (ToolDiscoveryProps.v).
    - History: whatever turns, failures, forks and copies do, the stored rows
      rebuild the conversation the provider holds, every request continues it
      with all calls answered, a fork starts from its source's conversation,
      and no stored input is lost or used twice (NativeTheorems.v).

    ** Fuel and bounds

    Definitions whose recursion is not structural have fuel, and a theorem says
    how much is enough: the lineage of an admission needs the number of calls
    made so far, [itoa] has 20 digits (every 64-bit value), resolving a path
    component by component takes one more than its length, the chain of
    checkpoints two more than their number, links are limited to
    255 as in the kernel's own limit, eviction one more than the number of
    records, a retry MaxRetries + 1 rounds, a batch of n calls at most 12 n + 9
    steps, a chat turn at most 2 MaxRounds + 2 steps and MaxRounds + 2 requests,
    discovery one more than the number of definitions, moving an entry of the
    heap one more than its positions, a sweep one more than the entries. Scans of strings recurse
    on the string.

    ** Duties of callers that the theorems assume

    Admissions nest as the entry points nest them ([allowed] of Admission.v);
    the lifecycle of a turn is called as its callers do ([legal_step] of
    TurnProps.v): a resumed append waits for the end of its attempt and the
    task of a turn returns.

    ** Not modelled, and why

    Platform adapters, the terminal interface, HTTP servers and clients, SQL
    text and migrations, configuration files and their defaults, the launcher
    and logging are input and output around third-party code. Of the responses
    agent the assembly of a stream's items and compaction are left out, and of
    its provider it is assumed that a completed response has a new id and no
    results of calls ([provider_ok] of NativeTurn.v). Session names, branches
    and expiry, the loading of contexts, hook processes, skills and media
    transfers are storage calls and processes around the modelled parts. *)
From stdpp Require Export gmap strings list fin_maps sorting.
From Stdlib Require Export Ascii ZArith Lia.

(** ** Go strings

    A Go string is an immutable sequence of bytes, so it is a list of 8-bit
    [ascii] values here; [§ "text"] is a string literal (its UTF-8 bytes). *)
Abbreviation gostring := (list ascii).

Definition lit (s : string) : gostring := Stdlib.Strings.String.list_ascii_of_string s.
Arguments lit : simpl never.

Declare Scope elbot_scope.
Delimit Scope elbot_scope with elbot.
Open Scope elbot_scope.
Notation "§ s" := (lit s%string) (at level 1, format "§ s") : elbot_scope.

(** ** Results

    A Go call returns a value, returns an error, or panics (an index or a
    slice out of range, a nil dereference, a double close). *)
Inductive res (A : Type) : Type :=
| Ok (a : A)
| Err (e : gostring)
| Panic.
Arguments Ok {A} a.
Arguments Err {A} e.
Arguments Panic {A}.

Definition res_bind {A B} (m : res A) (k : A → res B) : res B :=
  match m with
  | Ok a => k a
  | Err e => Err e
  | Panic => Panic
  end.

(** [fmt.Errorf("<prefix>%w", err)]: only the message is observed. *)
Definition res_wrap {A} (prefix : gostring) (m : res A) : res A :=
  match m with
  | Err e => Err (prefix ++ e)
  | _ => m
  end.

Notation "'let*' x := m 'in' k" := (res_bind m (λ x, k))
  (at level 10, x pattern, m at level 100, k at level 200) : elbot_scope.

(** [if cond { return error }]. *)
Notation "'guard' c 'else' e ';;' k" := (if c then k else Err e)
  (at level 10, c at level 100, e at level 100, k at level 200) : elbot_scope.

Lemma res_bind_ok {A B} (m : res A) (k : A → res B) b :
  res_bind m k = Ok b ↔ ∃ a, m = Ok a ∧ k a = Ok b.
Proof. destruct m; simpl; (split; [intros ?; eauto | intros (? & [= <-] & ?)]); done. Qed.

Lemma res_bind_panic {A B} (m : res A) (k : A → res B) :
  res_bind m k = Panic ↔ m = Panic ∨ ∃ a, m = Ok a ∧ k a = Panic.
Proof. destruct m; simpl; (split; [intros ?; eauto | intros [[=]|(? & [= <-] & ?)]]); done. Qed.

Lemma res_wrap_ok {A} p (m : res A) a : res_wrap p m = Ok a ↔ m = Ok a.
Proof. destruct m; naive_solver. Qed.

Lemma res_wrap_panic {A} p (m : res A) : res_wrap p m = Panic ↔ m = Panic.
Proof. destruct m; naive_solver. Qed.

(** A Go loop that stops at the first error. *)
Fixpoint res_map {A B} (f : A → res B) (l : list A) : res (list B) :=
  match l with
  | [] => Ok []
  | x :: l => let* y := f x in let* ys := res_map f l in Ok (y :: ys)
  end.

Lemma res_map_ok {A B} (f : A → res B) l l' :
  res_map f l = Ok l' ↔ Forall2 (λ x y, f x = Ok y) l l'.
Proof.
  revert l'; induction l as [|x l IH]; intros l'; simpl.
  - split; [intros [= <-]; constructor | by inversion 1].
  - rewrite res_bind_ok; split.
    + intros (y & Hy & (ys & Hys & [= <-])%res_bind_ok).
      constructor; [done | by apply IH].
    + inversion 1; subst. eexists; split; [done|].
      apply res_bind_ok. eexists; split; [by apply IH|done].
Qed.

(** The outcome is not a panic, and a value satisfies [P]. *)
Definition res_post {A} (P : A → Prop) (m : res A) : Prop :=
  match m with
  | Ok a => P a
  | Err _ => True
  | Panic => False
  end.

Lemma res_post_mono {A} (P Q : A → Prop) m : (∀ a, P a → Q a) → res_post P m → res_post Q m.
Proof. destruct m; simpl; auto. Qed.

Lemma res_post_bind {A B} (P : A → Prop) (Q : B → Prop) m k :
  res_post P m → (∀ a, m = Ok a → P a → res_post Q (k a)) → res_post Q (res_bind m k).
Proof. destruct m; simpl; auto. Qed.

Lemma res_post_wrap {A} (P : A → Prop) p m : res_post P (res_wrap p m) ↔ res_post P m.
Proof. by destruct m. Qed.

Lemma res_post_map {A B} (f : A → res B) (P : B → Prop) l :
  Forall (λ x, res_post P (f x)) l → res_post (Forall P) (res_map f l).
Proof.
  induction 1 as [|x l Hx _ IH]; simpl; [constructor|].
  eapply res_post_bind; [exact Hx|]. intros y _ Hy.
  eapply res_post_bind; [exact IH|]. intros ys _ Hys. by constructor.
Qed.

Lemma res_post_ok {A} (P : A → Prop) m a : res_post P m → m = Ok a → P a.
Proof. by intros Hm ->. Qed.

(** ** Fixed-width integers *)
Definition max_int64 : Z := 9223372036854775807.
Definition wrap64 (z : Z) : Z := ((z + 2 ^ 63) mod 2 ^ 64 - 2 ^ 63)%Z.

Lemma wrap64_id z : (- 2 ^ 63 ≤ z < 2 ^ 63)%Z → wrap64 z = z.
Proof. intros. unfold wrap64. rewrite Z.mod_small; lia. Qed.

(** ** Tactics *)

(** Split conjunctions and existentials of the context. *)
Ltac cleanup :=
  repeat match goal with
  | H : _ ∧ _ |- _ => destruct H
  | H : ∃ _, _ |- _ => destruct H
  | H : (_, _) = (_, _) |- _ => injection H as H; subst
  | H : Some _ = Some _ |- _ => injection H as H; subst
  | H : Ok _ = Ok _ |- _ => injection H as H; subst
  | H : Ok _ = Err _ |- _ => discriminate H
  | H : Err _ = Ok _ |- _ => discriminate H
  | H : Panic = Ok _ |- _ => discriminate H
  | H : Ok _ = Panic |- _ => discriminate H
  | H : Err _ = Panic |- _ => discriminate H
  | H : Some _ = None |- _ => discriminate H
  | H : None = Some _ |- _ => discriminate H
  | H : true = false |- _ => discriminate H
  | H : false = true |- _ => discriminate H
  end.

(** Case analysis on the scrutinee of one [match] or [if] of a hypothesis. *)
Ltac case_in H :=
  match type of H with
  | context [match ?e with _ => _ end] => destruct e eqn:?
  end.

(** Booleans to propositions, in every hypothesis and the goal. *)
Create Rewrite HintDb boolprop.
#[export] Hint Rewrite andb_true_iff orb_true_iff negb_true_iff negb_false_iff andb_false_iff orb_false_iff
  Z.eqb_eq Z.eqb_neq Z.ltb_lt Z.ltb_ge Z.leb_le Z.leb_gt Z.gtb_lt
  Nat.eqb_eq Nat.eqb_neq Nat.ltb_lt Nat.ltb_ge Nat.leb_le Nat.leb_gt
  bool_decide_eq_true bool_decide_eq_false : boolprop.
Ltac propify := autorewrite with boolprop in *.

(** ** Lists *)

Lemma take_drop_middle' {A} (l : list A) i j :
  i ≤ j → take i l ++ take (j - i) (drop i l) ++ drop j l = l.
Proof.
  intros Hij. replace (drop j l) with (drop (j - i) (drop i l)) by (rewrite drop_drop; f_equal; lia).
  by rewrite !take_drop.
Qed.

Lemma NoDup_snoc {A} (l : list A) x : NoDup l → x ∉ l → NoDup (l ++ [x]).
Proof.
  intros Hl Hx. apply NoDup_app. split_and!; [done| |by apply NoDup_singleton].
  intros y Hy ->%list_elem_of_singleton. done.
Qed.

Lemma filter_all {A} (P : A → Prop) `{∀ x, Decision (P x)} (l : list A) : Forall P l → filter P l = l.
Proof. induction 1 as [|x l Hx _ IH]; [done|]. by rewrite filter_cons_True, IH. Qed.

Lemma Forall_snoc {A} (P : A → Prop) (l : list A) x : Forall P l → P x → Forall P (l ++ [x]).
Proof. intros. apply Forall_app; auto. Qed.

#[export] Hint Resolve Forall_snoc NoDup_snoc : core.
