(* ===== verification/Counting.v ===== *)
(** * Counting the threads of a system

    How many elements of a list satisfy a boolean predicate, and what replacing
    one element does to the number and to membership. *)
From S2P Require Import Prelude.
Open Scope nat_scope.

Definition b2n (b : bool) : nat := if b then 1 else 0.
Definition cnt {A} (f : A → bool) (l : list A) : nat := length (List.filter f l).
Arguments cnt : simpl never.
Lemma cnt_app {A} (f : A → bool) a b : cnt f (a ++ b) = cnt f a + cnt f b.
Proof. unfold cnt. by rewrite List.filter_app, length_app. Qed.
Lemma cnt_one {A} (f : A → bool) x : cnt f [x] = b2n (f x).
Proof. unfold cnt. cbn. by destruct (f x). Qed.
Lemma cnt_insert {A} (f : A → bool) l t x y : l !! t = Some x → cnt f (<[t := y]> l) + b2n (f x) = cnt f l + b2n (f y).
Proof.
  revert t. induction l as [|z l IH]; intros [|t] E; try done.
  - injection E as ->. unfold cnt. cbn. destruct (f x), (f y); cbn; lia.
  - change (<[S t:=y]> (z :: l)) with (z :: <[t:=y]> l). apply IH in E. unfold cnt in E |- *.
    cbn [List.filter]. destruct (f z); cbn [length]; lia.
Qed.
Lemma cnt_zero {A} (f : A → bool) l : cnt f l = 0 ↔ ∀ th, th ∈ l → f th = false.
Proof.
  unfold cnt. rewrite length_zero_iff_nil. split.
  - intros E th I. destruct (f th) eqn:F; [|done]. apply list_elem_of_In in I.
    assert (J : List.In th (List.filter f l)) by (by apply List.filter_In). by rewrite E in J.
  - intros H. induction l as [|x l IH]; [done|]. cbn. rewrite H by left. apply IH. intros th I. apply H. by right.
Qed.
Lemma cnt_one_inv {A} (f : A → bool) l i j x y : cnt f l ≤ 1 → l !! i = Some x → l !! j = Some y → f x = true → f y = true → i = j.
Proof.
  revert i j. induction l as [|z l IH]; intros [|i] [|j] C Ei Ej Fx Fy; cbn in *; try done.
  - injection Ei as ->. unfold cnt in C. cbn in C. rewrite Fx in C. cbn in C.
    assert (Z : cnt f l = 0) by (unfold cnt; lia). rewrite cnt_zero in Z. rewrite Z in Fy; [done|by eapply list_elem_of_lookup_2].
  - injection Ej as ->. unfold cnt in C. cbn in C. rewrite Fy in C. cbn in C.
    assert (Z : cnt f l = 0) by (unfold cnt; lia). rewrite cnt_zero in Z. rewrite Z in Fx; [done|by eapply list_elem_of_lookup_2].
  - f_equal. eapply IH; try done. unfold cnt in *. cbn in C. destruct (f z); cbn in C; lia.
Qed.
Lemma elem_insert_other {A} (l : list A) t x y z : l !! t = Some x → z ∈ l → z ≠ x → z ∈ <[t := y]> l.
Proof.
  intros E [i Ei]%list_elem_of_lookup_1 N. apply list_elem_of_lookup_2 with i.
  rewrite list_lookup_insert_ne; [done|]. intros ->. congruence.
Qed.
Lemma elem_insert_new {A} (l : list A) t x y : l !! t = Some x → y ∈ <[t := y]> l.
Proof. intros E. apply list_elem_of_lookup_2 with t. apply list_lookup_insert_eq. by eapply lookup_lt_Some. Qed.
Lemma elem_insert_inv {A} (l : list A) t y z : z ∈ <[t := y]> l → z = y ∨ z ∈ l.
Proof.
  intros [i Ei]%list_elem_of_lookup_1. apply list_lookup_insert_Some in Ei as [(_ & -> & _)|[_ Ei]]; [by left|right].
  by eapply list_elem_of_lookup_2.
Qed.

