(* ===== verification/GoStr.v ===== *)
(** * The parts of Go's [strings], [strconv], [unicode] and [unicode/utf8] the program uses

    Every function works on the bytes of a Go string. The [unicode] tables
    beyond ASCII are data of the Go library: they are the methods of the class
    [UnicodeTables], and nothing in the development depends on their contents. *)
From S2P Require Import Prelude.
Open Scope Z_scope.

Definition byte_val (c : ascii) : Z := Z.of_N (N_of_ascii c).
Definition byte_of (z : Z) : ascii := ascii_of_N (Z.to_N z).
Definition newline : ascii := "010".
Definition carriage : ascii := "013".

Lemma byte_val_range c : 0 ≤ byte_val c < 256.
Proof. unfold byte_val. pose proof (N_ascii_bounded c). lia. Qed.

(** ** Prefixes, suffixes, search *)
Fixpoint has_prefix (p s : gostring) : bool :=
  match p, s with
  | [], _ => true
  | a :: p, b :: s => bool_decide (a = b) && has_prefix p s
  | _ :: _, [] => false
  end.
Lemma has_prefix_spec p s : has_prefix p s = true ↔ ∃ r, s = p ++ r.
Proof.
  revert s; induction p as [|a p IH]; intros s; simpl; [by split; eauto|].
  destruct s as [|b s]; simpl; [by split; [|intros [? [=]]]|].
  rewrite andb_true_iff, bool_decide_eq_true, IH. split.
  - by intros [-> [r ->]]; eauto.
  - intros [r [= -> ->]]; eauto.
Qed.

Definition has_suffix (p s : gostring) : bool := has_prefix (rev p) (rev s).
Definition trim_prefix (p s : gostring) : gostring :=
  if has_prefix p s then drop (length p) s else s.
Definition trim_suffix (p s : gostring) : gostring :=
  if has_suffix p s then take (length s - length p) s else s.

(** [strings.Index]; [None] is -1. *)
Fixpoint index (needle s : gostring) : option nat :=
  if has_prefix needle s then Some O
  else match s with [] => None | _ :: s => S <$> index needle s end.
Definition contains (s needle : gostring) : bool :=
  match index needle s with Some _ => true | None => false end.
(** [strings.ContainsAny] for a set of ASCII characters. *)
Definition contains_any (s chars : gostring) : bool :=
  existsb (λ c, existsb (λ d, bool_decide (c = d)) chars) s.
(** [strings.Cut]: the parts around the first separator, and whether it was found. *)
Definition cut (sep s : gostring) : gostring * gostring * bool :=
  match index sep s with
  | Some i => (take i s, drop (i + length sep) s, true)
  | None => (s, [], false)
  end.
(** [strings.Count] for a one-byte separator. *)
Definition count_byte (c : ascii) (s : gostring) : nat :=
  length (filter (λ d, d = c) s).

(** ** Splitting, joining, replacing *)
Fixpoint split_byte (c : ascii) (s : gostring) : list gostring :=
  match s with
  | [] => [[]]
  | x :: s =>
    if bool_decide (x = c) then [] :: split_byte c s
    else match split_byte c s with
         | [] => [[x]]
         | h :: t => (x :: h) :: t
         end
  end.
Fixpoint join (sep : gostring) (l : list gostring) : gostring :=
  match l with
  | [] => []
  | [s] => s
  | s :: l => s ++ sep ++ join sep l
  end.

(** [strings.ReplaceAll] for a non-empty [old]: [skip] bytes of the current
    match are still to be passed over. *)
Fixpoint replace_go (old new : gostring) (skip : nat) (s : gostring) : gostring :=
  match s with
  | [] => []
  | x :: r =>
    match skip with
    | S k => replace_go old new k r
    | O => if has_prefix old s then new ++ replace_go old new (length old - 1) r
           else x :: replace_go old new 0 r
    end
  end.
Definition replace_all (s old new : gostring) : gostring := replace_go old new 0 s.

(** ** White space

    The code points of [unicode.IsSpace], in UTF-8. UTF-8 is
    self-synchronising and each encoding starts with an ASCII byte or a lead
    byte, so a rune boundary carries a white-space rune exactly when one of
    these byte sequences starts there. *)
Definition space_encodings : list gostring :=
  [["009"]; ["010"]; ["011"]; ["012"]; ["013"]; [" "];
   ["194"; "133"]; ["194"; "160"]; ["225"; "154"; "128"];
   ["226"; "128"; "128"]; ["226"; "128"; "129"]; ["226"; "128"; "130"]; ["226"; "128"; "131"];
   ["226"; "128"; "132"]; ["226"; "128"; "133"]; ["226"; "128"; "134"]; ["226"; "128"; "135"];
   ["226"; "128"; "136"]; ["226"; "128"; "137"]; ["226"; "128"; "138"];
   ["226"; "128"; "168"]; ["226"; "128"; "169"]; ["226"; "128"; "175"];
   ["226"; "129"; "159"]; ["227"; "128"; "128"]]%char.

(** The length of the encoding of [encs] that starts [s]; 0 when there is none. *)
Definition enc_at (encs : list gostring) (s : gostring) : nat :=
  match List.find (λ e, has_prefix e s) encs with
  | Some e => length e
  | None => O
  end.
Fixpoint strip (encs : list gostring) (skip : nat) (s : gostring) : gostring :=
  match s with
  | [] => []
  | x :: r =>
    match skip with
    | S k => strip encs k r
    | O => match enc_at encs s with
           | O => s
           | S k => strip encs k r
           end
    end
  end.
Definition trim_left_space (s : gostring) : gostring := strip space_encodings 0 s.
Definition trim_right_space (s : gostring) : gostring :=
  rev (strip (map (@rev ascii) space_encodings) 0 (rev s)).
Definition trim_space (s : gostring) : gostring := trim_right_space (trim_left_space s).

(** [strings.TrimLeft(s, " \t")]. *)
Fixpoint trim_left_blank (s : gostring) : gostring :=
  match s with
  | (" " | "009")%char :: r => trim_left_blank r
  | _ => s
  end.

(** [strings.Fields]; [cur] is the field being read, reversed. *)
Fixpoint fields_go (skip : nat) (cur : gostring) (s : gostring) : list gostring :=
  match s with
  | [] => match cur with [] => [] | _ => [rev cur] end
  | x :: r =>
    match skip with
    | S k => fields_go k cur r
    | O => match enc_at space_encodings s with
           | O => fields_go 0 (x :: cur) r
           | S k => match cur with
                    | [] => fields_go k [] r
                    | _ => rev cur :: fields_go k [] r
                    end
           end
    end
  end.
Definition fields (s : gostring) : list gostring := fields_go 0 [] s.

(** ** UTF-8 *)
Definition rune_error : Z := 65533.
Definition in_range (lo hi : Z) (c : ascii) : bool := (lo <=? byte_val c) && (byte_val c <=? hi).
Definition cont (c : ascii) : Z := byte_val c - 128.

(** [utf8.DecodeRune] of a non-empty string: the rune and its width; an
    invalid sequence gives ([rune_error], 1). *)
Definition decode_rune (s : gostring) : Z * nat :=
  match s with
  | [] => (rune_error, O)
  | c0 :: r =>
    let b0 := byte_val c0 in
    let two lo hi base :=
      match r with
      | c1 :: _ => if in_range lo hi c1 then (base + cont c1, 2%nat) else (rune_error, 1%nat)
      | _ => (rune_error, 1%nat)
      end in
    let three lo hi base :=
      match r with
      | c1 :: c2 :: _ =>
        if in_range lo hi c1 && in_range 128 191 c2
        then (base + cont c1 * 64 + cont c2, 3%nat) else (rune_error, 1%nat)
      | _ => (rune_error, 1%nat)
      end in
    let four lo hi base :=
      match r with
      | c1 :: c2 :: c3 :: _ =>
        if in_range lo hi c1 && in_range 128 191 c2 && in_range 128 191 c3
        then (base + cont c1 * 4096 + cont c2 * 64 + cont c3, 4%nat) else (rune_error, 1%nat)
      | _ => (rune_error, 1%nat)
      end in
    if b0 <? 128 then (b0, 1%nat)
    else if b0 <? 194 then (rune_error, 1%nat)
    else if b0 <? 224 then two 128 191 ((b0 - 192) * 64)
    else if b0 =? 224 then three 160 191 0
    else if b0 =? 237 then three 128 159 ((b0 - 224) * 4096)
    else if b0 <? 240 then three 128 191 ((b0 - 224) * 4096)
    else if b0 =? 240 then four 144 191 0
    else if b0 <? 244 then four 128 191 ((b0 - 240) * 262144)
    else if b0 =? 244 then four 128 143 1048576
    else (rune_error, 1%nat)
  end.

(** [for idx, r := range s]: the runes with their widths; [skip] bytes of the
    current rune are still to be passed over. *)
Fixpoint runes_go (skip : nat) (s : gostring) : list (Z * nat) :=
  match s with
  | [] => []
  | _ :: r =>
    match skip with
    | S k => runes_go k r
    | O => let '(c, w) := decode_rune s in (c, w) :: runes_go (w - 1) r
    end
  end.
Definition runes (s : gostring) : list (Z * nat) := runes_go 0 s.

Definition encode_rune (r : Z) : gostring :=
  let r := if ((0 <=? r) && (r <? 55296)) || ((57344 <=? r) && (r <=? 1114111)) then r else rune_error in
  if r <? 128 then [byte_of r]
  else if r <? 2048 then [byte_of (192 + r / 64); byte_of (128 + r mod 64)]
  else if r <? 65536 then [byte_of (224 + r / 4096); byte_of (128 + r / 64 mod 64); byte_of (128 + r mod 64)]
  else [byte_of (240 + r / 262144); byte_of (128 + r / 4096 mod 64);
        byte_of (128 + r / 64 mod 64); byte_of (128 + r mod 64)].

(** [utf8.Valid]. *)
Definition utf8_valid (s : gostring) : bool :=
  forallb (λ '(r, w), negb ((r =? rune_error) && Nat.eqb w 1)) (runes s).

(** ** The [unicode] tables *)
Class UnicodeTables := {
  table_letter : Z → bool;
  table_digit : Z → bool;
  table_print : Z → bool;
  table_lower : Z → Z
}.

(** A concrete instance for evaluations: no letter, digit or printable rune beyond ASCII. *)
Definition ascii_tables : UnicodeTables :=
  {| table_letter := λ _, false; table_digit := λ _, false;
     table_print := λ _, false; table_lower := λ r, r |}.

Definition ascii_lower (c : ascii) : ascii :=
  if in_range 65 90 c then byte_of (byte_val c + 32) else c.
Definition is_ascii (c : ascii) : bool := byte_val c <? 128.

(** [strings.EqualFold] against a target made of ASCII letters with no
    non-ASCII case variant (every lower-case letter except k and s). *)
Definition equal_fold_ascii (s target : gostring) : bool :=
  bool_decide (map ascii_lower s = map ascii_lower target).

Section Unicode.
Context `{UnicodeTables}.

Definition is_letter (r : Z) : bool :=
  if r <? 128 then ((65 <=? r) && (r <=? 90)) || ((97 <=? r) && (r <=? 122)) else table_letter r.
Definition is_digit (r : Z) : bool :=
  if r <? 128 then (48 <=? r) && (r <=? 57) else table_digit r.
Definition is_print (r : Z) : bool :=
  if r <? 128 then (32 <=? r) && (r <? 127) else table_print r.

(** [strings.ToLower]. *)
Definition to_lower (s : gostring) : gostring :=
  if forallb is_ascii s then map ascii_lower s
  else concat (map (λ '(r, _), encode_rune
                    (if r <? 128 then (if (65 <=? r) && (r <=? 90) then r + 32 else r)
                     else table_lower r)) (runes s)).
End Unicode.

(** ** Numbers *)
Definition digit_char (d : Z) : ascii := byte_of (48 + d).
Fixpoint digits_go (fuel : nat) (n : Z) (acc : gostring) : gostring :=
  match fuel with
  | O => acc
  | S fuel => let acc := digit_char (n mod 10) :: acc in
              if n / 10 =? 0 then acc else digits_go fuel (n / 10) acc
  end.
(** [fmt.Sprint] of an integer: 20 decimal digits hold every 64-bit value. *)
Definition itoa (n : Z) : gostring :=
  if n <? 0 then "-"%char :: digits_go 20 (- n) [] else digits_go 20 n [].

Fixpoint parse_digits (acc : Z) (s : gostring) : option Z :=
  match s with
  | [] => Some acc
  | c :: s => if in_range 48 57 c then parse_digits (acc * 10 + (byte_val c - 48)) s else None
  end.
Definition parse_unsigned (s : gostring) : option Z :=
  match s with [] => None | _ => parse_digits 0 s end.
(** [strconv.Atoi] on a 64-bit platform; [None] is a syntax or range error. *)
Definition atoi (s : gostring) : option Z :=
  let in64 z := if (- 2 ^ 63 <=? z) && (z <? 2 ^ 63) then Some z else None in
  match s with
  | "-"%char :: r => match parse_unsigned r with Some n => in64 (- n) | None => None end
  | "+"%char :: r => match parse_unsigned r with Some n => in64 n | None => None end
  | _ => match parse_unsigned s with Some n => in64 n | None => None end
  end.

(** ** [strconv.Quote] ([%q]) *)
Definition hex_digit (d : Z) : ascii := if d <? 10 then byte_of (48 + d) else byte_of (87 + d).
Definition hex2 (r : Z) : gostring := [hex_digit (r / 16); hex_digit (r mod 16)].
Definition hex4 (r : Z) : gostring := hex2 (r / 256) ++ hex2 (r mod 256).
Definition dquote : ascii := "034".

Section Quote.
Context `{UnicodeTables}.

Definition quote_rune (raw : gostring) (r : Z) (w : nat) : gostring :=
  if (r =? rune_error) && Nat.eqb w 1 then
    match raw with c :: _ => §"\x" ++ hex2 (byte_val c) | [] => [] end
  else if (r =? 34) || (r =? 92) then "\"%char :: encode_rune r
  else if is_print r then encode_rune r
  else if r =? 7 then §"\a" else if r =? 8 then §"\b" else if r =? 12 then §"\f"
  else if r =? 10 then §"\n" else if r =? 13 then §"\r" else if r =? 9 then §"\t"
  else if r =? 11 then §"\v"
  else if (r <? 32) || (r =? 127) then §"\x" ++ hex2 r
  else if r <? 65536 then §"\u" ++ hex4 r
  else §"\U" ++ hex4 (r / 65536) ++ hex4 (r mod 65536).

Fixpoint quote_go (skip : nat) (s : gostring) : gostring :=
  match s with
  | [] => []
  | _ :: r =>
    match skip with
    | S k => quote_go k r
    | O => let '(c, w) := decode_rune s in quote_rune s c w ++ quote_go (w - 1) r
    end
  end.
Definition quote (s : gostring) : gostring := dquote :: quote_go 0 s ++ [dquote].
End Quote.

(** * Lemmas on the string functions of GoStr.v *)
Local Open Scope nat_scope.

(** ** Substring search *)
Lemma has_prefix_length p s : has_prefix p s = true → length p ≤ length s.
Proof. intros [r ->]%has_prefix_spec. rewrite length_app. lia. Qed.

Lemma has_prefix_single c s : has_prefix [c] s = true ↔ head s = Some c.
Proof.
  destruct s as [|d s]; cbn [has_prefix head]; [done|].
  rewrite andb_true_r, bool_decide_eq_true. naive_solver.
Qed.

Lemma index_some n s i : index n s = Some i →
  i + length n ≤ length s ∧ has_prefix n (drop i s) = true
  ∧ ∀ j, j < i → has_prefix n (drop j s) = false.
Proof.
  revert i; induction s as [|x s IH]; intros i; cbn [index].
  - destruct (has_prefix n []) eqn:Hp; [|done]. intros [= <-].
    split_and!; [by apply has_prefix_length in Hp | done | lia].
  - destruct (has_prefix n (x :: s)) eqn:Hp.
    + intros [= <-]. split_and!; [by apply has_prefix_length in Hp | done | lia].
    + destruct (index n s) as [k|] eqn:Hk; [|done]. intros [= <-].
      destruct (IH k eq_refl) as (? & ? & Hj). cbn [length drop].
      split_and!; [lia | done |]. intros [|j] ?; [done|]. apply Hj. lia.
Qed.

Lemma index_none n s : index n s = None → ∀ j, has_prefix n (drop j s) = false.
Proof.
  induction s as [|x s IH]; cbn [index]; intros Hi j.
  - rewrite drop_nil. by destruct (has_prefix n []).
  - destruct (has_prefix n (x :: s)) eqn:Hp; [done|].
    destruct (index n s); [done|]. destruct j; [done | by apply IH].
Qed.

Lemma index_byte_none c s : index [c] s = None → c ∉ s.
Proof.
  intros Hi [j Hj]%list_elem_of_lookup. pose proof (index_none _ _ Hi j) as Hp.
  assert (has_prefix [c] (drop j s) = true) by
    (apply has_prefix_single; by rewrite head_lookup, lookup_drop, Nat.add_0_r).
  congruence.
Qed.

Lemma index_byte_some c s i : index [c] s = Some i → s !! i = Some c ∧ c ∉ take i s.
Proof.
  intros (_ & Hp & Hj)%index_some. split.
  - apply has_prefix_single in Hp. by rewrite head_lookup, lookup_drop, Nat.add_0_r in Hp.
  - intros [j [Hlt Hl]%lookup_take_Some]%list_elem_of_lookup.
    assert (has_prefix [c] (drop j s) = true) as H1; [|rewrite Hj in H1; [done|lia]].
    apply has_prefix_single. by rewrite head_lookup, lookup_drop, Nat.add_0_r.
Qed.

Lemma contains_spec s n : contains s n = true ↔ ∃ a b, s = a ++ n ++ b.
Proof.
  unfold contains. split.
  - destruct (index n s) as [i|] eqn:Hi; [|done]. intros _.
    apply index_some in Hi as (_ & [r Hr]%has_prefix_spec & _).
    exists (take i s), r. by rewrite <- Hr, take_drop.
  - intros (a & b & ->). destruct (index n (a ++ n ++ b)) eqn:Hi; [done|].
    pose proof (index_none _ _ Hi (length a)) as Hf. rewrite drop_app_length in Hf.
    assert (has_prefix n (n ++ b) = true) by (apply has_prefix_spec; eauto). congruence.
Qed.

Lemma contains_false s n c : c ∈ n → c ∉ s → contains s n = false.
Proof.
  intros Hn Hs. apply not_true_iff_false. intros (a & b & ->)%contains_spec. set_solver.
Qed.


(** ** Suffixes, splitting, replacing *)
Lemma has_suffix_last c s : has_suffix [c] s = bool_decide (last s = Some c).
Proof.
  unfold has_suffix. change (rev [c]) with [c]. apply eq_bool_prop_intro.
  rewrite !Is_true_true, has_prefix_single, bool_decide_eq_true.
  induction s as [|x s _] using rev_ind; [done|]. by rewrite rev_unit, last_snoc.
Qed.

Lemma split_byte_free c s : c ∉ s → split_byte c s = [s].
Proof.
  induction s as [|x s IH]; [done|]. intros [Hx Hs]%not_elem_of_cons.
  cbn [split_byte]. by rewrite bool_decide_eq_false_2, IH.
Qed.

Lemma split_byte_app c a r : c ∉ a → split_byte c (a ++ c :: r) = a :: split_byte c r.
Proof.
  induction a as [|x a IH]; cbn [app split_byte].
  - by rewrite bool_decide_eq_true_2.
  - intros [Hx Hs]%not_elem_of_cons. by rewrite bool_decide_eq_false_2, IH.
Qed.

Lemma replace_byte old new s : replace_all s [old] new = s ≫= λ c, if bool_decide (c = old) then new else [c].
Proof.
  unfold replace_all. induction s as [|x s IH]; [done|].
  cbn [replace_go has_prefix]. rewrite andb_true_r.
  change (mbind ?f (x :: s)) with (f x ++ mbind f s). cbn beta. rewrite <- IH.
  by case_bool_decide; case_bool_decide; subst.
Qed.


(** ** Trimming white space *)
Definition foreign (encs : list gostring) (c : ascii) : bool :=
  forallb (λ e, forallb (λ d, negb (bool_decide (d = c))) e) encs.
Lemma foreign_spec encs c : foreign encs c = true → ∀ e, e ∈ encs → c ∉ e.
Proof.
  unfold foreign. rewrite forallb_forall. intros Hf e He Hc. specialize (Hf e (proj1 (list_elem_of_In _ _) He)).
  rewrite forallb_forall in Hf. specialize (Hf c (proj1 (list_elem_of_In _ _) Hc)).
  by rewrite bool_decide_eq_true_2 in Hf.
Qed.
Lemma enc_at_find encs s : enc_at encs s ≠ 0 → ∃ e, e ∈ encs ∧ has_prefix e s = true ∧ length e = enc_at encs s.
Proof.
  unfold enc_at. destruct (List.find _ encs) as [e|] eqn:Hf; [|done]. intros _.
  apply find_some in Hf as [He Hp]. exists e. by rewrite list_elem_of_In.
Qed.
Lemma strip_stop encs c b : foreign encs c = true → Forall (λ e, e ≠ []) encs → ∀ a skip, skip ≤ length a →
  ∃ a', strip encs skip (a ++ c :: b) = a' ++ c :: b.
Proof.
  intros Hc Hne a. induction a as [|x a IH]; intros skip Hs.
  - assert (skip = 0) as -> by (simpl in Hs; lia). exists []. simpl.
    destruct (enc_at encs (c :: b)) eqn:He; [done|]. destruct (enc_at_find encs (c :: b)) as (e & Hin & Hp & _); [lia|].
    pose proof (foreign_spec _ _ Hc e Hin) as Hn. rewrite Forall_forall in Hne. specialize (Hne e Hin).
    destruct e as [|d e]; [done|]. simpl in Hp. apply andb_true_iff in Hp as [Hd _]. apply bool_decide_eq_true in Hd as ->.
    by destruct Hn; left.
  - destruct skip as [|k]; cbn [app strip].
    + destruct (enc_at encs (x :: a ++ c :: b)) as [|n] eqn:He; [by exists (x :: a)|].
      destruct (enc_at_find encs (x :: a ++ c :: b)) as (e & Hin & Hp & Hlen); [lia|]. apply IH.
      apply has_prefix_spec in Hp as [r Hr]. rewrite He in Hlen. destruct (decide (n ≤ length a)); [done|exfalso].
      apply (foreign_spec _ _ Hc e Hin). apply (list_elem_of_lookup_2 _ (S (length a))).
      rewrite <- (lookup_app_l e r) by lia. rewrite <- Hr. change (x :: a ++ c :: b) with ((x :: a) ++ c :: b).
      by rewrite lookup_app_r, Nat.sub_diag by (simpl; lia).
    + simpl in Hs. destruct (IH k) as [a' Ha]; [lia|]. by exists a'.
Qed.

(** A word that starts and ends with characters of no white-space encoding stays. *)
Lemma trim_space_word x w c r : foreign space_encodings x = true → foreign space_encodings c = true →
  ∃ r', trim_space (x :: w ++ c :: r) = x :: w ++ c :: r'.
Proof.
  intros Hx Hc. unfold trim_space, trim_left_space.
  assert (strip space_encodings 0 (x :: w ++ c :: r) = x :: w ++ c :: r) as ->.
  { cbn [strip]. destruct (enc_at _ _) eqn:He; [done|].
    destruct (enc_at_find space_encodings (x :: w ++ c :: r)) as (e & Hin & Hp & Hl); [lia|].
    pose proof (foreign_spec _ _ Hx e Hin) as Hn. destruct e as [|d e]; [simpl in Hl; lia|].
    simpl in Hp. apply andb_true_iff in Hp as [Hd _]. apply bool_decide_eq_true in Hd as ->. by destruct Hn; left. }
  unfold trim_right_space.
  assert (rev (x :: w ++ c :: r) = rev r ++ c :: rev (x :: w)) as ->.
  { simpl. rewrite rev_app_distr. simpl. by rewrite <- !app_assoc. }
  destruct (strip_stop (map (@rev ascii) space_encodings) c (rev (x :: w))) with (a := rev r) (skip := 0) as [a' ->].
  - unfold foreign in *. rewrite forallb_forall in Hc |- *. intros e (e' & <- & He')%in_map_iff. specialize (Hc _ He').
    rewrite forallb_forall in Hc |- *. intros d Hd%in_rev. by apply Hc.
  - apply Forall_forall. intros e He. apply list_elem_of_fmap in He as (e' & -> & He'). intros Hn.
    assert (e' = []) as -> by (destruct e' using rev_ind; [done|by rewrite rev_unit in Hn]).
    apply list_elem_of_In in He'. unfold space_encodings in He'. simpl in He'. intuition congruence.
  - lia.
  - exists (rev a'). rewrite rev_app_distr. simpl. rewrite rev_app_distr. simpl. by rewrite rev_involutive, <- !app_assoc.
Qed.

(** Trimming twice is trimming once. *)
Lemma strip_fixed encs s : enc_at encs s = 0 → strip encs 0 s = s.
Proof. destruct s; [done|]. cbn. by intros ->. Qed.
Lemma strip_result encs s : ∀ skip, strip encs skip s = [] ∨ enc_at encs (strip encs skip s) = 0.
Proof.
  induction s as [|x s IH]; intros skip; [by left|]. cbn [strip]. destruct skip; [|apply IH].
  destruct (enc_at encs (x :: s)) eqn:E; [by right|apply IH].
Qed.
Lemma strip_suffix encs s : ∀ skip, ∃ p, s = p ++ strip encs skip s.
Proof.
  induction s as [|x s IH]; intros skip; [by exists []|]. cbn [strip].
  destruct skip as [|k]; [destruct (enc_at encs (x :: s)) as [|k]; [by exists []|]|]; destruct (IH k) as [p E]; exists (x :: p); cbn; congruence.
Qed.
Lemma has_prefix_more e a b : has_prefix e a = true → has_prefix e (a ++ b) = true.
Proof. intros [r ->]%has_prefix_spec. apply has_prefix_spec. exists (r ++ b). by rewrite app_assoc. Qed.
Lemma enc_at_app encs a b : Forall (λ e, e ≠ []) encs → enc_at encs (a ++ b) = 0 → enc_at encs a = 0.
Proof.
  intros Ne E. unfold enc_at in *. destruct (List.find (λ e, has_prefix e a) encs) as [e|] eqn:F; [|done]. exfalso.
  apply find_some in F as [I P]. apply (has_prefix_more _ _ b) in P.
  destruct (List.find (λ e, has_prefix e (a ++ b)) encs) as [e'|] eqn:F'.
  - apply find_some in F' as [I' _]. rewrite Forall_forall in Ne. apply list_elem_of_In in I'. specialize (Ne _ I'). by destruct e'.
  - by rewrite (find_none _ _ F' _ I) in P.
Qed.
Lemma trim_space_idem s : trim_space (trim_space s) = trim_space s.
Proof.
  unfold trim_space at 2 3. set (y := trim_left_space s). set (z := trim_right_space y).
  assert (L : trim_left_space z = z).
  { unfold trim_left_space. destruct z as [|c z'] eqn:Ez; [done|]. apply strip_fixed. rewrite <- Ez.
    destruct (strip_suffix (map (@rev ascii) space_encodings) (rev y) 0) as [p E].
    assert (Ey : y = z ++ rev p).
    { unfold z, trim_right_space. rewrite <- rev_app_distr, <- E. by rewrite rev_involutive. }
    apply (enc_at_app _ z (rev p)); [|rewrite <- Ey].
    - unfold space_encodings. repeat constructor; done.
    - unfold y, trim_left_space. destruct (strip_result space_encodings s 0) as [N|N]; [|exact N].
      unfold y, trim_left_space in Ey. rewrite N, Ez in Ey. done. }
  unfold trim_space. rewrite L. unfold z, trim_right_space. rewrite rev_involutive. f_equal.
  destruct (strip_result (map (@rev ascii) space_encodings) (rev y) 0) as [N|N]; [by rewrite N|by apply strip_fixed].
Qed.

Lemma to_lower_head `{UnicodeTables} c s : is_ascii c = true → head (to_lower (c :: s)) = Some (ascii_lower c).
Proof.
  intros Hc. unfold to_lower. case_match eqn:Ha; [done|]. unfold runes. cbn [runes_go].
  assert (decode_rune (c :: s) = (byte_val c, 1)) as ->.
  { unfold is_ascii in Hc. unfold decode_rune. by rewrite Hc. }
  cbn [map concat]. unfold is_ascii in Hc. rewrite Hc. revert Hc. clear. destruct c as [[] [] [] [] [] [] [] []]; by vm_compute.
Qed.
