(* ===== verification/GoPath.v ===== *)
(** * Slash-separated paths: the operations of Go's [path] and, on Unix, of [path/filepath]

    [Clean] works on the components between slashes: empty and dot components
    vanish and a double dot removes the component before it, or stays in front of
    a relative path. *)
From S2P Require Import Prelude GoStr.
Open Scope nat_scope.

(** [strings.Trim] with a set of ASCII characters. *)
Fixpoint trim_left_set (cutset s : gostring) : gostring :=
  match s with c :: r => if bool_decide (c ∈ cutset) then trim_left_set cutset r else s | [] => [] end.
Definition trim_set (cutset s : gostring) : gostring := rev (trim_left_set cutset (rev (trim_left_set cutset s))).

Definition slash : ascii := "/".
Definition dotdot : gostring := §"..".
Definition IsAbs (p : gostring) : bool := has_prefix [slash] p.

(** The components kept so far, innermost first. *)
Definition clean_step (rooted : bool) (out : list gostring) (part : gostring) : list gostring :=
  if bool_decide (part = [] ∨ part = §".") then out
  else if bool_decide (part = dotdot) then
    match out with
    | [] => if rooted then [] else [dotdot]
    | top :: rest => if bool_decide (top = dotdot) then dotdot :: out else rest
    end
  else part :: out.
Definition clean_parts (rooted : bool) (p : gostring) : list gostring :=
  rev (foldl (clean_step rooted) [] (split_byte slash p)).
Definition Clean (p : gostring) : gostring :=
  let parts := clean_parts (IsAbs p) p in
  if IsAbs p then slash :: join [slash] parts
  else match parts with [] => §"." | _ => join [slash] parts end.
(** [Join] of two elements: an empty one is left out. *)
Definition Join (a b : gostring) : gostring :=
  match a, b with
  | [], [] => []
  | [], _ => Clean b
  | _, [] => Clean a
  | _, _ => Clean (a ++ slash :: b)
  end.
(** [filepath.Abs] under the working directory [cwd], itself absolute. *)
Definition Abs (cwd p : gostring) : gostring := if IsAbs p then Clean p else Join cwd p.
(** [filepath.Rel] of two absolute paths. *)
Fixpoint drop_common (a b : list gostring) : list gostring * list gostring :=
  match a, b with
  | x :: a', y :: b' => if bool_decide (x = y) then drop_common a' b' else (a, b)
  | _, _ => (a, b)
  end.
Definition Rel (base target : gostring) : gostring :=
  let '(up, down) := drop_common (clean_parts true base) (clean_parts true target) in
  match up, down with
  | [], [] => §"."
  | _, _ => join [slash] (map (λ _, dotdot) up ++ down)
  end.
(** [filepath.Ext]: from the last dot of the last component on. *)
Definition Ext (p : gostring) : gostring :=
  let name := default [] (last (split_byte slash p)) in
  match last (split_byte "." name) with
  | Some e => if bool_decide (length (split_byte "." name) = 1) then [] else ("."%char :: e)
  | None => []
  end.

(** ** Walking a relative path: how deep below the start it is after each component *)
Fixpoint walk_depth (d : nat) (parts : list gostring) : option nat :=
  match parts with
  | [] => Some d
  | part :: parts =>
    if bool_decide (part = [] ∨ part = §".") then walk_depth d parts
    else if bool_decide (part = dotdot) then match d with O => None | S d => walk_depth d parts end
    else walk_depth (S d) parts
  end.
(** The path never leaves the directory it starts from. *)
Definition stays_inside (p : gostring) : Prop := is_Some (walk_depth 0 (split_byte slash p)).
#[export] Instance stays_inside_dec p : Decision (stays_inside p) := _.

(** ** Components *)
Lemma split_byte_no c s : Forall (λ p, c ∉ p) (split_byte c s).
Proof.
  induction s as [|x s IH]; cbn; [repeat constructor; apply not_elem_of_nil|].
  destruct (decide (x = c)) as [E|E].
  - rewrite (bool_decide_eq_true_2 _ E). constructor; [apply not_elem_of_nil|exact IH].
  - rewrite (bool_decide_eq_false_2 _ E). destruct (split_byte c s) as [|h t]; [repeat constructor; by rewrite list_elem_of_singleton|].
    inversion IH; subst. constructor; [by rewrite not_elem_of_cons|done].
Qed.

(** What a component of a cleaned path is: no separator, not empty, no dot. *)
Definition plain (part : gostring) : Prop := (slash ∉ part) ∧ part ≠ [] ∧ part ≠ §".".
Lemma dotdot_plain : plain dotdot.
Proof. unfold plain. by split_and!; [apply (bool_decide_unpack (slash ∉ dotdot))| |]. Qed.
Lemma clean_step_plain rooted out part : slash ∉ part → Forall plain out → Forall plain (clean_step rooted out part).
Proof.
  intros N F. unfold clean_step. case_bool_decide as E; [done|]. case_bool_decide as D.
  - destruct out as [|top rest]; [destruct rooted; repeat constructor; apply dotdot_plain|].
    case_bool_decide; [constructor; [apply dotdot_plain|done]|]. by inversion F.
  - constructor; [split; [done|tauto]|done].
Qed.
Lemma clean_parts_plain rooted p : Forall plain (clean_parts rooted p).
Proof.
  unfold clean_parts. apply List.Forall_rev.
  assert (H : ∀ parts out, Forall (λ q, slash ∉ q) parts → Forall plain out → Forall plain (foldl (clean_step rooted) out parts)).
  { induction parts as [|q parts IH]; intros out N F; cbn; [done|]. inversion N; subst. apply IH; [done|]. by apply clean_step_plain. }
  apply H; [apply split_byte_no|constructor].
Qed.

(** As long as the walk stays inside, the components kept are exactly its depth, hold no
    double dot, and do not depend on what was below the start. *)
Lemma clean_inside rooted under parts : ∀ out d, Forall (λ q, q ≠ dotdot) out → walk_depth (length out) parts = Some d →
  Forall (λ q, q ≠ dotdot) (foldl (clean_step rooted) out parts) ∧ length (foldl (clean_step rooted) out parts) = d
  ∧ ∀ rooted', foldl (clean_step rooted') (out ++ under) parts = foldl (clean_step rooted) out parts ++ under.
Proof.
  induction parts as [|q parts IH]; intros out d F W; cbn in *; [split_and!; congruence|].
  unfold clean_step at 2 4 6 8. case_bool_decide as E; [by apply IH|]. case_bool_decide as D.
  - destruct out as [|top rest]; [done|]. cbn in W. inversion F as [|? ? Ht Fr]; subst.
    cbn. rewrite (bool_decide_eq_false_2 _ Ht). by apply IH.
  - apply (IH (q :: out)); [by constructor|done].
Qed.
(** Once it leaves, a double dot stays in front for good. *)
Lemma clean_outside_stays parts : ∀ out, last out = Some dotdot → last (foldl (clean_step false) out parts) = Some dotdot.
Proof.
  induction parts as [|q parts IH]; intros out L; cbn; [done|]. apply IH. unfold clean_step.
  case_bool_decide as E; [done|]. case_bool_decide as D.
  - destruct out as [|top rest]; [done|]. case_bool_decide as T.
    + by rewrite last_cons, L.
    + rewrite last_cons in L. destruct (last rest) eqn:R; [congruence|by injection L as ->].
  - rewrite last_cons, L. done.
Qed.
Lemma clean_outside parts : ∀ out, Forall (λ q, q ≠ dotdot) out → walk_depth (length out) parts = None →
  last (foldl (clean_step false) out parts) = Some dotdot.
Proof.
  induction parts as [|q parts IH]; intros out F W; cbn in *; [done|]. unfold clean_step at 2.
  case_bool_decide as E; [by apply IH|]. case_bool_decide as D.
  - destruct out as [|top rest]; [by apply clean_outside_stays|]. cbn in W. inversion F as [|? ? Ht Fr]; subst.
    rewrite (bool_decide_eq_false_2 _ Ht). by apply IH.
  - apply (IH (q :: out)); [by constructor|done].
Qed.

(** ** Components and the path they form *)
Lemma split_join l : l ≠ [] → Forall (λ q, slash ∉ q) l → split_byte slash (join [slash] l) = l.
Proof.
  induction l as [|a [|b l] IH]; intros NE F; [done| |]; inversion F; subst; [by apply split_byte_free|].
  change (join [slash] (a :: b :: l)) with (a ++ slash :: join [slash] (b :: l)).
  rewrite split_byte_app by done. by rewrite IH.
Qed.
Lemma join_not_abs l : Forall plain l → IsAbs (join [slash] l) = false.
Proof.
  intros F. destruct l as [|a l]; [done|]. inversion F as [|? ? [N [E _]] _]; subst.
  destruct a as [|c a]; [done|]. unfold IsAbs.
  assert (c ≠ slash) by (intros ->; apply N; left).
  destruct l; cbn -[slash]; by rewrite bool_decide_eq_false_2.
Qed.
Lemma clean_relative p : IsAbs p = false → clean_parts false p ≠ [] → split_byte slash (Clean p) = clean_parts false p.
Proof.
  intros R N. unfold Clean. rewrite R. destruct (clean_parts false p) as [|a l] eqn:E; [done|].
  apply split_join; [done|]. rewrite <- E. eapply Forall_impl; [apply clean_parts_plain|]. by intros q [? _].
Qed.

(** A relative path leaves its start exactly when its clean form starts with a double dot. *)
Definition escapes (p : gostring) : bool := bool_decide (Clean p = dotdot) || has_prefix (dotdot ++ [slash]) (Clean p).
Lemma escapes_head p : IsAbs p = false → escapes p = true ↔ head (clean_parts false p) = Some dotdot.
Proof.
  intros R. destruct (decide (clean_parts false p = [])) as [N|N].
  { assert (C : Clean p = §".") by (unfold Clean; by rewrite R, N). unfold escapes. by rewrite C, N. }
  pose proof (clean_relative p R N) as S. unfold escapes. rewrite orb_true_iff, bool_decide_eq_true. split.
  - intros [C|C]; rewrite <- S; [by rewrite C|]. apply has_prefix_spec in C as [r C]. rewrite C, <- app_assoc.
    cbn [app]. rewrite split_byte_app; [done|]. apply dotdot_plain.
  - intros H. unfold Clean. rewrite R. destruct (clean_parts false p) as [|a l]; [done|]. injection H as ->.
    destruct l as [|b l]; [by left|right]. apply has_prefix_spec. by eexists.
Qed.
Lemma head_rev {A} (l : list A) : head (rev l) = last l.
Proof. induction l as [|a l IH] using rev_ind; [done|]. by rewrite rev_unit, last_snoc. Qed.
Lemma escapes_iff p : IsAbs p = false → escapes p = false ↔ stays_inside p.
Proof.
  intros R. rewrite <- not_true_iff_false, (escapes_head p R). unfold clean_parts, stays_inside. rewrite head_rev.
  destruct (walk_depth 0 (split_byte slash p)) as [d|] eqn:W.
  - split; [by eexists|]. intros _ L.
    destruct (clean_inside false [] (split_byte slash p) [] d ltac:(constructor) W) as [F _].
    apply last_Some_elem_of in L. by rewrite Forall_forall in F; apply (F _ L).
  - split; [|by intros [? ?]]. intros H. destruct H. by apply (clean_outside _ []).
Qed.

(** Joining a path that stays inside to an absolute directory gives a path below that directory. *)
Lemma split_byte_slash a b : split_byte slash (a ++ slash :: b) = split_byte slash a ++ split_byte slash b.
Proof.
  induction a as [|x a IH]; [done|]. cbn [app split_byte]. case_bool_decide; [by rewrite IH|].
  rewrite IH. pose proof (split_byte_no slash a). destruct (split_byte slash a) eqn:E; [|done].
  by destruct a as [|y a]; cbn in E; [|case_bool_decide; [|destruct (split_byte slash a)]].
Qed.
Lemma clean_parts_under root p : stays_inside p →
  clean_parts true (root ++ slash :: p) = clean_parts true root ++ clean_parts true p
  ∧ Forall (λ q, q ≠ dotdot) (clean_parts true p).
Proof.
  intros [d W]. unfold clean_parts. rewrite split_byte_slash, foldl_app.
  destruct (clean_inside true (foldl (clean_step true) [] (split_byte slash root)) (split_byte slash p) [] d ltac:(constructor) W)
    as (F & _ & E).
  rewrite <- rev_app_distr. split; [by rewrite <- (E true)|]. by apply List.Forall_rev.
Qed.
Lemma Clean_abs p : IsAbs p = true → IsAbs (Clean p) = true ∧ Clean p = slash :: join [slash] (clean_parts true p).
Proof. intros A. unfold Clean. by rewrite A. Qed.

(** Cleaning a clean absolute path changes nothing. *)
Definition settled (out : list gostring) : Prop := Forall (λ q, plain q ∧ q ≠ dotdot) out.
Lemma rooted_settled parts : ∀ out, Forall (λ q, slash ∉ q) parts → settled out → settled (foldl (clean_step true) out parts).
Proof.
  induction parts as [|q parts IH]; intros out N S; cbn; [done|]. inversion N; subst. apply IH; [done|].
  unfold clean_step. case_bool_decide as E; [done|]. case_bool_decide as D.
  - destruct out as [|top rest]; [done|]. inversion S as [|? ? [? T] ?]; subst. by rewrite (bool_decide_eq_false_2 _ T).
  - constructor; [|done]. split; [split; [done|tauto]|done].
Qed.
Lemma clean_settled l : ∀ out, settled l → foldl (clean_step true) out l = rev l ++ out.
Proof.
  induction l as [|q l IH]; intros out S; cbn; [done|]. inversion S as [|? ? [[? [? ?]] D] S']; subst.
  unfold clean_step at 2. rewrite bool_decide_eq_false_2 by tauto. rewrite (bool_decide_eq_false_2 _ D).
  rewrite IH by done. by rewrite <- app_assoc.
Qed.
Lemma clean_parts_settled p : settled (clean_parts true p).
Proof. apply List.Forall_rev, rooted_settled; [apply split_byte_no|constructor]. Qed.
Lemma clean_parts_clean p : IsAbs p = true → clean_parts true (Clean p) = clean_parts true p.
Proof.
  intros A. destruct (Clean_abs p A) as [_ ->]. pose proof (clean_parts_settled p) as S.
  destruct (clean_parts true p) as [|a l] eqn:E; [done|]. unfold clean_parts at 1.
  change (slash :: join [slash] (a :: l)) with ([] ++ slash :: join [slash] (a :: l)).
  rewrite split_byte_slash, split_join; [|done|eapply Forall_impl; [exact S|]; by intros q [[? _] _]].
  rewrite foldl_app. change (foldl (clean_step true) [] (split_byte slash [])) with (@nil gostring).
  rewrite clean_settled by done. by rewrite app_nil_r, rev_involutive.
Qed.
Lemma Clean_idempotent p : IsAbs p = true → Clean (Clean p) = Clean p.
Proof.
  intros A. destruct (Clean_abs p A) as [A' E]. destruct (Clean_abs (Clean p) A') as [_ E'].
  rewrite E', E. f_equal. f_equal. rewrite <- E. by apply clean_parts_clean.
Qed.

Example clean_1 : Clean §"a/./b//../c/" = §"a/c" ∧ Clean §"/../x" = §"/x" ∧ Clean §"a/../.." = §".." ∧ Clean [] = §"."
  ∧ Rel §"/root/a" §"/root/b/c" = §"../b/c" ∧ Ext §"x/y.tar.md" = §".md" ∧ Ext §"a.b/c" = [].
Proof. by vm_compute. Qed.
