(* ===== verification/Workspace.v ===== *)
(** * Working directories, path scopes and the guard of managed files ([workspace/*.go], [tool/builtin/file_guard.go])

    How a path written by the model becomes a path of the file system, inside a
    restricted scope or relative to the working directory of the session, which
    directory that is, and which files the file tools refuse to write. The file
    system answers [os.Stat]; the working and the home directory of the process
    are arguments. Unix path rules. *)
From S2P Require Import Prelude GoStr GoPath.
Open Scope nat_scope.

(** ** Errors that may wrap [os.ErrNotExist] *)
Record oserr := OsErr { os_text : gostring; os_missing : bool }.
Definition plain_err (text : gostring) : oserr := OsErr text false.
Inductive outcome (A : Type) := Good (a : A) | Bad (e : oserr).
Arguments Good {A} a.
Arguments Bad {A} e.
Definition out_bind {A B} (m : outcome A) (k : A → outcome B) : outcome B := match m with Good a => k a | Bad e => Bad e end.
Definition out_wrap {A} (prefix : gostring) (m : outcome A) : outcome A :=
  match m with Bad e => Bad (OsErr (prefix ++ os_text e) (os_missing e)) | _ => m end.
Notation "'let!' x := m 'in' k" := (out_bind m (λ x, k))
  (at level 10, x pattern, m at level 100, k at level 200) : elbot_scope.
Lemma out_bind_good {A B} (m : outcome A) (k : A → outcome B) b : out_bind m k = Good b ↔ ∃ a, m = Good a ∧ k a = Good b.
Proof. destruct m; cbn; (split; [intros ?; eauto | intros (? & [= <-] & ?)]); done. Qed.
Lemma out_wrap_good {A} p (m : outcome A) a : out_wrap p m = Good a ↔ m = Good a.
Proof. by destruct m. Qed.

Inductive file_kind := KDirectory | KRegular | KOther.
#[export] Instance file_kind_eq_dec : EqDecision file_kind.
Proof. solve_decision. Defined.

(** [os.Stat], [os.Getwd] and [os.UserHomeDir]. *)
Record host := {
  stat : gostring → outcome file_kind;
  getwd : outcome gostring;
  user_home : outcome gostring
}.

Record PathScope := { Dir : gostring; Restricted : bool }.
Record PathResolveOptions := { AllowCreate : bool; AllowDirectory : bool; RequireRegularFile : bool }.
Record ResolvedPath := { rp_Path : gostring; BaseDir : gostring; WasAbs : bool }.

Section Workspace.
Context (h : host).

Definition abs_path (p : gostring) : outcome gostring :=
  if IsAbs p then Good (Clean p) else let! wd := getwd h in Good (Join wd p).

(** ** Restricted paths *)
Definition IsLocal (p : gostring) : bool := negb (IsAbs p) && negb (bool_decide (p = [])) && negb (escapes p).
Definition NormalizeRestrictedPath (rawPath : gostring) : outcome gostring :=
  let rawPath := trim_space rawPath in
  if bool_decide (rawPath = []) then Bad (plain_err §"path is required")
  else if has_prefix §"~" rawPath then Bad (plain_err §"restricted path must be relative and must not use ~")
  else
    let slashPath := replace_all rawPath §"\" §"/" in
    if has_prefix §"/" slashPath || contains slashPath §":" then
      Bad (plain_err §"restricted path must be relative and must not contain a colon")
    else if existsb (λ part, bool_decide (part = dotdot)) (split_byte slash slashPath) then
      Bad (plain_err §"restricted path must not contain parent traversal")
    else if negb (IsLocal slashPath) then Bad (plain_err §"restricted path must be relative")
    else Good (Clean slashPath).
Definition ResolveSandboxRelativePath (scope : PathScope) (rawPath : gostring) : outcome gostring :=
  let! path := NormalizeRestrictedPath rawPath in
  let root := trim_space (Dir scope) in
  if bool_decide (root = []) then Bad (plain_err §"restricted workspace directory is not configured")
  else let! rootAbs := out_wrap §"resolve restricted workspace: " (abs_path root) in Good (Join rootAbs path).
Definition SandboxDir (root subdir : gostring) : outcome gostring :=
  ResolveSandboxRelativePath {| Dir := root; Restricted := true |} subdir.

(** ** Paths of the session *)
Definition is_home_path (value prefix : gostring) : bool :=
  bool_decide (value = prefix) || has_prefix (prefix ++ §"/") value || has_prefix (prefix ++ §"\") value.
Definition expandWorkspacePath (path : gostring) : outcome gostring :=
  let prefix := if is_home_path path §"~" then §"~" else §"$HOME" in
  if negb (is_home_path path prefix) then Good path
  else
    let! home := out_wrap §"resolve home directory: " (user_home h) in
    if bool_decide (trim_space home = []) then Bad (plain_err §"home directory is not configured")
    else if bool_decide (path = prefix) then Good home
    else Good (Join home (drop (length prefix + 1) path)).
Definition validateResolvedPath (path : gostring) (opts : PathResolveOptions) : outcome unit :=
  match stat h path with
  | Bad e => if AllowCreate opts && os_missing e then Good tt else Bad (OsErr (§"stat file: " ++ os_text e) (os_missing e))
  | Good kind =>
    if bool_decide (kind = KDirectory) && negb (AllowDirectory opts) then Bad (plain_err §"path is a directory")
    else if RequireRegularFile opts && negb (bool_decide (kind = KRegular)) then Bad (plain_err §"path is not a regular file")
    else Good tt
  end.
Definition ValidateWorkspaceDir (path : gostring) : outcome gostring :=
  let path := trim_space path in
  if bool_decide (path = []) then Bad (plain_err §"workspace path is required")
  else
    let! expandedPath := expandWorkspacePath path in
    let path := Clean expandedPath in
    if bool_decide (path = []) || bool_decide (path = §".") then Bad (plain_err §"workspace path is required")
    else
      let! path := out_wrap §"resolve workspace path: " (abs_path path) in
      let! kind := out_wrap §"resolve workspace path: " (stat h path) in
      if bool_decide (kind = KDirectory) then Good path
      else Bad (plain_err (§"workspace path is not a directory: " ++ path)).

(** ** The current working directory

    The directory saved for the session, and what other calls save between a
    read of it and the conditional clear that follows: one list of writes for
    each round of the loop. *)
Fixpoint stored_dir (dir : gostring) (others : list (list gostring)) : outcome gostring * gostring :=
  let used := ValidateWorkspaceDir dir in
  if bool_decide (trim_space dir = []) then ((let! wd := out_wrap §"resolve workspace: " (getwd h) in Good (Clean wd)), dir)
  else match used with
       | Good resolved => (Good resolved, dir)
       | Bad err =>
         if negb (os_missing err) then (Bad err, dir)
         else match out_wrap §"resolve workspace: " (getwd h) with
              | Bad e => (Bad e, dir)
              | Good wd =>
                match others with
                | [] => (Good (Clean wd), [])
                | writes :: others =>
                  let dir' := default dir (last writes) in
                  if bool_decide (dir' = dir) then (Good (Clean wd), []) else stored_dir dir' others
                end
              end
       end.
Definition CurrentWorkspaceDir (scope : option PathScope) (store : option gostring) (others : list (list gostring))
  : outcome gostring * option gostring :=
  let scoped := match scope with
                | Some s =>
                  let dir := trim_space (Dir s) in
                  if negb (bool_decide (dir = [])) then Some (abs_path dir)
                  else if Restricted s then Some (Bad (plain_err §"restricted workspace directory is not configured")) else None
                | None => None
                end in
  match scoped with
  | Some r => (r, store)
  | None =>
    match store with
    | None => ((let! wd := out_wrap §"resolve workspace: " (getwd h) in Good (Clean wd)), None)
    | Some dir => let '(r, dir) := stored_dir dir others in (r, Some dir)
    end
  end.

Definition ResolveWorkspacePath (canceled : option oserr) (scope : option PathScope) (store : option gostring)
    (others : list (list gostring)) (rawPath : gostring) (opts : PathResolveOptions) : outcome ResolvedPath :=
  match canceled with
  | Some err => Bad err
  | None =>
    match scope with
    | Some {| Dir := dir; Restricted := true |} =>
      let! path := ResolveSandboxRelativePath {| Dir := dir; Restricted := true |} rawPath in
      let! _ := validateResolvedPath path opts in
      let! baseDir := abs_path (trim_space dir) in
      Good {| rp_Path := path; BaseDir := baseDir; WasAbs := false |}
    | _ =>
      let rawPath := trim_space rawPath in
      if bool_decide (rawPath = []) then Bad (plain_err §"path is required")
      else
        let! path := expandWorkspacePath rawPath in
        let wasAbs := IsAbs path in
        let! baseDir := fst (CurrentWorkspaceDir scope store others) in
        let path := Clean (if wasAbs then path else Join baseDir path) in
        let! _ := validateResolvedPath path opts in
        Good {| rp_Path := path; BaseDir := baseDir; WasAbs := wasAbs |}
    end
  end.

(** ** The guard of managed files; [equal_fold] is [strings.EqualFold] *)
Context (equal_fold : gostring → gostring → bool).
Record FileGuardRule := {
  Root : gostring; ExactPath : gostring; rule_ReadWarnings : list gostring; WriteError : gostring;
  Match : option (gostring → bool)
}.
Definition absClean (path : gostring) : outcome gostring :=
  let path := trim_space path in
  if bool_decide (path = []) then Bad (plain_err §"path is required") else let! abs := abs_path path in Good (Clean abs).
Definition samePath (a b : gostring) : bool := bool_decide (a = b) || equal_fold a b.
Definition matches (r : FileGuardRule) (path : gostring) : bool :=
  match absClean path with
  | Bad _ => false
  | Good path =>
    let exact := trim_space (ExactPath r) in
    if negb (bool_decide (exact = [])) then match absClean exact with Bad _ => false | Good exact => samePath path exact end
    else
      let root := trim_space (Root r) in
      if bool_decide (root = []) then false
      else match absClean root with
           | Bad _ => false
           | Good root =>
             let rel := Rel root path in
             if bool_decide (rel = §".") || has_prefix dotdot rel || IsAbs rel then false
             else match Match r with None => true | Some f => f rel end
           end
  end.
Definition AddRule (rules : list FileGuardRule) (rule : FileGuardRule) : list FileGuardRule :=
  if bool_decide (trim_space (Root rule) = []) && bool_decide (trim_space (ExactPath rule) = []) then rules else rules ++ [rule].
Definition NewFileGuard (rules : list FileGuardRule) : list FileGuardRule := foldl AddRule [] rules.
Definition ReadWarnings (rules : list FileGuardRule) (path : gostring) : list gostring :=
  rules ≫= λ rule, if matches rule path then rule_ReadWarnings rule else [].
Definition CheckWrite (rules : list FileGuardRule) (path : gostring) : option gostring :=
  match List.find (λ rule, matches rule path && negb (bool_decide (trim_space (WriteError rule) = []))) rules with
  | Some rule => Some (trim_space (WriteError rule))
  | None => None
  end.

Definition warnUseReadElSkill : gostring := §"读取 EL Skill 文件请使用 read_el_skill。".
Definition warnUseModifyElSkill : gostring := §"EL Skill 文件请使用 modify_el_skill 修改。".
Definition warnUseReadMemory : gostring := §"读取常驻记忆请使用 resident_memory_read。".
Definition warnUseModifyMemory : gostring := §"常驻记忆文件请使用 resident_memory_normal 或 resident_memory_core 修改。".
Definition warnUseReadLongMemory : gostring := §"读取长期记忆请使用 long_memory_search。".
Definition warnUseModifyLongMemory : gostring := §"长期记忆文件请使用 long_memory_write 修改。".
Definition SkillFileName : gostring := §"SKILL.elyph".
Definition el_skill_file (rel : gostring) : bool :=
  match split_byte slash rel with
  | [go; name; file] =>
    bool_decide (go = §"go") && negb (bool_decide (trim_space name = []))
    && (bool_decide (file = SkillFileName) || bool_decide (file = §"main.go"))
  | _ => false
  end.
Definition NewElSkillFileGuardRule (skillRoot : gostring) : FileGuardRule :=
  {| Root := skillRoot; ExactPath := []; rule_ReadWarnings := [warnUseReadElSkill]; WriteError := warnUseModifyElSkill;
     Match := Some el_skill_file |}.
Definition NewResidentMemoryFileGuardRule (path : gostring) : FileGuardRule :=
  {| Root := []; ExactPath := path; rule_ReadWarnings := [warnUseReadMemory]; WriteError := warnUseModifyMemory; Match := None |}.
Definition NewLongMemoryFileGuardRule (rootDir : gostring) : FileGuardRule :=
  {| Root := Join rootDir §"memories"; ExactPath := []; rule_ReadWarnings := [warnUseReadLongMemory]; WriteError := warnUseModifyLongMemory;
     Match := Some (λ rel, equal_fold (Ext rel) §".md") |}.
(** The guard of the built-in tools ([tool/builtin/wiring.go]). *)
Definition builtin_guard (skillRoot memoryPath longMemoryDir : gostring) : list FileGuardRule :=
  NewFileGuard [NewElSkillFileGuardRule skillRoot; NewResidentMemoryFileGuardRule memoryPath; NewLongMemoryFileGuardRule longMemoryDir].
End Workspace.

Definition example_host : host :=
  {| stat p := if bool_decide (p = §"/data/a.txt") then Good KRegular else if bool_decide (p = §"/data") then Good KDirectory
               else Bad (OsErr §"stat: no such file or directory" true);
     getwd := Good §"/run/bot"; user_home := Good §"/home/bot" |}.
Example resolve_1 : ResolveSandboxRelativePath example_host {| Dir := §"/data/"; Restricted := true |} §"x\./y.txt " = Good §"/data/x/y.txt"
  ∧ ResolveWorkspacePath example_host None None (Some §"/data") [] §"a.txt" {| AllowCreate := false; AllowDirectory := false; RequireRegularFile := true |}
    = Good {| rp_Path := §"/data/a.txt"; BaseDir := §"/data"; WasAbs := false |}
  ∧ CurrentWorkspaceDir example_host None (Some §"/gone") [[§"/data"]] = (Good §"/data", Some §"/data")
  ∧ CheckWrite example_host equal_fold_ascii (builtin_guard equal_fold_ascii §"skills" §"/m.md" §"/lm") §"skills/x/../go/a/main.go" = Some warnUseModifyElSkill.
Proof. by vm_compute. Qed.
