(* ===== verification/WorkspaceProps.v ===== *)
(** * Theorems on path scopes, working directories and the file guard (Workspace.v) *)
From S2P Require Import Prelude GoStr GoPath Workspace.
Open Scope nat_scope.

(** ** Components of cleaned paths *)
Lemma walk_plain l : Forall (λ q, q ≠ dotdot) l → ∀ d, is_Some (walk_depth d l).
Proof.
  induction l as [|q l IH]; intros F d; cbn; [by eexists|]. inversion F as [|? ? Q Fl]; subst.
  case_bool_decide; [by apply IH|]. rewrite (bool_decide_eq_false_2 _ Q). by apply IH.
Qed.
Lemma clean_stays_inside p : IsAbs p = false → stays_inside p → stays_inside (Clean p).
Proof.
  intros R [d W]. destruct (clean_inside false [] (split_byte slash p) [] d ltac:(constructor) W) as (F & _ & _).
  destruct (decide (clean_parts false p = [])) as [N|N].
  - assert (C : Clean p = §".") by (unfold Clean; by rewrite R, N). rewrite C. by exists 0.
  - unfold stays_inside. rewrite (clean_relative p R N). apply walk_plain. by apply List.Forall_rev.
Qed.
Lemma Clean_nonempty p : Clean p ≠ [].
Proof.
  unfold Clean. destruct (IsAbs p); [done|]. pose proof (clean_parts_plain false p) as F.
  destruct (clean_parts false p) as [|a [|b l]]; [done| |]; inversion F as [|? ? [_ [N _]] _]; subst; cbn -[slash]; [done|].
  by destruct a.
Qed.
Lemma Join_below root p : IsAbs root = true → p ≠ [] → stays_inside p →
  IsAbs (Join root p) = true
  ∧ clean_parts true (Join root p) = clean_parts true root ++ clean_parts true p
  ∧ Forall (λ q, q ≠ dotdot) (clean_parts true p).
Proof.
  intros A N I. assert (E : Join root p = Clean (root ++ slash :: p)) by (destruct root, p; done).
  assert (A' : IsAbs (root ++ slash :: p) = true) by (destruct root; [done|exact A]).
  rewrite E. split; [by apply Clean_abs|]. rewrite clean_parts_clean by done. by apply clean_parts_under.
Qed.
Lemma abs_path_abs h p r : (∀ wd, getwd h = Good wd → IsAbs wd = true) → abs_path h p = Good r → IsAbs r = true.
Proof.
  intros W. unfold abs_path. destruct (IsAbs p) eqn:A.
  - intros [= <-]. by apply Clean_abs.
  - intros (wd & G & [= <-])%out_bind_good. pose proof (W wd G) as Aw. destruct wd as [|c wd]; [done|].
    destruct p as [|d p]; [by apply Clean_abs|]. by apply Clean_abs.
Qed.

(** ** A restricted scope *)
(** [p] is [root] itself or a path below it: its components extend those of [root] and go up nowhere. *)
Definition below (root p : gostring) : Prop :=
  IsAbs p = true ∧ ∃ rel, clean_parts true p = clean_parts true root ++ rel ∧ Forall (λ q, q ≠ dotdot) rel.
Lemma normalize_inside raw p : NormalizeRestrictedPath raw = Good p → p ≠ [] ∧ stays_inside p.
Proof.
  unfold NormalizeRestrictedPath. repeat case_match; try done. intros [= <-]. split; [apply Clean_nonempty|].
  match goal with H : negb (IsLocal _) = false |- _ => apply negb_false_iff in H; unfold IsLocal in H; propify; destruct H as [[R _] E] end.
  apply clean_stays_inside; [done|]. by apply escapes_iff.
Qed.
Lemma sandbox_below h scope raw p : (∀ wd, getwd h = Good wd → IsAbs wd = true) →
  ResolveSandboxRelativePath h scope raw = Good p →
  ∃ root, abs_path h (trim_space (Dir scope)) = Good root ∧ below root p.
Proof.
  intros W. unfold ResolveSandboxRelativePath. intros (q & N & H)%out_bind_good. case_bool_decide; [done|].
  apply out_bind_good in H as (root & R & [= <-]). apply out_wrap_good in R. exists root. split; [done|].
  destruct (normalize_inside raw q N) as [NE I]. pose proof (abs_path_abs h _ _ W R) as A.
  destruct (Join_below root q A NE I) as (A' & E & F). split; [done|]. eauto.
Qed.
(** What [validateResolvedPath] accepts. *)
Definition acceptable (h : host) (opts : PathResolveOptions) (p : gostring) : Prop :=
  match stat h p with
  | Bad e => AllowCreate opts = true ∧ os_missing e = true
  | Good kind => (kind = KDirectory → AllowDirectory opts = true) ∧ (RequireRegularFile opts = true → kind = KRegular)
  end.
Lemma validate_ok h p opts u : validateResolvedPath h p opts = Good u → acceptable h opts p.
Proof.
  unfold validateResolvedPath, acceptable. destruct (stat h p) as [kind|e].
  - destruct (bool_decide (kind = KDirectory) && _) eqn:E1; [done|]. destruct (RequireRegularFile opts && _) eqn:E2; [done|].
    intros _. propify. split; intros K; [by destruct E1|by destruct E2; [congruence|]].
  - destruct (AllowCreate opts && os_missing e) eqn:E; [|done]. intros _. by propify.
Qed.

(** C19: in a restricted scope every path the tools accept lies in the directory of the scope: it
    resolves to that directory followed by components none of which goes up, it is not taken for an
    absolute path, and it is of the kind the caller asked for. *)
Theorem restricted_paths_stay_below h canceled dir store others raw opts r
  (Hwd : ∀ wd, getwd h = Good wd → IsAbs wd = true)
  (Hr : ResolveWorkspacePath h canceled (Some {| Dir := dir; Restricted := true |}) store others raw opts = Good r) :
  abs_path h (trim_space dir) = Good (BaseDir r) ∧ below (BaseDir r) (rp_Path r) ∧ WasAbs r = false ∧ acceptable h opts (rp_Path r).
Proof.
  revert Hr. unfold ResolveWorkspacePath. destruct canceled; [done|].
  intros (p & P & (u & V & (base & B & [= <-])%out_bind_good)%out_bind_good)%out_bind_good. cbn.
  destruct (sandbox_below h _ _ _ Hwd P) as (root & R & Hb). change (Dir _) with dir in R. rewrite R in B. injection B as <-.
  split_and!; [done|done|done|by eapply validate_ok].
Qed.
Lemma restricted_paths_stay_below_witness : below §"/data" §"/data/x/y.txt" ∧ acceptable example_host {| AllowCreate := true; AllowDirectory := false; RequireRegularFile := false |} §"/data/x/y.txt".
Proof.
  assert (W : ∀ wd, getwd example_host = Good wd → IsAbs wd = true) by (intros wd [= <-]; done).
  destruct (restricted_paths_stay_below example_host None §" /data/. " None [] §"x\./y.txt"
    {| AllowCreate := true; AllowDirectory := false; RequireRegularFile := false |}
    {| rp_Path := §"/data/x/y.txt"; BaseDir := §"/data"; WasAbs := false |} W ltac:(vm_compute; reflexivity)) as (_ & B & _ & A).
  exact (conj B A).
Defined.

(** ** The working directory of the session *)
Definition missing_dir (h : host) (dir : gostring) : Prop := ∃ e, ValidateWorkspaceDir h dir = Bad e ∧ os_missing e = true.
Lemma stored_dir_spec h others : ∀ dir r dir', stored_dir h dir others = (r, dir') →
  (∃ d, (d = dir ∨ ∃ writes, writes ∈ others ∧ last writes = Some d) ∧ (dir' = d ∨ dir' = [] ∧ missing_dir h d))
  ∧ (∀ p, r = Good p → (dir' ≠ [] ∧ ValidateWorkspaceDir h dir' = Good p) ∨ ∃ wd, getwd h = Good wd ∧ p = Clean wd).
Proof.
  induction others as [|writes others IH]; intros dir r dir'; cbn -[ValidateWorkspaceDir].
  all: case_bool_decide as T; [intros [= <- <-]; split; [by eauto|]; intros p Hp; right;
    destruct (getwd h) as [wd|]; [|done]; cbn in Hp; injection Hp as <-; eauto|].
  all: assert (dir ≠ []) by (intros ->; by apply T).
  all: destruct (ValidateWorkspaceDir h dir) as [resolved|err] eqn:V; [intros [= <- <-]; split; [by eauto|]; intros p [= <-]; by left|].
  all: destruct (os_missing err) eqn:M; cbn [negb]; [|intros [= <- <-]; split; [by eauto|done]].
  all: destruct (getwd h) as [wd|] eqn:G; cbn [out_wrap]; [|intros [= <- <-]; split; [by eauto|done]].
  - intros [= <- <-]. split; [exists dir; split; [by left|right]; unfold missing_dir; eauto|]. intros p [= <-]. right. eauto.
  - case_bool_decide as E.
    + intros [= <- <-]. split; [exists dir; split; [by left|right]; unfold missing_dir; eauto|]. intros p [= <-]. right. eauto.
    + intros H'. destruct (IH _ _ _ H') as [(d & D & K) P]. split; [|exact P]. exists d. split; [|done].
      destruct D as [->|(ws & I & L)]; [|right; exists ws; split; [by right|done]].
      destruct (last writes) as [d'|] eqn:L; [|done]. right. exists writes. split; [by left|done].
Qed.

(** Reading the working directory never loses a directory another call saves meanwhile: what the
    session keeps afterwards is a directory that was saved, unless that very directory was found
    missing, and the answer is the directory kept, checked to be one, or the directory of the process. *)
Lemma workspace_never_loses h dir others r dir'
  (Hrun : CurrentWorkspaceDir h None (Some dir) others = (r, Some dir')) :
  (∃ d, (d = dir ∨ ∃ writes, writes ∈ others ∧ last writes = Some d) ∧ (dir' = d ∨ dir' = [] ∧ missing_dir h d))
  ∧ (∀ p, r = Good p → (dir' ≠ [] ∧ ValidateWorkspaceDir h dir' = Good p) ∨ ∃ wd, getwd h = Good wd ∧ p = Clean wd).
Proof.
  unfold CurrentWorkspaceDir in Hrun. destruct (stored_dir h dir others) as [r0 d0] eqn:E. injection Hrun as <- <-.
  by eapply stored_dir_spec.
Qed.
Lemma workspace_never_loses_witness : ∃ d, d = §"/data" ∧ ValidateWorkspaceDir example_host d = Good §"/data".
Proof.
  destruct (workspace_never_loses example_host §"/gone" [[§"/data"]] (Good §"/data") §"/data" ltac:(vm_compute; reflexivity)) as [_ P].
  destruct (P §"/data" eq_refl) as [[_ V]|(wd & [= <-] & E)]; [eauto|discriminate E].
Defined.

(** ** The guard *)
Section Guard.
Context (h : host) (equal_fold : gostring → gostring → bool).
Lemma drop_common_spec a : ∀ b up down, drop_common a b = (up, down) → ∃ c, a = c ++ up ∧ b = c ++ down.
Proof.
  induction a as [|x a IH]; intros [|y b] up down; cbn; try (intros [= <- <-]; by exists []).
  case_bool_decide as E; [subst|intros [= <- <-]; by exists []]. intros H. destruct (IH _ _ _ H) as (c & -> & ->). by exists (y :: c).
Qed.
Lemma drop_common_app a b : drop_common a (a ++ b) = ([], b).
Proof. induction a as [|x a IH]; cbn; [by destruct b|]. by rewrite bool_decide_eq_true_2. Qed.
Lemma prefix_dotdot_join l : has_prefix dotdot (join [slash] (dotdot :: l)) = true.
Proof. destruct l; [done|]. apply has_prefix_spec. by eexists. Qed.
(** The relative path of a guard rule: what follows the root, when the path is below the root. *)
Lemma Rel_down root p down : clean_parts true p = clean_parts true root ++ down → down ≠ [] → Rel root p = join [slash] down.
Proof. intros E N. unfold Rel. rewrite E, drop_common_app. by destruct down. Qed.
Lemma Rel_inv root p : Rel root p ≠ §"." → has_prefix dotdot (Rel root p) = false →
  ∃ down, down ≠ [] ∧ clean_parts true p = clean_parts true root ++ down ∧ Rel root p = join [slash] down.
Proof.
  unfold Rel. destruct (drop_common _ _) as [up down] eqn:D. apply drop_common_spec in D as (c & E1 & E2).
  destruct up as [|u up].
  - destruct down as [|d down]; [done|]. intros _ _. exists (d :: down). rewrite app_nil_r in E1. by subst.
  - intros _ H. cbn [map app] in H. by rewrite prefix_dotdot_join in H.
Qed.
Lemma absClean_abs p : trim_space p = p → IsAbs p = true → absClean h p = Good (Clean p).
Proof.
  intros T A. unfold absClean, abs_path. rewrite T, bool_decide_eq_false_2 by (by intros ->). rewrite A. cbn.
  by rewrite Clean_idempotent.
Qed.

(** The files of a skill that only the skill tools may change. *)
Definition skill_parts (down : list gostring) : Prop :=
  ∃ name file, down = [§"go"; name; file] ∧ trim_space name ≠ [] ∧ (file = SkillFileName ∨ file = §"main.go").
Lemma el_skill_file_spec down : down ≠ [] → Forall plain down → el_skill_file (join [slash] down) = true ↔ skill_parts down.
Proof.
  intros N F. unfold el_skill_file, skill_parts. rewrite split_join; [|done|eapply Forall_impl; [exact F|by intros ? []]].
  destruct down as [|a [|b [|c [|d down]]]]; try (split; [done|by intros (? & ? & [=] & _)]).
  rewrite !andb_true_iff, orb_true_iff, negb_true_iff, !bool_decide_eq_true, bool_decide_eq_false. naive_solver.
Qed.
Lemma skill_rule_spec root p : trim_space root = root → IsAbs root = true → trim_space p = p → IsAbs p = true →
  matches h equal_fold (NewElSkillFileGuardRule root) p = true
  ↔ ∃ down, skill_parts down ∧ clean_parts true p = clean_parts true root ++ down.
Proof.
  intros Tr Ar Tp Ap. unfold matches. rewrite absClean_abs by done. change (trim_space (ExactPath _)) with (@nil ascii).
  cbn [bool_decide negb NewElSkillFileGuardRule Root Match]. change (negb (bool_decide ([] = []))) with false. cbv iota zeta.
  rewrite Tr. rewrite bool_decide_eq_false_2 by (by intros ->). rewrite absClean_abs by done.
  assert (Pp : Forall plain (clean_parts true (Clean p))) by apply clean_parts_plain.
  destruct (Clean_abs p Ap) as [Acp _]. destruct (Clean_abs root Ar) as [Acr _].
  rewrite <- (clean_parts_clean p Ap), <- (clean_parts_clean root Ar). split.
  - destruct (bool_decide (Rel (Clean root) (Clean p) = §".")) eqn:E1; [done|]. destruct (has_prefix dotdot _) eqn:E2; [done|].
    destruct (IsAbs (Rel _ _)); [done|]. cbn. intros M. apply bool_decide_eq_false in E1.
    destruct (Rel_inv _ _ E1 E2) as (down & N & E & R). rewrite R in M. exists down. split; [|done].
    rewrite E in Pp. apply Forall_app in Pp as [_ Pd]. by apply el_skill_file_spec.
  - intros (down & S & E). assert (N : down ≠ []) by (destruct S as (? & ? & -> & _); done).
    rewrite (Rel_down _ _ _ E N). rewrite E in Pp. apply Forall_app in Pp as [_ Pd].
    rewrite join_not_abs by done. apply (el_skill_file_spec down N Pd) in S as S'.
    destruct S as (name & file & -> & _). rewrite bool_decide_eq_false_2 by done. by rewrite S'.
Qed.
Lemma skill_guard root memory lm p : trim_space root = root → IsAbs root = true → trim_space p = p → IsAbs p = true →
  ∀ down, skill_parts down → clean_parts true p = clean_parts true root ++ down →
  CheckWrite h equal_fold (builtin_guard equal_fold root memory lm) p = Some warnUseModifyElSkill.
Proof.
  intros Tr Ar Tp Ap down S E. unfold builtin_guard, NewFileGuard. cbn [foldl]. unfold AddRule at 3. cbn [Root NewElSkillFileGuardRule].
  rewrite Tr, (bool_decide_eq_false_2 (root = [])) by (by intros ->). cbn [andb app].
  assert (H : ∀ rules r, ∃ more, AddRule rules r = rules ++ more).
  { intros rules r. unfold AddRule. destruct (_ && _); [exists []; by rewrite app_nil_r|by eexists]. }
  destruct (H [NewElSkillFileGuardRule root] (NewResidentMemoryFileGuardRule memory)) as [m1 ->].
  destruct (H ([NewElSkillFileGuardRule root] ++ m1) (NewLongMemoryFileGuardRule equal_fold lm)) as [m2 ->].
  unfold CheckWrite. cbn [app List.find].
  assert (M : matches h equal_fold (NewElSkillFileGuardRule root) p = true) by (apply skill_rule_spec; eauto).
  rewrite M. by vm_compute.
Qed.

(** C20: no spelling of the path of a skill's code or description gets past the write guard: any absolute
    path whose components come down to one of these files under the skill directory is refused. *)
Theorem guard_resists_spelling root memory lm p
  (Hroot : trim_space root = root ∧ IsAbs root = true) (Hpath : trim_space p = p ∧ IsAbs p = true)
  (Hfile : ∃ down, skill_parts down ∧ clean_parts true p = clean_parts true root ++ down) :
  CheckWrite h equal_fold (builtin_guard equal_fold root memory lm) p = Some warnUseModifyElSkill.
Proof. destruct Hroot, Hpath, Hfile as (down & ? & ?). by eapply skill_guard. Qed.
End Guard.
Lemma guard_resists_spelling_witness :
  CheckWrite example_host equal_fold_ascii (builtin_guard equal_fold_ascii §"/skills" §"/m.md" §"/lm") §"/skills/x/../go//a/./main.go"
  = Some warnUseModifyElSkill.
Proof.
  apply (guard_resists_spelling example_host equal_fold_ascii §"/skills" §"/m.md" §"/lm").
  - split; vm_compute; reflexivity.
  - split; vm_compute; reflexivity.
  - exists [§"go"; §"a"; §"main.go"]. split; [exists §"a", §"main.go"; split_and!; [reflexivity|vm_compute; discriminate|right; reflexivity]|vm_compute; reflexivity].
Defined.
