(* ===== verification/Elyph.v ===== *)
(** * ELyph: the task-note parser and linter of [internal/elyph]

    One definition per function of [parser.go]. The parser object is the
    record [parser]; its methods are functions from a parser to a parser.
    Block kinds keep the source's names; [lastClosed = ""] is [None]. *)
From S2P Require Import Prelude GoStr.
Open Scope Z_scope.

Inductive severity := DiagnosticError | DiagnosticWarning | NoSeverity.
Record diagnostic := Diagnostic { d_line : Z; d_message : gostring; d_severity : severity }.
Record step := Step { st_name : gostring; st_line : Z }.
Record document := Document { doc_kind : gostring; doc_name : gostring; doc_steps : list step }.
Record header := Header { h_kind : gostring; h_name : gostring; h_description : gostring }.

Inductive block_kind := blockIf | blockElse | blockEach | blockStep.
#[export] Instance block_kind_eq_dec : EqDecision block_kind.
Proof. solve_decision. Defined.
Record block_frame := BlockFrame { bf_kind : block_kind; bf_directCount : Z }.

(** [blocks] is a stack: its head is the innermost open block, the last
    element of the Go slice. *)
Record parser := Parser {
  expectedKind : gostring;
  expectedName : gostring;
  doc : document;
  diagnostics : list diagnostic;
  seenHeader : bool;
  blocks : list block_frame;
  lastClosed : option block_kind
}.

Definition set_doc (p : parser) d := Parser (expectedKind p) (expectedName p) d (diagnostics p) (seenHeader p) (blocks p) (lastClosed p).
Definition set_diagnostics (p : parser) ds := Parser (expectedKind p) (expectedName p) (doc p) ds (seenHeader p) (blocks p) (lastClosed p).
Definition set_seenHeader (p : parser) b := Parser (expectedKind p) (expectedName p) (doc p) (diagnostics p) b (blocks p) (lastClosed p).
Definition set_blocks (p : parser) bs := Parser (expectedKind p) (expectedName p) (doc p) (diagnostics p) (seenHeader p) bs (lastClosed p).
Definition set_lastClosed (p : parser) k := Parser (expectedKind p) (expectedName p) (doc p) (diagnostics p) (seenHeader p) (blocks p) k.

Definition empty_document : document := Document [] [] [].
Definition new_parser (kind name : gostring) : parser :=
  Parser kind name empty_document [] false [] None.

Definition add (p : parser) (line : Z) (message : gostring) : parser :=
  set_diagnostics p (diagnostics p ++ [Diagnostic line message DiagnosticError]).
Definition warn (p : parser) (line : Z) (message : gostring) : parser :=
  set_diagnostics p (diagnostics p ++ [Diagnostic line message DiagnosticWarning]).

(** ** Lexical classes

    The Go functions range over the runes of their argument; a byte outside
    ASCII belongs to a rune above 'z' (or to [RuneError]), so where only ASCII
    ranges are accepted the test is the same on bytes. *)
Definition lower_letter (c : ascii) : bool := in_range 97 122 c.
Definition ascii_digit (c : ascii) : bool := in_range 48 57 c.
Definition name_byte (c : ascii) : bool :=
  lower_letter c || ascii_digit c || bool_decide (c = "_"%char) || bool_decide (c = "-"%char).

Definition validName (value : gostring) : bool :=
  match value with
  | [] => false
  | c :: r => (Z.of_nat (length value) <=? 64) && lower_letter c && forallb name_byte r
  end.

Definition validStepName (value : gostring) : bool :=
  match value with
  | [] => false
  | c :: r => (Z.of_nat (length value) <=? 64) && (lower_letter c || ascii_digit c) && forallb name_byte r
  end.

(** [splitTopLevel] for an ASCII separator: the pieces between the separators. *)
Definition splitTopLevel (text : gostring) (sep : ascii) : list gostring := split_byte sep text.

Definition last_is (c : ascii) (s : gostring) : bool := has_suffix [c] s.
Definition drop_last (s : gostring) : gostring := take (length s - 1) s.

Section Lexical.
Context `{UnicodeTables}.

Definition validIdent (value : gostring) : bool :=
  match runes value with
  | [] => false
  | (r, _) :: rs =>
    ((r =? 95) || is_letter r)
    && forallb (λ '(r, _), (r =? 95) || is_letter r || is_digit r) rs
  end.
Definition validVariable (value : gostring) : bool :=
  has_prefix §"$" value && validIdent (trim_prefix §"$" value).
Definition validType (value : gostring) : bool := validIdent value.

(** [text[len(text)-1:]] and the trimmed rest, when a marker ends the text. *)
Definition split_marker (text : gostring) : gostring * gostring :=
  if has_suffix §"!" text then (§"!", trim_space (drop_last text))
  else if has_suffix §"?" text then (§"?", trim_space (drop_last text))
  else ([], text).

(** [parseVariableRef]: name, type and marker. *)
Definition parseVariableRef (text : gostring) : option (gostring * gostring * gostring) :=
  let '(marker, text) := split_marker text in
  let '(lhs, rhs, hasType) := cut §":" text in
  if hasType : bool then
    let name := trim_space lhs in
    let typ := trim_space rhs in
    if negb (validVariable name) || negb (validType typ) then None
    else Some (name, typ, marker)
  else
    let name := trim_space text in
    if negb (validVariable name) then None else Some (name, [], marker).

Definition parseTypedVariable (text : gostring) : option (gostring * gostring * gostring) :=
  let '(marker, text) := split_marker text in
  let '(name, typ, ok) := cut §":" text in
  if negb ok then None
  else
    let name := trim_space name in
    let typ := trim_space typ in
    if negb (validVariable name) || negb (validType typ) then None
    else Some (name, typ, marker).

(** [parseAssignmentParts]: name, type and right-hand side (the marker is empty). *)
Definition parseAssignmentParts (text : gostring) : option (gostring * gostring * gostring) :=
  let '(lhs, rhs, ok) := cut §"=" text in
  if negb ok then None
  else match parseVariableRef (trim_space lhs) with
       | Some (name, typ, []) => Some (name, typ, trim_space rhs)
       | _ => None
       end.

Definition validCallArg (part : gostring) : bool :=
  let part := trim_space part in
  if bool_decide (part = []) then false
  else
    let '(key, value, ok) := cut §"=" part in
    ok && validIdent (trim_space key) && negb (bool_decide (trim_space value = [])).
Definition validCallArgs (args : gostring) : bool :=
  if bool_decide (args = []) then true
  else forallb validCallArg (splitTopLevel args ",").
End Lexical.

Definition validStepSingleBody (after : gostring) : bool :=
  has_prefix §"$" after || has_prefix §"=>" after || has_prefix §">" after
  || has_prefix §"@tool" after || has_prefix §"@skill" after || has_prefix §"**" after
  || has_prefix §"~" after || has_prefix §"<-" after || has_prefix §"->" after.

(** ** Blocks *)
Definition openBlock (p : parser) (kind : block_kind) : parser :=
  set_lastClosed (set_blocks p (BlockFrame kind 0 :: blocks p)) None.

Definition closeBlock (p : parser) (lineNo : Z) : parser :=
  match blocks p with
  | [] => set_lastClosed (add p lineNo §"unexpected }") None
  | frame :: rest =>
    let p := set_blocks p rest in
    let p :=
      if bool_decide (bf_kind frame = blockStep) then
        if bf_directCount frame =? 0 then add p lineNo §"step block must not be empty"
        else if bf_directCount frame =? 1 then
          add p lineNo §"step block with single statement should use single-line form: step <name>: <statement>"
        else p
      else p in
    set_lastClosed p (Some (bf_kind frame))
  end.

(** [p.blocks[len(p.blocks)-1].directCount++] when a block is open. *)
Definition countStatement (p : parser) : parser :=
  match blocks p with
  | [] => p
  | f :: rest => set_blocks p (BlockFrame (bf_kind f) (bf_directCount f + 1) :: rest)
  end.

(** ** Statements *)
Definition checkReservedVariable (p : parser) (name : gostring) (lineNo : Z) : parser :=
  if bool_decide (name = §"$user") || bool_decide (name = §"$assistant")
  then add p lineNo (§"reserved variable " ++ name ++ §" cannot be redefined")
  else p.

Definition checkDeriveExpression (p : parser) (expr : gostring) (lineNo : Z) : parser :=
  match index §"?" expr with
  | None => p
  | Some question =>
    let rest := drop (question + 1) expr in
    match index §":" rest with
    | None => add p lineNo §"ternary must be condition ? true : false"
    | Some colonOffset =>
      if bool_decide (trim_space (take question expr) = [])
         || bool_decide (trim_space (take colonOffset rest) = [])
         || bool_decide (trim_space (drop (colonOffset + 1) rest) = [])
      then add p lineNo §"ternary must be condition ? true : false"
      else p
    end
  end.

Definition header_message (p : parser) : gostring :=
  §"first statement must be #" ++ expectedKind p ++ §" <name>".

(** The first two fields name the document: [None] when the header is malformed. *)
Definition header_fields (line : gostring) : option (gostring * gostring * bool) :=
  match fields line with
  | f0 :: f1 :: more =>
    if (bool_decide (f0 = §"#skill") || bool_decide (f0 = §"#task")) && validName f1
    then Some (f0, f1, negb (bool_decide (more = [])))
    else None
  | _ => None
  end.

Definition parseHeader (p : parser) (line : gostring) (lineNo : Z) : parser :=
  match header_fields line with
  | None => add p lineNo (header_message p)
  | Some (f0, f1, more) =>
    let rest := trim_space (trim_prefix (f0 ++ §" " ++ f1) line) in
    if more && (negb (has_prefix §"- " rest)
                || bool_decide (trim_space (trim_prefix §"- " rest) = []))
    then add p lineNo (header_message p)
    else set_seenHeader (set_doc p (Document (trim_prefix §"#" f0) f1 (doc_steps (doc p)))) true
  end.

Definition parseOutput (p : parser) (line : gostring) (lineNo : Z) : parser :=
  if negb (bool_decide (line = §">")) && negb (has_prefix §"> " line)
  then add p lineNo §"output must be > text" else p.

Definition parseTextSlot (p : parser) (line : gostring) (lineNo : Z) (prefix : gostring) : parser :=
  let text := trim_space (trim_prefix prefix line) in
  if bool_decide (text = []) then add p lineNo (prefix ++ §" must have text")
  else if has_suffix §":" text || has_suffix §"：" text
  then warn p lineNo (prefix ++ §" text ends with a colon; this looks like a Markdown-style heading, use an atomic rule instead")
  else p.

Definition if_message : gostring := §"?if must be ?if(condition) {".
Definition parseIf (p : parser) (line : gostring) (lineNo : Z) : parser :=
  if negb (has_suffix §"{" line) then add p lineNo if_message
  else
    let body := trim_space (trim_suffix §"{" (trim_prefix §"?if" line)) in
    (* body[1:len(body)-1]; when body is the single byte "(" the condition's
       HasSuffix test has already failed *)
    let inner := drop 1 (drop_last body) in
    if negb (has_prefix §"(" body) || negb (has_suffix §")" body)
       || bool_decide (trim_space inner = []) || contains_any inner §"{}"
    then openBlock (add p lineNo if_message) blockIf
    else openBlock p blockIf.

Definition parseElse (p : parser) (line : gostring) (lineNo : Z) : parser :=
  let rest := trim_space (trim_prefix §"?else" line) in
  if negb (bool_decide (rest = §"{")) then add p lineNo §"?else must be ?else{"
  else if negb (bool_decide (lastClosed p = Some blockIf))
  then add p lineNo §"?else must immediately follow a closed ?if block"
  else openBlock p blockElse.

(** [rejectStepContext]: nesting and duplicate names; [None] is "not rejected". *)
Definition rejectStepContext (p : parser) (name : gostring) (lineNo : Z) : option parser :=
  if existsb (λ f, bool_decide (bf_kind f = blockStep)) (blocks p)
  then Some (add p lineNo §"step blocks must not be nested")
  else if existsb (λ s, bool_decide (st_name s = name)) (doc_steps (doc p))
  then Some (add p lineNo (§"step name " ++ name ++ §" already used"))
  else None.

Definition add_step (p : parser) (name : gostring) (lineNo : Z) : parser :=
  set_doc p (Document (doc_kind (doc p)) (doc_name (doc p)) (doc_steps (doc p) ++ [Step name lineNo])).

Definition step_name_message : gostring :=
  §"step name must be lowercase letter or digit followed by lowercase letters, digits, _ or -".

Definition parseStepBlock (p : parser) (rest : gostring) (lineNo : Z) : parser :=
  let name := trim_space (trim_suffix §"{" rest) in
  if bool_decide (name = []) || contains_any name (§" " ++ ["009"%char])
  then add p lineNo §"step must be step <name> {"
  else if negb (validStepName name) then add p lineNo step_name_message
  else match rejectStepContext p name lineNo with
       | Some p => p
       | None => openBlock (add_step p name lineNo) blockStep
       end.

Section Statements.
Context `{UnicodeTables}.

Definition parseIO (p : parser) (line : gostring) (lineNo : Z) (input : bool) : parser :=
  let prefix := if input then §"<-" else §"->" in
  let message := if input then §"input must be <- $name:type, <- $name:type! or <- $name:type?"
                 else §"output must be -> $name:type" in
  let rest := trim_space (trim_prefix prefix line) in
  match parseTypedVariable rest with
  | Some (name, typ, marker) =>
    if bool_decide (name = []) || bool_decide (typ = [])
       || (negb input && negb (bool_decide (marker = [])))
    then add p lineNo message else p
  | None => add p lineNo message
  end.

Definition parseAssignment (p : parser) (line : gostring) (lineNo : Z) : parser :=
  match parseAssignmentParts line with
  | Some (name, _, rhs) =>
    if bool_decide (trim_space rhs = []) then add p lineNo §"assignment must be $name[:type] = value"
    else checkReservedVariable p name lineNo
  | None => add p lineNo §"assignment must be $name[:type] = value"
  end.

Definition parseDerive (p : parser) (line : gostring) (lineNo : Z) : parser :=
  let rest := trim_space (trim_prefix §"=>" line) in
  match parseAssignmentParts rest with
  | Some (name, _, rhs) =>
    if bool_decide (trim_space rhs = []) then add p lineNo §"derive must be => $name[:type] = expression"
    else checkDeriveExpression (checkReservedVariable p name lineNo) rhs lineNo
  | None => add p lineNo §"derive must be => $name[:type] = expression"
  end.

Definition parseCall (p : parser) (line : gostring) (lineNo : Z) (prefix : gostring) : parser :=
  let rest := trim_space (trim_prefix prefix line) in
  match index §"(" rest with
  | Some (S k as open) =>
    if negb (has_suffix §")" rest) then add p lineNo §"call must be @tool/@skill name(k=v)"
    else
      let name := trim_space (take open rest) in
      let args := trim_space (drop (open + 1) (drop_last rest)) in
      if negb (validName name) || contains_any args §"()" || negb (validCallArgs args)
      then add p lineNo §"call must be @tool/@skill name(k=v)" else p
  | _ => add p lineNo §"call must be @tool/@skill name(k=v)"
  end.

Definition each_message : gostring := §"each must be each($item in $items, limit=N) {".
(** The text between "each(" and its closing parenthesis, split into the
    loop and the limit: [None] when the shape is wrong, otherwise the limit. *)
Definition each_limit (line : gostring) : option Z :=
  let body := trim_space (trim_suffix §"{" (trim_prefix §"each(" line)) in
  if negb (has_suffix §")" body) then None
  else
    let body := trim_space (trim_suffix §")" body) in
    match splitTopLevel body "," with
    | [p0; p1] =>
      match fields p0 with
      | [l0; l1; l2] =>
        if negb (validVariable l0) || negb (bool_decide (l1 = §"in")) || negb (validVariable l2) then None
        else
          let '(limitKey, limitValue, ok) := cut §"=" (trim_space p1) in
          if negb ok || negb (bool_decide (trim_space limitKey = §"limit")) then None
          else atoi (trim_space limitValue)
      | _ => None
      end
    | _ => None
    end.
Definition parseEach (p : parser) (line : gostring) (lineNo : Z) : parser :=
  if negb (has_prefix §"each(" line) || negb (has_suffix §"{" line) then
    let p := add p lineNo each_message in
    if has_suffix §"{" line then openBlock p blockEach else p
  else match each_limit line with
       | None => openBlock (add p lineNo each_message) blockEach
       | Some n =>
         if n <=? 0 then add p lineNo §"each limit must be positive"
         else openBlock p blockEach
       end.

(** The statements a single-line step may hold; [parseStatementContent] is
    called on such a body only, so the two are not mutually recursive. *)
Definition parseSimple (p : parser) (trimmed : gostring) (lineNo : Z) : parser :=
  if has_prefix §"<-" trimmed then parseIO p trimmed lineNo true
  else if has_prefix §"->" trimmed then parseIO p trimmed lineNo false
  else if has_prefix §"=>" trimmed then parseDerive p trimmed lineNo
  else if has_prefix §"$" trimmed then parseAssignment p trimmed lineNo
  else if has_prefix §">" trimmed then parseOutput p trimmed lineNo
  else if has_prefix §"@tool" trimmed then parseCall p trimmed lineNo §"@tool"
  else if has_prefix §"@skill" trimmed then parseCall p trimmed lineNo §"@skill"
  else if has_prefix §"**" trimmed then parseTextSlot p trimmed lineNo §"**"
  else if has_prefix §"~" trimmed then parseTextSlot p trimmed lineNo §"~"
  else add p lineNo §"line must start with a valid ELyph token".

Definition parseStepSingle (p : parser) (name after : gostring) (lineNo : Z) : parser :=
  let name := trim_space name in
  let after := trim_space after in
  if bool_decide (name = []) || contains_any name (§" " ++ ["009"%char])
  then add p lineNo §"step must be step <name>: <statement>"
  else if negb (validStepName name) then add p lineNo step_name_message
  else if bool_decide (after = []) then add p lineNo §"step single-line body must not be empty"
  else if negb (validStepSingleBody after) then add p lineNo §"step single-line body must be a simple statement"
  else match rejectStepContext p name lineNo with
       | Some p => p
       | None => parseSimple (set_lastClosed (add_step p name lineNo) None) after lineNo
       end.

Definition parseStep (p : parser) (line : gostring) (lineNo : Z) : parser :=
  let rest := trim_space (trim_prefix §"step" line) in
  if has_suffix §"{" rest then parseStepBlock p rest lineNo
  else match index §":" rest with
       | Some (S k as idx) => parseStepSingle p (take idx rest) (drop (idx + 1) rest) lineNo
       | _ => add p lineNo §"step must be step <name> { or step <name>: <statement>"
       end.

Definition parseStatementContent (p : parser) (trimmed : gostring) (lineNo : Z) : parser :=
  let p := if negb (has_prefix §"?else" trimmed) then set_lastClosed p None else p in
  if has_prefix §"<-" trimmed then parseIO p trimmed lineNo true
  else if has_prefix §"->" trimmed then parseIO p trimmed lineNo false
  else if has_prefix §"=>" trimmed then parseDerive p trimmed lineNo
  else if has_prefix §"$" trimmed then parseAssignment p trimmed lineNo
  else if has_prefix §"?if" trimmed then parseIf p trimmed lineNo
  else if has_prefix §"?else" trimmed then parseElse p trimmed lineNo
  else if has_prefix §"? else" trimmed || has_prefix §"else" trimmed
  then add p lineNo §"else must be ?else{"
  else if has_prefix §"each" trimmed then parseEach p trimmed lineNo
  else if has_prefix §"step" trimmed then parseStep p trimmed lineNo
  else if has_prefix §">" trimmed then parseOutput p trimmed lineNo
  else if has_prefix §"@tool" trimmed then parseCall p trimmed lineNo §"@tool"
  else if has_prefix §"@skill" trimmed then parseCall p trimmed lineNo §"@skill"
  else if has_prefix §"**" trimmed then parseTextSlot p trimmed lineNo §"**"
  else if has_prefix §"~" trimmed then parseTextSlot p trimmed lineNo §"~"
  else add p lineNo §"line must start with a valid ELyph token".

(** Blank lines and comments are skipped. *)
Definition skipped (trimmed : gostring) : bool :=
  bool_decide (trimmed = []) || has_prefix §"//" trimmed.

Definition parseLine (p : parser) (trimmed : gostring) (lineNo : Z) : parser :=
  if skipped trimmed then p
  else if negb (seenHeader p) then parseHeader p trimmed lineNo
  else if has_prefix §"#" trimmed then add p lineNo §"header must appear only once"
  else if bool_decide (trimmed = §"}") then closeBlock p lineNo
  else parseStatementContent (countStatement p) trimmed lineNo.

Definition finish (p : parser) : parser :=
  let p := if negb (seenHeader p) then add p 0 (§"missing #" ++ expectedKind p ++ §" <name>") else p in
  let p := if negb (bool_decide (expectedKind p = [])) && negb (bool_decide (doc_kind (doc p) = []))
              && negb (bool_decide (doc_kind (doc p) = expectedKind p))
           then add p 0 (§"document kind " ++ quote (doc_kind (doc p)) ++ §" does not match " ++ quote (expectedKind p))
           else p in
  let p := if negb (bool_decide (expectedName p = [])) && negb (bool_decide (doc_name (doc p) = []))
              && negb (bool_decide (doc_name (doc p) = expectedName p))
           then add p 0 (§"#" ++ doc_kind (doc p) ++ §" name " ++ quote (doc_name (doc p)) ++ §" does not match " ++ quote (expectedName p))
           else p in
  if negb (bool_decide (blocks p = [])) then add p 0 §"unclosed { block" else p.

(** The loop over the lines of the text: [idx] is the 0-based line index. *)
Fixpoint parseLines (p : parser) (idx : Z) (lines : list gostring) : parser :=
  match lines with
  | [] => p
  | line :: lines => parseLines (parseLine p (trim_space line) (idx + 1)) (idx + 1) lines
  end.

Definition text_lines (raw : gostring) : list gostring :=
  split_byte newline (replace_all raw ([carriage; newline]) [newline]).

Definition parseDocument (raw expKind expName : gostring) : document * list diagnostic :=
  let text := replace_all raw ([carriage; newline]) [newline] in
  if bool_decide (trim_space text = []) then
    (empty_document, [Diagnostic 0 §"elyph is required" NoSeverity])
  else
    let p := finish (parseLines (new_parser (trim_space expKind) (trim_space expName)) 0
                                (split_byte newline text)) in
    (doc p, diagnostics p).
End Statements.

(** ** Diagnostics *)
Definition is_error (d : diagnostic) : bool :=
  match d_severity d with DiagnosticWarning => false | _ => true end.
Definition errorDiagnostics (ds : list diagnostic) : list diagnostic := List.filter is_error ds.
Definition WarningDiagnostics (ds : list diagnostic) : list diagnostic :=
  List.filter (λ d, negb (is_error d)) ds.
Definition FormatDiagnostics (ds : list diagnostic) : gostring :=
  join [newline] (map (λ d, if 0 <? d_line d
                            then §"line " ++ itoa (d_line d) ++ §": " ++ d_message d
                            else d_message d) ds).
Definition diagnosticsError (ds : list diagnostic) : gostring :=
  §"invalid ELyph:" ++ [newline] ++ §"- "
  ++ replace_all (FormatDiagnostics ds) [newline] ([newline] ++ §"- ").

Section Entry.
Context `{UnicodeTables}.

(** The result of [validateKind]: the document or the error, and every diagnostic. *)
Definition validateKind (raw expKind expName : gostring) : res document * list diagnostic :=
  let '(d, ds) := parseDocument raw expKind expName in
  let errors := errorDiagnostics ds in
  match errors with
  | [] => (Ok d, ds)
  | _ => (Err (diagnosticsError errors), ds)
  end.
Definition ValidateSkill (raw expName : gostring) := validateKind raw §"skill" expName.
Definition ValidateTask (raw expName : gostring) := validateKind raw §"task" expName.
Definition ParseSkill (raw expName : gostring) : res document := fst (ValidateSkill raw expName).
Definition ParseTask (raw expName : gostring) : res document := fst (ValidateTask raw expName).
End Entry.

(** [ParseHeader]: the quick scan of the first statement. *)
Fixpoint header_scan (lines : list gostring) : res header :=
  match lines with
  | [] => Err §"elyph is required"
  | line :: lines =>
    let trimmed := trim_space line in
    if skipped trimmed then header_scan lines
    else match header_fields trimmed with
         | None => Err §"first statement must be #skill/#task <name>"
         | Some (f0, f1, _) =>
           let rest := trim_space (trim_prefix (f0 ++ §" " ++ f1) trimmed) in
           let desc := if has_prefix §"- " rest then trim_space (trim_prefix §"- " rest) else [] in
           Ok (Header (trim_prefix §"#" f0) f1 desc)
         end
  end.
Definition ParseHeader (raw : gostring) : res header := header_scan (text_lines raw).
