(* ===== verification/ElyphProps.v ===== *)
(** * Properties of the ELyph parser

    What a document accepted by [ValidateSkill] or [ValidateTask] satisfies:
    its metadata ([accepted_document]), its block structure
    ([accepted_blocks_grammar]), the agreement of the quick header scan with
    the full parser ([header_scan_agrees]) and the range of the reported
    lines ([diagnostic_lines_in_range]). *)
From S2P Require Import Prelude GoStr Elyph.
Open Scope Z_scope.

Create HintDb elyph.

Section Props.
Context `{UnicodeTables}.

(** ** What one call may change *)

(** [quiet n p p']: the call reported diagnostics at line [n] only and left
    the document, the header flag and the expectations alone. *)
Record quiet (n : Z) (p p' : parser) : Prop := Quiet {
  q_diag : ∃ ds, diagnostics p' = diagnostics p ++ ds ∧ Forall (λ d, d_line d = n) ds;
  q_kind : expectedKind p' = expectedKind p;
  q_name : expectedName p' = expectedName p;
  q_doc : doc p' = doc p;
  q_seen : seenHeader p' = seenHeader p
}.

Definition clean (p : parser) : Prop := errorDiagnostics (diagnostics p) = [].

#[local] Instance quiet_refl n : Reflexive (quiet n).
Proof. intros p. split; try done. exists []. by rewrite app_nil_r. Qed.
#[local] Instance quiet_trans n : Transitive (quiet n).
Proof.
  intros p q r [(d1 & E1 & F1) ????] [(d2 & E2 & F2) ????].
  split; try congruence. exists (d1 ++ d2). rewrite E2, E1, app_assoc. split; [done|by apply Forall_app].
Qed.

Lemma quiet_add n p m : quiet n p (add p n m).
Proof. split; try done. eexists. split; [done|]. by repeat constructor. Qed.
Lemma quiet_warn n p m : quiet n p (warn p n m).
Proof. split; try done. eexists. split; [done|]. by repeat constructor. Qed.
Lemma quiet_blocks n p q bs : quiet n p q → quiet n p (set_blocks q bs).
Proof. by intros []. Qed.
Lemma quiet_lastClosed n p q k : quiet n p q → quiet n p (set_lastClosed q k).
Proof. by intros []. Qed.
Lemma quiet_open n p q k : quiet n p q → quiet n p (openBlock q k).
Proof. intros. by apply quiet_lastClosed, quiet_blocks. Qed.
#[local] Hint Resolve quiet_add quiet_warn quiet_blocks quiet_lastClosed quiet_open : elyph.
#[local] Hint Extern 0 (quiet _ ?p ?p) => reflexivity : elyph.

Lemma quiet_clean n p p' : quiet n p p' → clean p' → clean p.
Proof.
  intros [(ds & E & _) ????]. unfold clean, errorDiagnostics. rewrite E, List.filter_app.
  by intros [? _]%app_eq_nil.
Qed.

Lemma not_clean_add p n m : ¬ clean (add p n m).
Proof.
  unfold clean, errorDiagnostics. simpl. rewrite List.filter_app. simpl.
  by intros [_ ?]%app_eq_nil.
Qed.
(** Case analysis of a parser function, without looking inside its data. *)
Ltac cases := repeat case_match.

Lemma quiet_checkReserved n p nm : quiet n p (checkReservedVariable p nm n).
Proof. unfold checkReservedVariable. cases; auto with elyph. Qed.
Lemma quiet_checkDerive n p e : quiet n p (checkDeriveExpression p e n).
Proof. unfold checkDeriveExpression. cases; auto with elyph. Qed.
#[local] Hint Resolve quiet_checkReserved quiet_checkDerive : elyph.

Lemma quiet_parseIO n p l b : quiet n p (parseIO p l n b).
Proof. unfold parseIO. cases; auto with elyph. Qed.
Lemma quiet_parseAssignment n p l : quiet n p (parseAssignment p l n).
Proof. unfold parseAssignment. cases; auto with elyph. Qed.
Lemma quiet_parseDerive n p l : quiet n p (parseDerive p l n).
Proof.
  unfold parseDerive. cases; auto with elyph.
  etrans; [apply quiet_checkReserved|apply quiet_checkDerive].
Qed.
Lemma quiet_parseOutput n p l : quiet n p (parseOutput p l n).
Proof. unfold parseOutput. cases; auto with elyph. Qed.
Lemma quiet_parseCall n p l pre : quiet n p (parseCall p l n pre).
Proof. unfold parseCall. cases; auto with elyph. Qed.
Lemma quiet_parseTextSlot n p l pre : quiet n p (parseTextSlot p l n pre).
Proof. unfold parseTextSlot. cases; auto with elyph. Qed.
Lemma quiet_parseIf n p l : quiet n p (parseIf p l n).
Proof. unfold parseIf. cases; auto with elyph. Qed.
Lemma quiet_parseElse n p l : quiet n p (parseElse p l n).
Proof. unfold parseElse. cases; auto with elyph. Qed.
Lemma quiet_parseEach n p l : quiet n p (parseEach p l n).
Proof. unfold parseEach. cases; auto with elyph. Qed.
Lemma quiet_closeBlock n p : quiet n p (closeBlock p n).
Proof.
  unfold closeBlock. cases; auto 8 with elyph.
  all: apply quiet_lastClosed; (etrans; [|apply quiet_add]); auto with elyph.
Qed.
Lemma quiet_countStatement n p : quiet n p (countStatement p).
Proof. unfold countStatement. cases; auto with elyph. Qed.
#[local] Hint Resolve quiet_parseIO quiet_parseAssignment quiet_parseDerive quiet_parseOutput quiet_parseCall
  quiet_parseTextSlot quiet_parseIf quiet_parseElse quiet_parseEach quiet_closeBlock quiet_countStatement : elyph.

Lemma quiet_parseSimple n p l : quiet n p (parseSimple p l n).
Proof. unfold parseSimple. cases; auto with elyph. Qed.
#[local] Hint Resolve quiet_parseSimple : elyph.

(** ** The document *)

Definition is_kind (k : gostring) : Prop := k = §"skill" ∨ k = §"task".

(** How one line may change the document. *)
Inductive doc_change (n : Z) (p p' : parser) : Prop :=
| dc_same : doc p' = doc p → seenHeader p' = seenHeader p → doc_change n p p'
| dc_step nm :
    doc p' = Document (doc_kind (doc p)) (doc_name (doc p)) (doc_steps (doc p) ++ [Step nm n]) →
    seenHeader p' = seenHeader p → validStepName nm = true →
    nm ∉ map st_name (doc_steps (doc p)) → doc_change n p p'
| dc_header kind name :
    seenHeader p = false → seenHeader p' = true → is_kind kind → validName name = true →
    doc p' = Document kind name (doc_steps (doc p)) → doc_change n p p'.

Lemma quiet_doc n p p' : quiet n p p' → doc_change n p p'.
Proof. intros []. by constructor 1. Qed.

Lemma rejectStepContext_none p nm n :
  rejectStepContext p nm n = None →
  Forall (λ f, bf_kind f ≠ blockStep) (blocks p) ∧ nm ∉ map st_name (doc_steps (doc p)).
Proof.
  unfold rejectStepContext. cases; intros [=]. split.
  - apply Forall_forall. intros f Hf Hk.
    assert (existsb (λ f, bool_decide (bf_kind f = blockStep)) (blocks p) = true); [|congruence].
    apply existsb_exists. exists f. split; [by apply list_elem_of_In|by apply bool_decide_eq_true].
  - intros (s & -> & Hs)%list_elem_of_fmap.
    assert (existsb (λ s0, bool_decide (st_name s0 = st_name s)) (doc_steps (doc p)) = true); [|congruence].
    apply existsb_exists. exists s. split; [by apply list_elem_of_In|by apply bool_decide_eq_true].
Qed.

Lemma rejectStepContext_quiet p nm n p' : rejectStepContext p nm n = Some p' → quiet n p p'.
Proof. unfold rejectStepContext. cases; intros [= <-]; auto with elyph. Qed.
#[local] Hint Resolve rejectStepContext_quiet : elyph.

(** Diagnostics and expectations, without the document. *)
Definition reports (n : Z) (p p' : parser) : Prop :=
  (∃ ds, diagnostics p' = diagnostics p ++ ds ∧ Forall (λ d, d_line d = n) ds)
  ∧ expectedKind p' = expectedKind p ∧ expectedName p' = expectedName p.

Lemma quiet_reports n p p' : quiet n p p' → reports n p p'.
Proof. by intros []. Qed.

Lemma reports_clean n p p' : reports n p p' → clean p' → clean p.
Proof.
  intros ((ds & E & _) & _). unfold clean, errorDiagnostics. rewrite E, List.filter_app.
  by intros [? _]%app_eq_nil.
Qed.

Lemma parseStep_doc n p l : doc_change n p (parseStep p l n) ∧ reports n p (parseStep p l n).
Proof.
  unfold parseStep, parseStepBlock, parseStepSingle. cases.
  all: try (split; [apply quiet_doc|apply quiet_reports]; by eauto with elyph).
  all: match goal with H : rejectStepContext _ _ _ = None |- _ => apply rejectStepContext_none in H as [_ Hnm] end.
  all: propify.
  - split; [by eapply dc_step|].
    split; [|done]. exists []. by rewrite app_nil_r.
  - match goal with |- context [parseSimple ?q ?s n] => destruct (quiet_parseSimple n q s) as [? ? ? Qd Qs] end.
    split; [|done]. by eapply dc_step; [rewrite Qd|rewrite Qs|..].
Qed.

Lemma doc_change_from n p q p' :
  doc q = doc p → seenHeader q = seenHeader p → doc_change n q p' → doc_change n p p'.
Proof.
  intros Ed Es []; [apply dc_same|eapply dc_step|eapply dc_header]; try rewrite <- Ed; try congruence; eauto.
Qed.

Lemma parseStatementContent_doc n p l :
  doc_change n p (parseStatementContent p l n) ∧ reports n p (parseStatementContent p l n).
Proof.
  unfold parseStatementContent. set (q := if negb _ then _ else _).
  assert (Hq : quiet n p q) by (subst q; cases; auto with elyph).
  assert (step_case : doc_change n p (parseStep q l n) ∧ reports n p (parseStep q l n)).
  { destruct (parseStep_doc n q l) as [D R]. destruct Hq as [(ds & E & F) Ek En Ed Es].
    split; [by eapply doc_change_from|].
    destruct R as ((ds' & E' & F') & ? & ?). split; [|split; congruence].
    exists (ds ++ ds'). rewrite E', E, app_assoc. split; [done|by apply Forall_app]. }
  clearbody q. cases; try done.
  all: split; [apply quiet_doc|apply quiet_reports]; (etrans; [exact Hq|]); auto with elyph.
Qed.

Lemma header_fields_valid l f0 f1 b :
  header_fields l = Some (f0, f1, b) →
  is_kind (trim_prefix §"#" f0) ∧ validName f1 = true.
Proof.
  unfold header_fields. cases; intros [= <- <- <-].
  match goal with H : _ && _ = true |- _ => apply andb_true_iff in H as [Hf ?] end.
  split; [|done]. apply orb_true_iff in Hf as [Hf|Hf]; apply bool_decide_eq_true in Hf; subst.
  - by left.
  - by right.
Qed.

Lemma parseLine_doc n p l : doc_change n p (parseLine p l n) ∧ reports n p (parseLine p l n).
Proof.
  unfold parseLine, parseHeader. cases.
  all: try (split; [apply quiet_doc|apply quiet_reports]; by auto with elyph).
  - match goal with H : header_fields _ = _ |- _ => apply header_fields_valid in H as [Hk Hn] end.
    propify. split; [by eapply dc_header|].
    split; [|done]. exists []. by rewrite app_nil_r.
  - destruct (parseStatementContent_doc n (countStatement p) l) as [D R].
    pose proof (quiet_countStatement n p) as [Q1 Q2 Q3 Q4 Q5].
    split; [by eapply doc_change_from|].
    destruct R as (R & R2 & R3). unfold countStatement in *. by case_match.
Qed.

(** ** The loop over the lines *)

(** The document after [n] lines: a valid header once one was seen, distinct
    valid step names on increasing lines. *)
Record doc_inv (n : Z) (p : parser) : Prop := DocInv {
  di_fresh : seenHeader p = false → doc p = empty_document;
  di_header : seenHeader p = true → is_kind (doc_kind (doc p)) ∧ validName (doc_name (doc p)) = true;
  di_names : NoDup (map st_name (doc_steps (doc p)));
  di_valid : Forall (λ s, validStepName (st_name s) = true) (doc_steps (doc p));
  di_lines : Forall (λ s, 1 ≤ st_line s ≤ n) (doc_steps (doc p));
  di_sorted : StronglySorted Z.lt (map st_line (doc_steps (doc p)))
}.

Lemma doc_inv_mono n n' p : n ≤ n' → doc_inv n p → doc_inv n' p.
Proof. intros ? []. split; try done. eapply Forall_impl; [done|]. simpl. lia. Qed.

Lemma StronglySorted_snoc {A} (R : relation A) l x :
  StronglySorted R l → Forall (λ y, R y x) l → StronglySorted R (l ++ [x]).
Proof.
  induction 1 as [|y l Hl IH Hy]; intros Hx; simpl; [by repeat constructor|].
  apply Forall_cons in Hx as [? ?]. constructor; [auto|]. by apply Forall_app; auto.
Qed.

Lemma parseLine_unseen n p l :
  seenHeader p = false → doc_steps (doc (parseLine p l n)) = doc_steps (doc p).
Proof. intros Hs. unfold parseLine, parseHeader. rewrite Hs. by cases. Qed.

Lemma doc_inv_line n p l : 0 ≤ n → doc_inv n p → doc_inv (n + 1) (parseLine p l (n + 1)).
Proof.
  intros Hn I. pose proof (parseLine_unseen (n + 1) p l) as Hu.
  destruct (parseLine_doc (n + 1) p l) as [C _].
  pose proof (doc_inv_mono n (n + 1) p ltac:(lia) I) as [E0 E1 E2 E3 E4 E5].
  destruct I as [D0 D1 D2 D3 D4 D5].
  destruct C as [Ed Es|nm Ed Es Hv Hnin|k nm Hs Hs' Hk Hv Ed].
  - split; rewrite ?Ed, ?Es in *; auto.
  - destruct (seenHeader p) eqn:Hs.
    2:{ exfalso. specialize (Hu eq_refl). rewrite Ed in Hu. simpl in Hu.
        apply (f_equal length) in Hu. rewrite length_app in Hu. simpl in Hu. lia. }
    split; rewrite ?Ed, ?Es; simpl; rewrite ?map_app; simpl; auto; try done.
    + apply Forall_snoc; simpl; [done|lia].
    + apply StronglySorted_snoc; [done|]. apply Forall_map.
      eapply Forall_impl; [exact D4|]. intros s ?; simpl in *; lia.
  - split; rewrite ?Ed; simpl; auto. congruence.
Qed.

Lemma parseLines_inv ls : ∀ n p,
  0 ≤ n → doc_inv n p → doc_inv (n + Z.of_nat (length ls)) (parseLines p n ls).
Proof.
  induction ls as [|l ls IH]; intros n p Hn I; simpl.
  - by rewrite Z.add_0_r.
  - replace (n + Z.of_nat (S (length ls))) with (n + 1 + Z.of_nat (length ls)) by lia.
    apply IH; [lia|]. by apply doc_inv_line.
Qed.

Lemma parseLines_reports ls : ∀ n p,
  0 ≤ n →
  expectedKind (parseLines p n ls) = expectedKind p ∧ expectedName (parseLines p n ls) = expectedName p
  ∧ ∃ ds, diagnostics (parseLines p n ls) = diagnostics p ++ ds
          ∧ Forall (λ d, n < d_line d ≤ n + Z.of_nat (length ls)) ds.
Proof.
  induction ls as [|l ls IH]; intros n p Hn; simpl.
  - split_and!; [done..|]. exists []. by rewrite app_nil_r.
  - destruct (parseLine_doc (n + 1) p (trim_space l)) as [_ ((ds1 & E1 & F1) & K1 & N1)].
    destruct (IH (n + 1) (parseLine p (trim_space l) (n + 1)) ltac:(lia)) as (K2 & N2 & ds2 & E2 & F2).
    split_and!; [congruence..|]. exists (ds1 ++ ds2). rewrite E2, E1, app_assoc. split; [done|].
    apply Forall_app; split; (eapply Forall_impl; [eassumption|]); simpl; lia.
Qed.

(** [finish] only adds diagnostics without a line. *)
Lemma quiet_finish p : quiet 0 p (finish p).
Proof. unfold finish. cases; repeat (first [reflexivity | etrans; [|apply quiet_add]]). Qed.

Lemma finish_clean p :
  clean (finish p) →
  seenHeader p = true ∧ blocks p = []
  ∧ (expectedKind p ≠ [] → doc_kind (doc p) ≠ [] → doc_kind (doc p) = expectedKind p)
  ∧ (expectedName p ≠ [] → doc_name (doc p) ≠ [] → doc_name (doc p) = expectedName p).
Proof.
  unfold finish. cases; intros C; try (by apply not_clean_add in C). propify.
  split_and!; [done|done|intros; destruct_or!; done..].
Qed.

Lemma finish_doc p : doc (finish p) = doc p.
Proof. by destruct (quiet_finish p). Qed.

(** The accepted runs of [validateKind], as a run of the line loop. *)
Lemma validateKind_ok raw kind name d ds :
  validateKind raw kind name = (Ok d, ds) →
  let p := parseLines (new_parser (trim_space kind) (trim_space name)) 0 (text_lines raw) in
  d = doc p ∧ ds = diagnostics (finish p) ∧ clean (finish p).
Proof.
  unfold validateKind, parseDocument, text_lines. case_bool_decide; cbv beta iota zeta; [done|].
  generalize (parseLines (new_parser (trim_space kind) (trim_space name)) 0
    (split_byte newline (replace_all raw [carriage; newline] [newline]))).
  intros p. case_match eqn:E; [|done]. intros [= <- <-]. by rewrite finish_doc.
Qed.

(** The facts of the document itself. *)
Lemma accepted_doc_inv raw kind name d ds :
  validateKind raw kind name = (Ok d, ds) →
  let p := parseLines (new_parser (trim_space kind) (trim_space name)) 0 (text_lines raw) in
  doc_inv (Z.of_nat (length (text_lines raw))) p.
Proof.
  intros _. apply (parseLines_inv _ 0); [done|]. split; simpl; try done; constructor.
Qed.

Lemma accepted_expectations raw kind name d ds :
  validateKind raw kind name = (Ok d, ds) →
  is_kind (doc_kind d) ∧ validName (doc_name d) = true
  ∧ (trim_space kind ≠ [] → doc_kind d = trim_space kind)
  ∧ (trim_space name ≠ [] → doc_name d = trim_space name).
Proof.
  intros Hv. pose proof (accepted_doc_inv _ _ _ _ _ Hv) as I.
  apply validateKind_ok in Hv as (-> & _ & (Hs & _ & Hk & Hn)%finish_clean).
  destruct (parseLines_reports (text_lines raw) 0 (new_parser (trim_space kind) (trim_space name))) as (Ek & En & _); [done|].
  rewrite Ek in Hk; rewrite En in Hn; simpl in *.
  destruct I as [_ D _ _ _ _]. destruct (D Hs) as [D1 D2].
  split_and!; [done|done| |].
  - intros Hne. apply Hk; [done|]. intros E0. rewrite E0 in D1. by destruct D1.
  - intros Hne. apply Hn; [done|]. intros E0. by rewrite E0 in D2.
Qed.

(** C39. A document [validateKind] accepts is well formed: its kind and name
    are legal and equal the expected ones (when those are given), the names of
    its [step] blocks are legal and pairwise distinct, the steps are listed in
    strictly increasing line order, each on a line of the text, and no
    error-level diagnostic was reported. *)
Lemma accepted_document raw kind name d ds :
  validateKind raw kind name = (Ok d, ds) →
  is_kind (doc_kind d) ∧ validName (doc_name d) = true
  ∧ (trim_space kind ≠ [] → doc_kind d = trim_space kind)
  ∧ (trim_space name ≠ [] → doc_name d = trim_space name)
  ∧ NoDup (map st_name (doc_steps d))
  ∧ Forall (λ s, validStepName (st_name s) = true ∧ 1 ≤ st_line s ≤ Z.of_nat (length (text_lines raw))) (doc_steps d)
  ∧ StronglySorted Z.lt (map st_line (doc_steps d))
  ∧ errorDiagnostics ds = [].
Proof.
  intros Hv. destruct (accepted_expectations _ _ _ _ _ Hv) as (? & ? & ? & ?).
  destruct (accepted_doc_inv _ _ _ _ _ Hv) as [_ _ D1 D2 D3 D4].
  apply validateKind_ok in Hv as (-> & -> & C).
  split_and!; [done..| |done|done]. apply Forall_and; by split.
Qed.

(** C40. Every diagnostic names a line of the text, or no line at all (0). *)
Lemma diagnostic_lines_in_range raw kind name :
  Forall (λ d, 0 ≤ d_line d ≤ Z.of_nat (length (text_lines raw))) (snd (validateKind raw kind name)).
Proof.
  unfold validateKind, parseDocument. case_bool_decide; cbv beta iota zeta.
  { simpl. repeat constructor; simpl; lia. }
  change (split_byte newline (replace_all raw [carriage; newline] [newline])) with (text_lines raw).
  destruct (parseLines_reports (text_lines raw) 0 (new_parser (trim_space kind) (trim_space name)))
    as (_ & _ & ds & E & F); [done|].
  revert E. generalize (parseLines (new_parser (trim_space kind) (trim_space name)) 0 (text_lines raw)).
  intros p E. destruct (quiet_finish p) as [(ds' & E' & F') _ _ _ _].
  case_match; cbn [snd]; rewrite E', E; simpl; apply Forall_app; split; (eapply Forall_impl; [eassumption|]); simpl; lia.
Qed.

(** ** The header scan *)

Lemma parseLines_header ls : ∀ n p,
  seenHeader p = true →
  doc_kind (doc (parseLines p n ls)) = doc_kind (doc p) ∧ doc_name (doc (parseLines p n ls)) = doc_name (doc p).
Proof.
  induction ls as [|l ls IH]; intros n p Hs; simpl; [done|].
  destruct (parseLine_doc (n + 1) p (trim_space l)) as [C _].
  assert (Hk : doc_kind (doc (parseLine p (trim_space l) (n + 1))) = doc_kind (doc p)
    ∧ doc_name (doc (parseLine p (trim_space l) (n + 1))) = doc_name (doc p)
    ∧ seenHeader (parseLine p (trim_space l) (n + 1)) = true)
    by (destruct C as [-> ->|nm -> ->|]; [done|done|congruence]).
  destruct Hk as (<- & <- & Hs'). by apply IH.
Qed.

Lemma parseLine_skipped p l n : skipped l = true → parseLine p l n = p.
Proof. unfold parseLine. by intros ->. Qed.

Lemma parseLines_clean ls n p : clean (parseLines p n ls) → clean p.
Proof.
  revert n p; induction ls as [|l ls IH]; intros n p; simpl; [done|].
  intros C%IH. destruct (parseLine_doc (n + 1) p (trim_space l)) as [_ R]. by apply reports_clean in R.
Qed.

Lemma header_scan_ok ls : ∀ n p,
  seenHeader p = false → clean (parseLines p n ls) → seenHeader (parseLines p n ls) = true →
  ∃ h, header_scan ls = Ok h ∧ h_kind h = doc_kind (doc (parseLines p n ls)) ∧ h_name h = doc_name (doc (parseLines p n ls)).
Proof.
  induction ls as [|l ls IH]; intros n p Hs C Hs'; simpl in *; [congruence|].
  destruct (skipped (trim_space l)) eqn:Hk; [by rewrite parseLine_skipped in * by done; apply IH|].
  pose proof (parseLines_clean _ _ _ C) as C1.
  assert (E : parseLine p (trim_space l) (n + 1) = parseHeader p (trim_space l) (n + 1))
    by (unfold parseLine; by rewrite Hk, Hs).
  rewrite E in *. unfold parseHeader in *.
  destruct (header_fields (trim_space l)) as [[[f0 f1] more]|]; [|by apply not_clean_add in C1].
  case_match; [by apply not_clean_add in C1|].
  edestruct parseLines_header as [-> ->]; [|by eexists]. done.
Qed.

(** C40. The quick scan used at start-up agrees with the full parser: whenever
    [validateKind] accepts a document, [ParseHeader] accepts its first
    statement with the same kind and name. *)
Lemma header_scan_agrees raw kind name d ds :
  validateKind raw kind name = (Ok d, ds) →
  ∃ h, ParseHeader raw = Ok h ∧ h_kind h = doc_kind d ∧ h_name h = doc_name d.
Proof.
  intros (-> & _ & C)%validateKind_ok. destruct (finish_clean _ C) as (Hs & _).
  apply header_scan_ok; [done| |done]. by eapply quiet_clean; [apply quiet_finish|].
Qed.

End Props.

(** A two-step task with a comment line and a described header. *)
Definition sample_task : gostring :=
  join [newline] [§"// cron note"; §"#task nightly - clean up"; §"step one: > first"; []; §"step two: > second"].

Example accepted_document_witness :
  (∃ d, @validateKind ascii_tables sample_task §"task" §"nightly" = (Ok d, []) ∧ length (doc_steps d) = 2%nat
        ∧ NoDup (map st_name (doc_steps d)))
  .
Proof.
  eexists. split; [vm_compute; reflexivity|]. split; [reflexivity|].
  eapply (@accepted_document ascii_tables sample_task §"task" §"nightly" _ []). vm_compute. reflexivity.
Defined.

Example header_scan_agrees_witness : ∃ h, ParseHeader sample_task = Ok h ∧ h_name h = §"nightly".
Proof.
  destruct (@header_scan_agrees ascii_tables sample_task §"task" §"nightly"
              (Document §"task" §"nightly" [Step §"one" 3; Step §"two" 5]) []) as (h & E & _ & N).
  - vm_compute. reflexivity.
  - exists h. by split.
Defined.

(** * The block grammar of ELyph documents

    The parser recognises blocks with a stack and per-block counters. This
    file states the grammar without any of that state - a forest of statements
    and blocks - and proves that an accepted document is the flattening of a
    well-formed forest ([accepted_blocks_grammar]). *)
(** ** The block structure

    The significant lines after the header, read without any parser state:
    a line closes a block, opens one, or is a single statement. *)
Inductive event := EvLeaf | EvOpen (k : block_kind) | EvClose.

Definition line_event (t : gostring) : event :=
  if bool_decide (t = §"}") then EvClose
  else if has_prefix §"?if" t then EvOpen blockIf
  else if has_prefix §"?else" t then EvOpen blockElse
  else if has_prefix §"each" t then EvOpen blockEach
  else if has_prefix §"step" t && has_suffix §"{" (trim_space (trim_prefix §"step" t)) then EvOpen blockStep
  else EvLeaf.

(** Statements and blocks, the grammar the line automaton recognises. *)
#[warnings="-register-all"] Inductive node := Leaf | Block (k : block_kind) (body : list node).

Fixpoint node_events (n : node) : list event :=
  match n with
  | Leaf => [EvLeaf]
  | Block k body => EvOpen k :: concat (map node_events body) ++ [EvClose]
  end.
Definition forest_events (f : list node) : list event := concat (map node_events f).

Definition is_if (n : node) : bool := match n with Block blockIf _ => true | _ => false end.
Definition is_else (n : node) : bool := match n with Block blockElse _ => true | _ => false end.

(** No [step] block, at any depth. *)
Fixpoint step_free (n : node) : bool :=
  match n with
  | Leaf => true
  | Block k body => negb (bool_decide (k = blockStep)) && forallb step_free body
  end.

(** Every [?else] block directly follows an [?if] block. *)
Fixpoint elses_ok (prev_if : bool) (f : list node) : bool :=
  match f with
  | [] => true
  | n :: f => implb (is_else n) prev_if && elses_ok (is_if n) f
  end.

(** A [step] block holds at least two statements and no other step. *)
Fixpoint node_ok (n : node) : bool :=
  match n with
  | Leaf => true
  | Block k body =>
    forallb node_ok body && elses_ok false body
    && implb (bool_decide (k = blockStep)) ((2 <=? length body)%nat && forallb step_free body)
  end.
Definition forest_ok (f : list node) : bool := forallb node_ok f && elses_ok false f.


(** ** The automaton and the zipper of the forest read so far

    [cur] holds the nodes of the innermost open block, [outer] the enclosing
    blocks: the kind of each open block and the nodes before it. *)
Abbreviation context := (list (block_kind * list node)).

Definition in_step (outer : context) : bool := existsb (λ '(k, _), bool_decide (k = blockStep)) outer.
Definition ends_if (f : list node) : bool :=
  match last f with Some n => is_if n | None => false end.

Fixpoint open_events (outer : context) : list event :=
  match outer with
  | [] => []
  | (k, before) :: outer => open_events outer ++ forest_events before ++ [EvOpen k]
  end.
Definition zipper_events (cur : list node) (outer : context) : list event :=
  open_events outer ++ forest_events cur.

(** The stack of frames counts the statements of each open block. *)
Fixpoint frames_match (n : Z) (bs : list block_frame) (outer : context) : Prop :=
  match bs, outer with
  | [], [] => True
  | f :: bs, (k, before) :: outer =>
    bf_kind f = k ∧ bf_directCount f = n ∧ frames_match (Z.of_nat (length before) + 1) bs outer
  | _, _ => False
  end.

Definition nodes_ok (cur : list node) (outer : context) : Prop :=
  forest_ok cur = true ∧ (in_step outer = true → forallb step_free cur = true).
Fixpoint outer_ok (outer : context) : Prop :=
  match outer with
  | [] => True
  | (k, before) :: outer =>
    (k = blockStep → in_step outer = false) ∧ (k = blockElse → ends_if before = true)
    ∧ nodes_ok before outer ∧ outer_ok outer
  end.

Record tracks (evs : list event) (p : parser) (cur : list node) (outer : context) : Prop := Tracks {
  tr_events : evs = zipper_events cur outer;
  tr_frames : frames_match (Z.of_nat (length cur)) (blocks p) outer;
  tr_nodes : nodes_ok cur outer;
  tr_outer : outer_ok outer;
  tr_closed : lastClosed p = Some blockIf → ends_if cur = true
}.

(** The effect of one clean line on the stack. *)
Definition line_effect (e : event) (p p' : parser) : Prop :=
  match e with
  | EvLeaf => blocks p' = blocks (countStatement p) ∧ lastClosed p' = None
  | EvOpen k =>
    blocks p' = BlockFrame k 0 :: blocks (countStatement p) ∧ lastClosed p' = None
    ∧ (k = blockElse → lastClosed p = Some blockIf)
    ∧ (k = blockStep → Forall (λ f, bf_kind f ≠ blockStep) (blocks p))
  | EvClose =>
    ∃ f, blocks p = f :: blocks p' ∧ lastClosed p' = Some (bf_kind f)
         ∧ (bf_kind f = blockStep → bf_directCount f ≠ 0 ∧ bf_directCount f ≠ 1)
  end.

(** The events of the lines that follow the header. *)
Fixpoint body_events (lines : list gostring) : list event :=
  match lines with
  | [] => []
  | l :: lines =>
    let t := trim_space l in
    if skipped t then body_events lines else line_event t :: body_events lines
  end.
Fixpoint document_events (lines : list gostring) : list event :=
  match lines with
  | [] => []
  | l :: lines => if skipped (trim_space l) then document_events lines else body_events lines
  end.

Section Blocks.
Context `{UnicodeTables}.

Ltac cases := repeat case_match.

Lemma prefix_head c p t : has_prefix (c :: p) t = true → ∃ t', t = c :: t'.
Proof. destruct t as [|d t]; simpl; [done|]. intros [->%bool_decide_eq_true _]%andb_true_iff. eauto. Qed.

Lemma line_event_leaf c t :
  c ≠ "}"%char → c ≠ "?"%char → c ≠ "e"%char → c ≠ "s"%char → line_event (c :: t) = EvLeaf.
Proof.
  intros. unfold line_event. rewrite bool_decide_false by (intros [=]; done).
  change §"?if" with ["?"; "i"; "f"]%char. change §"?else" with ["?"; "e"; "l"; "s"; "e"]%char.
  change §"each" with ["e"; "a"; "c"; "h"]%char. change §"step" with ["s"; "t"; "e"; "p"]%char.
  simpl. by rewrite !bool_decide_false by congruence.
Qed.

(** Calls that leave the stack alone. *)
Definition same_blocks (p p' : parser) : Prop := blocks p' = blocks p ∧ lastClosed p' = lastClosed p.

Lemma same_reserved p nm n : same_blocks p (checkReservedVariable p nm n).
Proof. unfold checkReservedVariable. by cases. Qed.
Lemma same_derive_expr p e n : same_blocks p (checkDeriveExpression p e n).
Proof. unfold checkDeriveExpression. by cases. Qed.
Lemma same_io p l n b : same_blocks p (parseIO p l n b).
Proof. unfold parseIO. by cases. Qed.
Lemma same_assignment p l n : same_blocks p (parseAssignment p l n).
Proof. unfold parseAssignment. cases; try done. apply same_reserved. Qed.
Lemma same_derive p l n : same_blocks p (parseDerive p l n).
Proof.
  unfold parseDerive. cases; try done.
  match goal with |- same_blocks _ (checkDeriveExpression (checkReservedVariable _ ?nm _) ?e _) =>
    destruct (same_derive_expr (checkReservedVariable p nm n) e n), (same_reserved p nm n) end.
  split; congruence.
Qed.
Lemma same_output p l n : same_blocks p (parseOutput p l n).
Proof. unfold parseOutput. by cases. Qed.
Lemma same_call p l n pre : same_blocks p (parseCall p l n pre).
Proof. unfold parseCall. by cases. Qed.
Lemma same_text p l n pre : same_blocks p (parseTextSlot p l n pre).
Proof. unfold parseTextSlot. by cases. Qed.
#[local] Hint Resolve same_io same_assignment same_derive same_output same_call same_text : elyph.
Lemma same_simple p l n : same_blocks p (parseSimple p l n).
Proof. unfold parseSimple. cases; auto with elyph. done. Qed.

Lemma closeBlock_effect n p : clean (closeBlock p n) → line_effect EvClose p (closeBlock p n).
Proof.
  unfold closeBlock, line_effect. cases; intros C; try (by apply not_clean_add in C); propify; simpl.
  - eexists; split_and!; [done..|]. intros _; lia.
  - eexists; split_and!; [done..|]. intros Hk; done.
Qed.

Lemma parseIf_effect n p l :
  clean (parseIf p l n) → blocks (parseIf p l n) = BlockFrame blockIf 0 :: blocks p ∧ lastClosed (parseIf p l n) = None.
Proof.
  unfold parseIf. cases; intros C; try done; try (by apply not_clean_add in C).
Qed.
Lemma parseElse_effect n p l :
  clean (parseElse p l n) →
  blocks (parseElse p l n) = BlockFrame blockElse 0 :: blocks p ∧ lastClosed (parseElse p l n) = None
  ∧ lastClosed p = Some blockIf.
Proof.
  unfold parseElse. cases; intros C; try (by apply not_clean_add in C). by propify.
Qed.
Lemma parseEach_effect n p l :
  clean (parseEach p l n) → blocks (parseEach p l n) = BlockFrame blockEach 0 :: blocks p ∧ lastClosed (parseEach p l n) = None.
Proof.
  unfold parseEach. cases; intros C; try done; by apply not_clean_add in C.
Qed.

Lemma parseStep_effect n p l :
  clean (parseStep p l n) → lastClosed p = None →
  let p' := parseStep p l n in
  if has_suffix §"{" (trim_space (trim_prefix §"step" l)) then
    blocks p' = BlockFrame blockStep 0 :: blocks p ∧ lastClosed p' = None
    ∧ Forall (λ f, bf_kind f ≠ blockStep) (blocks p)
  else blocks p' = blocks p ∧ lastClosed p' = None.
Proof.
  unfold parseStep, parseStepBlock, parseStepSingle, rejectStepContext.
  cases; intros C Hl; cbv zeta; cleanup; try (by apply not_clean_add in C); simplify_eq;
    try (by apply not_clean_add in C).
  - split_and!; [done..|]. eapply (rejectStepContext_none p _ n).
    unfold rejectStepContext. match goal with H : existsb _ (blocks p) = false |- _ => rewrite H end.
    by match goal with H : existsb _ (doc_steps (doc p)) = false |- _ => rewrite H end.
  - match goal with |- context [parseSimple ?q ?s n] => destruct (same_simple q s n) as [-> ->] end. done.
Qed.

(** A statement that is no block opener. *)
Definition leaf_result (p p' : parser) : Prop := blocks p' = blocks p ∧ lastClosed p' = None.
Lemma leaf_of_same p p' : same_blocks p p' → lastClosed p = None → leaf_result p p'.
Proof. unfold same_blocks, leaf_result. intros [? ?]; split; congruence. Qed.

Definition statement_effect (e : event) (p p' : parser) : Prop :=
  match e with
  | EvLeaf => leaf_result p p'
  | EvOpen k =>
    blocks p' = BlockFrame k 0 :: blocks p ∧ lastClosed p' = None
    ∧ (k = blockElse → lastClosed p = Some blockIf)
    ∧ (k = blockStep → Forall (λ f, bf_kind f ≠ blockStep) (blocks p))
  | EvClose => True
  end.

Lemma not_else c t : c ≠ "?"%char → has_prefix §"?else" (c :: t) = false.
Proof. intros. change §"?else" with ["?"; "e"; "l"; "s"; "e"]%char. simpl. by rewrite bool_decide_false by congruence. Qed.

Lemma prefix_if_not_else t : has_prefix §"?if" t = true → has_prefix §"?else" t = false.
Proof. intros [r ->]%has_prefix_spec. done. Qed.

Lemma statement_effect_ok n p t :
  clean (parseStatementContent p t n) → t ≠ §"}" →
  statement_effect (line_event t) p (parseStatementContent p t n).
Proof.
  intros C Ht. unfold parseStatementContent in *.
  set (q := if negb (has_prefix §"?else" t) then set_lastClosed p None else p) in *.
  assert (Hq : blocks q = blocks p) by (subst q; by cases).
  assert (Hl : has_prefix §"?else" t = false → lastClosed q = None) by (subst q; by intros ->).
  assert (Hl' : has_prefix §"?else" t = true → lastClosed q = lastClosed p) by (subst q; by intros ->).
  clearbody q.
  assert (leaf : ∀ p', same_blocks q p' → has_prefix §"?else" t = false → leaf_result p p').
  { intros p' Hs He. destruct (leaf_of_same _ _ Hs (Hl He)). split; congruence. }
  assert (token : ∀ c r p', has_prefix (c :: r) t = true → (c ≠ "}" ∧ c ≠ "?" ∧ c ≠ "e" ∧ c ≠ "s")%char → same_blocks q p' →
                  statement_effect (line_event t) p p').
  { intros c r p' [t' ->]%prefix_head (? & ? & ? & ?) Hs.
    rewrite line_event_leaf by done. apply leaf; [done|]. by apply not_else. }
  destruct (has_prefix §"<-" t) eqn:E1; [eapply token; [exact E1|by split_and!|auto with elyph]|].
  destruct (has_prefix §"->" t) eqn:E2; [eapply token; [exact E2|by split_and!|auto with elyph]|].
  destruct (has_prefix §"=>" t) eqn:E3; [eapply token; [exact E3|by split_and!|auto with elyph]|].
  destruct (has_prefix §"$" t) eqn:E4; [eapply token; [exact E4|by split_and!|auto with elyph]|].
  unfold line_event. rewrite (bool_decide_false _ Ht).
  destruct (has_prefix §"?if" t) eqn:E5.
  { destruct (parseIf_effect _ _ _ C) as [Eb El]. simpl. by rewrite Eb, El, Hq. }
  destruct (has_prefix §"?else" t) eqn:E6.
  { destruct (parseElse_effect _ _ _ C) as (Eb & El & Hc). simpl. by rewrite Eb, El, Hq, <- Hl'. }
  destruct (has_prefix §"? else" t || has_prefix §"else" t); [by apply not_clean_add in C|].
  destruct (has_prefix §"each" t) eqn:E7.
  { destruct (parseEach_effect _ _ _ C) as [Eb El]. simpl. by rewrite Eb, El, Hq. }
  destruct (has_prefix §"step" t) eqn:E8; simpl.
  { pose proof (parseStep_effect _ _ _ C (Hl eq_refl)) as S. cbv zeta in S. rewrite Hq in S.
    case_match; simpl; [by destruct S as (Eb & El & ?)|done]. }
  cases; simpl; try (by apply not_clean_add in C); try (by apply leaf; auto with elyph).
Qed.

Lemma countStatement_kinds p : map bf_kind (blocks (countStatement p)) = map bf_kind (blocks p).
Proof. unfold countStatement. by destruct (blocks p) eqn:E; simpl; rewrite ?E. Qed.

Lemma line_effect_ok n p t :
  seenHeader p = true → skipped t = false → clean (parseLine p t n) →
  line_effect (line_event t) p (parseLine p t n).
Proof.
  intros Hs Hk C. unfold parseLine in *. rewrite Hk, Hs in *. cbn [negb] in *.
  destruct (has_prefix §"#" t); [by apply not_clean_add in C|].
  case_bool_decide as Ht.
  - subst t. by apply closeBlock_effect.
  - pose proof (statement_effect_ok _ _ _ C Ht) as E.
    assert (Hc : lastClosed (countStatement p) = lastClosed p) by (unfold countStatement; by cases).
    destruct (line_event t) eqn:Hev; simpl in *.
    + done.
    + destruct E as (E1 & E2 & E3 & E4). rewrite <- Hc. split_and!; [done..|].
      intros Hk'. specialize (E4 Hk'). apply (Forall_map bf_kind (λ k, k ≠ blockStep)).
      rewrite <- countStatement_kinds. by apply (Forall_map bf_kind (λ k, k ≠ blockStep)).
    + unfold line_event in Hev. rewrite (bool_decide_false _ Ht) in Hev. by cases.
Qed.

(** ** The simulation *)

Lemma forest_events_app f g : forest_events (f ++ g) = forest_events f ++ forest_events g.
Proof. unfold forest_events. by rewrite map_app, concat_app. Qed.

Lemma elses_ok_snoc b f n :
  elses_ok b (f ++ [n]) = elses_ok b f && implb (is_else n) (match last f with Some m => is_if m | None => b end).
Proof.
  revert b; induction f as [|m f IH]; intros b; simpl; [by rewrite andb_true_r|].
  rewrite IH, andb_assoc. destruct f as [|m' f]; simpl; [done|]. by destruct (last (m' :: f)) eqn:E; rewrite ?last_cons in E; case_match.
Qed.

Lemma forest_ok_snoc f n :
  forest_ok (f ++ [n]) = true ↔ forest_ok f = true ∧ node_ok n = true ∧ implb (is_else n) (ends_if f) = true.
Proof.
  unfold forest_ok, ends_if. rewrite forallb_app, elses_ok_snoc. simpl. rewrite !andb_true_iff. tauto.
Qed.

Lemma frames_match_count n p outer :
  frames_match n (blocks p) outer → frames_match (n + 1) (blocks (countStatement p)) outer.
Proof.
  unfold countStatement. destruct (blocks p) as [|f bs] eqn:E; [by rewrite E|].
  destruct outer as [|[k before] outer]; simpl; [done|]. intros (? & ? & ?); split_and!; [done|lia|done].
Qed.

Lemma frames_match_step n bs outer :
  frames_match n bs outer → Forall (λ f, bf_kind f ≠ blockStep) bs → in_step outer = false.
Proof.
  revert n outer; induction bs as [|f bs IH]; intros n [|[k before] outer]; simpl; try done.
  intros (<- & _ & Hm) [Hk Hf]%Forall_cons. rewrite bool_decide_false by done. simpl. eauto.
Qed.

Lemma ends_if_snoc f n : ends_if (f ++ [n]) = is_if n.
Proof. unfold ends_if. by rewrite last_snoc. Qed.

Lemma nodes_ok_snoc cur outer n :
  nodes_ok cur outer → node_ok n = true → implb (is_else n) (ends_if cur) = true →
  (in_step outer = true → step_free n = true) → nodes_ok (cur ++ [n]) outer.
Proof.
  intros [Hc Hs] Hn He Hf. split; [by apply forest_ok_snoc|].
  intros Hi. rewrite forallb_app, Hs by done. simpl. by rewrite Hf.
Qed.

Lemma tracks_leaf evs p p' cur outer :
  tracks evs p cur outer → line_effect EvLeaf p p' → tracks (evs ++ [EvLeaf]) p' (cur ++ [Leaf]) outer.
Proof.
  intros [-> Hf Hn Ho _] [Hb Hl]. split.
  - unfold zipper_events. by rewrite forest_events_app, app_assoc.
  - rewrite Hb, length_app, Nat2Z.inj_add. by apply frames_match_count.
  - by apply nodes_ok_snoc.
  - done.
  - by rewrite Hl.
Qed.

Lemma tracks_open evs p p' cur outer k :
  tracks evs p cur outer → line_effect (EvOpen k) p p' → tracks (evs ++ [EvOpen k]) p' [] ((k, cur) :: outer).
Proof.
  intros [-> Hf Hn Ho Hc] (Hb & Hl & He & Hs). split.
  - unfold zipper_events. simpl. change (forest_events []) with (@nil event). by rewrite app_nil_r, !app_assoc.
  - rewrite Hb. simpl. split_and!; [done..|]. by apply frames_match_count.
  - done.
  - simpl. split_and!; [|auto|done..]. intros Hk. eapply frames_match_step; [exact Hf|auto].
  - by rewrite Hl.
Qed.

Lemma tracks_close evs p p' cur outer :
  tracks evs p cur outer → line_effect EvClose p p' →
  ∃ cur' outer', tracks (evs ++ [EvClose]) p' cur' outer'.
Proof.
  intros [-> Hf [Hc1 Hc2] Ho Hc] (f & Hb & Hl & Hk). rewrite Hb in Hf.
  destruct outer as [|[k before] outer]; [done|]. destruct Hf as (<- & Hn & Hf).
  destruct Ho as (Hstep & Helse & Hbefore & Ho).
  exists (before ++ [Block (bf_kind f) cur]), outer. split.
  - unfold zipper_events. rewrite forest_events_app. simpl.
    change (forest_events [Block (bf_kind f) cur])
      with ((EvOpen (bf_kind f) :: forest_events cur ++ [EvClose]) ++ []).
    by rewrite app_nil_r, <- !app_assoc.
  - by rewrite length_app, Nat2Z.inj_add.
  - apply nodes_ok_snoc; [done|..].
    + unfold forest_ok in Hc1. simpl. rewrite Hc1. simpl. case_bool_decide as Hb'; [|done].
      rewrite Hc2 by (simpl; by rewrite bool_decide_true). simpl. rewrite andb_true_r.
      specialize (Hk Hb'). clear Hc1 Hc2 Hc. destruct cur as [|? [|? ?]]; simpl in *; [lia|lia|done].
    + destruct (bf_kind f) eqn:E; simpl; auto.
    + intros Hi. simpl. rewrite bool_decide_false by (intros E; specialize (Hstep E); congruence).
      apply Hc2. simpl. by rewrite Hi, orb_true_r.
  - done.
  - rewrite Hl, ends_if_snoc. by intros [= ->].
Qed.

Lemma tracks_line evs p p' cur outer e :
  tracks evs p cur outer → line_effect e p p' → ∃ cur' outer', tracks (evs ++ [e]) p' cur' outer'.
Proof.
  intros T E. destruct e; [|eauto using tracks_open|eauto using tracks_close].
  eexists _, _. by eapply tracks_leaf.
Qed.

Lemma parseLine_clean n p l : clean (parseLine p l n) → clean p.
Proof. destruct (parseLine_doc n p l) as [_ R]. by apply (reports_clean _ _ _ R). Qed.

Lemma parseLine_seen n p l : seenHeader p = true → seenHeader (parseLine p l n) = true.
Proof. intros Hs. destruct (parseLine_doc n p l) as [[]  _]; congruence. Qed.

Lemma parseLines_tracks ls : ∀ n p evs cur outer,
  seenHeader p = true → clean (parseLines p n ls) → tracks evs p cur outer →
  ∃ cur' outer', tracks (evs ++ body_events ls) (parseLines p n ls) cur' outer'.
Proof.
  induction ls as [|l ls IH]; intros n p evs cur outer Hs C T; simpl in *.
  - rewrite app_nil_r. eauto.
  - pose proof (parseLines_clean _ _ _ C) as C1.
    destruct (skipped (trim_space l)) eqn:Hk.
    + assert (E : parseLine p (trim_space l) (n + 1) = p) by (unfold parseLine; by rewrite Hk).
      rewrite E in *. eauto.
    + destruct (tracks_line _ _ _ _ _ _ T (line_effect_ok _ _ _ Hs Hk C1)) as (cur1 & outer1 & T1).
      destruct (IH _ _ _ _ _ (parseLine_seen _ _ _ Hs) C T1) as (cur2 & outer2 & T2).
      rewrite <- app_assoc in T2. eauto.
Qed.

Lemma header_start n p l :
  seenHeader p = false → skipped l = false → clean (parseLine p l n) →
  seenHeader (parseLine p l n) = true ∧ blocks (parseLine p l n) = blocks p
  ∧ lastClosed (parseLine p l n) = lastClosed p.
Proof.
  intros Hs Hk. unfold parseLine, parseHeader. rewrite Hs, Hk. simpl. cases; intros C; try done; by apply not_clean_add in C.
Qed.

Lemma document_tracks ls : ∀ n p,
  seenHeader p = false → blocks p = [] → lastClosed p = None →
  clean (parseLines p n ls) → seenHeader (parseLines p n ls) = true →
  ∃ cur outer, tracks (document_events ls) (parseLines p n ls) cur outer.
Proof.
  induction ls as [|l ls IH]; intros n p Hs Hb Hl C Hs'; simpl in *; [congruence|].
  pose proof (parseLines_clean _ _ _ C) as C1.
  destruct (skipped (trim_space l)) eqn:Hk.
  - assert (E : parseLine p (trim_space l) (n + 1) = p) by (unfold parseLine; by rewrite Hk).
    rewrite E in *. by apply IH.
  - destruct (header_start _ _ _ Hs Hk C1) as (S1 & S2 & S3).
    apply (parseLines_tracks ls (n + 1) _ [] [] []); [done|done|].
    split; [done|by rewrite S2, Hb|done|done|by rewrite S3, Hl].
Qed.

(** ** Accepted documents *)

(** C38. Every document [ValidateSkill]/[ValidateTask] accepts has a block
    structure: read without any parser state, its lines after the header are
    the flattening of a forest of statements and blocks in which every
    [?else] block directly follows an [?if] block, and every [step] block
    holds at least two statements and no other step. *)
Theorem accepted_blocks_grammar raw kind name d ds :
  validateKind raw kind name = (Ok d, ds) →
  ∃ f, document_events (text_lines raw) = forest_events f ∧ forest_ok f = true.
Proof.
  intros (-> & _ & C)%validateKind_ok.
  destruct (finish_clean _ C) as (Hs & Hb & _).
  destruct (document_tracks (text_lines raw) 0 (new_parser (trim_space kind) (trim_space name)))
    as (cur & outer & [He Hf [Hn _] Ho _]); [done..|by eapply quiet_clean; [apply quiet_finish|]|done|].
  rewrite Hb in Hf. destruct outer as [|[k before] outer]; [|done].
  exists cur. by rewrite He.
Qed.

End Blocks.

(** A skill with an [?if]/[?else] pair and a two-statement step. *)
Definition sample_skill : gostring :=
  join [newline] [§"// note"; §"#skill demo - a demo"; §"?if(ready) {"; §"> go"; §"}"; §"?else{"; §"> wait"; §"}";
                  §"step one {"; §"$a = 1"; §"@tool web(q=$a)"; §"}"; §"step two: > done"].

Example accepted_blocks_grammar_witness :
  (∃ d, @validateKind ascii_tables sample_skill §"skill" §"demo" = (Ok d, []))
  ∧ ∃ f, document_events (text_lines sample_skill) = forest_events f ∧ forest_ok f = true.
Proof.
  split.
  - eexists. vm_compute. reflexivity.
  - eapply (@accepted_blocks_grammar ascii_tables sample_skill §"skill" §"demo" _ []). vm_compute. reflexivity.
Defined.
