(* ===== verification/FileText.v ===== *)
(** * Text and match helpers of [internal/fileops] ([text.go], [match.go])

    Byte offsets are naturals; the line numbers and limits a caller supplies
    are integers. *)
From S2P Require Import Prelude GoStr.
Open Scope Z_scope.

(** ** Line endings *)
Definition crlf : gostring := [carriage; newline].

Definition NormalizeEditText (text : gostring) : gostring :=
  replace_all (replace_all text crlf [newline]) [carriage] [newline].

Definition RestoreLineEndings (text lineEnding : gostring) : gostring :=
  if bool_decide (lineEnding = []) || bool_decide (lineEnding = [newline]) then text
  else replace_all text [newline] lineEnding.

Definition DetectLineEnding (text : gostring) : gostring :=
  if contains text crlf then crlf
  else if contains text [carriage] then [carriage]
  else [newline].

Definition EnsureTrailingNewline (text : gostring) : gostring :=
  let text := NormalizeEditText text in
  if bool_decide (text = []) || has_suffix [newline] text then text else text ++ [newline].

Definition SplitLines (text : gostring) : list gostring :=
  let text := replace_all text crlf [newline] in
  let text := replace_all text [carriage] [newline] in
  if bool_decide (text = []) then []
  else
    let text := if has_suffix [newline] text then trim_suffix [newline] text else text in
    if bool_decide (text = []) then [[]] else split_byte newline text.

(** A NUL among the first 4096 bytes. *)
Definition LooksBinaryUTF8 (text : gostring) : bool := contains (take 4096 text) ["000"%char].

(** ** Ranges and limits *)
Definition DefaultReadLineLimit : Z := 200.
Record LineNumber := { ln_Value : Z; ln_End : bool }.

Record read_range := { rr_start : Z; rr_end : Z; rr_truncated : bool }.
Definition NormalizeReadRange (total start : Z) (endLine : LineNumber) : res read_range :=
  if total =? 0 then Ok {| rr_start := 1; rr_end := 0; rr_truncated := false |}
  else
    let start := if start <=? 0 then 1 else start in
    if total <? start then
      Err (§"start_line " ++ itoa start ++ §" exceeds total lines " ++ itoa total)
    else
      let '(end_, truncated) :=
        if ln_End endLine then (total, false)
        else if ln_Value endLine <=? 0 then
          let e := start + DefaultReadLineLimit - 1 in (e, e <? total)
        else (ln_Value endLine, false) in
      let end_ := if total <? end_ then total else end_ in
      if end_ <? start then Err §"end_line must be >= start_line"
      else if negb (ln_End endLine) && (DefaultReadLineLimit <? end_ - start + 1)
      then Ok {| rr_start := start; rr_end := start + DefaultReadLineLimit - 1; rr_truncated := true |}
      else Ok {| rr_start := start; rr_end := end_; rr_truncated := truncated |}.

Definition NormalizeGrepContextLines (value : Z) : Z :=
  if value <? 0 then 0 else if value =? 0 then 2 else if 20 <? value then 20 else value.
Definition NormalizeMaxMatches (value : Z) : Z :=
  if value <=? 0 then 20 else if 100 <? value then 100 else value.
Definition NormalizeContextLines (value : Z) : Z :=
  if value <? 0 then 0 else if value =? 0 then 3 else if 20 <? value then 20 else value.

Definition ValidateLineRange (total start end_ : Z) : res unit :=
  if start <=? 0 then Err §"line must be >= 1"
  else if end_ <? start then Err §"end_line must be >= line"
  else if total =? 0 then Err §"file has no lines"
  else if (total <? start) || (total <? end_)
  then Err (§"line range " ++ itoa start ++ §"-" ++ itoa end_ ++ §" exceeds total lines " ++ itoa total)
  else Ok tt.

(** ** Matches *)
Definition matchPreviewLimit : nat := 5.
Definition matchPreviewWidth : nat := 40.

Record matchLocation := MatchLocation {
  byteStart : nat;
  byteEnd : nat;
  startLine : Z;
  endLine : Z;
  preview : gostring;
  lineIndex : nat
}.

(** A line of the text being edited: [text[el_start:el_end]]; [el_fullEnd]
    passes its newline, when it has one. *)
Record editSourceLine := EditSourceLine {
  el_start : nat;
  el_end : nat;
  el_fullEnd : nat;
  el_text : gostring
}.

(** The offset is clamped to [0, len(text)]. *)
Definition byteOffsetToLine (text : gostring) (offset : nat) : Z :=
  Z.of_nat (count_byte newline (take (Nat.min offset (length text)) text)) + 1.

Definition truncateLine (s : gostring) : gostring :=
  let s := replace_all s [newline] §"\n" in
  if (matchPreviewWidth <? length s)%nat then take matchPreviewWidth s ++ §"..." else s.

(** [lineStart]: the position after the last newline before [start]. *)
Fixpoint line_start_of (text : gostring) (start : nat) : nat :=
  match start with
  | O => O
  | S k => match text !! k with
           | Some c => if bool_decide (c = newline) then start else line_start_of text k
           | None => start
           end
  end.
Definition matchPreview (text : gostring) (start end_ : nat) : gostring :=
  let lineStart := line_start_of text start in
  truncateLine (take (end_ - lineStart) (drop lineStart text)).

Definition contentMatch (text : gostring) (start end_ : nat) : matchLocation :=
  MatchLocation start end_ (byteOffsetToLine text start) (byteOffsetToLine text (end_ - 1))
                (matchPreview text start end_) 0.

(** The search loop of [findContentMatches]. Each round advances by at least
    one byte, so [length text + 1] rounds are enough. *)
Fixpoint content_matches_from (fuel : nat) (text needle : gostring) (offset : nat) : list matchLocation :=
  match fuel with
  | O => []
  | S fuel =>
    match index needle (drop offset text) with
    | None => []
    | Some idx =>
      let start := (offset + idx)%nat in
      let end_ := (start + length needle)%nat in
      contentMatch text start end_ :: content_matches_from fuel text needle end_
    end
  end.
Definition findContentMatches (text needle : gostring) : list matchLocation :=
  let needleNorm := NormalizeEditText needle in
  if bool_decide (needleNorm = []) then []
  else content_matches_from (S (length text)) text needleNorm 0.

Fixpoint line_matches_from (i : nat) (lines : list editSourceLine) (needle : gostring) : list matchLocation :=
  match lines with
  | [] => []
  | line :: lines =>
    let rest := line_matches_from (S i) lines needle in
    if has_prefix needle (trim_left_blank (el_text line)) then
      MatchLocation (el_start line) (el_end line) (Z.of_nat i + 1) (Z.of_nat i + 1)
                    (truncateLine (trim_left_blank (el_text line))) i :: rest
    else rest
  end.
Definition findLineMatches (lines : list editSourceLine) (needle : gostring) : list matchLocation :=
  line_matches_from 0 lines needle.

Definition formatLineRange (loc : matchLocation) : gostring :=
  if startLine loc =? endLine loc then §"L" ++ itoa (startLine loc)
  else §"L" ++ itoa (startLine loc) ++ §"-" ++ itoa (endLine loc).

Section Select.
Context `{UnicodeTables}.

Fixpoint format_entries (i : Z) (locations : list matchLocation) : gostring :=
  match locations with
  | [] => []
  | loc :: rest =>
    §"  #" ++ itoa i ++ §" " ++ formatLineRange loc ++ §" " ++ quote (preview loc) ++ [newline]
    ++ format_entries (i + 1) rest
  end.
Definition formatMatchLocations (locations : list matchLocation) : gostring :=
  let limit := Nat.min (length locations) matchPreviewLimit in
  format_entries 1 (take limit locations)
  ++ (if (limit <? length locations)%nat
      then §"  ...and " ++ itoa (Z.of_nat (length locations - limit)) ++ §" more" ++ [newline] else []).

Definition selectMatches (locations : list matchLocation) (index : option Z) (all : bool) (label : gostring)
  : res (list matchLocation) :=
  let n := Z.of_nat (length locations) in
  if n =? 0 then Err (label ++ §" not found")
  else match index with
       | Some i =>
         if all then Err §"index and all_matches are mutually exclusive"
         else if (i <? 1) || (n <? i)
         then Err (§"index " ++ itoa i ++ §" out of range: " ++ itoa n ++ §" " ++ label
                   ++ §" found, use 1-" ++ itoa n)
         else match locations !! Z.to_nat (i - 1) with
              | Some loc => Ok [loc]
              | None => Panic
              end
       | None =>
         if all then Ok locations
         else if 1 <? n
         then Err (label ++ §" matched " ++ itoa n ++ §" locations; provide a longer " ++ label
                   ++ §", index, or all_matches:" ++ [newline] ++ formatMatchLocations locations)
         else Ok locations
       end.
End Select.
