(* ===== verification/FileEdit.v ===== *)
(** * The edit engine of [internal/fileops/edit.go]

    [ApplyEdits] resolves every edit against the original text, checks that
    the resolved byte ranges are compatible and splices them from right to
    left. Slices, indexing and pointer dereferences that would panic in Go
    yield [Panic]. *)
From S2P Require Import Prelude GoStr FileText.
Open Scope Z_scope.

Record Edit := {
  Operation : gostring;
  Line : Z;
  EndLine : Z;
  NewText : option gostring;
  OldText : gostring;
  Anchor : gostring;
  Index : option Z;
  AllMatches : bool
}.

Record resolvedEdit := ResolvedEdit {
  re_start : nat;
  re_end : nat;
  re_text : gostring;
  re_order : nat
}.

(** ** Panicking primitives *)

(** [s[i:j]]. *)
Definition slice (s : gostring) (i j : nat) : res gostring :=
  if (i <=? j)%nat && (j <=? length s)%nat then Ok (take (j - i) (drop i s)) else Panic.
(** [*p]. *)
Definition deref {A} (p : option A) : res A := match p with Some a => Ok a | None => Panic end.
(** [xs[i]]. *)
Definition at_index {A} (xs : list A) (i : Z) : res A :=
  if i <? 0 then Panic else deref (xs !! Z.to_nat i).

(** ** Lines *)

(** The loop of [scanEditLines] from byte [start]; each round passes at least
    one byte, so [length text + 1] rounds are enough. *)
Fixpoint scan_from (fuel : nat) (text : gostring) (start : nat) : list editSourceLine :=
  match fuel with
  | O => []
  | S fuel =>
    if (start <? length text)%nat then
      match index [newline] (drop start text) with
      | None => [EditSourceLine start (length text) (length text) (drop start text)]
      | Some rel =>
        let end_ := (start + rel)%nat in
        EditSourceLine start end_ (end_ + 1) (take rel (drop start text)) :: scan_from fuel text (end_ + 1)
      end
    else []
  end.
Definition scanEditLines (text : gostring) : list editSourceLine :=
  if bool_decide (text = []) then [] else scan_from (S (length text)) text 0.

Definition normalizeLineBlock (text : gostring) : res gostring :=
  match SplitLines (EnsureTrailingNewline text) with
  | [] => Err §"new_text must contain at least one line"
  | lines => Ok (join [newline] lines)
  end.

Definition resolveLineInsert (text : gostring) (lines : list editSourceLine) (line : Z) (block : gostring)
  : res (nat * gostring) :=
  let total := Z.of_nat (length lines) in
  if (line <? 1) || (total + 1 <? line)
  then Err (§"insert line " ++ itoa line ++ §" exceeds valid positions 1-" ++ itoa (total + 1))
  else if total =? 0 then Ok (0%nat, block)
  else if line <=? total then
    let* l := at_index lines (line - 1) in Ok (el_start l, block ++ [newline])
  else if has_suffix [newline] text then Ok (length text, block ++ [newline])
  else Ok (length text, [newline] ++ block).

Definition lineDeleteRange (lines : list editSourceLine) (startLine endLine : Z) : res (nat * nat) :=
  let* first := at_index lines (startLine - 1) in
  let* last := at_index lines (endLine - 1) in
  if (endLine =? Z.of_nat (length lines)) && (el_fullEnd last =? el_end last)%nat && (1 <? startLine)
  then let* prev := at_index lines (startLine - 2) in Ok (el_end prev, el_fullEnd last)
  else Ok (el_start first, el_fullEnd last).

(** ** Validation of one edit *)
Section Resolve.
Context `{UnicodeTables}.

Definition op_error (operation msg : gostring) : res unit :=
  Err (§"operation " ++ quote operation ++ msg).

Definition rejectLineFields (edit : Edit) (operation : gostring) : res unit :=
  if negb (Line edit =? 0) || negb (EndLine edit =? 0)
  then op_error operation §" does not use line or end_line" else Ok tt.
Definition rejectMatchFields (edit : Edit) (operation : gostring) : res unit :=
  if bool_decide (is_Some (Index edit)) || AllMatches edit
  then op_error operation §" does not support index or all_matches" else Ok tt.

Definition is_nil {A} (o : option A) : bool := match o with None => true | Some _ => false end.
Definition empty (s : gostring) : bool := bool_decide (s = []).
Definition is_op (operation name : gostring) : bool := bool_decide (operation = name).
Definition anchored (operation : gostring) : bool :=
  is_op operation §"insert_before" || is_op operation §"insert_after"
  || is_op operation §"replace_line" || is_op operation §"delete_line".

Definition validateEditFields (edit : Edit) (operation : gostring) : res unit :=
  if empty operation then Err §"operation is required"
  else if negb (is_nil (Index edit)) && AllMatches edit
  then Err §"index and all_matches are mutually exclusive"
  else if is_op operation §"replace_text" then
    if empty (NormalizeEditText (OldText edit)) then Err §"old_text is required"
    else if is_nil (NewText edit) then Err §"new_text is required"
    else if negb (empty (trim_space (Anchor edit))) then op_error operation §" uses old_text, not anchor"
    else rejectLineFields edit operation
  else if is_op operation §"replace" then
    if Line edit <? 1 then Err §"line must be >= 1"
    else if is_nil (NewText edit) then Err §"new_text is required"
    else if negb (empty (OldText edit)) || negb (empty (Anchor edit))
    then op_error operation §" only uses line, optional end_line, and new_text"
    else rejectMatchFields edit operation
  else if is_op operation §"insert" then
    if Line edit <? 1 then Err §"line must be >= 1"
    else if negb (EndLine edit =? 0) || negb (empty (OldText edit)) || negb (empty (Anchor edit))
    then op_error operation §" only uses line and new_text"
    else if is_nil (NewText edit) then Err §"new_text is required"
    else rejectMatchFields edit operation
  else if is_op operation §"delete" then
    if Line edit <? 1 then Err §"line must be >= 1"
    else if negb (is_nil (NewText edit)) || negb (empty (OldText edit)) || negb (empty (Anchor edit))
    then op_error operation §" only uses line and optional end_line"
    else rejectMatchFields edit operation
  else if anchored operation then
    let anchor := NormalizeEditText (Anchor edit) in
    if empty anchor then Err §"anchor is required"
    else if contains anchor [newline] then Err §"anchor must be a single-line prefix"
    else if negb (empty (OldText edit)) then op_error operation §" uses anchor, not old_text"
    else
      let* _ := rejectLineFields edit operation in
      if is_op operation §"delete_line" then
        if negb (is_nil (NewText edit)) then op_error operation §" does not use new_text" else Ok tt
      else if is_nil (NewText edit) then Err §"new_text is required" else Ok tt
  else if is_op operation §"overwrite" then
    if is_nil (NewText edit) then Err §"new_text is required"
    else if negb (Line edit =? 0) || negb (EndLine edit =? 0) || negb (empty (OldText edit))
            || negb (empty (Anchor edit)) || negb (is_nil (Index edit)) || AllMatches edit
    then op_error operation §" only uses new_text"
    else Ok tt
  else Err (§"unsupported operation " ++ quote (Operation edit)).

(** ** Resolution against the original text

    The [order] of a resolved edit is set by [ApplyEdits]. *)
Definition resolve_replace_text (text : gostring) (edit : Edit) : res (list resolvedEdit) :=
  let oldText := NormalizeEditText (OldText edit) in
  let* locations := selectMatches (findContentMatches text oldText) (Index edit) (AllMatches edit) §"old_text" in
  res_map (λ loc,
    let* new := deref (NewText edit) in
    Ok (ResolvedEdit (byteStart loc) (byteEnd loc) (NormalizeEditText new) 0)) locations.

Definition edit_end_line (edit : Edit) : Z := if EndLine edit =? 0 then Line edit else EndLine edit.

Definition resolve_range (lines : list editSourceLine) (edit : Edit) (text : res gostring)
  : res (list resolvedEdit) :=
  let endLine := edit_end_line edit in
  let* _ := ValidateLineRange (Z.of_nat (length lines)) (Line edit) endLine in
  let* (start, end_) := lineDeleteRange lines (Line edit) endLine in
  let* new := text in
  Ok [ResolvedEdit start end_ new 0].

Definition resolve_insert (text : gostring) (lines : list editSourceLine) (edit : Edit) : res (list resolvedEdit) :=
  let* new := deref (NewText edit) in
  let* block := normalizeLineBlock new in
  let* (start, inserted) := resolveLineInsert text lines (Line edit) block in
  Ok [ResolvedEdit start start inserted 0].

Definition resolve_anchor_at (lines : list editSourceLine) (operation block : gostring) (loc : matchLocation)
  : res resolvedEdit :=
  let* line := deref (lines !! lineIndex loc) in
  if is_op operation §"insert_before" then
    Ok (ResolvedEdit (el_start line) (el_start line) (block ++ [newline]) 0)
  else if is_op operation §"insert_after" then
    if (el_end line <? el_fullEnd line)%nat
    then Ok (ResolvedEdit (el_fullEnd line) (el_fullEnd line) (block ++ [newline]) 0)
    else Ok (ResolvedEdit (el_end line) (el_end line) ([newline] ++ block) 0)
  else if is_op operation §"replace_line" then
    Ok (ResolvedEdit (el_start line) (el_end line) block 0)
  else
    let* (start, end_) := lineDeleteRange lines (Z.of_nat (lineIndex loc) + 1) (Z.of_nat (lineIndex loc) + 1) in
    Ok (ResolvedEdit start end_ [] 0).

Definition resolve_anchor (lines : list editSourceLine) (edit : Edit) (operation : gostring)
  : res (list resolvedEdit) :=
  let anchor := NormalizeEditText (Anchor edit) in
  let* locations := selectMatches (findLineMatches lines anchor) (Index edit) (AllMatches edit) §"anchor" in
  let* block := if is_op operation §"delete_line" then Ok []
                else let* new := deref (NewText edit) in normalizeLineBlock new in
  res_map (resolve_anchor_at lines operation block) locations.

Definition resolveEdit (text : gostring) (lines : list editSourceLine) (edit : Edit) (operation : gostring)
  : res (list resolvedEdit) :=
  let* _ := validateEditFields edit operation in
  if is_op operation §"replace_text" then resolve_replace_text text edit
  else if is_op operation §"replace" then
    resolve_range lines edit (let* new := deref (NewText edit) in Ok (NormalizeEditText new))
  else if is_op operation §"insert" then resolve_insert text lines edit
  else if is_op operation §"delete" then resolve_range lines edit (Ok [])
  else if anchored operation then resolve_anchor lines edit operation
  else Err (§"unsupported operation " ++ quote (Operation edit)).
End Resolve.

(** ** Compatibility of the resolved edits *)
Definition is_insert (e : resolvedEdit) : bool := (re_start e =? re_end e)%nat.

Definition num (n : nat) : gostring := itoa (Z.of_nat n).
Definition check_pair (a b : resolvedEdit) : res unit :=
  if negb (is_insert a) && negb (is_insert b) && (re_start a <? re_end b)%nat && (re_start b <? re_end a)%nat
  then Err (§"edits overlap in original content at byte ranges " ++ num (re_start a) ++ §"-" ++ num (re_end a)
            ++ §" and " ++ num (re_start b) ++ §"-" ++ num (re_end b))
  else if is_insert a && negb (is_insert b) && (re_start b <? re_start a)%nat && (re_start a <? re_end b)%nat
  then Err (§"insertion at byte " ++ num (re_start a) ++ §" falls inside edited range "
            ++ num (re_start b) ++ §"-" ++ num (re_end b))
  else if is_insert b && negb (is_insert a) && (re_start a <? re_start b)%nat && (re_start b <? re_end a)%nat
  then Err (§"insertion at byte " ++ num (re_start b) ++ §" falls inside edited range "
            ++ num (re_start a) ++ §"-" ++ num (re_end a))
  else Ok tt.
(** The two nested loops: every edit against every later one. *)
Fixpoint validateResolvedEdits (edits : list resolvedEdit) : res unit :=
  match edits with
  | [] => Ok tt
  | a :: rest => let* _ := res_map (check_pair a) rest in validateResolvedEdits rest
  end.

(** ** Application *)

(** The comparison of the stable sort: right to left, a replacement before an
    insertion at the same byte, later insertions before earlier ones. *)
Definition edit_less (a b : resolvedEdit) : bool :=
  if negb (re_start a =? re_start b)%nat then (re_start b <? re_start a)%nat
  else if negb (Bool.eqb (is_insert a) (is_insert b)) then negb (is_insert a)
  else (re_order b <? re_order a)%nat.

(** [sort.SliceStable]: an element is placed before the first later element it is not after. *)
Fixpoint insert_sorted (x : resolvedEdit) (l : list resolvedEdit) : list resolvedEdit :=
  match l with
  | [] => [x]
  | y :: l => if edit_less y x then y :: insert_sorted x l else x :: y :: l
  end.
Fixpoint sort_edits (l : list resolvedEdit) : list resolvedEdit :=
  match l with
  | [] => []
  | x :: l => insert_sorted x (sort_edits l)
  end.

(** [out[:edit.start] + edit.text + out[edit.end:]]. *)
Definition splice (out : gostring) (e : resolvedEdit) : res gostring :=
  let* pre := slice out 0 (re_start e) in
  let* post := slice out (re_end e) (length out) in
  Ok (pre ++ re_text e ++ post).
Fixpoint apply_sorted (out : gostring) (edits : list resolvedEdit) : res gostring :=
  match edits with
  | [] => Ok out
  | e :: edits => let* out := splice out e in apply_sorted out edits
  end.

(** [item.order = len(resolved)] for each item in turn. *)
Fixpoint number_from (n : nat) (items : list resolvedEdit) : list resolvedEdit :=
  match items with
  | [] => []
  | e :: items => ResolvedEdit (re_start e) (re_end e) (re_text e) n :: number_from (S n) items
  end.

Section Apply.
Context `{UnicodeTables}.

Definition normalized_operation (edit : Edit) : gostring := to_lower (trim_space (Operation edit)).

Definition edit_prefix (i : nat) : gostring := §"edit " ++ itoa (Z.of_nat i + 1) ++ §": ".

(** The loop over the edits: [resolved] so far, [i] the index of the next edit. *)
Fixpoint resolve_all (text : gostring) (lines : list editSourceLine) (i : nat) (edits : list Edit)
    (resolved : list resolvedEdit) : res (list resolvedEdit) :=
  match edits with
  | [] => Ok resolved
  | edit :: edits =>
    let operation := normalized_operation edit in
    if is_op operation §"overwrite" then Err (edit_prefix i ++ §"overwrite must be the only edit")
    else
      let* items := res_wrap (edit_prefix i) (resolveEdit text lines edit operation) in
      resolve_all text lines (S i) edits (resolved ++ number_from (length resolved) items)
  end.

Definition apply_resolved (text : gostring) (resolved : list resolvedEdit) : res gostring :=
  let* _ := validateResolvedEdits resolved in
  apply_sorted text (sort_edits resolved).

Definition ApplyEdits (text : gostring) (edits : list Edit) : res gostring :=
  match edits with
  | [] => Err §"edits is required"
  | first :: more =>
    let text := NormalizeEditText text in
    if equal_fold_ascii (trim_space (Operation first)) §"overwrite" then
      if negb (bool_decide (more = [])) then Err §"edit 1: overwrite must be the only edit"
      else
        let* _ := res_wrap §"edit 1: " (validateEditFields first §"overwrite") in
        let* new := deref (NewText first) in
        Ok (NormalizeEditText new)
    else
      let* resolved := resolve_all text (scanEditLines text) 0 edits [] in
      apply_resolved text resolved
  end.

Definition editsRequireRevision (edits : list Edit) : bool :=
  existsb (λ edit, let op := normalized_operation edit in
                   is_op op §"replace" || is_op op §"insert" || is_op op §"delete" || is_op op §"overwrite") edits.
End Apply.
