(* ===== verification/FileTextProps.v ===== *)
(** * Properties of line endings, line numbering and matches

    The line table of the edit engine agrees with the line splitting of the
    read tool, and normalisation of line endings is undone by
    [RestoreLineEndings] for a consistent text. *)
From S2P Require Import Prelude GoStr FileText FileEdit.
Open Scope nat_scope.

(** ** Specifications *)

(** Normalisation in one pass. *)
Fixpoint unify (s : gostring) : gostring :=
  match s with
  | [] => []
  | x :: r =>
    if bool_decide (x = carriage) then
      newline :: (match r with
                  | y :: r' => if bool_decide (y = newline) then unify r' else unify r
                  | [] => []
                  end)
    else x :: unify r
  end.

Definition free_of (c : ascii) (s : gostring) : Prop := c ∉ s.
Definition plain_line (s : gostring) : Prop := free_of carriage s ∧ free_of newline s.
#[export] Instance plain_line_dec s : Decision (plain_line s).
Proof. unfold plain_line, free_of. apply _. Defined.

(** The line table [lines] partitions [text] from byte [p] on. *)
Fixpoint partition_from (text : gostring) (p : nat) (lines : list editSourceLine) : Prop :=
  match lines with
  | [] => p = length text
  | l :: rest =>
    el_start l = p ∧ p ≤ el_end l ∧ el_fullEnd l ≤ length text
    ∧ el_text l = take (el_end l - p) (drop p text) ∧ free_of newline (el_text l)
    ∧ (el_fullEnd l = S (el_end l) ∧ text !! el_end l = Some newline
       ∨ el_fullEnd l = el_end l ∧ p < el_end l ∧ rest = [])
    ∧ partition_from text (el_fullEnd l) rest
  end.

(** ** Line endings *)
Lemma replace_crlf_cons x s :
  replace_all (x :: s) crlf [newline] =
  if bool_decide (x = carriage) && bool_decide (head s = Some newline)
  then newline :: replace_all (tail s) crlf [newline]
  else x :: replace_all s crlf [newline].
Proof.
  unfold replace_all, crlf. cbn [replace_go has_prefix].
  case_bool_decide; subst; [|by rewrite bool_decide_eq_false_2 by congruence].
  rewrite (bool_decide_eq_true_2 (carriage = carriage)) by done. cbn [andb].
  destruct s as [|y s]; [done|]. cbn [head tail]. rewrite andb_true_r.
  case_bool_decide; subst.
  - rewrite bool_decide_eq_true_2 by done. done.
  - rewrite bool_decide_eq_false_2 by congruence. done.
Qed.

Lemma unify_cons x s :
  unify (x :: s) =
  if bool_decide (x = carriage) then
    newline :: (if bool_decide (head s = Some newline) then unify (tail s) else unify s)
  else x :: unify s.
Proof.
  cbn [unify]. case_bool_decide; [|done].
  destruct s as [|y s]; [done|]. cbn [head tail]. f_equal.
  by repeat case_bool_decide; simplify_eq.
Qed.

Lemma normalize_unify s : NormalizeEditText s = unify s.
Proof.
  unfold NormalizeEditText. rewrite replace_byte.
  remember (length s) as n eqn:Hn. assert (length s ≤ n) as Hle by lia. clear Hn.
  revert s Hle; induction n as [|n IH]; intros [|x s] Hle; try done; [simpl in Hle; lia|].
  rewrite replace_crlf_cons, unify_cons.
  cbn [length] in Hle. set (f := λ c : ascii, if bool_decide (c = carriage) then [newline] else [c]) in *.
  assert (∀ y r, f y = [y] → (y :: r) ≫= f = y :: (r ≫= f)) as Hf by (intros y r Hy; by rewrite bind_cons, Hy).
  assert ((carriage :: replace_all s crlf [newline]) ≫= f = newline :: (replace_all s crlf [newline] ≫= f)) as Hc
    by (rewrite bind_cons; done).
  destruct (decide (x = carriage)) as [->|Hx].
  - rewrite bool_decide_eq_true_2 by done. destruct (decide (head s = Some newline)) as [Hh|Hh]; cbn [andb].
    + rewrite bool_decide_eq_true_2, Hf by done. f_equal. apply IH. destruct s; cbn [tail length] in *; lia.
    + rewrite bool_decide_eq_false_2, Hc by done. f_equal. apply IH. lia.
  - rewrite bool_decide_eq_false_2 by done. cbn [andb]. rewrite Hf; [f_equal; apply IH; lia|].
    unfold f. by rewrite bool_decide_eq_false_2.
Qed.

Lemma unify_app_line l s : plain_line l → unify (l ++ s) = l ++ unify s.
Proof.
  intros [Hc _]. induction l as [|x l IH]; [done|]. cbn [app].
  apply not_elem_of_cons in Hc as [Hx Hc]. rewrite unify_cons, bool_decide_eq_false_2 by done.
  f_equal. by apply IH.
Qed.

Lemma unify_no_carriage s : free_of carriage (unify s).
Proof.
  unfold free_of. remember (length s) as n eqn:Hn. assert (length s ≤ n) as Hle by lia. clear Hn.
  revert s Hle; induction n as [|n IH]; intros [|x s] Hle; try apply not_elem_of_nil.
  { exfalso; cbn in Hle; lia. }
  cbn [length] in Hle. rewrite unify_cons. repeat case_bool_decide; subst; apply not_elem_of_cons; split; try done.
  - apply IH. destruct s; cbn [tail length] in *; lia.
  - apply IH. lia.
  - apply IH. lia.
Qed.

Lemma unify_id s : free_of carriage s → unify s = s.
Proof.
  unfold free_of. induction s as [|x s IH]; [done|].
  intros [Hx Hs]%not_elem_of_cons. rewrite unify_cons, bool_decide_eq_false_2 by done.
  f_equal. by apply IH.
Qed.

Lemma join_cons sep (l : gostring) ls : ls ≠ [] → join sep (l :: ls) = l ++ sep ++ join sep ls.
Proof. by destruct ls. Qed.

Lemma join_cons_cons sep (l l' : gostring) ls : join sep (l :: l' :: ls) = l ++ sep ++ join sep (l' :: ls).
Proof. done. Qed.

Lemma unify_join e lines :
  e ∈ [[newline]; [carriage]; crlf] → Forall plain_line lines →
  unify (join e lines) = join [newline] lines.
Proof.
  intros He Hl. induction Hl as [|l ls Hp Hl IH]; [done|].
  destruct ls as [|l' ls].
  { cbn [join]. rewrite <- (app_nil_r l) at 1. rewrite unify_app_line, app_nil_r; done. }
  rewrite !join_cons_cons, unify_app_line by done. f_equal.
  assert (unify (e ++ join e (l' :: ls)) = newline :: unify (join e (l' :: ls))) as ->.
  - set (r := join e (l' :: ls)) in *.
    assert (e = [carriage] → head r ≠ Some newline) as Hr.
    { intros ->. inversion_clear Hl as [|?? [_ Hn] _]. subst r. destruct l' as [|x l']; [by destruct ls|].
      unfold free_of in Hn. apply not_elem_of_cons in Hn as [Hx _].
      destruct ls; cbn; congruence. }
    rewrite !elem_of_cons in He. destruct He as [->|[->|[->|[]%elem_of_nil]]].
    + cbn [app]. by rewrite unify_cons.
    + cbn [app]. rewrite unify_cons. rewrite bool_decide_eq_true_2 by done.
      rewrite bool_decide_eq_false_2 by auto. done.
    + cbn [app crlf]. rewrite unify_cons. done.
  - cbn [app]. f_equal. exact IH.
Qed.

Lemma plain_replace lines e : Forall plain_line lines →
  replace_all (join [newline] lines) [newline] e = join e lines.
Proof.
  intros Hl. rewrite replace_byte. induction Hl as [|l ls [_ Hp] Hl IH]; [done|].
  assert ((l ≫= λ c, if bool_decide (c = newline) then e else [c]) = l) as Hid.
  { clear IH. unfold free_of in Hp. induction l as [|x l IHl]; [done|].
    apply not_elem_of_cons in Hp as [Hx Hp]. rewrite bind_cons, bool_decide_eq_false_2 by done.
    cbn [app]. f_equal. by apply IHl. }
  destruct ls as [|l' ls]; [done|]. rewrite !join_cons_cons, !bind_app, Hid.
  rewrite bind_cons. cbn [app]. rewrite bool_decide_eq_true_2 by done. f_equal.
  f_equal; [apply app_nil_r | exact IH].
Qed.

(** ** The line table *)
Lemma scan_partition text : ∀ fuel p,
  p ≤ length text → length text - p < fuel → partition_from text p (scan_from fuel text p).
Proof.
  induction fuel as [|fuel IH]; intros p Hp Hf; [lia|]. cbn [scan_from].
  destruct (Nat.ltb_spec p (length text)) as [Hlt|Hge]; [|cbn [partition_from]; lia].
  destruct (index [newline] (drop p text)) as [rel|] eqn:Hi.
  - pose proof (index_some _ _ _ Hi) as (Hb & _ & _). apply index_byte_some in Hi as [Hn Hfree].
    rewrite length_drop in Hb. cbn [length] in Hb. rewrite lookup_drop in Hn.
    cbn [partition_from el_start el_end el_fullEnd el_text].
    split_and!; try lia; try done.
    + f_equal. lia.
    + left. split; [lia|done].
    + apply IH; lia.
  - apply index_byte_none in Hi. cbn [partition_from el_start el_end el_fullEnd el_text].
    split_and!; try lia; try done; [by rewrite firstn_all2 by (rewrite length_drop; lia) | by right].
Qed.

Lemma scanEditLines_partition text : partition_from text 0 (scanEditLines text).
Proof.
  unfold scanEditLines. case_bool_decide as Ht; [by subst|]. apply scan_partition; lia.
Qed.

(** [SplitLines] without the normalisation it starts with. *)
Definition lines_of (text : gostring) : list gostring :=
  if bool_decide (text = []) then []
  else split_byte newline (if has_suffix [newline] text then trim_suffix [newline] text else text).

Lemma SplitLines_lines_of text : SplitLines text = lines_of (NormalizeEditText text).
Proof.
  unfold SplitLines, lines_of, NormalizeEditText. case_bool_decide; [done|].
  case_bool_decide as Ht; [|done]. by rewrite Ht.
Qed.

Lemma trim_newline s : has_suffix [newline] s = true → trim_suffix [newline] s = take (length s - 1) s.
Proof. intros Hs. unfold trim_suffix. by rewrite Hs. Qed.

Lemma lines_of_free s : s ≠ [] → newline ∉ s → lines_of s = [s].
Proof.
  intros Hne Hs. unfold lines_of. rewrite bool_decide_eq_false_2 by done.
  rewrite has_suffix_last, bool_decide_eq_false_2; [by apply split_byte_free|].
  intros Hl. apply Hs. by eapply last_Some_elem_of.
Qed.

Lemma lines_of_cons a r : newline ∉ a → lines_of (a ++ newline :: r) = a :: lines_of r.
Proof.
  intros Ha. unfold lines_of. rewrite bool_decide_eq_false_2 by (by destruct a).
  rewrite !has_suffix_last, last_app, last_cons.
  destruct (decide (r = [])) as [->|Hr].
  - cbn [last from_option]. rewrite !bool_decide_eq_true_2 by done. unfold trim_suffix.
    rewrite has_suffix_last, last_snoc, bool_decide_eq_true_2 by done.
    rewrite length_app, take_app_length' by (cbn; lia). by apply split_byte_free.
  - rewrite (bool_decide_eq_false_2 (r = [])) by done.
    assert (∃ x, last r = Some x) as [x Hx] by (destruct r using rev_ind; rewrite ?last_snoc; eauto; done).
    rewrite Hx. cbn [from_option]. case_bool_decide; [|by apply split_byte_app].
    rewrite !trim_newline by (rewrite has_suffix_last, ?last_app, ?last_cons, ?Hx; by apply bool_decide_eq_true_2).
    rewrite length_app. cbn [length].
    rewrite take_app, firstn_all2 by lia.
    destruct (length r) as [|n] eqn:Hn; [by apply nil_length_inv in Hn|].
    replace (length a + S (S n) - 1 - length a) with (S n) by lia. cbn [take].
    rewrite split_byte_app by done. by replace (S n - 1) with n by lia.
Qed.

Lemma partition_lines text : ∀ lines p, p ≤ length text →
  partition_from text p lines → el_text <$> lines = lines_of (drop p text).
Proof.
  induction lines as [|l lines IH]; intros p Hp; cbn [partition_from].
  { intros ->. by rewrite drop_ge. }
  intros (Hs & Hle & Hfull & Ht & Hfree & Hor & Hrest). rewrite fmap_cons.
  destruct Hor as [[Hf Hn]|(Hf & Hlt & ->)].
  - rewrite (IH _ Hfull Hrest). unfold free_of in Hfree. rewrite Ht in *.
    rewrite <- lines_of_cons by done. f_equal.
    rewrite Hf, <- (drop_S _ _ _ Hn).
    replace (drop (el_end l) text) with (drop (el_end l - p) (drop p text)) by (rewrite drop_drop; f_equal; lia).
    by rewrite take_drop.
  - cbn [partition_from] in Hrest. unfold free_of in Hfree.
    assert (el_text l = drop p text) as Heq by (rewrite Ht, firstn_all2; [done | rewrite length_drop; lia]).
    rewrite Heq in *. cbn [fmap list_fmap].
    rewrite lines_of_free; [done| |done]. intros Hd%(f_equal length). rewrite length_drop in Hd. cbn in Hd. lia.
Qed.

Lemma partition_lookup text : ∀ lines p i l, partition_from text p lines → lines !! i = Some l →
  p ≤ el_start l ∧ el_start l ≤ el_end l ∧ el_end l ≤ el_fullEnd l ∧ el_fullEnd l ≤ length text
  ∧ (∀ j l', lines !! j = Some l' → i < j → el_fullEnd l ≤ el_start l').
Proof.
  induction lines as [|l0 lines IH]; intros p i l; [done|]. cbn [partition_from].
  intros (Hs & Hle & Hfull & _ & _ & Hor & Hrest). destruct i as [|i]; cbn [lookup list_lookup].
  - intros [= ->]. split_and!; try lia. intros [|j] l' Hl' Hj; [lia|]. cbn in Hl'.
    by apply (IH _ _ _ Hrest Hl').
  - intros Hl. destruct (IH _ _ _ Hrest Hl) as (H1 & H2 & H3 & H4 & H5).
    split_and!; try lia. intros [|j] l' Hl' Hj; [lia|]. cbn in Hl'. eapply H5; [done|lia].
Qed.

Lemma join_elem c sep lines : c ∈ join sep lines → c ∈ sep ∨ ∃ l, l ∈ lines ∧ c ∈ l.
Proof.
  induction lines as [|l [|l' lines] IH]; [by intros ?%elem_of_nil | |].
  - intros Hc. right. exists l. split; [left|done].
  - rewrite join_cons_cons, !elem_of_app. intros [Hc|[Hc|Hc]]; [|by left|].
    + right. exists l. split; [left|done].
    + destruct (IH Hc) as [?|(l0 & ? & ?)]; [by left|]. right. exists l0. split; [by right|done].
Qed.

Lemma join_free c sep lines : c ∉ sep → Forall (free_of c) lines → c ∉ join sep lines.
Proof.
  intros Hsep Hl [Hc|(l & Hin & Hc)]%join_elem; [done|].
  rewrite Forall_forall in Hl. by apply (Hl l).
Qed.

Lemma join_sep_contains sep l l' lines : contains (join sep (l :: l' :: lines)) sep = true.
Proof. apply contains_spec. eexists _, _. by rewrite join_cons_cons. Qed.

Lemma plain_both lines : Forall plain_line lines → Forall (free_of carriage) lines ∧ Forall (free_of newline) lines.
Proof. intros Hl. split; (eapply Forall_impl; [exact Hl|]); by intros ? []. Qed.

Lemma DetectLineEnding_join e lines :
  e ∈ [[newline]; [carriage]; crlf] → Forall plain_line lines → (2 ≤ length lines) →
  DetectLineEnding (join e lines) = e.
Proof.
  intros He Hl Hlen. destruct (plain_both _ Hl) as [Hc Hn]. unfold DetectLineEnding.
  destruct lines as [|l [|l' lines]]; cbn [length] in Hlen; [lia..|].
  rewrite !elem_of_cons in He. destruct He as [->|[->|[->|[]%elem_of_nil]]].
  - assert (carriage ∉ join [newline] (l :: l' :: lines)) by (apply join_free; [by intros ?%list_elem_of_singleton | done]).
    by rewrite !(contains_false _ _ carriage) by (done || left).
  - assert (newline ∉ join [carriage] (l :: l' :: lines)) by (apply join_free; [by intros ?%list_elem_of_singleton | done]).
    rewrite (contains_false _ _ newline) by (done || (right; left)). by rewrite join_sep_contains.
  - by rewrite join_sep_contains.
Qed.

(** For a text with consistent line endings (LF, CR or CRLF), restoring
    the detected line ending after normalisation gives the text back, so an
    edit changes no line ending it does not touch. *)
Lemma restore_normalized e lines :
  e ∈ [[newline]; [carriage]; crlf] → Forall plain_line lines →
  RestoreLineEndings (NormalizeEditText (join e lines)) (DetectLineEnding (join e lines)) = join e lines.
Proof.
  intros He Hl. rewrite normalize_unify, unify_join by done.
  destruct (decide (2 ≤ length lines)) as [Hlen|Hlen].
  - rewrite DetectLineEnding_join by done. unfold RestoreLineEndings.
    destruct (_ || _) eqn:Hb; [|by apply plain_replace].
    apply orb_true_iff in Hb. rewrite !bool_decide_eq_true in Hb. destruct Hb as [-> | ->]; [|done].
    exfalso. by repeat (apply elem_of_cons in He as [He|He]; [discriminate|]); apply elem_of_nil in He.
  - destruct lines as [|l [|l' lines]]; [done| |cbn in Hlen; lia].
    inversion_clear Hl as [|?? [Hc Hn] _]. cbn [join]. unfold DetectLineEnding.
    rewrite !(contains_false _ _ carriage); try done; by left.
Qed.

Lemma restore_normalized_witness :
  RestoreLineEndings (NormalizeEditText (§"a" ++ crlf ++ crlf ++ §"b"))
                     (DetectLineEnding (§"a" ++ crlf ++ crlf ++ §"b")) = §"a" ++ crlf ++ crlf ++ §"b".
Proof.
  apply (restore_normalized crlf [§"a"; []; §"b"]); [right; right; left|].
  apply (bool_decide_unpack _). vm_compute. exact I.
Defined.

(** The line numbers of the edit engine are those of the read tool: the
    text of the i-th entry of the line table of a (normalised) text is the
    i-th line [SplitLines] shows, and the entries partition the text. *)
Lemma scanEditLines_SplitLines text :
  el_text <$> scanEditLines (NormalizeEditText text) = SplitLines text
  ∧ partition_from (NormalizeEditText text) 0 (scanEditLines (NormalizeEditText text)).
Proof.
  split; [|apply scanEditLines_partition].
  rewrite SplitLines_lines_of. rewrite (partition_lines _ _ 0) by (try apply scanEditLines_partition; lia).
  done.
Qed.

(** Normalisation leaves no carriage return, and normalising twice is normalising once. *)
Lemma normalize_idempotent s :
  free_of carriage (NormalizeEditText s) ∧ NormalizeEditText (NormalizeEditText s) = NormalizeEditText s.
Proof.
  rewrite !normalize_unify. split; [apply unify_no_carriage | apply unify_id, unify_no_carriage].
Qed.
