(* ===== verification/FileEditProps.v ===== *)
(** * Properties of the edit engine

    Every resolved edit is a byte range of the text, so nothing panics; and
    the right-to-left splicing of [ApplyEdits] computes the position-indexed
    specification [render], in which edits are independent of each other. *)
From S2P Require Import Prelude GoStr FileText FileEdit FileTextProps.
Open Scope nat_scope.

(** ** Specification *)
Definition in_text (text : gostring) (e : resolvedEdit) : Prop :=
  re_start e ≤ re_end e ∧ re_end e ≤ length text.

Definition inserts_at (p : nat) (e : resolvedEdit) : bool := is_insert e && (re_start e =? p).
Definition replaces_at (p : nat) (e : resolvedEdit) : bool := negb (is_insert e) && (re_start e =? p).
Definition covers (p : nat) (e : resolvedEdit) : bool := (re_start e <=? p) && (p <? re_end e).

(** What the edits put in front of byte [p] of the original text: the
    insertions there, in the order given, then the replacement starting there. *)
Definition emitted (es : list resolvedEdit) (p : nat) : gostring :=
  concat (re_text <$> filter (λ e, inserts_at p e = true) es)
  ++ concat (re_text <$> filter (λ e, replaces_at p e = true) es).

Fixpoint render (es : list resolvedEdit) (p : nat) (rest : gostring) : gostring :=
  emitted es p ++
  match rest with
  | [] => []
  | c :: rest => (if existsb (covers p) es then [] else [c]) ++ render es (S p) rest
  end.

(** ** Resolution stays inside the text *)
Definition takes_new_text (operation : gostring) : bool :=
  negb (is_op operation §"delete") && negb (is_op operation §"delete_line").

Lemma deref_post {A} (P : A → Prop) o : (∃ a, o = Some a ∧ P a) → res_post P (deref o).
Proof. intros (a & -> & Ha). exact Ha. Qed.

Lemma at_index_post {A} (xs : list A) i :
  (0 ≤ i < Z.of_nat (length xs))%Z → res_post (λ a, xs !! Z.to_nat i = Some a) (at_index xs i).
Proof.
  intros Hi. unfold at_index. destruct (Z.ltb_spec i 0); [lia|].
  apply deref_post. destruct (lookup_lt_is_Some_2 xs (Z.to_nat i)) as [a Ha]; [lia|]. eauto.
Qed.

Section Resolved.
Context `{UnicodeTables}.

Lemma validateEditFields_post edit operation :
  res_post (λ _, takes_new_text operation = true → is_Some (NewText edit)) (validateEditFields edit operation).
Proof.
  unfold validateEditFields, rejectLineFields, rejectMatchFields, op_error, takes_new_text, anchored, is_nil.
  destruct (NewText edit) as [new|].
  { assert (∀ m : res unit, m ≠ Panic → res_post (λ _, negb (is_op operation §"delete") && negb (is_op operation §"delete_line") = true → is_Some (Some new)) m) as Hm
      by (intros [[]| |] ?; simpl; eauto).
    apply Hm. repeat case_match; try done; destruct (_ || _); done. }
  destruct (is_op operation §"delete_line") eqn:Hdl, (is_op operation §"delete") eqn:Hd; cbn [negb andb];
    repeat (case_match; try done); repeat (destruct (_ || _); try done).
Qed.

Lemma selectMatches_post locations index all label (P : matchLocation → Prop) :
  Forall P locations → res_post (Forall P) (selectMatches locations index all label).
Proof.
  intros HP. unfold selectMatches. destruct (Z.eqb_spec (Z.of_nat (length locations)) 0); [done|].
  destruct index as [i|]; destruct all; try done; [|by destruct (1 <? _)%Z].
  destruct ((i <? 1)%Z || (Z.of_nat (length locations) <? i)%Z) eqn:Hi; [done|].
  apply orb_false_iff in Hi as [Hi1%Z.ltb_ge Hi2%Z.ltb_ge].
  destruct (locations !! Z.to_nat (i - 1)) as [loc|] eqn:Hl.
  - simpl. constructor; [|done]. by eapply Forall_lookup_1.
  - apply lookup_ge_None in Hl. lia.
Qed.

Lemma content_matches_in_text text needle : needle ≠ [] → ∀ fuel offset, offset ≤ length text →
  Forall (λ loc, byteStart loc ≤ byteEnd loc ∧ byteEnd loc ≤ length text)
         (content_matches_from fuel text needle offset).
Proof.
  intros Hne. induction fuel as [|fuel IH]; intros offset Ho; [constructor|]. cbn [content_matches_from].
  destruct (index needle (drop offset text)) as [idx|] eqn:Hi; [|constructor].
  apply index_some in Hi as (Hle & _ & _). rewrite length_drop in Hle.
  constructor; [cbn; lia|]. apply IH. lia.
Qed.

Lemma line_matches_index : ∀ lines needle i,
  Forall (λ loc, i ≤ lineIndex loc ∧ lineIndex loc < i + length lines) (line_matches_from i lines needle).
Proof.
  induction lines as [|l lines IH]; intros needle i; [constructor|]. cbn [line_matches_from].
  assert (Forall (λ loc, i ≤ lineIndex loc ∧ lineIndex loc < i + length (l :: lines)) (line_matches_from (S i) lines needle)).
  { eapply Forall_impl; [apply IH|]. cbn. lia. }
  destruct (has_prefix _ _); [constructor; [cbn; lia|]|]; done.
Qed.

(** Line entries, by index. *)
Lemma line_entry text lines i l : partition_from text 0 lines → lines !! i = Some l →
  el_start l ≤ el_end l ∧ el_end l ≤ el_fullEnd l ∧ el_fullEnd l ≤ length text.
Proof. intros Hp Hl. destruct (partition_lookup _ _ _ _ _ Hp Hl) as (_ & ? & ? & ? & _). lia. Qed.

Lemma line_order text lines i j l l' : partition_from text 0 lines →
  lines !! i = Some l → lines !! j = Some l' → i ≤ j → el_start l ≤ el_fullEnd l' ∧ el_start l ≤ el_start l'.
Proof.
  intros Hp Hi Hj Hij. destruct (decide (i = j)) as [->|]; [simplify_eq; pose proof (line_entry _ _ _ _ Hp Hi); lia|].
  destruct (partition_lookup _ _ _ _ _ Hp Hi) as (_ & ? & ? & ? & Ho).
  specialize (Ho j l' Hj). pose proof (line_entry _ _ _ _ Hp Hj). lia.
Qed.

Lemma lineDeleteRange_post text lines s e :
  partition_from text 0 lines → (1 ≤ s ≤ e)%Z → (e ≤ Z.of_nat (length lines))%Z →
  res_post (λ r, r.1 ≤ r.2 ∧ r.2 ≤ length text) (lineDeleteRange lines s e).
Proof.
  intros Hp Hs He. unfold lineDeleteRange.
  eapply res_post_bind; [apply at_index_post; lia|]. intros first _ Hfirst.
  eapply res_post_bind; [apply at_index_post; lia|]. intros last _ Hlast.
  pose proof (line_entry _ _ _ _ Hp Hlast) as Hle.
  pose proof (line_order _ _ _ _ _ _ Hp Hfirst Hlast) as Ho.
  destruct (_ && _ && _) eqn:Hc; [|simpl; lia].
  apply andb_true_iff in Hc as [_ Hc%Z.ltb_lt].
  eapply res_post_bind; [apply at_index_post; lia|]. intros prev _ Hprev. simpl.
  destruct (partition_lookup _ _ _ _ _ Hp Hprev) as (_ & ? & ? & ? & Hop).
  assert (Z.to_nat (s - 2) < Z.to_nat (e - 1)) as Hlt by lia.
  specialize (Hop _ _ Hlast Hlt). lia.
Qed.
Lemma normalizeLineBlock_post text : res_post (λ _, True) (normalizeLineBlock text).
Proof. unfold normalizeLineBlock. by destruct (SplitLines _). Qed.

Lemma resolveLineInsert_post text lines line block :
  partition_from text 0 lines → res_post (λ r, r.1 ≤ length text) (resolveLineInsert text lines line block).
Proof.
  intros Hp. unfold resolveLineInsert. destruct (_ || _) eqn:Hr; [done|].
  apply orb_false_iff in Hr as [H1%Z.ltb_ge _].
  destruct (Z.eqb_spec (Z.of_nat (length lines)) 0); [simpl; lia|].
  destruct (Z.leb_spec line (Z.of_nat (length lines))); [|by destruct (has_suffix _ _); simpl].
  eapply res_post_bind; [apply at_index_post; lia|]. intros l _ Hl. simpl.
  pose proof (line_entry _ _ _ _ Hp Hl). lia.
Qed.

Lemma resolve_range_post text lines edit m :
  partition_from text 0 lines → res_post (λ _, True) m →
  res_post (Forall (in_text text)) (resolve_range lines edit m).
Proof.
  intros Hp Hm. unfold resolve_range.
  destruct (ValidateLineRange _ _ _) as [[]| |] eqn:Hv; [|done|].
  - assert (1 ≤ Line edit ≤ edit_end_line edit ∧ edit_end_line edit ≤ Z.of_nat (length lines))%Z as [Hs He].
    { unfold ValidateLineRange in Hv. repeat case_match; try done. propify. lia. }
    cbn [res_bind]. eapply res_post_bind; [by apply lineDeleteRange_post|]. intros [a b] _ Hab.
    eapply res_post_bind; [exact Hm|]. intros new _ _. by apply Forall_singleton.
  - unfold ValidateLineRange in Hv. repeat case_match; done.
Qed.

Lemma resolve_anchor_at_post text lines operation block loc :
  partition_from text 0 lines → lineIndex loc < length lines →
  res_post (in_text text) (resolve_anchor_at lines operation block loc).
Proof.
  intros Hp Hi. unfold resolve_anchor_at.
  destruct (lookup_lt_is_Some_2 _ _ Hi) as [line Hl]. rewrite Hl. cbn [deref res_bind].
  pose proof (line_entry _ _ _ _ Hp Hl) as (? & ? & ?).
  repeat (match goal with |- res_post _ (if ?b then _ else _) => destruct b end); try (simpl; split; cbn; lia).
  eapply res_post_bind; [apply lineDeleteRange_post; [done|lia|lia]|].
  intros [a b] _ Hab. exact Hab.
Qed.

Lemma resolve_anchor_post text lines edit operation :
  partition_from text 0 lines → anchored operation = true →
  (takes_new_text operation = true → is_Some (NewText edit)) →
  res_post (Forall (in_text text)) (resolve_anchor lines edit operation).
Proof.
  intros Hp Ha Hn. unfold resolve_anchor.
  eapply res_post_bind; [eapply selectMatches_post, line_matches_index|]. intros locs _ Hlocs.
  eapply (res_post_bind (λ _, True)).
  - destruct (is_op operation §"delete_line") eqn:Hd; [done|].
    eapply (res_post_bind (λ _, True)); [|intros; apply normalizeLineBlock_post].
    assert (takes_new_text operation = true) as Ht;
      [|destruct (Hn Ht) as [new Hnew]; apply deref_post; eauto].
    unfold takes_new_text. rewrite Hd, andb_true_r.
    destruct (is_op operation §"delete") eqn:Hdel; [|done].
    apply bool_decide_eq_true in Hdel as ->. done.
  - intros block _ _. apply res_post_map. eapply Forall_impl; [exact Hlocs|].
    intros loc [_ Hi]. by apply resolve_anchor_at_post.
Qed.

Lemma resolveEdit_post text edit operation :
  res_post (Forall (in_text text)) (resolveEdit text (scanEditLines text) edit operation).
Proof.
  pose proof (scanEditLines_partition text) as Hp. unfold resolveEdit.
  eapply res_post_bind; [apply validateEditFields_post|]. intros u _ Hn; cbn beta in Hn.
  assert (∀ name, takes_new_text name = true → is_op operation name = true → ∃ new, NewText edit = Some new) as Hnew.
  { intros name Ht Hname%bool_decide_eq_true. subst operation. destruct (Hn Ht) as [new Hnew]. eauto. }
  destruct (is_op operation §"replace_text") eqn:H1.
  { destruct (Hnew §"replace_text" eq_refl H1) as [new Hnt]. unfold resolve_replace_text. rewrite Hnt.
    eapply res_post_bind; [apply selectMatches_post|].
    - unfold findContentMatches. case_bool_decide; [constructor|]. by apply content_matches_in_text; [|lia].
    - intros locs _ Hlocs. apply res_post_map. eapply Forall_impl; [exact Hlocs|]. by intros loc ?. }
  destruct (is_op operation §"replace") eqn:H2.
  { destruct (Hnew §"replace" eq_refl H2) as [new Hnt]. rewrite Hnt. by apply resolve_range_post. }
  destruct (is_op operation §"insert") eqn:H3.
  { destruct (Hnew §"insert" eq_refl H3) as [new Hnt]. unfold resolve_insert. rewrite Hnt. cbn [deref res_bind].
    eapply res_post_bind; [apply normalizeLineBlock_post|]. intros block _ _.
    eapply res_post_bind; [by apply resolveLineInsert_post|]. intros [a b] _ Hab. apply Forall_singleton.
    split; [done | exact Hab]. }
  destruct (is_op operation §"delete") eqn:H4; [by apply resolve_range_post|].
  destruct (anchored operation) eqn:H5; [|done]. by apply resolve_anchor_post.
Qed.
End Resolved.

(** The edits carry their position in the list as their order. *)
Definition numbered (es : list resolvedEdit) : Prop := ∀ i e, es !! i = Some e → re_order e = i.

Lemma number_from_lookup : ∀ items n i e, number_from n items !! i = Some e → re_order e = n + i.
Proof.
  induction items as [|x items IH]; intros n i e; [done|]. cbn [number_from].
  destruct i as [|i]; cbn [lookup list_lookup]; [intros [= <-]; cbn; lia|]. intros ->%IH. lia.
Qed.

Lemma number_from_length items n : length (number_from n items) = length items.
Proof. revert n; induction items; intros n; cbn; auto. Qed.

Lemma number_from_in_text text items n :
  Forall (in_text text) items → Forall (in_text text) (number_from n items).
Proof. intros H. revert n. induction H; intros n; cbn; constructor; auto. Qed.

Lemma numbered_app es items : numbered es → numbered (es ++ number_from (length es) items).
Proof.
  intros Hn i e [Hl|[Hge Hl]]%lookup_app_Some; [by apply Hn|].
  apply number_from_lookup in Hl. lia.
Qed.

Lemma resolve_all_post `{UnicodeTables} text : ∀ edits i resolved,
  Forall (in_text text) resolved → numbered resolved →
  res_post (λ es, Forall (in_text text) es ∧ numbered es) (resolve_all text (scanEditLines text) i edits resolved).
Proof.
  induction edits as [|edit edits IH]; intros i resolved Hr Hn; [done|]. cbn [resolve_all].
  destruct (is_op _ _); [done|].
  eapply res_post_bind; [apply res_post_wrap, resolveEdit_post|]. intros items _ Hi.
  apply IH; [|by apply numbered_app]. apply Forall_app; split; [done|by apply number_from_in_text].
Qed.

(** ** The order of application *)
Definition compatible (a b : resolvedEdit) : Prop := check_pair a b = Ok tt.

Lemma check_pair_post a b : res_post (λ _, True) (check_pair a b).
Proof. unfold check_pair. by repeat case_match. Qed.

Lemma validateResolvedEdits_post es :
  res_post (λ _, ForallOrdPairs compatible es) (validateResolvedEdits es).
Proof.
  induction es as [|e es IH]; [constructor|]. cbn [validateResolvedEdits].
  destruct (res_map (check_pair e) es) as [us| |] eqn:Hm; [|done|].
  - eapply res_post_mono; [|exact IH]. intros u Hes. constructor; [|done].
    apply res_map_ok in Hm. clear -Hm. induction Hm as [|x [] es us Hx _ IH]; constructor; done.
  - exfalso. assert (res_post (λ _, True) (res_map (check_pair e) es)) as H by
      (eapply res_post_mono; [|apply (res_post_map _ (λ _, True)), Forall_true; intros; apply check_pair_post]; done).
    by rewrite Hm in H.
Qed.

Lemma compatible_spec a b : compatible a b ↔
  (is_insert a = false → is_insert b = false → re_start a < re_end b → re_start b < re_end a → False)
  ∧ (is_insert a = true → is_insert b = false → re_start b < re_start a → re_start a < re_end b → False)
  ∧ (is_insert b = true → is_insert a = false → re_start a < re_start b → re_start b < re_end a → False).
Proof.
  unfold compatible, check_pair.
  destruct (is_insert a), (is_insert b); cbn [negb andb];
    repeat match goal with |- context [(?x <? ?y)] => destruct (Nat.ltb_spec x y); cbn [andb] end;
    split; intros Hc; try done; try (split_and!; intros; try done; lia); exfalso;
      destruct Hc as (Hc1 & Hc2 & Hc3); (by apply Hc1) || (by apply Hc2) || by apply Hc3.
Qed.

Lemma compatible_sym a b : compatible a b → compatible b a.
Proof. rewrite !compatible_spec. intros (H1 & H2 & H3). split_and!; intros; eauto. Qed.

(** *** Sorting *)
Definition not_after (a b : resolvedEdit) : Prop := edit_less b a = false.

Ltac order_cases :=
  unfold not_after, edit_less in *;
  repeat match goal with
  | H : context [negb (?x =? ?y)] |- _ => destruct (Nat.eqb_spec x y); cbn [negb] in *
  | |- context [negb (?x =? ?y)] => destruct (Nat.eqb_spec x y); cbn [negb] in *
  | H : context [is_insert ?e] |- _ => destruct (is_insert e); cbn [negb Bool.eqb] in *
  | |- context [is_insert ?e] => destruct (is_insert e); cbn [negb Bool.eqb] in *
  end; rewrite ?Nat.ltb_lt, ?Nat.ltb_ge in *; try done; try lia.

Lemma edit_less_asym a b : edit_less a b = true → not_after a b.
Proof. intros H. order_cases. Qed.

Lemma not_after_trans a b c : not_after a b → not_after b c → not_after a c.
Proof. intros H1 H2. order_cases. Qed.

Lemma insert_sorted_perm x l : insert_sorted x l ≡ₚ x :: l.
Proof.
  induction l as [|y l IH]; [done|]. cbn [insert_sorted]. destruct (edit_less y x); [|done].
  rewrite IH. constructor.
Qed.

Lemma sort_edits_perm l : sort_edits l ≡ₚ l.
Proof. induction l as [|x l IH]; [done|]. cbn [sort_edits]. by rewrite insert_sorted_perm, IH. Qed.

Lemma insert_sorted_sorted x l : StronglySorted not_after l → StronglySorted not_after (insert_sorted x l).
Proof.
  induction 1 as [|y l Hl IH Hy]; [repeat constructor|]. cbn [insert_sorted].
  destruct (edit_less y x) eqn:Hless.
  - constructor; [done|]. rewrite insert_sorted_perm. constructor; [by apply edit_less_asym | done].
  - constructor; [by constructor|]. constructor; [exact Hless|].
    eapply Forall_impl; [exact Hy|]. intros z. by apply not_after_trans.
Qed.

Lemma sort_edits_sorted l : StronglySorted not_after (sort_edits l).
Proof. induction l as [|x l IH]; [constructor|]. by apply insert_sorted_sorted. Qed.

Lemma ordpairs_perm {A} (R : relation A) l l' :
  Symmetric R → l ≡ₚ l' → ForallOrdPairs R l → ForallOrdPairs R l'.
Proof.
  intros HR Hp. induction Hp as [|x l l' Hp IH|x y l|l1 l2 l3 _ IH1 _ IH2]; [done| | |auto].
  - inversion_clear 1 as [|?? Hx Hl]. constructor; [by rewrite <- Hp | by apply IH].
  - inversion_clear 1 as [|?? Hx Hl]. inversion_clear Hl as [|?? Hy Hl'].
    inversion_clear Hx as [|?? Hyx Hx']. by repeat constructor.
Qed.

Lemma compatible_chain text a b : in_text text a → in_text text b → compatible a b → not_after a b →
  re_end b ≤ re_start a.
Proof.
  intros [Ha _] [Hb _] (H1 & H2 & H3)%compatible_spec Hn.
  assert (∀ e, is_insert e = true → re_start e = re_end e) as Hi by (intros e; apply Nat.eqb_eq).
  assert (∀ e, re_start e ≤ re_end e → is_insert e = false → re_start e < re_end e) as Hr
    by (intros e He Hne%Nat.eqb_neq; lia).
  pose proof (Hi b). pose proof (Hr b Hb). pose proof (Hr a Ha).
  unfold not_after, edit_less in Hn.
  destruct (Nat.eqb_spec (re_start b) (re_start a)); cbn [negb] in Hn; rewrite ?Nat.ltb_ge in Hn;
    destruct (is_insert a), (is_insert b); cbn [negb Bool.eqb] in Hn; try done; try (rewrite <- H by done); try lia;
    (destruct (decide (re_end b ≤ re_start a)); [done | exfalso]);
    (apply H1; (done || lia)) || (apply H2; (done || lia)).
Qed.

Definition chain : list resolvedEdit → Prop := StronglySorted (λ a b, re_end b ≤ re_start a).

Lemma sorted_chain text l : Forall (in_text text) l → ForallOrdPairs compatible l →
  StronglySorted not_after l → chain l.
Proof.
  intros Hin Hc Hs. induction Hs as [|x l Hs IH Hx]; [constructor|].
  inversion_clear Hin as [|?? Hix Hil]. inversion_clear Hc as [|?? Hcx Hcl].
  constructor; [by apply IH|]. rewrite Forall_forall in *. intros b Hb.
  apply (compatible_chain text); auto.
Qed.

(** *** Splicing *)
Fixpoint render_part (es : list resolvedEdit) (p : nat) (part : gostring) : gostring :=
  match part with
  | [] => []
  | c :: part => emitted es p ++ (if existsb (covers p) es then [] else [c]) ++ render_part es (S p) part
  end.

Lemma render_app es a b : ∀ p, render es p (a ++ b) = render_part es p a ++ render es (p + length a) b.
Proof.
  induction a as [|c a IH]; intros p; cbn [app render_part render length]; [by rewrite Nat.add_0_r|].
  rewrite IH, <- !app_assoc. do 4 f_equal. lia.
Qed.

Lemma filter_none {A} (f : A → bool) l : Forall (λ e, f e = false) l → filter (λ e, f e = true) l = [].
Proof.
  induction 1 as [|x l Hx _ IH]; [done|]. rewrite filter_cons_False; [done|]. by rewrite Hx.
Qed.

Lemma existsb_none {A} (f : A → bool) l : Forall (λ e, f e = false) l → existsb f l = false.
Proof. induction 1 as [|x l Hx _ IH]; [done|]. cbn. by rewrite Hx, IH. Qed.

Lemma inserts_at_true p e : inserts_at p e = true ↔ re_start e = p ∧ re_end e = p.
Proof. unfold inserts_at, is_insert. rewrite andb_true_iff, !Nat.eqb_eq. lia. Qed.
Lemma replaces_at_true p e : replaces_at p e = true ↔ re_start e = p ∧ re_end e ≠ p.
Proof. unfold replaces_at, is_insert. rewrite andb_true_iff, negb_true_iff, Nat.eqb_eq, Nat.eqb_neq. lia. Qed.
Lemma covers_true p e : covers p e = true ↔ re_start e ≤ p ∧ p < re_end e.
Proof. unfold covers. by rewrite andb_true_iff, Nat.leb_le, Nat.ltb_lt. Qed.

(** Refute [inserts_at], [replaces_at] and [covers] from the positions. *)
Ltac refute_at :=
  apply not_true_iff_false; rewrite ?inserts_at_true, ?replaces_at_true, ?covers_true; lia.

Lemma emitted_app_snoc es e p :
  emitted (es ++ [e]) p =
  concat (re_text <$> filter (λ e, inserts_at p e = true) es) ++ (if inserts_at p e then re_text e else [])
  ++ concat (re_text <$> filter (λ e, replaces_at p e = true) es) ++ (if replaces_at p e then re_text e else []).
Proof.
  unfold emitted. rewrite !filter_app, !fmap_app, !concat_app, <- !app_assoc. f_equal.
  f_equal; [|f_equal].
  - destruct (inserts_at p e) eqn:He.
    + rewrite filter_cons_True by done. cbn. by rewrite app_nil_r.
    + rewrite filter_cons_False by congruence. done.
  - destruct (replaces_at p e) eqn:He.
    + rewrite filter_cons_True by done. cbn. by rewrite app_nil_r.
    + rewrite filter_cons_False by congruence. done.
Qed.

Lemma emitted_left es p : Forall (λ e, re_start e ≤ re_end e ∧ re_end e ≤ p) es →
  concat (re_text <$> filter (λ e, replaces_at p e = true) es) = [].
Proof.
  intros Hes. rewrite filter_none; [done|]. eapply Forall_impl; [exact Hes|]. intros e [? ?]. cbn beta in *. refute_at.
Qed.

Lemma emitted_past es p : Forall (λ e, re_start e ≤ re_end e ∧ re_end e < p) es → emitted es p = [].
Proof.
  intros Hes. unfold emitted. rewrite !filter_none; [done| |];
    (eapply Forall_impl; [exact Hes|]; intros e [? ?]; cbn beta in *; refute_at).
Qed.

Lemma covered_none es p : Forall (λ e, re_start e ≤ re_end e ∧ re_end e ≤ p) es → existsb (covers p) es = false.
Proof.
  intros Hes. apply existsb_none. eapply Forall_impl; [exact Hes|]. intros e [? ?]. cbn beta in *. refute_at.
Qed.

Lemma render_past es rest : ∀ p,
  Forall (λ e, re_start e ≤ re_end e ∧ re_end e < p) es → render es p rest = rest.
Proof.
  induction rest as [|c rest IH]; intros p Hp; cbn [render]; rewrite emitted_past by done; [done|].
  rewrite covered_none by (eapply Forall_impl; [exact Hp|]; cbn beta; lia).
  cbn [app]. f_equal. apply IH. eapply Forall_impl; [exact Hp|]. cbn beta. lia.
Qed.

Lemma render_end es p rest :
  Forall (λ e, re_start e ≤ re_end e ∧ re_end e ≤ p) es → render es p rest = emitted es p ++ rest.
Proof.
  intros Hp. destruct rest as [|c rest]; cbn [render]; [done|].
  rewrite covered_none by done. cbn [app]. do 2 f_equal.
  apply render_past. eapply Forall_impl; [exact Hp|]. cbn beta. lia.
Qed.

(** One splice, right of every remaining edit [L]. *)
Lemma render_part_snoc L e part : ∀ p, p + length part ≤ re_start e → re_start e ≤ re_end e →
  render_part (L ++ [e]) p part = render_part L p part.
Proof.
  induction part as [|c part IH]; intros p Hp He; [done|]. cbn [render_part length] in *.
  rewrite IH by lia. f_equal.
  - rewrite emitted_app_snoc. replace (inserts_at p e) with false by (symmetry; refute_at).
    replace (replaces_at p e) with false by (symmetry; refute_at). by rewrite app_nil_r.
  - f_equal. rewrite existsb_app. cbn [existsb].
    replace (covers p e) with false by (symmetry; refute_at). by rewrite !orb_false_r.
Qed.

Lemma render_covered L e rest : ∀ part p,
  Forall (λ e, re_start e ≤ re_end e ∧ re_end e < p) L → re_start e < p → p + length part = re_end e →
  render (L ++ [e]) p (part ++ rest) = rest.
Proof.
  induction part as [|c part IH]; intros p HL Hp Hlen; cbn [app length] in *.
  - assert (Forall (λ e0, re_start e0 ≤ re_end e0 ∧ re_end e0 ≤ p) (L ++ [e])) as Hle.
    { apply Forall_app; split; [eapply Forall_impl; [exact HL|]; cbn beta; lia | apply Forall_singleton; lia]. }
    rewrite render_end by done. rewrite emitted_app_snoc.
    replace (inserts_at p e) with false by (symmetry; refute_at).
    replace (replaces_at p e) with false by (symmetry; refute_at).
    pose proof (emitted_past _ _ HL) as Hnil. unfold emitted in Hnil. rewrite app_nil_r. cbn [app]. by rewrite Hnil.
  - cbn [render]. rewrite emitted_app_snoc.
    replace (inserts_at p e) with false by (symmetry; refute_at).
    replace (replaces_at p e) with false by (symmetry; refute_at).
    pose proof (emitted_past _ _ HL) as Hnil. unfold emitted in Hnil. rewrite app_nil_r. cbn [app]. rewrite Hnil.
    rewrite existsb_app. cbn [existsb app].
    replace (covers p e) with true by (symmetry; apply covers_true; lia). rewrite orb_true_r.
    cbn [app]. apply IH; [eapply Forall_impl; [exact HL|]; cbn beta; lia | lia | lia].
Qed.

Lemma render_splice text L e : in_text text e →
  Forall (λ b, re_start b ≤ re_end b ∧ re_end b ≤ re_start e) L →
  render L 0 (take (re_start e) text ++ re_text e ++ drop (re_end e) text) = render (L ++ [e]) 0 text.
Proof.
  intros [He Hlen] HL. rewrite <- (take_drop (re_start e) text) at 3.
  rewrite (render_app L (take _ _)), (render_app (L ++ [e]) (take _ _)).
  rewrite length_take_le by lia. cbn [Nat.add]. rewrite render_part_snoc by (rewrite ?length_take_le; lia).
  f_equal. rewrite render_end by done. unfold emitted at 1. rewrite emitted_left, app_nil_r by done.
  destruct (Nat.eq_dec (re_start e) (re_end e)) as [Heq|Hne].
  - rewrite render_end by (apply Forall_app; split; [done | apply Forall_singleton; lia]).
    rewrite emitted_app_snoc, emitted_left by done.
    replace (inserts_at (re_start e) e) with true by (symmetry; apply inserts_at_true; lia).
    replace (replaces_at (re_start e) e) with false by (symmetry; refute_at).
    rewrite !app_nil_r, <- app_assoc. by rewrite <- Heq.
  - replace (drop (re_start e) text) with (take (re_end e - re_start e) (drop (re_start e) text) ++ drop (re_end e) text)
      by (replace (drop (re_end e) text) with (drop (re_end e - re_start e) (drop (re_start e) text))
            by (rewrite drop_drop; f_equal; lia); apply take_drop).
    set (mid := take (re_end e - re_start e) (drop (re_start e) text)).
    assert (length mid = re_end e - re_start e) as Hmid by (subst mid; rewrite length_take_le; [done|rewrite length_drop; lia]).
    destruct mid as [|c mid]; cbn [length] in Hmid; [lia|]. cbn [app render].
    rewrite emitted_app_snoc, emitted_left by done. rewrite existsb_app. cbn [existsb].
    replace (inserts_at (re_start e) e) with false by (symmetry; refute_at).
    replace (replaces_at (re_start e) e) with true by (symmetry; apply replaces_at_true; lia).
    replace (covers (re_start e) e) with true by (symmetry; apply covers_true; lia).
    rewrite orb_true_r, <- !app_assoc. cbn [app]. do 2 f_equal.
    rewrite render_covered; [done| | lia | lia]. eapply Forall_impl; [exact HL|]. cbn beta. lia.
Qed.

Lemma splice_ok text e : in_text text e →
  splice text e = Ok (take (re_start e) text ++ re_text e ++ drop (re_end e) text).
Proof.
  intros [He Hl]. unfold splice, slice.
  destruct (Nat.leb_spec 0 (re_start e)), (Nat.leb_spec (re_start e) (length text)),
    (Nat.leb_spec (re_end e) (length text)), (Nat.leb_spec (length text) (length text)); try lia.
  cbn [andb res_bind]. rewrite Nat.sub_0_r, drop_0.
  rewrite (firstn_all2 (drop _ _)) by (rewrite length_drop; lia). done.
Qed.

Lemma apply_chain l : ∀ text, chain l → Forall (in_text text) l →
  apply_sorted text l = Ok (render (reverse l) 0 text).
Proof.
  induction l as [|e l IH]; intros text Hc Hin.
  { cbn [apply_sorted]. by rewrite render_past by constructor. }
  inversion_clear Hc as [|?? Hl He]. inversion_clear Hin as [|?? Hie Hil].
  cbn [apply_sorted]. rewrite splice_ok by done. cbn [res_bind].
  assert (Forall (λ b, re_start b ≤ re_end b ∧ re_end b ≤ re_start e) l) as HL.
  { rewrite Forall_forall in *. intros b Hb. specialize (He b Hb). destruct (Hil b Hb). done. }
  rewrite IH; [|done|].
  - rewrite reverse_cons, render_splice; [done|done|]. by rewrite reverse_Permutation.
  - destruct Hie as [? ?]. eapply Forall_impl; [exact HL|]. intros b [? ?]. split; [done|].
    rewrite length_app, length_take_le by lia. lia.
Qed.

(** *** The specification does not depend on the application order *)
Lemma filter_singleton {A} (f : A → bool) l :
  ForallOrdPairs (λ a b, f a = true → f b = true → False) l → length (filter (λ e, f e = true) l) ≤ 1.
Proof.
  induction 1 as [|x l Hx Hl IH]; [cbn; lia|].
  destruct (f x) eqn:Hf.
  - rewrite filter_cons_True by done. cbn [length]. rewrite filter_none; [cbn; lia|].
    eapply Forall_impl; [exact Hx|]. intros y Hy. apply not_true_iff_false. auto.
  - rewrite filter_cons_False by congruence. done.
Qed.

Lemma perm_short {A} (l l' : list A) : length l ≤ 1 → l ≡ₚ l' → l = l'.
Proof.
  destruct l as [|x [|y l]]; cbn; intros Hlen Hp; [| |lia].
  - by apply Permutation_nil_l.
  - by apply Permutation_singleton_l.
Qed.

Definition ordered : relation resolvedEdit := λ a b, a = b ∨ re_order a < re_order b.
#[export] Instance ordered_antisymm : AntiSymm (=) ordered.
Proof. intros a b [->|H1] [H2|H2]; [done|done|done|lia]. Qed.

Lemma strongly_filter {A} (R : relation A) (P : A → Prop) `{∀ x, Decision (P x)} l :
  StronglySorted R l → StronglySorted R (filter P l).
Proof.
  induction 1 as [|x l Hl IH Hx]; [constructor|].
  destruct (decide (P x)).
  - rewrite filter_cons_True by done. constructor; [done|].
    rewrite Forall_forall in *. intros y [_ ?]%list_elem_of_filter. auto.
  - by rewrite filter_cons_False.
Qed.

Lemma strongly_reverse {A} (R : relation A) l : StronglySorted R l → StronglySorted (flip R) (reverse l).
Proof.
  induction 1 as [|x l Hl IH Hx]; [constructor|]. rewrite reverse_cons.
  apply StronglySorted_app_2; [|done | repeat constructor].
  intros a b Ha ->%list_elem_of_singleton. rewrite elem_of_reverse in Ha. rewrite Forall_forall in Hx. exact (Hx _ Ha).
Qed.

Lemma numbered_ordered es : numbered es → StronglySorted ordered es.
Proof.
  intros Hn. assert (∀ k l, l = drop k es → StronglySorted ordered l) as H; [|by apply (H 0)].
  intros k l. revert k. induction l as [|x l IH]; intros k Hl; [constructor|].
  assert (∀ i e, (x :: l) !! i = Some e → re_order e = k + i) as Hi
    by (intros i e; rewrite Hl, lookup_drop; apply Hn).
  constructor.
  - apply (IH (S k)). replace (S k) with (k + 1) by lia. by rewrite <- drop_drop, <- Hl.
  - apply Forall_forall. intros y [j Hj]%list_elem_of_lookup. right.
    rewrite (Hi 0 x eq_refl), (Hi (S j) y Hj). lia.
Qed.

Lemma numbered_inj es a b : numbered es → a ∈ es → b ∈ es → re_order a = re_order b → a = b.
Proof.
  intros Hn [i Hi]%list_elem_of_lookup [j Hj]%list_elem_of_lookup Heq.
  rewrite (Hn _ _ Hi), (Hn _ _ Hj) in Heq. subst j. congruence.
Qed.

Lemma sorted_inserts_ordered p l : StronglySorted not_after l →
  (∀ a b, a ∈ l → b ∈ l → re_order a = re_order b → a = b) →
  StronglySorted (flip ordered) (filter (λ e, inserts_at p e = true) l).
Proof.
  intros Hs Hinj. assert (∀ a b, not_after a b → inserts_at p a = true → inserts_at p b = true →
    re_order b ≤ re_order a) as Hord.
  { intros a b Hn [Ha Ha']%inserts_at_true [Hb Hb']%inserts_at_true. unfold not_after, edit_less, is_insert in Hn.
    rewrite Ha, Ha', Hb, Hb', Nat.eqb_refl in Hn. cbn in Hn. by apply Nat.ltb_ge in Hn. }
  induction Hs as [|x l Hl IH Hx]; [constructor|].
  assert (StronglySorted (flip ordered) (filter (λ e, inserts_at p e = true) l)) as Hrest
    by (apply IH; intros a b Ha Hb; apply Hinj; by right).
  destruct (decide (inserts_at p x = true)) as [Hp|Hp]; [|by rewrite filter_cons_False].
  rewrite filter_cons_True by done. constructor; [done|].
  apply Forall_forall. intros y [Hy Hyl]%list_elem_of_filter. rewrite Forall_forall in Hx.
  specialize (Hord x y (Hx y Hyl) Hp Hy). unfold flip, ordered.
  destruct (decide (re_order y = re_order x)) as [He|]; [left; apply Hinj; [by right|left|done] | right; lia].
Qed.

Lemma emitted_sorted text es p : Forall (in_text text) es → numbered es → ForallOrdPairs compatible es →
  emitted (reverse (sort_edits es)) p = emitted es p.
Proof.
  intros Hin Hn Hc.
  assert (reverse (sort_edits es) ≡ₚ es) as Hp by (by rewrite reverse_Permutation, sort_edits_perm).
  unfold emitted. f_equal; f_equal; f_equal.
  - apply (StronglySorted_unique ordered).
    + rewrite filter_reverse. apply (strongly_reverse (flip ordered)), sorted_inserts_ordered; [apply sort_edits_sorted|].
      intros a b. rewrite !sort_edits_perm. by apply numbered_inj.
    + by apply strongly_filter, numbered_ordered.
    + by rewrite Hp.
  - symmetry. apply perm_short; [|by rewrite Hp]. apply filter_singleton.
    clear -Hc Hin. induction Hc as [|x es Hx Hes IH]; [constructor|].
    inversion_clear Hin as [|?? Hix Hies]. constructor; [|by apply IH].
    rewrite Forall_forall in *. intros y Hy [H1 H2]%replaces_at_true [H3 H4]%replaces_at_true.
    destruct (Hies y Hy), Hix. specialize (Hx y Hy). apply compatible_spec in Hx as [Hx _].
    apply Hx; try (apply Nat.eqb_neq; lia); lia.
Qed.

Lemma render_sorted text es : Forall (in_text text) es → numbered es → ForallOrdPairs compatible es →
  ∀ rest p, render (reverse (sort_edits es)) p rest = render es p rest.
Proof.
  intros Hin Hn Hc. induction rest as [|c rest IH]; intros p; cbn [render].
  - by erewrite emitted_sorted.
  - erewrite emitted_sorted by done. f_equal. rewrite IH. f_equal.
    assert (reverse (sort_edits es) ≡ₚ es) as Hp by (by rewrite reverse_Permutation, sort_edits_perm).
    assert (existsb (covers p) (reverse (sort_edits es)) = existsb (covers p) es) as ->; [|done].
    apply eq_true_iff_eq. rewrite !existsb_exists. setoid_rewrite <- list_elem_of_In. by setoid_rewrite Hp.
Qed.

Lemma apply_resolved_render text es : Forall (in_text text) es → numbered es →
  res_post (λ out, ForallOrdPairs compatible es ∧ out = render es 0 text) (apply_resolved text es).
Proof.
  intros Hin Hn. unfold apply_resolved.
  eapply res_post_bind; [apply validateResolvedEdits_post|]. intros u _ Hc. cbn beta in Hc.
  assert (Forall (in_text text) (sort_edits es)) as Hin' by (by rewrite sort_edits_perm).
  assert (ForallOrdPairs compatible (sort_edits es)) as Hc'
    by (eapply ordpairs_perm; [exact compatible_sym | symmetry; apply sort_edits_perm | done]).
  rewrite apply_chain; [|eapply sorted_chain, sort_edits_sorted; done|done].
  cbn [res_post]. split; [done|]. by erewrite render_sorted.
Qed.

(** ** The theorems *)
Section Theorems.
Context `{UnicodeTables}.

(** C37: [ApplyEdits] refines the position-indexed specification: when a batch
    without overwrite is accepted, the result is the original text in which
    every byte covered by an edit is left out, and in front of each byte stand
    the insertions for that position in the order of the batch and then the
    replacement that starts there; the resolved edits are ranges of the text
    that do not overlap. *)
Theorem ApplyEdits_refines text edits out :
  ApplyEdits text edits = Ok out →
  equal_fold_ascii (trim_space (default [] (Operation <$> head edits))) §"overwrite" = false →
  ∃ resolved,
    resolve_all (NormalizeEditText text) (scanEditLines (NormalizeEditText text)) 0 edits [] = Ok resolved
    ∧ Forall (in_text (NormalizeEditText text)) resolved
    ∧ ForallOrdPairs compatible resolved
    ∧ out = render resolved 0 (NormalizeEditText text).
Proof.
  unfold ApplyEdits. destruct edits as [|first more]; [done|]. cbn [head fmap option_fmap option_map default id].
  intros Ha Ho. rewrite Ho in Ha. apply res_bind_ok in Ha as (resolved & Hr & Ha).
  assert (Forall (in_text (NormalizeEditText text)) resolved ∧ numbered resolved) as [Hin Hn].
  { apply (res_post_ok _ _ _ (resolve_all_post (NormalizeEditText text) (first :: more) 0 [] (Forall_nil_2 _) ltac:(done))).
    exact Hr. }
  pose proof (res_post_ok _ _ _ (apply_resolved_render _ _ Hin Hn) Ha) as [Hc ->].
  exists resolved. done.
Qed.

Lemma ApplyEdits_total text edits : ApplyEdits text edits ≠ Panic.
Proof.
  assert (res_post (λ _, True) (ApplyEdits text edits)) as Hp; [|intros Heq; by rewrite Heq in Hp].
  unfold ApplyEdits. destruct edits as [|first more]; [done|].
  destruct (equal_fold_ascii _ _).
  - destruct (negb _); [done|]. eapply res_post_bind; [apply res_post_wrap, validateEditFields_post|].
    intros u _ Hn. cbn beta in Hn. destruct (Hn eq_refl) as [new ->]. done.
  - eapply res_post_bind; [by apply resolve_all_post; [constructor|]|]. intros resolved _ [Hin Hn].
    eapply res_post_mono; [|by apply apply_resolved_render]. done.
Qed.

(** [ApplyEdits] never panics: no slice, index or pointer of the edit
    engine is out of range for any text and any batch of edits. *)
Lemma ApplyEdits_no_panic text edits : ApplyEdits text edits ≠ Panic.
Proof. apply ApplyEdits_total. Qed.
End Theorems.

Definition sample_edit (op : gostring) (line : Z) (new : option gostring) : Edit :=
  {| Operation := op; Line := line; EndLine := 0; NewText := new; OldText := []; Anchor := [];
     Index := None; AllMatches := false |}.
Definition sample_text : gostring := §"one" ++ crlf ++ §"two" ++ crlf ++ §"three" ++ crlf.
Definition sample_edits : list Edit :=
  [sample_edit §"replace" 2 (Some (§"TWO" ++ crlf)); sample_edit §"insert" 1 (Some §"zero");
   sample_edit §" Delete" 3 None].

Lemma ApplyEdits_refines_witness :
  ∃ resolved : list resolvedEdit,
    resolve_all (H := ascii_tables) (NormalizeEditText sample_text) (scanEditLines (NormalizeEditText sample_text)) 0
      sample_edits [] = Ok resolved
    ∧ Forall (in_text (NormalizeEditText sample_text)) resolved
    ∧ ForallOrdPairs compatible resolved
    ∧ §"zero" ++ [newline] ++ §"one" ++ [newline] ++ §"TWO" ++ [newline] = render resolved 0 (NormalizeEditText sample_text).
Proof. apply (@ApplyEdits_refines ascii_tables sample_text sample_edits); vm_compute; reflexivity. Defined.
