(* ===== verification/FileDiff.v ===== *)
(** * The line diff of [internal/fileops/diff.go]

    [diffLines] fills the table of longest common subsequences from the end
    and walks it from the start; [buildDiffHunks] groups the changes into
    hunks; [UnifiedDiff] prints them within a size limit. *)
From S2P Require Import Prelude GoStr FileText.
Open Scope Z_scope.

Definition maxDiffCells : Z := 2000000.
Definition maxDiffOutputBytes : Z := 64 * 1024.

Inductive diffKind := diffEqual | diffDelete | diffInsert.
#[export] Instance diffKind_eq_dec : EqDecision diffKind.
Proof. solve_decision. Defined.

Record diffOp := DiffOp { kind : diffKind; text : gostring }.
Record DiffHunk := { ops : list diffOp; oldStart : Z; newStart : Z }.

(** ** The table

    [dp_row x b below] is the row of line [x] above the row [below]; its
    entries are computed from the right. *)
Fixpoint dp_row (x : gostring) (b : list gostring) (below : list Z) : list Z :=
  match b, below with
  | y :: b, d :: below =>
    let row := dp_row x b below in
    (if bool_decide (x = y) then hd 0 below + 1
     else if hd 0 row <=? d then d
     else hd 0 row) :: row
  | _, _ => [0]
  end.
Fixpoint dp_table (a b : list gostring) : list (list Z) :=
  match a with
  | [] => [replicate (S (length b)) 0]
  | x :: a => let dp := dp_table a b in dp_row x b (hd [] dp) :: dp
  end.

(** [dp[i][j]]. *)
Definition dp_at (dp : list (list Z)) (i j : nat) : res Z :=
  match dp !! i with
  | Some row => match row !! j with Some d => Ok d | None => Panic end
  | None => Panic
  end.

(** The walk; every round passes a line of [a] or of [b], so
    [length a + length b] rounds are enough. *)
Fixpoint diff_walk (fuel : nat) (a b : list gostring) (dp : list (list Z)) (i j : nat) : res (list diffOp) :=
  match fuel with
  | O => Ok []
  | S fuel =>
    match a !! i, b !! j with
    | None, None => Ok []
    | Some x, None =>
      let* ops := diff_walk fuel a b dp (S i) j in Ok (DiffOp diffDelete x :: ops)
    | None, Some y =>
      let* ops := diff_walk fuel a b dp i (S j) in Ok (DiffOp diffInsert y :: ops)
    | Some x, Some y =>
      if bool_decide (x = y) then
        let* ops := diff_walk fuel a b dp (S i) (S j) in Ok (DiffOp diffEqual x :: ops)
      else
        let* down := dp_at dp (S i) j in
        let* across := dp_at dp i (S j) in
        if across <=? down then
          let* ops := diff_walk fuel a b dp (S i) j in Ok (DiffOp diffDelete x :: ops)
        else
          let* ops := diff_walk fuel a b dp i (S j) in Ok (DiffOp diffInsert y :: ops)
    end
  end.
Definition diffLines (a b : list gostring) : res (list diffOp) :=
  diff_walk (length a + length b) a b (dp_table a b) 0 0.

(** ** Hunks *)
Definition is_change (op : diffOp) : bool := negb (bool_decide (kind op = diffEqual)).

Fixpoint change_bounds (i : nat) (ops : list diffOp) (first : option nat) (last : nat) : option (nat * nat) :=
  match ops with
  | [] => match first with Some f => Some (f, last) | None => None end
  | op :: ops =>
    if is_change op
    then change_bounds (S i) ops (Some (default i first)) i
    else change_bounds (S i) ops first last
  end.

Definition equalOpsBetween (ops : list diffOp) (start end_ : nat) : Z :=
  Z.of_nat (length (filter (λ op, kind op = diffEqual) (take (end_ - start) (drop start ops)))).

(** The loop from [firstChange + 1] to [lastChange]; [rest] is the part of
    [ops] still to be visited, which starts at index [i]. *)
Fixpoint hunk_ranges (all : list diffOp) (contextLines : Z) (i : nat) (rest : list diffOp)
    (start last : nat) : list (nat * nat) :=
  match rest with
  | [] => [(start, last)]
  | op :: rest =>
    if is_change op then
      if contextLines * 2 <? equalOpsBetween all (S last) i
      then (start, last) :: hunk_ranges all contextLines (S i) rest i i
      else hunk_ranges all contextLines (S i) rest start i
    else hunk_ranges all contextLines (S i) rest start last
  end.

Definition slice_ops (l : list diffOp) (i j : Z) : res (list diffOp) :=
  if (0 <=? i) && (i <=? j) && (j <=? Z.of_nat (length l))
  then Ok (take (Z.to_nat (j - i)) (drop (Z.to_nat i) l)) else Panic.

Fixpoint diffHunkCounts (ops : list diffOp) : Z * Z :=
  match ops with
  | [] => (0, 0)
  | op :: ops =>
    let (old, new) := diffHunkCounts ops in
    match kind op with
    | diffEqual => (old + 1, new + 1)
    | diffDelete => (old + 1, new)
    | diffInsert => (old, new + 1)
    end
  end.

Definition trimDiffContextRange (ops : list diffOp) (first last : nat) (contextLines : Z) : res DiffHunk :=
  let start := Z.of_nat first - contextLines in
  let start := if start <? 0 then 0 else start in
  let end_ := Z.of_nat last + contextLines + 1 in
  let end_ := if Z.of_nat (length ops) <? end_ then Z.of_nat (length ops) else end_ in
  let* before := slice_ops ops 0 start in
  let (old, new) := diffHunkCounts before in
  let* shown := slice_ops ops start end_ in
  Ok {| ops := shown; oldStart := 1 + old; newStart := 1 + new |}.

Definition buildDiffHunks (ops : list diffOp) (contextLines : Z) : res (list DiffHunk) :=
  match change_bounds 0 ops None 0 with
  | None => Ok []
  | Some (firstChange, lastChange) =>
    let rest := take (lastChange - firstChange) (drop (S firstChange) ops) in
    res_map (λ r, trimDiffContextRange ops r.1 r.2 contextLines)
            (hunk_ranges ops contextLines (S firstChange) rest firstChange firstChange)
  end.

(** ** Printing *)
Definition diffTooLarge (oldLines newLines : list gostring) : bool :=
  if bool_decide (oldLines = []) || bool_decide (newLines = []) then false
  else Z.quot maxDiffCells (Z.of_nat (length newLines)) <? Z.of_nat (length oldLines).

(** The inner loop of [diffOutputTooLarge]; [None] is the early return. *)
Fixpoint ops_size (size : Z) (ops : list diffOp) : option Z :=
  match ops with
  | [] => Some size
  | op :: ops =>
    let size := size + (Z.of_nat (length (text op)) + 2) in
    if maxDiffOutputBytes <? size then None else ops_size size ops
  end.
Fixpoint hunks_size (size : Z) (hunks : list DiffHunk) : option Z :=
  match hunks with
  | [] => Some size
  | hunk :: hunks =>
    match ops_size (size + 64) (ops hunk) with
    | None => None
    | Some size => hunks_size size hunks
    end
  end.
Definition diffOutputTooLarge (path : gostring) (hunks : list DiffHunk) : bool :=
  match hunks_size (Z.of_nat (length path) * 2 + 10) hunks with
  | None => true
  | Some size => maxDiffOutputBytes <? size
  end.

Definition diff_header (path : gostring) : gostring :=
  §"--- " ++ path ++ [newline] ++ §"+++ " ++ path ++ [newline].
Definition omittedDiff (path reason : gostring) : gostring :=
  diff_header path ++ §"# diff omitted: " ++ reason ++ [newline].

Definition op_sign (k : diffKind) : gostring :=
  match k with diffEqual => §" " | diffDelete => §"-" | diffInsert => §"+" end.
Definition render_op (op : diffOp) : gostring := op_sign (kind op) ++ text op ++ [newline].
Definition render_hunk (hunk : DiffHunk) : gostring :=
  let (old, new) := diffHunkCounts (ops hunk) in
  §"@@ -" ++ itoa (oldStart hunk) ++ §"," ++ itoa old ++ §" +" ++ itoa (newStart hunk) ++ §"," ++ itoa new
  ++ §" @@" ++ [newline] ++ concat (render_op <$> ops hunk).

Definition UnifiedDiff (path : gostring) (oldLines newLines : list gostring) (contextLines : Z) : res gostring :=
  if diffTooLarge oldLines newLines
  then Ok (omittedDiff path (§"too many line comparisons (" ++ itoa (Z.of_nat (length oldLines)) ++ §" x "
                             ++ itoa (Z.of_nat (length newLines)) ++ §")"))
  else
    let* ops := diffLines oldLines newLines in
    let* hunks := buildDiffHunks ops contextLines in
    if diffOutputTooLarge path hunks
    then Ok (omittedDiff path (§"rendered diff exceeds " ++ itoa maxDiffOutputBytes ++ §" bytes"))
    else Ok (diff_header path ++ concat (render_hunk <$> hunks)).

Definition editDiff (path oldText newText : gostring) (oldBytes newBytes contextLines detailedMaxBytes : Z)
  : res gostring :=
  if (0 <? detailedMaxBytes) && ((detailedMaxBytes <? oldBytes) || (detailedMaxBytes <? newBytes))
  then Ok (omittedDiff path (§"file exceeds detailed diff limit " ++ itoa detailedMaxBytes ++ §" bytes (old "
                             ++ itoa oldBytes ++ §" bytes, new " ++ itoa newBytes ++ §" bytes)"))
  else UnifiedDiff path (SplitLines oldText) (SplitLines newText) contextLines.
