(* ===== verification/FileDiffProps.v ===== *)
(** * Properties of the line diff

    The walk of [diffLines] turns the old lines into the new ones with as few
    changed lines as possible, and the hunks are a patch: applying them to the
    old lines gives the new ones. *)
From S2P Require Import Prelude GoStr FileText FileDiff.
Open Scope nat_scope.

(** ** Specification *)
Definition old_line (op : diffOp) : list gostring :=
  match kind op with diffInsert => [] | _ => [text op] end.
Definition new_line (op : diffOp) : list gostring :=
  match kind op with diffDelete => [] | _ => [text op] end.
Definition old_lines (ops : list diffOp) : list gostring := ops ≫= old_line.
Definition new_lines (ops : list diffOp) : list gostring := ops ≫= new_line.

(** [ops] is an edit script from [a] to [b]. *)
Definition script (a b : list gostring) (ops : list diffOp) : Prop :=
  old_lines ops = a ∧ new_lines ops = b.
Definition changes (ops : list diffOp) : nat := length (filter (λ op, kind op ≠ diffEqual) ops).
Definition kept (ops : list diffOp) : nat := length (filter (λ op, kind op = diffEqual) ops).

(** The length of the longest common subsequence, by its recursion equations. *)
Fixpoint lcs (a b : list gostring) : nat :=
  match a with
  | [] => 0
  | x :: a =>
    (fix inner (b : list gostring) : nat :=
       match b with
       | [] => 0
       | y :: b => if bool_decide (x = y) then S (lcs a b) else Nat.max (lcs a (y :: b)) (inner b)
       end) b
  end.

Lemma lcs_nil_r a : lcs a [] = 0.
Proof. by destruct a. Qed.
Lemma lcs_cons x a y b :
  lcs (x :: a) (y :: b) = if bool_decide (x = y) then S (lcs a b) else Nat.max (lcs a (y :: b)) (lcs (x :: a) b).
Proof. done. Qed.

Lemma lcs_bounds a : ∀ b,
  (∀ x, lcs a b ≤ lcs (x :: a) b ≤ S (lcs a b)) ∧ (∀ y, lcs a b ≤ lcs a (y :: b) ≤ S (lcs a b)).
Proof.
  induction a as [|z a IHa]; intros b.
  - split; [|cbn; lia]. intros x. induction b as [|y b IHb]; [cbn; lia|].
    rewrite lcs_cons. cbn [lcs] in *. case_bool_decide; lia.
  - induction b as [|w b IHb].
    + split; [intros; rewrite !lcs_nil_r; lia|]. intros y. rewrite lcs_cons, !lcs_nil_r. pose proof (proj2 (IHa []) y) as H.
      rewrite lcs_nil_r in H. case_bool_decide; lia.
    + destruct IHb as [IHb1 IHb2].
      assert (∀ x, lcs (z :: a) (w :: b) ≤ lcs (x :: z :: a) (w :: b) ≤ S (lcs (z :: a) (w :: b))) as H1.
      { intros x. rewrite (lcs_cons x). pose proof (IHb2 w). pose proof (IHb1 x). case_bool_decide; lia. }
      split; [exact H1|]. intros y. rewrite (lcs_cons z a y).
      pose proof (proj2 (IHa (w :: b)) y). pose proof (proj1 (IHa (w :: b)) z). case_bool_decide; lia.
Qed.

Lemma is_change_kind k t : is_change (DiffOp k t) = match k with diffEqual => false | _ => true end.
Proof. by destruct k. Qed.
Lemma kept_cons op ops : kept (op :: ops) = (if is_change op then 0 else 1) + kept ops.
Proof. unfold kept, is_change. rewrite filter_cons. by destruct (decide (kind op = diffEqual)), (bool_decide_reflect (kind op = diffEqual)). Qed.
Lemma changes_cons op ops : changes (op :: ops) = (if is_change op then 1 else 0) + changes ops.
Proof. unfold changes, is_change. rewrite filter_cons. by destruct (decide (kind op ≠ diffEqual)), (bool_decide_reflect (kind op = diffEqual)). Qed.
Lemma old_lines_cons op ops : old_lines (op :: ops) = old_line op ++ old_lines ops.
Proof. done. Qed.
Lemma new_lines_cons op ops : new_lines (op :: ops) = new_line op ++ new_lines ops.
Proof. done. Qed.

Lemma kept_lcs ops : kept ops ≤ lcs (old_lines ops) (new_lines ops).
Proof.
  induction ops as [|[k t] ops IH]; [cbn; lia|].
  rewrite kept_cons, old_lines_cons, new_lines_cons. unfold old_line at 1, new_line at 1.
  destruct k; cbn [kind text app is_change negb bool_decide decide_rel].
  - change (is_change (DiffOp diffEqual t)) with false. rewrite lcs_cons, bool_decide_eq_true_2 by done. lia.
  - etrans; [exact IH|]. apply lcs_bounds.
  - etrans; [exact IH|]. apply lcs_bounds.
Qed.

Lemma script_counts a b ops : script a b ops → length a + length b = changes ops + 2 * kept ops.
Proof.
  intros [<- <-]. induction ops as [|[k t] ops IH]; [done|].
  rewrite old_lines_cons, new_lines_cons, kept_cons, changes_cons, !length_app.
  rewrite is_change_kind. unfold old_line at 1, new_line at 1. destruct k; cbn [kind text length]; lia.
Qed.

(** ** The table holds the lengths *)
Definition row_ok (a b : list gostring) (row : list Z) : Prop :=
  length row = S (length b) ∧ ∀ j, j ≤ length b → row !! j = Some (Z.of_nat (lcs a (drop j b))).

Lemma row_ok_hd a b row : row_ok a b row → hd 0%Z row = Z.of_nat (lcs a b).
Proof. intros [_ H]. specialize (H 0). destruct row; specialize (H ltac:(lia)); cbn in H; [done|]. by injection H as ->. Qed.

Lemma row_ok_tail a y b d row : row_ok a (y :: b) (d :: row) → row_ok a b row.
Proof.
  intros [Hl H]. split; [by injection Hl|]. intros j Hj. apply (H (S j)). cbn. lia.
Qed.

Lemma dp_row_ok x a : ∀ b below, row_ok a b below → row_ok (x :: a) b (dp_row x b below).
Proof.
  induction b as [|y b IH]; intros below Hb.
  - split; [done|]. intros [|j] Hj; [done | cbn in Hj; lia].
  - destruct below as [|d below]; [by destruct Hb|]. cbn [dp_row].
    pose proof (row_ok_hd _ _ _ Hb) as Hd. cbn in Hd. subst d.
    pose proof (row_ok_tail _ _ _ _ _ Hb) as Ht. specialize (IH _ Ht).
    pose proof (row_ok_hd _ _ _ IH) as Hr. pose proof (row_ok_hd _ _ _ Ht) as Hbt.
    destruct IH as [Hl IH]. split; [cbn; by f_equal|]. intros [|j] Hj.
    + cbn [lookup list_lookup drop]. f_equal. rewrite Hr, Hbt, lcs_cons. case_bool_decide; [lia|].
      destruct (Z.leb_spec (Z.of_nat (lcs (x :: a) b)) (Z.of_nat (lcs a (y :: b)))); lia.
    + cbn [lookup list_lookup drop]. apply IH. cbn in Hj. lia.
Qed.

Lemma dp_table_ok a b : ∀ i, i ≤ length a → ∃ row, dp_table a b !! i = Some row ∧ row_ok (drop i a) b row.
Proof.
  induction a as [|x a IH]; intros i Hi.
  - cbn in Hi. replace i with 0 by lia. eexists; split; [done|]. split; [cbn; by rewrite length_replicate|].
    intros j Hj. cbn [drop lcs dp_table]. apply (lookup_replicate_2 (S (length b)) 0%Z). lia.
  - destruct i as [|i]; cbn [dp_table lookup list_lookup drop].
    + eexists; split; [done|]. apply dp_row_ok. destruct (IH 0 ltac:(lia)) as (row & Hrow & Hok).
      destruct (dp_table a b); [done|]. cbn in Hrow. by injection Hrow as ->.
    + apply IH. cbn in Hi. lia.
Qed.

Lemma dp_at_ok a b i j : i ≤ length a → j ≤ length b →
  dp_at (dp_table a b) i j = Ok (Z.of_nat (lcs (drop i a) (drop j b))).
Proof.
  intros Hi Hj. destruct (dp_table_ok a b i Hi) as (row & Hrow & _ & Hok).
  unfold dp_at. by rewrite Hrow, Hok.
Qed.

(** ** The walk *)
Lemma diff_walk_ok a b : ∀ fuel i j, i ≤ length a → j ≤ length b →
  (length a - i) + (length b - j) ≤ fuel →
  ∃ ops, diff_walk fuel a b (dp_table a b) i j = Ok ops
         ∧ script (drop i a) (drop j b) ops ∧ kept ops = lcs (drop i a) (drop j b).
Proof.
  induction fuel as [|fuel IH]; intros i j Hi Hj Hf.
  { exists []. rewrite !drop_ge by lia. done. }
  cbn [diff_walk].
  destruct (a !! i) as [x|] eqn:Hx, (b !! j) as [y|] eqn:Hy.
  - pose proof (lookup_lt_Some _ _ _ Hx). pose proof (lookup_lt_Some _ _ _ Hy).
    rewrite (drop_S _ _ _ Hx), (drop_S _ _ _ Hy), lcs_cons.
    case_bool_decide as Heq.
    + subst y. destruct (IH (S i) (S j)) as (ops & -> & [Ho Hn] & Hk); [lia..|].
      eexists; split; [done|]. split; [split; [by rewrite <- Ho | by rewrite <- Hn]|].
      rewrite kept_cons, is_change_kind. lia.
    + rewrite !dp_at_ok by lia. cbn [res_bind]. rewrite (drop_S a _ _ Hx), (drop_S b _ _ Hy).
      destruct (Z.leb_spec (Z.of_nat (lcs (x :: drop (S i) a) (drop (S j) b)))
                           (Z.of_nat (lcs (drop (S i) a) (y :: drop (S j) b)))).
      * destruct (IH (S i) j) as (ops & -> & [Ho Hn] & Hk); [lia..|]. rewrite (drop_S _ _ _ Hy) in *.
        eexists; split; [done|]. split; [split; [by rewrite <- Ho | done]|].
        rewrite kept_cons, is_change_kind, Hk. lia.
      * destruct (IH i (S j)) as (ops & -> & [Ho Hn] & Hk); [lia..|]. rewrite (drop_S _ _ _ Hx) in *.
        eexists; split; [done|]. split; [split; [done | by rewrite <- Hn]|].
        rewrite kept_cons, is_change_kind, Hk. lia.
  - pose proof (lookup_lt_Some _ _ _ Hx). apply lookup_ge_None in Hy.
    destruct (IH (S i) j) as (ops & -> & [Ho Hn] & Hk); [lia..|].
    rewrite (drop_S _ _ _ Hx). rewrite (drop_ge b j) in * by lia. rewrite lcs_nil_r in *.
    eexists; split; [done|]. split; [split; [by rewrite <- Ho | done]|].
    by rewrite kept_cons, is_change_kind, Hk.
  - pose proof (lookup_lt_Some _ _ _ Hy). apply lookup_ge_None in Hx.
    destruct (IH i (S j)) as (ops & -> & [Ho Hn] & Hk); [lia..|].
    rewrite (drop_S _ _ _ Hy). rewrite (drop_ge a i) in * by lia. cbn [lcs] in *.
    eexists; split; [done|]. split; [split; [done | by rewrite <- Hn]|].
    by rewrite kept_cons, is_change_kind, Hk.
  - apply lookup_ge_None in Hx, Hy. exists []. rewrite !drop_ge by lia. done.
Qed.

Lemma diffLines_ok a b : ∃ ops, diffLines a b = Ok ops ∧ script a b ops ∧ kept ops = lcs a b.
Proof. unfold diffLines. apply (diff_walk_ok a b _ 0 0); lia. Qed.

(** ** Hunks *)

(** The patch semantics of a list of hunks, with [pos] the number of the
    first of the lines [rest] and [npos] its number in the output: the lines
    in front of a hunk are copied, the hunk must match and is replaced. *)
Fixpoint apply_hunks (pos npos : Z) (hunks : list DiffHunk) (rest : list gostring) : option (list gostring) :=
  match hunks with
  | [] => Some rest
  | h :: hunks =>
    let skip := Z.to_nat (oldStart h - pos) in
    let at_hunk := drop skip rest in
    let old := old_lines (ops h) in
    let new := new_lines (ops h) in
    if (pos <=? oldStart h)%Z && (skip <=? length rest) && (newStart h =? npos + Z.of_nat skip)%Z
       && bool_decide (take (length old) at_hunk = old)
    then app (take skip rest ++ new)
           <$> apply_hunks (oldStart h + Z.of_nat (length old)) (newStart h + Z.of_nat (length new))
                           hunks (drop (length old) at_hunk)
    else None
  end.

(** No change among the operations number [p] to [q - 1]. *)
Definition equal_between (ops : list diffOp) (p q : nat) : Prop :=
  ∀ k op, p ≤ k → k < q → ops !! k = Some op → is_change op = false.

(** The raw ranges, from operation [q] on: at least [need] unchanged
    operations in front of the next range, [2 * ctx + 1] between two. *)
Fixpoint gaps_ok (ops : list diffOp) (ctx need : nat) (q : nat) (ranges : list (nat * nat)) : Prop :=
  match ranges with
  | [] => equal_between ops q (length ops)
  | (s, l) :: ranges =>
    q + need ≤ s ∧ s ≤ l ∧ l < length ops ∧ equal_between ops q s
    ∧ gaps_ok ops ctx (S (2 * ctx)) (S l) ranges
  end.

Lemma change_bounds_some : ∀ rest i f last, last < i →
  ∃ l, change_bounds i rest (Some f) last = Some (f, l) ∧ last ≤ l ∧ l < i + length rest
       ∧ equal_between rest (S l - i) (length rest).
Proof.
  induction rest as [|op rest IH]; intros i f last Hl; cbn [change_bounds].
  - exists last. split_and!; [done|lia|cbn;lia|]. intros k o ? ?. cbn in *. lia.
  - destruct (is_change op) eqn:Hc.
    + change (default i (Some f)) with f. destruct (IH (S i) f i) as (l & -> & Hle & Hlt & He); [lia|]. exists l.
      split_and!; [done|lia|cbn; lia|]. intros [|k] o Hk Hk' Ho; [lia|]. cbn in Hk', Ho.
      eapply (He k); [lia|lia|done].
    + destruct (IH (S i) f last) as (l & -> & Hle & Hlt & He); [lia|]. exists l.
      split_and!; [done|lia|cbn; lia|]. intros [|k] o Hk Hk' Ho; [by cbn in Ho; simplify_eq|].
      cbn in Hk', Ho. eapply (He k); [lia|lia|done].
Qed.

Lemma change_bounds_none : ∀ rest i,
  match change_bounds i rest None 0 with
  | None => equal_between rest 0 (length rest)
  | Some (f, l) => i ≤ f ∧ f ≤ l ∧ l < i + length rest ∧ equal_between rest 0 (f - i)
                   ∧ equal_between rest (S l - i) (length rest)
  end.
Proof.
  induction rest as [|op rest IH]; intros i; cbn [change_bounds].
  - intros k o ? ?. cbn in *. lia.
  - destruct (is_change op) eqn:Hc.
    + change (default i None) with i. destruct (change_bounds_some rest (S i) i i) as (l & -> & ? & ? & He); [lia|].
      cbn [length]. split_and!; try lia; [intros k o ? ?; lia|]. intros [|k] o Hk Hk' Ho; [lia|].
      cbn in Ho. eapply (He k); [lia|lia|done].
    + specialize (IH (S i)). destruct (change_bounds (S i) rest None 0) as [[f l]|].
      * destruct IH as (? & ? & ? & H1 & H2). cbn [length]. split_and!; try lia.
        -- intros [|k] o ? ? Ho; cbn in Ho; [by simplify_eq|]. apply (H1 k); [lia|lia|done].
        -- intros [|k] o ? ? Ho; cbn in Ho; [by simplify_eq|]. apply (H2 k); [lia|lia|done].
      * intros [|k] o ? ? Ho; cbn in Ho; [by simplify_eq|]. apply (IH k); [lia|cbn in *; lia|done].
Qed.

Lemma equalOpsBetween_all all p q : equal_between all p q → p ≤ q → q ≤ length all →
  equalOpsBetween all p q = Z.of_nat (q - p).
Proof.
  intros He Hpq Hq. unfold equalOpsBetween. f_equal.
  rewrite filter_all; [rewrite length_take, length_drop; lia|]. apply Forall_forall.
  intros op [k Hk]%list_elem_of_lookup. apply lookup_take_Some in Hk as [Hk Hlt]. rewrite lookup_drop in Hk.
  specialize (He (p + k) op ltac:(lia) ltac:(lia) Hk). unfold is_change in He.
  by apply negb_false_iff, bool_decide_eq_true in He.
Qed.

Lemma hunk_ranges_ok all ctx hi : hi ≤ length all → equal_between all hi (length all) →
  ∀ n i start last q need, n = hi - i → i ≤ hi → start ≤ last → last < i →
  equal_between all (S last) i → equal_between all q start → q + need ≤ start →
  gaps_ok all ctx need q
    (hunk_ranges all (Z.of_nat ctx) i (take n (drop i all)) start last).
Proof.
  intros Hhi Htail. induction n as [|n IH]; intros i start last q need Hn Hi Hsl Hli Hmid Hpre Hq.
  - rewrite take_0. cbn [hunk_ranges gaps_ok]. split_and!; try done; [lia|].
    intros k o Hk Hk' Ho. destruct (decide (k < i)); [by eapply Hmid|]. eapply (Htail k); [lia|lia|done].
  - destruct (lookup_lt_is_Some_2 all i) as [op Hop]; [lia|].
    rewrite (drop_S _ _ _ Hop). cbn [take hunk_ranges].
    destruct (is_change op) eqn:Hc.
    + destruct (Z.ltb_spec (Z.of_nat ctx * 2) (equalOpsBetween all (S last) i)) as [Hgap|Hgap].
      * rewrite equalOpsBetween_all in Hgap by (done || lia). cbn [gaps_ok].
        split_and!; try done; [lia|]. apply IH; try lia; [|done].
        intros k o ? ? ?. lia.
      * apply IH; try lia; try done. intros k o ? ? ?. lia.
    + apply IH; try lia; try done. intros k o Hk Hk' Ho.
      destruct (decide (k = i)) as [->|]; [congruence|]. eapply (Hmid k); [lia|lia|done].
Qed.

Lemma old_lines_app l l' : old_lines (l ++ l') = old_lines l ++ old_lines l'.
Proof. apply bind_app. Qed.
Lemma new_lines_app l l' : new_lines (l ++ l') = new_lines l ++ new_lines l'.
Proof. apply bind_app. Qed.

Lemma unchanged_lines l : Forall (λ op, is_change op = false) l → old_lines l = new_lines l.
Proof.
  induction 1 as [|[k t] l Hx _ IH]; [done|]. rewrite old_lines_cons, new_lines_cons, IH.
  rewrite is_change_kind in Hx. by destruct k.
Qed.

Lemma equal_between_Forall all p q : equal_between all p q → Forall (λ op, is_change op = false) (take (q - p) (drop p all)).
Proof.
  intros He. apply Forall_lookup. intros k op [Hk Hlt]%lookup_take_Some. rewrite lookup_drop in Hk.
  eapply (He (p + k)); [lia|lia|done].
Qed.

Lemma diffHunkCounts_lengths l :
  diffHunkCounts l = (Z.of_nat (length (old_lines l)), Z.of_nat (length (new_lines l))).
Proof.
  induction l as [|[k t] l IH]; [done|]. cbn [diffHunkCounts]. rewrite IH, old_lines_cons, new_lines_cons, !length_app.
  unfold old_line at 1, new_line at 1. destruct k; cbn [kind text length]; f_equal; lia.
Qed.

Definition window (all : list diffOp) (ctx f l : nat) : DiffHunk :=
  let s := f - ctx in
  let e := Nat.min (l + ctx + 1) (length all) in
  {| ops := take (e - s) (drop s all);
     oldStart := 1 + Z.of_nat (length (old_lines (take s all)));
     newStart := 1 + Z.of_nat (length (new_lines (take s all))) |}.

Lemma trim_window all ctx f l : f ≤ l → l < length all →
  trimDiffContextRange all f l (Z.of_nat ctx) = Ok (window all ctx f l).
Proof.
  intros Hfl Hl. unfold trimDiffContextRange.
  assert ((if (Z.of_nat f - Z.of_nat ctx <? 0)%Z then 0%Z else (Z.of_nat f - Z.of_nat ctx)%Z) = Z.of_nat (f - ctx)) as ->
    by (destruct (Z.ltb_spec (Z.of_nat f - Z.of_nat ctx) 0); lia).
  set (e := Nat.min (l + ctx + 1) (length all)).
  assert ((if (Z.of_nat (length all) <? Z.of_nat l + Z.of_nat ctx + 1)%Z then Z.of_nat (length all)
           else (Z.of_nat l + Z.of_nat ctx + 1)%Z) = Z.of_nat e) as ->
    by (destruct (Z.ltb_spec (Z.of_nat (length all)) (Z.of_nat l + Z.of_nat ctx + 1)); lia).
  unfold slice_ops.
  rewrite !(proj2 (Z.leb_le _ _)) by lia. cbn [andb res_bind].
  rewrite Z.sub_0_r, !Nat2Z.id, drop_0, diffHunkCounts_lengths. cbn [res_bind].
  unfold window. fold e. do 4 f_equal. lia.
Qed.

Lemma take_mid {A} (l : list A) p q : p ≤ q → take q l = take p l ++ take (q - p) (drop p l).
Proof. intros Hpq. rewrite <- (take_drop p (take q l)) at 1. rewrite take_take, skipn_firstn_comm. f_equal. f_equal. lia. Qed.

Lemma drop_mid {A} (l : list A) p q : p ≤ q → drop p l = take (q - p) (drop p l) ++ drop q l.
Proof.
  intros Hpq. rewrite <- (take_drop (q - p) (drop p l)) at 1. f_equal. rewrite drop_drop. f_equal. lia.
Qed.

Lemma hunks_patch all ctx : ∀ ranges q need p, gaps_ok all ctx need q ranges →
  p ≤ length all → p ≤ q + need - ctx → equal_between all p q →
  ∃ hunks, res_map (λ r, trimDiffContextRange all r.1 r.2 (Z.of_nat ctx)) ranges = Ok hunks
    ∧ apply_hunks (1 + Z.of_nat (length (old_lines (take p all)))) (1 + Z.of_nat (length (new_lines (take p all))))
                  hunks (old_lines (drop p all)) = Some (new_lines (drop p all)).
Proof.
  induction ranges as [|[f l] ranges IH]; intros q need p Hgaps Hp Hpq He; cbn [gaps_ok res_map] in *.
  { exists []. split; [done|]. cbn [apply_hunks]. f_equal. apply unchanged_lines.
    rewrite <- (firstn_all2 (n := length all - p) (drop p all)) by (rewrite length_drop; lia).
    apply equal_between_Forall. intros k op ? ? Hk.
    destruct (decide (k < q)); [by eapply He | eapply (Hgaps k); [lia|lia|done]]. }
  destruct Hgaps as (Hneed & Hfl & Hl & Hpre & Hrest).
  cbn [fst snd]. rewrite trim_window by done. cbn [res_bind].
  set (s := f - ctx). set (e := Nat.min (l + ctx + 1) (length all)).
  assert (p ≤ s) as Hps by lia. assert (s ≤ e) as Hse by lia.
  destruct (IH (S l) (S (2 * ctx)) e Hrest) as (hunks & -> & Happ); [lia|lia|intros k op; lia|].
  cbn [res_bind]. eexists; split; [done|]. cbn [apply_hunks].
  assert (Forall (λ op, is_change op = false) (take (s - p) (drop p all))) as Hgap.
  { apply equal_between_Forall. intros k op ? ? Hk.
    destruct (decide (k < q)); [by eapply He | eapply (Hpre k); [lia|lia|done]]. }
  set (gap := take (s - p) (drop p all)) in *. set (win := take (e - s) (drop s all)).
  assert (drop p all = gap ++ win ++ drop e all) as Hsplit by (rewrite (drop_mid all p s), (drop_mid all s e) by lia; done).
  unfold window. fold s e. cbn [ops oldStart newStart]. fold win.
  assert (take s all = take p all ++ gap) as -> by (by apply take_mid).
  assert (take e all = take p all ++ gap ++ win) as Heq.
  { rewrite (take_mid all s e), (take_mid all p s) by lia. by rewrite <- app_assoc. }
  rewrite Heq in Happ. rewrite Hsplit. rewrite !old_lines_app, !new_lines_app, !length_app in *.
  rewrite <- (unchanged_lines gap) in * by done.
  set (P := length (old_lines (take p all))) in *. set (N := length (new_lines (take p all))) in *.
  replace (Z.to_nat (1 + Z.of_nat (P + length (old_lines gap)) - (1 + Z.of_nat P))) with (length (old_lines gap)) by lia.
  rewrite (proj2 (Z.leb_le _ _)), (proj2 (Nat.leb_le _ _)), (proj2 (Z.eqb_eq _ _)) by (rewrite ?length_app; lia).
  rewrite take_app_length, drop_app_length, take_app_length, bool_decide_eq_true_2, drop_app_length by done.
  cbn [andb].
  replace (1 + Z.of_nat (P + length (old_lines gap)) + Z.of_nat (length (old_lines win)))%Z
    with (1 + Z.of_nat (P + (length (old_lines gap) + length (old_lines win))))%Z by lia.
  replace (1 + Z.of_nat (N + length (old_lines gap)) + Z.of_nat (length (new_lines win)))%Z
    with (1 + Z.of_nat (N + (length (old_lines gap) + length (new_lines win))))%Z by lia.
  rewrite Happ. cbn. by rewrite <- app_assoc.
Qed.

(** The hunks built from any list of operations are a patch. *)
Lemma buildDiffHunks_patch all ctx :
  ∃ hunks, buildDiffHunks all (Z.of_nat ctx) = Ok hunks ∧ apply_hunks 1 1 hunks (old_lines all) = Some (new_lines all).
Proof.
  unfold buildDiffHunks. pose proof (change_bounds_none all 0) as Hb.
  destruct (change_bounds 0 all None 0) as [[f l]|].
  - destruct Hb as (_ & Hfl & Hl & Hpre & Hpost). rewrite Nat.sub_0_r in *.
    destruct (hunks_patch all ctx (hunk_ranges all (Z.of_nat ctx) (S f) (take (l - f) (drop (S f) all)) f f) 0 0 0)
      as (hunks & -> & Happ); [| lia | lia | intros k op; lia | eauto].
    apply (hunk_ranges_ok all ctx (S l)); try done; try lia; try (intros k op ? ?; lia).
  - exists []. split; [done|]. cbn [apply_hunks]. f_equal. apply unchanged_lines.
    apply equal_between_Forall in Hb. by rewrite drop_0, firstn_all2 in Hb by lia.
Qed.

(** ** The size of the output *)
Lemma digits_go_length : ∀ fuel n acc k, (0 ≤ n < 10 ^ Z.of_nat (S k))%Z →
  length (digits_go fuel n acc) ≤ S k + length acc.
Proof.
  induction fuel as [|fuel IH]; intros n acc k Hn; cbn [digits_go]; [lia|].
  destruct (Z.eqb_spec (n / 10) 0) as [|Hne]; [cbn; lia|].
  destruct k as [|k].
  - exfalso. apply Hne, Z.div_small. change (10 ^ Z.of_nat 1)%Z with 10%Z in Hn. lia.
  - etrans; [apply (IH _ _ k)|cbn; lia].
    rewrite Nat2Z.inj_succ, Z.pow_succ_r in Hn by lia.
    split; [apply Z.div_pos; lia | apply Z.div_lt_upper_bound; lia].
Qed.

Lemma itoa_length n : (0 ≤ n < 10 ^ 12)%Z → length (itoa n) ≤ 12.
Proof.
  intros Hn. unfold itoa. destruct (Z.ltb_spec n 0); [lia|].
  etrans; [apply (digits_go_length _ _ _ 11) | cbn; lia]. done.
Qed.

Lemma render_ops_size ops size size' : ops_size size ops = Some size' →
  (Z.of_nat (length (concat (render_op <$> ops))) + size = size')%Z.
Proof.
  revert size; induction ops as [|[k t] ops IH]; intros size; cbn [ops_size]; [intros [= <-]; cbn; lia|].
  destruct (_ <? _)%Z; [done|]. intros Hs. apply IH in Hs. cbn [fmap list_fmap concat].
  rewrite length_app. unfold render_op at 1. rewrite !length_app. cbn [kind text] in *.
  replace (length (op_sign k)) with 1 by (by destruct k). cbn [length]. lia.
Qed.

Definition small_counts (h : DiffHunk) : Prop :=
  (0 ≤ oldStart h < 10 ^ 12 ∧ 0 ≤ newStart h < 10 ^ 12)%Z
  ∧ (Z.of_nat (length (old_lines (ops h))) < 10 ^ 12 ∧ Z.of_nat (length (new_lines (ops h))) < 10 ^ 12)%Z.

Lemma render_hunks_size hunks : Forall small_counts hunks → ∀ size size', hunks_size size hunks = Some size' →
  (Z.of_nat (length (concat (render_hunk <$> hunks))) + size ≤ size')%Z.
Proof.
  induction 1 as [|h hunks [[Ho Hn] [Hco Hcn]] _ IH]; intros size size'; cbn [hunks_size]; [intros [= <-]; cbn; lia|].
  destruct (ops_size (size + 64) (ops h)) as [s|] eqn:Hs; [|done].
  intros Hr. apply IH in Hr. apply render_ops_size in Hs. cbn [fmap list_fmap concat].
  rewrite length_app. unfold render_hunk at 1. rewrite diffHunkCounts_lengths. rewrite !length_app.
  pose proof (itoa_length _ Ho). pose proof (itoa_length _ Hn).
  pose proof (itoa_length _ (conj (Nat2Z.is_nonneg _) Hco)). pose proof (itoa_length _ (conj (Nat2Z.is_nonneg _) Hcn)).
  change (length (§"@@ -")) with 4. change (length (§",")) with 1. change (length (§" +")) with 2.
  change (length (§" @@")) with 3. cbn [length]. lia.
Qed.

Lemma gaps_ranges all ctx ranges : ∀ need q, gaps_ok all ctx need q ranges →
  Forall (λ r, r.1 ≤ r.2 ∧ r.2 < length all) ranges.
Proof.
  induction ranges as [|[f l] ranges IH]; intros need q; cbn [gaps_ok]; [constructor|].
  intros (_ & ? & ? & _ & Hrest). constructor; [done|]. by eapply IH.
Qed.

Lemma take_lines all n : length (old_lines (take n all)) ≤ length (old_lines all)
  ∧ length (new_lines (take n all)) ≤ length (new_lines all).
Proof.
  rewrite <- (take_drop n all) at 2 4. rewrite old_lines_app, new_lines_app, !length_app. lia.
Qed.
Lemma drop_lines all n : length (old_lines (drop n all)) ≤ length (old_lines all)
  ∧ length (new_lines (drop n all)) ≤ length (new_lines all).
Proof.
  rewrite <- (take_drop n all) at 2 4. rewrite old_lines_app, new_lines_app, !length_app. lia.
Qed.

Lemma window_small all ctx f l :
  (Z.of_nat (length (old_lines all)) < 10 ^ 12 - 1)%Z → (Z.of_nat (length (new_lines all)) < 10 ^ 12 - 1)%Z →
  small_counts (window all ctx f l).
Proof.
  intros Ho Hn. unfold small_counts, window. cbn [ops oldStart newStart].
  set (s := f - ctx). set (e := Nat.min _ _).
  pose proof (take_lines all s). pose proof (take_lines (drop s all) (e - s)). pose proof (drop_lines all s). lia.
Qed.

Lemma buildDiffHunks_small all ctx hunks :
  (Z.of_nat (length (old_lines all)) < 10 ^ 12 - 1)%Z → (Z.of_nat (length (new_lines all)) < 10 ^ 12 - 1)%Z →
  buildDiffHunks all (Z.of_nat ctx) = Ok hunks → Forall small_counts hunks.
Proof.
  intros Ho Hn. unfold buildDiffHunks. pose proof (change_bounds_none all 0) as Hb.
  destruct (change_bounds 0 all None 0) as [[f l]|]; [|intros [= <-]; constructor].
  destruct Hb as (_ & Hfl & Hl & Hpre & Hpost). rewrite Nat.sub_0_r in *. intros Hm%res_map_ok.
  assert (gaps_ok all ctx 0 0 (hunk_ranges all (Z.of_nat ctx) (S f) (take (l - f) (drop (S f) all)) f f)) as Hg
    by (apply (hunk_ranges_ok all ctx (S l)); try done; try lia; try (intros k op ? ?; lia)).
  apply gaps_ranges in Hg. revert Hg Hm.
  generalize (hunk_ranges all (Z.of_nat ctx) (S f) (take (l - f) (drop (S f) all)) f f).
  intros ranges Hg Hm. induction Hm as [|r h ranges hunks Hr Hm IH]; [constructor|].
  inversion_clear Hg as [|?? [Hr1 Hr2] Hg']. constructor; [|by apply IH].
  rewrite trim_window in Hr by done. injection Hr as <-. by apply window_small.
Qed.

(** C40: [diffLines] always returns an edit script from the old lines to the
    new lines, and no edit script between them changes fewer lines. *)
Theorem diffLines_minimal a b :
  ∃ ops, diffLines a b = Ok ops ∧ script a b ops ∧ ∀ ops', script a b ops' → changes ops ≤ changes ops'.
Proof.
  destruct (diffLines_ok a b) as (ops & Hd & Hs & Hk). exists ops. split_and!; [done|done|].
  intros ops' Hs'. pose proof (script_counts _ _ _ Hs). pose proof (script_counts _ _ _ Hs').
  pose proof (kept_lcs ops') as Hl. destruct Hs' as [Ho Hn]. rewrite Ho, Hn in Hl. lia.
Qed.

(** The hunks of the diff of two files are a patch: with any
    non-negative number of context lines they are built without error, they
    apply to the old lines at the line numbers they state, and the result is
    the new lines. *)
Lemma diff_hunks_patch a b contextLines : (0 ≤ contextLines)%Z →
  ∃ ops hunks, diffLines a b = Ok ops ∧ buildDiffHunks ops contextLines = Ok hunks
               ∧ apply_hunks 1 1 hunks a = Some b.
Proof.
  intros Hc. destruct (diffLines_ok a b) as (ops & Hd & [<- <-] & _).
  destruct (buildDiffHunks_patch ops (Z.to_nat contextLines)) as (hunks & Hh & Ha).
  rewrite Z2Nat.id in Hh by done. eauto.
Qed.

Lemma diff_hunks_patch_witness :
  ∃ ops hunks, diffLines [§"a"; §"b"; §"c"; §"d"; §"e"] [§"a"; §"x"; §"c"; §"d"; §"e"; §"f"] = Ok ops
               ∧ buildDiffHunks ops 1 = Ok hunks
               ∧ apply_hunks 1 1 hunks [§"a"; §"b"; §"c"; §"d"; §"e"] = Some [§"a"; §"x"; §"c"; §"d"; §"e"; §"f"].
Proof. apply diff_hunks_patch. lia. Defined.

(** [UnifiedDiff] and [editDiff] return for any texts. *)
Lemma UnifiedDiff_total path a b contextLines : (0 ≤ contextLines)%Z → ∃ out, UnifiedDiff path a b contextLines = Ok out.
Proof.
  intros Hc. unfold UnifiedDiff. destruct (diffTooLarge a b); [eauto|].
  destruct (diffLines_ok a b) as (ops & -> & _). cbn [res_bind].
  destruct (buildDiffHunks_patch ops (Z.to_nat contextLines)) as (hunks & Hh & _).
  rewrite Z2Nat.id in Hh by done. rewrite Hh. cbn [res_bind]. case_match; eauto.
Qed.
Lemma editDiff_total path old new ob nb contextLines limit : (0 ≤ contextLines)%Z →
  ∃ out, editDiff path old new ob nb contextLines limit = Ok out.
Proof. intros Hc. unfold editDiff. case_match; [eauto|by apply UnifiedDiff_total]. Qed.

(** For files of fewer than 10^12 - 1 lines and a non-negative number of
    context lines, [UnifiedDiff] returns, and what it returns is at most
    64 KiB long unless it is the short notice that the diff is omitted. *)
Lemma UnifiedDiff_bounded path a b contextLines :
  (0 ≤ contextLines)%Z →
  (Z.of_nat (length a) < 10 ^ 12 - 1)%Z → (Z.of_nat (length b) < 10 ^ 12 - 1)%Z →
  ∃ out, UnifiedDiff path a b contextLines = Ok out
    ∧ ((Z.of_nat (length out) ≤ maxDiffOutputBytes)%Z ∨ ∃ reason, out = omittedDiff path reason).
Proof.
  intros Hc Ha Hb. unfold UnifiedDiff. destruct (diffTooLarge a b); [eauto|].
  destruct (diffLines_ok a b) as (ops & -> & [<- <-] & _). cbn [res_bind].
  destruct (buildDiffHunks_patch ops (Z.to_nat contextLines)) as (hunks & Hh & _).
  pose proof (buildDiffHunks_small _ _ _ Ha Hb Hh) as Hsmall.
  rewrite Z2Nat.id in Hh by done. rewrite Hh. cbn [res_bind].
  unfold diffOutputTooLarge. destruct (hunks_size _ _) as [size|] eqn:Hs; [|eauto].
  destruct (Z.ltb_spec maxDiffOutputBytes size); [eauto|].
  eexists; split; [done|]. left. apply render_hunks_size in Hs; [|done].
  unfold diff_header. rewrite !length_app.
  change (length (§"--- ")) with 4. change (length (§"+++ ")) with 4. cbn [length]. lia.
Qed.

Lemma UnifiedDiff_bounded_witness :
  ∃ out, UnifiedDiff §"f.txt" [§"a"; §"b"] [§"a"; §"c"] 3 = Ok out
    ∧ ((Z.of_nat (length out) ≤ maxDiffOutputBytes)%Z ∨ ∃ reason, out = omittedDiff §"f.txt" reason).
Proof. apply UnifiedDiff_bounded; [lia | done | done]. Defined.
