(* ===== verification/FileSystem.v ===== *)
(** * Files, symbolic links and commit checks ([internal/fileops/rollback.go], [atomic_write.go])

    The part of a Unix file system that [internal/fileops] uses: regular
    files, directories and symbolic links under cleaned absolute paths, which
    are lists of components ([filepath.Dir], [Base] and [Join] are
    [removelast], [last] and [++]). Every write gives a file a new stamp,
    which stands for its identity and modification time. On top of it, the
    functions that resolve the target of a path and check it before a commit.

    An error is its message: wrapping puts text in front of it, so [errors.Is]
    is a test on the end of the message. *)
From S2P Require Import Prelude GoStr.
Open Scope Z_scope.

Abbreviation path := (list gostring).

Inductive node :=
| Regular (data : gostring) (mode stamp : Z)
| Directory
| Link (target : path).
Record fsys := FS { nodes : gmap path node; clock : Z }.

(** ** Errors *)
Definition ErrNotExist : gostring := §"file does not exist".
Definition ErrNotDir : gostring := §"not a directory".
Definition ErrLinks : gostring := §"too many links".
Definition ErrNotRegularFile : gostring := §"rollback target is not a regular file".
Definition ErrRollbackExpired : gostring := §"rollback session expired".
Definition ErrRollbackNotFound : gostring :=
  §"no rollback record: it may have been consumed, replaced, or evicted".
Definition errors_is (e target : gostring) : bool := has_suffix target e.
Definition fileChanged (message : gostring) : gostring := message.

(** ** The operating system *)
Definition lookup_node (fs : fsys) (p : path) : option node :=
  match p with [] => Some Directory | _ => nodes fs !! p end.

(** The walk of [filepath.EvalSymlinks]: [links] symbolic links may still be
    followed; [create] lets the last component be missing, as [O_CREATE] does. *)
Fixpoint walk (links : nat) (fs : fsys) (create : bool) : path → path → res path :=
  fix go (done todo : path) {struct todo} :=
    match todo with
    | [] => Ok done
    | c :: rest =>
      let q := done ++ [c] in
      match lookup_node fs q with
      | None => if create && bool_decide (rest = []) then Ok q else Err ErrNotExist
      | Some Directory => go q rest
      | Some (Regular _ _ _) => if bool_decide (rest = []) then Ok q else Err ErrNotDir
      | Some (Link t) => match links with O => Err ErrLinks | S links => walk links fs create [] (t ++ rest) end
      end
    end.
Definition max_links : nat := 255.
Definition EvalSymlinks (fs : fsys) (p : path) : res path := walk max_links fs false [] p.
Definition base (p : path) : path := match last p with Some c => [c] | None => [] end.
Definition dir (p : path) : path := removelast p.

Record FileInfo := { fi_regular : bool; fi_size : Z; fi_mode : Z; fi_stamp : Z }.
#[export] Instance FileInfo_eq_dec : EqDecision FileInfo.
Proof. solve_decision. Defined.
Definition info_of (n : node) : FileInfo :=
  match n with
  | Regular d m s => {| fi_regular := true; fi_size := Z.of_nat (length d); fi_mode := m; fi_stamp := s |}
  | Directory | Link _ => {| fi_regular := false; fi_size := 0; fi_mode := 0; fi_stamp := 0 |}
  end.
Definition Stat (fs : fsys) (p : path) : res FileInfo :=
  let* q := EvalSymlinks fs p in
  match lookup_node fs q with Some n => Ok (info_of n) | None => Err ErrNotExist end.
(** [os.Lstat]: the last component is not followed. *)
Definition Lstat (fs : fsys) (p : path) : res node :=
  let* d := EvalSymlinks fs (dir p) in
  match lookup_node fs d, lookup_node fs (d ++ base p) with
  | Some Directory, Some n => Ok n
  | Some Directory, None => Err ErrNotExist
  | _, _ => Err ErrNotDir
  end.
Definition read_bytes (fs : fsys) (p : path) : res gostring :=
  let* q := EvalSymlinks fs p in
  match lookup_node fs q with
  | Some (Regular d _ _) => Ok d
  | Some _ => Err §"is a directory"
  | None => Err ErrNotExist
  end.

Definition set_node (fs : fsys) (q : path) (data : gostring) (mode : Z) : fsys :=
  FS (<[q := Regular data mode (clock fs)]> (nodes fs)) (clock fs + 1).

(** [os.WriteFile] writes through links and keeps the mode of a file that exists. *)
Definition WriteFile (fs : fsys) (p : path) (data : gostring) (mode : Z) : res fsys :=
  let* q := walk max_links fs true [] p in
  match lookup_node fs q with
  | Some (Regular _ m _) => Ok (set_node fs q data m)
  | Some _ => Err §"is a directory"
  | None => Ok (set_node fs q data mode)
  end.
(** The rename of a temporary file with these bytes and mode onto [p]. *)
Definition rename_onto (fs : fsys) (p : path) (data : gostring) (mode : Z) : res fsys :=
  let* d := EvalSymlinks fs (dir p) in
  match lookup_node fs d, lookup_node fs (d ++ base p) with
  | Some Directory, Some Directory => Err §"file exists"
  | Some Directory, _ => Ok (set_node fs (d ++ base p) data mode)
  | _, _ => Err ErrNotDir
  end.
(** [os.Remove]; the directories under it keep a directory from being removed. *)
Definition Remove (fs : fsys) (p : path) : res fsys :=
  let* d := EvalSymlinks fs (dir p) in
  match lookup_node fs (d ++ base p) with
  | Some Directory => Err §"directory not empty"
  | Some _ => Ok (FS (delete (d ++ base p) (nodes fs)) (clock fs))
  | None => Err ErrNotExist
  end.
Fixpoint mkdir_walk (fs : fsys) (done todo : path) : res fsys :=
  match todo with
  | [] => Ok fs
  | c :: rest =>
    let q := done ++ [c] in
    match lookup_node fs q with
    | None => mkdir_walk (FS (<[q := Directory]> (nodes fs)) (clock fs)) q rest
    | Some Directory => mkdir_walk fs q rest
    | Some (Regular _ _ _) => Err ErrNotDir
    | Some (Link _) =>
      let* t := EvalSymlinks fs q in
      match lookup_node fs t with Some Directory => mkdir_walk fs t rest | _ => Err ErrNotDir end
    end
  end.
Definition MkdirAll (fs : fsys) (p : path) : res fsys := mkdir_walk fs [] p.

(** ** Resolution of a target *)

(** The loop over the parents of a path that does not exist. Each round takes
    one component off [parent], so [S (length parent)] rounds are enough. *)
Fixpoint resolve_parent (fuel : nat) (fs : fsys) (parent suffix : path) : res path :=
  match fuel with
  | O => Panic
  | S fuel =>
    match EvalSymlinks fs parent with
    | Ok resolved => Ok (resolved ++ suffix)
    | Panic => Panic
    | Err e =>
      if negb (errors_is e ErrNotExist) || bool_decide (dir parent = parent) then Err e
      else
        match Lstat fs parent with
        | Ok _ => Err e
        | Panic => Panic
        | Err _ => resolve_parent fuel fs (dir parent) (base parent ++ suffix)
        end
    end
  end.
Definition ResolveFileTarget (fs : fsys) (p : path) (allowCreate : bool) : res path :=
  match EvalSymlinks fs p with
  | Ok target =>
    let* info := Stat fs target in
    if fi_regular info then Ok target else Err ErrNotRegularFile
  | Panic => Panic
  | Err e =>
    if negb allowCreate || negb (errors_is e ErrNotExist) then Err e
    else
      match Lstat fs p with
      | Ok _ => Err e
      | Panic => Panic
      | Err _ => resolve_parent (S (length p)) fs (dir p) (base p)
      end
  end.

(** ** Checks before a commit *)
Definition checkFileTarget (fs : fsys) (p target : path) (allowCreate : bool) : res unit :=
  let* current := ResolveFileTarget fs p allowCreate in
  if bool_decide (current = target) then Ok tt
  else Err (fileChanged §"file target changed; operation refused").
Definition checkRollbackFileTarget (fs : fsys) (p target : path) : res unit :=
  match checkFileTarget fs p target false with
  | Err e => Err (if errors_is e ErrNotExist then ErrRollbackNotFound else e)
  | r => r
  end.
Definition readRevisionBytes (fs : fsys) (p : path) (size : Z) : res gostring :=
  let* data := read_bytes fs p in
  if Z.of_nat (length (take (Z.to_nat (size + 1)) data)) =? size then Ok (take (Z.to_nat (size + 1)) data)
  else Err (fileChanged §"file changed after edit; rollback refused").
Definition checkFileState (fs : fsys) (p : path) (created : bool) (previous : option FileInfo) : res unit :=
  if created then
    match Lstat fs p with
    | Ok _ => Err (fileChanged §"file appeared after preflight; edit refused")
    | Err e => if errors_is e ErrNotExist then Ok tt else Err e
    | Panic => Panic
    end
  else
    let* info := Stat fs p in
    if negb (fi_regular info) then Err ErrNotRegularFile
    else if bool_decide (previous = Some info) then Ok tt
    else Err (fileChanged §"file changed before commit").

(** [crypto/sha256] is a parameter. *)
Class Hash := { sha256 : gostring → gostring }.
Section State.
Context `{Hash}.

Definition ContentRevision (data : gostring) : gostring :=
  concat (map (λ c, hex2 (byte_val c)) (take 8 (sha256 data))).

Definition inspectFileState (fs : fsys) (p : path) (created : bool) (revision : gostring) (size : Z)
  : res (option FileInfo) :=
  if created then let* _ := checkFileState fs p true None in Ok None
  else
    let* info := Stat fs p in
    if negb (fi_regular info) then Err ErrNotRegularFile
    else if negb (fi_size info =? size) then Err (fileChanged §"file changed before commit")
    else
      let* data := readRevisionBytes fs p size in
      if negb (bool_decide (ContentRevision data = revision)) then Err (fileChanged §"file changed before commit")
      else let* _ := checkFileState fs p false (Some info) in Ok (Some info).
End State.

(** [atomicWriteFile] up to [beforeCommit] (the temporary file is made beside
    the destination), and from there on. *)
Definition is_symlink (fs : fsys) (p : path) : bool :=
  match Lstat fs p with Ok (Link _) => true | _ => false end.
Definition prepare_temp (fs : fsys) (p : path) : res unit :=
  if is_symlink fs p then Ok tt
  else
    let* d := res_wrap §"create temp file: " (EvalSymlinks fs (dir p)) in
    match lookup_node fs d with Some Directory => Ok tt | _ => Err (§"create temp file: " ++ ErrNotDir) end.
Definition commit_write (link : bool) (fs : fsys) (p : path) (data : gostring) (mode : Z) : res fsys :=
  if link then WriteFile fs p data mode else rename_onto fs p data mode.
Definition atomicWriteFile (fs : fsys) (p : path) (data : gostring) (mode : Z) (beforeCommit : fsys → res unit)
  : res fsys :=
  let link := is_symlink fs p in
  let* _ := prepare_temp fs p in
  let* _ := beforeCommit fs in
  commit_write link fs p data mode.

(** * Properties of target resolution and of the commit checks *)

(** ** Walks *)

(** One round of the walk. *)
Lemma walk_cons links fs create done c rest :
  walk links fs create done (c :: rest) =
    let q := done ++ [c] in
    match lookup_node fs q with
    | None => if create && bool_decide (rest = []) then Ok q else Err ErrNotExist
    | Some Directory => walk links fs create q rest
    | Some (Regular _ _ _) => if bool_decide (rest = []) then Ok q else Err ErrNotDir
    | Some (Link t) => match links with O => Err ErrLinks | S links => walk links fs create [] (t ++ rest) end
    end.
Proof. destruct links; reflexivity. Qed.
Lemma walk_nil links fs create done : walk links fs create done [] = Ok done.
Proof. destruct links; reflexivity. Qed.

(** Induction along a walk: on the links that may be followed, then on the components. *)
Lemma walk_ind (P : nat → path → path → Prop) :
  (∀ links done, P links done []) →
  (∀ links done c rest, P links (done ++ [c]) rest →
     (∀ links' t, links = S links' → P links' [] (t ++ rest)) → P links done (c :: rest)) →
  ∀ links done todo, P links done todo.
Proof.
  intros Hnil Hcons links. induction links as [|links IHl]; intros done todo; revert done;
    (induction todo as [|c rest IH]; intros done; [apply Hnil|apply Hcons; [apply IH|]]).
  - intros ?? [=].
  - intros ? t [= <-]. apply IHl.
Qed.

Lemma walk_not_panic fs create : ∀ links done todo, walk links fs create done todo ≠ Panic.
Proof.
  apply walk_ind; [intros; by rewrite walk_nil|]. intros links done c rest IH IHl. rewrite walk_cons. cbv zeta.
  destruct (lookup_node fs (done ++ [c])) as [[d m s| |t]|].
  - by case_bool_decide.
  - exact IH.
  - destruct links as [|links]; [done|]. by apply IHl.
  - by destruct (create && bool_decide (rest = [])).
Qed.

(** A walk that may create agrees with one that may not where that succeeds. *)
Lemma walk_create fs t : ∀ links done todo, walk links fs false done todo = Ok t → walk links fs true done todo = Ok t.
Proof.
  apply (walk_ind (λ links done todo, walk links fs false done todo = Ok t → walk links fs true done todo = Ok t));
    [intros links done; by rewrite !walk_nil|].
  intros links done c rest IH IHl. rewrite !walk_cons. cbv zeta.
  destruct (lookup_node fs (done ++ [c])) as [[d m s| |t']|]; [done|exact IH| |done].
  destruct links as [|links]; [done|]. by apply IHl.
Qed.

(** Where a walk ends: at an existing node that is not a link. *)
Definition settled (fs : fsys) (q : path) : Prop :=
  match lookup_node fs q with Some (Link _) | None => False | _ => True end.
(** The result of a walk is canonical: every directory on the way is a real
    one, so walking it again stays there. *)
Definition dirs (fs : fsys) (q : path) : Prop := ∀ a, a `prefix_of` q → lookup_node fs a = Some Directory.
Definition canonical (fs : fsys) (q : path) : Prop := settled fs q ∧ dirs fs (dir q).

Lemma prefix_snoc_inv (b a : path) c : b `prefix_of` a ++ [c] → b = a ++ [c] ∨ b `prefix_of` a.
Proof.
  intros [k Hk]. destruct k as [|x k _] using rev_ind.
  - left. by rewrite app_nil_r in Hk.
  - right. rewrite app_assoc in Hk. apply app_inj_tail in Hk as [-> _]. by exists k.
Qed.
Lemma dirs_nil fs : dirs fs [].
Proof. by intros a ->%prefix_nil_inv. Qed.
Lemma dirs_snoc fs d c : dirs fs d → lookup_node fs (d ++ [c]) = Some Directory → dirs fs (d ++ [c]).
Proof. intros Hd Hc a [->|Ha]%prefix_snoc_inv; auto. Qed.
Lemma dirs_canonical fs d : dirs fs d → canonical fs d.
Proof.
  intros Hd. split; [unfold settled; by rewrite (Hd d)|]. intros a Ha. apply Hd. etrans; [done|].
  destruct d as [|c d] using rev_ind; [done|]. unfold dir. rewrite removelast_last. by exists [c].
Qed.
Lemma walk_canonical fs t : ∀ links done todo, walk links fs false done todo = Ok t → dirs fs done → canonical fs t.
Proof.
  apply (walk_ind (λ links done todo, walk links fs false done todo = Ok t → dirs fs done → canonical fs t));
    [intros links done; rewrite walk_nil; intros [= <-]; apply dirs_canonical|].
  intros links done c rest IH IHl. rewrite walk_cons. cbv zeta.
  destruct (lookup_node fs (done ++ [c])) as [[d m s| |t']|] eqn:Hq; [| | |done]; intros Hw Hd.
  - case_bool_decide; simplify_eq. split; [unfold settled; by rewrite Hq|]. unfold dir. by rewrite removelast_last.
  - by apply IH, dirs_snoc.
  - destruct links as [|links]; [done|]. eapply IHl; [done|done|apply dirs_nil].
Qed.
Lemma EvalSymlinks_canonical fs p t : EvalSymlinks fs p = Ok t → canonical fs t.
Proof. intros H. eapply walk_canonical; [done|apply dirs_nil]. Qed.
Lemma walk_dirs fs create : ∀ links done todo rest, dirs fs (done ++ todo) →
  walk links fs create done (todo ++ rest) = walk links fs create (done ++ todo) rest.
Proof.
  intros links done todo. revert done. induction todo as [|c todo IH]; intros done rest Hd; [by rewrite app_nil_r|].
  rewrite <- app_comm_cons, walk_cons. cbv zeta. rewrite (Hd (done ++ [c])).
  - rewrite IH by (by rewrite <- app_assoc). by rewrite <- app_assoc.
  - exists todo. by rewrite <- app_assoc.
Qed.
Lemma canonical_walk fs create links q : canonical fs q → walk links fs create [] q = Ok q.
Proof.
  intros [Hs Hd]. destruct q as [|c q _] using rev_ind; [by rewrite walk_nil|].
  unfold dir in Hd. rewrite removelast_last in Hd. rewrite walk_dirs, app_nil_l, walk_cons by done. cbv zeta.
  unfold settled in Hs. destruct (lookup_node fs (q ++ [c])) as [[]|]; try done. by rewrite walk_nil.
Qed.
Lemma EvalSymlinks_idempotent fs p t : EvalSymlinks fs p = Ok t → EvalSymlinks fs t = Ok t.
Proof. intros H. by eapply canonical_walk, EvalSymlinks_canonical. Qed.

(** The last component of a walk, when it is not a link. *)
Lemma walk_snoc fs c t : ∀ links done a, walk links fs false done (a ++ [c]) = Ok t →
  ∃ d, walk links fs false done a = Ok d ∧
       match lookup_node fs (d ++ [c]) with Some (Link _) => True | Some _ => t = d ++ [c] | None => False end.
Proof.
  apply (walk_ind (λ links done a, walk links fs false done (a ++ [c]) = Ok t →
    ∃ d, walk links fs false done a = Ok d ∧
       match lookup_node fs (d ++ [c]) with Some (Link _) => True | Some _ => t = d ++ [c] | None => False end)).
  - intros links done. rewrite app_nil_l, walk_cons. cbv zeta. intros Hw. exists done. rewrite walk_nil. split; [done|].
    destruct (lookup_node fs (done ++ [c])) as [[d m s| |t']|] eqn:Hq; [| |done|done].
    + by injection Hw.
    + rewrite walk_nil in Hw. by injection Hw.
  - intros links done x rest IH IHl. rewrite <- app_comm_cons, !walk_cons. cbv zeta.
    destruct (lookup_node fs (done ++ [x])) as [[d m s| |t']|] eqn:Hq; [| | |done].
    + rewrite bool_decide_eq_false_2; [done|]. by destruct rest.
    + exact IH.
    + destruct links as [|links]; [done|]. rewrite app_assoc. by apply IHl.
Qed.

(** ** Paths *)
Lemma path_split (p : path) : p ≠ [] → ∃ c, base p = [c] ∧ p = dir p ++ [c].
Proof.
  destruct p as [|c p] using rev_ind; [done|]. intros _. exists c. unfold base, dir.
  by rewrite last_snoc, removelast_last.
Qed.
Lemma errors_is_refl e : errors_is e e = true.
Proof. unfold errors_is, has_suffix. apply has_prefix_spec. exists []. by rewrite app_nil_r. Qed.

(** What [os.Lstat] sees of a path that resolves. *)
Lemma Lstat_resolved fs p t : p ≠ [] → EvalSymlinks fs p = Ok t →
  ∃ d, EvalSymlinks fs (dir p) = Ok d ∧
       match lookup_node fs (d ++ base p) with Some (Link _) => True | Some _ => t = d ++ base p | None => False end.
Proof.
  intros Hp Ht. destruct (path_split p Hp) as (c & Hb & Hs). rewrite Hs in Ht.
  apply walk_snoc in Ht as (d & Hd & Hc). exists d. by rewrite Hb.
Qed.

(** ** Termination of the loop over the parents *)
Lemma dir_shorter p : dir p ≠ p → (length (dir p) < length p)%nat.
Proof.
  destruct p as [|c p] using rev_ind; [done|]. unfold dir. rewrite removelast_last, length_app. simpl. lia.
Qed.
Lemma Lstat_not_panic fs p : Lstat fs p ≠ Panic.
Proof.
  unfold Lstat, EvalSymlinks. destruct (walk max_links fs false [] (dir p)) eqn:He; simpl; [|done|by apply walk_not_panic in He].
  by repeat case_match.
Qed.
Lemma resolve_parent_total fs : ∀ fuel parent suffix, (length parent < fuel)%nat →
  resolve_parent fuel fs parent suffix ≠ Panic.
Proof.
  induction fuel as [|fuel IH]; intros parent suffix Hf; [lia|]. simpl.
  destruct (EvalSymlinks fs parent) eqn:He; [done| |by apply walk_not_panic in He].
  destruct (negb (errors_is e ErrNotExist) || bool_decide (dir parent = parent)) eqn:Hc; [done|]. propify.
  destruct (Lstat fs parent) eqn:Hl; [done| |by apply Lstat_not_panic in Hl].
  apply IH. pose proof (dir_shorter parent). unfold base, dir in *. intuition lia.
Qed.

Lemma eval_error fs p : (∀ t, EvalSymlinks fs p ≠ Ok t) → ∃ e, EvalSymlinks fs p = Err e.
Proof.
  intros H. destruct (EvalSymlinks fs p) as [t|e|] eqn:He; [by destruct (H t)|by exists e|].
  by apply walk_not_panic in He.
Qed.
Lemma resolve_parent_found fs t : ∀ fuel parent suffix, resolve_parent fuel fs parent suffix = Ok t →
  ∃ a mid q, parent = a ++ mid ∧ EvalSymlinks fs a = Ok q ∧ t = q ++ mid ++ suffix
    ∧ ∀ b, a `prefix_of` b → b `prefix_of` parent → a ≠ b → ∃ e, EvalSymlinks fs b = Err e.
Proof.
  induction fuel as [|fuel IH]; intros parent suffix; [done|]. simpl.
  destruct (EvalSymlinks fs parent) as [q|e|] eqn:He; [|destruct (negb _ || _) eqn:Hc; [done|]|done].
  - intros [= <-]. exists parent, [], q. split_and!; [by rewrite app_nil_r|done|done|].
    intros b Hab Hbp Hne. by destruct Hne; apply (anti_symm prefix).
  - destruct (Lstat fs parent); [done| |done]. intros (a & mid & q & Hs & Hq & Ht & Hb)%IH. propify.
    assert (parent ≠ []) as Hn by (intros ->; by destruct Hc). destruct (path_split parent Hn) as (c & Hbase & Hp).
    exists a, (mid ++ [c]), q. rewrite Hbase in Ht. split_and!; [by rewrite app_assoc, <- Hs|done|by rewrite <- app_assoc|].
    intros b Hab Hbp Hne. rewrite Hp in Hbp. apply prefix_snoc_inv in Hbp as [->|Hbp]; [|by apply Hb].
    rewrite <- Hp. by exists e.
Qed.

Lemma resolve_cases fs p create :
  ResolveFileTarget fs p create ≠ Panic
  ∧ ∀ t, ResolveFileTarget fs p create = Ok t →
      (EvalSymlinks fs p = Ok t ∧ ∃ d m s, lookup_node fs t = Some (Regular d m s))
      ∨ (create = true ∧ (∃ e, Lstat fs p = Err e)
         ∧ ∃ a suffix q, p = a ++ suffix ∧ suffix ≠ [] ∧ EvalSymlinks fs a = Ok q ∧ t = q ++ suffix ∧ settled fs q
           ∧ ∀ b, a `prefix_of` b → b `prefix_of` p → a ≠ b → ∃ e, EvalSymlinks fs b = Err e).
Proof.
  unfold ResolveFileTarget. destruct (EvalSymlinks fs p) as [q|e|] eqn:He; [| |by apply walk_not_panic in He].
  - unfold Stat. rewrite (EvalSymlinks_idempotent _ _ _ He). simpl.
    destruct (EvalSymlinks_canonical _ _ _ He) as [Hq _]. unfold settled in Hq.
    destruct (lookup_node fs q) as [[d m s| |]|] eqn:Hn; try done. simpl. split; [done|]. intros t [= <-]. left.
    split; [done|]. by exists d, m, s.
  - destruct (negb create || _) eqn:Hc; [done|]. propify. destruct Hc as [-> Hne].
    destruct (Lstat fs p) as [|e'|] eqn:Hl; [done| |by apply Lstat_not_panic in Hl].
    split; [apply resolve_parent_total; unfold dir; destruct p as [|c p _] using rev_ind;
            [|rewrite removelast_last, length_app]; simpl; lia|].
    intros t Ht. right. split_and!; [done|by exists e'|].
    apply resolve_parent_found in Ht as (a & mid & q & Hs & Hq & -> & Hb).
    assert (p ≠ []) as Hp by (by intros ->). destruct (path_split p Hp) as (c & Hbase & Hps). rewrite Hbase.
    exists a, (mid ++ [c]), q. split_and!; [by rewrite app_assoc, <- Hs|by destruct mid|done|done|
      by apply EvalSymlinks_canonical in Hq as []|].
    intros b Hab Hbp Hab'. rewrite Hps in Hbp. apply prefix_snoc_inv in Hbp as [->|Hbp]; [|by apply Hb].
    rewrite <- Hps. by exists e.
Qed.

(** The loop of [ResolveFileTarget] over the parents of a new file always
    ends, for any file system, links that form cycles included, and the target
    it gives is resolved: either it exists as a regular file, or its longest
    existing parent is the one the path's parent resolves to and the path
    itself is no dangling link. *)
Lemma ResolveFileTarget_resolves fs p create :
  ResolveFileTarget fs p create ≠ Panic
  ∧ ∀ t, ResolveFileTarget fs p create = Ok t →
      (EvalSymlinks fs p = Ok t ∧ ∃ d m s, lookup_node fs t = Some (Regular d m s))
      ∨ (create = true ∧ (∃ e, Lstat fs p = Err e)
         ∧ ∃ a suffix q, p = a ++ suffix ∧ suffix ≠ [] ∧ EvalSymlinks fs a = Ok q ∧ t = q ++ suffix ∧ settled fs q
           ∧ ∀ b, a `prefix_of` b → b `prefix_of` p → a ≠ b → ∃ e, EvalSymlinks fs b = Err e).
Proof. apply resolve_cases. Qed.

Definition example_fs : fsys :=
  FS {[ [§"home"] := Directory; [§"home"; §"a.txt"] := Regular §"one" 420 1; [§"link"] := Link [§"home"];
        [§"loop"] := Link [§"loop"] ]} 2.
Lemma ResolveFileTarget_resolves_witness :
  ResolveFileTarget example_fs [§"link"; §"a.txt"] false = Ok [§"home"; §"a.txt"]
  ∧ ResolveFileTarget example_fs [§"link"; §"new"; §"b"] true = Ok [§"home"; §"new"; §"b"]
  ∧ ResolveFileTarget example_fs [§"loop"] true ≠ Panic.
Proof.
  split_and!; [vm_compute; reflexivity|vm_compute; reflexivity|]. apply ResolveFileTarget_resolves.
Defined.

(** ** Commits *)

(** When the parent of a new path resolves, it is the parent that was found. *)
Lemma parent_found fs p a suffix q d : p = a ++ suffix → suffix ≠ [] → EvalSymlinks fs a = Ok q → EvalSymlinks fs (dir p) = Ok d →
  (∀ b, a `prefix_of` b → b `prefix_of` p → a ≠ b → ∃ e, EvalSymlinks fs b = Err e) →
  d = q ∧ base p = suffix ∧ dir p = a.
Proof.
  intros Hp Hne Hq Hd Hb.
  assert (base p = suffix ∧ dir p = a) as [Hbase Hdir].
  { destruct suffix as [|c suffix _] using rev_ind; [done|]. rewrite app_assoc in Hp.
    assert (base p = [c] ∧ dir p = a ++ suffix) as [Hbase Hdir]
      by (rewrite Hp; unfold base, dir; by rewrite last_snoc, removelast_last).
    destruct (decide (suffix = [])) as [->|Hs]; [by rewrite app_nil_r in Hdir|]. exfalso.
    destruct (Hb (dir p)) as [e' He']; [rewrite Hdir; by exists suffix|rewrite Hdir; by exists [c]|
      intros Ha; apply Hs; apply (app_inv_head a); by rewrite app_nil_r, <- Hdir|by rewrite Hd in He']. }
  rewrite Hdir in Hd. rewrite Hd in Hq. injection Hq as ->. done.
Qed.

(** A write through the checked path changes the checked target only. *)
Lemma commit_write_target fs p target created data mode fs' :
  checkFileTarget fs p target created = Ok tt → commit_write (is_symlink fs p) fs p data mode = Ok fs' →
  ∃ m, fs' = set_node fs target data m
       ∧ match lookup_node fs target with
         | Some (Regular _ m0 _) => EvalSymlinks fs p = Ok target ∧ (m = m0 ∨ m = mode)
         | Some _ => False
         | None => m = mode
         end.
Proof.
  intros Hc Hw. unfold checkFileTarget in Hc. apply res_bind_ok in Hc as (t & Ht & Hc). case_bool_decide; [subst t|done].
  destruct (proj2 (resolve_cases fs p created) target Ht)
    as [(He & d & m & s & Hn)|(-> & (e & Hl) & a & suffix & q & Hp & Hne & Hq & -> & Hset & Hb)].
  - assert (p ≠ []) as Hp by (intros ->; vm_compute in He; simplify_eq; done).
    destruct (Lstat_resolved fs p target Hp He) as (d' & Hd & Hlast). unfold commit_write, is_symlink, Lstat in Hw.
    rewrite Hd in Hw. simpl in Hw. destruct (EvalSymlinks_canonical _ _ _ Hd) as [Hsd _].
    destruct (lookup_node fs (d' ++ base p)) as [n|] eqn:Hn'; [|done]. unfold settled in Hsd.
    destruct (lookup_node fs d') as [[]|] eqn:Hd'; try done; [exfalso| ].
    + unfold rename_onto in Hw. rewrite Hd in Hw. simpl in Hw. by rewrite Hd' in Hw.
    + destruct n as [d0 m0 s0| |t'].
      * unfold rename_onto in Hw. rewrite Hd in Hw. simpl in Hw. rewrite Hd', Hn' in Hw. simplify_eq. exists mode.
        rewrite Hn'. split_and!; [done|done|by right].
      * unfold rename_onto in Hw. rewrite Hd in Hw. simpl in Hw. by rewrite Hd', Hn' in Hw.
      * unfold WriteFile in Hw. rewrite (walk_create _ _ _ _ _ He) in Hw. simpl in Hw. rewrite Hn in Hw. simplify_eq.
        exists m. rewrite Hn. split_and!; [done|done|by left].
  - unfold commit_write, is_symlink in Hw. rewrite Hl in Hw. unfold rename_onto in Hw.
    apply res_bind_ok in Hw as (d & Hd & Hw). unfold Lstat in Hl. rewrite Hd in Hl. simpl in Hl.
    destruct (parent_found fs p a suffix q d Hp Hne Hq Hd Hb) as (-> & Hbase & Hdir). rewrite Hbase in *.
    destruct (lookup_node fs q) as [[]|]; try done. destruct (lookup_node fs (q ++ suffix)) as [n|]; [done|].
    simplify_eq. by exists mode.
Qed.

(** ** Reading back what was written *)

(** A component that is not a link ends a walk whose parent resolves. *)
Lemma walk_snoc_end fs create c d : ∀ links done a, walk links fs false done a = Ok d →
  lookup_node fs d = Some Directory →
  match lookup_node fs (d ++ [c]) with Some (Regular _ _ _) => True | None => create = true | _ => False end →
  walk links fs create done (a ++ [c]) = Ok (d ++ [c]).
Proof.
  apply (walk_ind (λ links done a, walk links fs false done a = Ok d → lookup_node fs d = Some Directory →
    match lookup_node fs (d ++ [c]) with Some (Regular _ _ _) => True | None => create = true | _ => False end →
    walk links fs create done (a ++ [c]) = Ok (d ++ [c]))).
  - intros links done. rewrite walk_nil. intros [= ->] _ Hc. rewrite app_nil_l, walk_cons. cbv zeta.
    by destruct (lookup_node fs (d ++ [c])) as [[]|]; subst; try done; rewrite ?bool_decide_eq_true_2 by done.
  - intros links done x rest IH IHl. rewrite <- app_comm_cons, !walk_cons. cbv zeta.
    destruct (lookup_node fs (done ++ [x])) as [[d0 m s| |t']|] eqn:Hq; [| | |done]; intros Hw Hd Hc.
    + case_bool_decide; [|done]. by simplify_eq.
    + by apply IH.
    + destruct links as [|links]; [done|]. rewrite app_assoc. by apply IHl.
Qed.
Lemma walk_after_write fs q data mode : q ≠ [] →
  match lookup_node fs q with Some (Regular _ _ _) | None => True | _ => False end →
  ∀ links done todo, walk links fs true done todo = Ok q → done ≠ q →
    walk links (set_node fs q data mode) false done todo = Ok q.
Proof.
  intros Hq Hn. apply (walk_ind (λ links done todo, walk links fs true done todo = Ok q → done ≠ q →
    walk links (set_node fs q data mode) false done todo = Ok q)); [intros links done; rewrite walk_nil; by intros [= ->]|].
  intros links done c rest IH IHl. rewrite !walk_cons. cbv zeta.
  assert (lookup_node (set_node fs q data mode) (done ++ [c]) =
          if decide (done ++ [c] = q) then Some (Regular data mode (clock fs)) else lookup_node fs (done ++ [c])) as ->.
  { unfold set_node. destruct q as [|x q]; [done|]. case_decide as Hd; [rewrite Hd; simpl; by rewrite lookup_insert_eq|].
    destruct (done ++ [c]) eqn:He; [by destruct done|]. simpl. rewrite lookup_insert_ne by congruence. done. }
  case_decide as Hd.
  - subst q. destruct (lookup_node fs (done ++ [c])) as [[]|]; [|done|done|]; simpl; case_bool_decide; by intros.
  - destruct (lookup_node fs (done ++ [c])) as [[d m s| |t']|]; intros Hw Hne.
    + case_bool_decide; by simplify_eq.
    + by apply IH.
    + destruct links as [|links]; [done|]. by eapply IHl.
    + simpl in Hw. case_bool_decide; by simplify_eq.
Qed.

(** A write through a path is read back through it. *)
Lemma commit_write_read fs p data mode fs' :
  commit_write (is_symlink fs p) fs p data mode = Ok fs' → read_bytes fs' p = Ok data.
Proof.
  intros Hw.
  assert (∃ q m, walk max_links fs true [] p = Ok q ∧ q ≠ [] ∧ fs' = set_node fs q data m
          ∧ match lookup_node fs q with Some (Regular _ _ _) | None => True | _ => False end) as (q & m & Hq & Hne & -> & Hn).
  { unfold commit_write in Hw. destruct (is_symlink fs p) eqn:Hl.
    - unfold WriteFile in Hw. apply res_bind_ok in Hw as (q & Hq & Hw). exists q.
      destruct (lookup_node fs q) as [[]|] eqn:Hn; simplify_eq;
        (eexists; split_and!; [done| |done|done]); intros ->; by simpl in Hn.
    - unfold rename_onto in Hw. apply res_bind_ok in Hw as (d & Hd & Hw).
      destruct (lookup_node fs d) as [[]|] eqn:Hdn; try done.
      destruct (decide (p = [])) as [->|Hp]; [unfold dir, base, EvalSymlinks in *; simpl in *; by simplify_eq|].
      destruct (path_split p Hp) as (c & Hb & Hps). unfold is_symlink, Lstat in Hl. rewrite Hd, Hb in Hl. simpl in Hl.
      rewrite Hdn in Hl. rewrite Hb in Hw. exists (d ++ [c]), mode.
      destruct (lookup_node fs (d ++ [c])) as [[]|] eqn:Hn; try done; simplify_eq;
        (split_and!; [rewrite Hps; apply walk_snoc_end; [done|done|by rewrite Hn]|by destruct d|done|done]). }
  unfold read_bytes, EvalSymlinks. rewrite (walk_after_write _ _ _ _ Hne Hn _ _ _ Hq) by done. simpl.
  destruct q; [done|]. simpl. by rewrite lookup_insert_eq.
Qed.

Lemma commit_write_resolves fs p target created data mode fs' :
  checkFileTarget fs p target created = Ok tt → commit_write (is_symlink fs p) fs p data mode = Ok fs' →
  EvalSymlinks fs' p = Ok target.
Proof.
  intros Hc Hw. destruct (commit_write_target _ _ _ _ _ _ _ Hc Hw) as (m & -> & Hm).
  unfold checkFileTarget in Hc. apply res_bind_ok in Hc as (t & Ht & Hc). case_bool_decide; [subst t|done].
  assert (target ≠ []) as Hne by (intros ->; by simpl in Hm).
  assert (match lookup_node fs target with Some (Regular _ _ _) | None => True | _ => False end) as Hn
    by (by destruct (lookup_node fs target) as [[]|]).
  unfold EvalSymlinks. apply walk_after_write; [done|done| |done].
  destruct (proj2 (resolve_cases fs p created) target Ht)
    as [(He & _)|(-> & (e & Hl) & a & suffix & q & Hp & Hs & Hq & -> & Hset & Hb)]; [by apply walk_create|].
  unfold commit_write, is_symlink in Hw. rewrite Hl in Hw. unfold rename_onto in Hw.
  apply res_bind_ok in Hw as (d & Hd & Hw).
  destruct (parent_found fs p a suffix q d Hp Hs Hq Hd Hb) as (-> & Hbase & Hdir).
  destruct (path_split p) as (c & Hbc & Hps); [intros ->; by destruct a, suffix|].
  rewrite Hbc in Hbase. subst suffix. rewrite Hps. destruct (lookup_node fs q) as [[]|] eqn:Hqn; try done.
  apply walk_snoc_end; [done|done|]. by destruct (lookup_node fs (q ++ [c])) as [[]|].
Qed.

(** ** A regular file at its canonical path *)
Record file_at (fs : fsys) (t : path) (d : gostring) (m s : Z) : Prop := {
  fa_canonical : canonical fs t;
  fa_node : lookup_node fs t = Some (Regular d m s)
}.
Section FileAt.
Variables (fs : fsys) (t : path) (d : gostring) (m s : Z).
Hypothesis Hfile : file_at fs t d m s.

Lemma fa_eval : EvalSymlinks fs t = Ok t.
Proof. apply canonical_walk, Hfile. Qed.
Lemma fa_stat : Stat fs t = Ok (info_of (Regular d m s)).
Proof. unfold Stat. rewrite fa_eval. simpl. by rewrite (fa_node _ _ _ _ _ Hfile). Qed.
Lemma fa_read : read_bytes fs t = Ok d.
Proof. unfold read_bytes. rewrite fa_eval. simpl. by rewrite (fa_node _ _ _ _ _ Hfile). Qed.
Lemma fa_resolve p c : EvalSymlinks fs p = Ok t → ResolveFileTarget fs p c = Ok t.
Proof. intros Hp. unfold ResolveFileTarget. rewrite Hp, fa_stat. done. Qed.
Lemma fa_target p : EvalSymlinks fs p = Ok t → checkRollbackFileTarget fs p t = Ok tt.
Proof.
  intros Hp. unfold checkRollbackFileTarget, checkFileTarget. rewrite (fa_resolve p false Hp). simpl.
  by rewrite bool_decide_eq_true_2.
Qed.
Lemma fa_parent : ∃ c, base t = [c] ∧ t = dir t ++ base t ∧ EvalSymlinks fs (dir t) = Ok (dir t) ∧ lookup_node fs (dir t) = Some Directory.
Proof.
  destruct Hfile as [[_ Hd] Hn]. destruct (path_split t) as (c & Hb & Ht); [by intros ->|].
  exists c. split_and!; [done|by rewrite Hb|by apply canonical_walk, dirs_canonical|by apply Hd].
Qed.
Lemma fa_lstat : Lstat fs t = Ok (Regular d m s).
Proof.
  destruct fa_parent as (c & Hb & Ht & He & Hn). unfold Lstat. rewrite He. simpl. rewrite Hn, <- Ht.
  by rewrite (fa_node _ _ _ _ _ Hfile).
Qed.
Lemma fa_not_link : is_symlink fs t = false.
Proof. unfold is_symlink. by rewrite fa_lstat. Qed.
Lemma fa_temp : prepare_temp fs t = Ok tt.
Proof.
  destruct fa_parent as (c & Hb & Ht & He & Hn). unfold prepare_temp. rewrite fa_not_link, He. simpl. by rewrite Hn.
Qed.
Lemma fa_rename data mode : rename_onto fs t data mode = Ok (set_node fs t data mode).
Proof.
  destruct fa_parent as (c & Hb & Ht & He & Hn). unfold rename_onto. rewrite He. simpl. rewrite Hn, <- Ht.
  by rewrite (fa_node _ _ _ _ _ Hfile).
Qed.
Lemma fa_remove : Remove fs t = Ok (FS (delete t (nodes fs)) (clock fs)).
Proof.
  destruct fa_parent as (c & Hb & Ht & He & Hn). unfold Remove. rewrite He. simpl. rewrite <- Ht.
  by rewrite (fa_node _ _ _ _ _ Hfile).
Qed.
Lemma fa_revision : readRevisionBytes fs t (Z.of_nat (length d)) = Ok d.
Proof.
  unfold readRevisionBytes. rewrite fa_read. simpl. rewrite take_ge by lia. by rewrite Z.eqb_refl.
Qed.
Lemma fa_state : checkFileState fs t false (Some (info_of (Regular d m s))) = Ok tt.
Proof. unfold checkFileState. rewrite fa_stat. cbn [res_bind]. rewrite bool_decide_eq_true_2 by done. done. Qed.
Lemma fa_inspect `{Hash} : inspectFileState fs t false (ContentRevision d) (Z.of_nat (length d)) = Ok (Some (info_of (Regular d m s))).
Proof.
  unfold inspectFileState. rewrite fa_stat. cbn [res_bind info_of fi_regular fi_size negb]. rewrite Z.eqb_refl. cbn [negb].
  rewrite fa_revision. cbn [res_bind]. rewrite bool_decide_eq_true_2 by done. cbn [negb].
  pose proof fa_state as Hs. cbn [info_of] in Hs. rewrite Hs. done.
Qed.
End FileAt.
