(* ===== verification/FileIO.v ===== *)
(** * Reading, encoding and editing files ([internal/fileops/encoding.go], [file.go], [preview.go])

    A file is decoded to text, edited by the edit engine and encoded again;
    the functions are sequential here, over the file system of FileSystem.v,
    and are cut into steps by Rollback.v. *)
From S2P Require Import Prelude GoStr FileText FileEdit FileDiff FileSystem.
Open Scope Z_scope.

(** ** Encodings

    [golang.org/x/text] is a parameter: the names [htmlindex.Get] knows and
    the two transforms, which fail with a message. *)
Class TextEncodings := {
  encoding_known : gostring → bool;
  decode_with : gostring → gostring → gostring + gostring;
  encode_with : gostring → gostring → gostring + gostring
}.

Definition utf8_bom : gostring := ["239"%char; "187"%char; "191"%char].
Definition utf16le_bom : gostring := ["255"%char; "254"%char].
Definition utf16be_bom : gostring := ["254"%char; "255"%char].
Definition MaxFileSize : Z := 2 * 1024 * 1024.

Record File := {
  f_Path : path; f_Bytes : gostring; f_Text : gostring; f_Encoding : gostring; f_BOM : gostring; f_LineEnding : gostring
}.
Record EditFileOptions := { MaxInputBytes : Z; MaxOutputBytes : Z; DetailedDiffMaxBytes : Z }.
Record EditResult := {
  DryRun : bool; er_Path : path; Created : bool; er_Encoding : gostring; RevisionBefore : gostring;
  RevisionAfter : gostring; Diff : gostring; NewBytes : gostring; RollbackAvailable : bool; RollbackEvicted : Z
}.

Definition show_path (p : path) : gostring := §"/" ++ join §"/" p.

Section FileIO.
Context `{UnicodeTables} `{TextEncodings} `{Hash}.

Definition normal_name (name : gostring) : gostring := to_lower (trim_space name).
Definition isUTF8Encoding (name : gostring) : bool :=
  let name := normal_name name in bool_decide (name = §"utf-8") || bool_decide (name = §"utf-8-bom").

Definition LookupEncoding (name : gostring) : res gostring :=
  let name := normal_name name in
  let name := if bool_decide (name = §"gbk") || bool_decide (name = §"gb2312") then §"gb18030"
              else if bool_decide (name = §"shift_jis") || bool_decide (name = §"sjis") then §"shift-jis"
              else name in
  if encoding_known name then Ok name else Err (§"unsupported encoding " ++ quote name).

Definition decodeWithEncoding (data name bom : gostring) : res (gostring * gostring * gostring) :=
  let* enc := LookupEncoding name in
  match decode_with enc data with
  | inl decoded => Ok (decoded, name, bom)
  | inr e => Err (§"decode " ++ name ++ §": " ++ e)
  end.

(** The text, the encoding's name and the byte order mark. *)
Definition DecodeBytes (data requested : gostring) : res (gostring * gostring * gostring) :=
  let name := normal_name requested in
  if bool_decide (name = []) || bool_decide (name = §"auto") then
    if has_prefix utf8_bom data then Ok (drop 3 data, §"utf-8-bom", utf8_bom)
    else if has_prefix utf16le_bom data then decodeWithEncoding (drop 2 data) §"utf-16le" utf16le_bom
    else if has_prefix utf16be_bom data then decodeWithEncoding (drop 2 data) §"utf-16be" utf16be_bom
    else if negb (utf8_valid data) then Err §"file is not valid UTF-8; pass encoding explicitly"
    else Ok (data, §"utf-8", [])
  else
    let name := if bool_decide (name = §"utf8") then §"utf-8" else name in
    if bool_decide (name = §"utf-8-bom") then
      let data := if has_prefix utf8_bom data then drop 3 data else data in
      if negb (utf8_valid data) then Err §"file is not valid UTF-8" else Ok (data, §"utf-8-bom", utf8_bom)
    else if bool_decide (name = §"utf-8") then
      let data := if has_prefix utf8_bom data then drop 3 data else data in
      if negb (utf8_valid data) then Err §"file is not valid UTF-8" else Ok (data, §"utf-8", [])
    else decodeWithEncoding data name [].

Definition EncodeText (text name bom : gostring) : res gostring :=
  if bool_decide (name = §"utf-8") then Ok text
  else if bool_decide (name = §"utf-8-bom") then Ok (bom ++ text)
  else
    let* enc := LookupEncoding name in
    match encode_with enc text with
    | inl encoded => Ok (if (0 <? length bom)%nat then bom ++ encoded else encoded)
    | inr e => Err (§"encode " ++ name ++ §": " ++ e)
    end.

(** ** Reading *)
Definition size_limit_error (size maxBytes : Z) : gostring :=
  §"file too large: " ++ itoa size ++ §" bytes exceeds " ++ itoa maxBytes.
Definition is_dir (fs : fsys) (p : path) : bool :=
  match EvalSymlinks fs p with
  | Ok q => match lookup_node fs q with Some Directory => true | _ => false end
  | _ => false
  end.
Definition ReadFileWithLimit (fs : fsys) (p : path) (requested : gostring) (maxBytes : Z) : res File :=
  let* info := res_wrap §"stat file: " (Stat fs p) in
  if is_dir fs p then Err §"path is a directory"
  else if (0 <? maxBytes) && (maxBytes <? fi_size info) then Err (size_limit_error (fi_size info) maxBytes)
  else
    let* data := res_wrap §"read file: " (read_bytes fs p) in
    let* (text, encName, bom) := DecodeBytes data requested in
    if isUTF8Encoding encName && LooksBinaryUTF8 text then Err §"file appears to be binary"
    else Ok {| f_Path := p; f_Bytes := data; f_Text := text; f_Encoding := encName; f_BOM := bom;
               f_LineEnding := DetectLineEnding text |}.
Definition ReadFile (fs : fsys) (p : path) (requested : gostring) : res File :=
  ReadFileWithLimit fs p requested MaxFileSize.

Definition new_file (p : path) (enc bom : gostring) : File :=
  {| f_Path := p; f_Bytes := []; f_Text := []; f_Encoding := enc; f_BOM := bom; f_LineEnding := [newline] |}.
Definition ReadOrCreateFileWithLimit (fs : fsys) (p : path) (requested : gostring) (create hasRevision : bool)
    (maxBytes : Z) : res (File * bool) :=
  match ReadFileWithLimit fs p requested maxBytes with
  | Ok file => Ok (file, false)
  | Panic => Panic
  | Err e =>
    if negb create || hasRevision || negb (errors_is e ErrNotExist) then Err e
    else
      let name := normal_name requested in
      let name := if bool_decide (name = []) || bool_decide (name = §"auto") || bool_decide (name = §"utf8")
                  then §"utf-8" else name in
      if bool_decide (name = §"utf-8-bom") then Ok (new_file p §"utf-8-bom" utf8_bom, true)
      else if negb (bool_decide (name = §"utf-8")) then
        let* _ := LookupEncoding name in Ok (new_file p name [], true)
      else Ok (new_file p name [], true)
  end.
Definition ReadOrCreateFile (fs : fsys) (p : path) (requested : gostring) (create hasRevision : bool)
  : res (File * bool) := ReadOrCreateFileWithLimit fs p requested create hasRevision MaxFileSize.

(** ** Preparing a result *)
Definition prepareFileResult (file : File) (created : bool) (text : gostring) (contextLines : Z)
    (options : EditFileOptions) : res EditResult :=
  let oldText := NormalizeEditText (f_Text file) in
  let newText := NormalizeEditText text in
  if bool_decide (newText = oldText) then Err §"edit produced no changes"
  else
    let outputText := RestoreLineEndings newText (f_LineEnding file) in
    let* newBytes := EncodeText outputText (f_Encoding file) (f_BOM file) in
    if (0 <? MaxOutputBytes options) && (MaxOutputBytes options <? Z.of_nat (length newBytes))
    then Err (§"edited file too large: " ++ itoa (Z.of_nat (length newBytes)) ++ §" bytes exceeds "
              ++ itoa (MaxOutputBytes options))
    else
      let* diff := editDiff (show_path (f_Path file)) oldText newText (Z.of_nat (length (f_Bytes file)))
                     (Z.of_nat (length newBytes)) (NormalizeContextLines contextLines) (DetailedDiffMaxBytes options) in
      Ok {| DryRun := true; er_Path := f_Path file; Created := created; er_Encoding := f_Encoding file;
            RevisionBefore := ContentRevision (f_Bytes file); RevisionAfter := ContentRevision newBytes;
            Diff := diff; NewBytes := newBytes; RollbackAvailable := false; RollbackEvicted := 0 |}.

Record EditRequest := {
  rq_Path : path; rq_Encoding : gostring; rq_ExpectedRevision : gostring; rq_Create : bool; rq_ContextLines : Z;
  rq_Edits : list Edit; rq_Options : EditFileOptions
}.

Definition is_hex (c : ascii) : bool := in_range 48 57 c || in_range 65 70 c || in_range 97 102 c.
Definition revision_syntax : gostring := §"expected_revision must be 16 hexadecimal characters".
Definition set_dry (r : EditResult) (dry : bool) : EditResult :=
  {| DryRun := dry; er_Path := er_Path r; Created := Created r; er_Encoding := er_Encoding r;
     RevisionBefore := RevisionBefore r; RevisionAfter := RevisionAfter r; Diff := Diff r; NewBytes := NewBytes r;
     RollbackAvailable := RollbackAvailable r; RollbackEvicted := RollbackEvicted r |}.

(** [editFileWithResult] up to [result.DryRun = dryRun]. *)
Definition plan_edit (fs : fsys) (rq : EditRequest) (prepared : option EditResult) : res (File * bool * EditResult) :=
  let expected := trim_space (rq_ExpectedRevision rq) in
  let has := negb (bool_decide (expected = [])) in
  if bool_decide (prepared = None) && has && negb ((length expected =? 16)%nat && forallb is_hex expected)
  then Err revision_syntax
  else
    let* (file, created) := ReadOrCreateFileWithLimit fs (rq_Path rq) (rq_Encoding rq) (rq_Create rq) has
                              (MaxInputBytes (rq_Options rq)) in
    let oldRevision := ContentRevision (f_Bytes file) in
    match prepared with
    | Some r =>
      if negb (Bool.eqb (Created r) created) || negb (bool_decide (RevisionBefore r = oldRevision))
      then Err §"file changed after preflight" else Ok (file, created, r)
    | None =>
      if has && negb (equal_fold_ascii expected oldRevision)
      then Err (§"file revision mismatch: current " ++ oldRevision)
      else if negb created && negb has && editsRequireRevision (rq_Edits rq)
      then Err §"expected_revision is required for replace, insert, delete, and overwrite on existing files"
      else
        let* newText := ApplyEdits (f_Text file) (rq_Edits rq) in
        let* result := prepareFileResult file created newText (rq_ContextLines rq) (rq_Options rq) in
        Ok (file, created, result)
    end.

(** The mode of the new file, and the parent directories of a created one. *)
Definition default_mode : Z := 420.
Definition plan_mode (fs : fsys) (p : path) (created : bool) : res Z :=
  match Stat fs p with
  | Ok info => Ok (fi_mode info)
  | Err e => if created then Ok default_mode else Err (§"stat file: " ++ e)
  | Panic => Panic
  end.
Definition make_parents (fs : fsys) (p : path) (created : bool) : res fsys :=
  if created then res_wrap §"create parent directory: " (MkdirAll fs (dir p)) else Ok fs.

Definition editFileWithResult (fs : fsys) (rq : EditRequest) (dryRun : bool) (prepared : option EditResult)
    (beforeWrite : fsys → File → bool → Z → res unit) : res (fsys * EditResult) :=
  let* (file, created, result) := plan_edit fs rq prepared in
  let result := set_dry result dryRun in
  if dryRun then Ok (fs, result)
  else
    let p := rq_Path rq in
    let* mode := plan_mode fs p created in
    let* fs := make_parents fs p created in
    let* fs := res_wrap §"write file: " (atomicWriteFile fs p (NewBytes result) mode
                                           (λ fs, beforeWrite fs file created mode)) in
    Ok (fs, result).
Definition EditFileWithOptions (fs : fsys) (rq : EditRequest) (dryRun : bool) : res (fsys * EditResult) :=
  editFileWithResult fs rq dryRun None (λ _ _ _ _, Ok tt).

(** ** Prepared files ([preview.go]) *)
Record PreparedFile := { pf_target : path; pf_result : EditResult }.

Definition PrepareFile (fs : fsys) (ctxErr : option gostring) (p : path) (transform : gostring → res gostring)
  : res PreparedFile :=
  match ctxErr with
  | Some e => Err e
  | None =>
    let* target := ResolveFileTarget fs p false in
    let* file := ReadFile fs p [] in
    let* text := transform (f_Text file) in
    let* result := prepareFileResult file false text 3
                     {| MaxInputBytes := 0; MaxOutputBytes := 0; DetailedDiffMaxBytes := 0 |} in
    let* _ := checkFileTarget fs p target false in
    Ok {| pf_target := target; pf_result := result |}
  end.
Definition with_input_limit (rq : EditRequest) : EditRequest :=
  {| rq_Path := rq_Path rq; rq_Encoding := rq_Encoding rq; rq_ExpectedRevision := rq_ExpectedRevision rq;
     rq_Create := rq_Create rq; rq_ContextLines := rq_ContextLines rq; rq_Edits := rq_Edits rq;
     rq_Options := let o := rq_Options rq in
       {| MaxInputBytes := if MaxInputBytes o =? 0 then MaxFileSize else MaxInputBytes o;
          MaxOutputBytes := MaxOutputBytes o; DetailedDiffMaxBytes := DetailedDiffMaxBytes o |} |}.
Definition PrepareFileEdit (fs : fsys) (ctxErr : option gostring) (rq : EditRequest)
    (validate : option (gostring → res unit)) : res PreparedFile :=
  match ctxErr with
  | Some e => Err e
  | None =>
    let* target := ResolveFileTarget fs (rq_Path rq) (rq_Create rq) in
    let* (_, result) := EditFileWithOptions fs (with_input_limit rq) true in
    let* _ := match validate with
              | Some v => let* (text, _, _) := DecodeBytes (NewBytes result) (er_Encoding result) in v text
              | None => Ok tt
              end in
    let* _ := checkFileTarget fs (rq_Path rq) target (Created result) in
    Ok {| pf_target := target; pf_result := result |}
  end.
Definition PrepareFileWrite (fs : fsys) (ctxErr : option gostring) (p : path) (content : gostring) : res PreparedFile :=
  match ctxErr with
  | Some e => Err e
  | None =>
    let* target := ResolveFileTarget fs p true in
    let* (file, created) := ReadOrCreateFile fs p [] true false in
    let* diff := editDiff (show_path p) (f_Text file) content (Z.of_nat (length (f_Bytes file)))
                   (Z.of_nat (length content)) 3 MaxFileSize in
    let result := {| DryRun := true; er_Path := p; Created := created; er_Encoding := §"utf-8";
                     RevisionBefore := ContentRevision (f_Bytes file); RevisionAfter := ContentRevision content;
                     Diff := diff; NewBytes := content; RollbackAvailable := false; RollbackEvicted := 0 |} in
    let* _ := checkFileTarget fs p target created in
    Ok {| pf_target := target; pf_result := result |}
  end.

Definition Preview (p : PreparedFile) : EditResult :=
  let r := pf_result p in
  {| DryRun := DryRun r; er_Path := er_Path r; Created := Created r; er_Encoding := er_Encoding r;
     RevisionBefore := RevisionBefore r; RevisionAfter := RevisionAfter r; Diff := Diff r; NewBytes := [];
     RollbackAvailable := RollbackAvailable r; RollbackEvicted := RollbackEvicted r |}.

(** [Commit]: [ctxErr] is the context's error at the start, [late] the one before the write. *)
Definition Commit (fs : fsys) (ctxErr late : option gostring) (p : PreparedFile) : res (fsys * EditResult) :=
  match ctxErr with
  | Some e => Err e
  | None =>
    let r := pf_result p in
    let file := er_Path r in
    let* _ := checkFileTarget fs file (pf_target p) (Created r) in
    let* (fs, previous, mode) :=
      (if Created r then
         let* _ := checkFileState fs file true None in
         let* fs := MkdirAll fs (dir file) in Ok (fs, None, default_mode)
       else
         let* info := Stat fs file in
         if MaxFileSize <? fi_size info then Err (size_limit_error (fi_size info) MaxFileSize)
         else
           let* previous := inspectFileState fs file false (RevisionBefore r) (fi_size info) in
           let* prev := deref previous in Ok (fs, previous, fi_mode prev)) in
    let* fs := atomicWriteFile fs file (NewBytes r) mode (λ fs,
      match late with
      | Some e => Err e
      | None =>
        let* _ := checkFileTarget fs file (pf_target p) (Created r) in
        checkFileState fs file (Created r) previous
      end) in
    Ok (fs, set_dry (Preview p) false)
  end.
End FileIO.
