(* ===== verification/FileIOProps.v ===== *)
(** * Properties of encodings, prepared files and edits of files *)
From S2P Require Import Prelude GoStr FileText FileEdit FileTextProps FileDiff FileSystem FileIO.
Open Scope Z_scope.

Section Props.
Context `{UnicodeTables} `{TextEncodings} `{Hash}.

(** ** Encodings *)

(** One goal for each element of a concrete list. *)
Ltac each_in H tac :=
  repeat (apply elem_of_cons in H as [-> | H]; [tac|]); exfalso; revert H; apply not_elem_of_nil.

Lemma has_prefix_app p s : has_prefix p (p ++ s) = true.
Proof. apply has_prefix_spec. by exists s. Qed.

Lemma no_utf16_mark text a b : utf8_valid text = true → a = "255"%char ∨ a = "254"%char → has_prefix [a; b] text = false.
Proof.
  intros Hv Ha. destruct (has_prefix [a; b] text) eqn:Hp; [|done]. apply has_prefix_spec in Hp as [r ->].
  by destruct Ha as [-> | ->].
Qed.

Lemma decode_written text enc requested :
  utf8_valid text = true →
  enc = §"utf-8" ∧ has_prefix utf8_bom text = false ∨ enc = §"utf-8-bom" →
  requested ∈ [[]; §"auto"; enc] →
  let bom := if bool_decide (enc = §"utf-8") then [] else utf8_bom in
  ∃ data, EncodeText text enc bom = Ok data ∧ DecodeBytes data requested = Ok (text, enc, bom).
Proof.
  intros Hv Henc Hreq bom.
  assert (∀ r, r ∈ [[]; §"auto"; §"utf-8"; §"utf-8-bom"] → normal_name r = r) as Hnorm.
  { intros r Hr. each_in Hr ltac:(vm_compute; reflexivity). }
  assert (has_prefix utf16le_bom text = false ∧ has_prefix utf16be_bom text = false) as [Hle Hbe].
  { split; [apply (no_utf16_mark _ _ _ Hv)|apply (no_utf16_mark _ _ _ Hv)]; vm_compute; auto. }
  unfold EncodeText, DecodeBytes. destruct Henc as [[-> Hb]| ->].
  - exists text. split; [done|].
    rewrite (Hnorm requested) by (clear -Hreq; each_in Hreq ltac:(by repeat (apply elem_of_cons; first [by left|right]))). rewrite Hb, Hle, Hbe, Hv. clear -Hreq.
    each_in Hreq ltac:(vm_compute; reflexivity).
  - exists (utf8_bom ++ text). split; [done|].
    rewrite (Hnorm requested) by (clear -Hreq; each_in Hreq ltac:(by repeat (apply elem_of_cons; first [by left|right]))). rewrite has_prefix_app, (drop_app_length' utf8_bom), Hv by done. clear -Hreq.
    each_in Hreq ltac:(vm_compute; reflexivity).
Qed.

(** A text written as UTF-8, with or without a byte order mark, is read
    back as the same text, encoding and mark, whether the encoding is named or
    left to detection. Only a text that itself starts with a mark needs one. *)
Lemma decode_encode text enc requested :
  utf8_valid text = true →
  enc = §"utf-8" ∧ has_prefix utf8_bom text = false ∨ enc = §"utf-8-bom" →
  requested ∈ [[]; §"auto"; enc] →
  let bom := if bool_decide (enc = §"utf-8") then [] else utf8_bom in
  ∃ data, EncodeText text enc bom = Ok data ∧ DecodeBytes data requested = Ok (text, enc, bom).
Proof. apply decode_written. Qed.

(** ** Directories and writes *)

(** What making directories leaves of a file system. *)
Definition only_dirs (fs fs' : fsys) : Prop :=
  ∀ q, lookup_node fs' q = lookup_node fs q ∨ (lookup_node fs q = None ∧ lookup_node fs' q = Some Directory).
Lemma only_dirs_refl fs : only_dirs fs fs.
Proof. intros q. by left. Qed.
Lemma only_dirs_trans a b c : only_dirs a b → only_dirs b c → only_dirs a c.
Proof. intros Hab Hbc q. destruct (Hab q) as [E|[E1 E2]], (Hbc q) as [F|[F1 F2]];
    [left|right; split|right; split|right; split]; congruence. Qed.
Lemma lookup_node_set fs q n t c : t ≠ [] →
  lookup_node (FS (<[t := n]> (nodes fs)) c) q = if decide (q = t) then Some n else lookup_node fs q.
Proof.
  intros Ht. destruct q as [|x q]; simpl; [by rewrite decide_False by congruence|]. case_decide as Hq.
  - rewrite <- Hq. by rewrite lookup_insert_eq.
  - by rewrite lookup_insert_ne.
Qed.
Lemma mkdir_walk_dirs : ∀ todo fs done fs', mkdir_walk fs done todo = Ok fs' → only_dirs fs fs'.
Proof.
  induction todo as [|c todo IH]; intros fs done fs'; simpl; [intros [= <-]; apply only_dirs_refl|].
  destruct (lookup_node fs (done ++ [c])) as [[| |l]|] eqn:Hn; [done|by apply IH| |].
  - intros (t & _ & Hw)%res_bind_ok. destruct (lookup_node fs t) as [[]|]; try done. by eapply IH.
  - intros Hw%IH. eapply only_dirs_trans; [|exact Hw]. intros q. rewrite lookup_node_set by (by destruct done).
    case_decide as Hq; [|by left]. subst q. by right.
Qed.

(** What a write of [data] to [t] leaves: nothing else changes. *)
Definition written (fs fs' : fsys) (t : path) (data : gostring) (mode : Z) : Prop :=
  ∀ q, lookup_node fs' q = if decide (q = t) then Some (Regular data mode (clock fs)) else lookup_node fs q.
Lemma set_node_written fs t data mode : t ≠ [] → written fs (set_node fs t data mode) t data mode.
Proof. intros Ht q. unfold set_node. by rewrite lookup_node_set. Qed.

Lemma target_not_root fs p target created : checkFileTarget fs p target created = Ok tt → target ≠ [].
Proof.
  unfold checkFileTarget. intros (t & Ht & Hc)%res_bind_ok. case_bool_decide; [subst t|done]. intros ->.
  destruct (proj2 (resolve_cases fs p created) [] Ht) as [(_ & d & m & s & Hd)|(_ & _ & a & suffix & q & _ & Hs & _ & Hq & _)]; [done|].
  by symmetry in Hq; apply app_eq_nil in Hq as [_ ->].
Qed.
(** The whole of [atomicWriteFile] under the target check. *)
Lemma atomic_write_target fs p target created data mode check fs' :
  atomicWriteFile fs p data mode check = Ok fs' → checkFileTarget fs p target created = Ok tt →
  check fs = Ok tt ∧ ∃ m, written fs fs' target data m
       ∧ match lookup_node fs target with
         | Some (Regular _ m0 _) => EvalSymlinks fs p = Ok target ∧ (m = m0 ∨ m = mode)
         | Some _ => False
         | None => m = mode
         end.
Proof.
  unfold atomicWriteFile. intros (? & _ & ([] & Hck & Hw)%res_bind_ok)%res_bind_ok Hc. split; [done|].
  destruct (commit_write_target _ _ _ _ _ _ _ Hc Hw) as (m & -> & Hm). exists m.
  split; [by eapply set_node_written, target_not_root|done].
Qed.
Lemma target_eval fs p target : checkFileTarget fs p target false = Ok tt → EvalSymlinks fs p = Ok target.
Proof.
  unfold checkFileTarget. intros (t & Ht & Hc)%res_bind_ok. case_bool_decide; [subst t|done].
  by destruct (proj2 (resolve_cases fs p false) target Ht) as [[? _]|[[=] _]].
Qed.
Lemma absent_not_resolved fs p pr t : checkFileState fs p true pr = Ok tt → EvalSymlinks fs p ≠ Ok t.
Proof.
  intros Hc Ht. assert (p ≠ []) as Hp by (intros ->; by vm_compute in Hc). destruct (Lstat_resolved fs p t Hp Ht) as (d & Hd & Hn). unfold checkFileState, Lstat in Hc.
  rewrite Hd in Hc. simpl in Hc. destruct (lookup_node fs (d ++ base p)); [|done].
  by destruct (lookup_node fs d) as [[]|].
Qed.

(** What [inspectFileState] has seen when it passes. *)
Lemma inspect_data fs p rev size info : inspectFileState fs p false rev size = Ok (Some info) →
  ∃ t d m s, EvalSymlinks fs p = Ok t ∧ lookup_node fs t = Some (Regular d m s) ∧ info = info_of (Regular d m s)
             ∧ ContentRevision d = rev ∧ Z.of_nat (length d) = size.
Proof.
  unfold inspectFileState, Stat, readRevisionBytes, read_bytes.
  intros (i & (t & Ht & Hi)%res_bind_ok & Hr)%res_bind_ok.
  destruct (lookup_node fs t) as [[d m s| |]|] eqn:Hn; simplify_eq/=; try done.
  destruct (negb (_ =? _)) eqn:Hsz; [done|]. propify. rewrite Ht in Hr. simpl in Hr. rewrite Hn in Hr. simpl in Hr.
  rewrite take_ge in Hr by lia. rewrite (proj2 (Z.eqb_eq _ _)) in Hr by done. simpl in Hr.
  case_bool_decide; [|done]. simpl in Hr. apply res_bind_ok in Hr as (? & _ & [= <-]).
  by exists t, d, m, s.
Qed.

(** [Commit] writes exactly the previewed bytes, to exactly the target
    that was checked, through whatever links the path has: nothing else of the
    file system changes except that parent directories of a created file are
    made. A file that is edited still had the revision of the preview and
    keeps its mode; a file that is created did not exist. *)
Lemma Commit_exact fs ctxErr late p fs' r : Commit fs ctxErr late p = Ok (fs', r) →
  let t := pf_target p in let pr := pf_result p in
  r = set_dry (Preview p) false
  ∧ ∃ fs1 m, only_dirs fs fs1 ∧ written fs1 fs' t (NewBytes pr) m
    ∧ (if Created pr then lookup_node fs1 t = None ∧ m = default_mode
       else fs1 = fs ∧ ∃ d s, lookup_node fs t = Some (Regular d m s) ∧ ContentRevision d = RevisionBefore pr).
Proof.
  unfold Commit. destruct ctxErr; [done|]. intros (? & Hc0 & Hm)%res_bind_ok.
  apply res_bind_ok in Hm as ([[fs1 previous] mode] & Hm & Hw). apply res_bind_ok in Hw as (fs2 & Hw & [= <- <-]).
  destruct late; [by unfold atomicWriteFile in Hw; apply res_bind_ok in Hw as (? & _ & (? & [=] & _)%res_bind_ok)|].
  assert (checkFileTarget fs1 (er_Path (pf_result p)) (pf_target p) (Created (pf_result p)) = Ok tt
          ∧ checkFileState fs1 (er_Path (pf_result p)) (Created (pf_result p)) previous = Ok tt) as [Hct Hcs].
  { unfold atomicWriteFile in Hw. apply res_bind_ok in Hw as (_ & _ & ([] & ([] & ? & ?)%res_bind_ok & _)%res_bind_ok). done. }
  destruct (atomic_write_target _ _ _ _ _ _ _ _ Hw Hct) as (_ & m & Hwr & Hl).
  split; [done|]. exists fs1, m. destruct (Created (pf_result p)).
  - apply res_bind_ok in Hm as (? & _ & (fs3 & Hd & [= <- <- <-])%res_bind_ok).
    split_and!; [by eapply mkdir_walk_dirs|done|..]; destruct (lookup_node fs3 (pf_target p)) as [[]|]; try done;
      destruct Hl as [He _]; by apply (absent_not_resolved _ _ _ _ Hcs) in He.
  - apply res_bind_ok in Hm as (info & _ & Hm). destruct (MaxFileSize <? fi_size info); [done|].
    apply res_bind_ok in Hm as (prev & Hi & (info' & Hp & [= <- <- <-])%res_bind_ok). destruct prev; [|done].
    injection Hp as ->. apply inspect_data in Hi as (t & d & m' & s & Ht & Hn & -> & Hrev & _).
    rewrite (target_eval _ _ _ Hct) in Ht. injection Ht as <-. rewrite Hn in Hl. simpl in Hl.
    assert (m = m') as -> by (destruct Hl as [_ [?|?]]; done).
    split_and!; [apply only_dirs_refl|done|done|by exists d, s].
Qed.

(** ** Edits of files *)
Lemma unify_restore e s : e = carriage :: newline :: [] ∨ e = [carriage] → carriage ∉ s →
  unify (s ≫= λ c, if bool_decide (c = newline) then e else [c]) = s.
Proof.
  intros He. induction s as [|c s IH]; [done|]. intros [Hc Hs]%not_elem_of_cons. rewrite bind_cons.
  assert (∀ k, (if bool_decide (c = newline) then e else [c]) = k → k = [c] ∧ c ≠ carriage ∨ k = e ∧ c = newline) as Hk
    by (intros k <-; case_bool_decide; [by right|by left]).
  destruct (Hk _ eq_refl) as [[-> _]|[-> ->]].
  - cbn [app]. rewrite unify_cons, bool_decide_eq_false_2 by done. by rewrite IH.
  - destruct He as [-> | ->]; cbn [app]; rewrite unify_cons, bool_decide_eq_true_2 by done.
    + rewrite bool_decide_eq_true_2 by done. cbn [tail]. by rewrite IH.
    + rewrite bool_decide_eq_false_2, IH by (done || (destruct s as [|x s]; [done|]; rewrite bind_cons;
        destruct (decide (x = newline)) as [->|?]; [rewrite bool_decide_eq_true_2 by done|
        rewrite bool_decide_eq_false_2 by done]; cbn; congruence)). done.
Qed.
Lemma normalize_restore t f : NormalizeEditText (RestoreLineEndings (NormalizeEditText t) (DetectLineEnding f)) = NormalizeEditText t.
Proof.
  pose proof (unify_no_carriage t) as Hc. rewrite <- normalize_unify in Hc. unfold free_of in Hc.
  rewrite normalize_unify. unfold RestoreLineEndings. destruct (_ || _) eqn:He; [by apply unify_id|].
  rewrite replace_byte. apply unify_restore; [|done]. unfold DetectLineEnding in *.
  destruct (contains f crlf); [by left|]. destruct (contains f [carriage]); [by right|done].
Qed.

Lemma decode_mark data requested text enc bom : DecodeBytes data requested = Ok (text, enc, bom) →
  (enc = §"utf-8" → bom = []) ∧ (enc = §"utf-8-bom" → bom = utf8_bom).
Proof.
  unfold DecodeBytes, decodeWithEncoding. intros Hd.
  repeat match type of Hd with
  | context [if ?b then _ else _] => destruct b eqn:?
  | res_bind _ _ = _ => apply res_bind_ok in Hd as (? & ? & Hd)
  | context [match ?d with inl _ => _ | inr _ => _ end] => destruct d
  end; simplify_eq; propify; split; intros Henc; try done; rewrite ?Henc in *; done.
Qed.
Lemma read_or_create_mark fs p requested create has limit file created :
  ReadOrCreateFileWithLimit fs p requested create has limit = Ok (file, created) →
  f_LineEnding file = DetectLineEnding (f_Text file)
  ∧ (f_Encoding file = §"utf-8" → f_BOM file = []) ∧ (f_Encoding file = §"utf-8-bom" → f_BOM file = utf8_bom).
Proof.
  unfold ReadOrCreateFileWithLimit. destruct (ReadFileWithLimit _ _ _ _) as [f|e|] eqn:Hr; [intros [= <- <-]| |done].
  - unfold ReadFileWithLimit in Hr. apply res_bind_ok in Hr as (info & _ & Hr). destruct (is_dir fs p); [done|].
    destruct (_ && _); [done|]. apply res_bind_ok in Hr as (d & _ & ([[tx en] bm] & Hd & Hr)%res_bind_ok).
    destruct (_ && _); [done|]. simplify_eq. simpl. split; [done|]. by eapply decode_mark.
  - destruct (negb create || has || _); [done|]. intros Hc.
    assert (∃ enc, file = new_file p enc [] ∧ enc ≠ §"utf-8-bom" ∨ file = new_file p §"utf-8-bom" utf8_bom) as (enc & [[-> Hb]| ->]); [|done..].
    match type of Hc with context [new_file p ?n []] => set (nm := n) in Hc; clearbody nm end.
    destruct (decide (nm = §"utf-8-bom")) as [E|Hn]; [rewrite bool_decide_eq_true_2 in Hc by done|
      rewrite bool_decide_eq_false_2 in Hc by done]; [exists []; right; by injection Hc|].
    exists nm. left. split; [|exact Hn]. destruct (negb _); [by apply res_bind_ok in Hc as (? & _ & [= <- <-])|by injection Hc].
Qed.

(** What an edit leaves on disk is the edited text. A successful edit has
    changed the text; reading the path again gives the bytes of the result;
    and when the file was UTF-8 and the edited text still is, decoding them
    with the result's encoding gives, up to line endings, the text that the
    edit engine computed from the text of the file, with its byte order mark. *)
Lemma edit_reads_back fs rq fs' r : EditFileWithOptions fs rq false = Ok (fs', r) →
  ∃ file created newText,
    ReadOrCreateFileWithLimit fs (rq_Path rq) (rq_Encoding rq) (rq_Create rq)
      (negb (bool_decide (trim_space (rq_ExpectedRevision rq) = []))) (MaxInputBytes (rq_Options rq)) = Ok (file, created)
    ∧ ApplyEdits (f_Text file) (rq_Edits rq) = Ok newText
    ∧ NormalizeEditText newText ≠ NormalizeEditText (f_Text file)
    ∧ read_bytes fs' (rq_Path rq) = Ok (NewBytes r)
    ∧ let out := RestoreLineEndings (NormalizeEditText newText) (f_LineEnding file) in
      (f_Encoding file = §"utf-8" ∧ has_prefix utf8_bom out = false ∨ f_Encoding file = §"utf-8-bom") →
      utf8_valid out = true →
      DecodeBytes (NewBytes r) (er_Encoding r) = Ok (out, f_Encoding file, f_BOM file)
      ∧ NormalizeEditText out = NormalizeEditText newText.
Proof.
  unfold EditFileWithOptions, editFileWithResult.
  intros ([[file created] res] & Hp & He)%res_bind_ok. apply res_bind_ok in He as (mode & _ & He).
  apply res_bind_ok in He as (fs1 & _ & (fs2 & Hw & [= <- <-])%res_bind_ok). apply res_wrap_ok in Hw.
  unfold plan_edit in Hp. destruct (_ && _ && _); [done|]. apply res_bind_ok in Hp as ([f c] & Hr & Hp).
  destruct (_ && _); [done|]. destruct (_ && _); [done|].
  apply res_bind_ok in Hp as (newText & Ha & (res' & Hres & [= <- <- <-])%res_bind_ok).
  exists f, c, newText. split; [done|]. split; [done|]. unfold prepareFileResult in Hres.
  case_bool_decide as Hne; [done|]. split; [done|].
  apply res_bind_ok in Hres as (bytes & Henc & Hres). destruct (_ && _); [done|].
  apply res_bind_ok in Hres as (diff & _ & [= <-]). simpl in *.
  unfold atomicWriteFile in Hw. apply res_bind_ok in Hw as (? & _ & (? & _ & Hw)%res_bind_ok).
  split; [by eapply commit_write_read|]. intros Hf Hv. destruct (read_or_create_mark _ _ _ _ _ _ _ _ Hr) as (Hle & Hb1 & Hb2).
  split; [|rewrite Hle; apply normalize_restore].
  destruct (decode_written _ (f_Encoding f) (f_Encoding f) Hv Hf) as (data & Hd1 & Hd2).
  { by repeat (apply elem_of_cons; first [by left|right]). }
  assert ((if bool_decide (f_Encoding f = §"utf-8") then [] else utf8_bom) = f_BOM f) as Hbom.
  { destruct Hf as [[Hf _]|Hf]; [rewrite bool_decide_eq_true_2 by done; by rewrite Hb1|].
    rewrite bool_decide_eq_false_2 by (rewrite Hf; done). by rewrite Hb2. }
  rewrite Hbom in Hd1, Hd2. rewrite Hd1 in Henc. injection Henc as <-. done.
Qed.
End Props.

(** ** Witnesses *)
#[local] Instance no_encodings : TextEncodings :=
  {| encoding_known := λ _, false; decode_with := λ _ _, inr []; encode_with := λ _ _, inr [] |}.
#[local] Instance prefix_hash : Hash := {| sha256 := λ d, take 32 (d ++ replicate 32 "000"%char) |}.
#[local] Instance tables : UnicodeTables := ascii_tables.

Lemma decode_encode_witness :
  ∃ data, EncodeText §"é" §"utf-8-bom" utf8_bom = Ok data ∧ DecodeBytes data §"auto" = Ok (§"é", §"utf-8-bom", utf8_bom).
Proof.
  apply (decode_encode §"é" §"utf-8-bom" §"auto"); [vm_compute; reflexivity|right; reflexivity|].
  apply elem_of_cons; right; apply elem_of_cons; left; reflexivity.
Defined.

Definition replace_request : EditRequest :=
  {| rq_Path := [§"link"; §"a.txt"]; rq_Encoding := []; rq_ExpectedRevision := []; rq_Create := false;
     rq_ContextLines := 3;
     rq_Edits := [{| Operation := §"replace_text"; Line := 0; EndLine := 0; NewText := Some §"two"; OldText := §"one"; Anchor := [];
                     Index := None; AllMatches := false |}];
     rq_Options := {| MaxInputBytes := 0; MaxOutputBytes := 0; DetailedDiffMaxBytes := 0 |} |}.
Definition sample_write : PreparedFile :=
  match PrepareFileWrite example_fs None [§"link"; §"a.txt"] §"two" with
  | Ok p => p
  | _ => {| pf_target := []; pf_result := {| DryRun := true; er_Path := []; Created := false; er_Encoding := [];
            RevisionBefore := []; RevisionAfter := []; Diff := []; NewBytes := []; RollbackAvailable := false;
            RollbackEvicted := 0 |} |}
  end.
Definition outcome {A} (d : A) (m : res A) : A := match m with Ok a => a | _ => d end.
Definition no_result : EditResult := set_dry (pf_result sample_write) true.

Lemma Commit_exact_witness :
  let '(fs', r) := outcome (example_fs, no_result) (Commit example_fs None None sample_write) in
  r = set_dry (Preview sample_write) false ∧
  ∃ fs1 m, only_dirs example_fs fs1 ∧ written fs1 fs' [§"home"; §"a.txt"] §"two" m
    ∧ fs1 = example_fs ∧ ∃ d s, lookup_node example_fs [§"home"; §"a.txt"] = Some (Regular d m s)
                         ∧ ContentRevision d = RevisionBefore (pf_result sample_write).
Proof.
  destruct (outcome _ _) as [fs' r] eqn:He. apply (Commit_exact example_fs None None sample_write fs' r).
  rewrite <- He. vm_compute. reflexivity.
Defined.

Lemma edit_reads_back_witness :
  let '(fs', r) := outcome (example_fs, no_result) (EditFileWithOptions example_fs replace_request false) in
  read_bytes fs' [§"link"; §"a.txt"] = Ok (NewBytes r).
Proof.
  destruct (outcome _ _) as [fs' r] eqn:He. destruct (edit_reads_back example_fs replace_request fs' r) as (f & c & n & _ & _ & _ & Hb & _).
  - rewrite <- He. vm_compute. reflexivity.
  - exact Hb.
Defined.
Example replace_reads_two :
  read_bytes (fst (outcome (example_fs, no_result) (EditFileWithOptions example_fs replace_request false))) [§"home"; §"a.txt"]
  = Ok §"two".
Proof. vm_compute. reflexivity. Qed.
