(* ===== verification/LockTable.v ===== *)
(** * Target locks ([lockTarget] of [internal/fileops/rollback.go])

    One lock per resolved file: a one-token channel with the number of its
    users, which the table forgets when the last user leaves. A lock is an
    object of a heap, so that two locks of one file could exist. A user is a
    call of [lockTarget] together with the unlock function it returned; each
    definition is a section under [m.mu] or one channel operation. *)
From S2P Require Import Prelude GoStr FileSystem.
Open Scope Z_scope.

Record lock := Lock { l_token : bool; l_users : Z }.
Inductive lock_phase := Waits | Holds | Leaves.
#[export] Instance lock_phase_eq_dec : EqDecision lock_phase.
Proof. solve_decision. Defined.
Record user := User { u_target : path; u_lock : nat; u_phase : lock_phase }.
Record table := Table { locks : gmap path nat; lock_heap : gmap nat lock; next_lock : nat; users : gmap nat user }.
Definition no_locks : table := Table ∅ ∅ 0 ∅.

(** The section that takes a reference, making the lock if there is none. *)
Definition lock_ref (m : table) (c : nat) (target : path) : res table :=
  match locks m !! target with
  | None =>
    let l := next_lock m in
    Ok (Table (<[target := l]> (locks m)) (<[l := Lock false 1]> (lock_heap m)) (S l)
              (<[c := User target l Waits]> (users m)))
  | Some l =>
    match lock_heap m !! l with
    | None => Panic
    | Some lk => Ok (Table (locks m) (<[l := Lock (l_token lk) (l_users lk + 1)]> (lock_heap m)) (next_lock m)
                           (<[c := User target l Waits]> (users m)))
    end
  end.
(** The section of [release]. *)
Definition lock_release (m : table) (c : nat) (u : user) : res table :=
  match lock_heap m !! u_lock u with
  | None => Panic
  | Some lk =>
    let lk := Lock (l_token lk) (l_users lk - 1) in
    Ok (Table (if l_users lk =? 0 then delete (u_target u) (locks m) else locks m)
              (<[u_lock u := lk]> (lock_heap m)) (next_lock m) (delete c (users m)))
  end.

(** The steps of a user; [None] is a step that is not enabled: the user is not
    at that point, or its channel operation blocks. *)
Inductive lock_step := LRef (c : nat) (target : path) | LToken (c : nat) | LCancel (c : nat) | LPut (c : nat) | LRelease (c : nat).
Definition set_token (m : table) (c : nat) (u : user) (lk : lock) (token : bool) (ph : lock_phase) : table :=
  Table (locks m) (<[u_lock u := Lock token (l_users lk)]> (lock_heap m)) (next_lock m)
        (<[c := User (u_target u) (u_lock u) ph]> (users m)).
Definition lock_exec (m : table) (s : lock_step) : option (res table) :=
  match s with
  | LRef c target => match users m !! c with None => Some (lock_ref m c target) | Some _ => None end
  | LToken c =>
    match users m !! c with
    | Some (User t l Waits) =>
      match lock_heap m !! l with
      | Some lk => if l_token lk then None else Some (Ok (set_token m c (User t l Waits) lk true Holds))
      | None => Some Panic
      end
    | _ => None
    end
  | LCancel c =>
    match users m !! c with
    | Some (User t l Waits) => Some (lock_release m c (User t l Waits))
    | _ => None
    end
  | LPut c =>
    match users m !! c with
    | Some (User t l Holds) =>
      match lock_heap m !! l with
      | Some lk => if l_token lk then Some (Ok (set_token m c (User t l Holds) lk false Leaves)) else None
      | None => Some Panic
      end
    | _ => None
    end
  | LRelease c =>
    match users m !! c with
    | Some (User t l Leaves) => Some (lock_release m c (User t l Leaves))
    | _ => None
    end
  end.

(** ** Invariant *)
Definition count (l : nat) (us : gmap nat user) : Z := Z.of_nat (size (filter (λ p, u_lock p.2 = l) us)).
Record lock_inv (m : table) : Prop := {
  li_user : ∀ c u, users m !! c = Some u → locks m !! u_target u = Some (u_lock u);
  li_lock : ∀ t l, locks m !! t = Some l → (l < next_lock m)%nat ∧
    ∃ lk, lock_heap m !! l = Some lk ∧ l_users lk = count l (users m) ∧ 0 < l_users lk
          ∧ (l_token lk = true ↔ ∃ c t', users m !! c = Some (User t' l Holds));
  li_excl : ∀ c d t t' l, users m !! c = Some (User t l Holds) → users m !! d = Some (User t' l Holds) → c = d;
  li_inj : ∀ t t' l, locks m !! t = Some l → locks m !! t' = Some l → t = t'
}.

Lemma count_new l us c u : us !! c = None →
  count l (<[c := u]> us) = count l us + if decide (u_lock u = l) then 1 else 0.
Proof.
  intros Hc. unfold count. case_decide.
  - rewrite map_filter_insert_True, map_size_insert_None by (done || by apply map_lookup_filter_None_2; left). lia.
  - rewrite map_filter_insert_False, delete_id by done. lia.
Qed.
Lemma count_drop l us c u : us !! c = Some u →
  count l us = count l (delete c us) + if decide (u_lock u = l) then 1 else 0.
Proof.
  intros Hc. rewrite <- (insert_delete_id us c u Hc) at 1. apply count_new, lookup_delete_eq.
Qed.
Lemma count_same l us c u v : us !! c = Some u → u_lock v = u_lock u → count l (<[c := v]> us) = count l us.
Proof.
  intros Hc Hl. rewrite (count_drop l us c u Hc), (count_drop l (<[c := v]> us) c v) by apply lookup_insert_eq.
  rewrite delete_insert_eq. by rewrite Hl.
Qed.
Lemma count_pos l us c u : us !! c = Some u → u_lock u = l → 0 < count l us.
Proof. intros Hc Hl. rewrite (count_drop l us c u Hc), decide_True by done. unfold count. lia. Qed.

(** One user changes, its lock stays in the table. *)
Lemma lock_inv_update m c u v lk lk' : lock_inv m → users m !! c = Some u →
  u_lock v = u_lock u → u_target v = u_target u →
  lock_heap m !! u_lock u = Some lk → l_users lk' = l_users lk →
  (u_phase v = Holds → l_token lk' = true ∧ (u_phase u = Holds ∨ l_token lk = false)) →
  (u_phase v ≠ Holds → u_phase u = Holds ∧ l_token lk' = false ∨ u_phase u ≠ Holds ∧ l_token lk' = l_token lk) →
  lock_inv (Table (locks m) (<[u_lock u := lk']> (lock_heap m)) (next_lock m) (<[c := v]> (users m))).
Proof.
  intros [HU HL HE HI] Hc Hl Ht Hlk Hn Hh Hnh. destruct (HL _ _ (HU _ _ Hc)) as (_ & lk0 & Hlk0 & Hcnt & Hpos & Htok).
  rewrite Hlk in Hlk0. injection Hlk0 as <-.
  assert (∀ t, v = User t (u_lock u) Holds → ∀ d t', d ≠ c → users m !! d ≠ Some (User t' (u_lock u) Holds)) as Honly.
  { intros t -> d t' Hd Hd'. destruct (Hh eq_refl) as [_ [Hu|Hf]].
    - destruct u as [tu lu pu]. simpl in *. subst pu. by destruct Hd; eapply HE.
    - rewrite (proj2 Htok) in Hf by eauto. done. }
  split; simpl.
  - intros d w. destruct (decide (d = c)) as [->|Hd]; [rewrite lookup_insert_eq; intros [= <-]; rewrite Hl, Ht; by apply (HU c)|].
    rewrite lookup_insert_ne by done. apply HU.
  - intros t l Htl. destruct (HL _ _ Htl) as (Hlt & lk1 & Hlk1 & Hc1 & Hp1 & Ht1). split; [done|].
    rewrite (count_same _ _ _ u) by done.
    destruct (decide (l = u_lock u)) as [->|Hne].
    + exists lk'. rewrite lookup_insert_eq. rewrite Hlk in Hlk1. injection Hlk1 as <-. rewrite Hn.
      split_and!; [done|done|done|]. split.
      * intros Htk. destruct (decide (u_phase v = Holds)) as [Hv|Hv].
        -- exists c, (u_target v). rewrite lookup_insert_eq. destruct v; simpl in *. by subst.
        -- destruct (Hnh Hv) as [[_ Hf]|[Hu Hs]]; [congruence|]. rewrite Hs in Htk.
           destruct (proj1 Htok Htk) as (d & t' & Hd). exists d, t'. rewrite lookup_insert_ne; [done|].
           intros <-. rewrite Hc in Hd. destruct u; simpl in *; simplify_eq.
      * intros (d & t' & Hd). destruct (decide (d = c)) as [->|Hdc].
        -- rewrite lookup_insert_eq in Hd. injection Hd as ->. by apply Hh.
        -- rewrite lookup_insert_ne in Hd by done. destruct (decide (u_phase v = Holds)) as [Hv|Hv]; [by apply Hh|].
           destruct (Hnh Hv) as [[Hu Hf]|[Hu Hs]].
           ++ destruct u as [tu lu pu]; simpl in *; subst pu. by destruct Hdc; eapply HE.
           ++ rewrite Hs. apply Htok. eauto.
    + exists lk1. rewrite lookup_insert_ne by done. split_and!; [done|done|done|]. rewrite Ht1.
      split; intros (d & t' & Hd); exists d, t'; (destruct (decide (d = c)) as [->|Hdc];
        [rewrite ?lookup_insert_eq in *; simplify_eq; done|by rewrite ?lookup_insert_ne in * by done]).
  - intros d e t t' l. destruct (decide (d = c)) as [->|Hd], (decide (e = c)) as [->|He]; try done;
      rewrite ?lookup_insert_eq, ?lookup_insert_ne by done.
    + intros [= ->] He'. simpl in Hl. subst l. by destruct (Honly t eq_refl e t' He).
    + intros Hd' [= ->]. simpl in Hl. subst l. by destruct (Honly t' eq_refl d t Hd).
    + apply HE.
  - exact HI.
Qed.

Lemma lock_inv_new : lock_inv no_locks.
Proof. split; simpl; intros *; rewrite ?lookup_empty; done. Qed.

(** A user that does not hold a token joins, and its reference is counted. *)
Lemma lock_inv_join m c t l lk ls h n : lock_inv m → users m !! c = None →
  (locks m !! t = Some l ∧ lock_heap m !! l = Some lk ∧ ls = locks m ∧ n = next_lock m
   ∨ locks m !! t = None ∧ l = next_lock m ∧ lk = Lock false 0 ∧ ls = <[t := l]> (locks m) ∧ n = S l) →
  h = <[l := Lock (l_token lk) (l_users lk + 1)]> (lock_heap m) →
  lock_inv (Table ls h n (<[c := User t l Waits]> (users m))).
Proof.
  intros [HU HL HE HI] Hc Hcase ->.
  assert (ls !! t = Some l ∧ (n ≥ next_lock m)%nat ∧ (l < n)%nat ∧ (∀ t' l', ls !! t' = Some l' → t' = t ∧ l' = l ∨ locks m !! t' = Some l')
          ∧ (∀ t' l', locks m !! t' = Some l' → ls !! t' = Some l')
          ∧ (∀ t', ls !! t' = Some l → t' = t)
          ∧ l_users lk = count l (users m) ∧ 0 ≤ l_users lk
          ∧ (l_token lk = true ↔ ∃ c t', users m !! c = Some (User t' l Holds))) as (Hlt & Hn & Hln & Hold & Hkeep & Huniq & Hcnt & Hpos & Htok).
  { destruct Hcase as [(Hl & Hh & -> & ->)|(Hl & -> & -> & -> & ->)].
    - destruct (HL _ _ Hl) as (? & lk' & Hh' & ? & ? & ?). rewrite Hh in Hh'. injection Hh' as <-.
      split_and!; [done|lia|done|by right|done|intros t' Ht'; by apply (HI t' t l)|done|lia|done].
    - assert (∀ d u, users m !! d = Some u → u_lock u ≠ next_lock m) as Hnone.
      { intros d u Hd He. apply HU in Hd as (Hd & _)%HL. lia. }
      split_and!; [apply lookup_insert_eq|lia|lia| | | | |simpl; lia|].
      + intros t' l'. destruct (decide (t' = t)) as [->|Ht]; [rewrite lookup_insert_eq; intros [= <-]; by left|].
        rewrite lookup_insert_ne by done. by right.
      + intros t' l' Ht'. rewrite lookup_insert_ne; [done|congruence].
      + intros t'. destruct (decide (t' = t)) as [->|Ht]; [done|]. rewrite lookup_insert_ne by done.
        intros (? & _)%HL. lia.
      + unfold count. simpl. rewrite (proj2 (map_empty_filter _ _)); [by rewrite map_size_empty|].
        intros d u Hd. simpl. by apply (Hnone d).
      + simpl. split; [done|]. intros (d & t' & Hd). by apply Hnone in Hd. }
  split; simpl.
  - intros d u. destruct (decide (d = c)) as [->|Hd]; [rewrite lookup_insert_eq; by intros [= <-]|].
    rewrite lookup_insert_ne by done. intros Hu. by apply Hkeep, (HU d).
  - intros t' l' Hl'. rewrite count_new by done. simpl. destruct (decide (l = l')) as [<-|Hne].
    + split; [done|]. eexists. rewrite lookup_insert_eq. split_and!; [done|simpl; lia|simpl; lia|].
      simpl. rewrite Htok. split; intros (d & t1 & Hd); exists d, t1; (destruct (decide (d = c)) as [->|Hdc];
        [rewrite ?lookup_insert_eq in *; simplify_eq; congruence|by rewrite ?lookup_insert_ne in * by done]).
    + destruct (Hold _ _ Hl') as [[_ ->]|Hl0]; [done|]. destruct (HL _ _ Hl0) as (Hlt' & lk1 & Hh & Hc1 & Hp1 & Ht1).
      split; [lia|]. exists lk1. rewrite lookup_insert_ne by done. split_and!; [done|lia|done|]. rewrite Ht1.
      split; intros (d & t1 & Hd); exists d, t1; (destruct (decide (d = c)) as [->|Hdc];
        [rewrite ?lookup_insert_eq in *; simplify_eq; congruence|by rewrite ?lookup_insert_ne in * by done]).
  - intros d e t1 t2 l1. destruct (decide (d = c)) as [->|Hd], (decide (e = c)) as [->|He]; try done;
      rewrite ?lookup_insert_eq, ?lookup_insert_ne by done; try done. apply HE.
  - intros t1 t2 l1 H1 H2. destruct (Hold _ _ H1) as [[-> ->]|H1']; [symmetry; by apply Huniq|].
    destruct (Hold _ _ H2) as [[-> ->]|H2']; [by apply Huniq|by eapply HI].
Qed.

(** A user that does not hold the token leaves; the table forgets an unused lock. *)
Lemma lock_inv_leave m c u m' : lock_inv m → users m !! c = Some u → u_phase u ≠ Holds →
  lock_release m c u = Ok m' → lock_inv m'.
Proof.
  intros [HU HL HE HI] Hc Hph Hr. pose proof (HU _ _ Hc) as Hl. destruct (HL _ _ Hl) as (Hlt & lk & Hlk & Hcnt & Hpos & Htok).
  unfold lock_release in Hr. rewrite Hlk in Hr. injection Hr as <-. simpl.
  rewrite (count_drop _ _ _ _ Hc), decide_True in Hcnt by done.
  assert (∀ d v, delete c (users m) !! d = Some v → d ≠ c ∧ users m !! d = Some v) as Hdel.
  { intros d v Hd. apply lookup_delete_Some in Hd as [? ?]. by split. }
  assert (∀ d t' l', users m !! d = Some (User t' l' Holds) ↔ delete c (users m) !! d = Some (User t' l' Holds)) as Hholds.
  { intros d t' l'. rewrite lookup_delete_Some. split; [|by intros []]. intros Hd. split; [|done]. intros <-.
    rewrite Hc in Hd. by injection Hd as ->. }
  set (ls := if l_users lk - 1 =? 0 then delete (u_target u) (locks m) else locks m).
  assert (∀ t l, ls !! t = Some l → locks m !! t = Some l) as Hsub.
  { intros t l. unfold ls. case_match; [|done]. rewrite lookup_delete_Some. by intros []. }
  split; simpl.
  - intros d v (Hd & Hv)%Hdel. pose proof (HU _ _ Hv) as Hlv. unfold ls. destruct (l_users lk - 1 =? 0) eqn:Hz; [|done].
    propify. apply lookup_delete_Some. split; [|done]. intros He. rewrite <- He, Hl in Hlv. injection Hlv as Hlv.
    assert (0 < count (u_lock u) (delete c (users m))); [|lia]. apply (count_pos _ _ d v); [|done].
    by rewrite lookup_delete_ne.
  - intros t l Htl. destruct (HL _ _ (Hsub _ _ Htl)) as (Hlt' & lk1 & Hlk1 & Hc1 & Hp1 & Ht1). split; [done|].
    rewrite (count_drop _ _ _ _ Hc) in Hc1. destruct (decide (l = u_lock u)) as [->|Hne].
    + rewrite decide_True in Hc1 by done. eexists. rewrite lookup_insert_eq. rewrite Hlk in Hlk1. injection Hlk1 as <-.
      split_and!; [done|simpl; lia| |].
      * simpl. assert (t = u_target u) as -> by (eapply HI; [by apply Hsub|done]). unfold ls in Htl.
        destruct (l_users lk - 1 =? 0) eqn:Hz; [by rewrite lookup_delete_eq in Htl|]. propify. lia.
      * simpl. rewrite Htok. by setoid_rewrite Hholds.
    + rewrite decide_False in Hc1 by done. exists lk1. rewrite lookup_insert_ne by done.
      split_and!; [done|lia|done|]. rewrite Ht1. by setoid_rewrite Hholds.
  - intros d e t t' l Hd%Hholds He%Hholds. by eapply HE.
  - intros t t' l Ht%Hsub Ht'%Hsub. by eapply HI.
Qed.

(** Every enabled step succeeds and keeps the invariant. *)
Lemma lock_exec_inv m s r : lock_inv m → lock_exec m s = Some r → ∃ m', r = Ok m' ∧ lock_inv m'.
Proof.
  intros Hi. pose proof Hi as [HU HL HE HI]. destruct s as [c t|c|c|c|c]; simpl;
    (destruct (users m !! c) as [[t1 l ph]|] eqn:Hc; [|]); try done.
  - intros [= <-]. unfold lock_ref. destruct (locks m !! t) as [l|] eqn:Hl.
    + destruct (HL _ _ Hl) as (_ & lk & Hlk & _). rewrite Hlk. eexists. split; [done|].
      eapply (lock_inv_join m c t l lk); [done|done|by left|done].
    + eexists. split; [done|]. eapply (lock_inv_join m c t (next_lock m) (Lock false 0)); [done|done|by right|done].
  - destruct ph; try done. destruct (HL _ _ (HU _ _ Hc)) as (_ & lk & Hlk & _). simpl in Hlk. rewrite Hlk.
    destruct (l_token lk) eqn:Ht; [done|]. intros [= <-]. eexists. split; [done|].
    unfold set_token. simpl. by eapply (lock_inv_update m c (User t1 l Waits) (User t1 l Holds)); simpl; eauto.
  - destruct ph; try done. intros [= <-]. destruct (lock_release m c _) as [m'|e|] eqn:Hr.
    + exists m'. split; [done|]. by eapply lock_inv_leave.
    + unfold lock_release in Hr. by case_match.
    + unfold lock_release in Hr. destruct (HL _ _ (HU _ _ Hc)) as (_ & lk & Hlk & _). by rewrite Hlk in Hr.
  - destruct ph; try done. destruct (HL _ _ (HU _ _ Hc)) as (_ & lk & Hlk & _). simpl in Hlk. rewrite Hlk.
    destruct (l_token lk) eqn:Ht; [|done]. intros [= <-]. eexists. split; [done|].
    unfold set_token. simpl. by eapply (lock_inv_update m c (User t1 l Holds) (User t1 l Leaves)); simpl; eauto.
  - destruct ph; try done. intros [= <-]. destruct (lock_release m c _) as [m'|e|] eqn:Hr.
    + exists m'. split; [done|]. by eapply lock_inv_leave.
    + unfold lock_release in Hr. by case_match.
    + unfold lock_release in Hr. destruct (HL _ _ (HU _ _ Hc)) as (_ & lk & Hlk & _). by rewrite Hlk in Hr.
Qed.

(** What the invariant says of a user: it has its target to itself while it holds the token. *)
Lemma lock_inv_holds m c d u v : lock_inv m → users m !! c = Some u → users m !! d = Some v →
  u_phase u = Holds → u_phase v = Holds → u_target u = u_target v → c = d.
Proof.
  intros [HU HL HE HI] Hc Hd. destruct u as [t l p], v as [t' l' p']. simpl. intros -> -> ->.
  apply HU in Hc as Hl. apply HU in Hd as Hl'. simpl in *. rewrite Hl in Hl'. injection Hl' as ->. by eapply HE.
Qed.
(** A put never blocks. *)
Lemma lock_inv_put m c t l : lock_inv m → users m !! c = Some (User t l Holds) → lock_exec m (LPut c) ≠ None.
Proof.
  intros [HU HL HE HI] Hc. simpl. rewrite Hc. destruct (HL _ _ (HU _ _ Hc)) as (_ & lk & Hlk & _ & _ & Ht). simpl in *.
  rewrite Hlk. rewrite (proj2 Ht) by eauto. done.
Qed.
