(* ===== verification/Rollback.v ===== *)
(** * Rollback records ([internal/fileops/rollback.go], [commit.go])

    The manager keeps, per activation of a session, one backup for each file
    the session last edited, within a number of records and of bytes. Edits,
    previews and rollbacks are calls of several steps here: sections under
    [m.mu], the operations of the target lock (LockTable.v), and the accesses
    to the file system, between which other calls, the end of a session and
    writes by other programs may come.

    A record is never changed, and no two have the same number, so a pointer
    to a record is its value here. Times are left out. *)
From S2P Require Import Prelude GoStr FileText FileEdit FileDiff FileSystem FileIO LockTable.
Open Scope Z_scope.

Definition rollbackMaxBytes : Z := 256 * 1024 * 1024.
Definition rollbackMaxRecords : Z := 1024.

Record rollbackRecord := Rec {
  r_ID : Z; r_Path : path; r_Target : path; r_Created : bool; r_RevisionBefore : gostring; r_RevisionAfter : gostring;
  r_scope : nat; r_before : gostring; r_mode : Z; r_encoding : gostring; r_afterSize : Z
}.
#[export] Instance rollbackRecord_eq_dec : EqDecision rollbackRecord.
Proof. solve_decision. Defined.
Record rollbackScope := Scope { s_binding : nat; s_files : gmap path rollbackRecord }.

(** [scopes] maps a binding to an object of [scope_heap]. *)
Record RollbackManager := Manager {
  scopes : gmap nat nat; scope_heap : gmap nat rollbackScope; next_scope : nat;
  records : gmap Z rollbackRecord; nextID : Z; bytes : Z; maxBytes : Z; maxRecords : Z
}.
Definition NewRollbackManager : RollbackManager := Manager ∅ ∅ 0 ∅ 0 0 rollbackMaxBytes rollbackMaxRecords.

Definition set_records (m : RollbackManager) (h : gmap nat rollbackScope) (rs : gmap Z rollbackRecord) (b : Z) : RollbackManager :=
  Manager (scopes m) h (next_scope m) rs (nextID m) b (maxBytes m) (maxRecords m).
Definition set_scopes (m : RollbackManager) (s : gmap nat nat) : RollbackManager :=
  Manager s (scope_heap m) (next_scope m) (records m) (nextID m) (bytes m) (maxBytes m) (maxRecords m).

Definition size_of (r : rollbackRecord) : Z := Z.of_nat (length (r_before r)).
Definition drop_file (t : path) (sc : rollbackScope) : rollbackScope := Scope (s_binding sc) (delete t (s_files sc)).
Definition removeLocked (m : RollbackManager) (r : rollbackRecord) : RollbackManager :=
  set_records m (alter (drop_file (r_Target r)) (r_scope r) (scope_heap m)) (delete (r_ID r) (records m)) (bytes m - size_of r).

(** The loop over the files of a forgotten scope visits them in any order. *)
Definition forgetLocked (m : RollbackManager) (b : nat) : RollbackManager :=
  match scopes m !! b with
  | None => m
  | Some p =>
    let files := match scope_heap m !! p with Some sc => map snd (map_to_list (s_files sc)) | None => [] end in
    let m := foldl removeLocked m files in
    set_scopes m (delete b (scopes m))
  end.

(** A lease: the scope it points to and that scope's binding. *)
Record lease := Lease { ls_scope : nat; ls_binding : nat }.

(** [Session]: [valid] holds the bindings whose [Valid()] is true. *)
Definition reclaim (valid : gset nat) (m : RollbackManager) (old : nat) : RollbackManager :=
  if decide (old ∈ valid) then m else forgetLocked m old.
Definition Session (valid : gset nat) (m : RollbackManager) (binding : option nat) : RollbackManager * option lease :=
  match binding with
  | None => (m, None)
  | Some b =>
    if negb (bool_decide (b ∈ valid)) then (m, None)
    else
      let m := foldl (reclaim valid) m (map fst (map_to_list (scopes m))) in
      match scopes m !! b with
      | Some p => (m, Some (Lease p b))
      | None =>
        let p := next_scope m in
        (Manager (<[b := p]> (scopes m)) (<[p := Scope b ∅]> (scope_heap m)) (S p) (records m) (nextID m) (bytes m)
                 (maxBytes m) (maxRecords m), Some (Lease p b))
      end
  end.
Definition validLocked (valid : gset nat) (m : RollbackManager) (s : lease) : bool :=
  bool_decide (ls_binding s ∈ valid) && bool_decide (scopes m !! ls_binding s = Some (ls_scope s)).
Definition check (valid : gset nat) (m : RollbackManager) (s : lease) (ctxErr : option gostring) : res unit :=
  match ctxErr with
  | Some e => Err e
  | None => if validLocked valid m s then Ok tt else Err ErrRollbackExpired
  end.

(** [List]: the records of the lease, by number. *)
Definition record_le (a b : rollbackRecord) : Prop := r_ID a ≤ r_ID b.
#[export] Instance record_le_dec : RelDecision record_le.
Proof. intros a b. unfold record_le. apply _. Defined.
Definition files_of (m : RollbackManager) (p : nat) : gmap path rollbackRecord :=
  match scope_heap m !! p with Some sc => s_files sc | None => ∅ end.
Definition List (valid : gset nat) (m : RollbackManager) (s : lease) : res (list rollbackRecord) :=
  if validLocked valid m s then Ok (merge_sort record_le (map snd (map_to_list (files_of m (ls_scope s)))))
  else Err ErrRollbackExpired.

(** ** Publication of a record *)
Definition older (best : option rollbackRecord) (r : rollbackRecord) : option rollbackRecord :=
  match best with Some b => if r_ID r <? r_ID b then Some r else best | None => Some r end.
Definition oldest (m : RollbackManager) : option rollbackRecord :=
  foldl older None (map snd (map_to_list (records m))).
(** The eviction loop; a manager without records that is still over a limit
    would dereference nil, and too little fuel is a [Panic] as well. *)
Fixpoint evict (fuel : nat) (m : RollbackManager) (evicted : Z) : res (RollbackManager * Z) :=
  match fuel with
  | O => Panic
  | S fuel =>
    if (maxBytes m <? bytes m) || (maxRecords m <? Z.of_nat (size (records m))) then
      match oldest m with
      | None => Panic
      | Some r => evict fuel (removeLocked m r) (evicted + 1)
      end
    else Ok (m, evicted)
  end.

Definition put_record (m : RollbackManager) (p : nat) (r : rollbackRecord) : RollbackManager :=
  Manager (scopes m) (alter (λ sc, Scope (s_binding sc) (<[r_Target r := r]> (s_files sc))) p (scope_heap m))
          (next_scope m) (<[r_ID r := r]> (records m)) (r_ID r) (bytes m + size_of r) (maxBytes m) (maxRecords m).
(** The section after the write: the record made by [make] from its number
    takes the place of the scope's record of the same target. *)
Definition publish (valid : gset nat) (m : RollbackManager) (s : lease) (target : path) (make : Z → rollbackRecord)
    : res (RollbackManager * option (bool * Z)) :=
  if negb (validLocked valid m s) then Ok (m, None)
  else
    let m := match files_of m (ls_scope s) !! target with Some previous => removeLocked m previous | None => m end in
    let r := make ((nextID m + 1) mod 2 ^ 64) in
    let m := put_record m (ls_scope s) r in
    let* (m, n) := evict (S (size (records m))) m 0 in
    Ok (m, Some (bool_decide (records m !! r_ID r = Some r), n)).

(** The section of [loadRecord], and the section that ends a rollback. *)
Definition load_section (valid : gset nat) (m : RollbackManager) (s : lease) (p target : path) (expectedID : Z)
  : res rollbackRecord :=
  if negb (validLocked valid m s) then Err ErrRollbackExpired
  else
    let files := files_of m (ls_scope s) in
    if existsb (λ r, bool_decide (r_Path r = p) && negb (bool_decide (r_Target r = target))) (map snd (map_to_list files))
    then Err (fileChanged §"file target changed; rollback refused")
    else
      match files !! target with
      | None => Err ErrRollbackNotFound
      | Some r => if negb (expectedID =? 0) && negb (r_ID r =? expectedID) then Err ErrRollbackNotFound else Ok r
      end.
Definition commit_section (valid : gset nat) (m : RollbackManager) (s : lease) (r : rollbackRecord) (ctxErr : option gostring)
  : res unit :=
  if negb (validLocked valid m s) then Err ErrRollbackExpired
  else if negb (bool_decide (records m !! r_ID r = Some r)) then Err ErrRollbackNotFound
  else match ctxErr with Some e => Err e | None => Ok tt end.
