(* ===== verification/RollbackProps.v ===== *)
(** * Invariants of the rollback manager *)
From S2P Require Import Prelude GoStr FileSystem LockTable Rollback.
Open Scope Z_scope.

(** ** Accounting *)
Definition add_size (_ : Z) (r : rollbackRecord) (n : Z) : Z := size_of r + n.
Definition total (rs : gmap Z rollbackRecord) : Z := map_fold add_size 0 rs.
Lemma total_delete rs id r : rs !! id = Some r → total rs = size_of r + total (delete id rs).
Proof. intros H. unfold total. rewrite (map_fold_delete_L _ _ id r rs); [done| |done]. unfold add_size. lia. Qed.
Lemma total_insert rs id r : rs !! id = None → total (<[id := r]> rs) = size_of r + total rs.
Proof. intros H. rewrite (total_delete _ id r) by apply lookup_insert_eq. by rewrite delete_insert_id. Qed.

(** The scopes of the table and the records agree: a record is the file of
    its target in its scope, whose binding is in the table. *)
Record mgr_inv (m : RollbackManager) : Prop := {
  mi_rec : ∀ id r, records m !! id = Some r → r_ID r = id ∧ 0 < id ≤ nextID m
             ∧ files_of m (r_scope r) !! r_Target r = Some r ∧ ∃ b, scopes m !! b = Some (r_scope r);
  mi_file : ∀ p t r, files_of m p !! t = Some r → records m !! r_ID r = Some r ∧ r_scope r = p ∧ r_Target r = t;
  mi_scope : ∀ b p, scopes m !! b = Some p → (p < next_scope m)%nat ∧ ∃ sc, scope_heap m !! p = Some sc ∧ s_binding sc = b;
  mi_heap : ∀ p sc, scope_heap m !! p = Some sc → (p < next_scope m)%nat;
  mi_bytes : bytes m = total (records m);
  mi_next : 0 ≤ nextID m
}.
Definition within (m : RollbackManager) : Prop :=
  bytes m ≤ maxBytes m ∧ Z.of_nat (size (records m)) ≤ maxRecords m ∧ 0 ≤ maxBytes m ∧ 0 ≤ maxRecords m.

Lemma size_nonneg r : 0 ≤ size_of r.
Proof. unfold size_of. lia. Qed.
Lemma total_nonneg rs : 0 ≤ total rs.
Proof.
  unfold total. apply (map_fold_weak_ind (λ n _, 0 ≤ n)); [done|]. intros id r rs' n _ Hn. unfold add_size.
  pose proof (size_nonneg r). lia.
Qed.

Lemma files_of_remove m r p : files_of (removeLocked m r) p =
  if decide (p = r_scope r) then delete (r_Target r) (files_of m p) else files_of m p.
Proof.
  unfold files_of, removeLocked. simpl. case_decide as Hp.
  - subst p. rewrite lookup_alter_eq. destruct (scope_heap m !! r_scope r); simpl; [done|by rewrite delete_empty].
  - by rewrite lookup_alter_ne.
Qed.
Lemma scope_heap_remove m r p sc : scope_heap (removeLocked m r) !! p = Some sc →
  ∃ sc0, scope_heap m !! p = Some sc0 ∧ s_binding sc = s_binding sc0.
Proof.
  simpl. destruct (decide (p = r_scope r)) as [->|Hp]; [rewrite lookup_alter_eq|rewrite lookup_alter_ne by done; eauto].
  destruct (scope_heap m !! r_scope r) as [sc0|]; simpl; [|done]. intros [= <-]. by exists sc0.
Qed.
Lemma scope_heap_remove_some m r p sc : scope_heap m !! p = Some sc →
  ∃ sc', scope_heap (removeLocked m r) !! p = Some sc' ∧ s_binding sc' = s_binding sc.
Proof.
  intros Hp. simpl. destruct (decide (p = r_scope r)) as [->|Hne].
  - rewrite lookup_alter_eq, Hp. by eexists.
  - rewrite lookup_alter_ne by done. by eexists.
Qed.

Lemma removeLocked_inv m r : mgr_inv m → records m !! r_ID r = Some r → mgr_inv (removeLocked m r).
Proof.
  intros [HR HF HS HH HB HN] Hr. destruct (HR _ _ Hr) as (_ & _ & Hfile & _). split.
  - intros id r' Hr'. simpl in Hr'. apply lookup_delete_Some in Hr' as [Hne Hr'].
    destruct (HR _ _ Hr') as (Hid & Hlt & Hf & Hb). split_and!; [done|simpl; lia|simpl; lia| |done].
    rewrite files_of_remove. case_decide as Hs; [|done]. apply lookup_delete_Some. split; [|done].
    intros Ht. rewrite Hs, <- Ht, Hfile in Hf. congruence.
  - intros p t r' Hf. rewrite files_of_remove in Hf.
    assert (files_of m p !! t = Some r' ∧ (p = r_scope r → t ≠ r_Target r)) as [Hf' Hnt].
    { case_decide; [apply lookup_delete_Some in Hf as [? ?]; by split|by split]. }
    destruct (HF _ _ _ Hf') as (Hr' & Hp & Ht). split; [|done]. simpl. apply lookup_delete_Some. split; [|done].
    intros He. rewrite <- He, Hr in Hr'. injection Hr' as <-. by apply Hnt.
  - intros b p Hb. destruct (HS b p Hb) as (Hlt & sc & Hp & <-). split; [done|].
    destruct (scope_heap_remove_some m r p sc Hp) as (sc' & ? & ?). by exists sc'.
  - intros p sc (sc0 & Hp & _)%scope_heap_remove. by eapply HH.
  - simpl. rewrite HB, (total_delete _ _ _ Hr). lia.
  - done.
Qed.

(** ** Eviction *)
Lemma elem_of_values `{Countable K} {A} (m : gmap K A) (x : A) : x ∈ map snd (map_to_list m) ↔ ∃ k, m !! k = Some x.
Proof.
  rewrite list_elem_of_fmap. split.
  - intros ([k y] & -> & Hi%elem_of_map_to_list). by exists k.
  - intros (k & Hk). exists (k, x). split; [done|]. by apply elem_of_map_to_list.
Qed.

Lemma oldest_spec m : (∀ id r, records m !! id = Some r → r_ID r = id) →
  match oldest m with
  | Some r => records m !! r_ID r = Some r ∧ ∀ id r', records m !! id = Some r' → r_ID r ≤ id
  | None => records m = ∅
  end.
Proof.
  intros Hid. unfold oldest.
  assert (∀ l best, (∀ r, r ∈ l → records m !! r_ID r = Some r) →
    match foldl older best l with
    | Some r => (r ∈ l ∨ best = Some r) ∧ (∀ r', r' ∈ l ∨ best = Some r' → r_ID r ≤ r_ID r')
    | None => l = [] ∧ best = None
    end) as Hfold.
  { induction l as [|x l IH]; intros best Hl; simpl.
    - destruct best as [b|]; [|done]. split; [by right|]. intros r' [Hr'|[= <-]]; [by apply not_elem_of_nil in Hr'|lia].
    - specialize (IH (older best x)). destruct (foldl older (older best x) l) as [r|].
      + destruct IH as [Hin Hmin]; [intros; apply Hl; by right|]. split.
        * destruct Hin as [Hin|Hb]; [left; by right|]. unfold older in Hb. destruct best as [b|]; [case_match|];
            simplify_eq; auto; left; by left.
        * intros r' Hr'. assert (∃ r'', (r'' ∈ l ∨ older best x = Some r'') ∧ r_ID r'' ≤ r_ID r') as (r'' & H'' & Hle);
            [|specialize (Hmin _ H''); lia].
          destruct Hr' as [[-> | Hr']%elem_of_cons| ->]; simpl.
          -- destruct best as [b|]; simpl; [|exists x; split; [by right|lia]].
             destruct (Z.ltb_spec (r_ID x) (r_ID b)); [exists x|exists b]; (split; [by right|lia]).
          -- exists r'. split; [by left|lia].
          -- destruct (Z.ltb_spec (r_ID x) (r_ID r')); [exists x|exists r']; (split; [by right|lia]).
      + destruct IH as [_ Hb]; [intros; apply Hl; by right|]. unfold older in Hb. destruct best; [by case_match|done]. }
  specialize (Hfold (map snd (map_to_list (records m))) None).
  assert (∀ r, r ∈ map snd (map_to_list (records m)) ↔ ∃ id, records m !! id = Some r) as Hin by (intros r; apply elem_of_values).
  destruct (foldl older None _) as [r|].
  - destruct Hfold as [[Hr|[=]] Hmin]; [intros r1 (id & Hr)%Hin; by rewrite (Hid _ _ Hr)|].
    apply Hin in Hr as (id & Hr). split; [by rewrite (Hid _ _ Hr)|]. intros id' r' Hr'. rewrite <- (Hid _ _ Hr').
    apply Hmin. left. apply Hin. by exists id'.
  - destruct Hfold as [Hn _]; [intros r (id & Hr)%Hin; by rewrite (Hid _ _ Hr)|].
    apply map_eq. intros id. rewrite lookup_empty. destruct (records m !! id) as [r|] eqn:Hr; [|done].
    assert (r ∈ map snd (map_to_list (records m))) as Hr' by (apply Hin; by exists id). rewrite Hn in Hr'.
    by apply not_elem_of_nil in Hr'.
Qed.

(** What stays fixed while records come and go. *)
Definition same_frame (m m' : RollbackManager) : Prop :=
  scopes m' = scopes m ∧ next_scope m' = next_scope m ∧ nextID m' = nextID m
  ∧ maxBytes m' = maxBytes m ∧ maxRecords m' = maxRecords m.
Lemma same_frame_trans a b c : same_frame a b → same_frame b c → same_frame a c.
Proof. unfold same_frame. intuition congruence. Qed.

Lemma single_record m id r : mgr_inv m → records m !! id = Some r →
  (∀ id' r', records m !! id' = Some r' → id' = id) → records m = {[id := r]}.
Proof.
  intros Hi Hr Honly. apply map_eq. intros id'. destruct (decide (id' = id)) as [->|Hne]; [by rewrite lookup_singleton_eq|].
  rewrite lookup_singleton_ne by done. destruct (records m !! id') eqn:H'; [|done]. by apply Honly in H'.
Qed.

(** The eviction loop ends within its fuel and never finds the table empty.
    It removes the oldest records first, no more than it takes, and in
    particular not the newest one if that fits alone. *)
Lemma evict_spec : ∀ fuel m n, mgr_inv m → 0 ≤ maxBytes m → 0 ≤ maxRecords m → (size (records m) < fuel)%nat →
  ∃ m', evict fuel m n = Ok (m', n + (Z.of_nat (size (records m)) - Z.of_nat (size (records m'))))
    ∧ mgr_inv m' ∧ within m' ∧ same_frame m m' ∧ records m' ⊆ records m
    ∧ (∀ id r id' r', records m !! id = Some r → records m' !! id = None → records m' !! id' = Some r' → id < id')
    ∧ (∀ id r, records m !! id = Some r → (∀ id' r', records m !! id' = Some r' → id' ≤ id) →
         size_of r ≤ maxBytes m → 1 ≤ maxRecords m → records m' !! id = Some r).
Proof.
  induction fuel as [|fuel IH]; intros m n Hi Hmb Hmr Hf; [lia|]. simpl.
  destruct (_ || _) eqn:Hover.
  - pose proof (oldest_spec m (λ id r H, proj1 (mi_rec m Hi id r H))) as Hold.
    destruct (oldest m) as [r|].
    + destruct Hold as [Hr Hmin]. pose proof (removeLocked_inv m r Hi Hr) as Hi'.
      assert (size (records m) = S (size (records (removeLocked m r)))) as Hsz
        by (simpl; rewrite map_size_delete_Some by (by exists r); destruct (size (records m)) eqn:E;
            [apply map_size_empty_inv in E; by rewrite E, lookup_empty in Hr|simpl; lia]).
      destruct (IH (removeLocked m r) (n + 1) Hi') as (m' & He & Hi'' & Hw & Hfr & Hsub & Hord & Hnew); [done|done|lia|].
      exists m'. rewrite He. split_and!; [do 2 f_equal; lia|done|done| | | |].
      * eapply same_frame_trans; [|exact Hfr]. done.
      * etrans; [done|]. apply delete_subseteq.
      * intros id r1 id' r' H1 Hn H'. destruct (decide (id = r_ID r)) as [->|Hne].
        -- assert (records (removeLocked m r) !! id' = Some r') as Hl by (by eapply lookup_weaken).
           simpl in Hl. apply lookup_delete_Some in Hl as [Hid Hl]. specialize (Hmin _ _ Hl). lia.
        -- apply (Hord id r1 id' r'); [|done|done]. simpl. by rewrite lookup_delete_ne.
      * intros id r1 H1 Hmax Hs H1r. destruct (decide (id = r_ID r)) as [->|Hne].
        -- exfalso. rewrite Hr in H1. injection H1 as <-.
           assert (records m = {[r_ID r := r]}) as Hsingle.
           { apply single_record; [done|done|]. intros id' r' H'. specialize (Hmin _ _ H'). specialize (Hmax _ _ H'). lia. }
           rewrite (mi_bytes m Hi), Hsingle, map_size_singleton in Hover. unfold total in Hover.
           rewrite map_fold_singleton in Hover. unfold add_size in Hover. propify. lia.
        -- apply Hnew; [simpl; by rewrite lookup_delete_ne| |done|done].
           intros id' r' H'. simpl in H'. apply lookup_delete_Some in H' as [_ H']. by eapply Hmax.
    + exfalso. rewrite (mi_bytes m Hi), Hold in Hover. unfold total in Hover. rewrite map_fold_empty, map_size_empty in Hover.
      propify. lia.
  - propify. exists m. split_and!; [do 2 f_equal; lia|done|unfold within; lia|done|done| |].
    + intros id r id' r' H1 H2. congruence.
    + done.
Qed.

(** The eviction loop always ends, within as many rounds as there are
    records and one, and never finds the table empty: it leaves the backups
    within both limits, counts what it removed, removes older records before
    newer ones, and keeps the newest if that one alone is within the limits. *)
Lemma eviction_ends m : mgr_inv m → 0 ≤ maxBytes m → 0 ≤ maxRecords m →
  ∃ m', evict (S (size (records m))) m 0 = Ok (m', Z.of_nat (size (records m)) - Z.of_nat (size (records m')))
    ∧ bytes m' = total (records m') ∧ bytes m' ≤ maxBytes m' ∧ Z.of_nat (size (records m')) ≤ maxRecords m'
    ∧ records m' ⊆ records m
    ∧ (∀ id r id' r', records m !! id = Some r → records m' !! id = None → records m' !! id' = Some r' → id < id')
    ∧ (∀ id r, records m !! id = Some r → (∀ id' r', records m !! id' = Some r' → id' ≤ id) →
         size_of r ≤ maxBytes m → 1 ≤ maxRecords m → records m' !! id = Some r).
Proof.
  intros Hi Hb Hr. destruct (evict_spec (S (size (records m))) m 0 Hi Hb Hr ltac:(lia)) as (m' & He & Hi' & (? & ? & _) & _ & Hrest).
  exists m'. split; [exact He|]. split; [apply (mi_bytes _ Hi')|]. split; [done|]. split; [done|exact Hrest].
Qed.

(** ** Publication *)
Lemma files_of_put m p r q : (∃ sc, scope_heap m !! p = Some sc) →
  files_of (put_record m p r) q = if decide (q = p) then <[r_Target r := r]> (files_of m q) else files_of m q.
Proof.
  intros (sc & Hp). unfold files_of, put_record. simpl. case_decide as Hq.
  - subst q. by rewrite lookup_alter_eq, Hp.
  - by rewrite lookup_alter_ne.
Qed.
Lemma put_record_inv m b p r : mgr_inv m → scopes m !! b = Some p → files_of m p !! r_Target r = None →
  r_scope r = p → nextID m < r_ID r → mgr_inv (put_record m p r).
Proof.
  intros Hi Hb Hno Hp Hid. pose proof Hi as [HR HF HS HH HB HN].
  destruct (HS _ _ Hb) as (Hlt & sc & Hsc & Hbind).
  assert (∃ sc, scope_heap m !! p = Some sc) as Hex by eauto.
  assert (records m !! r_ID r = None) as Hfresh.
  { destruct (records m !! r_ID r) as [r'|] eqn:H'; [|done]. destruct (HR _ _ H') as (_ & ? & _). lia. }
  split.
  - intros id r'. simpl. destruct (decide (id = r_ID r)) as [->|Hne].
    + rewrite lookup_insert_eq. intros [= <-]. split_and!; [done|lia|lia| |rewrite Hp; by exists b].
      rewrite files_of_put, Hp, decide_True by done. by rewrite lookup_insert_eq.
    + rewrite lookup_insert_ne by done. intros H'. destruct (HR _ _ H') as (? & ? & Hf & ?).
      split_and!; [done|lia|lia| |done]. rewrite files_of_put by done. case_decide as Hs; [|done].
      rewrite lookup_insert_ne; [done|]. intros Ht. rewrite Ht, <- Hs, Hf in Hno. done.
  - intros q t r'. rewrite files_of_put by done. simpl. case_decide as Hq.
    + subst q. destruct (decide (t = r_Target r)) as [->|Ht].
      * rewrite lookup_insert_eq. intros [= <-]. by rewrite lookup_insert_eq.
      * rewrite lookup_insert_ne by done. intros Hf. destruct (HF _ _ _ Hf) as (Hr' & ? & ?).
        rewrite lookup_insert_ne; [done|]. intros He. by rewrite He, Hr' in Hfresh.
    + intros Hf. destruct (HF _ _ _ Hf) as (Hr' & ? & ?).
      rewrite lookup_insert_ne; [done|]. intros He. by rewrite He, Hr' in Hfresh.
  - intros b' p' Hb'. destruct (HS _ _ Hb') as (? & sc' & Hsc' & ?). split; [done|]. simpl.
    destruct (decide (p' = p)) as [->|Hne]; [|rewrite lookup_alter_ne by done; by exists sc'].
    rewrite lookup_alter_eq, Hsc'. simpl. by eexists.
  - intros p' sc'. simpl. destruct (decide (p' = p)) as [->|Hne]; [done|]. rewrite lookup_alter_ne by done. apply HH.
  - simpl. rewrite total_insert by done. rewrite HB. lia.
  - simpl. lia.
Qed.

Lemma validLocked_scope valid m s : validLocked valid m s = true → scopes m !! ls_binding s = Some (ls_scope s) ∧ ls_binding s ∈ valid.
Proof. unfold validLocked. intros Hv. propify. destruct Hv. by split. Qed.

Definition record_of (s : lease) (target : path) (make : Z → rollbackRecord) : Prop :=
  ∀ id, r_ID (make id) = id ∧ r_Target (make id) = target ∧ r_scope (make id) = ls_scope s.

(** [publish] by a valid lease: the new record, with the next number, is the
    one record of the scope for its target; older records may have made way. *)
Lemma publish_spec valid m s target make : mgr_inv m → within m → nextID m + 1 < 2 ^ 64 → record_of s target make →
  validLocked valid m s = true →
  let r := make (nextID m + 1) in
  ∃ m' n, publish valid m s target make = Ok (m', Some (bool_decide (records m' !! r_ID r = Some r), n))
    ∧ mgr_inv m' ∧ within m' ∧ scopes m' = scopes m ∧ nextID m' = nextID m + 1
    ∧ maxBytes m' = maxBytes m ∧ maxRecords m' = maxRecords m
    ∧ (∀ id r', records m' !! id = Some r' → r' = r ∨ records m !! id = Some r')
    ∧ (size_of r ≤ maxBytes m → 1 ≤ maxRecords m → records m' !! r_ID r = Some r).
Proof.
  intros Hi Hw Hid Hmake Hv r. destruct (validLocked_scope _ _ _ Hv) as [Hb _]. unfold publish. rewrite Hv. cbn [negb].
  set (m1 := match files_of m (ls_scope s) !! target with Some previous => removeLocked m previous | None => m end).
  assert (mgr_inv m1 ∧ files_of m1 (ls_scope s) !! target = None ∧ same_frame m m1 ∧ records m1 ⊆ records m) as (Hi1 & Hno & Hfr & Hsub).
  { unfold m1. destruct (files_of m (ls_scope s) !! target) as [prev|] eqn:Hp; [|done].
    destruct (mi_file m Hi _ _ _ Hp) as (Hprev & Hs & Ht). split_and!.
    - by apply removeLocked_inv.
    - rewrite files_of_remove, Hs, decide_True, Ht by done. by rewrite lookup_delete_eq.
    - done.
    - apply delete_subseteq. }
  destruct Hfr as (Hsc & Hns & Hnx & Hmb & Hmr).
  rewrite Z.mod_small by (rewrite Hnx; pose proof (mi_next m Hi); lia). rewrite Hnx. fold r.
  destruct (Hmake (nextID m + 1)) as (Hrid & Hrt & Hrs). fold r in Hrid, Hrt, Hrs.
  assert (mgr_inv (put_record m1 (ls_scope s) r)) as Hi2.
  { apply (put_record_inv m1 (ls_binding s)); [done|by rewrite Hsc|by rewrite Hrt|done|lia]. }
  destruct Hw as (_ & _ & Hw3 & Hw4).
  destruct (evict_spec (S (size (records (put_record m1 (ls_scope s) r)))) (put_record m1 (ls_scope s) r) 0 Hi2)
    as (m' & He & Hi' & Hw' & Hfr' & Hsub' & _ & Hnew); [simpl; lia|simpl; lia|lia|].
  rewrite He. cbn [res_bind]. eexists m', _. split; [done|]. destruct Hfr' as (Hsc' & _ & Hnx' & Hmb' & Hmr'). simpl in *.
  split_and!; [done|done|congruence|by rewrite Hnx', Hrid|congruence|congruence| |].
  - intros id r' H'. assert (<[r_ID r := r]> (records m1) !! id = Some r') as Hl by (by eapply lookup_weaken).
    apply lookup_insert_Some in Hl as [[_ <-]|[_ Hl]]; [by left|]. right. by eapply lookup_weaken.
  - intros Hs H1. apply Hnew; [apply lookup_insert_eq| |lia|lia].
    intros id' r' [[<- _]|[_ Hl]]%lookup_insert_Some; [lia|]. destruct (mi_rec m1 Hi1 _ _ Hl) as (_ & ? & _). lia.
Qed.
Lemma publish_stale valid m s target make : validLocked valid m s = false → publish valid m s target make = Ok (m, None).
Proof. unfold publish. by intros ->. Qed.

(** ** Forgetting a scope *)
Lemma remove_all l : ∀ m, mgr_inv m → NoDup l → (∀ r, r ∈ l → records m !! r_ID r = Some r) →
  let m' := foldl removeLocked m l in
  mgr_inv m' ∧ same_frame m m' ∧ bytes m' ≤ bytes m
  ∧ ∀ id r, records m' !! id = Some r ↔ records m !! id = Some r ∧ r ∉ l.
Proof.
  induction l as [|x l IH]; intros m Hi Hnd Hl; simpl.
  { split_and!; [done|done|lia|]. intros id r. split; [|by intros []]. intros H. split; [done|]. apply not_elem_of_nil. }
  apply NoDup_cons in Hnd as [Hx Hnd]. assert (records m !! r_ID x = Some x) as Hrx by (apply Hl; by left).
  destruct (IH (removeLocked m x)) as (Hi' & Hf & Hb & Hr); [by apply removeLocked_inv|done| |].
  - intros r Hr. simpl. rewrite lookup_delete_ne; [apply Hl; by right|]. intros He. apply Hx.
    assert (records m !! r_ID r = Some r) as Hr' by (apply Hl; by right). rewrite <- He, Hrx in Hr'. by injection Hr' as ->.
  - split_and!; [done|by eapply same_frame_trans; [|exact Hf]|simpl in Hb; pose proof (size_nonneg x); lia|].
    intros id r. rewrite Hr. simpl. rewrite lookup_delete_Some, not_elem_of_cons. split.
    + intros ((Hne & H1) & H2). split_and!; [done| |done]. intros ->. destruct (mi_rec m Hi _ _ H1) as (<- & _). done.
    + intros (H1 & Hne & H2). split_and!; [|done|done]. intros <-. rewrite Hrx in H1. by injection H1 as ->.
Qed.
Lemma values_nodup m p : mgr_inv m → NoDup (map snd (map_to_list (files_of m p))).
Proof.
  intros Hi. apply NoDup_fmap_2_strong; [|apply NoDup_map_to_list].
  intros [t r] [t' r'] Ht%elem_of_map_to_list Ht'%elem_of_map_to_list. simpl. intros ->.
  destruct (mi_file m Hi _ _ _ Ht) as (_ & _ & <-), (mi_file m Hi _ _ _ Ht') as (_ & _ & <-). done.
Qed.

(** [forgetLocked] removes the records of the scope and nothing else. *)
Lemma forget_spec m b : mgr_inv m →
  let m' := forgetLocked m b in
  mgr_inv m' ∧ scopes m' = delete b (scopes m) ∧ nextID m' = nextID m ∧ bytes m' ≤ bytes m ∧ next_scope m' = next_scope m
  ∧ maxBytes m' = maxBytes m ∧ maxRecords m' = maxRecords m
  ∧ ∀ id r, records m' !! id = Some r ↔ records m !! id = Some r ∧ scopes m !! b ≠ Some (r_scope r).
Proof.
  intros Hi. unfold forgetLocked. destruct (scopes m !! b) as [p|] eqn:Hb.
  2:{ rewrite delete_id by done. split_and!; try done. intros id r. split; [|by intros []]. by split. }
  destruct (mi_scope m Hi _ _ Hb) as (Hlt & sc & Hsc & Hbind). rewrite Hsc.
  assert (s_files sc = files_of m p) as -> by (unfold files_of; by rewrite Hsc).
  destruct (remove_all (map snd (map_to_list (files_of m p))) m Hi (values_nodup m p Hi)) as (Hi' & Hf & Hby & Hr).
  { intros r (t & Ht)%elem_of_values. by apply (mi_file m Hi) in Ht as (? & _). }
  destruct Hf as (Hs & Hn & Hx & Hmb & Hmr). simpl.
  assert (∀ id r, records (foldl removeLocked m (map snd (map_to_list (files_of m p)))) !! id = Some r ↔
            records m !! id = Some r ∧ Some p ≠ Some (r_scope r)) as Hrec.
  { intros id r. rewrite Hr. split; intros [H1 H2]; (split; [done|]).
    - intros [= ->]. apply H2, elem_of_values. destruct (mi_rec m Hi _ _ H1) as (_ & _ & Hfile & _). by eexists.
    - intros (t & Ht)%elem_of_values. apply H2. by destruct (mi_file m Hi _ _ _ Ht) as (_ & -> & _). }
  split_and!; try done; try congruence. destruct Hi' as [HR HF HS HH HB HN]. split; simpl; try done.
  - intros id r H'. destruct (HR _ _ H') as (? & ? & ? & (b' & Hb')). split_and!; [done|lia|lia|done|].
    exists b'. apply lookup_delete_Some. split; [|done]. intros <-. rewrite Hs, Hb in Hb'.
    by apply Hrec in H' as [_ H'].
  - intros b' p' H'. apply lookup_delete_Some in H' as [_ H']. by apply HS.
Qed.

(** ** Sessions *)
Lemma within_shrink m m' : within m → bytes m' ≤ bytes m → records m' ⊆ records m →
  maxBytes m' = maxBytes m → maxRecords m' = maxRecords m → within m'.
Proof. intros (? & ? & ? & ?) Hb Hr Hmb Hmr. apply map_subseteq_size in Hr. unfold within. rewrite Hmb, Hmr. lia. Qed.
Lemma forget_within m b : mgr_inv m → within m → within (forgetLocked m b).
Proof.
  intros Hi Hw. destruct (forget_spec m b Hi) as (_ & _ & _ & Hb & _ & Hmb & Hmr & Hr).
  eapply within_shrink; [done|done| |done|done]. apply map_subseteq_spec. intros id r Hr'. by apply Hr in Hr' as [? _].
Qed.

(** What [m'] keeps of [m] when only scopes whose binding ended are reclaimed. *)
Record reclaimed (valid : gset nat) (m m' : RollbackManager) : Prop := {
  rc_bytes : bytes m' ≤ bytes m;
  rc_sub : records m' ⊆ records m;
  rc_next : nextID m' = nextID m ∧ maxBytes m' = maxBytes m ∧ maxRecords m' = maxRecords m;
  rc_scopes : scopes m' ⊆ scopes m;
  rc_keep : ∀ b, b ∈ valid → scopes m' !! b = scopes m !! b;
  rc_records : ∀ id r b, records m !! id = Some r → scopes m !! b = Some (r_scope r) → b ∈ valid → records m' !! id = Some r
}.
Lemma reclaim_all valid l : ∀ m, mgr_inv m → let m' := foldl (reclaim valid) m l in
  mgr_inv m' ∧ reclaimed valid m m' ∧ (∀ b, b ∈ l → b ∉ valid → scopes m' !! b = None).
Proof.
  induction l as [|x l IH]; intros m Hi; simpl.
  { split_and!; [done|by split|]. intros b Hb. by apply not_elem_of_nil in Hb. }
  unfold reclaim at 2 4 6. destruct (decide (x ∈ valid)) as [Hx|Hx].
  { destruct (IH m Hi) as (? & ? & Hb). split_and!; [done|done|]. intros b [-> |?]%elem_of_cons; [done|by apply Hb]. }
  destruct (forget_spec m x Hi) as (Hi' & Hs & Hn & Hby & _ & Hmb & Hmr & Hr).
  assert (∀ b b' r, scopes m !! b = Some r → scopes m !! b' = Some r → b = b') as Hinj.
  { intros b b' p Hp Hp'. destruct (mi_scope m Hi _ _ Hp) as (_ & sc & H1 & <-), (mi_scope m Hi _ _ Hp') as (_ & sc' & H2 & <-).
    congruence. }
  destruct (IH _ Hi') as (Hi'' & [R1 R2 (R3 & R4 & R5) R6 R7 R8] & Hgone). split_and!; [done| |].
  - split; [lia| |by rewrite R3, R4, R5| | |].
    + etrans; [done|]. apply map_subseteq_spec. intros id r Hr'. by apply Hr in Hr' as [? _].
    + etrans; [done|]. rewrite Hs. apply delete_subseteq.
    + intros b Hb. rewrite R7, Hs by done. rewrite lookup_delete_ne; [done|]. by intros ->.
    + intros id r b H1 H2 Hb. assert (b ≠ x) as Hbx by (by intros ->). apply (R8 id r b); [|by rewrite Hs, lookup_delete_ne|done].
      apply Hr. split; [done|]. intros H3. by apply Hbx, (Hinj b x (r_scope r)).
  - intros b [-> |Hb]%elem_of_cons Hv; [|by apply Hgone].
    destruct (scopes (foldl (reclaim valid) (forgetLocked m x) l) !! x) as [p|] eqn:He; [|done].
    eapply lookup_weaken in He; [|exact R6]. rewrite Hs, lookup_delete_eq in He. done.
Qed.
Lemma new_scope_inv m b : mgr_inv m → scopes m !! b = None →
  mgr_inv (Manager (<[b := next_scope m]> (scopes m)) (<[next_scope m := Scope b ∅]> (scope_heap m)) (S (next_scope m))
             (records m) (nextID m) (bytes m) (maxBytes m) (maxRecords m)).
Proof.
  intros [HR HF HS HH HB HN] Hb.
  assert (∀ p, files_of (Manager (<[b := next_scope m]> (scopes m)) (<[next_scope m := Scope b ∅]> (scope_heap m)) (S (next_scope m))
             (records m) (nextID m) (bytes m) (maxBytes m) (maxRecords m)) p = files_of m p) as Hfiles.
  { intros p. unfold files_of. simpl. destruct (decide (p = next_scope m)) as [->|Hp]; [|by rewrite lookup_insert_ne].
    rewrite lookup_insert_eq. simpl. destruct (scope_heap m !! next_scope m) eqn:He; [|done]. apply HH in He. lia. }
  split; simpl; [| | | |done|done].
  - intros id r Hr. destruct (HR _ _ Hr) as (? & ? & ? & b' & Hb'). split_and!; [done|lia|lia|by rewrite Hfiles|].
    exists b'. rewrite lookup_insert_ne; [done|congruence].
  - intros p t r. rewrite Hfiles. apply HF.
  - intros b' p [[<- <-]|[Hne Hp]]%lookup_insert_Some; [split; [lia|]; by exists (Scope b ∅); rewrite lookup_insert_eq|].
    destruct (HS _ _ Hp) as (? & sc & ? & ?). split; [lia|]. exists sc. rewrite lookup_insert_ne; [done|lia].
  - intros p sc [[<- _]|[_ Hp]]%lookup_insert_Some; [lia|]. apply HH in Hp. lia.
Qed.

(** [Session] gives a valid lease for a valid binding, reclaims every scope
    whose binding ended and touches no other record. *)
Lemma session_spec valid m binding : mgr_inv m → within m →
  let m' := fst (Session valid m binding) in
  mgr_inv m' ∧ within m' ∧ nextID m' = nextID m ∧ maxBytes m' = maxBytes m ∧ maxRecords m' = maxRecords m
  ∧ (∀ id r b, records m !! id = Some r → scopes m !! b = Some (r_scope r) → b ∈ valid → records m' !! id = Some r)
  ∧ match snd (Session valid m binding) with
    | Some s => binding = Some (ls_binding s) ∧ validLocked valid m' s = true ∧ (∀ b p, scopes m' !! b = Some p → b ∈ valid)
                ∧ (scopes m !! ls_binding s = None → files_of m' (ls_scope s) = ∅)
    | None => ∀ b, binding = Some b → b ∉ valid
    end.
Proof.
  intros Hi Hw. unfold Session. destruct binding as [b|]; [|done].
  destruct (bool_decide (b ∈ valid)) eqn:Hv; propify; simpl.
  2:{ split_and!; try done. intros b' [= <-]. done. }
  destruct (reclaim_all valid (map fst (map_to_list (scopes m))) m Hi) as (Hi' & [R1 R2 (R3 & R4 & R5) R6 R7 R8] & Hgone).
  set (m1 := foldl (reclaim valid) m _) in *.
  assert (within m1) as Hw1 by (by eapply within_shrink).
  assert (∀ b p, scopes m1 !! b = Some p → b ∈ valid) as Hall.
  { intros b' p Hp. destruct (decide (b' ∈ valid)) as [?|Hn]; [done|]. rewrite Hgone in Hp; [done| |done].
    apply list_elem_of_fmap. exists (b', p). split; [done|]. apply elem_of_map_to_list. by eapply lookup_weaken. }
  destruct (scopes m1 !! b) as [p|] eqn:Hb; simpl.
  - split_and!; try done; [unfold validLocked; simpl; rewrite !bool_decide_eq_true_2; done|]. intros Hn. by rewrite R7, Hn in Hb.
  - split_and!; try done; [by apply new_scope_inv|unfold validLocked; simpl; rewrite lookup_insert_eq, !bool_decide_eq_true_2; done| |].
    + intros b' p' [[<- _]|[_ Hp]]%lookup_insert_Some; [done|by eapply Hall].
    + intros _. unfold files_of. simpl. by rewrite lookup_insert_eq.
Qed.
