(* ===== verification/RollbackSystem.v ===== *)
(** * Edits and rollbacks as calls ([editFile], [Preview] and [Rollback] of [internal/fileops/rollback.go])

    The world: the file system, the bindings that are valid, the manager, its
    target locks and the calls in progress. A call is at a [point]; each step
    takes one call to its next point, or is made by the environment. The
    errors of contexts and of the admission come with the step, as they may
    end at any moment. *)
From S2P Require Import Prelude GoStr FileText FileEdit FileDiff FileSystem FileIO LockTable Rollback.
Open Scope Z_scope.

Inductive operation :=
| OpEdit (rq : EditRequest) (prepared : option EditResult)
| OpRollback (p : path) (expectedID : Z)
| OpPreview (p : path) (expectedID : Z).

Inductive outcome :=
| Edited (r : EditResult)
| RolledBack (p : path) (deleted : bool) (revision : gostring)
| Previewed (r : rollbackRecord) (diff : gostring).

(** The result of [editFileWithResult] up to the temporary file: what was
    read, what is to be written, and whether the path is a link. *)
Record plan := Plan { pl_before : File; pl_created : bool; pl_result : EditResult; pl_mode : Z; pl_link : bool }.

Inductive point :=
| AtToken                                           (* waiting for the target lock *)
| AtStart                                           (* holds it *)
| AtInspect (x : plan)                              (* the temporary file is ready *)
| AtEnter (x : plan) (snapshot : option FileInfo)   (* [inspectFileState] passed *)
| AtWrite (x : plan) (snapshot : option FileInfo)   (* guard, lease, target and path policy passed *)
| AtPublish (x : plan)                              (* written *)
| AtInspectBack (r : rollbackRecord) (link : bool)  (* record loaded *)
| AtEnterBack (r : rollbackRecord) (link : bool) (snapshot : option FileInfo)
| AtCommitBack (r : rollbackRecord) (link : bool) (snapshot : option FileInfo)
| AtUnlock (o : res outcome)
| AtRelease (o : res outcome)
| Returned (o : res outcome).
Record call := Call { c_op : operation; c_lease : option lease; c_path : path; c_target : path; c_at : point }.

Record world := World {
  w_fs : fsys; w_valid : gset nat; w_mgr : RollbackManager; w_locks : table; w_calls : gmap nat call; w_next : nat
}.
Definition start_world (fs : fsys) (valid : gset nat) : world := World fs valid NewRollbackManager no_locks ∅ 0.

Definition with_fs (w : world) (fs : fsys) : world := World fs (w_valid w) (w_mgr w) (w_locks w) (w_calls w) (w_next w).
Definition with_mgr (w : world) (m : RollbackManager) : world := World (w_fs w) (w_valid w) m (w_locks w) (w_calls w) (w_next w).
Definition with_locks (w : world) (t : table) : world := World (w_fs w) (w_valid w) (w_mgr w) t (w_calls w) (w_next w).
Definition go_to (w : world) (c : nat) (x : call) (at_ : point) : world :=
  World (w_fs w) (w_valid w) (w_mgr w) (w_locks w)
        (<[c := Call (c_op x) (c_lease x) (c_path x) (c_target x) at_]> (w_calls w)) (w_next w).
(** An error in a call that holds the lock: the deferred unlock is next. *)
Definition step_or_fail {A} (w : world) (c : nat) (x : call) (m : res A) (k : A → res world) : res world :=
  match m with
  | Ok a => k a
  | Err e => Ok (go_to w c x (AtUnlock (Err e)))
  | Panic => Panic
  end.

Section System.
Context `{UnicodeTables} `{TextEncodings} `{Hash}.
(** [checkWrite], when not nil, as the message of its refusal. *)
Variable checkWrite : path → option gostring.

Definition policy (p : path) : res unit := match checkWrite p with Some e => Err e | None => Ok tt end.
Definition policies (ps : list path) : res (list unit) := res_map policy ps.

(** [editFile] and [prepare] up to the reference on the target lock: no
    shared state is changed before it. *)
Definition begin_target (w : world) (s : option lease) (op : operation) (ctxErr : option gostring) : res (path * path) :=
  let* _ := match s with
            | Some s => check (w_valid w) (w_mgr w) s ctxErr
            | None => match ctxErr with Some e => Err e | None => Ok tt end
            end in
  match op with
  | OpEdit rq _ => let* target := ResolveFileTarget (w_fs w) (rq_Path rq) (rq_Create rq) in Ok (rq_Path rq, target)
  | OpRollback p _ | OpPreview p _ =>
    let* _ := policy p in
    match ResolveFileTarget (w_fs w) p false with
    | Ok target => Ok (p, target)
    | Err e => Err (if errors_is e ErrNotExist then ErrRollbackNotFound else §"rollback target unavailable: " ++ e)
    | Panic => Panic
    end
  end.
Definition begin_call (w : world) (s : option lease) (op : operation) (ctxErr : option gostring) : res world :=
  let c := w_next w in
  let add p t at_ ls := World (w_fs w) (w_valid w) (w_mgr w) ls (<[c := Call op s p t at_]> (w_calls w)) (S c) in
  match begin_target w s op ctxErr with
  | Ok (p, target) =>
    match lock_exec (w_locks w) (LRef c target) with
    | Some (Ok ls) => Ok (add p target AtToken ls)
    | _ => Panic
    end
  | Err e => Ok (add [] [] (Returned (Err e)) (w_locks w))
  | Panic => Panic
  end.

(** ** Edits *)
Definition edit_plan (w : world) (c : nat) (x : call) (rq : EditRequest) (prepared : option EditResult) : res world :=
  let fs := w_fs w in
  let p := rq_Path rq in
  step_or_fail w c x (plan_edit fs rq prepared) (λ '(file, created, result),
  step_or_fail w c x (plan_mode fs p created) (λ mode,
  step_or_fail w c x (make_parents fs p created) (λ fs,
  let w := with_fs w fs in
  step_or_fail w c x (res_wrap §"write file: " (prepare_temp fs p)) (λ _,
  Ok (go_to w c x (AtInspect (Plan file created (set_dry result false) mode (is_symlink fs p)))))))).
Definition write_error {A} (m : res A) : res A := res_wrap §"write file: " m.
Definition edit_inspect (w : world) (c : nat) (x : call) (pl : plan) : res world :=
  let data := f_Bytes (pl_before pl) in
  step_or_fail w c x (write_error (inspectFileState (w_fs w) (c_path x) (pl_created pl) (ContentRevision data)
                                     (Z.of_nat (length data)))) (λ snapshot,
  Ok (go_to w c x (AtEnter pl snapshot))).
(** [guard.enter] fails with [guardErr]; then the lease, the target and the policy. *)
Definition enter_guard (guardErr : option gostring) : res unit := match guardErr with Some e => Err e | None => Ok tt end.
Definition edit_enter (w : world) (c : nat) (x : call) (pl : plan) (snapshot : option FileInfo)
    (guardErr ctxErr : option gostring) : res world :=
  step_or_fail w c x (write_error (
    let* _ := enter_guard guardErr in
    let* _ := match c_lease x with Some s => check (w_valid w) (w_mgr w) s ctxErr | None => Ok tt end in
    let* _ := checkFileTarget (w_fs w) (c_path x) (c_target x) (pl_created pl) in
    policies [c_path x; c_target x])) (λ _,
  Ok (go_to w c x (AtWrite pl snapshot))).
Definition edit_write (w : world) (c : nat) (x : call) (pl : plan) (snapshot : option FileInfo) (ctxErr : option gostring)
  : res world :=
  step_or_fail w c x (write_error (
    let* _ := checkFileState (w_fs w) (c_path x) (pl_created pl) snapshot in
    let* _ := enter_guard ctxErr in
    commit_write (pl_link pl) (w_fs w) (c_path x) (NewBytes (pl_result pl)) (pl_mode pl))) (λ fs,
  Ok (go_to (with_fs w fs) c x (AtPublish pl))).
Definition new_record (x : call) (pl : plan) (s : lease) (id : Z) : rollbackRecord :=
  {| r_ID := id; r_Path := c_path x; r_Target := c_target x; r_Created := Created (pl_result pl);
     r_RevisionBefore := RevisionBefore (pl_result pl); r_RevisionAfter := RevisionAfter (pl_result pl);
     r_scope := ls_scope s; r_before := f_Bytes (pl_before pl); r_mode := pl_mode pl;
     r_encoding := f_Encoding (pl_before pl); r_afterSize := Z.of_nat (length (NewBytes (pl_result pl))) |}.
Definition with_rollback (r : EditResult) (available : bool) (evicted : Z) : EditResult :=
  {| DryRun := DryRun r; er_Path := er_Path r; Created := Created r; er_Encoding := er_Encoding r;
     RevisionBefore := RevisionBefore r; RevisionAfter := RevisionAfter r; Diff := Diff r; NewBytes := NewBytes r;
     RollbackAvailable := available; RollbackEvicted := RollbackEvicted r + evicted |}.
Definition edit_publish (w : world) (c : nat) (x : call) (pl : plan) : res world :=
  match c_lease x with
  | None => Ok (go_to w c x (AtUnlock (Ok (Edited (pl_result pl)))))
  | Some s =>
    let* (m, o) := publish (w_valid w) (w_mgr w) s (c_target x) (new_record x pl s) in
    let result := match o with Some (a, n) => with_rollback (pl_result pl) a n | None => pl_result pl end in
    Ok (go_to (with_mgr w m) c x (AtUnlock (Ok (Edited result))))
  end.

(** ** Rollbacks *)
Definition load_checks (w : world) (p : path) (r : rollbackRecord) (ctxErr : option gostring) : res gostring :=
  let fs := w_fs w in
  let* _ := checkRollbackFileTarget fs p (r_Target r) in
  let* _ := checkRollbackFileTarget fs (r_Path r) (r_Target r) in
  let* _ := policies [r_Path r; r_Target r] in
  let* _ := enter_guard ctxErr in
  let not_found {A} (m : res A) : res A :=
    match m with Err e => Err (if errors_is e ErrNotExist then ErrRollbackNotFound else e) | _ => m end in
  let* info := not_found (Stat fs (r_Target r)) in
  if negb (fi_regular info) then Err ErrNotRegularFile
  else if negb (fi_size info =? r_afterSize r) then Err (fileChanged §"file changed after edit; rollback refused")
  else
    let* current := not_found (readRevisionBytes fs (r_Target r) (r_afterSize r)) in
    if negb (bool_decide (ContentRevision current = r_RevisionAfter r))
    then Err (fileChanged §"file changed after edit; rollback refused") else Ok current.
(** The target of a call that has a record is that of the record. *)
Definition loadRecord (w : world) (x : call) (p : path) (expectedID : Z) (ctxErr : option gostring)
  : res (rollbackRecord * gostring) :=
  match c_lease x with
  | None => Panic
  | Some s =>
    let* r := load_section (w_valid w) (w_mgr w) s p (c_target x) expectedID in
    let* current := load_checks w p r ctxErr in
    Ok (r, current)
  end.
Definition preview_diff (r : rollbackRecord) (current : gostring) : res gostring :=
  let limit b := Z.of_nat (length b) <=? MaxFileSize in
  let omitted := omittedDiff (show_path (r_Path r)) §"file exceeds detailed diff limit" in
  if limit current && limit (r_before r) then
    match DecodeBytes current (r_encoding r), DecodeBytes (r_before r) (r_encoding r) with
    | Ok (newText, _, _), Ok (oldText, _, _) =>
      editDiff (show_path (r_Path r)) (NormalizeEditText newText) (NormalizeEditText oldText)
               (Z.of_nat (length current)) (Z.of_nat (length (r_before r))) 3 MaxFileSize
    | Panic, _ | _, Panic => Panic
    | _, _ => Ok omitted
    end
  else Ok omitted.
Definition rollback_error {A} (m : res A) : res A := res_wrap §"rollback file: " m.
Definition rollback_load (w : world) (c : nat) (x : call) (p : path) (expectedID : Z) (ctxErr : option gostring) : res world :=
  step_or_fail w c x (loadRecord w x p expectedID ctxErr) (λ '(r, _),
  if r_Created r then Ok (go_to w c x (AtInspectBack r false))
  else
    step_or_fail w c x (rollback_error (prepare_temp (w_fs w) (r_Target r))) (λ _,
    Ok (go_to w c x (AtInspectBack r (is_symlink (w_fs w) (r_Target r)))))).
Definition preview_load (w : world) (c : nat) (x : call) (p : path) (expectedID : Z) (ctxErr : option gostring) : res world :=
  step_or_fail w c x (loadRecord w x p expectedID ctxErr) (λ '(r, current),
  let* diff := preview_diff r current in
  Ok (go_to w c x (AtUnlock (Ok (Previewed r diff))))).
Definition back_inspect (w : world) (c : nat) (x : call) (r : rollbackRecord) (link : bool) : res world :=
  step_or_fail w c x (rollback_error (inspectFileState (w_fs w) (r_Target r) false (r_RevisionAfter r) (r_afterSize r))) (λ snapshot,
  Ok (go_to w c x (AtEnterBack r link snapshot))).
Definition back_enter (w : world) (c : nat) (x : call) (r : rollbackRecord) (link : bool) (snapshot : option FileInfo)
    (guardErr : option gostring) : res world :=
  step_or_fail w c x (rollback_error (
    let* _ := enter_guard guardErr in
    let* _ := checkRollbackFileTarget (w_fs w) (c_path x) (r_Target r) in
    let* _ := checkRollbackFileTarget (w_fs w) (r_Path r) (r_Target r) in
    policies [c_path x; r_Path r; r_Target r])) (λ _,
  Ok (go_to w c x (AtCommitBack r link snapshot))).
(** The manager is locked from the validity check to the removal of the record. *)
Definition back_commit (w : world) (c : nat) (x : call) (r : rollbackRecord) (link : bool) (snapshot : option FileInfo)
    (ctxErr : option gostring) : res world :=
  match c_lease x with
  | None => Panic
  | Some s =>
    step_or_fail w c x (rollback_error (
      let* _ := checkFileState (w_fs w) (r_Target r) false snapshot in
      let* _ := commit_section (w_valid w) (w_mgr w) s r ctxErr in
      if r_Created r then Remove (w_fs w) (r_Target r)
      else commit_write link (w_fs w) (r_Target r) (r_before r) (r_mode r))) (λ fs,
    let w := with_mgr (with_fs w fs) (removeLocked (w_mgr w) r) in
    Ok (go_to w c x (AtUnlock (Ok (RolledBack (r_Path r) (r_Created r)
                                     (if r_Created r then [] else r_RevisionBefore r))))))
  end.

(** ** Steps *)
Inductive wstep :=
| SBegin (s : option lease) (op : operation) (ctxErr : option gostring)
| SToken (c : nat)
| SCancel (c : nat) (e : gostring)
| SMove (c : nat) (guardErr ctxErr : option gostring)
| SUnlock (c : nat)
| SRelease (c : nat)
| SSession (b : option nat)
| SForget (b : nat)
| SInvalid (b : nat)
| SValid (b : nat)
| SOther (fs : fsys).      (* another program changes the file system *)

Definition lock_move (w : world) (s : lock_step) (k : world → world) : option (res world) :=
  match lock_exec (w_locks w) s with
  | Some (Ok ls) => Some (Ok (k (with_locks w ls)))
  | Some _ => Some Panic
  | None => None
  end.
Definition move (w : world) (c : nat) (x : call) (guardErr ctxErr : option gostring) : option (res world) :=
  match c_at x, c_op x with
  | AtStart, OpEdit rq prepared => Some (edit_plan w c x rq prepared)
  | AtStart, OpRollback p id => Some (rollback_load w c x p id ctxErr)
  | AtStart, OpPreview p id => Some (preview_load w c x p id ctxErr)
  | AtInspect pl, _ => Some (edit_inspect w c x pl)
  | AtEnter pl sn, _ => Some (edit_enter w c x pl sn guardErr ctxErr)
  | AtWrite pl sn, _ => Some (edit_write w c x pl sn ctxErr)
  | AtPublish pl, _ => Some (edit_publish w c x pl)
  | AtInspectBack r l, _ => Some (back_inspect w c x r l)
  | AtEnterBack r l sn, _ => Some (back_enter w c x r l sn guardErr)
  | AtCommitBack r l sn, _ => Some (back_commit w c x r l sn ctxErr)
  | _, _ => None
  end.
Definition wexec (w : world) (s : wstep) : option (res world) :=
  match s with
  | SBegin s op e => Some (begin_call w s op e)
  | SToken c =>
    match w_calls w !! c with
    | Some x => match c_at x with AtToken => lock_move w (LToken c) (λ w, go_to w c x AtStart) | _ => None end
    | None => None
    end
  | SCancel c e =>
    match w_calls w !! c with
    | Some x => match c_at x with AtToken => lock_move w (LCancel c) (λ w, go_to w c x (Returned (Err e))) | _ => None end
    | None => None
    end
  | SMove c g e => match w_calls w !! c with Some x => move w c x g e | None => None end
  | SUnlock c =>
    match w_calls w !! c with
    | Some x => match c_at x with AtUnlock o => lock_move w (LPut c) (λ w, go_to w c x (AtRelease o)) | _ => None end
    | None => None
    end
  | SRelease c =>
    match w_calls w !! c with
    | Some x => match c_at x with AtRelease o => lock_move w (LRelease c) (λ w, go_to w c x (Returned o)) | _ => None end
    | None => None
    end
  | SSession b => Some (Ok (with_mgr w (fst (Session (w_valid w) (w_mgr w) b))))
  | SForget b => Some (Ok (with_mgr w (forgetLocked (w_mgr w) b)))
  | SInvalid b => Some (Ok (World (w_fs w) (w_valid w ∖ {[b]}) (w_mgr w) (w_locks w) (w_calls w) (w_next w)))
  | SValid b => Some (Ok (World (w_fs w) ({[b]} ∪ w_valid w) (w_mgr w) (w_locks w) (w_calls w) (w_next w)))
  | SOther fs => Some (Ok (with_fs w fs))
  end.

(** Rollbacks and previews are methods of a lease. *)
Definition legal_step (s : wstep) : Prop :=
  match s with SBegin None (OpRollback _ _ | OpPreview _ _) _ => False | _ => True end.
Inductive reaches : world → nat → world → Prop :=
| reaches_refl w : reaches w 0 w
| reaches_step w n w1 s w2 : reaches w n w1 → legal_step s → wexec w1 s = Some (Ok w2) → reaches w (S n) w2.
Fixpoint wrun (w : world) (ss : list wstep) : option (res world) :=
  match ss with
  | [] => Some (Ok w)
  | s :: ss => match wexec w s with Some (Ok w) => wrun w ss | r => r end
  end.
End System.
