(* ===== verification/RollbackTheorems.v ===== *)
(** * Safety of edits and rollbacks under any interleaving *)
From S2P Require Import Prelude GoStr FileText FileEdit FileEditProps FileDiff FileDiffProps FileSystem FileIO FileIOProps LockTable.
From S2P Require Import Rollback RollbackProps RollbackSystem.
Open Scope Z_scope.

(** ** No panics in the pure parts *)
Definition quiet {A} (m : res A) : Prop := m ≠ Panic.
Lemma quiet_bind {A B} (m : res A) (k : A → res B) : quiet m → (∀ a, m = Ok a → quiet (k a)) → quiet (res_bind m k).
Proof. unfold quiet. destruct m; simpl; auto. Qed.
Lemma quiet_wrap {A} p (m : res A) : quiet m → quiet (res_wrap p m).
Proof. by destruct m. Qed.
Lemma quiet_map {A B} (f : A → res B) l : (∀ x, quiet (f x)) → quiet (res_map f l).
Proof.
  intros Hf. induction l as [|x l IH]; simpl; [done|]. apply quiet_bind; [apply Hf|]. intros y _.
  by apply quiet_bind.
Qed.
Lemma quiet_ok {A} (a : A) : quiet (Ok a).
Proof. done. Qed.
Lemma quiet_err {A} e : quiet (Err e : res A).
Proof. done. Qed.
Lemma quiet_walk n fs c d t : quiet (walk n fs c d t).
Proof. apply walk_not_panic. Qed.
Lemma quiet_eval fs p : quiet (EvalSymlinks fs p).
Proof. apply walk_not_panic. Qed.
Lemma quiet_lstat fs p : quiet (Lstat fs p).
Proof. apply Lstat_not_panic. Qed.
Lemma quiet_resolve fs p c : quiet (ResolveFileTarget fs p c).
Proof. apply resolve_cases. Qed.
Create HintDb quiet.
#[local] Hint Resolve quiet_ok quiet_err quiet_walk quiet_eval quiet_lstat quiet_resolve quiet_wrap : quiet.

(** Goes through binds, branches and matches. *)
Ltac quiet :=
  repeat first
  [ progress (auto with quiet)
  | apply quiet_bind; [|intros ? ?]
  | apply quiet_wrap
  | match goal with
    | |- quiet (match ?m with Ok _ => _ | Err _ => _ | Panic => _ end) =>
      let H := fresh in assert (quiet m) as H; [|destruct m; [| |by destruct H]]
    | |- quiet (match ?m with _ => _ end) => destruct m
    | |- quiet (let '_ := ?m in _) => destruct m
    end ].

Lemma quiet_stat fs p : quiet (Stat fs p).
Proof. unfold Stat. quiet. Qed.
#[local] Hint Resolve quiet_stat : quiet.
Lemma quiet_read fs p : quiet (read_bytes fs p).
Proof. unfold read_bytes. quiet. Qed.
#[local] Hint Resolve quiet_read : quiet.
Lemma quiet_mkdir : ∀ todo fs done, quiet (mkdir_walk fs done todo).
Proof. induction todo as [|c todo IH]; intros fs done; simpl; quiet. Qed.
Lemma quiet_target fs p t c : quiet (checkFileTarget fs p t c).
Proof. unfold checkFileTarget. quiet. Qed.
#[local] Hint Resolve quiet_mkdir quiet_target : quiet.
Lemma quiet_back_target fs p t : quiet (checkRollbackFileTarget fs p t).
Proof. unfold checkRollbackFileTarget. quiet. Qed.
Lemma quiet_revision fs p n : quiet (readRevisionBytes fs p n).
Proof. unfold readRevisionBytes. quiet. Qed.
Lemma quiet_state fs p c i : quiet (checkFileState fs p c i).
Proof. unfold checkFileState. quiet. Qed.
#[local] Hint Resolve quiet_back_target quiet_revision quiet_state : quiet.
Lemma quiet_inspect `{Hash} fs p c r n : quiet (inspectFileState fs p c r n).
Proof. unfold inspectFileState. quiet. Qed.
Lemma quiet_temp fs p : quiet (prepare_temp fs p).
Proof. unfold prepare_temp. quiet. Qed.
Lemma quiet_commit l fs p d m : quiet (commit_write l fs p d m).
Proof. unfold commit_write, WriteFile, rename_onto. quiet. Qed.
Lemma quiet_remove fs p : quiet (Remove fs p).
Proof. unfold Remove. quiet. Qed.
#[local] Hint Resolve quiet_inspect quiet_temp quiet_commit quiet_remove : quiet.

Section Quiet.
Context `{UnicodeTables} `{TextEncodings} `{Hash}.
Lemma quiet_lookup n : quiet (LookupEncoding n).
Proof. unfold LookupEncoding. cbv zeta. quiet. Qed.
#[local] Hint Resolve quiet_lookup : quiet.
Lemma quiet_decode d r : quiet (DecodeBytes d r).
Proof. unfold DecodeBytes, decodeWithEncoding. cbv zeta. quiet. Qed.
Lemma quiet_encode t n b : quiet (EncodeText t n b).
Proof. unfold EncodeText. quiet. Qed.
#[local] Hint Resolve quiet_decode quiet_encode : quiet.
Lemma quiet_no_open fs p r c h n : quiet (ReadOrCreateFileWithLimit fs p r c h n).
Proof. unfold ReadOrCreateFileWithLimit, ReadFileWithLimit. cbv zeta. quiet. Qed.
Lemma quiet_diff p o n ob nb c l : 0 ≤ c → quiet (editDiff p o n ob nb c l).
Proof. intros Hc. destruct (editDiff_total p o n ob nb c l Hc) as [out ->]. done. Qed.
Lemma normal_context c : 0 ≤ NormalizeContextLines c.
Proof. unfold NormalizeContextLines. repeat case_match; propify; lia. Qed.
Lemma quiet_prepare f c t n o : quiet (prepareFileResult f c t n o).
Proof. unfold prepareFileResult. cbv zeta. quiet. apply quiet_diff, normal_context. Qed.
Lemma quiet_edits t e : quiet (ApplyEdits t e).
Proof. apply ApplyEdits_total. Qed.
#[local] Hint Resolve quiet_no_open quiet_prepare quiet_edits : quiet.
Lemma quiet_plan fs rq p : quiet (plan_edit fs rq p).
Proof. unfold plan_edit. cbv zeta. quiet. Qed.
Lemma preview_diff_total r d : ∃ out, preview_diff r d = Ok out.
Proof.
  unfold preview_diff. cbv zeta. destruct (_ && _); [|eauto]. pose proof (quiet_decode d (r_encoding r)) as Hq1.
  pose proof (quiet_decode (r_before r) (r_encoding r)) as Hq2.
  destruct (DecodeBytes d _) as [[[? ?] ?]| |]; [| |done]; destruct (DecodeBytes (r_before r) _) as [[[? ?] ?]| |]; try done; eauto.
  apply editDiff_total. lia.
Qed.
End Quiet.

(** ** The invariant of a world *)
Definition holding (a : point) : bool :=
  match a with AtToken | AtRelease _ | Returned _ => false | _ => true end.
Definition phase_of (a : point) : option lock_phase :=
  match a with
  | AtToken => Some Waits
  | AtRelease _ => Some Leaves
  | Returned _ => None
  | _ => Some Holds
  end.
Definition record_at (a : point) : option rollbackRecord :=
  match a with AtInspectBack r _ | AtEnterBack r _ _ | AtCommitBack r _ _ => Some r | _ => None end.
Definition needs_lease (x : call) : Prop :=
  match c_op x with OpEdit _ _ => True | _ => c_lease x ≠ None end.
Definition call_ok (x : call) : Prop :=
  needs_lease x ∧ ∀ r, record_at (c_at x) = Some r → r_Target r = c_target x ∧ ∃ s, c_lease x = Some s ∧ r_scope r = ls_scope s.
Definition user_of (x : call) (o : option user) : Prop :=
  match phase_of (c_at x), o with
  | Some ph, Some u => u_target u = c_target x ∧ u_phase u = ph
  | None, None => True
  | _, _ => False
  end.
Record world_inv (n : Z) (w : world) : Prop := {
  wi_mgr : mgr_inv (w_mgr w);
  wi_within : within (w_mgr w);
  wi_max : maxBytes (w_mgr w) = rollbackMaxBytes ∧ maxRecords (w_mgr w) = rollbackMaxRecords;
  wi_next : nextID (w_mgr w) ≤ n;
  wi_locks : lock_inv (w_locks w);
  wi_call : ∀ c x, w_calls w !! c = Some x → (c < w_next w)%nat ∧ user_of x (users (w_locks w) !! c) ∧ call_ok x;
  wi_user : ∀ c u, users (w_locks w) !! c = Some u → ∃ x, w_calls w !! c = Some x
}.

Lemma world_inv_start fs valid : world_inv 0 (start_world fs valid).
Proof.
  split; simpl.
  - split; simpl; intros *; rewrite ?lookup_empty; try done.
  - unfold within. simpl. rewrite map_size_empty. unfold rollbackMaxBytes, rollbackMaxRecords. lia.
  - done.
  - done.
  - apply lock_inv_new.
  - intros c x. by rewrite lookup_empty.
  - intros c u. by rewrite lookup_empty.
Qed.
Lemma world_inv_fs n w fs : world_inv n w → world_inv n (with_fs w fs).
Proof. by intros []. Qed.
Lemma world_inv_mgr n w m : world_inv n w → mgr_inv m → within m → nextID m ≤ n →
  maxBytes m = maxBytes (w_mgr w) → maxRecords m = maxRecords (w_mgr w) → world_inv n (with_mgr w m).
Proof. intros [] ? ? ? Hb Hr. split; simpl; try done. by rewrite Hb, Hr. Qed.
Lemma world_inv_le n n' w : world_inv n w → n ≤ n' → world_inv n' w.
Proof. intros [] ?. split; try done. lia. Qed.

(** A call that holds its lock goes to another point where it holds it. *)
Lemma world_inv_goto n w c x a : world_inv n w → w_calls w !! c = Some x → holding (c_at x) = true → holding a = true →
  (∀ r, record_at a = Some r → r_Target r = c_target x ∧ ∃ s, c_lease x = Some s ∧ r_scope r = ls_scope s) →
  world_inv n (go_to w c x a).
Proof.
  intros [HM HW HX HN HL HC HU] Hc Hx Ha Hr. destruct (HC _ _ Hc) as (Hlt & Hu & Hok & _). split; simpl; try done.
  - intros d y. destruct (decide (d = c)) as [->|Hd]; [|rewrite lookup_insert_ne by done; apply HC].
    rewrite lookup_insert_eq. intros [= <-]. split; [done|]. unfold user_of in *. simpl in *.
    assert (∀ b, holding b = true → phase_of b = Some Holds) as Hph by (by intros []).
    rewrite (Hph _ Ha). rewrite (Hph _ Hx) in Hu. split; [done|]. by split.
  - intros d u Hd. destruct (HU _ _ Hd) as [y Hy]. destruct (decide (d = c)) as [->|Hne]; [rewrite lookup_insert_eq; by eexists|].
    rewrite lookup_insert_ne by done. by exists y.
Qed.

(** The steps of the lock, for the call that takes them. *)
Lemma lock_user_after m s m' : lock_exec m s = Some (Ok m') →
  match s with
  | LRef c t => ∃ l, users m' = <[c := User t l Waits]> (users m)
  | LToken c => ∃ t l, users m !! c = Some (User t l Waits) ∧ users m' = <[c := User t l Holds]> (users m)
  | LPut c => ∃ t l, users m !! c = Some (User t l Holds) ∧ users m' = <[c := User t l Leaves]> (users m)
  | LCancel c | LRelease c => users m' = delete c (users m)
  end.
Proof.
  destruct s as [c t|c|c|c|c]; simpl; destruct (users m !! c) as [[t1 l1 ph]|] eqn:Hc; try done; try (destruct ph; try done).
  - unfold lock_ref. intros [= Hr]. repeat case_match; simplify_eq; simpl; by eexists.
  - repeat case_match; intros; simplify_eq; simpl; by eexists _, _.
  - unfold lock_release. intros [= Hr]. by repeat case_match; simplify_eq.
  - repeat case_match; intros; simplify_eq; simpl; by eexists _, _.
  - unfold lock_release. intros [= Hr]. by repeat case_match; simplify_eq.
Qed.

Definition ls_call (s : lock_step) : nat := match s with LRef c _ | LToken c | LCancel c | LPut c | LRelease c => c end.

(** A lock step of a call in progress, taken together with its own. *)
Lemma world_inv_lock n w c x a s r : world_inv n w → w_calls w !! c = Some x → ls_call s = c →
  match s with LRef _ _ => False | LToken _ => a = AtStart | LPut _ => ∃ o, a = AtRelease o | LCancel _ | LRelease _ => ∃ o, a = Returned o end →
  lock_move w s (λ w, go_to w c x a) = Some r → ∃ w', r = Ok w' ∧ world_inv n w'.
Proof.
  intros [HM HW HX HN HL HC HU] Hc Hs Ha Hmv. destruct (HC _ _ Hc) as (Hlt & Hu & Hok & _).
  unfold lock_move in Hmv. destruct (lock_exec (w_locks w) s) as [r'|] eqn:He; [|done].
  destruct (lock_exec_inv _ _ _ HL He) as (m' & -> & HL'). injection Hmv as <-. eexists. split; [done|].
  apply lock_user_after in He.
  assert (∀ d, d ≠ c → users m' !! d = users (w_locks w) !! d) as Hother.
  { intros d Hd. destruct s; simpl in *; subst; cleanup; try done;
      match goal with H : users m' = _ |- _ => rewrite H end; by rewrite ?lookup_insert_ne, ?lookup_delete_ne. }
  assert (user_of (Call (c_op x) (c_lease x) (c_path x) (c_target x) a) (users m' !! c) ∧ record_at a = None) as [Hself Hra].
  { unfold user_of in *. simpl. destruct s as [d t|d|d|d|d]; simpl in *; subst; try done; cleanup; subst;
      match goal with H : users m' = _ |- _ => rewrite H end; rewrite ?lookup_insert_eq, ?lookup_delete_eq; try done;
      match goal with H : users (w_locks w) !! c = _ |- _ => rewrite H in Hu end;
      destruct (phase_of (c_at x)); try done; by destruct Hu. }
  split; simpl; try done.
  - intros d y. destruct (decide (d = c)) as [->|Hd].
    + rewrite lookup_insert_eq. intros [= <-]. split; [done|]. split; [done|]. split; [done|]. simpl. rewrite Hra. done.
    + rewrite lookup_insert_ne, Hother by done. apply HC.
  - intros d u Hd. destruct (decide (d = c)) as [->|Hne]; [rewrite lookup_insert_eq; by eexists|].
    rewrite Hother in Hd by done. rewrite lookup_insert_ne by done. by eapply HU.
Qed.

Definition goes (n : Z) (m : res world) : Prop := ∃ w', m = Ok w' ∧ world_inv n w'.
Lemma goes_ok n w : world_inv n w → goes n (Ok w).
Proof. intros ?. by exists w. Qed.
Lemma goes_or_fails {A} n w c x (m : res A) k : world_inv n w → w_calls w !! c = Some x → holding (c_at x) = true →
  quiet m → (∀ a, m = Ok a → goes n (k a)) → goes n (step_or_fail w c x m k).
Proof.
  intros Hi Hc Hh Hq Hk. destruct m as [a|e|]; simpl; [by apply Hk| |done]. apply goes_ok.
  by apply world_inv_goto.
Qed.

Section Steps.
Context `{UnicodeTables} `{TextEncodings} `{Hash}.
Variable checkWrite : path → option gostring.
Lemma quiet_guard e : quiet (enter_guard e).
Proof. by destruct e. Qed.
Lemma quiet_policies ps : quiet (policies checkWrite ps).
Proof. apply quiet_map. intros p. unfold policy. by destruct (checkWrite p). Qed.
Lemma quiet_check v m s e : quiet (check v m s e).
Proof. unfold check. quiet. Qed.
#[local] Hint Resolve quiet_guard quiet_policies quiet_check quiet_plan : quiet.
Lemma quiet_load w p r e : quiet (load_checks checkWrite w p r e).
Proof. unfold load_checks. cbv zeta. quiet. Qed.
Lemma quiet_commit_section v m s r e : quiet (commit_section v m s r e).
Proof. unfold commit_section. quiet. Qed.
#[local] Hint Resolve quiet_load quiet_commit_section : quiet.

Lemma load_section_ok v m s p t id r : mgr_inv m → load_section v m s p t id = Ok r →
  r_Target r = t ∧ r_scope r = ls_scope s ∧ validLocked v m s = true ∧ records m !! r_ID r = Some r ∧ (id = 0 ∨ r_ID r = id).
Proof.
  intros Hi. unfold load_section. destruct (validLocked v m s); [|done]. simpl. destruct (existsb _ _); [done|].
  destruct (files_of m (ls_scope s) !! t) as [r'|] eqn:Hr; [|done]. destruct (_ && _) eqn:Hid; [done|].
  intros [= <-]. destruct (mi_file m Hi _ _ _ Hr) as (? & ? & ?). split_and!; try done. propify. tauto.
Qed.

Lemma goes_edit_plan n w c x rq pr : world_inv n w → w_calls w !! c = Some x → c_at x = AtStart → goes n (edit_plan w c x rq pr).
Proof.
  intros Hi Hc Ha. assert (holding (c_at x) = true) as Hh by by rewrite Ha. unfold edit_plan.
  apply goes_or_fails; [done..|auto with quiet|]. intros [[file created] result] _.
  apply goes_or_fails; [done..|unfold plan_mode; quiet|]. intros mode _.
  apply goes_or_fails; [done..|unfold make_parents, MkdirAll; quiet|]. intros fs _.
  apply goes_or_fails; [by apply world_inv_fs|done|done|quiet; apply quiet_temp|]. intros _ _.
  apply goes_ok, world_inv_goto; [by apply world_inv_fs|done..].
Qed.
Lemma load_record_ok n w c x p id e r cur : world_inv n w → w_calls w !! c = Some x →
  loadRecord checkWrite w x p id e = Ok (r, cur) → r_Target r = c_target x ∧ ∃ s, c_lease x = Some s ∧ r_scope r = ls_scope s.
Proof.
  intros Hi Hc. unfold loadRecord. destruct (c_lease x) as [s|]; [|done].
  intros (r' & Hl & (cur' & _ & [= <- <-])%res_bind_ok)%res_bind_ok.
  apply load_section_ok in Hl as (? & ? & _); [|by apply (wi_mgr n w)]. split; [done|]. by exists s.
Qed.
Lemma quiet_load_record n w c x p id e : world_inv n w → w_calls w !! c = Some x →
  match c_op x with OpEdit _ _ => False | _ => True end → quiet (loadRecord checkWrite w x p id e).
Proof.
  intros Hi Hc Hop. destruct (wi_call n w Hi _ _ Hc) as (_ & _ & Hl & _). unfold needs_lease in Hl.
  unfold loadRecord. destruct (c_lease x) as [s|]; [|destruct (c_op x); by try done; destruct Hl].
  quiet. unfold load_section. quiet.
Qed.
Lemma goes_load n w c x p id e : world_inv n w → w_calls w !! c = Some x → c_at x = AtStart →
  c_op x = OpRollback p id → goes n (rollback_load checkWrite w c x p id e).
Proof.
  intros Hi Hc Ha Hop. assert (holding (c_at x) = true) as Hh by by rewrite Ha. unfold rollback_load.
  apply goes_or_fails; [done..|eapply quiet_load_record; [done|done|by rewrite Hop]|]. intros [r cur] Hl.
  pose proof (load_record_ok _ _ _ _ _ _ _ _ _ Hi Hc Hl) as Hr.
  assert (∀ l r', record_at (AtInspectBack r l) = Some r' → r_Target r' = c_target x ∧ ∃ s, c_lease x = Some s ∧ r_scope r' = ls_scope s) as Hr'
    by (by intros l r' [= <-]).
  destruct (r_Created r); [apply goes_ok, world_inv_goto; [done..|by apply Hr']|].
  apply goes_or_fails; [done..|unfold rollback_error; quiet; apply quiet_temp|]. intros _ _.
  apply goes_ok, world_inv_goto; [done..|by apply Hr'].
Qed.
Lemma goes_preview n w c x p id e : world_inv n w → w_calls w !! c = Some x → c_at x = AtStart →
  c_op x = OpPreview p id → goes n (preview_load checkWrite w c x p id e).
Proof.
  intros Hi Hc Ha Hop. assert (holding (c_at x) = true) as Hh by by rewrite Ha. unfold preview_load.
  apply goes_or_fails; [done..|eapply quiet_load_record; [done|done|by rewrite Hop]|]. intros [r cur] Hl.
  destruct (preview_diff_total r cur) as [d ->]. simpl. by apply goes_ok, world_inv_goto.
Qed.

(** The points between which nothing shared but the file system changes. *)
Lemma goes_simple n w c x {A} (m : res A) (k : A → world) : world_inv n w → w_calls w !! c = Some x → holding (c_at x) = true →
  quiet m → (∀ a, m = Ok a → world_inv n (k a)) → goes n (step_or_fail w c x m (λ a, Ok (k a))).
Proof. intros Hi Hc Hh Hq Hk. apply goes_or_fails; [done..|]. intros a Ha. by apply goes_ok, Hk. Qed.

Lemma goes_publish n w c x pl : world_inv n w → n + 1 < 2 ^ 64 → w_calls w !! c = Some x → c_at x = AtPublish pl →
  goes (n + 1) (edit_publish w c x pl).
Proof.
  intros Hi Hn Hc Ha. assert (holding (c_at x) = true) as Hh by by rewrite Ha.
  pose proof (world_inv_le _ (n + 1) _ Hi ltac:(lia)) as Hi1. unfold edit_publish.
  destruct (c_lease x) as [s|]; [|by apply goes_ok, world_inv_goto].
  destruct (validLocked (w_valid w) (w_mgr w) s) eqn:Hv.
  - destruct (publish_spec (w_valid w) (w_mgr w) s (c_target x) (new_record x pl s)) as (m' & k & -> & Hm & Hw & _ & Hid & Hmb & Hmr & _);
      [apply Hi|apply Hi|pose proof (wi_next _ _ Hi); lia|done|done|]. simpl. apply goes_ok, world_inv_goto; [|done..].
    apply world_inv_mgr; [done..| |done|done]. rewrite Hid. pose proof (wi_next _ _ Hi). lia.
  - rewrite publish_stale by done. simpl. apply goes_ok, world_inv_goto; [|done..]. by destruct Hi1.
Qed.
Lemma commit_section_ok v m s r e : commit_section v m s r e = Ok tt → validLocked v m s = true ∧ records m !! r_ID r = Some r.
Proof. unfold commit_section. destruct (validLocked v m s); [|done]. simpl. by case_bool_decide. Qed.
Lemma remove_within m r : mgr_inv m → within m → within (removeLocked m r).
Proof.
  intros Hi Hw. eapply within_shrink; [done| | |done|done]; simpl; [pose proof (size_nonneg r); lia|apply delete_subseteq].
Qed.
Lemma goes_back_commit n w c x r l sn e : world_inv n w → w_calls w !! c = Some x → c_at x = AtCommitBack r l sn →
  goes n (back_commit w c x r l sn e).
Proof.
  intros Hi Hc Ha. assert (holding (c_at x) = true) as Hh by by rewrite Ha.
  destruct (wi_call n w Hi _ _ Hc) as (_ & _ & _ & Hr). rewrite Ha in Hr. destruct (Hr r eq_refl) as (_ & s & Hs & _).
  unfold back_commit. rewrite Hs. apply goes_or_fails; [done..| |].
  - unfold rollback_error. quiet.
  - intros fs Hm. apply res_wrap_ok, res_bind_ok in Hm as ([] & _ & ([] & Hcs & _)%res_bind_ok).
    apply commit_section_ok in Hcs as [_ Hrec]. apply goes_ok, world_inv_goto; [|done..].
    apply world_inv_mgr; [by apply world_inv_fs|apply removeLocked_inv; [apply Hi|done]|apply remove_within; apply Hi|apply Hi|done|done].
Qed.

Lemma goes_move n w c x g e r : world_inv n w → n + 1 < 2 ^ 64 → w_calls w !! c = Some x →
  move checkWrite w c x g e = Some r → goes (n + 1) r.
Proof.
  intros Hi Hn Hc Hm. pose proof (world_inv_le _ (n + 1) _ Hi ltac:(lia)) as Hi1. unfold move in Hm.
  destruct (wi_call n w Hi _ _ Hc) as (_ & _ & _ & Hr).
  destruct (c_at x) eqn:Ha; simpl in Hr; try (by destruct (c_op x)); [destruct (c_op x) eqn:Hop|..]; try (injection Hm as <-).
  - by apply goes_edit_plan.
  - by apply goes_load.
  - by apply goes_preview.
  - (apply goes_simple; [done|done|by rewrite Ha|unfold write_error; quiet|]);
      intros a _; (apply world_inv_goto; [done|done|by rewrite Ha|done|done]).
  - (apply goes_simple; [done|done|by rewrite Ha|unfold write_error; quiet|]);
      intros a _; (apply world_inv_goto; [done|done|by rewrite Ha|done|done]).
  - (apply goes_simple; [done|done|by rewrite Ha|unfold write_error; quiet|]);
      intros a _; (apply world_inv_goto; [by apply world_inv_fs|done|by rewrite Ha|done|done]).
  - by apply goes_publish.
  - (apply goes_simple; [done|done|by rewrite Ha|unfold rollback_error; quiet|]);
      intros a _; (apply world_inv_goto; [done|done|by rewrite Ha|done|done]).
  - (apply goes_simple; [done|done|by rewrite Ha|unfold rollback_error; quiet|]);
      intros a _; (apply world_inv_goto; [done|done|by rewrite Ha|done|done]).
  - by apply goes_back_commit.
Qed.

Lemma goes_begin n w s op e : world_inv n w → legal_step (SBegin s op e) → goes n (begin_call checkWrite w s op e).
Proof.
  intros Hi Hl. pose proof Hi as [HM HW HX HN HL HC HU].
  assert (quiet (begin_target checkWrite w s op e)) as Hq.
  { unfold begin_target. apply quiet_bind; [destruct s; [apply quiet_check|by destruct e]|]. intros _ _.
    destruct op; quiet; unfold policy; by destruct (checkWrite p). }
  assert (w_calls w !! w_next w = None) as Hfresh by (destruct (w_calls w !! w_next w) eqn:E; [apply HC in E as [? _]; lia|done]).
  assert (users (w_locks w) !! w_next w = None) as Hnu.
  { destruct (users (w_locks w) !! w_next w) eqn:E; [|done]. apply HU in E as [? E]. congruence. }
  assert (∀ p t a, needs_lease (Call op s p t a)) as Hneed by (intros p t a; unfold needs_lease; destruct op, s; done).
  unfold begin_call. destruct (begin_target checkWrite w s op e) as [[p target]|er|] eqn:Hb; [| |done].
  - destruct (lock_exec (w_locks w) (LRef (w_next w) target)) as [r|] eqn:He; [|by simpl in He; rewrite Hnu in He].
    destruct (lock_exec_inv _ _ _ HL He) as (m' & -> & HL'). apply lock_user_after in He as [l Hl']. simpl in Hl'.
    apply goes_ok. split; simpl; try done.
    + intros d y [[<- <-]|[Hd Hy]]%lookup_insert_Some.
      * split; [lia|]. rewrite Hl', lookup_insert_eq. by repeat split.
      * destruct (HC _ _ Hy) as (? & ? & ?). rewrite Hl', lookup_insert_ne by done. split_and!; [lia|done|done].
    + intros d u. rewrite Hl'. intros [[<- _]|[Hd Hu]]%lookup_insert_Some; [rewrite lookup_insert_eq; by eexists|].
      rewrite lookup_insert_ne by done. by eapply HU.
  - apply goes_ok. split; simpl; try done.
    + intros d y [[<- <-]|[Hd Hy]]%lookup_insert_Some.
      * split; [lia|]. rewrite Hnu. by repeat split.
      * destruct (HC _ _ Hy) as (? & ? & ?). split_and!; [lia|done|done].
    + intros d u Hu. destruct (HU _ _ Hu) as [y Hy]. rewrite lookup_insert_ne; [by exists y|congruence].
Qed.

Lemma wexec_goes n w s r : world_inv n w → n + 1 < 2 ^ 64 → legal_step s → wexec checkWrite w s = Some r → goes (n + 1) r.
Proof.
  intros Hi Hn Hl He. pose proof (world_inv_le _ (n + 1) _ Hi ltac:(lia)) as Hi1.
  destruct s as [s op e|c|c e|c g e|c|c|b|b|b|b|fs]; cbn [wexec] in He;
    try (destruct (w_calls w !! c) as [x|] eqn:Hc; [|done]); try (injection He as <-).
  - by apply goes_begin.
  - destruct (c_at x) eqn:Ha; try done. by eapply (world_inv_lock _ w c x AtStart (LToken c)).
  - destruct (c_at x) eqn:Ha; try done. eapply (world_inv_lock _ w c x (Returned (Err e)) (LCancel c)); try done. by eexists.
  - by eapply goes_move.
  - destruct (c_at x) eqn:Ha; try done. eapply (world_inv_lock _ w c x (AtRelease o) (LPut c)); try done. by eexists.
  - destruct (c_at x) eqn:Ha; try done. eapply (world_inv_lock _ w c x (Returned o) (LRelease c)); try done. by eexists.
  - destruct (session_spec (w_valid w) (w_mgr w) b) as (? & ? & Hx & ? & ? & _); [apply Hi|apply Hi|].
    apply goes_ok, world_inv_mgr; [done..| |done|done]. rewrite Hx. apply Hi1.
  - destruct (forget_spec (w_mgr w) b) as (? & _ & Hx & _ & _ & ? & ? & _); [apply Hi|].
    apply goes_ok, world_inv_mgr; [done|done|by apply forget_within; apply Hi| |done|done]. rewrite Hx. apply Hi1.
  - apply goes_ok. by destruct Hi1.
  - apply goes_ok. by destruct Hi1.
  - apply goes_ok. by apply world_inv_fs.
Qed.
Lemma reaches_inv n w0 w : world_inv 0 w0 → reaches checkWrite w0 n w → Z.of_nat n < 2 ^ 64 → world_inv (Z.of_nat n) w.
Proof.
  intros Hi Hr. induction Hr as [w0|w0 n w1 s w2 _ IH Hl He]; intros Hn; [done|].
  destruct (wexec_goes (Z.of_nat n) w1 s (Ok w2)) as (w' & [= <-] & Hw'); [apply IH; [done|lia]|lia|done|done|].
  by replace (Z.of_nat (S n)) with (Z.of_nat n + 1) by lia.
Qed.

(** C4: in any world reached by edits, previews and rollbacks in any
    interleaving, with sessions ending, contexts cancelled and other programs
    changing files in between (and fewer than 2^64 steps, so that numbers do
    not wrap), every enabled step succeeds: no nil record, no blocked unlock;
    the backups are within both limits and counted exactly; records and the
    files of live scopes are one to one; and a target has at most one call
    between taking its lock and giving it back. *)
Theorem rollback_safe fs valid n w : reaches checkWrite (start_world fs valid) n w → Z.of_nat n + 1 < 2 ^ 64 →
  (∀ s r, legal_step s → wexec checkWrite w s = Some r → ∃ w', r = Ok w')
  ∧ bytes (w_mgr w) = total (records (w_mgr w)) ∧ bytes (w_mgr w) ≤ rollbackMaxBytes
  ∧ Z.of_nat (size (records (w_mgr w))) ≤ rollbackMaxRecords
  ∧ (∀ id r, records (w_mgr w) !! id = Some r ↔
       r_ID r = id ∧ ∃ b, scopes (w_mgr w) !! b = Some (r_scope r) ∧ files_of (w_mgr w) (r_scope r) !! r_Target r = Some r)
  ∧ (∀ c d x y, w_calls w !! c = Some x → w_calls w !! d = Some y → holding (c_at x) = true → holding (c_at y) = true →
       c_target x = c_target y → c = d).
Proof.
  intros Hr Hn. pose proof (reaches_inv _ _ _ (world_inv_start fs valid) Hr ltac:(lia)) as Hi.
  pose proof Hi as [HM (? & ? & _) [<- <-] HN HL HC HU]. split_and!; [|by destruct HM|done|done| |].
  - intros s r Hl He. destruct (wexec_goes _ _ _ _ Hi Hn Hl He) as (w' & -> & _). by exists w'.
  - intros id r. split.
    + intros Hrec. destruct (mi_rec _ HM _ _ Hrec) as (? & _ & ? & b & ?). split; [done|]. by exists b.
    + intros (<- & b & _ & Hf). by apply (mi_file _ HM) in Hf as [? _].
  - intros c d x y Hc Hd Hx Hy Ht. destruct (HC _ _ Hc) as (_ & Hux & _), (HC _ _ Hd) as (_ & Huy & _).
    assert (∀ a, holding a = true → phase_of a = Some Holds) as Hph by (by intros []).
    unfold user_of in Hux, Huy. rewrite (Hph _ Hx) in Hux. rewrite (Hph _ Hy) in Huy.
    destruct (users (w_locks w) !! c) as [u|] eqn:Hu; [|done]. destruct (users (w_locks w) !! d) as [v|] eqn:Hv; [|done].
    destruct Hux as [Hu1 Hu2], Huy as [Hv1 Hv2]. eapply (lock_inv_holds (w_locks w)); [done|exact Hu|exact Hv|done|done|congruence].
Qed.
End Steps.

(** * An edit and its rollback, one after the other *)

Section Restore.
Context `{UnicodeTables} `{TextEncodings} `{Hash}.
Variable checkWrite : path → option gostring.

(** The steps of one call that nothing interrupts. *)
Definition edit_steps (s : lease) (rq : EditRequest) (c : nat) : list wstep :=
  [SBegin (Some s) (OpEdit rq None) None; SToken c] ++ replicate 5 (SMove c None None) ++ [SUnlock c; SRelease c].
Definition rollback_steps (s : lease) (p : path) (id : Z) (c : nat) : list wstep :=
  [SBegin (Some s) (OpRollback p id) None; SToken c] ++ replicate 4 (SMove c None None) ++ [SUnlock c; SRelease c].
Definition outcome_of (w : world) (c : nat) : option (res outcome) :=
  match w_calls w !! c with Some x => match c_at x with Returned o => Some o | _ => None end | None => None end.
(** No call holds or waits for a target lock. *)
Definition idle (w : world) : Prop := locks (w_locks w) = ∅ ∧ users (w_locks w) = ∅.

Lemma wrun_cons w s ss w' : wrun checkWrite w (s :: ss) = Some (Ok w') →
  ∃ w1, wexec checkWrite w s = Some (Ok w1) ∧ wrun checkWrite w1 ss = Some (Ok w').
Proof. simpl. destruct (wexec checkWrite w s) as [[w1| |]|]; try done. by exists w1. Qed.

(** One move of a call that is not waiting at its unlock afterwards. *)
Lemma moved w c x ss w' : w_calls w !! c = Some x → wrun checkWrite w (SMove c None None :: ss) = Some (Ok w') →
  ∃ w1, move checkWrite w c x None None = Some (Ok w1) ∧ wrun checkWrite w1 ss = Some (Ok w').
Proof. intros Hc (w1 & He & Hr)%wrun_cons. simpl in He. rewrite Hc in He. by exists w1. Qed.
Lemma stuck w c x ss w' : w_calls w !! c = Some x → (∃ o, c_at x = AtUnlock o) →
  wrun checkWrite w (SMove c None None :: ss) ≠ Some (Ok w').
Proof. intros Hc [o Ho] (w1 & He & _)%(moved _ _ _ _ _ Hc). unfold move in He. by rewrite Ho in He. Qed.
Lemma calls_goto w c x a : w_calls (go_to w c x a) !! c = Some (Call (c_op x) (c_lease x) (c_path x) (c_target x) a).
Proof. simpl. by rewrite lookup_insert_eq. Qed.

(** A failing step cannot be followed by a move. *)
Lemma passed {A} w c x (m : res A) k w1 ss w' : step_or_fail w c x m k = Ok w1 →
  wrun checkWrite w1 (SMove c None None :: ss) = Some (Ok w') → ∃ a, m = Ok a ∧ k a = Ok w1.
Proof.
  destruct m as [a|e|]; simpl; [by exists a| |done]. intros [= <-] Hr. exfalso.
  eapply stuck; [apply calls_goto| |exact Hr]. by eexists.
Qed.

Definition edit_call (s : lease) (rq : EditRequest) (target : path) (pl : plan) : call :=
  Call (OpEdit rq None) (Some s) (rq_Path rq) target (AtPublish pl).

(** What a completed edit has done, read off its steps. *)
Record edit_done (w : world) (s : lease) (rq : EditRequest) (w' : world) (target : path) (pl : plan) : Prop := {
  ed_valid : validLocked (w_valid w) (w_mgr w) s = true;
  ed_target : ResolveFileTarget (w_fs w) (rq_Path rq) (rq_Create rq) = Ok target;
  ed_plan : ∃ r, plan_edit (w_fs w) rq None = Ok (pl_before pl, pl_created pl, r) ∧ pl_result pl = set_dry r false;
  ed_mode : plan_mode (w_fs w) (rq_Path rq) (pl_created pl) = Ok (pl_mode pl);
  ed_write : ∃ fs1 sn, make_parents (w_fs w) (rq_Path rq) (pl_created pl) = Ok fs1
    ∧ inspectFileState fs1 (rq_Path rq) (pl_created pl) (ContentRevision (f_Bytes (pl_before pl)))
        (Z.of_nat (length (f_Bytes (pl_before pl)))) = Ok sn
    ∧ checkFileTarget fs1 (rq_Path rq) target (pl_created pl) = Ok tt
    ∧ checkFileState fs1 (rq_Path rq) (pl_created pl) sn = Ok tt
    ∧ commit_write (is_symlink fs1 (rq_Path rq)) fs1 (rq_Path rq) (NewBytes (pl_result pl)) (pl_mode pl) = Ok (w_fs w');
  ed_policy : checkWrite (rq_Path rq) = None ∧ checkWrite target = None;
  ed_publish : ∃ o, publish (w_valid w) (w_mgr w) s target (new_record (edit_call s rq target pl) pl s) = Ok (w_mgr w', o)
    ∧ outcome_of w' (w_next w) = Some (Ok (Edited match o with Some (a, n) => with_rollback (pl_result pl) a n | None => pl_result pl end));
  ed_world : w_valid w' = w_valid w ∧ w_next w' = S (w_next w) ∧ idle w'
}.

Lemma policies_ok ps us : policies checkWrite ps = Ok us → us = map (λ _, tt) ps ∧ Forall (λ p, checkWrite p = None) ps.
Proof.
  revert us. induction ps as [|p ps IH]; intros us; unfold policies in *; simpl; [by intros [= <-]|].
  unfold policy at 1. destruct (checkWrite p) eqn:Hp; simpl; [done|]. intros (us' & [-> ?]%IH & [= <-])%res_bind_ok.
  by split; [|constructor].
Qed.

(** The lock steps of an uninterrupted call. *)
Lemma idle_locked (t : table) c target : locks t = ∅ → users t = ∅ →
  ∃ t1 t2 t3 t4, lock_exec t (LRef c target) = Some (Ok t1) ∧ lock_exec t1 (LToken c) = Some (Ok t2)
    ∧ lock_exec t2 (LPut c) = Some (Ok t3) ∧ lock_exec t3 (LRelease c) = Some (Ok t4) ∧ locks t4 = ∅ ∧ users t4 = ∅.
Proof.
  intros Hl Hu. simpl. rewrite Hu, lookup_empty. unfold lock_ref. rewrite Hl, lookup_empty.
  eexists _, _, _, _. split; [reflexivity|]. simpl. rewrite !lookup_insert_eq. split; [reflexivity|]. simpl.
  rewrite !lookup_insert_eq. split; [reflexivity|]. simpl. rewrite !lookup_insert_eq. unfold lock_release. simpl.
  rewrite !lookup_insert_eq. simpl. split; [reflexivity|]. simpl. rewrite Hu, !insert_insert_eq.
  rewrite (delete_insert_id ∅), (delete_insert_id ∅) by apply lookup_empty. done.
Qed.

(** The first two steps: the call has its target and the lock. *)
Lemma started w s op ss w' : idle w → wrun checkWrite w (SBegin (Some s) op None :: SToken (w_next w) :: ss) = Some (Ok w') →
  ∃ p target t2 t3 t4, begin_target checkWrite w (Some s) op None = Ok (p, target)
    ∧ lock_exec t2 (LPut (w_next w)) = Some (Ok t3) ∧ lock_exec t3 (LRelease (w_next w)) = Some (Ok t4)
    ∧ locks t4 = ∅ ∧ users t4 = ∅
    ∧ ∃ w2, wrun checkWrite w2 ss = Some (Ok w') ∧ w_calls w2 !! w_next w = Some (Call op (Some s) p target AtStart)
       ∧ w_fs w2 = w_fs w ∧ w_valid w2 = w_valid w ∧ w_mgr w2 = w_mgr w ∧ w_locks w2 = t2 ∧ w_next w2 = S (w_next w).
Proof.
  intros [Hl Hu] (w1 & Hb1 & (w2 & Hb2 & Hr)%wrun_cons)%wrun_cons. cbn [wexec] in Hb1. unfold begin_call in Hb1.
  destruct (begin_target checkWrite w (Some s) op None) as [[p target]|e|]; [| |done].
  2:{ injection Hb1 as <-. simpl in Hb2. by rewrite lookup_insert_eq in Hb2. }
  destruct (idle_locked (w_locks w) (w_next w) target Hl Hu) as (t1 & t2 & t3 & t4 & He1 & He2 & He3 & He4 & Hl4 & Hu4).
  rewrite He1 in Hb1. injection Hb1 as <-. cbn [wexec] in Hb2. simpl w_calls in Hb2. rewrite lookup_insert_eq in Hb2. simpl c_at in Hb2.
  unfold lock_move in Hb2. simpl w_locks in Hb2. rewrite He2 in Hb2. injection Hb2 as <-.
  exists p, target, t2, t3, t4. split_and!; try done. eexists. split; [exact Hr|]. by rewrite calls_goto.
Qed.
(** The last two steps: the lock is given back. *)
Lemma finished w x c o t3 t4 w' : w_calls w !! c = Some x → c_at x = AtUnlock o →
  lock_exec (w_locks w) (LPut c) = Some (Ok t3) → lock_exec t3 (LRelease c) = Some (Ok t4) →
  wrun checkWrite w [SUnlock c; SRelease c] = Some (Ok w') →
  w' = with_locks (go_to w c x (Returned o)) t4.
Proof.
  intros Hc Ha H3 H4 (w1 & He1 & (w2 & He2 & [= ->])%wrun_cons)%wrun_cons. cbn [wexec] in He1. rewrite Hc, Ha in He1.
  unfold lock_move in He1. rewrite H3 in He1. injection He1 as <-. cbn [wexec] in He2. rewrite calls_goto in He2. simpl c_at in He2.
  unfold lock_move in He2. simpl w_locks in He2. rewrite H4 in He2. injection He2 as <-.
  unfold go_to, with_locks. simpl. by rewrite insert_insert_eq.
Qed.

Lemma edit_completes w s rq w' res : idle w → wrun checkWrite w (edit_steps s rq (w_next w)) = Some (Ok w') →
  outcome_of w' (w_next w) = Some (Ok (Edited res)) → ∃ target pl, edit_done w s rq w' target pl.
Proof.
  intros Hidle Hr Hout. unfold edit_steps in Hr. cbn [app replicate] in Hr.
  destruct (started _ _ _ _ _ Hidle Hr) as (p & target & t2 & t3 & t4 & Hb & He3 & He4 & Hl4 & Hu4 & w2 & Hr2 & Hc2 & Hfs & Hv & Hm & Hlk & Hn).
  clear Hr. set (c := w_next w) in *. unfold begin_target in Hb. apply res_bind_ok in Hb as ([] & Hck & Hb).
  apply res_bind_ok in Hb as (target' & Ht & [= <- ->]).
  apply (moved _ _ _ _ _ Hc2) in Hr2 as (w3 & Hmv & Hr). simpl in Hmv. injection Hmv as Hmv. unfold edit_plan in Hmv.
  destruct (passed _ _ _ _ _ _ _ _ Hmv Hr) as ([[file created] r] & Hpl & Hmv1). clear Hmv.
  destruct (passed _ _ _ _ _ _ _ _ Hmv1 Hr) as (mode & Hmd & Hmv). clear Hmv1.
  destruct (passed _ _ _ _ _ _ _ _ Hmv Hr) as (fs1 & Hmk & Hmv1). clear Hmv.
  destruct (passed _ _ _ _ _ _ _ _ Hmv1 Hr) as ([] & _ & [= <-]). clear Hmv1.
  set (pl := Plan file created (set_dry r false) mode (is_symlink fs1 (rq_Path rq))).
  eapply (moved _ _ _ _ _ (calls_goto _ _ _ _)) in Hr as (w4 & Hmv & Hr). simpl in Hmv. injection Hmv as Hmv. unfold edit_inspect in Hmv.
  destruct (passed _ _ _ _ _ _ _ _ Hmv Hr) as (sn & Hin & [= <-]). clear Hmv.
  eapply (moved _ _ _ _ _ (calls_goto _ _ _ _)) in Hr as (w5 & Hmv & Hr). simpl in Hmv. injection Hmv as Hmv. unfold edit_enter in Hmv.
  destruct (passed _ _ _ _ _ _ _ _ Hmv Hr) as (us & Hent & [= <-]). clear Hmv.
  eapply (moved _ _ _ _ _ (calls_goto _ _ _ _)) in Hr as (w6 & Hmv & Hr). simpl in Hmv. injection Hmv as Hmv. unfold edit_write in Hmv.
  destruct (passed _ _ _ _ _ _ _ _ Hmv Hr) as (fs2 & Hwr & [= <-]). clear Hmv.
  eapply (moved _ _ _ _ _ (calls_goto _ _ _ _)) in Hr as (w7 & Hmv & Hr). simpl in Hmv. injection Hmv as Hmv.
  apply res_wrap_ok in Hin, Hent, Hwr. simpl in Hin.
  apply res_bind_ok in Hent as ([] & _ & (? & _ & ([] & Htg & Hpol)%res_bind_ok)%res_bind_ok).
  apply res_bind_ok in Hwr as ([] & Hst & ([] & _ & Hcw)%res_bind_ok).
  destruct (policies_ok _ _ Hpol) as [_ Hallowed]. rewrite !Hfs in *.
  unfold edit_publish in Hmv. simpl c_lease in Hmv. apply res_bind_ok in Hmv as ([m o] & Hpub & [= <-]).
  simpl in Hpub. rewrite Hv, Hm in Hpub.
  eapply (finished _ _ c) in Hr; [|apply calls_goto|reflexivity| |exact He4]; [|simpl; by rewrite Hlk].
  subst w'. exists target, pl. split; simpl; try done.
  - unfold check in Hck. by destruct (validLocked _ _ _).
  - by exists r.
  - by exists fs1, sn.
  - by inversion_clear Hallowed as [|? ? Hc1 Hc']; inversion_clear Hc'.
  - exists o. split; [exact Hpub|]. unfold outcome_of. simpl. by rewrite lookup_insert_eq.
Qed.

(** ** Running a rollback *)
(** The world while its newest call runs alone. *)
Definition world_at (w : world) (x : call) (t2 : table) (a : point) (fs : fsys) (m : RollbackManager) : world :=
  World fs (w_valid w) m t2 (<[w_next w := Call (c_op x) (c_lease x) (c_path x) (c_target x) a]> (w_calls w)) (S (w_next w)).
Lemma start_runs w s op p target ss : idle w → begin_target checkWrite w (Some s) op None = Ok (p, target) →
  ∃ t2 t3 t4, lock_exec t2 (LPut (w_next w)) = Some (Ok t3) ∧ lock_exec t3 (LRelease (w_next w)) = Some (Ok t4)
    ∧ locks t4 = ∅ ∧ users t4 = ∅
    ∧ wrun checkWrite w (SBegin (Some s) op None :: SToken (w_next w) :: ss) =
      wrun checkWrite (world_at w (Call op (Some s) p target AtStart) t2 AtStart (w_fs w) (w_mgr w)) ss.
Proof.
  intros [Hl Hu] Hb. destruct (idle_locked (w_locks w) (w_next w) target Hl Hu) as (t1 & t2 & t3 & t4 & He1 & He2 & He3 & He4 & ?).
  exists t2, t3, t4. split_and!; try done; try tauto. cbn [wrun wexec]. unfold begin_call. rewrite Hb, He1.
  simpl w_calls. rewrite lookup_insert_eq. simpl c_at. unfold lock_move. simpl w_locks. rewrite He2.
  unfold go_to, with_locks, world_at. simpl. by rewrite insert_insert_eq.
Qed.
Lemma move_runs w c x ss : w_calls w !! c = Some x →
  wrun checkWrite w (SMove c None None :: ss) =
    match move checkWrite w c x None None with Some (Ok w1) => wrun checkWrite w1 ss | r => r end.
Proof. intros Hc. cbn [wrun wexec]. by rewrite Hc. Qed.
Lemma finish_runs w c x o t3 t4 : w_calls w !! c = Some x → c_at x = AtUnlock o →
  lock_exec (w_locks w) (LPut c) = Some (Ok t3) → lock_exec t3 (LRelease c) = Some (Ok t4) →
  wrun checkWrite w [SUnlock c; SRelease c] = Some (Ok (with_locks (go_to w c x (Returned o)) t4)).
Proof.
  intros Hc Ha H3 H4. cbn [wrun wexec]. rewrite Hc, Ha. unfold lock_move. rewrite H3. rewrite calls_goto. simpl c_at.
  simpl w_locks. rewrite H4. unfold go_to, with_locks. simpl. by rewrite insert_insert_eq.
Qed.

Lemma step_runs w x t2 a fs m w1 ss :
  move checkWrite (world_at w x t2 a fs m) (w_next w) (Call (c_op x) (c_lease x) (c_path x) (c_target x) a) None None = Some (Ok w1) →
  wrun checkWrite (world_at w x t2 a fs m) (SMove (w_next w) None None :: ss) = wrun checkWrite w1 ss.
Proof. intros Hm. erewrite move_runs by (apply lookup_insert_eq). by rewrite Hm. Qed.
Lemma goto_at w x t2 a fs m a' : go_to (world_at w x t2 a fs m) (w_next w) (Call (c_op x) (c_lease x) (c_path x) (c_target x) a) a' = world_at w x t2 a' fs m.
Proof. unfold go_to, world_at. simpl. by rewrite insert_insert_eq. Qed.

(** A rollback whose record and target are as the edit left them. *)
Lemma rollback_runs w s p target r id m st :
  idle w → validLocked (w_valid w) (w_mgr w) s = true →
  files_of (w_mgr w) (ls_scope s) !! target = Some r → records (w_mgr w) !! r_ID r = Some r →
  r_Path r = p → r_Target r = target → id = 0 ∨ id = r_ID r →
  (∀ t r', files_of (w_mgr w) (ls_scope s) !! t = Some r' → r_Path r' = p → r_Target r' = target) →
  checkWrite p = None → checkWrite target = None →
  EvalSymlinks (w_fs w) p = Ok target →
  (∃ d, file_at (w_fs w) target d m st ∧ ContentRevision d = r_RevisionAfter r ∧ Z.of_nat (length d) = r_afterSize r) →
  ∃ w', wrun checkWrite w (rollback_steps s p id (w_next w)) = Some (Ok w')
    ∧ outcome_of w' (w_next w) = Some (Ok (RolledBack p (r_Created r) (if r_Created r then [] else r_RevisionBefore r)))
    ∧ w_fs w' = (if r_Created r then FS (delete target (nodes (w_fs w))) (clock (w_fs w))
                 else set_node (w_fs w) target (r_before r) (r_mode r))
    ∧ w_mgr w' = removeLocked (w_mgr w) r ∧ idle w'.
Proof.
  intros Hidle Hv Hfile Hrec Hpath Htgt Hid Honly Hcp Hct He (d & Hfa & Hrev & Hsz).
  assert (policy checkWrite p = Ok tt) as Hp1 by (unfold policy; by rewrite Hcp).
  assert (policy checkWrite target = Ok tt) as Hp2 by (unfold policy; by rewrite Hct).
  assert (begin_target checkWrite w (Some s) (OpRollback p id) None = Ok (p, target)) as Hb.
  { unfold begin_target, check. rewrite Hv. cbn [res_bind]. rewrite Hp1. cbn [res_bind]. by rewrite (fa_resolve _ _ _ _ _ Hfa). }
  unfold rollback_steps. cbn [app replicate].
  destruct (start_runs w s (OpRollback p id) p target
    [SMove (w_next w) None None; SMove (w_next w) None None; SMove (w_next w) None None; SMove (w_next w) None None;
     SUnlock (w_next w); SRelease (w_next w)] Hidle Hb) as (t2 & t3 & t4 & He3 & He4 & Hl4 & Hu4 & Hrun).
  rewrite Hrun. clear Hrun. set (c := w_next w) in *. subst target. set (target := r_Target r) in *.
  pose proof (fa_target _ _ _ _ _ Hfa) as Hback.
  assert (loadRecord checkWrite w (Call (OpRollback p id) (Some s) p target AtStart) p id None = Ok (r, d)) as Hload.
  { unfold loadRecord, load_section. cbn [c_lease c_target]. rewrite Hv. cbn [negb].
    assert (existsb (λ r0, bool_decide (r_Path r0 = p) && negb (bool_decide (r_Target r0 = target)))
      (map snd (map_to_list (files_of (w_mgr w) (ls_scope s)))) = false) as ->.
    { apply not_true_iff_false. intros (r' & Hin%list_elem_of_In & Hb')%existsb_exists. apply elem_of_values in Hin as (t & Ht).
      propify. destruct Hb' as [Hp' Hne]. by apply Hne, (Honly t). }
    rewrite Hfile. destruct (negb (id =? 0) && negb (r_ID r =? id)) eqn:Hidb; [propify; lia|]. cbn [res_bind].
    unfold load_checks. rewrite Hpath. fold target. rewrite (Hback p He). cbn [res_bind]. unfold policies. cbn [res_map].
    rewrite Hp1, Hp2. cbn [res_bind enter_guard]. rewrite (fa_stat _ _ _ _ _ Hfa). cbn [res_bind info_of fi_regular fi_size negb].
    rewrite <- Hsz, Z.eqb_refl. cbn [negb]. rewrite (fa_revision _ _ _ _ _ Hfa). cbn [res_bind].
    rewrite bool_decide_eq_true_2 by done. done. }
  assert (commit_section (w_valid w) (w_mgr w) s r None = Ok tt) as Hcs.
  { unfold commit_section. rewrite Hv. cbn [negb]. by rewrite bool_decide_eq_true_2. }
  set (fs2 := if r_Created r then FS _ _ else set_node _ _ _ _).
  assert ((if r_Created r then Remove (w_fs w) target else commit_write false (w_fs w) target (r_before r) (r_mode r)) = Ok fs2) as Hcommit.
  { unfold fs2. destruct (r_Created r); [by rewrite (fa_remove _ _ _ _ _ Hfa)|]. simpl. by rewrite (fa_rename _ _ _ _ _ Hfa). }
  assert (inspectFileState (w_fs w) target false (r_RevisionAfter r) (r_afterSize r) = Ok (Some (info_of (Regular d m st)))) as Hins
    by (rewrite <- Hrev, <- Hsz; by apply fa_inspect).
  pose proof (fa_state _ _ _ _ _ Hfa) as Hstate.
  set (x := Call (OpRollback p id) (Some s) p target AtStart) in *.
  rewrite (step_runs w x t2 AtStart _ _ (world_at w x t2 (AtInspectBack r false) (w_fs w) (w_mgr w))).
  2:{ cbn [move c_at c_op x]. unfold rollback_load.
      change (loadRecord checkWrite _ _ p id None) with (loadRecord checkWrite w x p id None). rewrite Hload. cbn [step_or_fail].
      destruct (r_Created r); [apply f_equal, f_equal, goto_at|]. cbn [w_fs world_at]. fold target.
      rewrite (fa_temp _ _ _ _ _ Hfa), (fa_not_link _ _ _ _ _ Hfa). cbn [rollback_error res_wrap step_or_fail].
      apply f_equal, f_equal, goto_at. }
  set (snap := Some (info_of (Regular d m st))) in *.
  rewrite (step_runs w x t2 (AtInspectBack r false) _ _ (world_at w x t2 (AtEnterBack r false snap) (w_fs w) (w_mgr w))).
  2:{ cbn [move c_at]. unfold back_inspect. cbn [w_fs world_at]. fold target. rewrite Hins. cbn [rollback_error res_wrap step_or_fail].
      apply f_equal, f_equal, goto_at. }
  rewrite (step_runs w x t2 (AtEnterBack r false snap) _ _ (world_at w x t2 (AtCommitBack r false snap) (w_fs w) (w_mgr w))).
  2:{ cbn [move c_at]. unfold back_enter. cbn [w_fs world_at c_path x]. fold target. rewrite Hpath, (Hback p He).
      cbn [enter_guard res_bind]. unfold policies. cbn [res_map]. rewrite Hp1, Hp2. cbn [res_bind rollback_error res_wrap step_or_fail].
      apply f_equal, f_equal, goto_at. }
  set (out := AtUnlock (Ok (RolledBack (r_Path r) (r_Created r) (if r_Created r then [] else r_RevisionBefore r)))).
  rewrite (step_runs w x t2 (AtCommitBack r false snap) _ _ (world_at w x t2 out fs2 (removeLocked (w_mgr w) r))).
  2:{ cbn [move c_at]. unfold back_commit. cbn [c_lease x]. cbn [w_fs w_valid w_mgr world_at]. fold target. rewrite Hstate. cbn [res_bind].
      rewrite Hcs. cbn [res_bind]. rewrite Hcommit. cbn [rollback_error res_wrap step_or_fail].
      change (with_mgr (with_fs (world_at w x t2 (AtCommitBack r false snap) (w_fs w) (w_mgr w)) fs2) (removeLocked (w_mgr w) r))
        with (world_at w x t2 (AtCommitBack r false snap) fs2 (removeLocked (w_mgr w) r)).
      apply f_equal, f_equal, goto_at. }
  erewrite (finish_runs _ c); [|apply lookup_insert_eq|reflexivity|exact He3|exact He4].
  eexists. split; [reflexivity|]. unfold outcome_of. simpl. rewrite lookup_insert_eq, Hpath. done.
Qed.

(** ** What an edit was computed from *)
Lemma plan_facts fs rq f c r : plan_edit fs rq None = Ok (f, c, r) →
  RevisionAfter r = ContentRevision (NewBytes r) ∧ Created r = c ∧ (c = false → read_bytes fs (rq_Path rq) = Ok (f_Bytes f)).
Proof.
  unfold plan_edit. destruct (_ && _ && _); [done|]. intros ([f' c'] & Hr & Hp)%res_bind_ok.
  destruct (_ && _); [done|]. destruct (_ && _); [done|].
  apply res_bind_ok in Hp as (newText & _ & (r' & Hres & [= <- <- <-])%res_bind_ok).
  unfold prepareFileResult in Hres. case_bool_decide; [done|]. apply res_bind_ok in Hres as (b & _ & Hres).
  destruct (_ && _); [done|]. apply res_bind_ok in Hres as (diff & _ & [= <-]). simpl. split_and!; [done|done|].
  intros ->. unfold ReadOrCreateFileWithLimit in Hr. destruct (ReadFileWithLimit _ _ _ _) as [f0|e|] eqn:Hf; [|exfalso|done].
  - injection Hr as <-. unfold ReadFileWithLimit in Hf. apply res_bind_ok in Hf as (info & _ & Hf). destruct (is_dir _ _); [done|].
    destruct (_ && _); [done|]. apply res_bind_ok in Hf as (data & Hd & ([[tx en] bm] & _ & Hf)%res_bind_ok).
    apply res_wrap_ok in Hd. destruct (_ && _); [done|]. by injection Hf as <-.
  - revert Hr. destruct (negb _ || _ || _); [done|]. cbv zeta. case_bool_decide; [done|].
    destruct (negb _); [|done]. by intros (? & _ & ?)%res_bind_ok.
Qed.

(** The same files with the same contents and modes; only directories may be new. *)
Definition restored (fs fs' : fsys) (created : bool) : Prop :=
  ∀ q, match lookup_node fs q, lookup_node fs' q with
       | Some (Regular d m _), Some (Regular d' m' _) => d' = d ∧ m' = m
       | None, Some Directory => created = true
       | a, b => b = a
       end.
Lemma restored_same fs created : restored fs fs created.
Proof. intros q. by destruct (lookup_node fs q) as [[]|]. Qed.

(** C3: a successful edit whose backup is available can be rolled back: the
    rollback of the same path by the same session, coming next, succeeds, and
    leaves every file with the contents and mode it had before the edit; a
    file the edit created is gone. The session must have no backup of the
    same path with another target, from before a link was changed. *)
Theorem rollback_restores fs valid n w s rq w1 res :
  reaches checkWrite (start_world fs valid) n w → Z.of_nat n + 1 < 2 ^ 64 → idle w →
  wrun checkWrite w (edit_steps s rq (w_next w)) = Some (Ok w1) →
  outcome_of w1 (w_next w) = Some (Ok (Edited res)) → RollbackAvailable res = true →
  (∀ t r, files_of (w_mgr w) (ls_scope s) !! t = Some r → r_Path r = rq_Path rq →
          ResolveFileTarget (w_fs w) (rq_Path rq) (rq_Create rq) = Ok (r_Target r)) →
  ∃ w2 rev, wrun checkWrite w1 (rollback_steps s (rq_Path rq) 0 (w_next w1)) = Some (Ok w2)
    ∧ outcome_of w2 (w_next w1) = Some (Ok (RolledBack (rq_Path rq) (Created res) rev))
    ∧ restored (w_fs w) (w_fs w2) (Created res).
Proof.
  intros Hreach Hn Hidle Hrun Hout Havail Honly.
  pose proof (reaches_inv checkWrite _ _ _ (world_inv_start fs valid) Hreach ltac:(lia)) as Hinv.
  destruct (edit_completes _ _ _ _ _ Hidle Hrun Hout) as (target & pl & [Hv Ht (r0 & Hpl & Hres) Hmode (fs1 & sn & Hmk & _ & Htg & Hst & Hcw) [Hc1 Hc2] (o & Hpub & Hout') (Hv1 & Hn1 & Hidle1)]).
  rewrite Hout in Hout'. injection Hout' as ->.
  destruct (plan_facts _ _ _ _ _ Hpl) as (Hrev & Hcr & Hread).
  set (x := edit_call s rq target pl) in *.
  destruct (publish_spec (w_valid w) (w_mgr w) s target (new_record x pl s)) as (m' & k & Hpub' & Hm' & _ & Hsc & _ & _ & _ & Hsub & _);
    [apply Hinv|apply Hinv|pose proof (wi_next _ _ Hinv); lia|done|done|].
  rewrite Hpub' in Hpub. injection Hpub as Hw1 <-. set (r := new_record x pl s (nextID (w_mgr w) + 1)) in *.
  simpl in Havail. rewrite Hw1 in *. apply bool_decide_eq_true in Havail.
  destruct (mi_rec _ Hm' _ _ Havail) as (_ & _ & Hfile & _).
  assert (validLocked (w_valid w1) (w_mgr w1) s = true) as Hvalid1.
  { destruct (validLocked_scope _ _ _ Hv) as [Hb1 Hb2]. unfold validLocked. by rewrite Hv1, Hsc, !bool_decide_eq_true_2. }
  destruct (commit_write_target _ _ _ _ _ _ _ Htg Hcw) as (m & Hfs1 & Hm).
  pose proof (commit_write_resolves _ _ _ _ _ _ _ Htg Hcw) as Heval. pose proof (target_not_root _ _ _ _ Htg) as Hroot.
  destruct (rollback_runs w1 s (rq_Path rq) target r 0 m (clock fs1)) as (w2 & Hrun2 & Hout2 & Hfs2 & _);
    [done|done|exact Hfile|exact Havail|done|done|by left| |exact Hc1|exact Hc2|exact Heval| |].
  - intros t r' Hf Hp. destruct (mi_file _ Hm' _ _ _ Hf) as (Hrec & Hs & Htt). destruct (Hsub _ _ Hrec) as [->|Hold]; [done|].
    destruct (mi_rec _ (wi_mgr _ _ Hinv) _ _ Hold) as (_ & _ & Hf0 & _). rewrite Hs in Hf0.
    pose proof (Honly _ _ Hf0 Hp) as Ht'. rewrite Ht in Ht'. by injection Ht'.
  - exists (NewBytes (pl_result pl)). split_and!; [split|change (r_RevisionAfter r) with (RevisionAfter (pl_result pl)); rewrite Hres; by symmetry|done].
    + by eapply EvalSymlinks_canonical.
    + rewrite Hfs1. unfold set_node. rewrite lookup_node_set by done. by rewrite decide_True.
  - exists w2. eexists. split; [exact Hrun2|]. split; [exact Hout2|].
    change (Created (with_rollback (pl_result pl) _ k)) with (r_Created r). rewrite Hfs2, Hfs1.
    assert (r_Created r = pl_created pl) as Hcreated by (change (r_Created r) with (Created (pl_result pl)); rewrite Hres; exact Hcr). rewrite Hcreated in *.
    intros q. destruct (pl_created pl).
    + unfold make_parents in Hmk. apply res_wrap_ok in Hmk. pose proof (mkdir_walk_dirs _ _ _ _ Hmk q) as Hdirs.
      assert (lookup_node fs1 target = None) as Hnone.
      { destruct (lookup_node fs1 target) as [[]|]; try done. destruct Hm as [He _]. by apply (absent_not_resolved _ _ _ _ Hst) in He. }
      assert (lookup_node (FS (delete target (nodes (set_node fs1 target (NewBytes (pl_result pl)) m))) (clock (set_node fs1 target (NewBytes (pl_result pl)) m))) q
              = lookup_node fs1 q) as ->.
      { unfold set_node. simpl. rewrite delete_insert_eq. destruct q as [|c q]; [done|]. simpl.
        destruct (decide (c :: q = target)) as [<-|Hq]; [rewrite lookup_delete_eq; symmetry; exact Hnone|by rewrite lookup_delete_ne]. }
      destruct Hdirs as [->|[-> ->]]; [by destruct (lookup_node (w_fs w) q) as [[]|]|done].
    + injection Hmk as <-. unfold set_node. rewrite !lookup_node_set by done.
      pose proof (target_eval _ _ _ Htg) as Hte. unfold plan_mode, Stat in Hmode. specialize (Hread eq_refl).
      unfold read_bytes in Hread. rewrite Hte in *. simpl in Hread, Hmode.
      destruct (decide (q = target)) as [->|Hq]; [|by destruct (lookup_node (w_fs w) q) as [[]|]].
      destruct (lookup_node (w_fs w) target) as [[d0 m0 s0| |]|]; try done. simpl in Hread, Hmode. simplify_eq.
      simpl. split; congruence.
Qed.
End Restore.

(** ** Witnesses *)
Lemma wrun_reaches `{UnicodeTables} `{TextEncodings} `{Hash} checkWrite w0 ss : ∀ n w w', reaches checkWrite w0 n w →
  Forall legal_step ss → wrun checkWrite w ss = Some (Ok w') → reaches checkWrite w0 (length ss + n) w'.
Proof.
  induction ss as [|s ss IH]; intros n w w' Hr Hl; simpl; [by intros [= <-]|]. apply Forall_cons in Hl as [Hs Hl].
  destruct (wexec checkWrite w s) as [[w1| |]|] eqn:He; try done. intros Hrun. replace (S (length ss + n)) with (length ss + S n)%nat by lia.
  eapply IH; [by econstructor|done|done].
Qed.

#[local] Existing Instances no_encodings prefix_hash tables.
Definition allow_all : path → option gostring := λ _, None.
Definition ran (w : world) (ss : list wstep) : world :=
  match wrun allow_all w ss with Some (Ok w') => w' | _ => w end.
Definition sample_start : world := start_world example_fs {[O]}.
Definition sample_session : world := ran sample_start [SSession (Some O)].
Definition sample_lease : lease := Lease 0 0.
Definition sample_edited : world := ran sample_session (edit_steps sample_lease replace_request 0).
Definition sample_result : EditResult :=
  match outcome_of sample_edited 0 with Some (Ok (Edited r)) => r | _ => no_result end.

Lemma sample_reaches : reaches allow_all sample_start 1 sample_session.
Proof.
  apply (wrun_reaches allow_all sample_start [SSession (Some O)] 0 sample_start); [constructor|by repeat constructor|].
  vm_compute. reflexivity.
Qed.
Lemma sample_edit_runs : wrun allow_all sample_session (edit_steps sample_lease replace_request 0) = Some (Ok sample_edited).
Proof. vm_compute. reflexivity. Qed.
Lemma sample_edited_reaches : reaches allow_all sample_start 10 sample_edited.
Proof.
  apply (wrun_reaches allow_all sample_start (edit_steps sample_lease replace_request 0) 1 sample_session _ sample_reaches); [by repeat constructor|].
  exact sample_edit_runs.
Qed.

Lemma rollback_safe_witness :
  bytes (w_mgr sample_edited) = total (records (w_mgr sample_edited)) ∧ bytes (w_mgr sample_edited) = 3
  ∧ bytes (w_mgr sample_edited) ≤ rollbackMaxBytes.
Proof.
  destruct (rollback_safe allow_all example_fs {[O]} 10 sample_edited sample_edited_reaches) as (_ & Hb & Hl & _); [lia|].
  split; [exact Hb|split; [vm_compute; reflexivity|exact Hl]].
Defined.
Lemma rollback_restores_witness :
  ∃ w2 rev, wrun allow_all sample_edited (rollback_steps sample_lease [§"link"; §"a.txt"] 0 1) = Some (Ok w2)
    ∧ outcome_of w2 1 = Some (Ok (RolledBack [§"link"; §"a.txt"] (Created sample_result) rev))
    ∧ restored (w_fs sample_session) (w_fs w2) (Created sample_result).
Proof.
  apply (rollback_restores allow_all example_fs {[O]} 1 sample_session sample_lease replace_request sample_edited sample_result).
  - exact sample_reaches.
  - lia.
  - split; vm_compute; reflexivity.
  - exact sample_edit_runs.
  - vm_compute. reflexivity.
  - vm_compute. reflexivity.
  - intros t r Hf. exfalso. vm_compute in Hf. discriminate Hf.
Defined.

(** The edit really changed the file, and the rollback really puts it back. *)
Example sample_contents :
  read_bytes (w_fs sample_edited) [§"home"; §"a.txt"] = Ok §"two"
  ∧ read_bytes (w_fs (ran sample_edited (rollback_steps sample_lease [§"link"; §"a.txt"] 0 1))) [§"home"; §"a.txt"] = Ok §"one"
  ∧ outcome_of (ran (ran sample_edited (rollback_steps sample_lease [§"link"; §"a.txt"] 0 1))
                    [SBegin (Some sample_lease) (OpRollback [§"link"; §"a.txt"] 0) None; SToken 2; SMove 2 None None; SUnlock 2; SRelease 2]) 2
    = Some (Err ErrRollbackNotFound).
Proof. vm_compute. done. Qed.

(** The same backups under a limit of no records at all. *)
Definition tight (m : RollbackManager) : RollbackManager :=
  Manager (scopes m) (scope_heap m) (next_scope m) (records m) (nextID m) (bytes m) (maxBytes m) 0.
Lemma tight_inv m : mgr_inv m → mgr_inv (tight m).
Proof. by intros []. Qed.
Lemma eviction_ends_witness :
  ∃ m', evict 2 (tight (w_mgr sample_edited)) 0 = Ok (m', 1 - Z.of_nat (size (records m'))) ∧ Z.of_nat (size (records m')) ≤ 0.
Proof.
  destruct (eviction_ends (tight (w_mgr sample_edited))) as (m' & He & _ & _ & Hs & _).
  - apply tight_inv, (reaches_inv allow_all 10 sample_start sample_edited); [apply world_inv_start|exact sample_edited_reaches|lia].
  - vm_compute. discriminate.
  - vm_compute. discriminate.
  - exists m'. split; [exact He|].
    assert (maxRecords m' = 0) as Hm; [|by rewrite <- Hm].
    revert He. vm_compute. intros [= <-]. reflexivity.
Defined.
