(* ===== verification/Segment.v ===== *)
(** * Message segments ([internal/llm/message.go], [internal/llm/segment.go])

    The helpers that edit the text of a segmented message. They copy the slice
    before they change it, so values carry no aliasing. *)
From S2P Require Import Prelude GoStr.
Open Scope Z_scope.

Inductive MessageSegmentType := SegmentText | SegmentImage | SegmentFile | SegmentOther (name : gostring).
#[export] Instance MessageSegmentType_eq_dec : EqDecision MessageSegmentType.
Proof. solve_decision. Defined.

Record MessageSegment := {
  Type_ : MessageSegmentType;
  seg_Text : gostring;
  URL : gostring;
  MediaID : gostring;
  MIMEType : gostring;
  seg_Name : gostring
}.
#[export] Instance MessageSegment_eq_dec : EqDecision MessageSegment.
Proof. solve_decision. Defined.

Definition text_segment (text : gostring) : MessageSegment :=
  {| Type_ := SegmentText; seg_Text := text; URL := []; MediaID := []; MIMEType := []; seg_Name := [] |}.
Definition set_text (segment : MessageSegment) (text : gostring) : MessageSegment :=
  {| Type_ := Type_ segment; seg_Text := text; URL := URL segment; MediaID := MediaID segment;
     MIMEType := MIMEType segment; seg_Name := seg_Name segment |}.
Definition is_text (segment : MessageSegment) : bool := bool_decide (Type_ segment = SegmentText).

Definition TextSegments (text : gostring) : list MessageSegment :=
  if bool_decide (text = []) then [] else [text_segment text].

Fixpoint set_text_from (segments : list MessageSegment) (text : gostring) (inserted : bool)
  : list MessageSegment * bool :=
  match segments with
  | [] => ([], inserted)
  | segment :: segments =>
    if negb (is_text segment) then
      let (out, ins) := set_text_from segments text inserted in (segment :: out, ins)
    else if negb inserted && negb (bool_decide (text = [])) then
      let (out, ins) := set_text_from segments text true in (set_text segment text :: out, ins)
    else set_text_from segments text inserted
  end.
Definition SetSegmentText (segments : list MessageSegment) (text : gostring) : list MessageSegment :=
  let (out, inserted) := set_text_from segments text false in
  if negb inserted && negb (bool_decide (text = [])) then text_segment text :: out else out.

Definition raw_text (segments : list MessageSegment) : gostring :=
  concat (map (λ segment, if is_text segment then seg_Text segment else []) segments).
Definition SegmentsTextOnly (segments : list MessageSegment) : gostring := trim_space (raw_text segments).

(** The first text segment of [segments] with its text changed by [f]. *)
Fixpoint update_first_text (f : gostring → gostring) (segments : list MessageSegment)
  : option (list MessageSegment) :=
  match segments with
  | [] => None
  | segment :: segments =>
    if is_text segment then Some (set_text segment (f (seg_Text segment)) :: segments)
    else cons segment <$> update_first_text f segments
  end.
(** The last one: the loop runs from the end. *)
Fixpoint update_last_text (f : gostring → gostring) (segments : list MessageSegment)
  : option (list MessageSegment) :=
  match segments with
  | [] => None
  | segment :: segments =>
    match update_last_text f segments with
    | Some out => Some (segment :: out)
    | None => if is_text segment then Some (set_text segment (f (seg_Text segment)) :: segments) else None
    end
  end.

Definition PrependSegmentText (segments : list MessageSegment) (prefix : gostring) : list MessageSegment :=
  if bool_decide (prefix = []) then segments
  else match update_first_text (app prefix) segments with
       | Some out => out
       | None => text_segment prefix :: segments
       end.
Definition AppendSegmentText (segments : list MessageSegment) (suffix : gostring) : list MessageSegment :=
  if bool_decide (suffix = []) then segments
  else match update_last_text (λ t, t ++ suffix) segments with
       | Some out => out
       | None => segments ++ [text_segment suffix]
       end.

Definition HasImageSegment (segments : list MessageSegment) : bool :=
  existsb (λ segment, bool_decide (Type_ segment = SegmentImage)) segments.

(** ** Lemmas *)
Definition media (segments : list MessageSegment) : list MessageSegment :=
  filter (λ segment, is_text segment = false) segments.

Lemma is_text_set s t : is_text (set_text s t) = is_text s.
Proof. done. Qed.

Lemma raw_text_app a b : raw_text (a ++ b) = raw_text a ++ raw_text b.
Proof. unfold raw_text. by rewrite map_app, concat_app. Qed.
Lemma raw_text_cons s l : raw_text (s :: l) = (if is_text s then seg_Text s else []) ++ raw_text l.
Proof. done. Qed.
Lemma media_app a b : media (a ++ b) = media a ++ media b.
Proof. apply filter_app. Qed.
Lemma media_cons s l : media (s :: l) = (if is_text s then [] else [s]) ++ media l.
Proof. unfold media. rewrite filter_cons. by destruct (is_text s); case_decide. Qed.

Lemma update_last_text_ok suffix l :
  match update_last_text (λ t, t ++ suffix) l with
  | Some out => raw_text out = raw_text l ++ suffix ∧ media out = media l
  | None => raw_text l = []
  end.
Proof.
  induction l as [|s l IH]; [done|]. cbn [update_last_text].
  destruct (update_last_text _ l) as [out|].
  - destruct IH as [Ht Hm]. by rewrite !raw_text_cons, !media_cons, Ht, Hm, app_assoc.
  - destruct (is_text s) eqn:Hs; [|by rewrite raw_text_cons, Hs].
    rewrite !raw_text_cons, !media_cons, is_text_set, Hs, IH. cbn [seg_Text set_text]. by rewrite !app_nil_r.
Qed.

(** Appending keeps the media and appends to the text. *)
Lemma AppendSegmentText_ok l suffix :
  raw_text (AppendSegmentText l suffix) = raw_text l ++ suffix ∧ media (AppendSegmentText l suffix) = media l.
Proof.
  unfold AppendSegmentText. case_bool_decide as He; [subst; by rewrite app_nil_r|].
  pose proof (update_last_text_ok suffix l) as Hu. destruct (update_last_text _ l) as [out|]; [done|].
  rewrite raw_text_app, media_app, Hu, media_cons, raw_text_cons. cbn. by rewrite !app_nil_r.
Qed.

Lemma TextSegments_ok text : raw_text (TextSegments text) = text ∧ media (TextSegments text) = [].
Proof.
  unfold TextSegments. case_bool_decide; [by subst|]. split; [|done]. unfold raw_text. cbn. by rewrite app_nil_r.
Qed.

Lemma set_text_from_ok text : ∀ segments inserted,
  let (out, ins) := set_text_from segments text inserted in
  media out = media segments
  ∧ raw_text out = (if negb inserted && ins then text else [])
  ∧ (text = [] → ins = inserted) ∧ (inserted = true → ins = true).
Proof.
  induction segments as [|s l IH]; intros inserted; cbn [set_text_from].
  { by destruct inserted. }
  destruct (is_text s) eqn:Hs; cbn [negb].
  - destruct inserted; cbn [negb andb].
    + specialize (IH true). destruct (set_text_from l text true) as [out ins]. by rewrite !media_cons, Hs.
    + case_bool_decide as He; cbn [negb andb].
      * specialize (IH false). destruct (set_text_from l text false) as [out ins]. by rewrite media_cons, Hs.
      * specialize (IH true). destruct (set_text_from l text true) as [out ins].
        destruct IH as (Hm & Hr & _ & Hi). rewrite !media_cons, raw_text_cons, is_text_set, Hs, Hm, Hr, (Hi eq_refl).
        cbn. by rewrite app_nil_r.
  - specialize (IH inserted). destruct (set_text_from l text inserted) as [out ins].
    destruct IH as (Hm & Hr & ?). by rewrite !media_cons, raw_text_cons, Hs, Hm, Hr.
Qed.

(** Setting the text keeps the media, in order. *)
Lemma SetSegmentText_ok segments text :
  raw_text (SetSegmentText segments text) = text ∧ media (SetSegmentText segments text) = media segments.
Proof.
  unfold SetSegmentText. pose proof (set_text_from_ok text segments false) as Hs.
  destruct (set_text_from segments text false) as [out ins]. destruct Hs as (Hm & Hr & Hn & _).
  destruct ins; cbn [negb andb] in *.
  - by destruct (decide (text = [])) as [He|]; [specialize (Hn He)|].
  - case_bool_decide as He; cbn [negb andb]; [subst; done|].
    rewrite raw_text_cons, media_cons, Hr, Hm. cbn. by rewrite app_nil_r.
Qed.

(** * Readable text of message segments ([internal/llm/segment.go])

    The text stored, logged and summarised for a segmented message. [url.Parse]
    is a parameter: it gives the scheme and the host of a URL, or fails. *)

Section content.
  Context `{UnicodeTables} (url_parse : gostring → option (gostring * gostring)).

Definition data_url (value : gostring) : bool := has_prefix §"data:" (to_lower (trim_space value)).

Definition reusableImageURL (value : gostring) : gostring * bool :=
  let value := trim_space value in
  match url_parse value with
  | None => ([], false)
  | Some (scheme, host) =>
    if bool_decide (host = []) || (negb (equal_fold_ascii scheme §"http") && negb (equal_fold_ascii scheme §"https"))
    then ([], false) else (value, true)
  end.

Definition has_source (segment : MessageSegment) : bool :=
  negb (bool_decide (trim_space (URL segment) = [])) || negb (bool_decide (MediaID segment = [])).

Definition ImageReferenceText (segment : MessageSegment) (index : Z) : gostring :=
  if negb (bool_decide (Type_ segment = SegmentImage)) || (index <? 1) || negb (has_source segment) then []
  else
    let name := trim_space (seg_Name segment) in
    let parts := [§"图片 " ++ itoa index] ++ (if bool_decide (name = []) then [] else [§"名称：" ++ name]) in
    let parts := parts ++
      [if negb (bool_decide (MediaID segment = [])) then §"媒体 ID：" ++ MediaID segment
       else let (u, ok) := reusableImageURL (URL segment) in
            if ok then §"引用 URL：" ++ u
            else if data_url (URL segment) then §"内嵌图片，无可复用 URL"
            else §"无可复用 URL"] in
    §"[" ++ join §"；" parts ++ §"]".

Definition displaySegmentURL (value : gostring) : gostring := if data_url value then [] else value.

Fixpoint firstNonEmpty (values : list gostring) : gostring :=
  match values with
  | [] => []
  | v :: values => if bool_decide (trim_space v = []) then firstNonEmpty values else trim_space v
  end.
Definition writeSegmentText (text value : gostring) : gostring :=
  if bool_decide (value = []) then text
  else text ++ (if bool_decide (text = []) then [] else §" ") ++ value.
Definition writeSegmentLabel (text kind : gostring) (values : list gostring) : gostring :=
  let value := firstNonEmpty values in
  text ++ (if bool_decide (text = []) then [] else §" ") ++ §"[" ++ kind
  ++ (if bool_decide (value = []) then [] else §": " ++ value) ++ §"]".

(** The loop of [SegmentsRawContentText]. *)
Fixpoint raw_content (text : gostring) (imageIndex : Z) (segments : list MessageSegment) : gostring :=
  match segments with
  | [] => text
  | segment :: segments =>
    match Type_ segment with
    | SegmentText => raw_content (text ++ seg_Text segment) imageIndex segments
    | SegmentImage =>
      if has_source segment then
        raw_content (writeSegmentText text (ImageReferenceText segment (imageIndex + 1))) (imageIndex + 1) segments
      else
        raw_content (writeSegmentLabel text §"图片" [[]; seg_Name segment; seg_Text segment; MIMEType segment]) imageIndex segments
    | SegmentFile =>
      let source := if bool_decide (MediaID segment = []) then displaySegmentURL (URL segment) else MediaID segment in
      raw_content (writeSegmentLabel text §"文件" [source; seg_Name segment; seg_Text segment; MIMEType segment]) imageIndex segments
    | SegmentOther _ => raw_content text imageIndex segments
    end
  end.
Definition SegmentsRawContentText (segments : list MessageSegment) : gostring := raw_content [] 0 segments.
Definition SegmentsContentText (segments : list MessageSegment) : gostring := trim_space (SegmentsRawContentText segments).

(** ** Properties *)
(** A segment with its inline data left out. *)
Definition redact (segment : MessageSegment) : MessageSegment :=
  if data_url (URL segment) then
    {| Type_ := Type_ segment; seg_Text := seg_Text segment; URL := §"data:"; MediaID := MediaID segment;
       MIMEType := MIMEType segment; seg_Name := seg_Name segment |}
  else segment.

Lemma data_url_nonempty value : data_url value = true → trim_space value ≠ [].
Proof. unfold data_url. intros Hd He. by rewrite He in Hd. Qed.

Lemma redact_image segment index : (∀ v, data_url v = true → (reusableImageURL v).2 = false) →
  ImageReferenceText (redact segment) index = ImageReferenceText segment index.
Proof.
  intros Hurl. unfold redact. destruct (data_url (URL segment)) eqn:Hd; [|done]. unfold ImageReferenceText, has_source.
  cbn [Type_ seg_Text URL MediaID MIMEType seg_Name]. rewrite (bool_decide_eq_false_2 _ (data_url_nonempty _ Hd)).
  assert (data_url §"data:" = true) as Hc by done. rewrite (bool_decide_eq_false_2 _ (data_url_nonempty _ Hc)). cbn [negb orb].
  pose proof (Hurl _ Hd) as H1. pose proof (Hurl _ Hc) as H2.
  destruct (reusableImageURL (URL segment)) as [u b], (reusableImageURL §"data:") as [u' b']. cbn in H1, H2. subst b b'.
  by rewrite Hd, Hc.
Qed.

Lemma redact_source segment : has_source (redact segment) = has_source segment.
Proof.
  unfold redact. destruct (data_url (URL segment)) eqn:Hd; [|done]. unfold has_source. cbn [URL MediaID].
  by rewrite (bool_decide_eq_false_2 _ (data_url_nonempty _ Hd)).
Qed.

Lemma redact_other segment : Type_ (redact segment) = Type_ segment ∧ seg_Text (redact segment) = seg_Text segment
  ∧ MediaID (redact segment) = MediaID segment ∧ MIMEType (redact segment) = MIMEType segment
  ∧ seg_Name (redact segment) = seg_Name segment ∧ displaySegmentURL (URL (redact segment)) = displaySegmentURL (URL segment).
Proof.
  unfold redact, displaySegmentURL. destruct (data_url (URL segment)) eqn:Hd; [|by rewrite Hd].
  cbn [Type_ seg_Text URL MediaID MIMEType seg_Name]. by assert (data_url §"data:" = true) as -> by done.
Qed.

(** The readable text of a message never contains inline media: replacing
    every data URL by the bare scheme does not change the text, as long as
    [url.Parse] finds no HTTP host in a data URL. *)
Lemma content_text_hides_data segments : (∀ v, data_url v = true → (reusableImageURL v).2 = false) →
  SegmentsContentText (map redact segments) = SegmentsContentText segments.
Proof.
  intros Hurl. unfold SegmentsContentText, SegmentsRawContentText. f_equal. generalize 0. generalize (@nil ascii).
  induction segments as [|segment segments IH]; intros text n; cbn [map raw_content]; [done|].
  destruct (redact_other segment) as (-> & -> & -> & -> & -> & ->). rewrite redact_source, redact_image by done.
  destruct (Type_ segment); [apply IH|destruct (has_source segment); apply IH|apply IH|apply IH].
Qed.

(** The rendering only appends. *)
Lemma raw_content_grows segments : ∀ text n, ∃ b, raw_content text n segments = text ++ b.
Proof.
  induction segments as [|s segments IH]; intros text n; cbn [raw_content]; [exists []; by rewrite app_nil_r|].
  assert (∀ t v, ∃ b, writeSegmentText t v = t ++ b) as Hw.
  { intros t v. unfold writeSegmentText. destruct (bool_decide (v = [])); [exists []; by rewrite app_nil_r|eauto]. }
  assert (∀ t k v, ∃ b, writeSegmentLabel t k v = t ++ b) as Hl by (intros t k v; unfold writeSegmentLabel; eauto).
  assert (∀ t t' m, (∃ b, t' = t ++ b) → ∃ b, raw_content t' m segments = t ++ b) as Hc.
  { intros t t' m [b ->]. destruct (IH (t ++ b) m) as [b' ->]. exists (b ++ b'). by rewrite app_assoc. }
  destruct (Type_ s); [apply Hc; eauto|destruct (has_source s); apply Hc; auto|apply Hc; auto|apply IH].
Qed.

Lemma raw_content_keeps segments : ∀ text n s, s ∈ segments → is_text s = true →
  ∃ a b, raw_content text n segments = a ++ seg_Text s ++ b.
Proof.
  induction segments as [|s0 segments IH]; intros text n s Hin Hs; [by apply elem_of_nil in Hin|].
  cbn [raw_content]. apply elem_of_cons in Hin as [<-|Hin].
  - unfold is_text in Hs. apply bool_decide_eq_true in Hs. rewrite Hs.
    destruct (raw_content_grows segments (text ++ seg_Text s) n) as [b ->]. exists text, b. by rewrite app_assoc.
  - destruct (Type_ s0); [|destruct (has_source s0)|..]; by apply IH.
Qed.

Lemma raw_content_plain segments : forallb is_text segments = true → ∀ text n, raw_content text n segments = text ++ raw_text segments.
Proof.
  induction segments as [|s segments IH]; intros Hall text n; cbn [raw_content]; [by rewrite app_nil_r|].
  cbn [forallb] in Hall. apply andb_true_iff in Hall as [Hs Hall]. rewrite raw_text_cons, Hs.
  unfold is_text in Hs. apply bool_decide_eq_true in Hs. rewrite Hs, IH by done. by rewrite app_assoc.
Qed.

(** Text comes through unchanged: a message of text segments renders as
    their concatenation, and every text segment of any message is part of the
    rendered text. *)
Lemma content_text_keeps_text segments :
  (forallb is_text segments = true → SegmentsRawContentText segments = raw_text segments)
  ∧ ∀ s, s ∈ segments → is_text s = true → ∃ a b, SegmentsRawContentText segments = a ++ seg_Text s ++ b.
Proof.
  split; [intros Hall; apply (raw_content_plain _ Hall [] 0)|]. intros s. apply raw_content_keeps.
Qed.
End content.

(** ** The properties at a concrete message *)
(** A parser that knows the two HTTP schemes only. *)
Definition http_parse (value : gostring) : option (gostring * gostring) :=
  if has_prefix §"http://" value then Some (§"http", drop 7 value)
  else if has_prefix §"https://" value then Some (§"https", drop 8 value) else Some ([], []).
Definition inline_image : MessageSegment :=
  {| Type_ := SegmentImage; seg_Text := []; URL := §"data:image/png;base64,AAAA"; MediaID := []; MIMEType := []; seg_Name := §"a.png" |}.

Lemma http_parse_data `{UnicodeTables} v : (∀ w, has_prefix §"http" w = true → has_prefix §"data:" (to_lower w) = false) →
  data_url v = true → (reusableImageURL http_parse v).2 = false.
Proof.
  intros Hlow. unfold data_url, reusableImageURL, http_parse. intros Hd.
  assert (has_prefix §"http" (trim_space v) = false) as Hp.
  { destruct (has_prefix §"http" (trim_space v)) eqn:Hp; [|done]. by rewrite Hlow in Hd. }
  assert (∀ p w, has_prefix (§"http" ++ p) w = true → has_prefix §"http" w = true) as Hpre.
  { intros p w. rewrite !has_prefix_spec. intros [t ->]. exists (p ++ t). by rewrite app_assoc. }
  destruct (has_prefix §"http://" (trim_space v)) eqn:H1; [by rewrite (Hpre §"://" (trim_space v) H1) in Hp|].
  destruct (has_prefix §"https://" (trim_space v)) eqn:H2; [by rewrite (Hpre §"s://" (trim_space v) H2) in Hp|].
  done.
Qed.

#[local] Existing Instance ascii_tables.
Lemma http_not_data w : has_prefix §"http" w = true → has_prefix §"data:" (to_lower w) = false.
Proof.
  rewrite has_prefix_spec. intros [r ->]. unfold to_lower. destruct (forallb is_ascii _); [reflexivity|].
  cbn. reflexivity.
Qed.

Lemma content_text_hides_data_witness :
  SegmentsContentText http_parse (map redact [text_segment §"see"; inline_image])
  = SegmentsContentText http_parse [text_segment §"see"; inline_image].
Proof.
  apply content_text_hides_data. intros v. apply http_parse_data. exact http_not_data.
Defined.
Example inline_text : SegmentsContentText http_parse [text_segment §"see"; inline_image] = §"see [图片 1；名称：a.png；内嵌图片，无可复用 URL]".
Proof. vm_compute. reflexivity. Qed.
