(* ===== verification/Turn.v ===== *)
(** * The turn lifecycle ([internal/turn/lifecycle], [internal/turn/execution.go],
      [internal/turn/confirmation/risk.go])

    One table of turns, keyed by session, under one lock: each operation is a
    function on the whole state. A turn and a channel are Go pointers, so they
    carry an identity; closing a closed channel panics. *)
From S2P Require Import Prelude GoStr Segment.
Open Scope Z_scope.

(** ** Inputs *)
Record Input := {
  NeedsElyphRules : bool;
  Text : gostring;
  PlatformText : gostring;
  Segments : list MessageSegment
}.
Definition no_input : Input := {| NeedsElyphRules := false; Text := []; PlatformText := []; Segments := [] |}.
Definition has_content (input : Input) : bool :=
  negb (bool_decide (Text input = [])) || negb (bool_decide (Segments input = [])).

Definition normalizeInput (input : Input) : Input :=
  let text := trim_space (Text input) in
  let segments := if bool_decide (Segments input = []) then TextSegments text else Segments input in
  {| NeedsElyphRules := NeedsElyphRules input;
     Text := if bool_decide (text = []) then trim_space (SegmentsTextOnly segments) else text;
     PlatformText := trim_space (PlatformText input);
     Segments := segments |}.

(** "Supplementary information", followed by a full-width colon, in UTF-8. *)
Definition supplement : gostring := §"补充信息：".
Definition item_label (i : nat) : gostring := [newline] ++ itoa (Z.of_nat i) ++ §". ".

Fixpoint numbered_texts (i : nat) (inputs : list gostring) : gostring :=
  match inputs with
  | [] => []
  | input :: inputs => item_label i ++ input ++ numbered_texts (S i) inputs
  end.
Definition mergeTextInputs (inputs : list gostring) : gostring :=
  match filter (λ s, s ≠ []) (map trim_space inputs) with
  | [] => []
  | [input] => input
  | clean => supplement ++ numbered_texts 1 clean
  end.

Fixpoint merge_segments (i : nat) (inputs : list Input) (segments : list MessageSegment) : list MessageSegment :=
  match inputs with
  | [] => segments
  | input :: inputs =>
    merge_segments (S i) inputs (AppendSegmentText segments (item_label i) ++ Segments input)
  end.
Definition mergeInputs (inputs : list Input) : Input :=
  match filter (λ input, has_content input = true) inputs with
  | [] => no_input
  | [input] => input
  | clean =>
    let segments := merge_segments 1 clean (TextSegments supplement) in
    {| NeedsElyphRules := existsb NeedsElyphRules clean;
       Text := SegmentsTextOnly segments;
       PlatformText := mergeTextInputs (map PlatformText clean);
       Segments := segments |}
  end.

(** ** Executions *)

(** The errors an execution is finished with. *)
Inductive go_error := Canceled | DeadlineExceeded | OtherError (msg : gostring).
Definition is_cancellation (err : go_error) : bool :=
  match err with OtherError _ => false | _ => true end.

Record Execution := {
  RunID : gostring;
  SessionID : gostring;
  MessageID : gostring;
  ResultText : gostring;
  TakenOver : bool;
  Outcome : gostring;
  ResultErr : option go_error;
  done_ : nat;
  finished : bool
}.
Definition NewExecution (id : gostring) (done_chan : nat) : Execution :=
  {| RunID := id; SessionID := []; MessageID := []; ResultText := []; TakenOver := false;
     Outcome := []; ResultErr := None; done_ := done_chan; finished := false |}.
(** The handoff context and row are opaque values that only [Foreground] reads back. *)
Definition Adopt (e : Execution) : Execution :=
  {| RunID := RunID e; SessionID := SessionID e; MessageID := MessageID e; ResultText := ResultText e;
     TakenOver := true; Outcome := Outcome e; ResultErr := ResultErr e; done_ := done_ e; finished := finished e |}.
Definition SetResult (e : Execution) (sessionID messageID text : gostring) : Execution :=
  if finished e then e
  else {| RunID := RunID e; SessionID := sessionID; MessageID := messageID; ResultText := text;
          TakenOver := TakenOver e; Outcome := Outcome e; ResultErr := ResultErr e;
          done_ := done_ e; finished := finished e |}.
Definition outcome_of (err : option go_error) : gostring :=
  match err with
  | None => §"completed"
  | Some err => if is_cancellation err then §"cancelled" else §"failed"
  end.

(** ** The state *)
Inductive Phase := PhaseIdle | PhaseLLM | PhaseTool | PhaseAwaitRiskConfirm | PhaseAwaitAppendConfirm
                 | PhaseCompact | PhaseStopping.
#[export] Instance Phase_eq_dec : EqDecision Phase.
Proof. solve_decision. Defined.

Record RiskConfirmation := { ToolName : gostring; Arguments_ : gostring; Risk : gostring; Detail : gostring }.
Inductive RiskAction := RiskConfirm | RiskConfirmTool | RiskConfirmAll | RiskReject | RiskOtherAction (name : gostring).
Record RiskDecision := { Action : RiskAction; Extra : gostring; Reason : gostring }.
Definition no_decision : RiskDecision := {| Action := RiskOtherAction []; Extra := []; Reason := [] |}.
Inductive RiskOutcome := RiskAnswered | RiskCanceled | RiskExpired | RiskStale.
Record RiskResult := { Decision_ : RiskDecision; Outcome_ : RiskOutcome; Err_ : option go_error }.
Definition result (outcome : RiskOutcome) (err : option go_error) : RiskResult :=
  {| Decision_ := no_decision; Outcome_ := outcome; Err_ := err |}.

(** A channel or an execution is named by a number; [None] is nil. *)
Record state := {
  self : nat;
  execution : option nat;
  compactReady : bool;
  reserved : bool;
  attempt : gostring;
  phase : Phase;
  originalInput : Input;
  pending : list Input;
  riskConfirm : option RiskConfirmation;
  riskResponse : option nat;
  waitRefresh : option nat;
  riskDone : option nat;
  tools : gmap gostring Z;
  attemptDone : option nat
}.

(** [responses] and [tokens] are the contents of the one-slot channels. *)
Record world := {
  turns : gmap gostring state;
  executions : gmap nat Execution;
  closed : gset nat;
  responses : gmap nat RiskDecision;
  tokens : gset nat;
  next : nat
}.
Definition NewManager : world :=
  {| turns := ∅; executions := ∅; closed := ∅; responses := ∅; tokens := ∅; next := 0 |}.

Definition with_turns (w : world) (ts : gmap gostring state) : world :=
  {| turns := ts; executions := executions w; closed := closed w; responses := responses w;
     tokens := tokens w; next := next w |}.
Definition put (w : world) (sessionID : gostring) (turn : state) : world :=
  with_turns w (<[sessionID := turn]> (turns w)).
Definition with_executions (w : world) (es : gmap nat Execution) : world :=
  {| turns := turns w; executions := es; closed := closed w; responses := responses w;
     tokens := tokens w; next := next w |}.
Definition with_closed (w : world) (c : gset nat) : world :=
  {| turns := turns w; executions := executions w; closed := c; responses := responses w;
     tokens := tokens w; next := next w |}.
Definition with_responses (w : world) (r : gmap nat RiskDecision) : world :=
  {| turns := turns w; executions := executions w; closed := closed w; responses := r;
     tokens := tokens w; next := next w |}.
Definition with_tokens (w : world) (t : gset nat) : world :=
  {| turns := turns w; executions := executions w; closed := closed w; responses := responses w;
     tokens := t; next := next w |}.
(** [n] fresh identities. *)
Definition alloc (w : world) (n : nat) : world :=
  {| turns := turns w; executions := executions w; closed := closed w; responses := responses w;
     tokens := tokens w; next := next w + n |}.

Definition with_phase (t : state) (p : Phase) : state :=
  {| self := self t; execution := execution t; compactReady := compactReady t; reserved := reserved t;
     attempt := attempt t; phase := p; originalInput := originalInput t; pending := pending t;
     riskConfirm := riskConfirm t; riskResponse := riskResponse t; waitRefresh := waitRefresh t;
     riskDone := riskDone t; tools := tools t; attemptDone := attemptDone t |}.
Definition with_pending (t : state) (p : list Input) : state :=
  {| self := self t; execution := execution t; compactReady := compactReady t; reserved := reserved t;
     attempt := attempt t; phase := phase t; originalInput := originalInput t; pending := p;
     riskConfirm := riskConfirm t; riskResponse := riskResponse t; waitRefresh := waitRefresh t;
     riskDone := riskDone t; tools := tools t; attemptDone := attemptDone t |}.
Definition with_tools (t : state) (m : gmap gostring Z) : state :=
  {| self := self t; execution := execution t; compactReady := compactReady t; reserved := reserved t;
     attempt := attempt t; phase := phase t; originalInput := originalInput t; pending := pending t;
     riskConfirm := riskConfirm t; riskResponse := riskResponse t; waitRefresh := waitRefresh t;
     riskDone := riskDone t; tools := m; attemptDone := attemptDone t |}.
Definition with_risk (t : state) (confirm : option RiskConfirmation) (response refresh rdone : option nat) : state :=
  {| self := self t; execution := execution t; compactReady := compactReady t; reserved := reserved t;
     attempt := attempt t; phase := phase t; originalInput := originalInput t; pending := pending t;
     riskConfirm := confirm; riskResponse := response; waitRefresh := refresh;
     riskDone := rdone; tools := tools t; attemptDone := attemptDone t |}.
Definition with_attemptDone (t : state) (c : option nat) : state :=
  {| self := self t; execution := execution t; compactReady := compactReady t; reserved := reserved t;
     attempt := attempt t; phase := phase t; originalInput := originalInput t; pending := pending t;
     riskConfirm := riskConfirm t; riskResponse := riskResponse t; waitRefresh := waitRefresh t;
     riskDone := riskDone t; tools := tools t; attemptDone := c |}.

(** A turn in the given phase; every other field is Go's zero value. *)
Definition new_turn (id : nat) (p : Phase) (e : option nat) (att : gostring) (input : Input)
    (adone : option nat) (res compact : bool) : state :=
  {| self := id; execution := e; compactReady := compact; reserved := res; attempt := att; phase := p;
     originalInput := input; pending := []; riskConfirm := None; riskResponse := None; waitRefresh := None;
     riskDone := None; tools := ∅; attemptDone := adone |}.

(** ** Closing, finishing, stopping *)
Definition close (w : world) (c : nat) : res world :=
  if bool_decide (c ∈ closed w) then Panic else Ok (with_closed w ({[c]} ∪ closed w)).

(** [Execution.Finish]. *)
Definition Finish (w : world) (e : nat) (err : option go_error) : res world :=
  match executions w !! e with
  | None => Panic
  | Some x =>
    if finished x then Ok w
    else
      close (with_executions w (<[e :=
        {| RunID := RunID x; SessionID := SessionID x; MessageID := MessageID x; ResultText := ResultText x;
           TakenOver := TakenOver x; Outcome := outcome_of err; ResultErr := err;
           done_ := done_ x; finished := true |}]> (executions w))) (done_ x)
  end.

(** [matches(m.turns[sessionID], attempt)], with the turn. *)
Definition matching (w : world) (sessionID expected : gostring) : option state :=
  match turns w !! sessionID with
  | Some turn => if bool_decide (attempt turn = expected) then Some turn else None
  | None => None
  end.

Definition finishAttempt (w : world) (turn : state) : res (world * state) :=
  match attemptDone turn with
  | Some c => let* w := close w c in Ok (w, with_attemptDone turn None)
  | None => Ok (w, turn)
  end.
Definition stopTurn (w : world) (turn : state) : res (world * state) :=
  match riskDone turn with
  | Some c =>
    let* w := close w c in
    Ok (w, with_risk turn (riskConfirm turn) (riskResponse turn) (waitRefresh turn) None)
  | None => Ok (w, turn)
  end.
Definition removeTurn (w : world) (sessionID : gostring) (turn : state) (preserve : bool) : res world :=
  let* w := match execution turn with
            | Some e => if preserve then Ok w else Finish w e (Some Canceled)
            | None => Ok w
            end in
  let* (w, turn) := finishAttempt w turn in
  let* (w, turn) := stopTurn w turn in
  Ok (with_turns w (delete sessionID (turns w))).
Definition beginStopTurn (w : world) (sessionID : gostring) (turn : state) : res world :=
  match attemptDone turn with
  | None => removeTurn w sessionID turn false
  | Some _ =>
    let* (w, turn) := stopTurn w turn in
    Ok (put w sessionID (with_pending (with_phase turn PhaseStopping) []))
  end.

(** A non-blocking send to the one-slot refresh channel; a nil channel blocks. *)
Definition refreshWait (w : world) (turn : state) : world :=
  match waitRefresh turn with
  | Some c => with_tokens w ({[c]} ∪ tokens w)
  | None => w
  end.

(** ** Attempts ([attempt.go]) *)
Definition StartCompactRun (w : world) (sessionID runID : gostring) (e : option nat) : res (world * bool) :=
  let start :=
    let w' := alloc w 2 in
    Ok (put w' sessionID (new_turn (next w) PhaseCompact e runID no_input (Some (S (next w))) false false), true) in
  match turns w !! sessionID with
  | Some old =>
    if negb (reserved old) || negb (compactReady old) || negb (bool_decide (phase old = PhaseLLM))
       || negb (bool_decide (execution old = e))
    then Ok (w, false) else start
  | None => start
  end.

Definition CompleteCompactRun (w : world) (sessionID runID : gostring) : res (world * bool) :=
  match turns w !! sessionID with
  | None => Ok (w, false)
  | Some turn =>
    if (negb (bool_decide (phase turn = PhaseCompact)) && negb (bool_decide (phase turn = PhaseStopping)))
       || negb (bool_decide (attempt turn = runID))
    then Ok (w, false)
    else let* w := removeTurn w sessionID turn true in Ok (w, true)
  end.

Definition StartToolPhase (w : world) (sessionID att : gostring) : res (world * bool) :=
  match matching w sessionID att with
  | Some turn =>
    if bool_decide (phase turn = PhaseLLM) then Ok (put w sessionID (with_phase turn PhaseTool), true)
    else Ok (w, false)
  | None => Ok (w, false)
  end.

Definition CompleteTurn (w : world) (sessionID att : gostring) : res (world * (Input * bool)) :=
  match matching w sessionID att with
  | None => Ok (w, (no_input, false))
  | Some turn =>
    if bool_decide (phase turn = PhaseLLM) || bool_decide (phase turn = PhaseTool)
       || bool_decide (phase turn = PhaseAwaitRiskConfirm)
    then
      let merged := mergeInputs (pending turn) in
      match execution turn with
      | None => let* w := removeTurn w sessionID turn false in Ok (w, (merged, true))
      | Some e =>
        if has_content merged then
          let* (w, _) := finishAttempt w turn in
          Ok (put (alloc w 1) sessionID (new_turn (next w) PhaseLLM (Some e) [] merged None true true),
              (merged, true))
        else let* w := removeTurn w sessionID turn true in Ok (w, (merged, true))
      end
    else Ok (w, (no_input, false))
  end.

Definition FinishAttempt (w : world) (sessionID att : gostring) : res (world * unit) :=
  match matching w sessionID att with
  | None => Ok (w, tt)
  | Some turn =>
    if bool_decide (phase turn = PhaseAwaitAppendConfirm) then
      let* (w, turn) := finishAttempt w turn in Ok (put w sessionID turn, tt)
    else let* w := removeTurn w sessionID turn false in Ok (w, tt)
  end.

Definition StopAttempt (w : world) (sessionID att : gostring) : res (world * unit) :=
  match matching w sessionID att with
  | None => Ok (w, tt)
  | Some turn => let* w := beginStopTurn w sessionID turn in Ok (w, tt)
  end.

Definition StopSession (w : world) (sessionID : gostring) : res (world * unit) :=
  match turns w !! sessionID with
  | None => Ok (w, tt)
  | Some turn => let* w := beginStopTurn w sessionID turn in Ok (w, tt)
  end.

(** [StopAll] visits the sessions in the order of Go's map iteration, which
    is any order of the keys: it is the argument [order]. *)
Fixpoint StopAll (w : world) (order : list gostring) : res (world * unit) :=
  match order with
  | [] => Ok (w, tt)
  | sessionID :: order => let* (w, _) := StopSession w sessionID in StopAll w order
  end.

Definition ResumeAppend (w : world) (sessionID : gostring) : res (world * option (Input * option nat)) :=
  match turns w !! sessionID with
  | None => Ok (w, None)
  | Some s =>
    if bool_decide (phase s = PhaseAwaitAppendConfirm) then
      let input := mergeInputs (originalInput s :: pending s) in
      Ok (put w sessionID
            {| self := self s; execution := execution s; compactReady := compactReady s; reserved := true;
               attempt := []; phase := PhaseLLM; originalInput := input; pending := [];
               riskConfirm := riskConfirm s; riskResponse := riskResponse s; waitRefresh := waitRefresh s;
               riskDone := riskDone s; tools := tools s; attemptDone := attemptDone s |},
          Some (input, execution s))
    else Ok (w, None)
  end.

Definition StartAttempt (w : world) (sessionID : gostring) (input : Input) (e : option nat) (att : gostring)
  : res (world * bool) :=
  let start :=
    let w' := alloc w 2 in
    Ok (put w' sessionID (new_turn (next w) PhaseLLM e att (normalizeInput input) (Some (S (next w))) false false),
        true) in
  match turns w !! sessionID with
  | Some old =>
    if negb (reserved old && bool_decide (execution old = e) && bool_decide (phase old = PhaseLLM))
    then Ok (w, false) else start
  | None => start
  end.

Definition ReserveExecution (w : world) (sessionID : gostring) (input : Input) (e : option nat) : res (world * bool) :=
  match turns w !! sessionID with
  | Some _ => Ok (w, false)
  | None =>
    Ok (put (alloc w 1) sessionID (new_turn (next w) PhaseLLM e [] (normalizeInput input) None true false), true)
  end.

Definition CanCompact (w : world) (sessionID : gostring) (e : option nat) : bool :=
  match turns w !! sessionID with
  | None => true
  | Some s => reserved s && compactReady s && bool_decide (phase s = PhaseLLM) && bool_decide (execution s = e)
  end.

(** ** Tools and snapshots ([manager.go]) *)
Definition AddToolUse (w : world) (sessionID name att : gostring) : res (world * unit) :=
  match matching w sessionID att with
  | None => Ok (w, tt)
  | Some turn =>
    Ok (put w sessionID (with_tools turn (<[name := default 0 (tools turn !! name) + 1]> (tools turn))), tt)
  end.

Record Snapshot_ := {
  sn_SessionID : gostring;
  sn_Phase : Phase;
  sn_PendingCount : Z;
  sn_Tools : gmap gostring Z;
  sn_AttemptDone : option nat;
  sn_Execution : option nat;
  sn_Attempt : gostring
}.
Definition Snapshot (w : world) (sessionID : gostring) : Snapshot_ :=
  match turns w !! sessionID with
  | None => {| sn_SessionID := sessionID; sn_Phase := PhaseIdle; sn_PendingCount := 0; sn_Tools := ∅;
               sn_AttemptDone := None; sn_Execution := None; sn_Attempt := [] |}
  | Some turn =>
    {| sn_SessionID := sessionID; sn_Phase := phase turn; sn_PendingCount := Z.of_nat (length (pending turn));
       sn_Tools := tools turn; sn_AttemptDone := attemptDone turn; sn_Execution := execution turn;
       sn_Attempt := attempt turn |}
  end.

(** ** Pending input ([pending.go]) *)
Definition appendPending (turn : state) (input : Input) : state * bool :=
  let input := normalizeInput input in
  if has_content input then (with_pending turn (pending turn ++ [input]), true) else (turn, false).

Definition AppendPendingInput (w : world) (sessionID : gostring) (input : Input) : res (world * bool) :=
  match turns w !! sessionID with
  | None => Ok (w, false)
  | Some turn =>
    if bool_decide (phase turn = PhaseAwaitAppendConfirm) || bool_decide (phase turn = PhaseTool) then
      let (turn, appended) := appendPending turn input in
      let w := put w sessionID turn in
      Ok (if appended && bool_decide (phase turn = PhaseAwaitAppendConfirm) then refreshWait w turn else w, true)
    else Ok (w, false)
  end.

Definition DrainMergedInput (w : world) (sessionID att : gostring) : res (world * Input) :=
  match matching w sessionID att with
  | None => Ok (w, no_input)
  | Some turn =>
    if bool_decide (pending turn = []) then Ok (w, no_input)
    else Ok (put w sessionID (with_pending turn []), mergeInputs (pending turn))
  end.

Definition BeginAppend (w : world) (sessionID att : gostring) (input : Input) : res (world * bool) :=
  match matching w sessionID att with
  | None => Ok (w, false)
  | Some turn =>
    if bool_decide (phase turn = PhaseLLM) then
      Ok (put w sessionID (fst (appendPending (with_phase turn PhaseAwaitAppendConfirm) input)), true)
    else Ok (w, false)
  end.

(** ** Risk confirmation ([confirmation.go]) *)

(** What the callbacks of one wait capture. *)
Record RiskWait := {
  w_session : gostring;
  w_turn : nat;
  w_Response : nat;
  w_Refresh : nat;
  w_Done : nat
}.

Definition BeginRiskConfirmation (w : world) (sessionID : gostring) (confirmation : RiskConfirmation) (att : gostring)
  : res (world * option RiskWait) :=
  match matching w sessionID att with
  | None => Ok (w, None)
  | Some turn =>
    if bool_decide (phase turn = PhaseTool) then
      let c := next w in
      let turn := with_risk (with_phase turn PhaseAwaitRiskConfirm) (Some confirmation)
                            (Some c) (Some (S c)) (Some (S (S c))) in
      Ok (put (alloc w 3) sessionID turn,
          Some {| w_session := sessionID; w_turn := self turn; w_Response := c; w_Refresh := S c;
                  w_Done := S (S c) |})
    else Ok (w, None)
  end.

(** The turn of a callback, when the wait is still the turn's current one. *)
Definition waiting_turn (w : world) (wait : RiskWait) : option state :=
  match turns w !! w_session wait with
  | Some turn =>
    if bool_decide (self turn = w_turn wait) && bool_decide (riskResponse turn = Some (w_Response wait))
    then Some turn else None
  | None => None
  end.

Definition Expire (w : world) (wait : RiskWait) : res (world * bool) :=
  match waiting_turn w wait with
  | None => Ok (w, false)
  | Some turn =>
    if negb (bool_decide (phase turn = PhaseAwaitRiskConfirm)) then Ok (w, false)
    else
      match waitRefresh turn with
      | Some c =>
        if bool_decide (c ∈ tokens w) then Ok (with_tokens w (tokens w ∖ {[c]}), false)
        else let* w := beginStopTurn w (w_session wait) turn in Ok (w, true)
      | None => let* w := beginStopTurn w (w_session wait) turn in Ok (w, true)
      end
  end.

Definition Cancel (w : world) (wait : RiskWait) : res (world * bool) :=
  match waiting_turn w wait with
  | None => Ok (w, false)
  | Some turn =>
    if negb (bool_decide (phase turn = PhaseAwaitRiskConfirm)) then Ok (w, false)
    else let* w := beginStopTurn w (w_session wait) turn in Ok (w, true)
  end.

Definition Complete (w : world) (wait : RiskWait) (decision : RiskDecision) (err : option go_error)
  : res (world * RiskResult) :=
  match waiting_turn w wait with
  | None => Ok (w, result RiskStale None)
  | Some turn =>
    if bool_decide (phase turn = PhaseStopping) || bool_decide (is_Some err) then
      let* w := beginStopTurn w (w_session wait) turn in Ok (w, result RiskCanceled err)
    else if negb (bool_decide (phase turn = PhaseAwaitRiskConfirm)) then Ok (w, result RiskStale None)
    else
      match riskDone turn with
      | None => Panic
      | Some c =>
        let* w := close w c in
        Ok (put w (w_session wait) (with_phase (with_risk turn None None None None) PhaseTool),
            {| Decision_ := decision; Outcome_ := RiskAnswered; Err_ := None |})
      end
  end.

Definition valid_action (a : RiskAction) : bool :=
  match a with RiskOtherAction _ => false | _ => true end.
Definition ResolveRiskConfirmation (w : world) (sessionID : gostring) (decision : RiskDecision) : res (world * bool) :=
  if negb (valid_action (Action decision)) then Ok (w, false)
  else
    match turns w !! sessionID with
    | None => Ok (w, false)
    | Some turn =>
      if negb (bool_decide (phase turn = PhaseAwaitRiskConfirm)) then Ok (w, false)
      else
        match riskResponse turn with
        | None => Ok (w, false)
        | Some c =>
          match responses w !! c with
          | Some _ => Ok (w, false)
          | None => Ok (with_responses w (<[c := decision]> (responses w)), true)
          end
        end
    end.

Definition RefreshRiskConfirmation (w : world) (sessionID : gostring) : res (world * bool) :=
  match turns w !! sessionID with
  | None => Ok (w, false)
  | Some turn =>
    if negb (bool_decide (phase turn = PhaseAwaitRiskConfirm)) then Ok (w, false)
    else Ok (refreshWait w turn, true)
  end.

Definition PendingRiskConfirmation (w : world) (sessionID : gostring) : res (option RiskConfirmation) :=
  match turns w !! sessionID with
  | None => Ok None
  | Some turn =>
    if negb (bool_decide (phase turn = PhaseAwaitRiskConfirm)) then Ok None
    else match riskConfirm turn with Some c => Ok (Some c) | None => Panic end
  end.

(** ** Waiting for the decision ([confirmation/risk.go])

    One case of the [select], chosen by the runtime among the ready ones;
    [ctx] is the request's error, once it is cancelled. *)
Inductive wait_case := CaseResponse | CaseDone | CaseRefresh | CaseContext | CaseTimer.

Definition ready (w : world) (wait : RiskWait) (ctx : option go_error) (timed : bool) (c : wait_case) : bool :=
  match c with
  | CaseResponse => bool_decide (is_Some (responses w !! w_Response wait))
  | CaseDone => bool_decide (w_Done wait ∈ closed w)
  | CaseRefresh => bool_decide (w_Refresh wait ∈ tokens w)
  | CaseContext => bool_decide (is_Some ctx)
  | CaseTimer => timed
  end.

(** The body of the loop; [None] goes round again. *)
Definition wait_body (w : world) (wait : RiskWait) (ctx : option go_error) (c : wait_case)
  : res (world * option RiskResult) :=
  match c with
  | CaseResponse =>
    match responses w !! w_Response wait with
    | Some decision =>
      let* (w, r) := Complete (with_responses w (delete (w_Response wait) (responses w))) wait decision ctx in
      Ok (w, Some r)
    | None => Ok (w, None)
    end
  | CaseDone => let* (w, r) := Complete w wait no_decision ctx in Ok (w, Some r)
  | CaseRefresh => Ok (with_tokens w (tokens w ∖ {[w_Refresh wait]}), None)
  | CaseContext => Ok (w, Some (result RiskCanceled ctx))
  | CaseTimer =>
    let* (w, removed) := Expire w wait in
    if bool_decide (is_Some ctx) then Ok (w, Some (result RiskCanceled ctx))
    else if removed then Ok (w, Some (result RiskExpired None))
    else Ok (w, None)
  end.

(** One round, followed by the deferred [Cancel] when the loop returns. *)
Definition wait_round (w : world) (wait : RiskWait) (ctx : option go_error) (c : wait_case)
  : res (world * option RiskResult) :=
  let* (w, r) := wait_body w wait ctx c in
  match r with
  | None => Ok (w, None)
  | Some r => let* (w, _) := Cancel w wait in Ok (w, Some r)
  end.
