(* ===== verification/TurnProps.v ===== *)
(** * Properties of the turn lifecycle

    The lifecycle as a transition system: every operation of the manager, the
    callbacks of a confirmation and the calls on an execution are the labels
    of [op]. The invariant gives the owner of every channel, so that no
    channel is closed twice and no attempt's completion channel is lost. *)
From S2P Require Import Prelude GoStr Segment Turn.
Open Scope nat_scope.

(** ** The transition system *)
Inductive op :=
| OpNewExecution (id : gostring)
| OpFinish (e : nat) (err : option go_error)
| OpSetResult (e : nat) (sessionID messageID text : gostring)
| OpAdopt (e : nat)
| OpStartCompactRun (s runID : gostring) (e : option nat)
| OpCompleteCompactRun (s runID : gostring)
| OpStartToolPhase (s att : gostring)
| OpCompleteTurn (s att : gostring)
| OpFinishAttempt (s att : gostring)
| OpStopAttempt (s att : gostring)
| OpStopSession (s : gostring)
| OpStopAll (order : list gostring)
| OpResumeAppend (s : gostring)
| OpStartAttempt (s : gostring) (input : Input) (e : option nat) (att : gostring)
| OpReserveExecution (s : gostring) (input : Input) (e : option nat)
| OpAddToolUse (s name att : gostring)
| OpAppendPendingInput (s : gostring) (input : Input)
| OpDrainMergedInput (s att : gostring)
| OpBeginAppend (s att : gostring) (input : Input)
| OpBeginRiskConfirmation (s : gostring) (c : RiskConfirmation) (att : gostring)
| OpResolveRiskConfirmation (s : gostring) (d : RiskDecision)
| OpRefreshRiskConfirmation (s : gostring)
| OpWaitRound (wait : RiskWait) (ctx : option go_error) (c : wait_case)
| OpCancel (wait : RiskWait).

Definition drop_result {A} (m : res (world * A)) : res world := let* (w, _) := m in Ok w.

Definition update_execution (w : world) (e : nat) (f : Execution → Execution) : res world :=
  match executions w !! e with
  | Some x => Ok (with_executions w (<[e := f x]> (executions w)))
  | None => Panic
  end.

Definition step (w : world) (o : op) : res world :=
  match o with
  | OpNewExecution id =>
    Ok (with_executions (alloc w 2) (<[next w := NewExecution id (S (next w))]> (executions w)))
  | OpFinish e err => Finish w e err
  | OpSetResult e s m t => update_execution w e (λ x, SetResult x s m t)
  | OpAdopt e => update_execution w e Adopt
  | OpStartCompactRun s r e => drop_result (StartCompactRun w s r e)
  | OpCompleteCompactRun s r => drop_result (CompleteCompactRun w s r)
  | OpStartToolPhase s a => drop_result (StartToolPhase w s a)
  | OpCompleteTurn s a => drop_result (CompleteTurn w s a)
  | OpFinishAttempt s a => drop_result (FinishAttempt w s a)
  | OpStopAttempt s a => drop_result (StopAttempt w s a)
  | OpStopSession s => drop_result (StopSession w s)
  | OpStopAll order => drop_result (StopAll w order)
  | OpResumeAppend s => drop_result (ResumeAppend w s)
  | OpStartAttempt s i e a => drop_result (StartAttempt w s i e a)
  | OpReserveExecution s i e => drop_result (ReserveExecution w s i e)
  | OpAddToolUse s n a => drop_result (AddToolUse w s n a)
  | OpAppendPendingInput s i => drop_result (AppendPendingInput w s i)
  | OpDrainMergedInput s a => drop_result (DrainMergedInput w s a)
  | OpBeginAppend s a i => drop_result (BeginAppend w s a i)
  | OpBeginRiskConfirmation s c a => drop_result (BeginRiskConfirmation w s c a)
  | OpResolveRiskConfirmation s d => drop_result (ResolveRiskConfirmation w s d)
  | OpRefreshRiskConfirmation s => drop_result (RefreshRiskConfirmation w s)
  | OpWaitRound wait ctx c => drop_result (wait_round w wait ctx c)
  | OpCancel wait => drop_result (Cancel w wait)
  end.

(** What the callers guarantee: executions exist, attempt identifiers are not
    empty (the identifier sequence gives "a..." names), and an append is
    resumed once the old attempt has finished
    ([ExecutionCoordinator.ResumeAppend] waits for [AttemptDone]). *)
Definition known (w : world) (e : option nat) : Prop := ∀ x, e = Some x → is_Some (executions w !! x).
Definition legal (w : world) (o : op) : Prop :=
  match o with
  | OpFinish e _ | OpSetResult e _ _ _ | OpAdopt e => is_Some (executions w !! e)
  | OpStartCompactRun _ a e | OpStartAttempt _ _ e a => known w e ∧ a ≠ []
  | OpReserveExecution _ _ e => known w e
  | OpCompleteCompactRun _ a | OpStartToolPhase _ a | OpCompleteTurn _ a | OpFinishAttempt _ a
  | OpStopAttempt _ a | OpAddToolUse _ _ a | OpDrainMergedInput _ a | OpBeginAppend _ a _
  | OpBeginRiskConfirmation _ _ a => a ≠ []
  | OpResumeAppend s => ∀ t, turns w !! s = Some t → phase t = PhaseAwaitAppendConfirm → attemptDone t = None
  | _ => True
  end.

Fixpoint run (w : world) (os : list op) : res world :=
  match os with
  | [] => Ok w
  | o :: os => let* w := step w o in run w os
  end.
Fixpoint legal_run (w : world) (os : list op) : Prop :=
  match os with
  | [] => True
  | o :: os => legal w o ∧ ∀ w', step w o = Ok w' → legal_run w' os
  end.

(** ** The invariant *)
Inductive owner := OAttempt (s : gostring) | ORisk (s : gostring) | OExec (e : nat) | ONone.

(** The shape of a turn in each phase. *)
Record shape (t : state) : Prop := {
  sh_risk : is_Some (riskDone t) ↔ phase t = PhaseAwaitRiskConfirm;
  sh_confirm : phase t = PhaseAwaitRiskConfirm →
    is_Some (riskConfirm t) ∧ is_Some (riskResponse t) ∧ is_Some (waitRefresh t);
  sh_pending : phase t = PhaseLLM ∨ phase t = PhaseCompact ∨ phase t = PhaseStopping → pending t = [];
  sh_reserved : reserved t = true → phase t = PhaseLLM ∧ attempt t = [] ∧ attemptDone t = None;
  sh_attempt : reserved t = false → attempt t ≠ [];
  sh_active : reserved t = false → phase t ≠ PhaseAwaitAppendConfirm → is_Some (attemptDone t);
  sh_idle : phase t ≠ PhaseIdle;
  sh_wait : ∀ c d, riskResponse t = Some c → riskDone t = Some d → d = S (S c)
}.

Definition open_chan (own : nat → owner) (w : world) (c : nat) (o : owner) : Prop :=
  c < next w ∧ (c ∉ closed w) ∧ own c = o.

Record turn_ok (own : nat → owner) (w : world) (s : gostring) (t : state) : Prop := {
  to_attempt : ∀ c, attemptDone t = Some c → open_chan own w c (OAttempt s);
  to_riskdone : ∀ c, riskDone t = Some c → open_chan own w c (ORisk s);
  to_exec : known w (execution t);
  to_shape : shape t;
  to_lost : ∀ c, c < next w → own c = OAttempt s → c ∈ closed w ∨ attemptDone t = Some c
}.

Record exec_ok (own : nat → owner) (w : world) (e : nat) (x : Execution) : Prop := {
  eo_next : done_ x < next w;
  eo_own : own (done_ x) = OExec e;
  eo_done : finished x = true ↔ done_ x ∈ closed w;
  eo_outcome : finished x = true → Outcome x = outcome_of (ResultErr x)
}.

Definition nothing_lost (own : nat → owner) (w : world) (s : gostring) : Prop :=
  ∀ c, c < next w → own c = OAttempt s → c ∈ closed w.

(** The invariant, except for session [x]. *)
Record inv_except (own : nat → owner) (w : world) (x : gostring → Prop) : Prop := {
  iv_turns : ∀ s t, ¬ x s → turns w !! s = Some t → turn_ok own w s t;
  iv_gone : ∀ s, ¬ x s → turns w !! s = None → nothing_lost own w s;
  iv_execs : ∀ e y, executions w !! e = Some y → exec_ok own w e y;
  iv_closed : ∀ c, c ∈ closed w → c < next w
}.
Definition inv (own : nat → owner) (w : world) : Prop := inv_except own w (λ _, False).

(** ** Primitive steps *)
Ltac same := solve [done | intros; reflexivity | intros; tauto].

Section Primitives.
Context (own : nat → owner).

Lemma inv_weaken w x y : (∀ s, x s → y s) → inv_except own w x → inv_except own w y.
Proof. intros Hxy [H1 H2 H3 H4]. split; auto. Qed.

Lemma inv_turn w x s t : inv_except own w x → ¬ x s → turns w !! s = Some t → turn_ok own w s t.
Proof. intros H. apply H. Qed.

(** [w'] differs from [w] in executions and their channels only. *)
Record only_executions (w w' : world) : Prop := {
  oe_turns : turns w' = turns w;
  oe_next : next w' = next w;
  oe_closed : ∀ c s, own c = OAttempt s ∨ own c = ORisk s → c ∈ closed w' ↔ c ∈ closed w;
  oe_known : ∀ e, is_Some (executions w !! e) → is_Some (executions w' !! e)
}.

Lemma frame_turn w w' s t :
  turn_ok own w s t → next w' = next w →
  (∀ c, own c = OAttempt s ∨ own c = ORisk s → c ∈ closed w' ↔ c ∈ closed w) →
  (∀ e, is_Some (executions w !! e) → is_Some (executions w' !! e)) →
  turn_ok own w' s t.
Proof.
  intros [Ha Hr He Hs Hl] Hn Hc Hk. split; [| | |done|].
  - intros c Hca. destruct (Ha c Hca) as (? & ? & ?). unfold open_chan. rewrite Hn, Hc by auto. done.
  - intros c Hcr. destruct (Hr c Hcr) as (? & ? & ?). unfold open_chan. rewrite Hn, Hc by auto. done.
  - intros e Hx. by apply Hk, He.
  - intros c Hlt Ho. rewrite Hn in Hlt. rewrite Hc by auto. auto.
Qed.

Lemma frame_lost w w' s :
  nothing_lost own w s → next w' = next w →
  (∀ c, own c = OAttempt s ∨ own c = ORisk s → c ∈ closed w' ↔ c ∈ closed w) →
  nothing_lost own w' s.
Proof. intros Hl Hn Hc c Hlt Ho. rewrite Hn in Hlt. rewrite Hc by auto. auto. Qed.

Lemma frame_exec w w' e y : exec_ok own w e y → next w' = next w →
  (done_ y ∈ closed w' ↔ done_ y ∈ closed w) → exec_ok own w' e y.
Proof. intros [H1 H2 H3 H4] Hn Hc. split; rewrite ?Hn, ?Hc; done. Qed.

Lemma inv_put w s t : inv_except own w (eq s) → turn_ok own w s t → inv own (put w s t).
Proof.
  intros [H1 H2 H3 H4] Ht. split; cbn; [| | |done].
  - intros s' t' _ [[<- <-]|[Hne Hl]]%lookup_insert_Some; (apply (frame_turn w); [|same|same|same]); [done|].
    by apply H1.
  - intros s' _ [Hl Hne]%lookup_insert_None. by apply H2.
  - intros e y He. apply (frame_exec w); [by apply H3|same|same].
Qed.

Lemma inv_delete w s : inv_except own w (eq s) → nothing_lost own w s →
  inv own (with_turns w (delete s (turns w))).
Proof.
  intros [H1 H2 H3 H4] Hl. split; cbn; [| | |done].
  - intros s' t' _ [Hne Ht]%lookup_delete_Some. apply (frame_turn w); [by apply H1|same|same|same].
  - intros s' _ [<-|Hn]%lookup_delete_None; [exact Hl|].
    destruct (decide (s = s')) as [<-|Hne]; [exact Hl|]. by apply H2.
  - intros e y He. apply (frame_exec w); [by apply H3|same|same].
Qed.

Lemma inv_open w s t : inv own w → turns w !! s = Some t → inv_except own w (eq s) ∧ turn_ok own w s t.
Proof. intros H Ht. split; [by eapply inv_weaken; [|exact H]|]. by apply (iv_turns _ _ _ H); [intros []|]. Qed.

Lemma inv_absent w s : inv own w → turns w !! s = None → inv_except own w (eq s) ∧ nothing_lost own w s.
Proof. intros H Ht. split; [by eapply inv_weaken; [|exact H]|]. by apply (iv_gone _ _ _ H); [intros []|]. Qed.

(** Closing an open channel of the turn of [s]. *)
Lemma close_ok w s c o : inv_except own w (eq s) → open_chan own w c o → o = OAttempt s ∨ o = ORisk s →
  close w c = Ok (with_closed w ({[c]} ∪ closed w)) ∧ inv_except own (with_closed w ({[c]} ∪ closed w)) (eq s).
Proof.
  intros [H1 H2 H3 H4] (Hn & Hc & Ho) Hs. unfold close. rewrite bool_decide_eq_false_2 by done. split; [done|].
  assert (∀ s' c', s ≠ s' → own c' = OAttempt s' ∨ own c' = ORisk s' →
    c' ∈ {[c]} ∪ closed w ↔ c' ∈ closed w) as Hother.
  { intros s' c' Hne Ho'. rewrite elem_of_union, elem_of_singleton. split; [|by right].
    intros [->|?]; [|done]. exfalso. destruct Hs as [->| ->], Ho'; congruence. }
  split; cbn.
  - intros s' t' Hne Ht. apply (frame_turn w); [by apply H1|done| |done]. intros c' Hc'. by apply (Hother s').
  - intros s' Hne Ht. apply (frame_lost w); [by apply H2|done|]. intros c' Hc'. by apply (Hother s').
  - intros e y He. apply (frame_exec w); [by apply H3|done|]. cbn. rewrite elem_of_union, elem_of_singleton.
    split; [|by right]. intros [Heq|?]; [|done]. exfalso. pose proof (eo_own _ _ _ _ (H3 e y He)) as Hd.
    rewrite Heq, Ho in Hd. by destruct Hs as [-> | ->].
  - intros c' [->%elem_of_singleton|Hc']%elem_of_union; [done|]. by apply H4.
Qed.

Lemma Finish_ok w e err x : inv_except own w x → is_Some (executions w !! e) →
  ∃ w', Finish w e err = Ok w' ∧ inv_except own w' x ∧ only_executions w w'.
Proof.
  intros [H1 H2 H3 H4] [y He]. unfold Finish. rewrite He. pose proof (H3 e y He) as [Hdn Hdo Hdf Hdout].
  destruct (finished y) eqn:Hf.
  { exists w. split; [done|]. split; [done|]. done. }
  assert (¬ (done_ y ∈ closed w)) as Hopen by (intros ?; by apply Hdf in H).
  unfold close. cbn [closed with_executions]. rewrite bool_decide_eq_false_2 by done.
  eexists; split; [done|].
  assert (∀ c s, own c = OAttempt s ∨ own c = ORisk s → c ∈ {[done_ y]} ∪ closed w ↔ c ∈ closed w) as Hc.
  { intros c s Ho. rewrite elem_of_union, elem_of_singleton. split; [|by right]. intros [->|?]; [|done].
    destruct Ho; congruence. }
  set (y' := {| RunID := _ |}).
  assert (∀ e', is_Some (executions w !! e') → is_Some (<[e:=y']> (executions w) !! e')) as Hk.
  { intros e' He'. destruct (decide (e = e')) as [<-|]; [by rewrite lookup_insert_eq | by rewrite lookup_insert_ne]. }
  split; [split; cbn|by split].
  - intros s t Hs Ht. apply (frame_turn w); [by apply H1|done| |done]. intros c; apply Hc.
  - intros s Hs Ht. apply (frame_lost w); [by apply H2|done|]. intros c; apply Hc.
  - intros e' z [[<- <-]|[Hne Hz]]%lookup_insert_Some.
    + subst y'. split; cbn; [done|done| |done]. split; [intros _; by apply elem_of_union_l, elem_of_singleton|done].
    + apply (frame_exec w); [by apply H3|done|]. cbn. rewrite elem_of_union, elem_of_singleton. split; [|by right].
      intros [Heq|?]; [|done]. pose proof (eo_own _ _ _ _ (H3 e' z Hz)). congruence.
  - intros c [->%elem_of_singleton|Hc']%elem_of_union; [done|]. by apply H4.
Qed.

Lemma finishAttempt_ok w s t : inv_except own w (eq s) → turn_ok own w s t →
  ∃ w', finishAttempt w t = Ok (w', with_attemptDone t None)
    ∧ inv_except own w' (eq s) ∧ turns w' = turns w ∧ next w' = next w ∧ executions w' = executions w
    ∧ (∀ c, riskDone t = Some c → open_chan own w' c (ORisk s)) ∧ nothing_lost own w' s.
Proof.
  intros Hi Ht. unfold finishAttempt. pose proof Ht as [Ha Hr _ _ Hl].
  destruct (attemptDone t) as [c|] eqn:Hd.
  - destruct (close_ok w s c (OAttempt s) Hi (Ha c eq_refl)) as [-> Hi']; [by left|].
    eexists; split; [done|]. split_and!; try done.
    + intros c' Hc'. destruct (Hr c' Hc') as (? & ? & Ho). split_and!; [done| |done]. cbn.
      intros [->%elem_of_singleton|?]%elem_of_union; [|done]. destruct (Ha c eq_refl) as (_ & _ & ?). congruence.
    + intros c' Hlt Ho. cbn in *. destruct (Hl c' Hlt Ho) as [?|[= ->]]; set_solver.
  - exists w. replace (with_attemptDone t None) with t by (clear -Hd; destruct t; cbn in Hd; by subst).
    split_and!; try done. intros c Hlt Ho. by destruct (Hl c Hlt Ho).
Qed.

Lemma stopTurn_ok w s t : inv_except own w (eq s) → (∀ c, riskDone t = Some c → open_chan own w c (ORisk s)) →
  ∃ w', stopTurn w t = Ok (w', with_risk t (riskConfirm t) (riskResponse t) (waitRefresh t) None)
    ∧ inv_except own w' (eq s) ∧ turns w' = turns w ∧ next w' = next w ∧ executions w' = executions w
    ∧ (∀ c, own c = OAttempt s → c ∈ closed w' ↔ c ∈ closed w).
Proof.
  intros Hi Hr. unfold stopTurn. destruct (riskDone t) as [c|] eqn:Hd.
  - destruct (close_ok w s c (ORisk s) Hi (Hr c eq_refl)) as [-> Hi']; [by right|].
    eexists; split; [done|]. split_and!; try done. intros c' Ho. cbn. rewrite elem_of_union, elem_of_singleton.
    split; [|by right]. intros [->|?]; [|done]. destruct (Hr c eq_refl) as (_ & _ & ?). congruence.
  - exists w. replace (with_risk t _ _ _ None) with t by (clear -Hd; destruct t; cbn in Hd; by subst). done.
Qed.

Lemma removeTurn_ok w s t preserve : inv_except own w (eq s) → turn_ok own w s t →
  ∃ w', removeTurn w s t preserve = Ok w' ∧ inv own w' ∧ turns w' = delete s (turns w) ∧ next w' = next w.
Proof.
  intros Hi Ht. unfold removeTurn.
  assert (∃ w1, match execution t with
                | Some e => if preserve then Ok w else Finish w e (Some Canceled)
                | None => Ok w
                end = Ok w1 ∧ inv_except own w1 (eq s) ∧ only_executions w w1) as (w1 & -> & Hi1 & Hq).
  { destruct (execution t) as [e|] eqn:He; [|by exists w]. destruct preserve; [by exists w|].
    apply Finish_ok; [done|]. by apply (to_exec _ _ _ _ Ht). }
  cbn [res_bind]. destruct Hq as [Hq1 Hq2 Hq3 Hq4].
  assert (turn_ok own w1 s t) as Ht1 by (apply (frame_turn w); eauto).
  destruct (finishAttempt_ok w1 s t Hi1 Ht1) as (w2 & -> & Hi2 & Ht2 & Hn2 & He2 & Hr2 & Hl2). cbn [res_bind].
  destruct (stopTurn_ok w2 s (with_attemptDone t None) Hi2 Hr2) as (w3 & -> & Hi3 & Ht3 & Hn3 & He3 & Hc3).
  cbn [res_bind]. eexists; split; [done|]. split.
  - apply inv_delete; [done|]. intros c Hlt Ho. rewrite Hn3 in Hlt. apply Hc3; auto.
  - cbn. split; congruence.
Qed.

Lemma beginStopTurn_ok w s t : inv_except own w (eq s) → turn_ok own w s t →
  ∃ w', beginStopTurn w s t = Ok w' ∧ inv own w' ∧ next w' = next w.
Proof.
  intros Hi Ht. unfold beginStopTurn. destruct (attemptDone t) as [c|] eqn:Hd.
  - pose proof Ht as [Ha Hr He Hs Hl].
    destruct (stopTurn_ok w s t Hi Hr) as (w' & -> & Hi' & Ht' & Hn' & He' & Hc'). cbn [res_bind].
    eexists; split; [done|]. split; [|done]. apply inv_put; [done|].
    assert (reserved t = false) as Hres by
      (destruct (reserved t) eqn:Hres; [|done]; destruct (sh_reserved _ Hs Hres) as (_ & _ & ?); congruence).
    split; cbn.
    + intros c' Hc. destruct (Ha c' Hc) as (? & ? & ?). unfold open_chan. rewrite Hn', Hc' by done. done.
    + done.
    + intros e Hx. rewrite He'. by apply He.
    + split; cbn; try done; try (intros; congruence).
      intros _. by apply (sh_attempt _ Hs).
    + intros c' Hlt Ho. rewrite Hn' in Hlt. rewrite Hc' by done. auto.
  - destruct (removeTurn_ok w s t false Hi Ht) as (w' & -> & Hi' & _ & ?). eauto.
Qed.
End Primitives.

(** ** Fresh identities *)
Lemma alloc_ok own own' w n (x : gostring → Prop) : inv_except own w x →
  (∀ c, c < next w → own' c = own c) → (∀ c s, next w ≤ c → own' c = OAttempt s → x s) →
  inv_except own' (alloc w n) x.
Proof.
  intros [H1 H2 H3 H4] Hold Hnew. split; cbn.
  - intros s t Hs Ht. destruct (H1 s t Hs Ht) as [Ha Hr He Hsh Hl]. split; [| |done|done|].
    + intros c Hc. destruct (Ha c Hc) as (? & ? & Ho). split_and!; cbn; [lia|done|]. by rewrite Hold.
    + intros c Hc. destruct (Hr c Hc) as (? & ? & Ho). split_and!; cbn; [lia|done|]. by rewrite Hold.
    + intros c _ Ho. cbn. destruct (decide (c < next w)) as [Hlt|Hge].
      * apply Hl; [done|]. by rewrite <- Hold.
      * exfalso. apply Hs. apply (Hnew c); [lia|done].
  - intros s Hs Ht c _ Ho. cbn. destruct (decide (c < next w)) as [Hlt|Hge].
    + apply (H2 s Hs Ht); [done|]. by rewrite <- Hold.
    + exfalso. apply Hs. apply (Hnew c); [lia|done].
  - intros e y He. destruct (H3 e y He) as [? ? ? ?]. split; cbn; [lia| |done|done]. by rewrite Hold.
  - intros c Hc. specialize (H4 c Hc). lia.
Qed.

(** Replacing the turn of [s] by a new one with its own completion channel. *)
Lemma start_ok own w s t : inv_except own w (eq s) → nothing_lost own w s →
  attemptDone t = Some (S (next w)) → riskDone t = None → known w (execution t) → shape t →
  ∃ own', inv own' (put (alloc w 2) s t) ∧ ∀ c, c < next w → own' c = own c.
Proof.
  intros Hi Hl Ha Hr He Hs.
  set (own' := λ c, if decide (c < next w) then own c
                    else if decide (c = S (next w)) then OAttempt s else ONone).
  assert (∀ c, c < next w → own' c = own c) as Hold by (intros c ?; unfold own'; by rewrite decide_True).
  exists own'. split; [|exact Hold]. apply inv_put.
  - apply (alloc_ok own); [done|done|]. intros c s' Hc. unfold own'.
    rewrite decide_False by lia. case_decide; [congruence|done].
  - split; cbn; [| |done|done|].
    + intros c Hc. rewrite Ha in Hc. injection Hc as <-. split_and!; cbn; [lia| |].
      * intros Hc%(iv_closed _ _ _ Hi). lia.
      * unfold own'. by rewrite decide_False, decide_True by lia.
    + intros c Hc. congruence.
    + intros c _ Ho. unfold own' in Ho. case_decide; [left; by apply Hl|].
      case_decide as Hc; [|done]. right. by rewrite Ha, Hc.
Qed.

(** The same without a channel: a reservation. *)
Lemma reserve_ok own w s t : inv_except own w (eq s) → nothing_lost own w s →
  attemptDone t = None → riskDone t = None → known w (execution t) → shape t →
  ∃ own', inv own' (put (alloc w 1) s t) ∧ ∀ c, c < next w → own' c = own c.
Proof.
  intros Hi Hl Ha Hr He Hs.
  set (own' := λ c, if decide (c < next w) then own c else ONone).
  assert (∀ c, c < next w → own' c = own c) as Hold by (intros c ?; unfold own'; by rewrite decide_True).
  exists own'. split; [|exact Hold]. apply inv_put.
  - apply (alloc_ok own); [done|done|]. intros c s' Hc. unfold own'. by rewrite decide_False by lia.
  - split; cbn; [congruence|congruence|done|done|].
    intros c _ Ho. unfold own' in Ho. case_decide; [left; by apply Hl|done].
Qed.

(** ** Preservation, operation by operation *)
Definition ext (own : nat → owner) (w : world) (own' : nat → owner) (w' : world) : Prop :=
  next w ≤ next w' ∧ ∀ c, c < next w → own' c = own c.
Definition keeps (own : nat → owner) (w : world) (m : res world) : Prop :=
  ∃ own' w', m = Ok w' ∧ inv own' w' ∧ ext own w own' w'.

Lemma ext_refl own w w' : next w ≤ next w' → ext own w own w'.
Proof. done. Qed.
Lemma ext_trans o1 w1 o2 w2 o3 w3 : ext o1 w1 o2 w2 → ext o2 w2 o3 w3 → ext o1 w1 o3 w3.
Proof. intros [H1 H2] [H3 H4]. split; [lia|]. intros c Hc. rewrite H4 by lia. auto. Qed.

Lemma keeps_same own w w' : inv own w' → next w ≤ next w' → keeps own w (Ok w').
Proof. intros H ?. by exists own, w'. Qed.

(** An operation that replaces the turn of [s] by [t'], which has the same channels. *)
Lemma keeps_put own w s t t' : inv own w → turns w !! s = Some t →
  attemptDone t' = attemptDone t → riskDone t' = riskDone t → execution t' = execution t → shape t' →
  keeps own w (Ok (put w s t')).
Proof.
  intros Hi Ht Ha Hr He Hs. destruct (inv_open _ _ _ _ Hi Ht) as [Hx [H1 H2 H3 H4 H5]].
  exists own. eexists; split; [done|]. split; [|by apply ext_refl]. apply inv_put; [done|].
  split; rewrite ?Ha, ?Hr, ?He; done.
Qed.

Lemma matching_some w s a t : matching w s a = Some t → turns w !! s = Some t ∧ attempt t = a.
Proof. unfold matching. destruct (turns w !! s); [|done]. case_bool_decide; [|done]. by intros [= ->]. Qed.

Lemma keeps_remove own w s t preserve : inv own w → turns w !! s = Some t →
  keeps own w (removeTurn w s t preserve).
Proof.
  intros Hi Ht. destruct (inv_open _ _ _ _ Hi Ht) as [Hx Hok].
  destruct (removeTurn_ok own w s t preserve Hx Hok) as (w' & -> & Hi' & _ & Hn'). exists own, w'. split; [done|]. split; [done|]. apply ext_refl. lia.
Qed.

Lemma keeps_stop own w s t : inv own w → turns w !! s = Some t → keeps own w (beginStopTurn w s t).
Proof.
  intros Hi Ht. destruct (inv_open _ _ _ _ Hi Ht) as [Hx Hok].
  destruct (beginStopTurn_ok own w s t Hx Hok) as (w' & -> & Hi' & Hn'). exists own, w'. split; [done|]. split; [done|]. apply ext_refl. lia.
Qed.

Lemma keeps_result {A} own w m (f : world → A) : keeps own w m → keeps own w (drop_result (let* w := m in Ok (w, f w))).
Proof. intros (own' & w' & -> & Hi). by exists own', w'. Qed.

Lemma free_session own w s e : inv own w →
  match turns w !! s with
  | Some old => reserved old = true ∧ execution old = e
  | None => True
  end → inv_except own w (eq s) ∧ nothing_lost own w s.
Proof.
  intros Hi. destruct (turns w !! s) as [t|] eqn:Ht; [|intros _; by apply inv_absent].
  intros [Hr _]. destruct (inv_open _ _ _ _ Hi Ht) as [Hx [_ _ _ Hs Hl]]. split; [done|].
  intros c Hlt Ho. destruct (Hl c Hlt Ho) as [|Ha]; [done|].
  destruct (sh_reserved _ Hs Hr) as (_ & _ & ?). congruence.
Qed.

(** Reduce the [let*] of an operation whose turn is known. *)
Ltac shape_cases Hs :=
  destruct Hs as [Hsrisk Hsconf Hspend Hsres Hsatt Hsact Hsidle Hswait];
  split; cbn in *; try done; try (intros; congruence); try tauto;
  try (by intros [|[|]]).

Lemma shape_new id p e att input c (compact : bool) :
  p = PhaseLLM ∨ p = PhaseCompact → att ≠ [] →
  shape (new_turn id p e att input (Some c) false compact).
Proof. by intros [-> | ->] Ha; split; cbn. Qed.

Lemma shape_reserved id e input compact : shape (new_turn id PhaseLLM e [] input None true compact).
Proof. by split; cbn. Qed.

Section Operations.
Context (own : nat → owner) (w : world) (Hinv : inv own w).

Lemma keeps_StartCompactRun s r e : known w e → r ≠ [] → keeps own w (drop_result (StartCompactRun w s r e)).
Proof.
  intros He Hr. unfold StartCompactRun.
  assert (match turns w !! s with Some old => reserved old = true ∧ execution old = e | None => True end →
    keeps own w (Ok (put (alloc w 2) s (new_turn (next w) PhaseCompact e r no_input (Some (S (next w))) false false)))) as Hstart.
  { intros Hfree. destruct (free_session own w s e Hinv Hfree) as [Hx Hl].
    destruct (start_ok own w s (new_turn (next w) PhaseCompact e r no_input (Some (S (next w))) false false))
      as (own' & Hi' & Hold); try done; [by apply shape_new; auto|].
    exists own'; eexists; split; [done|]. split; [done|]. split; [cbn; lia|intros; apply Hold; lia]. }
  destruct (turns w !! s) as [old|]; [|by apply Hstart].
  destruct (_ || _) eqn:Hb; [by apply (keeps_same own w)|]. apply Hstart.
  apply orb_false_iff in Hb as [Hb He'%negb_false_iff%bool_decide_eq_true].
  apply orb_false_iff in Hb as [Hb _]. apply orb_false_iff in Hb as [Hb%negb_false_iff _]. done.
Qed.

Lemma keeps_StartAttempt s input e a : known w e → a ≠ [] → keeps own w (drop_result (StartAttempt w s input e a)).
Proof.
  intros He Hr. unfold StartAttempt.
  assert (match turns w !! s with Some old => reserved old = true ∧ execution old = e | None => True end →
    keeps own w (Ok (put (alloc w 2) s (new_turn (next w) PhaseLLM e a (normalizeInput input) (Some (S (next w))) false false)))) as Hstart.
  { intros Hfree. destruct (free_session own w s e Hinv Hfree) as [Hx Hl].
    destruct (start_ok own w s (new_turn (next w) PhaseLLM e a (normalizeInput input) (Some (S (next w))) false false))
      as (own' & Hi' & Hold); try done; [by apply shape_new; auto|].
    exists own'; eexists; split; [done|]. split; [done|]. split; [cbn; lia|intros; apply Hold; lia]. }
  destruct (turns w !! s) as [old|]; [|by apply Hstart].
  destruct (negb _) eqn:Hb; [by apply (keeps_same own w)|]. apply Hstart.
  apply negb_false_iff, andb_true_iff in Hb as [Hb _]. apply andb_true_iff in Hb as [Hb He'%bool_decide_eq_true]. done.
Qed.

Lemma keeps_ReserveExecution s input e : known w e → keeps own w (drop_result (ReserveExecution w s input e)).
Proof.
  intros He. unfold ReserveExecution. destruct (turns w !! s) as [old|] eqn:Ht; [by apply (keeps_same own w)|].
  destruct (inv_absent _ _ _ Hinv Ht) as [Hx Hl].
  destruct (reserve_ok own w s (new_turn (next w) PhaseLLM e [] (normalizeInput input) None true false))
    as (own' & Hi' & Hold); try done; [apply shape_reserved|].
  exists own'; eexists; split; [done|]. split; [done|]. split; [cbn; lia|intros; apply Hold; lia].
Qed.

Lemma keeps_CompleteCompactRun s r : keeps own w (drop_result (CompleteCompactRun w s r)).
Proof.
  unfold CompleteCompactRun. destruct (turns w !! s) as [t|] eqn:Ht; [|by apply (keeps_same own w)].
  destruct (_ || _); [by apply (keeps_same own w)|].
  apply (keeps_result _ _ _ (λ _, true)). by eapply keeps_remove.
Qed.

Lemma keeps_StartToolPhase s a : a ≠ [] → keeps own w (drop_result (StartToolPhase w s a)).
Proof.
  intros Ha. unfold StartToolPhase. destruct (matching w s a) as [t|] eqn:Hm; [|by apply (keeps_same own w)].
  apply matching_some in Hm as [Ht Hatt]. case_bool_decide as Hp; [|by apply (keeps_same own w)].
  apply (keeps_put own w s t); try done. destruct (inv_open _ _ _ _ Hinv Ht) as [_ [_ _ _ Hs _]].
  assert (reserved t = false) as Hres by
    (destruct (reserved t) eqn:Hres; [|done]; destruct (sh_reserved _ Hs Hres) as (_ & ? & _); congruence).
  assert (is_Some (attemptDone t)) as Hact by (apply (sh_active _ Hs Hres); congruence).
  assert (¬ is_Some (riskDone t)) as Hrisk by (intros ?%(sh_risk _ Hs); congruence).
  shape_cases Hs.
Qed.

Lemma keeps_CompleteTurn s a : a ≠ [] → keeps own w (drop_result (CompleteTurn w s a)).
Proof.
  intros Ha. unfold CompleteTurn. destruct (matching w s a) as [t|] eqn:Hm; [|by apply (keeps_same own w)].
  apply matching_some in Hm as [Ht Hatt]. destruct (_ || _); [|by apply (keeps_same own w)].
  set (merged := mergeInputs (pending t)).
  destruct (execution t) as [e|] eqn:He.
  2: { apply (keeps_result _ _ _ (λ _, (merged, true))). by eapply keeps_remove. }
  destruct (has_content merged).
  2: { apply (keeps_result _ _ _ (λ _, (merged, true))). by eapply keeps_remove. }
  destruct (inv_open _ _ _ _ Hinv Ht) as [Hx Hok].
  destruct (finishAttempt_ok own w s t Hx Hok) as (w' & -> & Hi' & Ht' & Hn' & He' & _ & Hl'). cbn [res_bind drop_result].
  destruct (reserve_ok own w' s (new_turn (next w') PhaseLLM (Some e) [] merged None true true))
    as (own' & Hi'' & Hold); try done; [|apply shape_reserved|].
  - intros x [= <-]. rewrite He'. by apply (to_exec _ _ _ _ Hok).
  - exists own'; eexists; split; [done|]. split; [done|]. split; [cbn; lia|intros; apply Hold; lia].
Qed.

Lemma keeps_FinishAttempt s a : keeps own w (drop_result (FinishAttempt w s a)).
Proof.
  unfold FinishAttempt. destruct (matching w s a) as [t|] eqn:Hm; [|by apply (keeps_same own w)].
  apply matching_some in Hm as [Ht Hatt]. case_bool_decide as Hp.
  2: { apply (keeps_result _ _ _ (λ _, tt)). by eapply keeps_remove. }
  destruct (inv_open _ _ _ _ Hinv Ht) as [Hx Hok].
  destruct (finishAttempt_ok own w s t Hx Hok) as (w' & -> & Hi' & Ht' & Hn' & He' & Hr' & Hl'). cbn [res_bind drop_result].
  exists own. eexists; split; [done|]. split; [|by apply ext_refl; cbn; lia]. apply inv_put; [done|]. destruct Hok as [_ _ Hex Hs _].
  split; cbn; [done|done| | |].
  - intros x Hx'. rewrite He'. by apply Hex.
  - shape_cases Hs.
  - intros c Hlt Ho. left. by apply Hl'.
Qed.

Lemma keeps_StopAttempt s a : keeps own w (drop_result (StopAttempt w s a)).
Proof.
  unfold StopAttempt. destruct (matching w s a) as [t|] eqn:Hm; [|by apply (keeps_same own w)].
  apply matching_some in Hm as [Ht _]. apply (keeps_result _ _ _ (λ _, tt)). by eapply keeps_stop.
Qed.

Lemma keeps_StopSession s : keeps own w (drop_result (StopSession w s)).
Proof.
  unfold StopSession. destruct (turns w !! s) as [t|] eqn:Ht; [|by apply (keeps_same own w)].
  apply (keeps_result _ _ _ (λ _, tt)). by eapply keeps_stop.
Qed.

Lemma keeps_ResumeAppend s :
  (∀ t, turns w !! s = Some t → phase t = PhaseAwaitAppendConfirm → attemptDone t = None) →
  keeps own w (drop_result (ResumeAppend w s)).
Proof.
  intros Hwait. unfold ResumeAppend. destruct (turns w !! s) as [t|] eqn:Ht; [|by apply (keeps_same own w)].
  case_bool_decide as Hp; [|by apply (keeps_same own w)].
  apply (keeps_put own w s t); try done. destruct (inv_open _ _ _ _ Hinv Ht) as [_ [_ _ _ Hs _]].
  specialize (Hwait t eq_refl Hp).
  assert (¬ is_Some (riskDone t)) as Hrisk by (intros ?%(sh_risk _ Hs); congruence).
  shape_cases Hs.
Qed.

Lemma shape_tools t m : shape t → shape (with_tools t m).
Proof. intros [? ? ? ? ? ? ? ?]. by split. Qed.

Lemma keeps_AddToolUse s n a : keeps own w (drop_result (AddToolUse w s n a)).
Proof.
  unfold AddToolUse. destruct (matching w s a) as [t|] eqn:Hm; [|by apply (keeps_same own w)].
  apply matching_some in Hm as [Ht _]. apply (keeps_put own w s t); try done.
  apply shape_tools. by destruct (inv_open _ _ _ _ Hinv Ht) as [_ [_ _ _ Hs _]].
Qed.

Lemma turn_shape s t : turns w !! s = Some t → shape t.
Proof. intros Ht. by destruct (inv_open _ _ _ _ Hinv Ht) as [_ [_ _ _ Hs _]]. Qed.

(** An attempt's own operations do not see a reservation. *)
Lemma unreserved s t a : turns w !! s = Some t → attempt t = a → a ≠ [] → reserved t = false.
Proof.
  intros Ht Hatt Ha. destruct (reserved t) eqn:Hres; [|done].
  destruct (sh_reserved _ (turn_shape _ _ Ht) Hres) as (_ & ? & _). congruence.
Qed.

(** The invariant does not mention the contents of the one-slot channels. *)
Lemma inv_tokens x tk : inv_except own x (λ _, False) → inv own (with_tokens x tk).
Proof.
  intros [H1 H2 H3 H4]. split; cbn; [| | |done].
  - intros s t Hs Ht. by apply (frame_turn own x); [apply H1|same..].
  - intros s Hs Ht. by apply (frame_lost own x); [apply H2|same..].
  - intros e y He. by apply (frame_exec own x); [apply H3|same..].
Qed.
Lemma inv_responses x r : inv_except own x (λ _, False) → inv own (with_responses x r).
Proof.
  intros [H1 H2 H3 H4]. split; cbn; [| | |done].
  - intros s t Hs Ht. by apply (frame_turn own x); [apply H1|same..].
  - intros s Hs Ht. by apply (frame_lost own x); [apply H2|same..].
  - intros e y He. by apply (frame_exec own x); [apply H3|same..].
Qed.

Lemma keeps_refreshWait x t : inv own x → next w ≤ next x → keeps own w (Ok (refreshWait x t)).
Proof.
  intros Hi Hn. unfold refreshWait. destruct (waitRefresh t); [|by apply (keeps_same own w)].
  by apply (keeps_same own w); [apply inv_tokens|].
Qed.

Lemma appendPending_shape t input : shape t →
  phase t = PhaseAwaitAppendConfirm ∨ phase t = PhaseTool → shape (fst (appendPending t input)).
Proof.
  intros Hs Hp. unfold appendPending. destruct (has_content _); [|done]. cbn [fst].
  shape_cases Hs. intros Hq. exfalso. destruct Hp as [Hp|Hp], Hq as [Hq|[Hq|Hq]]; congruence.
Qed.
Lemma appendPending_same t input : let t' := fst (appendPending t input) in
  attemptDone t' = attemptDone t ∧ riskDone t' = riskDone t ∧ execution t' = execution t ∧ phase t' = phase t
  ∧ self t' = self t ∧ attempt t' = attempt t.
Proof. unfold appendPending. by destruct (has_content _). Qed.

Lemma put_inv s t t' : turns w !! s = Some t →
  attemptDone t' = attemptDone t → riskDone t' = riskDone t → execution t' = execution t → shape t' →
  inv own (put w s t').
Proof.
  intros Ht Ha Hr He Hs. destruct (inv_open _ _ _ _ Hinv Ht) as [Hx [H1 H2 H3 H4 H5]].
  apply inv_put; [done|]. split; rewrite ?Ha, ?Hr, ?He; done.
Qed.

Lemma keeps_AppendPendingInput s input : keeps own w (drop_result (AppendPendingInput w s input)).
Proof.
  unfold AppendPendingInput. destruct (turns w !! s) as [t|] eqn:Ht; [|by apply (keeps_same own w)].
  destruct (_ || _) eqn:Hp; [|by apply (keeps_same own w)].
  rewrite orb_true_iff, !bool_decide_eq_true in Hp.
  pose proof (appendPending_same t input) as (Ha & Hr & He & _).
  pose proof (appendPending_shape t input (turn_shape _ _ Ht) Hp) as Hs.
  destruct (appendPending t input) as [t' appended]. cbn [fst] in *.
  pose proof (put_inv s t t' Ht Ha Hr He Hs) as Hi. cbn [drop_result res_bind].
  destruct (_ && _); [by apply keeps_refreshWait | by apply (keeps_same own w)].
Qed.

Lemma keeps_DrainMergedInput s a : keeps own w (drop_result (DrainMergedInput w s a)).
Proof.
  unfold DrainMergedInput. destruct (matching w s a) as [t|] eqn:Hm; [|by apply (keeps_same own w)].
  apply matching_some in Hm as [Ht _]. case_bool_decide; [by apply (keeps_same own w)|].
  apply (keeps_same own w); [|done]. apply (put_inv s t); try done. pose proof (turn_shape _ _ Ht) as Hs. shape_cases Hs.
Qed.

Lemma keeps_BeginAppend s a input : a ≠ [] → keeps own w (drop_result (BeginAppend w s a input)).
Proof.
  intros Ha. unfold BeginAppend. destruct (matching w s a) as [t|] eqn:Hm; [|by apply (keeps_same own w)].
  apply matching_some in Hm as [Ht Hatt]. case_bool_decide as Hp; [|by apply (keeps_same own w)].
  pose proof (appendPending_same (with_phase t PhaseAwaitAppendConfirm) input) as (Hd & Hr & He & _).
  apply (keeps_same own w); [|done]. apply (put_inv s t); try done.
  apply appendPending_shape; [|by left].
  pose proof (turn_shape _ _ Ht) as Hs. pose proof (unreserved _ _ _ Ht Hatt Ha) as Hres.
  assert (¬ is_Some (riskDone t)) as Hrisk by (intros ?%(sh_risk _ Hs); congruence).
  shape_cases Hs.
Qed.

Lemma keeps_ResolveRiskConfirmation s d : keeps own w (drop_result (ResolveRiskConfirmation w s d)).
Proof.
  unfold ResolveRiskConfirmation. destruct (negb _); [by apply (keeps_same own w)|].
  destruct (turns w !! s) as [t|]; [|by apply (keeps_same own w)].
  destruct (negb _); [by apply (keeps_same own w)|].
  destruct (riskResponse t) as [c|]; [|by apply (keeps_same own w)].
  destruct (responses w !! c); [by apply (keeps_same own w)|].
  by apply (keeps_same own w); [apply inv_responses|].
Qed.

Lemma keeps_RefreshRiskConfirmation s : keeps own w (drop_result (RefreshRiskConfirmation w s)).
Proof.
  unfold RefreshRiskConfirmation. destruct (turns w !! s) as [t|]; [|by apply (keeps_same own w)].
  destruct (negb _); [by apply (keeps_same own w) | by apply keeps_refreshWait].
Qed.

Lemma keeps_BeginRiskConfirmation s c a : a ≠ [] → keeps own w (drop_result (BeginRiskConfirmation w s c a)).
Proof.
  intros Ha. unfold BeginRiskConfirmation. destruct (matching w s a) as [t|] eqn:Hm; [|by apply (keeps_same own w)].
  apply matching_some in Hm as [Ht Hatt]. case_bool_decide as Hp; [|by apply (keeps_same own w)].
  destruct (inv_open _ _ _ _ Hinv Ht) as [Hx [H1 H2 H3 Hs H5]].
  pose proof (unreserved _ _ _ Ht Hatt Ha) as Hres.
  set (own' := λ k, if decide (k < next w) then own k
                    else if decide (k = S (S (next w))) then ORisk s else ONone).
  assert (∀ k, k < next w → own' k = own k) as Hold by (intros k ?; unfold own'; by rewrite decide_True).
  exists own'. eexists; split; [done|]. split; [|by split; [cbn; lia|]]. apply inv_put.
  - apply (alloc_ok own); [done|done|]. intros k s' Hk. unfold own'. rewrite decide_False by lia. by case_decide.
  - split; cbn.
    + intros k Hk. destruct (H1 k Hk) as (? & ? & Ho). split_and!; cbn; [lia|done|by rewrite Hold].
    + intros k [= <-]. split_and!; cbn; [lia| |].
      * intros Hc%(iv_closed _ _ _ Hinv). lia.
      * unfold own'. by rewrite decide_False, decide_True by lia.
    + done.
    + assert (is_Some (attemptDone t)) as Hact by (apply (sh_active _ Hs Hres); congruence).
      shape_cases Hs.
    + intros k _ Ho. unfold own' in Ho. case_decide; [by apply H5|]. by case_decide.
Qed.
End Operations.

Lemma waiting_turn_some w wait t : waiting_turn w wait = Some t →
  turns w !! w_session wait = Some t ∧ self t = w_turn wait ∧ riskResponse t = Some (w_Response wait).
Proof.
  unfold waiting_turn. destruct (turns w !! w_session wait) as [t'|]; [|done].
  destruct (_ && _) eqn:Hb; [|done]. rewrite andb_true_iff, !bool_decide_eq_true in Hb. by intros [= ->].
Qed.

(** [keeps] with the result of the operation. *)
Lemma keeps_drop {A} own w (m : res (world * A)) :
  keeps own w (drop_result m) ↔ ∃ own' w' a, m = Ok (w', a) ∧ inv own' w' ∧ ext own w own' w'.
Proof.
  unfold drop_result. split.
  - intros (own' & w' & Hm & Hi). destruct m as [[w1 a]|e|]; [|done|done]. injection Hm as ->. eauto.
  - intros (own' & w' & a & -> & Hi). by exists own', w'.
Qed.

Lemma keeps_Expire own w wait : inv own w → keeps own w (drop_result (Expire w wait)).
Proof.
  intros Hi. unfold Expire. destruct (waiting_turn w wait) as [t|] eqn:Hw; [|by apply (keeps_same own w)].
  apply waiting_turn_some in Hw as [Ht _]. destruct (negb _); [by apply (keeps_same own w)|].
  destruct (waitRefresh t) as [c|].
  - case_bool_decide; [by apply (keeps_same own w); [apply inv_tokens|]|].
    apply (keeps_result _ _ _ (λ _, true)). by eapply keeps_stop.
  - apply (keeps_result _ _ _ (λ _, true)). by eapply keeps_stop.
Qed.

Lemma keeps_Cancel own w wait : inv own w → keeps own w (drop_result (Cancel w wait)).
Proof.
  intros Hi. unfold Cancel. destruct (waiting_turn w wait) as [t|] eqn:Hw; [|by apply (keeps_same own w)].
  apply waiting_turn_some in Hw as [Ht _]. destruct (negb _); [by apply (keeps_same own w)|].
  apply (keeps_result _ _ _ (λ _, true)). by eapply keeps_stop.
Qed.

Lemma keeps_Complete own w wait d err : inv own w → keeps own w (drop_result (Complete w wait d err)).
Proof.
  intros Hi. unfold Complete. destruct (waiting_turn w wait) as [t|] eqn:Hw; [|by apply (keeps_same own w)].
  apply waiting_turn_some in Hw as [Ht _].
  destruct (_ || _); [apply (keeps_result _ _ _ (λ _, result RiskCanceled err)); by eapply keeps_stop|].
  case_bool_decide as Hp; cbn [negb]; [|by apply (keeps_same own w)].
  destruct (inv_open _ _ _ _ Hi Ht) as [Hx [H1 H2 H3 Hs H5]].
  destruct (riskDone t) as [c|] eqn:Hd.
  2: { destruct (proj2 (sh_risk _ Hs) Hp) as [? ?]. congruence. }
  destruct (close_ok own w (w_session wait) c (ORisk (w_session wait)) Hx (H2 c eq_refl)) as [-> Hx']; [by right|].
  cbn [res_bind drop_result]. exists own. eexists; split; [done|]. split; [|by apply ext_refl; cbn; lia]. apply inv_put; [done|].
  assert (∀ c', own c' = OAttempt (w_session wait) → c' ∈ {[c]} ∪ closed w → c' ∈ closed w) as Hc.
  { intros c' Ho [->%elem_of_singleton|?]%elem_of_union; [|done].
    destruct (H2 c eq_refl) as (_ & _ & ?). congruence. }
  split; cbn; [|done|done| |].
  - intros c' Hc'. destruct (H1 c' Hc') as (? & ? & Ho). split_and!; [done| |done]. cbn. by intros ?%Hc.
  - assert (reserved t = false) as Hres by
      (destruct (reserved t) eqn:Hres; [|done]; destruct (sh_reserved _ Hs Hres) as (? & _ & _); congruence).
    assert (is_Some (attemptDone t)) as Hact by (apply (sh_active _ Hs Hres); congruence).
    shape_cases Hs.
  - intros c' Hlt Ho. destruct (H5 c' Hlt Ho); [left; by apply elem_of_union_r|by right].
Qed.

Lemma keeps_after {A} own w (m : res (world * A)) (k : world * A → res world) :
  keeps own w (drop_result m) → (∀ own' w' a, inv own' w' → keeps own' w' (k (w', a))) →
  keeps own w (res_bind m k).
Proof.
  intros (own1 & w1 & a & -> & Hi1 & He1)%keeps_drop Hk. cbn [res_bind].
  destruct (Hk own1 w1 a Hi1) as (own2 & w2 & -> & Hi2 & He2).
  exists own2, w2. split; [done|]. split; [done|]. by eapply ext_trans.
Qed.

Lemma drop_bind {A B} (m : res (world * A)) (k : world * A → res (world * B)) :
  drop_result (res_bind m k) = res_bind m (λ x, drop_result (k x)).
Proof. by destruct m. Qed.

Lemma keeps_wait_body own w wait ctx c : inv own w → keeps own w (drop_result (wait_body w wait ctx c)).
Proof.
  intros Hi. unfold wait_body. destruct c; [| | |by apply (keeps_same own w)|].
  - destruct (responses w !! _) as [d|]; [|by apply (keeps_same own w)]. rewrite drop_bind.
    apply keeps_after; [|intros; by apply keeps_same].
    apply (keeps_Complete own (with_responses w (delete (w_Response wait) (responses w))) wait d ctx).
    by apply inv_responses.
  - rewrite drop_bind. apply keeps_after; [by apply keeps_Complete|]. intros; by apply keeps_same.
  - apply (keeps_same own w); [by apply inv_tokens|done].
  - rewrite drop_bind. apply keeps_after; [by apply keeps_Expire|]. intros own' w' r Hi'.
    case_bool_decide; [by apply keeps_same|]. by destruct r; apply keeps_same.
Qed.

Lemma keeps_wait_round own w wait ctx c : inv own w → keeps own w (drop_result (wait_round w wait ctx c)).
Proof.
  intros Hi. unfold wait_round. rewrite drop_bind. apply keeps_after; [by apply keeps_wait_body|].
  intros own' w' [r|] Hi'; [|by apply keeps_same].
  rewrite drop_bind. apply keeps_after; [by apply keeps_Cancel|]. intros; by apply keeps_same.
Qed.

Lemma keeps_StopAll order : ∀ own w, inv own w → keeps own w (drop_result (StopAll w order)).
Proof.
  induction order as [|s order IH]; intros own w Hi; [by apply (keeps_same own w)|]. cbn [StopAll].
  rewrite drop_bind. apply keeps_after; [by apply keeps_StopSession|]. intros own' w' u Hi'. by apply IH.
Qed.

Lemma keeps_Finish own w e err : inv own w → is_Some (executions w !! e) → keeps own w (Finish w e err).
Proof.
  intros Hi He. destruct (Finish_ok own w e err _ Hi He) as (w' & -> & Hi' & [_ Hn _ _]).
  exists own, w'. split; [done|]. split; [done|]. apply ext_refl. lia.
Qed.

Lemma keeps_update own w e f : inv own w → is_Some (executions w !! e) →
  (∀ x, done_ (f x) = done_ x ∧ finished (f x) = finished x ∧ (finished x = true → Outcome (f x) = Outcome x ∧ ResultErr (f x) = ResultErr x)) →
  keeps own w (update_execution w e f).
Proof.
  intros [H1 H2 H3 H4] [x Hx] Hf. unfold update_execution. rewrite Hx. exists own. eexists; split; [done|]. split; [|by apply ext_refl].
  destruct (Hf x) as (Hd & Hfin & Hout).
  split; cbn; [| | |done].
  - intros s t Hs Ht. apply (frame_turn own w); [by apply H1|same|same|]. cbn. intros e' He'.
    destruct (decide (e = e')) as [<-|]; [by rewrite lookup_insert_eq | by rewrite lookup_insert_ne].
  - intros s Hs Ht. by apply (frame_lost own w); [apply H2|same..].
  - intros e' y [[<- <-]|[Hne Hy]]%lookup_insert_Some.
    + destruct (H3 e x Hx) as [? ? ? Ho]. split; cbn; rewrite ?Hd, ?Hfin; try done.
      intros Ht. destruct (Hout Ht) as [-> ->]. auto.
    + by apply (frame_exec own w); [apply H3|same..].
Qed.

Lemma keeps_NewExecution own w id : inv own w → keeps own w (step w (OpNewExecution id)).
Proof.
  intros Hi. cbn [step].
  set (own' := λ k, if decide (k < next w) then own k
                    else if decide (k = S (next w)) then OExec (next w) else ONone).
  assert (∀ k, k < next w → own' k = own k) as Hold by (intros k ?; unfold own'; by rewrite decide_True).
  assert (inv own' (alloc w 2)) as [H1 H2 H3 H4].
  { apply (alloc_ok own); [done|done|]. intros k s Hk. unfold own'. rewrite decide_False by lia. by case_decide. }
  exists own'. eexists; split; [done|]. split; [|by split; [cbn; lia|]]. split; cbn; [| | |done].
  - intros s t Hs Ht. apply (frame_turn own' (alloc w 2)); [by apply H1|same|same|]. cbn. intros e' He'.
    destruct (decide (next w = e')) as [<-|]; [by rewrite lookup_insert_eq | by rewrite lookup_insert_ne].
  - intros s Hs Ht. by apply (frame_lost own' (alloc w 2)); [apply H2|same..].
  - intros e' y [[<- <-]|[Hne Hy]]%lookup_insert_Some.
    + split; cbn; [lia| | |done].
      * unfold own'. by rewrite decide_False, decide_True by lia.
      * split; [done|]. intros Hc%(iv_closed _ _ _ Hi). lia.
    + by apply (frame_exec own' (alloc w 2)); [apply H3|same..].
Qed.

Lemma step_keeps own w o : inv own w → legal w o → keeps own w (step w o).
Proof.
  intros Hi Hl. destruct o; cbn [legal] in Hl; try match type of Hl with _ ∧ _ => destruct Hl end; cbn [step].
  1: by apply (keeps_NewExecution own).
  1: by apply (keeps_Finish own).
  1: { apply (keeps_update own); [done|done|]. intros x'. unfold SetResult. by destruct (finished x') eqn:?; cbn. }
  1: by apply (keeps_update own).
  all: eauto using keeps_StartCompactRun, keeps_CompleteCompactRun, keeps_StartToolPhase, keeps_CompleteTurn,
    keeps_FinishAttempt, keeps_StopAttempt, keeps_StopSession, keeps_StopAll, keeps_ResumeAppend, keeps_StartAttempt,
    keeps_ReserveExecution, keeps_AddToolUse, keeps_AppendPendingInput, keeps_DrainMergedInput, keeps_BeginAppend,
    keeps_BeginRiskConfirmation, keeps_ResolveRiskConfirmation, keeps_RefreshRiskConfirmation, keeps_wait_round,
    keeps_Cancel.
Qed.

(** ** Effects on the table *)
Lemma close_turns w c w' : close w c = Ok w' → turns w' = turns w.
Proof. unfold close. case_bool_decide; [done|]. by intros [= <-]. Qed.

Lemma Finish_turns w e err w' : Finish w e err = Ok w' → turns w' = turns w.
Proof.
  unfold Finish. destruct (executions w !! e) as [x|]; [|done].
  destruct (finished x); [by intros [= <-]|]. by intros ->%close_turns.
Qed.

Lemma finishAttempt_turns w t w' t' : finishAttempt w t = Ok (w', t') →
  turns w' = turns w ∧ phase t' = phase t ∧ attempt t' = attempt t ∧ pending t' = pending t.
Proof.
  unfold finishAttempt. destruct (attemptDone t); [|by intros [= <- <-]].
  intros (w1 & Hc & [= <- <-])%res_bind_ok. by apply close_turns in Hc.
Qed.

Lemma stopTurn_turns w t w' t' : stopTurn w t = Ok (w', t') →
  turns w' = turns w ∧ phase t' = phase t ∧ attempt t' = attempt t ∧ pending t' = pending t
  ∧ attemptDone t' = attemptDone t ∧ self t' = self t ∧ riskResponse t' = riskResponse t
  ∧ execution t' = execution t.
Proof.
  unfold stopTurn. destruct (riskDone t); [|by intros [= <- <-]].
  intros (w1 & Hc & [= <- <-])%res_bind_ok. by apply close_turns in Hc.
Qed.

Lemma removeTurn_turns w s t preserve w' : removeTurn w s t preserve = Ok w' → turns w' = delete s (turns w).
Proof.
  unfold removeTurn. intros (w1 & H1 & ([w2 t2] & H2 & ([w3 t3] & H3 & [= <-])%res_bind_ok)%res_bind_ok)%res_bind_ok.
  cbn. assert (turns w1 = turns w) as E1.
  { destruct (execution t); [destruct preserve|]; try (by injection H1 as <-). by apply Finish_turns in H1. }
  apply finishAttempt_turns in H2 as [E2 _]. apply stopTurn_turns in H3 as [E3 _]. congruence.
Qed.

Lemma beginStopTurn_turns w s t w' : beginStopTurn w s t = Ok w' →
  turns w' = delete s (turns w) ∧ attemptDone t = None ∨
  ∃ t', turns w' = <[s := t']> (turns w) ∧ is_Some (attemptDone t) ∧ phase t' = PhaseStopping ∧ pending t' = []
        ∧ attempt t' = attempt t ∧ attemptDone t' = attemptDone t ∧ self t' = self t
        ∧ execution t' = execution t.
Proof.
  unfold beginStopTurn. destruct (attemptDone t) as [c|] eqn:Ha.
  - intros ([w1 t1] & H1 & [= <-])%res_bind_ok. apply stopTurn_turns in H1 as (E & _ & ? & _ & ? & ? & _ & ?).
    right. eexists; split; [cbn; by rewrite E|]. by rewrite <- Ha.
  - intros H%removeTurn_turns. by left.
Qed.

(** What becomes of a stopping turn. *)
Definition still_stopping (t : state) (w' : world) (s : gostring) : Prop :=
  turns w' !! s = None ∨
  ∃ t', turns w' !! s = Some t' ∧ phase t' = PhaseStopping ∧ pending t' = []
        ∧ attempt t' = attempt t ∧ attemptDone t' = attemptDone t ∧ self t' = self t.

Section Stopping.
Context (w : world) (s : gostring) (t : state) (Ht : turns w !! s = Some t)
  (Hp : phase t = PhaseStopping) (Hn : pending t = []).

Lemma stopping_same w' : turns w' !! s = turns w !! s → still_stopping t w' s.
Proof. intros Hw. right. exists t. by rewrite Hw. Qed.

Lemma stopping_delete w' s' : turns w' = delete s' (turns w) → still_stopping t w' s.
Proof.
  intros Hw. destruct (decide (s' = s)) as [->|Hne].
  - left. by rewrite Hw, lookup_delete_eq.
  - apply stopping_same. by rewrite Hw, lookup_delete_ne.
Qed.

Lemma stopping_insert w' s' t' : turns w' = <[s' := t']> (turns w) →
  (s' = s → phase t' = PhaseStopping ∧ pending t' = [] ∧ attempt t' = attempt t
            ∧ attemptDone t' = attemptDone t ∧ self t' = self t) →
  still_stopping t w' s.
Proof.
  intros Hw Hs. destruct (decide (s' = s)) as [->|Hne].
  - right. exists t'. rewrite Hw, lookup_insert_eq. split; [done|]. by apply Hs.
  - apply stopping_same. by rewrite Hw, lookup_insert_ne.
Qed.

(** An operation that needs another phase leaves the session alone. *)
Lemma stopping_put w0 s' t0 t' : turns w !! s' = Some t0 → phase t0 ≠ PhaseStopping → turns w0 = turns w →
  still_stopping t (put w0 s' t') s.
Proof.
  intros Ht0 Hp0 Hw0. apply (stopping_insert _ s' t'); [cbn; by rewrite Hw0|]. intros ->. congruence.
Qed.

Lemma stopping_stop w' s' t0 : turns w !! s' = Some t0 → beginStopTurn w s' t0 = Ok w' → still_stopping t w' s.
Proof.
  intros Ht0 [[Hw _]|(t' & Hw & Ha & ? & ? & ? & ? & ? & _)]%beginStopTurn_turns.
  - by eapply stopping_delete.
  - eapply stopping_insert; [done|]. intros ->. assert (t0 = t) as -> by congruence. done.
Qed.
End Stopping.

(** [finally]: the session [s] stays stopping, or is gone and stays so. *)
Definition goes_down (s : gostring) (w w' : world) : Prop :=
  (turns w !! s = None → turns w' !! s = None)
  ∧ ∀ t, turns w !! s = Some t → phase t = PhaseStopping → pending t = [] → still_stopping t w' s.

Lemma goes_down_refl s w w' : turns w' = turns w → goes_down s w w'.
Proof. intros Hw. split; [by rewrite Hw|]. intros t Ht Hp Hn. apply (stopping_same w); try done. by rewrite Hw. Qed.

Lemma goes_down_trans s w1 w2 w3 : goes_down s w1 w2 → goes_down s w2 w3 → goes_down s w1 w3.
Proof.
  intros [N1 S1] [N2 S2]. split; [auto|]. intros t Ht Hp Hn.
  destruct (S1 t Ht Hp Hn) as [Hw|(t2 & Ht2 & Hp2 & Hn2 & Ha & Hc & Hs)]; [left; auto|].
  destruct (S2 t2 Ht2 Hp2 Hn2) as [Hw|(t3 & ? & ? & ? & ? & ? & ?)]; [by left|].
  right. exists t3. split_and!; congruence.
Qed.

Lemma goes_down_stop s w s' t0 w' : turns w !! s' = Some t0 → beginStopTurn w s' t0 = Ok w' → goes_down s w w'.
Proof.
  intros Ht0 Hw. split; [|intros t Ht Hp Hn; exact (stopping_stop w s t Ht Hp Hn w' s' t0 Ht0 Hw)].
  intros Hs. apply beginStopTurn_turns in Hw as [[-> _]|(t' & -> & _)].
  - rewrite lookup_delete_None. auto.
  - rewrite lookup_insert_ne; [done|]. congruence.
Qed.

Lemma goes_down_delete s w s' w' : turns w' = delete s' (turns w) → goes_down s w w'.
Proof.
  intros Hw. split; [intros ?; rewrite Hw, lookup_delete_None; auto|]. intros t Ht Hp Hn. by eapply stopping_delete.
Qed.

(** Replacing a turn that is not stopping. *)
Lemma goes_down_put s w w0 s' t0 t' : turns w !! s' = Some t0 → phase t0 ≠ PhaseStopping →
  turns w0 = turns w → goes_down s w (put w0 s' t').
Proof.
  intros Ht0 Hp0 Hw0. split; [|intros t Ht Hp Hn; by apply (stopping_put w s t Ht Hp Hn w0 s' t0 t')].
  intros Hs. cbn. rewrite Hw0, lookup_insert_ne; [done|]. congruence.
Qed.

Lemma goes_down_StopSession s w s' w' u : StopSession w s' = Ok (w', u) → goes_down s w w'.
Proof.
  unfold StopSession. destruct (turns w !! s') as [t0|] eqn:Ht; [|intros [= <- _]; by apply goes_down_refl].
  intros (w1 & Hw & [= <- _])%res_bind_ok. by eapply goes_down_stop.
Qed.

Lemma goes_down_StopAll s order : ∀ w w' u, StopAll w order = Ok (w', u) → goes_down s w w'.
Proof.
  induction order as [|s' order IH]; intros w w' u; cbn [StopAll]; [intros [= <- _]; by apply goes_down_refl|].
  intros ([w1 u1] & H1 & H2)%res_bind_ok. eapply goes_down_trans; [by eapply goes_down_StopSession | by eapply IH].
Qed.

Lemma goes_down_Cancel s w wait w' b : Cancel w wait = Ok (w', b) → goes_down s w w'.
Proof.
  unfold Cancel. destruct (waiting_turn w wait) as [t0|] eqn:Ht; [|intros [= <- _]; by apply goes_down_refl].
  apply waiting_turn_some in Ht as [Ht _]. destruct (negb _); [intros [= <- _]; by apply goes_down_refl|].
  intros (w1 & Hw & [= <- _])%res_bind_ok. by eapply goes_down_stop.
Qed.

Lemma goes_down_Expire s w wait w' b : Expire w wait = Ok (w', b) → goes_down s w w'.
Proof.
  unfold Expire. destruct (waiting_turn w wait) as [t0|] eqn:Ht; [|intros [= <- _]; by apply goes_down_refl].
  apply waiting_turn_some in Ht as [Ht _]. destruct (negb _); [intros [= <- _]; by apply goes_down_refl|].
  destruct (waitRefresh t0) as [c|]; [case_bool_decide; [intros [= <- _]; by apply goes_down_refl|]|];
    intros (w1 & Hw & [= <- _])%res_bind_ok; by eapply goes_down_stop.
Qed.

Lemma goes_down_Complete s w wait d err w' r : Complete w wait d err = Ok (w', r) → goes_down s w w'.
Proof.
  unfold Complete. destruct (waiting_turn w wait) as [t0|] eqn:Ht; [|intros [= <- _]; by apply goes_down_refl].
  apply waiting_turn_some in Ht as [Ht _].
  destruct (_ || _); [intros (w1 & Hw & [= <- _])%res_bind_ok; by eapply goes_down_stop|].
  case_bool_decide as Hp; cbn [negb]; [|intros [= <- _]; by apply goes_down_refl].
  destruct (riskDone t0); [|done]. intros (w1 & Hw & [= <- _])%res_bind_ok. apply close_turns in Hw.
  eapply goes_down_put; [done|congruence|done].
Qed.

Lemma goes_down_wait s w wait ctx c w' r : wait_round w wait ctx c = Ok (w', r) → goes_down s w w'.
Proof.
  unfold wait_round. intros ([w1 r1] & H1 & H2)%res_bind_ok.
  assert (goes_down s w w1) as Hd.
  { unfold wait_body in H1. destruct c.
    - destruct (responses w !! _); [|injection H1 as <- _; by apply goes_down_refl].
      apply res_bind_ok in H1 as ([w2 r2] & H1 & [= <- _]).
      eapply goes_down_trans; [|by eapply goes_down_Complete]. by apply goes_down_refl.
    - apply res_bind_ok in H1 as ([w2 r2] & H1 & [= <- _]). by eapply goes_down_Complete.
    - injection H1 as <- _. by apply goes_down_refl.
    - injection H1 as <- _. by apply goes_down_refl.
    - apply res_bind_ok in H1 as ([w2 r2] & H1 & H3). assert (w2 = w1) as -> by (repeat case_match; congruence).
      by eapply goes_down_Expire. }
  destruct r1; [|by injection H2 as <- _]. apply res_bind_ok in H2 as ([w2 b] & H2 & [= <- _]).
  eapply goes_down_trans; [done|]. by eapply goes_down_Cancel.
Qed.

Lemma drop_result_ok {A} (m : res (world * A)) w : drop_result m = Ok w ↔ ∃ a, m = Ok (w, a).
Proof.
  unfold drop_result. split; [|by intros [a ->]]. intros ([w' a] & -> & [= <-])%res_bind_ok. eauto.
Qed.

Section StoppingStep.
Context (w : world) (s : gostring) (t : state) (Ht : turns w !! s = Some t)
  (Hp : phase t = PhaseStopping) (Hn : pending t = []).

Lemma down_stopping w' : goes_down s w w' → still_stopping t w' s.
Proof. intros [_ Hd]. by apply Hd. Qed.

(** A started turn is at another session. *)
Lemma stopping_start w0 s' t' : turns w0 = turns w → (s' = s → False) → still_stopping t (put w0 s' t') s.
Proof.
  intros Hw Hne. apply (stopping_insert w s t Ht Hp Hn _ s' t'); [cbn; by rewrite Hw|]. intros Heq. by destruct (Hne Heq).
Qed.

Ltac same_world := intros [= <- _]; apply down_stopping; by apply goes_down_refl.

Lemma stopping_attempt_ops w' :
  (∀ s' r e, drop_result (StartCompactRun w s' r e) = Ok w' → still_stopping t w' s)
  ∧ (∀ s' i e a, drop_result (StartAttempt w s' i e a) = Ok w' → still_stopping t w' s)
  ∧ (∀ s' i e, drop_result (ReserveExecution w s' i e) = Ok w' → still_stopping t w' s)
  ∧ (∀ s' r, drop_result (CompleteCompactRun w s' r) = Ok w' → still_stopping t w' s)
  ∧ (∀ s' a, drop_result (StartToolPhase w s' a) = Ok w' → still_stopping t w' s).
Proof.
  split_and!; intros s'.
  - intros r e [b Hw]%drop_result_ok. revert Hw. unfold StartCompactRun. destruct (turns w !! s') as [old|] eqn:Ho.
    + destruct (_ || _) eqn:Hb; [same_world|]. intros [= <- _]. apply stopping_start; [done|]. intros ->.
      rewrite !orb_false_iff, !negb_false_iff, !bool_decide_eq_true in Hb. destruct Hb as [[_ Hb] _]. congruence.
    + intros [= <- _]. apply stopping_start; [done|congruence].
  - intros i e a [b Hw]%drop_result_ok. revert Hw. unfold StartAttempt. destruct (turns w !! s') as [old|] eqn:Ho.
    + destruct (negb _) eqn:Hb; [same_world|]. intros [= <- _]. apply stopping_start; [done|]. intros ->.
      rewrite negb_false_iff, !andb_true_iff, !bool_decide_eq_true in Hb. destruct Hb as [_ Hb]. congruence.
    + intros [= <- _]. apply stopping_start; [done|congruence].
  - intros i e [b Hw]%drop_result_ok. revert Hw. unfold ReserveExecution. destruct (turns w !! s') as [old|] eqn:Ho;
      [same_world|]. intros [= <- _]. apply stopping_start; [done|congruence].
  - intros r [b Hw]%drop_result_ok. revert Hw. unfold CompleteCompactRun. destruct (turns w !! s') as [t0|]; [|same_world].
    destruct (_ || _); [same_world|]. intros (w1 & Hw & [= <- _])%res_bind_ok. apply down_stopping.
    by eapply goes_down_delete, removeTurn_turns.
  - intros a [b Hw]%drop_result_ok. revert Hw. unfold StartToolPhase. destruct (matching w s' a) as [t0|] eqn:Hm; [|same_world].
    apply matching_some in Hm as [Hm _]. case_bool_decide as Hq; [|same_world]. intros [= <- _]. apply down_stopping.
    eapply goes_down_put; [done|congruence|done].
Qed.

Lemma stopping_turn_ops w' :
  (∀ s' a, drop_result (CompleteTurn w s' a) = Ok w' → still_stopping t w' s)
  ∧ (∀ s' a, drop_result (FinishAttempt w s' a) = Ok w' → still_stopping t w' s)
  ∧ (∀ s' a, drop_result (StopAttempt w s' a) = Ok w' → still_stopping t w' s)
  ∧ (∀ s', drop_result (ResumeAppend w s') = Ok w' → still_stopping t w' s)
  ∧ (∀ s' n a, drop_result (AddToolUse w s' n a) = Ok w' → still_stopping t w' s).
Proof.
  split_and!; intros s'.
  - intros a [b Hw]%drop_result_ok. revert Hw. unfold CompleteTurn. destruct (matching w s' a) as [t0|] eqn:Hm; [|same_world].
    apply matching_some in Hm as [Hm _]. destruct (_ || _) eqn:Hb; [|same_world].
    rewrite !orb_true_iff, !bool_decide_eq_true in Hb.
    assert (phase t0 ≠ PhaseStopping) as Hq by (destruct Hb as [[Hb|Hb]|Hb]; congruence). clear Hb.
    destruct (execution t0); [destruct (has_content _)|].
    + intros ([w1 t1] & Hw & [= <- _])%res_bind_ok. apply finishAttempt_turns in Hw as [Hw _]. apply down_stopping.
      by eapply goes_down_put.
    + intros (w1 & Hw & [= <- _])%res_bind_ok. apply down_stopping. by eapply goes_down_delete, removeTurn_turns.
    + intros (w1 & Hw & [= <- _])%res_bind_ok. apply down_stopping. by eapply goes_down_delete, removeTurn_turns.
  - intros a [b Hw]%drop_result_ok. revert Hw. unfold FinishAttempt. destruct (matching w s' a) as [t0|] eqn:Hm; [|same_world].
    apply matching_some in Hm as [Hm _]. case_bool_decide.
    + intros ([w1 t1] & Hw & [= <- _])%res_bind_ok. apply finishAttempt_turns in Hw as [Hw _]. apply down_stopping.
      eapply goes_down_put; [done|congruence|done].
    + intros (w1 & Hw & [= <- _])%res_bind_ok. apply down_stopping. by eapply goes_down_delete, removeTurn_turns.
  - intros a [b Hw]%drop_result_ok. revert Hw. unfold StopAttempt. destruct (matching w s' a) as [t0|] eqn:Hm; [|same_world].
    apply matching_some in Hm as [Hm _]. intros (w1 & Hw & [= <- _])%res_bind_ok. apply down_stopping.
    by eapply goes_down_stop.
  - intros [b Hw]%drop_result_ok. revert Hw. unfold ResumeAppend. destruct (turns w !! s') as [t0|] eqn:Hm; [|same_world].
    case_bool_decide; [|same_world]. intros [= <- _]. apply down_stopping. eapply goes_down_put; [done|congruence|done].
  - intros n a [b Hw]%drop_result_ok. revert Hw. unfold AddToolUse. destruct (matching w s' a) as [t0|] eqn:Hm; [|same_world].
    apply matching_some in Hm as [Hm _]. intros [= <- _]. eapply (stopping_insert w s t Ht Hp Hn); [done|]. intros ->.
    assert (t0 = t) as -> by congruence. done.
Qed.

Lemma refreshWait_turns w0 t0 : turns (refreshWait w0 t0) = turns w0.
Proof. unfold refreshWait. by destruct (waitRefresh t0). Qed.

Lemma stopping_input_ops w' :
  (∀ s' i, drop_result (AppendPendingInput w s' i) = Ok w' → still_stopping t w' s)
  ∧ (∀ s' a, drop_result (DrainMergedInput w s' a) = Ok w' → still_stopping t w' s)
  ∧ (∀ s' a i, drop_result (BeginAppend w s' a i) = Ok w' → still_stopping t w' s)
  ∧ (∀ s' c a, drop_result (BeginRiskConfirmation w s' c a) = Ok w' → still_stopping t w' s)
  ∧ (∀ s' d, drop_result (ResolveRiskConfirmation w s' d) = Ok w' → still_stopping t w' s)
  ∧ (∀ s', drop_result (RefreshRiskConfirmation w s') = Ok w' → still_stopping t w' s).
Proof.
  split_and!; intros s'.
  - intros i [b Hw]%drop_result_ok. revert Hw. unfold AppendPendingInput. destruct (turns w !! s') as [t0|] eqn:Hm; [|same_world].
    destruct (_ || _) eqn:Hb; [|same_world]. rewrite orb_true_iff, !bool_decide_eq_true in Hb.
    destruct (appendPending t0 i) as [t1 ap]. intros [= <- _]. apply down_stopping.
    assert (phase t0 ≠ PhaseStopping) as Hq by (destruct Hb; congruence).
    eapply goes_down_trans; [by apply (goes_down_put s w w s' t0 t1)|]. apply goes_down_refl.
    destruct (_ && _); [by rewrite refreshWait_turns|done].
  - intros a [b Hw]%drop_result_ok. revert Hw. unfold DrainMergedInput. destruct (matching w s' a) as [t0|] eqn:Hm; [|same_world].
    apply matching_some in Hm as [Hm _]. case_bool_decide; [same_world|]. intros [= <- _].
    eapply (stopping_insert w s t Ht Hp Hn); [done|]. intros ->. assert (t0 = t) as -> by congruence. done.
  - intros a i [b Hw]%drop_result_ok. revert Hw. unfold BeginAppend. destruct (matching w s' a) as [t0|] eqn:Hm; [|same_world].
    apply matching_some in Hm as [Hm _]. case_bool_decide; [|same_world]. intros [= <- _]. apply down_stopping.
    eapply goes_down_put; [done|congruence|done].
  - intros c a [b Hw]%drop_result_ok. revert Hw. unfold BeginRiskConfirmation. destruct (matching w s' a) as [t0|] eqn:Hm; [|same_world].
    apply matching_some in Hm as [Hm _]. case_bool_decide; [|same_world]. intros [= <- _]. apply down_stopping.
    eapply goes_down_put; [done|congruence|done].
  - intros d [b Hw]%drop_result_ok. revert Hw. unfold ResolveRiskConfirmation. repeat case_match; same_world.
  - intros [b Hw]%drop_result_ok. revert Hw. unfold RefreshRiskConfirmation. repeat case_match; [same_world| |same_world].
    intros [= <- _]. apply down_stopping, goes_down_refl, refreshWait_turns.
Qed.

Lemma stopping_step o w' : step w o = Ok w' → still_stopping t w' s.
Proof.
  intros Hw. destruct (stopping_attempt_ops w') as (A1 & A2 & A3 & A4 & A5).
  destruct (stopping_turn_ops w') as (B1 & B2 & B3 & B4 & B5).
  destruct (stopping_input_ops w') as (C1 & C2 & C3 & C4 & C5 & C6).
  destruct o; cbn [step] in Hw; eauto.
  - injection Hw as <-. by apply down_stopping, goes_down_refl.
  - by eapply down_stopping, goes_down_refl, Finish_turns.
  - apply down_stopping, goes_down_refl. unfold update_execution in Hw. case_match; [by injection Hw as <-|done].
  - apply down_stopping, goes_down_refl. unfold update_execution in Hw. case_match; [by injection Hw as <-|done].
  - apply drop_result_ok in Hw as [u Hw]. by eapply down_stopping, goes_down_StopSession.
  - apply drop_result_ok in Hw as [u Hw]. by eapply down_stopping, goes_down_StopAll.
  - apply drop_result_ok in Hw as [u Hw]. by eapply down_stopping, goes_down_wait.
  - apply drop_result_ok in Hw as [u Hw]. by eapply down_stopping, goes_down_Cancel.
Qed.
End StoppingStep.

(** * Theorems on the turn lifecycle

    Every run of legal calls from the empty manager keeps the invariant of
    [TurnProps]; what that means for the completion channel of an attempt,
    for stopping, for a risk confirmation and for queued input. *)

(** ** Runs *)
Lemma inv_init : inv (λ _, ONone) NewManager.
Proof. split; cbn; try done. Qed.

Lemma run_keeps os : ∀ own w, inv own w → legal_run w os → keeps own w (run w os).
Proof.
  induction os as [|o os IH]; intros own w Hi Hl; [by apply keeps_same|].
  destruct Hl as [Hl Hrest]. cbn [run].
  destruct (step_keeps own w o Hi Hl) as (own1 & w1 & Hs & Hi1 & He1). rewrite Hs. cbn [res_bind].
  destruct (IH own1 w1 Hi1 (Hrest w1 Hs)) as (own2 & w2 & -> & Hi2 & He2).
  exists own2, w2. split; [done|]. split; [done|]. by eapply ext_trans.
Qed.

Lemma run_inv os w : legal_run NewManager os → run NewManager os = Ok w → ∃ own, inv own w.
Proof.
  intros Hl Hr. destruct (run_keeps os _ _ inv_init Hl) as (own & w' & Hr' & Hi & _).
  exists own. congruence.
Qed.

(** *** A decision procedure for [legal_run], for the witnesses *)
Definition knownb (w : world) (e : option nat) : bool :=
  match e with Some x => bool_decide (is_Some (executions w !! x)) | None => true end.
Definition nonempty (a : gostring) : bool := negb (bool_decide (a = [])).
Definition legalb (w : world) (o : op) : bool :=
  match o with
  | OpFinish e _ | OpSetResult e _ _ _ | OpAdopt e => bool_decide (is_Some (executions w !! e))
  | OpStartCompactRun _ a e | OpStartAttempt _ _ e a => knownb w e && nonempty a
  | OpReserveExecution _ _ e => knownb w e
  | OpCompleteCompactRun _ a | OpStartToolPhase _ a | OpCompleteTurn _ a | OpFinishAttempt _ a
  | OpStopAttempt _ a | OpAddToolUse _ _ a | OpDrainMergedInput _ a | OpBeginAppend _ a _
  | OpBeginRiskConfirmation _ _ a => nonempty a
  | OpResumeAppend s => match turns w !! s with
                        | Some t => bool_decide (attemptDone t = None)
                        | None => true
                        end
  | _ => true
  end.
Fixpoint legal_runb (w : world) (os : list op) : bool :=
  match os with
  | [] => true
  | o :: os => legalb w o && match step w o with Ok w' => legal_runb w' os | _ => true end
  end.

Lemma knownb_sound w e : knownb w e = true → known w e.
Proof. destruct e as [x|]; [|done]. intros H%bool_decide_eq_true y [= <-]. exact H. Qed.
Lemma nonempty_sound a : nonempty a = true → a ≠ [].
Proof. unfold nonempty. by rewrite negb_true_iff, bool_decide_eq_false. Qed.

Lemma legalb_sound w o : legalb w o = true → legal w o.
Proof.
  destruct o; cbn [legalb legal]; rewrite ?andb_true_iff, ?bool_decide_eq_true; try done;
    try (intros [? ?]; split); auto using knownb_sound, nonempty_sound.
  destruct (turns w !! s) as [t0|]; [|done]. intros H t [= <-] _. by apply bool_decide_eq_true in H.
Qed.

Lemma legal_runb_sound os : ∀ w, legal_runb w os = true → legal_run w os.
Proof.
  induction os as [|o os IH]; intros w; cbn [legal_runb legal_run]; [done|].
  intros [Hl Hr]%andb_true_iff. split; [by apply legalb_sound|]. intros w' Hs. rewrite Hs in Hr. by apply IH.
Qed.

(** ** Effects used below *)
Lemma Cancel_settles w wait w' b t : Cancel w wait = Ok (w', b) →
  waiting_turn w' wait = Some t → phase t ≠ PhaseAwaitRiskConfirm.
Proof.
  unfold Cancel. destruct (waiting_turn w wait) as [t0|] eqn:Hw.
  - apply waiting_turn_some in Hw as Hw'. destruct Hw' as (Ht & Hs & Hr).
    case_bool_decide as Hp; cbn [negb]; [|intros [= <- _]; rewrite Hw; by intros [= <-]].
    intros (w1 & Hw1 & [= <- _])%res_bind_ok (Ht' & _)%waiting_turn_some.
    apply beginStopTurn_turns in Hw1 as [[E _]|(t' & E & _ & Hp' & _)]; rewrite E in Ht'.
    + by rewrite lookup_delete_eq in Ht'.
    + rewrite lookup_insert_eq in Ht'. injection Ht' as <-. congruence.
  - intros [= <- _]. by rewrite Hw.
Qed.

(** [Complete] answers only for the current wait, without an error. *)
Lemma Complete_answered w wait d err w' r : Complete w wait d err = Ok (w', r) → Outcome_ r = RiskAnswered →
  err = None ∧ Decision_ r = d ∧ ∃ t t', waiting_turn w wait = Some t ∧ phase t = PhaseAwaitRiskConfirm
    ∧ turns w' !! w_session wait = Some t' ∧ phase t' = PhaseTool ∧ attempt t' = attempt t.
Proof.
  unfold Complete. destruct (waiting_turn w wait) as [t|] eqn:Hw; [|by intros [= <- <-]].
  destruct (_ || _) eqn:Hb; [intros (w1 & _ & [= <- <-])%res_bind_ok; done|].
  apply orb_false_iff in Hb as [_ He%bool_decide_eq_false].
  case_bool_decide as Hp; cbn [negb]; [|by intros [= <- <-]].
  destruct (riskDone t); [|done]. intros (w1 & Hc & [= <- <-])%res_bind_ok _. cbn [Decision_].
  split; [destruct err; [by destruct He|done]|]. split; [done|].
  exists t. eexists. split; [done|]. split; [done|]. cbn. rewrite lookup_insert_eq. done.
Qed.

Lemma StopSession_other w s w' u s' : StopSession w s = Ok (w', u) → s' ≠ s → turns w' !! s' = turns w !! s'.
Proof.
  unfold StopSession. destruct (turns w !! s) as [t|]; [|by intros [= <- _]].
  intros (w1 & Hw & [= <- _])%res_bind_ok Hne. apply beginStopTurn_turns in Hw as [[-> _]|(t' & -> & _)].
  - by rewrite lookup_delete_ne.
  - by rewrite lookup_insert_ne.
Qed.

(** What the waits of [BeginRiskConfirmation] satisfy. *)
Definition issued (wait : RiskWait) : Prop :=
  w_Refresh wait = S (w_Response wait) ∧ w_Done wait = S (S (w_Response wait)).

Lemma begin_issues w s c a w' wait : BeginRiskConfirmation w s c a = Ok (w', Some wait) → issued wait.
Proof.
  unfold BeginRiskConfirmation. destruct (matching w s a) as [t|]; [|done]. case_bool_decide; [|done].
  by intros [= _ <-].
Qed.

(** The [Done] channel of a pending wait is open. *)
Lemma done_not_ready own w wait ctx timed t : inv own w → issued wait →
  ready w wait ctx timed CaseDone = true → waiting_turn w wait = Some t →
  phase t = PhaseAwaitRiskConfirm → False.
Proof.
  intros Hi [_ Hd] Hready%bool_decide_eq_true (Ht & _ & Hr)%waiting_turn_some Hp.
  destruct (inv_open _ _ _ _ Hi Ht) as [_ [_ Hopen _ Hs _]].
  destruct (proj2 (sh_risk _ Hs) Hp) as [d Hdone]. rewrite (sh_wait _ Hs _ _ Hr Hdone) in Hdone.
  destruct (Hopen _ Hdone) as (_ & Hc & _). by rewrite <- Hd in Hc.
Qed.

(** *** Executions only move towards being finished *)
Definition advances (w w' : world) : Prop :=
  ∀ e x, executions w !! e = Some x →
    ∃ x', executions w' !! e = Some x' ∧ (finished x = true → x' = x).

Lemma advances_refl w w' : executions w' = executions w → advances w w'.
Proof. intros He e x Hx. exists x. by rewrite He. Qed.
Lemma advances_trans w1 w2 w3 : advances w1 w2 → advances w2 w3 → advances w1 w3.
Proof.
  intros H1 H2 e x Hx. destruct (H1 e x Hx) as (x2 & Hx2 & E2). destruct (H2 e x2 Hx2) as (x3 & Hx3 & E3).
  exists x3. split; [done|]. intros Hf. specialize (E2 Hf). subst x2. auto.
Qed.

Lemma close_executions w c w' : close w c = Ok w' → executions w' = executions w.
Proof. unfold close. case_bool_decide; [done|]. by intros [= <-]. Qed.
Lemma finishAttempt_executions w t w' t' : finishAttempt w t = Ok (w', t') →
  executions w' = executions w.
Proof.
  unfold finishAttempt. destruct (attemptDone t); [|by intros [= <- <-]].
  intros (w1 & Hc & [= <- <-])%res_bind_ok. by apply close_executions in Hc.
Qed.
Lemma stopTurn_executions w t w' t' : stopTurn w t = Ok (w', t') → executions w' = executions w.
Proof.
  unfold stopTurn. destruct (riskDone t); [|by intros [= <- <-]].
  intros (w1 & Hc & [= <- <-])%res_bind_ok. by apply close_executions in Hc.
Qed.

Lemma Finish_finishes w e err w' : Finish w e err = Ok w' →
  advances w w' ∧ ∃ x, executions w' !! e = Some x ∧ finished x = true.
Proof.
  unfold Finish. destruct (executions w !! e) as [x|] eqn:Hx; [|done]. destruct (finished x) eqn:Hf.
  - intros [= <-]. split; [by apply advances_refl|]. eauto.
  - intros Hc%close_executions. split.
    + intros e' y Hy. rewrite Hc. cbn. destruct (decide (e = e')) as [<-|].
      * eexists; rewrite lookup_insert_eq; split; [done|]. congruence.
      * exists y. by rewrite lookup_insert_ne.
    + rewrite Hc. cbn. rewrite lookup_insert_eq. eauto.
Qed.

Definition execution_finished (w : world) (t : state) : Prop :=
  ∀ e, execution t = Some e → ∃ x, executions w !! e = Some x ∧ finished x = true.

Lemma execution_finished_mono w w' t : advances w w' → execution_finished w t → execution_finished w' t.
Proof.
  intros Ha Hf e He. destruct (Hf e He) as (x & Hx & Hfin). destruct (Ha e x Hx) as (x' & Hx' & Heq).
  exists x'. split; [done|]. by rewrite (Heq Hfin).
Qed.

Lemma removeTurn_finishes w s t w' : removeTurn w s t false = Ok w' → advances w w' ∧ execution_finished w' t.
Proof.
  unfold removeTurn. intros (w1 & H1 & ([w2 t2] & H2 & ([w3 t3] & H3 & [= <-])%res_bind_ok)%res_bind_ok)%res_bind_ok.
  apply finishAttempt_executions in H2. apply stopTurn_executions in H3.
  assert (advances w w1 ∧ execution_finished w1 t) as [Ha Hf].
  { unfold execution_finished. destruct (execution t) as [e|].
    - apply Finish_finishes in H1 as [Ha Hf]. split; [done|]. by intros e' [= <-].
    - injection H1 as <-. split; [by apply advances_refl|done]. }
  assert (advances w1 (with_turns w3 (delete s (turns w3)))) as Ha' by (apply advances_refl; cbn; congruence).
  split; [by eapply advances_trans|by eapply execution_finished_mono].
Qed.

Lemma beginStopTurn_finishes w s t w' : beginStopTurn w s t = Ok w' →
  advances w w' ∧ (attemptDone t = None → execution_finished w' t).
Proof.
  unfold beginStopTurn. destruct (attemptDone t) eqn:Ha.
  - intros ([w1 t1] & H1 & [= <-])%res_bind_ok. apply stopTurn_executions in H1. split; [|done].
    by apply advances_refl.
  - intros [? ?]%removeTurn_finishes. done.
Qed.

(** What stopping makes of a turn. *)
Definition stopped (w' : world) (s : gostring) (t : state) : Prop :=
  match attemptDone t with
  | Some _ => ∃ t', turns w' !! s = Some t' ∧ phase t' = PhaseStopping ∧ pending t' = []
                    ∧ attempt t' = attempt t ∧ attemptDone t' = attemptDone t
  | None => turns w' !! s = None ∧ execution_finished w' t
  end.

Lemma StopSession_advances w s w' u : StopSession w s = Ok (w', u) → advances w w'.
Proof.
  unfold StopSession. destruct (turns w !! s); [|intros [= <- _]; by apply advances_refl].
  intros (w1 & Hw & [= <- _])%res_bind_ok. by apply beginStopTurn_finishes in Hw as [? _].
Qed.
Lemma StopSession_stopped w s w' u t : StopSession w s = Ok (w', u) → turns w !! s = Some t → stopped w' s t.
Proof.
  unfold StopSession. intros Hw Ht. rewrite Ht in Hw. apply res_bind_ok in Hw as (w1 & Hw & [= <- _]).
  pose proof (beginStopTurn_finishes _ _ _ _ Hw) as [_ Hf]. unfold stopped.
  apply beginStopTurn_turns in Hw as [[E Ha]|(t' & E & [c Ha] & ? & ? & ? & Ha' & _)]; rewrite Ha in *.
  - split; [by rewrite E, lookup_delete_eq|]. auto.
  - exists t'. by rewrite E, lookup_insert_eq.
Qed.

Lemma StopAll_stopped order : ∀ w w' u, NoDup order → StopAll w order = Ok (w', u) →
  advances w w' ∧ ∀ s t, turns w !! s = Some t → if decide (s ∈ order) then stopped w' s t else turns w' !! s = Some t.
Proof.
  induction order as [|s0 order IH]; intros w w' u Hnd; cbn [StopAll].
  { intros [= <- _]. split; [by apply advances_refl|]. intros s t Ht. rewrite decide_False; [done|]. apply not_elem_of_nil. }
  intros ([w1 u1] & H1 & H2)%res_bind_ok. apply NoDup_cons in Hnd as [Hs0 Hnd].
  destruct (IH _ _ _ Hnd H2) as [Ha Hs]. split; [eapply advances_trans; [by eapply StopSession_advances|done]|].
  intros s t Ht. destruct (decide (s = s0)) as [->|Hne].
  - rewrite decide_True by left. pose proof (StopSession_stopped _ _ _ _ _ H1 Ht) as Hst.
    unfold stopped in *. destruct (attemptDone t).
    + destruct Hst as (t' & Ht' & Hrest). specialize (Hs s0 t' Ht'). rewrite decide_False in Hs by done. eauto.
    + destruct Hst as [Hn Hf]. split; [|by eapply execution_finished_mono].
      by apply (proj1 (goes_down_StopAll s0 _ _ _ _ H2)).
  - assert (turns w1 !! s = Some t) as Ht1 by (rewrite <- Ht; by eapply StopSession_other).
    specialize (Hs s t Ht1). destruct (decide (s ∈ order)) as [Hin|Hin].
    + rewrite decide_True by (by right). done.
    + rewrite decide_False; [done|]. by intros [?|?]%elem_of_cons.
Qed.

(** ** Merging queued inputs *)
Lemma merge_segments_ok inputs : ∀ i segments,
  raw_text (merge_segments i inputs segments) =
    raw_text segments ++ numbered_texts i (map (λ input, raw_text (Segments input)) inputs)
  ∧ media (merge_segments i inputs segments) = media segments ++ concat (map (λ input, media (Segments input)) inputs).
Proof.
  induction inputs as [|input inputs IH]; intros i segments; cbn [merge_segments map numbered_texts concat].
  { by rewrite !app_nil_r. }
  destruct (IH (S i) (AppendSegmentText segments (item_label i) ++ Segments input)) as [-> ->].
  destruct (AppendSegmentText_ok segments (item_label i)) as [Ht Hm].
  by rewrite raw_text_app, media_app, Ht, Hm, <- !app_assoc.
Qed.

Definition with_content (inputs : list Input) : list Input := filter (λ input, has_content input = true) inputs.

Lemma mergeInputs_ok inputs : 2 ≤ length (with_content inputs) →
  raw_text (Segments (mergeInputs inputs)) =
    supplement ++ numbered_texts 1 (map (λ input, raw_text (Segments input)) (with_content inputs))
  ∧ media (Segments (mergeInputs inputs)) = concat (map (λ input, media (Segments input)) (with_content inputs))
  ∧ Text (mergeInputs inputs) = trim_space (raw_text (Segments (mergeInputs inputs))).
Proof.
  unfold mergeInputs, with_content. destruct (filter _ inputs) as [|a [|b clean]]; cbn [length]; try lia.
  intros _. cbn [Segments Text].
  destruct (merge_segments_ok (a :: b :: clean) 1 (TextSegments supplement)) as [Ht Hm].
  destruct (TextSegments_ok supplement) as [Hs Hn]. rewrite Ht, Hm, Hs, Hn. split; [done|]. split; [done|].
  unfold SegmentsTextOnly. by rewrite Ht, Hs.
Qed.

(** ** The theorems *)

(** C36: whatever legal calls are made, in any order, no operation of the turn
    manager panics (no channel is closed twice), and the invariant holds: the
    fields of a turn fit its phase, its channels are open and its own, an
    execution is finished exactly when its channel is closed. *)
Theorem lifecycle_invariant os : legal_run NewManager os →
  ∃ own w, run NewManager os = Ok w ∧ inv own w.
Proof.
  intros Hl. destruct (run_keeps os _ _ inv_init Hl) as (own & w & Hr & Hi & _). eauto.
Qed.

(** The completion channel of a running attempt is never lost: after any
    further legal calls either it is closed, or it still belongs to the turn
    of its session (so whoever waits for [AttemptDone] is released when that
    turn ends). *)
Lemma attempt_channel_kept os os' w w' s t c :
  legal_run NewManager os → run NewManager os = Ok w →
  legal_run w os' → run w os' = Ok w' →
  turns w !! s = Some t → attemptDone t = Some c →
  c ∈ closed w' ∨ ∃ t', turns w' !! s = Some t' ∧ attemptDone t' = Some c.
Proof.
  intros Hl Hr Hl' Hr' Ht Hc. destruct (run_inv _ _ Hl Hr) as [own Hi].
  destruct (inv_open _ _ _ _ Hi Ht) as [_ [Ha _ _ _ _]]. destruct (Ha c Hc) as (Hn & _ & Ho).
  destruct (run_keeps os' own w Hi Hl') as (own' & w2 & Hr2 & Hi' & [Hnext Hown]).
  assert (w2 = w') as -> by congruence. rewrite <- Hown in Ho by done.
  destruct (turns w' !! s) as [t'|] eqn:Ht'.
  - destruct (inv_open _ _ _ _ Hi' Ht') as [_ [_ _ _ _ Hlost]]. destruct (Hlost c) as [?|?]; [lia|done|by left|eauto].
  - left. destruct (inv_absent _ _ _ Hi' Ht') as [_ Hlost]. apply Hlost; [lia|done].
Qed.

(** Stopping is final: from any reachable state, a call leaves a stopping
    turn either as it is (same attempt, no queued input, still stopping) or
    removes it; no call starts another attempt, a tool phase, a compaction or
    a confirmation in that session before. *)
Lemma stopping_is_final os w s t o w' :
  legal_run NewManager os → run NewManager os = Ok w →
  turns w !! s = Some t → phase t = PhaseStopping → step w o = Ok w' → still_stopping t w' s.
Proof.
  intros Hl Hr Ht Hp Hs. destruct (run_inv _ _ Hl Hr) as [own Hi].
  assert (pending t = []) as Hn.
  { destruct (inv_open _ _ _ _ Hi Ht) as [_ [_ _ _ Hsh _]]. apply (sh_pending _ Hsh). auto. }
  by apply (stopping_step w s t Ht Hp Hn o).
Qed.

(** [StopAll], in whatever order the map is iterated, stops every turn:
    one with a running attempt is left stopping with that attempt and no
    queued input, any other one is removed and its execution is finished. *)
Lemma StopAll_stops os w order : legal_run NewManager os → run NewManager os = Ok w →
  NoDup order → (∀ s, s ∈ order ↔ is_Some (turns w !! s)) →
  ∃ w', StopAll w order = Ok (w', tt) ∧ ∀ s t, turns w !! s = Some t → stopped w' s t.
Proof.
  intros Hl Hr Hnd Hdom. destruct (run_inv _ _ Hl Hr) as [own Hi].
  destruct (proj1 (keeps_drop _ _ _) (keeps_StopAll order own w Hi)) as (own' & w' & [] & Hs & _).
  exists w'. split; [done|]. intros s t Ht.
  destruct (StopAll_stopped order w w' tt Hnd Hs) as [_ Hst]. specialize (Hst s t Ht).
  rewrite decide_True in Hst; [done|]. apply Hdom. eauto.
Qed.

(** When a wait for a risk decision ends, for whatever reason, its
    confirmation is no longer pending; and it ends as answered only with the
    decision that was delivered to it, while the request is not cancelled.
    ([issued] holds of the waits [BeginRiskConfirmation] returns.) *)
Lemma wait_settles os w wait ctx timed c w' r :
  legal_run NewManager os → run NewManager os = Ok w → issued wait →
  ready w wait ctx timed c = true → wait_round w wait ctx c = Ok (w', Some r) →
  (∀ t, waiting_turn w' wait = Some t → phase t ≠ PhaseAwaitRiskConfirm)
  ∧ (Outcome_ r = RiskAnswered → ctx = None ∧ responses w !! w_Response wait = Some (Decision_ r)).
Proof.
  intros Hl Hr Hw Hready. destruct (run_inv _ _ Hl Hr) as [own Hi].
  unfold wait_round. intros ([w1 [r1|]] & H1 & H2)%res_bind_ok; [|done].
  apply res_bind_ok in H2 as ([w2 b] & H2 & [= <- <-]).
  split; [intros t; by eapply Cancel_settles|]. intros Ho. unfold wait_body in H1. destruct c.
  - destruct (responses w !! w_Response wait) as [d|]; [|done].
    apply res_bind_ok in H1 as ([w3 r3] & H1 & [= <- <-]).
    by destruct (Complete_answered _ _ _ _ _ _ H1 Ho) as (-> & -> & _).
  - apply res_bind_ok in H1 as ([w3 r3] & H1 & [= <- <-]).
    destruct (Complete_answered _ _ _ _ _ _ H1 Ho) as (_ & _ & t & _ & Hwt & Hp & _).
    exfalso. by eapply done_not_ready.
  - done.
  - by injection H1 as _ <-.
  - apply res_bind_ok in H1 as ([w3 rm] & _ & H1). repeat case_match; simplify_eq/=; done.
Qed.

(** Of several decisions for one confirmation the first one counts: once
    a decision is accepted, every other one is refused until the waiter has
    taken it. *)
Lemma first_decision_wins w s d w' d' : ResolveRiskConfirmation w s d = Ok (w', true) →
  ResolveRiskConfirmation w' s d' = Ok (w', false)
  ∧ ∃ t c, turns w' !! s = Some t ∧ riskResponse t = Some c ∧ responses w' !! c = Some d.
Proof.
  unfold ResolveRiskConfirmation. destruct (valid_action (Action d)); cbn [negb]; [|done].
  destruct (turns w !! s) as [t|] eqn:Ht; [|done]. destruct (negb _) eqn:Hp; [done|].
  destruct (riskResponse t) as [c|] eqn:Hc; [|done]. destruct (responses w !! c) eqn:Hr; [done|].
  intros [= <-]. cbn [turns responses with_responses]. rewrite Ht, Hp, Hc, lookup_insert_eq.
  split; [by destruct (valid_action (Action d'))|]. exists t, c. by rewrite lookup_insert_eq.
Qed.

(** Merging two or more queued inputs loses nothing: the text is the
    heading followed by the numbered texts in the order of arrival, and every
    image and file is kept in order. *)
Lemma mergeInputs_complete inputs : 2 ≤ length (with_content inputs) →
  raw_text (Segments (mergeInputs inputs)) =
    supplement ++ numbered_texts 1 (map (λ input, raw_text (Segments input)) (with_content inputs))
  ∧ media (Segments (mergeInputs inputs)) = concat (map (λ input, media (Segments input)) (with_content inputs)).
Proof. intros Hlen. by destruct (mergeInputs_ok inputs Hlen) as (? & ? & _). Qed.

(** ** Concrete runs *)
Definition world_of (m : res world) : world := match m with Ok w => w | _ => NewManager end.
Definition turn_at (w : world) (s : gostring) : state :=
  default (new_turn 0 PhaseIdle None [] no_input None false false) (turns w !! s).
Definition sample_input (text : gostring) : Input :=
  {| NeedsElyphRules := false; Text := text; PlatformText := text; Segments := [] |}.
Definition sample_confirmation : RiskConfirmation :=
  {| ToolName := §"shell"; Arguments_ := []; Risk := §"high"; Detail := [] |}.
Definition accept (extra : gostring) : RiskDecision := {| Action := RiskConfirm; Extra := extra; Reason := [] |}.

(** A run and an attempt in its tool phase, with a queued input. *)
Definition ops_tool : list op :=
  [OpNewExecution §"run1"; OpStartAttempt §"s" (sample_input §"hi") (Some 0) §"a1"; OpStartToolPhase §"s" §"a1";
   OpAppendPendingInput §"s" (sample_input §"more"); OpReserveExecution §"t" (sample_input §"x") (Some 0)].
(** The same, waiting for a decision that has arrived. *)
Definition ops_decided : list op :=
  ops_tool ++ [OpBeginRiskConfirmation §"s" sample_confirmation §"a1"; OpResolveRiskConfirmation §"s" (accept [])].
Definition sample_wait : RiskWait :=
  {| w_session := §"s"; w_turn := 2; w_Response := 5; w_Refresh := 6; w_Done := 7 |}.
(** The session is stopped and its attempt finishes. *)
Definition ops_stop : list op := [OpStopSession §"s"; OpAddToolUse §"s" §"shell" §"a1"; OpFinishAttempt §"s" §"a1"].

Lemma lifecycle_invariant_witness : ∃ own w, run NewManager (ops_decided ++ ops_stop) = Ok w ∧ inv own w.
Proof. apply lifecycle_invariant, legal_runb_sound. vm_compute. reflexivity. Defined.

Lemma attempt_channel_kept_witness :
  3 ∈ closed (world_of (run (world_of (run NewManager ops_tool)) ops_stop))
  ∨ ∃ t', turns (world_of (run (world_of (run NewManager ops_tool)) ops_stop)) !! §"s" = Some t' ∧ attemptDone t' = Some 3.
Proof.
  apply (attempt_channel_kept ops_tool ops_stop (world_of (run NewManager ops_tool)) _ §"s"
           (turn_at (world_of (run NewManager ops_tool)) §"s") 3);
    (apply legal_runb_sound; vm_compute; reflexivity) || (vm_compute; reflexivity).
Defined.

Definition stopping_world : world := world_of (run NewManager (ops_tool ++ [OpStopSession §"s"])).
Definition restart : op := OpStartAttempt §"s" (sample_input §"again") (Some 0) §"a2".
Lemma stopping_is_final_witness :
  still_stopping (turn_at stopping_world §"s") (world_of (step stopping_world restart)) §"s".
Proof.
  apply (stopping_is_final (ops_tool ++ [OpStopSession §"s"]) stopping_world §"s" _ restart);
    (apply legal_runb_sound; vm_compute; reflexivity) || (vm_compute; reflexivity).
Defined.

Lemma StopAll_stops_witness :
  ∃ w', StopAll (world_of (run NewManager ops_tool)) [§"s"; §"t"] = Ok (w', tt)
        ∧ ∀ s t, turns (world_of (run NewManager ops_tool)) !! s = Some t → stopped w' s t.
Proof.
  apply (StopAll_stops ops_tool).
  - apply legal_runb_sound. vm_compute. reflexivity.
  - vm_compute. reflexivity.
  - apply (bool_decide_unpack _). vm_compute. exact I.
  - intros s. change (is_Some (turns (world_of (run NewManager ops_tool)) !! s))
      with (is_Some (turns (world_of (run NewManager ops_tool)) !! s)).
    rewrite <- elem_of_dom.
    replace (dom (turns (world_of (run NewManager ops_tool)))) with ({[§"s"; §"t"]} : gset gostring)
      by (vm_compute; reflexivity).
    rewrite elem_of_union, !elem_of_singleton, !elem_of_cons, elem_of_nil. tauto.
Defined.

Lemma wait_settles_witness :
  let w := world_of (run NewManager ops_decided) in
  ∃ w' r, wait_round w sample_wait None CaseResponse = Ok (w', Some r)
    ∧ (∀ t, waiting_turn w' sample_wait = Some t → phase t ≠ PhaseAwaitRiskConfirm)
    ∧ (Outcome_ r = RiskAnswered → None = (None : option go_error) ∧ responses w !! w_Response sample_wait = Some (Decision_ r)).
Proof.
  intros w. destruct (wait_round w sample_wait None CaseResponse) as [[w' [r|]]|e|] eqn:Hw; vm_compute in Hw; try discriminate Hw.
  exists w', r. split; [reflexivity|].
  apply (wait_settles ops_decided w sample_wait None true CaseResponse); try (vm_compute; reflexivity).
  - apply legal_runb_sound. vm_compute. reflexivity.
  - split; reflexivity.
  - vm_compute. exact Hw.
Defined.

Definition image (id : gostring) : MessageSegment :=
  {| Type_ := SegmentImage; seg_Text := []; URL := []; MediaID := id; MIMEType := []; seg_Name := [] |}.
Definition image_input (id : gostring) : Input :=
  {| NeedsElyphRules := false; Text := []; PlatformText := []; Segments := [image id] |}.

Lemma mergeInputs_complete_witness :
  raw_text (Segments (mergeInputs [image_input §"m1"; sample_input []; image_input §"m2"])) =
    supplement ++ numbered_texts 1 [ []; [] ]
  ∧ media (Segments (mergeInputs [image_input §"m1"; sample_input []; image_input §"m2"])) = [image §"m1"; image §"m2"].
Proof. apply (mergeInputs_complete [image_input §"m1"; sample_input []; image_input §"m2"]). vm_compute. lia. Defined.

(** The numbering goes into the last text segment, so with media-only inputs
    every label stands in front of every image. *)
Lemma merged_labels_precede_images :
  Segments (mergeInputs [image_input §"m1"; image_input §"m2"]) =
    [text_segment (supplement ++ item_label 1 ++ item_label 2); image §"m1"; image §"m2"].
Proof. vm_compute. reflexivity. Qed.
