(* ===== verification/Queue.v ===== *)
(** * The callback queue ([internal/signal/queue.go])

    Jobs wait in lanes, one per key; a lane with work and, for a keyed lane,
    no running job is in the [ready] list, from which at most [concurrency]
    workers take jobs. Each definition is one critical section under [q.mu];
    a lane is named by its key, because the table [lanes] holds the lane of a
    key as long as it has waiting or running jobs. *)
From S2P Require Import Prelude GoStr.
Open Scope Z_scope.

(** [any] keys: [None] is Go's nil. *)
Abbreviation lane_key := (option gostring).
Inductive ShutdownPolicy := CancelPending | Drain.
#[export] Instance ShutdownPolicy_eq_dec : EqDecision ShutdownPolicy.
Proof. solve_decision. Defined.

(** The identity of a job is its submission number. *)
Record job := Job { id : nat; key : lane_key; shutdown : ShutdownPolicy }.
#[export] Instance job_eq_dec : EqDecision job.
Proof. solve_decision. Defined.

(** [lready] says whether the lane is an element of the ready list. *)
Record lane := Lane { jobs : list job; lready : bool; lactive : Z }.

Record queue := Queue {
  ready : list lane_key;
  lanes : gmap lane_key lane;
  active : list job;
  pending : Z;
  workers : Z;
  finishing : Z;
  capacity : Z;
  concurrency : Z;
  closed : bool;
  done_closed : bool;
  waitForCapacity : bool
}.

Record QueueOptions := { o_Capacity : Z; o_Concurrency : Z; o_WaitForCapacity : bool; o_AdmissionTimeout : Z }.
Definition NewQueue (o : QueueOptions) : res queue :=
  if (o_Capacity o <? 0) || (o_Concurrency o <? 0) || (o_AdmissionTimeout o <? 0)
  then Err §"signal: negative queue option"
  else
    Ok {| ready := []; lanes := ∅; active := []; pending := 0; workers := 0; finishing := 0;
          capacity := if o_Capacity o =? 0 then 256 else o_Capacity o;
          concurrency := if o_Concurrency o =? 0 then 1 else o_Concurrency o;
          closed := false; done_closed := false; waitForCapacity := o_WaitForCapacity o |}.

(** ** Field updates *)
Definition set_lanes (q : queue) (r : list lane_key) (ls : gmap lane_key lane) : queue :=
  Queue r ls (active q) (pending q) (workers q) (finishing q) (capacity q) (concurrency q) (closed q)
        (done_closed q) (waitForCapacity q).
Definition set_pending (q : queue) (n : Z) : queue :=
  Queue (ready q) (lanes q) (active q) n (workers q) (finishing q) (capacity q) (concurrency q) (closed q)
        (done_closed q) (waitForCapacity q).
Definition set_active (q : queue) (a : list job) : queue :=
  Queue (ready q) (lanes q) a (pending q) (workers q) (finishing q) (capacity q) (concurrency q) (closed q)
        (done_closed q) (waitForCapacity q).
Definition set_workers (q : queue) (n : Z) : queue :=
  Queue (ready q) (lanes q) (active q) (pending q) n (finishing q) (capacity q) (concurrency q) (closed q)
        (done_closed q) (waitForCapacity q).
Definition set_finishing (q : queue) (n : Z) : queue :=
  Queue (ready q) (lanes q) (active q) (pending q) (workers q) n (capacity q) (concurrency q) (closed q)
        (done_closed q) (waitForCapacity q).
Definition set_closed (q : queue) (c d : bool) : queue :=
  Queue (ready q) (lanes q) (active q) (pending q) (workers q) (finishing q) (capacity q) (concurrency q) c
        d (waitForCapacity q).

(** ** Lanes *)
Definition is_nil {A} (l : list A) : bool := match l with [] => true | _ => false end.
Definition unkeyed (k : lane_key) : bool := match k with None => true | Some _ => false end.

Definition makeReady (q : queue) (k : lane_key) : res queue :=
  match lanes q !! k with
  | None => Panic
  | Some l =>
    let wake := negb (is_nil (jobs l)) && negb (lready l) && (unkeyed k || (lactive l =? 0)) in
    let q := if wake then set_lanes q (ready q ++ [k]) (<[k := Lane (jobs l) true (lactive l)]> (lanes q)) else q in
    Ok (if negb (unkeyed k) && is_nil (jobs l) && (lactive l =? 0)
        then set_lanes q (ready q) (delete k (lanes q)) else q)
  end.

(** The loop of [startWorkers] that counts the runnable jobs, up to [limit]. *)
Fixpoint count_ready (ls : gmap lane_key lane) (limit n : Z) (r : list lane_key) : Z :=
  match r with
  | [] => n
  | k :: r =>
    if n <? limit then
      count_ready ls limit
        (if unkeyed k then n + Z.of_nat (length (default [] (jobs <$> ls !! k))) else n + 1) r
    else n
  end.
Definition startWorkers (q : queue) : queue :=
  if workers q =? concurrency q then q
  else
    let n := count_ready (lanes q) (concurrency q - workers q) (Z.of_nat (length (active q)) - workers q) (ready q) in
    set_workers q (workers q + Z.max 0 (Z.min n (concurrency q - workers q))).

Definition remove_job (j : job) (l : list job) : list job := filter (λ j', j' ≠ j) l.
Definition remove_key (k : lane_key) (l : list lane_key) : list lane_key := filter (λ k', k' ≠ k) l.

Definition removePending (q : queue) (j : job) : res queue :=
  match lanes q !! key j with
  | None => Panic
  | Some l =>
    let js := remove_job j (jobs l) in
    let q := set_pending q (pending q - 1) in
    let q := if is_nil js && lready l
             then set_lanes q (remove_key (key j) (ready q)) (<[key j := Lane js false (lactive l)]> (lanes q))
             else set_lanes q (ready q) (<[key j := Lane js (lready l) (lactive l)]> (lanes q)) in
    makeReady q (key j)
  end.

Definition finishClosed (q : queue) : queue :=
  if closed q && (workers q =? 0) && (pending q =? 0) && (finishing q =? 0) then set_closed q true true else q.

(** ** Submission

    A submission to a full queue that waits for capacity is [Blocked]: it is
    decided again each time it is woken, with [ctxErr] then the state of its
    admission context. [hasRun] says that [task.Run] is not nil; the shutdown
    policy is valid by its type. *)
Inductive admission := Accepted | ErrNilTask | ErrClosed | ErrContext | ErrQueueFull | Blocked.

Definition admit_job (q : queue) (j : job) : res queue :=
  let l := default (Lane [] false 0) (lanes q !! key j) in
  let q := set_lanes q (ready q) (<[key j := Lane (jobs l ++ [j]) (lready l) (lactive l)]> (lanes q)) in
  let q := set_pending q (pending q + 1) in
  let* q := makeReady q (key j) in
  Ok (startWorkers q).
Definition Submit (q : queue) (hasRun ctxErr : bool) (j : job) : res (queue * admission) :=
  if negb hasRun then Ok (q, ErrNilTask)
  else if closed q then Ok (q, ErrClosed)
  else if ctxErr then Ok (q, ErrContext)
  else if pending q =? capacity q then Ok (q, if waitForCapacity q then Blocked else ErrQueueFull)
  else let* q := admit_job q j in Ok (q, Accepted).

(** ** Cancellation of a waiting job: the sections before and after [Finish] *)
Definition is_pending (q : queue) (j : job) : bool :=
  match lanes q !! key j with Some l => bool_decide (j ∈ jobs l) | None => false end.
Definition cancelPending_begin (q : queue) (j : job) : res (queue * bool) :=
  if is_pending q j then
    let* q := removePending q j in Ok (set_finishing q (finishing q + 1), true)
  else Ok (q, false).
Definition cancelPending_end (q : queue) : queue := finishClosed (set_finishing q (finishing q - 1)).

(** ** Workers: the sections of [work] before and after the task

    [work_take] returns the job to run, or retires the worker. *)
Definition work_take (q : queue) : res (queue * option job) :=
  match ready q with
  | [] => Ok (finishClosed (set_workers q (workers q - 1)), None)
  | k :: rest =>
    match lanes q !! k with
    | None => Panic
    | Some l =>
      match jobs l with
      | [] => Panic
      | j :: _ =>
        let q := set_lanes q rest (<[k := Lane (jobs l) false (lactive l + 1)]> (lanes q)) in
        let* q := removePending q j in
        Ok (set_active q (active q ++ [j]), Some j)
      end
    end
  end.
Definition work_done (q : queue) (j : job) : res queue :=
  let q := set_active q (remove_job j (active q)) in
  match lanes q !! key j with
  | None => Panic
  | Some l => makeReady (set_lanes q (ready q) (<[key j := Lane (jobs l) (lready l) (lactive l - 1)]> (lanes q))) (key j)
  end.

(** ** Shutdown

    [stop] visits the lanes in the order [order] of Go's map iteration. *)
Definition cancelled_by (all : bool) (j : job) : bool := all || bool_decide (shutdown j = CancelPending).
Fixpoint remove_jobs (q : queue) (all : bool) (js : list job) : res (queue * list job) :=
  match js with
  | [] => Ok (q, [])
  | j :: js =>
    if cancelled_by all j then
      let* q := removePending q j in
      let* (q, removed) := remove_jobs q all js in Ok (q, j :: removed)
    else remove_jobs q all js
  end.
Fixpoint stop_lanes (q : queue) (all : bool) (order : list lane_key) : res (queue * list job) :=
  match order with
  | [] => Ok (q, [])
  | k :: order =>
    let* (q, r1) := remove_jobs q all (match lanes q !! k with Some l => jobs l | None => [] end) in
    let* (q, r2) := stop_lanes q all order in Ok (q, r1 ++ r2)
  end.
(** The first section; the result also says which running jobs are cancelled
    and whether one of them must be drained. *)
Definition stop_begin (q : queue) (all : bool) (order : list lane_key) : res (queue * list job * list job * bool) :=
  let q := set_closed q true (done_closed q) in
  let* (q, removed) := stop_lanes q all order in
  let q := finishClosed (set_finishing q (finishing q + Z.of_nat (length removed))) in
  Ok (q, removed, filter (λ j, cancelled_by all j = true) (active q),
      existsb (λ j, bool_decide (shutdown j = Drain)) (active q)).
Definition stop_end (q : queue) (n : Z) : queue := finishClosed (set_finishing q (finishing q - n)).
