(* ===== verification/QueueProps.v ===== *)
(** * Invariants of the callback queue

    [core] relates the ready list, the lanes and the running jobs; [makeReady]
    restores it for one lane. The waiting jobs are [pend]. *)
From S2P Require Import Prelude GoStr Queue.
Open Scope Z_scope.

#[global] Arguments remove_key : simpl never.
#[global] Arguments remove_job : simpl never.

(** ** The waiting jobs *)
Definition pend (ls : gmap lane_key lane) : list job := map_to_list ls ≫= λ p, jobs p.2.

Lemma pend_lookup ls k l : ls !! k = Some l → pend ls ≡ₚ jobs l ++ pend (delete k ls).
Proof. intros Hl. unfold pend. by rewrite <- (map_to_list_delete _ _ _ Hl). Qed.

Lemma pend_insert ls k l : pend (<[k := l]> ls) ≡ₚ jobs l ++ pend (delete k ls).
Proof.
  rewrite (pend_lookup _ k l) by apply lookup_insert_eq. by rewrite delete_insert_eq.
Qed.

Lemma pend_delete_empty ls k l : ls !! k = Some l → jobs l = [] → pend (delete k ls) ≡ₚ pend ls.
Proof. intros Hl Hj. by rewrite (pend_lookup ls k l Hl), Hj. Qed.

Lemma pend_same ls k l l' : ls !! k = Some l → jobs l' = jobs l → pend (<[k := l']> ls) ≡ₚ pend ls.
Proof. intros Hl Hj. by rewrite pend_insert, (pend_lookup ls k l Hl), Hj. Qed.

Lemma elem_of_pend ls j : j ∈ pend ls ↔ ∃ k l, ls !! k = Some l ∧ j ∈ jobs l.
Proof.
  unfold pend. rewrite list_elem_of_bind. split.
  - intros ([k l] & Hj & Hl%elem_of_map_to_list). eauto.
  - intros (k & l & Hl%elem_of_map_to_list & Hj). by exists (k, l).
Qed.

(** ** The scheduling invariant *)
Definition count (act : list job) (k : lane_key) : Z := Z.of_nat (length (filter (λ j, key j = k) act)).
Definition earlier (a b : job) : Prop := (id a < id b)%nat.
Definition runnable (k : lane_key) (l : lane) : Prop := jobs l ≠ [] ∧ (k = None ∨ lactive l = 0).

Record lane_pre (r : list lane_key) (act : list job) (k : lane_key) (l : lane) : Prop := {
  lp_key : Forall (λ j, key j = k) (jobs l);
  lp_order : StronglySorted earlier (jobs l);
  lp_flag : lready l = true ↔ k ∈ r;
  lp_ready : k ∈ r → runnable k l;
  lp_active : lactive l = count act k;
  lp_single : k ≠ None → lactive l ≤ 1
}.
(** No lane with work is forgotten. *)
Definition lane_ok r act k l : Prop := lane_pre r act k l ∧ (runnable k l → k ∈ r).

Record core_except (r : list lane_key) (ls : gmap lane_key lane) (act : list job) (x : lane_key → Prop) : Prop := {
  co_lanes : ∀ k l, ¬ x k → ls !! k = Some l → lane_ok r act k l;
  co_pre : ∀ k l, ls !! k = Some l → lane_pre r act k l;
  co_nodup : NoDup r;
  co_ready : ∀ k, k ∈ r → is_Some (ls !! k);
  co_active : ∀ j, j ∈ act → is_Some (ls !! key j)
}.
Definition core r ls act : Prop := core_except r ls act (λ _, False).

Lemma core_weaken r ls act x : core r ls act → core_except r ls act x.
Proof. intros [H1 H2 H3 H4 H5]. split; auto. Qed.

(** The jobs that could run now, in the ready lanes. *)
Definition weight (ls : gmap lane_key lane) (k : lane_key) : Z :=
  if unkeyed k then Z.of_nat (length (default [] (jobs <$> ls !! k))) else 1.
Fixpoint ready_work (ls : gmap lane_key lane) (r : list lane_key) : Z :=
  match r with
  | [] => 0
  | k :: r => weight ls k + ready_work ls r
  end.

Lemma weight_nonneg ls k : 0 ≤ weight ls k.
Proof. unfold weight. destruct (unkeyed k); lia. Qed.
Lemma ready_work_nonneg ls r : 0 ≤ ready_work ls r.
Proof. induction r as [|k r IH]; cbn [ready_work]; [lia|]. pose proof (weight_nonneg ls k). lia. Qed.
Lemma ready_work_app ls r1 r2 : ready_work ls (r1 ++ r2) = ready_work ls r1 + ready_work ls r2.
Proof. induction r1 as [|k r1 IH]; cbn [app ready_work]; [lia|]. lia. Qed.
Lemma ready_work_same ls ls' r : (∀ k, k ∈ r → weight ls k = weight ls' k) → ready_work ls r = ready_work ls' r.
Proof.
  induction r as [|k r IH]; intros H; cbn [ready_work]; [done|].
  rewrite (H k) by left. f_equal. apply IH. intros k' Hk. apply H. by right.
Qed.
Lemma weight_insert_ne ls k l k' : k ≠ k' → weight (<[k := l]> ls) k' = weight ls k'.
Proof. intros Hne. unfold weight. by rewrite lookup_insert_ne. Qed.
Lemma weight_insert_eq ls k l : weight (<[k := l]> ls) k = if unkeyed k then Z.of_nat (length (jobs l)) else 1.
Proof. unfold weight. by rewrite lookup_insert_eq. Qed.
Lemma weight_lookup ls k l : ls !! k = Some l → weight ls k = if unkeyed k then Z.of_nat (length (jobs l)) else 1.
Proof. intros Hl. unfold weight. by rewrite Hl. Qed.
Lemma weight_delete_ne ls k k' : k ≠ k' → weight (delete k ls) k' = weight ls k'.
Proof. intros Hne. unfold weight. by rewrite lookup_delete_ne. Qed.

Lemma is_nil_true {A} (l : list A) : is_nil l = true ↔ l = [].
Proof. by destruct l. Qed.
Lemma unkeyed_true k : unkeyed k = true ↔ k = None.
Proof. by destruct k. Qed.
Lemma is_nil_false {A} (l : list A) : is_nil l = false ↔ l ≠ [].
Proof. by destruct l. Qed.

(** The fields that scheduling does not touch. *)
Definition same_fields (q q' : queue) : Prop :=
  active q' = active q ∧ workers q' = workers q ∧ finishing q' = finishing q ∧ capacity q' = capacity q
  ∧ concurrency q' = concurrency q ∧ closed q' = closed q ∧ done_closed q' = done_closed q
  ∧ waitForCapacity q' = waitForCapacity q.

Lemma runnable_wake k l : negb (is_nil (jobs l)) && (unkeyed k || (lactive l =? 0)) = true ↔ runnable k l.
Proof.
  unfold runnable. rewrite andb_true_iff, negb_true_iff, orb_true_iff, Z.eqb_eq, unkeyed_true, is_nil_false. done.
Qed.

(** A change of lane [k] alone. *)
Lemma core_insert r r' ls act act' k l' (x : lane_key → Prop) :
  core_except r ls act (eq k) → NoDup r' → lane_pre r' act' k l' → (¬ x k → runnable k l' → k ∈ r') →
  (∀ k', k' ≠ k → k' ∈ r' ↔ k' ∈ r) → (∀ k', k' ≠ k → count act' k' = count act k') →
  (∀ j, j ∈ act' → j ∈ act ∨ key j = k) →
  core_except r' (<[k := l']> ls) act' x.
Proof.
  intros [H1 H2 H3 H4 H5] Hnd Hpre Hrun Hr Ha Hact.
  assert (∀ k' l, k' ≠ k → lane_pre r act k' l → lane_pre r' act' k' l) as Hmove.
  { intros k' l Hne [P1 P2 P3 P4 P5 P6]. split; rewrite ?Hr, ?Ha by done; done. }
  split.
  - intros k' l Hx [[<- <-]|[Hne Hl]]%lookup_insert_Some; [split; [done|auto]|].
    destruct (H1 k' l Hne Hl) as [P Q]. split; [by apply Hmove|]. rewrite Hr by done. exact Q.
  - intros k' l [[<- <-]|[Hne Hl]]%lookup_insert_Some; [done|]. apply Hmove; [done|]. by apply H2.
  - done.
  - intros k' Hk. destruct (decide (k = k')) as [<-|Hne]; [by rewrite lookup_insert_eq|].
    rewrite lookup_insert_ne by done. apply H4, Hr; done.
  - intros j Hj. destruct (decide (k = key j)) as [->|Hne]; [by rewrite lookup_insert_eq|].
    rewrite lookup_insert_ne by done. destruct (Hact j Hj) as [?|?]; [by apply H5|congruence].
Qed.

Lemma count_zero act k : count act k = 0 → ∀ j, j ∈ act → key j ≠ k.
Proof.
  unfold count. intros Hc j Hj Hk.
  assert (j ∈ filter (λ j, key j = k) act) as Hin by (apply list_elem_of_filter; done).
  destruct (filter _ act); [by apply elem_of_nil in Hin|]. cbn in Hc. lia.
Qed.

Lemma core_delete r ls act k l : core_except r ls act (eq k) → ls !! k = Some l → jobs l = [] → lactive l = 0 →
  core r (delete k ls) act.
Proof.
  intros [H1 H2 H3 H4 H5] Hl Hj Ha.
  assert (¬ (k ∈ r)) as Hk by (intros Hk; by destruct (lp_ready _ _ _ _ (H2 k l Hl) Hk)).
  assert (∀ j, j ∈ act → key j ≠ k) as Hact.
  { apply count_zero. by rewrite <- (lp_active _ _ _ _ (H2 k l Hl)). }
  split.
  - intros k' l' _ [Hne Hl']%lookup_delete_Some. by apply H1.
  - intros k' l' [Hne Hl']%lookup_delete_Some. by apply H2.
  - done.
  - intros k' Hk'. rewrite lookup_delete_ne by (by intros ->). by apply H4.
  - intros j Hj'. rewrite lookup_delete_ne by (intros Hk'; by apply (Hact j)). by apply H5.
Qed.

(** [makeReady] restores [core] for its lane. *)
Lemma makeReady_ok q k act l : core_except (ready q) (lanes q) act (eq k) → lanes q !! k = Some l →
  ∃ q', makeReady q k = Ok q' ∧ core (ready q') (lanes q') act ∧ same_fields q q' ∧ pending q' = pending q
    ∧ pend (lanes q') ≡ₚ pend (lanes q)
    ∧ ready_work (lanes q') (ready q') =
      ready_work (lanes q) (ready q) + (if decide (runnable k l ∧ ¬ (k ∈ ready q)) then weight (lanes q) k else 0).
Proof.
  intros Hc Hl. unfold makeReady. rewrite Hl. pose proof (co_pre _ _ _ _ Hc k l Hl) as Hpre.
  pose proof (lp_flag _ _ _ _ Hpre) as Hflag.
  destruct (negb (is_nil (jobs l)) && negb (lready l) && (unkeyed k || (lactive l =? 0))) eqn:Hwake.
  - assert (runnable k l ∧ ¬ (k ∈ ready q)) as [Hrun Hnot].
    { rewrite !andb_true_iff in Hwake. destruct Hwake as [[Hj Hf] Ho]. split.
      - apply runnable_wake. by rewrite Hj, Ho.
      - intros Hin%Hflag. by rewrite Hin in Hf. }
    assert (negb (unkeyed k) && is_nil (jobs l) && (lactive l =? 0) = false) as ->.
    { destruct Hrun as [Hj _]. apply is_nil_false in Hj. by rewrite Hj, andb_false_r. }
    eexists; split; [done|]. cbn [ready lanes set_lanes pending].
    rewrite decide_True by done. split_and!; try done.
    + apply (core_insert (ready q) _ (lanes q) act); try done.
      * apply NoDup_snoc; [apply (co_nodup _ _ _ _ Hc)|done].
      * destruct Hpre as [P1 P2 P3 P4 P5 P6]. split; cbn; try done.
        split; [|done]. intros _. apply elem_of_app. right. by left.
      * intros _ _. apply elem_of_app. right. by left.
      * intros k' Hne. rewrite elem_of_app, list_elem_of_singleton. tauto.
      * by left.
    + by apply (pend_same _ _ l).
    + rewrite ready_work_app. cbn [ready_work]. rewrite weight_insert_eq.
      assert (weight (lanes q) k = if unkeyed k then Z.of_nat (length (jobs l)) else 1) as -> by (unfold weight; by rewrite Hl).
      cbn [jobs]. rewrite Z.add_0_r. f_equal. apply ready_work_same. intros k' Hk'. apply weight_insert_ne.
      intros ->. done.
  - assert (runnable k l → k ∈ ready q) as Hrun.
    { intros Hrun%runnable_wake. apply Hflag. rewrite andb_true_iff in Hrun. destruct Hrun as [Hj Ho].
      rewrite Hj, Ho in Hwake. by destruct (lready l). }
    rewrite decide_False by tauto.
    destruct (negb (unkeyed k) && is_nil (jobs l) && (lactive l =? 0)) eqn:Hdel.
    + rewrite !andb_true_iff, is_nil_true, Z.eqb_eq in Hdel. destruct Hdel as [[Hk Hj] Ha].
      eexists; split; [done|]. cbn [ready lanes set_lanes pending]. split_and!; try done.
      * by eapply core_delete.
      * by eapply pend_delete_empty.
      * rewrite Z.add_0_r. apply ready_work_same. intros k' Hk'. apply weight_delete_ne. intros ->.
        by destruct (lp_ready _ _ _ _ Hpre Hk').
    + eexists; split; [done|]. split_and!; try done; [|lia].
      destruct Hc as [H1 H2 H3 H4 H5]. split; try done. intros k' l' _ Hl'.
      destruct (decide (k = k')) as [<-|Hne]; [|by apply H1]. assert (l' = l) as -> by congruence. by split.
Qed.

Lemma earlier_nodup l : StronglySorted earlier l → NoDup l.
Proof.
  induction 1 as [|j l Hl IH Hj]; [constructor|]. constructor; [|done]. intros Hin.
  rewrite Forall_forall in Hj. specialize (Hj j Hin). unfold earlier in Hj. lia.
Qed.

Lemma remove_job_perm j l : NoDup l → j ∈ l → l ≡ₚ j :: remove_job j l.
Proof.
  unfold remove_job. induction 1 as [|a l Ha Hnd IH]; [by intros ?%elem_of_nil|].
  intros [->|Hin]%elem_of_cons.
  - rewrite filter_cons_False by tauto. rewrite filter_all; [done|].
    apply Forall_forall. by intros x Hx ->.
  - rewrite filter_cons_True by (intros ->; done). rewrite IH at 1 by done. constructor.
Qed.
Lemma remove_job_length j l : (length (remove_job j l) ≤ length l)%nat.
Proof. apply length_filter. Qed.
Lemma elem_of_remove_job j l x : x ∈ remove_job j l ↔ x ∈ l ∧ x ≠ j.
Proof. unfold remove_job. rewrite list_elem_of_filter. tauto. Qed.

Lemma strongly_filter' {A} (R : relation A) (P : A → Prop) `{∀ x, Decision (P x)} l :
  StronglySorted R l → StronglySorted R (filter P l).
Proof.
  induction 1 as [|x l Hl IH Hx]; [constructor|].
  destruct (decide (P x)).
  - rewrite filter_cons_True by done. constructor; [done|].
    rewrite Forall_forall in *. intros y [_ ?]%list_elem_of_filter. auto.
  - by rewrite filter_cons_False.
Qed.

Lemma ready_work_remove ls k r : ready_work ls (remove_key k r) ≤ ready_work ls r.
Proof.
  unfold remove_key. induction r as [|a r IH]; [done|]. cbn [ready_work]. pose proof (weight_nonneg ls a).
  destruct (decide (a = k)); [rewrite filter_cons_False by tauto; lia|].
  rewrite filter_cons_True by done. cbn [ready_work]. lia.
Qed.
Lemma elem_of_remove_key k r x : x ∈ remove_key k r ↔ x ∈ r ∧ x ≠ k.
Proof. unfold remove_key. rewrite list_elem_of_filter. tauto. Qed.

Lemma ready_work_mono ls ls' r : (∀ k, weight ls' k ≤ weight ls k) → ready_work ls' r ≤ ready_work ls r.
Proof. intros H. induction r as [|k r IH]; cbn [ready_work]; [lia|]. specialize (H k). lia. Qed.

(** The lane without [j]. *)
Lemma lane_remove r act k l j flag : lane_pre r act k l → lready l = flag →
  (k ∈ r → remove_job j (jobs l) ≠ []) → lane_pre r act k (Lane (remove_job j (jobs l)) flag (lactive l)).
Proof.
  intros [P1 P2 P3 P4 P5 P6] <- Hne. split; cbn; try done.
  - rewrite Forall_forall in P1 |- *. intros x [? _]%elem_of_remove_job. auto.
  - by apply strongly_filter'.
  - intros Hk. destruct (P4 Hk) as [_ ?]. split; [by apply Hne|done].
Qed.

Lemma removePending_ok q j l act : core_except (ready q) (lanes q) act (eq (key j)) →
  lanes q !! key j = Some l → j ∈ jobs l →
  ∃ q', removePending q j = Ok q' ∧ core (ready q') (lanes q') act ∧ same_fields q q' ∧ pending q' = pending q - 1
    ∧ pend (lanes q) ≡ₚ j :: pend (lanes q')
    ∧ (key j ∈ ready q → ready_work (lanes q') (ready q') ≤ ready_work (lanes q) (ready q))
    ∧ (¬ (key j ∈ ready q) → ready_work (lanes q') (ready q') = ready_work (lanes q) (ready q) +
         (if decide (runnable (key j) (Lane (remove_job j (jobs l)) false (lactive l)))
          then if unkeyed (key j) then Z.of_nat (length (jobs l)) - 1 else 1 else 0)).
Proof.
  intros Hc Hl Hj. set (k := key j) in *. unfold removePending. fold k. rewrite Hl.
  set (js := remove_job j (jobs l)).
  pose proof (co_pre _ _ _ _ Hc k l Hl) as Hpre. pose proof (lp_flag _ _ _ _ Hpre) as Hflag.
  pose proof (remove_job_perm j (jobs l) (earlier_nodup _ (lp_order _ _ _ _ Hpre)) Hj) as Hperm. fold js in Hperm.
  assert (Z.of_nat (length (jobs l)) = Z.of_nat (length js) + 1) as Hlen by (rewrite Hperm; cbn [length]; lia).
  assert (∀ f a, pend (lanes q) ≡ₚ j :: pend (<[k := Lane js f a]> (lanes q))) as Hpend.
  { intros f a. rewrite pend_insert, (pend_lookup _ k l Hl), Hperm. done. }
  destruct (is_nil js && lready l) eqn:Hb.
  - (* the lane leaves the ready list *)
    rewrite andb_true_iff, is_nil_true in Hb. destruct Hb as [Hjs Hr].
    assert (k ∈ ready q) as Hk by (by apply Hflag).
    set (q1 := set_lanes _ _ _).
    assert (core_except (ready q1) (lanes q1) act (eq k)) as Hc1.
    { apply (core_insert (ready q) _ (lanes q) act act k _ (eq k)); cbn; try done.
      - apply NoDup_filter, (co_nodup _ _ _ _ Hc).
      - destruct Hpre as [P1 P2 P3 P4 P5 P6]. assert (¬ (k ∈ remove_key k (ready q))) as Hout
          by (rewrite elem_of_remove_key; tauto).
        split; cbn [jobs lready lactive]; [by rewrite Hjs|rewrite Hjs; constructor|split; done|done|done|done].
      - intros k' Hne. rewrite elem_of_remove_key. tauto.
      - by left. }
    destruct (makeReady_ok q1 k act (Lane js false (lactive l)) Hc1) as (q' & -> & Hc' & Hs & Hp & Hpd & Hw).
    { cbn. apply lookup_insert_eq. }
    exists q'. split_and!; try done.
    + rewrite Hpd. apply Hpend.
    + intros _. rewrite Hw, decide_False by (intros [[Hjs' _] _]; cbn in Hjs'; done).
      cbn [q1 ready lanes set_lanes]. rewrite Z.add_0_r.
      rewrite (ready_work_same _ (lanes q)); [apply ready_work_remove|].
      intros k' [_ Hne]%elem_of_remove_key. by apply weight_insert_ne.
  - set (q1 := set_lanes _ _ _).
    assert (k ∈ ready q → js ≠ []) as Hne.
    { intros Hk%Hflag. rewrite Hk, andb_true_r in Hb. by apply is_nil_false. }
    assert (core_except (ready q1) (lanes q1) act (eq k)) as Hc1.
    { apply (core_insert (ready q) _ (lanes q) act act k _ (eq k)); cbn; try done.
      - apply (co_nodup _ _ _ _ Hc).
      - by apply lane_remove.
      - by left. }
    destruct (makeReady_ok q1 k act (Lane js (lready l) (lactive l)) Hc1) as (q' & -> & Hc' & Hs & Hp & Hpd & Hw).
    { cbn. apply lookup_insert_eq. }
    assert (∀ k', weight (lanes q1) k' ≤ weight (lanes q) k') as Hmono.
    { intros k'. cbn. destruct (decide (k = k')) as [<-|?]; [|by rewrite weight_insert_ne].
      rewrite weight_insert_eq, (weight_lookup _ _ _ Hl). cbn [jobs]. destruct (unkeyed k); lia. }
    exists q'. split_and!; try done.
    + rewrite Hpd. apply Hpend.
    + intros Hk. rewrite Hw, decide_False by (cbn; tauto). rewrite Z.add_0_r. by apply ready_work_mono.
    + intros Hk. rewrite Hw.
      assert (ready_work (lanes q1) (ready q1) = ready_work (lanes q) (ready q)) as ->.
      { apply ready_work_same. intros k' Hk'. apply weight_insert_ne. by intros ->. }
      f_equal. destruct (decide (runnable k (Lane js false (lactive l)))) as [Hr|Hr].
      * rewrite decide_True by (split; [exact Hr|exact Hk]). cbn [q1 lanes set_lanes]. rewrite weight_insert_eq.
        cbn [jobs]. destruct (unkeyed k); lia.
      * rewrite decide_False; [done|]. by intros [? _].
Qed.

(** ** Removal of waiting jobs *)
Lemma pend_lane r ls act x j : core_except r ls act x → j ∈ pend ls ↔ ∃ l, ls !! key j = Some l ∧ j ∈ jobs l.
Proof.
  intros Hc. rewrite elem_of_pend. split; [|eauto]. intros (k & l & Hl & Hj). exists l. split; [|done].
  pose proof (lp_key _ _ _ _ (co_pre _ _ _ _ Hc k l Hl)) as Hk. rewrite Forall_forall in Hk. by rewrite (Hk j Hj).
Qed.

Lemma is_pending_true q act j : core (ready q) (lanes q) act → is_pending q j = true ↔ j ∈ pend (lanes q).
Proof.
  intros Hc. rewrite (pend_lane _ _ _ _ _ Hc). unfold is_pending. destruct (lanes q !! key j) as [l|].
  - rewrite bool_decide_eq_true. split; [eauto|]. by intros (l' & [= <-] & ?).
  - split; [done|]. by intros (l' & ? & _).
Qed.

(** [q'] is [q] without the waiting jobs [removed]. *)
Record removal (act : list job) (q q' : queue) (removed : list job) : Prop := {
  rm_core : core (ready q') (lanes q') act;
  rm_fields : same_fields q q';
  rm_pending : pending q' = pending q - Z.of_nat (length removed);
  rm_pend : pend (lanes q) ≡ₚ removed ++ pend (lanes q');
  rm_work : ready_work (lanes q') (ready q') ≤ ready_work (lanes q) (ready q)
}.

Lemma same_fields_refl q : same_fields q q.
Proof. done. Qed.
Lemma same_fields_trans q1 q2 q3 : same_fields q1 q2 → same_fields q2 q3 → same_fields q1 q3.
Proof. unfold same_fields. intros (?&?&?&?&?&?&?&?) (?&?&?&?&?&?&?&?). split_and!; congruence. Qed.

Lemma removal_nil act q : core (ready q) (lanes q) act → removal act q q [].
Proof. intros Hc. split; try done; cbn; lia. Qed.
Lemma removal_trans act q1 q2 q3 r1 r2 : removal act q1 q2 r1 → removal act q2 q3 r2 → removal act q1 q3 (r1 ++ r2).
Proof.
  intros [C1 F1 N1 P1 W1] [C2 F2 N2 P2 W2]. split; [done| | | |lia].
  - by eapply same_fields_trans.
  - rewrite length_app. lia.
  - by rewrite P1, P2, app_assoc.
Qed.

(** A job that waits in a lane: either the lane is ready or removing the job
    does not make it so. *)
Lemma remove_waiting q j act : core (ready q) (lanes q) act → j ∈ pend (lanes q) →
  ∃ q', removePending q j = Ok q' ∧ removal act q q' [j].
Proof.
  intros Hc Hj. apply (pend_lane _ _ _ _ _ Hc) in Hj as Hj'. destruct Hj' as (l & Hl & Hjl).
  destruct (removePending_ok q j l act) as (q' & Hq' & Hc' & Hs & Hp & Hpd & W1 & W2); [by apply core_weaken|done|done|].
  exists q'. split; [done|]. split; try done.
  destruct (decide (key j ∈ ready q)) as [Hk|Hk]; [auto|].
  rewrite (W2 Hk). rewrite decide_False; [lia|]. intros [_ Hrun]. cbn [lactive] in Hrun.
  destruct (co_lanes _ _ _ _ Hc (key j) l) as [_ Hready]; [intros []|done|]. apply Hk, Hready. split; [|done].
  intros Hn. rewrite Hn in Hjl. by apply elem_of_nil in Hjl.
Qed.

Lemma remove_jobs_ok act all js : ∀ q, core (ready q) (lanes q) act → NoDup js → (∀ j, j ∈ js → j ∈ pend (lanes q)) →
  ∃ q', remove_jobs q all js = Ok (q', filter (λ j, cancelled_by all j = true) js)
    ∧ removal act q q' (filter (λ j, cancelled_by all j = true) js).
Proof.
  induction js as [|j js IH]; intros q Hc Hnd Hin; cbn [remove_jobs].
  { exists q. split; [done|]. by apply removal_nil. }
  apply NoDup_cons in Hnd as [Hj Hnd]. destruct (cancelled_by all j) eqn:Hca.
  - destruct (remove_waiting q j act Hc) as (q1 & -> & H1); [apply Hin; by left|]. cbn [res_bind].
    destruct (IH q1) as (q2 & -> & H2); [apply H1|done| |].
    { intros j' Hj'. assert (j' ∈ pend (lanes q)) as Hp by (apply Hin; by right).
      rewrite (rm_pend _ _ _ _ H1) in Hp. apply elem_of_cons in Hp as [->|]; done. }
    cbn [res_bind]. rewrite filter_cons_True by done. exists q2. split; [done|].
    by apply (removal_trans _ _ q1 _ [j]).
  - rewrite filter_cons_False by congruence. apply IH; [done|done|]. intros j' Hj'. apply Hin. by right.
Qed.

Lemma stop_lanes_ok act all order : ∀ q, core (ready q) (lanes q) act → NoDup (pend (lanes q)) →
  ∃ q' removed, stop_lanes q all order = Ok (q', removed) ∧ removal act q q' removed
    ∧ (∀ j, j ∈ pend (lanes q') → key j ∈ order → cancelled_by all j = false)
    ∧ (∀ j, j ∈ removed → cancelled_by all j = true).
Proof.
  induction order as [|k order IH]; intros q Hc Hpn; cbn [stop_lanes].
  { exists q, []. split; [done|]. split; [by apply removal_nil|]. split; [by intros j _ ?%elem_of_nil|by intros j ?%elem_of_nil]. }
  set (js := match lanes q !! k with Some l => jobs l | None => [] end).
  assert (NoDup js ∧ (∀ j, j ∈ js → j ∈ pend (lanes q)) ∧ (∀ j, j ∈ pend (lanes q) → key j = k → j ∈ js)) as (Hnd & Hin & Hall).
  { subst js. destruct (lanes q !! k) as [l|] eqn:Hl.
    - pose proof (co_pre _ _ _ _ Hc k l Hl) as Hp. split_and!.
      + apply earlier_nodup, (lp_order _ _ _ _ Hp).
      + intros j Hj. apply elem_of_pend. eauto.
      + intros j (l' & Hl' & Hj)%(pend_lane _ _ _ _ _ Hc) <-. congruence.
    - split_and!; [constructor|by intros j ?%elem_of_nil|].
      intros j (l' & Hl' & _)%(pend_lane _ _ _ _ _ Hc) <-. congruence. }
  destruct (remove_jobs_ok act all js q Hc Hnd Hin) as (q1 & -> & H1). cbn [res_bind].
  pose proof Hpn as Hpn'. rewrite (rm_pend _ _ _ _ H1) in Hpn'. apply NoDup_app in Hpn' as (_ & Hdisj & Hpn1).
  destruct (IH q1) as (q2 & r2 & -> & H2 & Hleft & Hrem); [apply H1|done|]. cbn [res_bind].
  set (r1 := filter _ js) in *. exists q2, (r1 ++ r2). split; [done|]. split; [by eapply removal_trans|].
  assert (∀ j, j ∈ pend (lanes q2) → j ∈ pend (lanes q1)) as Hsub.
  { intros j Hj. rewrite (rm_pend _ _ _ _ H2). apply elem_of_app. by right. }
  split.
  - intros j Hj [Hk|Ho]%elem_of_cons; [|by apply Hleft]. apply not_true_iff_false. intros Hca.
    assert (j ∈ pend (lanes q1)) as Hj1 by auto.
    assert (j ∈ js) as Hjs.
    { apply Hall; [|done]. rewrite (rm_pend _ _ _ _ H1). apply elem_of_app. by right. }
    apply (Hdisj j); [|done]. subst r1. by apply list_elem_of_filter.
  - intros j [Hj|Hj]%elem_of_app; [|auto]. by apply list_elem_of_filter in Hj as [? _].
Qed.

(** ** Taking, finishing and admitting a job *)
Lemma count_snoc act j k : count (act ++ [j]) k = count act k + (if decide (key j = k) then 1 else 0).
Proof.
  unfold count. rewrite filter_app, length_app. destruct (decide (key j = k)).
  - rewrite (filter_cons_True _ j) by done. cbn. lia.
  - rewrite (filter_cons_False _ j) by done. cbn. lia.
Qed.

Lemma count_remove act j k : NoDup act → j ∈ act →
  count (remove_job j act) k = count act k - (if decide (key j = k) then 1 else 0).
Proof.
  intros Hnd Hj. unfold count. pose proof (remove_job_perm j act Hnd Hj) as Hp.
  assert (filter (λ j, key j = k) act ≡ₚ filter (λ j, key j = k) (j :: remove_job j act)) as -> by (by rewrite <- Hp).
  destruct (decide (key j = k)).
  - rewrite filter_cons_True by done. cbn [length]. lia.
  - rewrite filter_cons_False by done. lia.
Qed.

Lemma take_ok q k rest : core (ready q) (lanes q) (active q) → NoDup (pend (lanes q)) → ready q = k :: rest →
  ∃ q' j, work_take q = Ok (q', Some j) ∧ core (ready q') (lanes q') (active q')
    ∧ active q' = active q ++ [j] ∧ key j = k ∧ pend (lanes q) ≡ₚ j :: pend (lanes q')
    ∧ pending q' = pending q - 1 ∧ workers q' = workers q ∧ finishing q' = finishing q
    ∧ capacity q' = capacity q ∧ concurrency q' = concurrency q ∧ closed q' = closed q
    ∧ done_closed q' = done_closed q
    ∧ ready_work (lanes q') (ready q') = ready_work (lanes q) (ready q) - 1
    ∧ (∀ j', j' ∈ pend (lanes q') → key j' = k → earlier j j').
Proof.
  intros Hc Hpn Hr. unfold work_take. rewrite Hr.
  assert (k ∈ ready q) as Hk by (rewrite Hr; by left).
  destruct (co_ready _ _ _ _ Hc k Hk) as [l Hl]. rewrite Hl.
  pose proof (co_pre _ _ _ _ Hc k l Hl) as Hpre. pose proof (lp_ready _ _ _ _ Hpre Hk) as [Hne Hrun].
  pose proof (lp_order _ _ _ _ Hpre) as Hord. pose proof (lp_key _ _ _ _ Hpre) as Hkeys.
  destruct (jobs l) as [|j js] eqn:Hjobs; [done|].
  assert (key j = k) as Hkj by (by inversion Hkeys).
  pose proof (co_nodup _ _ _ _ Hc) as Hnd. rewrite Hr in Hnd. apply NoDup_cons in Hnd as [Hkr Hnd].
  set (q1 := set_lanes q rest _).
  assert (core_except (ready q1) (lanes q1) (active q ++ [j]) (eq (key j))) as Hc1.
  { rewrite Hkj. apply (core_insert (ready q) _ (lanes q) (active q) _ k _ (eq k)); cbn.
    - by apply core_weaken.
    - done.
    - destruct Hpre as [P1 P2 P3 P4 P5 P6]. split; cbn [jobs lready lactive]; try done.
      + by rewrite count_snoc, decide_True, P5.
      + intros Hkn. destruct Hrun as [?|Ha]; [done|lia].
    - intros Hn. by destruct Hn.
    - intros k' Hne'. rewrite Hr, elem_of_cons. split; [by right|by intros [?|?]].
    - intros k' Hne'. rewrite count_snoc, decide_False by congruence. lia.
    - intros j' [?| ->%list_elem_of_singleton]%elem_of_app; auto. }
  assert (lanes q1 !! key j = Some (Lane (j :: js) false (lactive l + 1))) as Hl1.
  { cbn. rewrite Hkj. apply lookup_insert_eq. }
  destruct (removePending_ok q1 j _ _ Hc1 Hl1) as (q' & -> & Hc' & Hs & Hp & Hpd & _ & W2); [by left|].
  cbn [res_bind]. eexists _, j. split; [done|].
  destruct Hs as (Sa & Sw & Sf & Sc & Scc & Scl & Sd & Swt).
  cbn [set_active ready lanes active pending workers finishing capacity concurrency closed done_closed].
  assert (pend (lanes q) ≡ₚ j :: pend (lanes q')) as Hpd'.
  { rewrite <- Hpd. cbn. symmetry. by apply (pend_same _ _ l). }
  split_and!; try done.
  - by rewrite Sa.
  - by rewrite Sa.
  - assert (ready_work (lanes q1) rest = ready_work (lanes q) rest) as Hrest.
    { apply ready_work_same. intros k' Hk'. cbn. apply weight_insert_ne. by intros ->. }
    rewrite W2 by (by rewrite Hkj). change (ready q1) with rest. rewrite Hrest. cbn [ready_work].
    rewrite (weight_lookup _ _ _ Hl), Hjobs, Hkj. cbn [jobs lactive].
    match goal with |- context [if decide (runnable k ?b) then _ else _] => destruct (decide (runnable k b)) as [Hd|Hd] end.
    + destruct (unkeyed k) eqn:Hu; [lia|]. destruct Hd as [_ [-> | Ha]]; [done|]. cbn [lactive] in Ha.
      pose proof (lp_active _ _ _ _ Hpre) as Hact. unfold count in Hact. lia.
    + destruct (unkeyed k) eqn:Hu; [|lia]. apply unkeyed_true in Hu. cbn [length].
      assert (remove_job j (j :: js) = []) as Hnil.
      { destruct (remove_job j (j :: js)) eqn:He; [done|]. exfalso. apply Hd. split; [done|by left]. }
      pose proof (remove_job_perm j (j :: js) (earlier_nodup _ Hord)) as Hperm. rewrite Hnil in Hperm.
      specialize (Hperm ltac:(by left)). apply Permutation_length in Hperm. cbn in Hperm. lia.
  - intros j' Hj' Hkj'. assert (j' ∈ pend (lanes q)) as Hin by (rewrite Hpd'; by right).
    apply (pend_lane _ _ _ _ _ Hc) in Hin as (l' & Hl' & Hin). rewrite Hkj', Hl in Hl'. injection Hl' as <-.
    rewrite Hjobs in Hin. inversion_clear Hord as [|?? _ Hlt]. rewrite Forall_forall in Hlt.
    apply elem_of_cons in Hin as [->|Hin]; [|by apply Hlt]. exfalso.
    rewrite Hpd' in Hpn. by apply NoDup_cons in Hpn as [? _].
Qed.

Lemma done_ok q j : core (ready q) (lanes q) (active q) → NoDup (active q) → j ∈ active q →
  ∃ q', work_done q j = Ok q' ∧ core (ready q') (lanes q') (active q')
    ∧ active q' = remove_job j (active q) ∧ pend (lanes q') ≡ₚ pend (lanes q)
    ∧ pending q' = pending q ∧ workers q' = workers q ∧ finishing q' = finishing q
    ∧ capacity q' = capacity q ∧ concurrency q' = concurrency q ∧ closed q' = closed q
    ∧ done_closed q' = done_closed q
    ∧ ready_work (lanes q') (ready q') ≤ ready_work (lanes q) (ready q) + 1.
Proof.
  intros Hc Hnd Hj. unfold work_done. cbn [lanes set_active].
  destruct (co_active _ _ _ _ Hc j Hj) as [l Hl]. rewrite Hl. set (k := key j) in *.
  pose proof (co_pre _ _ _ _ Hc k l Hl) as Hpre.
  set (q1 := set_lanes (set_active q (remove_job j (active q))) _ _).
  set (l1 := Lane (jobs l) (lready l) (lactive l - 1)).
  assert (k ∈ ready q → k = None) as Hnone.
  { intros Hk. destruct (lp_ready _ _ _ _ Hpre Hk) as [_ [?|Ha]]; [done|]. exfalso.
    rewrite (lp_active _ _ _ _ Hpre) in Ha. by apply (count_zero _ _ Ha j Hj). }
  assert (core_except (ready q1) (lanes q1) (remove_job j (active q)) (eq k)) as Hc1.
  { apply (core_insert (ready q) _ (lanes q) (active q) _ k _ (eq k)); cbn.
    - by apply core_weaken.
    - apply (co_nodup _ _ _ _ Hc).
    - destruct Hpre as [P1 P2 P3 P4 P5 P6]. split; cbn [jobs lready lactive]; try done.
      + intros Hk. destruct (P4 Hk) as [? _]. split; [done|]. left. auto.
      + by rewrite count_remove, decide_True, P5.
      + intros Hkn. specialize (P6 Hkn). lia.
    - intros Hn. by destruct Hn.
    - done.
    - intros k' Hne. rewrite count_remove, decide_False by (done || congruence). lia.
    - intros j' [? _]%elem_of_remove_job. by left. }
  destruct (makeReady_ok q1 k _ l1 Hc1) as (q' & -> & Hc' & Hs & Hp & Hpd & Hw); [apply lookup_insert_eq|].
  destruct Hs as (Sa & Sw & Sf & Sc & Scc & Scl & Sd & Swt). cbn [q1 set_lanes set_active active] in Sa.
  exists q'. split; [done|]. rewrite Sa. split_and!; try done.
  - rewrite Hpd. cbn. by apply (pend_same _ _ l).
  - rewrite Hw.
    assert (ready_work (lanes q1) (ready q1) = ready_work (lanes q) (ready q)) as ->.
    { apply ready_work_same. intros k' Hk'. cbn. destruct (decide (k = k')) as [<-|]; [|by apply weight_insert_ne].
      by rewrite weight_insert_eq, (weight_lookup _ _ _ Hl). }
    case_decide as Hd; [|lia]. destruct Hd as [Hrun Hnot]. cbn [q1 lanes set_lanes].
    rewrite weight_insert_eq. destruct (unkeyed k) eqn:Hu; [|lia]. exfalso. apply unkeyed_true in Hu.
    apply Hnot. cbn [q1 ready set_lanes]. destruct (co_lanes _ _ _ _ Hc k l) as [_ Hready]; [intros []|done|].
    apply Hready. split; [apply Hrun|by left].
Qed.

Lemma count_ready_spec ls limit r : ∀ n,
  count_ready ls limit n r = n + ready_work ls r ∨
  limit ≤ count_ready ls limit n r ≤ n + ready_work ls r.
Proof.
  induction r as [|k r IH]; intros n; cbn [count_ready ready_work]; [left; lia|].
  pose proof (weight_nonneg ls k). pose proof (ready_work_nonneg ls r).
  destruct (Z.ltb_spec n limit); [|right; lia].
  assert ((if unkeyed k then n + Z.of_nat (length (default [] (jobs <$> ls !! k))) else n + 1) = n + weight ls k) as ->
    by (unfold weight; by destruct (unkeyed k)).
  destruct (IH (n + weight ls k)) as [->|[? ?]]; [left; lia|right; lia].
Qed.

(** Enough workers for the work there is, within the bound. *)
Lemma startWorkers_ok q : Z.of_nat (length (active q)) ≤ workers q ≤ concurrency q →
  let q' := startWorkers q in
  workers q ≤ workers q' ≤ concurrency q
  ∧ Z.min (concurrency q) (Z.of_nat (length (active q)) + ready_work (lanes q) (ready q)) ≤ workers q'.
Proof.
  intros Hw. unfold startWorkers. pose proof (ready_work_nonneg (lanes q) (ready q)).
  destruct (Z.eqb_spec (workers q) (concurrency q)) as [He|He]; cbn [workers set_workers]; [lia|].
  destruct (count_ready_spec (lanes q) (concurrency q - workers q) (ready q)
              (Z.of_nat (length (active q)) - workers q)) as [->|[? ?]]; lia.
Qed.

Lemma startWorkers_fields q : let q' := startWorkers q in
  ready q' = ready q ∧ lanes q' = lanes q ∧ active q' = active q ∧ pending q' = pending q
  ∧ finishing q' = finishing q ∧ capacity q' = capacity q ∧ concurrency q' = concurrency q ∧ closed q' = closed q
  ∧ done_closed q' = done_closed q.
Proof. unfold startWorkers. by destruct (_ =? _). Qed.

Lemma earlier_snoc l j : StronglySorted earlier l → Forall (λ j', earlier j' j) l → StronglySorted earlier (l ++ [j]).
Proof.
  intros Hl Hj. apply StronglySorted_app_2; [|done|repeat constructor].
  intros a b Ha ->%list_elem_of_singleton. rewrite Forall_forall in Hj. auto.
Qed.

Lemma admit_ok q j : core (ready q) (lanes q) (active q) → (∀ j', j' ∈ pend (lanes q) → earlier j' j) →
  Z.of_nat (length (active q)) ≤ workers q ≤ concurrency q →
  ∃ q', admit_job q j = Ok q' ∧ core (ready q') (lanes q') (active q')
    ∧ active q' = active q ∧ pend (lanes q') ≡ₚ j :: pend (lanes q)
    ∧ pending q' = pending q + 1 ∧ workers q ≤ workers q' ≤ concurrency q ∧ finishing q' = finishing q
    ∧ capacity q' = capacity q ∧ concurrency q' = concurrency q ∧ closed q' = closed q
    ∧ done_closed q' = done_closed q
    ∧ Z.min (concurrency q) (Z.of_nat (length (active q)) + ready_work (lanes q') (ready q')) ≤ workers q'.
Proof.
  intros Hc Hlt Hw. unfold admit_job. set (k := key j).
  set (l := default (Lane [] false 0) (lanes q !! k)). set (l1 := Lane (jobs l ++ [j]) (lready l) (lactive l)).
  assert (lane_pre (ready q) (active q) k l) as Hpre.
  { subst l. destruct (lanes q !! k) as [l|] eqn:Hl; [by apply (co_pre _ _ _ _ Hc)|].
    assert (¬ (k ∈ ready q)) as Hn by (intros Hk%(co_ready _ _ _ _ Hc); rewrite Hl in Hk; by destruct Hk).
    split; cbn; try done; [constructor|].
    - unfold count. symmetry. destruct (filter _ (active q)) as [|a ?] eqn:Hf; [done|]. exfalso.
      assert (a ∈ filter (λ j, key j = k) (active q)) as Ha by (rewrite Hf; by left).
      apply list_elem_of_filter in Ha as [Hka Ha]. apply (co_active _ _ _ _ Hc) in Ha. rewrite Hka, Hl in Ha. by destruct Ha. }
  assert (∀ j', j' ∈ jobs l → j' ∈ pend (lanes q)) as Hin.
  { intros j' Hj'. apply elem_of_pend. subst l. destruct (lanes q !! k) as [l|] eqn:Hl; [|by apply elem_of_nil in Hj'].
    exists k, l. done. }
  set (q1 := set_pending _ _).
  assert (core_except (ready q1) (lanes q1) (active q) (eq k)) as Hc1.
  { apply (core_insert (ready q) _ (lanes q) (active q) _ k _ (eq k)); cbn.
    - by apply core_weaken.
    - apply (co_nodup _ _ _ _ Hc).
    - destruct Hpre as [P1 P2 P3 P4 P5 P6]. split; cbn [jobs lready lactive]; try done.
      + apply Forall_app. split; [done|]. by constructor.
      + apply earlier_snoc; [done|]. apply Forall_forall. auto.
      + intros Hk. destruct (P4 Hk) as [_ ?]. split; [|done]. cbn. by destruct (jobs l).
    - intros Hn. by destruct Hn.
    - done.
    - done.
    - auto. }
  destruct (makeReady_ok q1 k _ l1 Hc1) as (q2 & -> & Hc2 & Hs & Hp & Hpd & _); [apply lookup_insert_eq|].
  destruct Hs as (Sa & Sw & Sf & Sc & Scc & Scl & Sd & Swt).
  cbn [q1 set_pending set_lanes active workers finishing capacity concurrency closed done_closed pending] in *.
  cbn [res_bind]. exists (startWorkers q2). split; [done|].
  destruct (startWorkers_fields q2) as (Er & El & Ea & Ep & Ef & Eca & Eco & Ecl & Ed).
  destruct (startWorkers_ok q2) as [Hw1 Hw2]; [by rewrite Sa, Sw, Scc|].
  rewrite Er, El, Ea, Ep, Ef, Eca, Eco, Ecl, Ed, Sa, Hp, Sf, Sc, Scc, Scl, Sd in *.
  split_and!; try done; try lia.
  - rewrite Hpd. change (lanes q1) with (<[k := l1]> (lanes q)). rewrite pend_insert. cbn [l1 jobs].
    assert (pend (lanes q) ≡ₚ jobs l ++ pend (delete k (lanes q))) as ->.
    { subst l. destruct (lanes q !! k) as [l|] eqn:Hl; [by apply pend_lookup|]. by rewrite delete_id. }
    rewrite <- app_assoc. cbn [app]. by rewrite Permutation_middle.
Qed.
