(* ===== verification/QueueSystem.v ===== *)
(** * The callback queue as a transition system

    The critical sections of [Queue] interleaved in any order, with a history:
    the admitted jobs, the jobs started, the batches of jobs taken out before
    they ran whose [Finish] is pending, and the jobs whose [Finish] was called. *)
From S2P Require Import Prelude GoStr Queue QueueProps.
Open Scope Z_scope.

Record sys := Sys {
  sq : queue;
  log : list job;
  started : list job;
  batches : list (list job);
  finished : list job
}.

Inductive label :=
| LSubmit (k : lane_key) (p : ShutdownPolicy) (hasRun ctxErr : bool)
| LCancel (j : job)
| LTake
| LDone (j : job)
| LStop (all : bool) (order : list lane_key)
| LEnd (n : nat).

Definition step (s : sys) (l : label) : res sys :=
  match l with
  | LSubmit k p r c =>
    let j := Job (length (log s)) k p in
    let* (q, a) := Submit (sq s) r c j in
    Ok (Sys q (match a with Accepted => log s ++ [j] | _ => log s end) (started s) (batches s) (finished s))
  | LCancel j =>
    let* (q, removed) := cancelPending_begin (sq s) j in
    Ok (Sys q (log s) (started s) (if removed then batches s ++ [[j]] else batches s) (finished s))
  | LTake =>
    let* (q, j) := work_take (sq s) in
    Ok (Sys q (log s) (started s ++ match j with Some j => [j] | None => [] end) (batches s) (finished s))
  | LDone j =>
    let* q := work_done (sq s) j in
    Ok (Sys q (log s) (started s) (batches s) (finished s ++ [j]))
  | LStop all order =>
    let* (q, removed, _, _) := stop_begin (sq s) all order in
    Ok (Sys q (log s) (started s) (batches s ++ [removed]) (finished s))
  | LEnd n =>
    match batches s !! n with
    | None => Ok s
    | Some b => Ok (Sys (stop_end (sq s) (Z.of_nat (length b))) (log s) (started s) (delete n (batches s)) (finished s ++ b))
    end
  end.

(** A worker that holds no job runs [work_take], and one that holds [j] ends
    with [work_done]. *)
Definition legal (s : sys) (l : label) : Prop :=
  match l with
  | LTake => Z.of_nat (length (active (sq s))) < workers (sq s)
  | LDone j => j ∈ active (sq s)
  | _ => True
  end.

Fixpoint run (s : sys) (ls : list label) : res sys :=
  match ls with
  | [] => Ok s
  | l :: ls => let* s := step s l in run s ls
  end.
Fixpoint legal_run (s : sys) (ls : list label) : Prop :=
  match ls with
  | [] => True
  | l :: ls => legal s l ∧ ∀ s', step s l = Ok s' → legal_run s' ls
  end.
Definition initial (q : queue) : sys := Sys q [] [] [] [].

(** ** The invariant *)
Definition drained (q : queue) : bool :=
  closed q && (workers q =? 0) && (pending q =? 0) && (finishing q =? 0).
Definition same_key_order (a b : job) : Prop := key a = key b → earlier a b.

Record inv (s : sys) : Prop := {
  in_core : core (ready (sq s)) (lanes (sq s)) (active (sq s));
  in_pending : pending (sq s) = Z.of_nat (length (pend (lanes (sq s))));
  in_capacity : pending (sq s) ≤ capacity (sq s);
  in_finishing : finishing (sq s) = Z.of_nat (length (concat (batches s)));
  in_jobs : log s ≡ₚ pend (lanes (sq s)) ++ active (sq s) ++ concat (batches s) ++ finished s;
  in_ids : ∀ i j, log s !! i = Some j → id j = i;
  in_workers : Z.of_nat (length (active (sq s))) ≤ workers (sq s) ≤ concurrency (sq s);
  in_enough : Z.min (concurrency (sq s)) (Z.of_nat (length (active (sq s))) + ready_work (lanes (sq s)) (ready (sq s)))
              ≤ workers (sq s);
  in_concurrency : 1 ≤ concurrency (sq s);
  in_done : done_closed (sq s) = drained (sq s);
  in_fifo : ∀ a b, a ∈ started s → b ∈ pend (lanes (sq s)) → same_key_order a b;
  in_started : StronglySorted same_key_order (started s);
  in_started_log : ∀ a, a ∈ started s → a ∈ log s
}.

Lemma log_nodup s : inv s → NoDup (log s).
Proof.
  intros Hi. apply NoDup_alt. intros i j x Hx Hy.
  pose proof (in_ids _ Hi i x Hx). pose proof (in_ids _ Hi j x Hy). congruence.
Qed.

Lemma parts_nodup s : inv s → NoDup (pend (lanes (sq s))) ∧ NoDup (active (sq s)).
Proof.
  intros Hi. pose proof (log_nodup s Hi) as Hnd. rewrite (in_jobs _ Hi) in Hnd.
  apply NoDup_app in Hnd as (H1 & _ & H2). apply NoDup_app in H2 as (H2 & _ & _). done.
Qed.

Lemma log_id s j : inv s → j ∈ log s → (id j < length (log s))%nat.
Proof. intros Hi [i Hj]%list_elem_of_lookup. rewrite (in_ids _ Hi _ _ Hj). by eapply lookup_lt_Some. Qed.

Lemma pend_log s j : inv s → j ∈ pend (lanes (sq s)) → j ∈ log s.
Proof. intros Hi Hj. rewrite (in_jobs _ Hi). apply elem_of_app. by left. Qed.

Lemma concat_snoc (bs : list (list job)) b : concat (bs ++ [b]) = concat bs ++ b.
Proof. rewrite concat_app. cbn. by rewrite app_nil_r. Qed.


Lemma finishClosed_done q : (done_closed q = true → drained q = true) →
  done_closed (finishClosed q) = drained q ∧ drained (finishClosed q) = drained q.
Proof.
  intros Hd. unfold finishClosed. fold (drained q). destruct (drained q) eqn:He.
  - split; [done|]. unfold drained in *. cbn [closed workers pending finishing set_closed]. by destruct (closed q).
  - split; [|done]. destruct (done_closed q); [|done]. by specialize (Hd eq_refl).
Qed.

Lemma finishClosed_same q : let q' := finishClosed q in
  ready q' = ready q ∧ lanes q' = lanes q ∧ active q' = active q ∧ pending q' = pending q ∧ workers q' = workers q
  ∧ finishing q' = finishing q ∧ capacity q' = capacity q ∧ concurrency q' = concurrency q.
Proof. unfold finishClosed. by destruct (_ && _). Qed.

(** ** Preservation *)
Definition keeps (m : res sys) : Prop := ∃ s', m = Ok s' ∧ inv s'.

Lemma queue_keeps_submit s k p r c : inv s → keeps (step s (LSubmit k p r c)).
Proof.
  intros Hi. cbn [step]. unfold Submit. set (j := Job (length (log s)) k p).
  assert (inv (Sys (sq s) (log s) (started s) (batches s) (finished s))) as Hsame by (by destruct s).
  destruct r; [cbn [negb]|by eexists]. destruct (closed (sq s)) eqn:Hcl; [by eexists|].
  destruct c; [by eexists|].
  destruct (Z.eqb_spec (pending (sq s)) (capacity (sq s))) as [Hfull|Hfull].
  { eexists; split; [done|]. by destruct (waitForCapacity (sq s)). }
  assert (∀ j', j' ∈ log s → earlier j' j) as Hlt by (intros j' Hj'; by apply log_id).
  destruct (admit_ok (sq s) j) as (q' & -> & Hc & Ha & Hpd & Hp & Hw & Hf & Hca & Hco & Hcl' & Hd & He);
    [apply Hi|intros j' Hj'; by apply Hlt, pend_log|apply Hi|].
  cbn [res_bind]. eexists; split; [done|]. destruct Hi as [I1 I2 I3 I4 I5 I6 I7 I8 I9 I10 I11 I12 I13].
  split; cbn [sq log started batches finished]; rewrite ?Ha, ?Hf, ?Hca, ?Hco in *; try done; try lia.
  - rewrite Hp, Hpd. cbn [length]. lia.
  - rewrite Hpd, I5, <- Permutation_cons_append. done.
  - intros i x [Hx|[Hge Hx]]%lookup_app_Some; [auto|]. apply list_lookup_singleton_Some in Hx as [Hz <-]. cbn. lia.
  - rewrite Hd, I10. unfold drained. by rewrite Hcl', Hcl.
  - intros a b Hsa Hb Hk. rewrite Hpd in Hb. apply elem_of_cons in Hb as [->|Hb]; [|by apply I11].
    apply Hlt. auto.
  - intros a Hsa. apply elem_of_app. left. auto.
Qed.

Lemma queue_keeps_cancel s j : inv s → keeps (step s (LCancel j)).
Proof.
  intros Hi. cbn [step]. unfold cancelPending_begin.
  destruct (is_pending (sq s) j) eqn:Hp; [|exists s; split; [by destruct s|done]].
  destruct Hi as [I1 I2 I3 I4 I5 I6 I7 I8 I9 I10 I11 I12 I13].
  apply (is_pending_true _ _ _ I1) in Hp.
  destruct (remove_waiting (sq s) j _ I1 Hp) as (q' & -> & [R1 (Ra & Rw & Rf & Rc & Rco & Rcl & Rd & _) R3 R4 R5]).
  cbn [res_bind length] in *. eexists; split; [done|].
  pose proof (Permutation_length R4) as Hlen. rewrite length_app in Hlen. cbn [length] in Hlen.
  split; cbn [sq log started batches finished set_finishing ready lanes active pending workers finishing capacity concurrency closed done_closed];
    rewrite ?Ra, ?Rw, ?Rc, ?Rco in *; try done; try lia.
  - rewrite concat_snoc, length_app. cbn [length]. rewrite Rf. lia.
  - rewrite I5, R4, concat_snoc. cbn [app]. solve_Permutation.
  - rewrite Rd, I10. unfold drained. cbn [closed workers pending finishing set_finishing]. rewrite Rcl, Rw.
    assert ((pending (sq s) =? 0) = false) as -> by (apply Z.eqb_neq; lia).
    assert ((finishing q' + 1 =? 0) = false) as -> by (apply Z.eqb_neq; lia). by rewrite !andb_false_r.
  - intros a b Hsa Hb. apply I11; [done|]. rewrite R4. apply elem_of_app. by right.
Qed.

Lemma queue_keeps_take s : inv s → Z.of_nat (length (active (sq s))) < workers (sq s) → keeps (step s LTake).
Proof.
  intros Hi Hidle. pose proof (parts_nodup s Hi) as [Hpn _].
  destruct Hi as [I1 I2 I3 I4 I5 I6 I7 I8 I9 I10 I11 I12 I13].
  cbn [step]. destruct (ready (sq s)) as [|k rest] eqn:Hr; rewrite <- Hr in I1, I8.
  - (* the worker retires *)
    unfold work_take. rewrite Hr. cbn [res_bind]. eexists; split; [done|].
    set (q1 := set_workers (sq s) (workers (sq s) - 1)).
    destruct (finishClosed_same q1) as (E1 & E2 & E3 & E4 & E5 & E6 & E7 & E8).
    assert (done_closed q1 = true → drained q1 = true) as Hd.
    { cbn. rewrite I10. unfold drained. rewrite !andb_true_iff, !Z.eqb_eq. intros [[[_ ?] _] _]. lia. }
    destruct (finishClosed_done q1 Hd) as [E9 E10].
    split; cbn [sq log started batches finished]; rewrite ?E1, ?E2, ?E3, ?E4, ?E5, ?E6, ?E7, ?E8, ?app_nil_r; try done;
      cbn [q1 set_workers ready lanes active pending workers finishing capacity concurrency]; try done; try lia.
    + rewrite Hr. cbn [ready_work]. lia.
    + congruence.
  - destruct (take_ok (sq s) k rest I1 Hpn Hr) as (q' & j & -> & T1 & T2 & T3 & T4 & T5 & T6 & T7 & T8 & T9 & T10 & T11 & T12 & T13).
    cbn [res_bind]. eexists; split; [done|].
    pose proof (Permutation_length T4) as Hlen. cbn [length] in Hlen.
    split; cbn [sq log started batches finished]; try done; rewrite ?T2, ?T6, ?T7, ?T8, ?T9, ?length_app in *; cbn [length] in *;
      try done; try lia.
    + rewrite I5, T4. solve_Permutation.
    + rewrite T11, I10. unfold drained. rewrite T10, T6, T5, T7.
      assert ((workers (sq s) =? 0) = false) as -> by (apply Z.eqb_neq; lia). by rewrite !andb_false_r.
    + intros a b [Hsa|Hsa]%elem_of_app Hb Hk.
      * apply I11; [done| |done]. rewrite T4. by right.
      * apply list_elem_of_singleton in Hsa as ->. apply T13; [done|]. by rewrite <- Hk.
    + apply StronglySorted_app_2; [|done|repeat constructor].
      intros a b Hsa ->%list_elem_of_singleton. apply I11; [done|]. rewrite T4. by left.
    + intros a [Hsa|Hsa]%elem_of_app; [auto|]. apply list_elem_of_singleton in Hsa as ->.
      rewrite I5, T4. by left.
Qed.

Lemma queue_keeps_done s j : inv s → j ∈ active (sq s) → keeps (step s (LDone j)).
Proof.
  intros Hi Hj. pose proof (parts_nodup s Hi) as [_ Han].
  destruct Hi as [I1 I2 I3 I4 I5 I6 I7 I8 I9 I10 I11 I12 I13].
  cbn [step]. destruct (done_ok (sq s) j I1 Han Hj) as (q' & -> & T1 & T2 & T3 & T4 & T5 & T6 & T7 & T8 & T9 & T10 & T11).
  cbn [res_bind]. eexists; split; [done|].
  pose proof (remove_job_perm j _ Han Hj) as Hperm. pose proof (Permutation_length Hperm) as Hlen. cbn [length] in Hlen.
  split; cbn [sq log started batches finished]; try done; rewrite ?T2, ?T5, ?T6, ?T7, ?T8 in *; try done; try lia.
  - by rewrite T4, T3.
  - rewrite I5, T3. rewrite Hperm at 1. solve_Permutation.
  - rewrite T10, I10. unfold drained. by rewrite T9, T5, T4, T6.
  - intros a b Hsa Hb. apply I11; [done|]. by rewrite <- T3.
Qed.

Lemma queue_keeps_stop s all order : inv s → keeps (step s (LStop all order)).
Proof.
  intros Hi. pose proof (parts_nodup s Hi) as [Hpn _].
  destruct Hi as [I1 I2 I3 I4 I5 I6 I7 I8 I9 I10 I11 I12 I13].
  cbn [step]. unfold stop_begin.
  destruct (stop_lanes_ok (active (sq s)) all order (set_closed (sq s) true (done_closed (sq s))) I1 Hpn)
    as (q' & removed & -> & [R1 (Ra & Rw & Rf & Rc & Rco & Rcl & Rd & _) R3 R4 R5] & _).
  cbn [res_bind]. eexists; split; [done|].
  cbn [set_closed ready lanes active pending workers finishing capacity concurrency closed done_closed] in *.
  set (q1 := set_finishing q' (finishing q' + Z.of_nat (length removed))).
  pose proof (Permutation_length R4) as Hlen. rewrite length_app in Hlen.
  destruct (finishClosed_same q1) as (E1 & E2 & E3 & E4 & E5 & E6 & E7 & E8).
  assert (done_closed q1 = true → drained q1 = true) as Hd.
  { cbn. rewrite Rd, I10. unfold drained. cbn [q1 set_finishing closed workers pending finishing].
    rewrite Rcl, Rw, R3, Rf, !andb_true_iff, !Z.eqb_eq. intros [[[? ?] ?] ?]. split_and!; try done; lia. }
  destruct (finishClosed_done q1 Hd) as [E9 E10].
  split; cbn [sq log started batches finished]; rewrite ?E1, ?E2, ?E3, ?E4, ?E5, ?E6, ?E7, ?E8;
    cbn [q1 set_finishing ready lanes active pending workers finishing capacity concurrency];
    rewrite ?Ra, ?Rw, ?Rc, ?Rco in *; try done; try lia.
  - rewrite concat_snoc, length_app, Rf. lia.
  - rewrite I5, R4, concat_snoc. solve_Permutation.
  - congruence.
  - intros a b Hsa Hb. apply I11; [done|]. rewrite R4. apply elem_of_app. by right.
Qed.

Lemma concat_delete (bs : list (list job)) n b : bs !! n = Some b → concat bs ≡ₚ b ++ concat (delete n bs).
Proof.
  intros Hb. rewrite (delete_Permutation _ _ _ Hb) at 1. done.
Qed.

Lemma queue_keeps_end s n : inv s → keeps (step s (LEnd n)).
Proof.
  intros Hi. destruct Hi as [I1 I2 I3 I4 I5 I6 I7 I8 I9 I10 I11 I12 I13] eqn:HeqI. cbn [step].
  destruct (batches s !! n) as [b|] eqn:Hb; [|by exists s]. eexists; split; [done|]. unfold stop_end.
  set (q1 := set_finishing (sq s) (finishing (sq s) - Z.of_nat (length b))).
  pose proof (concat_delete _ _ _ Hb) as Hperm. pose proof (Permutation_length Hperm) as Hlen. rewrite length_app in Hlen.
  destruct (finishClosed_same q1) as (E1 & E2 & E3 & E4 & E5 & E6 & E7 & E8).
  assert (done_closed q1 = true → drained q1 = true) as Hd.
  { cbn. rewrite I10. unfold drained. cbn [q1 set_finishing closed workers pending finishing].
    rewrite !andb_true_iff, !Z.eqb_eq. intros [[[? ?] ?] ?]. split_and!; try done. lia. }
  destruct (finishClosed_done q1 Hd) as [E9 E10].
  split; cbn [sq log started batches finished]; rewrite ?E1, ?E2, ?E3, ?E4, ?E5, ?E6, ?E7, ?E8;
    cbn [q1 set_finishing ready lanes active pending workers finishing capacity concurrency]; try done; try lia.
  - rewrite I5, Hperm. solve_Permutation.
  - congruence.
Qed.

Lemma queue_step_keeps s l : inv s → legal s l → keeps (step s l).
Proof.
  intros Hi Hl. destruct l; cbn [legal] in Hl; eauto using queue_keeps_submit, queue_keeps_cancel, queue_keeps_take, queue_keeps_done, queue_keeps_stop, queue_keeps_end.
Qed.

(** * What the callback queue promises

    The properties hold of every state reached from a new queue by critical
    sections in any order: by callers, by the workers and by shutdown. *)

(** ** Reachable states *)
Lemma initial_inv o q : NewQueue o = Ok q → inv (initial q).
Proof.
  unfold NewQueue. destruct (_ || _) eqn:Hneg; [done|]. intros [= <-].
  apply orb_false_iff in Hneg as [[Hc Hk]%orb_false_iff _].
  split; cbn [sq log started batches finished initial ready lanes active pending workers finishing capacity concurrency];
    try done; try constructor; try (intros; set_solver); cbn; try lia; repeat (case_match || lia || constructor).
Qed.

(** The options, which no operation changes; [closed] is never reset. *)
Definition params (q : queue) : Z * Z * bool := (capacity q, concurrency q, waitForCapacity q).
Definition follows (q q' : queue) : Prop := params q' = params q ∧ (closed q = true → closed q' = true).
Lemma follows_refl q : follows q q.
Proof. done. Qed.
Lemma follows_trans q1 q2 q3 : follows q1 q2 → follows q2 q3 → follows q1 q3.
Proof. unfold follows. intros [-> ?] [-> ?]. auto. Qed.

Lemma makeReady_follows q k q' : makeReady q k = Ok q' → follows q q'.
Proof.
  unfold makeReady. destruct (lanes q !! k); [|done]. intros [= <-]. by repeat case_match.
Qed.
Lemma removePending_follows q j q' : removePending q j = Ok q' → follows q q'.
Proof.
  unfold removePending. destruct (lanes q !! key j) as [l|]; [|done].
  intros H%makeReady_follows. revert H. by destruct (_ && _).
Qed.
Lemma remove_jobs_follows all js : ∀ q q' r, remove_jobs q all js = Ok (q', r) → follows q q'.
Proof.
  induction js as [|j js IH]; intros q q' r; cbn [remove_jobs]; [by intros [= <- _]|].
  destruct (cancelled_by all j); [|by apply IH]. destruct (removePending q j) as [q1| |] eqn:H1; [|done..].
  cbn [res_bind]. destruct (remove_jobs q1 all js) as [[q2 r2]| |] eqn:H2; [|done..]. intros [= <- _].
  eapply follows_trans; [by eapply removePending_follows|by eapply IH].
Qed.
Lemma stop_lanes_follows all order : ∀ q q' r, stop_lanes q all order = Ok (q', r) → follows q q'.
Proof.
  induction order as [|k order IH]; intros q q' r; cbn [stop_lanes]; [by intros [= <- _]|].
  destruct (remove_jobs q all _) as [[q1 r1]| |] eqn:H1; [|done..]. cbn [res_bind].
  destruct (stop_lanes q1 all order) as [[q2 r2]| |] eqn:H2; [|done..]. intros [= <- _].
  eapply follows_trans; [by eapply remove_jobs_follows|by eapply IH].
Qed.
Lemma startWorkers_follows q : follows q (startWorkers q).
Proof. unfold startWorkers. by destruct (_ =? _). Qed.
Lemma finishClosed_follows q q0 : follows q0 q → follows q0 (finishClosed q).
Proof. unfold finishClosed. destruct (closed q && _ && _ && _) eqn:H; [|done]. by intros [? _]. Qed.

Lemma step_follows s l s' : step s l = Ok s' → follows (sq s) (sq s').
Proof.
  destruct l as [k p r c|j| |j|all order|n]; cbn [step].
  - unfold Submit, admit_job. destruct r; cbn [negb]; [|by intros [= <-]].
    destruct (closed (sq s)) eqn:Hc; [by intros [= <-]|]. destruct c; [by intros [= <-]|].
    destruct (_ =? _); [by intros [= <-]|]. destruct (makeReady _ _) as [q1| |] eqn:H1; [|done..].
    cbn [res_bind]. intros [= <-]. cbn [sq]. eapply follows_trans; [|apply startWorkers_follows].
    apply makeReady_follows in H1. done.
  - unfold cancelPending_begin. destruct (is_pending (sq s) j); [|by intros [= <-]].
    destruct (removePending (sq s) j) as [q1| |] eqn:H1; [|done..]. intros [= <-].
    by apply removePending_follows in H1.
  - unfold work_take. destruct (ready (sq s)) as [|k rest]; [intros [= <-]; by apply finishClosed_follows|].
    destruct (lanes (sq s) !! k) as [l|]; [|done]. destruct (jobs l) as [|j js]; [done|].
    destruct (removePending _ j) as [q1| |] eqn:H1; [|done..]. intros [= <-].
    by apply removePending_follows in H1.
  - unfold work_done. destruct (lanes _ !! key j) as [l|]; [|done].
    destruct (makeReady _ _) as [q1| |] eqn:H1; [|done..]. intros [= <-]. by apply makeReady_follows in H1.
  - unfold stop_begin. destruct (stop_lanes _ all order) as [[q1 r]| |] eqn:H1; [|done..]. intros [= <-].
    apply finishClosed_follows. apply stop_lanes_follows in H1 as [H1 H2]. split; [exact H1|].
    intros _. by apply H2.
  - destruct (batches s !! n); [|by intros [= <-]]. intros [= <-]. by apply finishClosed_follows.
Qed.

(** A legal run never panics, and keeps the invariant and the options. *)
Lemma queue_run_keeps ls : ∀ s, inv s → legal_run s ls → ∃ s', run s ls = Ok s' ∧ inv s' ∧ follows (sq s) (sq s').
Proof.
  induction ls as [|l ls IH]; intros s Hi Hl; cbn [run].
  { by exists s. }
  destruct Hl as [Hl Hr]. destruct (queue_step_keeps s l Hi Hl) as (s1 & Hs & Hi1). rewrite Hs. cbn [res_bind].
  destruct (IH s1 Hi1 (Hr s1 Hs)) as (s2 & -> & Hi2 & Hf). exists s2. split_and!; try done;
    eapply follows_trans; eauto using step_follows.
Qed.

Section reached.
  Context (o : QueueOptions) (q : queue) (ls : list label) (s : sys).
  Context (Hnew : NewQueue o = Ok q) (Hlegal : legal_run (initial q) ls) (Hrun : run (initial q) ls = Ok s).

Lemma reached_inv : inv s ∧ follows q (sq s).
Proof.
  destruct (queue_run_keeps ls (initial q) (initial_inv o q Hnew) Hlegal) as (s' & Hs & Hi & Hf).
  rewrite Hrun in Hs. injection Hs as <-. done.
Qed.
End reached.

(** ** Legality, decided, for the concrete runs *)
Definition legalb (s : sys) (l : label) : bool :=
  match l with
  | LTake => Z.of_nat (length (active (sq s))) <? workers (sq s)
  | LDone j => bool_decide (j ∈ active (sq s))
  | _ => true
  end.
Fixpoint legal_runb (s : sys) (ls : list label) : bool :=
  match ls with
  | [] => true
  | l :: ls => legalb s l && match step s l with Ok s' => legal_runb s' ls | _ => true end
  end.
Lemma queue_legal_sound ls : ∀ s, legal_runb s ls = true → legal_run s ls.
Proof.
  induction ls as [|l ls IH]; intros s; cbn [legal_runb legal_run]; [done|].
  intros [Hl Hr]%andb_true_iff. split.
  - destruct l; cbn [legalb legal] in *; try done; [by apply Z.ltb_lt|by apply bool_decide_eq_true in Hl].
  - intros s' Hs. rewrite Hs in Hr. by apply IH.
Qed.

(** ** Draining *)
(** The sections a worker, a canceller or [stop] runs without a new caller. *)
Definition internal (l : label) : bool :=
  match l with LTake | LDone _ => true | LEnd _ => true | _ => false end.
Definition effective (s : sys) (l : label) : Prop :=
  legal s l ∧ internal l = true ∧ match l with LEnd n => is_Some (batches s !! n) | _ => True end.
Definition work_left (s : sys) : Z :=
  3 * pending (sq s) + 2 * Z.of_nat (length (active (sq s))) + workers (sq s) + Z.of_nat (length (batches s)).

Lemma work_left_nonneg s : inv s → 0 ≤ work_left s.
Proof. intros Hi. pose proof (in_pending _ Hi). pose proof (in_workers _ Hi). unfold work_left. lia. Qed.

Lemma take_decreases s s' : inv s → Z.of_nat (length (active (sq s))) < workers (sq s) → step s LTake = Ok s' →
  work_left s' < work_left s.
Proof.
  intros Hi Hl. cbn [step]. destruct (ready (sq s)) as [|k rest] eqn:Hr.
  - unfold work_take. rewrite Hr. intros [= <-]. unfold work_left. cbn [sq batches].
    destruct (finishClosed_same (set_workers (sq s) (workers (sq s) - 1))) as (E1 & E2 & E3 & E4 & E5 & E6 & E7 & E8).
    rewrite E3, E4, E5. cbn [set_workers active pending workers]. lia.
  - destruct (take_ok (sq s) k rest (in_core _ Hi) (proj1 (parts_nodup s Hi)) Hr)
      as (q' & j & -> & T1 & T2 & T3 & T4 & T5 & T6 & _). intros [= <-].
    unfold work_left. cbn [sq batches]. rewrite T2, T5, T6, length_app. cbn [length]. lia.
Qed.
Lemma done_decreases s j s' : inv s → j ∈ active (sq s) → step s (LDone j) = Ok s' → work_left s' < work_left s.
Proof.
  intros Hi Hj. cbn [step]. pose proof (proj2 (parts_nodup s Hi)) as Han.
  destruct (done_ok (sq s) j (in_core _ Hi) Han Hj) as (q' & -> & T1 & T2 & T3 & T4 & T5 & _). intros [= <-].
  pose proof (Permutation_length (remove_job_perm j _ Han Hj)) as Hlen. cbn [length] in Hlen.
  unfold work_left. cbn [sq batches]. rewrite T2, T4, T5. lia.
Qed.
Lemma end_decreases s n s' : is_Some (batches s !! n) → step s (LEnd n) = Ok s' → work_left s' < work_left s.
Proof.
  intros [b Hb]. cbn [step]. rewrite Hb. intros [= <-]. unfold work_left, stop_end. cbn [sq batches].
  set (q1 := set_finishing _ _). destruct (finishClosed_same q1) as (E1 & E2 & E3 & E4 & E5 & E6 & E7 & E8).
  rewrite E3, E4, E5. cbn [q1 set_finishing active pending workers].
  pose proof (Permutation_length (delete_Permutation _ _ _ Hb)) as Hlen. cbn [length] in Hlen. lia.
Qed.
Lemma effective_decreases s l s' : inv s → effective s l → step s l = Ok s' → work_left s' < work_left s.
Proof.
  intros Hi (Hl & Hint & He). destruct l; try discriminate Hint; cbn [legal] in Hl.
  - by apply take_decreases.
  - by apply done_decreases.
  - by apply end_decreases.
Qed.

(** A waiting job has a worker to run it, or runs after one of its lane. *)
Lemma pending_needs s j : inv s → j ∈ pend (lanes (sq s)) →
  (∃ j', j' ∈ active (sq s) ∧ key j' = key j ∧ key j ≠ None) ∨ 1 ≤ ready_work (lanes (sq s)) (ready (sq s)).
Proof.
  intros Hi (l & Hl & Hj)%(pend_lane _ _ _ _ _ (in_core _ Hi)).
  destruct (co_lanes _ _ _ _ (in_core _ Hi) (key j) l) as [Hp Hrun]; [intros []|done|].
  assert (jobs l ≠ []) as Hne by (intros He; rewrite He in Hj; by apply elem_of_nil in Hj).
  destruct (decide (key j = None ∨ lactive l = 0)) as [Hr|Hr].
  - right. specialize (Hrun (conj Hne Hr)). apply list_elem_of_split in Hrun as (r1 & r2 & ->).
    rewrite ready_work_app. cbn [ready_work]. rewrite (weight_lookup _ _ _ Hl).
    pose proof (ready_work_nonneg (lanes (sq s)) r1). pose proof (ready_work_nonneg (lanes (sq s)) r2).
    destruct (unkeyed (key j)); [|lia]. destruct (jobs l); [done|]. cbn [length]. lia.
  - left. apply Decidable.not_or in Hr as [Hk Ha]. pose proof (lp_active _ _ _ _ Hp) as Hc. unfold count in Hc.
    destruct (filter (λ j', key j' = key j) (active (sq s))) as [|j' rest] eqn:Hf; [cbn in Hc; lia|].
    assert (j' ∈ filter (λ j', key j' = key j) (active (sq s))) as Hin by (rewrite Hf; by left).
    apply list_elem_of_filter in Hin as [? ?]. by exists j'.
Qed.

Lemma pend_nonempty s : inv s → 0 < pending (sq s) → ∃ j, j ∈ pend (lanes (sq s)).
Proof.
  intros Hi. rewrite (in_pending _ Hi). destruct (pend (lanes (sq s))) as [|j l]; cbn [length]; [lia|].
  exists j. by left.
Qed.

Lemma some_effective s : inv s → closed (sq s) = true → done_closed (sq s) = false → ∃ l, effective s l.
Proof.
  intros Hi Hc Hd. rewrite (in_done _ Hi) in Hd. unfold drained in Hd. rewrite Hc in Hd. cbn [andb] in Hd.
  pose proof (in_workers _ Hi) as Hw. pose proof (in_enough _ Hi) as He. pose proof (in_concurrency _ Hi) as Hco.
  destruct (decide (workers (sq s) = 0)) as [Hw0|Hw0].
  - assert (active (sq s) = []) as Ha by (destruct (active (sq s)); cbn [length] in Hw; [done|lia]).
    destruct (decide (pending (sq s) = 0)) as [Hp0|Hp0].
    + rewrite Hw0, Hp0 in Hd. cbn [Z.eqb andb] in Hd. apply Z.eqb_neq in Hd. rewrite (in_finishing _ Hi) in Hd.
      destruct (batches s) as [|b bs] eqn:Hb; [done|]. exists (LEnd 0). split_and!; [done|done|]. rewrite Hb. by eexists.
    + pose proof (in_pending _ Hi). destruct (pend_nonempty s Hi) as [j Hj]; [lia|].
      destruct (pending_needs s j Hi Hj) as [(j' & Hj' & _)|Hr]; [rewrite Ha in Hj'; by apply elem_of_nil in Hj'|].
      rewrite Ha in He. cbn [length] in He. lia.
  - destruct (decide (Z.of_nat (length (active (sq s))) < workers (sq s))) as [Hlt|Hge].
    + by exists LTake.
    + destruct (active (sq s)) as [|j act] eqn:Ha; [cbn [length] in *; lia|].
      exists (LDone j). split_and!; try done. cbn [legal]. rewrite Ha. by left.
Qed.

(** [ls] consists of effective internal sections. *)
Fixpoint draining (s : sys) (ls : list label) : Prop :=
  match ls with
  | [] => True
  | l :: ls => effective s l ∧ ∀ s', step s l = Ok s' → draining s' ls
  end.

Lemma draining_bound ls : ∀ s, inv s → draining s ls → Z.of_nat (length ls) ≤ work_left s.
Proof.
  induction ls as [|l ls IH]; intros s Hi Hd; cbn [length].
  { by apply work_left_nonneg. }
  destruct Hd as [He Hd]. destruct (queue_step_keeps s l Hi (proj1 He)) as (s1 & Hs & Hi1).
  pose proof (IH s1 Hi1 (Hd s1 Hs)). pose proof (effective_decreases s l s1 Hi He Hs). lia.
Qed.

Lemma drained_finished s : inv s → done_closed (sq s) = true → log s ≡ₚ finished s.
Proof.
  intros Hi. rewrite (in_done _ Hi). unfold drained. rewrite !andb_true_iff, !Z.eqb_eq.
  intros [[[_ Hw] Hp] Hf]. pose proof (in_workers _ Hi) as Hact.
  rewrite (in_pending _ Hi) in Hp. rewrite (in_finishing _ Hi) in Hf. rewrite (in_jobs _ Hi).
  destruct (pend (lanes (sq s))); [|cbn [length] in Hp; lia]. destruct (active (sq s)); [|cbn [length] in Hact; lia].
  destruct (concat (batches s)); [done|cbn [length] in Hf; lia].
Qed.

(** ** The properties *)

(** Whatever is submitted, cancelled, taken, finished or stopped, in any
    order, no section of the queue panics; at most [capacity] jobs wait and at
    most [concurrency] workers exist, each running at most one job; and the
    channel of [Done] is closed exactly when the queue is closed with no
    worker, no waiting job and no pending [Finish]. *)
Lemma queue_safe o q ls : NewQueue o = Ok q → legal_run (initial q) ls →
  ∃ s, run (initial q) ls = Ok s
    ∧ 0 ≤ pending (sq s) ≤ capacity q
    ∧ Z.of_nat (length (active (sq s))) ≤ workers (sq s) ≤ concurrency q
    ∧ (done_closed (sq s) = true ↔
       closed (sq s) = true ∧ workers (sq s) = 0 ∧ pending (sq s) = 0 ∧ finishing (sq s) = 0).
Proof.
  intros Hnew Hl. destruct (queue_run_keeps ls (initial q) (initial_inv o q Hnew) Hl) as (s & Hs & Hi & [Hp _]).
  exists s. injection Hp as Hca Hco _. cbn [initial sq] in *. rewrite <- Hca, <- Hco. split_and!; try apply Hi; try done.
  - rewrite (in_pending _ Hi). lia.
  - rewrite (in_done _ Hi). unfold drained. rewrite !andb_true_iff, !Z.eqb_eq. tauto.
Qed.

(** C31: an admitted job is at every moment in exactly one place: waiting,
    running, taken out with its [Finish] still to come, or finished; so each
    job's [Finish] is called exactly once and no job is lost. *)
Theorem job_accounted o q ls s : NewQueue o = Ok q → legal_run (initial q) ls → run (initial q) ls = Ok s →
  NoDup (log s) ∧ log s ≡ₚ pend (lanes (sq s)) ++ active (sq s) ++ concat (batches s) ++ finished s
  ∧ (done_closed (sq s) = true → log s ≡ₚ finished s).
Proof.
  intros Hnew Hl Hr. destruct (reached_inv o q ls s Hnew Hl Hr) as [Hi _]. split; [by apply log_nodup|].
  split; [apply Hi|by apply drained_finished].
Qed.

(** C33: jobs of one key run one at a time, in the order they were admitted:
    two running jobs never share a (non-nil) key, a job that was started came
    before every waiting job of its key, and jobs of a key start in order. *)
Theorem key_serial_fifo o q ls s : NewQueue o = Ok q → legal_run (initial q) ls → run (initial q) ls = Ok s →
  (∀ j1 j2, j1 ∈ active (sq s) → j2 ∈ active (sq s) → key j1 = key j2 → key j1 ≠ None → j1 = j2)
  ∧ (∀ a b, a ∈ started s → b ∈ pend (lanes (sq s)) → key a = key b → (id a < id b)%nat)
  ∧ StronglySorted (λ a b, key a = key b → (id a < id b)%nat) (started s).
Proof.
  intros Hnew Hl Hr. destruct (reached_inv o q ls s Hnew Hl Hr) as [Hi _]. split_and!; [|apply Hi|apply Hi].
  intros j1 j2 H1 H2 Hk Hn. destruct (co_active _ _ _ _ (in_core _ Hi) j1 H1) as [l Hlk].
  pose proof (co_pre _ _ _ _ (in_core _ Hi) _ l Hlk) as Hp.
  pose proof (lp_single _ _ _ _ Hp Hn) as Hs. rewrite (lp_active _ _ _ _ Hp) in Hs. unfold count in Hs.
  assert (j1 ∈ filter (λ j, key j = key j1) (active (sq s))) as M1 by by apply list_elem_of_filter.
  assert (j2 ∈ filter (λ j, key j = key j1) (active (sq s))) as M2 by by apply list_elem_of_filter.
  destruct (filter _ _) as [|a [|b f]]; [by apply elem_of_nil in M1| |cbn [length] in Hs; lia].
  apply list_elem_of_singleton in M1, M2. congruence.
Qed.

(** Waiting for a key never occupies a worker, and no job is forgotten: a
    waiting job is behind a running job of its own key, or some worker is
    about to take a job, or all [concurrency] workers are running jobs. *)
Lemma work_conserving o q ls s j : NewQueue o = Ok q → legal_run (initial q) ls → run (initial q) ls = Ok s →
  j ∈ pend (lanes (sq s)) →
  (∃ j', j' ∈ active (sq s) ∧ key j' = key j ∧ key j ≠ None)
  ∨ Z.of_nat (length (active (sq s))) < workers (sq s)
  ∨ Z.of_nat (length (active (sq s))) = concurrency q.
Proof.
  intros Hnew Hl Hr Hj. destruct (reached_inv o q ls s Hnew Hl Hr) as [Hi [Hp _]]. injection Hp as _ Hco _.
  destruct (pending_needs s j Hi Hj) as [?|Hw]; [by left|right].
  pose proof (in_workers _ Hi). pose proof (in_enough _ Hi). cbn [initial sq] in Hco. lia.
Qed.

(** [stop] closes the queue and takes out exactly waiting jobs it cancels:
    with [all], every waiting job; without, those of policy [CancelPending].
    Later submissions are refused with [ErrClosed]. The lanes may be visited
    in any order. *)
Lemma stop_takes_out o q ls s all order : NewQueue o = Ok q → legal_run (initial q) ls → run (initial q) ls = Ok s →
  (∀ k, is_Some (lanes (sq s) !! k) → k ∈ order) →
  ∃ s' removed, step s (LStop all order) = Ok s' ∧ batches s' = batches s ++ [removed]
    ∧ pend (lanes (sq s)) ≡ₚ removed ++ pend (lanes (sq s'))
    ∧ (∀ j, j ∈ pend (lanes (sq s)) → j ∈ removed ↔ all = true ∨ shutdown j = CancelPending)
    ∧ ∀ j ctxErr, Submit (sq s') true ctxErr j = Ok (sq s', ErrClosed).
Proof.
  intros Hnew Hl Hr Hord. destruct (reached_inv o q ls s Hnew Hl Hr) as [Hi _]. cbn [step]. unfold stop_begin.
  pose proof (proj1 (parts_nodup s Hi)) as Hpn.
  destruct (stop_lanes_ok (active (sq s)) all order (set_closed (sq s) true (done_closed (sq s))) (in_core _ Hi) Hpn)
    as (q' & removed & Hst & Hrm & Hleft & Hrem). rewrite Hst. cbn [res_bind]. eexists _, removed. split; [done|].
  pose proof (rm_pend _ _ _ _ Hrm) as Hperm. cbn [set_closed lanes] in Hperm. cbn [batches sq].
  set (q1 := set_finishing _ _). destruct (finishClosed_same q1) as (E1 & E2 & _). rewrite E2. split; [done|]. split; [done|].
  assert (∀ j, cancelled_by all j = true ↔ all = true ∨ shutdown j = CancelPending) as Hcb.
  { intros j. unfold cancelled_by. by rewrite orb_true_iff, bool_decide_eq_true. }
  split.
  - intros j Hj. rewrite <- Hcb. split; [apply Hrem|]. intros Hca.
    rewrite Hperm in Hj. apply elem_of_app in Hj as [|Hj]; [done|]. exfalso.
    assert (j ∈ pend (lanes (sq s))) as Hin by (rewrite Hperm; apply elem_of_app; by right).
    apply (pend_lane _ _ _ _ _ (in_core _ Hi)) in Hin as (l & Hlk & _).
    rewrite (Hleft j Hj) in Hca; [done|]. apply Hord. by exists l.
  - intros j c. unfold Submit. cbn [negb].
    assert (closed (finishClosed q1) = true) as ->; [|done].
    apply (finishClosed_follows q1 q1 (follows_refl q1)). cbn [q1 set_finishing closed].
    by apply (stop_lanes_follows all order _ _ _ Hst).
Qed.

(** C32: a closed queue drains. As long as its channel is not closed some
    worker, canceller or [stop] has a section to run, and however these
    sections are chosen at most [work_left] of them run; when none is left,
    every admitted job is finished and [Done] is closed. *)
Theorem closed_queue_drains o q ls s : NewQueue o = Ok q → legal_run (initial q) ls → run (initial q) ls = Ok s →
  closed (sq s) = true →
  (done_closed (sq s) = false → ∃ l, effective s l)
  ∧ ∀ ls', draining s ls' → Z.of_nat (length ls') ≤ work_left s
    ∧ ∃ s', run s ls' = Ok s' ∧ closed (sq s') = true
      ∧ ((∀ l, ¬ effective s' l) → done_closed (sq s') = true ∧ log s' ≡ₚ finished s').
Proof.
  intros Hnew Hl Hr Hc. destruct (reached_inv o q ls s Hnew Hl Hr) as [Hi _]. split; [by apply some_effective|].
  intros ls' Hd. split; [by apply draining_bound|].
  assert (legal_run s ls') as Hl'.
  { clear -Hd. revert s Hd. induction ls' as [|l ls' IH]; intros s; cbn [draining legal_run]; [done|].
    intros [[? _] Hd]. split; [done|]. intros s' Hs. by apply IH, Hd. }
  destruct (queue_run_keeps ls' s Hi Hl') as (s' & Hs' & Hi' & [_ Hf]). exists s'. split; [done|]. split; [by apply Hf|].
  intros Hnone. destruct (done_closed (sq s')) eqn:Hdc.
  - split; [done|by apply drained_finished].
  - exfalso. destruct (some_effective s' Hi' (Hf Hc) Hdc) as [l He]. by apply (Hnone l).
Qed.

(** ** The properties at a concrete queue

    Two workers, room for three: two jobs of one key and one without are
    admitted, two of them run, one is cancelled and a fourth is refused. *)
Definition sample_options : QueueOptions :=
  {| o_Capacity := 3; o_Concurrency := 2; o_WaitForCapacity := false; o_AdmissionTimeout := 0 |}.
Definition queue_of (r : res queue) : queue :=
  match r with Ok q => q | _ => Queue [] ∅ [] 0 0 0 0 0 false false false end.
Definition sys_of (r : res sys) : sys := match r with Ok s => s | _ => initial (queue_of Panic) end.
Definition sample_queue : queue := queue_of (NewQueue sample_options).
Definition key_a : lane_key := Some §"a".
Definition ops_busy : list label :=
  [LSubmit key_a CancelPending true false; LSubmit key_a Drain true false; LSubmit None CancelPending true false;
   LTake; LTake; LSubmit None CancelPending true false; LSubmit key_a CancelPending true false; LCancel (Job 3 None CancelPending)].
Definition busy : sys := sys_of (run (initial sample_queue) ops_busy).
Definition ops_closed : list label := ops_busy ++ [LStop false [key_a; None]].
Definition stopped_sys : sys := sys_of (run (initial sample_queue) ops_closed).
Definition ops_drain : list label :=
  [LEnd 0; LDone (Job 0 key_a CancelPending); LDone (Job 2 None CancelPending); LTake; LEnd 0; LTake;
   LDone (Job 1 key_a Drain); LTake].

Example busy_shape : map id (active (sq busy)) = [0; 2]%nat ∧ map id (pend (lanes (sq busy))) = [1; 4]%nat ∧ workers (sq busy) = 2.
Proof. vm_compute. done. Qed.
Example drained_shape : done_closed (sq (sys_of (run stopped_sys ops_drain))) = true.
Proof. vm_compute. done. Qed.

Lemma queue_safe_witness : ∃ s, run (initial sample_queue) ops_busy = Ok s
    ∧ 0 ≤ pending (sq s) ≤ capacity sample_queue
    ∧ Z.of_nat (length (active (sq s))) ≤ workers (sq s) ≤ concurrency sample_queue
    ∧ (done_closed (sq s) = true ↔
       closed (sq s) = true ∧ workers (sq s) = 0 ∧ pending (sq s) = 0 ∧ finishing (sq s) = 0).
Proof.
  apply (queue_safe sample_options); [reflexivity|]. apply queue_legal_sound. vm_compute. reflexivity.
Defined.

Lemma job_accounted_witness :
  NoDup (log busy) ∧ log busy ≡ₚ pend (lanes (sq busy)) ++ active (sq busy) ++ concat (batches busy) ++ finished busy
  ∧ (done_closed (sq busy) = true → log busy ≡ₚ finished busy).
Proof.
  apply (job_accounted sample_options sample_queue ops_busy); [reflexivity| |vm_compute; reflexivity].
  apply queue_legal_sound. vm_compute. reflexivity.
Defined.

Lemma key_serial_fifo_witness :
  (∀ j1 j2, j1 ∈ active (sq busy) → j2 ∈ active (sq busy) → key j1 = key j2 → key j1 ≠ None → j1 = j2)
  ∧ (∀ a b, a ∈ started busy → b ∈ pend (lanes (sq busy)) → key a = key b → (id a < id b)%nat)
  ∧ StronglySorted (λ a b, key a = key b → (id a < id b)%nat) (started busy).
Proof.
  apply (key_serial_fifo sample_options sample_queue ops_busy); [reflexivity| |vm_compute; reflexivity].
  apply queue_legal_sound. vm_compute. reflexivity.
Defined.

Lemma work_conserving_witness :
  (∃ j', j' ∈ active (sq busy) ∧ key j' = key_a ∧ key_a ≠ None)
  ∨ Z.of_nat (length (active (sq busy))) < workers (sq busy)
  ∨ Z.of_nat (length (active (sq busy))) = concurrency sample_queue.
Proof.
  apply (work_conserving sample_options sample_queue ops_busy busy (Job 1 key_a Drain));
    [reflexivity| |vm_compute; reflexivity|].
  - apply queue_legal_sound. vm_compute. reflexivity.
  - apply (bool_decide_unpack _). vm_compute. exact I.
Defined.

Lemma stop_takes_out_witness : ∃ s' removed, step busy (LStop true [key_a; None]) = Ok s'
    ∧ batches s' = batches busy ++ [removed]
    ∧ pend (lanes (sq busy)) ≡ₚ removed ++ pend (lanes (sq s'))
    ∧ (∀ j, j ∈ pend (lanes (sq busy)) → j ∈ removed ↔ true = true ∨ shutdown j = CancelPending)
    ∧ ∀ j ctxErr, Submit (sq s') true ctxErr j = Ok (sq s', ErrClosed).
Proof.
  apply (stop_takes_out sample_options sample_queue ops_busy); [reflexivity| |vm_compute; reflexivity|].
  - apply queue_legal_sound. vm_compute. reflexivity.
  - intros k. rewrite <- elem_of_dom.
    replace (dom (lanes (sq busy))) with ({[key_a; None]} : gset lane_key) by (vm_compute; reflexivity).
    rewrite elem_of_union, !elem_of_singleton, !elem_of_cons, elem_of_nil. tauto.
Defined.

Lemma closed_queue_drains_witness :
  (done_closed (sq stopped_sys) = false → ∃ l, effective stopped_sys l)
  ∧ ∀ ls', draining stopped_sys ls' → Z.of_nat (length ls') ≤ work_left stopped_sys
    ∧ ∃ s', run stopped_sys ls' = Ok s' ∧ closed (sq s') = true
      ∧ ((∀ l, ¬ effective s' l) → done_closed (sq s') = true ∧ log s' ≡ₚ finished s').
Proof.
  apply (closed_queue_drains sample_options sample_queue ops_closed); [reflexivity| |vm_compute; reflexivity..].
  apply queue_legal_sound. vm_compute. reflexivity.
Defined.
