(* ===== verification/Emission.v ===== *)
(** * Completion of an emission ([internal/signal/result.go])

    An emission collects one result per receiver. The callbacks registered by
    [onComplete] and [onExit] are named by numbers; an operation returns the
    new state and the callbacks it calls. *)
From S2P Require Import Prelude GoStr.
Open Scope Z_scope.

Section emission.
  Context {R : Type} (zero : R).

Record Result := { Value : R; Error : option gostring; Started : bool }.
Definition zero_result : Result := {| Value := zero; Error := None; Started := false |}.

(** [done] is [None] for the nil channel of an asynchronous emission, and
    otherwise says whether the channel is closed. *)
Record emission := Emission {
  results : list Result;
  finished : list bool;
  started : list bool;
  remaining : Z;
  done : option bool;
  callbacks : list nat;
  work : Z;
  exitCallbacks : list nat;
  cancelled : bool
}.
Inductive call := Complete (fn : nat) (rs : list Result) | Exited (fn : nat).

(** [close(e.done)] panics on a nil or closed channel. *)
Definition close_done (d : option bool) : res (option bool) :=
  match d with Some false => Ok (Some true) | _ => Panic end.

Definition newEmission (n : nat) (synchronous : bool) : emission :=
  if synchronous then
    Emission (replicate n zero_result) (replicate n false) (replicate n false) (Z.of_nat n)
             (Some (Nat.eqb n 0)) [] (Z.of_nat n) [] (Nat.eqb n 0)
  else Emission [] [] [] 0 None [] (Z.of_nat n) [] (Nat.eqb n 0).

Definition start (e : emission) (i : nat) : res emission :=
  match started e !! i with
  | None => Panic
  | Some _ =>
    Ok (Emission (results e) (finished e) (<[i := true]> (started e)) (remaining e) (done e) (callbacks e)
                 (work e) (exitCallbacks e) (cancelled e))
  end.

Definition finish (e : emission) (i : nat) (r : Result) : res (emission * list call) :=
  match finished e !! i with
  | None => Panic
  | Some true => Ok (e, [])
  | Some false =>
    match started e !! i with
    | None => Panic
    | Some st =>
      let r := {| Value := Value r; Error := Error r; Started := Started r || st |} in
      let rs := <[i := r]> (results e) in
      let fs := <[i := true]> (finished e) in
      let n := remaining e - 1 in
      if negb (n =? 0) then
        Ok (Emission rs fs (started e) n (done e) (callbacks e) (work e) (exitCallbacks e) (cancelled e), [])
      else
        let* d := close_done (done e) in
        Ok (Emission rs fs (started e) n d [] (work e) (exitCallbacks e) true,
            map (λ fn, Complete fn rs) (callbacks e))
    end
  end.

Definition onComplete (e : emission) (fn : nat) : emission * list call :=
  if negb (remaining e =? 0) then
    (Emission (results e) (finished e) (started e) (remaining e) (done e) (callbacks e ++ [fn]) (work e)
              (exitCallbacks e) (cancelled e), [])
  else (e, [Complete fn (results e)]).

Definition exit (e : emission) : emission * list call :=
  let n := work e - 1 in
  if negb (n =? 0) then
    (Emission (results e) (finished e) (started e) (remaining e) (done e) (callbacks e) n (exitCallbacks e)
              (cancelled e), [])
  else
    (Emission (results e) (finished e) (started e) (remaining e) (done e) (callbacks e) n []
              (cancelled e || match done e with None => true | Some _ => false end),
     map Exited (exitCallbacks e)).

Definition onExit (e : emission) (fn : nat) : emission * list call :=
  if negb (work e =? 0) then
    (Emission (results e) (finished e) (started e) (remaining e) (done e) (callbacks e) (work e)
              (exitCallbacks e ++ [fn]) (cancelled e), [])
  else (e, [Exited fn]).

(** [Wait]: the results once the channel is closed, or the error of a waiting
    context that ended first; [None] while it blocks. A nil channel blocks. *)
Definition Wait (e : emission) (ctxErr : option gostring) : option (res (list Result)) :=
  match done e with
  | Some true => Some (Ok (results e))
  | _ => match ctxErr with Some err => Some (Err err) | None => None end
  end.

(** ** Operations in any order *)
Inductive op :=
| OStart (i : nat)
| OFinish (i : nat) (r : Result)
| OComplete (fn : nat)
| OExit
| OOnExit (fn : nat).

Definition step (e : emission) (o : op) : res (emission * list call) :=
  match o with
  | OStart i => let* e := start e i in Ok (e, [])
  | OFinish i r => finish e i r
  | OComplete fn => Ok (onComplete e fn)
  | OExit => Ok (exit e)
  | OOnExit fn => Ok (onExit e fn)
  end.
Fixpoint run (e : emission) (os : list op) : res (emission * list call) :=
  match os with
  | [] => Ok (e, [])
  | o :: os => let* (e, c1) := step e o in let* (e, c2) := run e os in Ok (e, c1 ++ c2)
  end.

(** ** What the operations of a history determine *)
(** The result of receiver [i]: the first one reported, marked started when
    the receiver was entered before. *)
Fixpoint first_result (i : nat) (st : bool) (os : list op) : option Result :=
  match os with
  | [] => None
  | OStart j :: os => first_result i (st || Nat.eqb i j) os
  | OFinish j r :: os =>
    if Nat.eqb i j then Some {| Value := Value r; Error := Error r; Started := Started r || st |}
    else first_result i st os
  | _ :: os => first_result i st os
  end.
Fixpoint was_started (i : nat) (st : bool) (os : list op) : bool :=
  match os with
  | [] => st
  | OStart j :: os => was_started i (st || Nat.eqb i j) os
  | _ :: os => was_started i st os
  end.
Definition registered (os : list op) : list nat := omap (λ o, match o with OComplete fn => Some fn | _ => None end) os.
Definition exit_registered (os : list op) : list nat := omap (λ o, match o with OOnExit fn => Some fn | _ => None end) os.
Definition exits (os : list op) : nat := length (filter (λ o, o = true) (map (λ o, match o with OExit => true | _ => false end) os)).
Definition index_ok (n : nat) (o : op) : Prop :=
  match o with OStart i | OFinish i _ => (i < n)%nat | _ => True end.
Definition all_finished (n : nat) (os : list op) : bool :=
  forallb (λ i, match first_result i false os with Some _ => true | None => false end) (seq 0 n).

(** ** The invariant *)
Definition completions (cs : list call) : list (nat * list Result) :=
  omap (λ c, match c with Complete fn rs => Some (fn, rs) | _ => None end) cs.
Definition exited (cs : list call) : list nat := omap (λ c, match c with Exited fn => Some fn | _ => None end) cs.
Definition is_some {A} (o : option A) : bool := match o with Some _ => true | None => false end.
Definition open_count (fs : list bool) : nat := length (filter (λ b, b = false) fs).

Record inv (n : nat) (os : list op) (e : emission) (cs : list call) : Prop := {
  iv_results : results e = map (λ i, default zero_result (first_result i false os)) (seq 0 n);
  iv_finished : finished e = map (λ i, is_some (first_result i false os)) (seq 0 n);
  iv_started : started e = map (λ i, was_started i false os) (seq 0 n);
  iv_remaining : remaining e = Z.of_nat (open_count (finished e));
  iv_done : done e = Some (remaining e =? 0);
  iv_cancelled : cancelled e = (remaining e =? 0);
  iv_callbacks : callbacks e = if remaining e =? 0 then [] else registered os;
  iv_completions : completions cs =
    if remaining e =? 0 then map (λ fn, (fn, results e)) (registered os) else [];
  iv_work : work e = Z.of_nat n - Z.of_nat (exits os);
  iv_exit : exitCallbacks e = if work e =? 0 then [] else exit_registered os;
  iv_exited : exited cs = if work e =? 0 then exit_registered os else []
}.

Lemma first_result_snoc i os o : ∀ st, first_result i st (os ++ [o]) =
  match first_result i st os with
  | Some r => Some r
  | None =>
    match o with
    | OFinish j r =>
      if Nat.eqb i j
      then Some {| Value := Value r; Error := Error r; Started := Started r || was_started i st os |} else None
    | _ => None
    end
  end.
Proof.
  induction os as [|o' os IH]; intros st; cbn [app first_result was_started]; [by destruct o|].
  destruct o'; auto. destruct (Nat.eqb i i0); auto.
Qed.

Lemma was_started_snoc i os o : ∀ st,
  was_started i st (os ++ [o]) = was_started i st os || match o with OStart j => Nat.eqb i j | _ => false end.
Proof.
  induction os as [|o' os IH]; intros st; cbn [app was_started]; [destruct o; by rewrite ?orb_false_r|].
  destruct o'; auto.
Qed.

Lemma registered_snoc os o : registered (os ++ [o]) = registered os ++ match o with OComplete fn => [fn] | _ => [] end.
Proof. unfold registered. rewrite omap_app. by destruct o. Qed.
Lemma exit_registered_snoc os o :
  exit_registered (os ++ [o]) = exit_registered os ++ match o with OOnExit fn => [fn] | _ => [] end.
Proof. unfold exit_registered. rewrite omap_app. by destruct o. Qed.
Lemma exits_snoc os o : exits (os ++ [o]) = (exits os + match o with OExit => 1 | _ => 0 end)%nat.
Proof. unfold exits. rewrite map_app, filter_app, length_app. cbn [map]. by destruct o. Qed.

Lemma lookup_map_seq {A} (f : nat → A) n i : (i < n)%nat → map f (seq 0 n) !! i = Some (f i).
Proof. intros Hi. rewrite list_lookup_fmap, lookup_seq_lt by done. done. Qed.

Lemma insert_map_seq {A} (f g : nat → A) n i x : (i < n)%nat → g i = x → (∀ j, j ≠ i → g j = f j) →
  <[i := x]> (map f (seq 0 n)) = map g (seq 0 n).
Proof.
  intros Hi Hx Hne. apply list_eq. intros j. destruct (decide (j = i)) as [->|Hj].
  - rewrite list_lookup_insert_eq by (rewrite length_map, length_seq; done). by rewrite lookup_map_seq, Hx.
  - rewrite list_lookup_insert_ne by done. rewrite !list_lookup_fmap.
    destruct (seq 0 n !! j) as [k|] eqn:Hk; [|done]. apply lookup_seq in Hk as [-> _]. cbn. by rewrite Hne.
Qed.

Lemma map_seq_ext {A} (f g : nat → A) n : (∀ j, f j = g j) → map f (seq 0 n) = map g (seq 0 n).
Proof. intros H. apply map_ext. done. Qed.

Lemma open_count_insert fs i : fs !! i = Some false → open_count fs = S (open_count (<[i := true]> fs)).
Proof.
  unfold open_count. revert i. induction fs as [|b fs IH]; intros [|i] Hi; try discriminate Hi.
  - injection Hi as ->. done.
  - cbn [lookup list_lookup] in Hi. cbn [insert list_insert]. destruct b.
    + rewrite !filter_cons_False by done. auto.
    + rewrite !filter_cons_True by done. cbn [length]. f_equal. auto.
Qed.

Lemma open_count_pos fs i : fs !! i = Some false → (0 < open_count fs)%nat.
Proof. intros Hi. rewrite (open_count_insert _ _ Hi). lia. Qed.

Lemma map_const_seq {A} (x : A) n : ∀ k, map (λ _, x) (seq k n) = replicate n x.
Proof. induction n as [|n IH]; intros k; cbn [replicate seq map]; [done|]. f_equal. apply IH. Qed.
Lemma replicate_map_seq {A} (x : A) n : replicate n x = map (λ _, x) (seq 0 n).
Proof. by rewrite map_const_seq. Qed.
Lemma open_count_replicate n : open_count (replicate n false) = n.
Proof. unfold open_count. induction n as [|n IH]; cbn [replicate]; [done|]. rewrite filter_cons_True by done. cbn. auto. Qed.

Lemma inv_new n : inv n [] (newEmission n true) [].
Proof.
  assert ((Z.of_nat n =? 0) = Nat.eqb n 0) as Hz by (destruct n; [done|by rewrite (proj2 (Z.eqb_neq _ _))]).
  split; cbn [newEmission results finished started remaining done cancelled callbacks work exitCallbacks first_result
              was_started is_some default]; rewrite ?Hz; try apply replicate_map_seq; try done;
    rewrite ?open_count_replicate; try done; cbn; try lia; try by destruct (Nat.eqb n 0).
Qed.

(** Operations that report and start nothing. *)
Definition quiet (o : op) : Prop := match o with OStart _ | OFinish _ _ => False | _ => True end.
Lemma first_result_quiet o os i st : quiet o → first_result i st (os ++ [o]) = first_result i st os.
Proof. intros Ho. rewrite first_result_snoc. destruct (first_result i st os); [done|]. by destruct o. Qed.
Lemma was_started_quiet o os i st : quiet o → was_started i st (os ++ [o]) = was_started i st os.
Proof. intros Ho. rewrite was_started_snoc. destruct o; done || by rewrite orb_false_r. Qed.

Ltac quiet_step I1 I2 I3 Hr :=
  split; cbn [results finished started remaining done cancelled callbacks work exitCallbacks];
     rewrite ?Hr, ?registered_snoc, ?exit_registered_snoc, ?exits_snoc, ?app_nil_r, ?Nat.add_0_r; try done;
     try (rewrite ?I1, ?I2, ?I3; apply map_seq_ext; intros j; rewrite ?first_result_quiet, ?was_started_quiet; done).

Lemma inv_OComplete n os e cs fn : inv n os e cs →
  inv n (os ++ [OComplete fn]) (onComplete e fn).1 (cs ++ (onComplete e fn).2).
Proof.
  intros [I1 I2 I3 I4 I5 I6 I7 I8 I9 I10 I11]. unfold onComplete.
  destruct (remaining e =? 0) eqn:Hr; cbn [negb fst snd]; quiet_step I1 I2 I3 Hr.
  - unfold completions. rewrite omap_app, map_app. fold (completions cs). by rewrite I8.
  - unfold exited. rewrite omap_app. fold (exited cs). rewrite I11. cbn. by rewrite app_nil_r.
  - by rewrite I7.
Qed.

Lemma inv_OOnExit n os e cs fn : inv n os e cs → inv n (os ++ [OOnExit fn]) (onExit e fn).1 (cs ++ (onExit e fn).2).
Proof.
  intros [I1 I2 I3 I4 I5 I6 I7 I8 I9 I10 I11]. unfold onExit.
  destruct (work e =? 0) eqn:Hr; cbn [negb fst snd]; quiet_step I1 I2 I3 Hr.
  - unfold completions. rewrite omap_app. fold (completions cs). rewrite I8. cbn. by rewrite app_nil_r.
  - unfold exited. rewrite omap_app. fold (exited cs). by rewrite I11.
  - by rewrite I10.
Qed.

Lemma exited_map l : exited (map Exited l) = l.
Proof. induction l as [|x l IH]; [done|]. cbn. by f_equal. Qed.
Lemma completions_exited l : completions (map Exited l) = [].
Proof. by induction l. Qed.
Lemma completions_map rs l : completions (map (λ fn, Complete fn rs) l) = map (λ fn, (fn, rs)) l.
Proof. induction l as [|x l IH]; [done|]. cbn. by f_equal. Qed.
Lemma exited_completions rs l : exited (map (λ fn, Complete fn rs) l) = [].
Proof. by induction l. Qed.

Lemma inv_OExit n os e cs : inv n os e cs → (exits os < n)%nat → inv n (os ++ [OExit]) (exit e).1 (cs ++ (exit e).2).
Proof.
  intros [I1 I2 I3 I4 I5 I6 I7 I8 I9 I10 I11] Hn. unfold exit.
  assert ((work e =? 0) = false) as Hw by (apply Z.eqb_neq; lia). rewrite Hw in I10, I11.
  destruct (work e - 1 =? 0) eqn:Hr; cbn [negb fst snd]; quiet_step I1 I2 I3 Hr; try lia.
  - rewrite I5. by rewrite orb_false_r.
  - unfold completions. rewrite omap_app. fold (completions cs) (completions (map Exited (exitCallbacks e))).
    by rewrite I8, completions_exited, app_nil_r.
  - unfold exited. rewrite omap_app. fold (exited cs) (exited (map Exited (exitCallbacks e))).
    by rewrite I11, exited_map, I10.
Qed.

Lemma inv_OStart n os e cs i : inv n os e cs → (i < n)%nat →
  ∃ e', start e i = Ok e' ∧ inv n (os ++ [OStart i]) e' cs.
Proof.
  intros [I1 I2 I3 I4 I5 I6 I7 I8 I9 I10 I11] Hi. unfold start. rewrite I3, lookup_map_seq by done.
  eexists; split; [done|].
  assert (∀ j st, first_result j st (os ++ [OStart i]) = first_result j st os) as Hf.
  { intros j st. rewrite first_result_snoc. by destruct (first_result j st os). }
  split; cbn [results finished started remaining done cancelled callbacks work exitCallbacks];
    rewrite ?registered_snoc, ?exit_registered_snoc, ?exits_snoc, ?app_nil_r, ?Nat.add_0_r; try done.
  - rewrite I1. apply map_seq_ext. intros j. by rewrite Hf.
  - rewrite I2. apply map_seq_ext. intros j. by rewrite Hf.
  - apply insert_map_seq; [done| |].
    + by rewrite was_started_snoc, Nat.eqb_refl, orb_true_r.
    + intros j Hj. rewrite was_started_snoc. by rewrite (proj2 (Nat.eqb_neq j i) Hj), orb_false_r.
Qed.

Lemma first_result_other j i r os st : j ≠ i → first_result j st (os ++ [OFinish i r]) = first_result j st os.
Proof. intros Hj. rewrite first_result_snoc. rewrite (proj2 (Nat.eqb_neq j i) Hj). by destruct (first_result j st os). Qed.
Lemma was_started_finish j i r os st : was_started j st (os ++ [OFinish i r]) = was_started j st os.
Proof. by rewrite was_started_snoc, orb_false_r. Qed.

(** A second result for a receiver is dropped. *)
Lemma inv_finish_again n os e cs i r r0 : inv n os e cs → first_result i false os = Some r0 →
  inv n (os ++ [OFinish i r]) e cs.
Proof.
  intros [I1 I2 I3 I4 I5 I6 I7 I8 I9 I10 I11] Hr.
  assert (∀ j, first_result j false (os ++ [OFinish i r]) = first_result j false os) as Hf.
  { intros j. destruct (decide (j = i)) as [->|]; [|by apply first_result_other]. by rewrite first_result_snoc, Hr. }
  split; rewrite ?registered_snoc, ?exit_registered_snoc, ?exits_snoc, ?app_nil_r, ?Nat.add_0_r; try done.
  - rewrite I1. apply map_seq_ext. intros j. by rewrite Hf.
  - rewrite I2. apply map_seq_ext. intros j. by rewrite Hf.
  - rewrite I3. apply map_seq_ext. intros j. by rewrite was_started_finish.
Qed.

Lemma inv_finish_first n os e cs i r : inv n os e cs → (i < n)%nat → first_result i false os = None →
  ∃ e' c, finish e i r = Ok (e', c) ∧ inv n (os ++ [OFinish i r]) e' (cs ++ c).
Proof.
  intros [I1 I2 I3 I4 I5 I6 I7 I8 I9 I10 I11] Hi Hr. unfold finish.
  assert (finished e !! i = Some false) as Hfi by (by rewrite I2, lookup_map_seq, Hr).
  rewrite Hfi, I3, lookup_map_seq, <- I3 by done.
  set (r' := {| Value := Value r; Error := Error r; Started := Started r || was_started i false os |}).
  assert (first_result i false (os ++ [OFinish i r]) = Some r') as Hf by by rewrite first_result_snoc, Hr, Nat.eqb_refl.
  pose proof (open_count_insert _ _ Hfi) as Hoc.
  assert ((remaining e =? 0) = false) as Hrem by (apply Z.eqb_neq; lia). rewrite Hrem in I5, I6, I7, I8.
  assert (<[i := r']> (results e) = map (λ i0, default zero_result (first_result i0 false (os ++ [OFinish i r]))) (seq 0 n)) as Hres.
  { rewrite I1. apply insert_map_seq; [done|by rewrite Hf|]. intros j Hj. by rewrite first_result_other. }
  assert (<[i := true]> (finished e) = map (λ i0, is_some (first_result i0 false (os ++ [OFinish i r]))) (seq 0 n)) as Hfin.
  { rewrite I2. apply insert_map_seq; [done|by rewrite Hf|]. intros j Hj. by rewrite first_result_other. }
  assert (started e = map (λ i0, was_started i0 false (os ++ [OFinish i r])) (seq 0 n)) as Hsta.
  { rewrite I3. apply map_seq_ext. intros j. by rewrite was_started_finish. }
  destruct (remaining e - 1 =? 0) eqn:Hz; cbn [negb]; rewrite ?I5; cbn [close_done res_bind];
    eexists _, _; (split; [done|]);
    (split; cbn [results finished started remaining done cancelled callbacks work exitCallbacks];
     rewrite ?Hz, ?registered_snoc, ?exit_registered_snoc, ?exits_snoc, ?app_nil_r, ?Nat.add_0_r; try done; try lia).
  - unfold completions. rewrite omap_app. fold (completions cs).
    rewrite I8. cbn [app]. rewrite <- I7. apply completions_map.
  - unfold exited. rewrite omap_app. fold (exited cs).
    pose proof (exited_completions (<[i:=r']> (results e)) (callbacks e)) as Hx. unfold exited in Hx.
    rewrite Hx, app_nil_r. done.
Qed.

Lemma inv_OFinish n os e cs i r : inv n os e cs → (i < n)%nat →
  ∃ e' c, finish e i r = Ok (e', c) ∧ inv n (os ++ [OFinish i r]) e' (cs ++ c).
Proof.
  intros Hinv Hi. destruct (first_result i false os) as [r0|] eqn:Hr; [|by apply inv_finish_first].
  exists e, []. rewrite app_nil_r. split; [|by eapply inv_finish_again].
  unfold finish. by rewrite (iv_finished _ _ _ _ Hinv), lookup_map_seq, Hr.
Qed.

Lemma run_snoc os o : ∀ e, run e (os ++ [o]) =
  let* (e, c1) := run e os in let* (e, c2) := step e o in Ok (e, c1 ++ c2).
Proof.
  induction os as [|o' os IH]; intros e; cbn [app run res_bind].
  - destruct (step e o) as [[e' c]| |]; cbn [res_bind]; [|done..]. by rewrite app_nil_r.
  - destruct (step e o') as [[e1 c1]| |]; cbn [res_bind]; [|done..]. rewrite IH.
    destruct (run e1 os) as [[e2 c2]| |]; cbn [res_bind]; [|done..].
    destruct (step e2 o) as [[e3 c3]| |]; cbn [res_bind]; [|done..]. by rewrite app_assoc.
Qed.

Lemma emission_run_inv n os : Forall (index_ok n) os → (exits os ≤ n)%nat →
  ∃ e cs, run (newEmission n true) os = Ok (e, cs) ∧ inv n os e cs.
Proof.
  induction os as [|o os IH] using rev_ind; intros Hok Hex.
  { eexists _, []. split; [done|]. apply inv_new. }
  apply Forall_app in Hok as [Hok Ho]. apply Forall_inv in Ho. rewrite exits_snoc in Hex.
  destruct IH as (e & cs & Hr & Hi); [done|lia|]. rewrite run_snoc, Hr. cbn [res_bind].
  destruct o as [i|i r|fn| |fn]; cbn [step index_ok] in *.
  - destruct (inv_OStart _ _ _ _ i Hi Ho) as (e' & -> & Hi'). cbn [res_bind]. eexists _, _. split; [done|].
    by rewrite app_nil_r.
  - destruct (inv_OFinish _ _ _ _ i r Hi Ho) as (e' & c & -> & Hi'). cbn [res_bind]. by eexists _, _.
  - eexists _, _. split; [|by apply inv_OComplete]. cbn [res_bind]. by destruct (onComplete e fn).
  - eexists _, _. split; [|apply inv_OExit; [done|lia]]. cbn [res_bind]. by destruct (exit e).
  - eexists _, _. split; [|by apply inv_OOnExit]. cbn [res_bind]. by destruct (onExit e fn).
Qed.

Lemma open_count_zero fs : open_count fs = 0%nat ↔ ∀ b, b ∈ fs → b = true.
Proof.
  unfold open_count. split.
  - intros H b Hb. destruct b; [done|]. exfalso. assert (false ∈ filter (λ b, b = false) fs) as Hin by by apply list_elem_of_filter.
    by rewrite (nil_length_inv _ H) in Hin; apply elem_of_nil in Hin.
  - intros H. destruct (filter (λ b, b = false) fs) as [|b l] eqn:Hf; [done|]. exfalso.
    assert (b ∈ filter (λ b, b = false) fs) as Hin by (rewrite Hf; by left).
    apply list_elem_of_filter in Hin as [-> Hin]. by apply H in Hin.
Qed.

Lemma remaining_zero n os e cs : inv n os e cs → (remaining e =? 0) = all_finished n os.
Proof.
  intros Hi. apply eq_iff_eq_true. rewrite Z.eqb_eq, (iv_remaining _ _ _ _ Hi). unfold all_finished. rewrite forallb_forall.
  transitivity (open_count (finished e) = 0%nat); [lia|]. rewrite open_count_zero, (iv_finished _ _ _ _ Hi). split.
  - intros H i Hin. apply H. apply list_elem_of_In, in_map_iff. by exists i.
  - intros H b (i & <- & Hin)%list_elem_of_In%in_map_iff. by apply H in Hin.
Qed.

(** An emission with [n] receivers completes exactly once. Whatever the
    order of starts, results (repeated ones included), registrations and exits,
    nothing panics; the channel is closed and the context cancelled exactly
    when every receiver has reported; a receiver's result is the first it
    reported; and each callback of [onComplete], registered before or after
    that moment, is called once, with the complete results. Each callback of
    [onExit] is called once, when the last of the [n] units of work exits. *)
Lemma emission_completes n os : Forall (index_ok n) os → (exits os ≤ n)%nat →
  ∃ e cs, run (newEmission n true) os = Ok (e, cs)
    ∧ done e = Some (all_finished n os) ∧ cancelled e = all_finished n os
    ∧ (∀ i r, first_result i false os = Some r → (i < n)%nat → results e !! i = Some r)
    ∧ completions cs = (if all_finished n os then map (λ fn, (fn, results e)) (registered os) else [])
    ∧ exited cs = (if Nat.eqb (exits os) n then exit_registered os else []).
Proof.
  intros Hok Hex. destruct (emission_run_inv n os Hok Hex) as (e & cs & Hr & Hi). exists e, cs.
  rewrite <- (remaining_zero _ _ _ _ Hi). split_and!; try apply Hi; try done.
  - intros i r Hf Hlt. by rewrite (iv_results _ _ _ _ Hi), lookup_map_seq, Hf.
  - rewrite (iv_exited _ _ _ _ Hi), (iv_work _ _ _ _ Hi). destruct (Nat.eqb_spec (exits os) n) as [->|Hne].
    + by rewrite Z.sub_diag.
    + by rewrite (proj2 (Z.eqb_neq _ _)) by lia.
Qed.
End emission.
Arguments Result R : clear implicits.
Arguments emission R : clear implicits.
Arguments op R : clear implicits.
Arguments call R : clear implicits.

Definition sample_result (v : nat) : Result nat := {| Value := v; Error := None; Started := false |}.
Definition sample_ops : list (op nat) :=
  [OComplete 7; OStart 1; OFinish 1 (sample_result 5); OFinish 1 (sample_result 6); OOnExit 8; OExit;
   OFinish 0 (sample_result 4); OComplete 9; OExit]%nat.
Lemma emission_completes_witness : ∃ e cs, run (newEmission 0%nat 2 true) sample_ops = Ok (e, cs)
    ∧ done e = Some (all_finished 2 sample_ops) ∧ cancelled e = all_finished 2 sample_ops
    ∧ (∀ i r, first_result i false sample_ops = Some r → (i < 2)%nat → results e !! i = Some r)
    ∧ completions cs = (if all_finished 2 sample_ops then map (λ fn, (fn, results e)) (registered sample_ops) else [])
    ∧ exited cs = (if Nat.eqb (exits sample_ops) 2 then exit_registered sample_ops else []).
Proof.
  apply emission_completes; [|vm_compute; lia]. repeat constructor; cbn; lia.
Defined.
Example sample_complete : all_finished 2 sample_ops = true.
Proof. reflexivity. Qed.
