(* ===== verification/Signal.v ===== *)
(** * Signals: connections and the admission of an emission
    ([internal/signal/connection.go], [internal/signal/signal.go])

    A signal has a snapshot of slots, one per connected receiver, and a queue.
    [emit] takes one connection task and submits one job per slot; this model
    runs the loop of one emission without the workers in between. *)
From S2P Require Import Prelude GoStr Queue QueueProps QueueSystem Emission.
Open Scope Z_scope.

(** ** Connections

    [tasks] holds the accepted callbacks that have not returned. *)
Record connection := Connection {
  tasks : gset nat;
  c_shutdown : ShutdownPolicy;
  c_closed : bool;
  c_done : bool
}.
Definition new_connection (p : ShutdownPolicy) : connection := Connection ∅ p false false.

Definition acquire (c : connection) (t : nat) : connection * bool :=
  if c_closed c then (c, false)
  else (Connection ({[t]} ∪ tasks c) (c_shutdown c) (c_closed c) (c_done c), true).
Definition close_if_idle (c : connection) : connection :=
  if bool_decide (tasks c = ∅)
  then (if c_done c then c else Connection (tasks c) (c_shutdown c) (c_closed c) true)
  else c.
Definition release (c : connection) (t : nat) : connection :=
  let c := Connection (tasks c ∖ {[t]}) (c_shutdown c) (c_closed c) (c_done c) in
  if c_closed c then close_if_idle c else c.
(** The second result: the tasks whose context is cancelled. *)
Definition BeginClose (c : connection) : connection * list nat :=
  let c := Connection (tasks c) (c_shutdown c) true (c_done c) in
  (close_if_idle c, if bool_decide (c_shutdown c = CancelPending) then elements (tasks c) else []).

(** ** Signals *)
Inductive receiver := HandlerReceiver | ObserverReceiver | ForwardReceiver.
(** A slot is known by its connection. *)
Record slot := Slot { s_kind : receiver; s_shutdown : ShutdownPolicy; s_conn : nat }.

Record Options := { o_Required : bool; o_Single : bool }.
Record signal := Signal {
  options : Options;
  closed : bool;
  slots : list slot;
  connections : gmap nat connection;
  next : nat;                        (* names of connections and tasks not used yet *)
  sqs : sys
}.

Definition connect (s : signal) (kind : receiver) (p : ShutdownPolicy) : res (signal * nat) :=
  if closed s then Err §"signal: queue closed"
  else if o_Single (options s) && negb (is_nil (slots s)) then Err §"signal: receiver already connected"
  else
    let c := next s in
    Ok (Signal (options s) (closed s) (slots s ++ [Slot kind p c]) (<[c := new_connection p]> (connections s))
               (S c) (sqs s), c).

Fixpoint drop_slot (c : nat) (l : list slot) : list slot :=
  match l with
  | [] => []
  | x :: l => if Nat.eqb (s_conn x) c then l else x :: drop_slot c l
  end.
Definition remove (s : signal) (c : nat) : signal :=
  if closed s then s
  else Signal (options s) (closed s) (drop_slot c (slots s)) (connections s) (next s) (sqs s).

Fixpoint close_connections (cs : gmap nat connection) (l : list slot) : gmap nat connection :=
  match l with
  | [] => cs
  | x :: l =>
    close_connections (match cs !! s_conn x with
                       | Some c => <[s_conn x := (BeginClose c).1]> cs
                       | None => cs
                       end) l
  end.
(** [Signal.BeginClose]; [order] is the order of the lanes in [stop]. *)
Definition Signal_BeginClose (s : signal) (order : list lane_key) : res signal :=
  if closed s then Ok s
  else
    let* q := QueueSystem.step (sqs s) (LStop false order) in
    Ok (Signal (options s) true (slots s) (close_connections (connections s) (slots s)) (next s) q).

(** ** Emission *)
Section emit.
  Context {R : Type} (zero : R).

Definition error_result (err : gostring) : Result R := {| Value := zero; Error := Some err; Started := false |}.

(** The loop over the receivers that were not admitted. *)
Fixpoint reject (e : emission R) (synchronous : bool) (js : list nat) (err : gostring) :
    res (emission R * list (call R)) :=
  match js with
  | [] => Ok (e, [])
  | j :: js =>
    let* (e, c1) := (if synchronous then finish e j (error_result err) else Ok (e, [])) in
    let (e, c2) := exit e in
    let* (e, c3) := reject e synchronous js err in Ok (e, c1 ++ c2 ++ c3)
  end.

(** [queue.Submit] for this signal, with the history of the queue. *)
Definition submit (q : sys) (k : lane_key) (p : ShutdownPolicy) (ctxErr : bool) : res (sys * admission) :=
  let j := Job (length (log q)) k p in
  let* (q', a) := Submit (sq q) true ctxErr j in
  Ok (Sys q' (match a with Accepted => log q ++ [j] | _ => log q end) (QueueSystem.started q) (batches q) (QueueSystem.finished q), a).
(** The queue of a signal never waits for capacity, so it is never [Blocked]. *)
Definition admission_error (a : admission) : option gostring :=
  match a with
  | Accepted | Blocked => None
  | ErrNilTask => Some §"signal: nil task"
  | ErrClosed => Some §"signal: queue closed"
  | ErrContext => Some §"context canceled"
  | ErrQueueFull => Some §"signal: queue full"
  end.

(** The loop of [emit] over the entries, the first of which has index [i] of
    [n]; [ctxErr] says for which receivers the context has ended when they are
    submitted. *)
Fixpoint emit_loop (s : signal) (e : emission R) (synchronous : bool) (k : lane_key) (ctxErr : nat → bool)
    (n i : nat) (entries : list slot) : res (signal * emission R * list (call R) * option gostring) :=
  match entries with
  | [] => Ok (s, e, [], None)
  | x :: entries =>
    match connections s !! s_conn x with
    | None => Panic
    | Some c =>
      let t := next s in
      let (c', owned) := acquire c t in
      if negb owned then
        let* (e, cs) := reject e synchronous (seq i (n - i)) §"signal: queue closed" in
        Ok (s, e, cs, Some §"signal: queue closed")
      else
        let s1 := Signal (options s) (closed s) (slots s) (<[s_conn x := c']> (connections s)) (S t) (sqs s) in
        let* (q, a) := submit (sqs s1) k (s_shutdown x) (ctxErr i) in
        match admission_error a with
        | Some err =>
          let s2 := Signal (options s1) (closed s1) (slots s1)
                           (<[s_conn x := release c' t]> (connections s1)) (next s1) q in
          let* (e, cs) := reject e synchronous (seq i (n - i)) err in
          Ok (s2, e, cs, Some err)
        | None =>
          emit_loop (Signal (options s1) (closed s1) (slots s1) (connections s1) (next s1) q) e synchronous k ctxErr n
                    (S i) entries
        end
    end
  end.

Definition is_handler (x : slot) : bool := match s_kind x with HandlerReceiver => true | _ => false end.

(** [emit]: the guards, then the loop. [recursive] says whether this signal is
    already on the call path of the context. *)
Definition emit (s : signal) (synchronous recursive ctx : bool) (k : lane_key) (ctxErr : nat → bool) :
    res (signal * emission R * list (call R) * option gostring) :=
  if closed s then Err §"signal: queue closed"
  else if ctx then Err §"context canceled"
  else if recursive then Err §"signal: recursive dependency"
  else if is_nil (slots s) && o_Required (options s) then Err §"signal: no receiver"
  else if negb synchronous && existsb is_handler (slots s)
  then Err §"signal: asynchronous emission requires observers"
  else
    emit_loop s (newEmission zero (length (slots s)) synchronous) synchronous k ctxErr (length (slots s)) 0 (slots s).
End emit.

(** * What a signal promises about admission and shutdown *)

(** ** Connections *)
Inductive conn_op := CAcquire (t : nat) | CRelease (t : nat) | CBeginClose.
Definition conn_step (c : connection) (o : conn_op) : connection :=
  match o with
  | CAcquire t => (acquire c t).1
  | CRelease t => release c t
  | CBeginClose => (BeginClose c).1
  end.
Definition conn_run (c : connection) (os : list conn_op) : connection := fold_left conn_step os c.

(** The tasks accepted before the close and not released since. *)
Fixpoint outstanding (ts : gset nat) (closing : bool) (os : list conn_op) : gset nat :=
  match os with
  | [] => ts
  | CAcquire t :: os => outstanding (if closing then ts else {[t]} ∪ ts) closing os
  | CRelease t :: os => outstanding (ts ∖ {[t]}) closing os
  | CBeginClose :: os => outstanding ts true os
  end.
Definition is_close (o : conn_op) : bool := match o with CBeginClose => true | _ => false end.

Definition conn_ok (c : connection) : Prop := c_done c = c_closed c && bool_decide (tasks c = ∅).

Lemma close_if_idle_ok c : c_closed c = true → (c_done c = true → tasks c = ∅) →
  conn_ok (close_if_idle c) ∧ tasks (close_if_idle c) = tasks c ∧ c_closed (close_if_idle c) = c_closed c
  ∧ c_shutdown (close_if_idle c) = c_shutdown c.
Proof.
  intros Hc Hd. unfold close_if_idle, conn_ok. destruct (bool_decide (tasks c = ∅)) eqn:He.
  - destruct (c_done c) eqn:Hdn; cbn [c_done c_closed tasks]; by rewrite ?Hdn, Hc, He.
  - rewrite Hc, He. split_and!; try done. apply bool_decide_eq_false in He. destruct (c_done c); [|done].
    by destruct (He (Hd eq_refl)).
Qed.

Lemma conn_run_ok os : ∀ c, conn_ok c →
  conn_ok (conn_run c os) ∧ tasks (conn_run c os) = outstanding (tasks c) (c_closed c) os
  ∧ c_closed (conn_run c os) = c_closed c || existsb is_close os.
Proof.
  induction os as [|o os IH]; intros c Hc; cbn [conn_run fold_left outstanding existsb]; [by rewrite orb_false_r|].
  fold (conn_run (conn_step c o) os).
  assert (conn_ok (conn_step c o)
    ∧ outstanding (tasks (conn_step c o)) (c_closed (conn_step c o)) os = outstanding (tasks c) (c_closed c) (o :: os)
    ∧ c_closed (conn_step c o) = c_closed c || is_close o) as (H1 & H2 & H3).
  { destruct o as [t|t|]; cbn [conn_step outstanding is_close]; rewrite ?orb_false_r, ?orb_true_r.
    - unfold acquire. destruct (c_closed c) eqn:Hcl; cbn [fst]; [by rewrite Hcl|]. cbn [tasks c_closed].
      split_and!; try done. unfold conn_ok in *. cbn [c_done c_closed tasks]. by rewrite Hc, Hcl.
    - unfold release. destruct (c_closed c) eqn:Hcl; cbn [c_closed]; rewrite ?Hcl.
      + edestruct (close_if_idle_ok (Connection (tasks c ∖ {[t]}) (c_shutdown c) true (c_done c))) as (K1 & K2 & K3 & _);
          [done| |by rewrite K2, K3].
        cbn [c_done tasks]. unfold conn_ok in Hc. rewrite Hc, Hcl. cbn [andb]. rewrite bool_decide_eq_true. intros ->. apply subseteq_empty_difference_L, empty_subseteq.
      + cbn [tasks c_closed]. split_and!; try done. unfold conn_ok in *. cbn [c_done c_closed tasks]. by rewrite Hc, Hcl.
    - unfold BeginClose. cbn [fst].
      edestruct (close_if_idle_ok (Connection (tasks c) (c_shutdown c) true (c_done c))) as (K1 & K2 & K3 & _);
        [done| |by rewrite K2, K3].
      cbn [c_done tasks]. unfold conn_ok in Hc. rewrite Hc. destruct (c_closed c); [|done]. cbn [andb].
      by rewrite bool_decide_eq_true. }
  destruct (IH _ H1) as (K1 & K2 & K3). split_and!; [done|by rewrite K2|]. rewrite K3, H3. by rewrite orb_assoc.
Qed.

(** A connection accepts tasks until it begins to close; from then on its
    channel is closed (once) exactly when every task it accepted has been
    released. *)
Lemma connection_joins p os : let c := conn_run (new_connection p) os in
  tasks c = outstanding ∅ false os
  ∧ (c_closed c = true ↔ ∃ o, o ∈ os ∧ is_close o = true)
  ∧ (c_done c = true ↔ c_closed c = true ∧ tasks c = ∅).
Proof.
  intros c. destruct (conn_run_ok os (new_connection p)) as (H1 & H2 & H3); [done|]. split_and!; [done| |].
  - subst c. rewrite H3. cbn [new_connection c_closed orb]. rewrite existsb_exists. by setoid_rewrite list_elem_of_In.
  - unfold conn_ok in H1. subst c. rewrite H1, andb_true_iff, bool_decide_eq_true. done.
Qed.

(** ** The admission of an emission *)
Section emit.
  Context {R : Type} (zero : R).

Record sig_ok (s : signal) : Prop := {
  so_queue : QueueSystem.inv (sqs s);
  so_block : waitForCapacity (sq (sqs s)) = false;
  so_slots : ∀ x, x ∈ slots s → is_Some (connections s !! s_conn x);
  so_conns : ∀ c x t, connections s !! c = Some x → t ∈ tasks x → (t < next s)%nat
}.

(** The tasks of all connections. *)
Definition accepted_tasks (cs : gmap nat connection) : list nat := map_to_list cs ≫= λ p, elements (tasks p.2).

Lemma accepted_insert cs k c : accepted_tasks (<[k := c]> cs) ≡ₚ elements (tasks c) ++ accepted_tasks (delete k cs).
Proof.
  unfold accepted_tasks. rewrite <- (map_to_list_delete (<[k := c]> cs) k c) by apply lookup_insert_eq.
  by rewrite delete_insert_eq.
Qed.
Lemma accepted_lookup cs k c : cs !! k = Some c → accepted_tasks cs ≡ₚ elements (tasks c) ++ accepted_tasks (delete k cs).
Proof. intros Hc. rewrite <- accepted_insert. by rewrite insert_id. Qed.

Lemma accepted_acquire cs k c t : cs !! k = Some c → ¬ (t ∈ tasks c) →
  accepted_tasks (<[k := Connection ({[t]} ∪ tasks c) (c_shutdown c) (c_closed c) (c_done c)]> cs) ≡ₚ t :: accepted_tasks cs.
Proof.
  intros Hc Ht. rewrite accepted_insert, (accepted_lookup cs k c Hc). cbn [tasks].
  by rewrite elements_union_singleton.
Qed.
Lemma accepted_same cs k c c' : cs !! k = Some c → tasks c' = tasks c → accepted_tasks (<[k := c']> cs) ≡ₚ accepted_tasks cs.
Proof. intros Hc Ht. by rewrite accepted_insert, (accepted_lookup cs k c Hc), Ht. Qed.

(** The rejection loop is a history of the emission. *)
Definition reject_ops (js : list nat) (err : gostring) : list (op R) :=
  js ≫= λ j, [OFinish j (error_result zero err); OExit].

Lemma reject_run e js err : reject zero e true js err = run e (reject_ops js err).
Proof.
  revert e. induction js as [|j js IH]; intros e; cbn [reject]; [done|].
  unfold reject_ops. cbn [mbind list_bind]. fold (reject_ops js err). cbn [app run Emission.step].
  destruct (finish e j _) as [[e1 c1]| |]; cbn [res_bind]; [|done..].
  destruct (exit e1) as [e2 c2]. cbn [res_bind]. rewrite IH.
  destruct (run e2 (reject_ops js err)) as [[e3 c3]| |]; done.
Qed.

Lemma reject_ops_ok n i err : (i ≤ n)%nat → Forall (index_ok n) (reject_ops (seq i (n - i)) err) ∧ (exits (reject_ops (seq i (n - i)) err) ≤ n)%nat.
Proof.
  intros Hi. assert (∀ m k, (k + m ≤ n)%nat → Forall (index_ok n) (reject_ops (seq k m) err) ∧ exits (reject_ops (seq k m) err) = m) as H.
  { induction m as [|m IH]; intros k Hk; cbn [seq]; [by split; [constructor|]|].
    destruct (IH (S k)) as [H1 H2]; [lia|]. unfold reject_ops in *. cbn [mbind list_bind]. split.
    - constructor; [cbn; lia|]. constructor; [done|]. exact H1.
    - unfold exits in *. cbn [app map]. rewrite filter_cons_False, filter_cons_True by done. cbn [length]. by f_equal. }
  destruct (H (n - i)%nat i) as [H1 H2]; [lia|]. split; [done|]. rewrite H2. lia.
Qed.

Lemma first_result_reject j i m err : first_result j false (reject_ops (seq i m) err) =
  if (i <=? j)%nat && (j <? i + m)%nat then Some (error_result zero err) else None.
Proof.
  revert i. induction m as [|m IH]; intros i; cbn [seq]; unfold reject_ops; cbn [mbind list_bind].
  - cbn [first_result]. destruct (i <=? j)%nat eqn:H1; [|done]. destruct (j <? i + 0)%nat eqn:H2; [|done].
    apply Nat.leb_le in H1. apply Nat.ltb_lt in H2. lia.
  - cbn [app first_result]. fold (reject_ops (seq (S i) m) err). rewrite IH. destruct (Nat.eqb_spec j i) as [->|Hne].
    + rewrite Nat.leb_refl. by rewrite (proj2 (Nat.ltb_lt _ _)) by lia.
    + apply eq_sym. destruct (Nat.leb_spec i j), (Nat.leb_spec (S i) j), (Nat.ltb_spec j (i + S m)), (Nat.ltb_spec j (S i + m)); done || lia.
Qed.

Lemma reject_exits i m err : exits (reject_ops (seq i m) err) = m.
Proof.
  revert i. induction m as [|m IH]; intros i; [done|]. unfold reject_ops, exits in *. cbn [seq mbind list_bind app map].
  rewrite filter_cons_False, filter_cons_True by done. cbn [length]. f_equal. apply IH.
Qed.

(** The receivers not rejected are still open. *)
Lemma reject_remaining n m err e cs : (m ≤ n)%nat → Emission.inv zero n (reject_ops (seq m (n - m)) err) e cs →
  remaining e = Z.of_nat m.
Proof.
  intros Hm Hi. rewrite (iv_remaining _ _ _ _ _ Hi), (iv_finished _ _ _ _ _ Hi). f_equal.
  rewrite (map_ext_in _ (λ i, (m <=? i)%nat)).
  - replace n with (m + (n - m))%nat by lia. rewrite seq_app, map_app. unfold open_count. rewrite filter_app, length_app.
    assert (map (λ i, (m <=? i)%nat) (seq 0 m) = replicate m false) as ->.
    { rewrite replicate_map_seq. apply map_ext_in. intros i [_ Hi']%in_seq. apply Nat.leb_gt. lia. }
    assert (map (λ i, (m <=? i)%nat) (seq (0 + m) (n - m)) = replicate (n - m) true) as ->.
    { rewrite <- (map_const_seq true (n - m) (0 + m)). apply map_ext_in. intros i [Hi' _]%in_seq. apply Nat.leb_le. lia. }
    pose proof (open_count_replicate m) as Ho. unfold open_count in Ho. rewrite Ho.
    assert (filter (λ b, b = false) (replicate (n - m) true) = []) as ->; [|cbn; lia].
    generalize (n - m)%nat. clear. induction n as [|n IH]; [done|]. cbn [replicate]. by rewrite filter_cons_False.
  - intros i [_ Hi']%in_seq. rewrite first_result_reject. cbn [Nat.add] in Hi'.
    rewrite (proj2 (Nat.ltb_lt i (m + (n - m)))) by lia. by destruct (m <=? i)%nat.
Qed.

(** The jobs of the first [m] receivers. *)
Definition jobs_of (k : lane_key) (base : nat) (entries : list slot) : list job :=
  imap (λ i x, Job (base + i) k (s_shutdown x)) entries.

Lemma submit_ok q k p c : QueueSystem.inv q → waitForCapacity (sq q) = false →
  ∃ q' a, submit q k p c = Ok (q', a) ∧ QueueSystem.inv q' ∧ waitForCapacity (sq q') = false
    ∧ match admission_error a with
      | None => log q' = log q ++ [Job (length (log q)) k p]
      | Some _ => log q' = log q
      end.
Proof.
  intros Hi Hw. destruct (queue_keeps_submit q k p true c Hi) as (q' & Hs & Hi').
  pose proof (step_follows _ _ _ Hs) as [Hf _]. injection Hf as _ _ Hwf. revert Hs. cbn [QueueSystem.step]. unfold submit.
  destruct (Submit (sq q) true c (Job (length (log q)) k p)) as [[q1 a]| |] eqn:Hsub; [|done..]. cbn [res_bind].
  intros [= <-]. eexists _, a. split; [done|]. cbn [sq] in Hwf. split_and!; [done|by rewrite <- Hw|].
  cbn [log]. unfold Submit in Hsub. rewrite Hw in Hsub. cbn [negb] in Hsub.
  destruct (Queue.closed (sq q)); [by injection Hsub as <- <-|]. destruct c; [by injection Hsub as <- <-|].
  destruct (_ =? _); [by injection Hsub as <- <-|]. destruct (admit_job (sq q) _); [|done..]. by injection Hsub as <- <-.
Qed.

Lemma acquire_true c t c' : acquire c t = (c', true) →
  c' = Connection ({[t]} ∪ tasks c) (c_shutdown c) (c_closed c) (c_done c) ∧ c_closed c = false.
Proof. unfold acquire. destruct (c_closed c); [done|]. by intros [= <-]. Qed.

Lemma release_acquired c t : c_closed c = false → ¬ (t ∈ tasks c) →
  tasks (release (Connection ({[t]} ∪ tasks c) (c_shutdown c) (c_closed c) (c_done c)) t) = tasks c.
Proof.
  intros Hc Ht. unfold release. cbn [c_closed]. rewrite Hc. cbn [tasks].
  rewrite difference_union_distr_l_L, difference_diag_L, (left_id_L ∅ (∪)). apply difference_disjoint_L. by apply disjoint_singleton_r.
Qed.

(** The state after a receiver was admitted, or refused after its task was taken. *)
Lemma sig_ok_after s x c' c q : sig_ok s → connections s !! s_conn x = Some c →
  (∀ t, t ∈ tasks c' → t ∈ tasks c ∨ t = next s) →
  QueueSystem.inv q → waitForCapacity (sq q) = false →
  sig_ok (Signal (options s) (closed s) (slots s) (<[s_conn x := c']> (connections s)) (S (next s)) q).
Proof.
  intros [S1 S2 S3 S4] Hc Ht Hq Hw. split; cbn [sqs slots connections next]; try done.
  - intros y Hy. destruct (decide (s_conn y = s_conn x)) as [->|Hne].
    + rewrite lookup_insert_eq. by eexists.
    + rewrite lookup_insert_ne by congruence. auto.
  - intros d y t Hy Hin. destruct (decide (d = s_conn x)) as [->|Hne].
    + rewrite lookup_insert_eq in Hy. injection Hy as <-. destruct (Ht t Hin) as [Hin'| ->]; [|lia].
      pose proof (S4 _ _ _ Hc Hin'). lia.
    + rewrite lookup_insert_ne in Hy by congruence. pose proof (S4 _ _ _ Hy Hin). lia.
Qed.

(** The same slots and connections, with other tasks. *)
Record same_shape (s s' : signal) : Prop := {
  sh_options : options s' = options s;
  sh_closed : closed s' = closed s;
  sh_slots : slots s' = slots s;
  sh_next : (next s ≤ next s')%nat;
  sh_conns : ∀ c y, connections s' !! c = Some y →
    ∃ x, connections s !! c = Some x ∧ (conn_ok x → conn_ok y) ∧ c_closed y = c_closed x
}.
Lemma same_shape_refl s : same_shape s s.
Proof. split; try done. eauto. Qed.
Lemma same_shape_trans s1 s2 s3 : same_shape s1 s2 → same_shape s2 s3 → same_shape s1 s3.
Proof.
  intros [A1 A2 A3 A4 A5] [B1 B2 B3 B4 B5]. split; try congruence; [lia|].
  intros c z (y & Hy & Hok & Hc)%B5. apply A5 in Hy as (x & Hx & Hok' & Hc'). exists x. split_and!; [done|auto|congruence].
Qed.
(** A step on the task of an open connection. *)
Lemma same_shape_conn s k c c' q : connections s !! k = Some c → c_closed c = false → c_closed c' = false →
  c_done c' = c_done c →
  same_shape s (Signal (options s) (closed s) (slots s) (<[k := c']> (connections s)) (S (next s)) q).
Proof.
  intros Hc Ho Ho' Hd. split; cbn [options closed slots connections next]; try done; [lia|].
  intros d y. rewrite lookup_insert_Some. intros [[<- <-]|[_ Hy]]; [|eauto]. exists c. split; [done|].
  split; [|congruence]. unfold conn_ok. by rewrite Hd, Ho, Ho'.
Qed.
Lemma release_open c t : c_closed c = false → release c t = Connection (tasks c ∖ {[t]}) (c_shutdown c) (c_closed c) (c_done c).
Proof. intros Hc. unfold release. cbn [c_closed]. by rewrite Hc. Qed.

(** What the loop leaves: [m] receivers admitted, the others rejected. *)
Record admitted (s : signal) (k : lane_key) (entries : list slot) (s' : signal) (m : nat) : Prop := {
  ad_ok : sig_ok s';
  ad_jobs : log (sqs s') = log (sqs s) ++ jobs_of k (length (log (sqs s))) (take m entries);
  ad_tasks : accepted_tasks (connections s') ≡ₚ seq (next s) m ++ accepted_tasks (connections s);
  ad_shape : same_shape s s'
}.

Lemma admitted_zero s s' k entries : sig_ok s' → log (sqs s') = log (sqs s) →
  accepted_tasks (connections s') ≡ₚ accepted_tasks (connections s) → same_shape s s' → admitted s k entries s' 0.
Proof. intros H1 H2 H3 H4. split; [done| |done|done]. rewrite take_0. cbn. by rewrite app_nil_r. Qed.

Lemma admitted_cons s s1 s' k x entries m : admitted s1 k entries s' m → next s1 = S (next s) →
  log (sqs s1) = log (sqs s) ++ [Job (length (log (sqs s))) k (s_shutdown x)] →
  accepted_tasks (connections s1) ≡ₚ next s :: accepted_tasks (connections s) → same_shape s s1 →
  admitted s k (x :: entries) s' (S m).
Proof.
  intros [A1 A2 A3 A4] Hn Hl Ht Hsh. split; [done| | |by eapply same_shape_trans].
  - rewrite A2, Hl. rewrite length_app. cbn [length take]. unfold jobs_of. rewrite <- app_assoc. f_equal.
    rewrite imap_cons, Nat.add_0_r. cbn [app]. f_equal. apply imap_ext. intros i y _. cbn. f_equal. lia.
  - rewrite A3, Ht, Hn. cbn [seq app]. by rewrite Permutation_middle.
Qed.

Lemma emit_loop_ok e sync k cerr n entries :
  (∀ i err, (i ≤ n)%nat → ∃ e' cs, reject zero e sync (seq i (n - i)) err = Ok (e', cs)) → ∀ s i, sig_ok s → (∀ x, x ∈ entries → is_Some (connections s !! s_conn x)) →
  (i + length entries = n)%nat →
  ∃ s' e' cs o m, emit_loop zero s e sync k cerr n i entries = Ok (s', e', cs, o)
    ∧ admitted s k entries s' m ∧ (m ≤ length entries)%nat
    ∧ match o with
      | None => m = length entries ∧ e' = e ∧ cs = []
      | Some err => (m < length entries)%nat
          ∧ reject zero e sync (seq (i + m) (n - (i + m))) err = Ok (e', cs)
      end.
Proof.
  intros Hrej. induction entries as [|x entries IH]; intros s i Hok Hin Hn; cbn [emit_loop length] in *.
  { eexists s, _, _, None, 0%nat. split; [done|]. split; [by apply admitted_zero, same_shape_refl|]. by split; [lia|]. }
  destruct (Hin x) as [c Hc]; [by left|]. rewrite Hc. pose proof Hok as [S1 S2 S3 S4].
  destruct (acquire c (next s)) as [c' owned] eqn:Hacq. destruct owned; cbn [negb].
  2:{ destruct (Hrej i §"signal: queue closed") as (e' & cs & He); [lia|]. rewrite He. cbn [res_bind].
      eexists s, e', cs, _, 0%nat. split; [done|]. split; [by apply admitted_zero, same_shape_refl|]. rewrite Nat.add_0_r. split; [lia|]. by split; [lia|]. }
  apply acquire_true in Hacq as [-> Hcl]. cbn [sqs].
  assert (¬ (next s ∈ tasks c)) as Hfresh by (intros Ht; pose proof (S4 _ _ _ Hc Ht); lia).
  destruct (submit_ok (sqs s) k (s_shutdown x) (cerr i) S1 S2) as (q & a & -> & Hq & Hw & Hlog). cbn [res_bind].
  destruct (admission_error a) as [err|]; cbn [options closed slots connections next].
  - destruct (Hrej i err) as (e' & cs & He); [lia|]. rewrite He. cbn [res_bind].
    eexists _, e', cs, _, 0%nat. split; [done|]. rewrite Nat.add_0_r. split; [|by split; [lia|split; [lia|]]].
    rewrite insert_insert_eq. apply admitted_zero; cbn [sqs connections].
    + eapply sig_ok_after; try done. intros t. rewrite release_acquired by done. by left.
    + done.
    + apply (accepted_same _ _ c); [done|]. by apply release_acquired.
    + apply (same_shape_conn s _ c); rewrite ?release_open by done; done.
  - match goal with |- context [emit_loop _ ?s1 _ _ _ _ _ (S i) _] =>
      destruct (IH s1 (S i)) as (s' & e' & cs & o & m & Hrun & Had & Hm & Ho); [| |lia|rewrite Hrun]
    end.
    + eapply sig_ok_after; try done. intros t. cbn [tasks]. rewrite elem_of_union, elem_of_singleton. tauto.
    + intros y Hy. cbn [connections]. destruct (decide (s_conn y = s_conn x)) as [->|Hne].
      * rewrite lookup_insert_eq. by eexists.
      * rewrite lookup_insert_ne by congruence. apply Hin. by right.
    + eexists s', e', cs, o, (S m). split; [done|]. split; [|split; [lia|]].
      * eapply admitted_cons; [exact Had|done|exact Hlog| |by apply (same_shape_conn s _ c)].
        cbn [connections]. by apply accepted_acquire.
      * destruct o as [err|]; [|by destruct Ho as (-> & -> & ->)]. destruct Ho as [Hlt He].
        rewrite Nat.add_succ_r. by split; [lia|].
Qed.

Lemma reject_sync_ok n i err : (i ≤ n)%nat → ∃ e' cs, reject zero (newEmission zero n true) true (seq i (n - i)) err = Ok (e', cs).
Proof.
  intros Hi. rewrite reject_run. destruct (reject_ops_ok n i err Hi) as [R1 R2].
  destruct (emission_run_inv zero n _ R1 R2) as (e' & cs & He & _). eauto.
Qed.
Lemma reject_async_ok err js : ∀ e, ∃ e' cs, reject zero e false js err = Ok (e', cs).
Proof.
  induction js as [|j js IH]; intros e; cbn [reject res_bind]; [eauto|]. destruct (exit e) as [e1 c1].
  destruct (IH e1) as (e' & cs & ->). cbn [res_bind]. eauto.
Qed.

(** The loop of an emission, synchronous or not. *)
Lemma emission_loop_ok sync k cerr s : sig_ok s → let n := length (slots s) in
  ∃ s' e' cs o m, emit_loop zero s (newEmission zero n sync) sync k cerr n 0 (slots s) = Ok (s', e', cs, o)
    ∧ admitted s k (slots s) s' m ∧ (m ≤ n)%nat
    ∧ match o with
      | None => m = n ∧ e' = newEmission zero n sync ∧ cs = []
      | Some err => (m < n)%nat ∧ reject zero (newEmission zero n sync) sync (seq m (n - m)) err = Ok (e', cs)
      end.
Proof.
  intros Hok n. apply (emit_loop_ok (newEmission zero n sync) sync k cerr n); [|done|by apply so_slots|done].
  intros i err Hi. destruct sync; [by apply reject_sync_ok|by apply reject_async_ok].
Qed.

(** A synchronous emission that passes its guards reaches every receiver
    exactly once: the first [m] receivers, in connection order, each have one
    job in the queue and one task in their connection, and no other job or
    task is added; if a receiver is refused the emission carries its error,
    and that receiver and all later ones have this error as their result, while
    the emission still waits for exactly the [m] admitted ones. *)
Lemma emit_admits s k cerr : sig_ok s → closed s = false → is_nil (slots s) && o_Required (options s) = false →
  ∃ s' e' cs o m, emit zero s true false false k cerr = Ok (s', e', cs, o) ∧ (m ≤ length (slots s))%nat
    ∧ log (sqs s') = log (sqs s) ++ jobs_of k (length (log (sqs s))) (take m (slots s))
    ∧ accepted_tasks (connections s') ≡ₚ seq (next s) m ++ accepted_tasks (connections s)
    ∧ (o = None ↔ m = length (slots s))
    ∧ remaining e' = Z.of_nat m ∧ work e' = Z.of_nat m ∧ (done e' = Some true ↔ m = 0%nat)
    ∧ ∀ j, (m ≤ j < length (slots s))%nat →
        ∃ err, o = Some err ∧ results e' !! j = Some (error_result zero err).
Proof.
  intros Hok Hcl Hreq. unfold emit. rewrite Hcl, Hreq. cbn [negb andb].
  destruct (emission_loop_ok true k cerr s Hok)
    as (s' & e' & cs & o & m & -> & Had & Hm & Ho). exists s', e', cs, o, m. set (n := length (slots s)) in *.
  split; [done|]. split; [done|]. split; [apply Had|]. split; [apply Had|]. destruct o as [err|].
  - destruct Ho as [Hlt Hrun]. rewrite reject_run in Hrun. destruct (reject_ops_ok n m err) as [R1 R2]; [lia|].
    destruct (emission_run_inv zero n _ R1 R2) as (e & cs2 & He & Hi). rewrite Hrun in He. injection He as <- <-.
    assert (remaining e' = Z.of_nat m) as Hrem by by apply (reject_remaining n m err e' cs).
    split; [split; [done|lia]|]. split; [done|]. split; [|split].
    + rewrite (iv_work _ _ _ _ _ Hi), (reject_exits m (n - m) err). lia.
    + rewrite (iv_done _ _ _ _ _ Hi), Hrem. split; [intros [= H%Z.eqb_eq]; lia|intros ->; done].
    + intros j Hj. exists err. split; [done|]. rewrite (iv_results _ _ _ _ _ Hi), lookup_map_seq by lia.
      rewrite first_result_reject. by rewrite (proj2 (Nat.leb_le _ _)), (proj2 (Nat.ltb_lt _ _)) by lia.
  - destruct Ho as (-> & -> & ->). cbn [newEmission remaining work done]. split_and!; try done; [|intros j Hj; lia].
    split; [intros [= H%Nat.eqb_eq]; done|intros H; by rewrite H].
Qed.

(** ** The operations of a signal, in any order

    [SQueue] is any section of the queue but a submission, [STask] one step of
    a connection on behalf of a callback or of its owner. *)
Inductive sig_op :=
| SConnect (kind : receiver) (p : ShutdownPolicy)
| SRemove (c : nat)
| SBeginClose (order : list lane_key)
| SEmit (synchronous recursive ctx : bool) (k : lane_key) (ctxErr : nat → bool)
| SRelease (c t : nat)
| SConnClose (c : nat)
| SQueue (l : label).

Definition with_conn (s : signal) (c : nat) (f : connection → connection) : signal :=
  match connections s !! c with
  | None => s
  | Some x => Signal (options s) (closed s) (slots s) (<[c := f x]> (connections s)) (next s) (sqs s)
  end.
(** An operation that returns an error leaves the signal unchanged. *)
Definition sig_step (s : signal) (o : sig_op) : res signal :=
  match o with
  | SConnect kind p => match connect s kind p with Ok (s, _) => Ok s | Err _ => Ok s | Panic => Panic end
  | SRemove c => Ok (remove s c)
  | SBeginClose order => Signal_BeginClose s order
  | SEmit sync recursive ctx k cerr =>
    match emit zero s sync recursive ctx k cerr with Ok (s, _, _, _) => Ok s | Err _ => Ok s | Panic => Panic end
  | SRelease c t => Ok (with_conn s c (λ x, release x t))
  | SConnClose c => Ok (with_conn (remove s c) c (λ x, (BeginClose x).1))
  | SQueue l => let* q := QueueSystem.step (sqs s) l in
                Ok (Signal (options s) (closed s) (slots s) (connections s) (next s) q)
  end.
Definition sig_legal (s : signal) (o : sig_op) : Prop :=
  match o with SQueue l => QueueSystem.legal (sqs s) l ∧ (match l with LSubmit _ _ _ _ => False | _ => True end) | _ => True end.
Fixpoint sig_run (s : signal) (os : list sig_op) : res signal :=
  match os with
  | [] => Ok s
  | o :: os => let* s := sig_step s o in sig_run s os
  end.
Fixpoint sig_legal_run (s : signal) (os : list sig_op) : Prop :=
  match os with
  | [] => True
  | o :: os => sig_legal s o ∧ ∀ s', sig_step s o = Ok s' → sig_legal_run s' os
  end.
Definition new_signal (o : Options) (q : queue) : signal := Signal o false [] ∅ 0 (initial q).

Record sig_inv (s : signal) : Prop := {
  sv_ok : sig_ok s;
  sv_nodup : NoDup (map s_conn (slots s));
  sv_fresh : ∀ c, is_Some (connections s !! c) → (c < next s)%nat;
  sv_single : o_Single (options s) = true → (length (slots s) ≤ 1)%nat;
  sv_conn : ∀ c x, connections s !! c = Some x → conn_ok x;
  sv_closed : closed s = true → ∀ x c, x ∈ slots s → connections s !! s_conn x = Some c → c_closed c = true
}.

Lemma drop_slot_sub c l x : x ∈ drop_slot c l → x ∈ l.
Proof.
  induction l as [|y l IH]; cbn [drop_slot]; [done|]. destruct (Nat.eqb _ _); [by right|].
  intros [->|H]%elem_of_cons; [by left|right; auto].
Qed.
Lemma drop_slot_nodup c l : NoDup (map s_conn l) → NoDup (map s_conn (drop_slot c l)).
Proof.
  induction l as [|y l IH]; cbn [drop_slot map]; [done|]. intros [Hy Hl]%NoDup_cons.
  destruct (Nat.eqb _ _); [done|]. cbn [map]. apply NoDup_cons. split; [|auto].
  intros (x & Hx & Hin)%list_elem_of_fmap. apply Hy. rewrite Hx. apply list_elem_of_fmap. exists x. split; [done|].
  by eapply drop_slot_sub.
Qed.
Lemma drop_slot_length c l : (length (drop_slot c l) ≤ length l)%nat.
Proof. induction l as [|y l IH]; cbn [drop_slot]; [done|]. destruct (Nat.eqb _ _); cbn [length]; lia. Qed.

Lemma remove_inv s c : sig_inv s → sig_inv (remove s c).
Proof.
  intros Hv. unfold remove. destruct (closed s) eqn:Hcl; [done|]. destruct Hv as [[S1 S2 S3 S4] V2 V3 V4 V5 V6].
  split; [split|..]; cbn [sqs slots connections next options closed]; try done.
  - intros x Hx. apply S3. by eapply drop_slot_sub.
  - by apply drop_slot_nodup.
  - intros Hs. pose proof (drop_slot_length c (slots s)). specialize (V4 Hs). lia.
Qed.
Lemma remove_same s c : connections (remove s c) = connections s ∧ next (remove s c) = next s.
Proof. unfold remove. by destruct (closed s). Qed.

(** A connection step that keeps or drops tasks and never reopens. *)
Lemma with_conn_inv s c f : sig_inv s → (∀ x, conn_ok x → conn_ok (f x)) → (∀ x, tasks (f x) ⊆ tasks x) →
  (∀ x, c_closed x = true → c_closed (f x) = true) → sig_inv (with_conn s c f).
Proof.
  intros Hv Hok Ht Hcl. unfold with_conn. destruct (connections s !! c) as [x|] eqn:Hx; [|done].
  destruct Hv as [[S1 S2 S3 S4] V2 V3 V4 V5 V6].
  split; [split|..]; cbn [sqs slots connections next options closed]; try done.
  - intros y Hy. destruct (decide (s_conn y = c)) as [->|Hne]; [rewrite lookup_insert_eq; by eexists|].
    rewrite lookup_insert_ne by congruence. auto.
  - intros d y t. rewrite lookup_insert_Some. intros [[<- <-]|[_ Hy]] Hin; [|eauto]. eapply S4; [done|]. by apply Ht.
  - intros d [y Hy]. apply lookup_insert_Some in Hy as [[<- _]|[_ Hy]]; apply V3; by eexists.
  - intros d y. rewrite lookup_insert_Some. intros [[<- <-]|[_ Hy]]; eauto.
  - intros Hc y z Hy. rewrite lookup_insert_Some. intros [[Hk <-]|[_ Hz]]; [|eauto]. apply Hcl. eapply V6; [done..|]. by rewrite <- Hk.
Qed.

Lemma connect_inv s kind p s' c : sig_inv s → connect s kind p = Ok (s', c) → sig_inv s'.
Proof.
  intros [[S1 S2 S3 S4] V2 V3 V4 V5 V6]. unfold connect. destruct (closed s) eqn:Hcl; [done|].
  destruct (o_Single (options s) && negb (is_nil (slots s))) eqn:Hsg; [done|]. intros [= <- <-].
  assert (connections s !! next s = None) as Hnew.
  { destruct (connections s !! next s) eqn:Hn; [|done]. assert (next s < next s)%nat; [|lia]. apply V3. by eexists. }
  split; [split|..]; cbn [sqs slots connections next options closed]; try done.
  - intros x [Hx|Hx]%elem_of_app.
    + destruct (S3 x Hx) as [y Hy]. exists y. rewrite lookup_insert_ne; [done|]. congruence.
    + apply list_elem_of_singleton in Hx as ->. cbn. rewrite lookup_insert_eq. by eexists.
  - intros d x t. rewrite lookup_insert_Some. intros [[_ <-]|[_ Hx]] Ht; [by apply elem_of_empty in Ht|].
    pose proof (S4 _ _ _ Hx Ht). lia.
  - rewrite map_app. cbn. apply NoDup_snoc; [done|]. intros (x & Hx & Hin)%list_elem_of_fmap.
    destruct (S3 x Hin) as [y Hy]. rewrite <- Hx in Hy. congruence.
  - intros d [x Hx]. apply lookup_insert_Some in Hx as [[<- _]|[_ Hx]]; [lia|]. assert (d < next s)%nat; [|lia].
    apply V3. by eexists.
  - intros Hs. rewrite Hs in Hsg. cbn [andb] in Hsg. apply negb_false_iff, is_nil_true in Hsg. rewrite Hsg. done.
  - intros d x. rewrite lookup_insert_Some. intros [[_ <-]|[_ Hx]]; [done|eauto].
Qed.

Lemma BeginClose_ok x : conn_ok x → conn_ok (BeginClose x).1 ∧ tasks (BeginClose x).1 = tasks x ∧ c_closed (BeginClose x).1 = true.
Proof.
  intros Hx. unfold BeginClose. cbn [fst].
  destruct (close_if_idle_ok (Connection (tasks x) (c_shutdown x) true (c_done x))) as (K1 & K2 & K3 & _);
    [done| |by rewrite K2, K3]. cbn [c_done tasks]. unfold conn_ok in Hx. rewrite Hx, andb_true_iff, bool_decide_eq_true.
  by intros [_ ?].
Qed.
Lemma release_ok x t : conn_ok x → conn_ok (release x t) ∧ tasks (release x t) ⊆ tasks x ∧ c_closed (release x t) = c_closed x.
Proof.
  intros Hx. pose proof (conn_run_ok [CRelease t] x Hx) as (H1 & H2 & H3). cbn in *. rewrite orb_false_r in H3.
  split_and!; [done| |done]. rewrite H2. apply subseteq_difference_l. done.
Qed.

(** Closing the connections of [l]. *)
Lemma close_connections_ok l : ∀ cs, (∀ c x, cs !! c = Some x → conn_ok x) →
  (∀ c y, close_connections cs l !! c = Some y → conn_ok y ∧ ∃ x, cs !! c = Some x ∧ tasks y = tasks x
     ∧ (c_closed x = true ∨ (∃ z, z ∈ l ∧ s_conn z = c) → c_closed y = true))
  ∧ (∀ c, is_Some (cs !! c) → is_Some (close_connections cs l !! c)).
Proof.
  induction l as [|z l IH]; intros cs Hcs; cbn [close_connections].
  { split; [|done]. intros c y Hy. split; [eauto|]. exists y. split_and!; [done..|].
    intros [?|(z & Hz & _)]; [done|]. by apply elem_of_nil in Hz. }
  set (cs1 := match cs !! s_conn z with Some c => <[s_conn z := (BeginClose c).1]> cs | None => cs end).
  assert (∀ c y, cs1 !! c = Some y → conn_ok y ∧ ∃ x, cs !! c = Some x ∧ tasks y = tasks x
            ∧ (c_closed x = true ∨ s_conn z = c → c_closed y = true)) as Hone.
  { intros c y. subst cs1. destruct (cs !! s_conn z) as [x0|] eqn:Hz.
    - rewrite lookup_insert_Some. intros [[<- <-]|[Hne Hy]].
      + destruct (BeginClose_ok x0 (Hcs _ _ Hz)) as (K1 & K2 & K3). split; [done|]. exists x0. by split_and!.
      + split; [eauto|]. exists y. split_and!; [done..|]. by intros [?|?].
    - intros Hy. split; [eauto|]. exists y. split_and!; [done..|]. intros [?|?]; [done|congruence]. }
  assert (∀ c, is_Some (cs !! c) → is_Some (cs1 !! c)) as Hdom.
  { intros c Hc. subst cs1. destruct (cs !! s_conn z); [|done]. by apply lookup_insert_is_Some'; right. }
  destruct (IH cs1) as [H1 H2]; [intros c x Hx; by apply Hone in Hx as [? _]|]. split; [|auto].
  intros c y Hy. destruct (H1 c y Hy) as (K1 & x1 & Hx1 & K2 & K3). destruct (Hone c x1 Hx1) as (L1 & x & Hx & L2 & L3).
  split; [done|]. exists x. split_and!; [done|congruence|]. intros [Hc|(z' & [->|Hz']%elem_of_cons & <-)]; apply K3; eauto.
Qed.

Lemma queue_step_ok s l : sig_inv s → QueueSystem.legal (sqs s) l →
  ∃ q, QueueSystem.step (sqs s) l = Ok q ∧ QueueSystem.inv q ∧ waitForCapacity (sq q) = false.
Proof.
  intros Hv Hl. destruct (queue_step_keeps (sqs s) l (so_queue _ (sv_ok _ Hv)) Hl) as (q & Hq & Hi). exists q.
  split_and!; [done..|]. pose proof (step_follows _ _ _ Hq) as [Hf _]. injection Hf as _ _ ->.
  apply (so_block _ (sv_ok _ Hv)).
Qed.

Lemma close_inv s order : sig_inv s → ∃ s', Signal_BeginClose s order = Ok s' ∧ sig_inv s'.
Proof.
  intros Hv. unfold Signal_BeginClose. destruct (closed s) eqn:Hcl; [by exists s|].
  destruct (queue_step_ok s (LStop false order) Hv I) as (q & -> & Hq & Hw). cbn [res_bind]. eexists; split; [done|].
  destruct Hv as [[S1 S2 S3 S4] V2 V3 V4 V5 V6]. destruct (close_connections_ok (slots s) (connections s) V5) as [H1 H2].
  split; [split|..]; cbn [sqs slots connections next options closed]; try done; auto.
  - intros c y t Hy Ht. destruct (H1 c y Hy) as (_ & x & Hx & Hxt & _). rewrite Hxt in Ht. eauto.
  - intros c [y Hy]. destruct (H1 c y Hy) as (_ & x & Hx & _). apply V3. by eexists.
  - intros c y Hy. by destruct (H1 c y Hy).
  - intros _ x c Hx Hc. destruct (H1 _ c Hc) as (_ & y & _ & _ & Hcc). apply Hcc. right. eauto.
Qed.

Lemma shape_inv s s' : sig_inv s → sig_ok s' → same_shape s s' → sig_inv s'.
Proof.
  intros [V1 V2 V3 V4 V5 V6] Hok [H1 H2 H3 H4 H5]. split; rewrite ?H1, ?H2, ?H3; try done.
  - intros c [y Hy]. apply H5 in Hy as (x & Hx & _). assert (c < next s)%nat; [|lia]. apply V3. by eexists.
  - intros c y Hy. apply H5 in Hy as (x & Hx & Hc & _). eauto.
  - intros Hcl x c Hx Hc. apply H5 in Hc as (y & Hy & _ & ->). eauto.
Qed.

Lemma emit_inv s sync recursive ctx k cerr : sig_inv s →
  match emit zero s sync recursive ctx k cerr with Ok (s', _, _, _) => sig_inv s' | Err _ => True | Panic => False end.
Proof.
  intros Hv. unfold emit. destruct (closed s); [done|]. destruct ctx; [done|]. destruct recursive; [done|].
  destruct (_ && _); [done|]. destruct (_ && _); [done|].
  destruct (emission_loop_ok sync k cerr s (sv_ok _ Hv)) as (s' & e' & cs & o & m & -> & [A1 A2 A3 A4] & _).
  by eapply shape_inv.
Qed.

Lemma sig_step_inv s o : sig_inv s → sig_legal s o → ∃ s', sig_step s o = Ok s' ∧ sig_inv s'.
Proof.
  intros Hv Hl. destruct o as [kind p|c|order|sync recursive ctx k cerr|c t|c|l]; cbn [sig_step].
  - destruct (connect s kind p) as [[s' c]|e|] eqn:Hc; [exists s'|exists s|exfalso]; [|done|].
    + split; [done|]. by eapply connect_inv.
    + unfold connect in Hc. by repeat case_match.
  - eexists; split; [done|]. by apply remove_inv.
  - by apply close_inv.
  - pose proof (emit_inv s sync recursive ctx k cerr Hv) as H.
    destruct (emit zero s sync recursive ctx k cerr) as [[[[s' ?] ?] ?]|e|]; [by exists s'|by exists s|done].
  - eexists; split; [done|]. apply with_conn_inv; [done|..].
    + intros x Hx. by apply release_ok.
    + intros x. unfold release, close_if_idle. repeat case_match; cbn [tasks]; by apply subseteq_difference_l.
    + intros x Hx. unfold release, close_if_idle. repeat case_match; done.
  - eexists; split; [done|]. apply with_conn_inv; [by apply remove_inv|..].
    + intros x Hx. by apply BeginClose_ok.
    + intros x. unfold BeginClose, close_if_idle. by repeat case_match.
    + intros x Hx. unfold BeginClose, close_if_idle. repeat case_match; done.
  - destruct (queue_step_ok s l Hv (proj1 Hl)) as (q & -> & Hq & Hw). cbn [res_bind]. eexists; split; [done|].
    destruct Hv as [[S1 S2 S3 S4] V2 V3 V4 V5 V6]. by split; [split|..].
Qed.

Lemma sig_run_inv o qo q os : NewQueue qo = Ok q → waitForCapacity q = false → sig_legal_run (new_signal o q) os →
  ∃ s, sig_run (new_signal o q) os = Ok s ∧ sig_inv s.
Proof.
  intros Hq Hw Hl. assert (sig_inv (new_signal o q)) as Hv.
  { split; [split|..]; cbn [sqs slots connections next options closed new_signal]; try done; try (by intros ? ?%elem_of_nil).
    - by eapply initial_inv.
    - apply NoDup_nil_2.
    - by intros c [y Hy].
    - cbn. lia. }
  revert Hv Hl. generalize (new_signal o q). clear. induction os as [|x os IH]; intros s Hv Hl; cbn [sig_run].
  - by exists s.
  - destruct Hl as [Hl Hr]. destruct (sig_step_inv s x Hv Hl) as (s1 & Hs & Hv1). rewrite Hs. cbn [res_bind]. by apply IH; [|auto].
Qed.

(** From a new signal, connecting, disconnecting, emitting, running the
    queue and closing in any order never panics; a signal made for a single
    receiver never has two; a receiver is connected at most once; the channel
    of every connection is closed exactly when it is closed and idle; and once
    the signal is closed every connection in its snapshot refuses tasks and
    emissions return [ErrClosed]. *)
Lemma signal_safe o qo q os : NewQueue qo = Ok q → waitForCapacity q = false →
  sig_legal_run (new_signal o q) os →
  ∃ s, sig_run (new_signal o q) os = Ok s ∧ sig_ok s
    ∧ (o_Single (options s) = true → (length (slots s) ≤ 1)%nat)
    ∧ NoDup (map s_conn (slots s))
    ∧ (∀ c x, connections s !! c = Some x → c_done x = true ↔ c_closed x = true ∧ tasks x = ∅)
    ∧ (closed s = true → (∀ x c t, x ∈ slots s → connections s !! s_conn x = Some c → (acquire c t).2 = false)
        ∧ ∀ sync recursive ctx k cerr, emit zero s sync recursive ctx k cerr = Err §"signal: queue closed").
Proof.
  intros Hq Hw Hl. destruct (sig_run_inv o qo q os Hq Hw Hl) as (s & Hs & Hv).
  exists s. split; [done|]. split; [apply Hv|]. split; [apply Hv|]. split; [apply Hv|]. split.
  - intros c x Hx. pose proof (sv_conn _ Hv c x Hx) as Hc. unfold conn_ok in Hc. by rewrite Hc, andb_true_iff, bool_decide_eq_true.
  - intros Hcl. split; [|intros; unfold emit; by rewrite Hcl].
    intros x c t Hx Hc. unfold acquire. by rewrite (sv_closed _ Hv Hcl x c Hx Hc).
Qed.

Lemma sig_legal_quiet os : ∀ s, forallb (λ o, match o with SQueue _ => false | _ => true end) os = true → sig_legal_run s os.
Proof.
  induction os as [|o os IH]; intros s; cbn [forallb sig_legal_run]; [done|]. intros [Ho Hos]%andb_true_iff.
  split; [by destruct o|]. intros s' _. by apply IH.
Qed.
End emit.

(** ** The properties at a concrete signal

    Two receivers; the queue has room for one job, so the second is refused. *)
Definition sample_queue : queue := queue_of (NewQueue {| o_Capacity := 1; o_Concurrency := 1; o_WaitForCapacity := false; o_AdmissionTimeout := 0 |}).
Definition sample_signal : signal := new_signal {| o_Required := true; o_Single := false |} sample_queue.
Definition sample_setup : list sig_op := [SConnect HandlerReceiver CancelPending; SConnect ObserverReceiver Drain].
Definition signal_of (r : res signal) : signal := match r with Ok s => s | _ => sample_signal end.
Definition connected : signal := signal_of (sig_run 0%nat sample_signal sample_setup).

Lemma signal_safe_witness :
  ∃ s, sig_run 0%nat sample_signal (sample_setup ++ [SEmit true false false None (λ _, false); SBeginClose [None]]) = Ok s ∧ sig_ok s
    ∧ (o_Single (options s) = true → (length (slots s) ≤ 1)%nat)
    ∧ NoDup (map s_conn (slots s))
    ∧ (∀ c x, connections s !! c = Some x → c_done x = true ↔ c_closed x = true ∧ tasks x = ∅)
    ∧ (closed s = true → (∀ x c t, x ∈ slots s → connections s !! s_conn x = Some c → (acquire c t).2 = false)
        ∧ ∀ sync recursive ctx k cerr, emit 0%nat s sync recursive ctx k cerr = Err §"signal: queue closed").
Proof.
  apply (signal_safe 0%nat _ {| o_Capacity := 1; o_Concurrency := 1; o_WaitForCapacity := false; o_AdmissionTimeout := 0 |});
    [reflexivity|reflexivity|]. apply sig_legal_quiet. reflexivity.
Defined.

Lemma connected_ok : sig_ok connected.
Proof.
  destruct (sig_run_inv 0%nat {| o_Required := true; o_Single := false |}
              {| o_Capacity := 1; o_Concurrency := 1; o_WaitForCapacity := false; o_AdmissionTimeout := 0 |}
              sample_queue sample_setup) as (s & Hs & Hv); [reflexivity|reflexivity|by apply sig_legal_quiet|].
  fold sample_signal in Hs. unfold connected. rewrite Hs. apply Hv.
Qed.

Lemma emit_admits_witness :
  ∃ s' e' cs o m, emit 0%nat connected true false false None (λ _, false) = Ok (s', e', cs, o) ∧ (m ≤ length (slots connected))%nat
    ∧ log (sqs s') = log (sqs connected) ++ jobs_of None (length (log (sqs connected))) (take m (slots connected))
    ∧ accepted_tasks (connections s') ≡ₚ seq (next connected) m ++ accepted_tasks (connections connected)
    ∧ (o = None ↔ m = length (slots connected))
    ∧ remaining e' = Z.of_nat m ∧ work e' = Z.of_nat m ∧ (done e' = Some true ↔ m = 0%nat)
    ∧ ∀ j, (m ≤ j < length (slots connected))%nat →
        ∃ err, o = Some err ∧ results e' !! j = Some (error_result 0%nat err).
Proof. apply emit_admits; [exact connected_ok|vm_compute; reflexivity|vm_compute; reflexivity]. Defined.
Example second_refused :
  match emit 0%nat connected true false false None (λ _, false) with
  | Ok (_, e, _, o) => (map Error (results e), o, remaining e)
  | _ => ([], None, 0)
  end = ([None; Some §"signal: queue full"], Some §"signal: queue full", 1).
Proof. vm_compute. reflexivity. Qed.
