(* ===== verification/Admission.v ===== *)
(** * Scope and session admission ([internal/session/binding/coordination.go])

    [enterKeys] takes the locks of a list of keys in order, on top of the
    locks the context already holds; a lock is a one-token channel in a
    reference-counted gate, which the manager forgets when nobody holds or
    waits for it. A gate is an object of a heap, so that two gates of one key
    could exist; a call of [enterKeys] and the lease it returns is a [call],
    and each definition is one step of it: a section under [m.mu] or one
    channel operation. *)
From S2P Require Import Prelude GoStr.
Open Scope Z_scope.

(** ** Keys *)
Record ScopeKey := {
  TaskType : gostring; TaskID : gostring; OwnerPlatform : gostring; OwnerID : gostring;
  Platform : gostring; ChatType : gostring; ChatID : gostring
}.
#[export] Instance ScopeKey_eq_dec : EqDecision ScopeKey.
Proof. solve_decision. Defined.
#[export] Instance ScopeKey_countable : Countable ScopeKey.
Proof.
  refine (inj_countable' (λ s, (TaskType s, TaskID s, OwnerPlatform s, OwnerID s, (Platform s, ChatType s, ChatID s)))
    (λ p, let '(ty, ti, op, oi, (pl, ct, ci)) := p in
          {| TaskType := ty; TaskID := ti; OwnerPlatform := op; OwnerID := oi; Platform := pl; ChatType := ct; ChatID := ci |}) _).
  intros []. reflexivity.
Defined.
Record admissionKey := AdmissionKey { Kind : nat; Scope : ScopeKey; Name : gostring }.
#[export] Instance admissionKey_eq_dec : EqDecision admissionKey.
Proof. solve_decision. Defined.

Definition key_strings (k : admissionKey) : list gostring :=
  let s := Scope k in [OwnerPlatform s; OwnerID s; Platform s; ChatType s; ChatID s; TaskType s; TaskID s; Name k].
#[export] Instance admissionKey_countable : Countable admissionKey.
Proof.
  refine (inj_countable' (λ k, (Kind k, key_strings k))
    (λ p, match p.2 with
          | [op; oi; pl; ct; ci; ty; ti; nm] =>
            AdmissionKey p.1 {| TaskType := ty; TaskID := ti; OwnerPlatform := op; OwnerID := oi; Platform := pl;
                                ChatType := ct; ChatID := ci |} nm
          | _ => AdmissionKey 0 {| TaskType := []; TaskID := []; OwnerPlatform := []; OwnerID := []; Platform := [];
                                   ChatType := []; ChatID := [] |} []
          end) _).
  intros [k [? ? ? ? ? ? ?] n]. reflexivity.
Defined.

(** [strings.Compare] and [slices.Compare]. *)
Fixpoint compare_list {A} (cmp : A → A → comparison) (a b : list A) : comparison :=
  match a, b with
  | [], [] => Eq
  | [], _ :: _ => Lt
  | _ :: _, [] => Gt
  | x :: a, y :: b => match cmp x y with Eq => compare_list cmp a b | c => c end
  end.
Definition compare_byte (a b : ascii) : comparison := (byte_val a ?= byte_val b).
Definition compare_string (a b : gostring) : comparison := compare_list compare_byte a b.
Definition compareAdmissionKey (a b : admissionKey) : comparison :=
  match Nat.compare (Kind a) (Kind b) with
  | Eq => compare_list compare_string (key_strings a) (key_strings b)
  | c => c
  end.
Definition key_ltb (a b : admissionKey) : bool := match compareAdmissionKey a b with Lt => true | _ => false end.
Definition key_leb (a b : admissionKey) : bool := match compareAdmissionKey a b with Gt => false | _ => true end.

Definition key_le (a b : admissionKey) : Prop := key_leb a b = true.
#[export] Instance key_le_dec : RelDecision key_le.
Proof. intros a b. unfold key_le. apply _. Defined.

(** The keys of [EnterScope] and [EnterSessions]. *)
Definition no_scope : ScopeKey :=
  {| TaskType := []; TaskID := []; OwnerPlatform := []; OwnerID := []; Platform := []; ChatType := []; ChatID := [] |}.
Definition scope_key (s : ScopeKey) : admissionKey := AdmissionKey 0 s [].
Definition session_key (id : gostring) : admissionKey := AdmissionKey 1 no_scope id.
Definition session_keys (ids : list gostring) : list admissionKey :=
  merge_sort key_le (map session_key (filter (λ id, id ≠ []) ids)).

(** ** The manager *)
Record gate := Gate { token : bool; refs : Z }.

(** [Acquiring]: in the loop of [enterKeys]. [Leased]: returned, the release
    not called. [Unwinding]: releasing its gates, after an error or in the
    release. [Finished]: after [finishAdmission]. *)
Inductive status := Acquiring | Leased | Unwinding | Finished.
#[export] Instance status_eq_dec : EqDecision status.
Proof. solve_decision. Defined.

Record call := Call {
  parent : option nat;               (* the innermost lease of the context *)
  wanted : list admissionKey;
  got : list (admissionKey * nat);   (* gates whose token it put, in order *)
  waiting : option (admissionKey * nat);
  st : status
}.
Record manager := Manager {
  gates : gmap admissionKey nat;
  heap : gmap nat gate;
  next_gate : nat;
  m_active : Z;
  m_closed : bool;
  idle : bool;                       (* whether the channel is closed *)
  calls : gmap nat call;
  next_call : nat
}.
Definition NewManager : manager := Manager ∅ ∅ 0 0 false false ∅ 0.

Definition set_gates (m : manager) (g : gmap admissionKey nat) (h : gmap nat gate) : manager :=
  Manager g h (next_gate m) (m_active m) (m_closed m) (idle m) (calls m) (next_call m).
Definition set_call (m : manager) (c : nat) (x : call) : manager :=
  Manager (gates m) (heap m) (next_gate m) (m_active m) (m_closed m) (idle m) (<[c := x]> (calls m)) (next_call m).

(** The keys of the live leases on the context; a released lease has none.
    A parent is an earlier call, so [S c] steps are enough. *)
Fixpoint lineage (fuel : nat) (cs : gmap nat call) (p : option nat) : list admissionKey :=
  match fuel, p with
  | S fuel, Some c =>
    match cs !! c with
    | Some x => (if decide (st x = Leased) then wanted x else []) ++ lineage fuel cs (parent x)
    | None => []
    end
  | _, _ => []
  end.

(** The loop that leaves out the keys already held and checks the order. *)
Fixpoint want (held keys : list admissionKey) : res (list admissionKey) :=
  match keys with
  | [] => Ok []
  | k :: keys =>
    if bool_decide (k ∈ held) then want held keys
    else if existsb (key_ltb k) held then Err §"session admission lock order"
    else let* w := want (k :: held) keys in Ok (k :: w)
  end.

(** [enterKeys] up to [m.active++]; [ctxErr] is the error of the context. *)
Definition enter_begin (m : manager) (p : option nat) (keys : list admissionKey) (ctxErr : option gostring) :
    res (manager * nat) :=
  match ctxErr with
  | Some e => Err e
  | None =>
    let* w := want (lineage (next_call m) (calls m) p) keys in
    if m_closed m then Err §"signal: queue closed"
    else
      let c := next_call m in
      Ok (Manager (gates m) (heap m) (next_gate m) (m_active m + 1) (m_closed m) (idle m)
                  (<[c := Call p w [] None Acquiring]> (calls m)) (S c), c)
  end.

(** The loop: take a reference on the gate of the next key, ... *)
Definition enter_ref (m : manager) (c : nat) (x : call) (k : admissionKey) : res manager :=
  match gates m !! k with
  | None =>
    let g := next_gate m in
    Ok (Manager (<[k := g]> (gates m)) (<[g := Gate false 1]> (heap m)) (S g) (m_active m) (m_closed m) (idle m)
                (<[c := Call (parent x) (wanted x) (got x) (Some (k, g)) (st x)]> (calls m)) (next_call m))
  | Some g =>
    match heap m !! g with
    | None => Panic
    | Some gt =>
      Ok (set_call (set_gates m (gates m) (<[g := Gate (token gt) (refs gt + 1)]> (heap m)))
                   c (Call (parent x) (wanted x) (got x) (Some (k, g)) (st x)))
    end
  end.

(** ... then put the token, ... *)
Definition enter_token (m : manager) (c : nat) (x : call) (k : admissionKey) (g : nat) (gt : gate) : manager :=
  set_call (set_gates m (gates m) (<[g := Gate true (refs gt)]> (heap m)))
           c (Call (parent x) (wanted x) (got x ++ [(k, g)]) None (st x)).

(** [releaseGate]: taking the token out of an empty channel would block with
    the lock held, which is a [Panic] here. *)
Definition releaseGate (m : manager) (k : admissionKey) (g : nat) (acquired : bool) : res manager :=
  match heap m !! g with
  | None => Panic
  | Some gt =>
    if acquired && negb (token gt) then Panic
    else
      let gt := Gate (if acquired then false else token gt) (refs gt - 1) in
      Ok (set_gates m (if refs gt =? 0 then delete k (gates m) else gates m) (<[g := gt]> (heap m)))
  end.

(** ... or give up the reference when the context ends or the manager stops. *)
Definition enter_cancel (m : manager) (c : nat) (x : call) (k : admissionKey) (g : nat) : res manager :=
  let* m := releaseGate m k g false in
  Ok (set_call m c (Call (parent x) (wanted x) (got x) None Unwinding)).

(** After the loop: the context and the manager are checked again. *)
Definition enter_check (m : manager) (c : nat) (x : call) (ctxErr : bool) : manager :=
  set_call m c (Call (parent x) (wanted x) (got x) None (if ctxErr || m_closed m then Unwinding else Leased)).

(** Gates are released in reverse order, on failure and on release alike. *)
Definition unwind (m : manager) (c : nat) (x : call) (k : admissionKey) (g : nat) (rest : list (admissionKey * nat)) : res manager :=
  let* m := releaseGate m k g true in
  Ok (set_call m c (Call (parent x) (wanted x) rest None Unwinding)).

Definition finishAdmission (m : manager) (c : nat) (x : call) : res manager :=
  let a := m_active m - 1 in
  let m' i := Manager (gates m) (heap m) (next_gate m) a (m_closed m) i
                      (<[c := Call (parent x) (wanted x) (got x) None Finished]> (calls m)) (next_call m) in
  if m_closed m && (a =? 0) then (if idle m then Panic else Ok (m' true)) else Ok (m' (idle m)).

Definition BeginClose (m : manager) : res manager :=
  if m_closed m then Ok m
  else
    let m' i := Manager (gates m) (heap m) (next_gate m) (m_active m) true i (calls m) (next_call m) in
    if m_active m =? 0 then (if idle m then Panic else Ok (m' true)) else Ok (m' (idle m)).

(** ** Steps

    A step whose guard does not hold is not enabled: [None]. [SCancel] is the
    context's side of the select; [SRelease] is the caller's release. *)
Inductive mstep :=
| SBegin (p : option nat) (keys : list admissionKey) (ctxErr : option gostring)
| SRef (c : nat)
| SToken (c : nat)
| SCancel (c : nat)
| SCheck (c : nat) (ctxErr : bool)
| SRelease (c : nat)
| SUnwind (c : nat)
| SFinish (c : nat)
| SClose.

Definition next_key (x : call) : option admissionKey := wanted x !! length (got x).

Definition exec (m : manager) (s : mstep) : option (res manager) :=
  match s with
  | SBegin p keys e =>
    Some (match enter_begin m p keys e with Ok (m', _) => Ok m' | Err _ => Ok m | Panic => Panic end)
  | SClose => Some (BeginClose m)
  | SRef c =>
    match calls m !! c with
    | Some x =>
      match st x, waiting x, next_key x with
      | Acquiring, None, Some k => Some (enter_ref m c x k)
      | _, _, _ => None
      end
    | None => None
    end
  | SToken c =>
    match calls m !! c with
    | Some x =>
      match st x, waiting x with
      | Acquiring, Some (k, g) =>
        match heap m !! g with
        | Some gt => if token gt then None else Some (Ok (enter_token m c x k g gt))
        | None => Some Panic
        end
      | _, _ => None
      end
    | None => None
    end
  | SCancel c =>
    match calls m !! c with
    | Some x =>
      match st x, waiting x with
      | Acquiring, Some (k, g) => Some (enter_cancel m c x k g)
      | _, _ => None
      end
    | None => None
    end
  | SCheck c e =>
    match calls m !! c with
    | Some x =>
      match st x, waiting x, next_key x with
      | Acquiring, None, None => Some (Ok (enter_check m c x e))
      | _, _, _ => None
      end
    | None => None
    end
  | SRelease c =>
    match calls m !! c with
    | Some x =>
      match st x with
      | Leased => Some (Ok (set_call m c (Call (parent x) (wanted x) (got x) None Unwinding)))
      | _ => None
      end
    | None => None
    end
  | SUnwind c =>
    match calls m !! c with
    | Some x =>
      match st x, last (got x) with
      | Unwinding, Some (k, g) => Some (unwind m c x k g (removelast (got x)))
      | _, _ => None
      end
    | None => None
    end
  | SFinish c =>
    match calls m !! c with
    | Some x =>
      match st x, got x with
      | Unwinding, [] => Some (finishAdmission m c x)
      | _, _ => None
      end
    | None => None
    end
  end.

(** The callers' duties: a call is made with a context whose lease is not
    released, and a lease is released after the calls nested in it. *)
Definition allowed (m : manager) (s : mstep) : Prop :=
  match s with
  | SBegin (Some c) _ _ => ∃ x, calls m !! c = Some x ∧ st x = Leased
  | SRelease c => ∀ d y, calls m !! d = Some y → parent y = Some c → st y = Finished
  | _ => True
  end.

Inductive reachable : manager → Prop :=
| reach_new : reachable NewManager
| reach_step m s m' : reachable m → allowed m s → exec m s = Some (Ok m') → reachable m'.
