(* ===== verification/AdmissionProps.v ===== *)
(** * Invariants of admission

    The key order is strict and total; [inv] ties the gates to the calls that
    refer to them. *)
From S2P Require Import Prelude GoStr Admission.
Open Scope Z_scope.

(** ** The order on keys *)
Record cmp_ok {A} (cmp : A → A → comparison) : Prop := {
  cmp_eq : ∀ a b, cmp a b = Eq ↔ a = b;
  cmp_opp : ∀ a b, cmp b a = CompOpp (cmp a b);
  cmp_trans : ∀ a b c, cmp a b = Lt → cmp b c = Lt → cmp a c = Lt
}.

Lemma cmp_ok_byte : cmp_ok compare_byte.
Proof.
  unfold compare_byte. split.
  - intros a b. rewrite Z.compare_eq_iff. split; [|by intros ->]. intros H. unfold byte_val in H.
    apply N2Z.inj in H. rewrite <- (ascii_N_embedding a), <- (ascii_N_embedding b). by rewrite H.
  - intros a b. apply Z.compare_antisym.
  - intros a b c. rewrite !Z.compare_lt_iff. lia.
Qed.

Lemma cmp_ok_list {A} (cmp : A → A → comparison) : cmp_ok cmp → cmp_ok (compare_list cmp).
Proof.
  intros [E O T]. assert (∀ x, cmp x x = Eq) as R by (intros x; by apply E). split.
  - intros a. induction a as [|x a IH]; intros [|y b]; cbn; try done. destruct (cmp x y) eqn:Hxy.
    + apply E in Hxy as ->. rewrite IH. split; [by intros ->|by intros [= ->]].
    + split; [done|]. intros [= -> ->]. by rewrite R in Hxy.
    + split; [done|]. intros [= -> ->]. by rewrite R in Hxy.
  - intros a. induction a as [|x a IH]; intros [|y b]; cbn; try done. rewrite (O x y). destruct (cmp x y); cbn; [apply IH|done|done].
  - intros a. induction a as [|x a IH]; intros [|y b] [|z c]; cbn; try done.
    destruct (cmp x y) eqn:Hxy; [|intros _|done].
    + apply E in Hxy as ->. destruct (cmp y z); [apply IH|done|done].
    + destruct (cmp y z) eqn:Hyz; [|intros _|done].
      * apply E in Hyz as ->. by rewrite Hxy.
      * by rewrite (T _ _ _ Hxy Hyz).
Qed.

Lemma key_strings_inj a b : Kind a = Kind b → key_strings a = key_strings b → a = b.
Proof. destruct a as [? [] ?], b as [? [] ?]. cbn. intros -> [= -> -> -> -> -> -> -> ->]. done. Qed.

Lemma cmp_ok_key : cmp_ok compareAdmissionKey.
Proof.
  pose proof (cmp_ok_list _ (cmp_ok_list _ cmp_ok_byte)) as [E O T]. fold compare_string in *. unfold compareAdmissionKey. split.
  - intros a b. destruct (Nat.compare_spec (Kind a) (Kind b)) as [H|H|H].
    + change (compare_list compare_byte) with compare_string in E. rewrite E. split; [by apply key_strings_inj|by intros ->].
    + split; [done|]. intros ->. lia.
    + split; [done|]. intros ->. lia.
  - intros a b. rewrite (Nat.compare_antisym (Kind a) (Kind b)). destruct (Nat.compare (Kind a) (Kind b)); cbn [CompOpp]; [apply O|done|done].
  - intros a b c. destruct (Nat.compare_spec (Kind a) (Kind b)) as [H|H|H], (Nat.compare_spec (Kind b) (Kind c)) as [H'|H'|H'];
      destruct (Nat.compare_spec (Kind a) (Kind c)) as [H''|H''|H'']; try lia; try done; apply T.
Qed.

Definition key_lt (a b : admissionKey) : Prop := compareAdmissionKey a b = Lt.
Lemma key_ltb_lt a b : key_ltb a b = true ↔ key_lt a b.
Proof. unfold key_ltb, key_lt. by destruct (compareAdmissionKey a b). Qed.
#[export] Instance key_lt_trans : Transitive key_lt.
Proof. intros a b c. apply (cmp_trans _ cmp_ok_key). Qed.
#[export] Instance key_lt_irrefl : Irreflexive key_lt.
Proof. intros a Ha. unfold key_lt in Ha. by rewrite (proj2 (cmp_eq _ cmp_ok_key a a) eq_refl) in Ha. Qed.
Lemma key_lt_total a b : a ≠ b → ¬ key_lt b a → key_lt a b.
Proof.
  unfold key_lt. rewrite (cmp_opp _ cmp_ok_key a b). intros Hne Hn. destruct (compareAdmissionKey a b) eqn:He; try done.
  by apply (cmp_eq _ cmp_ok_key) in He.
Qed.

(** ** The keys an admission wants *)
Lemma want_ok keys : ∀ held w, want held keys = Ok w →
  (∀ k, k ∈ keys → k ∈ held ∨ k ∈ w) ∧ StronglySorted key_lt w ∧ (∀ k h, k ∈ w → h ∈ held → key_lt h k)
  ∧ (∀ k, k ∈ w → k ∈ keys).
Proof.
  induction keys as [|k keys IH]; intros held w; cbn [want].
  { intros [= <-]. split_and!; [by intros ? ?%elem_of_nil|constructor|by intros ? ? ?%elem_of_nil|done]. }
  destruct (bool_decide (k ∈ held)) eqn:Hk.
  - apply bool_decide_eq_true in Hk. intros Hw. destruct (IH held w Hw) as (H1 & H2 & H3 & H4). split_and!; [|done|done|].
    + intros x [->|Hx]%elem_of_cons; [by left|auto].
    + intros x Hx. right. auto.
  - apply bool_decide_eq_false in Hk. destruct (existsb (key_ltb k) held) eqn:Hlt; [done|].
    destruct (want (k :: held) keys) as [w'| |] eqn:Hw; [|done..]. intros [= <-].
    destruct (IH _ _ Hw) as (H1 & H2 & H3 & H4).
    assert (∀ h, h ∈ held → key_lt h k) as Hup.
    { intros h Hh. apply key_lt_total; [congruence|]. intros Hc. apply not_true_iff_false in Hlt. apply Hlt.
      apply existsb_exists. exists h. split; [by apply list_elem_of_In|by apply key_ltb_lt]. }
    split_and!.
    + intros x [->|Hx]%elem_of_cons; [right; by left|]. destruct (H1 x Hx) as [[->|Hh]%elem_of_cons|Hx']; [right; by left|by left|right; by right].
    + constructor; [done|]. apply Forall_forall. intros x Hx. apply H3; [done|by left].
    + intros x h [->|Hx]%elem_of_cons Hh; [auto|]. apply H3; [done|by right].
    + intros x [->|Hx]%elem_of_cons; [by left|right; auto].
Qed.

Lemma sorted_nodup w : StronglySorted key_lt w → NoDup w.
Proof.
  induction 1 as [|k w _ IH Hk]; constructor; [|done]. intros Hin. rewrite Forall_forall in Hk.
  by apply (irreflexivity key_lt k), Hk.
Qed.

(** ** Calls, their references and their ancestors *)
Definition refs_of (x : call) : list (admissionKey * nat) := got x ++ match waiting x with Some p => [p] | None => [] end.
Definition all_refs (m : gmap nat call) : list (admissionKey * nat) := map_to_list m ≫= λ p, refs_of p.2.
Definition all_got (m : gmap nat call) : list (admissionKey * nat) := map_to_list m ≫= λ p, got p.2.
Definition occurs (k : admissionKey) (l : list (admissionKey * nat)) : Z := Z.of_nat (length (filter (λ p, p.1 = k) l)).

Lemma bind_lookup {B} (f : call → list B) (m : gmap nat call) c x : m !! c = Some x →
  (map_to_list m ≫= λ p, f p.2) ≡ₚ f x ++ (map_to_list (delete c m) ≫= λ p, f p.2).
Proof. intros Hx. by rewrite <- (map_to_list_delete _ _ _ Hx). Qed.
Lemma bind_insert {B} (f : call → list B) (m : gmap nat call) c x :
  (map_to_list (<[c := x]> m) ≫= λ p, f p.2) ≡ₚ f x ++ (map_to_list (delete c m) ≫= λ p, f p.2).
Proof. rewrite (bind_lookup f _ c x) by apply lookup_insert_eq. by rewrite delete_insert_eq. Qed.

Lemma occurs_perm k l l' : l ≡ₚ l' → occurs k l = occurs k l'.
Proof. intros Hp. unfold occurs. by rewrite Hp. Qed.
Lemma occurs_app k l l' : occurs k (l ++ l') = occurs k l + occurs k l'.
Proof. unfold occurs. rewrite filter_app, length_app. lia. Qed.
Lemma occurs_cons k p l : occurs k (p :: l) = (if decide (p.1 = k) then 1 else 0) + occurs k l.
Proof.
  unfold occurs. destruct (decide (p.1 = k)).
  - rewrite filter_cons_True by done. cbn [length]. lia.
  - rewrite filter_cons_False by done. lia.
Qed.
Lemma occurs_nonneg k l : 0 ≤ occurs k l.
Proof. unfold occurs. lia. Qed.
Lemma occurs_pos k g l : (k, g) ∈ l → 0 < occurs k l.
Proof. intros (l1 & l2 & ->)%list_elem_of_split. rewrite occurs_app, occurs_cons, decide_True by done. pose proof (occurs_nonneg k l1). pose proof (occurs_nonneg k l2). lia. Qed.

(** The effect of a changed call on the totals. *)
Lemma totals_insert (m : gmap nat call) c x y k : m !! c = Some x →
  occurs k (all_refs (<[c := y]> m)) = occurs k (all_refs m) - occurs k (refs_of x) + occurs k (refs_of y)
  ∧ occurs k (all_got (<[c := y]> m)) = occurs k (all_got m) - occurs k (got x) + occurs k (got y).
Proof.
  intros Hx. unfold all_refs, all_got. split.
  - rewrite (occurs_perm k _ _ (bind_insert refs_of m c y)), (occurs_perm k _ _ (bind_lookup refs_of m c x Hx)), !occurs_app. lia.
  - rewrite (occurs_perm k _ _ (bind_insert got m c y)), (occurs_perm k _ _ (bind_lookup got m c x Hx)), !occurs_app. lia.
Qed.

Inductive ancestor (m : gmap nat call) : nat → nat → Prop :=
| anc_parent c x p : m !! c = Some x → parent x = Some p → ancestor m p c
| anc_above c x p a : m !! c = Some x → parent x = Some p → ancestor m a p → ancestor m a c.

(** ** The invariant *)
Definition key_of (p : admissionKey * nat) : admissionKey := p.1.
Record call_ok (x : call) : Prop := {
  ca_got : map key_of (got x) = take (length (got x)) (wanted x);
  ca_waiting : ∀ k g, waiting x = Some (k, g) → st x = Acquiring ∧ next_key x = Some k;
  ca_leased : st x = Leased → length (got x) = length (wanted x);
  ca_finished : st x = Finished → got x = [];
  ca_sorted : StronglySorted key_lt (wanted x)
}.
Record tree_ok (m : gmap nat call) (n : nat) : Prop := {
  tr_ids : ∀ c x, m !! c = Some x → (c < n)%nat;
  tr_parent : ∀ c x p, m !! c = Some x → parent x = Some p → (p < c)%nat ∧ ∃ y, m !! p = Some y ∧ (st x ≠ Finished → st y = Leased);
  tr_order : ∀ c x a y k' k, m !! c = Some x → ancestor m a c → m !! a = Some y → k' ∈ wanted y → k ∈ wanted x → key_lt k' k
}.
Record gates_ok (m : manager) : Prop := {
  ga_bound : ∀ k g, gates m !! k = Some g → (g < next_gate m)%nat;
  ga_inj : ∀ k k' g, gates m !! k = Some g → gates m !! k' = Some g → k = k';
  ga_refs : ∀ k, occurs k (all_refs (calls m)) =
      match gates m !! k with Some g => match heap m !! g with Some gt => refs gt | None => 0 end | None => 0 end;
  ga_live : ∀ k g, gates m !! k = Some g → ∃ gt, heap m !! g = Some gt ∧ 0 < refs gt;
  ga_token : ∀ k, occurs k (all_got (calls m)) =
      match gates m !! k with Some g => match heap m !! g with Some gt => if token gt then 1 else 0 | None => 0 end | None => 0 end;
  ga_known : ∀ c x k g, calls m !! c = Some x → (k, g) ∈ refs_of x → gates m !! k = Some g
}.
Definition alive (x : call) : list unit := if decide (st x = Finished) then [] else [tt].
Definition live (m : gmap nat call) : Z := Z.of_nat (length (map_to_list m ≫= λ p, alive p.2)).
Record inv (m : manager) : Prop := {
  in_calls : ∀ c x, calls m !! c = Some x → call_ok x;
  in_tree : tree_ok (calls m) (next_call m);
  in_gates : gates_ok m;
  in_active : m_active m = live (calls m);
  in_idle : idle m = m_closed m && (m_active m =? 0)
}.

Lemma live_insert m c x y : m !! c = Some x →
  live (<[c := y]> m) = live m - Z.of_nat (length (alive x)) + Z.of_nat (length (alive y)).
Proof.
  intros Hx. unfold live. rewrite (Permutation_length (bind_insert alive m c y)), (Permutation_length (bind_lookup alive m c x Hx)), !length_app. lia.
Qed.
Lemma live_new m c y : m !! c = None → live (<[c := y]> m) = live m + Z.of_nat (length (alive y)).
Proof.
  intros Hx. unfold live. rewrite (Permutation_length (bind_insert alive m c y)), delete_id, length_app by done. lia.
Qed.
Lemma live_pos m c x : m !! c = Some x → st x ≠ Finished → 0 < live m.
Proof.
  intros Hx Hs. unfold live. rewrite (Permutation_length (bind_lookup alive m c x Hx)), length_app.
  unfold alive at 1. rewrite decide_False by done. cbn [length]. lia.
Qed.
Lemma live_zero m : live m = 0 → ∀ c x, m !! c = Some x → st x = Finished.
Proof. intros Hl c x Hx. destruct (decide (st x = Finished)); [done|]. pose proof (live_pos m c x Hx n). lia. Qed.

(** *** The tree of calls *)
Lemma ancestor_update m c x y a d : m !! c = Some x → parent y = parent x → ancestor (<[c := y]> m) a d → ancestor m a d.
Proof.
  intros Hx Hp. induction 1 as [d z p Hd Hz|d z p a Hd Hz _ IH];
    (destruct (decide (c = d)) as [<-|Hne]; [rewrite lookup_insert_eq in Hd; injection Hd as <-|rewrite lookup_insert_ne in Hd by done]).
  - apply (anc_parent _ _ x); congruence.
  - by apply (anc_parent _ _ z).
  - apply (anc_above _ _ x p); congruence.
  - by apply (anc_above _ _ z p).
Qed.

Lemma tree_update m n c x y : tree_ok m n → m !! c = Some x → parent y = parent x → wanted y = wanted x →
  (st y ≠ Finished → st x ≠ Finished) → (∀ d z, m !! d = Some z → parent z = Some c → st z ≠ Finished → st y = Leased) →
  tree_ok (<[c := y]> m) n.
Proof.
  intros [T1 T2 T3] Hx Hp Hw Hst Hch.
  assert (∀ d z, <[c := y]> m !! d = Some z → ∃ z0, m !! d = Some z0 ∧ parent z = parent z0 ∧ wanted z = wanted z0
    ∧ (st z ≠ Finished → st z0 ≠ Finished)) as Hold.
  { intros d z. rewrite lookup_insert_Some. intros [[<- <-]|[_ Hd]]; [by exists x|]. by exists z. }
  split.
  - intros d z (z0 & Hd & _)%Hold. eauto.
  - intros d z p Hd Hz. destruct (Hold d z Hd) as (z0 & Hd0 & Hp0 & _ & Hs0). rewrite Hp0 in Hz.
    destruct (T2 _ _ _ Hd0 Hz) as (Hlt & u & Hu & Hl). split; [done|].
    destruct (decide (c = p)) as [<-|Hne].
    + exists y. rewrite lookup_insert_eq. split; [done|]. intros Hf. apply (Hch d z0); auto.
    + exists u. rewrite lookup_insert_ne by done. auto.
  - intros d z a u k' k Hd Ha Hu Hk' Hk. destruct (Hold d z Hd) as (z0 & Hd0 & _ & Hw0 & _).
    destruct (Hold a u Hu) as (u0 & Hu0 & _ & Hwu & _). rewrite Hw0 in Hk. rewrite Hwu in Hk'.
    apply (T3 d z0 a u0 k' k); [done| |done..]. by apply (ancestor_update m c x y).
Qed.

(** A call that is not a lease has no live child. *)
Lemma tree_update_unleased m n c x y : tree_ok m n → m !! c = Some x → st x ≠ Leased → parent y = parent x →
  wanted y = wanted x → (st y ≠ Finished → st x ≠ Finished) → tree_ok (<[c := y]> m) n.
Proof.
  intros Ht Hx Hl Hp Hw Hst. eapply tree_update; try done. intros d z Hd Hz Hf.
  destruct (tr_parent _ _ Ht _ _ _ Hd Hz) as (_ & u & Hu & Hlu). destruct Hl. rewrite Hu in Hx. injection Hx as <-. auto.
Qed.

Lemma ancestor_lt m n a c : tree_ok m n → ancestor m a c → (a < c)%nat.
Proof.
  intros Ht. induction 1 as [c x p Hc Hp|c x p a Hc Hp _ IH]; destruct (tr_parent _ _ Ht _ _ _ Hc Hp) as [? _]; lia.
Qed.

(** The ancestors of a live call are leases, and [lineage] finds their keys. *)
Lemma ancestor_leased m n c x a y : tree_ok m n → m !! c = Some x → st x ≠ Finished → ancestor m a c → m !! a = Some y → st y = Leased.
Proof.
  intros Ht Hc Hs Ha Hy. revert x Hc Hs. induction Ha as [c z p Hc Hp|c z p a Hc Hp _ IH]; intros x Hx Hs.
  - destruct (tr_parent _ _ Ht _ _ _ Hc Hp) as (_ & u & Hu & Hl). rewrite Hx in Hc. injection Hc as ->.
    rewrite Hy in Hu. injection Hu as ->. auto.
  - destruct (tr_parent _ _ Ht _ _ _ Hc Hp) as (_ & u & Hu & Hl). rewrite Hx in Hc. injection Hc as ->.
    apply (IH Hy u Hu). by rewrite (Hl Hs).
Qed.

Lemma lineage_complete m n fuel : tree_ok m n → ∀ c x, m !! c = Some x → st x = Leased → (c < fuel)%nat →
  ∀ a y k, (a = c ∨ ancestor m a c) → m !! a = Some y → k ∈ wanted y → k ∈ lineage fuel m (Some c).
Proof.
  intros Ht. induction fuel as [|fuel IH]; intros c x Hc Hs Hlt a y k Ha Hy Hk; [lia|].
  cbn [lineage]. rewrite Hc, decide_True by done. apply elem_of_app. destruct Ha as [->|Ha].
  - left. congruence.
  - right. inversion Ha as [c' z p Hc' Hp|c' z p a' Hc' Hp Ha']; subst; rewrite Hc in Hc'; injection Hc' as <-; rewrite Hp;
      destruct (tr_parent _ _ Ht _ _ _ Hc Hp) as (Hpc & u & Hu & Hl);
      (assert (st u = Leased) as Hul by (apply Hl; by rewrite Hs)).
    + apply (IH a u Hu Hul ltac:(lia) a y k); auto.
    + apply (IH p u Hu Hul ltac:(lia) a y k); auto.
Qed.

(** *** The gates *)
Lemma elem_of_all_refs m p : p ∈ all_refs m ↔ ∃ c x, m !! c = Some x ∧ p ∈ refs_of x.
Proof.
  unfold all_refs. rewrite list_elem_of_bind. split.
  - intros ([c x] & Hp & Hx%elem_of_map_to_list). eauto.
  - intros (c & x & Hx%elem_of_map_to_list & Hp). by exists (c, x).
Qed.

Lemma occurs_zero k l : occurs k l = 0 → ∀ p, p ∈ l → p.1 ≠ k.
Proof.
  intros Ho [k' g] Hp Hk. cbn in Hk. subst k'. pose proof (occurs_pos k g l Hp). lia.
Qed.

(** The state after call [c] became [y] and the gate tables changed. *)
Definition with_tables (m : manager) (ng : nat) (g : gmap admissionKey nat) (h : gmap nat gate) (cs : gmap nat call) : manager :=
  Manager g h ng (m_active m) (m_closed m) (idle m) cs (next_call m).

Lemma gates_new m c x y k : gates_ok m → calls m !! c = Some x → gates m !! k = None →
  refs_of y ≡ₚ (k, next_gate m) :: refs_of x → got y = got x →
  gates_ok (with_tables m (S (next_gate m)) (<[k := next_gate m]> (gates m)) (<[next_gate m := Gate false 1]> (heap m)) (<[c := y]> (calls m))).
Proof.
  intros [G1 G2 G3 G4 G5 G6] Hc Hk Hr Hg. set (g := next_gate m) in *.
  assert (∀ k' g', gates m !! k' = Some g' → g' ≠ g) as Hne by (intros k' g' H%G1; lia).
  assert (∀ k', occurs k' (all_refs (<[c := y]> (calls m))) = occurs k' (all_refs (calls m)) + (if decide (k = k') then 1 else 0)) as Hrefs.
  { intros k'. rewrite (proj1 (totals_insert _ c x y k' Hc)), (occurs_perm k' _ _ Hr), occurs_cons. cbn [fst]. lia. }
  assert (∀ k', occurs k' (all_got (<[c := y]> (calls m))) = occurs k' (all_got (calls m))) as Hgot.
  { intros k'. rewrite (proj2 (totals_insert _ c x y k' Hc)), Hg. lia. }
  split; cbn [with_tables gates heap next_gate calls].
  - intros k' g'. rewrite lookup_insert_Some. intros [[_ <-]|[_ H%G1]]; lia.
  - intros k1 k2 g'. rewrite !lookup_insert_Some. intros [[H1 H1']|[_ H1]] [[H2 H2']|[_ H2]]; [congruence|subst; by destruct (Hne _ _ H2)|subst; by destruct (Hne _ _ H1)|eauto].
  - intros k'. rewrite Hrefs, G3. destruct (decide (k = k')) as [<-|Hkk].
    + rewrite lookup_insert_eq, Hk, lookup_insert_eq. done.
    + rewrite (lookup_insert_ne (gates m)) by done. destruct (gates m !! k') as [g'|] eqn:Hg'; [|lia].
      rewrite lookup_insert_ne by (intros <-; by eapply Hne). lia.
  - intros k' g'. rewrite lookup_insert_Some. intros [[_ <-]|[_ H]].
    + rewrite lookup_insert_eq. eexists; split; [done|cbn; lia].
    + rewrite lookup_insert_ne by (intros <-; by eapply Hne). eauto.
  - intros k'. rewrite Hgot, G5. destruct (decide (k = k')) as [<-|Hkk].
    + by rewrite lookup_insert_eq, Hk, lookup_insert_eq.
    + rewrite (lookup_insert_ne (gates m)) by done. destruct (gates m !! k') as [g'|] eqn:Hg'; [|done].
      by rewrite lookup_insert_ne by (intros <-; by eapply Hne).
  - assert (∀ k' g', gates m !! k' = Some g' → <[k := g]> (gates m) !! k' = Some g') as Hmono.
    { intros k' g' H. rewrite lookup_insert_ne; [done|congruence]. }
    intros d z k' g' Hd Hin. rewrite lookup_insert_Some in Hd. destruct Hd as [[<- <-]|[_ Hd]]; [|eauto].
    rewrite Hr in Hin. apply elem_of_cons in Hin as [[= -> ->]|Hin]; [apply lookup_insert_eq|eauto].
Qed.

(** The gate of [k] changes, staying in the table. *)
Lemma gates_change m c x y k g gt gt' : gates_ok m → calls m !! c = Some x → gates m !! k = Some g → heap m !! g = Some gt →
  (∀ p, p ∈ refs_of y → p = (k, g) ∨ p ∈ refs_of x) →
  (∀ k', occurs k' (refs_of y) - occurs k' (refs_of x) = if decide (k = k') then refs gt' - refs gt else 0) →
  (∀ k', occurs k' (got y) - occurs k' (got x) =
     if decide (k = k') then (if token gt' then 1 else 0) - (if token gt then 1 else 0) else 0) →
  0 < refs gt' →
  gates_ok (with_tables m (next_gate m) (gates m) (<[g := gt']> (heap m)) (<[c := y]> (calls m))).
Proof.
  intros [G1 G2 G3 G4 G5 G6] Hc Hk Hg Hsub Hr Ht Hpos.
  split; cbn [with_tables gates heap next_gate calls]; try done.
  - intros k'. rewrite (proj1 (totals_insert _ c x y k' Hc)), G3. specialize (Hr k'). destruct (decide (k = k')) as [<-|Hne].
    + rewrite Hk, Hg, lookup_insert_eq. lia.
    + destruct (gates m !! k') as [g'|] eqn:Hg'; [|lia]. rewrite lookup_insert_ne; [lia|]. intros <-. eauto.
  - intros k' g' Hk'. destruct (decide (g = g')) as [<-|Hne]; [rewrite lookup_insert_eq; eauto|].
    rewrite lookup_insert_ne by done. eauto.
  - intros k'. rewrite (proj2 (totals_insert _ c x y k' Hc)), G5. specialize (Ht k'). destruct (decide (k = k')) as [<-|Hne].
    + rewrite Hk, Hg, lookup_insert_eq. lia.
    + destruct (gates m !! k') as [g'|] eqn:Hg'; [|lia]. rewrite lookup_insert_ne; [lia|]. intros <-. eauto.
  - intros d z k' g' Hd Hin. rewrite lookup_insert_Some in Hd. destruct Hd as [[<- <-]|[_ Hd]]; [|eauto].
    apply Hsub in Hin as [[= -> ->]|Hin]; eauto.
Qed.

(** The last reference to [k] goes, and its gate with it. *)
Lemma gates_drop m c x y k g gt gt' : gates_ok m → calls m !! c = Some x → gates m !! k = Some g → heap m !! g = Some gt →
  (∀ p, p ∈ refs_of y → p ∈ refs_of x) →
  (∀ k', occurs k' (refs_of y) - occurs k' (refs_of x) = if decide (k = k') then - refs gt else 0) →
  (∀ k', occurs k' (got y) - occurs k' (got x) = if decide (k = k') then - (if token gt then 1 else 0) else 0) →
  gates_ok (with_tables m (next_gate m) (delete k (gates m)) (<[g := gt']> (heap m)) (<[c := y]> (calls m))).
Proof.
  intros [G1 G2 G3 G4 G5 G6] Hc Hk Hg Hsub Hr Ht.
  assert (∀ k' g', k ≠ k' → gates m !! k' = Some g' → g ≠ g') as Hdiff by (intros k' g' Hne H <-; eauto).
  assert (occurs k (all_refs (<[c := y]> (calls m))) = 0) as Hnone.
  { rewrite (proj1 (totals_insert _ c x y k Hc)), G3, Hk, Hg. specialize (Hr k). rewrite decide_True in Hr by done. lia. }
  split; cbn [with_tables gates heap next_gate calls].
  - intros k' g'. rewrite lookup_delete_Some. intros [_ H]. eauto.
  - intros k1 k2 g'. rewrite !lookup_delete_Some. intros [_ H1] [_ H2]. eauto.
  - intros k'. destruct (decide (k = k')) as [<-|Hne].
    + by rewrite lookup_delete_eq.
    + rewrite lookup_delete_ne by done. rewrite (proj1 (totals_insert _ c x y k' Hc)), G3. specialize (Hr k').
      rewrite decide_False in Hr by done. destruct (gates m !! k') as [g'|] eqn:Hg'; [|lia].
      rewrite lookup_insert_ne by (by eapply Hdiff). lia.
  - intros k' g'. rewrite lookup_delete_Some. intros [Hne H]. rewrite lookup_insert_ne by (by eapply Hdiff). eauto.
  - intros k'. destruct (decide (k = k')) as [<-|Hne].
    + rewrite lookup_delete_eq, (proj2 (totals_insert _ c x y k Hc)), G5, Hk, Hg. specialize (Ht k).
      rewrite decide_True in Ht by done. lia.
    + rewrite lookup_delete_ne by done. rewrite (proj2 (totals_insert _ c x y k' Hc)), G5. specialize (Ht k').
      rewrite decide_False in Ht by done. destruct (gates m !! k') as [g'|] eqn:Hg'; [|lia].
      rewrite lookup_insert_ne by (by eapply Hdiff). lia.
  - intros d z k' g' Hd Hin. assert (k ≠ k') as Hne.
    { intros <-. assert ((k, g') ∈ all_refs (<[c := y]> (calls m))) as Hall by (apply elem_of_all_refs; eauto).
      by apply (occurs_zero k _ Hnone) in Hall. }
    rewrite lookup_delete_ne by done. rewrite lookup_insert_Some in Hd. destruct Hd as [[<- <-]|[_ Hd]]; eauto.
Qed.

(** Tables unchanged: the call keeps its references. *)
Lemma gates_same m c x y : gates_ok m → calls m !! c = Some x → refs_of y = refs_of x → got y = got x →
  gates_ok (with_tables m (next_gate m) (gates m) (heap m) (<[c := y]> (calls m))).
Proof.
  intros [G1 G2 G3 G4 G5 G6] Hc Hr Hg. split; cbn [with_tables gates heap next_gate calls]; try done.
  - intros k. rewrite (proj1 (totals_insert _ c x y k Hc)), Hr, <- G3. lia.
  - intros k. rewrite (proj2 (totals_insert _ c x y k Hc)), Hg, <- G5. lia.
  - intros d z k g Hd Hin. rewrite lookup_insert_Some in Hd. destruct Hd as [[<- <-]|[_ Hd]]; [|eauto]. rewrite Hr in Hin. eauto.
Qed.

Lemma gates_frame m m' : gates_ok m → gates m' = gates m → heap m' = heap m → next_gate m' = next_gate m → calls m' = calls m →
  gates_ok m'.
Proof. intros [G1 G2 G3 G4 G5 G6] E1 E2 E3 E4. split; rewrite ?E1, ?E2, ?E3, ?E4; done. Qed.

(** The tokens and the waiting references make up all references. *)
Lemma refs_split k cs c x p : cs !! c = Some x → waiting x = Some p →
  occurs k (all_got cs) + occurs k [p] ≤ occurs k (all_refs cs).
Proof.
  intros Hc Hw.
  assert (∀ l : list (nat * call), occurs k (l ≫= λ q, got q.2) ≤ occurs k (l ≫= λ q, refs_of q.2)) as Hle.
  { induction l as [|q l IH]; cbn [mbind list_bind]; [done|]. rewrite !occurs_app. unfold refs_of at 1. rewrite occurs_app.
    pose proof (occurs_nonneg k match waiting q.2 with Some p => [p] | None => [] end). lia. }
  unfold all_got, all_refs. rewrite (occurs_perm k _ _ (bind_lookup got cs c x Hc)), (occurs_perm k _ _ (bind_lookup refs_of cs c x Hc)).
  rewrite !occurs_app. unfold refs_of at 1. rewrite Hw, occurs_app. specialize (Hle (map_to_list (delete c cs))). lia.
Qed.

(** ** Preservation *)
(** A live call goes on living. *)
Lemma inv_update m c x y ng g h : inv m → calls m !! c = Some x → call_ok y → parent y = parent x → wanted y = wanted x →
  st x ≠ Finished → st y ≠ Finished →
  (st x = Leased → ∀ d z, calls m !! d = Some z → parent z = Some c → st z = Finished) →
  gates_ok (with_tables m ng g h (<[c := y]> (calls m))) →
  inv (with_tables m ng g h (<[c := y]> (calls m))).
Proof.
  intros [I1 I2 I3 I4 I5] Hc Hy Hp Hw Hx Hyf Hch Hg. split; [| |done| |done]; cbn [with_tables calls next_call m_active].
  - intros d z. rewrite lookup_insert_Some. intros [[<- <-]|[_ Hd]]; eauto.
  - destruct (decide (st x = Leased)) as [Hl|Hl]; [|by eapply tree_update_unleased].
    eapply tree_update; try done. intros d z Hd Hz Hf. destruct Hf. eauto.
  - rewrite (live_insert _ _ _ _ Hc), I4. unfold alive. rewrite !decide_False by done. lia.
Qed.

(** A gate that a call refers to exists. *)
Lemma gate_of m c x k g : gates_ok m → calls m !! c = Some x → (k, g) ∈ refs_of x →
  gates m !! k = Some g ∧ ∃ gt, heap m !! g = Some gt ∧ 0 < refs gt.
Proof. intros Hg Hc Hin. pose proof (ga_known _ Hg _ _ _ _ Hc Hin) as Hk. split; [done|]. by apply (ga_live _ Hg k). Qed.

Definition fine (r : option (res manager)) : Prop := match r with None => True | Some r => ∃ m, r = Ok m ∧ inv m end.

Lemma occurs_single k p : occurs k [p] = if decide (p.1 = k) then 1 else 0.
Proof. rewrite occurs_cons. unfold occurs. cbn. lia. Qed.
Lemma occurs_nil k : occurs k [] = 0.
Proof. done. Qed.

Lemma fine_SRef m c : inv m → fine (exec m (SRef c)).
Proof.
  intros Hi. cbn [exec]. destruct (calls m !! c) as [x|] eqn:Hc; [|done]. destruct (st x) eqn:Hs; [|done..].
  destruct (waiting x) eqn:Hw; [done|]. destruct (next_key x) as [k|] eqn:Hk; [|done]. cbn [fine].
  pose proof (in_calls _ Hi c x Hc) as [K1 K2 K3 K4 K5]. pose proof (in_gates _ Hi) as Hg.
  assert (∀ g, call_ok (Call (parent x) (wanted x) (got x) (Some (k, g)) (st x))) as Hok.
  { intros g. split; cbn [got wanted waiting st]; try done. by intros k' g' [= <- <-]. }
  assert (∀ g, refs_of (Call (parent x) (wanted x) (got x) (Some (k, g)) (st x)) ≡ₚ (k, g) :: refs_of x) as Hr.
  { intros g. unfold refs_of. cbn [got waiting]. rewrite Hw, app_nil_r. by rewrite Permutation_app_comm. }
  unfold enter_ref. destruct (gates m !! k) as [g|] eqn:Hgk.
  - destruct (ga_live _ Hg k g Hgk) as (gt & Hgt & Hpos). rewrite Hgt. eexists; split; [done|].
    apply (inv_update m c x _ (next_gate m) (gates m)); rewrite ?Hs; try done; [by rewrite <- Hs|].
    apply (gates_change m c x _ k g gt); try done; cbn [refs token].
    + intros p. rewrite <- Hs, (Hr g). intros [->|?]%elem_of_cons; auto.
    + intros k'. rewrite <- Hs, (occurs_perm k' _ _ (Hr g)), occurs_cons. cbn [fst]. destruct (decide (k = k')); lia.
    + intros k'. cbn [got]. destruct (decide (k = k')); lia.
    + lia.
  - eexists; split; [done|]. apply (inv_update m c x _ (S (next_gate m)) (<[k:=next_gate m]> (gates m)));
      rewrite ?Hs; try done; [by rewrite <- Hs|]. apply (gates_new m c x); try done. by rewrite <- Hs.
Qed.

Lemma fine_SToken m c : inv m → fine (exec m (SToken c)).
Proof.
  intros Hi. cbn [exec]. destruct (calls m !! c) as [x|] eqn:Hc; [|done]. destruct (st x) eqn:Hs; [|done..].
  destruct (waiting x) as [[k g]|] eqn:Hw; [|done].
  pose proof (in_calls _ Hi c x Hc) as [K1 K2 K3 K4 K5]. pose proof (in_gates _ Hi) as Hg.
  destruct (gate_of m c x k g Hg Hc) as (Hk & gt & Hgt & Hpos); [unfold refs_of; rewrite Hw; apply elem_of_app; right; by left|].
  rewrite Hgt. destruct (token gt) eqn:Ht; [done|]. eexists; split; [done|].
  destruct (K2 k g Hw) as [_ Hn]. unfold next_key in Hn. unfold enter_token. rewrite Hs.
  apply (inv_update m c x _ (next_gate m) (gates m)); rewrite ?Hs; try done.
  - split; cbn [got wanted waiting st]; try done. rewrite map_app, length_app. cbn [map length key_of fst].
    by rewrite Nat.add_1_r, (take_S_r _ _ _ Hn), K1.
  - apply (gates_change m c x _ k g gt); try done; cbn [refs token].
    + intros p. unfold refs_of. cbn [got waiting]. rewrite Hw, app_nil_r. auto.
    + intros k'. unfold refs_of. cbn [got waiting]. rewrite Hw, app_nil_r. destruct (decide (k = k')); lia.
    + intros k'. cbn [got]. rewrite occurs_app, occurs_single, Ht. cbn [fst]. destruct (decide (k = k')); lia.
Qed.

(** Dropping a reference, and the token with it if it was put. *)
Lemma release_fine m c x y k g (acquired : bool) : inv m → calls m !! c = Some x → call_ok y → parent y = parent x → wanted y = wanted x →
  st x ≠ Finished → st y ≠ Finished → st x ≠ Leased →
  refs_of x ≡ₚ (k, g) :: refs_of y → got x ≡ₚ (if acquired then (k, g) :: got y else got y) →
  (acquired = false → waiting x = Some (k, g)) →
  ∃ m', releaseGate m k g acquired = Ok m' ∧ inv (set_call m' c y).
Proof.
  intros Hi Hc Hy Hp Hw Hx Hyf Hl Hr Hgot Hwait. pose proof (in_gates _ Hi) as Hg.
  destruct (gate_of m c x k g Hg Hc) as (Hk & gt & Hgt & Hpos); [rewrite Hr; by left|].
  pose proof (ga_token _ Hg k) as Htok. rewrite Hk, Hgt in Htok. pose proof (ga_refs _ Hg k) as Hrf. rewrite Hk, Hgt in Hrf.
  assert (acquired = true → token gt = true) as Hat.
  { intros ->. destruct (token gt); [done|]. pose proof (proj2 (totals_insert _ c x y k Hc)) as H.
    rewrite (occurs_perm k _ _ Hgot), occurs_cons, decide_True in H by done.
    pose proof (occurs_nonneg k (all_got (<[c:=y]> (calls m)))). lia. }
  unfold releaseGate. rewrite Hgt. destruct (acquired && negb (token gt)) eqn:Hpan.
  { apply andb_true_iff in Hpan as [Ha Hn]. by rewrite Hat in Hn. }
  eexists; split; [done|]. cbn [refs].
  assert (∀ k', occurs k' (refs_of y) - occurs k' (refs_of x) = if decide (k = k') then -1 else 0) as Hdr.
  { intros k'. rewrite (occurs_perm k' _ _ Hr), occurs_cons. cbn [fst]. destruct (decide (k = k')); lia. }
  assert (∀ k', occurs k' (got y) - occurs k' (got x) = if decide (k = k') then (if acquired then -1 else 0) else 0) as Hdg.
  { intros k'. rewrite (occurs_perm k' _ _ Hgot). destruct acquired; rewrite ?occurs_cons; cbn [fst];
      destruct (decide (k = k')); lia. }
  assert (∀ p, p ∈ refs_of y → p ∈ refs_of x) as Hsub by (intros p Hin; rewrite Hr; by right).
  destruct (refs gt - 1 =? 0) eqn:Hz.
  - apply Z.eqb_eq in Hz. apply (inv_update m c x y (next_gate m) (delete k (gates m))); try done.
    apply (gates_drop m c x y k g gt); try done.
    + intros k'. rewrite Hdr. destruct (decide (k = k')); lia.
    + intros k'. rewrite Hdg. destruct (decide (k = k')); [|done]. destruct acquired; [by rewrite Hat|].
      pose proof (refs_split k (calls m) c x (k, g) Hc (Hwait eq_refl)) as Hs. rewrite occurs_single, decide_True in Hs by done.
      destruct (token gt); lia.
  - apply Z.eqb_neq in Hz. apply (inv_update m c x y (next_gate m) (gates m)); try done.
    apply (gates_change m c x y k g gt); try done; cbn [refs token]; [by right; auto|..|lia].
    + intros k'. rewrite Hdr. destruct (decide (k = k')); lia.
    + intros k'. rewrite Hdg. destruct acquired; [rewrite (Hat eq_refl); done|]. destruct (decide (k = k')); lia.
Qed.

Lemma fine_SCancel m c : inv m → fine (exec m (SCancel c)).
Proof.
  intros Hi. cbn [exec]. destruct (calls m !! c) as [x|] eqn:Hc; [|done]. destruct (st x) eqn:Hs; [|done..].
  destruct (waiting x) as [[k g]|] eqn:Hw; [|done]. pose proof (in_calls _ Hi c x Hc) as [K1 K2 K3 K4 K5].
  cbn [fine]. unfold enter_cancel.
  destruct (release_fine m c x (Call (parent x) (wanted x) (got x) None Unwinding) k g false Hi Hc) as (m' & -> & Hi');
    rewrite ?Hs; try done; cbn [res_bind]; [|by exists (set_call m' c (Call (parent x) (wanted x) (got x) None Unwinding))].
  unfold refs_of. cbn [got waiting]. rewrite Hw, app_nil_r. by rewrite Permutation_app_comm.
Qed.

Lemma fine_SUnwind m c : inv m → fine (exec m (SUnwind c)).
Proof.
  intros Hi. cbn [exec]. destruct (calls m !! c) as [x|] eqn:Hc; [|done]. destruct (st x) eqn:Hs; [done..| |done].
  destruct (last (got x)) as [[k g]|] eqn:Hl; [|done]. pose proof (in_calls _ Hi c x Hc) as [K1 K2 K3 K4 K5].
  cbn [fine]. unfold unwind. apply last_Some in Hl as [l Hl]. rewrite Hl, removelast_last.
  assert (waiting x = None) as Hw.
  { destruct (waiting x) as [[k' g']|]; [|done]. destruct (K2 k' g' eq_refl). congruence. }
  destruct (release_fine m c x (Call (parent x) (wanted x) l None Unwinding) k g true Hi Hc) as (m' & -> & Hi');
    rewrite ?Hs; try done; cbn [res_bind]; [| | |by exists (set_call m' c (Call (parent x) (wanted x) l None Unwinding))].
  - split; cbn [got wanted waiting st]; try done. rewrite Hl, map_app, length_app in K1. cbn [length] in K1.
    rewrite Nat.add_1_r in K1. apply (f_equal (take (length l))) in K1. rewrite take_take, Nat.min_l in K1 by lia.
    rewrite <- K1. rewrite take_app_length'; [done|by rewrite length_map].
  - unfold refs_of. cbn [got waiting]. rewrite Hw, Hl, !app_nil_r. by rewrite Permutation_app_comm.
  - cbn [got]. rewrite Hl. by rewrite Permutation_app_comm.
Qed.

Lemma fine_SCheck m c e : inv m → fine (exec m (SCheck c e)).
Proof.
  intros Hi. cbn [exec]. destruct (calls m !! c) as [x|] eqn:Hc; [|done]. destruct (st x) eqn:Hs; [|done..].
  destruct (waiting x) eqn:Hw; [done|]. destruct (next_key x) eqn:Hk; [done|].
  pose proof (in_calls _ Hi c x Hc) as [K1 K2 K3 K4 K5]. eexists; split; [done|].
  unfold enter_check. unfold next_key in Hk. apply lookup_ge_None in Hk.
  apply (inv_update m c x _ (next_gate m) (gates m) (heap m)); rewrite ?Hs; try done; [|cbn; by destruct (_ || _)|].
  - split; cbn [got wanted waiting st]; try done; [|by destruct (_ || _)]. intros _.
    apply (f_equal length) in K1. rewrite length_map, length_take in K1. lia.
  - apply (gates_same m c x); [apply Hi|done| |done]. unfold refs_of. by rewrite Hw.
Qed.

Lemma fine_SRelease m c : inv m → allowed m (SRelease c) → fine (exec m (SRelease c)).
Proof.
  intros Hi Ha. cbn [exec allowed] in *. destruct (calls m !! c) as [x|] eqn:Hc; [|done]. destruct (st x) eqn:Hs; [done| |done..].
  pose proof (in_calls _ Hi c x Hc) as [K1 K2 K3 K4 K5]. eexists; split; [done|].
  assert (waiting x = None) as Hw.
  { destruct (waiting x) as [[k' g']|]; [|done]. destruct (K2 k' g' eq_refl). congruence. }
  apply (inv_update m c x _ (next_gate m) (gates m) (heap m)); rewrite ?Hs; try done.
  apply (gates_same m c x); [apply Hi|done| |done]. unfold refs_of. by rewrite Hw.
Qed.

Lemma fine_SFinish m c : inv m → fine (exec m (SFinish c)).
Proof.
  intros Hi. cbn [exec]. destruct (calls m !! c) as [x|] eqn:Hc; [|done]. destruct (st x) eqn:Hs; [done..| |done].
  destruct (got x) eqn:Hgx; [|done]. pose proof (in_calls _ Hi c x Hc) as Hok. pose proof Hok as [K1 K2 K3 K4 K5].
  destruct Hi as [I1 I2 I3 I4 I5].
  assert (waiting x = None) as Hw.
  { destruct (waiting x) as [[k' g']|]; [|done]. destruct (K2 k' g' eq_refl). congruence. }
  set (y := Call (parent x) (wanted x) (got x) None Finished).
  assert (live (<[c := y]> (calls m)) = m_active m - 1) as Hlive.
  { rewrite (live_insert _ _ _ _ Hc), I4. unfold alive. rewrite Hs. rewrite decide_False, decide_True by done. cbn. lia. }
  assert (∀ i, i = m_closed m && (m_active m - 1 =? 0) →
    inv (Manager (gates m) (heap m) (next_gate m) (m_active m - 1) (m_closed m) i (<[c := y]> (calls m)) (next_call m))) as Hinv.
  { intros i Hidle. split; cbn [calls next_call m_active m_closed idle]; [| | |done|done].
    - intros d z. rewrite lookup_insert_Some. intros [[_ <-]|[_ Hd]]; [|eauto].
      split; cbn [y got wanted waiting st]; try done; by rewrite ?Hgx.
    - apply (tree_update_unleased _ _ c x); try done; by rewrite Hs.
    - eapply gates_frame; [apply (gates_same m c x y); [done|done| |done]|done..]. unfold refs_of. by rewrite Hw. }
  pose proof (live_pos _ c x Hc) as Hpos. rewrite Hs, <- I4 in Hpos. specialize (Hpos ltac:(done)).
  unfold finishAdmission. destruct (m_closed m && (m_active m - 1 =? 0)) eqn:Hz.
  - assert (idle m = false) as ->; [|eexists; split; [done|by apply Hinv]].
    rewrite I5. rewrite (proj2 (Z.eqb_neq _ _)) by lia. by rewrite andb_false_r.
  - eexists; split; [done|]. apply Hinv. rewrite I5. rewrite (proj2 (Z.eqb_neq (m_active m) _)) by lia. by rewrite andb_false_r.
Qed.

Lemma fine_SClose m : inv m → fine (exec m SClose).
Proof.
  intros [I1 I2 I3 I4 I5]. cbn [exec fine]. unfold BeginClose. destruct (m_closed m) eqn:Hc; cbn [andb] in I5.
  { eexists; split; [done|]. split; try done. by rewrite Hc. }
  rewrite I5. destruct (m_active m =? 0) eqn:Hz; (eexists; split; [done|]; split; try done; cbn [idle m_closed m_active]; first [by rewrite Hz | by eapply gates_frame]).
Qed.

Lemma ancestor_new m n c y a d : tree_ok m n → (n ≤ c)%nat → ancestor (<[c := y]> m) a d → d ≠ c → ancestor m a d.
Proof.
  intros Ht Hn. induction 1 as [d z p Hd Hz|d z p a Hd Hz _ IH]; intros Hne; rewrite lookup_insert_ne in Hd by done.
  - by apply (anc_parent _ _ z).
  - apply (anc_above _ _ z p); [done..|]. apply IH. destruct (tr_parent _ _ Ht _ _ _ Hd Hz) as [Hlt _].
    pose proof (tr_ids _ _ Ht _ _ Hd). lia.
Qed.

(** A new call of a context whose lease is live. *)
Lemma tree_new m n p w : tree_ok m n → match p with Some q => ∃ u, m !! q = Some u ∧ st u = Leased | None => True end →
  (∀ k h, k ∈ w → h ∈ lineage n m p → key_lt h k) → tree_ok (<[n := Call p w [] None Acquiring]> m) (S n).
Proof.
  intros Ht Hp Hlt. assert (m !! n = None) as Hnew.
  { destruct (m !! n) eqn:Hc; [|done]. pose proof (tr_ids _ _ Ht _ _ Hc). lia. }
  split.
  - intros d z. rewrite lookup_insert_Some. intros [[<- _]|[_ Hd]]; [lia|]. pose proof (tr_ids _ _ Ht _ _ Hd). lia.
  - intros d z q. rewrite lookup_insert_Some. intros [[<- <-]|[Hne Hd]] Hq.
    + cbn [parent] in Hq. subst p. destruct Hp as (u & Hu & Hl). pose proof (tr_ids _ _ Ht _ _ Hu).
      split; [lia|]. exists u. rewrite lookup_insert_ne by lia. done.
    + destruct (tr_parent _ _ Ht _ _ _ Hd Hq) as (Hlt' & u & Hu & Hl). split; [done|]. exists u.
      rewrite lookup_insert_ne; [done|]. pose proof (tr_ids _ _ Ht _ _ Hd). lia.
  - intros d z a u k' k Hd Hanc Hu Hk' Hk. destruct (decide (d = n)) as [->|Hne].
    + rewrite lookup_insert_eq in Hd. injection Hd as <-. cbn [wanted] in Hk. apply Hlt; [done|].
      assert (∃ q, p = Some q ∧ (a = q ∨ ancestor m a q) ∧ q ≠ n) as (q & -> & Haq & Hqc).
      { inversion Hanc as [? v q Hv Hq|? v q ? Hv Hq Haq]; subst; rewrite lookup_insert_eq in Hv;
          injection Hv as <-; cbn [parent] in Hq; subst p; destruct Hp as (u' & Hu' & _);
          pose proof (tr_ids _ _ Ht _ _ Hu'); eexists; (split; [done|]; split; [|lia]); [by left|right].
        eapply (ancestor_new m n n); [done|done|done|lia]. }
      destruct Hp as (v & Hv & Hl). pose proof (tr_ids _ _ Ht _ _ Hv).
      assert (a ≠ n) as Hac.
      { intros ->. destruct Haq as [->|Haq]; [done|]. pose proof (ancestor_lt _ _ _ _ Ht Haq). lia. }
      rewrite lookup_insert_ne in Hu by done. by apply (lineage_complete m n n Ht q v Hv Hl ltac:(lia) a u).
    + pose proof (ancestor_new _ _ _ _ _ _ Ht (Nat.le_refl n) Hanc Hne) as Hanc'. rewrite lookup_insert_ne in Hd by done.
      pose proof (ancestor_lt _ _ _ _ Ht Hanc'). pose proof (tr_ids _ _ Ht _ _ Hd).
      rewrite lookup_insert_ne in Hu by lia. by apply (tr_order _ _ Ht d z a u).
Qed.

Lemma want_no_panic keys : ∀ held, want held keys ≠ Panic.
Proof.
  induction keys as [|k keys IH]; intros h; cbn [want]; [done|].
  destruct (bool_decide _); [apply IH|]. destruct (existsb _ h); [done|]. specialize (IH (k :: h)).
  by destruct (want (k :: h) keys).
Qed.

Lemma fine_SBegin m p keys e : inv m → allowed m (SBegin p keys e) → fine (exec m (SBegin p keys e)).
Proof.
  intros Hi Ha. cbn [exec fine]. unfold enter_begin. destruct e; [by exists m|].
  destruct (want (lineage (next_call m) (calls m) p) keys) as [w| |] eqn:Hw; cbn [res_bind]; [|by exists m|].
  2:{ by apply want_no_panic in Hw. }
  destruct (m_closed m) eqn:Hcl; [by exists m|]. eexists; split; [done|].
  apply want_ok in Hw as (W1 & W2 & W3 & W4). destruct Hi as [I1 I2 I3 I4 I5]. set (c := next_call m) in *.
  assert (calls m !! c = None) as Hnew.
  { destruct (calls m !! c) eqn:Hc; [|done]. pose proof (tr_ids _ _ I2 _ _ Hc). lia. }
  split; cbn [calls next_call m_active m_closed idle].
  - intros d z. rewrite lookup_insert_Some. intros [[_ <-]|[_ Hd]]; [|eauto]. split; cbn [got wanted waiting st]; done.
  - apply tree_new; [done|by destruct p|]. intros k h Hk Hh. by apply W3.
  - destruct I3 as [G1 G2 G3 G4 G5 G6]. split; cbn [gates heap next_gate calls]; try done.
    + intros k. unfold all_refs. rewrite (occurs_perm k _ _ (bind_insert refs_of (calls m) c _)), delete_id by done.
      rewrite occurs_app. cbn. rewrite <- G3. done.
    + intros k. unfold all_got. rewrite (occurs_perm k _ _ (bind_insert got (calls m) c _)), delete_id by done.
      rewrite occurs_app. cbn. rewrite <- G5. done.
    + intros d z k g Hd Hin. rewrite lookup_insert_Some in Hd. destruct Hd as [[_ <-]|[_ Hd]]; [by apply elem_of_nil in Hin|eauto].
  - rewrite live_new by done. unfold alive. cbn [st]. rewrite decide_False by done. cbn [length]. lia.
  - rewrite I5, Hcl. done.
Qed.

Lemma exec_fine m s : inv m → allowed m s → fine (exec m s).
Proof.
  intros Hi Ha. destruct s; auto using fine_SBegin, fine_SRef, fine_SToken, fine_SCancel, fine_SCheck, fine_SRelease,
    fine_SUnwind, fine_SFinish, fine_SClose.
Qed.

Lemma inv_NewManager : inv NewManager.
Proof. split; try done; split; cbn; try done; intros; by rewrite ?lookup_empty in *. Qed.

Lemma reachable_inv m : reachable m → inv m.
Proof.
  induction 1 as [|m s m' _ IH Ha Hs]; [apply inv_NewManager|].
  pose proof (exec_fine m s IH Ha) as H. rewrite Hs in H. destruct H as (m1 & [= <-] & ?). done.
Qed.

(** * What admission promises: exclusion, no leak, no deadlock, an orderly close *)
Definition holds (x : call) (k : admissionKey) : Prop := ∃ g, (k, g) ∈ got x.
Definition awaits (x : call) (k : admissionKey) : Prop := ∃ g, waiting x = Some (k, g).

Lemma holds_in x k : holds x k ↔ k ∈ map key_of (got x).
Proof.
  unfold holds. split.
  - intros [g Hg]. apply list_elem_of_fmap. by exists (k, g).
  - intros ([k' g] & -> & Hg)%list_elem_of_fmap. by exists g.
Qed.
Lemma holds_wanted x k : call_ok x → holds x k → k ∈ wanted x.
Proof. intros Hok Hk. apply holds_in in Hk. rewrite (ca_got _ Hok) in Hk. rewrite <- (take_drop (length (got x)) (wanted x)). apply elem_of_app. by left. Qed.

(** ** Deadlock freedom *)
(** [c] cannot go on before [d]: it waits for a key [d] holds, or it is a
    lease in which [d] is still nested. *)
Inductive blocked_by (m : manager) (c d : nat) : Prop :=
| blocked_key x y k : calls m !! c = Some x → calls m !! d = Some y → awaits x k → holds y k → blocked_by m c d
| blocked_nested x y : calls m !! c = Some x → calls m !! d = Some y → st x = Leased → parent y = Some c → st y ≠ Finished → blocked_by m c d.

(** The steps of one call; the end of a context is not one of them. *)
Definition step_of (c : nat) (s : mstep) : Prop :=
  match s with
  | SRef d | SToken d | SCheck d _ | SRelease d | SUnwind d | SFinish d => d = c
  | _ => False
  end.
Definition can_move (m : manager) (c : nat) : Prop := ∃ s, step_of c s ∧ allowed m s ∧ exec m s ≠ None.

(** Down the nesting to a call that is no lease or has nothing nested in it. *)
Lemma innermost m c : inv m → ∀ x, calls m !! c = Some x → st x ≠ Finished →
  ∃ e y, rtc (blocked_by m) c e ∧ calls m !! e = Some y ∧ (e = c ∨ ancestor (calls m) c e) ∧ st y ≠ Finished
    ∧ (st y = Leased → allowed m (SRelease e)).
Proof.
  intros Hi. remember (next_call m - c)%nat as n eqn:Hn. revert c Hn.
  induction n as [n IH] using lt_wf_ind. intros c Hn x Hc Hx.
  destruct (decide (st x = Leased)) as [Hl|Hl]; [|exists c, x; split_and!; [apply rtc_refl|done|by left|done|done]].
  destruct (list_find (λ p : nat * call, parent p.2 = Some c ∧ st p.2 ≠ Finished) (map_to_list (calls m))) as [[i [d z]]|] eqn:Hf.
  - apply list_find_Some in Hf as (Hin & [Hp Hz] & _). apply list_elem_of_lookup_2, elem_of_map_to_list in Hin. cbn in Hp, Hz.
    destruct (tr_parent _ _ (in_tree _ Hi) _ _ _ Hin Hp) as [Hlt _]. pose proof (tr_ids _ _ (in_tree _ Hi) _ _ Hin).
    destruct (IH (next_call m - d)%nat) with (c := d) (x := z) as (e & y & Hr & He & Ha & Hs & Hal); [lia|done|done|done|].
    exists e, y. split_and!; [|done| |done|done].
    + eapply rtc_l; [|done]. by apply (blocked_nested m c d x z).
    + right. destruct Ha as [->|Ha]; [by apply (anc_parent _ _ z)|]. clear -Ha Hin Hp.
      induction Ha as [e v q He Hq|e v q a He Hq _ IH]; [apply (anc_above _ _ v q); [done..|by apply (anc_parent _ _ z)]|].
      apply (anc_above _ _ v q); [done..|by apply IH].
  - apply list_find_None in Hf. exists c, x. split_and!; [apply rtc_refl|done|by left|done|]. intros _ d y Hd Hp.
    rewrite Forall_forall in Hf. specialize (Hf (d, y)). cbn in Hf. destruct (decide (st y = Finished)); [done|].
    destruct Hf; [by apply elem_of_map_to_list|done].
Qed.

(** Such a call moves, or waits for a key. *)
Lemma moves_or_waits m e y : inv m → calls m !! e = Some y → st y ≠ Finished → (st y = Leased → allowed m (SRelease e)) →
  can_move m e ∨ ∃ k, awaits y k ∧ next_key y = Some k.
Proof.
  intros Hi He Hs Hal. pose proof (in_calls _ Hi e y He) as Hok. destruct (st y) eqn:Hst; [|left|left|done].
  - destruct (waiting y) as [[k g]|] eqn:Hw.
    + right. exists k. split; [by exists g|]. by apply (ca_waiting _ Hok k g).
    + left. destruct (next_key y) as [k|] eqn:Hk.
      * exists (SRef e). split_and!; [done|done|]. cbn [exec]. by rewrite He, Hst, Hw, Hk.
      * exists (SCheck e false). split_and!; [done|done|]. cbn [exec]. by rewrite He, Hst, Hw, Hk.
  - exists (SRelease e). split_and!; [done|auto|]. cbn [exec]. by rewrite He, Hst.
  - destruct (last (got y)) as [[k g]|] eqn:Hla.
    + exists (SUnwind e). split_and!; [done|done|]. cbn [exec]. by rewrite He, Hst, Hla.
    + apply last_None in Hla. exists (SFinish e). split_and!; [done|done|]. cbn [exec]. by rewrite He, Hst, Hla.
Qed.

(** A call that waits takes the token, or a live call holds the key. *)
Lemma waits_holder m e y k : inv m → calls m !! e = Some y → awaits y k →
  can_move m e ∨ ∃ d z, calls m !! d = Some z ∧ holds z k ∧ st z ≠ Finished.
Proof.
  intros Hi He [g Hw]. pose proof (in_calls _ Hi e y He) as Hok. pose proof (in_gates _ Hi) as Hg.
  destruct (ca_waiting _ Hok k g Hw) as [Hst Hn].
  destruct (gate_of m e y k g Hg He) as (Hk & gt & Hgt & _); [unfold refs_of; rewrite Hw; apply elem_of_app; right; by left|].
  destruct (token gt) eqn:Ht.
  - right. pose proof (ga_token _ Hg k) as Ho. rewrite Hk, Hgt, Ht in Ho. unfold occurs in Ho.
    destruct (filter (λ p : admissionKey * nat, p.1 = k) (all_got (calls m))) as [|[k' g'] l] eqn:Hf; [by cbn in Ho|].
    assert ((k', g') ∈ filter (λ p : admissionKey * nat, p.1 = k) (all_got (calls m))) as Hin by (rewrite Hf; by left).
    apply list_elem_of_filter in Hin as [Hkk Hin]. cbn in Hkk. subst k'.
    unfold all_got in Hin. apply list_elem_of_bind in Hin as ([d z] & Hin & Hd%elem_of_map_to_list).
    exists d, z. split_and!; [done|by exists g'|]. intros Hf'. cbn in Hin.
    rewrite (ca_finished _ (in_calls _ Hi d z Hd) Hf') in Hin. by apply elem_of_nil in Hin.
  - left. exists (SToken e). split_and!; [done|done|]. cbn [exec]. by rewrite He, Hst, Hw, Hgt, Ht.
Qed.

Lemma next_key_above x k k' : call_ok x → holds x k → next_key x = Some k' → key_lt k k'.
Proof.
  intros Hok Hk Hn. apply holds_in in Hk. rewrite (ca_got _ Hok) in Hk. unfold next_key in Hn.
  pose proof (ca_sorted _ Hok) as Hs. rewrite <- (take_drop_middle _ _ _ Hn) in Hs.
  apply (StronglySorted_app_1_elem_of key_lt _ _ _ _ Hs); [done|by left].
Qed.

(** The keys still above a waiting key, which bound the chain. *)
Definition above (m : manager) (k : admissionKey) : nat :=
  length (filter (λ k', key_ltb k k' = true) (map_to_list (calls m) ≫= λ p, wanted p.2)).

Lemma above_lt m e y k k' : calls m !! e = Some y → k' ∈ wanted y → key_lt k k' → (above m k' < above m k)%nat.
Proof.
  intros He Hk Hlt. unfold above.
  assert (k' ∈ map_to_list (calls m) ≫= λ p, wanted p.2) as Hin.
  { apply list_elem_of_bind. exists (e, y). split; [done|by apply elem_of_map_to_list]. }
  apply list_elem_of_split in Hin as (l1 & l2 & ->). rewrite !filter_app, !length_app.
  assert (∀ l, (length (filter (λ x, key_ltb k' x = true) l) ≤ length (filter (λ x, key_ltb k x = true) l))%nat) as Hle.
  { induction l as [|x l IH]; [done|]. rewrite !filter_cons.
    destruct (decide (key_ltb k' x = true)) as [H|H], (decide (key_ltb k x = true)) as [H'|H']; cbn [length]; try lia.
    destruct H'. apply key_ltb_lt. apply key_ltb_lt in H. by transitivity k'. }
  rewrite (filter_cons_False _ k'), (filter_cons_True _ k').
  - cbn [length]. pose proof (Hle l1). pose proof (Hle l2). lia.
  - by apply key_ltb_lt.
  - rewrite key_ltb_lt. apply irreflexivity, _.
Qed.

Lemma chain m : inv m → ∀ n d z k, (above m k < n)%nat → calls m !! d = Some z → st z ≠ Finished → holds z k →
  ∃ e, rtc (blocked_by m) d e ∧ can_move m e.
Proof.
  intros Hi n. induction n as [|n IH]; intros d z k Hn Hd Hz Hk; [lia|].
  destruct (innermost m d Hi z Hd Hz) as (e & y & Hr & He & Ha & Hs & Hal).
  destruct (moves_or_waits m e y Hi He Hs Hal) as [Hmv|(k' & Hw & Hn')]; [by exists e|].
  destruct (waits_holder m e y k' Hi He Hw) as [Hmv|(d' & z' & Hd' & Hk' & Hz')]; [by exists e|].
  pose proof (in_calls _ Hi d z Hd) as Hok.
  assert (k' ∈ wanted y) as Hin by (by eapply list_elem_of_lookup_2).
  assert (key_lt k k') as Hlt.
  { destruct Ha as [->|Ha].
    - rewrite Hd in He. injection He as <-. by apply (next_key_above z).
    - by apply (tr_order _ _ (in_tree _ Hi) e y d z k k' He Ha Hd (holds_wanted z k Hok Hk)). }
  pose proof (above_lt m e y k k' He Hin Hlt).
  destruct (IH d' z' k') as (f & Hrf & Hmv); [lia|done..|]. exists f. split; [|done].
  transitivity e; [exact Hr|]. eapply rtc_l; [|exact Hrf]. by apply (blocked_key m e d' y z' k').
Qed.

(** ** Exclusion and the gate table *)
Lemma holder_unique m c d x y k : inv m → c ≠ d → calls m !! c = Some x → calls m !! d = Some y → holds x k → holds y k → False.
Proof.
  intros Hi Hne Hc Hd [g Hg] [g' Hg']. pose proof (in_gates _ Hi) as Hga.
  pose proof (ga_token _ Hga k) as Ht.
  rewrite (ga_known _ Hga c x k g Hc) in Ht by (unfold refs_of; apply elem_of_app; by left).
  unfold all_got in Ht. rewrite (occurs_perm k _ _ (bind_lookup got (calls m) c x Hc)), occurs_app in Ht.
  rewrite (occurs_perm k _ _ (bind_lookup got (delete c (calls m)) d y ltac:(by rewrite lookup_delete_ne))), occurs_app in Ht.
  pose proof (occurs_pos k g _ Hg). pose proof (occurs_pos k g' _ Hg').
  pose proof (occurs_nonneg k (map_to_list (delete d (delete c (calls m))) ≫= λ p, got p.2)).
  destruct (heap m !! g) as [gt|]; [destruct (token gt)|]; lia.
Qed.

Lemma gate_used m k : inv m → is_Some (gates m !! k) ↔ ∃ c x, calls m !! c = Some x ∧ (holds x k ∨ awaits x k).
Proof.
  intros Hi. pose proof (in_gates _ Hi) as Hga. split.
  - intros [g Hg]. destruct (ga_live _ Hga k g Hg) as (gt & Hgt & Hpos). pose proof (ga_refs _ Hga k) as Hr. rewrite Hg, Hgt in Hr.
    unfold occurs in Hr. destruct (filter (λ p : admissionKey * nat, p.1 = k) (all_refs (calls m))) as [|[k' g'] l] eqn:Hf; [cbn in Hr; lia|].
    assert ((k', g') ∈ filter (λ p : admissionKey * nat, p.1 = k) (all_refs (calls m))) as Hin by (rewrite Hf; by left).
    apply list_elem_of_filter in Hin as [Hkk Hin]. cbn in Hkk. subst k'.
    apply elem_of_all_refs in Hin as (c & x & Hc & Hin). exists c, x. split; [done|].
    apply elem_of_app in Hin as [Hin|Hin]; [left; by exists g'|right; exists g'].
    destruct (waiting x) as [p|]; [by apply list_elem_of_singleton in Hin as <-|by apply elem_of_nil in Hin].
  - intros (c & x & Hc & [[g Hg]|[g Hg]]); exists g; apply (ga_known _ Hga c x k g Hc); unfold refs_of.
    + apply elem_of_app. by left.
    + rewrite Hg. apply elem_of_app. right. by left.
Qed.

(** ** What a lease grants *)
Definition progress (m m' : manager) : Prop := ∃ s, allowed m s ∧ exec m s = Some (Ok m').

Lemma progress_inv m m' : inv m → rtc progress m m' → inv m'.
Proof.
  intros Hi Hr. revert Hi. induction Hr as [m|m m1 m2 (s & Ha & Hs) _ IH]; intros Hi; [done|]. apply IH.
  pose proof (exec_fine m s Hi Ha) as H. rewrite Hs in H. destruct H as (m3 & [= <-] & ?). done.
Qed.

(** No step changes what a call wants or where it is nested. *)
Definition same_calls (m m' : manager) : Prop :=
  ∀ c x, calls m !! c = Some x → ∃ x', calls m' !! c = Some x' ∧ parent x' = parent x ∧ wanted x' = wanted x.
Lemma same_calls_refl m : same_calls m m.
Proof. intros c x Hx. eauto. Qed.
Lemma same_calls_trans m1 m2 m3 : same_calls m1 m2 → same_calls m2 m3 → same_calls m1 m3.
Proof.
  intros H1 H2 c x Hx. destruct (H1 c x Hx) as (y & Hy & ? & ?). destruct (H2 c y Hy) as (z & Hz & ? & ?).
  exists z. split_and!; congruence.
Qed.
Lemma same_calls_set m c x y m' : calls m !! c = Some x → parent y = parent x → wanted y = wanted x →
  calls m' = <[c := y]> (calls m) → same_calls m m'.
Proof.
  intros Hc Hp Hw E d z Hd. rewrite E. destruct (decide (c = d)) as [<-|Hne].
  - exists y. rewrite lookup_insert_eq. split_and!; congruence.
  - exists z. by rewrite lookup_insert_ne.
Qed.

Lemma releaseGate_calls m k g a m' : releaseGate m k g a = Ok m' → calls m' = calls m.
Proof. unfold releaseGate. destruct (heap m !! g); [|done]. destruct (_ && _); [done|]. by intros [= <-]. Qed.

Lemma progress_same m m' : inv m → progress m m' → same_calls m m'.
Proof.
  intros Hi (s & _ & Hs). destruct s as [p keys e|c|c|c|c e|c|c|c|]; cbn [exec] in Hs.
  - injection Hs as Hs. destruct (enter_begin m p keys e) as [[m1 c]| |] eqn:Hb; [|by injection Hs as <-; apply same_calls_refl|done].
    injection Hs as <-. unfold enter_begin in Hb. destruct e; [done|]. destruct (want _ _) as [w| |]; [|done..].
    cbn [res_bind] in Hb. destruct (m_closed m); [done|]. injection Hb as <- <-. intros d x Hd. exists x. cbn [calls].
    pose proof (tr_ids _ _ (in_tree _ Hi) _ _ Hd). by rewrite lookup_insert_ne by lia.
  - destruct (calls m !! c) as [x|] eqn:Hc; [|done]. repeat (case_match; try done). injection Hs as Hs. unfold enter_ref in Hs.
    repeat (case_match; try done); injection Hs as <-; by (eapply (same_calls_set m c x); [exact Hc| | |reflexivity]).
  - destruct (calls m !! c) as [x|] eqn:Hc; [|done]. repeat (case_match; try done). injection Hs as <-. by (eapply (same_calls_set m c x); [exact Hc| | |reflexivity]).
  - destruct (calls m !! c) as [x|] eqn:Hc; [|done]. repeat (case_match; try done). injection Hs as Hs. unfold enter_cancel in Hs.
    destruct (releaseGate m _ _ false) as [m1| |] eqn:Hr; [|done..]. injection Hs as <-. apply releaseGate_calls in Hr.
    by (eapply (same_calls_set m c x); [exact Hc| | |cbn [set_call calls]; rewrite Hr; reflexivity]).
  - destruct (calls m !! c) as [x|] eqn:Hc; [|done]. repeat (case_match; try done). injection Hs as <-. by (eapply (same_calls_set m c x); [exact Hc| | |reflexivity]).
  - destruct (calls m !! c) as [x|] eqn:Hc; [|done]. repeat (case_match; try done). injection Hs as <-. by (eapply (same_calls_set m c x); [exact Hc| | |reflexivity]).
  - destruct (calls m !! c) as [x|] eqn:Hc; [|done]. repeat (case_match; try done). injection Hs as Hs. unfold unwind in Hs.
    destruct (releaseGate m _ _ true) as [m1| |] eqn:Hr; [|done..]. injection Hs as <-. apply releaseGate_calls in Hr.
    by (eapply (same_calls_set m c x); [exact Hc| | |cbn [set_call calls]; rewrite Hr; reflexivity]).
  - destruct (calls m !! c) as [x|] eqn:Hc; [|done]. repeat (case_match; try done). injection Hs as Hs. unfold finishAdmission in Hs.
    repeat (case_match; try done); injection Hs as <-; by (eapply (same_calls_set m c x); [exact Hc| | |reflexivity]).
  - injection Hs as Hs. unfold BeginClose in Hs. repeat (case_match; try done); injection Hs as <-; intros c x Hc; by exists x.
Qed.

Lemma progresses_same m m' : inv m → rtc progress m m' → same_calls m m'.
Proof.
  intros Hi Hr. revert Hi. induction Hr as [m|m m1 m2 Hs _ IH]; intros Hi; [apply same_calls_refl|].
  eapply same_calls_trans; [by apply progress_same|]. apply IH. eapply progress_inv; [done|]. by apply rtc_once.
Qed.

Lemma ancestor_same m m' a c : same_calls m m' → ancestor (calls m) a c → ancestor (calls m') a c.
Proof.
  intros Hs. induction 1 as [c x p Hc Hp|c x p a Hc Hp _ IH]; destruct (Hs _ _ Hc) as (x' & Hc' & Hp' & _).
  - apply (anc_parent _ _ x'); congruence.
  - apply (anc_above _ _ x' p); congruence.
Qed.

Lemma lineage_sound cs fuel : ∀ p k, k ∈ lineage fuel cs p →
  ∃ q a y, p = Some q ∧ (a = q ∨ ancestor cs a q) ∧ cs !! a = Some y ∧ k ∈ wanted y.
Proof.
  induction fuel as [|fuel IH]; intros [c|] k; cbn [lineage]; try (by intros ?%elem_of_nil).
  destruct (cs !! c) as [x|] eqn:Hc; [|by intros ?%elem_of_nil]. intros [Hk|Hk]%elem_of_app.
  - destruct (decide (st x = Leased)); [|by apply elem_of_nil in Hk]. exists c, c, x. by split_and!; [|left|..].
  - destruct (IH _ _ Hk) as (q & a & y & Hp & Ha & Hy & Hk'). exists c, a, y. split_and!; try done. right.
    destruct Ha as [->|Ha]; [by apply (anc_parent _ _ x)|by apply (anc_above _ _ x q)].
Qed.

Lemma leased_holds m c x k : inv m → calls m !! c = Some x → st x = Leased → k ∈ wanted x → holds x k.
Proof.
  intros Hi Hc Hl Hk. pose proof (in_calls _ Hi c x Hc) as Hok. apply holds_in. rewrite (ca_got _ Hok), (ca_leased _ Hok Hl).
  by rewrite firstn_all.
Qed.

(** ** The properties *)

(** C1: no admission deadlocks. From every call that is not finished the chain
    of what blocks it (a key it waits for is held by another call, or a lease
    still has a call nested in it) leads to a call that can take its next
    step, in every state reached by calls that nest properly. *)
Theorem admission_no_deadlock m c x : reachable m → calls m !! c = Some x → st x ≠ Finished →
  ∃ d, rtc (blocked_by m) c d ∧ can_move m d.
Proof.
  intros Hr Hc Hx. pose proof (reachable_inv m Hr) as Hi. destruct (innermost m c Hi x Hc Hx) as (e & y & Hre & He & _ & Hs & Hal).
  destruct (moves_or_waits m e y Hi He Hs Hal) as [Hmv|(k & Hw & _)]; [by exists e|].
  destruct (waits_holder m e y k Hi He Hw) as [Hmv|(d & z & Hd & Hk & Hz)]; [by exists e|].
  destruct (chain m Hi (S (above m k)) d z k ltac:(lia) Hd Hz Hk) as (f & Hrf & Hmv). exists f. split; [|done].
  transitivity e; [exact Hre|]. eapply rtc_l; [|exact Hrf]. by apply (blocked_key m e d y z k).
Qed.

(** C2: admission excludes and does not leak: no key is held by two calls at
    once, and the manager has a gate for exactly the keys that some call holds
    or waits for. *)
Theorem admission_exclusive m : reachable m →
  (∀ c d x y k, calls m !! c = Some x → calls m !! d = Some y → holds x k → holds y k → c = d)
  ∧ (∀ k, is_Some (gates m !! k) ↔ ∃ c x, calls m !! c = Some x ∧ (holds x k ∨ awaits x k)).
Proof.
  intros Hr. pose proof (reachable_inv m Hr) as Hi. split; [|intros k; by apply gate_used].
  intros c d x y k Hc Hd Hx Hy. destruct (decide (c = d)) as [|Hne]; [done|]. by destruct (holder_unique m c d x y k Hi Hne).
Qed.

(** A lease grants what was asked: when a call of [enterKeys] returns a
    lease, each requested key is held by the lease or by a lease around it,
    whatever other calls did in the meantime. *)
Lemma admission_grants m p keys m1 c m2 x : reachable m → allowed m (SBegin p keys None) →
  enter_begin m p keys None = Ok (m1, c) → rtc progress m1 m2 → calls m2 !! c = Some x → st x = Leased →
  ∀ k, k ∈ keys → holds x k ∨ ∃ a y, ancestor (calls m2) a c ∧ calls m2 !! a = Some y ∧ holds y k.
Proof.
  intros Hr Ha He Hp Hc Hl k Hk. pose proof (reachable_inv m Hr) as Hi.
  assert (progress m m1) as Hs1 by (exists (SBegin p keys None); split; [done|]; cbn [exec]; by rewrite He).
  pose proof (progress_inv _ _ Hi (rtc_once _ _ Hs1)) as Hi1. pose proof (progress_inv _ _ Hi1 Hp) as Hi2.
  pose proof (progress_same _ _ Hi Hs1) as E1. pose proof (progresses_same _ _ Hi1 Hp) as E2.
  unfold enter_begin in He. destruct (want _ keys) as [w| |] eqn:Hw; [|done..]. cbn [res_bind] in He.
  destruct (m_closed m); [done|]. injection He as <- <-. destruct (want_ok _ _ _ Hw) as (W & _). cbn [calls] in *.
  destruct (E2 (next_call m) _ (lookup_insert_eq _ _ _)) as (x' & Hx' & Hpx & Hwx). rewrite Hc in Hx'. injection Hx' as <-.
  cbn [parent wanted] in Hpx, Hwx.
  destruct (W k Hk) as [Hheld|Hwk]; [right|left; apply (leased_holds m2 (next_call m)); [done..|by rewrite Hwx]].
  destruct (lineage_sound _ _ _ _ Hheld) as (q & a & y & -> & Haq & Hy & Hky).
  pose proof (same_calls_trans _ _ _ E1 E2) as E. destruct (E a y Hy) as (y' & Hy' & _ & Hwy).
  assert (ancestor (calls m2) a (next_call m)) as Hanc.
  { destruct Haq as [->|Haq]; [by apply (anc_parent _ _ x)|].
    apply (anc_above _ _ x q); [done..|]. by apply (ancestor_same m). }
  exists a, y'. split_and!; [done|done|]. apply (leased_holds m2 a); [done..| |by rewrite Hwy].
  apply (ancestor_leased (calls m2) (next_call m2) (next_call m) x a); [apply Hi2|done|by rewrite Hl|done|done].
Qed.

(** No section of admission panics, blocks with the lock held or closes a
    channel twice; [active] counts the calls that are not finished, and the
    manager is idle exactly when it is closed and there is none, so every gate
    is gone. *)
Lemma admission_closes m : reachable m →
  (∀ s, allowed m s → match exec m s with Some (Ok _) | None => True | _ => False end)
  ∧ m_active m = live (calls m)
  ∧ (idle m = true ↔ m_closed m = true ∧ ∀ c x, calls m !! c = Some x → st x = Finished)
  ∧ (idle m = true → gates m = ∅).
Proof.
  intros Hr. pose proof (reachable_inv m Hr) as Hi. split_and!; [|apply Hi| |].
  - intros s Ha. pose proof (exec_fine m s Hi Ha) as H. destruct (exec m s) as [[]|]; cbn [fine] in H; try done; by destruct H as (? & [=] & _).
  - rewrite (in_idle _ Hi), andb_true_iff, Z.eqb_eq, (in_active _ Hi). split.
    + intros [Hc Hl]. split; [done|]. by apply live_zero.
    + intros [Hc Hall]. split; [done|]. unfold live.
      assert (∀ l : list (nat * call), (∀ q, q ∈ l → st q.2 = Finished) → (l ≫= λ q, alive q.2) = []) as Hnil.
      { induction l as [|q l IH]; intros Hq; [done|]. cbn [mbind list_bind]. rewrite IH by (intros r Hr'; apply Hq; by right).
        unfold alive. by rewrite decide_True by (apply Hq; by left). }
      rewrite Hnil; [done|]. intros [c x] Hin%elem_of_map_to_list. by apply (Hall c).
  - rewrite (in_idle _ Hi), andb_true_iff, Z.eqb_eq, (in_active _ Hi). intros [_ Hl]. apply map_eq. intros k.
    rewrite lookup_empty. destruct (gates m !! k) as [g|] eqn:Hg; [|done]. exfalso.
    destruct (proj1 (gate_used m k Hi)) as (c & x & Hc & Hx); [by eexists|].
    pose proof (live_zero _ Hl c x Hc) as Hf. pose proof (in_calls _ Hi c x Hc) as Hok. destruct Hx as [[g' Hg']|[g' Hg']].
    + rewrite (ca_finished _ Hok Hf) in Hg'. by apply elem_of_nil in Hg'.
    + destruct (ca_waiting _ Hok _ _ Hg') as [Ha _]. congruence.
Qed.

(** ** Locking sessions *)
Lemma want_sorted keys : StronglySorted key_le keys → ∀ held, (∀ k h, k ∈ keys → h ∈ held → key_le h k) →
  ∃ w, want held keys = Ok w.
Proof.
  induction 1 as [|k keys _ IH Hk]; intros held Hh; cbn [want]; [eauto|]. rewrite Forall_forall in Hk.
  destruct (bool_decide (k ∈ held)); [apply IH; intros; apply Hh; [by right|done]|].
  destruct (existsb (key_ltb k) held) eqn:Hex.
  - exfalso. apply existsb_exists in Hex as (h & Hin%list_elem_of_In & Hlt). specialize (Hh k h ltac:(by left) Hin).
    unfold key_le, key_leb in Hh. apply key_ltb_lt in Hlt. unfold key_lt in Hlt. rewrite (cmp_opp _ cmp_ok_key k h), Hlt in Hh. done.
  - destruct (IH (k :: held)) as [w ->]; [|by eexists]. intros k' h Hk' [->|Hin]%elem_of_cons; [by apply Hk|].
    apply Hh; [by right|done].
Qed.

#[export] Instance key_le_total : Total key_le.
Proof.
  intros a b. unfold key_le, key_leb. rewrite (cmp_opp _ cmp_ok_key a b). destruct (compareAdmissionKey a b); cbn; auto.
Qed.
#[export] Instance key_le_trans : Transitive key_le.
Proof.
  intros a b c. unfold key_le, key_leb. intros Hab Hbc.
  destruct (compareAdmissionKey a c) eqn:Hac; [done..|]. exfalso.
  assert (key_lt c a) as Hca by (unfold key_lt; by rewrite (cmp_opp _ cmp_ok_key a c), Hac).
  destruct (compareAdmissionKey a b) eqn:Eab; [| |done].
  - apply (cmp_eq _ cmp_ok_key) in Eab as ->. by rewrite Hac in Hbc.
  - assert (key_lt c b) as Hcb by (by transitivity a). unfold key_lt in Hcb.
    rewrite (cmp_opp _ cmp_ok_key b c) in Hcb. by destruct (compareAdmissionKey b c).
Qed.

(** Locking sessions inside scope locks is never out of order: with a
    context that holds scope keys only, [EnterSessions] accepts every list of
    ids, in any order and with repetitions, and wants every named session. *)
Lemma EnterSessions_ordered fuel cs p ids : (∀ h, h ∈ lineage fuel cs p → Kind h = 0%nat) →
  ∃ w, want (lineage fuel cs p) (session_keys ids) = Ok w
    ∧ (∀ id, id ∈ ids → id ≠ [] → session_key id ∈ w) ∧ StronglySorted key_lt w.
Proof.
  intros Hh. destruct (want_sorted (session_keys ids)) with (held := lineage fuel cs p) as [w Hw].
  - apply (StronglySorted_merge_sort key_le).
  - intros k h Hk Hin. unfold session_keys in Hk. rewrite merge_sort_Permutation in Hk. apply list_elem_of_fmap in Hk as (id & -> & _).
    unfold key_le, key_leb, compareAdmissionKey. rewrite (Hh h Hin). done.
  - exists w. split; [done|]. destruct (want_ok _ _ _ Hw) as (W1 & W2 & _). split; [|done]. intros id Hid Hne.
    destruct (W1 (session_key id)) as [Hl|]; [| |done].
    + unfold session_keys. rewrite merge_sort_Permutation. apply list_elem_of_fmap. exists id. split; [done|].
      apply list_elem_of_filter. by split.
    + by apply Hh in Hl.
Qed.

(** ** The properties at a concrete manager

    One caller holds a scope and then a session; another waits for the scope. *)
Definition allowedb (m : manager) (s : mstep) : bool :=
  match s with
  | SBegin (Some c) _ _ => match calls m !! c with Some x => bool_decide (st x = Leased) | None => false end
  | SRelease c => forallb (λ p : nat * call, negb (bool_decide (parent p.2 = Some c)) || bool_decide (st p.2 = Finished)) (map_to_list (calls m))
  | _ => true
  end.
Lemma allowedb_sound m s : allowedb m s = true → allowed m s.
Proof.
  destruct s as [[c|]| | | | |c| | |]; cbn [allowedb allowed]; try done.
  - destruct (calls m !! c) as [x|]; [|done]. intros H%bool_decide_eq_true. by exists x.
  - rewrite forallb_forall. intros H d y Hd%elem_of_map_to_list Hp. specialize (H (d, y)). cbn in H.
    rewrite bool_decide_eq_true_2 in H by done. apply (bool_decide_eq_true (st y = Finished)). apply H. by apply list_elem_of_In.
Qed.
Fixpoint steps (m : manager) (ss : list mstep) : option manager :=
  match ss with
  | [] => Some m
  | s :: ss => if allowedb m s then match exec m s with Some (Ok m) => steps m ss | _ => None end else None
  end.
Lemma steps_progress ss : ∀ m m', steps m ss = Some m' → rtc progress m m'.
Proof.
  induction ss as [|s ss IH]; intros m m'; cbn [steps]; [intros [= <-]; apply rtc_refl|].
  destruct (allowedb m s) eqn:Ha; [|done]. destruct (exec m s) as [[m1| |]|] eqn:Hs; [|done..]. intros H.
  eapply rtc_l; [|by apply IH]. exists s. split; [by apply allowedb_sound|done].
Qed.
Lemma steps_reachable ss : ∀ m m', reachable m → steps m ss = Some m' → reachable m'.
Proof.
  induction ss as [|s ss IH]; intros m m' Hm; cbn [steps]; [by intros [= <-]|].
  destruct (allowedb m s) eqn:Ha; [|done]. destruct (exec m s) as [[m1| |]|] eqn:Hs; [|done..].
  apply IH. eapply reach_step; [done|by apply allowedb_sound|done].
Qed.

Definition sample_scope : ScopeKey :=
  {| TaskType := []; TaskID := []; OwnerPlatform := §"qq"; OwnerID := §"u"; Platform := §"qq"; ChatType := §"private"; ChatID := §"c" |}.
Definition sample_steps : list mstep :=
  [SBegin None [scope_key sample_scope] None; SRef 0; SToken 0; SCheck 0 false;
   SBegin None [scope_key sample_scope] None; SRef 1].
Definition nested_steps : list mstep := [SRef 2; SToken 2; SCheck 2 false].
Definition manager_of (o : option manager) : manager := default NewManager o.
Definition contended : manager := manager_of (steps NewManager sample_steps).
Definition session_request : list admissionKey := session_keys [§"s1"; §"s1"; []].
Definition nested_begun : manager :=
  match enter_begin contended (Some 0%nat) session_request None with Ok (m, _) => m | _ => NewManager end.
Definition nested : manager := manager_of (steps nested_begun nested_steps).
Definition call_at (m : manager) (c : nat) : call := default (Call None [] [] None Finished) (calls m !! c).

(** Evaluation is on booleans: the maps themselves have large normal forms. *)
Definition is_some {A} (o : option A) : bool := match o with Some _ => true | None => false end.
Lemma manager_of_some o : is_some o = true → o = Some (manager_of o).
Proof. by destruct o. Qed.
Lemma call_at_some m c : is_some (calls m !! c) = true → calls m !! c = Some (call_at m c).
Proof. unfold call_at. by destruct (calls m !! c). Qed.
Definition began (r : res (manager * nat)) : manager := match r with Ok (m, _) => m | _ => NewManager end.
Lemma began_ok r c : match r with Ok (_, d) => Nat.eqb d c | _ => false end = true → r = Ok (began r, c).
Proof. destruct r as [[m d]| |]; [|done..]. intros ->%Nat.eqb_eq. done. Qed.

Lemma contended_reachable : reachable contended.
Proof. apply (steps_reachable sample_steps NewManager); [constructor|]. apply manager_of_some. vm_compute. reflexivity. Qed.
Lemma nested_begun_ok : enter_begin contended (Some 0%nat) session_request None = Ok (nested_begun, 2%nat).
Proof. apply (began_ok (enter_begin contended (Some 0%nat) session_request None)). vm_compute. reflexivity. Qed.
Lemma nested_steps_ok : steps nested_begun nested_steps = Some nested.
Proof. apply manager_of_some. vm_compute. reflexivity. Qed.
Lemma nested_allowed : allowed contended (SBegin (Some 0%nat) session_request None).
Proof. apply allowedb_sound. vm_compute. reflexivity. Qed.
Lemma nested_reachable : reachable nested.
Proof.
  apply (steps_reachable nested_steps nested_begun); [|exact nested_steps_ok].
  apply (reach_step contended (SBegin (Some 0%nat) session_request None)); [exact contended_reachable|exact nested_allowed|].
  cbn [exec]. by rewrite nested_begun_ok.
Qed.

Lemma admission_no_deadlock_witness : ∃ d, rtc (blocked_by nested) 1%nat d ∧ can_move nested d.
Proof.
  apply (admission_no_deadlock nested 1%nat (call_at nested 1%nat)); [exact nested_reachable| |vm_compute; discriminate].
  apply call_at_some. vm_compute. reflexivity.
Defined.
Example waiting_call : awaits (call_at nested 1%nat) (scope_key sample_scope) ∧ holds (call_at nested 0%nat) (scope_key sample_scope).
Proof. split; exists 0%nat; [vm_compute; reflexivity|by left]. Qed.

Lemma admission_exclusive_witness :
  (∀ c d x y k, calls nested !! c = Some x → calls nested !! d = Some y → holds x k → holds y k → c = d)
  ∧ (∀ k, is_Some (gates nested !! k) ↔ ∃ c x, calls nested !! c = Some x ∧ (holds x k ∨ awaits x k)).
Proof. apply admission_exclusive. exact nested_reachable. Defined.

Lemma admission_grants_witness :
  holds (call_at nested 2%nat) (session_key §"s1")
  ∨ ∃ a y, ancestor (calls nested) a 2%nat ∧ calls nested !! a = Some y ∧ holds y (session_key §"s1").
Proof.
  apply (admission_grants contended (Some 0%nat) session_request nested_begun 2%nat nested).
  - exact contended_reachable.
  - exact nested_allowed.
  - exact nested_begun_ok.
  - apply (steps_progress nested_steps). exact nested_steps_ok.
  - apply call_at_some. vm_compute. reflexivity.
  - vm_compute. reflexivity.
  - apply (bool_decide_unpack _). vm_compute. exact I.
Defined.

Lemma admission_closes_witness :
  (∀ s, allowed nested s → match exec nested s with Some (Ok _) | None => True | _ => False end)
  ∧ m_active nested = live (calls nested)
  ∧ (idle nested = true ↔ m_closed nested = true ∧ ∀ c x, calls nested !! c = Some x → st x = Finished)
  ∧ (idle nested = true → gates nested = ∅).
Proof. apply admission_closes. exact nested_reachable. Defined.

Lemma EnterSessions_ordered_witness :
  ∃ w, want (lineage 5 (calls contended) (Some 0%nat)) (session_keys [§"s2"; §"s1"; §"s2"]) = Ok w
    ∧ (∀ id, id ∈ [§"s2"; §"s1"; §"s2"] → id ≠ [] → session_key id ∈ w) ∧ StronglySorted key_lt w.
Proof.
  apply EnterSessions_ordered. change (lineage 5 (calls contended) (Some 0%nat)) with [scope_key sample_scope].
  intros h ->%list_elem_of_singleton. reflexivity.
Defined.
