(* ===== verification/Binding.v ===== *)
(** * Current bindings of scopes to sessions
    ([internal/session/binding/manager.go], [signals.go],
    [internal/session/share/binding.go])

    A binding handle is an object of a heap, since its identity matters: a
    handle is valid until it is replaced, and a scope bound again to the same
    session gets another handle. A change made under an admission is published
    when the outermost lease around it is released. *)
From S2P Require Import Prelude GoStr Admission AdmissionProps.
Open Scope Z_scope.

Record Scope := { scope_of : ScopeKey; IsCLI : bool }.
Definition Key (s : Scope) : ScopeKey := scope_of s.

Record binding := Binding { b_scope : Scope; b_session : gostring; b_version : Z; b_valid : bool }.
Definition NewBinding (s : Scope) (session : gostring) (version : Z) : binding := Binding s session version true.
Definition Invalidate (b : binding) : binding := Binding (b_scope b) (b_session b) (b_version b) false.

Record event := Event { e_version : Z; e_old : option nat; e_new : option nat }.

Record state := State {
  adm : manager;
  bindings : gmap nat binding;
  next_binding : nat;
  current : gmap ScopeKey nat;
  version : Z;                          (* uint64 *)
  events : gmap nat (list event);       (* of the live leases, by call *)
  releasing : gmap nat (list event);    (* taken from a lease by its release *)
  emitted : list event;
  committed : list event                (* history: every change *)
}.
Definition new_state : state := State Admission.NewManager ∅ 0 ∅ 0 ∅ ∅ [] [].
Definition next_version (v : Z) : Z := (v + 1) mod 2 ^ 64.

Definition CurrentBinding (s : state) (sc : Scope) : option nat := current s !! Key sc.

(** ** Publication *)
(** The outermost live lease on a context. *)
Fixpoint outermost (fuel : nat) (cs : gmap nat call) (p acc : option nat) : option nat :=
  match fuel, p with
  | S fuel, Some c =>
    match cs !! c with
    | Some x => outermost fuel cs (parent x) (if decide (st x = Leased) then Some c else acc)
    | None => acc
    end
  | _, _ => acc
  end.
Definition events_of (t : gmap nat (list event)) (c : nat) : list event := default [] (t !! c).

(** [publishChange]: [ctx] is the innermost lease of the context, if any. *)
Definition publishChange (s : state) (ctx : option nat) (e : event) : state :=
  match outermost (next_call (adm s)) (calls (adm s)) ctx None with
  | Some c =>
    State (adm s) (bindings s) (next_binding s) (current s) (version s)
          (<[c := events_of (events s) c ++ [e]]> (events s)) (releasing s) (emitted s) (committed s)
  | None =>
    State (adm s) (bindings s) (next_binding s) (current s) (version s) (events s) (releasing s) (emitted s ++ [e])
          (committed s)
  end.

(** ** Changes *)
Definition session_of (s : state) (b : option nat) : option gostring :=
  match b with Some i => b_session <$> bindings s !! i | None => None end.
Definition invalidate (bs : gmap nat binding) (b : option nat) : gmap nat binding :=
  match b with Some i => match bs !! i with Some x => <[i := Invalidate x]> bs | None => bs end | None => bs end.

Definition SetCurrent (s : state) (ctx : option nat) (sc : Scope) (id : gostring) : state :=
  let old := current s !! Key sc in
  if match old with None => bool_decide (id = []) | Some _ => bool_decide (session_of s old = Some id) end then s
  else
    let v := next_version (version s) in
    let bs := invalidate (bindings s) old in
    let unbind := bool_decide (id = []) in
    let e := Event v old (if unbind then None else Some (next_binding s)) in
    publishChange
      (if unbind then
         State (adm s) bs (next_binding s) (delete (Key sc) (current s)) v (events s) (releasing s) (emitted s)
               (committed s ++ [e])
       else
         State (adm s) (<[next_binding s := NewBinding sc id v]> bs) (S (next_binding s))
               (<[Key sc := next_binding s]> (current s)) v (events s) (releasing s) (emitted s) (committed s ++ [e]))
      ctx e.

(** The loop of [ClearSessionBindings] over [m.current], in the order [keys]. *)
Fixpoint clear_loop (s : state) (id : gostring) (keys : list ScopeKey) : state * list event :=
  match keys with
  | [] => (s, [])
  | k :: keys =>
    match current s !! k with
    | Some i =>
      if bool_decide (session_of s (Some i) = Some id) then
        let v := next_version (version s) in
        let e := Event v (Some i) None in
        let (s', es) := clear_loop (State (adm s) (invalidate (bindings s) (Some i)) (next_binding s)
                                          (delete k (current s)) v (events s) (releasing s) (emitted s) (committed s ++ [e])) id keys in
        (s', e :: es)
      else clear_loop s id keys
    | None => clear_loop s id keys
    end
  end.
Definition publish_all (s : state) (ctx : option nat) (es : list event) : state :=
  fold_left (λ s e, publishChange s ctx e) es s.
Definition ClearSessionBindings (s : state) (ctx : option nat) (id : gostring) (keys : list ScopeKey) : state :=
  let (s, es) := clear_loop s id keys in publish_all s ctx es.

(** The check at the end of [EnterBinding]. *)
Definition binding_current (s : state) (i : nat) : bool :=
  match bindings s !! i with
  | Some b => b_valid b && bool_decide (current s !! Key (b_scope b) = Some i)
  | None => false
  end.

(** ** Steps: changes, and admission with the events of the leases *)
Inductive bstep :=
| BSet (ctx : option nat) (sc : Scope) (id : gostring)
| BClear (ctx : option nat) (id : gostring) (keys : list ScopeKey)
| BAdmission (a : mstep)
| BDeliver (c : nat).

Definition with_adm (s : state) (m : manager) : state :=
  State m (bindings s) (next_binding s) (current s) (version s) (events s) (releasing s) (emitted s) (committed s).

Definition bexec (s : state) (b : bstep) : option state :=
  match b with
  | BSet ctx sc id => Some (SetCurrent s ctx sc id)
  | BClear ctx id keys => Some (ClearSessionBindings s ctx id keys)
  | BDeliver c =>
    (* with its gates released, the release publishes the events it took, on the context of its lease *)
    match events_of (releasing s) c, got <$> calls (adm s) !! c with
    | e :: es, Some [] =>
      Some (publishChange (State (adm s) (bindings s) (next_binding s) (current s) (version s) (events s)
                                 (<[c := es]> (releasing s)) (emitted s) (committed s)) (Some c) e)
    | _, _ => None
    end
  | BAdmission a =>
    match exec (adm s) a with
    | Some (Ok m) =>
      match a with
      | SRelease c =>
        Some (State m (bindings s) (next_binding s) (current s) (version s) (delete c (events s))
                    (<[c := events_of (events s) c]> (releasing s)) (emitted s) (committed s))
      | SFinish c => match events_of (releasing s) c with [] => Some (with_adm s m) | _ :: _ => None end
      | _ => Some (with_adm s m)
      end
    | _ => None
    end
  end.
Definition ballowed (s : state) (b : bstep) : Prop := match b with BAdmission a => allowed (adm s) a | _ => True end.

Inductive breachable : state → Prop :=
| breach_new : breachable new_state
| breach_step s b s' : breachable s → ballowed s b → bexec s b = Some s' → breachable s'.

(** * What the bindings promise *)

(** ** Event queues *)
Definition flat (m : gmap nat (list event)) : list event := map_to_list m ≫= λ p, p.2.

Lemma flat_lookup m c : flat m ≡ₚ events_of m c ++ flat (delete c m).
Proof.
  unfold flat, events_of. destruct (m !! c) as [es|] eqn:Hc; cbn [default].
  - by rewrite <- (map_to_list_delete _ _ _ Hc).
  - by rewrite delete_id.
Qed.
Lemma flat_insert m c es : flat (<[c := es]> m) ≡ₚ es ++ flat (delete c m).
Proof. rewrite (flat_lookup _ c), delete_insert_eq. unfold events_of. by rewrite lookup_insert_eq. Qed.
Lemma flat_elem m e : e ∈ flat m → ∃ c, e ∈ events_of m c.
Proof.
  unfold flat. intros ([c es] & He & Hc%elem_of_map_to_list)%list_elem_of_bind. exists c. unfold events_of. by rewrite Hc.
Qed.
Lemma events_insert m c es d : events_of (<[c := es]> m) d = if decide (c = d) then es else events_of m d.
Proof. unfold events_of. destruct (decide (c = d)) as [<-|]; [by rewrite lookup_insert_eq|by rewrite lookup_insert_ne]. Qed.
Lemma events_delete m c d : events_of (delete c m) d = if decide (c = d) then [] else events_of m d.
Proof. unfold events_of. destruct (decide (c = d)) as [<-|]; [by rewrite lookup_delete_eq|by rewrite lookup_delete_ne]. Qed.

Definition has_status (s : state) (c : nat) (t : status) : Prop := ∃ x, calls (adm s) !! c = Some x ∧ st x = t.

Lemma outermost_leased fuel cs : ∀ p acc c, outermost fuel cs p acc = Some c →
  acc = Some c ∨ ∃ x, cs !! c = Some x ∧ st x = Leased.
Proof.
  induction fuel as [|fuel IH]; intros p acc c; cbn [outermost]; [by left|]. destruct p as [d|]; [|by left].
  destruct (cs !! d) as [x|] eqn:Hd; [|by left]. intros [H|H]%IH; [|by right].
  destruct (decide (st x = Leased)); [|by left]. injection H as <-. right. eauto.
Qed.

(** ** The invariant

    [pending] are committed events about to be published. *)
Record binv (pending : list event) (s : state) : Prop := {
  bi_adm : inv (adm s);
  bi_valid : ∀ i b, bindings s !! i = Some b → b_valid b = true ↔ current s !! Key (b_scope b) = Some i;
  bi_current : ∀ k i, current s !! k = Some i → ∃ b, bindings s !! i = Some b ∧ Key (b_scope b) = k;
  bi_fresh : ∀ i, is_Some (bindings s !! i) → (i < next_binding s)%nat;
  bi_version : version s = Z.of_nat (length (committed s)) mod 2 ^ 64;
  bi_versions : map e_version (committed s) = map (λ n, Z.of_nat n mod 2 ^ 64) (seq 1 (length (committed s)));
  bi_events : ∀ c, events_of (events s) c ≠ [] → has_status s c Leased;
  bi_releasing : ∀ c, events_of (releasing s) c ≠ [] → has_status s c Unwinding;
  bi_session : ∀ i b, bindings s !! i = Some b → b_session b ≠ [];
  bi_where : committed s ≡ₚ pending ++ emitted s ++ flat (events s) ++ flat (releasing s)
}.

Lemma binv_new : binv [] new_state.
Proof.
  split; cbn; try done; try apply inv_NewManager; intros *; rewrite ?lookup_empty; try done; by intros [].
Qed.

Lemma publish_binv pending s ctx e : binv (e :: pending) s → binv pending (publishChange s ctx e).
Proof.
  intros [B1 B2 B3 B4 B5 B6 B7 B8 B10 B9]. unfold publishChange. destruct (outermost _ _ ctx None) as [c|] eqn:Ho.
  - apply outermost_leased in Ho as [|Hl]; [done|].
    split; cbn [adm bindings next_binding current version events releasing emitted committed]; try done.
    + intros d. rewrite events_insert. destruct (decide (c = d)) as [<-|]; [done|apply B7].
    + rewrite B9, flat_insert, (flat_lookup (events s) c). solve_Permutation.
  - split; cbn [adm bindings next_binding current version events releasing emitted committed]; try done.
    rewrite B9. solve_Permutation.
Qed.

Lemma publish_all_binv es : ∀ s ctx, binv es s → binv [] (publish_all s ctx es).
Proof. induction es as [|e es IH]; intros s ctx H; [done|]. cbn [publish_all fold_left]. by apply IH, publish_binv. Qed.

(** *** Changes *)
Lemma versions_snoc l v e : e_version e = next_version v → v = Z.of_nat (length l) mod 2 ^ 64 →
  map e_version l = map (λ n, Z.of_nat n mod 2 ^ 64) (seq 1 (length l)) →
  next_version v = Z.of_nat (length (l ++ [e])) mod 2 ^ 64
  ∧ map e_version (l ++ [e]) = map (λ n, Z.of_nat n mod 2 ^ 64) (seq 1 (length (l ++ [e]))).
Proof.
  intros He Hv Hl. assert (next_version v = Z.of_nat (length (l ++ [e])) mod 2 ^ 64) as Hn.
  { unfold next_version. rewrite Hv, length_app. cbn [length]. rewrite Nat2Z.inj_add. by rewrite Zplus_mod_idemp_l. }
  split; [done|]. rewrite length_app. cbn [length]. rewrite seq_app, !map_app, Hl. cbn [map seq]. f_equal.
  rewrite He, Hn, length_app. cbn [length]. do 3 f_equal. lia.
Qed.

Lemma invalidate_lookup bs o i b : invalidate bs o !! i = Some b →
  ∃ b0, bs !! i = Some b0 ∧ b_scope b = b_scope b0 ∧ b_session b = b_session b0 ∧ b_version b = b_version b0
    ∧ b_valid b = if decide (o = Some i) then false else b_valid b0.
Proof.
  unfold invalidate. destruct o as [j|].
  - destruct (bs !! j) as [x|] eqn:Hj.
    + rewrite lookup_insert_Some. intros [[<- <-]|[Hne Hb]].
      * exists x. rewrite decide_True by done. done.
      * exists b. rewrite decide_False by congruence. done.
    + intros Hb. exists b. rewrite decide_False; [done|]. intros [= ->]. congruence.
  - intros Hb. exists b. done.
Qed.
Lemma invalidate_some bs o i : is_Some (bs !! i) → is_Some (invalidate bs o !! i).
Proof.
  unfold invalidate. destruct o as [j|]; [|done]. destruct (bs !! j); [|done]. intros H. by apply lookup_insert_is_Some'; right.
Qed.

(** Unbinding the handle [i] of the scope key [k]. *)
Lemma unbind_binv pending s k i ng :
  binv pending s → current s !! k = Some i → ng = next_binding s →
  let e := Event (next_version (version s)) (Some i) None in
  binv (pending ++ [e]) (State (adm s) (invalidate (bindings s) (Some i)) ng (delete k (current s))
                               (next_version (version s)) (events s) (releasing s) (emitted s) (committed s ++ [e])).
Proof.
  intros [B1 B2 B3 B4 B5 B6 B7 B8 B10 B9] Hk -> e.
  destruct (versions_snoc (committed s) (version s) e eq_refl B5 B6) as [V1 V2].
  destruct (B3 k i Hk) as (b0 & Hb0 & Hkey).
  split; cbn [adm bindings next_binding current version events releasing emitted committed]; try done.
  - intros j b (b1 & Hb1 & Hs & _ & _ & ->)%invalidate_lookup. rewrite Hs. destruct (decide (Some i = Some j)) as [[= <-]|Hne].
    + split; [done|]. rewrite Hb0 in Hb1. injection Hb1 as <-. rewrite Hkey. by rewrite lookup_delete_eq.
    + rewrite (B2 j b1 Hb1). destruct (decide (k = Key (b_scope b1))) as [<-|Hk'].
      * rewrite lookup_delete_eq, Hk. split; [congruence|done].
      * by rewrite lookup_delete_ne.
  - intros k' j. rewrite lookup_delete_Some. intros [Hne Hj]. destruct (B3 k' j Hj) as (b & Hb & Hkk).
    destruct (invalidate_some (bindings s) (Some i) j ltac:(by eexists)) as [b' Hb']. exists b'. split; [done|].
    apply invalidate_lookup in Hb' as (b1 & Hb1 & -> & _). rewrite Hb in Hb1. by injection Hb1 as <-.
  - intros j [b (b1 & Hb1 & _)%invalidate_lookup]. apply B4. by eexists.
  - intros j b (b1 & Hb1 & _ & -> & _)%invalidate_lookup. eauto.
  - rewrite B9. solve_Permutation.
Qed.

(** Binding a scope, whose old handle if any is invalidated. *)
Lemma bind_binv s sc id : binv [] s → id ≠ [] →
  let old := current s !! Key sc in
  let e := Event (next_version (version s)) old (Some (next_binding s)) in
  binv [e] (State (adm s) (<[next_binding s := NewBinding sc id (next_version (version s))]> (invalidate (bindings s) old))
                  (S (next_binding s)) (<[Key sc := next_binding s]> (current s)) (next_version (version s))
                  (events s) (releasing s) (emitted s) (committed s ++ [e])).
Proof.
  intros [B1 B2 B3 B4 B5 B6 B7 B8 B10 B9] Hid old e.
  destruct (versions_snoc (committed s) (version s) e eq_refl B5 B6) as [V1 V2]. set (n := next_binding s) in *.
  assert (∀ j b, bindings s !! j = Some b → (j < n)%nat) as Hlt by (intros j b Hj; apply B4; by eexists).
  split; cbn [adm bindings next_binding current version events releasing emitted committed]; try done.
  - intros j b. rewrite lookup_insert_Some. intros [[<- <-]|[Hne (b1 & Hb1 & Hs & _ & _ & ->)%invalidate_lookup]].
    + cbn [NewBinding b_valid b_scope]. by rewrite lookup_insert_eq.
    + rewrite Hs. pose proof (Hlt j b1 Hb1). destruct (decide (old = Some j)) as [Ho|Hne'].
      * subst old. destruct (B3 _ _ Ho) as (b2 & Hb2 & Hk). rewrite Hb1 in Hb2. injection Hb2 as <-.
        rewrite Hk, lookup_insert_eq. split; [done|]. intros [= Hn]. lia.
      * rewrite (B2 j b1 Hb1). destruct (decide (Key sc = Key (b_scope b1))) as [Hk|Hk].
        -- rewrite Hk, lookup_insert_eq, <- Hk. fold old. split; [done|]. intros [= Hn]. lia.
        -- by rewrite lookup_insert_ne.
  - intros k j. rewrite lookup_insert_Some. intros [[<- <-]|[Hne Hj]].
    + eexists. by rewrite lookup_insert_eq.
    + destruct (B3 k j Hj) as (b & Hb & Hkk). pose proof (Hlt j b Hb). rewrite lookup_insert_ne by lia.
      destruct (invalidate_some (bindings s) old j ltac:(by eexists)) as [b' Hb']. exists b'. split; [done|].
      apply invalidate_lookup in Hb' as (b1 & Hb1 & -> & _). rewrite Hb in Hb1. by injection Hb1 as <-.
  - intros j [b Hb]. apply lookup_insert_Some in Hb as [[<- _]|[_ (b1 & Hb1 & _)%invalidate_lookup]]; [lia|].
    pose proof (Hlt j b1 Hb1). lia.
  - intros j b. rewrite lookup_insert_Some. intros [[_ <-]|[_ (b1 & Hb1 & _ & -> & _)%invalidate_lookup]]; [done|eauto].
  - rewrite B9. cbn [app]. solve_Permutation.
Qed.

Lemma SetCurrent_binv s ctx sc id : binv [] s → binv [] (SetCurrent s ctx sc id).
Proof.
  intros H. unfold SetCurrent. destruct (current s !! Key sc) as [i|] eqn:Hc.
  - destruct (bool_decide (session_of s (Some i) = Some id)); [done|]. apply publish_binv.
    destruct (bool_decide (id = [])) eqn:Hid; [|apply bool_decide_eq_false in Hid].
    + by apply (unbind_binv [] s (Key sc) i).
    + pose proof (bind_binv s sc id H Hid) as Hb. cbn zeta in Hb. by rewrite Hc in Hb.
  - destruct (bool_decide (id = [])) eqn:Hid; [done|]. apply bool_decide_eq_false in Hid. apply publish_binv.
    pose proof (bind_binv s sc id H Hid) as Hb. cbn zeta in Hb. by rewrite Hc in Hb.
Qed.

Lemma clear_loop_binv id keys : ∀ pending s, binv pending s →
  let (s', es) := clear_loop s id keys in binv (pending ++ es) s'.
Proof.
  induction keys as [|k keys IH]; intros pending s H; cbn [clear_loop]; [by rewrite app_nil_r|].
  destruct (current s !! k) as [i|] eqn:Hk; [|by apply IH].
  destruct (bool_decide _); [|by apply IH]. cbn zeta.
  pose proof (unbind_binv pending s k i _ H Hk eq_refl) as Hu. cbn zeta in Hu. apply IH in Hu.
  destruct (clear_loop _ id keys) as [s' es]. by rewrite <- app_assoc in Hu.
Qed.

Lemma Clear_binv s ctx id keys : binv [] s → binv [] (ClearSessionBindings s ctx id keys).
Proof.
  intros H. unfold ClearSessionBindings. pose proof (clear_loop_binv id keys [] s H) as Hc.
  destruct (clear_loop s id keys) as [s' es]. by apply publish_all_binv.
Qed.

(** *** Admission steps *)
Definition keeps_status (a : mstep) (m m' : manager) : Prop :=
  ∀ c x, calls m !! c = Some x →
    (st x = Leased → a = SRelease c ∨ ∃ y, calls m' !! c = Some y ∧ st y = Leased)
    ∧ (st x = Unwinding → a = SFinish c ∨ ∃ y, calls m' !! c = Some y ∧ st y = Unwinding).

Lemma keeps_status_set a m m' d x y : calls m !! d = Some x → calls m' = <[d := y]> (calls m) →
  (st x = Leased → a = SRelease d) → (st x = Unwinding → a = SFinish d ∨ st y = Unwinding) → keeps_status a m m'.
Proof.
  intros Hd E Hl Hu c z Hc. rewrite E. destruct (decide (d = c)) as [<-|Hne].
  - rewrite lookup_insert_eq. rewrite Hd in Hc. injection Hc as <-. split; [intros H; left; auto|].
    intros [?|?]%Hu; [by left|right; eauto].
  - rewrite lookup_insert_ne by done. split; intros ?; right; eauto.
Qed.
Lemma keeps_status_calls a m m' : calls m' = calls m → keeps_status a m m'.
Proof. intros E c x Hc. rewrite E. split; intros ?; right; eauto. Qed.

Lemma releaseGate_same_calls m k g a m' : releaseGate m k g a = Ok m' → calls m' = calls m.
Proof. unfold releaseGate. destruct (heap m !! g); [|done]. destruct (_ && _); [done|]. by intros [= <-]. Qed.

Ltac status_case Hc :=
  eapply keeps_status_set; [exact Hc|try reflexivity; cbn [set_call calls]; try (by f_equal)|try congruence|];
  cbn [st]; auto; try congruence.

Lemma exec_status m a m' : inv m → exec m a = Some (Ok m') → keeps_status a m m'.
Proof.
  intros Hi Hs. destruct a as [p keys e|c|c|c|c e|c|c|c|]; cbn [exec] in Hs.
  - injection Hs as Hs. destruct (enter_begin m p keys e) as [[m1 c]| |] eqn:Hb; [|by injection Hs as <-; apply keeps_status_calls|done].
    injection Hs as <-. unfold enter_begin in Hb. destruct e; [done|]. destruct (want _ _) as [w| |]; [|done..].
    cbn [res_bind] in Hb. destruct (m_closed m); [done|]. injection Hb as <- <-. intros d x Hd. cbn [calls].
    pose proof (tr_ids _ _ (in_tree _ Hi) _ _ Hd). rewrite lookup_insert_ne by lia. split; intros ?; right; eauto.
  - destruct (calls m !! c) as [x|] eqn:Hc; [|done]. repeat (case_match; try done). injection Hs as Hs. unfold enter_ref in Hs.
    repeat (case_match; try done); injection Hs as <-; status_case Hc.
  - destruct (calls m !! c) as [x|] eqn:Hc; [|done]. repeat (case_match; try done). injection Hs as <-. status_case Hc.
  - destruct (calls m !! c) as [x|] eqn:Hc; [|done]. repeat (case_match; try done). injection Hs as Hs. unfold enter_cancel in Hs.
    destruct (releaseGate m _ _ false) as [m1| |] eqn:Hr; [|done..]. injection Hs as <-. apply releaseGate_same_calls in Hr.
    status_case Hc.
  - destruct (calls m !! c) as [x|] eqn:Hc; [|done]. repeat (case_match; try done). injection Hs as <-. status_case Hc.
  - destruct (calls m !! c) as [x|] eqn:Hc; [|done]. repeat (case_match; try done). injection Hs as <-. status_case Hc.
  - destruct (calls m !! c) as [x|] eqn:Hc; [|done]. repeat (case_match; try done). injection Hs as Hs. unfold unwind in Hs.
    destruct (releaseGate m _ _ true) as [m1| |] eqn:Hr; [|done..]. injection Hs as <-. apply releaseGate_same_calls in Hr.
    status_case Hc.
  - destruct (calls m !! c) as [x|] eqn:Hc; [|done]. repeat (case_match; try done). injection Hs as Hs. unfold finishAdmission in Hs.
    repeat (case_match; try done); injection Hs as <-; status_case Hc.
  - injection Hs as Hs. unfold BeginClose in Hs. repeat (case_match; try done); injection Hs as <-; by apply keeps_status_calls.
Qed.

Lemma adm_step_binv s m a : binv [] s → inv m → exec (adm s) a = Some (Ok m) → (∀ c, a ≠ SRelease c) →
  (∀ c, a = SFinish c → events_of (releasing s) c = []) → binv [] (with_adm s m).
Proof.
  intros [B1 B2 B3 B4 B5 B6 B7 B8 B10 B9] Hm Hs Hr Hf. pose proof (exec_status _ _ _ B1 Hs) as Hk.
  split; cbn [with_adm adm bindings next_binding current version events releasing emitted committed]; try done.
  - intros c Hc. destruct (B7 c Hc) as (x & Hx & Hl). destruct (proj1 (Hk c x Hx) Hl) as [->|?]; [by destruct (Hr c)|done].
  - intros c Hc. destruct (B8 c Hc) as (x & Hx & Hu). destruct (proj2 (Hk c x Hx) Hu) as [->|?]; [|done].
    by rewrite Hf in Hc.
Qed.

Lemma release_binv s m c : binv [] s → inv m → exec (adm s) (SRelease c) = Some (Ok m) →
  binv [] (State m (bindings s) (next_binding s) (current s) (version s) (delete c (events s))
                 (<[c := events_of (events s) c]> (releasing s)) (emitted s) (committed s)).
Proof.
  intros [B1 B2 B3 B4 B5 B6 B7 B8 B10 B9] Hm Hs. pose proof (exec_status _ _ _ B1 Hs) as Hk.
  assert (has_status s c Leased ∧ ∃ y, calls m !! c = Some y ∧ st y = Unwinding) as [(x & Hx & Hl) Hun].
  { cbn [exec] in Hs. destruct (calls (adm s) !! c) as [x|] eqn:Hc; [|done]. destruct (st x) eqn:Hst; [done| |done..].
    injection Hs as <-. split; [by exists x|]. cbn [set_call calls]. rewrite lookup_insert_eq. by eexists. }
  assert (events_of (releasing s) c = []) as Hnone.
  { destruct (events_of (releasing s) c) as [|e es] eqn:He; [done|]. destruct (B8 c) as (y & Hy & Hu); [by rewrite He|].
    rewrite Hx in Hy. injection Hy as <-. congruence. }
  split; cbn [adm bindings next_binding current version events releasing emitted committed]; try done.
  - intros d. rewrite events_delete. destruct (decide (c = d)) as [|Hne]; [done|]. intros Hd.
    destruct (B7 d Hd) as (y & Hy & Hl'). destruct (proj1 (Hk d y Hy) Hl') as [[= ->]|?]; done.
  - intros d. rewrite events_insert. destruct (decide (c = d)) as [<-|Hne]; [done|]. intros Hd.
    destruct (B8 d Hd) as (y & Hy & Hu). by destruct (proj2 (Hk d y Hy) Hu) as [[=]|?].
  - rewrite B9, flat_insert, (flat_lookup (events s) c), (flat_lookup (releasing s) c), Hnone. solve_Permutation.
Qed.

Lemma bexec_binv s b s' : binv [] s → ballowed s b → bexec s b = Some s' → binv [] s'.
Proof.
  intros Hb Ha. destruct b as [ctx sc id|ctx id keys|a|c]; cbn [bexec ballowed] in *.
  - intros [= <-]. by apply SetCurrent_binv.
  - intros [= <-]. by apply Clear_binv.
  - pose proof (exec_fine (adm s) a (bi_adm _ _ Hb) Ha) as Hf. destruct (exec (adm s) a) as [[m|e|]|] eqn:Hs; [|done..].
    destruct Hf as (m' & [= <-] & Hm). destruct a; try (intros [= <-]; by eapply adm_step_binv).
    + intros [= <-]. by apply release_binv.
    + destruct (events_of (releasing s) c) eqn:He; [|done]. intros [= <-]. eapply adm_step_binv; try done.
      by intros d [= <-].
  - destruct (events_of (releasing s) c) as [|e es] eqn:He; [done|].
    destruct (got <$> calls (adm s) !! c) as [[|]|]; [|done..]. intros [= <-]. apply publish_binv.
    destruct Hb as [B1 B2 B3 B4 B5 B6 B7 B8 B10 B9].
    split; cbn [adm bindings next_binding current version events releasing emitted committed]; try done.
    + intros d. rewrite events_insert. destruct (decide (c = d)) as [<-|]; [|apply B8]. intros _. apply B8. by rewrite He.
    + rewrite B9, flat_insert, (flat_lookup (releasing s) c), He. solve_Permutation.
Qed.

Lemma breachable_inv s : breachable s → binv [] s.
Proof. induction 1 as [|s b s' _ IH Ha Hs]; [apply binv_new|by eapply bexec_binv]. Qed.

(** ** What the changes do to the handles *)
Lemma publish_same s ctx e : let s' := publishChange s ctx e in
  adm s' = adm s ∧ bindings s' = bindings s ∧ current s' = current s ∧ committed s' = committed s.
Proof. unfold publishChange. by destruct (outermost _ _ ctx None). Qed.
Lemma publish_all_same es : ∀ s ctx, let s' := publish_all s ctx es in
  adm s' = adm s ∧ bindings s' = bindings s ∧ current s' = current s ∧ committed s' = committed s.
Proof.
  induction es as [|e es IH]; intros s ctx; [done|].
  change (publish_all s ctx (e :: es)) with (publish_all (publishChange s ctx e) ctx es).
  cbn zeta. destruct (IH (publishChange s ctx e) ctx) as (-> & -> & -> & ->). apply publish_same.
Qed.

(** Handles keep their scope, session and version, and are never revived. *)
Definition fades (b b' : gmap nat binding) : Prop := ∀ i x, b !! i = Some x →
  ∃ y, b' !! i = Some y ∧ b_scope y = b_scope x ∧ b_session y = b_session x ∧ b_version y = b_version x
    ∧ (b_valid y = true → b_valid x = true).
Lemma fades_refl b : fades b b.
Proof. intros i x Hx. by exists x. Qed.
Lemma fades_trans b1 b2 b3 : fades b1 b2 → fades b2 b3 → fades b1 b3.
Proof.
  intros H1 H2 i x Hx. destruct (H1 i x Hx) as (y & Hy & ? & ? & ? & ?). destruct (H2 i y Hy) as (z & Hz & ? & ? & ? & ?).
  exists z. split_and!; auto; congruence.
Qed.
Lemma fades_invalidate b o : fades b (invalidate b o).
Proof.
  intros i x Hx. destruct (invalidate_some b o i ltac:(by eexists)) as [y Hy]. exists y. split; [done|].
  apply invalidate_lookup in Hy as (x' & Hx' & ? & ? & ? & Hv). rewrite Hx in Hx'. injection Hx' as <-.
  split_and!; try done. rewrite Hv. by destruct (decide _).
Qed.
Lemma fades_insert b b' n x : fades b b' → b !! n = None → fades b (<[n := x]> b').
Proof.
  intros Hf Hn i y Hy. destruct (Hf i y Hy) as (z & Hz & Hr). exists z. rewrite lookup_insert_ne; [done|]. congruence.
Qed.

Lemma clear_loop_fades id keys : ∀ s, fades (bindings s) (bindings (clear_loop s id keys).1).
Proof.
  induction keys as [|k keys IH]; intros s; cbn [clear_loop]; [apply fades_refl|].
  destruct (current s !! k) as [i|]; [|apply IH]. destruct (bool_decide _); [|apply IH]. cbn zeta.
  match goal with |- context [clear_loop ?s1 id keys] => specialize (IH s1); destruct (clear_loop s1 id keys) as [s' es] end.
  cbn [fst] in *. eapply fades_trans; [|exact IH]. apply fades_invalidate.
Qed.

Lemma bexec_fades s b s' : binv [] s → bexec s b = Some s' → fades (bindings s) (bindings s').
Proof.
  intros Hb. destruct b as [ctx sc id|ctx id keys|a|c]; cbn [bexec].
  - intros [= <-]. unfold SetCurrent. destruct (match current s !! Key sc with Some _ => _ | None => _ end); [apply fades_refl|].
    match goal with |- context [publishChange ?s1 ctx ?e] => destruct (publish_same s1 ctx e) as (_ & -> & _) end.
    destruct (bool_decide (id = [])); cbn [bindings]; [apply fades_invalidate|]. apply fades_insert; [apply fades_invalidate|].
    destruct (bindings s !! next_binding s) eqn:Hn; [|done]. pose proof (bi_fresh _ _ Hb _ (mk_is_Some _ _ Hn)). lia.
  - intros [= <-]. unfold ClearSessionBindings. pose proof (clear_loop_fades id keys s) as Hf.
    destruct (clear_loop s id keys) as [s1 es]. cbn [fst] in Hf. by destruct (publish_all_same es s1 ctx) as (_ & -> & _).
  - destruct (exec (adm s) a) as [[m| |]|]; [|done..]. destruct a; try (intros [= <-]; apply fades_refl).
    destruct (events_of (releasing s) c); [|done]. intros [= <-]. apply fades_refl.
  - destruct (events_of (releasing s) c); [done|]. destruct (got <$> calls (adm s) !! c) as [[|]|]; [|done..].
    intros [= <-]. match goal with |- context [publishChange ?s1 ?x ?e] => destruct (publish_same s1 x e) as (_ & -> & _) end.
    apply fades_refl.
Qed.

Lemma clear_loop_current id keys : ∀ pending s, binv pending s → ∀ k,
  current (clear_loop s id keys).1 !! k =
    if bool_decide (k ∈ keys) && bool_decide (session_of s (current s !! k) = Some id) then None else current s !! k.
Proof.
  induction keys as [|k0 keys IH]; intros pending s H k; cbn [clear_loop]; [done|].
  assert (∀ P : bool, (bool_decide (k ∈ k0 :: keys) && P) = if decide (k = k0) then P else bool_decide (k ∈ keys) && P) as Hin.
  { intros P. destruct (decide (k = k0)) as [->|Hne].
    - by rewrite bool_decide_eq_true_2 by by left.
    - f_equal. apply bool_decide_ext. rewrite elem_of_cons. tauto. }
  rewrite Hin. destruct (current s !! k0) as [i|] eqn:Hk0.
  - destruct (bool_decide (session_of s (Some i) = Some id)) eqn:Hs.
    + cbn zeta. pose proof (unbind_binv pending s k0 i _ H Hk0 eq_refl) as Hu. cbn zeta in Hu.
      specialize (IH _ _ Hu k). destruct (clear_loop _ id keys) as [s' es]. cbn [fst] in *. rewrite IH.
      cbn [current session_of bindings]. destruct (decide (k = k0)) as [->|Hne].
      * rewrite lookup_delete_eq, Hk0, Hs. match goal with |- (if ?b then _ else _) = _ => destruct b end; reflexivity.
      * rewrite lookup_delete_ne by done.
        match goal with |- context [session_of ?s1 (current s !! k)] =>
          assert (session_of s1 (current s !! k) = session_of s (current s !! k)) as -> end; [|reflexivity].
        unfold session_of. destruct (current s !! k) as [j|] eqn:Hj; [|reflexivity]. cbn [bindings].
        destruct (bi_current _ _ H k j Hj) as (b & Hb & _).
        destruct (fades_invalidate (bindings s) (Some i) j b Hb) as (y & Hy & _ & Hys & _). rewrite Hb, Hy. cbn. by rewrite Hys.
    + rewrite (IH _ _ H). destruct (decide (k = k0)) as [->|]; [|done]. rewrite Hk0, Hs. by rewrite andb_false_r.
  - rewrite (IH _ _ H). destruct (decide (k = k0)) as [->|]; [|done]. rewrite Hk0. by destruct (_ && _), (bool_decide _).
Qed.

(** * The properties of session bindings *)
(** A handle is valid exactly while it is the current binding of its
    scope, so the two checks of [EnterBinding] agree; a scope has at most one
    valid handle; and no step revives a handle or changes its scope, session
    or version. *)
Lemma binding_validity s : breachable s →
  (∀ i b, bindings s !! i = Some b →
     (b_valid b = true ↔ current s !! Key (b_scope b) = Some i) ∧ binding_current s i = b_valid b)
  ∧ (∀ i j b b', bindings s !! i = Some b → bindings s !! j = Some b' → b_valid b = true → b_valid b' = true →
       Key (b_scope b) = Key (b_scope b') → i = j)
  ∧ ∀ step s', bexec s step = Some s' → fades (bindings s) (bindings s').
Proof.
  intros Hr. pose proof (breachable_inv s Hr) as Hb. pose proof (bi_valid _ _ Hb) as Hv. split_and!.
  - intros i b Hi. split; [by apply Hv|]. unfold binding_current. rewrite Hi. destruct (b_valid b) eqn:Hbv; [|done].
    cbn [andb]. by apply bool_decide_eq_true, (Hv i b Hi).
  - intros i j b b' Hi Hj Hbi Hbj Hk. apply (Hv i b Hi) in Hbi. apply (Hv j b' Hj) in Hbj. congruence.
  - intros step s' Hs. by eapply bexec_fades.
Qed.

(** Every committed change is numbered, in order, from one (modulo 2^64),
    and its event is never lost or repeated: it has been published, or a live
    lease keeps it, or a lease being released still has to publish it. When
    admission is idle every change has been published. *)
Lemma binding_events s : breachable s →
  map e_version (committed s) = map (λ n, Z.of_nat n mod 2 ^ 64) (seq 1 (length (committed s)))
  ∧ committed s ≡ₚ emitted s ++ flat (events s) ++ flat (releasing s)
  ∧ (∀ c, events_of (events s) c ≠ [] → has_status s c Leased)
  ∧ (∀ c, events_of (releasing s) c ≠ [] → has_status s c Unwinding)
  ∧ (idle (adm s) = true → committed s ≡ₚ emitted s).
Proof.
  intros Hr. destruct (breachable_inv s Hr) as [B1 B2 B3 B4 B5 B6 B7 B8 B10 B9]. split_and!; try done.
  rewrite (in_idle _ B1), andb_true_iff, Z.eqb_eq, (in_active _ B1). intros [_ Hl].
  assert (∀ t m, t ≠ Finished → (∀ c, events_of m c ≠ [] → has_status s c t) → flat m = []) as Hnone.
  { intros t m Ht Hm. destruct (flat m) as [|e es] eqn:He; [done|].
    destruct (flat_elem m e) as [c Hc]; [rewrite He; by left|].
    destruct (Hm c) as (x & Hx & Hs); [intros Hn; rewrite Hn in Hc; by apply elem_of_nil in Hc|].
    by rewrite (live_zero _ Hl c x Hx) in Hs. }
  rewrite (Hnone Leased _ ltac:(done) B7), (Hnone Unwinding _ ltac:(done) B8), !app_nil_r in B9. done.
Qed.

(** [SetCurrent] does what it says: afterwards the scope is bound to the
    session, by a valid handle, or unbound for the empty id; no other scope
    changes; and a change of nothing is not a change (no new handle, version
    or event). *)
Lemma SetCurrent_sets s ctx sc id : breachable s → let s' := SetCurrent s ctx sc id in
  (∀ k, k ≠ Key sc → current s' !! k = current s !! k)
  ∧ (if bool_decide (id = []) then current s' !! Key sc = None
     else ∃ i b, current s' !! Key sc = Some i ∧ bindings s' !! i = Some b ∧ b_session b = id ∧ b_valid b = true)
  ∧ (session_of s (current s !! Key sc) = (if bool_decide (id = []) then None else Some id) → s' = s).
Proof.
  intros Hr s'. pose proof (breachable_inv s Hr) as Hb. subst s'. unfold SetCurrent.
  destruct (current s !! Key sc) as [i|] eqn:Hc.
  - destruct (bi_current _ _ Hb _ i Hc) as (b & Hbi & Hk). pose proof (bi_session _ _ Hb i b Hbi) as Hne.
    cbn [session_of]. rewrite Hbi. cbn [fmap option_fmap option_map].
    destruct (bool_decide (Some (b_session b) = Some id)) eqn:Hs.
    + apply bool_decide_eq_true in Hs. injection Hs as <-. split; [done|]. rewrite (bool_decide_eq_false_2 _ Hne). split; [|done].
      exists i, b. split_and!; try done. apply (bi_valid _ _ Hb i b Hbi). by rewrite Hk.
    + apply bool_decide_eq_false in Hs.
      match goal with |- context [publishChange ?s1 ctx ?e] => destruct (publish_same s1 ctx e) as (_ & -> & -> & _) end.
      destruct (bool_decide (id = [])) eqn:Hid; cbn [current bindings].
      * split_and!; [intros k Hkne; by rewrite lookup_delete_ne|by rewrite lookup_delete_eq|done].
      * split_and!; [intros k Hkne; by rewrite lookup_insert_ne| |intros H; by destruct Hs].
        rewrite lookup_insert_eq. eexists _, _. split; [done|]. by rewrite lookup_insert_eq.
  - destruct (bool_decide (id = [])) eqn:Hid.
    + split_and!; done.
    + match goal with |- context [publishChange ?s1 ctx ?e] => destruct (publish_same s1 ctx e) as (_ & -> & -> & _) end.
      cbn [current bindings]. split_and!; [intros k Hkne; by rewrite lookup_insert_ne| |done].
      rewrite lookup_insert_eq. eexists _, _. split; [done|]. by rewrite lookup_insert_eq.
Qed.

(** [ClearSessionBindings] unbinds every scope of the session, and no
    other, whatever the order of the map. *)
Lemma ClearSessionBindings_clears s ctx id keys : breachable s → (∀ k, is_Some (current s !! k) → k ∈ keys) →
  ∀ k, current (ClearSessionBindings s ctx id keys) !! k =
    if bool_decide (session_of s (current s !! k) = Some id) then None else current s !! k.
Proof.
  intros Hr Hk k. pose proof (breachable_inv s Hr) as Hb. unfold ClearSessionBindings.
  pose proof (clear_loop_current id keys [] s Hb k) as Hc. destruct (clear_loop s id keys) as [s1 es]. cbn [fst] in Hc.
  destruct (publish_all_same es s1 ctx) as (_ & _ & -> & _). rewrite Hc.
  destruct (current s !! k) as [i|] eqn:Hi; [|by destruct (_ && _), (bool_decide _)].
  by rewrite bool_decide_eq_true_2 by (apply Hk; by eexists).
Qed.

(** ** The properties at a concrete state

    Two scopes bound to one session, the second inside an admission. *)
Definition ballowedb (s : state) (b : bstep) : bool := match b with BAdmission a => allowedb (adm s) a | _ => true end.
Fixpoint bsteps (s : state) (l : list bstep) : option state :=
  match l with
  | [] => Some s
  | b :: l => if ballowedb s b then match bexec s b with Some s => bsteps s l | None => None end else None
  end.
Lemma ballowedb_sound s b : ballowedb s b = true → ballowed s b.
Proof. destruct b; try done. apply allowedb_sound. Qed.
Lemma bsteps_reachable l : ∀ s s', breachable s → bsteps s l = Some s' → breachable s'.
Proof.
  induction l as [|b l IH]; intros s s' Hr; cbn [bsteps]; [by intros [= <-]|].
  destruct (ballowedb s b) eqn:Ha; [|done]. destruct (bexec s b) as [s1|] eqn:Hs; [|done]. apply IH.
  eapply breach_step; [done|by apply ballowedb_sound|done].
Qed.

Definition scope_a : Scope :=
  {| scope_of := {| TaskType := []; TaskID := []; OwnerPlatform := §"qq"; OwnerID := §"u"; Platform := §"qq";
                    ChatType := §"private"; ChatID := §"c" |}; IsCLI := false |}.
Definition scope_b : Scope := {| scope_of := no_scope; IsCLI := true |}.
Definition sample_bsteps : list bstep :=
  [BSet None scope_a §"s1"; BAdmission (SBegin None [scope_key (Key scope_b)] None); BAdmission (SRef 0);
   BAdmission (SToken 0); BAdmission (SCheck 0 false); BSet (Some 0%nat) scope_b §"s1"; BSet None scope_a §"s2"; BSet None scope_a §"s1"].
Definition bound : state := default new_state (bsteps new_state sample_bsteps).
Lemma bound_reachable : breachable bound.
Proof.
  apply (bsteps_reachable sample_bsteps new_state); [constructor|]. unfold bound.
  assert (is_some (bsteps new_state sample_bsteps) = true) as H by (vm_compute; reflexivity).
  by destruct (bsteps new_state sample_bsteps).
Qed.

Definition closing_bsteps : list bstep :=
  [BAdmission (SRelease 0); BAdmission (SUnwind 0); BDeliver 0; BAdmission (SFinish 0); BAdmission SClose].
Example all_published :
  match bsteps bound closing_bsteps with
  | Some s => (idle (adm s), map e_version (emitted s))
  | None => (false, [])
  end = (true, [1; 3; 4; 2]).
Proof. vm_compute. reflexivity. Qed.

Lemma binding_validity_witness :
  (∀ i b, bindings bound !! i = Some b →
     (b_valid b = true ↔ current bound !! Key (b_scope b) = Some i) ∧ binding_current bound i = b_valid b)
  ∧ (∀ i j b b', bindings bound !! i = Some b → bindings bound !! j = Some b' → b_valid b = true → b_valid b' = true →
       Key (b_scope b) = Key (b_scope b') → i = j)
  ∧ ∀ step s', bexec bound step = Some s' → fades (bindings bound) (bindings s').
Proof. apply binding_validity. exact bound_reachable. Defined.

Lemma binding_events_witness :
  map e_version (committed bound) = map (λ n, Z.of_nat n mod 2 ^ 64) (seq 1 (length (committed bound)))
  ∧ committed bound ≡ₚ emitted bound ++ flat (events bound) ++ flat (releasing bound)
  ∧ (∀ c, events_of (events bound) c ≠ [] → has_status bound c Leased)
  ∧ (∀ c, events_of (releasing bound) c ≠ [] → has_status bound c Unwinding)
  ∧ (idle (adm bound) = true → committed bound ≡ₚ emitted bound).
Proof. apply binding_events. exact bound_reachable. Defined.

Lemma SetCurrent_sets_witness : let s' := SetCurrent bound None scope_b §"s3" in
  (∀ k, k ≠ Key scope_b → current s' !! k = current bound !! k)
  ∧ (if bool_decide (§"s3" = []) then current s' !! Key scope_b = None
     else ∃ i b, current s' !! Key scope_b = Some i ∧ bindings s' !! i = Some b ∧ b_session b = §"s3" ∧ b_valid b = true)
  ∧ (session_of bound (current bound !! Key scope_b) = (if bool_decide (§"s3" = []) then None else Some §"s3") → s' = bound).
Proof. apply SetCurrent_sets. exact bound_reachable. Defined.

Definition bound_keys : list ScopeKey := map fst (map_to_list (current bound)).
Lemma ClearSessionBindings_clears_witness :
  current (ClearSessionBindings bound None §"s1" bound_keys) !! Key scope_b =
    if bool_decide (session_of bound (current bound !! Key scope_b) = Some §"s1") then None else current bound !! Key scope_b.
Proof.
  apply ClearSessionBindings_clears; [exact bound_reachable|]. intros k [i Hi]. apply list_elem_of_fmap.
  exists (k, i). split; [reflexivity|]. apply elem_of_map_to_list. exact Hi.
Defined.
