(* ===== verification/HookEvent.v ===== *)
(** * Hook matching ([internal/hook/share/match.go], [event.go])

    The conditions that decide whether a hook runs, the block policy evaluated
    before them, and the fields of an event that conditions and templates name.
    Go's regular expressions are a parameter: which patterns compile, the
    submatch indexes of the first match, and the names of the groups. *)
From S2P Require Import Prelude GoStr Segment.
Open Scope Z_scope.

(** ** Events: the parts that matching reads *)
Record ChatContext := { c_Platform : gostring; c_ChatType : gostring; c_ID : gostring; c_Name : gostring;
  c_PlatformMessageID : gostring; c_ReplyToMessageID : gostring }.
Record ActorContext := { a_Platform : gostring; a_Role : gostring; a_GroupRole : gostring; a_ID : gostring;
  a_Nickname : gostring; a_GroupCard : gostring; a_Name : gostring }.
Record SessionContext := { s_ID : gostring; s_Mode : gostring; s_Title : gostring; s_Status : gostring }.
Record RequestContext := { q_ID : gostring; q_Kind : gostring; q_SessionID : gostring; q_Phase : gostring }.
Record MessageReplyPayload := { r_MessageID : gostring; r_SenderID : gostring; r_Text : gostring; r_DisplayText : gostring }.
Record MessagePayload := { m_ID : gostring; m_Role : gostring; m_PlatformText : gostring; m_IntentText : gostring;
  m_Reply : option MessageReplyPayload; m_Segments : list MessageSegment }.
Record LLMPayload := { l_Provider : gostring; l_Model : gostring; l_SourceText : gostring; l_Text : gostring }.
Record ToolPayload := { t_Name : gostring; t_Arguments : gostring; t_Risk : gostring; t_Result : gostring }.
Record Event := {
  e_Chat : ChatContext; e_Actor : ActorContext; e_Session : SessionContext; e_Request : RequestContext;
  e_Message : MessagePayload; e_LLM : LLMPayload; e_Tool : ToolPayload;
  e_Error : option gostring; e_ErrorInfo : option gostring
}.

Definition EventErrorMessage (event : Event) : gostring :=
  match e_ErrorInfo event with
  | Some message => message
  | None => match e_Error event with Some message => message | None => [] end
  end.
Definition MessageIntentText (event : Event) : gostring :=
  if bool_decide (trim_space (m_IntentText (e_Message event)) = []) then SegmentsTextOnly (m_Segments (e_Message event))
  else trim_space (m_IntentText (e_Message event)).
Definition reply_field (f : MessageReplyPayload → gostring) (event : Event) : gostring :=
  match m_Reply (e_Message event) with Some r => f r | None => [] end.

Definition templateFields : list gostring :=
  [§"chat.platform"; §"chat.chat_type"; §"chat.name"; §"chat.id"; §"chat.message_id";
   §"chat.reply_to_message_id"; §"actor.platform"; §"actor.id"; §"actor.role"; §"actor.group_role";
   §"actor.name"; §"actor.nickname"; §"actor.group_card"; §"session.id"; §"session.mode"; §"session.title";
   §"session.status"; §"request.id"; §"request.kind"; §"request.session_id"; §"request.phase"; §"message.id";
   §"message.text"; §"message.display_text"; §"message.platform_text"; §"message.intent_text"; §"message.role";
   §"message.reply.message_id"; §"message.reply.sender_id"; §"message.reply.text";
   §"message.reply.display_text"; §"llm.text"; §"llm.source_text"; §"llm.latest_user_text";
   §"llm.latest_user_display_text"; §"llm.provider"; §"llm.model"; §"tool.name"; §"tool.arguments";
   §"tool.result"; §"tool.risk"; §"error.message"].
Definition KnownField (field : gostring) : bool := existsb (λ known, bool_decide (trim_space field = known)) templateFields.

Section fields.
  Context `{UnicodeTables} (url_parse : gostring → option (gostring * gostring)).

(** The cases of [FieldValue], in order. *)
Definition field_cases (event : Event) : list (gostring * gostring) :=
  [(§"chat.platform", c_Platform (e_Chat event));
   (§"chat.chat_type", c_ChatType (e_Chat event));
   (§"chat.name", c_Name (e_Chat event));
   (§"chat.id", c_ID (e_Chat event));
   (§"chat.message_id", c_PlatformMessageID (e_Chat event));
   (§"chat.reply_to_message_id", c_ReplyToMessageID (e_Chat event));
   (§"message.id", m_ID (e_Message event));
   (§"message.text", SegmentsTextOnly (m_Segments (e_Message event)));
   (§"message.display_text", SegmentsContentText url_parse (m_Segments (e_Message event)));
   (§"message.platform_text", m_PlatformText (e_Message event));
   (§"message.intent_text", MessageIntentText event);
   (§"message.role", m_Role (e_Message event));
   (§"message.reply.message_id", reply_field r_MessageID event);
   (§"message.reply.sender_id", reply_field r_SenderID event);
   (§"message.reply.text", reply_field r_Text event);
   (§"message.reply.display_text", reply_field r_DisplayText event);
   (§"llm.text", l_Text (e_LLM event));
   (§"llm.source_text", l_SourceText (e_LLM event));
   (§"llm.latest_user_text", SegmentsTextOnly (m_Segments (e_Message event)));
   (§"llm.latest_user_display_text", SegmentsContentText url_parse (m_Segments (e_Message event)));
   (§"llm.provider", l_Provider (e_LLM event));
   (§"llm.model", l_Model (e_LLM event));
   (§"tool.name", t_Name (e_Tool event));
   (§"tool.arguments", t_Arguments (e_Tool event));
   (§"tool.result", t_Result (e_Tool event));
   (§"tool.risk", t_Risk (e_Tool event));
   (§"actor.platform", a_Platform (e_Actor event));
   (§"actor.id", a_ID (e_Actor event));
   (§"actor.role", a_Role (e_Actor event));
   (§"actor.group_role", a_GroupRole (e_Actor event));
   (§"actor.name", a_Name (e_Actor event));
   (§"actor.nickname", a_Nickname (e_Actor event));
   (§"actor.group_card", a_GroupCard (e_Actor event));
   (§"session.id", s_ID (e_Session event));
   (§"session.mode", s_Mode (e_Session event));
   (§"session.title", s_Title (e_Session event));
   (§"session.status", s_Status (e_Session event));
   (§"request.id", q_ID (e_Request event));
   (§"request.kind", q_Kind (e_Request event));
   (§"request.session_id", q_SessionID (e_Request event));
   (§"request.phase", q_Phase (e_Request event));
   (§"error.message", EventErrorMessage event)].
Fixpoint switch (field : gostring) (cases : list (gostring * gostring)) : gostring :=
  match cases with
  | [] => []
  | (name, value) :: cases => if bool_decide (field = name) then value else switch field cases
  end.
Definition FieldValue (event : Event) (field : gostring) : gostring := switch (trim_space field) (field_cases event).

Definition placeholder (field : gostring) : gostring := §"{{" ++ field ++ §"}}".
Definition TemplateValues (event : Event) : gmap gostring gostring :=
  fold_left (λ values field, <[placeholder field := FieldValue event field]> values) templateFields ∅.
End fields.

(** * Hook conditions and block policies ([internal/hook/share/match.go]) *)

(** ** Block policies *)
Record BlockPolicy := { platforms : gset gostring; groups : gmap gostring (gset gostring); users : gmap gostring (gset gostring) }.

Fixpoint add_platforms (set : gset gostring) (l : list gostring) : res (gset gostring) :=
  match l with
  | [] => Ok set
  | platform :: l =>
    if bool_decide (trim_space platform = []) then Err §"blocked_platform contains an empty platform"
    else add_platforms ({[trim_space platform]} ∪ set) l
  end.
Fixpoint add_ids (name platform : gostring) (set : gset gostring) (ids : list gostring) : res (gset gostring) :=
  match ids with
  | [] => Ok set
  | id :: ids =>
    if bool_decide (trim_space id = []) then Err (name ++ §"." ++ platform ++ §" contains an empty ID")
    else add_ids name platform ({[trim_space id]} ∪ set) ids
  end.
(** One map of ids by platform, as the list of its entries in the order of the
    iteration; two entries may have the same platform after trimming. *)
Fixpoint add_table (name : gostring) (target : gmap gostring (gset gostring)) (values : list (gostring * list gostring)) :
    res (gmap gostring (gset gostring)) :=
  match values with
  | [] => Ok target
  | (platform, ids) :: values =>
    let platform := trim_space platform in
    if bool_decide (platform = []) then Err (name ++ §" contains an empty platform")
    else
      let* set := add_ids name platform (default ∅ (target !! platform)) ids in
      add_table name (<[platform := set]> target) values
  end.
Definition NewBlockPolicy (blockedPlatforms : list gostring) (blockedGroups blockedUsers : list (gostring * list gostring)) : res BlockPolicy :=
  let* ps := add_platforms ∅ blockedPlatforms in
  let* gs := add_table §"blocked_group" ∅ blockedGroups in
  let* us := add_table §"blocked_id" ∅ blockedUsers in
  Ok {| platforms := ps; groups := gs; users := us |}.

Definition member (table : gmap gostring (gset gostring)) (platform id : gostring) : bool :=
  bool_decide (id ∈ default ∅ (table !! platform)).
Definition Blocks (p : BlockPolicy) (event : Event) : bool :=
  if bool_decide (c_Platform (e_Chat event) ∈ platforms p) then true
  else if bool_decide (c_ChatType (e_Chat event) = §"group") && member (groups p) (c_Platform (e_Chat event)) (c_ID (e_Chat event)) then true
  else member (users p) (a_Platform (e_Actor event)) (a_ID (e_Actor event)).

(** ** Regular expressions *)
Class RegexEngine := {
  re_compiles : gostring → bool;
  re_find : gostring → gostring → option (list Z);   (* FindStringSubmatchIndex *)
  re_names : gostring → list gostring                (* SubexpNames *)
}.
(** What the documentation of [regexp] says of the indexes: pairs, the first
    of which is a match; a pair is within the text or is -1, -1. *)
Definition index_pair (n : nat) (pair : Z * Z) : Prop := pair = (-1, -1) ∨ 0 ≤ pair.1 ≤ pair.2 ∧ pair.2 ≤ Z.of_nat n.
Definition flatten_pairs (l : list (Z * Z)) : list Z := l ≫= λ p, [p.1; p.2].
Definition regex_documented {E : RegexEngine} : Prop := ∀ pattern value indexes,
  re_compiles pattern = true → re_find pattern value = Some indexes →
  ∃ s e pairs, indexes = flatten_pairs ((s, e) :: pairs) ∧ 0 ≤ s ≤ e ∧ e ≤ Z.of_nat (length value)
    ∧ Forall (index_pair (length value)) pairs.

Record RegexMatch := {
  rm_Field : gostring; rm_Value : gostring; rm_Text : gostring; rm_Groups : list gostring;
  rm_Named : gmap gostring gostring; rm_Start : Z; rm_End : Z
}.

Section conditions.
  Context `{UnicodeTables} {E : RegexEngine} (url_parse : gostring → option (gostring * gostring)).

(** [value[start:end]]. *)
Definition slice (value : gostring) (s e : Z) : res gostring :=
  if (0 <=? s) && (s <=? e) && (e <=? Z.of_nat (length value))
  then Ok (take (Z.to_nat (e - s)) (drop (Z.to_nat s) value)) else Panic.

(** The loop over the pairs of indexes; an odd number of them is out of range. *)
Fixpoint collect_groups (value : gostring) (names : list gostring) (i : nat) (indexes : list Z) (named : gmap gostring gostring) :
    res (list gostring * gmap gostring gostring) :=
  match indexes with
  | [] => Ok ([], named)
  | [_] => Panic
  | s :: e :: indexes =>
    let* group := (if (0 <=? s) && (0 <=? e) then slice value s e else Ok []) in
    let named := match names !! i with
                 | Some name => if bool_decide (trim_space name = []) then named else <[name := group]> named
                 | None => named
                 end in
    let* (gs, named) := collect_groups value names (S i) indexes named in Ok (group :: gs, named)
  end.
Definition regexMatchContext (field pattern value : gostring) : res (option RegexMatch) :=
  if negb (re_compiles pattern) then Panic  (* regexp.MustCompile *)
  else
    match re_find pattern value with
    | None => Ok None
    | Some indexes =>
      let* (gs, named) := collect_groups value (re_names pattern) 0 indexes ∅ in
      match gs, indexes with
      | text :: _, s :: e :: _ =>
        Ok (Some {| rm_Field := field; rm_Value := pattern; rm_Text := text; rm_Groups := gs; rm_Named := named;
                    rm_Start := s; rm_End := e |})
      | _, _ => Panic
      end
    end.

(** ** Conditions *)
Record Condition := { Field : gostring; Op : gostring; Value : gostring }.
Abbreviation Match := (list Condition).

Definition knownMatchOp (op : gostring) : bool :=
  existsb (λ known, bool_decide (op = known))
    [§"always"; §"exists"; §"contains"; §"fullmatch"; §"startswith"; §"endswith"; §"regex"].
Definition needsMatchValue (op : gostring) : bool :=
  existsb (λ known, bool_decide (op = known)) [§"contains"; §"fullmatch"; §"startswith"; §"endswith"; §"regex"].

Definition condition_validate (c : Condition) : res unit :=
  let op := trim_space (Op c) in
  if bool_decide (op = []) then Err §"op is required"
  else if negb (knownMatchOp op) then Err (§"unsupported op " ++ quote op)
  else if bool_decide (op = §"always") then
    (if negb (bool_decide (trim_space (Field c) = [])) || negb (bool_decide (trim_space (Value c) = []))
     then Err §"always cannot set field or value" else Ok tt)
  else if negb (KnownField (Field c)) then Err (§"unsupported field " ++ quote (Field c))
  else if needsMatchValue op && bool_decide (Value c = []) then Err (§"value is required for " ++ op)
  else if bool_decide (op = §"regex") && negb (re_compiles (Value c)) then Err §"invalid regex: "
  else Ok tt.

Fixpoint validate_from (i : Z) (m : Match) : res unit :=
  match m with
  | [] => Ok tt
  | c :: m => let* _ := res_wrap (§"condition " ++ itoa (i + 1) ++ §": ") (condition_validate c) in validate_from (i + 1) m
  end.
Definition Validate (m : Match) : res unit :=
  match m with [] => Err §"hook match requires at least one condition" | _ => validate_from 0 m end.

Definition condition_match (c : Condition) (event : Event) : res (bool * option RegexMatch) :=
  let fieldValue := FieldValue url_parse event (Field c) in
  let op := trim_space (Op c) in
  if bool_decide (op = §"always") then Ok (true, None)
  else if bool_decide (op = §"exists") then Ok (negb (bool_decide (fieldValue = [])), None)
  else if bool_decide (op = §"contains") then Ok (contains fieldValue (Value c), None)
  else if bool_decide (op = §"fullmatch") then Ok (bool_decide (fieldValue = Value c), None)
  else if bool_decide (op = §"startswith") then Ok (has_prefix (Value c) fieldValue, None)
  else if bool_decide (op = §"endswith") then Ok (has_suffix (Value c) fieldValue, None)
  else if bool_decide (op = §"regex") then
    let* capture := regexMatchContext (Field c) (Value c) fieldValue in
    Ok (match capture with Some r => (true, Some r) | None => (false, None) end)
  else Ok (false, None).

Record MatchResult := { OK : bool; Regex : list RegexMatch }.
(** The loop of [MatchEvent], with the captures so far. *)
Fixpoint match_from (captures : list RegexMatch) (m : Match) (event : Event) : res MatchResult :=
  match m with
  | [] => Ok {| OK := true; Regex := captures |}
  | c :: m =>
    let* (ok, capture) := condition_match c event in
    if negb ok then Ok {| OK := false; Regex := [] |}
    else match_from (captures ++ match capture with Some r => [r] | None => [] end) m event
  end.
Definition MatchEvent (m : Match) (event : Event) : res MatchResult := match_from [] m event.
End conditions.
