(* ===== verification/HookProps.v ===== *)
(** * What hook matching promises *)
From S2P Require Import Prelude GoStr Segment HookEvent.
Open Scope Z_scope.

(** ** Fields *)
Lemma switch_unknown field cases : ¬ (field ∈ map fst cases) → switch field cases = [].
Proof.
  induction cases as [|[name value] cases IH]; cbn [switch map fst]; [done|]. intros Hn.
  rewrite not_elem_of_cons in Hn. destruct Hn as [Hne Hn]. rewrite bool_decide_eq_false_2 by done. auto.
Qed.

Lemma case_names `{UnicodeTables} url_parse event : map fst (field_cases url_parse event) ≡ₚ templateFields.
Proof. apply (bool_decide_unpack _). vm_compute. exact I. Qed.

Lemma placeholder_inj : Inj (=) (=) placeholder.
Proof. intros a b. unfold placeholder. intros Hab. apply app_inv_head in Hab. by apply app_inv_tail in Hab. Qed.

Lemma template_lookup {A} (f : gostring → A) (fields : list gostring) (m : gmap gostring A) (k : gostring) :
  fold_left (λ values field, <[placeholder field := f field]> values) fields m !! k =
  match list_find (λ field, placeholder field = k) fields with Some (_, field) => Some (f field) | None => m !! k end.
Proof.
  revert m. induction fields as [|field fields IH]; intros m; cbn [fold_left list_find]; [done|]. rewrite IH.
  destruct (decide (placeholder field = k)) as [Hk|Hk].
  - destruct (list_find (λ field0, placeholder field0 = k) fields) as [[i field']|] eqn:Hf; cbn.
    + apply list_find_Some in Hf as (_ & Hk' & _). assert (field' = field) as -> by (apply placeholder_inj; congruence). done.
    + by rewrite <- Hk, lookup_insert_eq.
  - destruct (list_find (λ field0, placeholder field0 = k) fields) as [[i field']|]; cbn; [done|].
    by rewrite lookup_insert_ne.
Qed.

(** The table of known fields and the cases of [FieldValue] agree: the
    names are distinct and the same; a field that is not known reads as empty;
    and a template has, for exactly the known fields, the placeholder with the
    value of the field. *)
Lemma template_fields_agree `{UnicodeTables} url_parse event :
  NoDup templateFields
  ∧ map fst (field_cases url_parse event) ≡ₚ templateFields
  ∧ (∀ field, KnownField field = false → FieldValue url_parse event field = [])
  ∧ (∀ field, field ∈ templateFields →
       TemplateValues url_parse event !! placeholder field = Some (FieldValue url_parse event field))
  ∧ ∀ k, is_Some (TemplateValues url_parse event !! k) → ∃ field, field ∈ templateFields ∧ k = placeholder field.
Proof.
  split_and!.
  - apply (bool_decide_unpack _). vm_compute. exact I.
  - apply case_names.
  - intros field Hk. unfold FieldValue. apply switch_unknown. rewrite case_names. intros Hin.
    unfold KnownField in Hk. apply not_true_iff_false in Hk. apply Hk, existsb_exists. exists (trim_space field).
    split; [by apply list_elem_of_In|by apply bool_decide_eq_true].
  - intros field Hin. unfold TemplateValues. rewrite template_lookup.
    destruct (list_find (λ field0, placeholder field0 = placeholder field) templateFields) as [[i field']|] eqn:Hf.
    + apply list_find_Some in Hf as (_ & Hk & _). by rewrite (placeholder_inj _ _ Hk).
    + apply list_find_None in Hf. rewrite Forall_forall in Hf. by destruct (Hf field Hin).
  - intros k. unfold TemplateValues. rewrite template_lookup.
    destruct (list_find (λ field0, placeholder field0 = k) templateFields) as [[i field']|] eqn:Hf.
    + intros _. apply list_find_Some in Hf as (Hin & Hk & _). exists field'. split; [by eapply list_elem_of_lookup_2|done].
    + rewrite lookup_empty. by intros [? ?].
Qed.

(** ** Block policies *)
Lemma add_platforms_ok l : ∀ set set', add_platforms set l = Ok set' →
  ∀ x, x ∈ set' ↔ x ∈ set ∨ ∃ p, p ∈ l ∧ trim_space p = x.
Proof.
  induction l as [|p l IH]; intros set set'; cbn [add_platforms].
  { intros [= <-] x. split; [by left|]. by intros [|(p & ?%elem_of_nil & _)]. }
  destruct (bool_decide _); [done|]. intros Hr x. rewrite (IH _ _ Hr), elem_of_union, elem_of_singleton. split.
  - intros [[->|Hx]|(q & Hq & Hx)]; [right; exists p; split; [by left|done]|by left|]. right. exists q. split; [by right|done].
  - intros [Hx|(q & [->|Hq]%elem_of_cons & Hx)]; [auto|left; left; done|]. right. eauto.
Qed.
Lemma add_platforms_fails l : ∀ set, (∃ set', add_platforms set l = Ok set') ↔ ∀ p, p ∈ l → trim_space p ≠ [].
Proof.
  induction l as [|p l IH]; intros set; cbn [add_platforms].
  { split; [by intros _ p ?%elem_of_nil|eauto]. }
  destruct (bool_decide (trim_space p = [])) eqn:Hp.
  - apply bool_decide_eq_true in Hp. split; [by intros [? ?]|]. intros Hall. by destruct (Hall p ltac:(by left)).
  - apply bool_decide_eq_false in Hp. rewrite IH. split.
    + intros Hall q [->|Hq]%elem_of_cons; auto.
    + intros Hall q Hq. apply Hall. by right.
Qed.
Lemma add_ids_platforms name platform l : ∀ set,
  match add_ids name platform set l, add_platforms set l with
  | Ok a, Ok b => a = b
  | Err _, Err _ => True
  | _, _ => False
  end.
Proof. induction l as [|p l IH]; intros set; cbn [add_ids add_platforms]; [done|]. destruct (bool_decide _); [done|apply IH]. Qed.

(** An entry of a table, trimmed. *)
Definition listed (values : list (gostring * list gostring)) (platform id : gostring) : Prop :=
  ∃ p ids i, (p, ids) ∈ values ∧ trim_space p = platform ∧ i ∈ ids ∧ trim_space i = id.
Definition table_valid (values : list (gostring * list gostring)) : Prop :=
  ∀ p ids, (p, ids) ∈ values → trim_space p ≠ [] ∧ ∀ i, i ∈ ids → trim_space i ≠ [].

Lemma add_table_ok name values : ∀ target target', add_table name target values = Ok target' →
  ∀ platform id, member target' platform id = true ↔ member target platform id = true ∨ listed values platform id.
Proof.
  induction values as [|[p ids] values IH]; intros target target'; cbn [add_table].
  { intros [= <-] platform id. split; [by left|]. by intros [|(p & ids & i & ?%elem_of_nil & _)]. }
  destruct (bool_decide _); [done|]. pose proof (add_ids_platforms name (trim_space p) ids (default ∅ (target !! trim_space p))) as Hp.
  destruct (add_ids name (trim_space p) _ ids) as [set| |]; cbn [res_bind]; [|done..].
  destruct (add_platforms _ ids) as [set'| |] eqn:Hadd; [subst set'|done..]. intros Hr platform id.
  rewrite (IH _ _ Hr). unfold member. rewrite !bool_decide_eq_true. destruct (decide (trim_space p = platform)) as [<-|Hne].
  - rewrite lookup_insert_eq. cbn [default]. rewrite (add_platforms_ok _ _ _ Hadd). split.
    + intros [[?|(i & Hi & Hx)]|(q & js & i & Hq & ?)]; [by left|right; exists p, ids, i; split_and!; [by left|done..]|].
      right. exists q, js, i. split; [by right|done].
    + intros [?|(q & js & i & [[= -> ->]|Hq]%elem_of_cons & Ht & Hi & Hx)]; [by left; left|left; right; eauto|].
      right. by exists q, js, i.
  - rewrite lookup_insert_ne by done. split.
    + intros [?|(q & js & i & Hq & ?)]; [by left|]. right. exists q, js, i. split; [by right|done].
    + intros [?|(q & js & i & [[= -> ->]|Hq]%elem_of_cons & Ht & Hi & Hx)]; [by left|done|]. right. by exists q, js, i.
Qed.

Lemma add_table_fails name values : ∀ target, (∃ target', add_table name target values = Ok target') ↔ table_valid values.
Proof.
  induction values as [|[p ids] values IH]; intros target; cbn [add_table].
  { split; [by intros _ p ids ?%elem_of_nil|eauto]. }
  assert (table_valid ((p, ids) :: values) ↔ trim_space p ≠ [] ∧ (∀ i, i ∈ ids → trim_space i ≠ []) ∧ table_valid values) as ->.
  { split.
    - intros Hv. destruct (Hv p ids ltac:(by left)) as [? ?]. split_and!; [done|done|]. intros q js Hq. apply Hv. by right.
    - intros (H1 & H2 & H3) q js [[= -> ->]|Hq]%elem_of_cons; [done|by apply H3]. }
  destruct (bool_decide (trim_space p = [])) eqn:Hp.
  { apply bool_decide_eq_true in Hp. split; [by intros [? ?]|]. by intros [? _]. }
  apply bool_decide_eq_false in Hp.
  pose proof (add_ids_platforms name (trim_space p) ids (default ∅ (target !! trim_space p))) as Ha.
  pose proof (add_platforms_fails ids (default ∅ (target !! trim_space p))) as Hf.
  destruct (add_ids name (trim_space p) _ ids) as [set| |]; cbn [res_bind]; destruct (add_platforms _ ids) as [set'| |]; try done.
  - rewrite IH. split; [intros ?; split_and!; [done|apply Hf; eauto|done]|by intros (_ & _ & ?)].
  - split; [by intros [? ?]|]. intros (_ & Hi & _). apply Hf in Hi as [? ?]. done.
Qed.

(** A block policy blocks exactly what its lists name, after trimming: the
    platform of the chat, a group chat by platform and id, or the acting user;
    building it fails exactly when some name is blank. *)
Lemma block_policy_spec bp bg bu :
  ((∃ p, NewBlockPolicy bp bg bu = Ok p) ↔ (∀ x, x ∈ bp → trim_space x ≠ []) ∧ table_valid bg ∧ table_valid bu)
  ∧ ∀ p event, NewBlockPolicy bp bg bu = Ok p →
      Blocks p event = true ↔
        (∃ x, x ∈ bp ∧ trim_space x = c_Platform (e_Chat event))
        ∨ (c_ChatType (e_Chat event) = §"group" ∧ listed bg (c_Platform (e_Chat event)) (c_ID (e_Chat event)))
        ∨ listed bu (a_Platform (e_Actor event)) (a_ID (e_Actor event)).
Proof.
  unfold NewBlockPolicy. pose proof (add_platforms_fails bp ∅) as F1. pose proof (add_table_fails §"blocked_group" bg ∅) as F2.
  pose proof (add_table_fails §"blocked_id" bu ∅) as F3. split.
  - rewrite <- F1, <- F2, <- F3. split.
    + intros [p Hp]. apply res_bind_ok in Hp as (ps & Hps & (gs & Hgs & (us & Hus & _)%res_bind_ok)%res_bind_ok). eauto 10.
    + intros ([ps ->] & [gs ->] & [us ->]). cbn [res_bind]. eauto.
  - intros p event (ps & Hps & (gs & Hgs & (us & Hus & [= <-])%res_bind_ok)%res_bind_ok)%res_bind_ok.
    pose proof (add_platforms_ok _ _ _ Hps (c_Platform (e_Chat event))) as E1.
    pose proof (add_table_ok _ _ _ _ Hgs (c_Platform (e_Chat event)) (c_ID (e_Chat event))) as E2.
    pose proof (add_table_ok _ _ _ _ Hus (a_Platform (e_Actor event)) (a_ID (e_Actor event))) as E3.
    assert (∀ a b, member ∅ a b = true ↔ False) as Hno.
    { intros a b. unfold member. rewrite bool_decide_eq_true, lookup_empty. cbn. split; [apply not_elem_of_empty|done]. }
    rewrite Hno in E2, E3. unfold Blocks. cbn [platforms groups users].
    assert (¬ (c_Platform (e_Chat event) ∈ (∅ : gset gostring))) as Hne by apply not_elem_of_empty.
    assert (true = true) as Ht by done. assert (¬ (false = true)) as Hf by done.
    destruct (bool_decide (c_Platform (e_Chat event) ∈ ps)) eqn:Hb;
      [apply bool_decide_eq_true in Hb; tauto|apply bool_decide_eq_false in Hb].
    destruct (bool_decide (c_ChatType (e_Chat event) = §"group")) eqn:Hg;
      [apply bool_decide_eq_true in Hg|apply bool_decide_eq_false in Hg]; destruct (member gs _ _), (member us _ _); cbn [andb]; tauto.
Qed.

(** ** Conditions *)
Section matching.
  Context `{UnicodeTables} {E : RegexEngine} (url_parse : gostring → option (gostring * gostring)).
  Context (Hregex : regex_documented).

Definition group_text (value : gostring) (p : Z * Z) : gostring :=
  if (0 <=? p.1) && (0 <=? p.2) then take (Z.to_nat (p.2 - p.1)) (drop (Z.to_nat p.1) value) else [].

Lemma collect_groups_ok value names pairs : Forall (index_pair (length value)) pairs → ∀ i named,
  ∃ named', collect_groups value names i (flatten_pairs pairs) named = Ok (map (group_text value) pairs, named').
Proof.
  induction 1 as [|[s e] pairs Hp _ IH]; intros i named; [by exists named|].
  unfold flatten_pairs. cbn [mbind list_bind fst snd app]. fold (flatten_pairs pairs). cbn [collect_groups].
  assert ((if (0 <=? s) && (0 <=? e) then slice value s e else Ok []) = Ok (group_text value (s, e))) as ->.
  { unfold group_text, slice. cbn [fst snd]. destruct ((0 <=? s) && (0 <=? e)) eqn:Hb; [|done].
    destruct Hp as [[= -> ->]|[Hse Hn]]; [done|]. cbn [fst snd] in *.
    by rewrite (proj2 (Z.leb_le 0 s)), (proj2 (Z.leb_le s e)), (proj2 (Z.leb_le e _)) by lia. }
  cbn [res_bind]. match goal with |- context [collect_groups value names (S i) _ ?n] => destruct (IH (S i) n) as [named' ->] end.
  cbn [res_bind map]. eauto.
Qed.

(** A capture is a match of the value: its text and bounds agree, and every
    group is a part of the value. *)
Definition capture_ok (value : gostring) (r : RegexMatch) : Prop :=
  0 ≤ rm_Start r ≤ rm_End r ∧ rm_End r ≤ Z.of_nat (length value)
  ∧ rm_Text r = group_text value (rm_Start r, rm_End r)
  ∧ head (rm_Groups r) = Some (rm_Text r)
  ∧ Forall (λ g, ∃ a b, value = a ++ g ++ b) (rm_Groups r).

Lemma group_text_part value p : ∃ a b, value = a ++ group_text value p ++ b.
Proof.
  unfold group_text. destruct (_ && _); [|exists [], value; done].
  exists (take (Z.to_nat p.1) value), (drop (Z.to_nat (p.2 - p.1)) (drop (Z.to_nat p.1) value)). by rewrite !take_drop.
Qed.

Lemma regexMatchContext_ok field pattern value : re_compiles pattern = true →
  ∃ o, regexMatchContext field pattern value = Ok o ∧ (is_Some o ↔ is_Some (re_find pattern value))
    ∧ ∀ r, o = Some r → capture_ok value r ∧ rm_Field r = field ∧ rm_Value r = pattern.
Proof.
  intros Hc. unfold regexMatchContext. rewrite Hc. cbn [negb]. destruct (re_find pattern value) as [indexes|] eqn:Hf.
  2:{ exists None. split; [done|]. split; [done|]. by intros r. }
  destruct (Hregex pattern value indexes Hc Hf) as (s & e & pairs & -> & Hse & Hn & Hps).
  destruct (collect_groups_ok value (re_names pattern) ((s, e) :: pairs)) with (i := 0%nat) (named := (∅ : gmap gostring gostring))
    as [named' ->]; [constructor; [by right|done]|].
  cbn [res_bind map]. eexists; split; [done|]. split; [split; eauto|]. intros r [= <-].
  split; [|done]. unfold capture_ok. cbn [rm_Start rm_End rm_Text rm_Groups]. split_and!; try lia; try done.
  constructor; [apply group_text_part|]. apply Forall_forall. intros g (p & -> & _)%list_elem_of_fmap. apply group_text_part.
Qed.

Lemma validate_regex c : condition_validate c = Ok tt → trim_space (Op c) = §"regex" → re_compiles (Value c) = true.
Proof.
  unfold condition_validate. intros Hv Ho. rewrite Ho in Hv. rewrite (bool_decide_eq_false_2 (§"regex" = [])) in Hv by done.
  destruct (negb (knownMatchOp §"regex")); [done|]. rewrite (bool_decide_eq_false_2 (§"regex" = §"always")) in Hv by done.
  destruct (negb (KnownField (Field c))); [done|]. destruct (_ && _); [done|].
  rewrite (bool_decide_eq_true_2 (§"regex" = §"regex")) in Hv by done. cbn [andb] in Hv.
  by destruct (re_compiles (Value c)).
Qed.

(** A validated condition is decided without a panic. *)
Lemma condition_match_ok c event : condition_validate c = Ok tt →
  ∃ ok capture, condition_match url_parse c event = Ok (ok, capture)
    ∧ (∀ r, capture = Some r → ok = true ∧ capture_ok (FieldValue url_parse event (Field c)) r).
Proof.
  intros Hv. unfold condition_match. set (value := FieldValue url_parse event (Field c)).
  destruct (bool_decide (trim_space (Op c) = §"regex")) eqn:Hr.
  - apply bool_decide_eq_true in Hr. pose proof (validate_regex c Hv Hr) as Hc. rewrite Hr.
    do 6 (rewrite bool_decide_eq_false_2 by done).
    destruct (regexMatchContext_ok (Field c) (Value c) value Hc) as (o & -> & _ & Ho). cbn [res_bind].
    destruct o as [r|]; [exists true, (Some r)|by exists false, None]. split; [done|]. intros r' [= <-]. split; [done|]. by apply Ho.
  - assert (∀ b : bool, ∃ ok capture, Ok (b, None) = Ok (ok, capture)
              ∧ (∀ r, capture = Some r → ok = true ∧ capture_ok value r)) as Hplain by (intros b; by exists b, None).
    repeat match goal with |- context [if ?b then _ else _] => destruct b; [apply Hplain|] end. apply Hplain.
Qed.

Definition holds (event : Event) (c : Condition) : Prop := ∃ capture, condition_match url_parse c event = Ok (true, capture).
Definition capture_of (event : Event) (c : Condition) : option RegexMatch :=
  match condition_match url_parse c event with Ok (true, capture) => capture | _ => None end.

Lemma validate_from_ok m : ∀ i, validate_from i m = Ok tt → Forall (λ c, condition_validate c = Ok tt) m.
Proof.
  induction m as [|c m IH]; intros i; cbn [validate_from]; [constructor|]. rewrite res_bind_ok. intros ([] & Hc%res_wrap_ok & Hm).
  constructor; [done|eauto].
Qed.

Lemma match_from_ok event m : Forall (λ c, condition_validate c = Ok tt) m → ∀ captures,
  ∃ r, match_from url_parse captures m event = Ok r
    ∧ (OK r = true ↔ ∀ c, c ∈ m → holds event c)
    ∧ (OK r = true → Regex r = captures ++ omap (capture_of event) m)
    ∧ (OK r = false → Regex r = []).
Proof.
  induction 1 as [|c m Hc _ IH]; intros captures; cbn [match_from].
  { eexists; split; [done|]. cbn. rewrite app_nil_r. split_and!; try done. split; [by intros _ c ?%elem_of_nil|done]. }
  destruct (condition_match_ok c event Hc) as (ok & capture & Hm & _). rewrite Hm. cbn [res_bind]. destruct ok; cbn [negb].
  - destruct (IH (captures ++ match capture with Some r => [r] | None => [] end)) as (r & -> & H1 & H2 & H3).
    exists r. split; [done|]. split_and!; [|intros Hok; rewrite (H2 Hok)|done].
    + rewrite H1. split.
      * intros Hall d [->|Hd]%elem_of_cons; [by exists capture|auto].
      * intros Hall d Hd. apply Hall. by right.
    + unfold capture_of at 2. cbn [omap list_omap]. rewrite Hm. rewrite <- app_assoc. f_equal. by destruct capture.
  - eexists; split; [done|]. cbn [OK Regex]. split_and!; try done. split; [done|]. intros Hall.
    destruct (Hall c ltac:(by left)) as [cap Hcap]. congruence.
Qed.

(** A match that passes validation decides every event: it never panics
    (in particular every regular expression compiles), it matches exactly when
    all its conditions hold, its captures are those of the regular expressions
    in order, with bounds inside the field and groups that are parts of it, and
    it has none when it does not match. *)
Lemma validated_match m event : Validate m = Ok tt →
  ∃ r, MatchEvent url_parse m event = Ok r
    ∧ (OK r = true ↔ ∀ c, c ∈ m → holds event c)
    ∧ (OK r = true → Regex r = omap (capture_of event) m)
    ∧ (OK r = false → Regex r = [])
    ∧ ∀ c cap, c ∈ m → capture_of event c = Some cap → capture_ok (FieldValue url_parse event (Field c)) cap.
Proof.
  intros Hv. assert (Forall (λ c, condition_validate c = Ok tt) m) as Hall.
  { destruct m as [|c m]; [done|]. by eapply validate_from_ok. }
  destruct (match_from_ok event m Hall []) as (r & Hr & H1 & H2 & H3). exists r. split_and!; try done.
  intros c cap Hc. rewrite Forall_forall in Hall. destruct (condition_match_ok c event (Hall c Hc)) as (ok & capture & Hm & Hcap).
  unfold capture_of. rewrite Hm. destruct ok; [|done]. intros ->. by apply Hcap.
Qed.
End matching.

(** ** The properties at a concrete hook

    An engine whose only pattern is [a], found as a plain substring. *)
#[local] Existing Instance ascii_tables.
#[local] Instance plain_engine : RegexEngine :=
  {| re_compiles := λ pattern, bool_decide (pattern = §"a");
     re_find := λ pattern value,
       match index §"a" value with Some i => Some [Z.of_nat i; Z.of_nat i + 1; -1; -1] | None => None end;
     re_names := λ _, [[]; §"tail"] |}.
Lemma plain_documented : regex_documented.
Proof.
  intros pattern value indexes _. cbn [re_find plain_engine]. destruct (index §"a" value) as [i|] eqn:Hi; [|done]. intros [= <-].
  exists (Z.of_nat i), (Z.of_nat i + 1), [(-1, -1)]. split; [done|]. split; [lia|]. split; [|repeat constructor].
  assert (∀ s i, index §"a" s = Some i → (i < length s)%nat) as Hlt.
  { clear. induction s as [|x s IH]; intros i; cbn [index]; [done|]. destruct (has_prefix _ _); [intros [= <-]; cbn; lia|].
    destruct (index §"a" s) as [j|]; [|done]. cbn. intros [= <-]. specialize (IH j eq_refl). lia. }
  pose proof (Hlt value i Hi). lia.
Qed.

Definition sample_event : Event :=
  {| e_Chat := {| c_Platform := §"qq"; c_ChatType := §"group"; c_ID := §"42"; c_Name := §"g"; c_PlatformMessageID := []; c_ReplyToMessageID := [] |};
     e_Actor := {| a_Platform := §"qq"; a_Role := []; a_GroupRole := []; a_ID := §"7"; a_Nickname := []; a_GroupCard := []; a_Name := §"anna" |};
     e_Session := {| s_ID := []; s_Mode := []; s_Title := []; s_Status := [] |};
     e_Request := {| q_ID := []; q_Kind := []; q_SessionID := []; q_Phase := [] |};
     e_Message := {| m_ID := []; m_Role := []; m_PlatformText := []; m_IntentText := []; m_Reply := None; m_Segments := [text_segment §"hello"] |};
     e_LLM := {| l_Provider := []; l_Model := []; l_SourceText := []; l_Text := [] |};
     e_Tool := {| t_Name := []; t_Arguments := []; t_Risk := []; t_Result := [] |};
     e_Error := None; e_ErrorInfo := None |}.
Definition sample_match : list Condition :=
  [{| Field := §" message.text "; Op := §"startswith"; Value := §"he" |}; {| Field := §"actor.name"; Op := §"regex"; Value := §"a" |}].

Example sample_matched :
  match MatchEvent http_parse sample_match sample_event with
  | Ok r => (OK r, map rm_Groups (Regex r))
  | _ => (false, [])
  end = (true, [[§"a"; []]]).
Proof. vm_compute. reflexivity. Qed.

Lemma validated_match_witness :
  ∃ r, MatchEvent http_parse sample_match sample_event = Ok r
    ∧ (OK r = true ↔ ∀ c, c ∈ sample_match → holds http_parse sample_event c)
    ∧ (OK r = true → Regex r = omap (capture_of http_parse sample_event) sample_match)
    ∧ (OK r = false → Regex r = [])
    ∧ ∀ c cap, c ∈ sample_match → capture_of http_parse sample_event c = Some cap →
        capture_ok (FieldValue http_parse sample_event (Field c)) cap.
Proof. apply validated_match; [exact plain_documented|]. vm_compute. reflexivity. Defined.
