(* ===== verification/HookPipeline.v ===== *)
(** * The hook pipeline ([internal/hook/pipeline/manager.go], [hook/share/event.go], [registration.go])

    The registry of hooks and the runs over it. A handler is a function of the
    event and the read-only policy whose outcome also says whether the context
    has ended by the time it returns, so a run is a function of its
    environment. An event carries the parts that the pipeline and the rules
    read or write; the match of its metadata map is shared by the copies of an
    event, which is why it is removed from the event before the call as well. *)
From S2P Require Import Prelude GoStr Segment HookEvent.
Open Scope Z_scope.

(** ** Events and registrations *)
Record ToolCallRequest := { tc_ID : gostring; tc_Name : gostring; tc_Arguments : gostring }.
#[export] Instance ToolCallRequest_eq_dec : EqDecision ToolCallRequest.
Proof. solve_decision. Defined.
Record Output := { o_HookPoint : gostring; o_HookName : gostring; o_HookMode : gostring; o_Body : gostring }.
Record Control := { Consume : bool; StopPropagation : bool }.
Record hookEvent := HookEvent {
  h_Point : gostring; h_Control : Control; h_Base : Event; h_ToolID : gostring; h_ToolCalls : list ToolCallRequest;
  h_Outputs : list Output; h_Match : list RegexMatch
}.
Definition set_match (e : hookEvent) (m : list RegexMatch) : hookEvent :=
  HookEvent (h_Point e) (h_Control e) (h_Base e) (h_ToolID e) (h_ToolCalls e) (h_Outputs e) m.
Definition set_outputs (e : hookEvent) (o : list Output) : hookEvent :=
  HookEvent (h_Point e) (h_Control e) (h_Base e) (h_ToolID e) (h_ToolCalls e) o (h_Match e).
Definition set_control (e : hookEvent) (c : Control) : hookEvent :=
  HookEvent (h_Point e) c (h_Base e) (h_ToolID e) (h_ToolCalls e) (h_Outputs e) (h_Match e).
Definition set_base (e : hookEvent) (b : Event) : hookEvent :=
  HookEvent (h_Point e) (h_Control e) b (h_ToolID e) (h_ToolCalls e) (h_Outputs e) (h_Match e).
Definition with_error (b : Event) (error info : option gostring) : Event :=
  {| e_Chat := e_Chat b; e_Actor := e_Actor b; e_Session := e_Session b; e_Request := e_Request b;
     e_Message := e_Message b; e_LLM := e_LLM b; e_Tool := e_Tool b; e_Error := error; e_ErrorInfo := info |}.

Definition PointPlatformMessageReceived : gostring := §"platform.message.received".
Definition PointErrorOccurred : gostring := §"error.occurred".
Definition known_points : list gostring :=
  [§"platform.connected"; PointPlatformMessageReceived; §"agent.input.prepared"; §"llm.turn.prepared";
   §"llm.request.prepared"; §"llm.response.received"; §"tool.call.prepared"; §"tool.call.completed";
   §"agent.output.prepared"; §"agent.turn.output.prepared"; §"platform.message.sent"; PointErrorOccurred].
Definition KnownPoint (p : gostring) : bool := bool_decide (p ∈ known_points).

(** [PrepareEvent]; the time and the metadata map it also fills are not part of the model. *)
Definition PrepareEvent (e : hookEvent) : hookEvent :=
  match e_ErrorInfo (h_Base e), e_Error (h_Base e) with
  | None, Some message => set_base e (with_error (h_Base e) (e_Error (h_Base e)) (Some message))
  | _, _ => e
  end.

Inductive WakeupPolicy := WakeupDefault | WakeupRequired | WakeupAny | WakeupForbidden | WakeupOther (s : gostring).
Definition WakeupPolicy_Validate `{UnicodeTables} (p : WakeupPolicy) : res unit :=
  match p with WakeupOther s => Err (§"unsupported wakeup policy " ++ quote s) | _ => Ok tt end.

(** What a call of a handler does: the event and the error it returns, and
    whether the context of the run has ended then. *)
Record outcome := Outcome { out_event : hookEvent; out_err : option gostring; out_ctx : bool }.
Abbreviation handler := (hookEvent → bool → outcome).

Record registration := Registration {
  priority : Z; order : Z; pluginID : gostring; name : gostring; description : gostring; r_match : list Condition;
  block : BlockPolicy; r_handler : handler; detail : gostring; wakeup : WakeupPolicy
}.
Record activeHook := { ah_name : gostring; ah_pluginID : gostring }.
Record Manager := { next : Z; activeID : Z; handlers : gmap gostring (list registration); active : gmap gostring activeHook }.
Definition NewManager : Manager := {| next := 0; activeID := 0; handlers := ∅; active := ∅ |}.
Definition set_handlers (m : Manager) (n : Z) (h : gmap gostring (list registration)) : Manager :=
  {| next := n; activeID := activeID m; handlers := h; active := active m |}.

(** ** Registration *)

(** [sort.SliceStable]: an element stays before another unless it is greater. *)
Definition not_after {A} (less : A → A → bool) (a b : A) : Prop := less b a = false.
#[export] Instance not_after_dec {A} (less : A → A → bool) : RelDecision (not_after less).
Proof. intros a b. unfold not_after. apply _. Defined.
Definition sort_stable {A} (less : A → A → bool) (l : list A) : list A := merge_sort (not_after less) l.

Definition register_less (left right : registration) : bool :=
  if priority left =? priority right then order left <? order right else priority left <? priority right.
(** A registration as it is passed in has no point and no order; [Register] gives it one. *)
Definition numbered (n : Z) (reg : registration) : registration :=
  Registration (priority reg) n (trim_space (pluginID reg)) (name reg) (trim_space (description reg)) (r_match reg)
               (block reg) (r_handler reg) (detail reg) (wakeup reg).
Definition Register (m : Manager) (point : gostring) (reg : registration) : Manager :=
  let n := next m + 1 in
  set_handlers m n (<[point := sort_stable register_less (default [] (handlers m !! point) ++ [numbered n reg])]> (handlers m)).

Definition Replace (m nextManager : Manager) : Manager := set_handlers m (next nextManager) (handlers nextManager).

(** The first order of each plugin of the new manager. *)
Definition note_order (o : gmap gostring Z) (reg : registration) : gmap gostring Z :=
  match o !! pluginID reg with
  | Some previous => if order reg <? previous then <[pluginID reg := order reg]> o else o
  | None => <[pluginID reg := order reg]> o
  end.
Definition plugin_orders (m : Manager) : gmap gostring Z :=
  foldl note_order ∅ (concat (map snd (map_to_list (handlers m)))).
Definition owned (p : gostring) (reg : registration) : bool := bool_decide (pluginID reg = p).
(** The loop over the handlers of a point: those kept, and where the first
    one of the plugin was. *)
Fixpoint keep_others (p : gostring) (regs : list registration) (kept : list registration) (insertAt : option nat)
  : list registration * option nat :=
  match regs with
  | [] => (kept, insertAt)
  | reg :: regs =>
    if owned p reg then keep_others p regs kept (match insertAt with None => Some (length kept) | _ => insertAt end)
    else keep_others p regs (kept ++ [reg]) insertAt
  end.
Definition insert_at {A} (i : nat) (l xs : list A) : list A := take i l ++ xs ++ drop i l.
Definition replace_less (o : gmap gostring Z) (a b : registration) : bool :=
  if priority a =? priority b then
    if negb (bool_decide (pluginID a = pluginID b)) then
      match o !! pluginID a, o !! pluginID b with
      | Some l, Some r => l <? r
      | Some _, None => true
      | None, Some _ => false
      | None, None => order a <? order b
      end
    else order a <? order b
  else priority a <? priority b.
Definition merge_point (p : gostring) (o : gmap gostring Z) (old replacements : list registration) : list registration :=
  let '(kept, insertAt) := keep_others p old [] None in
  sort_stable (replace_less o) (insert_at (default (length kept) insertAt) kept replacements).
Definition point_of (m : Manager) (point : gostring) : list registration := default [] (handlers m !! point).
Definition replace_point (p : gostring) (o : gmap gostring Z) (repl : gmap gostring (list registration)) (m : Manager)
    (point : gostring) : Manager :=
  let kept := merge_point p o (point_of m point) (default [] (repl !! point)) in
  let n := foldl (λ n reg, Z.max n (order reg)) (next m) kept in
  match kept with
  | [] => set_handlers m n (delete point (handlers m))
  | _ => set_handlers m n (<[point := kept]> (handlers m))
  end.
Definition ReplacePlugin (m : Manager) (plugin : gostring) (nextManager : Manager) : Manager :=
  let p := trim_space plugin in
  let repl := filter (λ q, q.2 ≠ []) (filter (λ reg, owned p reg = true) <$> handlers nextManager) in
  let o := plugin_orders nextManager in
  foldl (replace_point p o repl) m (elements (dom (handlers m) ∪ dom repl)).

(** ** Active executions *)
Definition startActive (m : Manager) (reg : registration) : Manager * gostring :=
  let n := activeID m + 1 in
  let id := name reg ++ §":" ++ itoa n in
  ({| next := next m; activeID := n; handlers := handlers m;
      active := <[id := {| ah_name := name reg; ah_pluginID := pluginID reg |}]> (active m) |}, id).
Definition finishActive (m : Manager) (id : gostring) : Manager :=
  {| next := next m; activeID := activeID m; handlers := handlers m; active := delete id (active m) |}.
(** The executions whose contexts [Stop] cancels. *)
Definition Stop (m : Manager) (id : gostring) : list gostring :=
  let id := trim_space id in
  if bool_decide (id = []) then []
  else map fst (map_to_list (filter (λ a, ah_name a.2 = id ∨ ah_pluginID a.2 = id) (active m))).
Definition Matches (m : Manager) (id : gostring) : bool :=
  let id := trim_space id in
  existsb (λ reg, bool_decide (name reg = id) || negb (bool_decide (pluginID reg = [])) && bool_decide (pluginID reg = id))
    (concat (map snd (map_to_list (handlers m)))).

(** ** Runs *)
Record CallOptions := { Woken : bool; ReadOnlyCalls : bool; Observe : option (gostring → option gostring) }.

Definition skipForWakeup (woken : bool) (reg : registration) : bool :=
  match wakeup reg with
  | WakeupAny => false
  | WakeupForbidden => woken
  | _ => negb woken
  end.

(** A line of the hook log: mode, point, name and error. *)
Record logged := { lg_mode : gostring; lg_point : gostring; lg_name : gostring; lg_err : option gostring }.
Definition log_of (mode : gostring) (e : hookEvent) (reg : registration) (err : option gostring) : logged :=
  {| lg_mode := mode; lg_point := h_Point e; lg_name := name reg; lg_err := err |}.

Definition fill (old new : gostring) : gostring := if bool_decide (old = []) then new else old.
Definition mark_output (point n mode : gostring) (o : Output) : Output :=
  {| o_HookPoint := fill (o_HookPoint o) point; o_HookName := fill (o_HookName o) n; o_HookMode := fill (o_HookMode o) mode;
     o_Body := o_Body o |}.
Definition markHookOutputs (e : hookEvent) (start : nat) (reg : registration) (mode : gostring) : hookEvent :=
  set_outputs e (take start (h_Outputs e) ++ map (mark_output (h_Point e) (name reg) mode) (drop start (h_Outputs e))).

(** [observe] and the handler; an error of [observe] comes before the handler.
    [ctxEnds] says whether the context has ended when [observe] fails. *)
Definition invoke (ctxEnds : bool) (reg : registration) (e : hookEvent) (options : CallOptions) : outcome :=
  match Observe options with
  | Some observe =>
    match observe (name reg) with
    | Some err => Outcome e (Some err) ctxEnds
    | None => r_handler reg e (ReadOnlyCalls options)
    end
  | None => r_handler reg e (ReadOnlyCalls options)
  end.

Section Runs.
Context `{UnicodeTables} {E : RegexEngine} (url_parse : gostring → option (gostring * gostring)).
Variable ctxEnds : bool.
Variable m : Manager.

(** Whether the registration handles the event: it is not blocked, accepts the
    wakeup state and matches; the captures of the match. *)
Definition selects (options : CallOptions) (reg : registration) (e : hookEvent) : res (option (list RegexMatch)) :=
  if Blocks (block reg) (h_Base e) then Ok None
  else if skipForWakeup (Woken options) reg then Ok None
  else
    let* r := MatchEvent url_parse (r_match reg) (h_Base e) in
    Ok (if OK r then Some (Regex r) else None).

(** The loop of [notify]; [onError] reports a failure at another point. *)
Fixpoint notify_regs (onError : hookEvent → gostring → res (list logged)) (options : CallOptions) (regs : list registration)
    (e : hookEvent) : res (option gostring * list logged) :=
  match regs with
  | [] => Ok (None, [])
  | reg :: regs =>
    let* captures := selects options reg e in
    match captures with
    | None => notify_regs onError options regs e
    | Some captures =>
      let o := invoke ctxEnds reg (set_match e captures) options in
      let e := set_match e [] in
      match out_err o with
      | Some err =>
        if out_ctx o then Ok (Some err, [])
        else
          let* more := (if bool_decide (h_Point e = PointErrorOccurred) then Ok [] else onError e err) in
          let* (r, logs) := notify_regs onError options regs e in
          Ok (r, log_of §"notify" e reg (Some err) :: more ++ logs)
      | None =>
        let* (r, logs) := (if StopPropagation (h_Control (out_event o)) then Ok (None, []) else notify_regs onError options regs e) in
        Ok (r, log_of §"notify" e reg None :: logs)
      end
    end
  end.
(** [notifyError]: the hooks of the error point, whose own failures are not
    reported again. The context is alive here and is checked for that. *)
Definition error_event (e : hookEvent) (err : gostring) : hookEvent :=
  set_base (HookEvent PointErrorOccurred (h_Control e) (h_Base e) (h_ToolID e) (h_ToolCalls e) (h_Outputs e) (h_Match e))
           (with_error (h_Base e) (Some err) None).
Definition notifyError (options : CallOptions) (e : hookEvent) (err : gostring) : res (list logged) :=
  if bool_decide (h_Point e = PointErrorOccurred) then Ok []
  else
    let* (_, logs) := notify_regs (λ _ _, Ok []) options (point_of m PointErrorOccurred) (PrepareEvent (error_event e err)) in
    Ok logs.
Definition Notify (options : CallOptions) (e : hookEvent) : res (option gostring * list logged) :=
  notify_regs (notifyError options) options (point_of m (h_Point e)) (PrepareEvent e).

Fixpoint run_regs (options : CallOptions) (regs : list registration) (e : hookEvent)
  : res (hookEvent * option gostring * list logged) :=
  match regs with
  | [] => Ok (e, None, [])
  | reg :: regs =>
    let* captures := selects options reg e in
    match captures with
    | None => run_regs options regs e
    | Some captures =>
      let o := invoke ctxEnds reg (set_match e captures) options in
      let before := set_match e [] in
      match out_err o with
      | Some err =>
        if out_ctx o then Ok (before, Some err, [])
        else
          let* more := notifyError options before err in
          let* (e', r, logs) := run_regs options regs before in
          Ok (e', r, log_of §"run" before reg (Some err) :: more ++ logs)
      | None =>
        let updated := PrepareEvent (set_match (markHookOutputs (out_event o) (length (h_Outputs before)) reg §"run") []) in
        let entry := log_of §"run" before reg None in
        if StopPropagation (h_Control updated) then Ok (updated, None, [entry])
        else
          let* (e', r, logs) := run_regs options regs updated in
          Ok (e', r, entry :: logs)
      end
    end
  end.
Definition run (options : CallOptions) (e : hookEvent) : res (hookEvent * option gostring * list logged) :=
  run_regs options (point_of m (h_Point e)) (PrepareEvent e).

(** [Run]: [route], when set, tries a continuation first. *)
Record routed := Routed { rt_event : hookEvent; rt_routed : bool; rt_err : option gostring; rt_ctx : bool }.
Definition Run (route : option (hookEvent → routed)) (options : CallOptions) (e : hookEvent)
  : res (hookEvent * option gostring * list logged) :=
  match route with
  | Some route =>
    if bool_decide (h_Point e = PointPlatformMessageReceived) then
      let r := route e in
      match rt_err r with
      | Some err =>
        if rt_ctx r then Ok (e, Some err, [])
        else
          let* more := notifyError options e err in
          if rt_routed r && StopPropagation (h_Control e) then Ok (e, None, more)
          else let* (e', x, logs) := run options e in Ok (e', x, more ++ logs)
      | None =>
        let e := rt_event r in
        if rt_routed r && StopPropagation (h_Control e) then Ok (e, None, []) else run options e
      end
    else run options e
  | None => run options e
  end.
End Runs.
