(* ===== verification/HookPipelineProps.v ===== *)
(** * The registry keeps its order, and a failing hook has no effect *)
From S2P Require Import Prelude GoStr Segment HookEvent HookProps HookPipeline.
Open Scope Z_scope.

(** ** Managers that the program builds *)

(** The managers made by registrations, as the loading of a configuration does,
    and those that come from replacing all or one plugin by such a manager. *)
Inductive registered : Manager → Prop :=
| registered_new : registered NewManager
| registered_register m point reg : registered m → registered (Register m point reg).
Inductive built : Manager → Prop :=
| built_new : built NewManager
| built_register m point reg : built m → built (Register m point reg)
| built_replace m nx : built m → registered nx → built (Replace m nx)
| built_plugin m p nx : built m → registered nx → built (ReplacePlugin m p nx).

Definition by_priority (a b : registration) : Prop := priority a ≤ priority b.
Definition before (a b : registration) : Prop := priority a < priority b ∨ priority a = priority b ∧ order a < order b.
Abbreviation of_plugin q l := (filter (λ reg, owned q reg = true) l).

Record registry_ok (m : Manager) : Prop := {
  ro_sorted : ∀ p, StronglySorted by_priority (point_of m p);
  ro_plugin : ∀ p q, StronglySorted before (of_plugin q (point_of m p));
  ro_distinct : ∀ p q, NoDup (map order (of_plugin q (point_of m p)));
  ro_bound : ∀ p reg, reg ∈ point_of m p → order reg ≤ next m
}.
Definition unique_orders (m : Manager) : Prop := ∀ p1 p2 r1 r2,
  r1 ∈ point_of m p1 → r2 ∈ point_of m p2 → order r1 = order r2 → r1 = r2.

(** ** Sorting *)
#[export] Instance by_priority_trans : Transitive by_priority.
Proof. unfold by_priority. intros a b c. lia. Qed.
#[export] Instance before_trans : Transitive before.
Proof. unfold before. intros a b c. lia. Qed.

Lemma register_less_spec a b : register_less a b = true ↔ before a b.
Proof. unfold register_less, before. destruct (Z.eqb_spec (priority a) (priority b)); rewrite Z.ltb_lt; lia. Qed.
Lemma not_after_register a b : not_after register_less a b ↔ ¬ before b a.
Proof. unfold not_after. rewrite <- not_true_iff_false, register_less_spec. done. Qed.
#[export] Instance register_total : Total (not_after register_less).
Proof. intros a b. rewrite !not_after_register. unfold before. lia. Qed.
#[export] Instance register_trans : Transitive (not_after register_less).
Proof. intros a b c. rewrite !not_after_register. unfold before. lia. Qed.

(** The order of [ReplacePlugin]: priority, plugins of the new manager by
    their first order, the others after them, then the order. *)
Section Rank.
Context (o : gmap gostring Z) (Ho : ∀ p q x, o !! p = Some x → o !! q = Some x → p = q).
Definition class (a : registration) : Z := match o !! pluginID a with Some _ => 0 | None => 1 end.
Definition first_order (a : registration) : Z := default 0 (o !! pluginID a).
Definition rank_before (a b : registration) : Prop :=
  priority a < priority b ∨ priority a = priority b ∧ (class a < class b ∨ class a = class b ∧
    (first_order a < first_order b ∨ first_order a = first_order b ∧ order a < order b)).
Lemma replace_less_spec a b : replace_less o a b = true ↔ rank_before a b.
Proof.
  unfold replace_less, rank_before, class, first_order. destruct (Z.eqb_spec (priority a) (priority b)) as [Hp|Hp].
  2:{ rewrite Z.ltb_lt. lia. }
  destruct (decide (pluginID a = pluginID b)) as [Hq|Hq].
  - rewrite bool_decide_eq_true_2 by done. simpl. rewrite Hq, Z.ltb_lt. destruct (o !! pluginID b); lia.
  - rewrite bool_decide_eq_false_2 by done. simpl.
    destruct (o !! pluginID a) as [x|] eqn:Ha, (o !! pluginID b) as [y|] eqn:Hb; simpl; try (rewrite Z.ltb_lt); try lia.
    destruct (decide (x = y)) as [->|]; [by destruct Hq; eapply Ho|]. lia.
Qed.
Lemma not_after_replace a b : not_after (replace_less o) a b ↔ ¬ rank_before b a.
Proof. unfold not_after. rewrite <- not_true_iff_false, replace_less_spec. done. Qed.
Lemma replace_total : Total (not_after (replace_less o)).
Proof. intros a b. rewrite !not_after_replace. unfold rank_before. lia. Qed.
Lemma replace_trans : Transitive (not_after (replace_less o)).
Proof. intros a b c. rewrite !not_after_replace. unfold rank_before. lia. Qed.
End Rank.

Lemma StronglySorted_mono {A} (R S : relation A) l : (∀ a b, a ∈ l → b ∈ l → R a b → S a b) → StronglySorted R l → StronglySorted S l.
Proof.
  induction l as [|x l IH]; intros Hi Hs; [constructor|]. apply StronglySorted_cons in Hs as [Hf Hs]. constructor.
  - apply IH; [|done]. intros a b Ha Hb. apply Hi; by right.
  - rewrite Forall_forall in *. intros y Hy. apply Hi; [by left|by right|by apply Hf].
Qed.
Lemma StronglySorted_filter' {A} (R : relation A) (P : A → Prop) `{∀ x, Decision (P x)} l :
  StronglySorted R l → StronglySorted R (filter P l).
Proof.
  induction l as [|x l IH]; [done|]. rewrite StronglySorted_cons. intros [Hf Hs]. rewrite filter_cons. case_decide; [|by apply IH].
  apply StronglySorted_cons. split; [|by apply IH]. rewrite Forall_forall in *. intros y [_ Hy]%list_elem_of_filter. by apply Hf.
Qed.

(** ** Registration *)
Lemma point_of_set m n h p : point_of (set_handlers m n h) p = default [] (h !! p).
Proof. done. Qed.
Lemma point_of_register m point reg p :
  point_of (Register m point reg) p = if decide (p = point)
    then sort_stable register_less (point_of m point ++ [numbered (next m + 1) reg]) else point_of m p.
Proof.
  unfold Register. rewrite point_of_set. case_decide; [subst; by rewrite lookup_insert_eq|by rewrite lookup_insert_ne].
Qed.
Lemma sort_stable_perm {A} (less : A → A → bool) l : sort_stable less l ≡ₚ l.
Proof. apply merge_sort_Permutation. Qed.
Lemma elem_of_sort {A} (less : A → A → bool) l x : x ∈ sort_stable less l ↔ x ∈ l.
Proof. by rewrite sort_stable_perm. Qed.

Lemma strict_by_order l : NoDup (map order l) → StronglySorted (λ a b, ¬ before b a) l → StronglySorted before l.
Proof.
  induction l as [|x l IH]; [intros _ _; constructor|]. simpl. rewrite NoDup_cons, !StronglySorted_cons. intros [Hx Hn] [Hf Hs].
  split; [|by apply IH]. rewrite Forall_forall in *. intros y Hy. specialize (Hf y Hy). unfold before in *.
  assert (order x ≠ order y); [|lia]. intros He. apply Hx. rewrite He. by apply list_elem_of_fmap_2.
Qed.
Lemma in_register m point reg p x : x ∈ point_of (Register m point reg) p → x = numbered (next m + 1) reg ∨ x ∈ point_of m p.
Proof.
  rewrite point_of_register. case_decide; [subst|by right].
  rewrite elem_of_sort, elem_of_app, list_elem_of_singleton. tauto.
Qed.
Lemma point_of_new p : point_of NewManager p = [].
Proof. unfold point_of. simpl. by rewrite lookup_empty. Qed.

Lemma registered_unique m : registered m → unique_orders m ∧ ∀ p reg, reg ∈ point_of m p → order reg ≤ next m.
Proof.
  induction 1 as [|m point reg _ [IHu IHb]].
  { split; [intros p1 p2 r1 r2|intros p r1]; rewrite point_of_new; by intros ?%not_elem_of_nil. }
  split.
  - intros p1 p2 r1 r2 [->|H1]%in_register [->|H2]%in_register He; [done| | |by eapply IHu].
    + apply IHb in H2. simpl in He. lia.
    + apply IHb in H1. simpl in He. lia.
  - intros p x [->|Hx]%in_register; simpl; [lia|]. apply IHb in Hx. lia.
Qed.

Lemma registry_new : registry_ok NewManager.
Proof.
  split; intros p; intros; rewrite ?point_of_new in *; try constructor. by destruct (not_elem_of_nil reg).
Qed.

(** What a sort with a total and transitive order of registrations keeps. *)
Lemma sorted_point less l n : Total (not_after less) → Transitive (not_after less) →
  (∀ a b, not_after less a b → by_priority a b ∧ (pluginID a = pluginID b → ¬ before b a)) →
  (∀ q, NoDup (map order (of_plugin q l))) → Forall (λ reg, order reg ≤ n) l →
  let l' := sort_stable less l in
  StronglySorted by_priority l' ∧ (∀ q, StronglySorted before (of_plugin q l')) ∧ (∀ q, NoDup (map order (of_plugin q l')))
  ∧ Forall (λ reg, order reg ≤ n) l'.
Proof.
  intros Ht Htr Hless Hnd Hb l'. assert (StronglySorted (not_after less) l') as Hs.
  { apply Sorted_StronglySorted, Sorted_merge_sort; done. }
  assert (∀ q, NoDup (map order (of_plugin q l'))) as Hnd'.
  { intros q. specialize (Hnd q). unfold l'. by rewrite sort_stable_perm. }
  split_and!.
  - eapply StronglySorted_mono; [|exact Hs]. intros a b _ _ Hab. by apply Hless.
  - intros q. apply strict_by_order; [done|]. eapply StronglySorted_mono; [|apply StronglySorted_filter', Hs].
    intros a b [Ha _]%list_elem_of_filter [Hb' _]%list_elem_of_filter Hab. apply (Hless a b Hab).
    unfold owned in *. apply bool_decide_eq_true in Ha, Hb'. congruence.
  - done.
  - rewrite Forall_forall in *. intros x Hx%elem_of_sort. by apply Hb.
Qed.

Lemma registry_register m point reg : registry_ok m → registry_ok (Register m point reg).
Proof.
  intros [Hs Hp Hd Hb]. set (r := numbered (next m + 1) reg).
  destruct (sorted_point register_less (point_of m point ++ [r]) (next m + 1)) as (H1 & H2 & H3 & H4).
  { apply _. } { apply _. }
  { intros a b. rewrite not_after_register. unfold by_priority, before. intros ?. split; [lia|]. intros _. lia. }
  { intros q. rewrite filter_app, map_app. apply NoDup_app. split_and!; [done| |].
    - intros x (y & -> & [_ Hy]%list_elem_of_filter)%list_elem_of_fmap (z & He & Hz)%list_elem_of_fmap.
      apply list_elem_of_filter in Hz as [_ ->%list_elem_of_singleton]. apply Hb in Hy. simpl in He. lia.
    - rewrite filter_cons, filter_nil. case_decide; simpl; [apply NoDup_singleton|constructor]. }
  { apply Forall_app. split; [|by repeat constructor]. apply Forall_forall. intros x Hx. apply Hb in Hx. lia. }
  split; [intros p|intros p q|intros p q|intros p x]; rewrite point_of_register; case_decide; subst; try done.
  - rewrite Forall_forall in H4. by intros Hx%H4.
  - intros Hx%Hb. simpl. lia.
Qed.
Lemma registered_ok m : registered m → registry_ok m.
Proof. induction 1; [apply registry_new|by apply registry_register]. Qed.

(** ** Replacing a plugin *)
Lemma note_order_in l : ∀ o q x, foldl note_order o l !! q = Some x → o !! q = Some x ∨ ∃ r, r ∈ l ∧ pluginID r = q ∧ order r = x.
Proof.
  induction l as [|r l IH]; intros o q x; simpl; [by left|]. intros [Ho|(y & Hy & ?)]%IH; [|right; exists y; split; [by right|done]].
  assert (o !! q = Some x ∨ pluginID r = q ∧ order r = x) as [?|?]; [|by left|right; exists r; split; [by left|done]].
  unfold note_order in Ho. destruct (o !! pluginID r) as [p|]; [case_match|].
  1,3: destruct (decide (q = pluginID r)) as [->|]; [rewrite lookup_insert_eq in Ho; injection Ho; by right|rewrite lookup_insert_ne in Ho by done; by left].
  by left.
Qed.
Lemma all_registrations m r : r ∈ concat (map snd (map_to_list (handlers m))) → ∃ p, r ∈ point_of m p.
Proof.
  rewrite list_elem_of_In, in_concat. intros (l & Hl & Hr). apply list_elem_of_In in Hl, Hr.
  apply list_elem_of_fmap in Hl as ([p l'] & -> & Hp). simpl in Hr.
  apply elem_of_map_to_list in Hp. exists p. unfold point_of. by rewrite Hp.
Qed.
Lemma plugin_orders_inj m : unique_orders m → ∀ p q x, plugin_orders m !! p = Some x → plugin_orders m !! q = Some x → p = q.
Proof.
  intros Hu p q x [Hp|(r1 & H1 & <- & Ho1)]%note_order_in [Hq|(r2 & H2 & <- & Ho2)]%note_order_in;
    [by rewrite lookup_empty in Hp|by rewrite lookup_empty in Hp|by rewrite lookup_empty in Hq|].
  destruct (all_registrations _ _ H1) as [p1 ?], (all_registrations _ _ H2) as [p2 ?]. f_equal. eapply Hu; [done|done|congruence].
Qed.

Lemma keep_others_spec p regs : ∀ kept i, (match i with Some i => (i ≤ length kept)%nat | None => True end) →
  ∃ j, keep_others p regs kept i = (kept ++ filter (λ reg, owned p reg = false) regs, j)
    ∧ match j with Some j => (j ≤ length (kept ++ filter (λ reg, owned p reg = false) regs))%nat | None => True end.
Proof.
  induction regs as [|reg regs IH]; intros kept i Hi; simpl; [exists i; by rewrite app_nil_r|].
  rewrite filter_cons. destruct (owned p reg) eqn:Ho.
  - rewrite decide_False by done. apply IH. by destruct i.
  - rewrite decide_True by done. destruct (IH (kept ++ [reg]) i) as (j & -> & Hj).
    + destruct i; [rewrite length_app; lia|done].
    + exists j. rewrite <- !app_assoc in *. done.
Qed.
Lemma insert_at_perm {A} i (l xs : list A) : insert_at i l xs ≡ₚ l ++ xs.
Proof. unfold insert_at. rewrite (Permutation_app_comm xs), app_assoc, take_drop. done. Qed.
Abbreviation of_others p l := (filter (λ reg, owned p reg = false) l).
Lemma merge_point_perm p o old repl : merge_point p o old repl ≡ₚ of_others p old ++ repl.
Proof.
  unfold merge_point. destruct (keep_others_spec p old [] None I) as (j & -> & _). simpl.
  by rewrite sort_stable_perm, insert_at_perm.
Qed.

Lemma max_orders l : ∀ n, let n' := foldl (λ n reg, Z.max n (order reg)) n l in n ≤ n' ∧ Forall (λ reg, order reg ≤ n') l.
Proof.
  induction l as [|r l IH]; intros n; simpl; [split; [lia|constructor]|]. destruct (IH (Z.max n (order r))) as [H1 H2].
  split; [lia|]. constructor; [lia|done].
Qed.
Lemma replace_point_spec p o repl m x :
  next m ≤ next (replace_point p o repl m x)
  ∧ (∀ y, point_of (replace_point p o repl m x) y =
       if decide (y = x) then merge_point p o (point_of m x) (default [] (repl !! x)) else point_of m y)
  ∧ Forall (λ reg, order reg ≤ next (replace_point p o repl m x)) (point_of (replace_point p o repl m x) x).
Proof.
  unfold replace_point. set (kept := merge_point _ _ _ _). destruct (max_orders kept (next m)) as [Hn Hk].
  assert (∀ h y, h = (match kept with [] => delete x (handlers m) | _ => <[x := kept]> (handlers m) end) →
          default [] (h !! y) = if decide (y = x) then kept else point_of m y) as Hpt.
  { intros h y ->. case_decide; [subst y|].
    - destruct kept; [by rewrite lookup_delete_eq|by rewrite lookup_insert_eq].
    - destruct kept; [by rewrite lookup_delete_ne|by rewrite lookup_insert_ne]. }
  destruct kept as [|x0 kept0] eqn:Hkept; cbn [next set_handlers];
    (split; [done|split; [intros y; rewrite point_of_set; by apply Hpt|rewrite point_of_set, Hpt, decide_True by done; done]]).
Qed.
Lemma replace_points_spec p o repl xs : ∀ m, NoDup xs →
  let r := foldl (replace_point p o repl) m xs in
  next m ≤ next r
  ∧ ∀ y, (point_of r y = if decide (y ∈ xs) then merge_point p o (point_of m y) (default [] (repl !! y)) else point_of m y)
    ∧ (y ∈ xs → Forall (λ reg, order reg ≤ next r) (point_of r y)).
Proof.
  induction xs as [|x xs IH]; intros m Hn r; unfold r; cbn [foldl].
  { split; [done|]. intros y. split; [by rewrite decide_False by apply not_elem_of_nil|by intros ?%not_elem_of_nil]. }
  apply NoDup_cons in Hn as [Hx Hn]. destruct (replace_point_spec p o repl m x) as (H1 & H2 & H3).
  destruct (IH (replace_point p o repl m x) Hn) as [H4 H5]. split; [lia|]. intros y. destruct (H5 y) as [Hy Hb]. rewrite Hy, !H2.
  destruct (decide (y = x)) as [->|Hne].
  - rewrite (decide_False (P := x ∈ xs)), (decide_True (P := x ∈ x :: xs)) by (done || by left). split; [done|]. intros _.
    rewrite H2, decide_True in H3 by done. eapply Forall_impl; [exact H3|]. simpl. intros reg Hr. lia.
  - destruct (decide (y ∈ xs)) as [Hin|Hin].
    + rewrite (decide_True (P := y ∈ x :: xs)) by (by right). split; [done|]. intros _.
      specialize (Hb Hin). by rewrite Hy, H2, (decide_False (P := y = x)) in Hb.
    + rewrite (decide_False (P := y ∈ x :: xs)) by (by intros [?|?]%elem_of_cons). split; [done|].
      by intros [?|?]%elem_of_cons.
Qed.

Ltac filter_by_owner :=
  match goal with |- context [filter _ ?l] => induction l as [|x l IH]; [by repeat case_decide|] end;
  rewrite !filter_cons; unfold owned in *; repeat case_decide; rewrite ?filter_cons;
  repeat case_decide; simplify_eq; rewrite ?bool_decide_eq_true, ?bool_decide_eq_false in *; try congruence.
Lemma of_plugin_twice q p (l : list registration) : of_plugin q (of_plugin p l) = if decide (q = p) then of_plugin p l else [].
Proof. filter_by_owner. Qed.
Lemma of_plugin_others q p (l : list registration) : of_plugin q (of_others p l) = if decide (q = p) then [] else of_plugin q l.
Proof. filter_by_owner. Qed.
Lemma of_others_twice p (l : list registration) : of_others p (of_others p l) = of_others p l.
Proof. filter_by_owner. Qed.
Lemma of_others_plugin p (l : list registration) : of_others p (of_plugin p l) = [].
Proof. filter_by_owner. Qed.

Section Plugin.
Context (m nx : Manager) (plugin : gostring).
Let p := trim_space plugin.
Let o := plugin_orders nx.
Let r := ReplacePlugin m plugin nx.

Lemma ReplacePlugin_point y : point_of r y = merge_point p o (point_of m y) (of_plugin p (point_of nx y)).
Proof.
  unfold r, ReplacePlugin. fold p. set (repl := filter _ _). fold o.
  destruct (replace_points_spec p o repl (elements (dom (handlers m) ∪ dom repl)) m (NoDup_elements _)) as [_ Hy].
  destruct (Hy y) as [-> _]. assert (default [] (repl !! y) = of_plugin p (point_of nx y)) as Hr.
  { unfold repl, point_of. rewrite map_lookup_filter, lookup_fmap. destruct (handlers nx !! y) as [l|]; simpl; [|done].
    case_guard as Hg; simpl in *; [done|by rewrite Hg]. }
  rewrite Hr. case_decide as Hin; [done|]. symmetry.
  rewrite elem_of_elements, not_elem_of_union, !not_elem_of_dom in Hin. destruct Hin as [Hm Hrepl].
  assert (point_of m y = []) as -> by (unfold point_of; by rewrite Hm).
  rewrite Hrepl in Hr. simpl in Hr. rewrite <- Hr. apply Permutation_nil. by rewrite merge_point_perm.
Qed.
Lemma ReplacePlugin_next : registry_ok m → next m ≤ next r ∧ ∀ y reg, reg ∈ point_of r y → order reg ≤ next r.
Proof.
  intros Hm. unfold r, ReplacePlugin. fold p. set (repl := filter _ _). fold o.
  destruct (replace_points_spec p o repl (elements (dom (handlers m) ∪ dom repl)) m (NoDup_elements _)) as [Hn Hy].
  split; [done|]. intros y reg Hr. destruct (Hy y) as [He Hb]. destruct (decide (y ∈ elements (dom (handlers m) ∪ dom repl))) as [Hin|Hin].
  - specialize (Hb Hin). rewrite Forall_forall in Hb. by apply Hb.
  - rewrite He in Hr. apply (ro_bound m Hm) in Hr. simpl. lia.
Qed.

Lemma of_plugin_merge q y : of_plugin q (point_of r y) ≡ₚ if decide (q = p) then of_plugin p (point_of nx y) else of_plugin q (point_of m y).
Proof.
  rewrite ReplacePlugin_point, merge_point_perm, filter_app, of_plugin_others, of_plugin_twice. case_decide; [done|].
  by rewrite app_nil_r.
Qed.
Lemma of_others_merge y : of_others p (point_of r y) ≡ₚ of_others p (point_of m y).
Proof.
  rewrite ReplacePlugin_point, merge_point_perm, filter_app, of_others_twice, of_others_plugin. by rewrite app_nil_r.
Qed.

Lemma registry_plugin : registry_ok m → registered nx → registry_ok r.
Proof.
  intros Hm Hn. destruct (registered_unique nx Hn) as [Hu _]. pose proof (plugin_orders_inj nx Hu) as Hinj. fold o in Hinj.
  destruct (ReplacePlugin_next Hm) as [_ Hb]. pose proof (registered_ok nx Hn) as Hnx.
  assert (∀ y q, NoDup (map order (of_plugin q (point_of r y)))) as Hnd.
  { intros y q. rewrite of_plugin_merge. case_decide; apply ro_distinct; done. }
  assert (∀ y, ∃ l, point_of r y = sort_stable (replace_less o) l) as Hsort.
  { intros y. rewrite ReplacePlugin_point. unfold merge_point. destruct (keep_others _ _ _ _). eauto. }
  assert (∀ y, StronglySorted by_priority (point_of r y) ∧ ∀ q, StronglySorted before (of_plugin q (point_of r y))) as Hs.
  { intros y. destruct (Hsort y) as [l Hl].
    destruct (sorted_point (replace_less o) l (next r)) as (H1 & H2 & _).
    - by apply replace_total.
    - by apply replace_trans.
    - intros a b. rewrite not_after_replace by done. unfold rank_before, by_priority, before, class, first_order. intros Hr.
      split; [lia|]. intros He. rewrite He in Hr. lia.
    - intros q. specialize (Hnd y q). rewrite Hl in Hnd. by rewrite sort_stable_perm in Hnd.
    - apply Forall_forall. intros x Hx. apply (Hb y). rewrite Hl. by apply elem_of_sort.
    - rewrite Hl. done. }
  split; [apply Hs|apply Hs|done|done].
Qed.
End Plugin.

Lemma built_ok m : built m → registry_ok m.
Proof.
  induction 1; [apply registry_new|by apply registry_register| |by apply registry_plugin].
  destruct (registered_ok nx) as [H1 H2 H3 H4]; [done|]. by split.
Qed.

(** In every manager the program builds, the hooks of a point are in order
    of priority and those of one plugin also in registration order. Replacing
    a plugin from a freshly loaded manager gives the plugin exactly the hooks
    it has there, in the same order, and keeps the hooks of every other
    plugin; a hook registered later still comes after all of them. *)
Lemma plugin_replaced m plugin nx point : built m → registered nx →
  let p := trim_space plugin in let r := ReplacePlugin m plugin nx in
  of_plugin p (point_of r point) = of_plugin p (point_of nx point)
  ∧ of_others p (point_of r point) ≡ₚ of_others p (point_of m point)
  ∧ StronglySorted by_priority (point_of r point)
  ∧ (∀ q, StronglySorted before (of_plugin q (point_of r point)))
  ∧ ∀ reg, reg ∈ point_of r point → order reg < order (numbered (next r + 1) reg).
Proof.
  intros Hm Hn p r. pose proof (registry_plugin m nx plugin (built_ok m Hm) Hn) as [Hs Hp Hd Hb]. split_and!.
  - apply (StronglySorted_unique_strong before).
    + intros a b _ _. unfold before. lia.
    + apply Hp.
    + apply ro_plugin, registered_ok, Hn.
    + unfold r. rewrite of_plugin_merge. by rewrite decide_True.
  - apply of_others_merge.
  - apply Hs.
  - apply Hp.
  - intros reg Hr%Hb. simpl. fold r in Hr. lia.
Qed.

(** ** Runs *)
Section Failing.
Context `{UnicodeTables} {E : RegexEngine} (url_parse : gostring → option (gostring * gostring)).
Context (Hregex : regex_documented) (ctxEnds : bool).

Definition valid_hook (reg : registration) : Prop := Validate (r_match reg) = Ok tt.
Definition validated (m : Manager) : Prop := ∀ p, Forall valid_hook (point_of m p).

Lemma selects_total options reg e : valid_hook reg → ∃ o, selects url_parse options reg e = Ok o.
Proof.
  intros Hv. unfold selects. case_match; [eauto|]. case_match; [eauto|]. unfold MatchEvent.
  assert (Forall (λ c, condition_validate c = Ok tt) (r_match reg)) as Hall.
  { unfold valid_hook in Hv. destruct (r_match reg) as [|c cs]; [done|]. by eapply validate_from_ok. }
  destruct (match_from_ok url_parse Hregex (h_Base e) (r_match reg) Hall []) as (r & -> & _). simpl. eauto.
Qed.
Lemma notify_total onError options regs : (∀ e err, ∃ logs, onError e err = Ok logs) → Forall valid_hook regs →
  ∀ e, ∃ o, notify_regs url_parse ctxEnds onError options regs e = Ok o.
Proof.
  intros Hon. induction 1 as [|reg regs Hv _ IH]; intros e; simpl; [eauto|].
  destruct (selects_total options reg e Hv) as [[captures|] ->]; simpl; [|apply IH].
  destruct (out_err _) as [err|].
  - case_match; [eauto|]. set (e0 := set_match e []). destruct (IH e0) as [[r logs] Hr].
    assert (∃ more, (if bool_decide (h_Point e = PointErrorOccurred) then Ok [] else onError e0 err) = Ok more) as [more ->].
    { case_bool_decide; [eauto|apply Hon]. }
    simpl. rewrite Hr. simpl. eauto.
  - case_match; simpl; [eauto|]. destruct (IH (set_match e [])) as [[r logs] ->]. simpl. eauto.
Qed.
Lemma notifyError_total m options e err : validated m → ∃ logs, notifyError url_parse ctxEnds m options e err = Ok logs.
Proof.
  intros Hm. unfold notifyError. case_bool_decide; [eauto|].
  destruct (notify_total (λ _ _, Ok []) options (point_of m PointErrorOccurred)) with (e := PrepareEvent (error_event e err))
    as [[r logs] ->]; [eauto|apply Hm|]. simpl. eauto.
Qed.

(** Two runs that end in the same event and error; their logs may differ. *)
Definition same_result {A B C} (x y : res (A * B * C)) : Prop := ∃ a b l l', x = Ok (a, b, l) ∧ y = Ok (a, b, l').
Lemma run_regs_same m1 m2 options regs : validated m1 → validated m2 → Forall valid_hook regs → ∀ e,
  same_result (run_regs url_parse ctxEnds m1 options regs e) (run_regs url_parse ctxEnds m2 options regs e).
Proof.
  intros H1 H2. induction 1 as [|reg regs Hv _ IH]; intros e; simpl; [by eexists _, _, _, _|].
  destruct (selects_total options reg e Hv) as [[captures|] ->]; simpl; [|apply IH].
  set (out := invoke _ _ _ _). destruct (out_err out) as [err|].
  - case_match; [by eexists _, _, _, _|].
    destruct (notifyError_total m1 options (set_match e []) err H1) as [logs1 ->].
    destruct (notifyError_total m2 options (set_match e []) err H2) as [logs2 ->]. simpl.
    destruct (IH (set_match e [])) as (a & b & l & l' & -> & ->). simpl. by eexists _, _, _, _.
  - case_match; [by eexists _, _, _, _|].
    edestruct IH as (a & b & l & l' & -> & ->). simpl. by eexists _, _, _, _.
Qed.

Definition always_fails (options : CallOptions) (reg : registration) : Prop :=
  ∀ e, out_err (invoke ctxEnds reg e options) ≠ None ∧ out_ctx (invoke ctxEnds reg e options) = false.
Lemma match_cleared e : h_Match (PrepareEvent e) = h_Match e.
Proof. unfold PrepareEvent. by repeat case_match. Qed.
Lemma set_match_id e : h_Match e = [] → set_match e [] = e.
Proof. destruct e. simpl. by intros ->. Qed.
Lemma run_regs_skip m options l1 bad l2 : validated m → Forall valid_hook (l1 ++ bad :: l2) → always_fails options bad →
  ∀ e, h_Match e = [] →
  same_result (run_regs url_parse ctxEnds m options (l1 ++ bad :: l2) e) (run_regs url_parse ctxEnds m options (l1 ++ l2) e).
Proof.
  intros Hm Hv Hbad. induction l1 as [|reg l1 IH]; intros e He; simpl in *; apply Forall_cons in Hv as [Hreg Hv].
  - destruct (run_regs_same m m options l2 Hm Hm Hv e) as (a & b & l & l' & Hr & _).
    destruct (selects_total options bad e Hreg) as [[captures|] ->]; simpl; [|by rewrite Hr; eexists _, _, _, _].
    destruct (Hbad (set_match e captures)) as [Hf Hc]. rewrite Hc, set_match_id by done.
    destruct (out_err _) as [err|]; [|done]. destruct (notifyError_total m options e err Hm) as [logs ->]. simpl.
    rewrite Hr. simpl. by eexists _, _, _, _.
  - destruct (selects_total options reg e Hreg) as [[captures|] ->]; simpl; [|by apply IH].
    set (out := invoke _ _ _ _). destruct (out_err out) as [err|].
    + case_match; [by eexists _, _, _, _|].
      destruct (notifyError_total m options (set_match e []) err Hm) as [logs ->]. simpl.
      destruct (IH Hv (set_match e [])) as (a & b & l & l' & -> & ->); [done|]. simpl. by eexists _, _, _, _.
    + case_match; [by eexists _, _, _, _|].
      edestruct (IH Hv) as (a & b & l & l' & -> & ->); [|simpl; by eexists _, _, _, _]. by rewrite match_cleared.
Qed.

(** C34: A hook that always fails has no effect on a run: with its conditions
    valid and the context alive, a run through a registry with it ends in the
    same event and error as the run without it. *)
Theorem failing_hook_isolated m options e l1 bad l2 :
  validated m → h_Match e = [] → point_of m (h_Point e) = l1 ++ bad :: l2 → always_fails options bad →
  let m' := set_handlers m (next m) (<[h_Point e := l1 ++ l2]> (handlers m)) in
  ∃ e' r logs logs', run url_parse ctxEnds m options e = Ok (e', r, logs) ∧ run url_parse ctxEnds m' options e = Ok (e', r, logs').
Proof.
  intros Hm He Hp Hbad m'. pose proof (Hm (h_Point e)) as Hv. rewrite Hp in Hv.
  assert (Forall valid_hook (l1 ++ l2)) as Hv'.
  { apply Forall_app in Hv as [? [??]%Forall_cons]. by apply Forall_app. }
  assert (point_of m' (h_Point e) = l1 ++ l2) as Hp' by (unfold m'; by rewrite point_of_set, lookup_insert_eq).
  assert (validated m') as Hm'.
  { intros p. destruct (decide (p = h_Point e)) as [->|Hne]; [by rewrite Hp'|]. unfold m'. rewrite point_of_set, lookup_insert_ne by done.
    apply Hm. }
  unfold run. rewrite Hp, Hp'.
  destruct (run_regs_skip m options l1 bad l2 Hm Hv Hbad (PrepareEvent e)) as (a & b & l & l' & -> & Hr); [by rewrite match_cleared|].
  destruct (run_regs_same m m' options (l1 ++ l2) Hm Hm' Hv' (PrepareEvent e)) as (a' & b' & k & k' & Hr' & ->).
  rewrite Hr in Hr'. simplify_eq. by eexists _, _, _, _.
Qed.
End Failing.

(** ** The properties at concrete registries *)
#[local] Existing Instance ascii_tables.
#[local] Existing Instance plain_engine.
Definition no_block : BlockPolicy := {| platforms := ∅; groups := ∅; users := ∅ |}.
Definition always : list Condition := [{| Field := []; Op := §"always"; Value := [] |}].
Definition hook (p : Z) (plugin n : gostring) (h : handler) : registration :=
  Registration p 0 plugin n [] always no_block h [] WakeupAny.
Definition says (body : gostring) : handler := λ e _,
  Outcome (set_outputs e (h_Outputs e ++ [{| o_HookPoint := []; o_HookName := []; o_HookMode := []; o_Body := body |}])) None false.
Definition breaks : handler := λ e _, Outcome (set_outputs e []) (Some §"exit status 1") false.
Definition sample_hook_event : hookEvent :=
  HookEvent §"agent.input.prepared" {| Consume := false; StopPropagation := false |} sample_event [] [] [] [].
Definition point : gostring := §"agent.input.prepared".
Definition sample_manager : Manager :=
  Register (Register (Register NewManager point (hook 5 §"b" §"last" (says §"two"))) point (hook 1 §"a" §"broken" breaks))
           point (hook 1 §"b" §"first" (says §"one")).

Lemma failing_hook_isolated_witness : ∃ e' r logs logs',
  let options := {| Woken := true; ReadOnlyCalls := false; Observe := None |} in
  run http_parse false sample_manager options sample_hook_event = Ok (e', r, logs)
  ∧ run http_parse false (set_handlers sample_manager 3 (<[point := tail (point_of sample_manager point)]> (handlers sample_manager)))
        options sample_hook_event = Ok (e', r, logs').
Proof.
  apply (failing_hook_isolated http_parse plain_documented false sample_manager _ sample_hook_event []
           (hd (hook 0 [] [] breaks) (point_of sample_manager point)) (tail (point_of sample_manager point))); [|done|by vm_compute|done].
  intros p. apply Forall_forall. intros reg Hr. unfold sample_manager in Hr.
  do 3 (apply in_register in Hr as [->|Hr]; [by vm_compute|]). rewrite point_of_new in Hr. by apply not_elem_of_nil in Hr.
Defined.
Lemma plugin_replaced_witness :
  let nx := Register (Register NewManager point (hook 1 §"b" §"new" (says §"three"))) point (hook 0 §"c" §"other" breaks) in
  map name (point_of (ReplacePlugin sample_manager §" b " nx) point) = [§"new"; §"broken"]
  ∧ of_plugin §"b" (point_of (ReplacePlugin sample_manager §" b " nx) point) = of_plugin §"b" (point_of nx point).
Proof.
  intros nx. split; [by vm_compute|].
  apply (plugin_replaced sample_manager §" b " nx point); [repeat constructor|repeat constructor].
Defined.
