(* ===== verification/HookRules.v ===== *)
(** * Hook rules ([internal/hook/rules/rule.go], [action.go], [rules.go], parts of [config.go], [exec.go] and [runtime/worker.go])

    Loading and validating rules, rendering templates, the actions of a rule
    and the handler it is registered with. The world outside the rule is an
    [answers] record: what a plugin process or a worker replies, the result of
    a tool, the outputs and segments built from files. Go ranges over a map in
    an arbitrary order, so the replacements of a template come in an order
    that is an argument. *)
From S2P Require Import Prelude GoStr Segment HookEvent HookPipeline.
Open Scope Z_scope.

(** ** Rules *)
Record Action := {
  ActionName : gostring; a_Type : gostring; a_Field : gostring; a_Text : gostring; Pattern : gostring; a_Replace : gostring;
  Timing : gostring; Tool : gostring; Arguments : gostring; All : bool; Command : list gostring; TimeoutSeconds : Z
}.
Definition set_type (a : Action) (type : gostring) : Action :=
  {| ActionName := []; a_Type := type; a_Field := a_Field a; a_Text := a_Text a; Pattern := Pattern a; a_Replace := a_Replace a;
     Timing := Timing a; Tool := Tool a; Arguments := Arguments a; All := All a; Command := Command a;
     TimeoutSeconds := TimeoutSeconds a |}.
Record ruleSource := {
  PluginName : gostring; PluginDescription : gostring; OriginalName : gostring; FinalName : gostring; RuntimeID : gostring;
  s_Block : BlockPolicy
}.
(** The fields of a quick rule's only action are those of [Inline]. *)
Record Rule := {
  u_Name : gostring; u_Description : gostring; On : gostring; u_Priority : Z; Enabled : option bool; Wakeup : WakeupPolicy;
  If : gostring; u_Op : gostring; u_Value : gostring; Always : bool; u_Match : list Condition;
  Roles : list gostring; ActorRoles : list gostring; GroupRoles : list gostring;
  u_Action : gostring; Inline : Action; Actions : list Action; u_Consume : bool; u_Stop : bool; source : ruleSource
}.
Definition set_conditions (r : Rule) (m : list Condition) (a : list Action) : Rule :=
  {| u_Name := u_Name r; u_Description := u_Description r; On := On r; u_Priority := u_Priority r; Enabled := Enabled r; Wakeup := Wakeup r;
     If := If r; u_Op := u_Op r; u_Value := u_Value r; Always := Always r; u_Match := m; Roles := Roles r; ActorRoles := ActorRoles r;
     GroupRoles := GroupRoles r; u_Action := u_Action r; Inline := Inline r; Actions := a; u_Consume := u_Consume r;
     u_Stop := u_Stop r; source := source r |}.
Definition set_roles (r : Rule) (roles actorRoles groupRoles : list gostring) : Rule :=
  {| u_Name := u_Name r; u_Description := u_Description r; On := On r; u_Priority := u_Priority r; Enabled := Enabled r; Wakeup := Wakeup r;
     If := If r; u_Op := u_Op r; u_Value := u_Value r; Always := Always r; u_Match := u_Match r; Roles := roles; ActorRoles := actorRoles;
     GroupRoles := groupRoles; u_Action := u_Action r; Inline := Inline r; Actions := Actions r; u_Consume := u_Consume r;
     u_Stop := u_Stop r; source := source r |}.
Definition set_names (r : Rule) (n original final : gostring) : Rule :=
  {| u_Name := n; u_Description := u_Description r; On := On r; u_Priority := u_Priority r; Enabled := Enabled r; Wakeup := Wakeup r;
     If := If r; u_Op := u_Op r; u_Value := u_Value r; Always := Always r; u_Match := u_Match r; Roles := Roles r; ActorRoles := ActorRoles r;
     GroupRoles := GroupRoles r; u_Action := u_Action r; Inline := Inline r; Actions := Actions r; u_Consume := u_Consume r;
     u_Stop := u_Stop r;
     source := {| PluginName := PluginName (source r); PluginDescription := PluginDescription (source r); OriginalName := original;
                  FinalName := final; RuntimeID := RuntimeID (source r); s_Block := s_Block (source r) |} |}.

Definition blank_string (s : gostring) : bool := bool_decide (trim_space s = []).
Definition conditions (r : Rule) : res (list Condition) :=
  let flat := negb (blank_string (If r)) || negb (blank_string (u_Op r)) || negb (bool_decide (u_Value r = [])) in
  let matches := negb (bool_decide (length (u_Match r) = 0%nat)) in
  if Always r then
    if flat || matches then Err §"always cannot be combined with if/op/value or match"
    else Ok [{| Field := []; Op := §"always"; Value := [] |}]
  else if flat && matches then Err §"if/op/value cannot be combined with match"
  else if flat then Ok [{| Field := If r; Op := u_Op r; Value := u_Value r |}]
  else Ok (u_Match r).
Definition inlineAction (r : Rule) : Action := set_type (Inline r) (u_Action r).
Definition normalize (r : Rule) : res Rule :=
  let* m := conditions r in
  if blank_string (u_Action r) then Ok (set_conditions r m (Actions r))
  else if negb (bool_decide (length (Actions r) = 0%nat)) then Err §"action cannot be combined with actions"
  else Ok (set_conditions r m [inlineAction r]).
Definition enabled (r : Rule) : bool := match Enabled r with None => true | Some b => b end.

(** ** Validation *)
Fixpoint check_roles (known : list gostring) (prefix : gostring) (roles : list gostring) `{UnicodeTables} : res (list gostring) :=
  match roles with
  | [] => Ok []
  | role :: roles =>
    let role := trim_space role in
    if bool_decide (role ∈ known) then let* rest := check_roles known prefix roles in Ok (role :: rest)
    else Err (prefix ++ quote role)
  end.
Definition actor_roles : list gostring := [§"superadmin"; §"user"].
Definition group_roles : list gostring := [§"owner"; §"admin"; §"member"; §"unknown"].
Section Loading.
Context `{UnicodeTables} {E : RegexEngine}.

Definition normalizeRoles (r : Rule) : res Rule :=
  let* roles := check_roles (actor_roles ++ group_roles) §"unsupported role " (Roles r) in
  let* actors := check_roles actor_roles §"unsupported actor role " (ActorRoles r) in
  let* groups := check_roles group_roles §"unsupported group role " (GroupRoles r) in
  Ok (set_roles r roles actors groups).

Definition validateExecAction (a : Action) : res unit :=
  if match Command a with [] => true | c :: _ => blank_string c end then Err §"command is required"
  else if TimeoutSeconds a <? 0 then Err §"timeout_seconds cannot be negative" else Ok tt.
Definition ValidateDeliveryTiming (timing : gostring) : res unit :=
  if bool_decide (trim_space timing ∈ [[]; §"immediate"; §"after_assistant"]) then Ok tt
  else Err (§"unsupported timing " ++ quote timing).
Definition firstNonEmpty (a b : gostring) : gostring := if bool_decide (a = []) then b else a.
Definition in_rule (r : Rule) (e : gostring) : gostring := §"hook rule " ++ quote (u_Name r) ++ e.
Fixpoint validate_actions (r : Rule) (actions : list Action) : res unit :=
  match actions with
  | [] => Ok tt
  | a :: actions =>
    let label := in_rule r (§" action " ++ quote (firstNonEmpty (ActionName a) (a_Type a)) ++ §": ") in
    if blank_string (a_Type a) then Err (in_rule r §" has action without type")
    else
      let* _ := res_wrap label (ValidateDeliveryTiming (Timing a)) in
      let* _ := (if bool_decide (trim_space (a_Type a) = §"exec") then res_wrap label (validateExecAction a) else Ok tt) in
      validate_actions r actions
  end.
Definition validateRule (r : Rule) : res Rule :=
  if blank_string (On r) then Err (in_rule r §" missing on")
  else if negb (KnownPoint (On r)) then Err (in_rule r (§" unknown hook point " ++ quote (On r)))
  else
    let worker := negb (bool_decide (RuntimeID (source r) = [])) in
    if worker && negb (bool_decide (length (Actions r) = 0%nat))
    then Err (§"worker " ++ in_rule r §" only declares event triggers and cannot set actions")
    else if negb worker && bool_decide (length (Actions r) = 0%nat) then Err (in_rule r §" has no actions")
    else if bool_decide (length (u_Match r) = 0%nat) then Err (in_rule r §" missing match")
    else
      let* _ := res_wrap (in_rule r §" matches: ") (Validate (u_Match r)) in
      let* r := res_wrap (in_rule r §": ") (normalizeRoles r) in
      let* _ := res_wrap (in_rule r §": ") (WakeupPolicy_Validate (Wakeup r)) in
      let* _ := validate_actions r (Actions r) in
      Ok r.

(** [normalizeLoadedRules] and [validateLoadedRules], with the index of the rule. *)
Fixpoint normalizeLoadedRules (i : Z) (rules : list Rule) : res (list Rule) :=
  match rules with
  | [] => Ok []
  | r :: rules =>
    let* r := res_wrap (§"rule " ++ itoa (i + 1) ++ §": ") (normalize r) in
    let original := if blank_string (u_Name r) then §"rule." ++ itoa (i + 1) else trim_space (u_Name r) in
    let r := set_names r (if blank_string (u_Name r) then original else u_Name r) original (FinalName (source r)) in
    let* rules := normalizeLoadedRules (i + 1) rules in Ok (r :: rules)
  end.
Fixpoint validateLoadedRules (i : Z) (rules : list Rule) : res (list Rule) :=
  match rules with
  | [] => Ok []
  | r :: rules =>
    let* r := res_wrap (§"rule " ++ itoa (i + 1) ++ §": ") (validateRule r) in
    let* rules := validateLoadedRules (i + 1) rules in Ok (r :: rules)
  end.
(** The loop of [loadConfig] that gives every rule its final name. *)
Fixpoint final_names (seen : gmap gostring Z) (rules : list Rule) : list Rule :=
  match rules with
  | [] => []
  | r :: rules =>
    let original := OriginalName (source r) in
    let count := default 0 (seen !! original) in
    let final := if 0 <? count then original ++ §"." ++ itoa count else original in
    set_names r (u_Name r) original final :: final_names (<[original := count + 1]> seen) rules
  end.

(** A referenced plugin whose files, environment and block lists could be read:
    its worker's identifier, empty for a plugin without a worker, and its rules. *)
Record pluginConfig := { pc_Source : ruleSource; pc_Rules : list Rule }.
Definition set_source (r : Rule) (s : ruleSource) : Rule :=
  {| u_Name := u_Name r; u_Description := u_Description r; On := On r; u_Priority := u_Priority r; Enabled := Enabled r; Wakeup := Wakeup r;
     If := If r; u_Op := u_Op r; u_Value := u_Value r; Always := Always r; u_Match := u_Match r; Roles := Roles r; ActorRoles := ActorRoles r;
     GroupRoles := GroupRoles r; u_Action := u_Action r; Inline := Inline r; Actions := Actions r; u_Consume := u_Consume r;
     u_Stop := u_Stop r; source := s |}.
Definition load_group (rules : list Rule) : res (list Rule) :=
  let* rules := normalizeLoadedRules 0 rules in validateLoadedRules 0 rules.
(** The loop over the plugins; one that cannot be read or used is reported and left out. *)
Fixpoint load_plugins (plugins : list (option pluginConfig)) (runtimes : list gostring) (rules : list Rule)
  : res (list gostring * list Rule) :=
  match plugins with
  | [] => Ok (runtimes, rules)
  | None :: plugins => load_plugins plugins runtimes rules
  | Some p :: plugins =>
    match load_group (map (λ r, set_source r (pc_Source p)) (pc_Rules p)) with
    | Ok loaded =>
      load_plugins plugins (if bool_decide (RuntimeID (pc_Source p) = []) then runtimes else runtimes ++ [RuntimeID (pc_Source p)])
        (rules ++ loaded)
    | Err _ => load_plugins plugins runtimes rules
    | Panic => Panic
    end
  end.
Fixpoint unique_runtimes (seen : gset gostring) (runtimes : list gostring) : res unit :=
  match runtimes with
  | [] => Ok tt
  | id :: runtimes =>
    if bool_decide (id ∈ seen) then Err (§"duplicate hook worker " ++ quote id) else unique_runtimes ({[id]} ∪ seen) runtimes
  end.
(** [loadConfig] from the decoded files on. *)
Definition loadConfig (root : list Rule) (plugins : list (option pluginConfig)) : res (list gostring * list Rule) :=
  let* root := load_group root in
  let* (runtimes, rules) := load_plugins plugins [] root in
  let* _ := unique_runtimes ∅ runtimes in
  Ok (runtimes, final_names ∅ rules).
End Loading.

(** ** Templates *)
Record actionResult := { Result : gostring; ar_Error : gostring; Matched : option bool; PassThrough : option bool }.
Definition no_result : actionResult := {| Result := []; ar_Error := []; Matched := None; PassThrough := None |}.
Definition error_result (e : gostring) : actionResult := {| Result := []; ar_Error := e; Matched := None; PassThrough := None |}.
Abbreviation state := (gmap gostring actionResult).

(** Replacing with a regular expression: [Regexp.ReplaceAllString] is a parameter. *)
Class RegexReplace := { re_replace_all : gostring → gostring → gostring → gostring   (* pattern, text, replacement *) }.

(** What the world answers to one action or event. *)
Record payload := {
  p_Status : gostring; p_Result : gostring; p_Error : gostring; p_Matched : option bool; p_PassThrough : option bool;
  p_Consume : bool; p_Stop : bool;
  p_Outputs : option (list Output + gostring);          (* of [BuildGroup], when outputs are given: its result or error *)
  p_Segments : option (list MessageSegment + gostring); (* of [BuildMessageSegments] *)
  p_Text : option gostring
}.
Inductive reply :=
| ExecFails (result : actionResult) (e : gostring)      (* before or instead of a result *)
| ExecReplies (p : option payload) (wait : option gostring).
Record answers := {
  w_outputs : nat → list Output + gostring;             (* of [makeOutputs] *)
  w_exec : nat → reply;
  w_tool : nat → gostring + gostring;                   (* the tool's text or error *)
  w_context : bool                                      (* the context has ended when the handler returns *)
}.
Inductive worker_reply := WorkerFails (e : gostring) | WorkerSkips | WorkerReplies (p : payload) (lease : option gostring).

Section Actions.
Context `{UnicodeTables} {E : RegexEngine} {R : RegexReplace} (url_parse : gostring → option (gostring * gostring)).
Variable iterate : gmap gostring gostring → list (gostring * gostring).

Fixpoint number_groups (prefix : gostring) (i : Z) (groups : list gostring) (m : gmap gostring gostring) : gmap gostring gostring :=
  match groups with
  | [] => m
  | g :: groups => number_groups prefix (i + 1) groups (<[prefix ++ §".group." ++ itoa i ++ §"}}" := g]> m)
  end.
Fixpoint match_values (i : Z) (matches : list RegexMatch) (m : gmap gostring gostring) : gmap gostring gostring :=
  match matches with
  | [] => m
  | r :: matches =>
    let prefix := §"{{match.regex." ++ itoa i in
    let m := <[prefix ++ §".pattern}}" := rm_Value r]> (<[prefix ++ §".field}}" := rm_Field r]> (<[prefix ++ §".text}}" := rm_Text r]> m)) in
    let m := number_groups prefix 0 (rm_Groups r) m in
    let m := foldl (λ m q, <[prefix ++ §"." ++ q.1 ++ §"}}" := q.2]> m) m (map_to_list (rm_Named r)) in
    match_values (i + 1) matches m
  end.
Definition action_values (st : state) (m : gmap gostring gostring) : gmap gostring gostring :=
  foldl (λ m q, <[§"{{actions." ++ q.1 ++ §".error}}" := ar_Error q.2]> (<[§"{{actions." ++ q.1 ++ §".result}}" := Result q.2]> m))
        m (map_to_list st).
Definition replacements (e : hookEvent) (st : state) : gmap gostring gostring :=
  action_values st (match_values 0 (h_Match e) (TemplateValues url_parse (h_Base e))).
Definition substitute (order : list (gostring * gostring)) (text : gostring) : gostring :=
  foldl (λ text q, replace_all text q.1 q.2) text order.
Definition render (text : gostring) (e : hookEvent) (st : state) : gostring :=
  if negb (contains text §"{{") then text else substitute (iterate (replacements e st)) text.

(** ** Text actions *)
Definition with_message (b : Event) (segments : list MessageSegment) : Event :=
  let m := e_Message b in
  {| e_Chat := e_Chat b; e_Actor := e_Actor b; e_Session := e_Session b; e_Request := e_Request b;
     e_Message := {| m_ID := m_ID m; m_Role := m_Role m; m_PlatformText := m_PlatformText m; m_IntentText := m_IntentText m;
                     m_Reply := m_Reply m; m_Segments := segments |};
     e_LLM := e_LLM b; e_Tool := e_Tool b; e_Error := e_Error b; e_ErrorInfo := e_ErrorInfo b |}.
Definition with_llm_text (b : Event) (text : gostring) : Event :=
  let l := e_LLM b in
  {| e_Chat := e_Chat b; e_Actor := e_Actor b; e_Session := e_Session b; e_Request := e_Request b; e_Message := e_Message b;
     e_LLM := {| l_Provider := l_Provider l; l_Model := l_Model l; l_SourceText := l_SourceText l; l_Text := text |};
     e_Tool := e_Tool b; e_Error := e_Error b; e_ErrorInfo := e_ErrorInfo b |}.
Definition with_tool (b : Event) (arguments result : gostring) : Event :=
  let t := e_Tool b in
  {| e_Chat := e_Chat b; e_Actor := e_Actor b; e_Session := e_Session b; e_Request := e_Request b; e_Message := e_Message b;
     e_LLM := e_LLM b; e_Tool := {| t_Name := t_Name t; t_Arguments := arguments; t_Risk := t_Risk t; t_Result := result |};
     e_Error := e_Error b; e_ErrorInfo := e_ErrorInfo b |}.

Definition toolResultSegments (b : Event) : list MessageSegment :=
  match m_Segments (e_Message b) with [] => TextSegments (t_Result (e_Tool b)) | segments => segments end.
Definition set_tool_result (b : Event) (segments : list MessageSegment) (result : gostring) : Event :=
  with_tool (with_message b segments) (t_Arguments (e_Tool b)) result.

Definition is_field (field : gostring) (names : list gostring) : bool := existsb (λ n, bool_decide (field = n)) names.
Definition message_fields : list gostring := [§"message.text"; §"llm.latest_user_text"].
(** The four text fields, each with how its value is changed. *)
Definition edit_field (b : Event) (field : gostring) (segments : list MessageSegment → res (list MessageSegment))
    (text : gostring → res gostring) : res Event :=
  if is_field field message_fields then let* s := segments (m_Segments (e_Message b)) in Ok (with_message b s)
  else if is_field field [§"llm.text"] then let* t := text (l_Text (e_LLM b)) in Ok (with_llm_text b t)
  else if is_field field [§"tool.arguments"] then
    let* t := text (t_Arguments (e_Tool b)) in Ok (with_tool b t (t_Result (e_Tool b)))
  else if is_field field [§"tool.result"] then
    let* s := segments (toolResultSegments b) in Ok (set_tool_result b s (SegmentsTextOnly s))
  else Ok b.
Definition prependTextField (b : Event) (field value : gostring) : res Event :=
  edit_field b field (λ s, Ok (PrependSegmentText s value)) (λ t, Ok (value ++ t)).
Definition appendTextField (b : Event) (field value : gostring) : res Event :=
  edit_field b field (λ s, Ok (AppendSegmentText s value)) (λ t, Ok (t ++ value)).

Definition find_index (pattern text : gostring) : option (Z * Z) :=
  match re_find pattern text with Some (s :: e :: _) => Some (s, e) | _ => None end.
Definition replace_first (text pattern replacement : gostring) (s e : Z) : res gostring :=
  let* a := slice text 0 s in
  let* m := slice text s e in
  let* b := slice text e (Z.of_nat (length text)) in
  Ok (a ++ re_replace_all pattern m replacement ++ b).
Definition replaceString (text pattern replacement : gostring) (all : bool) : res gostring :=
  if all then Ok (re_replace_all pattern text replacement)
  else match find_index pattern text with None => Ok text | Some (s, e) => replace_first text pattern replacement s e end.
Fixpoint ReplaceSegmentText (segments : list MessageSegment) (pattern replacement : gostring) (all : bool)
  : res (list MessageSegment) :=
  match segments with
  | [] => Ok []
  | segment :: segments =>
    let rest (segment : MessageSegment) :=
      let* out := ReplaceSegmentText segments pattern replacement all in Ok (segment :: out) in
    if negb (is_text segment) then rest segment
    else if all then rest (set_text segment (re_replace_all pattern (seg_Text segment) replacement))
    else
      match find_index pattern (seg_Text segment) with
      | None => rest segment
      | Some (s, e) =>
        let* t := replace_first (seg_Text segment) pattern replacement s e in Ok (set_text segment t :: segments)
      end
  end.
Definition replaceTextField (b : Event) (field pattern replacement : gostring) (all : bool) : res Event :=
  edit_field b field (λ s, ReplaceSegmentText s pattern replacement all) (λ t, replaceString t pattern replacement all).

Definition allowed_fields (point role : gostring) : list gostring :=
  if is_field point [PointPlatformMessageReceived; §"agent.input.prepared"] then [§"message.text"]
  else if is_field point [§"llm.turn.prepared"; §"llm.request.prepared"] then [§"llm.latest_user_text"]
  else if is_field point [§"llm.response.received"] then [§"llm.text"]
  else if is_field point [§"tool.call.prepared"] then [§"tool.arguments"]
  else if is_field point [§"tool.call.completed"] then [§"tool.result"]
  else if is_field point [§"agent.output.prepared"; §"agent.turn.output.prepared"; §"platform.message.sent"] then
    if bool_decide (role = §"assistant") then [§"message.text"] else []
  else [].
Definition allowField (e : hookEvent) (field : gostring) : option gostring :=
  if is_field field (allowed_fields (h_Point e) (m_Role (e_Message (h_Base e)))) then None
  else Some (§"field " ++ quote field ++ §" cannot be edited at hook point " ++ quote (h_Point e)).
Definition compile (pattern : gostring) : res gostring :=
  if re_compiles pattern then Ok pattern else Err §"error parsing regexp".

Definition applyTextAction (e : hookEvent) (a : Action) (st : state) : res hookEvent :=
  let field := trim_space (a_Field a) in
  let type := trim_space (a_Type a) in
  let* _ := match allowField e field with Some err => Err err | None => Ok tt end in
  let* b :=
    (if bool_decide (type = §"prepend") then prependTextField (h_Base e) field (render (a_Text a) e st)
     else if bool_decide (type = §"append") then appendTextField (h_Base e) field (render (a_Text a) e st)
     else if bool_decide (type = §"replace") then
       let* pattern := compile (render (Pattern a) e st) in
       replaceTextField (h_Base e) field pattern (render (a_Replace a) e st) (All a)
     else if bool_decide (type = §"delete") then
       let* pattern := compile (render (firstNonEmpty (Pattern a) (a_Text a)) e st) in
       replaceTextField (h_Base e) field pattern [] true
     else Err (§"unsupported text action " ++ quote (a_Type a))) in
  Ok (set_base e b).
Definition setTextField (e : hookEvent) (field value : gostring) : hookEvent + gostring :=
  let field := trim_space field in
  let b := h_Base e in
  match allowField e field with
  | Some err => inr err
  | None => inl (set_base e
    (if is_field field message_fields then with_message b (SetSegmentText (m_Segments (e_Message b)) value)
     else if is_field field [§"llm.text"] then with_llm_text b value
     else if is_field field [§"tool.arguments"] then with_tool b value (t_Result (e_Tool b))
     else if is_field field [§"tool.result"] then
       let b := with_tool b (t_Arguments (e_Tool b)) value in set_tool_result b (SetSegmentText (toolResultSegments b) value) value
     else b))
  end.

(** ** Replies of plugins *)
Definition PointToolCallCompleted : gostring := §"tool.call.completed".
Definition apply_segments (e : hookEvent) (segments : list MessageSegment) : hookEvent :=
  if bool_decide (h_Point e = PointToolCallCompleted) then set_base e (set_tool_result (h_Base e) segments (SegmentsTextOnly segments))
  else set_base e (with_message (h_Base e) segments).
Definition raise_control (e : hookEvent) (consume stop : bool) : hookEvent :=
  set_control e {| Consume := Consume (h_Control e) || consume; StopPropagation := StopPropagation (h_Control e) || stop |}.
Definition add_outputs (e : hookEvent) (o : list Output) : hookEvent := set_outputs e (h_Outputs e ++ o).

(** [v2EventResult]: the event with the error is the one that is returned. *)
Definition v2EventResult (e : hookEvent) (a : Action) (p : option payload) : actionResult * hookEvent * option gostring :=
  match p with
  | None => (no_result, e, None)
  | Some p =>
    let status := trim_space (p_Status p) in
    if negb (bool_decide (status = [])) && negb (bool_decide (status = §"completed"))
    then (no_result, e, Some (§"one-shot hook.v2 returned unsupported status " ++ quote status))
    else
      let result := {| Result := p_Result p; ar_Error := p_Error p; Matched := p_Matched p; PassThrough := p_PassThrough p |} in
      match default (inl []) (p_Outputs p) with
      | inr err => (result, e, Some err)
      | inl outputs =>
        let e := add_outputs e outputs in
        let message :=
          match p_Segments p, p_Text p with
          | Some (inl segments), _ => inl (apply_segments e segments)
          | Some (inr err), _ => inr err
          | None, Some text => setTextField e (if blank_string (a_Field a) then §"message.text" else trim_space (a_Field a)) text
          | None, None => inl e
          end in
        match message with
        | inl e => (result, raise_control e (p_Consume p) (p_Stop p), None)
        | inr err => (result, e, Some err)
        end
      end
  end.
(** [runExec] from the process on. [fail] returns the event as it was. *)
Definition runExec (e : hookEvent) (a : Action) (r : reply) : hookEvent * actionResult * option gostring :=
  match r with
  | ExecFails result err => (e, {| Result := Result result; ar_Error := err; Matched := Matched result; PassThrough := PassThrough result |}, Some err)
  | ExecReplies p wait =>
    let '(result, updated, err) := v2EventResult e a p in
    match err with
    | Some err => (e, {| Result := Result result; ar_Error := err; Matched := Matched result; PassThrough := PassThrough result |}, Some err)
    | None => match wait with Some err => (updated, error_result err, Some err) | None => (updated, result, None) end
    end
  end.
(** [worker.handle] from the reply on, with the worker's defaults for the control. *)
Definition worker_result (e : hookEvent) (defaults : Control) (p : payload) (lease : option gostring) : hookEvent * option gostring :=
  let status := p_Status p in
  if negb (is_field status [[]; §"completed"; §"waiting"]) then (e, Some (§"unsupported hook event status " ++ quote status))
  else
    match default (inl []) (p_Outputs p) with
    | inr err => (e, Some err)
    | inl outputs =>
      let e := add_outputs e outputs in
      let message :=
        match p_Segments p, p_Text p with
        | Some (inl segments), _ => inl (apply_segments e segments)
        | Some (inr err), _ => inr err
        | None, Some text => inl (apply_segments e (SetSegmentText (m_Segments (e_Message (h_Base e))) text))
        | None, None => inl e
        end in
      match message with
      | inr err => (e, Some err)
      | inl e =>
        let '(consume, stop) := match p_PassThrough p with
                                | Some b => (negb b, negb b)
                                | None => (Consume defaults, StopPropagation defaults)
                                end in
        let e := raise_control e consume stop in
        if bool_decide (status = §"waiting") then (e, lease) else (e, None)
      end
    end.

(** ** Running a rule *)
Definition runAction (w : answers) (i : nat) (e : hookEvent) (a : Action) (st : state)
  : res (hookEvent * actionResult * option gostring * state) :=
  let type := trim_space (a_Type a) in
  if is_field type [§"prepend"; §"append"; §"replace"; §"delete"] then
    match applyTextAction e a st with
    | Ok updated => Ok (updated, no_result, None, st)
    | Err err => Ok (e, no_result, Some err, st)
    | Panic => Panic
    end
  else if bool_decide (type = §"send") then
    match w_outputs w i with
    | inl outputs => Ok (add_outputs e outputs, no_result, None, st)
    | inr err => Ok (e, no_result, Some err, st)
    end
  else if bool_decide (type = §"exec") then
    let '(updated, result, err) := runExec e a (w_exec w i) in
    Ok (updated, result, err, <[firstNonEmpty (trim_space (ActionName a)) §"exec" := result]> st)
  else if bool_decide (type = §"tool") then
    let name := trim_space (Tool a) in
    let '(result, err) :=
      (if bool_decide (name = []) then (error_result §"tool is required", Some §"tool is required")
       else match w_tool w i with
            | inl text => ({| Result := text; ar_Error := []; Matched := None; PassThrough := None |}, None)
            | inr err => (error_result err, Some err)
            end) in
    let key := firstNonEmpty (trim_space (ActionName a)) name in
    Ok (e, result, err, if bool_decide (key = []) then st else <[key := result]> st)
  else Ok (e, no_result, Some (§"unsupported action type " ++ quote (a_Type a)), st).

Definition calls_of (e : hookEvent) : list ToolCallRequest * gostring * gostring * gostring :=
  (h_ToolCalls e, h_ToolID e, t_Name (e_Tool (h_Base e)), t_Arguments (e_Tool (h_Base e))).
Definition validateCalls (readOnlyCalls : bool) (before after : hookEvent) : option gostring :=
  if negb readOnlyCalls then None
  else if bool_decide (calls_of before = calls_of after) then None
  else Some §"returned tool calls, IDs, names and arguments are read-only for this execution".

(** The loop over the actions: [Some] event when it ends without an error; an
    action that does not match ends the rule with the event it began with. *)
Inductive looped := Finished (e : hookEvent) (passThrough : option bool) | Unmatched | Failed (e : hookEvent) (err : gostring).
Fixpoint run_actions (w : answers) (r : Rule) (readOnlyCalls : bool) (before : hookEvent) (i : nat) (actions : list Action)
    (e : hookEvent) (st : state) (passThrough : option bool) : res looped :=
  match actions with
  | [] => Ok (Finished e passThrough)
  | a :: actions =>
    let* (e, result, err, st) := runAction w i e a st in
    let err := match err with None => validateCalls readOnlyCalls before e | _ => err end in
    match err with
    | Some err => Ok (Failed e (§"rule " ++ quote (u_Name r) ++ §" action " ++ itoa (Z.of_nat i + 1) ++ §" " ++ a_Type a ++ §": " ++ err))
    | None =>
      if bool_decide (Matched result = Some false) then Ok Unmatched
      else run_actions w r readOnlyCalls before (S i) actions e st
             (match PassThrough result with Some _ => PassThrough result | None => passThrough end)
    end
  end.

Definition matches_roles (roles : list gostring) (have : list gostring) : bool :=
  bool_decide (length roles = 0%nat) || existsb (λ h, bool_decide (h ∈ roles)) have.
Definition matchRoles (r : Rule) (e : hookEvent) : bool :=
  let actor := e_Actor (h_Base e) in
  matches_roles (Roles r) [a_Role actor; a_GroupRole actor] && matches_roles (ActorRoles r) [a_Role actor]
  && matches_roles (GroupRoles r) [a_GroupRole actor].

Definition runRule (w : answers) (worker : worker_reply) (r : Rule) (e : hookEvent) (readOnlyCalls : bool)
  : res (hookEvent * option gostring) :=
  if negb (matchRoles r e) then Ok (e, None)
  else if negb (bool_decide (RuntimeID (source r) = [])) then
    match worker with
    | WorkerFails err => Ok (e, Some err)
    | WorkerSkips => Ok (e, None)
    | WorkerReplies p lease => Ok (worker_result e {| Consume := u_Consume r; StopPropagation := u_Stop r |} p lease)
    end
  else
    let* o := run_actions w r readOnlyCalls e 0 (Actions r) e ∅ None in
    match o with
    | Failed e err => Ok (e, Some err)
    | Unmatched => Ok (e, None)
    | Finished e' (Some true) => Ok (set_control e' (h_Control e), None)
    | Finished e' (Some false) => Ok (set_control e' {| Consume := true; StopPropagation := true |}, None)
    | Finished e' None => Ok (raise_control e' (u_Consume r) (u_Stop r), None)
    end.

(** ** Registration *)
Definition DefaultPriority : Z := 1000.
(** A handler has no panic to return: the answer of the world is arbitrary then. *)
Definition rule_handler (w : hookEvent → answers) (worker : hookEvent → worker_reply) (r : Rule) : handler := λ e readOnlyCalls,
  match runRule (w e) (worker e) r e readOnlyCalls with
  | Ok (e', err) => Outcome e' err (w_context (w e))
  | _ => Outcome e (Some §"panic") (w_context (w e))
  end.
Definition ruleDescription (r : Rule) : gostring :=
  if blank_string (u_Description r) then trim_space (PluginDescription (source r)) else trim_space (u_Description r).
Definition rule_registration (w : hookEvent → answers) (worker : hookEvent → worker_reply) (r : Rule) : registration :=
  Registration (if u_Priority r =? 0 then DefaultPriority else u_Priority r) 0 (PluginName (source r)) (FinalName (source r))
    (ruleDescription r) (u_Match r) (s_Block (source r)) (rule_handler w worker r) [] (Wakeup r).
Definition RegisterHooks (m : Manager) (w : hookEvent → answers) (worker : hookEvent → worker_reply) (rules : list Rule) : Manager :=
  foldl (λ m r, if enabled r then Register m (On r) (rule_registration w worker r) else m) m rules.
End Actions.
