(* ===== verification/HookRulesProps.v ===== *)
(** * What a hook rule may change, and what its templates give *)
From S2P Require Import Prelude GoStr Segment HookEvent HookProps HookPipeline HookPipelineProps HookRules.
Open Scope Z_scope.

(** ** Text actions *)
Section TextActions.
Context `{UnicodeTables} {E : RegexEngine} {R : RegexReplace} (url_parse : gostring → option (gostring * gostring)).
Context (Hregex : regex_documented) (iterate : gmap gostring gostring → list (gostring * gostring)).

Lemma find_index_bounds pattern text s e : re_compiles pattern = true → find_index pattern text = Some (s, e) →
  0 ≤ s ≤ e ∧ e ≤ Z.of_nat (length text).
Proof.
  intros Hc. unfold find_index. destruct (re_find pattern text) as [l|] eqn:Hf; [|done].
  destruct (Hregex _ _ _ Hc Hf) as (s' & e' & pairs & -> & Hse & Hl & _). simpl. by intros [= <- <-].
Qed.
Lemma slice_ok text s e : 0 ≤ s ≤ e → e ≤ Z.of_nat (length text) → ∃ t, slice text s e = Ok t.
Proof. intros Hs He. unfold slice. rewrite !(proj2 (Z.leb_le _ _)) by lia. simpl. eauto. Qed.
Lemma replace_first_ok text pattern replacement s e : 0 ≤ s ≤ e → e ≤ Z.of_nat (length text) →
  ∃ t, replace_first text pattern replacement s e = Ok t.
Proof.
  intros Hs He. unfold replace_first. destruct (slice_ok text 0 s) as [a ->]; [lia|lia|].
  destruct (slice_ok text s e) as [b ->]; [lia|lia|]. destruct (slice_ok text e (Z.of_nat (length text))) as [c ->]; [lia|lia|].
  simpl. eauto.
Qed.
Lemma replaceString_ok text pattern replacement all : re_compiles pattern = true →
  ∃ t, replaceString text pattern replacement all = Ok t.
Proof.
  intros Hc. unfold replaceString. destruct all; [eauto|]. destruct (find_index pattern text) as [[s e]|] eqn:Hf; [|eauto].
  destruct (find_index_bounds _ _ _ _ Hc Hf). by apply replace_first_ok.
Qed.
Lemma ReplaceSegmentText_ok pattern replacement all segments : re_compiles pattern = true →
  ∃ out, ReplaceSegmentText segments pattern replacement all = Ok out ∧ media out = media segments.
Proof.
  intros Hc. induction segments as [|s l (out & IH & Hm)]; [by exists []|]. cbn [ReplaceSegmentText].
  destruct (is_text s) eqn:Ht; simpl.
  2:{ rewrite IH. eexists. split; [done|]. by rewrite !media_cons, Hm. }
  destruct all; simpl; [|destruct (find_index pattern (seg_Text s)) as [[i j]|] eqn:Hf].
  - rewrite IH. eexists. split; [done|]. by rewrite !media_cons, is_text_set, Ht, Hm.
  - destruct (find_index_bounds _ _ _ _ Hc Hf). destruct (replace_first_ok (seg_Text s) pattern replacement i j) as [t ->]; [done|done|].
    eexists. split; [done|]. by rewrite !media_cons, is_text_set, Ht.
  - rewrite IH. eexists. split; [done|]. by rewrite !media_cons, Hm.
Qed.
Lemma update_first_media f l out : update_first_text f l = Some out → media out = media l.
Proof.
  revert out. induction l as [|s l IH]; intros out; simpl; [done|]. destruct (is_text s) eqn:Hs.
  - intros [= <-]. by rewrite !media_cons, is_text_set, ?Hs.
  - destruct (update_first_text f l) as [o|]; [|done]. intros [= <-]. by rewrite !media_cons, (IH o).
Qed.
Lemma PrependSegmentText_media l p : media (PrependSegmentText l p) = media l.
Proof.
  unfold PrependSegmentText. case_bool_decide; [done|]. destruct (update_first_text _ l) eqn:Hu; [by eapply update_first_media|].
  by rewrite media_cons.
Qed.
Lemma toolResultSegments_media b : media (toolResultSegments b) = media (m_Segments (e_Message b)).
Proof. unfold toolResultSegments. destruct (m_Segments (e_Message b)); [apply TextSegments_ok|done]. Qed.

(** Two events that differ at most in their texts. *)
Definition erase (b : Event) : Event := with_tool (with_llm_text (with_message b []) []) [] [].
Definition confined (field : gostring) (b b' : Event) : Prop :=
  erase b' = erase b
  ∧ media (m_Segments (e_Message b')) = media (m_Segments (e_Message b))
  ∧ (field ∈ [§"message.text"; §"llm.latest_user_text"; §"tool.result"] ∨ m_Segments (e_Message b') = m_Segments (e_Message b))
  ∧ (field = §"llm.text" ∨ l_Text (e_LLM b') = l_Text (e_LLM b))
  ∧ (field = §"tool.arguments" ∨ t_Arguments (e_Tool b') = t_Arguments (e_Tool b))
  ∧ (field = §"tool.result" ∨ t_Result (e_Tool b') = t_Result (e_Tool b)).

Lemma is_field_elem f names : is_field f names = true ↔ f ∈ names.
Proof.
  unfold is_field. rewrite existsb_exists. split.
  - intros (n & Hn & ->%bool_decide_eq_true). by apply list_elem_of_In.
  - intros Hf. exists f. rewrite <- list_elem_of_In, bool_decide_eq_true. done.
Qed.
Lemma edit_field_ok b field segs text : (∀ s, ∃ s', segs s = Ok s' ∧ media s' = media s) → (∀ t, ∃ t', text t = Ok t') →
  ∃ b', edit_field b field segs text = Ok b' ∧ confined field b b'.
Proof.
  intros Hs Ht. unfold edit_field.
  destruct (is_field field message_fields) eqn:H1; [|destruct (is_field field [§"llm.text"]) eqn:H2;
    [|destruct (is_field field [§"tool.arguments"]) eqn:H3; [|destruct (is_field field [§"tool.result"]) eqn:H4]]].
  - destruct (Hs (m_Segments (e_Message b))) as (s' & -> & Hm). eexists. split; [done|]. apply is_field_elem in H1.
    unfold confined. simpl. split_and!; try by right. + done. + done.
    + left. unfold message_fields in H1. rewrite elem_of_cons, list_elem_of_singleton in H1. rewrite !elem_of_cons. tauto.
  - apply is_field_elem, list_elem_of_singleton in H2. destruct (Ht (l_Text (e_LLM b))) as [t ->]. eexists. split; [done|].
    unfold confined. simpl. split_and!; try done; try by right. by left.
  - apply is_field_elem, list_elem_of_singleton in H3. destruct (Ht (t_Arguments (e_Tool b))) as [t ->]. eexists. split; [done|].
    unfold confined. simpl. split_and!; try done; try by right. by left.
  - apply is_field_elem, list_elem_of_singleton in H4. destruct (Hs (toolResultSegments b)) as (s' & -> & Hm). eexists. split; [done|].
    unfold confined. simpl. rewrite toolResultSegments_media in Hm. split_and!; try done; try (by right); left; [|done].
    subst. rewrite !elem_of_cons. tauto.
  - exists b. split; [done|]. unfold confined. split_and!; try done; by right.
Qed.

(** A text action that succeeds edits the one text its hook point allows:
    every other part of the event, and every image and file of the message, is
    unchanged; it never panics, for any pattern, replacement and template. *)
Lemma text_action_confined e a st :
  applyTextAction url_parse iterate e a st ≠ Panic
  ∧ ∀ e', applyTextAction url_parse iterate e a st = Ok e' →
      trim_space (a_Field a) ∈ allowed_fields (h_Point e) (m_Role (e_Message (h_Base e)))
      ∧ e' = set_base e (h_Base e') ∧ confined (trim_space (a_Field a)) (h_Base e) (h_Base e').
Proof.
  unfold applyTextAction. set (field := trim_space (a_Field a)). set (type := trim_space (a_Type a)). unfold allowField.
  destruct (is_field field (allowed_fields (h_Point e) (m_Role (e_Message (h_Base e))))) eqn:Hf; [|done]. cbn [res_bind].
  apply is_field_elem in Hf.
  assert (∀ m : res Event, (∃ err, m = Err err) ∨ (∃ b', m = Ok b' ∧ confined field (h_Base e) b') →
    (let* b := m in Ok (set_base e b)) ≠ Panic ∧ ∀ e', (let* b := m in Ok (set_base e b)) = Ok e' →
      field ∈ allowed_fields (h_Point e) (m_Role (e_Message (h_Base e))) ∧ e' = set_base e (h_Base e') ∧ confined field (h_Base e) (h_Base e')) as Hm.
  { intros m [[err ->]|(b' & -> & Hc)]; [done|]. split; [done|]. by intros e' [= <-]. }
  apply Hm. clear Hm. assert (∀ p, re_compiles p = true ∨ re_compiles p = false) as Hcomp by (intros p; by destruct (re_compiles p); [left|right]).
  case_bool_decide; [|case_bool_decide; [|case_bool_decide; [|case_bool_decide]]].
  - right. apply edit_field_ok; [|eauto]. intros s. eexists. split; [done|]. apply PrependSegmentText_media.
  - right. apply edit_field_ok; [|eauto]. intros s. eexists. split; [done|]. apply AppendSegmentText_ok.
  - unfold compile. set (p := render _ _ _ _ _). destruct (Hcomp p) as [Hc|Hc]; rewrite Hc; simpl; [|by left; eexists].
    right. apply edit_field_ok; [intros s; by apply ReplaceSegmentText_ok|intros t; by apply replaceString_ok].
  - unfold compile. set (p := render _ _ _ _ _). destruct (Hcomp p) as [Hc|Hc]; rewrite Hc; simpl; [|by left; eexists].
    right. apply edit_field_ok; [intros s; by apply ReplaceSegmentText_ok|intros t; by apply replaceString_ok].
  - left. by eexists.
Qed.
End TextActions.

(** ** Read-only calls *)
Section ReadOnly.
Context `{UnicodeTables} {E : RegexEngine} {R : RegexReplace} (url_parse : gostring → option (gostring * gostring)).
Context (iterate : gmap gostring gostring → list (gostring * gostring)).

Lemma calls_prepare e : calls_of (PrepareEvent e) = calls_of e.
Proof. unfold PrepareEvent. by repeat case_match. Qed.
Lemma calls_segments e segments : calls_of (apply_segments e segments) = calls_of e.
Proof. unfold apply_segments. by case_bool_decide. Qed.
Lemma calls_worker e d p lease : calls_of (worker_result e d p lease).1 = calls_of e.
Proof.
  unfold worker_result. case_match; [done|]. destruct (default _ (p_Outputs p)) as [o|]; [|done].
  assert (∀ message : hookEvent + gostring,
    match message with inl e' => calls_of e' = calls_of e | inr _ => True end →
    calls_of (match message with
              | inr err => (add_outputs e o, Some err)
              | inl e => let '(consume, stop) := match p_PassThrough p with
                           | Some b => (negb b, negb b) | None => (Consume d, StopPropagation d) end in
                         if bool_decide (p_Status p = §"waiting") then (raise_control e consume stop, lease)
                         else (raise_control e consume stop, None)
              end).1 = calls_of e) as Hm.
  { intros [e'|err] He; [|done]. destruct (p_PassThrough p); by case_bool_decide. }
  apply Hm. destruct (p_Segments p) as [[s|]|]; [..|destruct (p_Text p)]; rewrite ?calls_segments; done.
Qed.
Lemma run_actions_calls w r before actions : ∀ i e st pass e' pass', calls_of e = calls_of before →
  run_actions url_parse iterate w r true before i actions e st pass = Ok (Finished e' pass') → calls_of e' = calls_of before.
Proof.
  induction actions as [|a actions IH]; intros i e st pass e' pass' He; simpl; [by intros [= <- <-]|].
  destruct (runAction _ _ _ _ _ _ _) as [[[[e1 result] err] st1]|err|]; simpl; [|done|done].
  destruct err as [err|]; [done|]. unfold validateCalls. simpl. case_bool_decide as Hc; [|done].
  case_bool_decide; [done|]. by apply IH.
Qed.
Lemma runRule_calls w worker r e e' : runRule url_parse iterate w worker r e true = Ok (e', None) → calls_of e' = calls_of e.
Proof.
  unfold runRule. case_match; [by intros [= <-]|]. case_match.
  - destruct worker as [x| |p lease]; [done|by intros [= <-]|].
    intros [= Hw]. by rewrite <- (calls_worker e {| Consume := u_Consume r; StopPropagation := u_Stop r |} p lease), Hw.
  - destruct (run_actions _ _ _ _ _ _ _ _ _ _ _) as [[e1 pass| |e1 err1]| |] eqn:Hr; simpl; [|by intros [= <-]|done..].
    pose proof (run_actions_calls _ _ _ _ _ _ _ _ _ _ eq_refl Hr) as Hc.
    destruct pass as [[]|]; by intros [= <-].
Qed.

(** The hooks of rules, whatever answers the world gives them. *)
Definition rule_hook (reg : registration) : Prop := ∃ w worker r, r_handler reg = rule_handler url_parse iterate w worker r.
Lemma rule_handler_calls w worker r e : let o := rule_handler url_parse iterate w worker r e true in
  out_err o = None → calls_of (out_event o) = calls_of e.
Proof.
  unfold rule_handler. destruct (runRule _ _ _ _ _ _ _) as [[e' err]| |] eqn:Hr; simpl; [|done|done]. intros ->.
  by eapply runRule_calls.
Qed.
Lemma run_regs_calls ctxEnds m options regs : ReadOnlyCalls options = true → Forall rule_hook regs → ∀ e e' err logs,
  run_regs url_parse ctxEnds m options regs e = Ok (e', err, logs) → calls_of e' = calls_of e.
Proof.
  intros Ho. induction 1 as [|reg regs (w & worker & r & Hr) _ IH]; intros e e' err logs; simpl; [by intros [= <- _ _]|].
  destruct (selects _ _ _ _) as [[captures|]| |]; simpl; [|by apply IH|done|done].
  set (o := invoke _ _ _ _).
  assert (out_err o = None → calls_of (out_event o) = calls_of e) as Hi.
  { unfold o, invoke. rewrite Hr, Ho. destruct (Observe options) as [f|]; [destruct (f _); [done|]|]; intros Hn;
      by rewrite rule_handler_calls. }
  destruct (out_err o) as [x|].
  - case_match; [by intros [= <- _ _]|]. destruct (notifyError _ _ _ _ _ _) as [more| |]; simpl; [|done|done].
    destruct (run_regs _ _ _ _ _ _) as [[[e1 r1] l1]| |] eqn:H1; simpl; [|done|done]. intros [= <- _ _].
    by rewrite (IH _ _ _ _ H1).
  - set (updated := PrepareEvent _). assert (calls_of updated = calls_of e) as Hu by (unfold updated; rewrite calls_prepare; by apply Hi).
    case_match; [by intros [= <- _ _]|].
    destruct (run_regs _ _ _ _ _ _) as [[[e1 r1] l1]| |] eqn:H1; simpl; [|done|done]. intros [= <- _ _].
    by rewrite (IH _ _ _ _ H1).
Qed.

(** C35: A run with read-only calls through the hooks of rules keeps the tool
    calls of the event: the list of calls with their IDs, names and arguments,
    the call's ID, and the tool's name and arguments are what they were, for
    every rule, every reply of a plugin or a worker and every failure. *)
Theorem read_only_calls_kept ctxEnds m options e e' err logs :
  ReadOnlyCalls options = true → Forall rule_hook (point_of m (h_Point e)) →
  run url_parse ctxEnds m options e = Ok (e', err, logs) →
  h_ToolCalls e' = h_ToolCalls e ∧ h_ToolID e' = h_ToolID e
  ∧ t_Name (e_Tool (h_Base e')) = t_Name (e_Tool (h_Base e)) ∧ t_Arguments (e_Tool (h_Base e')) = t_Arguments (e_Tool (h_Base e)).
Proof.
  intros Ho Hm Hr. apply run_regs_calls in Hr; [|done..]. rewrite calls_prepare in Hr. unfold calls_of in Hr. by simplify_eq.
Qed.
End ReadOnly.

(** * Rules that load give a registry that runs ([loadConfig], [Validate] and [RegisterHooks] of [internal/hook/rules])

    What the loading checks is what the pipeline relies on: the conditions of
    every registered hook are valid, at a known point, and its handler is the
    one of a rule. The final names of rules need not differ. *)
Section Loaded.
Context `{UnicodeTables} {E : RegexEngine} {R : RegexReplace} (url_parse : gostring → option (gostring * gostring)).
Context (iterate : gmap gostring gostring → list (gostring * gostring)).

(** [On], [Always] and the conditions, without the roles. *)
Definition rule_valid (r : Rule) : Prop := KnownPoint (On r) = true ∧ Validate (u_Match r) = Ok tt.
Lemma normalizeRoles_keeps r r' : normalizeRoles r = Ok r' → On r' = On r ∧ u_Match r' = u_Match r.
Proof.
  unfold normalizeRoles. destruct (check_roles _ _ (Roles r)) as [a| |]; simpl; [|done|done].
  destruct (check_roles _ _ (ActorRoles r)) as [b| |]; simpl; [|done|done].
  destruct (check_roles _ _ (GroupRoles r)) as [c| |]; simpl; [|done|done]. by intros [= <-].
Qed.
Lemma validateRule_valid r r' : validateRule r = Ok r' → rule_valid r'.
Proof.
  unfold validateRule. case_match; [done|]. destruct (KnownPoint (On r)) eqn:Hk; [|done]. simpl.
  do 3 (case_match; [done|]). destruct (Validate (u_Match r)) as [[]| |] eqn:Hv; simpl; [|done|done].
  destruct (normalizeRoles r) as [r1| |] eqn:Hr; simpl; [|done|done]. apply normalizeRoles_keeps in Hr as [Ho Hm].
  destruct (WakeupPolicy_Validate _) as [[]| |]; simpl; [|done|done].
  destruct (validate_actions _ _) as [[]| |]; simpl; [|done|done]. intros [= <-]. unfold rule_valid. by rewrite Ho, Hm.
Qed.
Lemma validateLoadedRules_valid rules : ∀ i rules', validateLoadedRules i rules = Ok rules' → Forall rule_valid rules'.
Proof.
  induction rules as [|r rules IH]; intros i rules'; simpl; [by intros [= <-]|].
  destruct (validateRule r) as [r1| |] eqn:Hr; simpl; [|done|done].
  destruct (validateLoadedRules _ rules) as [rs| |] eqn:Hrs; simpl; [|done|done]. intros [= <-].
  constructor; [by eapply validateRule_valid|by eapply IH].
Qed.

(** What every hook of a registry made from rules has. *)
Definition hook_ok (m : Manager) : Prop := ∀ p reg, reg ∈ point_of m p →
  KnownPoint p = true ∧ valid_hook reg ∧ rule_hook url_parse iterate reg.
Lemma register_rules w worker rules : Forall rule_valid rules → ∀ m, registered m → hook_ok m →
  let m' := RegisterHooks url_parse iterate m w worker rules in registered m' ∧ hook_ok m'.
Proof.
  unfold RegisterHooks. induction 1 as [|r rules [Hk Hv] _ IH]; intros m Hr Hm; simpl; [done|]. apply IH.
  - case_match; [by constructor|done].
  - case_match; [|done]. intros p reg. destruct (decide (p = On r)) as [->|Hne].
    + intros [->|Hreg]%in_register; [|by apply Hm]. split_and!; [done|exact Hv|by eexists _, _, _].
    + unfold point_of, Register. simpl. rewrite lookup_insert_ne by done. apply Hm.
Qed.

Lemma load_group_valid rules loaded : load_group rules = Ok loaded → Forall rule_valid loaded.
Proof. unfold load_group. destruct (normalizeLoadedRules 0 rules); simpl; [|done|done]. by apply validateLoadedRules_valid. Qed.
Lemma load_plugins_valid plugins : ∀ runtimes rules out loaded, Forall rule_valid rules →
  load_plugins plugins runtimes rules = Ok (out, loaded) → Forall rule_valid loaded.
Proof.
  induction plugins as [|[p|] plugins IH]; intros runtimes rules out loaded Hr; simpl.
  - by intros [= _ <-].
  - destruct (load_group _) as [l| |] eqn:Hl; [|by apply IH|done]. apply IH, Forall_app. split; [done|by eapply load_group_valid].
  - by apply IH.
Qed.
Lemma final_names_valid rules : ∀ seen, Forall rule_valid rules → Forall rule_valid (final_names seen rules).
Proof. induction rules as [|r rules IH]; intros seen Hr; [done|]. apply Forall_cons in Hr as [Hr Hrs]. constructor; [done|by apply IH]. Qed.
Lemma loadConfig_valid root plugins runtimes loaded : loadConfig root plugins = Ok (runtimes, loaded) → Forall rule_valid loaded.
Proof.
  unfold loadConfig. destruct (load_group root) as [rs| |] eqn:Hg; simpl; [|done|done].
  destruct (load_plugins plugins [] rs) as [[ids rules]| |] eqn:Hp; simpl; [|done|done].
  destruct (unique_runtimes ∅ ids) as [[]| |]; simpl; [|done|done]. intros [= <- <-].
  eapply final_names_valid, load_plugins_valid, Hp. by eapply load_group_valid.
Qed.

(** Rules that load give a registry the pipeline can run: it is one the
    program builds, every hook is registered at a known point with valid
    conditions, its handler is that of a rule, and so no run over it panics,
    whatever the event and whatever the plugins, workers and tools reply. *)
Lemma loaded_registry_valid (Hregex : regex_documented) w worker root plugins runtimes loaded :
  loadConfig root plugins = Ok (runtimes, loaded) →
  let m := RegisterHooks url_parse iterate NewManager w worker loaded in
  registered m ∧ validated m
  ∧ (∀ p reg, reg ∈ point_of m p → KnownPoint p = true ∧ rule_hook url_parse iterate reg)
  ∧ ∀ ctxEnds options e, ∃ e' err logs, run url_parse ctxEnds m options e = Ok (e', err, logs).
Proof.
  intros Hv%loadConfig_valid. set (m := RegisterHooks _ _ _ _ _ _).
  destruct (register_rules w worker loaded Hv NewManager) as [Hr Hm]; [constructor| |].
  { intros p reg. rewrite point_of_new. by intros ?%not_elem_of_nil. }
  assert (validated m) as Hval by (intros p; apply Forall_forall; intros reg Hreg; by apply (Hm p reg)).
  split_and!; [done|done|intros p reg Hreg; by split; apply (Hm p reg)|].
  intros ctxEnds options e. destruct (run_regs_same url_parse Hregex ctxEnds m m options (point_of m (h_Point e)) Hval Hval (Hval _) (PrepareEvent e))
    as (e' & err & logs & _ & Hrun & _). by exists e', err, logs.
Qed.
End Loaded.

(** ** The properties at concrete rules *)
#[local] Existing Instance ascii_tables.
#[local] Existing Instance plain_engine.
Definition blank_action : Action :=
  {| ActionName := []; a_Type := []; a_Field := []; a_Text := []; Pattern := []; a_Replace := []; Timing := []; Tool := [];
     Arguments := []; All := false; Command := []; TimeoutSeconds := 0 |}.
Definition append_action (field text : gostring) : Action :=
  {| ActionName := []; a_Type := §"append"; a_Field := field; a_Text := text; Pattern := []; a_Replace := []; Timing := []; Tool := [];
     Arguments := []; All := false; Command := []; TimeoutSeconds := 0 |}.
Definition sample_rule (n on : gostring) (actions : list Action) : Rule :=
  {| u_Name := n; u_Description := []; On := on; u_Priority := 0; Enabled := None; Wakeup := WakeupAny; If := []; u_Op := []; u_Value := [];
     Always := true; u_Match := []; Roles := []; ActorRoles := []; GroupRoles := []; u_Action := []; Inline := blank_action;
     Actions := actions; u_Consume := false; u_Stop := false;
     source := {| PluginName := §"p"; PluginDescription := []; OriginalName := []; FinalName := []; RuntimeID := []; s_Block := no_block |} |}.
Definition sample_rules : list Rule :=
  [sample_rule §"sign" §"agent.input.prepared" [append_action §"message.text" §" -- {{actor.name}}"];
   sample_rule [] §"tool.call.prepared" [append_action §"tool.arguments" §"!"]].
Definition no_answers : answers :=
  {| w_outputs := λ _, inl []; w_exec := λ _, ExecFails no_result []; w_tool := λ _, inr []; w_context := false |}.
#[local] Instance no_replace : RegexReplace := {| re_replace_all := λ _ text _, text |}.

(** A plugin whose rule has no action and one whose file is missing are left out. *)
Definition sample_plugins : list (option pluginConfig) :=
  let s := {| PluginName := §"q"; PluginDescription := []; OriginalName := []; FinalName := []; RuntimeID := []; s_Block := no_block |} in
  [Some {| pc_Source := s; pc_Rules := [sample_rule §"empty" §"tool.call.prepared" []] |}; None;
   Some {| pc_Source := s; pc_Rules := sample_rules |}].
Lemma loaded_registry_valid_witness : ∃ runtimes loaded,
  loadConfig sample_rules sample_plugins = Ok (runtimes, loaded)
  ∧ map (λ r, FinalName (source r)) loaded = [§"sign"; §"rule.2"; §"sign.1"; §"rule.2.1"]
  ∧ validated (RegisterHooks http_parse map_to_list NewManager (λ _, no_answers) (λ _, WorkerSkips) loaded).
Proof.
  destruct (loadConfig sample_rules sample_plugins) as [[runtimes loaded]| |] eqn:Hl; [|by vm_compute in Hl|by vm_compute in Hl].
  exists runtimes, loaded. split_and!; [done|vm_compute in Hl; by simplify_eq|].
  by eapply (loaded_registry_valid http_parse map_to_list plain_documented).
Defined.

Lemma text_action_confined_witness : ∃ e', applyTextAction http_parse map_to_list sample_hook_event (append_action §"message.text" §"!") ∅ = Ok e'
  ∧ confined §"message.text" (h_Base sample_hook_event) (h_Base e').
Proof.
  destruct (text_action_confined http_parse plain_documented map_to_list sample_hook_event (append_action §"message.text" §"!") ∅) as [_ Hc].
  destruct (applyTextAction _ _ _ _ _) as [e'| |] eqn:He; [|by vm_compute in He|by vm_compute in He].
  exists e'. split; [done|]. by destruct (Hc e' eq_refl) as (_ & _ & ?).
Defined.
(** A rule that edits the arguments of the call fails under the read-only
    policy; the run goes on with the event it had. *)
Lemma read_only_calls_kept_witness :
  let m := Register NewManager §"tool.call.prepared"
             (rule_registration http_parse map_to_list (λ _, no_answers) (λ _, WorkerSkips)
                (set_conditions (sample_rule §"x" §"tool.call.prepared" [append_action §"tool.arguments" §"!"]) always
                   [append_action §"tool.arguments" §"!"])) in
  let e := HookEvent §"tool.call.prepared" (h_Control sample_hook_event) (with_tool sample_event §"{}" []) §"id" [] [] [] in
  let options := {| Woken := false; ReadOnlyCalls := true; Observe := None |} in
  ∃ e' err logs, run http_parse false m options e = Ok (e', err, logs) ∧ map lg_err logs ≠ [] ∧ t_Arguments (e_Tool (h_Base e')) = §"{}".
Proof.
  intros m e options. destruct (run http_parse false m options e) as [[[e' err] logs]| |] eqn:Hr; [|by vm_compute in Hr|by vm_compute in Hr].
  exists e', err, logs. split_and!; [done|vm_compute in Hr; by simplify_eq|].
  apply (read_only_calls_kept http_parse map_to_list false m options e e' err logs); [done| |done].
  apply Forall_forall. intros reg [->|Hreg]%in_register; [by eexists _, _, _|].
  by rewrite point_of_new in Hreg; apply not_elem_of_nil in Hreg.
Defined.
(** The final names of rules named [a], [a] and [a.1] are not distinct. *)
Lemma final_names_collide : ∃ loaded,
  loadConfig (map (λ n, sample_rule n §"agent.input.prepared" [append_action §"message.text" §"!"]) [§"a"; §"a"; §"a.1"]) [] = Ok ([], loaded)
  ∧ map (λ r, FinalName (source r)) loaded = [§"a"; §"a.1"; §"a.1"].
Proof. eexists. split; [by vm_compute|done]. Qed.
