(* ===== verification/HookRender.v ===== *)
(** * Templates of hook rules ([render] in [internal/hook/rules/action.go])

    [render] replaces the placeholders one after the other, in the arbitrary
    order of a Go map. For a template of literals and placeholders whose values
    hold no opening brace the result is the simultaneous substitution, in every
    order; a value that holds a placeholder itself makes the order visible. *)
From S2P Require Import Prelude GoStr Segment HookEvent HookProps HookPipeline HookPipelineProps HookRules.
Open Scope Z_scope.

(** ** Templates *)
Inductive piece := Lit (text : gostring) | Hole (field : gostring).
Definition flat (p : piece) : gostring := match p with Lit text => text | Hole field => placeholder field end.
Definition text_of (template : list piece) : gostring := concat (map flat template).
Definition no_open (s : gostring) : Prop := "{"%char ∉ s.
Definition plain_name (s : gostring) : Prop := ("{"%char ∉ s) ∧ ("}"%char ∉ s).
Definition piece_ok (p : piece) : Prop := match p with Lit text => no_open text | Hole field => plain_name field end.
#[export] Instance piece_ok_dec p : Decision (piece_ok p).
Proof. destruct p; apply _. Defined.
(** The simultaneous substitution; an unknown placeholder stays as it is. *)
Definition fill_piece (values : gmap gostring gostring) (p : piece) : gostring :=
  match p with Lit text => text | Hole field => default (placeholder field) (values !! placeholder field) end.
Definition fill_template (values : gmap gostring gostring) (template : list piece) : gostring :=
  concat (map (fill_piece values) template).

(** ** One replacement *)
Lemma replace_go_skip old new a r : replace_go old new (length a) (a ++ r) = replace_go old new 0 r.
Proof. by induction a. Qed.
Lemma replace_go_no_open old new a r : no_open a →
  replace_go ("{"%char :: old) new 0 (a ++ r) = a ++ replace_go ("{"%char :: old) new 0 r.
Proof.
  unfold no_open. induction a as [|c a IH]; [done|]. rewrite not_elem_of_cons. intros [Hc Ha]. cbn [app replace_go has_prefix].
  rewrite bool_decide_eq_false_2 by done. simpl. by rewrite IH.
Qed.
Lemma prefix_names m n r : plain_name m → plain_name n → has_prefix (n ++ §"}}") (m ++ §"}}" ++ r) = true → m = n.
Proof.
  intros [_ Hm] [_ Hn] [x Hx]%has_prefix_spec. revert n Hn Hx. induction m as [|c m IH]; intros [|d n] Hn Hx; simpl in *.
  - done.
  - rewrite not_elem_of_cons in Hn. destruct Hn. congruence.
  - rewrite not_elem_of_cons in Hm. destruct Hm. congruence.
  - rewrite not_elem_of_cons in Hn, Hm. destruct Hn as [_ Hn], Hm as [_ Hm]. injection Hx as -> Hx. f_equal. by apply (IH Hm n).
Qed.
Definition sub (q : gostring * gostring) (p : piece) : piece :=
  match p with Lit text => Lit text | Hole field => if decide (placeholder field = q.1) then Lit q.2 else Hole field end.
Lemma replace_template n v template : plain_name n → Forall piece_ok template →
  replace_all (text_of template) (placeholder n) v = text_of (map (sub (placeholder n, v)) template).
Proof.
  intros Hn. unfold replace_all, text_of. induction 1 as [|p template Hp _ IH]; [done|]. cbn [map concat]. destruct p as [s|m]; cbn [sub fst snd flat].
  - change (placeholder n) with ("{"%char :: ("{"%char :: n ++ §"}}")) in *. rewrite replace_go_no_open by done. by rewrite IH.
  - destruct (decide (placeholder m = placeholder n)) as [Hm|Hm].
    + apply placeholder_inj in Hm as ->. cbn [flat]. rewrite <- IH. clear IH. set (rest := concat _).
      assert (placeholder n = "{"%char :: ("{"%char :: n ++ §"}}")) as Hp' by done. rewrite Hp'. cbn [app replace_go].
      rewrite (proj2 (has_prefix_spec _ _)) by (exists rest; done). f_equal.
      replace (length _ - 1)%nat with (length ("{"%char :: n ++ §"}}")) by (simpl; lia). apply (replace_go_skip _ _ ("{"%char :: n ++ §"}}")).
    + cbn [flat]. rewrite <- IH. clear IH. set (rest := concat _). destruct Hp as [Hp1 Hp2].
      assert (∀ n, placeholder n = "{"%char :: ("{"%char :: n ++ §"}}")) as Hp' by done. rewrite !Hp'. cbn [app replace_go].
      assert (has_prefix ("{"%char :: ("{"%char :: n ++ §"}}")) ("{"%char :: ("{"%char :: (m ++ §"}}") ++ rest)) = false) as ->.
      { apply not_true_is_false. simpl. intros Hb. rewrite <- app_assoc in Hb. apply Hm. f_equal. by eapply prefix_names. }
      f_equal. assert (has_prefix ("{"%char :: ("{"%char :: n ++ §"}}")) ("{"%char :: (m ++ §"}}") ++ rest) = false) as ->.
      { apply not_true_is_false. destruct m as [|c m]; [done|]. simpl. rewrite not_elem_of_cons in Hp1. destruct Hp1 as [Hc _].
        by rewrite bool_decide_eq_false_2 by done. }
      f_equal. rewrite replace_go_no_open; [done|]. unfold no_open. rewrite not_elem_of_app. split; [done|].
      apply (bool_decide_unpack ("{"%char ∉ §"}}")). by vm_compute.
Qed.

(** ** All replacements *)
Definition good_pair (q : gostring * gostring) : Prop := (∃ n, q.1 = placeholder n ∧ plain_name n) ∧ no_open q.2.
Lemma sub_ok q p : no_open q.2 → piece_ok p → piece_ok (sub q p).
Proof. destruct p; simpl; [done|]. by case_decide. Qed.
Lemma substitute_template order template : Forall good_pair order → Forall piece_ok template →
  substitute order (text_of template) = text_of (map (λ p, foldl (λ p q, sub q p) p order) template).
Proof.
  intros Ho. revert template. induction Ho as [|[k v] order [(n & Hk & Hn) Hv] _ IH]; intros template Ht; simpl in *.
  - by rewrite map_id.
  - subst k. unfold substitute in *. simpl. rewrite replace_template by done. rewrite IH.
    + by rewrite map_map.
    + rewrite Forall_map. eapply Forall_impl; [exact Ht|]. intros p. by apply sub_ok.
Qed.
Lemma foldl_lit order s : foldl (λ p q, sub q p) (Lit s) order = Lit s.
Proof. by induction order. Qed.
Lemma foldl_sub order p : flat (foldl (λ p q, sub q p) p order) = fill_piece (list_to_map order) p.
Proof.
  destruct p as [s|n]; [by rewrite foldl_lit|]. induction order as [|[k v] order IH]; simpl; [by rewrite lookup_empty|].
  case_decide as Hk.
  - subst k. rewrite foldl_lit, lookup_insert_eq. done.
  - rewrite IH. simpl. by rewrite lookup_insert_ne by done.
Qed.

(** ** The replacements of an event *)
Lemma foldl_forall {A} (P : gostring → gostring → Prop) (f : A → gostring * gostring) (l : list A) (m : gmap gostring gostring) :
  map_Forall P m → (∀ x, x ∈ l → P (f x).1 (f x).2) → map_Forall P (foldl (λ m x, <[(f x).1 := (f x).2]> m) m l).
Proof.
  revert m. induction l as [|x l IH]; intros m Hm Hl; simpl; [done|]. apply IH.
  - apply map_Forall_insert_2; [|done]. apply Hl. by left.
  - intros y Hy. apply Hl. by right.
Qed.
Section Values.
Context `{UnicodeTables} {E : RegexEngine} (url_parse : gostring → option (gostring * gostring)).
Definition plain_key (k v : gostring) : Prop := ∃ n, k = placeholder n ∧ plain_name n.
(** The names that a pattern gives its groups and a rule gives its actions. *)
Definition plain_names (e : hookEvent) (st : state) : Prop :=
  Forall (λ r, ∀ n v, rm_Named r !! n = Some v → plain_name n) (h_Match e) ∧ ∀ n v, st !! n = Some v → plain_name n.

Lemma plain_app a b : plain_name a → plain_name b → plain_name (a ++ b).
Proof. unfold plain_name. rewrite !not_elem_of_app. tauto. Qed.
Lemma plain_dec s : bool_decide (plain_name s) = true → plain_name s.
Proof. by rewrite bool_decide_eq_true. Qed.
Lemma digit_plain n : plain_name [byte_of (48 + n mod 10)].
Proof.
  unfold plain_name. rewrite !not_elem_of_cons. assert (n mod 10 = 0 ∨ n mod 10 = 1 ∨ n mod 10 = 2 ∨ n mod 10 = 3 ∨ n mod 10 = 4
    ∨ n mod 10 = 5 ∨ n mod 10 = 6 ∨ n mod 10 = 7 ∨ n mod 10 = 8 ∨ n mod 10 = 9) as Hn
    by (pose proof (Z.mod_pos_bound n 10 eq_refl); lia).
  repeat destruct Hn as [Hn|Hn]; rewrite Hn; split; split; try done; apply not_elem_of_nil.
Qed.
Lemma digits_plain fuel : ∀ n acc, plain_name acc → plain_name (digits_go fuel n acc).
Proof.
  induction fuel as [|fuel IH]; intros n acc Ha; simpl; [done|].
  assert (plain_name (byte_of (48 + n mod 10) :: acc)) as Hc by (apply (plain_app [_]); [apply digit_plain|done]).
  case_match; [done|]. by apply IH.
Qed.
Lemma itoa_plain n : plain_name (itoa n).
Proof.
  unfold itoa. case_match; [apply (plain_app §"-"); [by apply plain_dec|]|]; apply digits_plain, plain_dec; done.
Qed.
Lemma placeholder_key name : plain_name name → ∀ v, plain_key (placeholder name) v.
Proof. intros Hn v. by exists name. Qed.
Lemma match_key i name : plain_name name → ∀ v, plain_key ((§"{{match.regex." ++ itoa i) ++ §"." ++ name ++ §"}}") v.
Proof.
  intros Hn v. exists (§"match.regex." ++ itoa i ++ §"." ++ name). split; [unfold placeholder; by rewrite <- !app_assoc|].
  repeat apply plain_app; [by apply plain_dec|apply itoa_plain|by apply plain_dec|done].
Qed.
Lemma group_keys i groups : ∀ j m, map_Forall plain_key m →
  map_Forall plain_key (number_groups (§"{{match.regex." ++ itoa i) j groups m).
Proof.
  induction groups as [|g groups IH]; intros j m Hm; [done|]. apply IH, map_Forall_insert_2; [|done].
  apply (match_key i (§"group." ++ itoa j)). apply plain_app; [by apply plain_dec|apply itoa_plain].
Qed.
Lemma match_keys matches : ∀ i m, Forall (λ r, ∀ n v, rm_Named r !! n = Some v → plain_name n) matches →
  map_Forall plain_key m → map_Forall plain_key (match_values i matches m).
Proof.
  induction matches as [|r matches IH]; intros i m Hr Hm; [done|]. apply Forall_cons in Hr as [Hr Hrs]. simpl. apply IH; [done|].
  apply (foldl_forall plain_key (λ q, ((§"{{match.regex." ++ itoa i) ++ §"." ++ q.1 ++ §"}}", q.2))).
  - apply group_keys. apply map_Forall_insert_2; [apply (match_key i §"pattern"); by apply plain_dec|].
    apply map_Forall_insert_2; [apply (match_key i §"field"); by apply plain_dec|].
    apply map_Forall_insert_2; [apply (match_key i §"text"); by apply plain_dec|done].
  - intros [n v] Hq%elem_of_map_to_list. apply (match_key i n). by eapply Hr.
Qed.
Lemma action_keys st m : (∀ n v, st !! n = Some v → plain_name n) → map_Forall plain_key m → map_Forall plain_key (action_values st m).
Proof.
  intros Hst. unfold action_values. assert (∀ q, q ∈ map_to_list st → plain_name q.1) as Hq.
  { intros [n v] Hq%elem_of_map_to_list. by eapply Hst. }
  revert m Hq. induction (map_to_list st) as [|[n v] l IH]; intros m Hq Hm; simpl; [done|]. apply IH; [intros q ?; apply Hq; by right|].
  assert (∀ suffix, plain_name suffix → ∀ x, plain_key (§"{{actions." ++ n ++ suffix ++ §"}}") x) as Hk.
  { intros suffix Hs x. exists (§"actions." ++ n ++ suffix). split; [unfold placeholder; by rewrite <- !app_assoc|].
    repeat apply plain_app; [by apply plain_dec| |done]. apply (Hq (n, v)). by left. }
  apply map_Forall_insert_2; [apply (Hk §".error"); by apply plain_dec|].
  apply map_Forall_insert_2; [apply (Hk §".result"); by apply plain_dec|done].
Qed.
Lemma plain_fields : Forall plain_name templateFields.
Proof. apply (bool_decide_unpack _). by vm_compute. Qed.
Lemma field_keys (value : gostring → gostring) (fields : list gostring) (m : gmap gostring gostring) : Forall plain_name fields → map_Forall plain_key m →
  map_Forall plain_key (fold_left (λ values field, <[placeholder field := value field]> values) fields m).
Proof.
  intros Hf. revert m. induction Hf as [|f fields Hf _ IH]; intros m Hm; [done|]. apply IH, map_Forall_insert_2; [|done].
  by apply placeholder_key.
Qed.
Lemma template_keys b : map_Forall plain_key (TemplateValues url_parse b).
Proof. apply (field_keys (FieldValue url_parse b)); [apply plain_fields|apply map_Forall_empty]. Qed.
Lemma replacement_keys e st : plain_names e st → map_Forall plain_key (replacements url_parse e st).
Proof. intros [Hm Hst]. apply action_keys; [done|]. apply match_keys; [done|]. apply template_keys. Qed.
Lemma fill_plain_text values template : contains (text_of template) §"{{" = false → fill_template values template = text_of template.
Proof.
  unfold fill_template, text_of. intros Hc. f_equal. apply map_ext_in. intros [s|n] Hp; [done|]. exfalso.
  apply not_true_iff_false in Hc. apply Hc, contains_spec. apply list_elem_of_In, list_elem_of_split in Hp as (a & b & ->).
  exists (text_of a), (n ++ §"}}" ++ text_of b). rewrite map_app, concat_app. cbn [map concat flat]. unfold placeholder.
  by rewrite <- !app_assoc.
Qed.

(** In a template of literals and placeholders the values of an event are
    substituted simultaneously, in whatever order Go iterates over the map of
    replacements, as long as no value holds an opening brace; a placeholder
    without a value stays. *)
Lemma render_substitutes iterate e st template :
  iterate (replacements url_parse e st) ≡ₚ map_to_list (replacements url_parse e st) →
  plain_names e st → map_Forall (λ _ v, no_open v) (replacements url_parse e st) → Forall piece_ok template →
  render url_parse iterate (text_of template) e st = fill_template (replacements url_parse e st) template.
Proof.
  intros Hi Hn Hv Ht. unfold render. destruct (contains (text_of template) §"{{") eqn:Hc; simpl; [|by rewrite fill_plain_text].
  pose proof (replacement_keys e st Hn) as Hk. set (values := replacements url_parse e st) in *.
  rewrite substitute_template; [|rewrite Hi; apply Forall_forall|done].
  - unfold text_of, fill_template. rewrite map_map. f_equal. apply map_ext. intros p.
    rewrite foldl_sub. f_equal. rewrite (list_to_map_proper _ (map_to_list values)); [apply list_to_map_to_list| |done].
    rewrite Hi. apply NoDup_fst_map_to_list.
  - intros [k v] Hq%elem_of_map_to_list. split; [by eapply Hk|by eapply Hv].
Qed.
End Values.

(** ** The values and the order matter otherwise *)
#[local] Existing Instance ascii_tables.
#[local] Existing Instance plain_engine.
Definition forwards (m : gmap gostring gostring) : list (gostring * gostring) := map_to_list m.
Definition backwards (m : gmap gostring gostring) : list (gostring * gostring) := rev (map_to_list m).
Definition quoting_event (text : gostring) : hookEvent := set_base sample_hook_event (with_message sample_event (TextSegments text)).
Lemma render_substitutes_witness :
  let template := [Lit §"Received "; Hole §"message.text"; Lit §"}!"; Hole §"unknown"] in
  render http_parse backwards (text_of template) (quoting_event §"hi}}") ∅ = §"Received hi}}}!{{unknown}}".
Proof.
  intros template. rewrite (render_substitutes http_parse backwards (quoting_event §"hi}}") ∅ template).
  - by vm_compute.
  - unfold backwards. by rewrite <- Permutation_rev.
  - split; [constructor|done].
  - apply (bool_decide_unpack _). by vm_compute.
  - apply (bool_decide_unpack _). by vm_compute.
Defined.
(** A message that names a placeholder is expanded in one order and not in the other. *)
Lemma render_order_matters : let e := quoting_event §"{{llm.model}}{{chat.name}}" in
  render http_parse forwards §"{{message.text}}" e ∅ ≠ render http_parse backwards §"{{message.text}}" e ∅.
Proof. by vm_compute. Qed.
