(* ===== verification/Sse.v ===== *)
(** * Server-sent event streams ([internal/llm/httpclient/sse.go])

    The body of a response is checked by its first line, cut into lines by
    [bufio.Scanner] and assembled into frames. The goroutines communicate by
    channels: the reader of lines is the list of values it sends, and the
    assembler is a function of the values it receives, each with whether the
    consumer takes the frame that is sent then (a [send] that is not taken
    ends with the context). Durations are left out: the timer is one more
    value that may be received. *)
From S2P Require Import Prelude GoStr.
Open Scope Z_scope.

Definition streamPrefixBytes : Z := 8 * 1024.
Definition maxStreamLineBytes : Z := 8 * 1024 * 1024.
Definition bom : gostring := ["239"%char; "187"%char; "191"%char].   (* \ufeff *)
Definition colon : ascii := ":".

(** ** The first line *)
Section Prefix.
Context `{UnicodeTables}.

Definition html_markers : list gostring := [§"<!doctype html"; §"<html"; §"<head"; §"<body"].
Definition looksLikeHTML (prefix : gostring) : bool :=
  let text := to_lower (trim_space (trim_prefix bom prefix)) in
  existsb (λ marker, has_prefix marker text) html_markers.

Fixpoint sse_line (lines : list gostring) : bool :=
  match lines with
  | [] => false
  | line :: lines =>
    let line := trim_space line in
    if bool_decide (line = []) then sse_line lines
    else has_prefix §"data:" line || has_prefix §"event:" line || has_prefix §"id:" line
         || has_prefix §"retry:" line || has_prefix §":" line
  end.
Definition looksLikeSSE (prefix : gostring) : bool := sse_line (split_byte newline prefix).

(** [text[:index+len(marker)]] where [index] was found in the lowered text. *)
Definition redact (text marker : gostring) : res gostring :=
  match index marker (to_lower text) with
  | None => Ok text
  | Some i =>
    if (i + length marker <=? length text)%nat then Ok (take (i + length marker) text ++ §"[redacted]") else Panic
  end.
Fixpoint redact_all (markers : list gostring) (text : gostring) : res gostring :=
  match markers with
  | [] => Ok text
  | m :: markers => let* text := redact text m in redact_all markers text
  end.
Definition summary_markers : list gostring :=
  [§";base64,"; §"base64://"; §"authorization:"; §"api_key="; §"api-key="].
Definition maxSummaryBytes : nat := 256.
Definition empty_summary : gostring := §"响应内容为空或无法识别".
Definition responseSummary (prefix : gostring) : res gostring :=
  let text := join §" " (fields prefix) in
  let* text := redact_all summary_markers text in
  let text := if (maxSummaryBytes <? length text)%nat then take maxSummaryBytes text ++ §"..." else text in
  Ok (if bool_decide (text = []) then empty_summary else text).

(** [reader.ReadSlice]: up to and with the first newline within the buffer;
    otherwise the full buffer, or everything and how the body ended ([None] is
    [io.EOF]). *)
Definition read_slice (body : gostring) (bodyErr : option gostring) : gostring * option gostring :=
  let window := take (Z.to_nat streamPrefixBytes) body in
  match index [newline] window with
  | Some i => (take (S i) window, None)
  | None => (window, if Z.of_nat (length body) <? streamPrefixBytes then bodyErr else None)
  end.
Definition html_error : gostring := §"上游返回 HTML 而不是 API 响应，请检查 API Base URL、代理或网关".
(** [early] is the error when the context or the timer ends the wait for the
    first line. The reader that is returned yields the body from its start. *)
Definition prepareStreamBody (contentTypeHeader : gostring) (body : gostring) (bodyErr early : option gostring)
  : res gostring :=
  let contentType := trim_space contentTypeHeader in
  let '(mediaType, _, _) := cut §";" contentType in
  let mediaType := to_lower (trim_space mediaType) in
  if bool_decide (mediaType = §"text/html") then Err html_error
  else
    match early with
    | Some e => Err e
    | None =>
      let '(prefix, err) := read_slice body bodyErr in
      match err with
      | Some e => Err (§"read upstream response prefix: " ++ e)
      | None =>
        if looksLikeHTML prefix then Err html_error
        else
          let isSSE := looksLikeSSE prefix
                       || bool_decide (trim_space prefix = []) && bool_decide (mediaType = §"text/event-stream") in
          if isSSE then Ok body
          else
            let* summary := responseSummary prefix in
            Err (§"上游返回非 SSE API 响应（Content-Type=" ++ quote contentType ++ §"）：" ++ summary)
      end
    end.
End Prefix.

(** ** Lines *)
Inductive input :=
| Line (s : gostring)      (* a value of [lines] *)
| LineErr (e : gostring)
| Closed                   (* [lines] is closed *)
| Timer
| Done.                    (* the context has ended *)

Definition drop_cr (s : gostring) : gostring := trim_suffix [carriage] s.
(** [bufio.ScanLines]: a last line without newline counts unless it is empty. *)
Definition raw_lines (body : gostring) : list gostring :=
  let ls := split_byte newline body in
  match last ls with Some [] => removelast ls | _ => ls end.
Definition ErrTooLong : gostring := §"bufio.Scanner: token too long".
(** The scanner's buffer holds [maxStreamLineBytes], the newline included. *)
Fixpoint scan (lines : list gostring) (bodyErr : option gostring) : list gostring * option gostring :=
  match lines with
  | [] => ([], bodyErr)
  | l :: lines =>
    if maxStreamLineBytes <=? Z.of_nat (length l) then ([], Some ErrTooLong)
    else let '(ls, e) := scan lines bodyErr in (drop_cr l :: ls, e)
  end.
Definition scanStreamLines (body : gostring) (bodyErr : option gostring) : list input :=
  let '(ls, err) := scan (raw_lines body) bodyErr in
  map Line ls ++
  match err with
  | None => []
  | Some e =>
    [LineErr (if contains e §"token too long"
              then §"SSE line exceeds maximum size of " ++ itoa maxStreamLineBytes ++ §" bytes" else e)]
  end ++ [Closed].

(** ** Frames *)
Inductive Frame := FData (event data : gostring) | FErr (e : gostring).

Record reader := Reader { seenData : bool; event : gostring; data : list gostring; size : Z }.
Definition start_reader : reader := Reader false [] [] 0.

Inductive verdict := Continue (r : reader) (sent : list Frame) | Return (sent : list Frame).
(** A [send] at the end of the function: its result is not used. *)
Definition last_send (accepts : bool) (f : Frame) : verdict := Return (if accepts then [f] else []).

Definition EOF : gostring := §"EOF".
Definition idle_timeout : gostring := §"LLM stream idle timeout after ".
Definition first_timeout : gostring := §"LLM first stream chunk timeout after ".
Definition frame_too_large : gostring :=
  §"SSE frame exceeds maximum size of " ++ itoa maxStreamLineBytes ++ §" bytes".

Definition field_line (r : reader) (accepts : bool) (line : gostring) : verdict :=
  if has_prefix [colon] line then Continue r []
  else
    let '(key, value, _) := cut [colon] line in
    let value := trim_prefix §" " value in
    if bool_decide (key = §"event") then Continue (Reader (seenData r) value (data r) (size r)) []
    else if bool_decide (key = §"data") then
      let n := size r + (Z.of_nat (length value) + 1) in
      if maxStreamLineBytes <? n then last_send accepts (FErr frame_too_large)
      else Continue (Reader true (event r) (data r ++ [value]) n) []
    else Continue r [].
Definition frame_line (r : reader) (accepts : bool) (line : gostring) : verdict :=
  let value := trim_prefix bom line in
  if bool_decide (value = []) then
    if bool_decide (data r = []) then Continue (Reader (seenData r) [] [] 0) []
    else if accepts then Continue (Reader (seenData r) [] [] 0) [FData (event r) (join [newline] (data r))]
    else Return []
  else field_line r accepts value.

(** One round of [select] with the value received; [first] and [idle] print the two timeouts. *)
Definition receive (first idle : gostring) (r : reader) (i : input) (accepts : bool) : verdict :=
  match i with
  | Done => Return []
  | Timer => last_send accepts (FErr (if seenData r then idle_timeout ++ idle else first_timeout ++ first))
  | Closed => last_send accepts (FErr EOF)
  | LineErr e => last_send accepts (FErr e)
  | Line l => frame_line r accepts l
  end.
(** The loop: the frames sent, and the state when it still waits. *)
Fixpoint readFrames (first idle : gostring) (r : reader) (ins : list (input * bool)) : list Frame * option reader :=
  match ins with
  | [] => ([], Some r)
  | (i, accepts) :: ins =>
    match receive first idle r i accepts with
    | Return fs => (fs, None)
    | Continue r fs => let '(fs', o) := readFrames first idle r ins in (fs ++ fs', o)
    end
  end.

(** [OpenSSE] with a consumer that takes every frame and no timeout. *)
Definition OpenSSE `{UnicodeTables} (first idle contentType body : gostring) (bodyErr early : option gostring)
  : res (list Frame) :=
  let* body := prepareStreamBody contentType body bodyErr early in
  Ok (fst (readFrames first idle start_reader (map (λ i, (i, true)) (scanStreamLines body bodyErr)))).
