(* ===== verification/SseProps.v ===== *)
(** * Streams are split into frames exactly, within their bounds *)
From S2P Require Import Prelude GoStr Sse.
Open Scope Z_scope.

(** ** What the frames of a list of lines are

    Lines up to a blank one form a block. Comments and unknown fields have no
    effect; the name of the event is the last one given; a block without data
    gives no frame; a block over the size limit ends the stream, as its end does. *)
Definition blank (line : gostring) : bool := bool_decide (trim_prefix bom line = []).
Definition field (line : gostring) : option (gostring * gostring) :=
  let line := trim_prefix bom line in
  if has_prefix [colon] line then None
  else let '(key, value, _) := cut [colon] line in Some (key, trim_prefix §" " value).
Definition value_of (name : gostring) (line : gostring) : option gostring :=
  match field line with Some (key, value) => if bool_decide (key = name) then Some value else None | None => None end.
Definition block_data (b : list gostring) : list gostring := omap (value_of §"data") b.
Definition block_event (b : list gostring) : gostring := default [] (last (omap (value_of §"event") b)).
Definition data_size (d : list gostring) : Z := foldr (λ v n, Z.of_nat (length v) + 1 + n) 0 d.
Definition oversize (b : list gostring) : bool := maxStreamLineBytes <? data_size (block_data b).
Definition block_frame (b : list gostring) : list Frame :=
  if bool_decide (block_data b = []) then [] else [FData (block_event b) (join [newline] (block_data b))].

Fixpoint blocks (lines : list gostring) : list (list gostring) * list gostring :=
  match lines with
  | [] => ([], [])
  | l :: lines =>
    let '(bs, rest) := blocks lines in
    if blank l then ([] :: bs, rest)
    else match bs with [] => ([], l :: rest) | b :: bs => ((l :: b) :: bs, rest) end
  end.
Fixpoint block_frames (bs : list (list gostring)) (rest : list gostring) : list Frame :=
  match bs with
  | [] => [FErr (if oversize rest then frame_too_large else EOF)]
  | b :: bs => if oversize b then [FErr frame_too_large] else block_frame b ++ block_frames bs rest
  end.
Definition frames_of (lines : list gostring) : list Frame := let '(bs, rest) := blocks lines in block_frames bs rest.

(** ** The assembler *)
Lemma data_size_app a b : data_size (a ++ b) = data_size a + data_size b.
Proof. induction a as [|x a IH]; simpl; [done|]. rewrite IH. lia. Qed.
Lemma data_size_nonneg a : 0 ≤ data_size a.
Proof. induction a; simpl; lia. Qed.

(** The reader holds the lines [p] of the current block. *)
Definition holds (r : reader) (p : list gostring) : Prop :=
  event r = block_event p ∧ data r = block_data p ∧ size r = data_size (block_data p) ∧ size r ≤ maxStreamLineBytes.

Definition prepend (p : list gostring) (x : list (list gostring) * list gostring) : list (list gostring) * list gostring :=
  match x with ([], rest) => ([], p ++ rest) | (b :: bs, rest) => ((p ++ b) :: bs, rest) end.
Lemma prepend_nil x : prepend [] x = x.
Proof. by destruct x as [[|b bs] rest]. Qed.
Lemma blocks_cons l lines : blocks (l :: lines) =
  if blank l then ([] :: (blocks lines).1, (blocks lines).2) else prepend [l] (blocks lines).
Proof. simpl. destruct (blocks lines) as [[|b bs] rest]; by destruct (blank l). Qed.
Lemma prepend_snoc p l x : prepend p (prepend [l] x) = prepend (p ++ [l]) x.
Proof. destruct x as [[|b bs] rest]; simpl; by rewrite <- app_assoc. Qed.

Lemma block_data_app a b : block_data (a ++ b) = block_data a ++ block_data b.
Proof. apply omap_app. Qed.
Lemma oversize_prepend p bs rest : maxStreamLineBytes < data_size (block_data p) →
  block_frames (prepend p (bs, rest)).1 (prepend p (bs, rest)).2 = [FErr frame_too_large].
Proof.
  intros Hp. assert (∀ b, oversize (p ++ b) = true) as Ho.
  { intros b. unfold oversize. rewrite block_data_app, data_size_app. pose proof (data_size_nonneg (block_data b)).
    apply Z.ltb_lt. lia. }
  destruct bs as [|b bs]; simpl; by rewrite Ho.
Qed.

Lemma value_of_field l key value name : field l = Some (key, value) →
  value_of name l = if bool_decide (key = name) then Some value else None.
Proof. intros Hf. unfold value_of. by rewrite Hf. Qed.
Lemma block_event_snoc p l : block_event (p ++ [l]) = default (block_event p) (value_of §"event" l).
Proof.
  unfold block_event. rewrite omap_app. simpl. destruct (value_of §"event" l) as [v|]; simpl.
  - by rewrite last_snoc.
  - by rewrite app_nil_r.
Qed.
Lemma block_data_snoc p l : block_data (p ++ [l]) = block_data p ++ match value_of §"data" l with Some v => [v] | None => [] end.
Proof. rewrite block_data_app. unfold block_data at 2. simpl. by destruct (value_of §"data" l). Qed.

(** A line that is not blank joins the block, or makes it too large. *)
Lemma field_line_joins r p l : holds r p → blank l = false →
  match frame_line r true l with
  | Continue r' fs => fs = [] ∧ holds r' (p ++ [l])
  | Return fs => fs = [FErr frame_too_large] ∧ maxStreamLineBytes < data_size (block_data (p ++ [l]))
  end.
Proof.
  intros (He & Hd & Hs & Hm) Hb. unfold frame_line. unfold blank in Hb. rewrite Hb. unfold field_line.
  assert (∀ key value, field l = Some (key, value) ∨ field l = None → True) as _ by done.
  destruct (has_prefix [colon] (trim_prefix bom l)) eqn:Hc.
  { assert (field l = None) as Hf by (unfold field; by rewrite Hc).
    split; [done|]. unfold holds. rewrite block_event_snoc, block_data_snoc. unfold value_of. rewrite Hf. simpl.
    by rewrite app_nil_r. }
  destruct (cut [colon] (trim_prefix bom l)) as [[key value] found] eqn:Hcut.
  assert (field l = Some (key, trim_prefix §" " value)) as Hf by (unfold field; by rewrite Hc, Hcut).
  set (v := trim_prefix §" " value) in *.
  pose proof (value_of_field _ _ _ §"event" Hf) as Hev. pose proof (value_of_field _ _ _ §"data" Hf) as Hdv.
  destruct (decide (key = §"event")) as [->|Hk1]; [|destruct (decide (key = §"data")) as [->|Hk2]].
  - rewrite bool_decide_eq_true_2 in Hev |- * by done. rewrite bool_decide_eq_false_2 in Hdv by done. split; [done|].
    unfold holds. simpl. rewrite block_event_snoc, block_data_snoc, Hev, Hdv. simpl. by rewrite app_nil_r.
  - rewrite bool_decide_eq_true_2 in Hdv by done. rewrite bool_decide_eq_false_2 in Hev by done.
    rewrite bool_decide_eq_false_2, bool_decide_eq_true_2 by done.
    assert (data_size (block_data (p ++ [l])) = size r + (Z.of_nat (length v) + 1)) as Hsz.
    { rewrite block_data_snoc, Hdv, data_size_app, <- Hs. simpl. lia. }
    destruct (Z.ltb_spec maxStreamLineBytes (size r + (Z.of_nat (length v) + 1))) as [Hlt|Hge].
    + split; [done|]. by rewrite Hsz.
    + split; [done|]. unfold holds. simpl. rewrite Hsz. rewrite block_event_snoc, block_data_snoc, Hev, Hdv. simpl.
      by rewrite Hd.
  - rewrite bool_decide_eq_false_2 in Hev, Hdv by done. rewrite !bool_decide_eq_false_2 by done.
    split; [done|]. unfold holds. rewrite block_event_snoc, block_data_snoc, Hev, Hdv. simpl. by rewrite app_nil_r.
Qed.

Lemma readFrames_blocks first idle lines : ∀ r p, holds r p →
  readFrames first idle r (map (λ i, (i, true)) (map Line lines ++ [Closed])) =
  (block_frames (prepend p (blocks lines)).1 (prepend p (blocks lines)).2, None).
Proof.
  induction lines as [|l lines IH]; intros r p Hr.
  { simpl. rewrite app_nil_r. destruct Hr as (_ & _ & Hs & Hm). unfold oversize. rewrite <- Hs.
    by rewrite (proj2 (Z.ltb_ge _ _)) by lia. }
  rewrite blocks_cons. simpl. destruct (blank l) eqn:Hb.
  - unfold frame_line. unfold blank in Hb. rewrite Hb. simpl.
    assert (∀ s, holds (Reader s [] [] 0) []) as H0 by done.
    assert (oversize p = false) as Ho.
    { unfold oversize. destruct Hr as (_ & _ & Hs & Hm). rewrite <- Hs. by apply Z.ltb_ge. }
    rewrite app_nil_r, Ho. unfold block_frame. destruct Hr as (He & Hd & _ & _). rewrite <- He, <- Hd.
    destruct (decide (data r = [])) as [E|E];
      [rewrite !(bool_decide_eq_true_2 _ E)|rewrite !(bool_decide_eq_false_2 _ E)]; cbn; rewrite (IH _ _ (H0 _)), prepend_nil; by destruct (blocks lines).
  - pose proof (field_line_joins r p l Hr Hb) as Hj. rewrite prepend_snoc. destruct (frame_line r true l) as [r' fs|fs].
    + destruct Hj as [-> Hr']. by rewrite (IH _ _ Hr'); destruct (blocks lines) as [[|b bs] rest].
    + destruct Hj as [-> Hlt]. f_equal. destruct (blocks lines). by rewrite oversize_prepend.
Qed.

(** ** Encoded events *)
Definition event_line (name : gostring) : gostring := §"event: " ++ name.
Definition data_line (d : gostring) : gostring := §"data: " ++ d.
Definition event_lines (e : gostring * list gostring) : list gostring :=
  event_line e.1 :: map data_line e.2 ++ [[]].
Definition unlines (ls : list gostring) : gostring := concat (map (λ l, l ++ [newline]) ls).
Definition encode_events (es : list (gostring * list gostring)) : gostring := unlines (concat (map event_lines es)).

Definition clean (s : gostring) : Prop := (newline ∉ s) ∧ last s ≠ Some carriage.
#[export] Instance clean_dec s : Decision (clean s).
Proof. unfold clean. apply _. Defined.
Definition sendable (e : gostring * list gostring) : Prop :=
  clean e.1 ∧ Z.of_nat (length e.1) + 7 < maxStreamLineBytes ∧ e.2 ≠ [] ∧ Forall clean e.2
  ∧ data_size e.2 + 6 < maxStreamLineBytes.

Lemma raw_lines_unlines ls : Forall (λ l, newline ∉ l) ls → raw_lines (unlines ls) = ls.
Proof.
  intros Hls. unfold raw_lines. assert (split_byte newline (unlines ls) = ls ++ [[]]) as ->.
  { induction Hls as [|l ls Hl _ IH]; [done|]. unfold unlines in *. cbn [map concat]. rewrite <- app_assoc. cbn [app].
    by rewrite split_byte_app, IH. }
  by rewrite last_snoc, removelast_last.
Qed.
Lemma drop_cr_clean l : last l ≠ Some carriage → drop_cr l = l.
Proof. intros Hl. unfold drop_cr, trim_suffix. by rewrite has_suffix_last, bool_decide_eq_false_2. Qed.
Lemma scan_clean ls e : Forall (λ l, clean l ∧ Z.of_nat (length l) < maxStreamLineBytes) ls → scan ls e = (ls, e).
Proof.
  induction 1 as [|l ls [[Hn Hc] Hl] _ IH]; [done|]. cbn [scan]. rewrite (proj2 (Z.leb_gt _ _)) by done.
  by rewrite IH, drop_cr_clean.
Qed.

Lemma last_app_line a s : a ≠ [] → last a ≠ Some carriage → last s ≠ Some carriage → last (a ++ s) ≠ Some carriage.
Proof.
  intros Ha Hl Hs. rewrite last_app. by destruct (last s).
Qed.
Lemma clean_app a s : a ≠ [] → clean a → clean s → clean (a ++ s).
Proof.
  intros Ha [Hn Hl] [Hn' Hl']. split; [|by apply last_app_line]. intros [?|?]%elem_of_app; auto.
Qed.
Lemma data_size_in d ds : d ∈ ds → Z.of_nat (length d) + 1 ≤ data_size ds.
Proof.
  induction ds as [|x ds IH]; [by intros ?%not_elem_of_nil|]. simpl. pose proof (data_size_nonneg ds).
  intros [->|Hd]%elem_of_cons; [lia|]. specialize (IH Hd). lia.
Qed.
Lemma event_lines_clean e : sendable e → Forall (λ l, clean l ∧ Z.of_nat (length l) < maxStreamLineBytes) (event_lines e).
Proof.
  intros (Hn & Hl & _ & Hd & Hs). unfold event_lines. constructor; [|apply Forall_app; split].
  - split; [apply clean_app; [done|by apply (bool_decide_unpack _); vm_compute|done]|]. unfold event_line. change (length (§"event: " ++ e.1)) with (7 + length e.1)%nat. lia.
  - apply Forall_fmap, Forall_forall. intros d Hin. rewrite Forall_forall in Hd. split.
    + apply clean_app; [done|by apply (bool_decide_unpack _); vm_compute|by apply Hd].
    + apply data_size_in in Hin. unfold data_line. change (length (§"data: " ++ d)) with (6 + length d)%nat. lia.
  - repeat constructor; [by intros ?%not_elem_of_nil|done].
Qed.

Lemma omap_cons' {A B} (f : A → option B) x l :
  omap f (x :: l) = match f x with Some y => y :: omap f l | None => omap f l end.
Proof. done. Qed.
Lemma value_of_event name s : name = §"event" ∨ name = §"data" → value_of name (event_line s) = if bool_decide (name = §"event") then Some s else None.
Proof. by intros [-> | ->]. Qed.
Lemma value_of_data name s : name = §"event" ∨ name = §"data" → value_of name (data_line s) = if bool_decide (name = §"data") then Some s else None.
Proof. by intros [-> | ->]. Qed.
Lemma omap_data_lines name ds : name = §"event" ∨ name = §"data" →
  omap (value_of name) (map data_line ds) = if bool_decide (name = §"data") then ds else [].
Proof.
  intros Hname. induction ds as [|d ds IH]; [by case_bool_decide|]. cbn [map].
  rewrite omap_cons', value_of_data, IH by done. by case_bool_decide.
Qed.
Lemma blocks_event e lines : blocks (event_lines e ++ lines) =
  ((event_line e.1 :: map data_line e.2) :: (blocks lines).1, (blocks lines).2).
Proof.
  unfold event_lines. cbn [app]. rewrite blocks_cons. change (blank (event_line e.1)) with false.
  rewrite <- app_assoc. assert (∀ ds, blocks (map data_line ds ++ [[]] ++ lines) = (map data_line ds :: (blocks lines).1, (blocks lines).2)) as ->.
  { induction ds as [|d ds IH]; [by cbn [map app]; rewrite blocks_cons|]. cbn [map app]. cbn [app] in IH. rewrite blocks_cons.
    change (blank (data_line d)) with false. by rewrite IH. }
  done.
Qed.
Lemma event_block e : let b := event_line e.1 :: map data_line e.2 in block_data b = e.2 ∧ block_event b = e.1.
Proof.
  simpl. unfold block_data, block_event. rewrite !omap_cons', !value_of_event, !omap_data_lines by auto. done.
Qed.
Definition frame_of_event (e : gostring * list gostring) : Frame := FData e.1 (join [newline] e.2).
Lemma frames_of_events es : Forall sendable es →
  frames_of (concat (map event_lines es)) = map frame_of_event es ++ [FErr EOF].
Proof.
  intros Hes. unfold frames_of. induction Hes as [|e es (_ & _ & Hne & _ & Hs) _ IH]; [done|]. cbn [map concat].
  rewrite blocks_event. destruct (event_block e) as [Hd He]. destruct (blocks (concat (map event_lines es))) as [bs rest].
  cbn [block_frames fst snd]. unfold oversize, block_frame. rewrite Hd, He, (proj2 (Z.ltb_ge _ _)) by lia.
  rewrite bool_decide_eq_false_2 by done. by rewrite IH.
Qed.

Section OpenSSE.
Context `{UnicodeTables}.

Definition html_type (contentType : gostring) : bool :=
  bool_decide (to_lower (trim_space (cut §";" (trim_space contentType)).1.1) = §"text/html").

(** The check of the first line reads nothing away and accepts any body that starts with an event. *)
Lemma sse_prefix r body : body = §"event:" ++ r → looksLikeHTML body = false ∧ looksLikeSSE body = true.
Proof.
  intros ->. split.
  - unfold looksLikeHTML. change (trim_prefix bom (§"event:" ++ r)) with (§"event:" ++ r).
    destruct (trim_space_word "e" §"vent" ":" r) as [r' Hr]; [done|done|].
    change (§"event:" ++ r) with ("e"%char :: §"vent" ++ ":"%char :: r). rewrite Hr.
    pose proof (to_lower_head "e" (§"vent" ++ ":"%char :: r') eq_refl) as Hh. change (ascii_lower "e") with "e"%char in Hh.
    destruct (to_lower _) as [|x t]; [done|]. by injection Hh as ->.
  - unfold looksLikeSSE. assert (∃ l ls, split_byte newline (§"event:" ++ r) = (§"event:" ++ l) :: ls) as (l & ls & ->).
    { assert (∃ l ls, split_byte newline r = l :: ls) as (l & ls & Hr).
      { clear. induction r as [|x r (l & ls & IH)]; cbn [split_byte]; [eauto|]. rewrite IH. case_bool_decide; eauto. }
      exists l, ls. change (§"event:") with ["e";"v";"e";"n";"t";":"]%char. cbn [app split_byte]. by rewrite Hr. }
    cbn [sse_line]. destruct (trim_space_word "e" §"vent" ":" l) as [r' Hr]; [done|done|].
    change (§"event:" ++ l) with ("e"%char :: §"vent" ++ ":"%char :: l). by rewrite Hr.
Qed.
Lemma read_slice_prefix body r : body = §"event: " ++ r → ∃ r', read_slice body None = (§"event:" ++ r', None).
Proof.
  intros ->. unfold read_slice. assert (7 ≤ Z.to_nat streamPrefixBytes)%nat as Hn by (unfold streamPrefixBytes; lia).
  set (w := take _ (§"event: " ++ r)). assert (∃ r', w = §"event: " ++ r') as [r' Hw].
  { eexists. unfold w. by rewrite take_app_ge. }
  destruct (index [newline] w) as [i|] eqn:Hi.
  - rewrite Hw in Hi |- *. destruct (decide (i < 7)%nat) as [Hlt|Hge].
    + apply index_byte_some in Hi as [Hi _]. rewrite lookup_app_l in Hi by (simpl; lia).
      do 7 (destruct i as [|i]; [done|]). lia.
    + exists (take (S i - 6) (" "%char :: r')). f_equal. change (§"event: " ++ r') with (§"event:" ++ " "%char :: r').
      rewrite take_app_ge by (simpl; lia). done.
  - exists (" "%char :: r'). rewrite Hw. by case_match.
Qed.
Lemma prepareStreamBody_events contentType body r : html_type contentType = false → body = §"event: " ++ r →
  prepareStreamBody contentType body None None = Ok body.
Proof.
  unfold html_type. intros Hc Hb. unfold prepareStreamBody. destruct (cut §";" (trim_space contentType)) as [[media ?] ?].
  cbn [fst] in Hc. rewrite Hc. destruct (read_slice_prefix body r Hb) as [r' ->].
  destruct (sse_prefix r' _ eq_refl) as [-> ->]. done.
Qed.

Lemma join_size l : l ≠ [] → Z.of_nat (length (join [newline] l)) + 1 = data_size l.
Proof.
  induction l as [|x [|y l] IHl]; intros Hl; [done|simpl; lia|].
  change (join [newline] (x :: y :: l)) with (x ++ [newline] ++ join [newline] (y :: l)). rewrite !length_app.
  change (length [newline]) with 1%nat.
  change (data_size (x :: y :: l)) with (Z.of_nat (length x) + 1 + data_size (y :: l)). rewrite <- IHl by done. lia.
Qed.

(** The lines of a stream, received by a consumer that takes every frame,
    give exactly the frames of their blocks, in order: one frame for each
    block with data, named by its last event field and with its data lines
    joined, then one error frame, the end of the stream or the refusal of a
    block over the limit; and no frame has that many bytes. *)
Lemma readFrames_assembles first idle lines :
  readFrames first idle start_reader (map (λ i, (i, true)) (map Line lines ++ [Closed])) = (frames_of lines, None)
  ∧ ∀ name d, FData name d ∈ frames_of lines → Z.of_nat (length d) < maxStreamLineBytes.
Proof.
  split; [rewrite (readFrames_blocks _ _ _ _ []) by done; unfold frames_of; by rewrite prepend_nil; destruct (blocks lines)|].
  intros name d. unfold frames_of. destruct (blocks lines) as [bs rest]. induction bs as [|b bs IH]; cbn [block_frames].
  { by intros [=]%list_elem_of_singleton. }
  destruct (oversize b) eqn:Ho; [by intros [=]%list_elem_of_singleton|].
  intros [Hb|Hr]%elem_of_app; [|by apply IH]. unfold block_frame in Hb. case_bool_decide as Hne; [by apply not_elem_of_nil in Hb|].
  apply list_elem_of_singleton in Hb. injection Hb as _ ->. unfold oversize in Ho. apply Z.ltb_ge in Ho.
  pose proof (join_size _ Hne). lia.
Qed.

(** C39: Events written as a stream ([event:] and [data:] lines and a blank
    line) are read back by [OpenSSE], its check of the first line, the scanner
    and the assembler, as exactly these events and the end of the stream. *)
Theorem stream_roundtrip first idle contentType es :
  es ≠ [] → Forall sendable es → html_type contentType = false →
  OpenSSE first idle contentType (encode_events es) None None = Ok (map frame_of_event es ++ [FErr EOF]).
Proof.
  intros Hne Hes Hc. unfold OpenSSE. assert (∃ r, encode_events es = §"event: " ++ r) as [r Hr].
  { destruct es as [|e es]; [done|]. eexists. unfold encode_events, unlines. cbn [map concat]. unfold event_lines, event_line.
    cbn [map concat app]. by rewrite <- !app_assoc. }
  rewrite (prepareStreamBody_events _ _ _ Hc Hr). cbn [res_bind]. unfold scanStreamLines.
  assert (Forall (λ l, clean l ∧ Z.of_nat (length l) < maxStreamLineBytes) (concat (map event_lines es))) as Hls.
  { clear -Hes. induction Hes as [|e es He _ IH]; [constructor|]. cbn [map concat]. apply Forall_app. split; [by apply event_lines_clean|done]. }
  unfold encode_events. rewrite raw_lines_unlines by (eapply Forall_impl; [exact Hls|by intros ? [[]]]). rewrite scan_clean by done.
  cbn [app]. rewrite (readFrames_blocks _ _ _ _ []) by done. rewrite prepend_nil.
  rewrite <- frames_of_events by done. unfold frames_of. by destruct (blocks _).
Qed.

(** ** Summaries *)
Lemma redact_all_ascii markers : ∀ text, forallb is_ascii text = true → Forall (λ m, forallb is_ascii m = true) markers →
  ∃ s, redact_all markers text = Ok s ∧ forallb is_ascii s = true.
Proof.
  induction markers as [|m ms IH]; intros text Ht Hm; [by eexists|]. inversion_clear Hm as [|? ? Hm0 Hms].
  simpl. unfold redact. destruct (index m (to_lower text)) as [i|] eqn:Hi; [|by apply IH].
  assert (i + length m ≤ length text)%nat as Hle.
  { apply index_some in Hi as [Hl _]. unfold to_lower in Hl. by rewrite Ht, length_map in Hl. }
  rewrite (proj2 (Nat.leb_le _ _)) by done. cbn [res_bind]. apply IH; [|done].
  rewrite forallb_app. apply andb_true_iff. split; [|done]. rewrite <- (take_drop (i + length m) text), forallb_app in Ht.
  by apply andb_true_iff in Ht as [? _].
Qed.
(** The summary of an ASCII response is computed and at most 259 bytes long. *)
Lemma responseSummary_ascii prefix : forallb is_ascii (join §" " (fields prefix)) = true →
  ∃ s, responseSummary prefix = Ok s ∧ (length s ≤ 259)%nat.
Proof.
  intros Hp. unfold responseSummary. destruct (redact_all_ascii summary_markers _ Hp) as (s & -> & _); [by repeat constructor|].
  cbn [res_bind]. eexists. split; [done|]. case_bool_decide as He; [by vm_compute; lia|].
  destruct (Nat.ltb_spec maxSummaryBytes (length s)); [|unfold maxSummaryBytes in *; lia].
  rewrite length_app, length_take. unfold maxSummaryBytes in *. change (length §"...") with 3%nat. lia.
Qed.
End OpenSSE.

(** The index of a marker is found in the lowered text and used in the text
    itself. Lowering makes an invalid byte three bytes long, so the index can
    lie past the end of the text: the slice is out of range and the call panics. *)
Definition invalid_header : gostring := "255"%char :: §"authorization:".
Lemma responseSummary_panics `{UnicodeTables} : table_lower rune_error = rune_error →
  responseSummary invalid_header = Panic.
Proof.
  intros Ht. assert (to_lower invalid_header = encode_rune rune_error ++ §"authorization:") as Hlow.
  { transitivity (encode_rune (table_lower rune_error) ++ §"authorization:"); [done|by rewrite Ht]. }
  unfold responseSummary. change (join §" " (fields invalid_header)) with invalid_header. unfold summary_markers.
  do 2 (cbn [redact_all]; unfold redact at 1; rewrite Hlow; change (index _ _) with (@None nat) at 1; cbn [res_bind]).
  cbn [redact_all]. unfold redact at 1. by rewrite Hlow.
Qed.

Lemma readFrames_assembles_witness : readFrames §"1s" §"1s" start_reader
    (map (λ i, (i, true)) (map Line [§"event: a"; §"data: x"; §"data:y"; §": ping"; []; []; §"data: z"] ++ [Closed])) =
  ([FData §"a" (§"x" ++ newline :: §"y"); FErr EOF], None).
Proof. rewrite (proj1 (readFrames_assembles _ _ _)). reflexivity. Defined.
Lemma stream_roundtrip_witness : let es := [(§"message", [§"{}"; []]); ([], [§"[DONE]"])] in
  @OpenSSE ascii_tables §"1s" §"1s" §"text/event-stream; charset=utf-8" (encode_events es) None None =
  Ok [FData §"message" (§"{}" ++ [newline]); FData [] §"[DONE]"; FErr EOF].
Proof.
  intros es. apply (@stream_roundtrip ascii_tables §"1s" §"1s" §"text/event-stream; charset=utf-8" es); [done| |reflexivity].
  unfold es, sendable. repeat constructor; try (by vm_compute); unfold clean; apply (bool_decide_unpack _); by vm_compute.
Defined.
