(* ===== verification/Retry.v ===== *)
(** * Classification of failures and retries ([internal/llm/error.go], [retry.go])

    An error is what the program asks of it: its message, the sentinels
    [errors.Is] finds in it and the types [errors.As] finds. The outcome of
    [Retry] depends on its environment only through the context's error at
    three moments of a round and the result of the call, so these are the
    arguments of the loop. *)
From S2P Require Import Prelude GoStr.
Open Scope Z_scope.

Inductive ErrorKind :=
| ErrorUnknown | ErrorCanceled | ErrorTimeout | ErrorDisconnected | ErrorRateLimited | ErrorTemporaryFailure
| ErrorRequestRejected | ErrorPreviousResponseUnavailable | ErrorStreamFailure.
#[export] Instance ErrorKind_eq_dec : EqDecision ErrorKind.
Proof. solve_decision. Defined.

Inductive sentinel :=
| ContextCanceled | IoEOF | ErrUnexpectedEOF | ECONNRESET | ECONNABORTED | ECONNREFUSED | EPIPE | ENETUNREACH | EHOSTUNREACH.
#[export] Instance sentinel_eq_dec : EqDecision sentinel.
Proof. solve_decision. Defined.

(** A [CallError] found by [errors.As], without its cause. *)
Record failure := Failure { f_kind : ErrorKind; f_retryable : bool }.
Record error := Error {
  message : gostring;
  e_is : list sentinel;
  net_timeout : option bool;       (* a [net.Error], and its [Timeout()] *)
  dns_temporary : option bool;     (* a [net.DNSError], and its [IsTemporary] *)
  as_failure : option failure
}.
Record CallError := { Kind : ErrorKind; Retryable : bool; Cause : error }.
Definition is_error (e : error) (s : sentinel) : bool := bool_decide (s ∈ e_is e).

(** A wrapped [CallError] is the one that is returned: its cause is inside [cause]. *)
Definition MapStreamError (cause : error) : CallError :=
  match as_failure cause with
  | Some f => {| Kind := f_kind f; Retryable := f_retryable f; Cause := cause |}
  | None =>
    if is_error cause ContextCanceled then {| Kind := ErrorCanceled; Retryable := false; Cause := cause |}
    else {| Kind := ErrorStreamFailure; Retryable := true; Cause := cause |}
  end.

Definition one_of (l : list gostring) (s : gostring) : bool := existsb (λ x, bool_decide (s = x)) l.
Definition StatusBadRequest : Z := 400.
Definition StatusNotFound : Z := 404.
Definition StatusRequestTimeout : Z := 408.
Definition StatusConflict : Z := 409.
Definition StatusTooEarly : Z := 425.
Definition StatusTooManyRequests : Z := 429.

(** One value of the loop over code and type; [ErrorUnknown] goes on. *)
Definition provider_value (status : Z) (param value : gostring) : ErrorKind :=
  let missing := (status =? 0) || (status =? StatusBadRequest) || (status =? StatusNotFound) in
  if one_of [§"previous_response_not_found"; §"previous_response_id_not_found"; §"invalid_previous_response_id"] value then
    if missing && (bool_decide (param = []) || bool_decide (param = §"previous_response_id"))
    then ErrorPreviousResponseUnavailable else ErrorUnknown
  else if one_of [§"response_not_found"; §"not_found"] value then
    if missing && bool_decide (param = §"previous_response_id") then ErrorPreviousResponseUnavailable else ErrorUnknown
  else if one_of [§"request_timeout"; §"timeout_error"] value then ErrorTimeout
  else if one_of [§"rate_limit_exceeded"; §"rate_limit_error"] value then ErrorRateLimited
  else if one_of [§"server_error"; §"internal_server_error"; §"service_unavailable"; §"overloaded_error"] value
  then ErrorTemporaryFailure
  else if one_of [§"invalid_request_error"; §"invalid_api_key"; §"authentication_error"; §"permission_error";
                  §"permission_denied"; §"insufficient_quota"; §"billing_hard_limit_reached"] value
  then ErrorRequestRejected
  else ErrorUnknown.
Fixpoint provider_values (status : Z) (param : gostring) (values : list gostring) : ErrorKind :=
  match values with
  | [] => ErrorUnknown
  | v :: values =>
    match provider_value status param v with ErrorUnknown => provider_values status param values | k => k end
  end.
Definition status_kind (status : Z) : ErrorKind :=
  if status =? StatusRequestTimeout then ErrorTimeout
  else if status =? StatusTooManyRequests then ErrorRateLimited
  else if (status =? StatusConflict) || (status =? StatusTooEarly) || ((500 <=? status) && (status <? 600))
  then ErrorTemporaryFailure
  else if (400 <=? status) && (status <? 500) then ErrorRequestRejected
  else ErrorUnknown.
Definition MapProviderError (status : Z) (code errorType param : gostring) (cause : error) : CallError :=
  let kind := match provider_values status param [code; errorType] with ErrorUnknown => status_kind status | k => k end in
  {| Kind := kind;
     Retryable := bool_decide (kind = ErrorTimeout) || bool_decide (kind = ErrorDisconnected)
                  || bool_decide (kind = ErrorRateLimited) || bool_decide (kind = ErrorTemporaryFailure);
     Cause := cause |}.

Definition disconnected : list sentinel :=
  [IoEOF; ErrUnexpectedEOF; ECONNRESET; ECONNABORTED; ECONNREFUSED; EPIPE; ENETUNREACH; EHOSTUNREACH].
Definition MapTransportError (cause : error) : CallError :=
  let kind :=
    if is_error cause ContextCanceled then ErrorCanceled
    else if bool_decide (net_timeout cause = Some true) then ErrorTimeout
    else if bool_decide (dns_temporary cause = Some true) then ErrorTemporaryFailure
    else if existsb (is_error cause) disconnected then ErrorDisconnected
    else ErrorUnknown in
  {| Kind := kind;
     Retryable := bool_decide (kind = ErrorTimeout) || bool_decide (kind = ErrorDisconnected)
                  || bool_decide (kind = ErrorTemporaryFailure);
     Cause := cause |}.

(** ** The retry loop *)
Record RetryOptions := { MaxRetries : Z; RetryInitialDelay : Z }.
Record RetryEvent := {
  Attempt : Z; re_MaxRetries : Z; Delay : Z; re_Err : error; re_Kind : ErrorKind
}.
(** A round: the context's error before the call, the call, and the context's
    error after it and while the timer runs. *)
Record round (R : Type) := Round {
  ctx_before : option error; call_result : R; call_err : option error; ctx_after : option error; ctx_wait : option error
}.
Arguments Round {R}. Arguments ctx_before {R}. Arguments call_result {R}. Arguments call_err {R}.
Arguments ctx_after {R}. Arguments ctx_wait {R}.

(** [delay *= 2], unless it would overflow. *)
Definition next_delay (delay : Z) : Z := if delay <=? max_int64 / 2 then wrap64 (delay * 2) else delay.

(** What [Retry] returns, the number of calls it made and the events it published. *)
Record retried (R : Type) := Retried { rt_result : R; rt_err : option error; rt_calls : Z; rt_events : list RetryEvent }.
Arguments Retried {R}. Arguments rt_result {R}. Arguments rt_err {R}. Arguments rt_calls {R}. Arguments rt_events {R}.
Definition after_call {R} (o : retried R) (ev : list RetryEvent) : retried R :=
  Retried (rt_result o) (rt_err o) (rt_calls o + 1) (ev ++ rt_events o).

(** [rounds] rounds are left: [MaxRetries + 1 - attempt]. *)
Fixpoint retry_from {R} (opts : RetryOptions) (env : nat → round R) (rounds attempt : nat) (delay : Z) (result : R) : retried R :=
  match rounds with
  | O => Retried result None 0 []
  | S rounds =>
    let rd := env attempt in
    match ctx_before rd with
    | Some e => Retried result (Some e) 0 []
    | None =>
      let result := call_result rd in
      match call_err rd with
      | None => Retried result None 1 []
      | Some err =>
        match ctx_after rd with
        | Some e => Retried result (Some e) 1 []
        | None =>
          match as_failure err with
          | None => Retried result (Some err) 1 []
          | Some f =>
            if negb (f_retryable f) || (Z.of_nat attempt =? MaxRetries opts) then Retried result (Some err) 1 []
            else
              let ev := {| Attempt := Z.of_nat attempt + 1; re_MaxRetries := MaxRetries opts; Delay := delay;
                           re_Err := err; re_Kind := f_kind f |} in
              match ctx_wait rd with
              | Some e => Retried result (Some e) 1 [ev]
              | None => after_call (retry_from opts env rounds (S attempt) (next_delay delay) result) [ev]
              end
          end
        end
      end
    end
  end.
Definition Retry {R} (opts : RetryOptions) (env : nat → round R) (zero : R) : retried R :=
  retry_from opts env (Z.to_nat (MaxRetries opts + 1)) 0 (RetryInitialDelay opts) zero.

(** ** Properties *)

(** A kind says whether a failure may be tried again. *)
Definition retryable_kind (k : ErrorKind) : bool :=
  match k with ErrorTimeout | ErrorDisconnected | ErrorRateLimited | ErrorTemporaryFailure => true | _ => false end.
Lemma MapProviderError_kind status code type param cause :
  let e := MapProviderError status code type param cause in Retryable e = retryable_kind (Kind e).
Proof. unfold MapProviderError. cbn zeta. cbn [Retryable Kind]. by generalize (match provider_values status param [code; type] with ErrorUnknown => status_kind status | k => k end); intros []. Qed.
Lemma MapTransportError_kind cause : let e := MapTransportError cause in
  Retryable e = retryable_kind (Kind e) ∧ Kind e ≠ ErrorRateLimited.
Proof. unfold MapTransportError. by repeat case_match; simplify_eq. Qed.

(** The delays of the specification: doubled until the next doubling would pass [max_int64]. *)
Fixpoint doublings (n : nat) (d : Z) : list Z := match n with O => [] | S n => d :: doublings n (next_delay d) end.
Lemma next_delay_bounds d : 0 < d ≤ max_int64 → d ≤ next_delay d ≤ max_int64 ∧ (next_delay d = 2 * d ∨ next_delay d = d ∧ max_int64 < 2 * d).
Proof.
  intros Hd. unfold next_delay, max_int64 in *. destruct (Z.leb_spec d (9223372036854775807 / 2)) as [Hl|Hl].
  - assert (d * 2 ≤ 9223372036854775806) by (change (9223372036854775807 / 2) with 4611686018427387903 in Hl; lia).
    rewrite wrap64_id by lia. lia.
  - change (9223372036854775807 / 2) with 4611686018427387903 in Hl. lia.
Qed.
Lemma doublings_bounds n : ∀ d, 0 < d ≤ max_int64 → Forall (λ x, d ≤ x ≤ max_int64) (doublings n d).
Proof.
  induction n as [|n IH]; intros d Hd; constructor; [lia|]. destruct (next_delay_bounds d Hd) as [? _].
  eapply Forall_impl; [apply IH; lia|]. simpl. lia.
Qed.

Section Loop.
Context {R : Type} (opts : RetryOptions) (env : nat → round R).

(** The failure of a round allows another one, and its context is alive up to the wait. *)
Definition may_retry (i : nat) : Prop :=
  ctx_before (env i) = None ∧ ctx_after (env i) = None
  ∧ ∃ err f, call_err (env i) = Some err ∧ as_failure err = Some f ∧ f_retryable f = true.

(** A run of the loop from round [attempt] on: its events are numbered, with
    doubled delays, one for each failure that allowed another round; each call
    but the last is one of these; the result is that of the last call, and the
    run succeeds exactly when that call did. *)
Record run_ok (attempt : nat) (delay : Z) (result : R) (o : retried R) : Prop := {
  ro_bound : 0 ≤ rt_calls o ≤ Z.max 0 (MaxRetries opts + 1 - Z.of_nat attempt);
  ro_events : let k := length (rt_events o) in
    Z.of_nat k ≤ rt_calls o ≤ Z.of_nat k + 1 ∧ map Delay (rt_events o) = doublings k delay
    ∧ map Attempt (rt_events o) = map (λ i, Z.of_nat i + 1) (seq attempt k)
    ∧ ∀ i, (i < k)%nat → may_retry (attempt + i);
  ro_result : rt_result o = match Z.to_nat (rt_calls o) with O => result | S n => call_result (env (attempt + n)%nat) end;
  ro_err : 0 ≤ MaxRetries opts - Z.of_nat attempt → (rt_err o = None ↔ rt_calls o = Z.of_nat (length (rt_events o)) + 1
    ∧ call_err (env (attempt + length (rt_events o))%nat) = None)
}.

Lemma retry_from_ok rounds : ∀ attempt delay result, Z.of_nat rounds = Z.max 0 (MaxRetries opts + 1 - Z.of_nat attempt) →
  run_ok attempt delay result (retry_from opts env rounds attempt delay result).
Proof.
  induction rounds as [|rounds IH]; intros attempt delay result Hr; cbn [retry_from].
  { split; simpl; [lia|split_and!; [lia|lia|done|done|lia]|done|lia]. }
  destruct (ctx_before (env attempt)) as [e|] eqn:Hb.
  { split; simpl; [lia|split_and!; [lia|lia|done|done|lia]|done|]. intros _. split; [done|lia]. }
  assert (∀ oerr, (oerr = None ↔ call_err (env attempt) = None) →
          run_ok attempt delay result (Retried (call_result (env attempt)) oerr 1 [])) as Hone.
  { intros oerr Ho. split; simpl; [lia|split_and!; [lia|lia|done|done|lia]|by rewrite Nat.add_0_r|].
    intros _. rewrite Nat.add_0_r, Ho. by split; [|intros []]. }
  destruct (call_err (env attempt)) as [err|] eqn:Hc; [|by apply Hone].
  destruct (ctx_after (env attempt)) as [e|] eqn:Ha; [by apply Hone|].
  destruct (as_failure err) as [f|] eqn:Hf; [|by apply Hone].
  destruct (f_retryable f) eqn:Hret; [|by apply Hone]. cbn [negb orb].
  destruct (Z.eqb_spec (Z.of_nat attempt) (MaxRetries opts)) as [Heq|Hne]; [by apply Hone|].
  assert (may_retry attempt) as Hmay by (split_and!; eauto).
  destruct (ctx_wait (env attempt)) as [e|] eqn:Hw.
  - split; simpl; [lia|split_and!; [lia|lia|done|done|]|by rewrite Nat.add_0_r|].
    + intros i Hi. assert (i = 0%nat) as -> by lia. by rewrite Nat.add_0_r.
    + intros _. split; [done|lia].
  - destruct (IH (S attempt) (next_delay delay) (call_result (env attempt))) as [IHb IHe IHr IHx]; [lia|].
    set (o := retry_from _ _ _ _ _ _) in *. destruct IHe as (Hk & Hd & Hat & Hm). split; simpl.
    + lia.
    + split_and!; [lia|lia|by rewrite Hd|by rewrite Hat|]. intros [|i] Hi; [by rewrite Nat.add_0_r|].
      replace (attempt + S i)%nat with (S attempt + i)%nat by lia. apply Hm. lia.
    + rewrite IHr. replace (Z.to_nat (rt_calls o + 1)) with (S (Z.to_nat (rt_calls o))) by lia.
      destruct (Z.to_nat (rt_calls o)) as [|n]; [by rewrite Nat.add_0_r|]. f_equal. f_equal. lia.
    + intros _. rewrite IHx by lia. replace (attempt + S (length (rt_events o)))%nat with (S attempt + length (rt_events o))%nat by lia.
      split; intros [? ?]; (split; [lia|done]).
Qed.

(** [Retry] makes at most [MaxRetries + 1] calls; its result is that of
    the last call and it succeeds exactly when that call does; before the last
    call, each failed in a way marked as retryable, with the context alive,
    and was announced with its number and delay. The delays never decrease,
    double until the next doubling would overflow and stay positive 64-bit
    integers, for any number of retries. *)
Lemma Retry_bounded (zero : R) : 0 ≤ MaxRetries opts → 0 < RetryInitialDelay opts ≤ max_int64 →
  let o := Retry opts env zero in
  0 ≤ rt_calls o ≤ MaxRetries opts + 1
  ∧ (rt_err o = None ↔ rt_calls o = Z.of_nat (length (rt_events o)) + 1 ∧ call_err (env (length (rt_events o))) = None)
  ∧ (rt_result o = match Z.to_nat (rt_calls o) with O => zero | S n => call_result (env n) end)
  ∧ Z.of_nat (length (rt_events o)) ≤ rt_calls o ≤ Z.of_nat (length (rt_events o)) + 1
  ∧ (∀ i, (i < length (rt_events o))%nat → may_retry i)
  ∧ map Delay (rt_events o) = doublings (length (rt_events o)) (RetryInitialDelay opts)
  ∧ Forall (λ d, RetryInitialDelay opts ≤ d ≤ max_int64) (map Delay (rt_events o)).
Proof.
  intros Hm Hd o. destruct (retry_from_ok (Z.to_nat (MaxRetries opts + 1)) 0 (RetryInitialDelay opts) zero) as [Hb He Hr Hx]; [lia|].
  fold (Retry opts env zero) in *. fold o in Hb, He, Hr, Hx. destruct He as (Hk & Hdel & Hat & Hmay).
  split_and!; [lia|lia|apply Hx; lia|done|lia|lia|exact Hmay|done|]. rewrite Hdel. by apply doublings_bounds.
Qed.
End Loop.

Definition timeout_error : error :=
  {| message := §"timeout"; e_is := []; net_timeout := Some true; dns_temporary := None;
     as_failure := Some (Failure ErrorTimeout true) |}.
Definition fails_twice (i : nat) : round Z :=
  Round None (Z.of_nat i) (if (i <? 2)%nat then Some timeout_error else None) None None.
Lemma Retry_bounded_witness :
  let opts := {| MaxRetries := 3; RetryInitialDelay := 2 ^ 62 |} in let o := Retry opts fails_twice (-1) in
  rt_calls o = 3 ∧ rt_err o = None ∧ map Delay (rt_events o) = [2 ^ 62; 2 ^ 62]
  ∧ Forall (λ d, 2 ^ 62 ≤ d ≤ max_int64) (map Delay (rt_events o)).
Proof.
  intros opts o. destruct (Retry_bounded opts fails_twice (-1)) as (_ & _ & _ & _ & _ & _ & Hd); [simpl; lia|by vm_compute|].
  split_and!; [reflexivity|reflexivity|reflexivity|exact Hd].
Defined.
