(* ===== verification/ToolPermit.v ===== *)
(** * Tool permissions and confirmations ([internal/security/security.go], [tool/execution/runner.go], [agent/confirmation/confirmation.go])

    Whether an actor may use a tool of a risk level, whether the call has to be
    confirmed, and the confirmation itself: what a waiting call gets from the
    decision of its user, and the calls a session has confirmed for good. The
    wait for a decision is the one of the turn lifecycle; here its result and
    the errors of sending messages are arguments. Log records are left out. *)
From S2P Require Import Prelude GoStr Segment Turn HookPipeline.
Open Scope Z_scope.

(** ** Risk levels, which Go keeps as strings *)
Abbreviation RiskLevel := gostring (only parsing).
Definition RiskSafe : RiskLevel := §"safe".
Definition RiskLow : RiskLevel := §"low".
Definition RiskMedium : RiskLevel := §"medium".
Definition RiskHigh : RiskLevel := §"high".
Definition RiskCritical : RiskLevel := §"critical".
Definition riskRank (risk : RiskLevel) : Z :=
  if bool_decide (risk = RiskSafe) then 0
  else if bool_decide (risk = RiskLow) then 1
  else if bool_decide (risk = RiskMedium) then 2
  else if bool_decide (risk = RiskHigh) then 3
  else if bool_decide (risk = RiskCritical) then 4
  else 3.
Definition CompareRisk (a b : RiskLevel) : Z := riskRank a - riskRank b.
Definition known_risks : list RiskLevel := [RiskSafe; RiskLow; RiskMedium; RiskHigh; RiskCritical].
Definition ParseRisk `{UnicodeTables} (value : gostring) (fallback : RiskLevel) : RiskLevel :=
  let value := to_lower (trim_space value) in if bool_decide (value ∈ known_risks) then value else fallback.

(** ** Permissions *)
Record Permission := {
  UserMaxToolRisk : RiskLevel;
  SuperadminConfirmRisk : RiskLevel;
  Superadmins : gmap gostring (gset gostring)
}.
Definition NewPermission `{UnicodeTables} (userMax superadminConfirm : gostring) (superadmins : gmap gostring (list gostring)) : Permission :=
  {| UserMaxToolRisk := ParseRisk userMax RiskLow; SuperadminConfirmRisk := ParseRisk superadminConfirm RiskHigh;
     Superadmins := (λ ids, list_to_set ids) <$> superadmins |}.
Definition RoleUser : gostring := §"user".
Definition RoleSuperadmin : gostring := §"superadmin".
Definition IsSuperadmin (p : Permission) (platform id : gostring) : bool :=
  bool_decide (id ∈ default ∅ (Superadmins p !! platform)).
Definition actor_role (p : Permission) (platform id : gostring) : gostring :=
  if IsSuperadmin p platform id then RoleSuperadmin else RoleUser.
Definition CanUseTool (p : Permission) (role : gostring) (risk : RiskLevel) (ownerScoped : bool) : bool :=
  bool_decide (role = RoleSuperadmin) || ownerScoped || (CompareRisk risk (UserMaxToolRisk p) <=? 0).
Definition NeedsToolConfirmation (p : Permission) (role : gostring) (risk : RiskLevel) : bool :=
  let threshold := if bool_decide (role = RoleSuperadmin) then SuperadminConfirmRisk p else RiskHigh in
  0 <=? CompareRisk risk threshold.
Record ToolPermissionResult := { tp_Allowed : bool; NeedsConfirmation : bool; tp_Reason : gostring }.
Definition refused (reason : gostring) : ToolPermissionResult := {| tp_Allowed := false; NeedsConfirmation := false; tp_Reason := reason |}.
Definition CheckTool (p : Permission) (role tool : gostring) (risk : RiskLevel) (ownerScoped superadminOnly autoConfirmShell : bool)
  : ToolPermissionResult :=
  if superadminOnly && negb (bool_decide (role = RoleSuperadmin)) then refused §"tool_requires_superadmin"
  else if negb (CanUseTool p role risk ownerScoped) then refused §"tool_risk_above_allowed_level"
  else if bool_decide (tool = §"shell") && autoConfirmShell then
    if bool_decide (risk = RiskCritical) then refused §"background_shell_rejected"
    else {| tp_Allowed := true; NeedsConfirmation := false; tp_Reason := §"background_shell_auto_confirmed" |}
  else {| tp_Allowed := true; NeedsConfirmation := NeedsToolConfirmation p role risk; tp_Reason := [] |}.

(** ** Messages of tools *)
Inductive MessageRole := RoleSystem_ | RoleUser_ | RoleAssistant_ | RoleTool_ | RoleOther (name : gostring).
#[export] Instance MessageRole_eq_dec : EqDecision MessageRole.
Proof. solve_decision. Defined.
Record LLMMessage := {
  lm_Role : MessageRole; lm_Segments : list MessageSegment; lm_Name : gostring; lm_ToolCallID : gostring;
  lm_ToolCalls : list ToolCallRequest
}.
Definition set_segments (m : LLMMessage) (s : list MessageSegment) : LLMMessage :=
  {| lm_Role := lm_Role m; lm_Segments := s; lm_Name := lm_Name m; lm_ToolCallID := lm_ToolCallID m; lm_ToolCalls := lm_ToolCalls m |}.
Definition toolMessage (name id content : gostring) : LLMMessage :=
  {| lm_Role := RoleTool_; lm_Segments := TextSegments content; lm_Name := name; lm_ToolCallID := id; lm_ToolCalls := [] |}.
Definition no_message : LLMMessage :=
  {| lm_Role := RoleOther []; lm_Segments := []; lm_Name := []; lm_ToolCallID := []; lm_ToolCalls := [] |}.

(** ** Confirmations *)
Record ConfirmResult := { Allowed : bool; cr_Extra : gostring; cr_Message : LLMMessage; Stopped : bool }.
Definition allowed (extra : gostring) : ConfirmResult := {| Allowed := true; cr_Extra := extra; cr_Message := no_message; Stopped := false |}.
Definition denied (m : LLMMessage) : ConfirmResult := {| Allowed := false; cr_Extra := []; cr_Message := m; Stopped := false |}.
(** An error of the tools: its text, and whether it is a [PolicyDeniedError] or a cancellation. *)
Record toolError := { te_Text : gostring; te_Denied : bool; te_Canceled : bool }.
Definition PolicyDeniedError (text : gostring) : toolError := {| te_Text := text; te_Denied := true; te_Canceled := false |}.

(** What each session has confirmed for all further calls. *)
Record auto := { autoConfirmSession : gset gostring; autoConfirmTools : gmap gostring (gset gostring) }.
Definition tools_of (a : auto) (session : gostring) : gset gostring := default ∅ (autoConfirmTools a !! session).
Definition isSessionAutoConfirmed (a : auto) (session : gostring) : bool := bool_decide (session ∈ autoConfirmSession a).
Definition isToolAutoConfirmed (a : auto) (session tool : gostring) : bool := bool_decide (tool ∈ tools_of a session).
Definition setSessionAutoConfirmed (a : auto) (session : gostring) : auto :=
  {| autoConfirmSession := {[session]} ∪ autoConfirmSession a; autoConfirmTools := autoConfirmTools a |}.
Definition setToolAutoConfirmed (a : auto) (session tool : gostring) : auto :=
  {| autoConfirmSession := autoConfirmSession a;
     autoConfirmTools := <[session := {[tool]} ∪ tools_of a session]> (autoConfirmTools a) |}.
Definition ForgetSession (a : auto) (session : gostring) : auto :=
  {| autoConfirmSession := autoConfirmSession a ∖ {[session]}; autoConfirmTools := delete session (autoConfirmTools a) |}.

(** The world during one confirmation: whether the turn accepts the wait,
    whether the context has ended, the result of the wait and of each message. *)
Record confirm_env := {
  ce_accepts : bool; ce_ctx : bool; ce_prompt : option toolError; ce_result : RiskResult; ce_notice : option toolError
}.
Definition stopped_confirm (extra : gostring) (m : LLMMessage) : ConfirmResult :=
  {| Allowed := false; cr_Extra := extra; cr_Message := m; Stopped := true |}.
Definition call_text (call : ToolCallRequest) (s : gostring) : gostring := §"tool call " ++ tc_Name call ++ s.
Definition call_message (call : ToolCallRequest) (s : gostring) : LLMMessage :=
  toolMessage (tc_Name call) (tc_ID call) (call_text call s).

Section Confirm.
Context `{UnicodeTables}.
Definition AwaitToolConfirmation (a : auto) (env : confirm_env) (session : gostring) (call : ToolCallRequest)
  : auto * ConfirmResult * option toolError :=
  if isSessionAutoConfirmed a session || isToolAutoConfirmed a session (tc_Name call) then (a, allowed [], None)
  else
    let prompt_failed := if ce_accepts env && negb (ce_ctx env) then ce_prompt env else None in
    match prompt_failed with
    | Some err => (a, stopped_confirm [] no_message, Some {| te_Text := §"send risk confirmation: " ++ te_Text err; te_Denied := te_Denied err;
                                                             te_Canceled := te_Canceled err |})
    | None =>
      let resp := Decision_ (ce_result env) in
      match Outcome_ (ce_result env) with
      | RiskExpired => (a, stopped_confirm (Extra resp) (call_message call §" confirmation expired"), ce_notice env)
      | RiskCanceled | RiskStale => (a, stopped_confirm (Extra resp) (call_message call §" stopped by user"), None)
      | RiskAnswered =>
        match Turn.Action resp with
        | RiskConfirmTool => (setToolAutoConfirmed a session (tc_Name call), allowed (Extra resp), ce_notice env)
        | RiskConfirmAll => (setSessionAutoConfirmed a session, allowed (Extra resp), ce_notice env)
        | RiskReject =>
          let reason := trim_space (Reason resp) in
          let reason := if bool_decide (reason = []) then §"user rejected" else reason in
          (a, {| Allowed := false; cr_Extra := Extra resp; cr_Message := call_message call (§" rejected by user: " ++ reason);
                 Stopped := false |}, None)
        | _ => (a, allowed (Extra resp), None)
        end
      end
    end.

(** The tool a call resolves to: a remote one of a task event, or a registered one with its definition. *)
Inductive resolved := ResolvedELwisp | ResolvedNative (ownerScoped superadminOnly : bool).
Definition confirm (p : Permission) (a : auto) (env : confirm_env) (role session : gostring) (call : ToolCallRequest) (tool : resolved)
    (risk : RiskLevel) (autoConfirmShell : bool) : auto * ConfirmResult * option toolError :=
  match tool with
  | ResolvedELwisp => (a, allowed [], None)
  | ResolvedNative ownerScoped superadminOnly =>
    let permission := CheckTool p role (tc_Name call) risk ownerScoped superadminOnly autoConfirmShell in
    if negb (tp_Allowed permission) then
      if bool_decide (tp_Reason permission = §"tool_requires_superadmin") then
        (a, denied (call_message call §" denied: requires superadmin role"), Some (PolicyDeniedError §"tool requires superadmin"))
      else if bool_decide (tp_Reason permission = §"background_shell_rejected") then
        (a, denied (toolMessage (tc_Name call) (tc_ID call)
              §"后台沙盒禁止执行 critical 风险 shell 命令。请改用相对路径，把文件限制在当前 sandbox 目录内，避免绝对路径、.. 逃逸和危险命令；若仍无法完成，请在最终报告中说明阻塞原因。"),
         Some (PolicyDeniedError §"background shell rejected"))
      else
        (a, denied (call_message call (§" denied: risk " ++ risk ++ §" is above your allowed tool level")),
         Some (PolicyDeniedError §"tool risk above allowed level"))
    else if negb (NeedsConfirmation permission) then (a, allowed [], None)
    else AwaitToolConfirmation a env session call
  end.
End Confirm.

(** * No tool runs without permission *)

(** ** Risk levels are a total preorder, and unknown ones count as high *)
Lemma riskRank_range r : 0 ≤ riskRank r ≤ 4.
Proof. unfold riskRank. repeat case_bool_decide; lia. Qed.
Lemma riskRank_unknown r : r ∉ known_risks → riskRank r = riskRank RiskHigh.
Proof.
  unfold known_risks, riskRank. rewrite !not_elem_of_cons. intros (H1 & H2 & H3 & H4 & H5 & _).
  repeat (rewrite bool_decide_eq_false_2 by done). done.
Qed.
Lemma ParseRisk_known `{UnicodeTables} v fallback : fallback ∈ known_risks → ParseRisk v fallback ∈ known_risks.
Proof. intros Hf. unfold ParseRisk. by case_bool_decide. Qed.

(** ** Permissions *)

(** The rule for using a tool, apart from confirming it. *)
Definition may_use (p : Permission) (role tool : gostring) (risk : RiskLevel) (ownerScoped superadminOnly autoShell : bool) : Prop :=
  (superadminOnly = true → role = RoleSuperadmin)
  ∧ (role = RoleSuperadmin ∨ ownerScoped = true ∨ riskRank risk ≤ riskRank (UserMaxToolRisk p))
  ∧ ¬ (tool = §"shell" ∧ autoShell = true ∧ risk = RiskCritical).
Definition threshold (p : Permission) (role : gostring) : Z :=
  if decide (role = RoleSuperadmin) then riskRank (SuperadminConfirmRisk p) else riskRank RiskHigh.
Definition in_sandbox (tool : gostring) (autoShell : bool) : Prop := tool = §"shell" ∧ autoShell = true.

Lemma CanUseTool_spec p role risk owner : CanUseTool p role risk owner = true ↔
  role = RoleSuperadmin ∨ owner = true ∨ riskRank risk ≤ riskRank (UserMaxToolRisk p).
Proof.
  unfold CanUseTool, CompareRisk. rewrite !orb_true_iff, bool_decide_eq_true, Z.leb_le. split; [intros [[?|?]|?]|intros [?|[?|?]]]; auto.
  - right; right; lia.
  - right; lia.
Qed.
Lemma NeedsToolConfirmation_spec p role risk : NeedsToolConfirmation p role risk = true ↔ threshold p role ≤ riskRank risk.
Proof. unfold NeedsToolConfirmation, threshold, CompareRisk. case_bool_decide; case_decide; try done; rewrite Z.leb_le; lia. Qed.
Lemma CheckTool_spec p role tool risk owner super shell :
  (tp_Allowed (CheckTool p role tool risk owner super shell) = true ↔ may_use p role tool risk owner super shell)
  ∧ (tp_Allowed (CheckTool p role tool risk owner super shell) = true →
     NeedsConfirmation (CheckTool p role tool risk owner super shell) = true ↔ ¬ in_sandbox tool shell ∧ threshold p role ≤ riskRank risk).
Proof.
  unfold CheckTool, may_use, in_sandbox. rewrite <- CanUseTool_spec.
  destruct super, (decide (role = RoleSuperadmin)) as [Hr|Hr];
    rewrite ?(bool_decide_eq_true_2 _ Hr), ?(bool_decide_eq_false_2 _ Hr); simpl;
    try (split; [split; [done|intros (Hs & _); by destruct (Hr (Hs eq_refl))]|done]).
  all: destruct (CanUseTool p role risk owner) eqn:Hc; simpl;
    [|split; [split; [done|intros (_ & Hs & _); done]|done]].
  all: destruct (decide (tool = §"shell")) as [Ht|Ht];
    [rewrite (bool_decide_eq_true_2 _ Ht)|rewrite (bool_decide_eq_false_2 _ Ht)]; simpl.
  all: destruct shell; simpl; [try (destruct (decide (risk = RiskCritical)) as [Hk|Hk];
    [rewrite (bool_decide_eq_true_2 _ Hk)|rewrite (bool_decide_eq_false_2 _ Hk)]; simpl)|].
  all: rewrite ?NeedsToolConfirmation_spec; intuition congruence.
Qed.

(** ** Confirmations *)
Definition agreed (r : RiskResult) : Prop := Outcome_ r = RiskAnswered ∧ Turn.Action (Decision_ r) ≠ RiskReject.
Definition auto_confirmed (a : auto) (session tool : gostring) : Prop :=
  session ∈ autoConfirmSession a ∨ tool ∈ tools_of a session.

Section Confirm.
Context `{UnicodeTables}.
Lemma auto_spec a session tool : isSessionAutoConfirmed a session || isToolAutoConfirmed a session tool = true ↔ auto_confirmed a session tool.
Proof. unfold isSessionAutoConfirmed, isToolAutoConfirmed. by rewrite orb_true_iff, !bool_decide_eq_true. Qed.
Lemma AwaitToolConfirmation_allows a env session call :
  Allowed (AwaitToolConfirmation a env session call).1.2 = true →
  auto_confirmed a session (tc_Name call) ∨ agreed (ce_result env).
Proof.
  unfold AwaitToolConfirmation, agreed. destruct (isSessionAutoConfirmed _ _ || isToolAutoConfirmed _ _ _) eqn:Ha; [rewrite auto_spec in Ha; by left|].
  destruct (if ce_accepts env && negb (ce_ctx env) then _ else _); simpl; [done|]. destruct (Outcome_ (ce_result env)); try done.
  destruct (Turn.Action _) eqn:Hd; simpl; try done; intros _; by right.
Qed.
(** Only an answer of the user of the session adds to what it has confirmed for good. *)
Lemma AwaitToolConfirmation_auto a env session call s tool :
  auto_confirmed (AwaitToolConfirmation a env session call).1.1 s tool →
  auto_confirmed a s tool
  ∨ s = session ∧ agreed (ce_result env) ∧
    (Turn.Action (Decision_ (ce_result env)) = RiskConfirmAll
     ∨ Turn.Action (Decision_ (ce_result env)) = RiskConfirmTool ∧ tool = tc_Name call).
Proof.
  unfold AwaitToolConfirmation, agreed. destruct (isSessionAutoConfirmed _ _ || isToolAutoConfirmed _ _ _); [by left|]. destruct (if ce_accepts env && negb (ce_ctx env) then _ else _); simpl; [by left|].
  destruct (Outcome_ (ce_result env)); try by left.
  destruct (Turn.Action _) eqn:Hd; simpl; try (by left); unfold auto_confirmed, tools_of; simpl.
  - destruct (decide (s = session)) as [->|Hs].
    + rewrite lookup_insert_eq. simpl. rewrite elem_of_union, elem_of_singleton. unfold tools_of. intuition congruence.
    + rewrite lookup_insert_ne by done. by left.
  - rewrite elem_of_union, elem_of_singleton. intuition congruence.
Qed.

(** ** Sequences of confirmations *)
Record request := {
  q_env : confirm_env; q_role : gostring; q_session : gostring; q_call : ToolCallRequest; q_tool : resolved; q_risk : gostring; q_shell : bool
}.
Inductive event := Confirm (q : request) | Forget (session : gostring).
Definition confirm_request (p : Permission) (a : auto) (q : request) : auto * ConfirmResult * option toolError :=
  confirm p a (q_env q) (q_role q) (q_session q) (q_call q) (q_tool q) (q_risk q) (q_shell q).
Definition after (p : Permission) (a : auto) (e : event) : auto :=
  match e with Confirm q => (confirm_request p a q).1.1 | Forget s => ForgetSession a s end.
Definition nothing_confirmed : auto := {| autoConfirmSession := ∅; autoConfirmTools := ∅ |}.

(** The user of the session has agreed to all calls of the tool in it. *)
Definition agrees_for_good (session tool : gostring) (e : event) : Prop :=
  match e with
  | Confirm q => q_session q = session ∧ agreed (ce_result (q_env q))
      ∧ (Turn.Action (Decision_ (ce_result (q_env q))) = RiskConfirmAll
         ∨ Turn.Action (Decision_ (ce_result (q_env q))) = RiskConfirmTool ∧ tool = tc_Name (q_call q))
  | Forget _ => False
  end.
Definition confirmed_before (session tool : gostring) (events : list event) : Prop :=
  ∃ l1 e l2, events = l1 ++ e :: l2 ∧ agrees_for_good session tool e ∧ Forget session ∉ l2.

Lemma confirm_auto p a q s tool : auto_confirmed (confirm_request p a q).1.1 s tool →
  auto_confirmed a s tool ∨ agrees_for_good s tool (Confirm q).
Proof.
  unfold confirm_request, confirm. destruct (q_tool q) as [|owner super]; [by left|].
  destruct (tp_Allowed _); simpl; [|repeat case_bool_decide; by left]. destruct (NeedsConfirmation _); simpl; [|by left].
  intros [Ha|(-> & Ha & Hd)]%AwaitToolConfirmation_auto; [by left|by right].
Qed.
Lemma auto_confirmed_trace p events s tool : auto_confirmed (foldl (after p) nothing_confirmed events) s tool → confirmed_before s tool events.
Proof.
  induction events as [|e events IH] using rev_ind; simpl.
  - unfold auto_confirmed, tools_of. simpl. rewrite lookup_empty. by intros [?%elem_of_empty|?%elem_of_empty].
  - rewrite foldl_app. simpl. set (a := foldl _ _ _) in *. intros Ha.
    assert ((auto_confirmed a s tool ∧ e ≠ Forget s) ∨ agrees_for_good s tool e) as [[Hold He]|Hnew].
    + destruct e as [q|s']; simpl in Ha.
      * apply confirm_auto in Ha as [Ha|Ha]; [by left|by right].
      * left. unfold auto_confirmed, tools_of in *. simpl in Ha. rewrite elem_of_difference, elem_of_singleton in Ha.
        destruct (decide (s' = s)) as [->|Hs]; [rewrite lookup_delete_eq in Ha; by destruct Ha as [[_ []]|[]%elem_of_empty]|].
        rewrite lookup_delete_ne in Ha by done. split; [|congruence]. tauto.
    + destruct (IH Hold) as (l1 & e' & l2 & -> & He' & Hf). exists l1, e', (l2 ++ [e]). rewrite <- app_assoc. split_and!; [done..|].
      rewrite not_elem_of_app, list_elem_of_singleton. split; [done|congruence].
    + exists events, e, []. split_and!; [done..|]. apply not_elem_of_nil.
Qed.

Definition permitted (p : Permission) (events : list event) (q : request) : Prop :=
  match q_tool q with
  | ResolvedELwisp => True
  | ResolvedNative owner super =>
    let tool := tc_Name (q_call q) in
    may_use p (q_role q) tool (q_risk q) owner super (q_shell q)
    ∧ (in_sandbox tool (q_shell q) ∨ riskRank (q_risk q) < threshold p (q_role q)
       ∨ agreed (ce_result (q_env q)) ∨ confirmed_before (q_session q) tool events)
  end.

Lemma confirm_permits p events q : Allowed (confirm_request p (foldl (after p) nothing_confirmed events) q).1.2 = true → permitted p events q.
Proof.
  unfold confirm_request, confirm, permitted. destruct (q_tool q) as [|owner super]; [done|]. set (a := foldl _ _ _).
  destruct (CheckTool_spec p (q_role q) (tc_Name (q_call q)) (q_risk q) owner super (q_shell q)) as [Hu Hn].
  destruct (tp_Allowed _) eqn:Ht; simpl; [|by repeat case_bool_decide]. specialize (Hn eq_refl). destruct (NeedsConfirmation _) eqn:Hconf; simpl.
  - intros Hr. split; [by apply Hu|]. right; right. apply AwaitToolConfirmation_allows in Hr as [Hauto|Hok]; [|by left].
    right. by eapply auto_confirmed_trace.
  - intros _. split; [by apply Hu|]. unfold in_sandbox in *.
    destruct (decide (tc_Name (q_call q) = §"shell" ∧ q_shell q = true)) as [Hs|Hs]; [by left|right; left].
    destruct (Z.lt_ge_cases (riskRank (q_risk q)) (threshold p (q_role q))) as [|Hge]; [done|]. exfalso.
    destruct Hn as [_ Hn]. by discriminate Hn.
Qed.
Definition answers_request (q : request) (m : LLMMessage) : Prop :=
  lm_Role m = RoleTool_ ∧ lm_Name m = tc_Name (q_call q) ∧ lm_ToolCallID m = tc_ID (q_call q).
Lemma confirm_answers p a q : let r := (confirm_request p a q).1.2 in
  Allowed r = false → Stopped r = true ∨ answers_request q (cr_Message r).
Proof.
  unfold confirm_request, confirm. destruct (q_tool q) as [|owner super]; [done|]. destruct (tp_Allowed _); simpl.
  - destruct (NeedsConfirmation _); simpl; [|done]. unfold AwaitToolConfirmation. repeat case_match; simpl; try done; try (by left); by right.
  - intros _. right. by repeat case_bool_decide.
Qed.

(** A registered tool is let through only to an actor who may use it at
    its risk, and at or above the confirmation threshold only when the user
    agrees to this call or agreed before, in the same session and without the
    session being forgotten since, to all its calls or to all calls of the
    tool; the one exception is a shell below the critical level that the task
    confines to its sandbox. A call that is not let through is answered by a
    message with its name and its ID, or stops the batch. *)
Lemma tool_permitted p events q :
  let '(_, r, _) := confirm_request p (foldl (after p) nothing_confirmed events) q in
  (Allowed r = true → permitted p events q)
  ∧ (Allowed r = false → Stopped r = true ∨
      answers_request q (cr_Message r)).
Proof.
  pose proof (confirm_permits p events q) as Hp. pose proof (confirm_answers p (foldl (after p) nothing_confirmed events) q) as Ha.
  by destruct (confirm_request _ _ _) as [[a' r] err].
Qed.
End Confirm.
