(* ===== verification/ToolRegistry.v ===== *)
(** * The registry of tools ([tool/registry/registry.go], [tool/registry/availability.go], [tool/share/definition.go])

    Groups of definitions are replaced as a whole; a query filters the registry
    by what the caller may see and use. A definition keeps whether it has code
    behind it, not the code. [json.Marshal] of a parameter schema and
    [url.Parse] are parameters. *)
From S2P Require Import Prelude GoStr Admission ToolPermit.
Open Scope nat_scope.

(** A value of a JSON-like map, as far as the checks look at it. *)
Inductive any := ANil | AString (s : gostring) | AStrings (l : list gostring) | AList (l : list any) | AMap (m : list (gostring * any)) | AOther (text : gostring).
Definition field (m : list (gostring * any)) (name : gostring) : any :=
  match List.find (λ p, bool_decide (p.1 = name)) m with Some p => p.2 | None => ANil end.
Definition has_field (m : list (gostring * any)) (name : gostring) : bool := existsb (λ p, bool_decide (p.1 = name)) m.
Inductive Source := SourceBuiltin | SourceSkill | SourceELwisp | SourceOther (n : Z).
#[export] Instance Source_eq_dec : EqDecision Source.
Proof. solve_decision. Defined.
Definition source_number (s : Source) : Z := match s with SourceBuiltin => 1 | SourceSkill => 2 | SourceELwisp => 3 | SourceOther n => n end.
Record Info := {
  i_NeedsElyphRules : bool; i_APITypes : list gostring; i_Name : gostring; i_Description : gostring; i_Source : Source; i_Risk : RiskLevel;
  i_SuperadminOnly : bool; i_Hidden : bool; i_OwnerScoped : bool; i_ForegroundOnly : bool; i_Tags : list gostring; i_DependsOn : list gostring
}.
Record Schema := { sc_Name : gostring; sc_Description : gostring; sc_Parameters : option (list (gostring * any)) }.
Record Remote := {
  r_Name : gostring; r_CanonicalName : gostring; r_EventKey : gostring; r_Endpoint : gostring; r_TimeoutSeconds : Z
}.
(** [Parameters] is a map or nil; the functions of a definition are present or not. *)
Record ToolDefinition := {
  Definition_ : Info; Parameters : option (list (gostring * any)); Prepare : bool; LoadDetail : bool; ActivateTools : list gostring;
  DiscoveryContent : bool; Remote_ : option Remote
}.
Definition td_name (d : ToolDefinition) : gostring := i_Name (Definition_ d).
Definition Callable (d : ToolDefinition) : bool := Prepare d || match Remote_ d with Some _ => true | None => false end.
Definition schema_of (d : ToolDefinition) : Schema :=
  if Callable d then {| sc_Name := td_name d; sc_Description := i_Description (Definition_ d); sc_Parameters := Parameters d |}
  else {| sc_Name := []; sc_Description := []; sc_Parameters := None |}.
Definition with_info (d : ToolDefinition) (i : Info) (activate : list gostring) (remote : option Remote) : ToolDefinition :=
  {| Definition_ := i; Parameters := Parameters d; Prepare := Prepare d; LoadDetail := LoadDetail d; ActivateTools := activate;
     DiscoveryContent := DiscoveryContent d; Remote_ := remote |}.
Definition with_names (i : Info) (name description : gostring) (tags depends : list gostring) : Info :=
  {| i_NeedsElyphRules := i_NeedsElyphRules i; i_APITypes := i_APITypes i; i_Name := name; i_Description := description; i_Source := i_Source i;
     i_Risk := i_Risk i; i_SuperadminOnly := i_SuperadminOnly i; i_Hidden := i_Hidden i; i_OwnerScoped := i_OwnerScoped i;
     i_ForegroundOnly := i_ForegroundOnly i; i_Tags := tags; i_DependsOn := depends |}.
Definition with_source (d : ToolDefinition) (s : Source) : ToolDefinition :=
  let i := Definition_ d in
  with_info d {| i_NeedsElyphRules := i_NeedsElyphRules i; i_APITypes := i_APITypes i; i_Name := i_Name i; i_Description := i_Description i;
     i_Source := s; i_Risk := i_Risk i; i_SuperadminOnly := i_SuperadminOnly i; i_Hidden := i_Hidden i; i_OwnerScoped := i_OwnerScoped i;
     i_ForegroundOnly := i_ForegroundOnly i; i_Tags := i_Tags i; i_DependsOn := i_DependsOn i |} (ActivateTools d) (Remote_ d).

(** ** Tool declarations of a session *)
Inductive SourceKind := KindNative | KindELwisp.
#[export] Instance SourceKind_eq_dec : EqDecision SourceKind.
Proof. solve_decision. Defined.
Record DiscoveredTool := {
  dt_Risk : RiskLevel; dt_Name : gostring; dt_CanonicalName : gostring; dt_Source : SourceKind; dt_Description : gostring; dt_Schema : Schema;
  dt_EventKey : gostring; dt_Endpoint : gostring; dt_TimeoutSeconds : Z; dt_ForegroundOnly : bool
}.
Record Scope := { sp_SessionID : gostring; sp_EventKey : gostring }.
Record StateUpdate := { ReplaceGroups : list Scope; su_Tools : list DiscoveredTool; su_Tags : list gostring }.
Definition no_update : StateUpdate := {| ReplaceGroups := []; su_Tools := []; su_Tags := [] |}.

(** ** Registration *)
Definition tag_char (c : ascii) : bool :=
  in_range 97 122 c || in_range 48 57 c || bool_decide (c = "_"%char) || bool_decide (c = "-"%char) || bool_decide (c = "."%char).
Section Registry.
Context `{UnicodeTables} (marshal_error : list (gostring * any) → option gostring) (url_parse : gostring → option (gostring * gostring)).
Definition NormalizeToolTag (tag : gostring) : gostring :=
  let tag := to_lower (trim_space tag) in if forallb tag_char tag then tag else [].
Fixpoint normalize_names (names : list gostring) (tags : bool) (out : list gostring) : res (list gostring) :=
  match names with
  | [] => Ok out
  | name :: names =>
    let name := trim_space name in
    let name := if tags then NormalizeToolTag name else name in
    if bool_decide (name = []) then Err §"empty or invalid value"
    else normalize_names names tags (if bool_decide (name ∈ out) then out else out ++ [name])
  end.
Definition normalizeRegisteredNames (names : list gostring) (tags : bool) : res (list gostring) := normalize_names names tags [].
Fixpoint strings_of (items : list any) : option (list gostring) :=
  match items with
  | [] => Some []
  | AString s :: items => cons s <$> strings_of items
  | _ :: _ => None
  end.
Definition validateParameters (parameters : list (gostring * any)) : res unit :=
  match field parameters §"type" with
  | AString t =>
    if negb (bool_decide (t = §"object")) then Err §"type must be object"
    else
      match marshal_error parameters with
      | Some e => Err (§"must be JSON data: " ++ e)
      | None =>
        match field parameters §"properties" with
        | AMap properties =>
          let* required := (match field parameters §"required" with
                            | ANil => Ok []
                            | AStrings l => Ok l
                            | AList l => match strings_of l with Some l => Ok l | None => Err §"required must contain strings" end
                            | _ => Err §"required must be an array"
                            end) in
          match List.find (λ name, negb (has_field properties name)) required with
          | Some name => Err (§"required parameter " ++ quote name ++ §" has no property")
          | None => Ok tt
          end
        | _ => Err §"properties must be an object (empty is allowed)"
        end
      end
  | _ => Err §"type must be object"
  end.
Definition tool_error (name text : gostring) : gostring := §"tool " ++ quote name ++ text.
Definition validate_remote (name : gostring) (r : Remote) : res Remote :=
  let endpoint := trim_space (r_Endpoint r) in
  if negb (match url_parse endpoint with
           | Some (scheme, host) => negb (bool_decide (host = [])) && (bool_decide (scheme = §"http") || bool_decide (scheme = §"https"))
           | None => false
           end) then Err (tool_error name §" endpoint must be http or https URL")
  else if bool_decide (trim_space (r_Name r) = []) || contains_any (r_Name r) §". /\" || negb (bool_decide (r_CanonicalName r = name)) then
    Err (tool_error name §" has invalid remote name")
  else if (r_TimeoutSeconds r <? 0)%Z || (60 <? r_TimeoutSeconds r)%Z then Err (tool_error name §" timeout_seconds must be between 0 and 60")
  else Ok {| r_Name := r_Name r; r_CanonicalName := r_CanonicalName r; r_EventKey := r_EventKey r; r_Endpoint := endpoint;
             r_TimeoutSeconds := if (r_TimeoutSeconds r =? 0)%Z then 10 else r_TimeoutSeconds r |}.
Definition api_types : list gostring := [§"chat"; §"response"].
Definition validateDefinition (d : ToolDefinition) : res ToolDefinition :=
  let info := Definition_ d in
  let name := trim_space (i_Name info) in
  let description := trim_space (i_Description info) in
  if bool_decide (name = []) then Err §"tool name is required"
  else if Callable d && bool_decide (description = []) then Err (tool_error name §" description is required")
  else if (Callable d || negb (bool_decide (i_Risk info = []))) && negb (bool_decide (i_Risk info ∈ known_risks)) then
    Err (tool_error name (§" requires a valid risk, got " ++ quote (i_Risk info)))
  else
    match List.find (λ t, negb (bool_decide (t ∈ api_types))) (i_APITypes info) with
    | Some t => Err (tool_error name (§" has invalid API type " ++ quote t))
    | None =>
      let* tags := res_wrap (tool_error name §" tags: ") (normalizeRegisteredNames (i_Tags info) true) in
      let* depends := res_wrap (tool_error name §" dependencies: ") (normalizeRegisteredNames (i_DependsOn info) false) in
      let* activate := res_wrap (tool_error name §" activation: ") (normalizeRegisteredNames (ActivateTools d) false) in
      if Prepare d && match Remote_ d with Some _ => true | None => false end then Err (tool_error name §" has both local and remote execution")
      else
        let* _ := (if Callable d then res_wrap (tool_error name §" parameters: ") (validateParameters (default [] (Parameters d)))
                   else if match Parameters d with Some _ => true | None => false end || negb (LoadDetail d)
                   then Err (§"entry " ++ quote name ++ §" requires execution or document detail") else Ok tt) in
        let* remote := (match Remote_ d with None => Ok None | Some r => let* r := validate_remote name r in Ok (Some r) end) in
        Ok (with_info d (with_names info name description tags depends) activate remote)
    end.
Definition check_scope (source : Source) (scope : Scope) : res unit :=
  match source with
  | SourceBuiltin | SourceSkill =>
    if bool_decide (sp_SessionID scope = []) && bool_decide (sp_EventKey scope = []) then Ok tt
    else Err §"global tool group cannot have session or event"
  | SourceELwisp => if bool_decide (sp_EventKey scope = []) then Err §"elwisp registration requires event" else Ok tt
  | SourceOther n => Err (§"invalid tool source " ++ itoa n)
  end.
Definition discovered_remote (d : ToolDefinition) (r : Remote) : DiscoveredTool :=
  let info := Definition_ d in
  {| dt_Risk := i_Risk info; dt_Name := r_Name r; dt_CanonicalName := i_Name info; dt_Source := KindELwisp; dt_Description := i_Description info;
     dt_Schema := schema_of d; dt_EventKey := r_EventKey r; dt_Endpoint := r_Endpoint r; dt_TimeoutSeconds := r_TimeoutSeconds r;
     dt_ForegroundOnly := i_ForegroundOnly info |}.
Abbreviation registry := (gmap gostring ToolDefinition).
Fixpoint register_all (source : Source) (scope : Scope) (definitions : list ToolDefinition) (next : registry) (tools : list DiscoveredTool)
  : res (registry * list DiscoveredTool) :=
  match definitions with
  | [] => Ok (next, tools)
  | d :: definitions =>
    if negb (Bool.eqb (bool_decide (source = SourceELwisp)) (match Remote_ d with Some _ => true | None => false end)) then
      Err (tool_error (td_name d) (§" execution does not match source " ++ itoa (source_number source)))
    else
      let* d := validateDefinition d in
      let d := with_source d source in
      match next !! td_name d with
      | Some _ => Err (tool_error (td_name d) §" already registered in this batch or another group")
      | None =>
        let next := <[td_name d := d]> next in
        match Remote_ d with
        | Some r =>
          if negb (bool_decide (r_EventKey r = sp_EventKey scope)) then
            Err (tool_error (td_name d) (§" does not belong to remote event " ++ quote (sp_EventKey scope)))
          else register_all source scope definitions next (tools ++ [discovered_remote d r])
        | None => register_all source scope definitions next tools
        end
      end
  end.
(** The definitions of other groups; remote tools are checked against all of them. *)
Definition other_groups (source : Source) (tools : registry) : registry :=
  if bool_decide (source = SourceELwisp) then tools else filter (λ p, i_Source (Definition_ p.2) ≠ source) tools.
(** The registry after the call and its result; [ctx] is the error of the context, if any. *)
Definition RegisterTools (ctx : option gostring) (source : Source) (scope : Scope) (definitions : list ToolDefinition) (tools : registry)
  : registry * res StateUpdate :=
  match ctx with
  | Some e => (tools, Err e)
  | None =>
    match check_scope source scope with
    | Ok _ =>
      match register_all source scope definitions (other_groups source tools) [] with
      | Ok (next, remote) =>
        (if bool_decide (source = SourceELwisp) then tools else next,
         Ok {| ReplaceGroups := if bool_decide (source = SourceELwisp) then [scope] else []; su_Tools := remote; su_Tags := [] |})
      | Err e => (tools, Err e)
      | Panic => (tools, Panic)
      end
    | Err e => (tools, Err e)
    | Panic => (tools, Panic)
    end
  end.
Definition Get (name : gostring) (tools : registry) : option ToolDefinition := tools !! trim_space name.

(** ** Queries *)
(** What a query knows of its caller: the role, whether tools of the foreground are off and the API type of the model. *)
Record caller := { cl_Role : gostring; cl_NoForeground : bool; cl_APIType : option gostring }.
Inductive QueryScope := QueryAvailable | QueryCatalog.
Inductive QueryKind := AnyKind | PlainTools | Skills.
Record ToolQuery := { tq_Scope : QueryScope; tq_Kind : QueryKind; tq_Names : option (list gostring); IncludeHidden : bool; IncludeDiscover : bool }.
Definition UnavailableReason (c : caller) (info : Info) : gostring :=
  if i_ForegroundOnly info && cl_NoForeground c then §"tool is only available in foreground sessions"
  else match i_APITypes info with
       | [] => []
       | types =>
         if match cl_APIType c with Some t => negb (bool_decide (t = [])) && bool_decide (t ∈ types) | None => false end then []
         else §"tool is unavailable for the current API type"
       end.
Definition InfoAvailableInContext (c : caller) (info : Info) : bool := bool_decide (UnavailableReason c info = []).
Definition CanAccessTool (p : Permission) (c : caller) (info : Info) : bool :=
  if i_SuperadminOnly info && negb (bool_decide (cl_Role c = RoleSuperadmin)) then false
  else bool_decide (i_Risk info = []) || CanUseTool p (cl_Role c) (i_Risk info) (i_OwnerScoped info).
Definition name_le (a b : ToolDefinition) : Prop := compare_string (td_name a) (td_name b) ≠ Gt.
#[export] Instance name_le_dec : RelDecision name_le.
Proof using. intros a b. unfold name_le. destruct (compare_string _ _); [left; done|left; done|right; by intros N]. Defined.
Definition selected (p : Permission) (c : caller) (q : ToolQuery) (d : ToolDefinition) : bool :=
  let info := Definition_ d in
  (IncludeHidden q || negb (i_Hidden info)) && (IncludeDiscover q || negb (bool_decide (i_Name info = §"discover_tool")))
  && match tq_Kind q with AnyKind => true | PlainTools => negb (LoadDetail d) | Skills => LoadDetail d end
  && match tq_Scope q with QueryAvailable => InfoAvailableInContext c info && CanAccessTool p c info | QueryCatalog => true end.
Definition keep_names (names : list gostring) : list gostring :=
  foldl (λ out name, if bool_decide (name ∈ out) then out else out ++ [name]) [] names.
Definition query_candidates (q : ToolQuery) (tools : registry) : list ToolDefinition :=
  match tq_Names q with
  | None => (map_to_list tools).*2
  | Some names => omap (λ name, tools !! name) (keep_names names)
  end.
Definition Query (p : Permission) (c : caller) (q : ToolQuery) (tools : registry) : list ToolDefinition :=
  merge_sort name_le (List.filter (selected p c q) (query_candidates q tools)).
Definition background_tool (item : DiscoveredTool) : bool :=
  negb (dt_ForegroundOnly item)
  && forallb (λ name, negb (bool_decide (name ∈ [§"discover_tool"; §"workspace"]))) [dt_Name item; dt_CanonicalName item; sc_Name (dt_Schema item)].
Definition BackgroundDiscoveredTools (items : list DiscoveredTool) : list DiscoveredTool := List.filter background_tool items.
End Registry.
