(* ===== verification/ToolRegistryProps.v ===== *)
(** * What registrations keep and what queries return (ToolRegistry.v) *)
From S2P Require Import Prelude GoStr Admission AdmissionProps ToolPermit ToolRegistry.
Open Scope nat_scope.

(** ** Normal names *)
Lemma tag_char_foreign c : tag_char c = true → foreign space_encodings c = true ∧ foreign (map (@rev ascii) space_encodings) c = true ∧ is_ascii c = true ∧ ascii_lower c = c.
Proof. destruct c as [[] [] [] [] [] [] [] []]; vm_compute; intros [=]; done. Qed.
Lemma strip_foreign encs s : Forall (λ e, e ≠ []) encs → forallb (foreign encs) s = true → strip encs 0 s = s.
Proof.
  intros Ne F. destruct s as [|c s]; [done|]. apply strip_fixed. cbn in F. apply andb_true_iff in F as [F _]. unfold enc_at.
  destruct (List.find (λ e, has_prefix e (c :: s)) encs) as [e|] eqn:E; [|done]. apply find_some in E as [I P]. apply list_elem_of_In in I.
  rewrite Forall_forall in Ne. specialize (Ne e I). pose proof (foreign_spec _ _ F e I) as N. destruct e as [|x e]; [done|]. cbn in P.
  apply andb_true_iff in P as [P _]. apply bool_decide_eq_true in P. subst. exfalso. apply N. by left.
Qed.
Lemma trim_foreign s : forallb (foreign space_encodings) s = true → forallb (foreign (map (@rev ascii) space_encodings)) s = true → trim_space s = s.
Proof.
  intros F R. assert (Ne : Forall (λ e : gostring, e ≠ []) space_encodings) by (unfold space_encodings; repeat constructor; done).
  assert (Nr : Forall (λ e : gostring, e ≠ []) (map (@rev ascii) space_encodings)) by (unfold space_encodings; repeat constructor; done).
  unfold trim_space, trim_left_space, trim_right_space. rewrite (strip_foreign _ s Ne F). rewrite (strip_foreign _ (rev s) Nr); [apply rev_involutive|].
  rewrite forallb_forall in R |- *. intros c I. apply R. by apply in_rev.
Qed.
Section Tags.
Context `{UnicodeTables}.
Lemma tag_normal s : forallb tag_char s = true → NormalizeToolTag s = s.
Proof.
  intros F. unfold NormalizeToolTag. assert (Fa := F). rewrite forallb_forall in Fa.
  assert (P : ∀ p : ascii → bool, (∀ c, tag_char c = true → p c = true) → forallb p s = true) by (intros p Hp; apply forallb_forall; intros c I; by apply Hp, Fa).
  rewrite trim_foreign by (apply P; intros c T; by destruct (tag_char_foreign c T) as (? & ? & ? & ?)).
  assert (L : to_lower s = s).
  { unfold to_lower. rewrite (P is_ascii) by (intros c T; by destruct (tag_char_foreign c T) as (? & ? & ? & ?)).
    rewrite <- (map_id s) at 2. apply map_ext_in. intros c I. by destruct (tag_char_foreign c (Fa c I)) as (? & ? & ? & ?). }
  by rewrite L, F.
Qed.
Lemma tag_of s : forallb tag_char (NormalizeToolTag s) = true.
Proof. unfold NormalizeToolTag. by destruct (forallb tag_char (to_lower (trim_space s))) eqn:E. Qed.
Lemma tag_trim s : trim_space (NormalizeToolTag s) = NormalizeToolTag s.
Proof.
  pose proof (tag_of s) as F. rewrite forallb_forall in F.
  apply trim_foreign; apply forallb_forall; intros c I; by destruct (tag_char_foreign c (F c I)) as (? & ? & ? & ?).
Qed.
Lemma tag_idem s : NormalizeToolTag (NormalizeToolTag s) = NormalizeToolTag s.
Proof. apply tag_normal, tag_of. Qed.
(** A list of names in normal form. *)
Definition normal_name (tags : bool) (name : gostring) : gostring := if tags then NormalizeToolTag (trim_space name) else trim_space name.
Definition normal_names (tags : bool) (names : list gostring) : Prop := NoDup names ∧ ∀ n, n ∈ names → n ≠ [] ∧ normal_name tags n = n.
Lemma normal_name_idem tags n : normal_name tags (normal_name tags n) = normal_name tags n.
Proof. unfold normal_name. destruct tags; [by rewrite tag_trim, tag_idem|apply trim_space_idem]. Qed.
Lemma normalize_names_ok tags names : ∀ out r, normal_names tags out → normalize_names names tags out = Ok r →
  normal_names tags r ∧ ∀ n, n ∈ r ↔ n ∈ out ∨ n ∈ normal_name tags <$> names.
Proof.
  induction names as [|n names IH]; intros out r N; cbn [normalize_names].
  - intros [= <-]. split; [done|]. set_solver.
  - change (if tags then NormalizeToolTag (trim_space n) else trim_space n) with (normal_name tags n).
    destruct (decide (normal_name tags n = [])) as [Z|Z]; [by rewrite bool_decide_eq_true_2|rewrite bool_decide_eq_false_2 by done].
    intros E. apply IH in E as [R M].
    + split; [done|]. intros x. rewrite M. destruct (decide (normal_name tags n ∈ out)) as [I|I];
        [rewrite bool_decide_eq_true_2 by done|rewrite bool_decide_eq_false_2 by done]; set_solver.
    + destruct (decide (normal_name tags n ∈ out)) as [I|I]; [by rewrite bool_decide_eq_true_2|rewrite bool_decide_eq_false_2 by done].
      destruct N as [N1 N2]. split.
      * apply NoDup_app. split_and!; [done| |apply NoDup_singleton]. intros x Ix ->%list_elem_of_singleton. done.
      * intros x [Ix|Ix%list_elem_of_singleton]%elem_of_app; [by apply N2|]. subst. split; [done|apply normal_name_idem].
Qed.
Lemma normalize_names_id tags names : ∀ out, NoDup (out ++ names) → (∀ n, n ∈ names → n ≠ [] ∧ normal_name tags n = n) → normalize_names names tags out = Ok (out ++ names).
Proof.
  induction names as [|n names IH]; intros out N F; cbn [normalize_names]; [by rewrite app_nil_r|].
  change (if tags then NormalizeToolTag (trim_space n) else trim_space n) with (normal_name tags n).
  destruct (F n) as [Ne ->]; [by left|]. rewrite bool_decide_eq_false_2 by done.
  rewrite bool_decide_eq_false_2. 2: { intros I. apply NoDup_app in N as (_ & N & _). apply (N n I). by left. }
  rewrite IH; [by rewrite <- app_assoc|by rewrite <- app_assoc|]. intros x I. apply F. by right.
Qed.
Lemma normalized_names tags names r : normalizeRegisteredNames names tags = Ok r → normal_names tags r.
Proof. intros E. eapply normalize_names_ok; [|exact E]. split; [constructor|]. intros n I. by apply not_elem_of_nil in I. Qed.
Lemma normalized_again tags r : normal_names tags r → normalizeRegisteredNames r tags = Ok r.
Proof. intros [N F]. unfold normalizeRegisteredNames. by rewrite normalize_names_id. Qed.
End Tags.

(** ** Definitions inserted by name *)
Abbreviation insert_all ds m := (foldl (λ (m : gmap gostring ToolDefinition) d, <[td_name d := d]> m) m ds).
Lemma insert_all_lookup ds : ∀ m, NoDup (td_name <$> ds) → ∀ name d, insert_all ds m !! name = Some d ↔ (d ∈ ds ∧ td_name d = name) ∨ (m !! name = Some d ∧ name ∉ td_name <$> ds).
Proof.
  induction ds as [|x ds IH]; intros m N name d; cbn [foldl fmap list_fmap] in *; [set_solver|]. apply NoDup_cons in N as [Nx N]. rewrite (IH _ N).
  destruct (decide (td_name x = name)) as [<-|Ne].
  - rewrite lookup_insert_eq. split.
    + intros [[I E]|[[= <-] _]]; [left; split; [by right|done]|left; split; [by left|done]].
    + intros [[[-> | I]%elem_of_cons E]|[_ M]]; [by right|by left|]. apply not_elem_of_cons in M as [[] _]. done.
  - rewrite lookup_insert_ne by done. rewrite elem_of_cons, not_elem_of_cons. naive_solver.
Qed.
Lemma other_groups_lookup source tools name d : other_groups source tools !! name = Some d ↔
  tools !! name = Some d ∧ (source = SourceELwisp ∨ i_Source (Definition_ d) ≠ source).
Proof.
  unfold other_groups. destruct (decide (source = SourceELwisp)) as [E|E]; [rewrite bool_decide_eq_true_2 by done; tauto|rewrite bool_decide_eq_false_2 by done].
  rewrite map_lookup_filter_Some. cbn. tauto.
Qed.
Lemma Forall2_elem {A B} (P : A → B → Prop) l l' : Forall2 P l l' → (∀ x, x ∈ l → ∃ y, y ∈ l' ∧ P x y) ∧ ∀ y, y ∈ l' → ∃ x, x ∈ l ∧ P x y.
Proof.
  intros F. split; intros z I; apply list_elem_of_lookup_1 in I as [i I].
  - destruct (Forall2_lookup_l _ _ _ _ _ F I) as (y & Y & Py). exists y. split; [by eapply list_elem_of_lookup_2|done].
  - destruct (Forall2_lookup_r _ _ _ _ _ F I) as (y & Y & Py). exists y. split; [by eapply list_elem_of_lookup_2|done].
Qed.

(** ** Valid definitions *)
Section Registered.
Context `{UnicodeTables} (marshal_error : list (gostring * any) → option gostring) (url_parse : gostring → option (gostring * gostring)).
Abbreviation validate := (validateDefinition marshal_error url_parse).
(** What validation has established of its result. *)
Record valid (d : ToolDefinition) : Prop := {
  va_name : td_name d ≠ [] ∧ trim_space (td_name d) = td_name d;
  va_description : trim_space (i_Description (Definition_ d)) = i_Description (Definition_ d) ∧ (Callable d = true → i_Description (Definition_ d) ≠ []);
  va_risk : Callable d = true ∨ i_Risk (Definition_ d) ≠ [] → i_Risk (Definition_ d) ∈ known_risks;
  va_api : ∀ t, t ∈ i_APITypes (Definition_ d) → t ∈ api_types;
  va_names : normal_names true (i_Tags (Definition_ d)) ∧ normal_names false (i_DependsOn (Definition_ d)) ∧ normal_names false (ActivateTools d);
  va_local : Prepare d = true → Remote_ d = None;
  va_callable : Callable d = true → validateParameters marshal_error (default [] (Parameters d)) = Ok tt;
  va_document : Callable d = false → Parameters d = None ∧ LoadDetail d = true;
  va_remote : ∀ r, Remote_ d = Some r → r_CanonicalName r = td_name d ∧ (1 ≤ r_TimeoutSeconds r ≤ 60)%Z ∧ trim_space (r_Endpoint r) = r_Endpoint r
    ∧ ∃ scheme host, url_parse (r_Endpoint r) = Some (scheme, host) ∧ host ≠ [] ∧ (scheme = §"http" ∨ scheme = §"https")
}.
Lemma validate_remote_ok name r r' : validate_remote url_parse name r = Ok r' →
  r_CanonicalName r' = name ∧ (1 ≤ r_TimeoutSeconds r' ≤ 60)%Z ∧ trim_space (r_Endpoint r') = r_Endpoint r' ∧ r_EventKey r' = r_EventKey r ∧
  ∃ scheme host, url_parse (r_Endpoint r') = Some (scheme, host) ∧ host ≠ [] ∧ (scheme = §"http" ∨ scheme = §"https").
Proof using.
  unfold validate_remote. destruct (url_parse (trim_space (r_Endpoint r))) as [[scheme host]|] eqn:U; [|done].
  destruct (negb (bool_decide (host = [])) && (bool_decide (scheme = §"http") || bool_decide (scheme = §"https"))) eqn:B; [|done]. cbn [negb].
  destruct (_ || _ || _) eqn:N; [done|]. destruct ((r_TimeoutSeconds r <? 0)%Z || (60 <? r_TimeoutSeconds r)%Z) eqn:T; [done|]. intros [= <-].
  cbn [r_CanonicalName r_TimeoutSeconds r_Endpoint r_EventKey]. apply orb_false_iff in N as [_ N]. apply negb_false_iff, bool_decide_eq_true in N.
  apply orb_false_iff in T as [T1 T2]. apply andb_true_iff in B as [B1 B2]. apply negb_true_iff, bool_decide_eq_false in B1.
  split_and!; [done| | |apply trim_space_idem|done|].
  - destruct (Z.eqb_spec (r_TimeoutSeconds r) 0); lia.
  - destruct (Z.eqb_spec (r_TimeoutSeconds r) 0); lia.
  - exists scheme, host. split_and!; [done..|]. apply orb_true_iff in B2 as [B2|B2]; apply bool_decide_eq_true in B2; auto.
Qed.
Lemma valid_parts d d' : validate d = Ok d' → valid d' ∧ td_name d' = trim_space (td_name d) ∧ Prepare d' = Prepare d ∧ LoadDetail d' = LoadDetail d
  ∧ i_Source (Definition_ d') = i_Source (Definition_ d) ∧ (Remote_ d' = None ↔ Remote_ d = None)
  ∧ ∀ r', Remote_ d' = Some r' → ∃ r, Remote_ d = Some r ∧ r_EventKey r' = r_EventKey r.
Proof using.
  unfold validateDefinition. destruct (bool_decide (trim_space (i_Name (Definition_ d)) = [])) eqn:N; [done|]. apply bool_decide_eq_false in N.
  destruct (Callable d && bool_decide (trim_space (i_Description (Definition_ d)) = [])) eqn:D; [done|].
  destruct ((Callable d || negb (bool_decide (i_Risk (Definition_ d) = []))) && negb (bool_decide (i_Risk (Definition_ d) ∈ known_risks))) eqn:K; [done|].
  destruct (List.find _ _) eqn:A; [done|].
  intros (tags & T & (depends & P & (activate & V & E)%res_bind_ok)%res_bind_ok)%res_bind_ok.
  destruct (Prepare d && _) eqn:L in E; [done|]. apply res_bind_ok in E as ([] & C & (remote & R & [= <-])%res_bind_ok).
  assert (Rm : match Remote_ d with None => remote = None | Some r => ∃ r', validate_remote url_parse (trim_space (i_Name (Definition_ d))) r = Ok r' ∧ remote = Some r' end).
  { destruct (Remote_ d) as [r|]; [|by injection R as <-]. apply res_bind_ok in R as (r' & R & [= <-]). eauto. }
  assert (Cd : Callable (with_info d (with_names (Definition_ d) (trim_space (i_Name (Definition_ d))) (trim_space (i_Description (Definition_ d))) tags depends) activate remote) = Callable d).
  { unfold Callable. cbn. destruct (Remote_ d); [destruct Rm as (r' & _ & ->)|subst]; done. }
  assert (W : ∀ A pre (m : res A) a, res_wrap pre m = Ok a → m = Ok a) by (intros ? ? [] ? [=]; congruence).
  split; [split|]; rewrite ?Cd; cbn [with_info with_names Definition_ td_name i_Name i_Description i_Risk i_APITypes i_Tags i_DependsOn ActivateTools Prepare Parameters LoadDetail
    Remote_ i_Source].
  - split; [done|apply trim_space_idem].
  - split; [apply trim_space_idem|]. intros Hc. rewrite Hc in D. by apply bool_decide_eq_false in D.
  - intros Hc. destruct (decide (i_Risk (Definition_ d) ∈ known_risks)) as [|Nk]; [done|]. rewrite (bool_decide_eq_false_2 _ Nk) in K. rewrite andb_true_r in K.
    apply orb_false_iff in K as [K1 K2]. apply negb_false_iff, bool_decide_eq_true in K2. destruct Hc; congruence.
  - intros t I. apply list_elem_of_In in I. pose proof (find_none _ _ A t I) as F. by apply negb_false_iff, bool_decide_eq_true in F.
  - split_and!; eapply normalized_names, W; eassumption.
  - intros Hp. rewrite Hp in L. destruct (Remote_ d); [done|by subst].
  - intros Hc. rewrite Hc in C. by apply W in C.
  - intros Hc. rewrite Hc in C. destruct (Parameters d); [done|]. by destruct (LoadDetail d).
  - intros r ->. destruct (Remote_ d) as [r0|]; [|done]. destruct Rm as (r' & Vr & [= <-]). apply validate_remote_ok in Vr as (? & ? & ? & _ & ?). done.
  - split_and!; try done.
    + destruct (Remote_ d); [destruct Rm as (? & _ & ->)|subst]; done.
    + intros r' ->. destruct (Remote_ d) as [r0|]; [|done]. destruct Rm as (r1 & Vr & [= <-]). apply validate_remote_ok in Vr as (_ & _ & _ & ? & _). eauto.
Qed.

(** ** Groups *)
Lemma valid_source d s : valid (with_source d s) ↔ valid d.
Proof using. split; intros []; split; done. Qed.
(** The registry as its calls keep it. *)
Definition sound_registry (tools : gmap gostring ToolDefinition) : Prop := ∀ name d, tools !! name = Some d →
  td_name d = name ∧ valid d ∧ Remote_ d = None ∧ (i_Source (Definition_ d) = SourceBuiltin ∨ i_Source (Definition_ d) = SourceSkill).
(** A definition as a call registers it. *)
Definition registered (source : Source) (scope : Scope) (d d' : ToolDefinition) : Prop :=
  valid d' ∧ td_name d' = trim_space (td_name d) ∧ i_Source (Definition_ d') = source ∧ Prepare d' = Prepare d ∧ LoadDetail d' = LoadDetail d
  ∧ match Remote_ d' with None => source ≠ SourceELwisp | Some r => source = SourceELwisp ∧ r_EventKey r = sp_EventKey scope end.
Lemma register_all_ok source scope ds : ∀ next tools next' tools', register_all marshal_error url_parse source scope ds next tools = Ok (next', tools') →
  ∃ ds', Forall2 (registered source scope) ds ds' ∧ next' = insert_all ds' next ∧ NoDup (td_name <$> ds') ∧ (∀ d, d ∈ ds' → next !! td_name d = None)
  ∧ tools' = tools ++ omap (λ d, discovered_remote d <$> Remote_ d) ds'.
Proof using.
  induction ds as [|d ds IH]; intros next tools next' tools'; cbn [register_all].
  - intros [= <- <-]. exists []. split_and!; [constructor|done|constructor|set_solver|by rewrite app_nil_r].
  - destruct (negb (Bool.eqb _ _)) eqn:K; [done|]. apply negb_false_iff, Bool.eqb_prop in K. intros (v & V & E)%res_bind_ok.
    apply valid_parts in V as (V & Nm & Pr & Ld & _ & Rn & Re). set (x := with_source v source) in *.
    destruct (next !! td_name x) eqn:F; [done|].
    assert (Rest : ∀ t0 m, register_all marshal_error url_parse source scope ds (<[td_name x := x]> next) t0 = Ok m →
      match Remote_ x with None => source ≠ SourceELwisp | Some r => source = SourceELwisp ∧ r_EventKey r = sp_EventKey scope end →
      ∃ ds', Forall2 (registered source scope) (d :: ds) ds' ∧ m.1 = insert_all ds' next ∧ NoDup (td_name <$> ds') ∧ (∀ d, d ∈ ds' → next !! td_name d = None)
      ∧ (t0 = tools ++ omap (λ d, discovered_remote d <$> Remote_ d) [x] → m.2 = tools ++ omap (λ d, discovered_remote d <$> Remote_ d) ds')).
    { intros t0 [m1 m2] (ds' & F2 & -> & N & Fr & ->)%IH Rx. exists (x :: ds'). split_and!; [constructor; [|done]|done| | |].
      - split_and!; [by apply valid_source|done..|]. exact Rx.
      - cbn. constructor; [|done]. intros (y & E1 & Iy)%list_elem_of_fmap. specialize (Fr y Iy). rewrite <- E1, lookup_insert_eq in Fr. done.
      - intros y [->|Iy]%elem_of_cons; [done|]. specialize (Fr y Iy). by apply lookup_insert_None in Fr as [? _].
      - intros ->. cbn [omap list_omap]. by rewrite <- app_assoc; destruct (discovered_remote x <$> Remote_ x). }
    destruct (Remote_ x) as [r|] eqn:Rx.
    + destruct (negb (bool_decide (r_EventKey r = sp_EventKey scope))) eqn:Ek; [done|]. apply negb_false_iff, bool_decide_eq_true in Ek.
      apply Rest in E as (ds' & ? & ? & ? & ? & T).
      * exists ds'. split_and!; try done. apply T. cbn [omap list_omap]. by rewrite Rx.
      * split; [|done]. destruct (Remote_ d) eqn:Rd; [by apply bool_decide_eq_true in K|]. change (Remote_ x) with (Remote_ v) in Rx.
        assert (Remote_ v = None) as Z by (by apply Rn). congruence.
    + apply Rest in E as (ds' & ? & ? & ? & ? & T).
      * exists ds'. split_and!; try done. apply T. cbn [omap list_omap]. rewrite Rx. by rewrite app_nil_r.
      * intros ->. rewrite bool_decide_eq_true_2 in K by done. change (Remote_ x) with (Remote_ v) in Rx. assert (Remote_ d = None) as Z by (by apply Rn). by rewrite Z in K.
Qed.
Lemma sound_other source tools : sound_registry tools → sound_registry (other_groups source tools).
Proof using. intros S name d [E _]%other_groups_lookup. by apply S. Qed.
(** What a call that succeeds does, for a global group and for the tools of an event. *)
Definition group_replaced (source : Source) (ds : list ToolDefinition) (tools tools' : gmap gostring ToolDefinition) : Prop :=
  (∀ name d, i_Source (Definition_ d) ≠ source → tools' !! name = Some d ↔ tools !! name = Some d)
  ∧ (∀ name d, tools' !! name = Some d → i_Source (Definition_ d) = source → ∃ d0, d0 ∈ ds ∧ name = trim_space (td_name d0))
  ∧ ∀ d0, d0 ∈ ds → ∃ d, tools' !! trim_space (td_name d0) = Some d ∧ i_Source (Definition_ d) = source ∧ Prepare d = Prepare d0 ∧ LoadDetail d = LoadDetail d0.
Definition event_registered (scope : Scope) (ds : list ToolDefinition) (tools : gmap gostring ToolDefinition) (u : StateUpdate) : Prop :=
  ReplaceGroups u = [scope] ∧ (sc_Name ∘ dt_Schema) <$> su_Tools u = trim_space ∘ td_name <$> ds ∧ NoDup (dt_CanonicalName <$> su_Tools u)
  ∧ ∀ t, t ∈ su_Tools u → tools !! dt_CanonicalName t = None ∧ dt_EventKey t = sp_EventKey scope ∧ dt_Source t = KindELwisp
      ∧ dt_CanonicalName t = sc_Name (dt_Schema t) ∧ dt_CanonicalName t ≠ [].
Lemma event_tools scope ds ds' : Forall2 (registered SourceELwisp scope) ds ds' →
  ∃ ts, omap (λ d, discovered_remote d <$> Remote_ d) ds' = ts ∧ (sc_Name ∘ dt_Schema) <$> ts = trim_space ∘ td_name <$> ds
  ∧ dt_CanonicalName <$> ts = td_name <$> ds' ∧ ∀ t, t ∈ ts → dt_EventKey t = sp_EventKey scope ∧ dt_Source t = KindELwisp
      ∧ dt_CanonicalName t = sc_Name (dt_Schema t) ∧ ∃ d, d ∈ ds' ∧ dt_CanonicalName t = td_name d.
Proof using.
  induction 1 as [|d d' ds ds' R F (ts & E & S & C & I)]; [eexists; split_and!; [done..|set_solver]|].
  destruct R as (V & Nm & _ & _ & _ & Rm). destruct (Remote_ d') as [r|] eqn:Rd; [|done]. destruct Rm as [_ Ek].
  assert (Sc : sc_Name (schema_of d') = td_name d') by (unfold schema_of, Callable; rewrite Rd; by rewrite orb_true_r).
  exists (discovered_remote d' r :: ts). cbn [omap list_omap]. rewrite Rd. cbn [fmap option_fmap option_map list_fmap map]. split_and!.
  - f_equal. exact E.
  - f_equal; [|exact S]. change ((sc_Name ∘ dt_Schema) (discovered_remote d' r)) with (sc_Name (schema_of d')). by rewrite Sc, Nm.
  - f_equal. exact C.
  - intros t [->|It]%elem_of_cons.
    + split_and!; [done|done|by symmetry|]. exists d'. split; [by left|done].
    + destruct (I t It) as (? & ? & ? & x & Ix & ?). split_and!; [done..|]. exists x. split; [by right|done].
Qed.
Lemma RegisterTools_spec ctx source scope ds tools tools' r : sound_registry tools →
  RegisterTools marshal_error url_parse ctx source scope ds tools = (tools', r) → sound_registry tools' ∧
  match r with
  | Ok u => if decide (source = SourceELwisp) then tools' = tools ∧ event_registered scope ds tools u else u = no_update ∧ group_replaced source ds tools tools'
  | _ => tools' = tools
  end.
Proof using.
  intros S. unfold RegisterTools. destruct ctx; [by intros [= <- <-]|]. destruct (check_scope source scope) as [[]| |] eqn:Cs; [|by intros [= <- <-]..].
  destruct (register_all _ _ _ _ _ _ _) as [[next ts]| |] eqn:R; [|by intros [= <- <-]..].
  apply register_all_ok in R as (ds' & F & -> & N & Fr & ->). destruct (decide (source = SourceELwisp)) as [->|Ne].
  - rewrite !bool_decide_eq_true_2 by done. intros [= <- <-]. split; [done|]. split; [done|]. destruct (event_tools _ _ _ F) as (ts & E & Sc & C & I).
    unfold event_registered. cbn [ReplaceGroups su_Tools]. cbn [app]. rewrite E. split_and!; [done|done|by rewrite C|]. intros t It.
    destruct (I t It) as (Ek & Sk & Cs' & d & Id & Cn). rewrite Cn. specialize (Fr d Id). unfold other_groups in Fr. rewrite bool_decide_eq_true_2 in Fr by done.
    split_and!; [done..|by rewrite <- Cn|]. destruct (proj2 (Forall2_elem _ _ _ F) d Id) as (d0 & _ & V & _). apply (va_name _ V).
  - rewrite !(bool_decide_eq_false_2 _ Ne). intros [= <- <-].
    assert (Nr : ∀ d, d ∈ ds' → Remote_ d = None ∧ valid d ∧ i_Source (Definition_ d) = source).
    { intros d Id. destruct (proj2 (Forall2_elem _ _ _ F) d Id) as (d0 & _ & V & _ & Sr & _ & _ & Rm). destruct (Remote_ d); [by destruct Rm|done]. }
    split; [|split].
    + intros name d [[Id <-]|[E _]]%(insert_all_lookup _ _ N); [|by apply (sound_other source _ S)].
      destruct (Nr d Id) as (? & ? & Sr). split_and!; [done..|]. destruct source; [by left|by right|done|done].
    + unfold no_update. f_equal. cbn [app]. clear -Nr. induction ds' as [|d ds' IH]; [done|]. cbn [omap list_omap]. destruct (Nr d) as (-> & _); [by left|].
      apply IH. intros x I. apply Nr. by right.
    + split_and!.
      * intros name d Sr. rewrite (insert_all_lookup _ _ N), other_groups_lookup. split.
        -- intros [[Id _]|[[E _] _]]; [by destruct (Nr d Id) as (_ & _ & ?)|done].
        -- intros E. right. split; [split; [done|by right]|]. intros (x & -> & Ix)%list_elem_of_fmap. specialize (Fr x Ix).
           assert (other_groups source tools !! td_name x = Some d) as Z by (apply other_groups_lookup; split; [done|by right]). congruence.
      * intros name d E Sr. apply (insert_all_lookup _ _ N) in E as [[Id <-]|[[_ [?|?]]%other_groups_lookup _]]; [|done..].
        destruct (proj2 (Forall2_elem _ _ _ F) d Id) as (d0 & I0 & _ & Nm & _). eauto.
      * intros d0 I0. destruct (proj1 (Forall2_elem _ _ _ F) d0 I0) as (d & Id & V & Nm & Sr & Pr & Ld & _). exists d.
        split_and!; [|done..]. apply (insert_all_lookup _ _ N). left. by split.
Qed.
(** A call of [RegisterTools]: the error of its context, its source, scope and definitions. *)
Definition call : Type := option gostring * Source * Scope * list ToolDefinition.
Definition after (tools : gmap gostring ToolDefinition) (c : call) : gmap gostring ToolDefinition :=
  let '(ctx, source, scope, ds) := c in (RegisterTools marshal_error url_parse ctx source scope ds tools).1.
Lemma sound_after calls : ∀ tools, sound_registry tools → sound_registry (foldl after tools calls).
Proof using.
  induction calls as [|[[[ctx source] scope] ds] calls IH]; intros tools S; [done|]. apply IH. cbn [after].
  destruct (RegisterTools _ _ ctx source scope ds tools) as [tools' r] eqn:E. by destruct (RegisterTools_spec _ _ _ _ _ _ _ S E).
Qed.
Lemma sound_empty : sound_registry ∅.
Proof using. by intros name d E%lookup_empty_Some. Qed.
End Registered.

(** ** Queries *)
Definition name_lt (a b : ToolDefinition) : Prop := compare_string (td_name a) (td_name b) = Lt.
Lemma cmp_ok_string : cmp_ok compare_string.
Proof. apply (cmp_ok_list _ cmp_ok_byte). Qed.
#[export] Instance name_le_total : Total name_le.
Proof. intros a b. unfold name_le. rewrite (cmp_opp _ cmp_ok_string (td_name a)). destruct (compare_string (td_name a) (td_name b)); cbn; auto. Qed.
#[export] Instance name_le_trans : Transitive name_le.
Proof.
  intros a b c. unfold name_le. intros Hab Hbc Hac. assert (Hca : compare_string (td_name c) (td_name a) = Lt) by (by rewrite (cmp_opp _ cmp_ok_string (td_name a)), Hac).
  destruct (compare_string (td_name a) (td_name b)) eqn:Eab; [| |done].
  - apply (cmp_eq _ cmp_ok_string) in Eab. by rewrite <- Eab, Hac in Hbc.
  - pose proof (cmp_trans _ cmp_ok_string _ _ _ Hca Eab) as L. rewrite (cmp_opp _ cmp_ok_string (td_name b)) in L.
    by destruct (compare_string (td_name b) (td_name c)).
Qed.
Lemma strictly_sorted l : StronglySorted name_le l → NoDup (td_name <$> l) → StronglySorted name_lt l.
Proof.
  induction 1 as [|a l S IH F]; intros N; constructor; apply NoDup_cons in N as [Na N]; [by apply IH|]. rewrite Forall_forall in *. intros b I. specialize (F b I).
  unfold name_lt, name_le in *. destruct (compare_string _ _) eqn:E; try done. apply (cmp_eq _ cmp_ok_string) in E. exfalso. apply Na. rewrite E. apply list_elem_of_fmap. eauto.
Qed.
Lemma keep_names_spec names : NoDup (keep_names names) ∧ ∀ n, n ∈ keep_names names ↔ n ∈ names.
Proof.
  induction names as [|x names [N I]] using rev_ind; [split; [constructor|done]|].
  assert (E : keep_names (names ++ [x]) = if bool_decide (x ∈ keep_names names) then keep_names names else keep_names names ++ [x]) by (unfold keep_names; by rewrite foldl_app).
  rewrite E. destruct (decide (x ∈ keep_names names)) as [J|J]; [rewrite bool_decide_eq_true_2 by done|rewrite bool_decide_eq_false_2 by done].
  - split; [done|]. intros n. rewrite I. rewrite I in J. set_solver.
  - split; [|intros n; set_solver]. apply NoDup_app. split_and!; [done| |apply NoDup_singleton]. intros y Iy ->%list_elem_of_singleton. done.
Qed.
Section Queries.
Context `{UnicodeTables} (marshal_error : list (gostring * any) → option gostring) (url_parse : gostring → option (gostring * gostring)).
Abbreviation sound := (sound_registry marshal_error url_parse).
Lemma candidates_spec q tools : sound tools → NoDup (td_name <$> query_candidates q tools)
  ∧ ∀ d, d ∈ query_candidates q tools ↔ tools !! td_name d = Some d ∧ ∀ names, tq_Names q = Some names → td_name d ∈ names.
Proof using.
  clear -tools. intros S. unfold query_candidates. destruct (tq_Names q) as [names|].
  - destruct (keep_names_spec names) as [N I]. assert (M : ∀ d, d ∈ omap (λ name, tools !! name) (keep_names names) ↔ tools !! td_name d = Some d ∧ td_name d ∈ keep_names names).
    { intros d. rewrite list_elem_of_omap. split.
      - intros (n & In & E). destruct (S n d E) as (<- & _). done.
      - intros [E In]. eauto. }
    split.
    + clear I M. induction N as [|n l Nn N IH]; [constructor|]. cbn [omap list_omap]. destruct (tools !! n) as [d|] eqn:E; [|done]. cbn. constructor; [|done].
      destruct (S n d E) as (-> & _). intros (x & E' & Ix)%list_elem_of_fmap. apply list_elem_of_omap in Ix as (m & Im & Em). destruct (S m x Em) as (<- & _). congruence.
    + intros d. rewrite M, I. split; [intros [? ?]; split; [done|]; intros ? [= <-]; done|intros [? X]; split; [done|]; by apply X].
  - assert (K : td_name <$> (map_to_list tools).*2 = (map_to_list tools).*1).
    { rewrite <- list_fmap_compose. apply list_fmap_ext. intros i [n d] E. cbn. apply list_elem_of_lookup_2, elem_of_map_to_list in E. by destruct (S n d E). }
    split; [rewrite K; apply NoDup_fst_map_to_list|]. intros d. rewrite list_elem_of_fmap. split.
    + intros ([n x] & -> & I%elem_of_map_to_list). cbn. destruct (S n x I) as (-> & _). done.
    + intros [E _]. exists (td_name d, d). split; [done|]. by apply elem_of_map_to_list.
Qed.
Lemma Query_spec p c q tools : sound tools → StronglySorted name_lt (Query p c q tools)
  ∧ ∀ d, d ∈ Query p c q tools ↔ tools !! td_name d = Some d ∧ (∀ names, tq_Names q = Some names → td_name d ∈ names) ∧ selected p c q d = true.
Proof using.
  intros S. destruct (candidates_spec q tools S) as [N I]. unfold Query. split.
  - apply strictly_sorted; [apply (StronglySorted_merge_sort name_le)|]. rewrite (merge_sort_Permutation name_le). clear I.
    induction (query_candidates q tools) as [|d l IH]; [constructor|]. cbn in N. apply NoDup_cons in N as [Nd N]. cbn [List.filter]. destruct (selected p c q d); [|by apply IH].
    cbn. constructor; [|by apply IH]. intros (x & E & Ix)%list_elem_of_fmap. apply Nd, list_elem_of_fmap. exists x. split; [done|].
    apply list_elem_of_In, filter_In in Ix as [Ix _]. by apply list_elem_of_In.
  - intros d. rewrite (merge_sort_Permutation name_le), list_elem_of_In, filter_In, <- list_elem_of_In, I. clear. split; [intros [[? ?] ?]|intros (? & ? & ?)]; auto.
Qed.
End Queries.

(** ** The theorems *)
Section Theorems.
Context `{UnicodeTables} (marshal_error : list (gostring * any) → option gostring) (url_parse : gostring → option (gostring * gostring)).


(** A query of the registry returns, each once and ordered by name, exactly the registered definitions that have an asked name and pass every filter;
    of a query for what is available, each one is usable where the caller is, is not kept for superadmins from anybody else, and has a risk that
    the caller may use. *)
Lemma query_exact calls p c q :
  let tools := foldl (after marshal_error url_parse) ∅ calls in
  StronglySorted name_lt (Query p c q tools)
  ∧ (∀ d, d ∈ Query p c q tools ↔ tools !! td_name d = Some d ∧ (∀ names, tq_Names q = Some names → td_name d ∈ names) ∧ selected p c q d = true)
  ∧ ∀ d, d ∈ Query p c q tools → tq_Scope q = QueryAvailable →
    (i_ForegroundOnly (Definition_ d) = true → cl_NoForeground c = false)
    ∧ (i_APITypes (Definition_ d) ≠ [] → ∃ t, cl_APIType c = Some t ∧ t ∈ i_APITypes (Definition_ d))
    ∧ (i_SuperadminOnly (Definition_ d) = true → cl_Role c = RoleSuperadmin)
    ∧ (i_Risk (Definition_ d) = [] ∨ CanUseTool p (cl_Role c) (i_Risk (Definition_ d)) (i_OwnerScoped (Definition_ d)) = true).
Proof using.
  intros tools. assert (S : sound_registry marshal_error url_parse tools) by (apply sound_after, sound_empty).
  destruct (Query_spec _ _ p c q tools S) as [So M]. split_and!; [done|done|]. intros d (_ & _ & Se)%M Av. unfold selected in Se. rewrite Av in Se.
  apply andb_true_iff in Se as [_ [Ia Ca]%andb_true_iff]. apply bool_decide_eq_true in Ia. unfold UnavailableReason in Ia. unfold CanAccessTool in Ca.
  destruct (i_ForegroundOnly _ && cl_NoForeground c) eqn:F; [done|]. split_and!.
  - intros Fo. by rewrite Fo in F.
  - intros Ne. destruct (i_APITypes (Definition_ d)) as [|t l] eqn:E; [done|]. destruct (cl_APIType c) as [a|]; [|done]. exists a. split; [done|].
    destruct (negb _ && _) eqn:B in Ia; [|done]. apply andb_true_iff in B as [_ B]. by apply bool_decide_eq_true in B.
  - intros So'. rewrite So' in Ca. destruct (decide (cl_Role c = RoleSuperadmin)) as [|Ne]; [done|]. by rewrite (bool_decide_eq_false_2 _ Ne) in Ca.
  - destruct (_ && _) in Ca; [done|]. apply orb_true_iff in Ca as [Ca|Ca]; [left; by apply bool_decide_eq_true in Ca|by right].
Qed.
End Theorems.
