(* ===== verification/ToolDiscovery.v ===== *)
(** * The discovery of tools ([tool/discovery/resolve.go], [entry.go], [content.go], [activation.go])

    A discovery looks up the named tools, loads what they document and follows
    their dependencies. Other callers may register tools and the context may
    end meanwhile: a tick counts the moments at which the code asks, and the
    world says what the registry, the context and the loaders are then. *)
From S2P Require Import Prelude GoStr ToolPermit ToolRegistry.
Open Scope nat_scope.

Record DetailBlock := { db_Content : gostring; db_Format : gostring }.
Record PublicInfo := { pi_Name : gostring; pi_Description : gostring; pi_Source : Source; pi_ForegroundOnly : bool }.
Record DiscoveryItem := { NeedsElyphRules : bool; di_Info : PublicInfo; di_Schema : option Schema; Detail : gostring; di_Block : DetailBlock }.
Record DiscoveryError := { de_Name : gostring; de_Reason : gostring }.
Record DiscoveryResult := { dr_Tools : list DiscoveryItem; dr_Errors : list DiscoveryError }.
Definition no_block : DetailBlock := {| db_Content := []; db_Format := [] |}.
Definition publicInfo (info : Info) : PublicInfo :=
  {| pi_Name := i_Name info; pi_Description := i_Description info; pi_Source := i_Source info; pi_ForegroundOnly := i_ForegroundOnly info |}.
Definition item_name (i : DiscoveryItem) : gostring := pi_Name (di_Info i).
Definition nonblank (s : gostring) : bool := negb (bool_decide (trim_space s = [])).
Definition RenderDetailBlocks (blocks : list DetailBlock) : gostring :=
  join (§"

---

") (List.filter (λ s, negb (bool_decide (s = []))) (map (λ b, trim_space (db_Content b)) blocks)).
Definition elyph_format : gostring := §"elyph".
Definition normalizeNames (names : list gostring) : list gostring :=
  keep_names (List.filter (λ n, negb (bool_decide (n = []))) (map trim_space names)).

(** A loader gives a block, fails, or ends with the context. *)
Inductive loaded := Loaded (block : DetailBlock) | LoadFailed (reason : gostring) | LoadCanceled (e : gostring).
Record visit := {
  v_targets : gmap gostring ToolDefinition; v_seen : gset gostring; v_tools : list DiscoveryItem; v_errors : list DiscoveryError; v_tick : nat
}.
Definition start_visit (tick : nat) : visit := {| v_targets := ∅; v_seen := ∅; v_tools := []; v_errors := []; v_tick := tick |}.
Definition tick (v : visit) : visit :=
  {| v_targets := v_targets v; v_seen := v_seen v; v_tools := v_tools v; v_errors := v_errors v; v_tick := S (v_tick v) |}.
Definition mark (d : ToolDefinition) (v : visit) : visit :=
  {| v_targets := <[td_name d := d]> (v_targets v); v_seen := {[td_name d]} ∪ v_seen v; v_tools := v_tools v; v_errors := v_errors v; v_tick := v_tick v |}.
Definition add_item (i : DiscoveryItem) (v : visit) : visit :=
  {| v_targets := v_targets v; v_seen := v_seen v; v_tools := v_tools v ++ [i]; v_errors := v_errors v; v_tick := v_tick v |}.
Definition add_failure (name reason : gostring) (v : visit) : visit :=
  {| v_targets := v_targets v; v_seen := v_seen v; v_tools := v_tools v; v_errors := v_errors v ++ [{| de_Name := name; de_Reason := reason |}];
     v_tick := v_tick v |}.
Definition add_target (v : visit) (d : ToolDefinition) : visit :=
  {| v_targets := <[td_name d := d]> (v_targets v); v_seen := v_seen v; v_tools := v_tools v; v_errors := v_errors v; v_tick := v_tick v |}.
Definition loaded_item (d : ToolDefinition) (b : DetailBlock) : DiscoveryItem :=
  let detail := RenderDetailBlocks [b] in
  {| NeedsElyphRules := i_NeedsElyphRules (Definition_ d) || (negb (bool_decide (detail = [])) && bool_decide (db_Format b = elyph_format));
     di_Info := publicInfo (Definition_ d); di_Schema := None; Detail := detail; di_Block := b |}.
Definition schema_item (d : ToolDefinition) : DiscoveryItem :=
  {| NeedsElyphRules := i_NeedsElyphRules (Definition_ d); di_Info := publicInfo (Definition_ d); di_Schema := Some (schema_of d); Detail := [];
     di_Block := no_block |}.

Section Discovery.
Context `{UnicodeTables} (p : Permission) (c : caller).
(** The world at each tick: the error of the context, the registry and what a loader gives. *)
Context (ended : nat → option gostring) (registry_at : nat → gmap gostring ToolDefinition) (load : ToolDefinition → nat → loaded).

Definition query_names (names : option (list gostring)) (hidden : bool) : ToolQuery :=
  {| tq_Scope := QueryAvailable; tq_Kind := AnyKind; tq_Names := names; IncludeHidden := hidden; IncludeDiscover := true |}.
(** [Registry.Query], which first asks the context. *)
Definition query (names : option (list gostring)) (hidden : bool) (v : visit) : res (list ToolDefinition) :=
  match ended (v_tick v) with
  | Some e => Err e
  | None => Ok (Query p c (query_names names hidden) (registry_at (v_tick v)))
  end.
Fixpoint add_all (add : ToolDefinition → visit → option (res visit)) (dependencies : list gostring) (v : visit) : option (res visit) :=
  match dependencies with
  | [] => Some (Ok v)
  | dependency :: dependencies =>
    match v_targets v !! dependency with
    | Some d => match add d v with Some (Ok v) => add_all add dependencies v | r => r end
    | None =>
      match query (Some [dependency]) true v with
      | Ok [] => add_all add dependencies (tick v)
      | Ok (d :: _) => match add d (tick v) with Some (Ok v) => add_all add dependencies v | r => r end
      | Err e => Some (Err e)
      | Panic => Some Panic
      end
    end
  end.
(** [None]: out of fuel. *)
Fixpoint addDiscoveryDetail (fuel : nat) (target : ToolDefinition) (v : visit) : option (res visit) :=
  match fuel with
  | O => None
  | S fuel =>
    if bool_decide (td_name target ∈ v_seen v) then Some (Ok v)
    else
      let v := mark target v in
      let go (item : DiscoveryItem) (v : visit) :=
        match ended (v_tick v) with
        | Some e => Some (Err e)
        | None => add_all (addDiscoveryDetail fuel) (i_DependsOn (Definition_ target)) (add_item item (tick v))
        end in
      if LoadDetail target then
        match load target (v_tick v) with
        | LoadCanceled e => Some (Err e)
        | LoadFailed reason =>
          match ended (v_tick v) with
          | Some e => Some (Err e)
          | None => Some (Ok (add_failure (td_name target) reason (tick v)))
          end
        | Loaded block => go (loaded_item target block) (tick v)
        end
      else go (schema_item target) v
  end.
Definition not_found : gostring := §"not found or not allowed".
Fixpoint resolve_names (fuel : nat) (names : list gostring) (v : visit) : option (res visit) :=
  match names with
  | [] => Some (Ok v)
  | name :: names =>
    if bool_decide (name ∈ v_seen v) then resolve_names fuel names v
    else
      match query (Some [name]) false v with
      | Ok [] => resolve_names fuel names (add_failure name not_found (tick v))
      | Ok (d :: _) => match addDiscoveryDetail fuel d (tick v) with Some (Ok v) => resolve_names fuel names v | r => r end
      | Err e => Some (Err e)
      | Panic => Some Panic
      end
  end.
Definition resolve (fuel : nat) (names : list gostring) : option (res visit) :=
  match ended 0 with Some e => Some (Err e) | None => resolve_names fuel names (start_visit 1) end.
(** [Resolver.Resolve]: from definitions that a query returned before. *)
Fixpoint resolve_tools (fuel : nat) (tools : list ToolDefinition) (v : visit) : option (res visit) :=
  match tools with
  | [] => Some (Ok v)
  | d :: tools => match addDiscoveryDetail fuel d v with Some (Ok v) => resolve_tools fuel tools v | r => r end
  end.
Definition Resolve (fuel : nat) (tools : list ToolDefinition) : option (res visit) :=
  match ended 0 with Some e => Some (Err e) | None => resolve_tools fuel tools (foldl add_target (start_visit 1) tools) end.
Definition result_of (v : visit) : DiscoveryResult := {| dr_Tools := v_tools v; dr_Errors := v_errors v |}.
Definition discover (fuel : nat) (names : list gostring) : option (res visit) :=
  match normalizeNames names with
  | [] =>
    match query None false (start_visit 0) with
    | Ok tools => Some (Ok {| v_targets := ∅; v_seen := ∅; v_errors := []; v_tick := 1;
        v_tools := map (λ d, {| NeedsElyphRules := false; di_Info := publicInfo (Definition_ d); di_Schema := None; Detail := []; di_Block := no_block |}) tools |})
    | Err e => Some (Err e)
    | Panic => Some Panic
    end
  | names => resolve fuel names
  end.
Definition DiscoverDetails (fuel : nat) (names : list gostring) : option (res visit) := resolve fuel (normalizeNames names).

(** ** The text of a discovery *)
(** What [DiscoveryContent] of a definition gives: a text and whether it replaces the list, or an error. *)
Context (content : ToolDefinition → res (gostring * bool)).
Record texts := { tx_Parts : list gostring; tx_Found : list gostring; tx_Extras : list gostring; tx_Blocks : list DetailBlock }.
Definition content_item (targets : gmap gostring ToolDefinition) (t : texts) (i : DiscoveryItem) : res texts :=
  let name := trim_space (item_name i) in
  if negb (bool_decide (Detail i = [])) then
    Ok {| tx_Parts := tx_Parts t; tx_Found := tx_Found t ++ [name]; tx_Extras := tx_Extras t;
          tx_Blocks := tx_Blocks t ++ [if nonblank (db_Content (di_Block i)) then di_Block i else {| db_Content := Detail i; db_Format := [] |}] |}
  else
    match di_Schema i with
    | Some _ =>
      if bool_decide (name = []) then Ok t
      else
        let t := {| tx_Parts := tx_Parts t; tx_Found := tx_Found t ++ [name]; tx_Extras := tx_Extras t; tx_Blocks := tx_Blocks t |} in
        match targets !! name with
        | Some d =>
          if DiscoveryContent d then
            let* (text, override) := res_wrap (§"load discovery content for " ++ name ++ §": ") (content d) in
            Ok (if negb (nonblank text) then t
                else if override then {| tx_Parts := tx_Parts t ++ [text]; tx_Found := tx_Found t; tx_Extras := tx_Extras t; tx_Blocks := tx_Blocks t |}
                else {| tx_Parts := tx_Parts t; tx_Found := tx_Found t; tx_Extras := tx_Extras t ++ [text]; tx_Blocks := tx_Blocks t |})
          else Ok t
        | None => Ok t
        end
    | None =>
      Ok (if bool_decide (name = []) then t
          else {| tx_Parts := tx_Parts t ++ [name ++ §"：" ++ pi_Description (di_Info i)]; tx_Found := tx_Found t; tx_Extras := tx_Extras t;
                  tx_Blocks := tx_Blocks t |})
    end.
Fixpoint content_items (targets : gmap gostring ToolDefinition) (items : list DiscoveryItem) (t : texts) : res texts :=
  match items with
  | [] => Ok t
  | i :: items => let* t := content_item targets t i in content_items targets items t
  end.
Definition failure_text (e : DiscoveryError) : gostring :=
  let reason := trim_space (de_Reason e) in de_Name e ++ §"：" ++ (if bool_decide (reason = []) then not_found else reason).
Definition paragraph : gostring := §"

".
Definition discoveryContent (targets : gmap gostring ToolDefinition) (r : DiscoveryResult) : res (gostring * gostring) :=
  let* t := content_items targets (dr_Tools r) {| tx_Parts := []; tx_Found := []; tx_Extras := []; tx_Blocks := [] |} in
  let summary := match tx_Found t with [] => [] | found => §"已发现：" ++ join §"、" found ++ §"。后续可直接使用。" end in
  let details := RenderDetailBlocks (tx_Blocks t) in
  let failures := map failure_text (List.filter (λ e, negb (bool_decide (de_Name e = []))) (dr_Errors r)) in
  let parts := tx_Parts t ++ tx_Extras t ++ (if bool_decide (details = []) then [] else [details])
               ++ match failures with [] => [] | _ => [§"未发现工具：" ++ join §", " failures] end in
  Ok (summary, join paragraph parts).

(** ** The call of discover_tool *)
Record discovered := { dc_Content : gostring; dc_Result : DiscoveryResult; dc_Activate : list gostring; dc_NeedsElyph : bool }.
Definition discover_call (fuel : nat) (names : list gostring) : option (res discovered) :=
  match discover fuel names with
  | Some (Ok v) =>
    match v_tools v, v_errors v with
    | [], [e] => Some (Err (§"discover tool " ++ quote (de_Name e) ++ §": " ++ de_Reason e))
    | tools, _ =>
      let activate := tools ≫= λ i, if bool_decide (Detail i = []) then []
                                    else match v_targets v !! item_name i with Some d => ActivateTools d | None => [] end in
      Some (let* (summary, details) := discoveryContent (v_targets v) (result_of v) in
            Ok {| dc_Content := trim_space (summary ++ paragraph ++ details); dc_Result := result_of v; dc_Activate := normalizeNames activate;
                  dc_NeedsElyph := existsb NeedsElyphRules tools |})
    end
  | Some (Err e) => Some (Err e)
  | Some Panic => Some Panic
  | None => None
  end.

(** ** What a discovery adds to the session *)
Definition native_tool (info : PublicInfo) (s : Schema) : DiscoveredTool :=
  {| dt_Risk := []; dt_Name := pi_Name info; dt_CanonicalName := []; dt_Source := KindNative; dt_Description := pi_Description info; dt_Schema := s;
     dt_EventKey := []; dt_Endpoint := []; dt_TimeoutSeconds := 0; dt_ForegroundOnly := pi_ForegroundOnly info |}.
Definition NativeDiscoveredToolsFromDiscovery (tools : list DiscoveryItem) : list DiscoveredTool :=
  omap (λ i, match di_Schema i with
             | Some s => if bool_decide (item_name i = []) then None else Some (native_tool (di_Info i) s)
             | None => None
             end) tools.
(** [activatedTools] at a tick; the names are those of the result's metadata. *)
Definition activatedTools (t : nat) (metadata : list gostring) : res (list DiscoveredTool) :=
  match normalizeNames metadata with
  | [] => Ok []
  | names =>
    let* tools := query (Some names) true (start_visit t) in
    Ok (omap (λ name, d ← List.find (λ d, bool_decide (td_name d = name)) tools;
                      if Callable d then Some (native_tool (publicInfo (Definition_ d)) (schema_of d)) else None) names)
  end.
Definition DiscoveryStateUpdate (t : nat) (found : list DiscoveryItem) (metadata : list gostring) : res StateUpdate :=
  match ended t with
  | Some e => Err e
  | None =>
    let* activated := activatedTools (S t) metadata in
    Ok {| ReplaceGroups := []; su_Tools := NativeDiscoveredToolsFromDiscovery found ++ activated; su_Tags := [] |}
  end.
End Discovery.
