(* ===== verification/ToolDiscoveryProps.v ===== *)
(** * Discovery finds exactly what is reachable, and ends (ToolDiscovery.v) *)
From S2P Require Import Prelude GoStr ToolPermit ToolRegistry ToolRegistryProps ToolDiscovery.
Open Scope nat_scope.

Section Closure.
Context `{UnicodeTables} (p : Permission) (c : caller) (tools : gmap gostring ToolDefinition) (ld : ToolDefinition → loaded) (names : list gostring).
(** A definition the caller may see, hidden ones included or not. *)
Definition visible (hidden : bool) (n : gostring) (d : ToolDefinition) : Prop :=
  tools !! n = Some d ∧ selected p c (query_names (Some [n]) hidden) d = true.
(** Its dependencies are followed. *)
Definition expands (d : ToolDefinition) : Prop := LoadDetail d = true → ∃ b, ld d = Loaded b.
Inductive reach : gostring → Prop :=
| reach_root n d : n ∈ names → visible false n d → reach n
| reach_dependency n d m d' : reach n → tools !! n = Some d → expands d → m ∈ i_DependsOn (Definition_ d) → visible true m d' → reach m.
#[local] Instance expands_dec d : Decision (expands d).
Proof.
  unfold expands. destruct (LoadDetail d); [|left; done]. destruct (ld d) as [b|r|e]; [left; eauto|right..]; intros N; by destruct (N eq_refl).
Defined.
Definition failed (n : gostring) : Prop := ∃ d, tools !! n = Some d ∧ ¬ expands d.
Record visited (v : visit) : Prop := {
  vi_targets : ∀ n d, v_targets v !! n = Some d → tools !! n = Some d ∧ n ∈ v_seen v;
  vi_reach : ∀ n, n ∈ v_seen v → reach n;
  vi_items : NoDup (item_name <$> v_tools v) ∧ ∀ n, n ∈ item_name <$> v_tools v ↔ n ∈ v_seen v ∧ ¬ failed n;
  vi_failed : ∀ n, n ∈ v_seen v → failed n → n ∈ de_Name <$> v_errors v;
  vi_errors : ∀ n, n ∈ de_Name <$> v_errors v → (reach n ∧ failed n) ∨ (n ∈ names ∧ ∀ d, ¬ visible false n d);
  vi_source : ∀ i, i ∈ v_tools v → ∃ d, tools !! item_name i = Some d ∧ di_Info i = publicInfo (Definition_ d)
    ∧ (LoadDetail d = false → di_Schema i = Some (schema_of d)) ∧ (LoadDetail d = true → di_Schema i = None)
}.
Definition left_ (v : visit) : nat := size (dom tools ∖ v_seen v).
Definition covered (v : visit) (n : gostring) : Prop := ∀ d m d', tools !! n = Some d → expands d → m ∈ i_DependsOn (Definition_ d) → visible true m d' → m ∈ v_seen v.
(** What visiting more leaves behind. *)
Record extends (v v' : visit) : Prop := {
  ex_seen : v_seen v ⊆ v_seen v';
  ex_covered : ∀ n, n ∈ v_seen v' → n ∉ v_seen v → covered v' n;
  ex_errors : ∀ n, n ∈ de_Name <$> v_errors v → n ∈ de_Name <$> v_errors v'
}.
Lemma extends_refl v : extends v v.
Proof. split; [done|done|done]. Qed.
Lemma covered_mono v v' n : v_seen v ⊆ v_seen v' → covered v n → covered v' n.
Proof. intros L C d m d' E X I V. apply L. by eapply C. Qed.
Lemma extends_trans v1 v2 v3 : extends v1 v2 → extends v2 v3 → extends v1 v3.
Proof.
  intros [S1 C1 E1] [S2 C2 E2]. split; [set_solver| |auto]. intros n I N. destruct (decide (n ∈ v_seen v2)) as [J|J].
  - eapply covered_mono; [exact S2|by apply C1].
  - by apply C2.
Qed.
Lemma visited_tick v : visited v → visited (tick v).
Proof. intros []. split; done. Qed.
Lemma left_le v v' : v_seen v ⊆ v_seen v' → left_ v' ≤ left_ v.
Proof. intros S. unfold left_. apply subseteq_size. set_solver. Qed.
Lemma left_mark d v : tools !! td_name d = Some d → td_name d ∉ v_seen v → left_ (mark d v) < left_ v.
Proof.
  intros E N. unfold left_, mark. cbn [v_seen]. apply subset_size. split; [set_solver|]. intros S. assert (I : td_name d ∈ dom tools ∖ v_seen v).
  { apply elem_of_difference. split; [by apply elem_of_dom_2 in E|done]. }
  apply S in I. set_solver.
Qed.
Lemma expands_failed n d : tools !! n = Some d → failed n ↔ ¬ expands d.
Proof. intros E. unfold failed. rewrite E. split; [by intros (? & [= <-] & ?)|intros ?; by exists d]. Qed.
(** A new name, listed with its item. *)
Lemma visited_item d i v : visited v → tools !! td_name d = Some d → reach (td_name d) → td_name d ∉ v_seen v → expands d →
  item_name i = td_name d → di_Info i = publicInfo (Definition_ d) → (LoadDetail d = false → di_Schema i = Some (schema_of d)) → (LoadDetail d = true → di_Schema i = None) →
  visited (add_item i (mark d v)).
Proof.
  intros [T R [N I] F E So] Ed Rd Nd X Ni Pi Sc Dc. split; cbn [add_item mark v_targets v_seen v_tools v_errors].
  - intros n x. destruct (decide (td_name d = n)) as [<-|Ne]; [rewrite lookup_insert_eq; intros [= <-]; split; [done|set_solver]|].
    rewrite lookup_insert_ne by done. intros [? ?]%T. split; [done|set_solver].
  - intros n [->%elem_of_singleton|J]%elem_of_union; [done|by apply R].
  - rewrite fmap_app. cbn. rewrite Ni. split.
    + apply NoDup_app. split_and!; [done| |apply NoDup_singleton]. intros n J ->%list_elem_of_singleton. by apply I in J as [J _].
    + intros n. rewrite elem_of_app, I, list_elem_of_singleton, elem_of_union, elem_of_singleton. pose proof (expands_failed _ _ Ed) as Xf.
      split; [intros [[? ?]| ->]; [split; [by right|done]|split; [by left|by rewrite Xf; intros []]]|intros [[-> |?] ?]; [by right|left; by split]].
  - intros n [->%elem_of_singleton|J]%elem_of_union Fn; [|by apply F]. by apply (expands_failed _ _ Ed) in Fn.
  - done.
  - intros x [J| ->%list_elem_of_singleton]%elem_of_app; [by apply So|]. exists d. rewrite Ni. done.
Qed.
(** A new name whose document fails. *)
Lemma visited_failure d reason v : visited v → tools !! td_name d = Some d → reach (td_name d) → td_name d ∉ v_seen v → ¬ expands d →
  visited (add_failure (td_name d) reason (mark d v)).
Proof.
  intros [T R [N I] F E So] Ed Rd Nd X. pose proof (expands_failed _ _ Ed) as Xf. split; cbn [add_failure mark v_targets v_seen v_tools v_errors].
  - intros n x. destruct (decide (td_name d = n)) as [<-|Ne]; [rewrite lookup_insert_eq; intros [= <-]; split; [done|set_solver]|].
    rewrite lookup_insert_ne by done. intros [? ?]%T. split; [done|set_solver].
  - intros n [->%elem_of_singleton|J]%elem_of_union; [done|by apply R].
  - split; [done|]. intros n. rewrite I, elem_of_union, elem_of_singleton. split; [intros [? ?]; split; [by right|done]|].
    intros [[-> |?] Nf]; [exfalso; apply Nf; by apply Xf|by split].
  - intros n J Fn. rewrite fmap_app, elem_of_app. cbn. apply elem_of_union in J as [->%elem_of_singleton|J]; [right; by apply list_elem_of_singleton|left; by apply F].
  - intros n. rewrite fmap_app, elem_of_app. cbn. intros [J|J%list_elem_of_singleton]; [by apply E|]. subst. left. split; [done|by apply Xf].
  - done.
Qed.

(** ** In a world at rest *)
(** A world at rest: the context lives, and neither the registry nor the documents change. *)
Context (ended : nat → option gostring) (registry_at : nat → gmap gostring ToolDefinition) (load : ToolDefinition → nat → loaded).
Context (Alive : ∀ n, ended n = None) (Same : ∀ n, registry_at n = tools) (Load : ∀ d n, load d n = ld d) (NoCancel : ∀ d e, ld d ≠ LoadCanceled e).
Context (Keys : ∀ n d, tools !! n = Some d → td_name d = n).
Abbreviation add := (addDiscoveryDetail p c ended registry_at load).
Lemma query_one n hidden v : query p c ended registry_at (Some [n]) hidden v =
  Ok (match tools !! n with Some d => if selected p c (query_names (Some [n]) hidden) d then [d] else [] | None => [] end).
Proof.
  unfold query. rewrite Alive, Same. f_equal. unfold Query, query_candidates. cbn [tq_Names query_names]. unfold keep_names. cbn [foldl].
  rewrite bool_decide_eq_false_2 by (by apply not_elem_of_nil). cbn [app omap list_omap]. destruct (tools !! n) as [d|]; [|done]. cbn [List.filter].
  by destruct (selected _ _ _ _).
Qed.


(** What a call leaves: it ends, and visits more. *)
Definition visits (r : option (res visit)) (v : visit) (P : visit → Prop) : Prop := ∃ v', r = Some (Ok v') ∧ visited v' ∧ extends v v' ∧ P v'.
Lemma visits_then r v v' P : extends v v' → visits r v' P → visits r v P.
Proof. intros E (x & -> & V & E' & Px). exists x. split_and!; [done..| |done]. by eapply extends_trans. Qed.
Lemma extends_tick v : extends v (tick v).
Proof. split; done. Qed.
Section Dependencies.
Context (fuel : nat) (Rec : ∀ d v, visited v → tools !! td_name d = Some d → reach (td_name d) → left_ v < fuel → visits (add fuel d v) v (λ v', td_name d ∈ v_seen v')).
Lemma visits_dependencies n d l : tools !! n = Some d → expands d → reach n → ∀ v, visited v → (∀ m, m ∈ l → m ∈ i_DependsOn (Definition_ d)) → left_ v < fuel →
  visits (add_all p c ended registry_at (add fuel) l v) v (λ v', ∀ m d', m ∈ l → visible true m d' → m ∈ v_seen v').
Proof.
  intros Ed X Rn. induction l as [|m l IH]; intros v V D Le; cbn [add_all].
  { exists v. split_and!; [done|done|apply extends_refl|set_solver]. }
  assert (Next : ∀ v1, visited v1 → extends v v1 → (∀ d', visible true m d' → m ∈ v_seen v1) →
    visits (add_all p c ended registry_at (add fuel) l v1) v (λ v', ∀ m0 d', m0 ∈ m :: l → visible true m0 d' → m0 ∈ v_seen v')).
  { intros v1 V1 E1 M1. destruct (IH v1 V1) as (v2 & -> & V2 & E2 & M2); [intros x I; apply D; by right|pose proof (left_le _ _ (ex_seen _ _ E1)); lia|].
    exists v2. split_and!; [done|done|by eapply extends_trans|]. intros x d' [-> |I]%elem_of_cons Vx; [|by eapply M2]. apply (ex_seen _ _ E2). by eapply M1. }
  destruct (v_targets v !! m) as [dm|] eqn:T.
  - destruct (vi_targets _ V _ _ T) as [Em Sm]. pose proof (Keys _ _ Em) as Km. rewrite <- Km in *.
    destruct (Rec dm v V Em (vi_reach _ V _ Sm) Le) as (v1 & -> & V1 & E1 & S1). by apply Next.
  - rewrite query_one. destruct (tools !! m) as [dm|] eqn:Em; [destruct (selected p c (query_names (Some [m]) true) dm) eqn:Se|].
    + pose proof (Keys _ _ Em) as Km. assert (Rm : reach (td_name dm)) by (rewrite Km; eapply reach_dependency; [exact Rn|exact Ed|done|apply D; by left|by split]).
      destruct (Rec dm (tick v)) as (v1 & -> & V1 & E1 & S1); [by apply visited_tick|by rewrite Km|done|done|].
      apply Next; [done|eapply extends_trans; [apply extends_tick|done]|]. intros _ _. by rewrite <- Km.
    + apply Next; [by apply visited_tick|apply extends_tick|]. intros d' [E' S']. rewrite Em in E'. injection E' as <-. congruence.
    + apply Next; [by apply visited_tick|apply extends_tick|]. intros d' [E' _]. congruence.
Qed.
End Dependencies.
Lemma visits_add fuel : ∀ d v, visited v → tools !! td_name d = Some d → reach (td_name d) → left_ v < fuel → visits (add fuel d v) v (λ v', td_name d ∈ v_seen v').
Proof.
  induction fuel as [|fuel IH]; intros d v V Ed Rd Le; [lia|]. cbn [addDiscoveryDetail].
  destruct (decide (td_name d ∈ v_seen v)) as [I|N]; [rewrite bool_decide_eq_true_2 by done; exists v; split_and!; [done|done|apply extends_refl|done]|].
  rewrite bool_decide_eq_false_2 by done. pose proof (left_mark d v Ed N) as Lm.
  assert (Go : ∀ i v0, v_tools v0 = v_tools (mark d v) → v_targets v0 = v_targets (mark d v) → v_seen v0 = v_seen (mark d v) → v_errors v0 = v_errors (mark d v) →
    expands d → item_name i = td_name d → di_Info i = publicInfo (Definition_ d) → (LoadDetail d = false → di_Schema i = Some (schema_of d)) → (LoadDetail d = true → di_Schema i = None) →
    visits (match ended (v_tick v0) with Some e => Some (Err e)
            | None => add_all p c ended registry_at (add fuel) (i_DependsOn (Definition_ d)) (add_item i (tick v0)) end) v (λ v', td_name d ∈ v_seen v')).
  { intros i v0 E1 E2 E3 E4 X Ni Pi Sc Dc. rewrite Alive.
    assert (V0 : visited (add_item i (tick v0))).
    { pose proof (visited_item d i v V Ed Rd N X Ni Pi Sc Dc) as [T R I F Er So]. destruct v0; cbn in *; subst. split; done. }
    destruct (visits_dependencies fuel IH _ _ (i_DependsOn (Definition_ d)) Ed X Rd _ V0) as (v1 & -> & V1 & E & M); [done| |].
    { replace (left_ (add_item i (tick v0))) with (left_ (mark d v)) by (unfold left_; cbn [add_item tick v_seen]; by rewrite E3). lia. }
    assert (S1 : v_seen (mark d v) ⊆ v_seen v1) by (rewrite <- E3; apply (ex_seen _ _ E)).
    exists v1. split_and!; [done|done| |apply S1; cbn; set_solver]. split.
    - cbn in S1. set_solver.
    - intros n I J. destruct (decide (n = td_name d)) as [-> |Ne].
      + intros d1 m d2 E1' _ Im Vm. rewrite Ed in E1'. injection E1' as <-. by eapply M.
      + apply (ex_covered _ _ E); [done|]. cbn [add_item tick v_seen]. rewrite E3. cbn. set_solver.
    - intros n I. apply (ex_errors _ _ E). cbn [add_item tick v_errors]. by rewrite E4. }
  destruct (LoadDetail d) eqn:Ld; [|apply Go; try done; intros Z; congruence]. rewrite Load. destruct (ld d) as [b|reason|e] eqn:Lo; [| |by apply NoCancel in Lo].
  - apply Go; try done. intros _. eauto.
  - rewrite Alive. assert (X : ¬ expands d) by (intros X; destruct (X Ld) as [b Eb]; congruence).
    exists (add_failure (td_name d) reason (tick (mark d v))). split_and!; [done| | |cbn; set_solver].
    + pose proof (visited_failure d reason v V Ed Rd N X) as [T R I F Er So]. split; done.
    + split; [cbn; set_solver| |intros n I; cbn [add_failure tick mark v_errors]; rewrite fmap_app; set_solver].
      intros n I J d1 m d2 E1 X1 _ _. exfalso. cbn in I. apply elem_of_union in I as [->%elem_of_singleton|I]; [|done]. rewrite Ed in E1. injection E1 as <-. done.
Qed.
(** The loop over the requested names. *)
Lemma visits_names fuel l : ∀ v, visited v → (∀ n, n ∈ l → n ∈ names) → left_ v < fuel →
  visits (resolve_names p c ended registry_at load fuel l v) v (λ v', ∀ n, n ∈ l →
    (∀ d, visible false n d → n ∈ v_seen v') ∧ ((∀ d, ¬ visible false n d) → n ∈ v_seen v' ∨ n ∈ de_Name <$> v_errors v')).
Proof.
  induction l as [|n l IH]; intros v V Ln Le; cbn [resolve_names]; [exists v; split_and!; [done|done|apply extends_refl|set_solver]|].
  assert (Next : ∀ v1, visited v1 → extends v v1 →
    (∀ d, visible false n d → n ∈ v_seen v1) ∧ ((∀ d, ¬ visible false n d) → n ∈ v_seen v1 ∨ n ∈ de_Name <$> v_errors v1) →
    visits (resolve_names p c ended registry_at load fuel l v1) v (λ v', ∀ n0, n0 ∈ n :: l →
      (∀ d, visible false n0 d → n0 ∈ v_seen v') ∧ ((∀ d, ¬ visible false n0 d) → n0 ∈ v_seen v' ∨ n0 ∈ de_Name <$> v_errors v'))).
  { intros v1 V1 E1 [M1 M2]. destruct (IH v1 V1) as (v2 & -> & V2 & E2 & M); [intros x I; apply Ln; by right|pose proof (left_le _ _ (ex_seen _ _ E1)); lia|].
    exists v2. split_and!; [done|done|by eapply extends_trans|]. intros x [-> | I]%elem_of_cons; [|by apply M]. split.
    - intros d Vd. apply (ex_seen _ _ E2). by eapply M1.
    - intros Nd. destruct (M2 Nd) as [?|?]; [left; by apply (ex_seen _ _ E2)|right; by apply (ex_errors _ _ E2)]. }
  destruct (decide (n ∈ v_seen v)) as [I|N]; [rewrite bool_decide_eq_true_2 by done; apply Next; [done|apply extends_refl|split; [done|by left]]|].
  rewrite bool_decide_eq_false_2, query_one by done.
  assert (Lost : (∀ d, ¬ visible false n d) → visits (resolve_names p c ended registry_at load fuel l (add_failure n not_found (tick v))) v (λ v', ∀ n0, n0 ∈ n :: l →
      (∀ d, visible false n0 d → n0 ∈ v_seen v') ∧ ((∀ d, ¬ visible false n0 d) → n0 ∈ v_seen v' ∨ n0 ∈ de_Name <$> v_errors v'))).
  { intros Nv. apply Next.
    - destruct V as [T R I F Er So]. split; cbn [add_failure tick v_targets v_seen v_tools v_errors]; [done..| | |done].
      + intros x J Fx. rewrite fmap_app. apply elem_of_app. left. by apply F.
      + intros x. rewrite fmap_app, elem_of_app. cbn. intros [J|J%list_elem_of_singleton]; [by apply Er|]. subst. right. split; [apply Ln; by left|done].
    - split; [done|done|]. intros x J. cbn [add_failure tick v_errors]. rewrite fmap_app. apply elem_of_app. by left.
    - split; [intros d Vd; by apply Nv in Vd|]. intros _. right. cbn [add_failure tick v_errors]. rewrite fmap_app. apply elem_of_app. right. by apply list_elem_of_singleton. }
  destruct (tools !! n) as [d|] eqn:Ed; [destruct (selected p c (query_names (Some [n]) false) d) eqn:Se|].
  - pose proof (Keys _ _ Ed) as Kd. destruct (visits_add fuel d (tick v)) as (v1 & -> & V1 & E1 & S1); [by apply visited_tick|by rewrite Kd| |done|].
    { rewrite Kd. eapply reach_root; [apply Ln; by left|by split]. }
    rewrite Kd in S1. apply Next; [done|eapply extends_trans; [apply extends_tick|done]|]. split; [done|by left].
  - apply Lost. intros d' [E' S']. rewrite Ed in E'. injection E' as <-. congruence.
  - apply Lost. intros d' [E' _]. congruence.
Qed.
Lemma visited_start k : visited (start_visit k).
Proof.
  split; cbn [start_visit v_targets v_seen v_tools v_errors]; try set_solver.
  split; [constructor|]. set_solver.
Qed.
Lemma resolve_closure : ∃ v, resolve p c ended registry_at load (S (size tools)) names = Some (Ok v) ∧ visited v ∧ (∀ n, n ∈ v_seen v ↔ reach n)
  ∧ ∀ n, n ∈ names → (∀ d, ¬ visible false n d) → reach n ∨ n ∈ de_Name <$> v_errors v.
Proof.
  unfold resolve. rewrite Alive. destruct (visits_names (S (size tools)) names (start_visit 1)) as (v & -> & V & E & M); [apply visited_start|done| |].
  { unfold left_. cbn [start_visit v_seen]. rewrite difference_empty_L, size_dom. lia. }
  assert (Seen : ∀ n, n ∈ v_seen v ↔ reach n).
  { intros n. split; [apply (vi_reach _ V)|]. induction 1 as [n d In Vd|n d m d' Rn IHn Ed X Im Vm]; [by eapply M|].
    eapply (ex_covered _ _ E n IHn); [cbn; set_solver|exact Ed|done|done|exact Vm]. }
  exists v. split_and!; [done|done|done|]. intros n In Nv. destruct (proj2 (M n In) Nv) as [S|S]; [left; by apply Seen|by right].
Qed.
End Closure.

(** ** The theorems *)
Section Theorems.
Context `{UnicodeTables} (p : Permission) (c : caller) (ld : ToolDefinition → loaded).

(** C30: in a world at rest a discovery always ends, whatever the graph of dependencies, and lists exactly once each definition that is reachable from the names
    asked for by the dependencies of definitions whose documents load, through definitions the caller may use, with what the registry holds of it;
    a reachable document that does not load, and a name that is neither visible nor reachable, is reported as an error, and nothing else is. *)
Theorem discovery_closure tools asked ended registry_at load : (∀ n, ended n = None) → (∀ n, registry_at n = tools) → (∀ d n, load d n = ld d) →
  (∀ d e, ld d ≠ LoadCanceled e) → (∀ n d, tools !! n = Some d → td_name d = n) → normalizeNames asked ≠ [] →
  let names := normalizeNames asked in
  ∃ v, discover p c ended registry_at load (S (size tools)) asked = Some (Ok v)
  ∧ NoDup (item_name <$> v_tools v)
  ∧ (∀ n, n ∈ item_name <$> v_tools v ↔ reach p c tools ld names n ∧ ¬ failed tools ld n)
  ∧ (∀ i, i ∈ v_tools v → ∃ d, tools !! item_name i = Some d ∧ di_Info i = publicInfo (Definition_ d) ∧ (LoadDetail d = false → di_Schema i = Some (schema_of d)))
  ∧ (∀ n, n ∈ de_Name <$> v_errors v → (reach p c tools ld names n ∧ failed tools ld n) ∨ (n ∈ names ∧ ∀ d, ¬ visible p c tools false n d))
  ∧ (∀ n, reach p c tools ld names n → failed tools ld n → n ∈ de_Name <$> v_errors v)
  ∧ ∀ n, n ∈ names → (∀ d, ¬ visible p c tools false n d) → ¬ reach p c tools ld names n → n ∈ de_Name <$> v_errors v.
Proof using.
  intros Alive Same Load Nc Keys Ne names. destruct (resolve_closure p c tools ld names ended registry_at load Alive Same Load Nc Keys) as (v & E & V & Seen & M).
  exists v. unfold discover. subst names. destruct (normalizeNames asked) as [|n l]; [done|]. split_and!; [done|apply (vi_items _ _ _ _ _ _ V)| | |apply (vi_errors _ _ _ _ _ _ V)| |].
  - intros x. rewrite (proj2 (vi_items _ _ _ _ _ _ V) x), Seen. done.
  - intros i I. destruct (vi_source _ _ _ _ _ _ V i I) as (d & ? & ? & ? & _). eauto.
  - intros x R F. apply (vi_failed _ _ _ _ _ _ V); [by apply Seen|done].
  - intros x I Nv Nr. by destruct (M x I Nv).
Qed.
End Theorems.
#[local] Instance tables : UnicodeTables := ascii_tables.
Definition example_tool (name : gostring) (hidden skill : bool) (depends : list gostring) : ToolDefinition :=
  {| Definition_ := {| i_NeedsElyphRules := false; i_APITypes := []; i_Name := name; i_Description := §"does " ++ name; i_Source := SourceBuiltin; i_Risk := RiskSafe;
       i_SuperadminOnly := false; i_Hidden := hidden; i_OwnerScoped := false; i_ForegroundOnly := false; i_Tags := []; i_DependsOn := depends |};
     Parameters := None; Prepare := negb skill; LoadDetail := skill; ActivateTools := []; DiscoveryContent := false; Remote_ := None |}.
(** A cycle between two tools, a hidden helper, and a skill whose document is missing. *)
Definition example_tools : gmap gostring ToolDefinition :=
  list_to_map [(§"a", example_tool §"a" false false [§"b"; §"h"]); (§"b", example_tool §"b" false false [§"a"; §"s"]); (§"h", example_tool §"h" true false []);
               (§"s", example_tool §"s" false true [§"x"]); (§"x", example_tool §"x" false false [])].
Definition example_caller : caller := {| cl_Role := RoleUser; cl_NoForeground := false; cl_APIType := None |}.
Definition example_permission : Permission := {| UserMaxToolRisk := RiskLow; SuperadminConfirmRisk := RiskHigh; Superadmins := ∅ |}.
Definition example_load (d : ToolDefinition) : loaded := LoadFailed §"gone".
Definition example_discovery : option (res visit) :=
  discover example_permission example_caller (λ _, None) (λ _, example_tools) (λ d _, example_load d) 6 [§" a "; §"h"; §"q"].
Lemma discovery_closure_witness : ∃ v, example_discovery = Some (Ok v) ∧ item_name <$> v_tools v = [§"a"; §"b"; §"h"] ∧ de_Name <$> v_errors v = [§"s"; §"q"]
  ∧ NoDup (item_name <$> v_tools v).
Proof.
  destruct (discovery_closure example_permission example_caller example_load example_tools [§" a "; §"h"; §"q"] (λ _, None) (λ _, example_tools) (λ d _, example_load d))
    as (v & E & N & _); [reflexivity|reflexivity|reflexivity|intros d e [=]| |intros [=]|].
  - apply (bool_decide_unpack (map_Forall (λ n d, td_name d = n) example_tools)). vm_compute. exact I.
  - assert (F : example_discovery = Some (Ok v)) by exact E. exists v. split; [done|].
    assert (X : match example_discovery with Some (Ok v) => bool_decide (item_name <$> v_tools v = [§"a"; §"b"; §"h"]) && bool_decide (de_Name <$> v_errors v = [§"s"; §"q"]) | _ => false end = true)
      by (vm_compute; reflexivity).
    rewrite F in X. apply andb_true_iff in X as [X1%bool_decide_eq_true X2%bool_decide_eq_true]. split_and!; [exact X1|exact X2|exact N].
Defined.
