(* ===== verification/ToolState.v ===== *)
(** * The tools a session holds ([tool/state/state.go], [tool/state/discovered.go])

    The declarations committed for a session are a field of its metadata, next to
    the fields of other modules. An update replaces the tools of some events and
    adds declarations; the database runs it on the latest row in a transaction.
    The JSON of the metadata and of the two fields are parameters. *)
From S2P Require Import Prelude GoStr Admission ToolRegistry.
Open Scope nat_scope.

Definition tool_key (t : DiscoveredTool) : gostring := if bool_decide (dt_CanonicalName t = []) then dt_Name t else dt_CanonicalName t.
Definition key_le (a b : DiscoveredTool) : Prop := compare_string (tool_key a) (tool_key b) ≠ Gt.
#[export] Instance key_le_dec : RelDecision key_le.
Proof. intros a b. unfold key_le. destruct (compare_string _ _); [left; done|left; done|right; by intros N]. Defined.
Definition sortDiscoveredTools (tools : list DiscoveredTool) : list DiscoveredTool := merge_sort key_le tools.
Definition first_of_key (out : list DiscoveredTool) (t : DiscoveredTool) : list DiscoveredTool :=
  if bool_decide (tool_key t = []) || bool_decide (tool_key t ∈ tool_key <$> out) then out else out ++ [t].
Definition normalizeDiscoveredTools (tools : list DiscoveredTool) : list DiscoveredTool := sortDiscoveredTools (foldl first_of_key [] tools).
Definition by_key (m : gmap gostring DiscoveredTool) (t : DiscoveredTool) : gmap gostring DiscoveredTool :=
  if bool_decide (tool_key t = []) then m else <[tool_key t := t]> m.
Definition mergeDiscoveredTools (existing incoming : list DiscoveredTool) : list DiscoveredTool :=
  sortDiscoveredTools (map_to_list (foldl by_key ∅ (existing ++ incoming))).*2.
Definition discoveredNames (tools : list DiscoveredTool) : gset gostring := list_to_set (tool_key <$> tools) ∖ {[ [] ]}.
Definition string_le (a b : gostring) : Prop := compare_string a b ≠ Gt.
#[export] Instance string_le_dec : RelDecision string_le.
Proof. intros a b. unfold string_le. destruct (compare_string _ _); [left; done|left; done|right; by intros N]. Defined.
Definition uniqueNames (values : list gostring) : list gostring := merge_sort string_le (keep_names (List.filter (λ v, negb (bool_decide (v = []))) values)).

Record State := { DiscoveredTools : list DiscoveredTool; ToolTags : list gostring; ElyphRulesShown : bool }.
(** The tools that stay when some groups are replaced. *)
Definition in_group (groups : list Scope) (t : DiscoveredTool) : bool :=
  existsb (λ g, bool_decide (dt_Source t = KindELwisp) && bool_decide (dt_EventKey t = sp_EventKey g)) groups.
Definition retained (groups : list Scope) (tools : list DiscoveredTool) : list DiscoveredTool := List.filter (λ t, negb (in_group groups t)) tools.
Definition same_owner (a b : DiscoveredTool) : bool := bool_decide (dt_Source a = dt_Source b) && bool_decide (dt_EventKey a = dt_EventKey b).
Definition by_schema (m : gmap gostring DiscoveredTool) (t : DiscoveredTool) : gmap gostring DiscoveredTool := <[sc_Name (dt_Schema t) := t]> m.
(** The first incoming tool whose name another group has. *)
Fixpoint conflict (m : gmap gostring DiscoveredTool) (incoming : list DiscoveredTool) : option gostring :=
  match incoming with
  | [] => None
  | t :: incoming =>
    match m !! sc_Name (dt_Schema t) with
    | Some old => if same_owner old t then conflict (by_schema m t) incoming else Some (sc_Name (dt_Schema t))
    | None => conflict (by_schema m t) incoming
    end
  end.
Abbreviation metadata := (gmap gostring gostring).
(** The JSON of the metadata, whose values stay encoded and which may be the null value, of the list of tools and of the tags. *)
Record json := {
  decode_fields : gostring → res (option metadata); encode_fields : metadata → res gostring;
  decode_tools : gostring → res (list DiscoveredTool); encode_tools : list DiscoveredTool → res gostring;
  decode_tags : gostring → res (list gostring); encode_tags : list gostring → gostring;
  decode_bool : gostring → res bool
}.
Section State.
Context `{UnicodeTables}.
Context (J : json).
Definition tools_field : gostring := §"discovered_tools".
Definition tags_field : gostring := §"tool_tags".
Definition elyph_field : gostring := §"elyph_rules_shown".
Definition DecodeSessionMetadata (raw : gostring) : res metadata :=
  if bool_decide (trim_space raw = []) then Ok ∅
  else
    let* fields := res_wrap §"decode session metadata: " (decode_fields J raw) in
    match fields with Some fields => Ok fields | None => Err §"session metadata must be an object" end.
Definition Encode (fields : metadata) : res gostring :=
  if bool_decide (fields = ∅) then Ok [] else res_wrap §"encode session metadata: " (encode_fields J fields).
Definition decode_field {A : Type} (fields : metadata) (key : gostring) (decode : gostring → res A) (zero : A) : res A :=
  match fields !! key with
  | Some raw => res_wrap (§"decode tool metadata " ++ key ++ §": ") (decode raw)
  | None => Ok zero
  end.
(** The fields are read in the order of a Go map, which decides only which of several errors is returned. *)
Definition DecodeState (raw : gostring) : res State :=
  let* fields := DecodeSessionMetadata raw in
  let* tools := decode_field fields tools_field (decode_tools J) [] in
  let* tags := decode_field fields tags_field (decode_tags J) [] in
  let* shown := decode_field fields elyph_field (decode_bool J) false in
  Ok {| DiscoveredTools := normalizeDiscoveredTools tools; ToolTags := uniqueNames tags; ElyphRulesShown := shown |}.
(** The fields to store: [None] for one that is to be left out. *)
Definition prepareUpdate (state : State) (update : StateUpdate) : res (option gostring * option gostring) :=
  let groups := ReplaceGroups update in
  let existing := retained groups (DiscoveredTools state) in
  match (match groups with [] => None | _ => conflict (foldl by_schema ∅ existing) (su_Tools update) end) with
  | Some name => Err (tool_error name §" conflicts with another session tool group")
  | None =>
    let tools := mergeDiscoveredTools existing (su_Tools update) in
    let tags := uniqueNames (ToolTags state ++ su_Tags update) in
    let* tools_raw := (match tools, groups with
                       | [], [] => Ok None
                       | _, _ => let* raw := res_wrap (§"encode session metadata " ++ tools_field ++ §": ") (encode_tools J tools) in Ok (Some raw)
                       end) in
    Ok (tools_raw, match tags with [] => None | _ => Some (encode_tags J tags) end)
  end.
Definition PrepareUpdate (raw : gostring) (update : StateUpdate) : res (option gostring * option gostring) :=
  let* state := DecodeState raw in prepareUpdate state update.
Definition put (key : gostring) (value : option gostring) (fields : metadata) : metadata :=
  match value with Some raw => <[key := raw]> fields | None => delete key fields end.
Record StateCommit := { sc_Metadata : gostring; Injected : list gostring; Existing : list gostring }.
(** The transaction of [Commit] on the metadata of the row. *)
Definition commit_row (raw : gostring) (update : StateUpdate) : res StateCommit :=
  let* state := DecodeState raw in
  let before := discoveredNames (DiscoveredTools state) in
  let names := tool_key <$> su_Tools update in
  let* (tools, tags) := prepareUpdate state update in
  let* fields := DecodeSessionMetadata raw in
  let* stored := Encode (put tags_field tags (put tools_field tools fields)) in
  Ok {| sc_Metadata := stored;
        Injected := uniqueNames (List.filter (λ n, negb (bool_decide (n ∈ before))) names);
        Existing := uniqueNames (List.filter (λ n, bool_decide (n ∈ before)) names) |}.
(** [Commit]: the row of session [id] in the database, if there is one. *)
Definition Commit (id : gostring) (row : option gostring) (update : StateUpdate) : res StateCommit :=
  match List.find (λ g, negb (bool_decide (sp_SessionID g = id))) (ReplaceGroups update) with
  | Some g => Err (§"tool registration belongs to session " ++ quote (sp_SessionID g) ++ §", not " ++ quote id)
  | None => match row with Some raw => commit_row raw update | None => Err §"not found" end
  end.
Definition DiscoveredToolsForSession (row : option gostring) (background : bool) : res (list DiscoveredTool) :=
  match row with
  | Some raw => let* state := DecodeState raw in Ok (if background then BackgroundDiscoveredTools (DiscoveredTools state) else DiscoveredTools state)
  | None => Err §"not found"
  end.
End State.
