(* ===== verification/ToolStateProps.v ===== *)
(** * What a session holds after an update (ToolState.v) *)
From S2P Require Import Prelude GoStr Admission AdmissionProps ToolPermit ToolRegistry ToolRegistryProps ToolState.
Open Scope nat_scope.

(** ** Sorted lists *)
Lemma le_by_total {A} (f : A → gostring) a b : compare_string (f a) (f b) ≠ Gt ∨ compare_string (f b) (f a) ≠ Gt.
Proof. rewrite (cmp_opp _ cmp_ok_string (f a)). destruct (compare_string (f a) (f b)); cbn; auto. Qed.
Lemma le_by_trans (a b c : gostring) : compare_string a b ≠ Gt → compare_string b c ≠ Gt → compare_string a c ≠ Gt.
Proof.
  intros Hab Hbc Hac. assert (Hca : compare_string c a = Lt) by (by rewrite (cmp_opp _ cmp_ok_string a), Hac).
  destruct (compare_string a b) eqn:Eab; [| |done].
  - apply (cmp_eq _ cmp_ok_string) in Eab. by rewrite <- Eab, Hac in Hbc.
  - pose proof (cmp_trans _ cmp_ok_string _ _ _ Hca Eab) as L. rewrite (cmp_opp _ cmp_ok_string b) in L. by destruct (compare_string b c).
Qed.
#[export] Instance key_le_total : Total key_le.
Proof. intros a b. apply (le_by_total tool_key). Qed.
#[export] Instance key_le_trans : Transitive key_le.
Proof. intros a b c. apply le_by_trans. Qed.
#[export] Instance string_le_total : Total string_le.
Proof. intros a b. apply (le_by_total (λ x, x)). Qed.
#[export] Instance string_le_trans : Transitive string_le.
Proof. intros a b c. apply le_by_trans. Qed.
#[export] Instance string_le_antisym : AntiSymm (=) string_le.
Proof.
  intros a b. unfold string_le. rewrite (cmp_opp _ cmp_ok_string a). destruct (compare_string a b) eqn:E; cbn; try done. intros _ _. by apply (cmp_eq _ cmp_ok_string).
Qed.
Definition key_lt (a b : DiscoveredTool) : Prop := compare_string (tool_key a) (tool_key b) = Lt.
(** What the tools of a session are: one for each key, in the order of the keys. *)
Definition normal (l : list DiscoveredTool) : Prop := StronglySorted key_lt l ∧ ∀ t, t ∈ l → tool_key t ≠ [].
Lemma key_lt_irrefl a b : key_lt a b → tool_key a ≠ tool_key b.
Proof. unfold key_lt. intros L E. rewrite E in L. by rewrite (proj2 (cmp_eq _ cmp_ok_string _ _) eq_refl) in L. Qed.
Lemma sorted_keys_nodup l : StronglySorted key_lt l → NoDup (tool_key <$> l).
Proof.
  induction 1 as [|a l S IH F]; cbn; constructor; [|done]. intros (b & E & I)%list_elem_of_fmap. rewrite Forall_forall in F. by apply (key_lt_irrefl a b (F b I)).
Qed.
Lemma sort_normal l : NoDup (tool_key <$> l) → (∀ t, t ∈ l → tool_key t ≠ []) → normal (sortDiscoveredTools l) ∧ ∀ t, t ∈ sortDiscoveredTools l ↔ t ∈ l.
Proof.
  intros N K. unfold sortDiscoveredTools. assert (M : ∀ t, t ∈ merge_sort key_le l ↔ t ∈ l) by (intros t; by rewrite (merge_sort_Permutation key_le)).
  split; [split|done]; [|intros t; rewrite M; apply K].
  assert (N' : NoDup (tool_key <$> merge_sort key_le l)) by (by rewrite (merge_sort_Permutation key_le)).
  pose proof (StronglySorted_merge_sort key_le l) as S. clear M. revert N'. induction S as [|a s S IH F]; intros N'; constructor; cbn in N'; apply NoDup_cons in N' as [Na N'].
  - by apply IH.
  - rewrite Forall_forall in *. intros b I. specialize (F b I). unfold key_lt, key_le in *. destruct (compare_string _ _) eqn:E; try done.
    apply (cmp_eq _ cmp_ok_string) in E. exfalso. apply Na. rewrite E. by apply list_elem_of_fmap_2.
Qed.
Lemma normal_unique l l' : normal l → normal l' → (∀ t, t ∈ l ↔ t ∈ l') → l = l'.
Proof.
  intros [S _] [S' _] M. assert (P : l ≡ₚ l') by (apply NoDup_Permutation; [eapply NoDup_fmap_1, sorted_keys_nodup, S|eapply NoDup_fmap_1, sorted_keys_nodup, S'|done]).
  clear M. revert l' S' P. induction S as [|a l S IH F]; intros l' S' P; [by apply Permutation_nil_l in P|].
  destruct S' as [|b l' S' F']; [by apply Permutation_nil_r in P|]. assert (a = b) as ->.
  { assert (Ia : a ∈ b :: l') by (rewrite <- P; by left). assert (Ib : b ∈ a :: l) by (rewrite P; by left). rewrite Forall_forall in F, F'.
    apply elem_of_cons in Ia as [->|Ia]; [done|]. apply elem_of_cons in Ib as [->|Ib]; [done|]. specialize (F b Ib). specialize (F' a Ia). unfold key_lt in *.
    by rewrite (cmp_opp _ cmp_ok_string (tool_key a)), F in F'. }
  f_equal. apply IH; [done|]. by apply Permutation_cons_inv in P.
Qed.
(** The tool of a key. *)
Definition at_key (k : gostring) (l : list DiscoveredTool) (t : DiscoveredTool) : Prop := t ∈ l ∧ tool_key t = k.
Lemma normal_key l k t t' : normal l → at_key k l t → at_key k l t' → t = t'.
Proof.
  intros [S _] [I <-] [I' E]. pose proof (sorted_keys_nodup l S) as N. apply list_elem_of_lookup_1 in I as [i I]. apply list_elem_of_lookup_1 in I' as [j I'].
  assert (i = j) as ->; [|congruence]. apply (NoDup_lookup (tool_key <$> l) i j (tool_key t) N); rewrite list_lookup_fmap; [by rewrite I|rewrite I'; cbn; by f_equal].
Qed.

(** ** Merging *)
Lemma by_key_lookup l : ∀ m k t, foldl by_key m l !! k = Some t ↔
  (∃ a b, l = a ++ t :: b ∧ tool_key t = k ∧ k ≠ [] ∧ ∀ u, u ∈ b → tool_key u ≠ k) ∨ (m !! k = Some t ∧ (k = [] ∨ ∀ u, u ∈ l → tool_key u ≠ k)).
Proof.
  induction l as [|x l IH]; intros m k t; cbn [foldl].
  - split; [intros E; right; split; [done|right; set_solver]|]. intros [(a & b & E & _)|[E _]]; [by destruct a|done].
  - rewrite IH. unfold by_key. split.
    + intros [(a & b & -> & K & Ne & L)|[E L]]; [left; exists (x :: a), b; by split_and!|].
      destruct (decide (tool_key x = [])) as [Z|Z]; [rewrite bool_decide_eq_true_2 in E by done|rewrite bool_decide_eq_false_2 in E by done].
      * right. split; [done|]. destruct L as [L|L]; [by left|]. destruct (decide (k = [])) as [|Nk]; [by left|right]. intros u [-> | I]%elem_of_cons; [congruence|by apply L].
      * destruct (decide (tool_key x = k)) as [<-|Nx].
        -- rewrite lookup_insert_eq in E. injection E as <-. left. exists [], l. split_and!; [done..|]. destruct L as [L|L]; [done|exact L].
        -- rewrite lookup_insert_ne in E by done. right. split; [done|]. destruct L as [L|L]; [by left|right]. intros u [-> | I]%elem_of_cons; [done|by apply L].
    + intros [(a & b & E & K & Ne & L)|[E L]].
      * destruct a as [|y a]; injection E as <- ->; [|left; by exists a, b]. right. rewrite bool_decide_eq_false_2 by (by rewrite K). rewrite <- K at 1. rewrite lookup_insert_eq.
        split; [done|by right].
      * right. destruct (decide (tool_key x = [])) as [Z|Z]; [rewrite bool_decide_eq_true_2 by done|rewrite bool_decide_eq_false_2 by done].
        -- split; [done|]. destruct L as [L|L]; [by left|right]. intros u I. apply L. by right.
        -- destruct L as [->|L].
           ++ rewrite lookup_insert_ne by done. split; [done|by left].
           ++ rewrite lookup_insert_ne by (apply L; by left). split; [done|right]. intros u I. apply L. by right.
Qed.
(** The last declaration of a key. *)
Definition last_of (k : gostring) (l : list DiscoveredTool) (t : DiscoveredTool) : Prop :=
  ∃ a b, l = a ++ t :: b ∧ tool_key t = k ∧ k ≠ [] ∧ ∀ u, u ∈ b → tool_key u ≠ k.
Lemma merge_spec existing incoming : normal (mergeDiscoveredTools existing incoming)
  ∧ ∀ k t, at_key k (mergeDiscoveredTools existing incoming) t ↔ last_of k (existing ++ incoming) t.
Proof.
  unfold mergeDiscoveredTools. set (m := foldl by_key ∅ (existing ++ incoming)).
  assert (L : ∀ k t, m !! k = Some t ↔ last_of k (existing ++ incoming) t).
  { intros k t. unfold m. rewrite by_key_lookup. split; [intros [?|[E _]]; [done|by apply lookup_empty_Some in E]|by left]. }
  assert (K : tool_key <$> (map_to_list m).*2 = (map_to_list m).*1).
  { rewrite <- list_fmap_compose. apply list_fmap_ext. intros i [k t] E. cbn. apply list_elem_of_lookup_2, elem_of_map_to_list, L in E. by destruct E as (a & b & _ & ? & _). }
  destruct (sort_normal (map_to_list m).*2) as [Nm M].
  - rewrite K. apply NoDup_fst_map_to_list.
  - intros t ([k t'] & -> & I)%list_elem_of_fmap. apply elem_of_map_to_list, L in I as (a & b & _ & <- & ? & _). done.
  - split; [done|]. intros k t. unfold at_key. rewrite M, <- L. split.
    + intros [([k' t'] & -> & I)%list_elem_of_fmap <-]. cbn. apply elem_of_map_to_list in I. assert (tool_key t' = k') as -> by (by apply L in I as (a & b & _ & ? & _)). done.
    + intros E. split; [|by apply L in E as (a & b & _ & ? & _)]. apply list_elem_of_fmap. exists (k, t). split; [done|]. by apply elem_of_map_to_list.
Qed.
Lemma last_of_unique k l t t' : last_of k l t → last_of k l t' → t = t'.
Proof.
  intros (a & b & -> & K & _ & L) (a' & b' & E & K' & _ & L'). revert a' E. induction a as [|x a IH]; intros [|y a'] E; injection E as E1 E2; subst.
  - done.
  - exfalso. apply (L t'); [apply elem_of_app; right; by left|done].
  - exfalso. apply (L' t); [apply elem_of_app; right; by left|done].
  - by eapply IH.
Qed.
Lemma last_of_exists k l t : t ∈ l → tool_key t = k → k ≠ [] → ∃ t', last_of k l t'.
Proof.
  intros I K Ne. induction l as [|x l IH] using rev_ind; [by apply not_elem_of_nil in I|]. destruct (decide (tool_key x = k)) as [Kx|Nx].
  - exists x, l, []. split_and!; [done..|set_solver].
  - destruct IH as (t' & a & b & -> & K' & _ & L); [apply elem_of_app in I as [I|I%list_elem_of_singleton]; [done|congruence]|].
    exists t', a, (b ++ [x]). split_and!; [by rewrite <- app_assoc|done..|]. intros u [J|J%list_elem_of_singleton]%elem_of_app; [by apply L|by subst].
Qed.

(** ** Conflicts *)
Definition schema_name (t : DiscoveredTool) : gostring := sc_Name (dt_Schema t).
Definition owner (t : DiscoveredTool) : SourceKind * gostring := (dt_Source t, dt_EventKey t).
Lemma same_owner_spec a b : same_owner a b = true ↔ owner a = owner b.
Proof. unfold same_owner, owner. rewrite andb_true_iff, !bool_decide_eq_true. split; [by intros [-> ->]|by intros [= -> ->]]. Qed.
Lemma conflict_none u : ∀ m, conflict m u = None ↔ (∀ t old, t ∈ u → m !! schema_name t = Some old → owner old = owner t)
  ∧ ∀ t t', t ∈ u → t' ∈ u → schema_name t = schema_name t' → owner t = owner t'.
Proof.
  induction u as [|x u IH]; intros m; cbn [conflict]; [split; [intros _; split; [set_solver|set_solver]|done]|].
  assert (Next : (∀ old, m !! schema_name x = Some old → owner old = owner x) →
    conflict (by_schema m x) u = None ↔ (∀ t old, t ∈ x :: u → m !! schema_name t = Some old → owner old = owner t)
      ∧ ∀ t t', t ∈ x :: u → t' ∈ x :: u → schema_name t = schema_name t' → owner t = owner t').
  { intros Fx. rewrite IH. unfold by_schema. change (sc_Name (dt_Schema x)) with (schema_name x). split.
    - intros [A B]. assert (Ax : ∀ t, t ∈ u → schema_name t = schema_name x → owner x = owner t).
      { intros t I E. apply (A t x I). rewrite E. apply lookup_insert_eq. }
      split.
      + intros t old [-> | I]%elem_of_cons E; [by apply Fx|]. destruct (decide (schema_name x = schema_name t)) as [Et|Nt].
        * rewrite <- (Ax t I (eq_sym Et)). apply Fx. by rewrite Et.
        * apply (A t old I). by rewrite lookup_insert_ne.
      + intros t t' [-> | I]%elem_of_cons [-> | I']%elem_of_cons E; [done|by apply Ax|symmetry; by apply Ax|by apply B].
    - intros [A B]. split; [|intros t t' I I'; apply B; by right]. intros t old I E. destruct (decide (schema_name x = schema_name t)) as [Et|Nt].
      + rewrite <- Et, lookup_insert_eq in E. injection E as <-. apply B; [by left|by right|done].
      + rewrite lookup_insert_ne in E by done. apply A; [by right|done]. }
  change (sc_Name (dt_Schema x)) with (schema_name x). destruct (m !! schema_name x) as [old|] eqn:E; [destruct (same_owner old x) eqn:O|].
  - apply Next. intros o [= <-]. by apply same_owner_spec.
  - split; [done|]. intros [A _]. rewrite <- not_true_iff_false in O. exfalso. apply O, same_owner_spec, A; [by left|done].
  - by apply Next.
Qed.
Lemma by_schema_lookup l : ∀ m k t, foldl by_schema m l !! k = Some t → (t ∈ l ∧ schema_name t = k) ∨ m !! k = Some t.
Proof.
  induction l as [|x l IH]; intros m k t; cbn [foldl]; [by right|]. intros [[I E]|E]%IH; [left; split; [by right|done]|]. unfold by_schema in E.
  destruct (decide (sc_Name (dt_Schema x) = k)) as [<-|N]; [rewrite lookup_insert_eq in E; injection E as <-; left; split; [by left|done]|].
  rewrite lookup_insert_ne in E by done. by right.
Qed.

(** ** Groups and tags *)
Lemma retained_elem g l t : t ∈ retained g l ↔ t ∈ l ∧ in_group g t = false.
Proof. unfold retained. rewrite list_elem_of_In, filter_In, <- list_elem_of_In, negb_true_iff. done. Qed.
Lemma in_group_spec g t : in_group g t = true ↔ dt_Source t = KindELwisp ∧ ∃ s, s ∈ g ∧ dt_EventKey t = sp_EventKey s.
Proof.
  unfold in_group. rewrite existsb_exists. split.
  - intros (s & I%list_elem_of_In & [E1%bool_decide_eq_true E2%bool_decide_eq_true]%andb_true_iff). eauto.
  - intros (E & s & I%list_elem_of_In & K). exists s. split; [done|]. by rewrite !bool_decide_eq_true_2.
Qed.
Lemma unique_names_elem l n : n ∈ uniqueNames l ↔ n ∈ l ∧ n ≠ [].
Proof.
  unfold uniqueNames. rewrite (merge_sort_Permutation string_le). rewrite (proj2 (keep_names_spec _) n), list_elem_of_In, filter_In, <- list_elem_of_In, negb_true_iff, bool_decide_eq_false. done.
Qed.
Lemma unique_names_sorted l : StronglySorted string_le (uniqueNames l) ∧ NoDup (uniqueNames l).
Proof.
  unfold uniqueNames. split; [apply (StronglySorted_merge_sort string_le)|]. rewrite (merge_sort_Permutation string_le). apply keep_names_spec.
Qed.
Lemma unique_names_eq l l' : (∀ n, n ≠ [] → n ∈ l ↔ n ∈ l') → uniqueNames l = uniqueNames l'.
Proof.
  intros E. destruct (unique_names_sorted l) as [S N], (unique_names_sorted l') as [S' N']. apply (StronglySorted_unique string_le); [done..|].
  apply NoDup_Permutation; [done..|]. intros n. rewrite !unique_names_elem. split; intros [I Ne]; (split; [by apply E|done]).
Qed.
Definition distinct (l : list DiscoveredTool) : Prop := NoDup (tool_key <$> l) ∧ ∀ t, t ∈ l → tool_key t ≠ [].
Lemma first_of_key_distinct l : ∀ out, distinct out → distinct (foldl first_of_key out l).
Proof.
  induction l as [|x l IH]; intros out D; [done|]. cbn [foldl]. apply IH. unfold first_of_key. destruct (bool_decide (tool_key x = []) || _) eqn:B; [done|].
  apply orb_false_iff in B as [Z%bool_decide_eq_false N%bool_decide_eq_false]. destruct D as [D K]. split.
  - rewrite fmap_app. apply NoDup_app. split_and!; [done| |apply NoDup_singleton]. cbn. intros k I ->%list_elem_of_singleton. done.
  - intros t [I|I%list_elem_of_singleton]%elem_of_app; [by apply K|by subst].
Qed.
Lemma first_of_key_id l : ∀ out, distinct (out ++ l) → foldl first_of_key out l = out ++ l.
Proof.
  induction l as [|x l IH]; intros out [N K]; [by rewrite app_nil_r|]. cbn [foldl]. unfold first_of_key at 2.
  rewrite bool_decide_eq_false_2 by (apply K, elem_of_app; right; by left). rewrite bool_decide_eq_false_2.
  2: { rewrite fmap_app in N. apply NoDup_app in N as (_ & N & _). intros I. apply (N _ I). by left. }
  cbn [orb]. rewrite IH; [by rewrite <- app_assoc|]. rewrite <- app_assoc. by split.
Qed.
Lemma normalize_normal l : normal (normalizeDiscoveredTools l).
Proof. destruct (first_of_key_distinct l []) as [N K]; [split; [constructor|set_solver]|]. by apply sort_normal. Qed.
Lemma normalize_id l : normal l → normalizeDiscoveredTools l = l.
Proof.
  intros Nl. pose proof Nl as [S K]. unfold normalizeDiscoveredTools. rewrite (first_of_key_id l []) by (split; [by apply sorted_keys_nodup|done]). cbn [app].
  destruct (sort_normal l) as [S' M]; [by apply sorted_keys_nodup|done|]. by apply normal_unique.
Qed.

Lemma first_of_key_incl l t : ∀ out, t ∈ foldl first_of_key out l → t ∈ out ∨ t ∈ l.
Proof.
  induction l as [|x l IH]; intros out I; [by left|]. apply IH in I as [I|I]; [|right; by right]. unfold first_of_key in I.
  destruct (_ || _); [by left|]. apply elem_of_app in I as [I|I%list_elem_of_singleton]; [by left|subst; right; by left].
Qed.
Lemma normalize_incl l t : t ∈ normalizeDiscoveredTools l → t ∈ l.
Proof.
  unfold normalizeDiscoveredTools, sortDiscoveredTools. rewrite (merge_sort_Permutation key_le). intros [I|I]%first_of_key_incl; [by apply elem_of_nil in I|done].
Qed.
Lemma merge_incl existing incoming t : t ∈ mergeDiscoveredTools existing incoming → t ∈ existing ∨ t ∈ incoming.
Proof.
  intros I. assert (A : at_key (tool_key t) (mergeDiscoveredTools existing incoming) t) by (by split).
  apply merge_spec in A as (x & y & E & _). apply elem_of_app. rewrite E. set_solver.
Qed.
(** ** Commits *)
(** What the JSON package promises. Text, being valid UTF-8, and plain declarations, whose schema holds only values as the decoder makes them, are read
    as they were written, and only such things are read. Encoding an object rewrites the white space of the encoded values in it. *)
Record json_laws (J : json) (plain : DiscoveredTool → Prop) (text : gostring → Prop) (compact : gostring → gostring) : Prop := {
  jl_text : text tools_field ∧ text tags_field;
  jl_fields m raw : (∀ k v, m !! k = Some v → text k) → encode_fields J m = Ok raw → decode_fields J raw = Ok (Some (compact <$> m)) ∧ trim_space raw ≠ [];
  jl_keys raw m : decode_fields J raw = Ok (Some m) → ∀ k v, m !! k = Some v → text k;
  jl_compact m : encode_fields J (compact <$> m) = encode_fields J m;
  jl_idem raw : compact (compact raw) = compact raw;
  jl_tools l raw : (∀ t, t ∈ l → plain t) → encode_tools J l = Ok raw → decode_tools J (compact raw) = Ok l;
  jl_plain raw l : decode_tools J raw = Ok l → ∀ t, t ∈ l → plain t;
  jl_tags l : (∀ n, n ∈ l → text n) → decode_tags J (compact (encode_tags J l)) = Ok l;
  jl_names raw l : decode_tags J raw = Ok l → ∀ n, n ∈ l → text n;
  jl_bool raw : decode_bool J (compact raw) = decode_bool J raw
}.
Section Commits.
Context `{UnicodeTables}.
Context (J : json) (plain : DiscoveredTool → Prop) (text : gostring → Prop) (compact : gostring → gostring) (Laws : json_laws J plain text compact).
Abbreviation decode_state := (DecodeState J).
Abbreviation metadata_of := (DecodeSessionMetadata J).
Abbreviation commit := (commit_row J).
(** The state after an update. *)
Definition updated (s : State) (u : StateUpdate) : State :=
  {| DiscoveredTools := mergeDiscoveredTools (retained (ReplaceGroups u) (DiscoveredTools s)) (su_Tools u);
     ToolTags := uniqueNames (ToolTags s ++ su_Tags u); ElyphRulesShown := ElyphRulesShown s |}.
Definition keys_text (m : metadata) : Prop := ∀ k v, m !! k = Some v → text k.
Lemma metadata_encoded m raw : keys_text m → Encode J m = Ok raw → metadata_of raw = Ok (compact <$> m).
Proof using Laws.
  intros K. unfold DecodeSessionMetadata, Encode. destruct (decide (m = ∅)) as [->|N].
  - rewrite (bool_decide_eq_true_2 (∅ = ∅)) by done. intros [= <-]. by rewrite fmap_empty.
  - rewrite (bool_decide_eq_false_2 _ N). intros E%res_wrap_ok. destruct (jl_fields _ _ _ _ Laws m raw K E) as [D T].
    rewrite bool_decide_eq_false_2 by done. by rewrite D.
Qed.
Lemma metadata_keys raw m : metadata_of raw = Ok m → keys_text m.
Proof using Laws.
  unfold DecodeSessionMetadata. case_bool_decide; [intros [= <-] k v E; by apply lookup_empty_Some in E|].
  intros (o & D%res_wrap_ok & E)%res_bind_ok. destruct o; [|done]. injection E as ->. exact (jl_keys _ _ _ _ Laws raw m D).
Qed.
Lemma encode_same m m' : compact <$> m = compact <$> m' → Encode J m = Encode J m'.
Proof using Laws.
  intros E. assert (Z : m = ∅ ↔ m' = ∅) by (rewrite <- (fmap_empty_iff compact m), E, fmap_empty_iff; done). unfold Encode.
  rewrite (bool_decide_ext _ _ Z). case_bool_decide; [done|]. by rewrite <- (jl_compact _ _ _ _ Laws m), E, (jl_compact _ _ _ _ Laws m').
Qed.
Lemma decode_field_ok {A : Type} (fields : metadata) key (decode : gostring → res A) zero a : decode_field fields key decode zero = Ok a →
  (fields !! key = None ∧ a = zero) ∨ ∃ raw, fields !! key = Some raw ∧ decode raw = Ok a.
Proof. unfold decode_field. destruct (fields !! key); [intros E%res_wrap_ok; eauto|intros [= <-]; by left]. Qed.
Lemma decode_state_of raw s : decode_state raw = Ok s → ∃ fields, metadata_of raw = Ok fields ∧ normal (DiscoveredTools s)
  ∧ decode_field fields elyph_field (decode_bool J) false = Ok (ElyphRulesShown s)
  ∧ (∀ t, t ∈ DiscoveredTools s → plain t) ∧ ∀ n, n ∈ ToolTags s → text n.
Proof using Laws.
  unfold DecodeState. intros (fields & F & (ts & T & (tags & G & (shown & B & [= <-])%res_bind_ok)%res_bind_ok)%res_bind_ok)%res_bind_ok.
  exists fields. split_and!; [done|apply normalize_normal|done|..]; cbn [DiscoveredTools ToolTags].
  - intros t I. assert (It : t ∈ ts) by (by apply normalize_incl). apply decode_field_ok in T as [[_ ->]|(r & _ & D)]; [by apply elem_of_nil in It|].
    by apply (jl_plain _ _ _ _ Laws r ts D).
  - intros n I. apply unique_names_elem in I as [I _]. apply decode_field_ok in G as [[_ ->]|(r & _ & D)]; [by apply elem_of_nil in I|].
    by apply (jl_names _ _ _ _ Laws r tags D).
Qed.
Lemma unique_names_idem l : uniqueNames (uniqueNames l) = uniqueNames l.
Proof. apply unique_names_eq. intros n Ne. rewrite unique_names_elem. split; [by intros [? _]|done]. Qed.
Lemma put_other key value fields k : k ≠ key → put key value fields !! k = fields !! k.
Proof. intros N. destruct value; cbn; [by rewrite lookup_insert_ne|by rewrite lookup_delete_ne]. Qed.
Lemma put_same key value fields : put key value fields !! key = value.
Proof. destruct value; cbn; [apply lookup_insert_eq|apply lookup_delete_eq]. Qed.
(** The fields a commit stores. *)
Abbreviation stored_fields tools tags fields := (put tags_field tags (put tools_field tools fields)).
Lemma stored_tools tools tags fields : stored_fields tools tags fields !! tools_field = tools.
Proof. by rewrite put_other, put_same. Qed.
Lemma stored_tags tools tags fields : stored_fields tools tags fields !! tags_field = tags.
Proof. apply put_same. Qed.
Lemma stored_others tools tags fields k : k ≠ tools_field → k ≠ tags_field → stored_fields tools tags fields !! k = fields !! k.
Proof. intros N1 N2. by rewrite !put_other. Qed.
Lemma stored_text tools tags fields : keys_text fields → keys_text (stored_fields tools tags fields).
Proof using Laws.
  intros K k v E. destruct (jl_text _ _ _ _ Laws) as [T1 T2]. destruct (decide (k = tags_field)) as [->|N2]; [done|].
  destruct (decide (k = tools_field)) as [->|N1]; [done|]. rewrite stored_others in E by done. by eapply K.
Qed.
(** An update whose declarations and tags survive encoding. *)
Definition plain_update (u : StateUpdate) : Prop := (∀ t, t ∈ su_Tools u → plain t) ∧ ∀ n, n ∈ su_Tags u → text n.
Lemma prepared raw s u tools tags fields stored : decode_state raw = Ok s → plain_update u → metadata_of raw = Ok fields →
  prepareUpdate J s u = Ok (tools, tags) → Encode J (stored_fields tools tags fields) = Ok stored → decode_state stored = Ok (updated s u).
Proof using Laws.
  intros D [Pt Pg] F P En. destruct (decode_state_of _ _ D) as (fields' & F' & _ & B & St & Sg). rewrite F in F'. injection F' as <-.
  apply metadata_encoded in En as M; [|by apply stored_text, (metadata_keys raw)]. revert P. unfold prepareUpdate.
  destruct (match ReplaceGroups u with [] => None | _ => conflict _ _ end); [done|]. set (ts := mergeDiscoveredTools _ _). set (gs := uniqueNames _).
  intros (traw & T & [= <- <-])%res_bind_ok.
  assert (Dt : decode_field (compact <$> stored_fields traw (match gs with [] => None | _ => Some (encode_tags J gs) end) fields) tools_field (decode_tools J) [] = Ok ts).
  { unfold decode_field. rewrite lookup_fmap, stored_tools.
    assert (Or : traw = None ∧ ts = [] ∨ ∃ raw0, traw = Some raw0 ∧ encode_tools J ts = Ok raw0).
    { destruct ts as [|x ts'], (ReplaceGroups u); [injection T as <-; by left|..]; apply res_bind_ok in T as (r0 & Er & [= <-]); right; exists r0; (split; [done|]);
        by destruct (encode_tools J _). }
    destruct Or as [[-> ->]|(raw0 & -> & E)]; [done|]. cbn [fmap option_fmap option_map]. rewrite (jl_tools _ _ _ _ Laws ts raw0); [done| |done].
    intros t I. apply merge_incl in I as [I|I]; [|by apply Pt]. apply retained_elem in I as [I _]. by apply St. }
  assert (Dg : decode_field (compact <$> stored_fields traw (match gs with [] => None | _ => Some (encode_tags J gs) end) fields) tags_field (decode_tags J) [] = Ok gs).
  { unfold decode_field. rewrite lookup_fmap, stored_tags. assert (Tg : ∀ n, n ∈ gs → text n).
    { intros n I. apply unique_names_elem in I as [[I|I]%elem_of_app _]; [by apply Sg|by apply Pg]. }
    destruct gs eqn:E; [done|]. rewrite <- E in *. cbn [fmap option_fmap option_map]. by rewrite (jl_tags _ _ _ _ Laws gs Tg). }
  assert (Db : decode_field (compact <$> stored_fields traw (match gs with [] => None | _ => Some (encode_tags J gs) end) fields) elyph_field (decode_bool J) false
      = Ok (ElyphRulesShown s)).
  { rewrite <- B. unfold decode_field. rewrite lookup_fmap, stored_others by done. destruct (fields !! elyph_field); [|done].
    cbn [fmap option_fmap option_map]. by rewrite (jl_bool _ _ _ _ Laws). }
  unfold DecodeState. rewrite M. cbn [res_bind]. rewrite Dt. cbn [res_bind]. rewrite Dg. cbn [res_bind]. rewrite Db. cbn [res_bind].
  f_equal. unfold updated. f_equal; [apply normalize_id, merge_spec|apply unique_names_idem].
Qed.
Lemma commit_spec raw u sc : commit raw u = Ok sc → ∃ s fields tools tags, decode_state raw = Ok s ∧ metadata_of raw = Ok fields
  ∧ prepareUpdate J s u = Ok (tools, tags) ∧ Encode J (stored_fields tools tags fields) = Ok (sc_Metadata sc)
  ∧ Injected sc = uniqueNames (List.filter (λ n, negb (bool_decide (n ∈ discoveredNames (DiscoveredTools s)))) (tool_key <$> su_Tools u))
  ∧ Existing sc = uniqueNames (List.filter (λ n, bool_decide (n ∈ discoveredNames (DiscoveredTools s))) (tool_key <$> su_Tools u)).
Proof.
  unfold commit_row. intros (s & D & ([tools tags] & P & (fields & F & (stored & En & [= <-])%res_bind_ok)%res_bind_ok)%res_bind_ok)%res_bind_ok.
  exists s, fields, tools, tags. done.
Qed.
Lemma names_elem (l : list DiscoveredTool) n : n ∈ discoveredNames l ↔ n ≠ [] ∧ n ∈ tool_key <$> l.
Proof. unfold discoveredNames. set_solver. Qed.
(** A tool that a registry declares: it is called by its key. *)
Definition well_named (t : DiscoveredTool) : Prop := schema_name t = tool_key t ∧ tool_key t ≠ [].
Lemma last_of_app k a b t : last_of k (a ++ b) t ↔ last_of k b t ∨ (last_of k a t ∧ ∀ u, u ∈ b → tool_key u ≠ k).
Proof.
  split.
  - intros (x & y & E & K & Ne & L). destruct (decide (Exists (λ u, tool_key u = k) b)) as [Ex|Nx].
    + left. apply Exists_exists in Ex as (u & Iu & Ku). destruct (last_of_exists k b u Iu Ku Ne) as [t' Lt]. destruct Lt as (x' & y' & -> & K' & _ & L').
      assert (last_of k (a ++ x' ++ t' :: y') t') as Lt by (exists (a ++ x'), y'; rewrite <- app_assoc; done).
      assert (t = t') as <-; [|by exists x', y']. eapply last_of_unique; [|exact Lt]. by exists x, y.
    + right. assert (Nb : ∀ u, u ∈ b → tool_key u ≠ k) by (intros u I Ku; apply Nx, Exists_exists; eauto). split; [|done].
      revert b E Nx Nb. induction y as [|z y IH] using rev_ind; intros b E Nx Nb.
      * destruct b as [|w b _] using rev_ind; [rewrite app_nil_r in E; subst; exists x, []; by split_and!|].
        rewrite app_assoc in E. apply app_inj_tail in E as [_ ->]. exfalso. apply (Nb t); [apply elem_of_app; right; by left|done].
      * destruct b as [|w b _] using rev_ind; [rewrite app_nil_r in E; subst; exists x, (y ++ [z]); by split_and!|].
        change (x ++ t :: y ++ [z]) with (x ++ (t :: y) ++ [z]) in E. rewrite !app_assoc in E. apply app_inj_tail in E as [E _]. apply (IH) with (b := b); [|exact E| |].
        -- intros v I. apply L. apply elem_of_app. by left.
        -- intros Ex. apply Nx. apply Exists_app. by left.
        -- intros v I. apply Nb. apply elem_of_app. by left.
  - intros [(x & y & -> & K & Ne & L)|[(x & y & -> & K & Ne & L) Nb]].
    + exists (a ++ x), y. split_and!; [by rewrite app_assoc|done..].
    + exists x, (y ++ b). split_and!; [by rewrite <- app_assoc|done..|]. intros u [I|I]%elem_of_app; [by apply L|by apply Nb].
Qed.

Lemma updated_tools s u k t : normal (DiscoveredTools s) → at_key k (DiscoveredTools (updated s u)) t ↔
  last_of k (su_Tools u) t ∨ (at_key k (DiscoveredTools s) t ∧ in_group (ReplaceGroups u) t = false ∧ ∀ x, x ∈ su_Tools u → tool_key x ≠ k).
Proof.
  intros Nm. cbn [updated DiscoveredTools]. rewrite (proj2 (merge_spec _ _)), last_of_app. split; (intros [?|X]; [by left|right]).
  - destruct X as [(x & y & E & K & Ne & L) Nb]. assert (I : t ∈ retained (ReplaceGroups u) (DiscoveredTools s)) by (rewrite E; set_solver).
    apply retained_elem in I as [I G]. split_and!; [by split|done|done].
  - destruct X as ([I K] & G & Nb). split; [|done]. assert (Ir : t ∈ retained (ReplaceGroups u) (DiscoveredTools s)) by (by apply retained_elem).
    destruct (last_of_exists k _ t Ir K) as [t' Lt]; [rewrite <- K; by apply Nm|]. assert (t' = t) as ->; [|done].
    destruct Lt as (x & y & E & K' & _). eapply (normal_key _ k); [exact Nm| |by split]. split; [|done].
    assert (I' : t' ∈ retained (ReplaceGroups u) (DiscoveredTools s)) by (rewrite E; set_solver). by apply retained_elem in I' as [? _].
Qed.
Lemma updated_normal s u : normal (DiscoveredTools (updated s u)).
Proof. apply merge_spec. Qed.
(** Updating twice is updating once. *)
Lemma updated_idem s u : normal (DiscoveredTools s) → updated (updated s u) u = updated s u.
Proof.
  intros Nm. assert (T : DiscoveredTools (updated (updated s u) u) = DiscoveredTools (updated s u)).
  { apply normal_unique; [apply updated_normal..|]. intros t.
    assert (E : at_key (tool_key t) (DiscoveredTools (updated (updated s u) u)) t ↔ at_key (tool_key t) (DiscoveredTools (updated s u)) t).
    { rewrite (updated_tools (updated s u)) by apply updated_normal. rewrite (updated_tools s) by done. split.
      - intros [L|([L|X] & G & Nb)]; [by left| |by right]. left. exact L.
      - intros [L|(A & G & Nb)]; [by left|]. right. split_and!; [by right|done|done]. }
    unfold at_key in E. split; intros I; [by apply E|by apply E]. }
  assert (G : ToolTags (updated (updated s u) u) = ToolTags (updated s u)).
  { cbn [updated ToolTags]. apply unique_names_eq. intros n Ne. rewrite !elem_of_app, unique_names_elem, elem_of_app. tauto. }
  unfold updated in *. cbn [DiscoveredTools ToolTags ElyphRulesShown] in *. by rewrite T, G.
Qed.
(** The tools of one update do not conflict with what they leave. *)
Lemma conflict_replayed s u : normal (DiscoveredTools s) → (∀ t, t ∈ DiscoveredTools s → well_named t) → (∀ t, t ∈ su_Tools u → well_named t) →
  conflict (foldl by_schema ∅ (retained (ReplaceGroups u) (DiscoveredTools s))) (su_Tools u) = None →
  conflict (foldl by_schema ∅ (retained (ReplaceGroups u) (DiscoveredTools (updated s u)))) (su_Tools u) = None.
Proof.
  intros Nm Ws Wu C. apply conflict_none in C as [_ B]. apply conflict_none. split; [|exact B]. intros t old It E.
  apply by_schema_lookup in E as [[I Sn]|E]; [|by apply lookup_empty_Some in E]. apply retained_elem in I as [I _].
  assert (At : at_key (tool_key old) (DiscoveredTools (updated s u)) old) by (by split).
  apply updated_tools in At as [(x & y & Eu & _)|([Is _] & _ & Nb)]; [| |done].
  - assert (Io : old ∈ su_Tools u) by (rewrite Eu; set_solver). by apply B.
  - exfalso. apply (Nb t It). destruct (Wu t It) as [Et _], (Ws old Is) as [Eo _]. congruence.
Qed.
(** A commit that succeeds stores a state that decodes again: the tags are the union; the tools hold one declaration for each key, in the order of
    the keys, namely the last one given or, without one, the one of before, unless its event is replaced; of a replaced event only tools that were
    given remain; the fields of other modules stay as they are up to white space; and each given name is reported once, as new or as known before. *)
Lemma commit_updates raw u sc : plain_update u → commit raw u = Ok sc → ∃ s fields fields',
  decode_state raw = Ok s ∧ metadata_of raw = Ok fields ∧ metadata_of (sc_Metadata sc) = Ok fields' ∧ decode_state (sc_Metadata sc) = Ok (updated s u)
  ∧ (∀ k, k ≠ tools_field → k ≠ tags_field → fields' !! k = compact <$> fields !! k)
  ∧ normal (DiscoveredTools (updated s u))
  ∧ (∀ k t, at_key k (DiscoveredTools (updated s u)) t ↔
       last_of k (su_Tools u) t ∨ (at_key k (DiscoveredTools s) t ∧ in_group (ReplaceGroups u) t = false ∧ ∀ x, x ∈ su_Tools u → tool_key x ≠ k))
  ∧ (∀ n, n ∈ ToolTags (updated s u) ↔ (n ∈ ToolTags s ∨ n ∈ su_Tags u) ∧ n ≠ [])
  ∧ ∀ n, n ≠ [] → n ∈ tool_key <$> su_Tools u →
      (n ∈ Existing sc ∧ (n ∉ Injected sc) ∧ n ∈ tool_key <$> DiscoveredTools s) ∨ (n ∈ Injected sc ∧ (n ∉ Existing sc) ∧ n ∉ tool_key <$> DiscoveredTools s).
Proof using Laws.
  intros Pu (s & fields & tools & tags & D & F & P & M & In & Ex)%commit_spec. pose proof (metadata_keys _ _ F) as K.
  exists s, fields, (compact <$> stored_fields tools tags fields).
  split_and!; [done|done|by apply metadata_encoded; [apply stored_text|]|by eapply prepared| |apply merge_spec| | |].
  - intros k N1 N2. by rewrite lookup_fmap, stored_others.
  - intros k t. apply updated_tools. by destruct (decode_state_of _ _ D) as (_ & _ & Nm & _).
  - intros n. cbn [updated ToolTags]. rewrite unique_names_elem, elem_of_app. done.
  - intros n Ne I. rewrite In, Ex, !unique_names_elem, !list_elem_of_In, !filter_In, <- !list_elem_of_In.
    destruct (decide (n ∈ discoveredNames (DiscoveredTools s))) as [N|N].
    + left. rewrite (bool_decide_eq_true_2 _ N). apply names_elem in N as [_ N]. split_and!; [done..| |done]. by intros [[_ [=]] _].
    + right. rewrite (bool_decide_eq_false_2 _ N). split_and!; [done..| |intros L; apply N, names_elem; by split]. by intros [[_ [=]] _].
Qed.

(** Registering again changes nothing: committing the same update to the state it has produced succeeds, leaves the metadata as they are to the
    byte and reports no tool as new, when every tool is called by its key, as those of the registry are. *)
Lemma commit_replays raw s u sc : plain_update u → commit raw u = Ok sc → decode_state raw = Ok s →
  (∀ t, t ∈ DiscoveredTools s → well_named t) → (∀ t, t ∈ su_Tools u → well_named t) →
  ∃ sc', commit (sc_Metadata sc) u = Ok sc' ∧ sc_Metadata sc' = sc_Metadata sc ∧ Injected sc' = [].
Proof using Laws.
  intros Pu C D Ws Wu. pose proof C as (s0 & fields & tools & tags & D0 & F & P & M & _)%commit_spec. rewrite D in D0. injection D0 as <-.
  pose proof (stored_text tools tags _ (metadata_keys _ _ F)) as K. destruct (decode_state_of _ _ D) as (_ & _ & Nm & _).
  pose proof (prepared _ _ _ _ _ _ _ D Pu F P M) as D'. pose proof (metadata_encoded _ _ K M) as F'.
  assert (P' : prepareUpdate J (updated s u) u = Ok (tools, tags)).
  { pose proof (updated_idem s u Nm) as I. assert (It : mergeDiscoveredTools (retained (ReplaceGroups u) (DiscoveredTools (updated s u))) (su_Tools u)
      = mergeDiscoveredTools (retained (ReplaceGroups u) (DiscoveredTools s)) (su_Tools u)) by apply (f_equal DiscoveredTools I).
    assert (Ig : uniqueNames (ToolTags (updated s u) ++ su_Tags u) = uniqueNames (ToolTags s ++ su_Tags u)) by apply (f_equal ToolTags I).
    unfold prepareUpdate in *. rewrite It, Ig. destruct (ReplaceGroups u) eqn:G; [exact P|]. rewrite <- G in *.
    destruct (conflict (foldl by_schema ∅ (retained (ReplaceGroups u) (DiscoveredTools s))) (su_Tools u)) eqn:Cn; [done|]. by rewrite conflict_replayed. }
  assert (M' : Encode J (stored_fields tools tags (compact <$> stored_fields tools tags fields)) = Ok (sc_Metadata sc)).
  { rewrite <- M. apply encode_same, map_eq. intros k. rewrite !lookup_fmap. destruct (decide (k = tags_field)) as [->|N1]; [by rewrite !stored_tags|].
    destruct (decide (k = tools_field)) as [->|N2]; [by rewrite !stored_tools|]. rewrite !(stored_others _ _ _ k), lookup_fmap, stored_others by done.
    destruct (fields !! k); cbn [fmap option_fmap option_map]; [|done]. by rewrite (jl_idem _ _ _ _ Laws). }
  eexists. unfold commit_row. rewrite D'. cbn [res_bind]. rewrite P'. cbn [res_bind]. rewrite F'. cbn [res_bind]. rewrite M'. cbn [res_bind]. split; [done|].
  cbn [sc_Metadata Injected]. split; [done|].
  assert (Z : List.filter (λ n, negb (bool_decide (n ∈ discoveredNames (DiscoveredTools (updated s u))))) (tool_key <$> su_Tools u) = []); [|by rewrite Z].
  destruct (List.filter _ _) as [|n l] eqn:E; [done|]. assert (I : n ∈ n :: l) by by left. rewrite <- E, list_elem_of_In, filter_In, <- list_elem_of_In in I.
  destruct I as [I N]. exfalso. apply negb_true_iff, bool_decide_eq_false in N. apply N, names_elem. apply list_elem_of_fmap in I as (t & -> & I).
  destruct (Wu t I) as [_ Ne]. split; [done|]. destruct (last_of_exists _ _ t I eq_refl Ne) as [t' L].
  assert (A : at_key (tool_key t) (DiscoveredTools (updated s u)) t') by (apply updated_tools; [done|by left]). destruct A as [A <-]. by apply list_elem_of_fmap_2.
Qed.
End Commits.

(** ** A codec *)
(** A declaration that its letter determines: those of capital letters are of one event. *)
Definition letter_tool (c : ascii) : DiscoveredTool :=
  {| dt_Risk := RiskLow; dt_Name := [c]; dt_CanonicalName := [c]; dt_Source := if in_range 65 90 c then KindELwisp else KindNative; dt_Description := [];
     dt_Schema := {| sc_Name := [c]; sc_Description := []; sc_Parameters := None |}; dt_EventKey := if in_range 65 90 c then §"event" else [];
     dt_Endpoint := []; dt_TimeoutSeconds := 0; dt_ForegroundOnly := false |}.
Definition letter_plain (t : DiscoveredTool) : Prop := ∃ c, t = letter_tool c.
Definition write_strings (l : list gostring) : gostring := mjoin ((λ s, mjoin ((λ c, ["."%char; c]) <$> s) ++ [";"%char]) <$> l).
Fixpoint read_strings (s cur : gostring) : list gostring :=
  match s with
  | "."%char :: c :: s => read_strings s (cur ++ [c])
  | ";"%char :: s => cur :: read_strings s []
  | _ => []
  end.
Fixpoint pairs_of (l : list gostring) : list (gostring * gostring) := match l with k :: v :: l => (k, v) :: pairs_of l | _ => [] end.
Definition flatten (l : list (gostring * gostring)) : list gostring := mjoin ((λ p : gostring * gostring, [p.1; p.2]) <$> l).
Definition letter_json : json :=
  {| decode_fields raw := match raw with "{"%char :: ":"%char :: s => Ok (Some (list_to_map (pairs_of (read_strings s [])))) | _ => Err §"not an object" end;
     encode_fields m := Ok ("{"%char :: ":"%char :: write_strings (flatten (map_to_list m)));
     decode_tools raw := Ok (letter_tool <$> raw); encode_tools l := Ok (mjoin (dt_Name <$> l));
     decode_tags raw := Ok (read_strings raw []); encode_tags := write_strings; decode_bool raw := Ok (bool_decide (raw = §"true")) |}.
Lemma read_string s r : ∀ cur, read_strings (mjoin ((λ c, ["."%char; c]) <$> s) ++ ";"%char :: r) cur = (cur ++ s) :: read_strings r [].
Proof. induction s as [|c s IH]; intros cur; [by rewrite app_nil_r|]. cbn. rewrite IH, <- app_assoc. done. Qed.
Lemma read_written l : read_strings (write_strings l) [] = l.
Proof. induction l as [|s l IH]; [done|]. unfold write_strings. cbn [fmap list_fmap mjoin list_join]. rewrite <- app_assoc. cbn [app]. rewrite read_string. f_equal. exact IH. Qed.
Lemma pairs_flatten l : pairs_of (flatten l) = l.
Proof. induction l as [|[k v] l IH]; [done|]. cbn. f_equal. exact IH. Qed.
#[local] Instance state_tables : UnicodeTables := ascii_tables.
Lemma letter_laws : json_laws letter_json letter_plain (λ _, True) id.
Proof.
  split; try done.
  - intros m raw _ [= <-]. split.
    + cbn [letter_json decode_fields]. rewrite read_written, pairs_flatten, list_to_map_to_list, map_fmap_id. done.
    + destruct (trim_space_word "{"%char [] ":"%char (write_strings (flatten (map_to_list m))) eq_refl eq_refl) as [r' E]. cbn [app] in E. by rewrite E.
  - intros m. by rewrite map_fmap_id.
  - intros l raw P [= <-]. cbn [letter_json decode_tools id]. f_equal. induction l as [|t l IH]; [done|].
    destruct (P t) as [c ->]; [by left|]. cbn. f_equal. apply IH. intros x I. apply P. by right.
  - intros raw l [= <-] t (c & -> & _)%list_elem_of_fmap. by exists c.
  - intros l _. cbn. by rewrite read_written.
Qed.
(** A session with a tool of its own and two of an event, one of which the event registers anew with a native tool. *)
Definition letter_row : gostring :=
  match Encode letter_json (list_to_map [(§"model", §"m"); (tools_field, §"BaA")]) with Ok raw => raw | _ => [] end.
Definition letter_update : StateUpdate :=
  {| ReplaceGroups := [{| sp_SessionID := §"s"; sp_EventKey := §"event" |}]; su_Tools := [letter_tool "B"; letter_tool "b"]; su_Tags := [§"y"; §"x"; §"y"] |}.
Definition letter_commit : StateCommit :=
  match commit_row letter_json letter_row letter_update with Ok sc => sc | _ => {| sc_Metadata := []; Injected := []; Existing := [] |} end.
Lemma letter_plain_update : plain_update letter_plain (λ _, True) letter_update.
Proof. split; [|done]. intros t [->|[->|[]%elem_of_nil]%elem_of_cons]%elem_of_cons; by eexists. Qed.
Lemma letter_named c : well_named (letter_tool c).
Proof. by split. Qed.
Lemma letter_committed : commit_row letter_json letter_row letter_update = Ok letter_commit.
Proof. vm_compute. reflexivity. Qed.
Lemma commit_updates_witness : Existing letter_commit = [§"B"] ∧ Injected letter_commit = [§"b"] ∧ ∃ s fields fields',
  DecodeState letter_json letter_row = Ok s ∧ DecodeSessionMetadata letter_json letter_row = Ok fields
  ∧ DecodeSessionMetadata letter_json (sc_Metadata letter_commit) = Ok fields'
  ∧ DecodeState letter_json (sc_Metadata letter_commit) = Ok (updated s letter_update) ∧ tool_key <$> DiscoveredTools (updated s letter_update) = [§"B"; §"a"; §"b"].
Proof.
  split; [vm_compute; reflexivity|]. split; [vm_compute; reflexivity|].
  destruct (commit_updates letter_json letter_plain (λ _, True) id letter_laws letter_row letter_update letter_commit letter_plain_update letter_committed)
    as (s & fields & fields' & D & F & F' & D' & _). exists s, fields, fields'. split; [exact D|]. split; [exact F|]. split; [exact F'|]. split; [exact D'|].
  assert (X : match DecodeState letter_json letter_row with Ok s => bool_decide (tool_key <$> DiscoveredTools (updated s letter_update) = [§"B"; §"a"; §"b"]) | _ => false end = true)
    by (vm_compute; reflexivity).
  rewrite D in X. by apply bool_decide_eq_true in X.
Defined.
Lemma commit_replays_witness : ∃ sc', commit_row letter_json (sc_Metadata letter_commit) letter_update = Ok sc'
  ∧ sc_Metadata sc' = sc_Metadata letter_commit ∧ Injected sc' = [].
Proof.
  destruct (DecodeState letter_json letter_row) as [s|e|] eqn:D; [|exfalso; by vm_compute in D..].
  apply (commit_replays letter_json letter_plain (λ _, True) id letter_laws letter_row s letter_update letter_commit letter_plain_update letter_committed D).
  - destruct (decode_state_of letter_json letter_plain (λ _, True) id letter_laws letter_row s D) as (_ & _ & _ & _ & P & _).
    intros t I. destruct (P t I) as [c ->]. apply letter_named.
  - intros t I. destruct (proj1 letter_plain_update t I) as [c ->]. apply letter_named.
Defined.
