(* ===== verification/ShellRisk.v ===== *)
(** * The risk of a shell command ([tool/builtin/shell_risk.go], [shell_sandbox.go], [shell_warnings.go], [shell.go])

    The parser of shell commands is a third-party one: a parsed command is here
    the list of the nodes its [syntax.Walk] visits, in that order, with the parts
    of words the code looks at. The values of literals are the bytes the parser
    gives them. PowerShell, which is not parsed, is an argument of the
    assessment; running the command is not modelled. *)
From S2P Require Import Prelude GoStr GoPath Workspace Segment Turn HookPipeline ToolPermit.
Open Scope nat_scope.

(** ** The syntax tree *)
Inductive quoted_part := QLit (value : gostring) | QOther.
Inductive word_part := Lit (value : gostring) | SglQuoted (value : gostring) | DblQuoted (parts : list quoted_part) | PartOther.
Abbreviation Word := (option (list word_part)) (only parsing).
Inductive shell_node :=
| CallExpr (args : list (list word_part))
| Redirect (op : gostring) (word : Word)
| CmdSubst
| NodeOther.

Definition quoted_literal (parts : list quoted_part) : option gostring :=
  foldr (λ p acc, match p, acc with QLit v, Some r => Some (v ++ r) | _, _ => None end) (Some []) parts.
Definition part_literal (p : word_part) : option gostring :=
  match p with Lit v | SglQuoted v => Some v | DblQuoted parts => quoted_literal parts | PartOther => None end.
Definition literalWord (word : Word) : option gostring :=
  match word with
  | None | Some [] => None
  | Some parts => foldr (λ p acc, match part_literal p, acc with Some v, Some r => Some (v ++ r) | _, _ => None end) (Some []) parts
  end.
Definition literalArgs (words : list (list word_part)) : list gostring := omap (λ w, literalWord (Some w)) words.

Definition quotes : gostring := ["'"%char; dquote].
Definition one_of (names : list string) (s : gostring) : bool := existsb (λ n, bool_decide (s = lit n)) names.

Section Shell.
Context `{UnicodeTables}.

Definition commandBase (name : gostring) : gostring :=
  let name := to_lower (trim_space name) in
  let name := replace_all name §"\" §"/" in
  let name := default [] (last (split_byte slash name)) in
  trim_suffix §".exe" name.

(** ** Arguments *)
Definition hasArg (args : list gostring) (target : gostring) : bool :=
  existsb (λ arg, bool_decide (arg = target) || contains arg target) args.
Definition hasRecursive (args : list gostring) : bool :=
  existsb (λ arg, bool_decide (arg = §"-r") || bool_decide (arg = §"-R") || bool_decide (arg = §"--recursive")
                  || (contains arg §"r" && has_prefix §"-" arg)) args.
Definition hasRecursiveForce (args : list gostring) : bool :=
  let dashed := filter (λ arg, has_prefix §"-" arg = true) args in
  existsb (λ arg, contains arg §"r" || contains arg §"R" || bool_decide (arg = §"--recursive")) dashed
  && existsb (λ arg, contains arg §"f" || bool_decide (arg = §"--force")) dashed.
Definition system_paths : list string :=
  ["/"; "/bin"; "/boot"; "/dev"; "/etc"; "/home"; "/lib"; "/lib64"; "/proc"; "/root"; "/sbin"; "/sys"; "/usr"; "/var"; "c:/";
   "c:/windows"; "c:/program files"; "c:/users"]%string.
Definition touchesSystemPath (args : list gostring) : bool :=
  existsb (λ arg,
    let path := to_lower (trim_set quotes (replace_all arg §"\" §"/")) in
    one_of system_paths path || has_prefix §"/etc/" path || has_prefix §"/usr/" path || has_prefix §"c:/windows/" path) args.
Definition isDownloader : gostring → bool := one_of ["curl"; "wget"].
Definition isInterpreter : gostring → bool :=
  one_of ["sh"; "bash"; "zsh"; "fish"; "python"; "python3"; "node"; "perl"; "ruby"; "powershell"; "pwsh"].

(** ** The classifier *)
Record RiskAssessment := { Level : RiskLevel; Reasons : list gostring }.
Record classifier := { level : RiskLevel; reasons : list gostring; pipeline : list gostring }.
Definition raise (l : RiskLevel) (reason : gostring) (c : classifier) : classifier :=
  {| level := if (0 <? CompareRisk l (level c))%Z then l else level c;
     reasons := if bool_decide (reason ∈ reasons c) then reasons c else reasons c ++ [reason];
     pipeline := pipeline c |}.

(** What a command of that name and these literal arguments is raised to. *)
Definition git_risk (args : list gostring) : option (RiskLevel * gostring) :=
  match args with
  | [] => None
  | sub :: rest =>
    if one_of ["status"; "diff"; "log"; "show"; "branch"] sub then None
    else if one_of ["reset"; "clean"; "checkout"; "switch"; "restore"; "commit"; "push"; "add"; "merge"; "rebase"; "cherry-pick"; "stash"] sub then
      if (bool_decide (sub = §"reset") && hasArg rest §"--hard") || bool_decide (sub = §"clean")
      then Some (RiskHigh, §"git " ++ sub ++ §" 可能丢弃或删除工作区内容")
      else Some (RiskHigh, §"git " ++ sub ++ §" 会修改仓库状态")
    else None
  end.
Definition package_risk (name : gostring) (args : list gostring) : option (RiskLevel * gostring) :=
  match args with
  | [] => None
  | sub :: _ =>
    if bool_decide (name = §"go") then
      if one_of ["test"; "build"; "run"] sub then Some (RiskMedium, §"go " ++ sub ++ §" 可能执行项目代码")
      else if one_of ["install"; "get"] sub then Some (RiskHigh, §"go " ++ sub ++ §" 会安装或修改依赖")
      else None
    else if one_of ["install"; "add"; "remove"; "update"] sub then Some (RiskHigh, name ++ §" " ++ sub ++ §" 会修改依赖或安装代码")
    else if one_of ["test"; "run"; "build"] sub then Some (RiskMedium, name ++ §" " ++ sub ++ §" 可能执行项目脚本")
    else None
  end.
Definition command_risk (name : gostring) (args : list gostring) : option (RiskLevel * gostring) :=
  if one_of ["rm"; "rmdir"; "del"; "erase"; "rd"] name then
    if hasRecursiveForce args || touchesSystemPath args
    then Some (RiskCritical, §"使用删除命令 " ++ name ++ §" 且包含递归/强制参数或系统路径")
    else Some (RiskHigh, §"使用删除命令 " ++ name)
  else if one_of ["sudo"; "su"; "doas"; "runas"] name then Some (RiskCritical, §"使用提权命令 " ++ name)
  else if one_of ["mkfs"; "fdisk"; "parted"; "diskpart"; "format"; "mount"; "umount"; "dd"] name then
    Some (RiskCritical, §"使用磁盘或系统级操作命令 " ++ name)
  else if one_of ["chmod"; "chown"; "icacls"; "takeown"] name then
    if hasRecursive args || touchesSystemPath args then Some (RiskCritical, §"递归或系统路径权限修改命令 " ++ name)
    else Some (RiskHigh, §"权限或所有者修改命令 " ++ name)
  else if one_of ["curl"; "wget"] name then Some (RiskMedium, §"使用网络下载命令 " ++ name)
  else if bool_decide (name = §"git") then git_risk args
  else if isInterpreter name then Some (RiskMedium, §"调用解释器或 shell " ++ name)
  else if bool_decide (name = §"sed") then if hasArg args §"-i" then Some (RiskHigh, §"sed -i 会原地修改文件") else None
  else if one_of ["mv"; "move"; "cp"; "copy"; "install"; "tee"] name then Some (RiskHigh, §"可能写入或覆盖文件的命令 " ++ name)
  else if one_of ["npm"; "pnpm"; "yarn"; "pip"; "pip3"; "go"; "cargo"] name then package_risk name args
  else None.

(** The name and the literal arguments of a call; [None] when the name is not literal. *)
Definition call_words (args : list (list word_part)) : option (gostring * list gostring) :=
  match args with
  | [] => None
  | first :: rest =>
    match literalWord (Some first) with
    | None | Some [] => None
    | Some name => Some (commandBase name, literalArgs rest)
    end
  end.
Definition dynamic_name : gostring := §"命令名包含变量、命令替换或其他动态结构，无法静态判断真实命令".
Definition raise_opt (r : option (RiskLevel * gostring)) (c : classifier) : classifier :=
  match r with Some (l, reason) => raise l reason c | None => c end.
Definition classifyCall (args : list (list word_part)) (c : classifier) : classifier :=
  match args with
  | [] => c
  | _ => match call_words args with
         | None => raise RiskHigh dynamic_name c
         | Some (name, args) =>
           raise_opt (command_risk name args) {| level := level c; reasons := reasons c; pipeline := pipeline c ++ [name] |}
         end
  end.
Definition write_op (op : gostring) : bool := contains op §">" || contains op §"<>".
Definition classifyRedirect (op : gostring) (c : classifier) : classifier :=
  if write_op op then raise RiskHigh (§"包含写入重定向 " ++ op) c else c.
Definition pair_risk (left right : gostring) : option (RiskLevel * gostring) :=
  if isDownloader left && isInterpreter right
  then Some (RiskCritical, §"网络下载命令 " ++ left ++ §" 的输出通过管道交给 " ++ right ++ §" 执行")
  else if isInterpreter right then Some (RiskHigh, §"管道输出交给解释器或 shell " ++ right ++ §" 执行")
  else None.
Definition classifyPipeline (c : classifier) : classifier :=
  foldl (λ c p, raise_opt (pair_risk p.1 p.2) c) c (zip (pipeline c) (tail (pipeline c))).
Definition classify_node (c : classifier) (n : shell_node) : classifier :=
  match n with
  | CallExpr args => classifyCall args c
  | Redirect op _ => classifyRedirect op c
  | CmdSubst => raise RiskHigh §"包含命令替换 $() 或反引号，执行内容更难静态判断" c
  | NodeOther => c
  end.
Definition classifyBashShellCommand (file : list shell_node) : RiskAssessment :=
  let c := classifyPipeline (foldl classify_node {| level := RiskLow; reasons := []; pipeline := [] |} file) in
  {| Level := level c;
     Reasons := match reasons c with [] => [§"未发现明显写入、删除、提权或下载即执行行为"] | r => r end |}.

(** ** Restricted calls *)
Definition windows_abs (p : gostring) : bool :=
  match p with
  | d :: colon :: sep :: _ => (in_range 65 90 d || in_range 97 122 d) && bool_decide (colon = ":"%char) && bool_decide (sep = slash)
  | _ => false
  end.
Definition sandbox_path (value : gostring) : gostring := replace_all (trim_set quotes (trim_space value)) §"\" §"/".
Definition sandboxPathViolation (value : gostring) : gostring :=
  let p := sandbox_path value in
  if bool_decide (p = []) || has_prefix §"-" p then []
  else if has_prefix §"~" p then §"使用 home 路径"
  else if has_prefix §"//" p then §"使用 UNC 或网络绝对路径"
  else if has_prefix §"/" p || windows_abs p then §"使用绝对路径"
  else if escapes p then §"逃逸 受限调用"
  else [].
Definition sandboxPathCommand : gostring → bool :=
  one_of ["cat"; "head"; "tail"; "less"; "more"; "ls"; "touch"; "mkdir"; "rm"; "rmdir"; "cp"; "mv"; "tee"; "find"; "grep"; "sed"].
Definition add (reason : gostring) (violations : list gostring) : list gostring :=
  let reason := trim_space reason in
  if bool_decide (reason = []) || bool_decide (reason ∈ violations) then violations else violations ++ [reason].
Definition checkPath (value label : gostring) (v : list gostring) : list gostring :=
  let reason := sandboxPathViolation value in if bool_decide (reason = []) then v else add (label ++ reason) v.
Definition checkRedirect (op : gostring) (word : Word) (v : list gostring) : list gostring :=
  match word with
  | None => v
  | Some _ =>
    if negb (write_op op) then v
    else match literalWord word with
         | None => add §"重定向目标包含变量、命令替换或其他动态结构" v
         | Some value => checkPath value §"重定向目标" v
         end
  end.
Definition checkArg (name : gostring) (v : list gostring) (word : list word_part) : list gostring :=
  match literalWord (Some word) with
  | None => add (name ++ §" 的路径参数包含变量、命令替换或其他动态结构") v
  | Some arg => if bool_decide (arg = []) || has_prefix §"-" arg then v else checkPath arg (name ++ §" 参数") v
  end.
Definition checkCall (args : list (list word_part)) (v : list gostring) : list gostring :=
  match args with
  | [] => v
  | first :: rest =>
    match literalWord (Some first) with
    | None | Some [] => add §"命令名包含动态结构，受限调用 无法静态确认" v
    | Some name =>
      let name := commandBase name in
      if bool_decide (name = §"cd") then add §"后台 shell 不允许 cd" v
      else if negb (sandboxPathCommand name) then v else foldl (checkArg name) v rest
    end
  end.
Definition check_node (v : list gostring) (n : shell_node) : list gostring :=
  match n with
  | Redirect op word => checkRedirect op word v
  | CallExpr args => checkCall args v
  | _ => v
  end.
Definition validateBashShellSandboxCommand (file : list shell_node) : list gostring := foldl check_node [] file.
Definition appendUniqueReasons (base extra : list gostring) : list gostring := foldl (λ out r, add r out) base extra.
Definition applyBashShellSandboxRisk (file : list shell_node) (a : RiskAssessment) : RiskAssessment :=
  let violations := validateBashShellSandboxCommand file in
  match violations with
  | [] => a
  | _ => {| Level := if (0 <? CompareRisk RiskCritical (Level a))%Z then RiskCritical else Level a;
            Reasons := appendUniqueReasons (Reasons a) violations |}
  end.

(** ** Warnings and refusals before the call is offered *)
Definition directory_commands : list string := ["cd"; "chdir"; "pushd"; "popd"; "set-location"; "sl"]%string.
Definition changed_directory (n : shell_node) : option gostring :=
  match n with
  | CallExpr (first :: _) =>
    match literalWord (Some first) with
    | Some name => if one_of directory_commands (commandBase name) then Some (commandBase name) else None
    | None => None
    end
  | _ => None
  end.
Definition rejectBashShellDirectoryChange (file : list shell_node) : res unit :=
  match omap changed_directory file with
  | [] => Ok tt
  | blocked :: _ => Err (§"shell command " ++ quote blocked ++ §" is not allowed; use the workspace tool to set the working directory")
  end.

Definition msysPathToWindows (path : gostring) : option gostring :=
  match path with
  | s :: drive :: s' :: rest =>
    if bool_decide (s = slash) && bool_decide (s' = slash) && (in_range 97 122 drive || in_range 65 90 drive)
    then Some (drive :: §":/" ++ rest) else None
  | _ => None
  end.
Definition resolveShellLiteralPath (workDir raw : gostring) : option gostring :=
  let raw := trim_space raw in
  if bool_decide (raw = []) || has_prefix §"-" raw then None
  else if contains raw §"://" then None
  else
    let raw := default raw (msysPathToWindows raw) in
    if IsAbs raw then Some (Clean raw)
    else if bool_decide (trim_space workDir = []) then None
    else Some (Clean (Join workDir raw)).

Definition warnUseReadFile : gostring := §"读取本地文件请优先使用 read_file 工具。".
Definition warnUseEditFile : gostring := §"编辑本地文件请优先使用 edit_file 工具。".
Definition warnUseWorkspace : gostring := §"需要切换工作目录时请使用 workspace 工具，不要在 cmd 中切换目录或夹带目录切换。".
Record shellAdvice := { warnings : list gostring; blockErr : option gostring }.
Section Advice.
Context (check_write : gostring → option gostring) (read_warnings : gostring → list gostring) (workDir : gostring).
Definition addWarning (a : shellAdvice) (warning : gostring) : shellAdvice :=
  {| warnings := add warning (warnings a); blockErr := blockErr a |}.
Definition addPathArgWarning (args : list gostring) (a : shellAdvice) : shellAdvice :=
  if existsb (λ arg, bool_decide (is_Some (resolveShellLiteralPath workDir arg))) args then addWarning a warnUseWorkspace else a.
Definition addReadWarnings (args : list gostring) (a : shellAdvice) : shellAdvice :=
  foldl addWarning a (omap (resolveShellLiteralPath workDir) args ≫= read_warnings).
Definition checkWriteArgs (args : list gostring) : option gostring :=
  head (omap (λ arg, resolveShellLiteralPath workDir arg ≫= check_write) args).
Definition writing_call (args : list gostring) (a : shellAdvice) : shellAdvice :=
  match checkWriteArgs args with
  | Some err => {| warnings := warnings a; blockErr := Some err |}
  | None => addPathArgWarning args (addWarning a warnUseEditFile)
  end.
Definition inspectShellCall (args : list (list word_part)) (a : shellAdvice) : shellAdvice :=
  match args with
  | [] => a
  | first :: rest =>
    match literalWord (Some first) with
    | None => a
    | Some name =>
      let name := commandBase name in
      let args := literalArgs rest in
      if one_of ["cat"; "less"; "more"; "head"; "tail"; "grep"; "rg"] name then
        addReadWarnings args (addPathArgWarning args (addWarning a warnUseReadFile))
      else if (bool_decide (name = §"sed") && hasArg args §"-i")
           || (bool_decide (name = §"perl") && (hasArg args §"-pi" || hasArg args §"-pI"))
           || bool_decide (name = §"tee") then writing_call args a
      else a
    end
  end.
Definition inspectShellRedirect (op : gostring) (word : Word) (a : shellAdvice) : shellAdvice :=
  if negb (write_op op) then a
  else match literalWord word ≫= resolveShellLiteralPath workDir with
       | None => addWarning a warnUseEditFile
       | Some resolved =>
         let a := addWarning a warnUseWorkspace in
         match check_write resolved with
         | Some err => {| warnings := warnings a; blockErr := Some err |}
         | None => addWarning a warnUseEditFile
         end
       end.
Definition inspect_node (a : shellAdvice) (n : shell_node) : shellAdvice :=
  match blockErr a with
  | Some _ => a
  | None => match n with
            | CallExpr args => inspectShellCall args a
            | Redirect op word => inspectShellRedirect op word a
            | _ => a
            end
  end.
Definition analyzeBashShellAdvice (file : list shell_node) : shellAdvice :=
  foldl inspect_node {| warnings := []; blockErr := None |} file.

(** ** The assessment of a call ([PrepareCall] up to the prepared call); [parse] is the third-party parser. *)
Inductive parsed := PowerShell | ParseError (err : gostring) | Parsed (file : list shell_node).
Definition prepare_shell (p : parsed) (restricted : bool) : res (RiskAssessment * list gostring) :=
  let* _ := match p with Parsed file => rejectBashShellDirectoryChange file | _ => Ok tt end in
  let* (a, advice) := match p with
    | PowerShell => Ok ({| Level := RiskHigh; Reasons := [§"PowerShell 环境无法用 bash AST 解析命令，需要用户确认"] |}, [])
    | ParseError err => Ok ({| Level := RiskHigh; Reasons := [§"shell AST 解析失败，按高风险处理: " ++ err] |}, [])
    | Parsed file =>
      let advice := analyzeBashShellAdvice file in
      match blockErr advice with
      | Some err => Err err
      | None => Ok (classifyBashShellCommand file, warnings advice)
      end
    end in
  Ok (match p with
      | PowerShell => a
      | ParseError err =>
        if restricted then {| Level := RiskCritical; Reasons := Reasons a ++ [§"受限调用无法解析 shell AST: " ++ err] |} else a
      | Parsed file => if restricted then applyBashShellSandboxRisk file a else a
      end, advice).
End Advice.
End Shell.
