(* ===== verification/ShellRiskProps.v ===== *)
(** * Theorems on the risk of shell commands (ShellRisk.v)

    The level of a command is the highest one any of its nodes is raised to; what
    a low command and an accepted restricted command cannot hold; and what gets
    past the permissions of the tools (ToolPermit.v). *)
From S2P Require Import Prelude GoStr GoPath Workspace Segment Turn HookPipeline ToolPermit ShellRisk.
Open Scope nat_scope.

Section Props.
Context `{UnicodeTables}.

(** ** Raising a level *)
Definition raise_all (rs : list (RiskLevel * gostring)) (c : classifier) : classifier :=
  foldl (λ c r, raise r.1 r.2 c) c rs.
Lemma raise_rank l r c : riskRank (level (raise l r c)) = Z.max (riskRank l) (riskRank (level c)).
Proof. unfold raise, CompareRisk. cbn. destruct (0 <? _)%Z eqn:E; propify; lia. Qed.
Lemma raise_all_rank rs : ∀ c, riskRank (level (raise_all rs c)) = foldr Z.max (riskRank (level c)) (map (λ r, riskRank r.1) rs).
Proof.
  induction rs as [|r rs IH]; intros c; cbn; [done|]. unfold raise_all in IH. rewrite IH, raise_rank.
  clear IH. induction rs as [|r' rs IH]; cbn; lia.
Qed.
Lemma raise_all_app a b c : raise_all (a ++ b) c = raise_all b (raise_all a c).
Proof. apply foldl_app. Qed.

(** What a node raises the level to, and the names of the commands. *)
Definition option_list {A} (o : option A) : list A := match o with Some a => [a] | None => [] end.
Definition node_raises (n : shell_node) : list (RiskLevel * gostring) :=
  match n with
  | CallExpr [] => []
  | CallExpr args => match call_words args with None => [(RiskHigh, dynamic_name)] | Some (name, args) => option_list (command_risk name args) end
  | Redirect op _ => if write_op op then [(RiskHigh, §"包含写入重定向 " ++ op)] else []
  | CmdSubst => [(RiskHigh, §"包含命令替换 $() 或反引号，执行内容更难静态判断")]
  | NodeOther => []
  end.
Definition node_name (n : shell_node) : option gostring :=
  match n with CallExpr args => fst <$> call_words args | _ => None end.
Definition names (file : list shell_node) : list gostring := omap node_name file.
Definition pair_raises (l : list gostring) : list (RiskLevel * gostring) :=
  zip l (tail l) ≫= λ p, option_list (pair_risk p.1 p.2).
Definition raises (file : list shell_node) : list (RiskLevel * gostring) := (file ≫= node_raises) ++ pair_raises (names file).

Lemma raise_opt_all r c : raise_opt r c = raise_all (option_list r) c.
Proof. by destruct r as [[]|]. Qed.
Definition push_names (l : list gostring) (c : classifier) : classifier :=
  {| level := level c; reasons := reasons c; pipeline := pipeline c ++ l |}.
Lemma push_raise_all rs l : ∀ c, raise_all rs (push_names l c) = push_names l (raise_all rs c).
Proof. induction rs as [|r rs IH]; intros c; [done|]. exact (IH (raise r.1 r.2 c)). Qed.
Lemma push_nil c : push_names [] c = c.
Proof. destruct c. unfold push_names. cbn. by rewrite app_nil_r. Qed.
Lemma push_push a b c : push_names b (push_names a c) = push_names (a ++ b) c.
Proof. unfold push_names. cbn. by rewrite app_assoc. Qed.
Lemma classify_node_raises c n : classify_node c n = push_names (option_list (node_name n)) (raise_all (node_raises n) c).
Proof.
  destruct n as [args|op w| |]; cbn; rewrite ?push_nil; try done.
  - destruct args as [|a args]; [by rewrite push_nil|]. cbn [classifyCall].
    destruct (call_words (a :: args)) as [[name args']|]; cbn [fmap option_fmap option_map]; [|by rewrite push_nil].
    rewrite raise_opt_all. exact (push_raise_all _ [name] c).
  - unfold classifyRedirect. by destruct (write_op op).
Qed.
Lemma classify_nodes file : ∀ c, foldl classify_node c file = push_names (names file) (raise_all (file ≫= node_raises) c).
Proof.
  induction file as [|n file IH]; intros c; cbn [foldl]; [by rewrite push_nil|].
  rewrite IH, classify_node_raises, push_raise_all, push_push. cbn [mbind list_bind]. rewrite raise_all_app.
  f_equal. unfold names. cbn. by destruct (node_name n).
Qed.
Lemma classify_raises file :
  let c := raise_all (raises file) {| level := RiskLow; reasons := []; pipeline := names file |} in
  classifyBashShellCommand file
  = {| Level := level c; Reasons := match reasons c with [] => [§"未发现明显写入、删除、提权或下载即执行行为"] | r => r end |}.
Proof.
  cbv zeta. unfold classifyBashShellCommand. cbv zeta. rewrite classify_nodes, <- push_raise_all.
  set (c0 := push_names (names file) _).
  assert (P : pipeline (raise_all (file ≫= node_raises) c0) = names file).
  { generalize (file ≫= node_raises). assert (E : pipeline c0 = names file) by done. clearbody c0. revert c0 E.
    intros c0 E rs. revert c0 E. induction rs as [|r rs IH]; intros c0 E; [done|]. by apply IH. }
  assert (E : classifyPipeline (raise_all (file ≫= node_raises) c0) = raise_all (raises file) c0); [|by rewrite E].
  unfold classifyPipeline. rewrite P. unfold raises. rewrite raise_all_app. unfold pair_raises.
  generalize (raise_all (file ≫= node_raises) c0). induction (zip _ _) as [|p l IH]; intros c; [done|].
  cbn [foldl mbind list_bind]. rewrite IH, raise_opt_all. by rewrite raise_all_app.
Qed.

(** The level of a shell command is the highest its parts are raised to: low, unless a call, a
    redirection, a substitution or a pair of consecutive commands raises it, whatever their order. *)
Lemma level_is_maximum file :
  riskRank (Level (classifyBashShellCommand file)) = foldr Z.max (riskRank RiskLow) (map (λ r, riskRank r.1) (raises file)).
Proof. rewrite classify_raises. cbn [Level]. by rewrite raise_all_rank. Qed.

(** ** What is raised is at least medium *)
Lemma some_medium l reason (r : RiskLevel * gostring) : (2 <=? riskRank l)%Z = true → Some (l, reason) = Some r → (2 ≤ riskRank r.1)%Z.
Proof. intros E%Z.leb_le Hr. by injection Hr as <-. Qed.
Lemma command_risk_medium name args (r : RiskLevel * gostring) : command_risk name args = Some r → (2 ≤ riskRank r.1)%Z.
Proof.
  unfold command_risk, git_risk, package_risk.
  repeat match goal with |- context [if ?b then _ else _] => destruct b end; try done; try (apply some_medium; vm_compute; reflexivity).
  all: destruct args as [|sub rest]; try done.
  all: repeat match goal with |- context [if ?b then _ else _] => destruct b end; try done; apply some_medium; vm_compute; reflexivity.
Qed.
Definition medium (r : RiskLevel * gostring) : Prop := (2 ≤ riskRank r.1)%Z.
Lemma one_medium l reason : (2 <=? riskRank l)%Z = true → Forall medium [(l, reason)].
Proof. intros E%Z.leb_le. by apply Forall_singleton. Qed.
Lemma node_medium n : Forall medium (node_raises n).
Proof.
  destruct n as [[|a args]|op w| |]; cbn [node_raises].
  - apply Forall_nil_2.
  - destruct (call_words (a :: args)) as [[name rest]|]; [|apply one_medium; vm_compute; reflexivity].
    destruct (command_risk name rest) eqn:E; [|apply Forall_nil_2]. apply Forall_singleton. by eapply command_risk_medium.
  - destruct (write_op op); [apply one_medium; vm_compute; reflexivity|apply Forall_nil_2].
  - apply one_medium; vm_compute; reflexivity.
  - apply Forall_nil_2.
Qed.
Lemma pair_medium l r : Forall medium (option_list (pair_risk l r)).
Proof.
  unfold pair_risk. destruct (_ && _); [apply one_medium; vm_compute; reflexivity|].
  destruct (isInterpreter r); [apply one_medium; vm_compute; reflexivity|apply Forall_nil_2].
Qed.
Lemma raises_medium file : Forall medium (raises file).
Proof. apply Forall_app_2; apply Forall_bind; apply Forall_forall; intros x _; [apply node_medium|apply pair_medium]. Qed.
Lemma rank_max_low file : (riskRank (Level (classifyBashShellCommand file)) ≤ 1)%Z → raises file = [].
Proof.
  rewrite classify_raises. cbn [Level]. rewrite raise_all_rank. change (riskRank (level _)) with 1%Z.
  pose proof (raises_medium file) as F. destruct (raises file) as [|r rs]; [done|]. inversion F as [|? ? M _]; subst. unfold medium in M. cbn. lia.
Qed.

(** A node without any sign of danger: every call has a literal name and is not one the classifier
    knows as writing, deleting, privileged, downloading or interpreting; nothing is redirected into
    a file and nothing is substituted. *)
Definition harmless (n : shell_node) : Prop :=
  match n with
  | CallExpr [] => True
  | CallExpr args => ∃ name rest, call_words args = Some (name, rest) ∧ command_risk name rest = None
  | Redirect op _ => write_op op = false
  | CmdSubst => False
  | NodeOther => True
  end.
Lemma harmless_raises n : harmless n ↔ node_raises n = [].
Proof.
  destruct n as [[|a args]|op w| |]; cbn [harmless node_raises]; try done.
  - destruct (call_words (a :: args)) as [[name rest]|]; [|by split; [intros (? & ? & [=] & _)|]].
    destruct (command_risk name rest) eqn:E; cbn; [|naive_solver]. split; [|done]. intros (? & ? & [= <- <-] & ?). congruence.
  - by destruct (write_op op).
Qed.
Lemma interpreter_risky name args : isInterpreter name = true → command_risk name args ≠ None.
Proof.
  unfold isInterpreter, one_of. rewrite existsb_exists. intros (x & I & E%bool_decide_eq_true) R.
  cbn [List.In] in I. destruct_or! I; try subst x; subst name; try done; vm_compute in R; done.
Qed.
Lemma pairs_quiet l : Forall (λ name, isInterpreter name = false) l → pair_raises l = [].
Proof.
  intros F. unfold pair_raises.
  assert (G : Forall (λ p, isInterpreter p.2 = false) (zip l (tail l))).
  { apply Forall_forall. intros [a b] I%elem_of_zip_r. rewrite Forall_forall in F. apply F. destruct l; [done|by right]. }
  induction G as [|p ps Q G IH]; [done|]. cbn. rewrite IH, app_nil_r. unfold pair_risk. by rewrite Q, andb_false_r.
Qed.
Lemma raises_nil file : raises file = [] ↔ Forall harmless file.
Proof.
  unfold raises. rewrite app_nil. split.
  - intros [E _]. induction file as [|n file IH]; [constructor|]. cbn in E. apply app_nil in E as [E1 E2].
    constructor; [by apply harmless_raises|by apply IH].
  - intros F. split.
    + induction F as [|n file Hn _ IH]; [done|]. cbn. apply harmless_raises in Hn. by rewrite Hn.
    + apply pairs_quiet. unfold names. induction F as [|n file Hn _ IH]; [constructor|]. cbn.
      destruct n as [[|a args]|op w| |]; cbn [node_name]; try exact IH.
      destruct Hn as (name & rest & C & R). rewrite C. cbn. constructor; [|exact IH].
      destruct (isInterpreter name) eqn:I; [|done]. by destruct (interpreter_risky name rest I).
Qed.


(** ** Restricted calls *)
Lemma add_keeps r v : v ≠ [] → add r v ≠ [].
Proof. unfold add. case_match; [done|]. intros _ [_ [=]]%app_nil. Qed.
Lemma add_new r v : trim_space r ≠ [] → add r v ≠ [].
Proof.
  intros N. unfold add. rewrite (bool_decide_eq_false_2 _ N). cbn. case_bool_decide as I; [by intros ->; inversion I|].
  intros [_ [=]]%app_nil.
Qed.
Lemma sandbox_critical file a : validateBashShellSandboxCommand file ≠ [] → riskRank (Level (applyBashShellSandboxRisk file a)) = 4%Z.
Proof.
  intros N. unfold applyBashShellSandboxRisk. destruct (validateBashShellSandboxCommand file); [done|]. cbn [Level].
  unfold CompareRisk. change (riskRank RiskCritical) with 4%Z. destruct (0 <? _)%Z eqn:E; [done|]. propify.
  assert (riskRank (Level a) ≤ 4)%Z by (unfold riskRank; repeat case_bool_decide; lia). lia.
Qed.
Lemma rank_critical l : riskRank l = 4%Z → l = RiskCritical.
Proof. unfold riskRank. repeat case_bool_decide; done. Qed.
Lemma sandbox_raises file a : (riskRank (Level a) ≤ riskRank (Level (applyBashShellSandboxRisk file a)))%Z.
Proof.
  unfold applyBashShellSandboxRisk. destruct (validateBashShellSandboxCommand file); [done|]. cbn [Level].
  unfold CompareRisk. destruct (0 <? _)%Z eqn:E; propify; lia.
Qed.

(** The path stays in the directory of the call: relative, and going up nowhere above it. *)
Definition path_contained (value : gostring) : Prop :=
  let p := sandbox_path value in
  p = [] ∨ has_prefix §"-" p = true ∨ (IsAbs p = false ∧ has_prefix §"~" p = false ∧ windows_abs p = false ∧ stays_inside p).
Lemma violation_none v : sandboxPathViolation v = [] → path_contained v.
Proof.
  unfold sandboxPathViolation, path_contained. cbv zeta. set (p := sandbox_path v).
  destruct (bool_decide (p = []) || has_prefix §"-" p) eqn:E1; [intros _; propify; tauto|].
  destruct (has_prefix §"~" p) eqn:E2; [done|]. destruct (has_prefix §"//" p); [done|].
  destruct (has_prefix §"/" p) eqn:E3; [done|]. destruct (windows_abs p) eqn:E4; [done|].
  destruct (escapes p) eqn:E5; [done|]. intros _. do 2 right. split_and!; try done. by apply escapes_iff.
Qed.
(** A violation is one of a few texts. *)
Definition violation_texts : list gostring := [§"使用 home 路径"; §"使用 UNC 或网络绝对路径"; §"使用绝对路径"; §"逃逸 受限调用"].
Lemma violation_text v : sandboxPathViolation v = [] ∨ sandboxPathViolation v ∈ violation_texts.
Proof. unfold sandboxPathViolation, violation_texts. cbv zeta. repeat case_match; set_solver. Qed.
Definition path_labels : list gostring :=
  §"重定向目标" :: map (λ n, lit n ++ §" 参数")
    ["cat"; "head"; "tail"; "less"; "more"; "ls"; "touch"; "mkdir"; "rm"; "rmdir"; "cp"; "mv"; "tee"; "find"; "grep"; "sed"]%string.
Lemma labelled_nonblank : Forall (λ label, Forall (λ t, trim_space (label ++ t) ≠ []) violation_texts) path_labels.
Proof. apply (bool_decide_unpack _). by vm_compute. Qed.
Lemma checkPath_clean label value v : label ∈ path_labels → checkPath value label v = [] → v = [] ∧ path_contained value.
Proof.
  intros L. unfold checkPath. cbv zeta. destruct (decide (sandboxPathViolation value = [])) as [E|E].
  - rewrite (bool_decide_eq_true_2 _ E). intros ->. split; [done|by apply violation_none].
  - rewrite (bool_decide_eq_false_2 _ E). intros A. destruct (violation_text value) as [|T]; [done|]. exfalso.
    revert A. apply add_new. pose proof labelled_nonblank as F. rewrite Forall_forall in F. specialize (F _ L).
    rewrite Forall_forall in F. by apply F.
Qed.
Lemma path_command_label name : sandboxPathCommand name = true → name ++ §" 参数" ∈ path_labels.
Proof.
  unfold sandboxPathCommand, one_of. rewrite existsb_exists. intros (n & I & E%bool_decide_eq_true). subst name.
  right. apply list_elem_of_fmap. exists n. split; [done|]. by apply list_elem_of_In.
Qed.
Lemma path_command_dynamic name : sandboxPathCommand name = true → trim_space (name ++ §" 的路径参数包含变量、命令替换或其他动态结构") ≠ [].
Proof.
  unfold sandboxPathCommand, one_of. rewrite existsb_exists. intros (n & I & E%bool_decide_eq_true). subst name.
  cbn [List.In] in I. destruct_or! I; subst; try done; by vm_compute.
Qed.

(** What an accepted word and an accepted node are. *)
Definition arg_contained (word : list word_part) : Prop :=
  ∃ arg, literalWord (Some word) = Some arg ∧ (arg = [] ∨ has_prefix §"-" arg = true ∨ path_contained arg).
Definition contained (n : shell_node) : Prop :=
  match n with
  | CallExpr (first :: rest) =>
    ∃ raw, literalWord (Some first) = Some raw ∧ raw ≠ [] ∧ commandBase raw ≠ §"cd"
      ∧ (sandboxPathCommand (commandBase raw) = true → Forall arg_contained rest)
  | Redirect op (Some word) => write_op op = true → ∃ value, literalWord (Some word) = Some value ∧ path_contained value
  | _ => True
  end.
Lemma checkArg_clean name v word : sandboxPathCommand name = true → checkArg name v word = [] → v = [] ∧ arg_contained word.
Proof.
  intros P. unfold checkArg, arg_contained. destruct (literalWord (Some word)) as [arg|].
  - destruct (bool_decide (arg = []) || has_prefix §"-" arg) eqn:E.
    + intros ->. split; [done|]. exists arg. propify. tauto.
    + intros C. apply checkPath_clean in C as [-> C]; [|by apply path_command_label]. eauto 8.
  - intros C. by apply add_new in C; [|apply path_command_dynamic].
Qed.
Lemma checkArgs_clean name rest : sandboxPathCommand name = true → ∀ v, foldl (checkArg name) v rest = [] → v = [] ∧ Forall arg_contained rest.
Proof.
  intros P. induction rest as [|w rest IH]; intros v; cbn; [done|]. intros C. apply IH in C as [C F].
  apply checkArg_clean in C as [-> A]; [|done]. split; [done|by constructor].
Qed.
Lemma check_node_clean v n : check_node v n = [] → v = [] ∧ contained n.
Proof.
  destruct n as [[|first rest]|op [word|]| |]; cbn [check_node contained]; try done.
  - cbn [checkCall]. destruct (literalWord (Some first)) as [[|c raw]|]; [intros C; by apply add_new in C; [|vm_compute]| |intros C; by apply add_new in C; [|vm_compute]].
    cbv zeta. set (raw' := c :: raw). destruct (decide (commandBase raw' = §"cd")) as [E|E].
    { rewrite (bool_decide_eq_true_2 _ E). intros C. by apply add_new in C; [|vm_compute]. }
    rewrite (bool_decide_eq_false_2 _ E). destruct (sandboxPathCommand (commandBase raw')) eqn:P; cbn [negb].
    + intros C. apply checkArgs_clean in C as [-> F]; [|done]. split; [done|]. exists raw'. eauto.
    + intros ->. split; [done|]. exists raw'. split_and!; try done. by rewrite P.
  - cbn [checkRedirect]. destruct (write_op op); cbn [negb]; [|by intros ->].
    destruct (literalWord (Some word)) as [value|]; [|intros C; by apply add_new in C; [|vm_compute]].
    intros C. apply checkPath_clean in C as [-> C]; [|by left]. eauto.
Qed.
Lemma sandbox_clean file : ∀ v, foldl check_node v file = [] → v = [] ∧ Forall contained file.
Proof.
  induction file as [|n file IH]; intros v; cbn; [done|]. intros C. apply IH in C as [C F].
  apply check_node_clean in C as [-> D]. split; [done|by constructor].
Qed.

(** ** Prepared calls and the permissions *)
Section Prepared.
Context (check_write : gostring → option gostring) (read_warnings : gostring → list gostring) (workDir : gostring).
Lemma prepare_inv file restricted a w : prepare_shell check_write read_warnings workDir (Parsed file) restricted = Ok (a, w) →
  omap changed_directory file = [] ∧ blockErr (analyzeBashShellAdvice check_write read_warnings workDir file) = None
  ∧ a = if restricted then applyBashShellSandboxRisk file (classifyBashShellCommand file) else classifyBashShellCommand file.
Proof.
  unfold prepare_shell, rejectBashShellDirectoryChange. destruct (omap changed_directory file); cbn; [|done].
  destruct (blockErr _) eqn:E; cbn; [done|]. intros [= <- _]. done.
Qed.



(** A write the guard knows about is never offered: literal targets of write redirections. *)
Definition writes_checked (n : shell_node) : Prop :=
  match n with
  | Redirect op word => write_op op = true → ∀ path, literalWord word ≫= resolveShellLiteralPath workDir = Some path → check_write path = None
  | CallExpr (first :: rest) =>
    ∀ raw, literalWord (Some first) = Some raw → commandBase raw = §"tee" →
    ∀ arg path, arg ∈ literalArgs rest → resolveShellLiteralPath workDir arg = Some path → check_write path = None
  | _ => True
  end.
Lemma blocked_stays file a : blockErr a ≠ None → blockErr (foldl (inspect_node check_write read_warnings workDir) a file) = blockErr a.
Proof.
  intros N. induction file as [|n file IH]; [done|]. cbn. unfold inspect_node at 2. by destruct (blockErr a) eqn:E.
Qed.
Lemma checkWriteArgs_none args : checkWriteArgs check_write workDir args = None →
  ∀ arg path, arg ∈ args → resolveShellLiteralPath workDir arg = Some path → check_write path = None.
Proof.
  unfold checkWriteArgs. induction args as [|x args IH]; cbn; [intros _ ? ? I; inversion I|].
  destruct (resolveShellLiteralPath workDir x ≫= check_write) eqn:E; cbn; [done|]. intros N arg path I R.
  apply elem_of_cons in I as [->|I]; [|by eapply IH]. by rewrite R in E.
Qed.
Lemma inspect_unblocked a n : blockErr a = None → blockErr (inspect_node check_write read_warnings workDir a n) = None → writes_checked n.
Proof.
  intros A. unfold inspect_node. rewrite A. destruct n as [[|first rest]|op word| |]; cbn [writes_checked]; try done.
  - cbn [inspectShellCall]. intros B raw L T. rewrite L in B. cbv zeta in B. rewrite T in B.
    change (one_of _ (§"tee")) with false in B. cbv iota in B.
    change (bool_decide (§"tee" = §"tee")) with true in B. rewrite orb_true_r in B. unfold writing_call in B.
    destruct (checkWriteArgs check_write workDir (literalArgs rest)) eqn:E; [done|]. by apply checkWriteArgs_none.
  - unfold inspectShellRedirect. intros B W path R. rewrite W, R in B. cbn [negb] in B. cbv zeta in B.
    by destruct (check_write path).
Qed.
Lemma advice_unblocked file : ∀ a, blockErr (foldl (inspect_node check_write read_warnings workDir) a file) = None →
  blockErr a = None ∧ Forall writes_checked file.
Proof.
  induction file as [|n file IH]; intros a; cbn; [done|]. intros B. apply IH in B as [B F].
  assert (A : blockErr a = None).
  { destruct (blockErr a) eqn:E; [|done]. unfold inspect_node in B. rewrite E in B. congruence. }
  split; [done|]. constructor; [by eapply inspect_unblocked|done].
Qed.

(** A shell call is only offered when no literal target of its write redirections, and no literal
    argument of a [tee], is a file the write guard refuses. *)
Lemma offered_shell_respects_guard file restricted a w
  (Hprep : prepare_shell check_write read_warnings workDir (Parsed file) restricted = Ok (a, w)) : Forall writes_checked file.
Proof. apply prepare_inv in Hprep as (_ & B & _). by apply advice_unblocked in B as [_ F]. Qed.
End Prepared.
End Props.

(** ** Concrete commands *)
Definition word (s : gostring) : list word_part := [Lit s].
#[local] Existing Instance ascii_tables.
Definition free_guard : gostring → option gostring := λ _, None.
Definition example_safe : list shell_node :=
  [CallExpr [word §"cat"; [DblQuoted [QLit §"docs/../a b.txt"]]]; Redirect §"<" (Some (word §"in.txt")); CallExpr [word §"git"; word §"log"]].
Example classify_examples :
  Level (classifyBashShellCommand example_safe) = RiskLow
  ∧ Level (classifyBashShellCommand [CallExpr [word §"/bin/RM.exe"; word §"-rf"; word §"x"]]) = RiskCritical
  ∧ Level (classifyBashShellCommand [CallExpr [word §"curl"; word §"u"]; CallExpr [word §"bash"]]) = RiskCritical
  ∧ validateBashShellSandboxCommand [CallExpr [word §"cat"; word §"a/../../b"]] = [§"cat 参数逃逸 受限调用"].
Proof. by vm_compute. Qed.

(** The parser keeps the backslashes of an unquoted literal, and the classifier takes them for
    separators: an escaped character hides the name of the command, and the way up of a path. *)
Example escaped_name_is_low :
  Level (classifyBashShellCommand [CallExpr [word §"r\m"; word §"-rf"; word §"/"]]) = RiskLow
  ∧ commandBase §"r\m" = §"m"
  ∧ validateBashShellSandboxCommand [CallExpr [word §"cat"; word §".\./secret"]] = [].
Proof. by vm_compute. Qed.
(** Commands need not be piped into each other: two in a row are taken for a pipeline, and two with a
    third in between are not. *)
Example pipelines_are_adjacent :
  Level (classifyBashShellCommand [CallExpr [word §"curl"; word §"u"]; CallExpr [word §"cat"]; CallExpr [word §"bash"]]) = RiskHigh.
Proof. by vm_compute. Qed.

Definition default_permission : Permission := {| UserMaxToolRisk := RiskLow; SuperadminConfirmRisk := RiskHigh; Superadmins := ∅ |}.
Definition guarded : gostring → option gostring := λ p, if bool_decide (p = §"/w/m.md") then Some §"no" else None.
Definition example_write : list shell_node := [CallExpr [word §"echo"; word §"x"]; Redirect §">" (Some (word §"out/../n.md"))].
Lemma offered_shell_respects_guard_witness : Forall (writes_checked guarded §"/w") example_write.
Proof.
  apply (offered_shell_respects_guard guarded (λ _, []) §"/w" example_write false (classifyBashShellCommand example_write) [warnUseWorkspace; warnUseEditFile]).
  vm_compute; reflexivity.
Defined.
