(* ===== verification/CronManager.v ===== *)
(** * The scheduler of background jobs ([background/cron/manager.go], [background/cron/refresh.go])

    The manager keeps one entry in a third-party scheduler for each job that is
    to run, and re-reads the record of a job after each change of it. Every
    critical section and every call of the database is a step of one of the
    threads: the caller of [Start], the refresh worker, the invocations the
    scheduler starts, the callers that change a record and then announce it, and
    the goroutine of [Stop] that waits for the rest. The outcome of a database
    call, of a handler and of the computation of the next run is part of the
    step. Log records and the stored time of the next run are left out. *)
From S2P Require Import Prelude GoStr.
Open Scope nat_scope.

(** The part of a job record the schedule depends on. *)
Record Job := { Enabled : bool; Handler : gostring; Schedule : gostring; Metadata : gostring }.
#[export] Instance Job_eq_dec : EqDecision Job.
Proof. solve_decision. Defined.

(** What the environment answers: the call succeeds, fails, or [computeNextRunAt] finds a next run or none. *)
Inductive answer := Fine | Failed | NextRun | NoNextRun.

(** ** Threads *)
Inductive owner := StartOwner | WorkerOwner.
(** Where an invocation of [runJob] is. *)
Inductive run_pc :=
| RBegin                 (** before its first critical section *)
| RLoad                  (** counted, about to read the record *)
| RRemove                (** read a disabled record, about to remove the entry *)
| RClaim (job : Job)     (** about to take the running mark *)
| RHandler               (** running the handler *)
| RUpdate                (** about to store the run and to announce the change *)
| RUnmark                (** about to delete the running mark *)
| RLeave.                (** about to be counted out *)
Inductive thread :=
| TWriter (name : gostring)                      (** a record has changed, about to call [RefreshJob] *)
| TReload                                        (** [Start]: about to list the enabled records *)
| TJobs (jobs : list (gostring * Job))           (** [Start]: records still to schedule *)
| TCheck                                         (** [Start]: about to look for changes that came in meanwhile *)
| TRefresh (o : owner) (current : option (gostring * option Job)) (rest : list gostring)
                                                 (** [refreshPending]: a record just read, names still to read *)
| TFailed                                        (** [Start]: about to call [Stop] *)
| TEnded                                         (** [Start]: about to be counted out *)
| TWait                                          (** the refresh worker between two rounds *)
| TTake                                          (** the refresh worker: about to take the pending names *)
| TRun (name : gostring) (pc : run_pc)
| TStopper (scheduler_done : bool)               (** the goroutine of [Stop] *)
| TDone.

#[export] Instance owner_eq_dec : EqDecision owner.
Proof. solve_decision. Defined.
#[export] Instance run_pc_eq_dec : EqDecision run_pc.
Proof. solve_decision. Defined.
#[export] Instance thread_eq_dec : EqDecision thread.
Proof. solve_decision. Defined.

Record manager := {
  handlers : gset gostring;
  entries : gmap gostring gostring;
  running : gset gostring;
  started : bool;
  stopped : bool;
  ctx_ended : bool;
  scheduling : bool;
  stop_called : bool;
  finished : bool;
  pendingJobs : gset gostring;
  refreshWake : bool;
  workers : nat;
  threads : list thread;
  db : gmap gostring Job;
  (** Bookkeeping of the model: the record each entry was last set from and whether it gave one,
      the names whose last refresh failed, those whose entry an invocation removed although the
      record is enabled again. *)
  applied : gmap gostring (Job * bool);
  failed : gset gostring;
  dropped : gset gostring
}.
Definition NewManager (records : gmap gostring Job) : manager :=
  {| handlers := ∅; entries := ∅; running := ∅; started := false; stopped := false; ctx_ended := false; scheduling := false;
     stop_called := false; finished := false; pendingJobs := ∅; refreshWake := false; workers := 0; threads := []; db := records;
     applied := ∅; failed := ∅; dropped := ∅ |}.

(** ** Updates *)
Definition put_threads (l : list thread) (s : manager) : manager :=
  {| handlers := handlers s; entries := entries s; running := running s; started := started s; stopped := stopped s;
     ctx_ended := ctx_ended s; scheduling := scheduling s; stop_called := stop_called s; finished := finished s;
     pendingJobs := pendingJobs s; refreshWake := refreshWake s; workers := workers s; threads := l; db := db s;
     applied := applied s; failed := failed s; dropped := dropped s |}.
Definition goto (t : nat) (th : thread) (s : manager) : manager := put_threads (<[t := th]> (threads s)) s.
Definition spawn (th : thread) (s : manager) : manager := put_threads (threads s ++ [th]) s.
Definition set_workers (n : nat) (s : manager) : manager :=
  {| handlers := handlers s; entries := entries s; running := running s; started := started s; stopped := stopped s;
     ctx_ended := ctx_ended s; scheduling := scheduling s; stop_called := stop_called s; finished := finished s;
     pendingJobs := pendingJobs s; refreshWake := refreshWake s; workers := n; threads := threads s; db := db s;
     applied := applied s; failed := failed s; dropped := dropped s |}.
Definition set_pending (p : gset gostring) (wake : bool) (s : manager) : manager :=
  {| handlers := handlers s; entries := entries s; running := running s; started := started s; stopped := stopped s;
     ctx_ended := ctx_ended s; scheduling := scheduling s; stop_called := stop_called s; finished := finished s;
     pendingJobs := p; refreshWake := wake; workers := workers s; threads := threads s; db := db s;
     applied := applied s; failed := failed s; dropped := dropped s |}.
Definition set_running (r : gset gostring) (s : manager) : manager :=
  {| handlers := handlers s; entries := entries s; running := r; started := started s; stopped := stopped s;
     ctx_ended := ctx_ended s; scheduling := scheduling s; stop_called := stop_called s; finished := finished s;
     pendingJobs := pendingJobs s; refreshWake := refreshWake s; workers := workers s; threads := threads s; db := db s;
     applied := applied s; failed := failed s; dropped := dropped s |}.
Definition set_schedule (e : gmap gostring gostring) (a : gmap gostring (Job * bool)) (f d : gset gostring) (s : manager) : manager :=
  {| handlers := handlers s; entries := e; running := running s; started := started s; stopped := stopped s;
     ctx_ended := ctx_ended s; scheduling := scheduling s; stop_called := stop_called s; finished := finished s;
     pendingJobs := pendingJobs s; refreshWake := refreshWake s; workers := workers s; threads := threads s; db := db s;
     applied := a; failed := f; dropped := d |}.
Definition set_db (records : gmap gostring Job) (s : manager) : manager :=
  {| handlers := handlers s; entries := entries s; running := running s; started := started s; stopped := stopped s;
     ctx_ended := ctx_ended s; scheduling := scheduling s; stop_called := stop_called s; finished := finished s;
     pendingJobs := pendingJobs s; refreshWake := refreshWake s; workers := workers s; threads := threads s; db := records;
     applied := applied s; failed := failed s; dropped := dropped s |}.
Definition set_flags (start stop ctx sched called fin : bool) (s : manager) : manager :=
  {| handlers := handlers s; entries := entries s; running := running s; started := start; stopped := stop;
     ctx_ended := ctx; scheduling := sched; stop_called := called; finished := fin;
     pendingJobs := pendingJobs s; refreshWake := refreshWake s; workers := workers s; threads := threads s; db := db s;
     applied := applied s; failed := failed s; dropped := dropped s |}.
Definition RegisterHandler (name : gostring) (s : manager) : manager :=
  {| handlers := {[name]} ∪ handlers s; entries := entries s; running := running s; started := started s; stopped := stopped s;
     ctx_ended := ctx_ended s; scheduling := scheduling s; stop_called := stop_called s; finished := finished s;
     pendingJobs := pendingJobs s; refreshWake := refreshWake s; workers := workers s; threads := threads s; db := db s;
     applied := applied s; failed := failed s; dropped := dropped s |}.

(** ** Operations *)
Definition RefreshJob (name : gostring) (s : manager) : manager :=
  if stopped s then s else set_pending ({[name]} ∪ pendingJobs s) true s.
(** The changes of a record that are announced: the upsert of a checked request, disabling, deletion. *)
Definition validateUpsertRequest (name : gostring) (job : Job) : res unit :=
  if bool_decide (name = []) then Err §"cron job name is empty"
  else if bool_decide (Handler job = []) then Err §"cron job handler is empty"
  else if bool_decide (Schedule job = []) then Err §"cron job schedule is empty"
  else Ok tt.
Definition disable (job : Job) : Job :=
  {| Enabled := false; Handler := Handler job; Schedule := Schedule job; Metadata := Metadata job |}.
Inductive change := Upsert (job : Job) | Disable | Delete.
Definition change_record (name : gostring) (c : change) (s : manager) : option manager :=
  match c with
  | Upsert job => match validateUpsertRequest name job with Ok _ => Some (set_db (<[name := job]> (db s)) s) | _ => None end
  | Disable => match db s !! name with Some job => Some (set_db (<[name := disable job]> (db s)) s) | None => None end
  | Delete => match db s !! name with Some _ => Some (set_db (delete name (db s)) s) | None => None end
  end.
(** [removeEntry]; whose entry it may be is decided by the caller. *)
Definition removeEntry (name : gostring) (s : manager) : manager :=
  set_schedule (delete name (entries s)) (delete name (applied s)) (failed s) (dropped s) s.
Definition scheduleJob (name : gostring) (job : Job) (next : answer) (s : manager) : manager :=
  if negb (started s) || stopped s || ctx_ended s then s
  else
    let s := removeEntry name s in
    let settle (e : gmap gostring gostring) (ok : bool) (s : manager) :=
      set_schedule e (<[name := (job, ok)]> (applied s)) (failed s ∖ {[name]}) (dropped s ∖ {[name]}) s in
    if negb (Enabled job) then settle (entries s) false s
    else if negb (bool_decide (Handler job ∈ handlers s)) then settle (entries s) false s
    else match next with
         | NextRun => settle (<[name := Schedule job]> (entries s)) true s
         | NoNextRun => settle (entries s) false s
         | _ => set_schedule (entries s) (applied s) ({[name]} ∪ failed s) (dropped s) s
         end.
Definition enabled_jobs (s : manager) : list (gostring * Job) :=
  filter (λ p, Enabled p.2 = true) (map_to_list (db s)).
Definition Stop (s : manager) : manager :=
  if stop_called s then s
  else spawn (TStopper false) (set_pending ∅ (refreshWake s)
         (set_flags false true true (scheduling s) true (finished s) s)).
(** [Start] before its first unlock; a second call only waits for the result of the first. *)
Definition Start (s : manager) : option manager :=
  if stopped s || started s then None
  else Some (spawn TReload (set_workers (workers s + 1) (set_flags true false (ctx_ended s) (scheduling s) (stop_called s) (finished s) s))).

(** One step of [refreshPending] and what follows it. *)
Definition after_refresh (o : owner) : thread := match o with StartOwner => TCheck | WorkerOwner => TWait end.
Definition refresh_step (t : nat) (o : owner) (current : option (gostring * option Job)) (rest : list gostring) (a : answer) (s : manager)
  : option manager :=
  match current with
  | Some (name, None) => Some (goto t (TRefresh o None rest) (removeEntry name s))
  | Some (name, Some job) => Some (goto t (TRefresh o None rest) (scheduleJob name job a s))
  | None =>
    match rest with
    | [] => Some (goto t (after_refresh o) s)
    | name :: rest =>
      if ctx_ended s then Some (goto t (after_refresh o) s)
      else match a with
           | Fine => Some (goto t (TRefresh o (Some (name, db s !! name)) rest) s)
           | Failed => Some (goto t (TRefresh o None rest)
                               (set_schedule (entries s) (applied s) ({[name]} ∪ failed s) (dropped s) s))
           | _ => None
           end
    end
  end.
(** An invocation of [runJob]. *)
Definition run_step (t : nat) (name : gostring) (pc : run_pc) (a : answer) (s : manager) : option manager :=
  let move pc s := Some (goto t (TRun name pc) s) in
  match pc with
  | RBegin =>
    if negb (started s) || stopped s || ctx_ended s then Some (goto t TDone s)
    else move RLoad (set_workers (workers s + 1) s)
  | RLoad =>
    match a with
    | Failed => move RLeave s
    | Fine => match db s !! name with
              | None => move RLeave s
              | Some job => if Enabled job then move (RClaim job) s else move RRemove s
              end
    | _ => None
    end
  | RRemove =>
    let enabled_again := match db s !! name with Some job => Enabled job | None => false end in
    move RLeave (set_schedule (delete name (entries s)) (delete name (applied s)) (failed s)
                   (if enabled_again then {[name]} ∪ dropped s else dropped s) s)
  | RClaim job =>
    if stopped s || ctx_ended s then move RLeave s
    else if bool_decide (name ∈ running s) then move RLeave s
    else if negb (bool_decide (Handler job ∈ handlers s)) then move RLeave s
    else move RHandler (set_running ({[name]} ∪ running s) s)
  | RHandler => move RUpdate s
  | RUpdate => move RUnmark (RefreshJob name s)
  | RUnmark => move RLeave (set_running (running s ∖ {[name]}) s)
  | RLeave => Some (goto t TDone (set_workers (workers s - 1) s))
  end.
Definition is_run (th : thread) : bool := match th with TRun _ _ => true | _ => false end.
Definition thread_step (t : nat) (th : thread) (a : answer) (s : manager) : option manager :=
  match th with
  | TWriter name => Some (goto t TDone (RefreshJob name s))
  | TReload =>
    match a with
    | Failed => Some (goto t TFailed s)
    | Fine => Some (goto t (TJobs (enabled_jobs s)) s)
    | _ => None
    end
  | TJobs [] => Some (goto t TCheck s)
  | TJobs ((name, job) :: jobs) => Some (goto t (TJobs jobs) (scheduleJob name job a s))
  | TCheck =>
    if ctx_ended s || stopped s then Some (goto t TFailed s)
    else if bool_decide (pendingJobs s = ∅) then
      Some (spawn TWait (goto t TEnded (set_workers (workers s + 1)
              (set_flags (started s) (stopped s) (ctx_ended s) true (stop_called s) (finished s) s))))
    else Some (goto t (TRefresh StartOwner None (elements (pendingJobs s))) (set_pending ∅ (refreshWake s) s))
  | TRefresh o current rest => refresh_step t o current rest a s
  | TFailed => Some (Stop (goto t TEnded s))
  | TEnded => Some (goto t TDone (set_workers (workers s - 1) s))
  | TWait =>
    match a with
    | Failed => if ctx_ended s then Some (goto t TDone (set_workers (workers s - 1) s)) else None
    | Fine => if refreshWake s then Some (goto t TTake (set_pending (pendingJobs s) false s)) else None
    | _ => None
    end
  | TTake => Some (goto t (TRefresh WorkerOwner None (elements (pendingJobs s))) (set_pending ∅ (refreshWake s) s))
  | TRun name pc => run_step t name pc a s
  | TStopper false => if existsb is_run (threads s) then None else Some (goto t (TStopper true) s)
  | TStopper true =>
    if bool_decide (workers s = 0)
    then Some (goto t TDone (set_flags (started s) (stopped s) (ctx_ended s) (scheduling s) (stop_called s) true s)) else None
  | TDone => None
  end.

(** ** The system *)
Inductive action :=
| AChange (name : gostring) (c : change)      (** a record changes; its announcement is a thread *)
| ARegister (name : gostring)
| AStart
| AStop
| ACancel                                     (** the context of [Start] ends *)
| AFire (name : gostring)                     (** the scheduler starts an entry *)
| AStep (t : nat) (a : answer).
Definition mexec (x : action) (s : manager) : option manager :=
  match x with
  | AChange name c => spawn (TWriter name) <$> change_record name c s
  | ARegister name => Some (RegisterHandler name s)
  | AStart => Start s
  | AStop => Some (Stop s)
  | ACancel => if started s then Some (set_flags (started s) (stopped s) true (scheduling s) (stop_called s) (finished s) s) else None
  | AFire name =>
    if scheduling s && negb (stop_called s) && bool_decide (is_Some (entries s !! name)) then Some (spawn (TRun name RBegin) s) else None
  | AStep t a => match threads s !! t with Some th => thread_step t th a s | None => None end
  end.
Fixpoint mrun (l : list action) (s : manager) : option manager :=
  match l with [] => Some s | x :: l => match mexec x s with Some s => mrun l s | None => None end end.
Inductive reachable (records : gmap gostring Job) : manager → Prop :=
| reach_new : reachable records (NewManager records)
| reach_step x s s' : reachable records s → mexec x s = Some s' → reachable records s'.
