(* ===== verification/CronManagerProps.v ===== *)
(** * Theorems on the scheduler of background jobs (CronManager.v) *)
From S2P Require Import Prelude Counting GoStr CronManager.
Open Scope nat_scope.

(** ** What the operations leave alone *)
Lemma scheduleJob_frame name job a s : ∃ e ap f d, scheduleJob name job a s = set_schedule e ap f d s.
Proof.
  unfold scheduleJob. destruct (_ || _ || _).
  - exists (entries s), (applied s), (failed s), (dropped s). by destruct s.
  - cbv zeta. repeat case_match; by do 4 eexists.
Qed.
Lemma RefreshJob_frame name s : ∃ p w, RefreshJob name s = set_pending p w s.
Proof. unfold RefreshJob. destruct (stopped s); [exists (pendingJobs s), (refreshWake s); by destruct s|by do 2 eexists]. Qed.
Lemma change_frame name c s s' : change_record name c s = Some s' → ∃ r, s' = set_db r s.
Proof. unfold change_record. destruct c; repeat case_match; intros [= <-]; by eexists. Qed.

(** Replace the operations by the fields they set. *)
Ltac frames :=
  repeat match goal with
  | |- context [scheduleJob ?n ?j ?a ?s] =>
    let E := fresh in destruct (scheduleJob_frame n j a s) as (? & ? & ? & ? & E); rewrite E; clear E
  | |- context [RefreshJob ?n ?s] => let E := fresh in destruct (RefreshJob_frame n s) as (? & ? & E); rewrite E; clear E
  end.

(** The kinds of threads. *)
Definition counted (th : thread) : bool :=
  match th with
  | TReload | TJobs _ | TCheck | TRefresh _ _ _ | TFailed | TEnded | TWait | TTake => true
  | TRun _ RBegin => false
  | TRun _ _ => true
  | _ => false
  end.
Definition refresher (th : thread) : bool :=
  match th with TReload | TJobs _ | TCheck | TRefresh _ _ _ | TFailed | TWait | TTake => true | _ => false end.
Definition marked (n : gostring) (th : thread) : bool :=
  match th with TRun m (RHandler | RUpdate | RUnmark) => bool_decide (m = n) | _ => false end.

Record counts (s : manager) : Prop := {
  ct_workers : workers s = cnt counted (threads s);
  ct_refresher : cnt refresher (threads s) ≤ b2n (started s || stopped s);
  ct_running : ∀ n, cnt (marked n) (threads s) = b2n (bool_decide (n ∈ running s))
}.
(** A step of one thread that moves on and leaves the rest of the bookkeeping. *)
Lemma counts_goto t x y s s' : counts s → threads s !! t = Some x →
  threads s' = <[t := y]> (threads s) → started s' || stopped s' = started s || stopped s →
  workers s' + b2n (counted x) = workers s + b2n (counted y) →
  (refresher x = false → refresher y = false) →
  (∀ n, b2n (bool_decide (n ∈ running s')) + b2n (marked n x) = b2n (bool_decide (n ∈ running s)) + b2n (marked n y)) →
  counts s'.
Proof.
  intros [W R M] E T F Hw Hr Hm. split; rewrite T.
  - pose proof (cnt_insert counted _ _ _ y E). lia.
  - pose proof (cnt_insert refresher _ _ _ y E). rewrite F. destruct (refresher x), (refresher y); cbn in *; try lia; by specialize (Hr eq_refl).
  - intros n. pose proof (cnt_insert (marked n) _ _ _ y E). specialize (M n). specialize (Hm n). lia.
Qed.
Lemma counts_spawn x s s' : counts s → threads s' = threads s ++ [x] → started s' || stopped s' = started s || stopped s →
  counted x = false → refresher x = false → (∀ n, marked n x = false) → workers s' = workers s → running s' = running s → counts s'.
Proof.
  intros [W R M] T F C1 C2 C3 W' R'. split; rewrite T, ?cnt_app, ?cnt_one, ?C1, ?C2, ?F, ?W', ?R'; cbn; try lia.
  intros n. rewrite cnt_app, cnt_one, C3, (M n). cbn. lia.
Qed.
Lemma counts_same s s' : counts s → threads s' = threads s → started s' || stopped s' = started s || stopped s →
  workers s' = workers s → running s' = running s → counts s'.
Proof. intros [W R M] T F W' R'. split; rewrite T, ?F, ?W'; try done. intros n. by rewrite R'. Qed.
Lemma counts_stop s : counts s → counts (Stop s).
Proof.
  intros C. unfold Stop. destruct (stop_called s); [done|]. destruct C as [W R M]. split; cbn; rewrite ?cnt_app, ?cnt_one; cbn.
  - lia.
  - destruct (started s || stopped s); cbn in R; lia.
  - intros n. rewrite cnt_app, cnt_one. cbn. rewrite (M n). lia.
Qed.

Ltac same_flags := cbn; by rewrite ?orb_true_r.
Lemma counts_run_step t name pc a s s' : counts s → threads s !! t = Some (TRun name pc) → run_step t name pc a s = Some s' → counts s'.
Proof.
  intros C E. assert (Nr : ∀ pc', marked name (TRun name pc') = match pc' with RHandler | RUpdate | RUnmark => true | _ => false end)
    by (intros []; cbn; by rewrite ?bool_decide_eq_true_2).
  assert (W : 0 < cnt counted (threads s) ∨ pc = RBegin).
  { destruct pc; try (by right); left; destruct (cnt counted (threads s)) eqn:Z; try lia; rewrite cnt_zero in Z;
      specialize (Z _ ltac:(by eapply list_elem_of_lookup_2)); done. }
  rewrite <- (ct_workers s C) in W.
  unfold run_step. intros Q.
  destruct pc; repeat case_in Q; try done; injection Q as <-; frames;
    (eapply (counts_goto t); [exact C|exact E|reflexivity|same_flags|cbn; destruct W; try done; lia|done|]); intros n; cbn; try lia.
  - match goal with H : bool_decide (name ∈ running s) = false |- _ => apply bool_decide_eq_false in H end.
    destruct (decide (name = n)) as [->|N].
    + rewrite (bool_decide_eq_true_2 (n ∈ _)), (bool_decide_eq_false_2 (n ∈ _)), (bool_decide_eq_true_2 (n = n)); [done|done|done|set_solver].
    + rewrite (bool_decide_eq_false_2 (name = n)) by done. f_equal. f_equal. apply bool_decide_ext. set_solver.
  - destruct (decide (name = n)) as [->|N].
    + assert (I : n ∈ running s).
      { pose proof (ct_running s C n) as K. destruct (decide (n ∈ running s)); [done|]. rewrite bool_decide_eq_false_2, cnt_zero in K by done.
        specialize (K _ ltac:(by eapply list_elem_of_lookup_2)). cbn in K. by rewrite bool_decide_eq_true_2 in K. }
      rewrite (bool_decide_eq_false_2 (n ∈ _ ∖ _)), (bool_decide_eq_true_2 (n ∈ _)), (bool_decide_eq_true_2 (n = n)); [done|done|done|set_solver].
    + rewrite (bool_decide_eq_false_2 (name = n)) by done. f_equal. f_equal. apply bool_decide_ext. set_solver.
Qed.

Lemma counted_pos s t th : counts s → threads s !! t = Some th → counted th = true → 0 < workers s.
Proof.
  intros C E K. rewrite (ct_workers s C). destruct (cnt counted (threads s)) eqn:Z; [|lia]. rewrite cnt_zero in Z.
  rewrite Z in K; [done|by eapply list_elem_of_lookup_2].
Qed.
Lemma counts_thread_step t th a s s' : counts s → threads s !! t = Some th → thread_step t th a s = Some s' → counts s'.
Proof.
  intros C E. destruct th as [name| |jobs| |o cur rest| | | | |name pc|b|].
  all: try (pose proof (counted_pos s t _ C E eq_refl) as P).
  all: try lazymatch goal with |- thread_step _ (TRun _ _) _ _ = _ → _ => intros Q; exact (counts_run_step _ _ _ _ _ _ C E Q) end.
  all: unfold thread_step, refresh_step; intros Q; repeat case_in Q; try done; injection Q as <-; frames.
  all: try (destruct o); try lazymatch goal with |- counts (Stop _) => apply counts_stop end.
  all: try (by (eapply (counts_goto t); [exact C|exact E|reflexivity|same_flags|cbn; lia|done|]; intros n; cbn; lia)).
  (* the refresh worker is created *)
  destruct C as [W R M]. split; cbn; rewrite ?cnt_app, ?cnt_one.
  - pose proof (cnt_insert counted _ _ _ TEnded E) as I. cbn in I. cbn. lia.
  - pose proof (cnt_insert refresher _ _ _ TEnded E) as I. cbn in I. cbn. lia.
  - intros n. rewrite cnt_app, cnt_one. pose proof (cnt_insert (marked n) _ _ _ TEnded E) as I. cbn in I. cbn. specialize (M n). lia.
Qed.
Lemma counts_exec x s s' : counts s → mexec x s = Some s' → counts s'.
Proof.
  intros C. destruct x as [name c|name| | | |name|t a]; cbn [mexec].
  - destruct (change_record name c s) as [s1|] eqn:E; [|done]. intros [= <-]. apply change_frame in E as [r ->].
    by eapply (counts_spawn (TWriter name)).
  - intros [= <-]. by eapply counts_same.
  - unfold Start. destruct (stopped s || started s) eqn:F; [done|]. intros [= <-]. destruct C as [W R M].
    rewrite orb_comm in F. rewrite F in R. cbn in R. split; cbn; rewrite ?cnt_app, ?cnt_one; cbn; try lia.
    intros n. rewrite cnt_app, cnt_one, (M n). cbn. lia.
  - intros [= <-]. by apply counts_stop.
  - destruct (started s) eqn:F; [|done]. intros [= <-]. eapply counts_same; try done. cbn. by rewrite F.
  - destruct (_ && _); [|done]. intros [= <-]. by eapply (counts_spawn (TRun name RBegin)).
  - destruct (threads s !! t) eqn:E; [|done]. by apply counts_thread_step.
Qed.
Lemma counts_reachable records s : reachable records s → counts s.
Proof.
  induction 1 as [|x s s' _ IH X]; [|by eapply counts_exec]. split; cbn; unfold cnt; cbn; try lia. intros n.
  by rewrite bool_decide_eq_false_2 by set_solver.
Qed.

(** A job never runs twice at a time: whatever the scheduler fires, at most one invocation of a name is
    between the start of its handler and its final bookkeeping, and then the name is marked as running. *)
Lemma cron_runs_are_exclusive records s i j name pi pj
  (Hs : reachable records s) (Hi : threads s !! i = Some (TRun name pi)) (Hj : threads s !! j = Some (TRun name pj))
  (Mi : marked name (TRun name pi) = true) (Mj : marked name (TRun name pj) = true) : i = j ∧ name ∈ running s.
Proof.
  apply counts_reachable in Hs. pose proof (ct_running s Hs name) as M. split.
  - eapply (cnt_one_inv (marked name)); [|done..]. rewrite M. destruct (bool_decide _); cbn; lia.
  - destruct (decide (name ∈ running s)); [done|]. rewrite bool_decide_eq_false_2, cnt_zero in M by done.
    rewrite M in Mi; [done|by eapply list_elem_of_lookup_2].
Qed.

(** * The schedule follows the records, and stopping waits for every invocation (CronManager.v) *)
(** ** Stopping *)
Record halts (s : manager) : Prop := {
  h_called : stop_called s = stopped s;
  h_stopped : stopped s = true → started s = false ∧ ctx_ended s = true;
  h_stopper : ∀ b, TStopper b ∈ threads s → stopped s = true;
  h_quiet : TStopper true ∈ threads s → ∀ th, th ∈ threads s → is_run th = false;
  h_finished : finished s = true → stopped s = true ∧ ∀ th, th ∈ threads s → is_run th = false ∧ counted th = false
}.
Lemma halts_goto t x y s s' : halts s → threads s !! t = Some x → threads s' = <[t := y]> (threads s) →
  stop_called s' = stop_called s → stopped s' = stopped s → started s' = started s → (ctx_ended s = true → ctx_ended s' = true) →
  finished s' = finished s → (is_run y = true → is_run x = true) →
  (counted y = true → counted x = true ∨ stopped s = false) → (∀ b, y = TStopper b → ∃ b', x = TStopper b') →
  (y = TStopper true → ∀ th, th ∈ threads s → is_run th = false) → halts s'.
Proof.
  intros [C S T Q F] E L C' S' St Ct Fi R K Tb Tq.
  assert (I : x ∈ threads s) by (by eapply list_elem_of_lookup_2).
  split; rewrite ?L, ?C', ?S', ?St, ?Fi; try done.
  - intros H. destruct (S H). auto.
  - intros b [Eb|Ib]%elem_insert_inv; [|by eapply T]. destruct (Tb b (eq_sym Eb)) as [b' ->]. by eapply T.
  - intros H th Hth. assert (Z : ∀ th, th ∈ threads s → is_run th = false).
    { apply elem_insert_inv in H as [H|H]; [by apply Tq|by apply Q]. }
    apply elem_insert_inv in Hth as [->|Hth]; [|by apply Z]. apply not_true_iff_false. intros Ey. specialize (R Ey). by rewrite Z in R.
  - intros H. destruct (F H) as [Hs Z]. split; [done|]. intros th [->|Hth]%elem_insert_inv; [|by apply Z].
    destruct (Z x I) as [Z1 Z2]. split.
    + apply not_true_iff_false. intros Ey. specialize (R Ey). congruence.
    + apply not_true_iff_false. intros Ey. destruct (K Ey); congruence.
Qed.
Lemma halts_spawn x s s' : halts s → threads s' = threads s ++ [x] →
  stop_called s' = stop_called s → stopped s' = stopped s → (stopped s = true → started s' = false) → ctx_ended s' = ctx_ended s →
  finished s' = finished s → (is_run x = true ∨ counted x = true → stopped s = false) → (∀ b, x = TStopper b → False) → halts s'.
Proof.
  intros [C S T Q F] L C' S' St Ct Fi R B. split; rewrite ?L, ?C', ?S', ?Ct, ?Fi; try done.
  - intros H. destruct (S H). auto.
  - intros b [Ib|Ib%list_elem_of_singleton]%elem_of_app; [by eapply T|]. by destruct (B b).
  - intros [H|H%list_elem_of_singleton]%elem_of_app th Hth; [|by destruct (B true)].
    apply elem_of_app in Hth as [Hth|Hth%list_elem_of_singleton]; [by apply Q|subst th].
    apply not_true_iff_false. intros Ex. specialize (T _ H). rewrite R in T; [done|by auto].
  - intros H. destruct (F H) as [Hs Z]. split; [done|]. intros th [Hth|Hth%list_elem_of_singleton]%elem_of_app; [by apply Z|subst th].
    split; apply not_true_iff_false; intros Ex; (rewrite R in Hs; [done|by auto]).
Qed.
Lemma halts_stop s : halts s → halts (Stop s).
Proof.
  intros H. unfold Stop. destruct (stop_called s) eqn:E; [exact H|]. destruct H as [C S T Q F]. split; cbn; try done.
  - intros [H|H%list_elem_of_singleton]%elem_of_app th Hth; [|done]. specialize (T _ H). congruence.
  - intros H. destruct (F H) as [Hs _]. congruence.
Qed.
Lemma halts_run_step t name pc a s s' : halts s → threads s !! t = Some (TRun name pc) → run_step t name pc a s = Some s' → halts s'.
Proof.
  intros H E. unfold run_step. intros Q. destruct pc; repeat case_in Q; try done; injection Q as <-; frames;
    (eapply (halts_goto t); [exact H|exact E|reflexivity|reflexivity|reflexivity|reflexivity|done|reflexivity|done|cbn; try (by left)|done|done]).
  all: intros _; right; propify; tauto.
Qed.
Lemma halts_thread_step t th a s s' : counts s → halts s → threads s !! t = Some th → thread_step t th a s = Some s' → halts s'.
Proof.
  intros Ct H E. destruct th as [name| |jobs| |o cur rest| | | | |name pc|b|].
  all: try lazymatch goal with |- thread_step _ (TRun _ _) _ _ = _ → _ => intros Q; exact (halts_run_step _ _ _ _ _ _ H E Q) end.
  all: unfold thread_step, refresh_step; intros Q; repeat case_in Q; try done; injection Q as <-; frames.
  all: try (destruct o); try lazymatch goal with |- halts (Stop _) => apply halts_stop end.
  all: try (by (eapply (halts_goto t); [exact H|exact E|reflexivity|reflexivity|reflexivity|reflexivity|done|reflexivity|done|by left|done|done])).
  - assert (St : stopped s = false) by (propify; tauto).
    eapply (halts_spawn TWait (goto t TEnded s)); try done.
    + by (eapply (halts_goto t); [exact H|exact E|reflexivity|reflexivity|reflexivity|reflexivity|done|reflexivity|done|by left|done|done]).
    + intros Hs. cbn in Hs. congruence.
  - (* the last goroutine of Stop is done *)
    assert (I : TStopper true ∈ threads s) by (by eapply list_elem_of_lookup_2).
    match goal with Hw : bool_decide (workers s = 0) = true |- _ => apply bool_decide_eq_true in Hw; rename Hw into W0 end.
    rewrite (ct_workers s Ct), cnt_zero in W0.
    destruct H as [C S T Q F]. assert (St : stopped s = true) by (by eapply T). split; cbn; try done.
    + intros _ th [->|Hth]%elem_insert_inv; [done|by apply Q].
    + intros _. split; [done|]. intros th [->|Hth]%elem_insert_inv; [done|]. split; [by apply Q|by apply W0].
  - eapply (halts_goto t); [exact H|exact E|reflexivity|reflexivity|reflexivity|reflexivity|done|reflexivity|done|by left|by eexists|].
    intros _ th Hth. match goal with He : existsb is_run (threads s) = false |- _ => rename He into Ex end.
    apply not_true_iff_false. intros R. apply not_true_iff_false in Ex. apply Ex, existsb_exists. exists th. split; [by apply list_elem_of_In|done].
Qed.
Lemma halts_exec x s s' : counts s → halts s → mexec x s = Some s' → halts s'.
Proof.
  intros Ct H. destruct x as [name c|name| | | |name|t a]; cbn [mexec].
  - destruct (change_record name c s) as [s1|] eqn:E; [|done]. intros [= <-]. apply change_frame in E as [r ->].
    eapply (halts_spawn (TWriter name)); try done; [|by intros [|]]. intros Hs. by destruct (h_stopped s H Hs).
  - intros [= <-]. by destruct H.
  - unfold Start. destruct (stopped s || started s) eqn:F; [done|]. apply orb_false_iff in F as [F1 F2]. intros [= <-].
    eapply (halts_spawn TReload); try done. cbn. congruence.
  - intros [= <-]. by apply halts_stop.
  - destruct (started s) eqn:F; [|done]. intros [= <-]. destruct H as [C S T Q Fi]. split; cbn; try done.
    intros Hs. destruct (S Hs). congruence.
  - destruct (scheduling s && negb (stop_called s) && _) eqn:F; [|done]. intros [= <-].
    apply andb_true_iff in F as [F _]. apply andb_true_iff in F as [_ F]. apply negb_true_iff in F. rewrite (h_called s H) in F.
    eapply (halts_spawn (TRun name RBegin)); try done. intros Hs. congruence.
  - destruct (threads s !! t) eqn:E; [|done]. by apply halts_thread_step.
Qed.
Lemma halts_reachable records s : reachable records s → halts s.
Proof.
  induction 1 as [|x s s' R IH X]; [|eapply halts_exec; [by eapply counts_reachable|done|done]].
  split; cbn; try done; intros; by match goal with H : _ ∈ [] |- _ => inversion H end.
Qed.

(** C23: [Stop] ends everything: once it reports completion, no invocation of a job is left, not even one
    the scheduler had fired but that had not begun, nor the caller of [Start] or the refresh worker, and
    from then on nothing the manager does starts one again. *)
Theorem cron_stop_is_final records s s' l
  (Hs : reachable records s) (Hf : finished s = true) (Hl : mrun l s = Some s') :
  finished s' = true ∧ ∀ th, th ∈ threads s' → is_run th = false ∧ counted th = false.
Proof.
  assert (Step : ∀ x s1 s2, finished s1 = true → mexec x s1 = Some s2 → finished s2 = true).
  { intros x s1 s2 F X. destruct x as [name c|name| | | |name|t a]; cbn [mexec] in X.
    - destruct (change_record name c s1) as [s3|] eqn:E; [|done]. apply change_frame in E as [r ->]. by injection X as <-.
    - by injection X as <-.
    - unfold Start in X. destruct (_ || _); [done|]. by injection X as <-.
    - injection X as <-. unfold Stop. by destruct (stop_called s1).
    - destruct (started s1); [|done]. by injection X as <-.
    - destruct (_ && _); [|done]. by injection X as <-.
    - destruct (threads s1 !! t) as [th|]; [|done]. unfold thread_step, refresh_step, run_step, Stop in X.
      destruct th; repeat case_in X; try done; injection X as <-; frames; done. }
  assert (G : reachable records s' ∧ finished s' = true).
  { revert s Hs Hf Hl. induction l as [|x l IH]; intros s Hs Hf Hl; cbn in Hl; [by injection Hl as <-|].
    destruct (mexec x s) as [s1|] eqn:X; [|done]. eapply IH; [|by eapply Step|done]. by eapply reach_step. }
  destruct G as [R F]. split; [done|]. apply halts_reachable in R. by apply (h_finished s' R).
Qed.

(** ** The schedule follows the records *)
(** The manager runs: started, its context not ended. *)
Definition live (s : manager) : Prop := started s = true ∧ ctx_ended s = false.
(** The entry of a name is the one its record asks for: set from the very record when it is enabled,
    none when it is not. *)
Definition up_to_date (s : manager) (n : gostring) : Prop :=
  match db s !! n with
  | Some job => if Enabled job then ∃ b, applied s !! n = Some (job, b) else entries s !! n = None
  | None => entries s !! n = None
  end.
Definition settled (s : manager) (n : gostring) : Prop := n ∈ failed s ∨ n ∈ dropped s ∨ up_to_date s n.
(** A change is announced and not yet taken up, or about to be announced. *)
Definition noted (s : manager) (n : gostring) : Prop := n ∈ pendingJobs s ∨ TWriter n ∈ threads s.
(** A thread that will still bring the entry of [n] up to the record [r]. *)
Definition covers (r : option Job) (n : gostring) (th : thread) : Prop :=
  match th with
  | TReload | TFailed => True
  | TJobs jobs => ∃ job, (n, job) ∈ jobs ∧ r = Some job
  | TRefresh _ current rest => n ∈ rest ∨ current = Some (n, r)
  | _ => False
  end.
(** What a thread read is still the record, or the change is noted. *)
Definition fresh (s : manager) (n : gostring) (th : thread) : Prop :=
  match th with
  | TJobs jobs => ∀ job, (n, job) ∈ jobs → db s !! n = Some job ∨ noted s n
  | TRefresh _ (Some (m, r)) _ => m = n → r = db s !! n ∨ noted s n
  | _ => True
  end.
Record follows (s : manager) : Prop := {
  fo_name : live s → ∀ n, settled s n ∨ noted s n ∨ ∃ th, th ∈ threads s ∧ covers (db s !! n) n th;
  fo_fresh : live s → ∀ th n, th ∈ threads s → fresh s n th;
  fo_entry : ∀ n e, entries s !! n = Some e ↔ ∃ job, applied s !! n = Some (job, true) ∧ Enabled job = true ∧ Schedule job = e;
  fo_wake : pendingJobs s ≠ ∅ → refreshWake s = true ∨ TTake ∈ threads s;
  fo_empty : (started s = false ∧ stopped s = false) ∨ TReload ∈ threads s → entries s = ∅
}.
(** What [scheduleJob] achieves while the manager runs. *)
Lemma schedule_spec m job a s : live s → stopped s = false →
  let s' := scheduleJob m job a s in
  (∀ n, n ≠ m → settled s n → settled s' n)
  ∧ (m ∈ failed s' ∨ (∃ b, applied s' !! m = Some (job, b)) ∧ (Enabled job = false → entries s' !! m = None)).
Proof.
  intros [St Cx] Sp. unfold scheduleJob. rewrite St, Cx, Sp. cbn [negb orb]. cbv zeta.
  assert (K : ∀ e ap f d n, n ≠ m → e !! n = entries s !! n → ap !! n = applied s !! n → (n ∈ failed s → n ∈ f) → (n ∈ dropped s → n ∈ d) →
    settled s n → settled (set_schedule e ap f d s) n).
  { intros e ap f d n N E A F D [H|[H|H]]; [left; by apply F|right; left; by apply D|right; right].
    revert H. unfold up_to_date. cbn. by rewrite E, A. }
  destruct (Enabled job) eqn:En; cbn [negb].
  2: { split; [intros n N; apply K; cbn; rewrite ?lookup_insert_ne, ?lookup_delete_ne by done; try done; set_solver|].
    right. cbn. split; [exists false; by rewrite lookup_insert_eq|]. intros _. by rewrite lookup_delete_eq. }
  destruct (bool_decide (Handler job ∈ handlers (removeEntry m s))); cbn [negb].
  2: { split; [intros n N; apply K; cbn; rewrite ?lookup_insert_ne, ?lookup_delete_ne by done; try done; set_solver|].
    right. cbn. split; [exists false; by rewrite lookup_insert_eq|done]. }
  destruct a; (split; [intros n N; apply K; cbn; rewrite ?lookup_insert_ne, ?lookup_delete_ne by done; try done; set_solver|]); cbn.
  - left. set_solver.
  - left. set_solver.
  - right. split; [exists true; by rewrite lookup_insert_eq|done].
  - right. split; [exists false; by rewrite lookup_insert_eq|done].
Qed.
Lemma schedule_entry m job a s :
  (∀ n e, entries s !! n = Some e ↔ ∃ job, applied s !! n = Some (job, true) ∧ Enabled job = true ∧ Schedule job = e) →
  ∀ n e, entries (scheduleJob m job a s) !! n = Some e
    ↔ ∃ job', applied (scheduleJob m job a s) !! n = Some (job', true) ∧ Enabled job' = true ∧ Schedule job' = e.
Proof.
  intros I n e. unfold scheduleJob. destruct (_ || _ || _); [apply I|]. cbv zeta.
  assert (D : ∀ (n : gostring) e, delete m (entries s) !! n = Some e ↔ ∃ job', delete m (applied s) !! n = Some (job', true) ∧ Enabled job' = true ∧ Schedule job' = e).
  { intros n' e'. destruct (decide (n' = m)) as [->|N]; [rewrite !lookup_delete_eq; naive_solver|]. rewrite !lookup_delete_ne by done. apply I. }
  assert (B : ∀ f d, ∀ n e, entries (set_schedule (delete m (entries s)) (<[m:=(job, false)]> (delete m (applied s))) f d s) !! n = Some e
    ↔ ∃ job', applied (set_schedule (delete m (entries s)) (<[m:=(job, false)]> (delete m (applied s))) f d s) !! n = Some (job', true) ∧ Enabled job' = true ∧ Schedule job' = e).
  { intros f d n' e'. cbn. destruct (decide (n' = m)) as [->|N].
    - rewrite lookup_delete_eq, lookup_insert_eq. naive_solver.
    - rewrite lookup_insert_ne by done. apply D. }
  destruct (Enabled job) eqn:En; cbn [negb]; [|apply B].
  destruct (bool_decide _); cbn [negb]; [|apply B]. destruct a; [apply D|apply D| |apply B].
  cbn. destruct (decide (n = m)) as [->|N]; [rewrite !lookup_insert_eq; naive_solver|]. rewrite !lookup_insert_ne by done. apply D.
Qed.
Lemma settled_same s s' n : db s' = db s → entries s' = entries s → applied s' = applied s → failed s' = failed s → dropped s' = dropped s →
  settled s n → settled s' n.
Proof. unfold settled, up_to_date. by intros -> -> -> -> ->. Qed.
Lemma fresh_mono s s' n th : db s' !! n = db s !! n → (noted s n → noted s' n) → fresh s n th → fresh s' n th.
Proof.
  intros D N. destruct th as [| |jobs| |o [[m r]|] rest| | | | | | |]; cbn; try done; rewrite D.
  - intros F job I. destruct (F job I); auto.
  - intros F E. destruct (F E); auto.
Qed.
(** A thread that does not keep the schedule moves on. *)
Lemma follows_other t x y s s' : follows s → threads s !! t = Some x → refresher x = false → refresher y = false →
  threads s' = <[t := y]> (threads s) → db s' = db s → started s' = started s → stopped s' = stopped s → ctx_ended s' = ctx_ended s →
  (∀ n, settled s n → settled s' n) → (entries s = ∅ → entries s' = ∅) →
  (∀ n e, entries s' !! n = Some e ↔ ∃ job, applied s' !! n = Some (job, true) ∧ Enabled job = true ∧ Schedule job = e) →
  pendingJobs s ⊆ pendingJobs s' → (refreshWake s' = true ∨ pendingJobs s' = pendingJobs s ∧ refreshWake s' = refreshWake s) →
  (∀ n, x = TWriter n → live s → n ∈ pendingJobs s') → follows s'.
Proof.
  intros [N F E W Z] L Rx Ry T D St Sp Cx Se Em Ent P Wk Wr.
  assert (Lv : live s' → live s) by (unfold live; by rewrite St, Cx).
  assert (Nm : ∀ n, live s' → noted s n → noted s' n).
  { intros n V [I|I]; [left; by apply P|]. destruct (decide (TWriter n = x)) as [<-|Nx]; [left; apply Wr; auto|].
    right. rewrite T. by eapply elem_insert_other. }
  split.
  - intros V n. destruct (N (Lv V) n) as [H|[H|(th & I & C)]]; [by left; apply Se|right; left; by apply Nm|].
    right. right. exists th. rewrite D, T. split; [|done]. eapply elem_insert_other; [exact L|done|]. intros ->. by destruct x.
  - intros V th n I. rewrite T in I. apply elem_insert_inv in I as [->|I]; [by destruct y|].
    eapply fresh_mono; [by rewrite D| |by apply F; auto]. by apply Nm.
  - exact Ent.
  - intros H. destruct Wk as [Wk|[Wp Ww]]; [by left|]. rewrite Wp in H. rewrite Ww, T. destruct (W H) as [H'|H']; [by left|right].
    eapply elem_insert_other; [exact L|done|]. by intros <-.
  - rewrite St, Sp, T. intros [H|[H|H]%elem_insert_inv]; [auto|by subst y|auto].
Qed.
Lemma follows_plain t x y s s' : follows s → threads s !! t = Some x → refresher x = false → refresher y = false →
  threads s' = <[t := y]> (threads s) → db s' = db s → entries s' = entries s → applied s' = applied s → failed s' = failed s →
  dropped s' = dropped s → started s' = started s → stopped s' = stopped s → ctx_ended s' = ctx_ended s →
  pendingJobs s ⊆ pendingJobs s' → (refreshWake s' = true ∨ pendingJobs s' = pendingJobs s ∧ refreshWake s' = refreshWake s) →
  (∀ n, x = TWriter n → live s → n ∈ pendingJobs s') → follows s'.
Proof.
  intros Fo L Rx Ry T D En Ap Fa Dr St Sp Cx P Wk Wr. eapply (follows_other t x y); try done.
  - intros n. by apply settled_same.
  - by rewrite En.
  - rewrite En, Ap. by destruct Fo.
Qed.
(** A new thread that has nothing to do with the schedule; the record of [m] may change when the change will be announced. *)
Lemma follows_spawn x s s' : follows s → refresher x = false → threads s' = threads s ++ [x] →
  (∀ n, db s' !! n = db s !! n ∨ x = TWriter n) → entries s' = entries s → applied s' = applied s → failed s' = failed s →
  dropped s' = dropped s → started s' = started s → stopped s' = stopped s → ctx_ended s' = ctx_ended s →
  pendingJobs s' = pendingJobs s → refreshWake s' = refreshWake s → follows s'.
Proof.
  intros [N F E W Z] Rx T D En Ap Fa Dr St Sp Cx P Wk.
  assert (Lv : live s' → live s) by (unfold live; by rewrite St, Cx).
  assert (Nm : ∀ n, noted s n → noted s' n).
  { intros n [I|I]; [left; by rewrite P|right; rewrite T; set_solver]. }
  assert (New : ∀ n, x = TWriter n → noted s' n) by (intros n ->; right; rewrite T; set_solver).
  split.
  - intros V n. destruct (D n) as [Dn|Xn]; [|right; left; by apply New].
    destruct (N (Lv V) n) as [H|[H|(th & I & C)]]; [left|right; left; by apply Nm|right; right; exists th; rewrite Dn, T; set_solver].
    revert H. unfold settled, up_to_date. by rewrite Dn, En, Ap, Fa, Dr.
  - intros V th n I. rewrite T in I. apply elem_of_app in I as [I|I%list_elem_of_singleton]; [|subst th; by destruct x].
    destruct (D n) as [Dn|Xn].
    + eapply fresh_mono; [done|by apply Nm|by apply F; auto].
    + specialize (New n Xn). destruct th as [| |jobs| |o [[m r]|] rest| | | | | | |]; cbn; try done; intros; by right.
  - by rewrite En, Ap.
  - rewrite P, Wk, T. intros H. destruct (W H); [by left|right; set_solver].
  - rewrite En, St, Sp, T. intros [H|[H|H%list_elem_of_singleton]%elem_of_app]; [auto|auto|]. by subst x.
Qed.
(** The thread that keeps the schedule moves on: it is the only one of its kind. *)
Lemma follows_refresher t x y s s' extra : follows s → counts s → threads s !! t = Some x → refresher x = true →
  threads s' = <[t := y]> (threads s) ++ extra → (∀ th, th ∈ extra → refresher th = true → th = TWait) → y ≠ TReload →
  db s' = db s → started s' = started s → stopped s' = stopped s → ctx_ended s' = ctx_ended s →
  (entries s' = entries s ∨ x ≠ TReload) →
  (∀ n e, entries s' !! n = Some e ↔ ∃ job, applied s' !! n = Some (job, true) ∧ Enabled job = true ∧ Schedule job = e) →
  (pendingJobs s' = pendingJobs s ∨ pendingJobs s' = ∅) → (pendingJobs s' ≠ ∅ → refreshWake s' = refreshWake s ∧ x ≠ TTake ∨ y = TTake) →
  (live s → ∀ n, n ∈ pendingJobs s → n ∈ pendingJobs s' ∨ covers (db s !! n) n y) →
  (live s → ∀ n, covers (db s !! n) n x ∨ settled s n →
     settled s' n ∨ noted s' n ∨ covers (db s !! n) n y) →
  (live s → ∀ n, fresh s' n y) → follows s'.
Proof.
  intros [N F E W Z] Ct L Rx T Xt Yr D St Sp Cx En Ent P Wk Pc Cv Fy.
  assert (Lv : live s' → live s) by (unfold live; by rewrite St, Cx).
  assert (One : ∀ i th, threads s !! i = Some th → refresher th = true → i = t).
  { intros i th Li Ri. eapply (cnt_one_inv refresher); [|exact Li|exact L|done|done].
    pose proof (ct_refresher s Ct). destruct (started s || stopped s); cbn in *; lia. }
  assert (Old : ∀ th, th ∈ threads s → refresher th = false → th ∈ threads s').
  { intros th I R. rewrite T. apply elem_of_app. left. eapply elem_insert_other; [exact L|done|]. by intros ->; congruence. }
  assert (New : ∀ th, th ∈ threads s' → refresher th = true → th = y ∨ th = TWait).
  { intros th I R. rewrite T in I. apply elem_of_app in I as [I|I]; [|right; by apply Xt].
    apply list_elem_of_lookup_1 in I as [i I]. apply list_lookup_insert_Some in I as [(_ & -> & _)|[Ni I]]; [by left|].
    by destruct Ni; symmetry; eapply One. }
  assert (Yin : y ∈ threads s') by (rewrite T; apply elem_of_app; left; by eapply elem_insert_new).
  split.
  - intros V n. rewrite D. destruct (N (Lv V) n) as [H|[[H|H]|(th & I & C)]].
    + destruct (Cv (Lv V) n) as [?|[?|?]]; [by right|by left|by right; left|right; right; by exists y].
    + destruct (Pc (Lv V) n H) as [?|?]; [right; left; by left|right; right; by exists y].
    + right. left. right. by apply Old.
    + assert (Rt : refresher th = true) by (by destruct th).
      apply list_elem_of_lookup_1 in I as [i I]. assert (i = t) as -> by (by eapply One). rewrite L in I. injection I as <-.
      destruct (Cv (Lv V) n) as [?|[?|?]]; [by left|by left|by right; left|right; right; by exists y].
  - intros V th n I. destruct (refresher th) eqn:R; [|by destruct th]. destruct (New th I R) as [-> | ->]; [|done]. by apply Fy; auto.
  - exact Ent.
  - intros H. destruct P as [P|P]; [|by rewrite P in H]. destruct (Wk H) as [[Ww Xn]| ->]; [|by right].
    rewrite P in H. rewrite Ww. destruct (W H) as [H'|H']; [by left|]. exfalso.
    apply list_elem_of_lookup_1 in H' as [i H']. assert (i = t) as -> by (by eapply One). congruence.
  - intros [H|H].
    + pose proof (ct_refresher s Ct) as R. rewrite St, Sp in H. destruct H as [H1 H2]. rewrite H1, H2 in R. cbn in R.
      assert (Z0 : cnt refresher (threads s) = 0) by lia. rewrite cnt_zero in Z0. rewrite Z0 in Rx; [done|by eapply list_elem_of_lookup_2].
    + destruct (New _ H eq_refl); [by subst y|done].
Qed.
Lemma RefreshJob_grows name s : pendingJobs s ⊆ pendingJobs (RefreshJob name s)
  ∧ (refreshWake (RefreshJob name s) = true ∨ pendingJobs (RefreshJob name s) = pendingJobs s ∧ refreshWake (RefreshJob name s) = refreshWake s)
  ∧ (stopped s = false → name ∈ pendingJobs (RefreshJob name s)).
Proof. unfold RefreshJob. destruct (stopped s); cbn; [split_and!; [done|by right|done]|split_and!; [set_solver|by left|set_solver]]. Qed.
Lemma live_running s : halts s → live s → stopped s = false.
Proof. intros H [St _]. destruct (stopped s) eqn:E; [|done]. destruct (h_stopped s H E). congruence. Qed.
(** [RefreshJob] touches nothing but the pending names. *)
Lemma follows_refresh_job t x y name s : follows s → halts s → threads s !! t = Some x → refresher x = false → refresher y = false →
  (∀ n, x = TWriter n → n = name) → follows (goto t y (RefreshJob name s)).
Proof.
  intros Fo H L Rx Ry Xn. destruct (RefreshJob_grows name s) as (G1 & G2 & G3).
  destruct (RefreshJob_frame name s) as (p & w & E).
  eapply (follows_plain t x y); try done; try (by rewrite E).
  intros n ->%Xn V. apply G3. by apply live_running.
Qed.
Ltac plain_move Fo E :=
  lazymatch goal with |- follows (goto ?t ?y ?s1) =>
    eapply (follows_plain t _ y); [exact Fo|exact E|reflexivity|reflexivity|reflexivity|reflexivity|reflexivity|reflexivity|reflexivity
      |reflexivity|reflexivity|reflexivity|reflexivity|done|by right|done] end.
Lemma follows_run_step t name pc a s s' : follows s → halts s → threads s !! t = Some (TRun name pc) → run_step t name pc a s = Some s' → follows s'.
Proof.
  intros Fo H E. unfold run_step. intros Q. destruct pc; repeat case_in Q; try done; injection Q as <-.
  all: try plain_move Fo E.
  all: try (by apply (follows_refresh_job t (TRun name RUpdate))).
  (* the entry of a job found disabled *)
  all: eapply (follows_other t _ (TRun name RLeave)); [exact Fo|exact E|reflexivity|reflexivity|reflexivity|reflexivity|reflexivity
    |reflexivity|reflexivity| | | |done|by right|done].
  all: try (cbn; intros ->; by rewrite delete_empty).
  all: try (intros n e; cbn; destruct (decide (n = name)) as [->|Nn]; [rewrite !lookup_delete_eq; naive_solver|rewrite !lookup_delete_ne by done; apply (fo_entry s Fo)]).
  all: intros n; unfold settled, up_to_date; cbn; destruct (decide (n = name)) as [->|Nn];
    [|rewrite !lookup_delete_ne by done; intros [?|[?|?]]; [by left|right; left; set_solver|by right; right]].
  - intros _. right. left. set_solver.
  - intros _. do 2 right. rewrite !lookup_delete_eq. destruct (db s !! name) as [job|]; [|done]. by destruct (Enabled job).
Qed.
Lemma in_enabled_jobs s n job : (n, job) ∈ enabled_jobs s ↔ db s !! n = Some job ∧ Enabled job = true.
Proof. unfold enabled_jobs. rewrite list_elem_of_filter, elem_of_map_to_list. cbn. tauto. Qed.
(** The refresh of one record, as a step of either owner. *)
Lemma follows_schedule t x y m job a s : follows s → counts s → halts s → threads s !! t = Some x → refresher x = true →
  x ≠ TReload → x ≠ TTake → y ≠ TReload →
  (∀ r n, covers r n x → n ≠ m → covers r n y) →
  (live s → db s !! m = Some job ∨ noted s m) → (∀ s n, fresh s n x → fresh s n y) →
  (∀ n, x ≠ TWriter n) →
  follows (goto t y (scheduleJob m job a s)).
Proof.
  intros Fo Ct H L Rx Xr Xt Yr Cv Fm Fx Xw. destruct (scheduleJob_frame m job a s) as (e & ap & f & d & E).
  assert (Nt : ∀ n, noted s n → noted (goto t y (scheduleJob m job a s)) n).
  { intros n [I|I]; [left; by rewrite E|right]. rewrite E. cbn. eapply elem_insert_other; [exact L|done|]. intros E'. by apply (Xw n). }
  eapply (follows_refresher t x y s _ []); try done; try (by rewrite E).
  - rewrite app_nil_r. by rewrite E.
  - intros th I; inversion I.
  - by right.
  - exact (schedule_entry m job a s (fo_entry s Fo)).
  - left. by rewrite E.
  - left. split; [by rewrite E|done].
  - intros _ n I. left. by rewrite E.
  - intros V n. destruct (schedule_spec m job a s V (live_running s H V)) as [S1 S2].
    assert (Dm : db s !! m = Some job → settled (goto t y (scheduleJob m job a s)) m).
    { intros D. destruct S2 as [S2|[(b & A) B]]; [by left|right; right]. unfold up_to_date.
      replace (db (goto t y (scheduleJob m job a s)) !! m) with (Some job) by (by rewrite E). destruct (Enabled job) eqn:En; [by exists b|by apply B]. }
    destruct (decide (n = m)) as [->|Nn].
    + intros _. destruct (Fm V) as [D|D]; [left; by apply Dm|right; left; by apply Nt].
    + intros [C|C]; [|left; by apply S1]. right. right. by apply Cv.
  - intros V n. eapply (fresh_mono s); [by rewrite E|apply Nt|]. apply Fx. apply (fo_fresh s Fo V). by eapply list_elem_of_lookup_2.
Qed.
(** It moves on and leaves the schedule and the pending names alone. *)
Lemma follows_keep t x y s s' : follows s → counts s → threads s !! t = Some x → refresher x = true → x ≠ TTake → y ≠ TReload →
  threads s' = <[t := y]> (threads s) → db s' = db s → entries s' = entries s → applied s' = applied s → failed s' = failed s →
  dropped s' = dropped s → started s' = started s → stopped s' = stopped s → ctx_ended s' = ctx_ended s →
  pendingJobs s' = pendingJobs s → (refreshWake s' = refreshWake s ∨ y = TTake) →
  (live s → ∀ n, covers (db s !! n) n x → settled s n ∨ covers (db s !! n) n y) → (live s → ∀ n, fresh s n y) → follows s'.
Proof.
  intros Fo Ct L Rx Xt Yr T D En Ap Fa Dr St Sp Cx P Wk Cv Fy.
  assert (Nt : ∀ n, noted s n → noted s' n).
  { intros n [I|I]; [left; by rewrite P|right]. rewrite T. eapply elem_insert_other; [exact L|done|]. intros E. by subst x. }
  eapply (follows_refresher t x y s s' []); try done.
  - by rewrite app_nil_r.
  - intros th I. inversion I.
  - by left.
  - rewrite En, Ap. apply (fo_entry s Fo).
  - by left.
  - intros _. destruct Wk; [left|right]; done.
  - intros _ n I. left. by rewrite P.
  - intros V n [C|S]; [destruct (Cv V n C) as [S|?]; [left|by right; right]|left]; by apply (settled_same s).
  - intros V n. eapply (fresh_mono s); [by rewrite D|apply Nt|by apply Fy].
Qed.
(** It takes up all pending names. *)
Lemma follows_take t x o s : follows s → counts s → threads s !! t = Some x → (x = TTake ∨ x = TCheck) →
  follows (goto t (TRefresh o None (elements (pendingJobs s))) (set_pending ∅ (refreshWake s) s)).
Proof.
  intros Fo Ct L X. assert (Rx : refresher x = true) by (by destruct X as [-> | ->]).
  eapply (follows_refresher t x (TRefresh o None (elements (pendingJobs s))) s _ []); try done; cbn.
  - by rewrite app_nil_r.
  - intros th I. inversion I.
  - by left.
  - exact (fo_entry s Fo).
  - by right.
  - intros _ n I. right. left. by apply elem_of_elements.
  - intros _ n [C|S]; [by destruct X as [-> | ->]|by left].
Qed.
Ltac keep_move Fo Ct E :=
  lazymatch goal with |- follows (goto ?t ?y ?s1) =>
    eapply (follows_keep t _ y); [exact Fo|exact Ct|exact E|reflexivity|done|done|reflexivity|reflexivity|reflexivity|reflexivity|reflexivity
      |reflexivity|reflexivity|reflexivity|reflexivity|reflexivity| | |] end.
Lemma follows_jobs t s jobs a s' : follows s → counts s → halts s → threads s !! t = Some (TJobs jobs) → thread_step t (TJobs jobs) a s = Some s' → follows s'.
Proof.
  intros Fo Ct H E Q. assert (I : TJobs jobs ∈ threads s) by (by eapply list_elem_of_lookup_2).
  destruct jobs as [|[m job] jobs]; cbn [thread_step] in Q; injection Q as <-.
  - keep_move Fo Ct E; [by left| |done]. intros _ n (job & J & _). inversion J.
  - eapply follows_schedule; try done.
    + intros r n (job' & [J|J]%elem_of_cons & ->) Nn; [by injection J as -> _|]. cbn. eauto.
    + intros V. apply (fo_fresh s Fo V _ m I). by left.
    + intros s1 n F job' J. apply F. by right.
Qed.
Lemma follows_refresh t o current rest a s s' : follows s → counts s → halts s → threads s !! t = Some (TRefresh o current rest) →
  refresh_step t o current rest a s = Some s' → follows s'.
Proof.
  intros Fo Ct H E Q. assert (I : TRefresh o current rest ∈ threads s) by (by eapply list_elem_of_lookup_2).
  destruct current as [[m [job|]]|]; cbn [refresh_step] in Q.
  - injection Q as <-. eapply follows_schedule; try done.
    + intros r n [C|C] Nn; [by left|congruence].
    + intros V. destruct (fo_fresh s Fo V _ m I eq_refl) as [D|D]; [left|by right]. done.
  - injection Q as <-.
    assert (Nt : ∀ n, noted s n → noted (goto t (TRefresh o None rest) (removeEntry m s)) n).
    { intros n [J|J]; [by left|right]. by eapply elem_insert_other. }
    eapply (follows_refresher t _ (TRefresh o None rest) s _ []); try done; cbn.
    + by rewrite app_nil_r.
    + intros th J. inversion J.
    + by right.
    + intros n e. destruct (decide (n = m)) as [->|Nn]; [rewrite !lookup_delete_eq; naive_solver|]. rewrite !lookup_delete_ne by done. apply (fo_entry s Fo).
    + by left.
    + by left.
    + intros _ n J. by left.
    + intros V n C. destruct (decide (n = m)) as [->|Nn].
      * destruct (fo_fresh s Fo V _ m I eq_refl) as [D|D]; [|right; left; by apply Nt].
        left. do 2 right. unfold up_to_date. cbn. rewrite <- D. by rewrite lookup_delete_eq.
      * destruct C as [[C|C]|S]; [by right; right; left|congruence|left]. revert S. unfold settled, up_to_date. cbn. by rewrite !lookup_delete_ne by done.
  - destruct rest as [|m rest]; [injection Q as <-; destruct o; (keep_move Fo Ct E; [by left| |done]); intros _ n [C|[=]]; inversion C|].
    destruct (ctx_ended s) eqn:Cx.
    { injection Q as <-. destruct o; (keep_move Fo Ct E; [by left| |done]); intros [_ V]; congruence. }
    destruct a; try done; injection Q as <-.
    + keep_move Fo Ct E; [by left| |].
      * intros _ n [[->|C]%elem_of_cons|[=]]; [by right; right|by right; left].
      * intros _ n ->. by left.
    + eapply (follows_refresher t _ (TRefresh o None rest) s _ []); try done; cbn.
      * by rewrite app_nil_r.
      * intros th J. inversion J.
      * by left.
      * exact (fo_entry s Fo).
      * by left.
      * by left.
      * intros _ n J. by left.
      * intros V n [[[->|C]%elem_of_cons|[=]]|S]; [left; left; set_solver|by right; right; left|].
        left. destruct S as [S|[S|S]]; [left; set_solver|by right; left|by right; right].
Qed.
Lemma follows_stop s : follows s → counts s → halts s → follows (Stop s).
Proof.
  intros Fo Ct H. unfold Stop. destruct (stop_called s) eqn:E; [exact Fo|]. split; try (by intros [V _]); cbn.
  - exact (fo_entry s Fo).
  - done.
  - intros [[_ ?]|[J|J%list_elem_of_singleton]%elem_of_app]; [done| |done]. apply (fo_empty s Fo). by right.
Qed.
Lemma follows_fail t s : follows s → halts s → threads s !! t = Some TFailed → follows (Stop (goto t TEnded s)).
Proof.
  intros Fo H E. unfold Stop. cbn [stop_called goto put_threads]. destruct (stop_called s) eqn:C.
  - rewrite (h_called s H) in C. destruct (h_stopped s H C) as [St _].
    assert (Nl : ¬ live (goto t TEnded s)) by (intros [V _]; cbn in V; congruence).
    split; try (by intros V; destruct (Nl V)); cbn.
    + exact (fo_entry s Fo).
    + intros P. destruct (fo_wake s Fo P); [by left|right]. by eapply elem_insert_other.
    + intros [J|[J|J]%elem_insert_inv]; [|done|]; apply (fo_empty s Fo); auto.
  - split; try (by intros [V _]); cbn; [exact (fo_entry s Fo)|done|].
    intros [[_ ?]|[[J|J]%elem_insert_inv|J%list_elem_of_singleton]%elem_of_app]; try done. apply (fo_empty s Fo). auto.
Qed.
Lemma follows_thread_step t th a s s' : follows s → counts s → halts s → threads s !! t = Some th → thread_step t th a s = Some s' → follows s'.
Proof.
  intros Fo Ct H E. destruct th as [name| |jobs| |o current rest| | | | |name pc|b|]; intros Q; try done.
  - cbn in Q. injection Q as <-. apply (follows_refresh_job t (TWriter name)); try done. by intros n [= <-].
  - (* the enabled records are listed *)
    cbn in Q. destruct a; try done; injection Q as <-; (keep_move Fo Ct E; [by left| |]); [|intros _ n job J; apply in_enabled_jobs in J as [J _]; by left|by right|done].
    intros V n _. assert (Z : entries s = ∅) by (apply (fo_empty s Fo); right; by eapply list_elem_of_lookup_2).
    destruct (db s !! n) as [job|] eqn:D; [|left; do 2 right; unfold up_to_date; rewrite D, Z; apply lookup_empty].
    destruct (Enabled job) eqn:En; [right; exists job; by rewrite in_enabled_jobs|].
    left. do 2 right. unfold up_to_date. rewrite D, En, Z. apply lookup_empty.
  - by eapply follows_jobs.
  - cbn in Q. destruct (ctx_ended s || stopped s) eqn:F; [injection Q as <-; (keep_move Fo Ct E; [by left| |done]); by intros _ n C|].
    destruct (bool_decide (pendingJobs s = ∅)) eqn:P; injection Q as <-.
    + eapply (follows_refresher t TCheck TEnded s _ [TWait]); try done; cbn.
      * by intros th ->%list_elem_of_singleton.
      * by left.
      * exact (fo_entry s Fo).
      * by left.
      * by left.
      * intros _ n J. by left.
      * intros _ n [C|S]; [done|by left].
    + by apply (follows_take t TCheck); [| | |right].
  - by eapply follows_refresh.
  - cbn in Q. injection Q as <-. by apply follows_fail.
  - cbn in Q. injection Q as <-. plain_move Fo E.
  - cbn in Q. destruct a; try done.
    + destruct (refreshWake s); [|done]. injection Q as <-. keep_move Fo Ct E; [by right| |done]. by intros _ n C.
    + destruct (ctx_ended s) eqn:Cx; [|done]. injection Q as <-. keep_move Fo Ct E; [by left| |done]. by intros _ n C.
  - cbn in Q. injection Q as <-. by apply (follows_take t TTake); [| | |left].
  - by eapply follows_run_step.
  - cbn in Q. destruct b.
    + destruct (bool_decide _); [|done]. injection Q as <-. plain_move Fo E.
    + destruct (existsb _ _); [done|]. injection Q as <-. plain_move Fo E.
Qed.
Lemma follows_exec x s s' : counts s → halts s → follows s → mexec x s = Some s' → follows s'.
Proof.
  intros Ct H Fo. destruct x as [name c|name| | | |name|t a]; cbn [mexec].
  - destruct (change_record name c s) as [s1|] eqn:E; [|done]. intros [= <-].
    assert (D : ∀ n, n ≠ name → db s1 !! n = db s !! n).
    { unfold change_record in E. destruct c; repeat case_match; try done; injection E as <-; cbn; intros n N; by rewrite ?lookup_insert_ne, ?lookup_delete_ne. }
    apply change_frame in E as [r ->]. eapply (follows_spawn (TWriter name) s); try done.
    intros n. destruct (decide (n = name)) as [->|N]; [by right|left; by apply D].
  - intros [= <-]. by destruct Fo.
  - unfold Start. destruct (stopped s || started s) eqn:F; [done|]. apply orb_false_iff in F as [F1 F2]. intros [= <-].
    pose proof (ct_refresher s Ct) as R. rewrite F1, F2 in R. cbn in R. assert (Z : cnt refresher (threads s) = 0) by lia. rewrite cnt_zero in Z.
    split; cbn.
    + intros _ n. right. right. exists TReload. split; [set_solver|done].
    + intros _ th n [I|I%list_elem_of_singleton]%elem_of_app; [|by subst th]. specialize (Z th I). by destruct th.
    + exact (fo_entry s Fo).
    + intros P. destruct (fo_wake s Fo P); [by left|right; set_solver].
    + intros _. apply (fo_empty s Fo). auto.
  - intros [= <-]. by apply follows_stop.
  - destruct (started s) eqn:St; [|done]. intros [= <-]. split; try (by intros [_ V]); cbn.
    + exact (fo_entry s Fo).
    + exact (fo_wake s Fo).
    + intros [[? _]|J]; [congruence|]. apply (fo_empty s Fo). auto.
  - destruct (_ && _); [|done]. intros [= <-]. eapply (follows_spawn (TRun name RBegin) s); try done. by left.
  - destruct (threads s !! t) eqn:E; [|done]. by apply follows_thread_step.
Qed.
Lemma follows_reachable records s : reachable records s → follows s.
Proof.
  induction 1 as [|x s s' R IH X]; [|eapply follows_exec; [by eapply counts_reachable|by eapply halts_reachable|done|done]].
  split; cbn; try done; try (by intros [V _]). intros n e. rewrite !lookup_empty. naive_solver.
Qed.

(** Nothing is under way: the refresh worker waits without a signal, and every change has been announced. *)
Definition quiet (s : manager) : Prop :=
  live s ∧ refreshWake s = false ∧ TWait ∈ threads s ∧ ∀ n, TWriter n ∉ threads s.


(** ** Concrete runs *)
Lemma mrun_reachable records l : ∀ s s', reachable records s → mrun l s = Some s' → reachable records s'.
Proof.
  induction l as [|x l IH]; intros s s' R; cbn; [by intros [= <-]|]. destruct (mexec x s) as [s1|] eqn:X; [|done].
  apply IH. by eapply reach_step.
Qed.
Definition quietb (s : manager) : bool :=
  started s && negb (ctx_ended s) && negb (refreshWake s) && bool_decide (TWait ∈ threads s)
  && forallb (λ th, match th with TWriter _ => false | _ => true end) (threads s).
Lemma quietb_quiet s : quietb s = true → quiet s.
Proof.
  unfold quietb, quiet, live. rewrite !andb_true_iff, !negb_true_iff, bool_decide_eq_true, forallb_forall.
  intros ((((? & ?) & ?) & ?) & F). split_and!; try done. intros n I. apply list_elem_of_In in I. by specialize (F _ I).
Qed.
Definition example_job : Job := {| Enabled := true; Handler := §"h"; Schedule := §"* * * * *"; Metadata := [] |}.
Definition example_records : gmap gostring Job := {[ §"j" := example_job ]}.
(** Start with one enabled record. *)
Definition start_script : list action :=
  [ARegister §"h"; AStart; AStep 0 Fine; AStep 0 NextRun; AStep 0 Fine; AStep 0 Fine; AStep 0 Fine].
Definition after (l : list action) : manager := default (NewManager ∅) (mrun l (NewManager example_records)).
Lemma after_reachable l : is_Some (mrun l (NewManager example_records)) → reachable example_records (after l).
Proof. intros [s E]. unfold after. rewrite E. eapply mrun_reachable; [apply reach_new|done]. Qed.
Definition run_script : list action := start_script ++ [AFire §"j"; AStep 2 Fine; AStep 2 Fine; AStep 2 Fine].
Lemma cron_runs_are_exclusive_witness : 2 = 2 ∧ §"j" ∈ running (after run_script).
Proof.
  assert (R : reachable example_records (after run_script)) by (apply after_reachable, (bool_decide_unpack _); vm_compute; exact I).
  exact (cron_runs_are_exclusive example_records (after run_script) 2 2 §"j" RHandler RHandler R
    ltac:(vm_compute; reflexivity) ltac:(vm_compute; reflexivity) ltac:(vm_compute; reflexivity) ltac:(vm_compute; reflexivity)).
Defined.
(** Stop while a handler runs: completion is reported only after the handler and the worker have ended. *)
Definition stop_script : list action :=
  run_script ++ [AStop; AStep 1 Failed; AStep 2 Fine; AStep 2 Fine; AStep 2 Fine; AStep 2 Fine; AStep 3 Fine; AStep 3 Fine].
Lemma cron_stop_is_final_witness : finished (after stop_script) = true ∧ length (threads (after stop_script)) = 4.
Proof.
  assert (R : reachable example_records (after stop_script)) by (apply after_reachable, (bool_decide_unpack _); vm_compute; exact I).
  split; [|vm_compute; reflexivity].
  exact (proj1 (cron_stop_is_final example_records (after stop_script) (after stop_script) [] R ltac:(vm_compute; reflexivity) eq_refl)).
Defined.

(** An invocation that read a disabled record removes the entry only later, without looking again: a job
    that was enabled and scheduled anew in between is left without an entry, and nothing puts it back. *)
Definition race_script : list action :=
  start_script ++
  [AFire §"j"; AStep 2 Fine;                                    (* the invocation begins *)
   AChange §"j" Disable; AStep 2 Fine;                          (* it reads the disabled record *)
   AStep 3 Fine; AStep 1 Fine; AStep 1 Fine; AStep 1 Fine; AStep 1 Fine; AStep 1 Fine;       (* the entry is removed *)
   AChange §"j" (Upsert example_job); AStep 4 Fine;             (* enabled again *)
   AStep 1 Fine; AStep 1 Fine; AStep 1 Fine; AStep 1 NextRun; AStep 1 Fine;    (* and scheduled *)
   AStep 2 Fine; AStep 2 Fine].                                 (* the invocation removes the new entry *)
Example stale_run_unschedules :
  quietb (after race_script) = true ∧ db (after race_script) !! §"j" = Some example_job ∧ entries (after race_script) !! §"j" = None
  ∧ pendingJobs (after race_script) = ∅ ∧ §"j" ∈ dropped (after race_script) ∧ is_Some (mrun race_script (NewManager example_records)).
Proof. split_and!; try (vm_compute; reflexivity); apply (bool_decide_unpack _); vm_compute; exact I. Qed.
