(* ===== verification/CronDelivery.v ===== *)
(** * Reports of background jobs ([background/cron/delivery.go], [execution.go], [service.go], [model.go])

    The report of a run is stored with the job together with the state of each of
    its outputs for each of its targets, so that an interrupted delivery goes on
    where it stopped. The outcomes of sending, of building an attachment, of the
    look-ups and of the database come from a list of replies; what other callers
    do to the record before a conditional update is part of the reply. The
    stored JSON of the state is the state itself; receipts are kept only as far
    as the code looks at them; log records are left out. *)
From S2P Require Import Prelude GoStr GoPath Workspace.
Open Scope nat_scope.

(** ** Names *)
Definition name_char (dot : bool) (c : ascii) : bool :=
  in_range 97 122 c || in_range 65 90 c || in_range 48 57 c || bool_decide (c = "_"%char) || bool_decide (c = "-"%char)
  || (dot && bool_decide (c = "."%char)).
(** Each run of other characters becomes one underscore. *)
Fixpoint replace_runs (dot inside : bool) (s : gostring) : gostring :=
  match s with
  | [] => []
  | c :: s => if name_char dot c then c :: replace_runs dot false s
              else if inside then replace_runs dot true s else "_"%char :: replace_runs dot true s
  end.
Definition job_prefix : gostring := §"user.cron.".
Definition normalizeJobName (name : gostring) : gostring :=
  let name := trim_prefix job_prefix (trim_space name) in
  let name := trim_set §"._-" (replace_runs true false name) in
  if bool_decide (name = []) then [] else job_prefix ++ name.
Definition cronSandboxSubdir (jobName : gostring) : gostring :=
  let name := trim_set §"_-" (replace_runs false false (trim_prefix job_prefix (normalizeJobName jobName))) in
  Join §"cron" (if bool_decide (name = []) then §"default" else name).

(** ** Targets *)
Record Target := { t_Platform : gostring; t_ChatType : gostring; t_ChatID : gostring; t_Superadmins : bool }.
#[export] Instance Target_eq_dec : EqDecision Target.
Proof. solve_decision. Defined.
Record PlatformTarget := { pt_Name : gostring; SuperadminIDs : list gostring }.
(** The parts of the metadata the delivery depends on. *)
Record Metadata := {
  ScheduleMode : gostring; TriggerMode : gostring; Title : gostring; Message : gostring; CreatorID : gostring; AllEnabledPlatforms : bool;
  SourcePlatform : gostring
}.
Definition Once (meta : Metadata) : bool := bool_decide (ScheduleMode meta = §"once").
Definition uniqueStrings (values : list gostring) : list gostring :=
  foldl (λ out v, let v := trim_space v in if bool_decide (v = []) || bool_decide (v ∈ out) then out else out ++ [v]) [] values.
Definition firstNonEmpty (values : list gostring) : gostring :=
  match List.find (λ v, negb (bool_decide (trim_space v = []))) values with Some v => trim_space v | None => [] end.
Definition containsString (values : list gostring) (value : gostring) : bool :=
  existsb (λ v, bool_decide (trim_space v = trim_space value)) values.
Definition resolveDeliveryTargets (enabled : list PlatformTarget) (meta : Metadata) : list Target :=
  let platforms :=
    if AllEnabledPlatforms meta then enabled
    else if containsString (map pt_Name enabled) (SourcePlatform meta) then
      [{| pt_Name := SourcePlatform meta;
          SuperadminIDs := let id := trim_space (CreatorID meta) in if bool_decide (id = []) then [] else [id] |}]
    else [] in
  platforms ≫= λ p,
    match uniqueStrings (SuperadminIDs p) with
    | [] => [{| t_Platform := pt_Name p; t_ChatType := []; t_ChatID := []; t_Superadmins := true |}]
    | ids => map (λ id, {| t_Platform := pt_Name p; t_ChatType := §"private"; t_ChatID := id; t_Superadmins := false |}) ids
    end.
Definition targetPlatformNames (enabled : list PlatformTarget) (meta : Metadata) : list gostring :=
  uniqueStrings (map t_Platform (resolveDeliveryTargets enabled meta)).

(** ** The state of a delivery *)
Definition DeliveryPending : gostring := §"pending".
Definition DeliveryDelivered : gostring := §"delivered".
Definition DeliveryFallbackPending : gostring := §"fallback_pending".
Definition DeliveryFallbackDelivered : gostring := §"fallback_delivered".
Definition deliveryStatusDone (status : gostring) : bool :=
  bool_decide (status = DeliveryDelivered) || bool_decide (status = DeliveryFallbackDelivered).
Record Segment := { s_URL : gostring; s_Path : gostring; s_Media : gostring }.
Record OutputState := { os_ID : gostring; os_Status : gostring; os_Fallback : gostring }.
Record TargetState := { ts_Target : Target; ts_Outputs : list OutputState }.
Record DeliveryState := {
  DeliveryComplete : bool; ExecutionRunID : gostring; TakenOver : bool; Outcome : gostring; ExecutionResult : gostring;
  RunID : gostring; ReportReady : bool; TaskCompleted : bool; NeedReport : bool; Report : gostring; ReportSegments : list Segment;
  ReportSessionID : gostring; ReportMessageID : gostring; Targets : list TargetState
}.
Definition empty_state : DeliveryState :=
  {| DeliveryComplete := false; ExecutionRunID := []; TakenOver := false; Outcome := []; ExecutionResult := []; RunID := [];
     ReportReady := false; TaskCompleted := false; NeedReport := false; Report := []; ReportSegments := []; ReportSessionID := [];
     ReportMessageID := []; Targets := [] |}.
Definition set_targets (ts : list TargetState) (s : DeliveryState) : DeliveryState :=
  {| DeliveryComplete := DeliveryComplete s; ExecutionRunID := ExecutionRunID s; TakenOver := TakenOver s; Outcome := Outcome s;
     ExecutionResult := ExecutionResult s; RunID := RunID s; ReportReady := ReportReady s; TaskCompleted := TaskCompleted s;
     NeedReport := NeedReport s; Report := Report s; ReportSegments := ReportSegments s; ReportSessionID := ReportSessionID s;
     ReportMessageID := ReportMessageID s; Targets := ts |}.
Definition set_complete (b : bool) (s : DeliveryState) : DeliveryState :=
  {| DeliveryComplete := b; ExecutionRunID := ExecutionRunID s; TakenOver := TakenOver s; Outcome := Outcome s;
     ExecutionResult := ExecutionResult s; RunID := RunID s; ReportReady := ReportReady s; TaskCompleted := TaskCompleted s;
     NeedReport := NeedReport s; Report := Report s; ReportSegments := ReportSegments s; ReportSessionID := ReportSessionID s;
     ReportMessageID := ReportMessageID s; Targets := Targets s |}.
(** A session taken over by the foreground keeps nothing to deliver. *)
Definition taken_state (s : DeliveryState) : DeliveryState :=
  {| DeliveryComplete := DeliveryComplete s; ExecutionRunID := ExecutionRunID s; TakenOver := true; Outcome := Outcome s;
     ExecutionResult := ExecutionResult s; RunID := RunID s; ReportReady := ReportReady s; TaskCompleted := TaskCompleted s;
     NeedReport := NeedReport s; Report := []; ReportSegments := []; ReportSessionID := ReportSessionID s;
     ReportMessageID := ReportMessageID s; Targets := Targets s |}.

Definition text_id : gostring := §"text".
Definition has_text (s : DeliveryState) : bool := NeedReport s && negb (bool_decide (trim_space (Report s) = [])).
Definition deliveryOutputIDs (s : DeliveryState) : list gostring :=
  (if has_text s then [text_id] else []) ++ map (λ i, §"segment:" ++ itoa (Z.of_nat i)) (seq 0 (length (ReportSegments s))).
Definition findDeliveryTargetState (s : DeliveryState) (target : Target) : option TargetState :=
  List.find (λ ts, bool_decide (ts_Target ts = target)) (Targets s).
Definition findOutput (ts : TargetState) (id : gostring) : option OutputState :=
  List.find (λ o, bool_decide (os_ID o = id)) (ts_Outputs ts).
Definition findDeliveryOutputStatus (ts : TargetState) (id : gostring) : gostring :=
  match findOutput ts id with Some o => os_Status o | None => DeliveryPending end.
Definition status_of (s : DeliveryState) (target : Target) (id : gostring) : gostring :=
  match findDeliveryTargetState s target with Some ts => findDeliveryOutputStatus ts id | None => DeliveryPending end.
Definition deliveryComplete (enabled : list PlatformTarget) (meta : Metadata) (s : DeliveryState) : bool :=
  if TakenOver s then true
  else if negb (ReportReady s) then false
  else forallb (λ target, forallb (λ id,
         match findDeliveryTargetState s target with
         | None => false
         | Some ts => deliveryStatusDone (findDeliveryOutputStatus ts id)
         end) (deliveryOutputIDs s)) (resolveDeliveryTargets enabled meta).

(** [ensureDeliveryTargetState] and [ensureDeliveryOutputState] return pointers into the state; here the
    element is added when it is missing, and the first match is changed. *)
Fixpoint update_first {A} (p : A → bool) (f : A → A) (l : list A) : list A :=
  match l with [] => [] | x :: l => if p x then f x :: l else x :: update_first p f l end.
Definition ensureDeliveryTargetState (s : DeliveryState) (target : Target) : DeliveryState :=
  if existsb (λ ts, bool_decide (ts_Target ts = target)) (Targets s) then s
  else set_targets (Targets s ++ [{| ts_Target := target; ts_Outputs := [] |}]) s.
Definition on_target (target : Target) (f : TargetState → TargetState) (s : DeliveryState) : DeliveryState :=
  set_targets (update_first (λ ts, bool_decide (ts_Target ts = target)) f (Targets s)) s.
Definition ensure_output (id : gostring) (ts : TargetState) : TargetState :=
  if existsb (λ o, bool_decide (os_ID o = id)) (ts_Outputs ts) then ts
  else {| ts_Target := ts_Target ts; ts_Outputs := ts_Outputs ts ++ [{| os_ID := id; os_Status := DeliveryPending; os_Fallback := [] |}] |}.
Definition ensureDeliveryOutputState (s : DeliveryState) (target : Target) (id : gostring) : DeliveryState :=
  on_target target (ensure_output id) s.
Definition put_output (id : gostring) (f : OutputState → OutputState) (ts : TargetState) : TargetState :=
  {| ts_Target := ts_Target ts; ts_Outputs := update_first (λ o, bool_decide (os_ID o = id)) f (ts_Outputs ts) |}.
Definition set_status (target : Target) (id status : gostring) (s : DeliveryState) : DeliveryState :=
  on_target target (put_output id (λ o, {| os_ID := os_ID o; os_Status := status; os_Fallback := os_Fallback o |})) s.
Definition set_fallback (target : Target) (id text : gostring) (s : DeliveryState) : DeliveryState :=
  on_target target (put_output id (λ o, {| os_ID := os_ID o; os_Status := DeliveryFallbackPending; os_Fallback := text |})) s.
Definition fallback_of (s : DeliveryState) (target : Target) (id : gostring) : gostring :=
  match findDeliveryTargetState s target with
  | Some ts => match findOutput ts id with Some o => os_Fallback o | None => [] end
  | None => []
  end.

Definition reportSegmentFallbackText (seg : Segment) : gostring :=
  if negb (bool_decide (s_URL seg = [])) then §"url " ++ s_URL seg ++ §" 发送失败"
  else if negb (bool_decide (s_Media seg = [])) then §"媒体 " ++ s_Media seg ++ §" 发送失败"
  else §"路径 " ++ s_Path seg ++ §" 附件发送失败".
Definition missedOnceReportText (title report : gostring) : gostring :=
  let prefix := trim_space title ++ §"补发：" in
  let report := trim_space report in
  if bool_decide (report = []) then prefix else prefix ++ §"
" ++ §"
" ++ report.

(** ** The world of a delivery *)
Inductive payload := PText (text : gostring) | PSegment (seg : Segment).
Inductive event :=
| ERun (retry : bool)                                                    (** the background agent was started *)
| ECopy (platform owner : gostring)                                     (** the session was copied for the owner on the platform *)
| ESend (target : Target) (id : gostring) (what : payload) (ok : bool)   (** the sender was called *)
| EDisable (state : DeliveryState).                                      (** the job is disabled; the state the handler holds *)
Record Record_ := { r_Enabled : bool; r_Token : gostring; r_State : DeliveryState }.
(** One answer of the environment: whether the session has been taken over, whether the context has
    ended, the errors of building, of sending and of the database, whether a message got through despite
    an error, and what others did to the record before. *)
Record reply := {
  rp_taken : gostring + bool; rp_ended : bool; rp_build : option gostring; rp_send : option gostring; rp_partial : bool;
  rp_db : option gostring; rp_others : option Record_ → option Record_
}.
Definition smooth : reply :=
  {| rp_taken := inr false; rp_ended := false; rp_build := None; rp_send := None; rp_partial := false; rp_db := None; rp_others := λ r, r |}.
Record world := { w_replies : list reply; w_record : option Record_; w_events : list event }.
Definition pop (w : world) : reply * world :=
  (default smooth (head (w_replies w)), {| w_replies := tail (w_replies w); w_record := w_record w; w_events := w_events w |}).
Definition emit (e : event) (w : world) : world :=
  {| w_replies := w_replies w; w_record := w_record w; w_events := w_events w ++ [e] |}.
Definition put_record (r : option Record_) (w : world) : world :=
  {| w_replies := w_replies w; w_record := r; w_events := w_events w |}.

Definition sessionTakenOver (w : world) : res bool * world := let (r, w) := pop w in
  (match rp_taken r with inl err => Err err | inr taken => Ok taken end, w).
Definition CompareAndSwapDelivery (expected next : gostring) (state : DeliveryState) (w : world) : res bool * world :=
  let (r, w) := pop w in
  let w := put_record (rp_others r (w_record w)) w in
  match rp_db r with
  | Some err => (Err err, w)
  | None =>
    match w_record w with
    | Some rec =>
      if r_Enabled rec && bool_decide (r_Token rec = expected)
      then (Ok true, put_record (Some {| r_Enabled := true; r_Token := next; r_State := state |}) w)
      else (Ok false, w)
    | None => (Ok false, w)
    end
  end.
(** [disableCompletedDelivery]: [DisableJobIfDeliveryToken] of the manager. *)
Definition disableCompletedDelivery (token : gostring) (state : DeliveryState) (w : world) : res unit * world :=
  let (r, w) := pop w in
  let w := put_record (rp_others r (w_record w)) w in
  match rp_db r with
  | Some err => (Err err, w)
  | None =>
    match w_record w with
    | Some rec =>
      if r_Enabled rec && bool_decide (r_Token rec = token)
      then (Ok tt, emit (EDisable state) (put_record (Some {| r_Enabled := false; r_Token := r_Token rec; r_State := r_State rec |}) w))
      else (Ok tt, w)
    | None => (Ok tt, w)
    end
  end.
(** The sender: whether a message got through, and the error. *)
Definition sendDeliveryOutput (target : Target) (id : gostring) (what : payload) (w : world) : bool * option gostring * world :=
  let (r, w) := pop w in
  if rp_ended r then (false, Some §"context canceled", w)
  else match rp_send r with
       | None => (true, None, emit (ESend target id what true) w)
       | Some err => (rp_partial r, Some (§"send " ++ t_Platform target ++ §": " ++ err), emit (ESend target id what false) w)
       end.

Section Delivery.
Context (enabled : list PlatformTarget) (meta : Metadata) (token : gostring) (recovery : bool).

Definition persistDeliveryState (state : DeliveryState) (w : world) : res bool * world :=
  CompareAndSwapDelivery token token (set_complete (deliveryComplete enabled meta state) state) w.
Inductive flow := Next (s : DeliveryState) | Return (r : res unit) | Takeover (s : DeliveryState).
(** Keep the outcome of one output: save the state when it was sent, even in part. *)
Definition save_output (state : DeliveryState) (sent : bool) (err : option gostring) (w : world) : flow * world :=
  let failed := match err with Some _ => negb sent | None => false end in
  if failed then (Return (Err (default [] err)), w)
  else
    let (active, w) := persistDeliveryState state w in
    match active with
    | Err e => (Return (Err e), w)
    | Panic => (Return Panic, w)
    | Ok false => (Return (Ok tt), w)
    | Ok true => (Next state, w)
    end.
(** One output of one target, its index among the outputs. *)
Definition deliver_output (target : Target) (index : nat) (id : gostring) (state : DeliveryState) (w : world) : flow * world :=
  let (taken, w) := sessionTakenOver w in
  match taken with
  | Err e => (Return (Err e), w)
  | Panic => (Return Panic, w)
  | Ok true => (Takeover state, w)
  | Ok false =>
    let state := ensureDeliveryOutputState state target id in
    let status := status_of state target id in
    if deliveryStatusDone status then (Next state, w)
    else if bool_decide (id = text_id) then
      let text := trim_space (Report state) in
      let text := if recovery then missedOnceReportText (Title meta) text else text in
      let '(sent, err, w) := sendDeliveryOutput target id (PText text) w in
      let state := match err with None => set_status target id DeliveryDelivered state | Some _ => state end in
      save_output state sent err w
    else if bool_decide (status = DeliveryFallbackPending) then
      let '(sent, err, w) := sendDeliveryOutput target id (PText (fallback_of state target id)) w in
      let state := match err with None => set_status target id DeliveryFallbackDelivered state | Some _ => state end in
      save_output state sent err w
    else
      match ReportSegments state !! (index - (if has_text state then 1 else 0)) with
      | None => (Return Panic, w)
      | Some seg =>
        let (r, w) := pop w in
        let '(sent, err, w) := match rp_build r with
                               | Some e => (false, Some e, w)
                               | None => sendDeliveryOutput target id (PSegment seg) w
                               end in
        match err with
        | None => save_output (set_status target id DeliveryDelivered state) sent err w
        | Some _ =>
          let (r, w) := pop w in
          if NeedReport state && recovery && negb (rp_ended r) then
            let state := set_fallback target id (reportSegmentFallbackText seg) state in
            let (active, w) := persistDeliveryState state w in
            match active with
            | Err e => (Return (Err e), w)
            | Panic => (Return Panic, w)
            | Ok false => (Return (Ok tt), w)
            | Ok true =>
              let '(sent, err, w) := sendDeliveryOutput target id (PText (reportSegmentFallbackText seg)) w in
              let state := match err with None => set_status target id DeliveryFallbackDelivered state | Some _ => state end in
              save_output state sent err w
            end
          else save_output state sent err w
        end
      end
  end.
Fixpoint deliver_outputs (target : Target) (ids : list (nat * gostring)) (state : DeliveryState) (w : world) : flow * world :=
  match ids with
  | [] => (Next state, w)
  | (index, id) :: ids =>
    match deliver_output target index id state w with
    | (Next state, w) => deliver_outputs target ids state w
    | r => r
    end
  end.
Fixpoint deliver_targets (targets : list Target) (state : DeliveryState) (w : world) : flow * world :=
  match targets with
  | [] => (Next state, w)
  | target :: targets =>
    let state := ensureDeliveryTargetState state target in
    match deliver_outputs target (imap (λ i id, (i, id)) (deliveryOutputIDs state)) state w with
    | (Next state, w) => deliver_targets targets state w
    | r => r
    end
  end.
Definition finish_takeover (state : DeliveryState) (w : world) : res unit * world :=
  let state := taken_state state in
  let (active, w) := persistDeliveryState state w in
  match active with
  | Err e => (Err e, w)
  | Panic => (Panic, w)
  | Ok _ => if Once meta then disableCompletedDelivery token state w else (Ok tt, w)
  end.
(** [platformFilter] restricts a recovery to the platform that has connected. *)
Definition deliverPrepared (platformFilter : gostring) (state : DeliveryState) (w : world) : res unit * world :=
  if negb (ReportReady state) then (Ok tt, w)
  else
    let (taken, w) := sessionTakenOver w in
    match taken with
    | Err e => (Err e, w)
    | Panic => (Panic, w)
    | Ok taken =>
      if TakenOver state || taken then finish_takeover state w
      else
        let targets := filter (λ t, platformFilter = [] ∨ t_Platform t = platformFilter) (resolveDeliveryTargets enabled meta) in
        match deliver_targets targets state w with
        | (Return r, w) => (r, w)
        | (Takeover state, w) =>
          let (again, w) := sessionTakenOver w in
          match again with Err e => (Err e, w) | Panic => (Panic, w) | Ok _ => finish_takeover state w end
        | (Next state, w) =>
          if Once meta && deliveryComplete enabled meta state then disableCompletedDelivery token state w else (Ok tt, w)
        end
    end.
End Delivery.
