(* ===== verification/CronDeliveryProps.v ===== *)
(** * Theorems on the delivery of reports (CronDelivery.v) *)
From S2P Require Import Prelude GoStr GoPath Workspace CronDelivery.
Open Scope nat_scope.

(** ** First matches *)
(** The update of the first match for one key, seen by a search for a key. *)
Lemma find_update_key {A K} `{EqDecision K} (key : A → K) (k k' : K) (f : A → A) l : (∀ x, key (f x) = key x) →
  List.find (λ x, bool_decide (key x = k')) (update_first (λ x, bool_decide (key x = k)) f l)
  = if bool_decide (k = k') then f <$> List.find (λ x, bool_decide (key x = k')) l else List.find (λ x, bool_decide (key x = k')) l.
Proof.
  intros F. induction l as [|x l IH]; [by case_bool_decide|]. cbn [update_first List.find].
  destruct (decide (key x = k)) as [E|E].
  - rewrite (bool_decide_eq_true_2 _ E). cbn [List.find]. rewrite F, E. by repeat case_bool_decide.
  - rewrite (bool_decide_eq_false_2 _ E). cbn [List.find]. rewrite IH.
    destruct (decide (key x = k')) as [E'|E']; [rewrite (bool_decide_eq_true_2 _ E')|by rewrite (bool_decide_eq_false_2 _ E')].
    by rewrite bool_decide_eq_false_2 by congruence.
Qed.
Lemma find_app_key {A} (p : A → bool) l x : List.find p (l ++ [x]) = match List.find p l with Some y => Some y | None => if p x then Some x else None end.
Proof. induction l as [|y l IH]; [done|]. cbn. destruct (p y); [done|exact IH]. Qed.
Lemma find_existsb {A} (p : A → bool) l : existsb p l = match List.find p l with Some _ => true | None => false end.
Proof. induction l as [|y l IH]; [done|]. cbn. by destruct (p y). Qed.

(** ** What the updates of the state do to the statuses *)
Definition same_content (s s' : DeliveryState) : Prop := set_targets [] s = set_targets [] s'.
Lemma status_ensure_target s target t id : status_of (ensureDeliveryTargetState s target) t id = status_of s t id.
Proof.
  unfold ensureDeliveryTargetState. destruct (existsb _ _) eqn:E; [done|]. unfold status_of, findDeliveryTargetState. cbn [Targets set_targets].
  rewrite find_app_key. destruct (List.find _ (Targets s)); [done|]. cbn. by case_bool_decide.
Qed.
Lemma has_ensured s target : is_Some (findDeliveryTargetState (ensureDeliveryTargetState s target) target).
Proof.
  unfold ensureDeliveryTargetState. destruct (existsb _ _) eqn:E.
  - rewrite find_existsb in E. unfold findDeliveryTargetState. destruct (List.find _ _); [by eexists|done].
  - unfold findDeliveryTargetState. cbn [Targets set_targets]. rewrite find_app_key. destruct (List.find _ (Targets s)); [by eexists|].
    cbn. rewrite bool_decide_eq_true_2 by done. by eexists.
Qed.
Lemma on_target_find s target f t : (∀ ts, ts_Target (f ts) = ts_Target ts) →
  findDeliveryTargetState (on_target target f s) t
  = if bool_decide (target = t) then f <$> findDeliveryTargetState s t else findDeliveryTargetState s t.
Proof. intros F. unfold findDeliveryTargetState, on_target. cbn [Targets set_targets]. by rewrite (find_update_key ts_Target). Qed.
Lemma ensure_output_find id ts id' :
  findDeliveryOutputStatus (ensure_output id ts) id' = findDeliveryOutputStatus ts id'.
Proof.
  unfold ensure_output. destruct (existsb _ _) eqn:E; [done|]. unfold findDeliveryOutputStatus, findOutput. cbn [ts_Outputs].
  rewrite find_app_key. destruct (List.find _ (ts_Outputs ts)); [done|]. cbn. by case_bool_decide.
Qed.
Lemma ensure_output_key id ts : ts_Target (ensure_output id ts) = ts_Target ts.
Proof. unfold ensure_output. by destruct (existsb _ _). Qed.
Lemma status_ensure_output s target id t id' : status_of (ensureDeliveryOutputState s target id) t id' = status_of s t id'.
Proof.
  unfold status_of, ensureDeliveryOutputState. rewrite on_target_find by apply ensure_output_key.
  case_bool_decide; [|done]. destruct (findDeliveryTargetState s t); [|done]. cbn. apply ensure_output_find.
Qed.
(** The entry of an output exists. *)
Definition present (s : DeliveryState) (t : Target) (id : gostring) : Prop :=
  ∃ ts, findDeliveryTargetState s t = Some ts ∧ is_Some (findOutput ts id).
Lemma present_ensured s target id : is_Some (findDeliveryTargetState s target) → present (ensureDeliveryOutputState s target id) target id.
Proof.
  intros [ts E]. unfold present, ensureDeliveryOutputState. rewrite on_target_find by apply ensure_output_key.
  rewrite bool_decide_eq_true_2, E by done. cbn. eexists. split; [done|]. unfold ensure_output.
  destruct (existsb _ _) eqn:X; unfold findOutput; cbn [ts_Outputs].
  - rewrite find_existsb in X. by destruct (List.find _ _).
  - rewrite find_app_key. destruct (List.find _ (ts_Outputs ts)); [by eexists|]. rewrite bool_decide_eq_true_2 by done. by eexists.
Qed.
Lemma put_status f s target id t id' : (∀ o, os_ID (f o) = os_ID o) → (∀ o o', os_Status (f o) = os_Status (f o')) → present s target id →
  ∀ o, status_of (on_target target (put_output id f) s) t id'
  = if bool_decide (t = target ∧ id' = id) then os_Status (f o) else status_of s t id'.
Proof.
  intros F C (ts & Et & [o' Eo]) o. unfold status_of. rewrite on_target_find by done.
  destruct (decide (target = t)) as [->|N].
  2: { rewrite (bool_decide_eq_false_2 _ N), (bool_decide_eq_false_2 (t = target ∧ _)) by naive_solver. done. }
  rewrite (bool_decide_eq_true_2 (t = t) eq_refl), Et. cbn [fmap option_fmap option_map].
  unfold findDeliveryOutputStatus, findOutput, put_output in *. cbn [ts_Outputs]. rewrite (find_update_key os_ID) by done.
  destruct (decide (id = id')) as [->|N].
  - rewrite (bool_decide_eq_true_2 (id' = id') eq_refl), Eo, bool_decide_eq_true_2 by done. apply C.
  - rewrite (bool_decide_eq_false_2 _ N), bool_decide_eq_false_2 by naive_solver. done.
Qed.
Lemma status_set target id st s t id' : present s target id →
  status_of (set_status target id st s) t id' = if bool_decide (t = target ∧ id' = id) then st else status_of s t id'.
Proof.
  intros P. exact (put_status (λ o, {| os_ID := os_ID o; os_Status := st; os_Fallback := os_Fallback o |}) s target id t id'
    (λ _, eq_refl) (λ _ _, eq_refl) P {| os_ID := []; os_Status := []; os_Fallback := [] |}).
Qed.
Lemma status_fallback target id text s t id' : present s target id →
  status_of (set_fallback target id text s) t id' = if bool_decide (t = target ∧ id' = id) then DeliveryFallbackPending else status_of s t id'.
Proof.
  intros P. exact (put_status (λ o, {| os_ID := os_ID o; os_Status := DeliveryFallbackPending; os_Fallback := text |}) s target id t id'
    (λ _, eq_refl) (λ _ _, eq_refl) P {| os_ID := []; os_Status := []; os_Fallback := [] |}).
Qed.
Lemma present_put f s target id t id' : (∀ o, os_ID (f o) = os_ID o) → present s t id' → present (on_target target (put_output id f) s) t id'.
Proof.
  intros F (ts & Et & Io). unfold present. rewrite on_target_find by done. rewrite Et.
  case_bool_decide; [|by eauto]. cbn. eexists. split; [done|]. unfold findOutput, put_output in *. cbn [ts_Outputs].
  rewrite (find_update_key os_ID) by done. case_bool_decide; [|done]. by destruct Io as [o ->]; eexists.
Qed.

(** ** Content that the delivery leaves alone *)
Lemma content_refl s : same_content s s.
Proof. done. Qed.
Lemma content_trans s1 s2 s3 : same_content s1 s2 → same_content s2 s3 → same_content s1 s3.
Proof. unfold same_content. congruence. Qed.
Lemma content_set ts s : same_content s (set_targets ts s).
Proof. done. Qed.
Lemma content_fields s s' : same_content s s' → Report s = Report s' ∧ NeedReport s = NeedReport s' ∧ ReportSegments s = ReportSegments s'
  ∧ ReportReady s = ReportReady s' ∧ TakenOver s = TakenOver s' ∧ RunID s = RunID s'.
Proof. unfold same_content, set_targets. intros E. by injection E. Qed.
Lemma content_ids s s' : same_content s s' → deliveryOutputIDs s = deliveryOutputIDs s' ∧ has_text s = has_text s'.
Proof. intros (E1 & E2 & E3 & _)%content_fields. unfold deliveryOutputIDs, has_text. by rewrite E1, E2, E3. Qed.
Lemma content_ensure_target s target : same_content s (ensureDeliveryTargetState s target).
Proof. unfold ensureDeliveryTargetState. by destruct (existsb _ _). Qed.

(** ** How a run of the delivery goes *)
Definition is_done (s : DeliveryState) (t : Target) (id : gostring) : Prop := deliveryStatusDone (status_of s t id) = true.
(** The successful sends of an output. *)
Definition successes (t : Target) (id : gostring) (es : list event) : nat :=
  length (List.filter (λ e, match e with ESend t' id' _ ok => ok && bool_decide (t' = t) && bool_decide (id' = id) | _ => false end) es).
Lemma successes_app t id a b : successes t id (a ++ b) = successes t id a + successes t id b.
Proof. unfold successes. by rewrite List.filter_app, length_app. Qed.
(** From the state [s] to [s'] with the events [es]: what is done stays done, what becomes done has been sent,
    only what was not done is sent, and at most once with success, which makes it done. *)
Section Progress.
(** The outputs that a part of the delivery may send. *)
Context (Al : Target → gostring → Prop).
Record progress (s s' : DeliveryState) (es : list event) : Prop := {
  pr_scope : ∀ t id what ok, ESend t id what ok ∈ es → Al t id;
  pr_content : same_content s s';
  pr_kept : ∀ t id, is_done s t id → is_done s' t id;
  pr_sent : ∀ t id, is_done s' t id → is_done s t id ∨ 0 < successes t id es;
  pr_needed : ∀ t id what ok, ESend t id what ok ∈ es → ¬ is_done s t id;
  pr_once : ∀ t id, successes t id es ≤ 1 ∧ (0 < successes t id es → is_done s' t id);
  pr_open : ∀ st, EDisable st ∉ es
}.
Lemma successes_in t id es : 0 < successes t id es → ∃ what, ESend t id what true ∈ es.
Proof.
  unfold successes. intros H. destruct (List.filter _ es) as [|e l] eqn:E; [cbn in H; lia|].
  assert (I : List.In e (e :: l)) by by left. rewrite <- E in I. apply List.filter_In in I as [I F]. destruct e as [rt|pl ow|t' id' what ok|]; [done|done| |done].
  propify. destruct F as [[-> ->] ->]. exists what. by apply list_elem_of_In.
Qed.
Lemma progress_none s s' : same_content s s' → (∀ t id, status_of s' t id = status_of s t id) → progress s s' [].
Proof.
  intros C E. split; try done; unfold is_done.
  - intros t id what ok I. inversion I.
  - intros t id. by rewrite E.
  - intros t id. rewrite E. by left.
  - intros t id what ok I. inversion I.
  - intros t id. cbn. split; [lia|lia].
  - intros st I. inversion I.
Qed.
Lemma progress_trans s1 s2 s3 e1 e2 : progress s1 s2 e1 → progress s2 s3 e2 → progress s1 s3 (e1 ++ e2).
Proof.
  intros [A1 C1 K1 S1 N1 O1 D1] [A2 C2 K2 S2 N2 O2 D2]. split.
  - intros t id what ok [I|I]%elem_of_app; eauto.
  - by eapply content_trans.
  - auto.
  - intros t id H. rewrite successes_app. destruct (S2 t id H) as [H'|]; [destruct (S1 t id H')|]; [by left|right; lia|right; lia].
  - intros t id what ok [I|I]%elem_of_app; [by eapply N1|]. intros H. eapply N2; [exact I|]. auto.
  - intros t id. rewrite successes_app. destruct (O1 t id) as [L1 H1], (O2 t id) as [L2 H2].
    assert (X : 0 < successes t id e1 → successes t id e2 = 0).
    { intros P. destruct (decide (successes t id e2 = 0)) as [|N]; [done|]. destruct (successes_in t id e2) as [what I]; [lia|].
      destruct (N2 _ _ _ _ I). auto. }
    split; [lia|]. intros P. destruct (decide (0 < successes t id e1)); [auto|]. apply H2. lia.
  - intros st [I|I]%elem_of_app; [by eapply D1|by eapply D2].
Qed.
(** One send of an output that is not done, followed by the status it gets. *)
Lemma progress_send s s' target id what ok : Al target id → same_content s s' → ¬ is_done s target id →
  (∀ t id', (t, id') ≠ (target, id) → status_of s' t id' = status_of s t id') →
  (is_done s' target id ↔ ok = true) → progress s s' [ESend target id what ok].
Proof.
  intros Sc C N E D.
  assert (X : ∀ t id', successes t id' [ESend target id what ok] = if ok && bool_decide (target = t ∧ id = id') then 1 else 0).
  { intros t id'. unfold successes. cbn. destruct ok; cbn; [|done]. by repeat case_bool_decide; try naive_solver. }
  split; [|done| | | | |].
  - intros t id' w o I%list_elem_of_singleton. injection I as -> -> _ _. done.
  - intros t id' H. destruct (decide ((t, id') = (target, id))) as [[= -> ->]|Nq]; [done|]. unfold is_done. by rewrite E.
  - intros t id' H. rewrite X. destruct (decide ((t, id') = (target, id))) as [[= -> ->]|Nq].
    + right. apply D in H as ->. rewrite bool_decide_eq_true_2 by done. cbn. lia.
    + left. unfold is_done in *. by rewrite <- E.
  - intros t id' w o I%list_elem_of_singleton. injection I as -> -> _ _. done.
  - intros t id'. rewrite X. split; [destruct (_ && _); lia|]. destruct ok; cbn; [|lia]. case_bool_decide as Q; [|lia].
    intros _. destruct Q as [-> ->]. by apply D.
  - intros st I%list_elem_of_singleton. done.
Qed.

End Progress.

(** ** The record *)
(** No database error and nobody else at the record. *)
Definition calm (w : world) : Prop := Forall (λ r, rp_db r = None ∧ ∀ x, rp_others r x = x) (w_replies w).
Lemma pop_spec w r w1 : pop w = (r, w1) → w_events w1 = w_events w ∧ w_record w1 = w_record w
  ∧ (calm w → calm w1 ∧ rp_db r = None ∧ ∀ x, rp_others r x = x).
Proof.
  unfold pop, calm. intros [= <- <-]. cbn. split_and!; [done|done|]. destruct (w_replies w) as [|r rs]; cbn.
  - intros _. split_and!; [constructor|done|done].
  - intros F. inversion F; subst. tauto.
Qed.
Section Runs.
Context (Al : Target → gostring → Prop) (enabled : list PlatformTarget) (meta : Metadata) (token : gostring) (recovery : bool).
(** The saved state [st] has the statuses of [s]. *)
Definition agrees (st s : DeliveryState) : Prop := (∀ t id, status_of st t id = status_of s t id) ∧ ReportReady st = ReportReady s ∧ RunID st = RunID s.
(** The record belongs to this delivery, and holds these statuses. *)
Definition owned (w : world) : Prop := ∃ st, w_record w = Some {| r_Enabled := true; r_Token := token; r_State := st |}.
Definition synced (s : DeliveryState) (w : world) : Prop :=
  ∃ st, w_record w = Some {| r_Enabled := true; r_Token := token; r_State := st |} ∧ agrees st s.
Lemma synced_owned s w : synced s w → owned w.
Proof. intros (st & E & _). by exists st. Qed.
Lemma persist_spec s w a w1 : persistDeliveryState enabled meta token s w = (a, w1) →
  w_events w1 = w_events w ∧ a ≠ Panic ∧ (calm w → calm w1 ∧ (owned w → a = Ok true ∧ synced s w1)).
Proof.
  unfold persistDeliveryState, CompareAndSwapDelivery. destruct (pop w) as [r w0] eqn:P. apply pop_spec in P as (Ev & Re & Ca).
  cbv zeta. cbn [w_record put_record]. destruct (rp_db r) eqn:D.
  { intros [= <- <-]. cbn. split_and!; [done|done|]. intros C. destruct (Ca C) as (_ & ? & _). congruence. }
  destruct (rp_others r (w_record w0)) as [rec|] eqn:O.
  - destruct (r_Enabled rec && bool_decide (r_Token rec = token)) eqn:T; intros [= <- <-]; cbn; (split_and!; [done|done|]); intros C;
      destruct (Ca C) as (C1 & _ & Id); (split; [exact C1|]); intros [st E]; rewrite Id, Re, E in O; injection O as <-.
    + split; [done|]. eexists. split; [reflexivity|done].
    + cbn in T. by rewrite bool_decide_eq_true_2 in T.
  - intros [= <- <-]. cbn. split_and!; [done|done|]. intros C. destruct (Ca C) as (C1 & _ & Id). split; [exact C1|].
    intros [st E]. rewrite Id, Re, E in O. done.
Qed.

(** What a part of the delivery does, from a state and a world. *)
Definition flow_ok (f : flow) (s : DeliveryState) : Prop :=
  match f with Next s' | Takeover s' => s' = s | Return r => r ≠ Panic end.
Definition outcome_ok (s : DeliveryState) (w : world) (f : flow) (w' : world) : Prop :=
  ∃ s' es, w_events w' = w_events w ++ es ∧ progress Al s s' es ∧ flow_ok f s' ∧ (calm w → calm w' ∧ (synced s w → synced s' w')).
Lemma outcome_after s1 s2 w1 w2 es f w' : w_events w2 = w_events w1 ++ es → progress Al s1 s2 es →
  (calm w1 → calm w2 ∧ (synced s1 w1 → synced s2 w2)) → outcome_ok s2 w2 f w' → outcome_ok s1 w1 f w'.
Proof.
  intros E P C (s' & es' & E' & P' & F & C'). exists s', (es ++ es'). split_and!; [by rewrite E', E, app_assoc|by eapply progress_trans|done|].
  intros Cw. destruct (C Cw) as [C2 S2]. destruct (C' C2) as [C3 S3]. auto.
Qed.
Lemma outcome_quiet s1 s2 w1 w2 f w' : w_events w2 = w_events w1 → same_content s1 s2 → (∀ t id, status_of s2 t id = status_of s1 t id) →
  (calm w1 → calm w2 ∧ (synced s1 w1 → synced s2 w2)) → outcome_ok s2 w2 f w' → outcome_ok s1 w1 f w'.
Proof. intros E C S R. apply (outcome_after s1 s2 w1 w2 []); [by rewrite app_nil_r|by apply progress_none|done]. Qed.
Lemma outcome_stop s w f : flow_ok f s → outcome_ok s w f w.
Proof. intros F. exists s, []. rewrite app_nil_r. split_and!; [done|by apply progress_none|done|done]. Qed.

Lemma save_spec s sent err w f w1 : save_output enabled meta token s sent err w = (f, w1) →
  w_events w1 = w_events w ∧ flow_ok f s
  ∧ (calm w → calm w1 ∧ (owned w → synced s w1 ∨ sent = false ∧ is_Some err ∧ w_record w1 = w_record w)).
Proof.
  unfold save_output. destruct (match err with Some _ => negb sent | None => false end) eqn:F.
  - intros [= <- <-]. split_and!; [done|done|]. intros C. split; [done|]. intros _. right. by destruct err, sent.
  - destruct (persistDeliveryState enabled meta token s w) as [a w2] eqn:P. apply persist_spec in P as (E & N & C).
    destruct a as [[]|e|]; intros [= <- <-]; try done; (split_and!; [done|done|]); intros Cw; destruct (C Cw) as [C1 C2]; (split; [done|]);
      intros O; destruct (C2 O); left; done.
Qed.
Lemma send_spec target id what w sent err w1 : sendDeliveryOutput target id what w = (sent, err, w1) →
  w_record w1 = w_record w ∧ (calm w → calm w1)
  ∧ ((w_events w1 = w_events w ∧ sent = false ∧ is_Some err) ∨
     w_events w1 = w_events w ++ [ESend target id what (bool_decide (err = None))]).
Proof.
  unfold sendDeliveryOutput. destruct (pop w) as [r w0] eqn:P. apply pop_spec in P as (E & R & C).
  destruct (rp_ended r); [|destruct (rp_send r) as [e|]]; intros [= <- <- <-]; cbn; (split_and!; [done|by intros Cw; destruct (C Cw)|]).
  - left. split_and!; [done|done|by eexists].
  - right. by rewrite E.
  - right. by rewrite E.
Qed.
(** One send and the save after it. *)
Lemma send_save s target id what st w sent err w1 f w' : Al target id → present s target id → ¬ is_done s target id → deliveryStatusDone st = true →
  sendDeliveryOutput target id what w = (sent, err, w1) →
  save_output enabled meta token (match err with None => set_status target id st s | Some _ => s end) sent err w1 = (f, w') →
  outcome_ok s w f w'.
Proof.
  intros A P N D S V. apply send_spec in S as (R & C & Ev). apply save_spec in V as (Ev' & F & C').
  assert (Ow : synced s w → owned w1) by (intros (st0 & E & _); exists st0; by rewrite R).
  destruct err as [e|].
  - destruct Ev as [(Ev & _ & _)|Ev].
    + exists s, []. rewrite app_nil_r. split_and!; [congruence|by apply progress_none|done|]. intros Cw. destruct (C' (C Cw)) as [C1 C2]. split; [done|].
      intros Sw. destruct (C2 (Ow Sw)) as [?|(_ & _ & R')]; [done|]. destruct Sw as (st0 & E & Q). exists st0. split; [congruence|done].
    + exists s, [ESend target id what false]. split_and!; [rewrite Ev', Ev; by rewrite bool_decide_eq_false_2| |done|].
      * by apply progress_send.
      * intros Cw. destruct (C' (C Cw)) as [C1 C2]. split; [done|]. intros Sw. destruct (C2 (Ow Sw)) as [?|(_ & _ & R')]; [done|].
        destruct Sw as (st0 & E & Q). exists st0. split; [congruence|done].
  - destruct Ev as [(_ & _ & [? [=]])|Ev]. rewrite bool_decide_eq_true_2 in Ev by done.
    exists (set_status target id st s), [ESend target id what true]. split_and!; [congruence| |done|].
    + apply progress_send; try done.
      * intros t id' Nq. rewrite status_set by done. rewrite bool_decide_eq_false_2 by naive_solver. done.
      * unfold is_done. rewrite status_set by done. rewrite bool_decide_eq_true_2 by done. done.
    + intros Cw. destruct (C' (C Cw)) as [C1 C2]. split; [done|]. intros Sw. destruct (C2 (Ow Sw)) as [?|(_ & [? [=]] & _)]. done.
Qed.
(** The look-up of a session taken over. *)
Lemma taken_spec w t w1 : sessionTakenOver w = (t, w1) → w_events w1 = w_events w ∧ w_record w1 = w_record w ∧ t ≠ Panic ∧ (calm w → calm w1).
Proof.
  unfold sessionTakenOver. destruct (pop w) as [r w0] eqn:P. apply pop_spec in P as (E & R & C). intros [= <- <-].
  split_and!; [done|done|by destruct (rp_taken r)|]. intros Cw. by destruct (C Cw).
Qed.
Lemma synced_move s w w1 : w_record w1 = w_record w → synced s w → synced s w1.
Proof. intros R (st & E & Q). exists st. by rewrite R. Qed.

Lemma synced_same s1 s2 w1 w2 : same_content s1 s2 → (∀ t id, status_of s2 t id = status_of s1 t id) → w_record w2 = w_record w1 →
  synced s1 w1 → synced s2 w2.
Proof.
  intros (_ & _ & _ & Er & _ & Ei)%content_fields E R (st & Q & A1 & A2 & A3). exists st. split; [congruence|]. split_and!; [|congruence..].
  intros t id. rewrite A1. by rewrite E.
Qed.
(** One output. *)
Lemma deliver_output_ok target index id s w f w' : Al target id → is_Some (findDeliveryTargetState s target) →
  (id ≠ text_id → index - (if has_text s then 1 else 0) < length (ReportSegments s)) →
  deliver_output enabled meta token recovery target index id s w = (f, w') → outcome_ok s w f w'.
Proof.
  intros A T I. unfold deliver_output. destruct (sessionTakenOver w) as [tk w1] eqn:Tk. apply taken_spec in Tk as (E1 & R1 & N1 & C1).
  set (s1 := ensureDeliveryOutputState s target id).
  assert (P1 : present s1 target id) by (by apply present_ensured).
  assert (Q : ∀ f, outcome_ok s1 w1 f w' → outcome_ok s w f w').
  { intros f0. apply outcome_quiet; [done|done|apply status_ensure_output|]. intros Cw. split; [auto|]. by apply synced_same; [|apply status_ensure_output|]. }
  assert (Q0 : ∀ f, flow_ok f s → outcome_ok s w f w1).
  { intros f0 F. eapply outcome_quiet; [exact E1|done|done| |by apply outcome_stop]. intros Cw. split; [auto|]. by apply synced_move. }
  destruct tk as [[]|e|]; [intros [= <- <-]; by apply Q0| |intros [= <- <-]; by apply Q0|done].
  destruct (deliveryStatusDone (status_of s1 target id)) eqn:D; [intros [= <- <-]; apply Q; by apply outcome_stop|].
  assert (Nd : ¬ is_done s1 target id) by (unfold is_done; by rewrite D).
  destruct (bool_decide (id = text_id)) eqn:X.
  { destruct (sendDeliveryOutput _ _ _ w1) as [[sent err] w2] eqn:Sd. intros Sv. apply Q. eapply send_save; [exact A|exact P1|exact Nd| |exact Sd|exact Sv]. done. }
  destruct (bool_decide (status_of s1 target id = DeliveryFallbackPending)) eqn:Fb.
  { destruct (sendDeliveryOutput _ _ _ w1) as [[sent err] w2] eqn:Sd. intros Sv. apply Q. eapply send_save; [exact A|exact P1|exact Nd| |exact Sd|exact Sv]. done. }
  apply bool_decide_eq_false in X.
  assert (Hs : has_text s1 = has_text s ∧ ReportSegments s1 = ReportSegments s) by done. destruct Hs as [-> ->].
  destruct (ReportSegments s !! (index - (if has_text s then 1 else 0))) as [seg|] eqn:L; [|apply lookup_ge_None in L; specialize (I X); lia].
  destruct (pop w1) as [r w2] eqn:Pp. apply pop_spec in Pp as (E2 & R2 & C2).
  assert (Q2 : ∀ f, outcome_ok s1 w2 f w' → outcome_ok s w f w').
  { intros f0 H. apply Q. eapply outcome_quiet; [exact E2|done|done| |exact H]. intros Cw. split; [by destruct (C2 Cw)|]. by apply synced_move. }
  destruct (match rp_build r with Some _ => _ | None => _ end) as [[sent err] w3] eqn:Sd.
  (* the attachment was built and sent, or not *)
  assert (S : w_record w3 = w_record w2 ∧ (calm w2 → calm w3) ∧ ((w_events w3 = w_events w2 ∧ sent = false ∧ is_Some err) ∨
     w_events w3 = w_events w2 ++ [ESend target id (PSegment seg) (bool_decide (err = None))])).
  { destruct (rp_build r) as [e|]; [injection Sd as <- <- <-; split_and!; [done|done|left; split_and!; [done|done|by eexists]]|by eapply send_spec]. }
  destruct err as [e|].
  2: { intros Sv. apply Q2. destruct (rp_build r); [done|]. eapply send_save; [exact A|exact P1|exact Nd| |exact Sd|exact Sv]. done. }
  destruct (pop w3) as [r2 w4] eqn:P4. apply pop_spec in P4 as (E4 & R4 & C4).
  assert (Q4 : ∀ f, outcome_ok s1 w4 f w' → outcome_ok s w f w').
  { intros f0 H. apply Q2. destruct S as (Rs & Cs & Ev).
    assert (Cm : calm w2 → calm w4 ∧ (synced s1 w2 → synced s1 w4)).
    { intros Cw. split; [by destruct (C4 (Cs Cw))|]. intros Sw. eapply synced_move; [exact R4|]. by eapply synced_move. }
    destruct Ev as [(Ev & _ & _)|Ev].
    - eapply outcome_quiet; [by rewrite E4|done|done|done|exact H].
    - eapply (outcome_after s1 s1 w2 w4 [ESend target id (PSegment seg) false]); [by rewrite E4, Ev, bool_decide_eq_false_2| |done|exact H].
      by apply progress_send. }
  destruct (NeedReport s1 && recovery && negb (rp_ended r2)).
  2: { intros Sv. apply save_spec in Sv as (Ev & F & C). apply Q4. exists s1, []. rewrite app_nil_r. split_and!; [done|by apply progress_none|done|].
    intros Cw. destruct (C Cw) as [Cv Co]. split; [done|]. intros Sw. destruct (Co (synced_owned _ _ Sw)) as [?|(_ & _ & Rv)]; [done|by eapply synced_move]. }
  (* the fallback text *)
  set (s2 := set_fallback target id (reportSegmentFallbackText seg) s1).
  assert (St2 : ∀ t id', deliveryStatusDone (status_of s2 t id') = deliveryStatusDone (status_of s1 t id')).
  { intros t id'. unfold s2. rewrite (status_fallback target id _ s1 t id' P1). destruct (decide (t = target ∧ id' = id)) as [Z|Z]; [rewrite (bool_decide_eq_true_2 _ Z)|by rewrite (bool_decide_eq_false_2 _ Z)].
    destruct Z as [-> ->]. symmetry. exact D. }
  destruct (persistDeliveryState enabled meta token s2 w4) as [ac w5] eqn:Pe. apply persist_spec in Pe as (E5 & N5 & C5).
  assert (Pr : progress Al s1 s2 []).
  { split; try done; unfold is_done.
    - intros t id' what ok J. inversion J.
    - intros t id'. by rewrite St2.
    - intros t id'. rewrite St2. by left.
    - intros t id' what ok J. inversion J.
    - intros t id'. cbn. split; lia.
    - intros st J. inversion J. }
  assert (Q5 : ∀ f, outcome_ok s2 w5 f w' → outcome_ok s w f w').
  { intros f0 H. apply Q4. eapply (outcome_after s1 s2 w4 w5 []); [by rewrite app_nil_r|exact Pr| |exact H].
    intros Cw. destruct (C5 Cw) as [Cv Co]. split; [done|]. intros Sw. by destruct (Co (synced_owned _ _ Sw)). }
  destruct ac as [[]|er|]; [|intros [= <- <-]; apply Q5; by apply outcome_stop|intros [= <- <-]; apply Q5; by apply outcome_stop|done].
  destruct (sendDeliveryOutput _ _ _ w5) as [[sent2 err2] w6] eqn:S6. intros Sv. apply Q5. eapply send_save; try done.
  - by apply present_put.
  - unfold is_done. rewrite St2. by rewrite D.
  - done.
Qed.

(** The targets of the state stay. *)
Lemma on_target_some s target f t : (∀ ts, ts_Target (f ts) = ts_Target ts) →
  is_Some (findDeliveryTargetState s t) → is_Some (findDeliveryTargetState (on_target target f s) t).
Proof. intros F [ts E]. rewrite on_target_find, E by done. case_bool_decide; by eexists. Qed.
Lemma save_next s sent err w s' w' : save_output enabled meta token s sent err w = (Next s', w') → s' = s.
Proof. intros H. by apply save_spec in H as (_ & ? & _). Qed.
Lemma deliver_output_targets target index id s w s' w' t : deliver_output enabled meta token recovery target index id s w = (Next s', w') →
  is_Some (findDeliveryTargetState s t) → is_Some (findDeliveryTargetState s' t).
Proof.
  unfold deliver_output. destruct (sessionTakenOver w) as [tk w1]. destruct tk as [[]| |]; [done| |done|done].
  set (s1 := ensureDeliveryOutputState s target id). intros H I.
  assert (I1 : is_Some (findDeliveryTargetState s1 t)) by (apply on_target_some; [apply ensure_output_key|done]).
  assert (W : ∀ (err : option gostring) st s0, is_Some (findDeliveryTargetState s0 t) →
    is_Some (findDeliveryTargetState (match err with None => set_status target id st s0 | Some _ => s0 end) t)).
  { intros [] st s0 J; [done|]. by apply on_target_some. }
  clearbody s1.
  repeat match type of H with
  | (Next _, _) = _ => injection H as <- <-; exact I1
  | (Return _, _) = _ => discriminate H
  | save_output _ _ _ _ _ _ _ = _ => apply save_next in H as ->; first [exact I1|apply W, I1|apply W; by apply on_target_some|by apply on_target_some]
  | context [sendDeliveryOutput ?a ?b ?c ?d] => destruct (sendDeliveryOutput a b c d) as [[? ?] ?]
  | context [pop ?a] => destruct (pop a) as [? ?]
  | context [persistDeliveryState ?a ?b ?c ?d ?e] => destruct (persistDeliveryState a b c d e) as [[[]| |] ?]
  | context [rp_build ?r] => destruct (rp_build r)
  | context [?x !! ?y] => destruct (x !! y)
  | (if ?b then _ else _) = _ => destruct b
  | context [match ?o with Some _ => _ | None => _ end] => is_var o; destruct o
  end.
Qed.

(** The outputs of a target, and the targets. *)
Definition index_ok (s : DeliveryState) (p : nat * gostring) : Prop :=
  p.2 ≠ text_id → p.1 - (if has_text s then 1 else 0) < length (ReportSegments s).
Lemma index_ok_content s s' p : same_content s s' → index_ok s p → index_ok s' p.
Proof. intros C. unfold index_ok. apply content_ids in C as C'. apply content_fields in C as (_ & _ & E & _). destruct C' as [_ ->]. by rewrite E. Qed.
Lemma ids_indexed s : Forall (index_ok s) (imap (λ i id, (i, id)) (deliveryOutputIDs s)).
Proof.
  apply Forall_lookup. intros j [i id] H. rewrite list_lookup_imap in H.
  destruct (deliveryOutputIDs s !! j) as [id'|] eqn:E; [|done]. injection H as <- <-. intros N. cbn [fst snd] in *.
  unfold deliveryOutputIDs in E. apply lookup_lt_Some in E as L. rewrite length_app, length_map, length_seq in L.
  destruct (has_text s); cbn [length] in L; [|lia]. destruct j; [cbn in E; congruence|lia].
Qed.
Lemma deliver_outputs_ok target ids : ∀ s w f w', is_Some (findDeliveryTargetState s target) → Forall (λ p, Al target p.2) ids → Forall (index_ok s) ids →
  deliver_outputs enabled meta token recovery target ids s w = (f, w') → outcome_ok s w f w'.
Proof.
  induction ids as [|[i id] ids IH]; intros s w f w' T A F; [intros [= <- <-]; by apply outcome_stop|].
  apply Forall_cons in F as [F1 F2], A as [A1 A2]. cbn [deliver_outputs].
  destruct (deliver_output enabled meta token recovery target i id s w) as [f1 w1] eqn:D. intros H.
  pose proof (deliver_output_ok target i id s w f1 w1 A1 T F1 D) as O. destruct f1 as [s1|r|s1]; [|injection H as <- <-; exact O..].
  destruct O as (s' & es & E & P & Eq & C). cbn in Eq. subst s1. eapply outcome_after; [exact E|exact P|exact C|]. eapply IH; [|exact A2|by eapply Forall_impl; [exact F2|];
    intros p; eapply index_ok_content, pr_content, P|exact H]. by eapply deliver_output_targets.
Qed.
Lemma deliver_targets_ok targets : ∀ s w f w', (∀ t id, t ∈ targets → id ∈ deliveryOutputIDs s → Al t id) → deliver_targets enabled meta token recovery targets s w = (f, w') → outcome_ok s w f w'.
Proof.
  induction targets as [|target targets IH]; intros s w f w' A; [intros [= <- <-]; by apply outcome_stop|]. cbn [deliver_targets].
  set (s1 := ensureDeliveryTargetState s target).
  destruct (deliver_outputs enabled meta token recovery target (imap (λ i id, (i, id)) (deliveryOutputIDs s1)) s1 w) as [f1 w1] eqn:D. intros H.
  assert (O : outcome_ok s1 w f1 w1) .
  { eapply deliver_outputs_ok; [apply has_ensured| |apply ids_indexed|exact D]. apply Forall_lookup. intros j [i id] L. rewrite list_lookup_imap in L.
    destruct (deliveryOutputIDs s1 !! j) as [id'|] eqn:X; [|done]. injection L as <- <-. apply A; [by left|].
    apply list_elem_of_lookup_2 in X. by rewrite (proj1 (content_ids s s1 (content_ensure_target s target))). }
  eapply (outcome_quiet s s1 w w); [done|apply content_ensure_target|apply status_ensure_target| |].
  { intros Cw. split; [done|]. by apply synced_same; [apply content_ensure_target|apply status_ensure_target|]. }
  destruct f1 as [s2|r|s2]; [|injection H as <- <-; exact O..].
  destruct O as (s' & es & E & P & Eq & C). cbn in Eq. subst s2. eapply outcome_after; [exact E|exact P|exact C|]. eapply IH; [|exact H].
  intros t id I J. apply A; [by right|]. by rewrite (proj1 (content_ids _ _ (content_trans _ _ _ (content_ensure_target s target) (pr_content _ _ _ _ P)))).
Qed.

(** The end of the delivery. *)
Lemma disable_spec st w r w1 : disableCompletedDelivery token st w = (r, w1) →
  r ≠ Panic ∧ (w_events w1 = w_events w ∨ w_events w1 = w_events w ++ [EDisable st])
  ∧ (calm w → calm w1 ∧ (owned w → ∃ b s0, w_record w1 = Some {| r_Enabled := b; r_Token := token; r_State := s0 |}
      ∧ r_State <$> w_record w = Some s0)).
Proof.
  unfold disableCompletedDelivery. destruct (pop w) as [rp w0] eqn:P. apply pop_spec in P as (Ev & Re & Ca).
  cbv zeta. cbn [w_record put_record]. destruct (rp_db rp) eqn:D.
  { intros [= <- <-]. cbn. split_and!; [done|by left|]. intros C. destruct (Ca C) as (_ & ? & _). congruence. }
  destruct (rp_others rp (w_record w0)) as [rec|] eqn:O.
  - destruct (r_Enabled rec && bool_decide (r_Token rec = token)) eqn:T; intros [= <- <-]; cbn;
      (split_and!; [done|rewrite Ev; tauto|]); intros C; destruct (Ca C) as (C1 & _ & Id); (split; [exact C1|]);
      intros [st0 E]; rewrite Id, Re, E in O; injection O as <-; rewrite E; cbn.
    + by exists false, st0.
    + cbn in T. by rewrite bool_decide_eq_true_2 in T.
  - intros [= <- <-]. cbn. split_and!; [done|by left|]. intros C. destruct (Ca C) as (C1 & _ & Id).
    intros. split; [exact C1|]. intros [st0 E]. rewrite Id, Re, E in O. done.
Qed.
(** The record after a run that kept these statuses. *)
Definition recorded (s : DeliveryState) (w : world) : Prop :=
  ∃ b st, w_record w = Some {| r_Enabled := b; r_Token := token; r_State := st |} ∧ agrees st s.
Lemma synced_recorded s w : synced s w → recorded s w.
Proof. intros (st & E & X). by exists true, st. Qed.
Lemma disable_keeps st s w r w1 : disableCompletedDelivery token st w = (r, w1) → calm w → synced s w → calm w1 ∧ recorded s w1.
Proof.
  intros (_ & _ & C)%disable_spec Cw (s0 & E & X). destruct (C Cw) as [C1 O]. split; [done|].
  destruct O as (b & s1 & E1 & E2); [by exists s0|]. rewrite E in E2. injection E2 as <-. by exists b, s0.
Qed.
Lemma takeover_spec s w r w1 : finish_takeover enabled meta token s w = (r, w1) →
  r ≠ Panic ∧ (w_events w1 = w_events w ∨ w_events w1 = w_events w ++ [EDisable (taken_state s)] ∧ Once meta = true)
  ∧ (calm w → synced s w → calm w1 ∧ recorded s w1).
Proof.
  unfold finish_takeover. destruct (persistDeliveryState enabled meta token (taken_state s) w) as [a w2] eqn:P.
  apply persist_spec in P as (E & N & C).
  assert (K : calm w → synced s w → calm w2 ∧ synced s w2).
  { intros Cw Sw. destruct (C Cw) as [C2 O]. destruct (O (synced_owned _ _ Sw)) as [_ (st & R & X)]. split; [done|]. by exists st. }
  destruct a as [b|e|]; [|intros [= <- <-]|done].
  - destruct (Once meta) eqn:On.
    + intros D. pose proof (disable_keeps _ s _ _ _ D) as Kd. apply disable_spec in D as (Nd & Ed & _). rewrite E in Ed.
      split_and!; [done|tauto|]. intros Cw Sw. destruct (K Cw Sw). auto.
    + intros [= <- <-]. split_and!; [done|by left|]. intros Cw Sw. destruct (K Cw Sw). split; [done|by apply synced_recorded].
  - split_and!; [done|by left|]. intros Cw Sw. destruct (K Cw Sw). split; [done|by apply synced_recorded].
Qed.
End Runs.

(** What a whole run promises, from the state it starts with. *)
Record run_ok (enabled : list PlatformTarget) (meta : Metadata) (platform : gostring) (s : DeliveryState) (es : list event) : Prop := {
  ro_needed : ∀ t id what ok, ESend t id what ok ∈ es → t ∈ resolveDeliveryTargets enabled meta ∧ id ∈ deliveryOutputIDs s
    ∧ (platform = [] ∨ t_Platform t = platform) ∧ ReportReady s = true ∧ TakenOver s = false ∧ ¬ is_done s t id;
  ro_once : ∀ t id, successes t id es ≤ 1;
  ro_disable : ∀ st, EDisable st ∈ es → Once meta = true
    ∧ (TakenOver st = true ∨ ∀ t id, t ∈ resolveDeliveryTargets enabled meta → id ∈ deliveryOutputIDs s → is_done s t id ∨ 0 < successes t id es)
}.
Lemma successes_disable t id st : successes t id [EDisable st] = 0.
Proof. done. Qed.
Lemma complete_all enabled meta s : deliveryComplete enabled meta s = true → TakenOver s = true
  ∨ ReportReady s = true ∧ ∀ t id, t ∈ resolveDeliveryTargets enabled meta → id ∈ deliveryOutputIDs s → is_done s t id.
Proof.
  unfold deliveryComplete. destruct (TakenOver s); [by left|]. destruct (ReportReady s); cbn [negb]; [|done]. intros F. right. split; [done|].
  intros t id It Ii. apply list_elem_of_In in It, Ii. rewrite forallb_forall in F. specialize (F t It). cbv beta in F. rewrite forallb_forall in F. specialize (F id Ii).
  unfold is_done, status_of. by destruct (findDeliveryTargetState s t).
Qed.
Section Whole.
Context (enabled : list PlatformTarget) (meta : Metadata) (token : gostring) (recovery : bool) (platform : gostring).
Definition kept_record (s : DeliveryState) (es : list event) (w' : world) : Prop :=
  ∃ b st, w_record w' = Some {| r_Enabled := b; r_Token := token; r_State := st |}
  ∧ (∀ t id, is_done st t id ↔ is_done s t id ∨ 0 < successes t id es) ∧ ReportReady st = ReportReady s ∧ RunID st = RunID s.
Definition run_result (s : DeliveryState) (w : world) (r : res unit) (w' : world) : Prop :=
  r ≠ Panic ∧ ∃ es, w_events w' = w_events w ++ es ∧ run_ok enabled meta platform s es
  ∧ (calm w → synced token s w → calm w' ∧ kept_record s es w').
Definition sendable (s : DeliveryState) (t : Target) (id : gostring) : Prop :=
  t ∈ resolveDeliveryTargets enabled meta ∧ id ∈ deliveryOutputIDs s ∧ (platform = [] ∨ t_Platform t = platform)
  ∧ ReportReady s = true ∧ TakenOver s = false.
(** A run that sent what [es] holds and then ended, perhaps by disabling the job. *)
Lemma run_finish s s2 w w2 es tl r w3 : w_events w2 = w_events w ++ es → progress (sendable s) s s2 es →
  (calm w → synced token s w → calm w2 ∧ synced token s2 w2) →
  r ≠ Panic → w_events w3 = w_events w2 ++ tl →
  (tl = [] ∨ ∃ st, tl = [EDisable st] ∧ Once meta = true
     ∧ (TakenOver st = true ∨ ∀ t id, t ∈ resolveDeliveryTargets enabled meta → id ∈ deliveryOutputIDs s → is_done s2 t id)) →
  (calm w2 → synced token s2 w2 → calm w3 ∧ recorded token s2 w3) → run_result s w r w3.
Proof.
  intros E P Cs N Et T K.
  assert (Dn : ∀ t id, is_done s2 t id ↔ is_done s t id ∨ 0 < successes t id es).
  { intros t id. split; [apply P|]. intros [H|H]; [by apply P in H|by eapply pr_once in H]. }
  assert (Sx : ∀ t id, successes t id (es ++ tl) = successes t id es).
  { intros t id. rewrite successes_app. destruct T as [->|(st & -> & _)]; cbn; lia. }
  assert (Tn : ∀ t id what ok, ESend t id what ok ∉ tl) by (intros t id what ok; destruct T as [->|(st & -> & _)]; set_solver).
  split; [done|]. exists (es ++ tl). split_and!; [by rewrite Et, E, app_assoc|split|].
  - intros t id what ok [I|I]%elem_of_app; [|by apply Tn in I]. pose proof (pr_scope _ _ _ _ P _ _ _ _ I) as (?&?&?&?&?).
    split_and!; try done. by eapply pr_needed.
  - intros t id. rewrite Sx. apply P.
  - intros st [I|I]%elem_of_app; [by apply P in I|]. destruct T as [->|(st' & -> & On & Fin)]; [inversion I|]. apply list_elem_of_singleton in I as [= ->].
    split; [done|]. destruct Fin as [?|Fin]; [by left|right]. intros t id It Ii. rewrite Sx. by apply Dn, Fin.
  - intros Cw Sw. destruct (Cs Cw Sw) as [C2 S2]. destruct (K C2 S2) as [C3 (b & st & Er & X & X2 & X3)]. split; [done|]. exists b, st.
    apply pr_content, content_fields in P as (_ & _ & _ & Ey & _ & Ei). split_and!; [done| |congruence..].
    intros t id. rewrite Sx, <- Dn. unfold is_done. by rewrite X.
Qed.
Lemma end_disable s st w r w' : disableCompletedDelivery token st w = (r, w') → r ≠ Panic
  ∧ (∃ tl, w_events w' = w_events w ++ tl ∧ (tl = [] ∨ tl = [EDisable st])) ∧ (calm w → synced token s w → calm w' ∧ recorded token s w').
Proof.
  intros D. pose proof (disable_keeps _ _ s _ _ _ D) as K. apply disable_spec in D as (N & Ev & _). split_and!; [done| |exact K].
  destruct Ev as [Ev|Ev]; [exists []; rewrite app_nil_r; tauto|eauto].
Qed.
(** A session taken over ends the run without another message. *)
Lemma run_takeover s s2 w w2 es r w3 : w_events w2 = w_events w ++ es → progress (sendable s) s s2 es →
  (calm w → synced token s w → calm w2 ∧ synced token s2 w2) → finish_takeover enabled meta token s2 w2 = (r, w3) → run_result s w r w3.
Proof.
  intros E P Cs F. apply takeover_spec in F as (N & [Ev|[Ev On]] & K).
  - eapply (run_finish _ _ _ _ _ []); [exact E|exact P|exact Cs|exact N|by rewrite app_nil_r|by left|exact K].
  - eapply run_finish; [exact E|exact P|exact Cs|exact N|exact Ev| |exact K]. right. eexists. split_and!; [done..|by left].
Qed.
Lemma run_stop s s2 w w2 es r : w_events w2 = w_events w ++ es → progress (sendable s) s s2 es →
  (calm w → synced token s w → calm w2 ∧ synced token s2 w2) → r ≠ Panic → run_result s w r w2.
Proof.
  intros E P Cs N. eapply (run_finish _ _ _ _ _ []); [exact E|exact P|exact Cs|exact N|by rewrite app_nil_r|by left|].
  intros Cw Sw. split; [done|by apply synced_recorded].
Qed.
Lemma deliver_run s w r w' : deliverPrepared enabled meta token recovery platform s w = (r, w') → run_result s w r w'.
Proof.
  unfold deliverPrepared. pose proof (progress_none (sendable s) s s (content_refl s) (λ _ _, eq_refl)) as P0.
  destruct (ReportReady s) eqn:Rdy; cbn [negb]; [|intros [= <- <-]; eapply run_stop; [by rewrite app_nil_r|exact P0|done|done]].
  destruct (sessionTakenOver w) as [tk w1] eqn:Tk. apply taken_spec in Tk as (E1 & R1 & N1 & C1).
  assert (C1' : calm w → synced token s w → calm w1 ∧ synced token s w1) by (intros Cw Sw; split; [auto|by eapply synced_move]).
  assert (E1' : w_events w1 = w_events w ++ []) by by rewrite app_nil_r.
  destruct tk as [tk|e|]; [|intros [= <- <-]; by eapply run_stop|done].
  destruct (TakenOver s || tk) eqn:To; [intros F; by eapply run_takeover|].
  apply orb_false_iff in To as [To _]. set (targets := filter _ _).
  destruct (deliver_targets enabled meta token recovery targets s w1) as [f w2] eqn:D.
  apply (deliver_targets_ok (sendable s)) in D as (s2 & es & E2 & P & F & C2).
  2: { intros t id It Ii. apply list_elem_of_filter in It as [? ?]. by split_and!. }
  rewrite E1 in E2. assert (Cs : calm w → synced token s w → calm w2 ∧ synced token s2 w2).
  { intros Cw Sw. destruct (C1' Cw Sw) as [C1a S1]. destruct (C2 C1a) as [? ?]. auto. }
  destruct f as [s3|r0|s3]; cbn in F.
  - subst s3. destruct (Once meta && deliveryComplete enabled meta s2) eqn:Z; [|intros [= <- <-]; by eapply run_stop].
    apply andb_true_iff in Z as [On Cm]. intros (Nd & (tl & Ev & T) & K)%(end_disable s2).
    eapply run_finish; [exact E2|exact P|exact Cs|exact Nd|exact Ev| |exact K].
    destruct T as [-> | ->]; [by left|right]. eexists. split_and!; [done..|]. destruct (complete_all _ _ _ Cm) as [|[_ All]]; [by left|right].
    intros t id It Ii. apply All; [done|]. by rewrite <- (proj1 (content_ids _ _ (pr_content _ _ _ _ P))).
  - intros [= <- <-]. by eapply run_stop.
  - subst s3. destruct (sessionTakenOver w2) as [ag w4] eqn:Tk. apply taken_spec in Tk as (E4 & R4 & N4 & C4).
    assert (C4' : calm w → synced token s w → calm w4 ∧ synced token s2 w4).
    { intros Cw Sw. destruct (Cs Cw Sw). split; [auto|by eapply synced_move]. }
    rewrite <- E4 in E2. destruct ag as [ag|e|]; [intros Fi; by eapply run_takeover|intros [= <- <-]; by eapply run_stop|done].
Qed.
End Whole.
