(* ===== verification/CronRun.v ===== *)
(** * Runs of background jobs ([background/cron/execution.go], [recovery.go], [service.go], [background/share/result.go])

    A run makes the report of a job, by itself or with the background agent,
    stores it with the job and delivers it (CronDelivery.v). A run starts from
    the schedule ([Handler]) or when a platform connects after the time of a job
    that runs once ([runMissedOnceForPlatform]). JSON decoding, URLs, the agent's
    runs and copies, fresh run ids and the clock's comparison are parameters. *)
From S2P Require Import Prelude GoStr GoPath Workspace CronDelivery.
Open Scope nat_scope.

(** ** The agent's answer *)
Record RawSegment := { rs_Type : gostring; rs_URL : gostring; rs_MediaID : gostring }.
Record RawResult := { raw_Completed : bool; raw_NeedReport : bool; raw_Report : gostring; raw_Segments : list RawSegment }.
Record JSONResult := { Completed : bool; jr_NeedReport : bool; jr_Report : gostring; jr_Segments : list Segment }.
Definition media_prefix : gostring := §"media:".
Definition ValidID (id : gostring) : bool :=
  has_prefix media_prefix id && (length id =? length media_prefix + 64)
  && forallb (λ c, in_range 48 57 c || in_range 97 102 c) (drop (length media_prefix) id).
Section Parse.
(** [json.Unmarshal]; the scheme and host of a URL; its text with the scheme in lower case. *)
Context `{UnicodeTables} (unmarshal : gostring → res RawResult) (url_parse : gostring → option (gostring * gostring)) (url_string : gostring → gostring).
Definition seg_err (i : nat) (what : gostring) : gostring := §"report segment " ++ itoa (Z.of_nat i) ++ §": " ++ what.
Definition report_segment (i : nat) (segment : RawSegment) : res Segment :=
  if negb (bool_decide (rs_Type segment = §"image") || bool_decide (rs_Type segment = §"file")) then
    Err (seg_err i (§"unsupported type " ++ quote (rs_Type segment)))
  else
    let value := trim_space (rs_URL segment) in
    if negb (bool_decide (rs_MediaID segment = [])) then
      if negb (bool_decide (value = [])) || negb (ValidID (rs_MediaID segment)) then Err (seg_err i §"invalid or mixed media source")
      else Ok {| s_URL := []; s_Path := []; s_Media := rs_MediaID segment |}
    else
      match NormalizeRestrictedPath value with
      | Good path => Ok {| s_URL := []; s_Path := path; s_Media := [] |}
      | Bad _ =>
        match url_parse value with
        | None => Err (seg_err i §"invalid source")
        | Some (scheme, host) =>
          let scheme := to_lower scheme in
          if bool_decide (scheme = §"media") then
            if negb (ValidID value) then Err (seg_err i §"invalid media ID") else Ok {| s_URL := []; s_Path := []; s_Media := value |}
          else if bool_decide (scheme = §"http") || bool_decide (scheme = §"https") then
            if bool_decide (host = []) then Err (seg_err i §"URL requires a host")
            else Ok {| s_URL := url_string value; s_Path := []; s_Media := [] |}
          else if bool_decide (scheme = []) then Err (seg_err i §"invalid local path")
          else Err (seg_err i (§"unsupported source scheme " ++ quote scheme))
        end
      end.
Fixpoint report_segments (i : nat) (segments : list RawSegment) : res (list Segment) :=
  match segments with
  | [] => Ok []
  | s :: segments => let* out := report_segment i s in let* rest := report_segments (S i) segments in Ok (out :: rest)
  end.
Fixpoint last_index (c : ascii) (s : gostring) : option nat :=
  match s with
  | [] => None
  | x :: s => match last_index c s with Some n => Some (S n) | None => if bool_decide (x = c) then Some 0 else None end
  end.
Definition ParseJSONResult (text : gostring) : res JSONResult :=
  match index §"{" text, last_index "}"%char text with
  | Some start, Some stop =>
    if stop <? start then Err §"json object not found"
    else
      let* raw := unmarshal (take (S stop - start) (drop start text)) in
      let* segments := report_segments 0 (raw_Segments raw) in
      Ok {| Completed := raw_Completed raw; jr_NeedReport := raw_NeedReport raw; jr_Report := raw_Report raw; jr_Segments := segments |}
  | _, _ => Err §"json object not found"
  end.
End Parse.

(** ** The run of a job *)
Record RunResult := { rr_RunID : gostring; rr_TakenOver : bool; rr_Outcome : gostring; rr_SessionID : gostring; rr_MessageID : gostring; rr_Text : gostring }.
Inductive copy_error := ForegroundSession | OtherCopyError.
(** What the agent and the rest of the program answer during one run. *)
Record run_env := {
  re_id : gostring + gostring; re_model : option gostring; re_first : RunResult * option gostring; re_second : RunResult * option gostring;
  re_copy : gostring → gostring → option copy_error
}.
Definition report_state (ready completed need : bool) (report : gostring) (segments : list Segment) (session message : gostring)
    (s : DeliveryState) : DeliveryState :=
  {| DeliveryComplete := DeliveryComplete s; ExecutionRunID := ExecutionRunID s; TakenOver := TakenOver s; Outcome := Outcome s;
     ExecutionResult := ExecutionResult s; RunID := RunID s; ReportReady := ready; TaskCompleted := completed; NeedReport := need;
     Report := report; ReportSegments := segments; ReportSessionID := session; ReportMessageID := message; Targets := Targets s |}.
Definition takeoverState (s : DeliveryState) (result : RunResult) : DeliveryState :=
  {| DeliveryComplete := DeliveryComplete s; ExecutionRunID := rr_RunID result; TakenOver := true; Outcome := rr_Outcome result;
     ExecutionResult := rr_Text result; RunID := RunID s; ReportReady := true; TaskCompleted := false; NeedReport := NeedReport s;
     Report := []; ReportSegments := []; ReportSessionID := rr_SessionID result; ReportMessageID := rr_MessageID result; Targets := Targets s |}.
Definition cronParseFailedMessage (title session err : gostring) : gostring :=
  §"cron 任务 " ++ title ++ §" 解析格式失败，请 /resume 到 cron session 查看详情。
session: " ++ session ++ §"
错误：" ++ err.
Definition incomplete_report (report session : gostring) : gostring :=
  (if bool_decide (report = []) then §"任务未完成。" else report) ++ §"
可 /resume 到 cron session 查看详情。
session: " ++ session.

Section Run.
Context `{UnicodeTables} (enabled : list PlatformTarget) (meta : Metadata) (parse : gostring → res JSONResult) (env : run_env).
(** [copySessionToBroadcastTargets]: the platforms that get a copy, up to the first error. *)
Fixpoint copy_session (targets : list PlatformTarget) (w : world) : option copy_error * world :=
  match targets with
  | [] => (None, w)
  | target :: targets =>
    if bool_decide (pt_Name target = SourcePlatform meta) then copy_session targets w
    else match SuperadminIDs target with
         | [] => copy_session targets w
         | owner :: _ =>
           match re_copy env (pt_Name target) owner with
           | Some e => (Some e, w)
           | None => copy_session targets (emit (ECopy (pt_Name target) owner) w)
           end
         end
  end.
Definition retryLLMResultFormat (session : gostring) (w : world) : RunResult * option gostring * world :=
  let (r, w) := pop w in
  let stopped taken := {| rr_RunID := []; rr_TakenOver := taken; rr_Outcome := §"taken_over"; rr_SessionID := session; rr_MessageID := []; rr_Text := [] |} in
  match rp_taken r with
  | inl e => (stopped false, Some e, w)
  | inr true => (stopped true, None, w)
  | inr false => (re_second env, emit (ERun true) w)
  end.
(** The report of an answer that was parsed, or not. *)
Definition finish_report (state : DeliveryState) (result : RunResult) (parsed : res JSONResult) (w : world) : DeliveryState * option gostring * world :=
  match parsed with
  | Ok parsed =>
    let '(copied, w) := if AllEnabledPlatforms meta then copy_session enabled w else (None, w) in
    match copied with
    | Some ForegroundSession => (takeoverState state result, None, w)
    | _ =>
      let report := trim_space (jr_Report parsed) in
      let report := if Completed parsed then report else incomplete_report report (rr_SessionID result) in
      (report_state true (Completed parsed) (jr_NeedReport parsed) report (jr_Segments parsed) (rr_SessionID result) (rr_MessageID result) state, None, w)
    end
  | Err e =>
    (report_state true (TaskCompleted state) true (cronParseFailedMessage (Title meta) (rr_SessionID result) e) (ReportSegments state)
       (rr_SessionID result) (rr_MessageID result) state, None, w)
  | Panic => (state, None, w)
  end.
Definition runLLMReport (state : DeliveryState) (w : world) : DeliveryState * option gostring * world :=
  match re_model env with
  | Some e => (state, Some e, w)
  | None =>
    let w := emit (ERun false) w in
    let '(result, err) := re_first env in
    if bool_decide (err ≠ None) && negb (rr_TakenOver result) then (state, err, w)
    else
      let (r, w) := pop w in
      match rp_taken r with
      | inl e => (state, Some e, w)
      | inr taken =>
        if rr_TakenOver result || taken then (takeoverState state result, err, w)
        else match err with
        | Some _ => (state, err, w)
        | None =>
          match parse (rr_Text result) with
          | Ok parsed => finish_report state result (Ok parsed) w
          | _ =>
            let '(result, err, w) := retryLLMResultFormat (rr_SessionID result) w in
            match err with
            | Some _ => (state, err, w)
            | None => if rr_TakenOver result then (takeoverState state result, None, w)
                      else finish_report state result (parse (rr_Text result)) w
            end
          end
        end
      end
  end.
Definition fresh_state (id : gostring) : DeliveryState :=
  {| DeliveryComplete := false; ExecutionRunID := []; TakenOver := false; Outcome := []; ExecutionResult := []; RunID := id;
     ReportReady := false; TaskCompleted := false; NeedReport := false; Report := []; ReportSegments := []; ReportSessionID := [];
     ReportMessageID := []; Targets := [] |}.
(** The token, the state and the error; the stored state of an unclaimed or periodic job starts afresh. *)
Definition prepared : Type := gostring * DeliveryState * option gostring.
Definition unclaimed (rec : Record_) : bool :=
  bool_decide (ScheduleMode meta = §"cron") || bool_decide (trim_space (r_Token rec) = []) || bool_decide (trim_space (RunID (r_State rec)) = []).
Definition claim (rec : Record_) (w : world) : (prepared + gostring * DeliveryState) * world :=
  if unclaimed rec then
    match re_id env with
    | inl e => (inl (r_Token rec, r_State rec, Some e), w)
    | inr id =>
      let (swapped, w) := CompareAndSwapDelivery (r_Token rec) id (fresh_state id) w in
      match swapped with
      | Err e => (inl (r_Token rec, empty_state, Some e), w)
      | Ok true => (inr (id, fresh_state id), w)
      | _ => (inl (r_Token rec, empty_state, None), w)
      end
    end
  else (inr (r_Token rec, r_State rec), w).
Definition store_report (token : gostring) (state : DeliveryState) (err : option gostring) (w : world) : prepared * world :=
  let next := firstNonEmpty [ReportSessionID state; RunID state] in
  let state := set_complete (deliveryComplete enabled meta state) state in
  let (swapped, w) := CompareAndSwapDelivery token next state w in
  match swapped with
  | Err e => (token, state, Some e, w)
  | Ok true => (next, state, err, w)
  | _ => (token, empty_state, err, w)
  end.
Definition no_targets : gostring :=
  §"no allowed delivery targets: source_platform=" ++ quote (SourcePlatform meta) ++ §" all_enabled_platforms="
  ++ (if AllEnabledPlatforms meta then §"true" else §"false") ++ §" enabled_platforms=[" ++ join §" " (map pt_Name enabled)
  ++ §"]; target platform is not enabled".
Definition prepareDelivery (rec : Record_) (w : world) : prepared * world :=
  if bool_decide (targetPlatformNames enabled meta = []) then (r_Token rec, empty_state, Some no_targets, w)
  else
    let (claimed, w) := claim rec w in
    match claimed with
    | inl r => (r, w)
    | inr (token, state) =>
      if ReportReady state then (token, state, None, w)
      else if bool_decide (TriggerMode meta = §"direct") then
        store_report token
          (report_state true true true (trim_space (Message meta)) (ReportSegments state) (ReportSessionID state) (ReportMessageID state) state) None w
      else if bool_decide (TriggerMode meta = §"llm") then
        let '(state, err, w) := runLLMReport state w in
        if negb (ReportReady state) then (token, state, err, w) else store_report token state err w
      else (token, state, Some (§"unsupported trigger mode " ++ quote (TriggerMode meta)), w)
    end.
(** [runTask], and [deliverMissedOnce] for the platform that has connected. *)
Definition run_job (recovery : bool) (platform : gostring) (rec : Record_) (w : world) : res unit * world :=
  let '(token, state, err, w) := prepareDelivery rec w in
  match err with
  | Some e => (Err e, w)
  | None => if negb (ReportReady state) then (Ok tt, w) else deliverPrepared enabled meta token recovery platform state w
  end.
Definition runTask (rec : Record_) (w : world) : res unit * world := run_job false [] rec w.
Definition deliverMissedOnce (platform : gostring) (rec : Record_) (w : world) : res unit * world := run_job true platform rec w.
(** The job is loaded again under its lock: [load] is the error of the look-up. *)
Definition Handler (load : option gostring) (w : world) : res unit * world :=
  match load, w_record w with
  | Some e, _ => (Err e, w)
  | None, None => (Err §"cron job not found", w)
  | None, Some rec => if negb (r_Enabled rec) then (Ok tt, w) else runTask rec w
  end.
(** The part of [runMissedOnceForPlatform] for one job; [due] tells that its time has come. *)
Definition recover_job (platform : gostring) (due : bool) (load : option gostring) (w : world) : res unit * world :=
  if negb (Once meta) || negb due || negb (containsString (targetPlatformNames enabled meta) platform) then (Ok tt, w)
  else match load, w_record w with
       | Some e, _ => (Err e, w)
       | None, None => (Ok tt, w)
       | None, Some rec => if negb (r_Enabled rec) then (Ok tt, w) else deliverMissedOnce platform rec w
       end.
End Run.

(** ** Many attempts at one job, each under the job's lock *)
Record attempt := { at_env : run_env; at_missed : option (gostring * bool); at_load : option gostring; at_replies : list reply }.
Definition attempt_once `{UnicodeTables} (enabled : list PlatformTarget) (meta : Metadata) (parse : gostring → res JSONResult) (a : attempt) (w : world) : world :=
  let w := {| w_replies := at_replies a; w_record := w_record w; w_events := w_events w |} in
  snd (match at_missed a with
       | None => Handler enabled meta parse (at_env a) (at_load a) w
       | Some (platform, due) => recover_job enabled meta parse (at_env a) platform due (at_load a) w
       end).
Definition attempts `{UnicodeTables} (enabled : list PlatformTarget) (meta : Metadata) (parse : gostring → res JSONResult) (l : list attempt) (w : world) : world :=
  foldl (λ w a, attempt_once enabled meta parse a w) w l.
