(* ===== verification/CronRunProps.v ===== *)
(** * Theorems on the runs of background jobs (CronRun.v) and their reports (CronDelivery.v) *)
From S2P Require Import Prelude GoStr GoPath Workspace WorkspaceProps CronDelivery CronDeliveryProps CronRun.
Open Scope nat_scope.

(** ** The steps before the delivery *)
Lemma cas_spec a b st w sw w1 : CompareAndSwapDelivery a b st w = (sw, w1) →
  w_events w1 = w_events w ∧ sw ≠ Panic
  ∧ (calm w → calm w1 ∧ ∀ st0, w_record w = Some {| r_Enabled := true; r_Token := a; r_State := st0 |} →
       sw = Ok true ∧ w_record w1 = Some {| r_Enabled := true; r_Token := b; r_State := st |}).
Proof.
  unfold CompareAndSwapDelivery. destruct (pop w) as [r w0] eqn:P. apply pop_spec in P as (Ev & Re & Ca).
  cbv zeta. cbn [w_record put_record]. destruct (rp_db r) eqn:D.
  { intros [= <- <-]. cbn. split_and!; [done|done|]. intros C. destruct (Ca C) as (_ & ? & _). congruence. }
  destruct (rp_others r (w_record w0)) as [rec|] eqn:O.
  - destruct (r_Enabled rec && bool_decide (r_Token rec = a)) eqn:T; intros [= <- <-]; cbn; (split_and!; [done|done|]); intros C;
      destruct (Ca C) as (C1 & _ & Id); (split; [exact C1|]); intros st0 E; rewrite Id, Re, E in O; injection O as <-; [done|].
    cbn in T. by rewrite bool_decide_eq_true_2 in T.
  - intros [= <- <-]. cbn. split_and!; [done|done|]. intros C. destruct (Ca C) as (C1 & _ & Id). split; [exact C1|].
    intros st0 E. rewrite Id, Re, E in O. done.
Qed.

(** Events that neither send nor disable. *)
Definition quiet (e : event) : bool := match e with ERun _ | ECopy _ _ => true | _ => false end.
Definition is_run (e : event) : bool := match e with ERun _ => true | _ => false end.
Definition runs (es : list event) : nat := length (List.filter is_run es).
Lemma runs_app a b : runs (a ++ b) = runs a + runs b.
Proof. unfold runs. by rewrite List.filter_app, length_app. Qed.
Lemma quiet_successes t id es : forallb quiet es = true → successes t id es = 0.
Proof.
  induction es as [|e es IH]; [done|]. cbn. intros [Q E]%andb_true_iff. specialize (IH E). by destruct e.
Qed.
(** From [w] to [w'], at most [n] starts of the agent and otherwise only copies. *)
Definition hushed (n : nat) (w w' : world) : Prop :=
  ∃ es, w_events w' = w_events w ++ es ∧ forallb quiet es = true ∧ runs es ≤ n ∧ w_record w' = w_record w ∧ (calm w → calm w').
Lemma hushed_refl w : hushed 0 w w.
Proof. exists []. rewrite app_nil_r. split_and!; [done|done|done|done|auto]. Qed.
Lemma hushed_trans n m w1 w2 w3 : hushed n w1 w2 → hushed m w2 w3 → hushed (n + m) w1 w3.
Proof.
  intros (e1 & E1 & Q1 & L1 & R1 & C1) (e2 & E2 & Q2 & L2 & R2 & C2). exists (e1 ++ e2).
  split_and!; [by rewrite E2, E1, app_assoc|by rewrite forallb_app, Q1, Q2|rewrite runs_app; lia|congruence|auto].
Qed.
Lemma hushed_emit n e w w1 : quiet e = true → hushed n (emit e w) w1 → hushed ((if is_run e then 1 else 0) + n) w w1.
Proof.
  intros Q H. apply (hushed_trans _ _ _ (emit e w)); [|exact H]. exists [e]. cbn. rewrite Q. split_and!; [done|done| |done|done].
  unfold runs. cbn. by destruct (is_run e).
Qed.
Lemma hushed_pop n r w w0 w1 : pop w = (r, w0) → hushed n w0 w1 → hushed n w w1.
Proof.
  intros P H. apply (hushed_trans 0 n _ w0); [|exact H]. apply pop_spec in P as (E & R & C). exists []. rewrite app_nil_r.
  split_and!; [done|done|done|done|]. intros Cw. by destruct (C Cw).
Qed.
Lemma hushed_weaken n m w w' : n ≤ m → hushed n w w' → hushed m w w'.
Proof. intros L (es & ? & ? & ? & ? & ?). exists es. split_and!; [done|done|lia|done|done]. Qed.

Section Runs.
Context `{UnicodeTables} (enabled : list PlatformTarget) (meta : Metadata) (parse : gostring → res JSONResult) (env : run_env).
Lemma copy_hushed targets : ∀ w e w', copy_session meta env targets w = (e, w') → hushed 0 w w'.
Proof.
  induction targets as [|t targets IH]; intros w e w'; [intros [= <- <-]; apply hushed_refl|]. cbn [copy_session].
  case_bool_decide; [apply IH|]. destruct (SuperadminIDs t); [apply IH|]. destruct (re_copy env _ _); [intros [= <- <-]; apply hushed_refl|].
  intros E%IH. by apply (hushed_emit 0 (ECopy _ _)) in E.
Qed.
(** What the making of a report keeps of the state. *)
Definition same_run (s s' : DeliveryState) : Prop := RunID s' = RunID s ∧ Targets s' = Targets s.
Lemma finish_report_spec s result p w s' err w' : finish_report enabled meta env s result p w = (s', err, w') → hushed 0 w w' ∧ same_run s s'.
Proof.
  unfold finish_report. destruct p as [p|e|]; [|intros [= <- <- <-]; (split; [apply hushed_refl|done])..].
  destruct (if AllEnabledPlatforms meta then copy_session meta env enabled w else (None, w)) as [c w1] eqn:C.
  assert (Hc : hushed 0 w w1). { destruct (AllEnabledPlatforms meta); [by eapply copy_hushed|]. injection C as <- <-. apply hushed_refl. }
  destruct c as [[]|]; intros [= <- <- <-]; done.
Qed.
Lemma retry_hushed session w r err w' : retryLLMResultFormat env session w = (r, err, w') → hushed 1 w w'.
Proof.
  unfold retryLLMResultFormat. destruct (pop w) as [rp w0] eqn:P. destruct (rp_taken rp) as [e|[]].
  - intros [= <- <- <-]. eapply hushed_pop; [exact P|]. eapply hushed_weaken, hushed_refl. lia.
  - intros [= <- <- <-]. eapply hushed_pop; [exact P|]. eapply hushed_weaken, hushed_refl. lia.
  - destruct (re_second env) as [x y]. intros [= <- <- <-]. eapply hushed_pop; [exact P|]. apply (hushed_emit 0 (ERun true)), hushed_refl. done.
Qed.
Lemma run_llm_spec s w s' err w' : runLLMReport enabled meta parse env s w = (s', err, w') → hushed 2 w w' ∧ same_run s s'.
Proof.
  unfold runLLMReport. destruct (re_model env) as [e|]; [intros [= <- <- <-]; split; [eapply hushed_weaken, hushed_refl; lia|done]|].
  destruct (re_first env) as [result err1].
  assert (Q : ∀ w1, hushed 1 (emit (ERun false) w) w1 → hushed 2 w w1) by (intros w1 Hh; by apply (hushed_emit 1 (ERun false)) in Hh).
  assert (Q0 : hushed 2 w (emit (ERun false) w)) by (apply Q; eapply hushed_weaken, hushed_refl; lia).
  destruct (bool_decide (err1 ≠ None) && negb (rr_TakenOver result)); [intros [= <- <- <-]; done|].
  destruct (pop (emit (ERun false) w)) as [r w1] eqn:P.
  assert (Qp : ∀ n w2, n ≤ 1 → hushed n w1 w2 → hushed 2 w w2).
  { intros n w2 L Hh. apply Q. eapply hushed_weaken; [exact L|]. by eapply hushed_pop. }
  assert (Qp0 : hushed 2 w w1) by (apply (Qp 0); [lia|apply hushed_refl]).
  destruct (rp_taken r) as [e|tk]; [intros [= <- <- <-]; done|].
  destruct (rr_TakenOver result || tk); [intros [= <- <- <-]; done|].
  destruct err1; [intros [= <- <- <-]; done|].
  destruct (parse (rr_Text result)) as [p|e|].
  { intros [Hh ?]%finish_report_spec. split; [|done]. by apply (Qp 0); [lia|]. }
  all: destruct (retryLLMResultFormat env (rr_SessionID result) w1) as [[result2 err2] w2] eqn:R; apply retry_hushed in R;
    (destruct err2; [intros [= <- <- <-]; split; [by apply (Qp 1)|done]|]);
    (destruct (rr_TakenOver result2); [intros [= <- <- <-]; split; [by apply (Qp 1)|done]|]);
    intros [Hh ?]%finish_report_spec; (split; [|done]); apply (Qp 1); [lia|]; exact (hushed_trans 1 0 _ _ _ R Hh).
Qed.

Lemma first_nonempty_spec values v : v ∈ values → trim_space v ≠ [] → trim_space (firstNonEmpty values) ≠ [].
Proof.
  intros I N. unfold firstNonEmpty. destruct (List.find _ values) as [x|] eqn:F.
  - apply find_some in F as [_ F]. rewrite trim_space_idem. intros E. by rewrite E in F.
  - apply list_elem_of_In in I. pose proof (find_none _ _ F _ I) as X. cbv beta in X. by rewrite bool_decide_eq_false_2 in X.
Qed.
Definition fresh_ids : Prop := ∀ id, re_id env = inr id → trim_space id ≠ [].
Definition named (token : gostring) (s : DeliveryState) : Prop := trim_space token ≠ [] ∧ trim_space (RunID s) ≠ [].
Lemma store_spec token s err0 w tok st err w' : store_report enabled meta token s err0 w = (tok, st, err, w') →
  w_events w' = w_events w ∧ (calm w → ∀ st0, w_record w = Some {| r_Enabled := true; r_Token := token; r_State := st0 |} → trim_space (RunID s) ≠ [] →
    calm w' ∧ w_record w' = Some {| r_Enabled := true; r_Token := tok; r_State := st |} ∧ named tok st).
Proof.
  unfold store_report. set (s1 := set_complete _ s). set (next := firstNonEmpty _).
  destruct (CompareAndSwapDelivery token next s1 w) as [sw w1] eqn:C. apply cas_spec in C as (E & N & K).
  destruct sw as [[]|e|]; intros [= <- <- <- <-]; (split; [exact E|]); intros Cw st0 R Id; destruct (K Cw) as [C1 K1]; destruct (K1 _ R) as [S R']; try done.
  split_and!; [done|done|split; [|exact Id]]. apply (first_nonempty_spec _ (RunID s)); [|done]. by right; left.
Qed.
Lemma claim_spec rec w r w' : fresh_ids → claim meta env rec w = (r, w') →
  w_events w' = w_events w ∧ (calm w → w_record w = Some rec → r_Enabled rec = true → calm w' ∧
    match r with
    | inl (tok, st, err) => unclaimed meta rec = true ∧ w_record w' = Some rec ∧ err ≠ None
    | inr (tok, st) => w_record w' = Some {| r_Enabled := true; r_Token := tok; r_State := st |} ∧ named tok st
        ∧ (unclaimed meta rec = false → tok = r_Token rec ∧ st = r_State rec) ∧ (unclaimed meta rec = true → ReportReady st = false)
    end).
Proof.
  unfold claim. intros F. destruct (unclaimed meta rec) eqn:U.
  - unfold fresh_ids in F. destruct (re_id env) as [e|id]; [intros [= <- <-]; by split_and!|].
    destruct (CompareAndSwapDelivery (r_Token rec) id (fresh_state id) w) as [sw w1] eqn:C. apply cas_spec in C as (E & N & K).
    assert (K' : calm w → w_record w = Some rec → r_Enabled rec = true → calm w1 ∧ sw = Ok true
      ∧ w_record w1 = Some {| r_Enabled := true; r_Token := id; r_State := fresh_state id |}).
    { intros Cw R En. destruct (K Cw) as [C1 K1]. split; [done|]. apply (K1 (r_State rec)). rewrite R. destruct rec. cbn in *. by subst. }
    specialize (F id eq_refl). destruct sw as [[]|e|]; intros [= <- <-]; (split; [exact E|]); intros Cw R En; destruct (K' Cw R En) as (C1 & S & R1); try done.
  - intros [= <- <-]. split; [done|]. intros Cw R En. split; [done|]. split_and!; try done; [destruct rec; cbn in *; by subst|].
    unfold unclaimed in U. apply orb_false_iff in U as [[_ U1]%orb_false_iff U2]. apply bool_decide_eq_false in U1, U2. done.
Qed.
(** What the preparation promises: only the agent and copies before it, a report already stored is not made again, and a report
    that is delivered is the stored one. *)
Definition prep_record (rec : Record_) (w : world) (tok : gostring) (st : DeliveryState) (err : option gostring) (w' : world) : Prop :=
  calm w → w_record w = Some rec → r_Enabled rec = true → calm w' ∧ ∃ rec', w_record w' = Some rec' ∧ r_Enabled rec' = true
     ∧ (unclaimed meta rec = false → ReportReady (r_State rec) = true → rec' = rec)
     ∧ (err = None → ReportReady st = true → rec' = {| r_Enabled := true; r_Token := tok; r_State := st |} ∧ named tok st).
Definition prep_events (rec : Record_) (w w' : world) : Prop :=
  ∃ es, w_events w' = w_events w ++ es ∧ forallb quiet es = true ∧ runs es ≤ 2 ∧ (unclaimed meta rec = false → ReportReady (r_State rec) = true → es = []).
Lemma events_none rec w w1 : w_events w1 = w_events w → prep_events rec w w1.
Proof. intros E. exists []. rewrite app_nil_r. split_and!; [done|done|cbn; lia|done]. Qed.
(** After the job was claimed, with a state that is not ready yet. *)
Lemma make_spec rec w w1 t0 s0 tok st err w' : w_events w1 = w_events w →
  (calm w → w_record w = Some rec → r_Enabled rec = true → calm w1 ∧ w_record w1 = Some {| r_Enabled := true; r_Token := t0; r_State := s0 |} ∧ named t0 s0
     ∧ (unclaimed meta rec = false → t0 = r_Token rec ∧ s0 = r_State rec)) →
  (unclaimed meta rec = false → ReportReady (r_State rec) = false) → ReportReady s0 = false →
  ((if bool_decide (TriggerMode meta = §"direct") then
        store_report enabled meta t0
          (report_state true true true (trim_space (Message meta)) (ReportSegments s0) (ReportSessionID s0) (ReportMessageID s0) s0) None w1
      else if bool_decide (TriggerMode meta = §"llm") then
        let '(state, err, w) := runLLMReport enabled meta parse env s0 w1 in
        if negb (ReportReady state) then (t0, state, err, w) else store_report enabled meta t0 state err w
      else (t0, s0, Some (§"unsupported trigger mode " ++ quote (TriggerMode meta)), w1)) = (tok, st, err, w')) →
  prep_events rec w w' ∧ prep_record rec w tok st err w'.
Proof.
  intros E K U Nr.
  assert (X : ∀ n w2 s1 err0, hushed n w1 w2 → n ≤ 2 → same_run s0 s1 → store_report enabled meta t0 s1 err0 w2 = (tok, st, err, w') →
    prep_events rec w w' ∧ prep_record rec w tok st err w').
  { intros n w2 s1 err0 (es & E2 & Q & L & R2 & C2) Ln [Ri _] (E3 & S)%store_spec. split.
    - exists es. split_and!; [by rewrite E3, E2, E|done|lia|]. intros A B. rewrite U in B; done.
    - intros Cw R En. destruct (K Cw R En) as (C1 & R1 & [N1 N2] & _). destruct (S (C2 C1) s0) as (Cv & Rv & Nv); [congruence|congruence|].
      split; [done|]. eexists. split_and!; [exact Rv|done| |done]. intros A B. rewrite U in B; done. }
  case_bool_decide; [intros S; eapply (X 0); [apply hushed_refl|lia| |exact S]; done|].
  case_bool_decide.
  - destruct (runLLMReport enabled meta parse env s0 w1) as [[s1 e1] w2] eqn:Ru. apply run_llm_spec in Ru as [Hh Sm].
    destruct (ReportReady s1) eqn:Rd; cbn [negb]; [intros S; by eapply (X 2)|]. intros [= <- <- <- <-].
    destruct Hh as (es & E2 & Q & L & R2 & C2). split.
    + exists es. split_and!; [by rewrite E2, E|done|done|]. intros A B. rewrite U in B; done.
    + intros Cw R En. destruct (K Cw R En) as (C1 & R1 & _ & _). split; [auto|]. eexists. split_and!; [by rewrite R2|done| |by rewrite Rd].
      intros A B. rewrite U in B; done.
  - intros [= <- <- <- <-]. split; [by apply events_none|]. intros Cw R En. destruct (K Cw R En) as (C1 & R1 & _ & _). split; [done|].
    eexists. split_and!; [exact R1|done| |done]. intros A B. rewrite U in B; done.
Qed.
Lemma claim_kept rec w t0 s0 w' : claim meta env rec w = (inr (t0, s0), w') → unclaimed meta rec = false → t0 = r_Token rec ∧ s0 = r_State rec.
Proof. unfold claim. intros E U. rewrite U in E. by injection E. Qed.
Lemma prepare_spec rec w tok st err w' : fresh_ids → prepareDelivery enabled meta parse env rec w = (tok, st, err, w') →
  prep_events rec w w' ∧ prep_record rec w tok st err w'.
Proof.
  intros F. unfold prepareDelivery.
  case_bool_decide; [intros [= <- <- <- <-]; split; [by apply events_none|]; intros Cw R En; split; [done|]; by exists rec|].
  destruct (claim meta env rec w) as [cl w1] eqn:Cl. pose proof (claim_kept rec w) as Ck. rewrite Cl in Ck.
  apply claim_spec in Cl as (E1 & K1); [|done]. destruct cl as [[[t0 s0] e0]|[t0 s0]].
  { intros [= <- <- <- <-]. split; [by apply events_none|]. intros Cw R En. destruct (K1 Cw R En) as (C1 & U & R1 & Ne). split; [done|].
    exists rec. by split_and!. }
  destruct (ReportReady s0) eqn:Rd.
  - intros [= <- <- <- <-]. split; [by apply events_none|]. intros Cw R En. destruct (K1 Cw R En) as (C1 & R1 & N & U & U'). split; [done|].
    eexists. split_and!; [exact R1|done| |done]. intros A _. destruct (U A) as [-> ->]. destruct rec. cbn in *. by subst.
  - apply make_spec; [done| | |done].
    + intros Cw R En. destruct (K1 Cw R En) as (C1 & R1 & N & U & _). by split_and!.
    + intros A. destruct (Ck t0 s0 w1 eq_refl A) as [_ <-]. done.
Qed.

(** ** One attempt *)
(** Nothing sent with success is sent again, and the record knows it. *)
Definition known (rec : Record_) (es : list event) : Prop := ∀ t id, successes t id es ≤ 1
  ∧ (0 < successes t id es → is_done (r_State rec) t id ∧ unclaimed meta rec = false ∧ ReportReady (r_State rec) = true).
Lemma known_quiet rec es : (∀ t id, successes t id es = 0) → known rec es.
Proof. intros Z t id. rewrite Z. lia. Qed.
Lemma job_step recovery platform rec w r w' es0 : ScheduleMode meta ≠ §"cron" → fresh_ids →
  run_job enabled meta parse env recovery platform rec w = (r, w') → calm w → w_record w = Some rec → r_Enabled rec = true → known rec es0 →
  ∃ es rec', w_events w' = w_events w ++ es ∧ w_record w' = Some rec' ∧ known rec' (es0 ++ es).
Proof.
  intros M F. unfold run_job. destruct (prepareDelivery enabled meta parse env rec w) as [[[tok st] err] w1] eqn:P.
  apply prepare_spec in P as ((e1 & E1 & Q1 & _ & _) & K); [|done]. intros Rn Cw R En Kn. destruct (K Cw R En) as (C1 & rec1 & R1 & En1 & Same & Sync).
  (* the record before the delivery knows as much *)
  assert (Kn1 : known rec1 (es0 ++ e1)).
  { destruct (unclaimed meta rec) eqn:U; [|destruct (ReportReady (r_State rec)) eqn:Rd; [rewrite (Same eq_refl eq_refl)|]].
    2: { intros t id. rewrite successes_app, (quiet_successes _ _ _ Q1), Nat.add_0_r. apply Kn. }
    all: apply known_quiet; intros t id; rewrite successes_app, (quiet_successes _ _ _ Q1), Nat.add_0_r; destruct (Kn t id) as [_ Z];
      destruct (decide (successes t id es0 = 0)); [done|]; destruct Z as (_ & ? & ?); [lia|congruence]. }
  assert (Stop : w1 = w' → ∃ es rec', w_events w' = w_events w ++ es ∧ w_record w' = Some rec' ∧ known rec' (es0 ++ es)).
  { intros <-. by exists e1, rec1. }
  destruct err; [injection Rn as _ E; by apply Stop|]. destruct (ReportReady st) eqn:Rd; cbn [negb] in Rn; [|injection Rn as _ E; by apply Stop].
  destruct (Sync eq_refl eq_refl) as [-> [N1 N2]]. apply deliver_run in Rn as (_ & es & E & Ok & Kp).
  destruct Kp as (_ & b & st2 & R2 & Dn & Rd2 & Id2); [done|by exists st|]. exists (e1 ++ es). eexists. split_and!; [by rewrite E, E1, app_assoc|exact R2|].
  intros t id. rewrite app_assoc, successes_app. cbn [r_State r_Token]. destruct (Kn1 t id) as [L1 D1]. cbn [r_State] in D1. split.
  - destruct (decide (successes t id (es0 ++ e1) = 0)) as [->|Nz]; [apply Ok|]. destruct (decide (successes t id es = 0)) as [->|Ns]; [lia|].
    destruct (successes_in t id es) as [what I]; [lia|]. destruct (ro_needed _ _ _ _ _ Ok _ _ _ _ I) as (_ & _ & _ & _ & _ & Nd).
    destruct Nd. apply D1. lia.
  - intros Pos. split_and!; [|unfold unclaimed; cbn; rewrite Id2; by rewrite !bool_decide_eq_false_2|congruence]. apply Dn.
    destruct (decide (0 < successes t id es)); [by right|left]. apply D1. lia.
Qed.
End Runs.
Lemma attempts_known `{UnicodeTables} enabled meta parse l : ScheduleMode meta ≠ §"cron" → ∀ w rec es0,
  Forall (λ a, fresh_ids (at_env a) ∧ Forall (λ r, rp_db r = None ∧ ∀ x, rp_others r x = x) (at_replies a)) l →
  w_record w = Some rec → known meta rec es0 →
  ∃ es rec', w_events (attempts enabled meta parse l w) = w_events w ++ es ∧ w_record (attempts enabled meta parse l w) = Some rec'
    ∧ known meta rec' (es0 ++ es).
Proof.
  intros M. induction l as [|a l IH]; intros w rec es0 F R K; [exists [], rec; by rewrite !app_nil_r|].
  apply Forall_cons in F as [[Fa Fr] F]. cbn [attempts foldl].
  assert (S : ∃ e1 rec1, w_events (attempt_once enabled meta parse a w) = w_events w ++ e1 ∧ w_record (attempt_once enabled meta parse a w) = Some rec1
    ∧ known meta rec1 (es0 ++ e1)).
  { unfold attempt_once. set (w0 := {| w_replies := at_replies a; w_record := w_record w; w_events := w_events w |}).
    assert (Q : ∃ e1 rec1, w_events w0 = w_events w ++ e1 ∧ w_record w0 = Some rec1 ∧ known meta rec1 (es0 ++ e1)).
    { exists [], rec. by rewrite !app_nil_r. }
    assert (J : ∀ recovery platform, r_Enabled rec = true → ∃ e1 rec1, w_events (snd (run_job enabled meta parse (at_env a) recovery platform rec w0)) = w_events w ++ e1
      ∧ w_record (snd (run_job enabled meta parse (at_env a) recovery platform rec w0)) = Some rec1 ∧ known meta rec1 (es0 ++ e1)).
    { intros rc pl En. destruct (run_job enabled meta parse (at_env a) rc pl rec w0) as [r w1] eqn:Rj.
      by eapply (job_step enabled meta parse (at_env a) rc pl rec w0 r w1 es0 M Fa Rj). }
    destruct (at_missed a) as [[pl due]|].
    - unfold recover_job. destruct (negb (Once meta) || _ || _); [exact Q|]. destruct (at_load a); [exact Q|]. replace (w_record w0) with (Some rec) by done.
      destruct (r_Enabled rec) eqn:En; [by apply J|exact Q].
    - unfold Handler. destruct (at_load a); [exact Q|]. replace (w_record w0) with (Some rec) by done. destruct (r_Enabled rec) eqn:En; [by apply J|exact Q]. }
  destruct S as (e1 & rec1 & E1 & R1 & K1). destruct (IH _ rec1 (es0 ++ e1) F R1 K1) as (e2 & rec2 & E2 & R2 & K2).
  exists (e1 ++ e2), rec2. split_and!; [by rewrite app_assoc, <- E1|exact R2|by rewrite app_assoc].
Qed.

(** ** When nothing fails *)
Section Smooth.
Context `{UnicodeTables} (enabled : list PlatformTarget) (meta : Metadata) (token : gostring) (recovery : bool).
Definition nice (w : world) : Prop := w_replies w = [] ∧ owned token w.
Lemma nice_pop w : nice w → ∃ w1, pop w = (smooth, w1) ∧ nice w1.
Proof. intros [E O]. unfold pop. rewrite E. eexists. split; [reflexivity|]. split; [done|exact O]. Qed.
Lemma nice_taken w : nice w → ∃ w1, sessionTakenOver w = (Ok false, w1) ∧ nice w1.
Proof. intros (w1 & E & N)%nice_pop. exists w1. unfold sessionTakenOver. by rewrite E. Qed.
Lemma nice_send target id what w : nice w → ∃ w1, sendDeliveryOutput target id what w = (true, None, w1) ∧ nice w1.
Proof. intros (w1 & E & N)%nice_pop. unfold sendDeliveryOutput. rewrite E. eexists. split; [reflexivity|]. exact N. Qed.
Lemma nice_cas s w next st0 : w_replies w = [] → w_record w = Some {| r_Enabled := true; r_Token := token; r_State := st0 |} →
  ∃ w1, CompareAndSwapDelivery token next s w = (Ok true, w1) ∧ w_replies w1 = []
  ∧ w_record w1 = Some {| r_Enabled := true; r_Token := next; r_State := s |}.
Proof.
  intros E R. unfold CompareAndSwapDelivery, pop. rewrite E, R. cbn.
  rewrite bool_decide_eq_true_2 by done. eexists. split_and!; reflexivity.
Qed.
Lemma nice_persist s w : nice w → ∃ w1, persistDeliveryState enabled meta token s w = (Ok true, w1) ∧ nice w1
  ∧ w_record w1 = Some {| r_Enabled := true; r_Token := token; r_State := set_complete (deliveryComplete enabled meta s) s |}.
Proof.
  intros [E [st R]]. destruct (nice_cas (set_complete (deliveryComplete enabled meta s) s) w token st E R) as (w1 & C & E1 & R1).
  exists w1. split_and!; [exact C|split; [done|by eexists]|done].
Qed.
Lemma nice_save s w : nice w → ∃ w1, save_output enabled meta token s true None w = (Next s, w1) ∧ nice w1.
Proof. intros (w1 & E & N & _)%(nice_persist s). exists w1. unfold save_output. by rewrite E. Qed.
Lemma nice_output target index id s w : is_Some (findDeliveryTargetState s target) → index_ok s (index, id) → nice w →
  ∃ s' w', deliver_output enabled meta token recovery target index id s w = (Next s', w') ∧ nice w' ∧ is_done s' target id.
Proof.
  intros T I N. unfold deliver_output. destruct (nice_taken w N) as (w1 & -> & N1).
  assert (P1 : present (ensureDeliveryOutputState s target id) target id) by by apply present_ensured.
  assert (Hs : has_text (ensureDeliveryOutputState s target id) = has_text s ∧ ReportSegments (ensureDeliveryOutputState s target id) = ReportSegments s) by done.
  set (s1 := ensureDeliveryOutputState s target id) in *.
  assert (D : ∀ st, deliveryStatusDone st = true → is_done (set_status target id st s1) target id).
  { intros st Ds. unfold is_done. rewrite (status_set target id st s1 target id P1). by rewrite bool_decide_eq_true_2. }
  assert (Sv : ∀ st w2, deliveryStatusDone st = true → nice w2 → ∃ s' w', save_output enabled meta token (set_status target id st s1) true None w2 = (Next s', w')
    ∧ nice w' ∧ is_done s' target id).
  { intros st w2 Ds N2. destruct (nice_save (set_status target id st s1) w2 N2) as (w3 & E & N3). eexists _, w3. split_and!; [exact E|done|by apply D]. }
  destruct (deliveryStatusDone (status_of s1 target id)) eqn:Dn; [by exists s1, w1|].
  destruct (bool_decide (id = text_id)) eqn:X.
  { destruct (nice_send target id (PText (if recovery then missedOnceReportText (Title meta) (trim_space (Report s1)) else trim_space (Report s1))) w1 N1) as (w2 & E & N2).
    cbv zeta. rewrite E. by apply Sv. }
  destruct (bool_decide (status_of s1 target id = DeliveryFallbackPending)).
  { destruct (nice_send target id (PText (fallback_of s1 target id)) w1 N1) as (w2 & -> & N2). by apply Sv. }
  destruct Hs as [-> ->]. apply bool_decide_eq_false in X. specialize (I X). cbn [fst] in I.
  destruct (ReportSegments s !! (index - (if has_text s then 1 else 0))) as [seg|] eqn:L; [|apply lookup_ge_None in L; lia].
  destruct (nice_pop w1 N1) as (w2 & -> & N2). cbn [rp_build smooth]. destruct (nice_send target id (PSegment seg) w2 N2) as (w3 & -> & N3). by apply Sv.
Qed.
(** A run over outputs, and over targets: everything ends done. *)
Lemma nice_outputs target ids : ∀ s w, is_Some (findDeliveryTargetState s target) → Forall (index_ok s) ids → nice w →
  ∃ s' w', deliver_outputs enabled meta token recovery target ids s w = (Next s', w') ∧ nice w' ∧ same_content s s'
    ∧ (∀ t id, is_done s t id → is_done s' t id) ∧ (∀ i id, (i, id) ∈ ids → is_done s' target id).
Proof.
  induction ids as [|[i id] ids IH]; intros s w T F N; [exists s, w; split_and!; try done; intros ? ? I; inversion I|].
  apply Forall_cons in F as [F1 F2]. cbn [deliver_outputs]. destruct (nice_output target i id s w T F1 N) as (s1 & w1 & E & N1 & D1). rewrite E.
  pose proof (deliver_output_ok (λ _ _, True) enabled meta token recovery target i id s w (Next s1) w1 I T F1 E) as (s1' & es & _ & P & Eq & _). cbn in Eq. subst s1'.
  destruct (IH s1 w1) as (s2 & w2 & E2 & N2 & C2 & K2 & D2); [by eapply deliver_output_targets| |done|].
  { eapply Forall_impl; [exact F2|]. intros p. eapply index_ok_content, pr_content, P. }
  exists s2, w2. split_and!; [done|done|eapply content_trans; [apply P|exact C2]|intros t id' Hd; by apply K2, P|].
  intros j id' [[= -> ->]|J]%elem_of_cons; [by apply K2|by eapply D2].
Qed.
Lemma nice_targets targets : ∀ s w, nice w →
  ∃ s' w', deliver_targets enabled meta token recovery targets s w = (Next s', w') ∧ nice w' ∧ same_content s s'
    ∧ (∀ t id, is_done s t id → is_done s' t id) ∧ (∀ t id, t ∈ targets → id ∈ deliveryOutputIDs s → is_done s' t id).
Proof.
  induction targets as [|target targets IH]; intros s w N; [exists s, w; split_and!; try done; intros ? ? J; inversion J|].
  cbn [deliver_targets]. pose proof (content_ensure_target s target) as C0. pose proof (status_ensure_target s target) as S0.
  pose proof (has_ensured s target) as T0. set (s0 := ensureDeliveryTargetState s target) in *.
  destruct (nice_outputs target (imap (λ i id, (i, id)) (deliveryOutputIDs s0)) s0 w T0 (ids_indexed s0) N) as (s1 & w1 & -> & N1 & C1 & K1 & D1).
  destruct (IH s1 w1 N1) as (s2 & w2 & E2 & N2 & C2 & K2 & D2). pose proof (content_trans _ _ _ C0 C1) as C01.
  exists s2, w2. split_and!; [done|done|by eapply content_trans| |].
  - intros t id Hd. apply K2, K1. unfold is_done. by rewrite S0.
  - intros t id [->|J]%elem_of_cons Hid.
    + apply K2. rewrite (proj1 (content_ids _ _ C0)) in Hid. apply list_elem_of_lookup_1 in Hid as [j Hj]. apply (D1 j).
      apply (list_elem_of_lookup_2 _ j). by rewrite list_lookup_imap, Hj.
    + apply D2; [done|]. by rewrite <- (proj1 (content_ids _ _ C01)).
Qed.
Lemma nice_prepared s w : nice w → ReportReady s = true → TakenOver s = false → synced token s w →
  ∃ w' st, deliverPrepared enabled meta token recovery [] s w = (Ok tt, w')
    ∧ w_record w' = Some {| r_Enabled := negb (Once meta); r_Token := token; r_State := st |}
    ∧ ∀ t id, t ∈ resolveDeliveryTargets enabled meta → id ∈ deliveryOutputIDs s → is_done st t id.
Proof.
  intros N R T Sy. unfold deliverPrepared. rewrite R. cbn [negb]. destruct (nice_taken w N) as (w1 & Tk & N1). rewrite Tk, T. cbn [orb].
  set (targets := filter _ _). destruct (nice_targets targets s w1 N1) as (s2 & w2 & E & N2 & C & K & D). rewrite E.
  assert (Sub : ∀ t, t ∈ resolveDeliveryTargets enabled meta → t ∈ targets) by (intros t J; apply list_elem_of_filter; tauto).
  pose proof (deliver_targets_ok (λ _ _, True) enabled meta token recovery targets s w1 (Next s2) w2 (λ _ _ _ _, I) E) as (s2' & es & _ & _ & Eq & Ca). cbn in Eq. subst s2'.
  assert (Cm : ∀ v, nice v → calm v) by (intros v [Ev _]; unfold calm; rewrite Ev; constructor).
  destruct Ca as [_ Sy2]; [by apply Cm|]. apply taken_spec in Tk as (_ & R1 & _ & _).
  destruct Sy2 as (st & R2 & Ag & _); [by eapply synced_move|].
  assert (Fin : ∀ t id, t ∈ resolveDeliveryTargets enabled meta → id ∈ deliveryOutputIDs s → is_done s2 t id) by (intros t id J J'; apply D; [by apply Sub|done]).
  assert (Comp : deliveryComplete enabled meta s2 = true).
  { unfold deliveryComplete. pose proof (content_fields _ _ C) as (_ & _ & _ & Er & Et & _). rewrite <- Er, <- Et, R, T. cbn [negb].
    apply forallb_forall. intros t It. apply forallb_forall. intros id Ii. apply list_elem_of_In in It, Ii.
    rewrite <- (proj1 (content_ids _ _ C)) in Ii. specialize (Fin t id It Ii). unfold is_done, status_of in Fin. by destruct (findDeliveryTargetState s2 t). }
  rewrite Comp, andb_true_r. assert (Fs : ∀ t id, t ∈ resolveDeliveryTargets enabled meta → id ∈ deliveryOutputIDs s → is_done st t id).
  { intros t id J J'. unfold is_done. rewrite Ag. by apply Fin. }
  destruct (Once meta); [|by exists w2, st]. unfold disableCompletedDelivery. destruct N2 as [E2 _]. unfold pop. rewrite E2. cbn. rewrite R2. cbn.
  rewrite bool_decide_eq_true_2 by done. eexists _, st. split_and!; [reflexivity|reflexivity|exact Fs].
Qed.
End Smooth.

Lemma job_run `{UnicodeTables} enabled meta parse env recovery platform rec w r w' :
  fresh_ids env → run_job enabled meta parse env recovery platform rec w = (r, w') →
  r ≠ Panic ∧ ∃ made st sent, w_events w' = w_events w ++ made ++ sent ∧ forallb quiet made = true ∧ runs made ≤ 2
    ∧ (unclaimed meta rec = false → ReportReady (r_State rec) = true → made = []) ∧ run_ok enabled meta platform st sent.
Proof.
  intros F. unfold run_job. destruct (prepareDelivery enabled meta parse env rec w) as [[[tok st] err] w1] eqn:P.
  apply prepare_spec in P as ((e1 & E1 & Q1 & L1 & K1) & _); [|done].
  assert (Stop : ∀ r0 : res unit, r0 ≠ Panic → (r0, w1) = (r, w') → r ≠ Panic ∧ ∃ made st sent, w_events w' = w_events w ++ made ++ sent
    ∧ forallb quiet made = true ∧ runs made ≤ 2
    ∧ (unclaimed meta rec = false → ReportReady (r_State rec) = true → made = []) ∧ run_ok enabled meta platform st sent).
  { intros r0 N [= <- <-]. split; [done|]. exists e1, st, []. rewrite app_nil_r. split_and!; [done..|].
    split; [intros ? ? ? ? I; inversion I|intros t id; cbn; lia|intros ? I; inversion I]. }
  destruct err as [e|]; [by apply (Stop (Err e))|]. destruct (ReportReady st); cbn [negb]; [|by apply (Stop (Ok tt))].
  intros (N & es & E & O & _)%deliver_run. split; [done|]. exists e1, st, es. split_and!; [by rewrite E, E1, app_assoc|done..].
Qed.
(** C25: A run of a job, whatever the database, the agent and the platforms answer and whatever others do to the record, never
    panics and starts the agent at most twice, not at all when the report is already stored; then it sends only outputs of the
    ready report that are not done, to targets that belong to the job and to the platform it is for, each at most once with
    success, and disables only a job that runs once whose session was taken over or whose outputs are all done or just sent. *)
Theorem job_run_is_safe `{UnicodeTables} enabled meta parse env recovery platform rec w r w' :
  (∀ id, re_id env = inr id → trim_space id ≠ []) → run_job enabled meta parse env recovery platform rec w = (r, w') →
  r ≠ Panic ∧ ∃ made st sent, w_events w' = w_events w ++ made ++ sent ∧ forallb quiet made = true ∧ runs made ≤ 2
    ∧ (unclaimed meta rec = false → ReportReady (r_State rec) = true → made = [])
    ∧ (∀ t id what ok, ESend t id what ok ∈ sent → t ∈ resolveDeliveryTargets enabled meta ∧ id ∈ deliveryOutputIDs st
         ∧ (platform = [] ∨ t_Platform t = platform) ∧ ReportReady st = true ∧ TakenOver st = false ∧ ¬ is_done st t id)
    ∧ (∀ t id, successes t id sent ≤ 1)
    ∧ (∀ s, EDisable s ∈ sent → Once meta = true
         ∧ (TakenOver s = true ∨ ∀ t id, t ∈ resolveDeliveryTargets enabled meta → id ∈ deliveryOutputIDs st → is_done st t id ∨ 0 < successes t id sent)).
Proof.
  intros F J. destruct (job_run enabled meta parse env recovery platform rec w r w' F J) as (N & made & st & sent & E & Q & L & K & [O1 O2 O3]).
  split; [exact N|]. exists made, st, sent. exact (conj E (conj Q (conj L (conj K (conj O1 (conj O2 O3)))))).
Qed.
(** When nothing fails, the first run of a job with a message of its own ends well: the message is done for every target of
    the job in the stored state, and a job that runs once is disabled. *)
Lemma direct_report_arrives `{UnicodeTables} enabled meta parse env id w rec :
  w_replies w = [] → w_record w = Some rec → r_Enabled rec = true → unclaimed meta rec = true → re_id env = inr id → trim_space id ≠ [] →
  TriggerMode meta = §"direct" → targetPlatformNames enabled meta ≠ [] → trim_space (Message meta) ≠ [] →
  ∃ w' st, Handler enabled meta parse env None w = (Ok tt, w')
    ∧ w_record w' = Some {| r_Enabled := negb (Once meta); r_Token := trim_space id; r_State := st |}
    ∧ ∀ t, t ∈ resolveDeliveryTargets enabled meta → is_done st t text_id.
Proof.
  intros E R En U I N D T M. unfold Handler. rewrite R, En. cbn [negb]. unfold runTask, run_job, prepareDelivery.
  rewrite bool_decide_eq_false_2 by done. unfold claim. rewrite U, I.
  destruct (nice_cas (r_Token rec) (fresh_state id) w id (r_State rec) E) as (w1 & -> & E1 & R1).
  { rewrite R. destruct rec. cbn in *. by subst. }
  cbn [ReportReady fresh_state]. rewrite (bool_decide_eq_true_2 (TriggerMode meta = _)) by done. unfold store_report.
  assert (Nx : firstNonEmpty [[]; id] = trim_space id) by (unfold firstNonEmpty; cbn; by rewrite bool_decide_eq_false_2).
  cbn [ReportSessionID RunID report_state fresh_state]. rewrite Nx. set (st := set_complete _ _).
  destruct (nice_cas id st w1 (trim_space id) (fresh_state id) E1 R1) as (w2 & -> & E2 & R2). cbn [ReportReady st set_complete report_state negb].
  destruct (nice_prepared enabled meta (trim_space id) false st w2) as (w3 & st3 & -> & R3 & Dn).
  - split; [done|by eexists].
  - done.
  - done.
  - exists st. split; [done|by split_and!].
  - exists w3, st3. split_and!; [done|exact R3|]. intros t It. apply Dn; [done|]. unfold deliveryOutputIDs.
    assert (has_text st = true) as ->; [|by left]. change (has_text st) with (negb (bool_decide (trim_space (trim_space (Message meta)) = []))).
    rewrite trim_space_idem. by rewrite bool_decide_eq_false_2.
Qed.

(** ** Instances of the theorems *)
#[local] Instance run_tables : UnicodeTables := ascii_tables.
Definition demo_platforms : list PlatformTarget :=
  [{| pt_Name := §"cli"; SuperadminIDs := [§"local"] |}; {| pt_Name := §"tg"; SuperadminIDs := [§"7"] |}].
Definition demo_meta : Metadata :=
  {| ScheduleMode := §"once"; TriggerMode := §"direct"; Title := §"t"; Message := §"hello"; CreatorID := []; AllEnabledPlatforms := true; SourcePlatform := [] |}.
Definition no_result : RunResult := {| rr_RunID := []; rr_TakenOver := false; rr_Outcome := []; rr_SessionID := []; rr_MessageID := []; rr_Text := [] |}.
Definition demo_env : run_env :=
  {| re_id := inr §"run-1"; re_model := None; re_first := (no_result, None); re_second := (no_result, None); re_copy := λ _ _, None |}.
Definition demo_parse : gostring → res JSONResult := λ _, Err §"bad".
Definition demo_world : world :=
  {| w_replies := []; w_record := Some {| r_Enabled := true; r_Token := []; r_State := empty_state |}; w_events := [] |}.
Definition send_fails : reply :=
  {| rp_taken := inr false; rp_ended := false; rp_build := None; rp_send := Some §"offline"; rp_partial := false; rp_db := None; rp_others := λ r, r |}.
(** The second target fails during the first attempt, and gets its message when its platform connects. *)
Definition demo_attempts : list attempt :=
  [{| at_env := demo_env; at_missed := None; at_load := None; at_replies := repeat smooth 7 ++ [send_fails] |};
   {| at_env := demo_env; at_missed := Some (§"tg", true); at_load := None; at_replies := [] |}].
Definition sends_of (es : list event) : list (gostring * bool) :=
  es ≫= λ e, match e with ESend t _ _ ok => [(t_Platform t, ok)] | _ => [] end.
Lemma job_run_is_safe_witness :
  fst (run_job demo_platforms demo_meta demo_parse demo_env false [] {| r_Enabled := true; r_Token := []; r_State := empty_state |} demo_world) ≠ Panic.
Proof.
  eapply (job_run_is_safe demo_platforms demo_meta demo_parse demo_env false [] _ demo_world).
  - intros id [= <-]. by vm_compute.
  - apply surjective_pairing.
Defined.
Lemma direct_report_arrives_witness : ∃ w' st, Handler demo_platforms demo_meta demo_parse demo_env None demo_world = (Ok tt, w')
    ∧ w_record w' = Some {| r_Enabled := false; r_Token := §"run-1"; r_State := st |}
    ∧ ∀ t, t ∈ resolveDeliveryTargets demo_platforms demo_meta → is_done st t text_id.
Proof. apply (direct_report_arrives demo_platforms demo_meta demo_parse demo_env §"run-1" demo_world _ eq_refl eq_refl); by vm_compute. Defined.
