(* ===== verification/Elnis.v ===== *)
(** * Events from other programs ([background/elnis/prepare.go], [targets.go], [auth.go], [background.go], [elvena/origin.go])

    What a request must be like to be accepted, where its outputs may go and what
    it may use. JSON, hashes, RFC 3339 times, media types and base64 decoding are
    parameters, and so is the expansion of tool selections; two event times that
    the code reads from the clock are left out. *)
From S2P Require Import Prelude GoStr GoPath Admission CronDelivery CronRun.
Open Scope nat_scope.

Definition ModeRecord : gostring := §"record".
Definition ModeDirect : gostring := §"direct".
Definition ModeLLM : gostring := §"llm".
Record ETarget := { et_Platform : gostring; et_Type : gostring; et_ID : gostring }.
#[export] Instance ETarget_eq_dec : EqDecision ETarget.
Proof. solve_decision. Defined.
Record ECall := { c_Platform : gostring; c_API : gostring; c_Params : gostring }.
Record ESegment := { es_Kind : gostring; es_Text : gostring; es_URL : gostring; es_Name : gostring; es_MIMEType : gostring }.
Record EOutput := { eo_Kind : gostring; eo_Text : gostring; eo_Name : gostring; eo_URL : gostring; eo_MediaID : gostring;
  eo_MIMEType : gostring; eo_Data : gostring }.
Record EDeclaration := { d_Name : gostring; d_Endpoint : gostring; d_CanonicalName : gostring; d_EventKey : gostring; d_RiskLow : bool }.
(** The fields of a request that decide anything; [q_Rest] stands for the others. *)
Record ERequest := {
  q_Version : gostring; q_Elwisp : gostring; q_Tags : list gostring; q_Source : gostring; q_ID : gostring; q_CreatedAt : gostring;
  q_Mode : gostring; q_Format : gostring; q_Content : gostring; q_ModelSlot : gostring; q_ToolListNames : list gostring;
  q_Tools : list EDeclaration; q_Segments : list ESegment; q_Targets : list ETarget; q_Calls : list ECall; q_Rest : gostring
}.
Inductive OriginKind := OriginHTTPToken | OriginHook | OriginInternal | OriginOther (kind : gostring).
#[export] Instance OriginKind_eq_dec : EqDecision OriginKind.
Proof. solve_decision. Defined.
Record Origin := { o_Kind : OriginKind; o_Name : gostring }.
Record Event := {
  ev_Segments : list EOutput; ev_Request : ERequest; ev_Origin : Origin; ev_EventKey : gostring; ev_ContentHash : gostring;
  ev_Resolved : list ETarget
}.
Record ElwispPolicy := {
  p_Enabled : option bool; p_AllowedTokens : list gostring; p_AllowedTools : option (list gostring); p_DisabledExternalTools : list gostring;
  p_DisabledTargets : list ETarget
}.
Record ElnisConfig := { g_AllowedTools : list gostring; g_Disabled : list ETarget; g_MaxFileBytes : Z; g_Elwisps : gmap gostring ElwispPolicy }.

Section Elnis.
Context `{UnicodeTables} (g : ElnisConfig) (enabledPlatforms : list gostring).
(** [url.Parse] (scheme and host), the text of a URL with its scheme in lower case, [strings.EqualFold], [mime.ParseMediaType],
    base64 decoding, [time.Parse] (its error), the hash of a request and the expansion of a tool selection. *)
Context (url_parse : gostring → option (gostring * gostring)) (url_string : gostring → gostring) (equal_fold : gostring → gostring → bool)
  (mime_parse : gostring → option gostring) (base64_decode : gostring → res gostring) (rfc3339 : gostring → option gostring)
  (contentHash : ERequest → gostring) (selections : list gostring → res (list (list gostring))).

Definition Origin_Validate (o : Origin) : res unit :=
  match o_Kind o with
  | OriginOther kind => Err (§"unsupported elvena origin kind " ++ quote kind)
  | _ => if bool_decide (trim_space (o_Name o) = []) then Err §"elvena origin name is required" else Ok tt
  end.

(** ** Segments *)
Definition source_output (seg : ESegment) (url media mime data : gostring) : EOutput :=
  {| eo_Kind := es_Kind seg; eo_Text := es_Text seg; eo_Name := es_Name seg; eo_URL := url; eo_MediaID := media; eo_MIMEType := mime; eo_Data := data |}.
Definition base64_suffix : gostring := §";base64".
Definition data_segment (seg : ESegment) (value : gostring) (maxBytes : Z) : res EOutput :=
  let '(header, encoded, ok) := cut §"," value in
  if negb ok || negb (has_suffix base64_suffix (to_lower header)) then Err §"data URL must use base64 encoding"
  else
    (* header[len("data:") : len(header)-len(";base64")] *)
    if length header - length base64_suffix <? length §"data:" then Panic
    else
      match mime_parse (drop (length §"data:") (take (length header - length base64_suffix) header)) with
      | None => Err §"invalid data URL MIME type"
      | Some mimeType =>
        if negb (bool_decide (es_MIMEType seg = [])) && negb (equal_fold (es_MIMEType seg) mimeType) then Err §"mime_type does not match data URL"
        else if (0 <? maxBytes)%Z && (wrap64 (maxBytes + 2) <? Z.of_nat (length encoded / 4 * 3))%Z then Err §"data URL exceeds media size limit"
        else let* data := res_wrap §"decode data URL: " (base64_decode encoded) in Ok (source_output seg [] [] mimeType data)
      end.
Definition validateMediaSegment (seg : ESegment) (maxBytes : Z) : res EOutput :=
  if bool_decide (es_Kind seg = §"text") then
    if negb (bool_decide (es_URL seg = [])) then Err §"text segment cannot contain media" else Ok (source_output seg [] [] (es_MIMEType seg) [])
  else if negb (bool_decide (es_Kind seg = §"image") || bool_decide (es_Kind seg = §"file")) then
    Err (§"unsupported segment kind " ++ quote (es_Kind seg))
  else
    let value := trim_space (es_URL seg) in
    match url_parse value with
    | None => Err §"invalid media URL"
    | Some (scheme, host) =>
      let scheme := to_lower scheme in
      if bool_decide (scheme = §"media") then
        if ValidID value then Ok (source_output seg [] value (es_MIMEType seg) []) else Err §"invalid media ID"
      else if bool_decide (scheme = §"http") || bool_decide (scheme = §"https") then
        if bool_decide (host = []) then Err §"media URL requires a host" else Ok (source_output seg (url_string value) [] (es_MIMEType seg) [])
      else if bool_decide (scheme = §"data") then data_segment seg value maxBytes
      else Err §"media source must be a media ID, HTTP(S) URL or base64 data URL"
    end.
Fixpoint validateSegments (i : nat) (segments : list ESegment) : res (list EOutput) :=
  match segments with
  | [] => Ok []
  | seg :: segments =>
    let* out := res_wrap (§"segment " ++ itoa (Z.of_nat i) ++ §": ") (validateMediaSegment seg (g_MaxFileBytes g)) in
    let* rest := validateSegments (S i) segments in Ok (out :: rest)
  end.

(** ** Targets *)
Definition trim_target (t : ETarget) : ETarget :=
  {| et_Platform := trim_space (et_Platform t); et_Type := trim_space (et_Type t); et_ID := trim_space (et_ID t) |}.
Definition normalizeTarget (target : ETarget) : res ETarget :=
  let target := trim_target target in
  if bool_decide (et_Platform target = []) then Err §"targets.platform is required"
  else if bool_decide (et_Platform target = §"all") then
    if negb (bool_decide (et_Type target = [])) || negb (bool_decide (et_ID target = [])) then Err §"targets with platform all cannot set type or id"
    else Ok target
  else if bool_decide (et_Type target = []) then
    if negb (bool_decide (et_ID target = [])) then Err §"targets.id requires type" else Ok target
  else if bool_decide (et_Type target = §"private") || bool_decide (et_Type target = §"group") then
    if bool_decide (et_ID target = []) then Err (§"targets.id is required for " ++ et_Type target ++ §" target") else Ok target
  else Err (§"unsupported target type " ++ quote (et_Type target)).
Fixpoint normalize_all (targets : list ETarget) : res (list ETarget) :=
  match targets with
  | [] => Ok []
  | t :: targets => let* t := normalizeTarget t in let* rest := normalize_all targets in Ok (t :: rest)
  end.
Definition target_compare (a b : ETarget) : comparison :=
  match compare_string (et_Platform a) (et_Platform b) with
  | Eq => match compare_string (et_Type a) (et_Type b) with Eq => compare_string (et_ID a) (et_ID b) | c => c end
  | c => c
  end.
Definition target_le (a b : ETarget) : Prop := target_compare a b ≠ Gt.
#[export] Instance target_le_dec : RelDecision target_le.
Proof using. intros a b. unfold target_le. destruct (target_compare a b); [left; done|left; done|right; by intros N]. Defined.
Definition keep_first (targets : list ETarget) : list ETarget :=
  foldl (λ out t, if bool_decide (t ∈ out) then out else out ++ [t]) [] targets.
Definition uniqueTargets (targets : list ETarget) : list ETarget := merge_sort target_le (keep_first targets).
Definition normalizeTargets (targets : list ETarget) : res (list ETarget) :=
  match targets with
  | [] => Err §"targets is required"
  | _ => let* out := normalize_all targets in Ok (uniqueTargets out)
  end.
Definition disabledTargetMatches (disabled target : ETarget) : bool :=
  let disabled := trim_target disabled in
  bool_decide (et_Platform disabled = et_Platform target)
  && ((bool_decide (et_Type disabled = []) && bool_decide (et_ID disabled = []))
      || (bool_decide (et_Type disabled = et_Type target) && bool_decide (et_ID disabled = et_ID target))).
Definition targetDisabled (elwispName : gostring) (target : ETarget) : bool :=
  existsb (λ d, disabledTargetMatches d target) (g_Disabled g)
  || match g_Elwisps g !! elwispName with Some policy => existsb (λ d, disabledTargetMatches d target) (p_DisabledTargets policy) | None => false end.
Definition candidates (target : ETarget) : list ETarget :=
  if bool_decide (et_Platform target = §"all")
  then map (λ p, {| et_Platform := p; et_Type := []; et_ID := [] |}) enabledPlatforms else [target].
Definition rejection (elwispName : gostring) (c : ETarget) : option gostring :=
  if negb (bool_decide (et_Platform c ∈ enabledPlatforms)) then Some (et_Platform c ++ §": platform is not enabled")
  else if targetDisabled elwispName c then Some (et_Platform c ++ §"/" ++ et_Type c ++ §"/" ++ et_ID c ++ §": target is disabled")
  else None.
Definition resolveTargets (req : ERequest) : res (list ETarget) :=
  let all := q_Targets req ≫= candidates in
  let resolved := uniqueTargets (List.filter (λ c, match rejection (q_Elwisp req) c with None => true | Some _ => false end) all) in
  let rejected := q_Targets req ≫= λ t,
    (if bool_decide (et_Platform t = §"all") && bool_decide (enabledPlatforms = []) then [§"all: no enabled platforms"] else [])
    ++ (candidates t ≫= λ c, match rejection (q_Elwisp req) c with None => [] | Some r => [r] end) in
  if bool_decide (resolved = []) && (bool_decide (q_Mode req = ModeDirect) || bool_decide (q_Mode req = ModeLLM))
  then Err (§"no allowed delivery targets: " ++ join §"; " rejected) else Ok resolved.

(** ** The request *)
Definition isElnisModelSlot (slot : gostring) : bool := bool_decide (trim_space slot ∈ [§"elwisp1"; §"elwisp2"; §"elwisp3"]).
Definition elwisp_name (s : gostring) : bool := negb (bool_decide (s = [])) && forallb (name_char false) s.
Definition trim_request (q : ERequest) : ERequest :=
  {| q_Version := trim_space (q_Version q); q_Elwisp := trim_space (q_Elwisp q); q_Tags := q_Tags q; q_Source := trim_space (q_Source q);
     q_ID := trim_space (q_ID q); q_CreatedAt := q_CreatedAt q; q_Mode := trim_space (q_Mode q); q_Format := trim_space (q_Format q);
     q_Content := trim_space (q_Content q); q_ModelSlot := trim_space (q_ModelSlot q); q_ToolListNames := q_ToolListNames q;
     q_Tools := q_Tools q; q_Segments := q_Segments q; q_Targets := q_Targets q; q_Calls := q_Calls q; q_Rest := q_Rest q |}.
Definition with_format (q : ERequest) (format : gostring) (targets : list ETarget) : ERequest :=
  {| q_Version := q_Version q; q_Elwisp := q_Elwisp q; q_Tags := q_Tags q; q_Source := q_Source q; q_ID := q_ID q; q_CreatedAt := q_CreatedAt q;
     q_Mode := q_Mode q; q_Format := format; q_Content := q_Content q; q_ModelSlot := q_ModelSlot q; q_ToolListNames := q_ToolListNames q;
     q_Tools := q_Tools q; q_Segments := q_Segments q; q_Targets := targets; q_Calls := q_Calls q; q_Rest := q_Rest q |}.
(** The checks of [prepareEvent] up to the segments. *)
Definition check_request (q : ERequest) : res unit :=
  if negb (bool_decide (q_Version q = §"elvena.v2") || bool_decide (q_Version q = §"elvena.v3")) then
    Err (§"unsupported ELvena version " ++ quote (q_Version q))
  else if bool_decide (q_Elwisp q = []) then Err §"elwisp.name is required"
  else if negb (elwisp_name (q_Elwisp q)) then Err §"elwisp.name must use only letters, digits, _ or -"
  else if bool_decide (q_Source q = []) then Err §"source is required"
  else if bool_decide (q_ID q = []) then Err §"id is required"
  else if bool_decide (q_Content q = []) && bool_decide (length (q_Segments q) = 0) && bool_decide (length (q_Calls q) = 0) then
    Err §"content, segments or calls is required"
  else if negb (bool_decide (q_Format q ∈ [[]; §"text"; §"elyph"])) then Err (§"unsupported format " ++ quote (q_Format q))
  else if negb (bool_decide (q_Mode q ∈ [ModeRecord; ModeDirect; ModeLLM])) then Err (§"unsupported mode " ++ quote (q_Mode q))
  else if bool_decide (q_Mode q = ModeLLM) && bool_decide (q_Content q = []) then Err §"content is required for llm mode"
  else if negb (bool_decide (q_ModelSlot q = [])) && negb (isElnisModelSlot (q_ModelSlot q)) then
    Err (§"unsupported model_slot " ++ quote (q_ModelSlot q))
  else Ok tt.
Definition event_key (q : ERequest) : gostring := q_Elwisp q ++ §"/" ++ q_Source q ++ §"/" ++ q_ID q.
Definition prepareEvent (origin : Origin) (req : ERequest) : res Event :=
  let req := trim_request req in
  let* _ := check_request req in
  let* segments := validateSegments 0 (q_Segments req) in
  let created := trim_space (q_CreatedAt req) in
  let* _ := (if bool_decide (created = []) then Ok tt
             else match rfc3339 created with None => Ok tt | Some e => Err (§"created_at must be RFC3339: " ++ e) end) in
  let* targets := normalizeTargets (q_Targets req) in
  let req := with_format req (if bool_decide (q_Format req = []) then §"text" else q_Format req) targets in
  let* resolved := resolveTargets req in
  Ok {| ev_Segments := segments; ev_Request := req; ev_Origin := origin; ev_EventKey := event_key req; ev_ContentHash := contentHash req;
        ev_Resolved := resolved |}.

(** ** Who may do what *)
Definition trimStrings (values : list gostring) : list gostring := List.filter (λ v, negb (bool_decide (v = []))) (map trim_space values).
(** The tokens by name, in the order in which the map is walked. *)
Definition authenticate (tokens : list (gostring * gostring)) (token : gostring) : option gostring :=
  let token := trim_space token in
  if bool_decide (token = []) then None
  else fst <$> List.find (λ '(_, value), bool_decide (token = value)) tokens.
Definition authorizeElwisp (event : Event) : res unit :=
  let name := q_Elwisp (ev_Request event) in
  match g_Elwisps g !! name with
  | None => Ok tt
  | Some policy =>
    if bool_decide (p_Enabled policy = Some false) then Err (§"elwisp " ++ quote name ++ §" is disabled")
    else
      let allowed := trimStrings (p_AllowedTokens policy) in
      if bool_decide (allowed = []) || negb (bool_decide (o_Kind (ev_Origin event) = OriginHTTPToken)) || bool_decide (o_Name (ev_Origin event) ∈ allowed)
      then Ok tt
      else Err (§"token " ++ quote (o_Name (ev_Origin event)) ++ §" is not allowed for elwisp " ++ quote name)
  end.
Definition allowedInternalTools (elwispName : gostring) : list gostring :=
  trimStrings (match g_Elwisps g !! elwispName with
               | Some policy => default (g_AllowedTools g) (p_AllowedTools policy)
               | None => g_AllowedTools g
               end).
Definition authorizeInternalTools (event : Event) : res unit :=
  let req := ev_Request event in
  let* selected := selections (q_ToolListNames req) in
  match List.find (λ name, negb (bool_decide (name ∈ allowedInternalTools (q_Elwisp req)))) (concat selected) with
  | Some name => Err (§"tool " ++ quote name ++ §" is not allowed for elwisp " ++ quote (q_Elwisp req))
  | None => Ok tt
  end.
Definition authorizeExternalTools (event : Event) : res unit :=
  let req := ev_Request event in
  let disabled := match g_Elwisps g !! q_Elwisp req with Some policy => trimStrings (p_DisabledExternalTools policy) | None => [] end in
  match List.find (λ d, bool_decide (trim_space (d_Name d) ∈ disabled)) (q_Tools req) with
  | Some d => Err (§"external tool " ++ quote (trim_space (d_Name d)) ++ §" is disabled for elwisp " ++ quote (q_Elwisp req))
  | None => Ok tt
  end.
(** A request that may run: what [DispatchElvena] and [handlePreparedEvent] check before they look at the store. *)
Definition admit_event (origin : Origin) (req : ERequest) : res Event :=
  let* _ := Origin_Validate origin in
  let* event := prepareEvent origin req in
  let* _ := authorizeElwisp event in
  let* _ := authorizeInternalTools event in
  let* _ := authorizeExternalTools event in
  Ok event.

(** ** What a run gets *)
Definition elwispToolName (elwispName name : gostring) : gostring :=
  §"elwisp_" ++ replace_runs false false (trim_space elwispName) ++ §"_" ++ replace_runs false false (trim_space name).
Definition elwispTools (event : Event) : list EDeclaration :=
  map (λ d, {| d_Name := trim_space (d_Name d); d_Endpoint := trim_space (d_Endpoint d);
               d_CanonicalName := elwispToolName (q_Elwisp (ev_Request event)) (trim_space (d_Name d)); d_EventKey := ev_EventKey event;
               d_RiskLow := true |}) (q_Tools (ev_Request event)).
Definition elnisSandboxSubdir (elwispName : gostring) : gostring := Join §"elnis" (trim_space elwispName).
Definition uniqueSorted (values : list gostring) : list gostring :=
  merge_sort (λ a b, compare_string a b ≠ Gt) (foldl (λ out v, if bool_decide (v ∈ out) then out else out ++ [v]) [] (trimStrings values)).
End Elnis.
