(* ===== verification/ElnisProps.v ===== *)
(** * What an accepted event is like (Elnis.v) *)
From S2P Require Import Prelude GoStr GoPath Admission AdmissionProps CronDelivery CronRun Elnis.
Open Scope nat_scope.

(** ** The order of targets *)
Definition target_strings (t : ETarget) : list gostring := [et_Platform t; et_Type t; et_ID t].
Lemma target_compare_list a b : target_compare a b = compare_list compare_string (target_strings a) (target_strings b).
Proof. unfold target_compare. cbn. repeat case_match; done. Qed.
Lemma cmp_ok_target : cmp_ok target_compare.
Proof.
  pose proof (cmp_ok_list _ (cmp_ok_list _ cmp_ok_byte)) as [E O T]. split.
  - intros a b. rewrite target_compare_list. unfold compare_string. rewrite E. destruct a, b. cbn. split; [by intros [= -> -> ->]|by intros [= -> -> ->]].
  - intros a b. rewrite !target_compare_list. apply O.
  - intros a b c. rewrite !target_compare_list. apply T.
Qed.
Definition target_lt (a b : ETarget) : Prop := target_compare a b = Lt.
#[export] Instance target_le_total : Total target_le.
Proof. intros a b. unfold target_le. rewrite (cmp_opp _ cmp_ok_target a b). destruct (target_compare a b); cbn; auto. Qed.
#[export] Instance target_le_trans : Transitive target_le.
Proof.
  intros a b c. unfold target_le. intros Hab Hbc Hac. assert (Hca : target_compare c a = Lt) by (by rewrite (cmp_opp _ cmp_ok_target a c), Hac).
  destruct (target_compare a b) eqn:Eab; [| |done].
  - apply (cmp_eq _ cmp_ok_target) in Eab as ->. by rewrite Hac in Hbc.
  - destruct (target_compare b c) eqn:Ebc; [| |done].
    + apply (cmp_eq _ cmp_ok_target) in Ebc as ->. congruence.
    + pose proof (cmp_trans _ cmp_ok_target a b c Eab Ebc). congruence.
Qed.
#[export] Instance target_le_antisym : AntiSymm (=) target_le.
Proof.
  intros a b. unfold target_le. rewrite (cmp_opp _ cmp_ok_target a b). destruct (target_compare a b) eqn:E; cbn; try done.
  intros _ _. by apply (cmp_eq _ cmp_ok_target).
Qed.
Lemma sorted_strict l : StronglySorted target_le l → NoDup l → StronglySorted target_lt l.
Proof.
  induction 1 as [|a l S IH F]; intros N; constructor; apply NoDup_cons in N as [Na N]; [by apply IH|]. rewrite Forall_forall in *. intros b I. specialize (F b I).
  unfold target_lt, target_le in *. destruct (target_compare a b) eqn:E; try done. apply (cmp_eq _ cmp_ok_target) in E. by subst.
Qed.

(** ** Unique targets *)
Lemma keep_first_app l x : keep_first (l ++ [x]) = if bool_decide (x ∈ keep_first l) then keep_first l else keep_first l ++ [x].
Proof. unfold keep_first. by rewrite foldl_app. Qed.
Lemma keep_first_elem l t : t ∈ keep_first l ↔ t ∈ l.
Proof.
  induction l as [|x l IH] using rev_ind; [done|]. rewrite keep_first_app. destruct (decide (x ∈ keep_first l)) as [I|N].
  - rewrite bool_decide_eq_true_2 by done. rewrite IH. set_solver.
  - rewrite bool_decide_eq_false_2 by done. set_solver.
Qed.
Lemma keep_first_nodup l : NoDup (keep_first l).
Proof.
  induction l as [|x l IH] using rev_ind; [constructor|]. rewrite keep_first_app. case_bool_decide as N; [done|].
  apply NoDup_app. split_and!; [done| |apply NoDup_singleton]. intros y I J%list_elem_of_singleton. by subst.
Qed.
Lemma keep_first_id l : NoDup l → keep_first l = l.
Proof.
  induction l as [|x l IH] using rev_ind; [done|]. intros (Nl & Dx & _)%NoDup_app. rewrite keep_first_app, IH by done.
  rewrite bool_decide_eq_false_2; [done|]. intros I. by apply (Dx x I), list_elem_of_singleton.
Qed.
Lemma unique_elem l t : t ∈ uniqueTargets l ↔ t ∈ l.
Proof. unfold uniqueTargets. by rewrite merge_sort_Permutation, keep_first_elem. Qed.
Lemma unique_sorted l : StronglySorted target_lt (uniqueTargets l).
Proof.
  apply sorted_strict; [apply (StronglySorted_merge_sort target_le)|]. unfold uniqueTargets. rewrite (merge_sort_Permutation target_le). apply keep_first_nodup.
Qed.
Lemma sorted_le l : StronglySorted target_lt l → StronglySorted target_le l.
Proof. induction 1 as [|a l S IH F]; constructor; [done|]. eapply Forall_impl; [exact F|]. unfold target_lt, target_le. by intros b ->. Qed.
Lemma sorted_nodup_targets l : StronglySorted target_lt l → NoDup l.
Proof.
  induction 1 as [|a l S IH F]; constructor; [|done]. intros I. rewrite Forall_forall in F. specialize (F a I). unfold target_lt in F.
  by rewrite (proj2 (cmp_eq _ cmp_ok_target a a) eq_refl) in F.
Qed.
Lemma unique_id l : StronglySorted target_lt l → uniqueTargets l = l.
Proof.
  intros S. unfold uniqueTargets. rewrite keep_first_id by (by apply sorted_nodup_targets).
  apply (StronglySorted_unique target_le); [apply (StronglySorted_merge_sort target_le)|by apply sorted_le|apply merge_sort_Permutation].
Qed.
Lemma unique_idem l : uniqueTargets (uniqueTargets l) = uniqueTargets l.
Proof. apply unique_id, unique_sorted. Qed.

(** ** Normal targets *)
Section Targets.
Context `{UnicodeTables} (g : ElnisConfig) (enabledPlatforms : list gostring).
(** A normalised target. *)
Definition normal_target (t : ETarget) : Prop := normalizeTarget t = Ok t.
Lemma trim_target_idem t : trim_target (trim_target t) = trim_target t.
Proof using. unfold trim_target. cbn [et_Platform et_Type et_ID]. by rewrite !trim_space_idem. Qed.
Lemma normalized_normal t t' : normalizeTarget t = Ok t' → normal_target t'.
Proof using.
  unfold normal_target. intros E. assert (t' = trim_target t) as ->.
  { unfold normalizeTarget in E. repeat case_bool_decide; cbn [negb orb] in E; first [discriminate E|by injection E as <-]. }
  unfold normalizeTarget in *. by rewrite trim_target_idem.
Qed.
Lemma normalize_all_normal l out : normalize_all l = Ok out → Forall normal_target out ∧ length out = length l.
Proof using.
  revert out. induction l as [|t l IH]; intros out; cbn [normalize_all]; [by intros [= <-]|]. intros (t' & T & (o & (F & L)%IH & [= <-])%res_bind_ok)%res_bind_ok.
  split; [constructor; [by eapply normalized_normal|done]|cbn; lia].
Qed.
Lemma normal_all l : Forall normal_target l → normalize_all l = Ok l.
Proof using. induction 1 as [|t l N F IH]; [done|]. cbn [normalize_all]. rewrite N. cbn. by rewrite IH. Qed.
Lemma unique_nil l : uniqueTargets l = [] → l = [].
Proof using. destruct l as [|t l]; [done|]. intros E. assert (t ∈ uniqueTargets (t :: l)) as I by (rewrite unique_elem; by left). rewrite E in I. by apply not_elem_of_nil in I. Qed.
Lemma normalizeTargets_spec l out : normalizeTargets l = Ok out → out ≠ [] ∧ Forall normal_target out ∧ StronglySorted target_lt out.
Proof using.
  unfold normalizeTargets. destruct l as [|t l]; [done|]. intros (o & [F L]%normalize_all_normal & [= <-])%res_bind_ok. split_and!.
  - intros ->%unique_nil. discriminate L.
  - rewrite Forall_forall in *. intros x I. rewrite unique_elem in I. by apply F.
  - apply unique_sorted.
Qed.
Lemma normalizeTargets_idem l out : normalizeTargets l = Ok out → normalizeTargets out = Ok out.
Proof using.
  intros (N & F & S)%normalizeTargets_spec. unfold normalizeTargets. destruct out as [|t out]; [done|]. rewrite normal_all by done. cbn [res_bind].
  by rewrite unique_id.
Qed.
Lemma resolve_spec req resolved : resolveTargets g enabledPlatforms req = Ok resolved →
  StronglySorted target_lt resolved ∧ (∀ c, c ∈ resolved ↔ (∃ t, t ∈ q_Targets req ∧ c ∈ candidates enabledPlatforms t)
    ∧ et_Platform c ∈ enabledPlatforms ∧ targetDisabled g (q_Elwisp req) c = false)
  ∧ (q_Mode req = ModeDirect ∨ q_Mode req = ModeLLM → resolved ≠ []).
Proof using.
  unfold resolveTargets. intros E.
  assert (resolved = uniqueTargets (List.filter (λ c, match rejection g enabledPlatforms (q_Elwisp req) c with None => true | Some _ => false end)
    (q_Targets req ≫= candidates enabledPlatforms)) ∧ ((q_Mode req = ModeDirect ∨ q_Mode req = ModeLLM) → resolved ≠ [])) as [-> Ne].
  { destruct (bool_decide _ && _) eqn:B in E; [done|]. injection E as <-. split; [done|]. intros M Z. rewrite Z in B.
    rewrite bool_decide_eq_true_2 in B by done. cbn in B. apply orb_false_iff in B as [B1 B2].
    apply bool_decide_eq_false in B1, B2. by destruct M. }
  split_and!; [apply unique_sorted| |done]. intros c. rewrite unique_elem, list_elem_of_In, List.filter_In, <- list_elem_of_In, list_elem_of_bind.
  assert (R : match rejection g enabledPlatforms (q_Elwisp req) c with None => true | Some _ => false end = true ↔
    et_Platform c ∈ enabledPlatforms ∧ targetDisabled g (q_Elwisp req) c = false).
  { unfold rejection. destruct (decide (et_Platform c ∈ enabledPlatforms)) as [P|P]; [rewrite bool_decide_eq_true_2 by done|rewrite bool_decide_eq_false_2 by done; naive_solver].
    cbn [negb]. destruct (targetDisabled g (q_Elwisp req) c); naive_solver. }
  rewrite R. naive_solver.
Qed.
End Targets.

(** ** Accepted requests *)
Section Accepted.
Context `{UnicodeTables} (g : ElnisConfig) (enabledPlatforms : list gostring).
Context (url_parse : gostring → option (gostring * gostring)) (url_string : gostring → gostring) (equal_fold : gostring → gostring → bool)
  (mime_parse : gostring → option gostring) (base64_decode : gostring → res gostring) (rfc3339 : gostring → option gostring)
  (contentHash : ERequest → gostring) (selections : list gostring → res (list (list gostring))).
Abbreviation prepare := (prepareEvent g enabledPlatforms url_parse url_string equal_fold mime_parse base64_decode rfc3339 contentHash).
Abbreviation admitted := (admit_event g enabledPlatforms url_parse url_string equal_fold mime_parse base64_decode rfc3339 contentHash selections).

(** What is allowed to be in an accepted event. *)
Record accepted (origin : Origin) (ev : Event) : Prop := {
  ac_origin : ev_Origin ev = origin ∧ trim_space (o_Name origin) ≠ [] ∧ (∀ k, o_Kind origin ≠ OriginOther k);
  ac_name : q_Elwisp (ev_Request ev) ≠ [] ∧ forallb (name_char false) (q_Elwisp (ev_Request ev)) = true ∧ trim_space (q_Elwisp (ev_Request ev)) = q_Elwisp (ev_Request ev);
  ac_elwisp : ∀ policy, g_Elwisps g !! q_Elwisp (ev_Request ev) = Some policy → p_Enabled policy ≠ Some false
    ∧ (trimStrings (p_AllowedTokens policy) ≠ [] → o_Kind origin = OriginHTTPToken → o_Name origin ∈ trimStrings (p_AllowedTokens policy))
    ∧ ∀ d, d ∈ q_Tools (ev_Request ev) → trim_space (d_Name d) ∉ trimStrings (p_DisabledExternalTools policy);
  ac_tools : ∃ sel, selections (q_ToolListNames (ev_Request ev)) = Ok sel ∧ ∀ name, name ∈ concat sel → name ∈ allowedInternalTools g (q_Elwisp (ev_Request ev));
  ac_targets : q_Targets (ev_Request ev) ≠ [] ∧ Forall normal_target (q_Targets (ev_Request ev)) ∧ StronglySorted target_lt (q_Targets (ev_Request ev));
  ac_resolved : StronglySorted target_lt (ev_Resolved ev)
    ∧ (∀ c, c ∈ ev_Resolved ev ↔ (∃ t, t ∈ q_Targets (ev_Request ev) ∧ c ∈ candidates enabledPlatforms t)
        ∧ et_Platform c ∈ enabledPlatforms ∧ targetDisabled g (q_Elwisp (ev_Request ev)) c = false)
    ∧ (q_Mode (ev_Request ev) = ModeDirect ∨ q_Mode (ev_Request ev) = ModeLLM → ev_Resolved ev ≠ [])
}.
Lemma check_name q : check_request q = Ok tt → q_Elwisp q ≠ [] ∧ forallb (name_char false) (q_Elwisp q) = true.
Proof using.
  unfold check_request. destruct (negb _); [done|]. destruct (bool_decide (q_Elwisp q = [])) eqn:E; [done|].
  destruct (elwisp_name (q_Elwisp q)) eqn:N; [|done]. intros _. unfold elwisp_name in N. apply andb_true_iff in N as [_ N].
  split; [|done]. by apply bool_decide_eq_false in E.
Qed.
(** What [prepareEvent] has checked and computed. *)
Lemma prepare_event_spec origin req ev : prepare origin req = Ok ev → ∃ segments targets resolved,
  check_request (trim_request req) = Ok tt ∧ normalizeTargets (q_Targets req) = Ok targets
  ∧ ev_Request ev = with_format (trim_request req) (if bool_decide (q_Format (trim_request req) = []) then §"text" else q_Format (trim_request req)) targets
  ∧ resolveTargets g enabledPlatforms (ev_Request ev) = Ok resolved ∧ ev_Resolved ev = resolved ∧ ev_Origin ev = origin
  ∧ validateSegments g url_parse url_string equal_fold mime_parse base64_decode 0 (q_Segments req) = Ok segments
  ∧ ev_Segments ev = segments ∧ ev_EventKey ev = event_key (ev_Request ev) ∧ ev_ContentHash ev = contentHash (ev_Request ev)
  ∧ (trim_space (q_CreatedAt req) = [] ∨ rfc3339 (trim_space (q_CreatedAt req)) = None).
Proof using.
  unfold prepareEvent. intros ([] & C & (segments & S & (u & T & (targets & N & (resolved & R & [= <-])%res_bind_ok)%res_bind_ok)%res_bind_ok)%res_bind_ok)%res_bind_ok.
  exists segments, targets, resolved. cbn [ev_Request ev_Resolved ev_Origin ev_Segments ev_EventKey ev_ContentHash]. split_and!; try done.
  clear R. destruct (decide (trim_space (q_CreatedAt req) = [])) as [Z|Z]; [by left|right].
  rewrite bool_decide_eq_false_2 in T by done. cbn [trim_request q_CreatedAt] in T. by destruct (rfc3339 _).
Qed.
Lemma find_none_forall {A} (p : A → bool) l : List.find p l = None → ∀ x, x ∈ l → p x = false.
Proof using. intros F x I. eapply find_none; [done|]. by apply list_elem_of_In. Qed.
Lemma admitted_accepted origin req ev : admitted origin req = Ok ev → accepted origin ev.
Proof using.
  unfold admit_event. intros ([] & O & (e & P & ([] & A & ([] & I & ([] & X & [= <-])%res_bind_ok)%res_bind_ok)%res_bind_ok)%res_bind_ok)%res_bind_ok.
  apply prepare_event_spec in P as (segments & targets & resolved & C & N & Q & R & Z & Og & _). subst resolved.
  assert (Qt : q_Targets (ev_Request e) = targets) by (by rewrite Q). assert (Qe : q_Elwisp (ev_Request e) = q_Elwisp (trim_request req)) by (by rewrite Q).
  split.
  - split; [done|]. unfold Origin_Validate in O. clear C N R Q. destruct (o_Kind origin); try discriminate O; (case_bool_decide; [discriminate O|by split]).
  - rewrite Qe. destruct (check_name _ C) as [N1 N2]. split_and!; [done..|]. cbn [trim_request q_Elwisp]. apply trim_space_idem.
  - intros policy Pe. split_and!.
    + intros D. unfold authorizeElwisp in A. rewrite Pe in A. by rewrite D, bool_decide_eq_true_2 in A.
    + intros Ne K. unfold authorizeElwisp in A. rewrite Pe, Og in A. case_bool_decide; [done|]. rewrite K, (bool_decide_eq_false_2 _ Ne) in A.
      rewrite (bool_decide_eq_true_2 (OriginHTTPToken = OriginHTTPToken)) in A by done. cbn in A. by case_bool_decide.
    + intros d Id. unfold authorizeExternalTools in X. rewrite Pe in X. destruct (List.find _ _) eqn:F in X; [done|].
      apply (find_none_forall _ _ F) in Id. by apply bool_decide_eq_false in Id.
  - unfold authorizeInternalTools in I. apply res_bind_ok in I as (sel & S & I). exists sel. split; [done|]. intros name In.
    destruct (List.find _ _) eqn:F in I; [done|]. apply (find_none_forall _ _ F) in In. apply negb_false_iff, bool_decide_eq_true in In. done.
  - rewrite Qt. by eapply normalizeTargets_spec.
  - by apply resolve_spec.
Qed.
End Accepted.

(** ** What a run of an accepted event is given *)
Lemma name_char_not (c : ascii) s : name_char false c = false → forallb (name_char false) s = true → c ∉ s.
Proof. intros N F I. rewrite forallb_forall in F. rewrite (F c) in N by (by apply list_elem_of_In). done. Qed.
Lemma name_plain s : s ≠ [] → forallb (name_char false) s = true → plain s ∧ s ≠ dotdot.
Proof.
  intros Ne F. split; [split_and!; [by apply name_char_not|done|]|]; intros ->; by apply (name_char_not "."%char _ eq_refl F); left.
Qed.
Lemma sandbox_of_name name : name ≠ [] → forallb (name_char false) name = true → trim_space name = name → elnisSandboxSubdir name = §"elnis/" ++ name.
Proof.
  intros Ne F T. unfold elnisSandboxSubdir. rewrite T. destruct (name_plain name Ne F) as [(Ns & _ & Nd) Ndd].
  change (Join §"elnis" name) with (match name with [] => Clean §"elnis" | _ => Clean (§"elnis" ++ slash :: name) end). destruct name as [|c name]; [done|].
  unfold Clean. change (IsAbs (§"elnis" ++ slash :: c :: name)) with false. cbv iota. unfold clean_parts.
  rewrite split_byte_app by (by apply (bool_decide_unpack (slash ∉ §"elnis"))). rewrite (split_byte_free _ _ Ns). cbn [foldl].
  unfold clean_step. rewrite !bool_decide_eq_false_2 by (try done; intros [?|?]; done). reflexivity.
Qed.
Lemma replace_runs_chars dot s : ∀ inside, forallb (name_char dot) (replace_runs dot inside s) = true.
Proof. induction s as [|c s IH]; intros inside; [done|]. cbn. destruct (name_char dot c) eqn:C; [cbn; by rewrite C, IH|]. destruct inside; [apply IH|]. cbn. by rewrite IH. Qed.
Lemma tool_name_chars elwisp name : forallb (name_char false) (elwispToolName elwisp name) = true.
Proof. unfold elwispToolName. rewrite !forallb_app, !replace_runs_chars. done. Qed.
Lemma check_format `{UnicodeTables} r targets : check_request r = Ok tt →
  check_request (with_format r (if bool_decide (q_Format r = []) then §"text" else q_Format r) targets) = Ok tt.
Proof.
  unfold check_request. cbn [with_format q_Version q_Elwisp q_Source q_ID q_Content q_Segments q_Calls q_Format q_Mode q_ModelSlot].
  destruct (decide (q_Format r = [])) as [Z|Z].
  - rewrite (bool_decide_eq_true_2 _ Z), Z. rewrite !(bool_decide_eq_true_2 (_ ∈ [[]; _; _])) by set_solver. done.
  - by rewrite (bool_decide_eq_false_2 _ Z).
Qed.

(** ** The theorems *)
Section Theorems.
Context `{UnicodeTables} (g : ElnisConfig) (enabledPlatforms : list gostring).
Context (url_parse : gostring → option (gostring * gostring)) (url_string : gostring → gostring) (equal_fold : gostring → gostring → bool)
  (mime_parse : gostring → option gostring) (base64_decode : gostring → res gostring) (rfc3339 : gostring → option gostring)
  (contentHash : ERequest → gostring) (selections : list gostring → res (list (list gostring))).
Abbreviation prepare := (prepareEvent g enabledPlatforms url_parse url_string equal_fold mime_parse base64_decode rfc3339 contentHash).
Abbreviation admitted := (admit_event g enabledPlatforms url_parse url_string equal_fold mime_parse base64_decode rfc3339 contentHash selections).


(** C0: preparing is a projection: the request an event keeps is in normal form, so preparing it again gives the very same event, with
    the same segments, key, hash and resolved targets. *)
Theorem prepare_event_normal origin req ev : prepare origin req = Ok ev → prepare origin (ev_Request ev) = Ok ev.
Proof using.
  intros P. apply prepare_event_spec in P as (segments & targets & resolved & C & N & Q & R & Rs & Og & S & Sg & K & Hh & Cr).
  destruct ev as [sg q og key hash rs]. cbn [ev_Segments ev_Request ev_Origin ev_EventKey ev_ContentHash ev_Resolved] in *. subst sg og key hash rs.
  assert (Tq : trim_request q = q).
  { rewrite Q. unfold trim_request, with_format. cbn [q_Version q_Elwisp q_Tags q_Source q_ID q_CreatedAt q_Mode q_Format q_Content q_ModelSlot q_ToolListNames
      q_Tools q_Segments q_Targets q_Calls q_Rest]. rewrite !trim_space_idem. by destruct (bool_decide _); rewrite ?trim_space_idem. }
  assert (Cq : check_request q = Ok tt) by (rewrite Q; by apply check_format).
  assert (Fq : (if bool_decide (q_Format q = []) then §"text" else q_Format q) = q_Format q).
  { rewrite Q. cbn [with_format q_Format]. destruct (bool_decide (q_Format (trim_request req) = [])) eqn:Z; [done|]. by rewrite Z. }
  assert (Wq : with_format q (q_Format q) targets = q) by (by rewrite Q).
  unfold prepareEvent. rewrite Tq, Cq. cbn [res_bind]. replace (q_Segments q) with (q_Segments req) by (by rewrite Q). rewrite S. cbn [res_bind].
  replace (q_CreatedAt q) with (q_CreatedAt req) by (by rewrite Q). replace (q_Targets q) with targets by (by rewrite Q).
  assert (T : (if bool_decide (trim_space (q_CreatedAt req) = []) then Ok ()
    else match rfc3339 (trim_space (q_CreatedAt req)) with None => Ok () | Some e => Err (§"created_at must be RFC3339: " ++ e) end) = Ok ()).
  { destruct Cr as [Z|Z]; [by rewrite bool_decide_eq_true_2|]. rewrite Z. destruct (bool_decide (trim_space (q_CreatedAt req) = [])); reflexivity. }
  rewrite T. cbn [res_bind]. rewrite (normalizeTargets_idem _ _ N). cbn [res_bind]. rewrite Fq, Wq, R. done.
Qed.
End Theorems.

(** ** A concrete service *)
#[local] Instance tables : UnicodeTables := ascii_tables.
Definition no_policy : ElnisConfig := {| g_AllowedTools := []; g_Disabled := []; g_MaxFileBytes := 0%Z; g_Elwisps := ∅ |}.
Definition request_of (source id : gostring) : ERequest :=
  {| q_Version := §"elvena.v3"; q_Elwisp := §" ci "; q_Tags := []; q_Source := source; q_ID := id; q_CreatedAt := []; q_Mode := §"direct"; q_Format := [];
     q_Content := §"built"; q_ModelSlot := []; q_ToolListNames := []; q_Tools := []; q_Segments := [];
     q_Targets := [{| et_Platform := §"all"; et_Type := []; et_ID := [] |}; {| et_Platform := §"cli"; et_Type := []; et_ID := [] |}]; q_Calls := []; q_Rest := [] |}.
Definition token_origin : Origin := {| o_Kind := OriginHTTPToken; o_Name := §"deploy" |}.
Definition admit_one (source id : gostring) : res Event :=
  admit_event no_policy [§"qqonebot"; §"cli"] (λ _, None) (λ u, u) (λ a b, bool_decide (a = b)) (λ _, None) (λ _, Panic) (λ _, None) q_Content (λ _, Ok [])
    token_origin (request_of source id).
Definition prepare_one (req : ERequest) : res Event :=
  prepareEvent no_policy [§"qqonebot"; §"cli"] (λ _, None) (λ u, u) (λ a b, bool_decide (a = b)) (λ _, None) (λ _, Panic) (λ _, None) q_Content token_origin req.
Lemma prepare_event_normal_witness : ∃ ev, prepare_one (request_of §"jenkins" §"42") = Ok ev ∧ ev_EventKey ev = §"ci/jenkins/42" ∧ prepare_one (ev_Request ev) = Ok ev.
Proof.
  eexists. split; [reflexivity|]. split; [vm_compute; reflexivity|].
  apply (prepare_event_normal no_policy [§"qqonebot"; §"cli"] (λ _, None) (λ u, u) (λ a b, bool_decide (a = b)) (λ _, None) (λ _, Panic) (λ _, None) q_Content token_origin
    (request_of §"jenkins" §"42")). reflexivity.
Defined.
(** Two events that the table keeps apart share one text of their key. *)
Example event_keys_collide : event_key (request_of §"a/b" §"c") = event_key (request_of §"a" §"b/c") ∧ request_of §"a/b" §"c" ≠ request_of §"a" §"b/c".
Proof. by split. Qed.
