(* ===== verification/ElnisRun.v ===== *)
(** * The life of an event ([background/elnis/service.go], [direct.go], [llm.go], [outbox.go], [lifecycle.go], [storage/sqlite/elnis_event_repository.go])

    Requests, the workers of the queue and the recovery of reports run as
    threads over one table of events. A step is one call of the database, the
    agent or a platform, or one section under the mutex of the runtime; its
    outcome is chosen by the environment. Requests have passed the checks of
    Elnis.v; the preparation of media is part of the outcome of a run. *)
From S2P Require Import Prelude GoStr Elnis.
Open Scope nat_scope.

(** ** The table of events *)
Inductive status := Accepted | Queued | Running | ResultReady | Delivering | Completed | TakenOver | Failed.
#[export] Instance status_eq_dec : EqDecision status.
Proof. solve_decision. Defined.
Inductive item_status := Pending | ItemFailed | Delivered.
#[export] Instance item_status_eq_dec : EqDecision item_status.
Proof. solve_decision. Defined.
Record item := { it_Target : ETarget; it_Output : gostring; it_Status : item_status; it_Attempts : nat }.
Definition set_item_status (st : item_status) (it : item) : item :=
  {| it_Target := it_Target it; it_Output := it_Output it; it_Status := st; it_Attempts := it_Attempts it |}.
Definition start_item (it : item) : item :=
  {| it_Target := it_Target it; it_Output := it_Output it; it_Status := it_Status it; it_Attempts := S (it_Attempts it) |}.
Definition undelivered (it : item) : bool := negb (bool_decide (it_Status it = Delivered)).
(** A row: the key of the event, its status and the items of its report. *)
Record row := { r_Key : gostring * gostring * gostring; r_Status : status; r_Items : list item }.
Definition set_status (st : status) (r : row) : row := {| r_Key := r_Key r; r_Status := st; r_Items := r_Items r |}.
Definition set_items (items : list item) (r : row) : row := {| r_Key := r_Key r; r_Status := r_Status r; r_Items := items |}.
Abbreviation rows := (list row).
Definition GetByKey (key : gostring * gostring * gostring) (db : rows) : bool := existsb (λ r, bool_decide (r_Key r = key)) db.
(** [Create]: the key is unique in the table. *)
Definition Create (key : gostring * gostring * gostring) (st : status) (db : rows) : option rows :=
  if GetByKey key db then None else Some (db ++ [{| r_Key := key; r_Status := st; r_Items := [] |}]).
Definition Update (id : nat) (st : status) (db : rows) : rows := alter (set_status st) id db.
Definition new_item (p : ETarget * gostring) : item := {| it_Target := p.1; it_Output := p.2; it_Status := Pending; it_Attempts := 0 |}.
Definition PrepareReport (id : nat) (deliveries : list (ETarget * gostring)) (db : rows) : option rows :=
  match deliveries, db !! id with
  | _ :: _, Some r =>
    (* the ordinals of the items of an event are unique *)
    if bool_decide (length (r_Items r) = 0)
    then Some (<[id := {| r_Key := r_Key r; r_Status := ResultReady; r_Items := map new_item deliveries |}]> db) else None
  | _, _ => None
  end.
(** Change the status of a row that has the expected one; whether there was such a row. *)
Definition swap_status (id : nat) (expected next : status) (db : rows) : bool * rows :=
  match db !! id with
  | Some r => if bool_decide (r_Status r = expected) then (true, Update id next db) else (false, db)
  | None => (false, db)
  end.
Definition ClaimReport (id : nat) (db : rows) : bool * rows := swap_status id ResultReady Delivering db.
Definition ReleaseReport (id : nat) (db : rows) : bool * rows := swap_status id Delivering ResultReady db.
Definition item_at (id i : nat) (db : rows) : option item := db !! id ≫= λ r, r_Items r !! i.
Definition on_item (id i : nat) (f : item → item) (db : rows) : rows := alter (λ r, set_items (alter f i (r_Items r)) r) id db.
Definition StartReportDelivery (id i : nat) (db : rows) : option rows :=
  match item_at id i db with
  | Some it => if undelivered it then Some (on_item id i start_item db) else None
  | None => None
  end.
Definition MarkReportDeliveryFailed (id i : nat) (db : rows) : option rows :=
  match item_at id i db with
  | Some it => if undelivered it then Some (Update id ResultReady (on_item id i (set_item_status ItemFailed) db)) else None
  | None => None
  end.
(** One transaction over all items. *)
Fixpoint MarkReportDeliveriesDelivered (id : nat) (batch : list nat) (db : rows) : option rows :=
  match batch with
  | [] => Some db
  | i :: batch =>
    match item_at id i db with
    | Some it => if undelivered it then MarkReportDeliveriesDelivered id batch (on_item id i (set_item_status Delivered) db) else None
    | None => None
    end
  end.
Definition CompleteReport (id : nat) (db : rows) : bool * rows :=
  match db !! id with
  | Some r => if bool_decide (r_Status r = Delivering) && negb (existsb undelivered (r_Items r)) then (true, Update id Completed db) else (false, db)
  | None => (false, db)
  end.
Definition FailInterrupted (db : rows) : rows :=
  map (λ r, if bool_decide (r_Status r ∈ [Accepted; Queued; Running]) then set_status Failed r else r) db.
Definition ResetDeliveringReports (db : rows) : rows :=
  map (λ r, if bool_decide (r_Status r = Delivering) && negb (bool_decide (length (r_Items r) = 0)) then set_status ResultReady r else r) db.
Definition ListResultReadyReportIDs (db : rows) : list nat :=
  List.filter (λ id, match db !! id with
                     | Some r => bool_decide (r_Status r = ResultReady) && negb (bool_decide (length (r_Items r) = 0))
                     | None => false
                     end) (seq 0 (length db)).

(** ** Threads *)
(** Where [deliverReport] is; [todo] is what is left of its list of items. *)
Inductive deliver_pc :=
| DClaim | DGet | DList
| DLoop (todo : list (nat * item))                                       (** is the session taken over? *)
| DStart (first : nat) (started : list nat) (more : list nat) (todo : list (nat * item))
| DSend (first : nat) (batch : list nat) (todo : list (nat * item))
| DMark (batch : list nat) (todo : list (nat * item))
| DComplete | DFailItem (i : nat) | DRelease | DTakeover.
Inductive mode := MRecord | MDirect (actions : list (ETarget + gostring)) | MLLM.
(** Where a request is; an action is a native call or the outputs for one target. *)
Inductive ingress_pc :=
| ILookup | ICreate | IRecheck
| IAct (id : nat) (actions : list (ETarget + gostring))
| IEnqueue (id : nat)
| IFinish (id : nat) (st : status)                                       (** the last update of the row *)
| IGone (accepted duplicate : bool).
Inductive thread :=
| Ingress (key : gostring * gostring * gostring) (m : mode) (pc : ingress_pc)
| WIdle | WStart (id : nat) | WRun (id : nat) | WFinish (id : nat) (st : status) (again : bool)      (** [again]: a failure of this update is stored by another *)
| WPrepare (id : nat) (deliveries : list (ETarget * gostring)) | WDeliver (id : nat) (pc : deliver_pc)
| RIdle | RNext (ids : list nat) | RDeliver (id : nat) (pc : deliver_pc) (ids : list nat)
| Gone.
Inductive entry :=
| LCall (id : nat) (api : gostring) (ok : bool) | LDirect (id : nat) (target : ETarget) (ok : bool)
| LRun (id : nat)                                                        (** the agent was started for the event *)
| LSend (id : nat) (batch : list nat) (sent : nat) (ok : bool)           (** how many outputs of the batch got through *)
| LMark (id : nat) (batch : list nat).
Record sys := {
  db : rows; queue : list nat; capacity : nat; closed : bool; finished : bool; threads : list thread; log : list entry
}.
Definition with_db (d : rows) (s : sys) : sys :=
  {| db := d; queue := queue s; capacity := capacity s; closed := closed s; finished := finished s; threads := threads s; log := log s |}.
Definition with_queue (q : list nat) (s : sys) : sys :=
  {| db := db s; queue := q; capacity := capacity s; closed := closed s; finished := finished s; threads := threads s; log := log s |}.
Definition goto (t : nat) (pc : thread) (s : sys) : sys :=
  {| db := db s; queue := queue s; capacity := capacity s; closed := closed s; finished := finished s; threads := <[t := pc]> (threads s); log := log s |}.
Definition note (e : entry) (s : sys) : sys :=
  {| db := db s; queue := queue s; capacity := capacity s; closed := closed s; finished := finished s; threads := threads s; log := log s ++ [e] |}.

(** How a run of the agent ends ([RunLLMEvent] from the media to the report): the last status of the event, a report to
    store, or a return that leaves the row alone. [again]: the update is made inside [prepareReport], whose failure is stored. *)
Inductive run_outcome := OFailed | OTakenOver (again : bool) | OCompleted (again : bool) | OReport (deliveries : list (ETarget * gostring)) | OReturn.
Inductive answer := AOk | AErr | ATaken | ASent (n : nat) | AOutcome (o : run_outcome).
Definition db_ok (a : answer) : bool := match a with AErr => false | _ => true end.

(** Where a delivery goes on, or that it returns. *)
Definition batch_of (todo : list (nat * item)) : list nat * list (nat * item) :=
  match todo with
  | [] => ([], [])
  | (i, it) :: rest =>
    (fix more (rest : list (nat * item)) : list nat * list (nat * item) :=
       match rest with
       | [] => ([], [])
       | (j, next) :: rest' =>
         if bool_decide (it_Status next = Delivered) || negb (bool_decide (it_Target next = it_Target it)) then ([], rest)
         else let (b, r) := more rest' in (j :: b, r)
       end) rest
  end.
Definition deliver_step (id : nat) (pc : deliver_pc) (a : answer) (s : sys) : option deliver_pc * sys :=
  match pc with
  | DClaim =>
    if db_ok a then let (claimed, d) := ClaimReport id (db s) in (if claimed then Some DGet else None, with_db d s) else (None, s)
  | DGet => (if db_ok a then Some DList else Some DRelease, s)
  | DList =>
    (if db_ok a then Some (DLoop (imap pair (match db s !! id with Some r => r_Items r | None => [] end))) else Some DRelease, s)
  | DLoop [] => (Some DComplete, s)
  | DLoop ((i, it) :: rest) =>
    match a with
    | AErr => (Some DRelease, s)
    | ATaken => (Some DTakeover, s)
    | _ =>
      if undelivered it then let (more, todo) := batch_of ((i, it) :: rest) in (Some (DStart i [] (i :: more) todo), s)
      else (Some (DLoop rest), s)
    end
  | DStart first started [] todo => (Some (DSend first started todo), s)
  | DStart first started (i :: more) todo =>
    match (if db_ok a then StartReportDelivery id i (db s) else None) with
    | Some d => (Some (DStart first (started ++ [i]) more todo), with_db d s)
    | None => (Some (DFailItem i), s)
    end
  | DSend first batch todo =>
    match a with
    | AErr => (Some (DFailItem first), note (LSend id batch 0 false) s)
    | ASent n => (Some (DFailItem first), note (LSend id batch n false) s)
    | _ => (Some (DMark batch todo), note (LSend id batch (length batch) true) s)
    end
  | DMark batch todo =>
    match (if db_ok a then MarkReportDeliveriesDelivered id batch (db s) else None) with
    | Some d => (Some (DLoop todo), note (LMark id batch) (with_db d s))
    | None => (Some DRelease, s)
    end
  | DComplete =>
    if db_ok a then let (done, d) := CompleteReport id (db s) in (if done then None else Some DRelease, with_db d s) else (Some DRelease, s)
  | DFailItem i => (None, match (if db_ok a then MarkReportDeliveryFailed id i (db s) else None) with Some d => with_db d s | None => s end)
  | DRelease => (None, if db_ok a then with_db (snd (ReleaseReport id (db s))) s else s)
  | DTakeover => (None, if db_ok a then with_db (Update id TakenOver (db s)) s else s)
  end.

Definition enqueueLLM (id : nat) (s : sys) : option sys :=
  if closed s then None else if length (queue s) <? capacity s then Some (with_queue (queue s ++ [id]) s) else None.
(** The outcome of a request. *)
Definition ingress_step (t : nat) (key : gostring * gostring * gostring) (m : mode) (pc : ingress_pc) (a : answer) (s : sys) : option sys :=
  let go pc := goto t (Ingress key m pc) in
  match pc with
  | ILookup =>
    if negb (db_ok a) then Some (go (IGone false false) s)
    else if GetByKey key (db s) then Some (go (IGone true true) s) else Some (go ICreate s)
  | ICreate =>
    match (if db_ok a then Create key (match m with MLLM => Queued | _ => Accepted end) (db s) else None) with
    | Some d =>
      let id := length (db s) in
      Some (go (match m with MRecord => IFinish id Completed | MDirect actions => IAct id actions | MLLM => IEnqueue id end) (with_db d s))
    | None => Some (go IRecheck s)
    end
  | IRecheck => Some (go (if db_ok a && GetByKey key (db s) then IGone true true else IGone false false) s)
  | IAct id [] => Some (go (IFinish id Completed) s)
  | IAct id (inr api :: actions) =>
    let ok := db_ok a in Some (go (if ok then IAct id actions else IFinish id Failed) (note (LCall id api ok) s))
  | IAct id (inl target :: actions) =>
    let ok := db_ok a in Some (go (if ok then IAct id actions else IFinish id Failed) (note (LDirect id target ok) s))
  | IEnqueue id =>
    match enqueueLLM id s with
    | Some s => Some (go (IGone true false) s)
    | None => Some (go (IFinish id Failed) s)
    end
  | IFinish id st =>
    if db_ok a then Some (go (IGone true false) (with_db (Update id st (db s)) s))
    else match m, st with
         (* [runDirect] returns the error of its own update, and the failure is stored *)
         | MDirect _, Completed => Some (go (IFinish id Failed) s)
         | _, _ => Some (go (IGone true false) s)
         end
  | IGone _ _ => None
  end.
Definition thread_step (t : nat) (a : answer) (s : sys) : option sys :=
  match threads s !! t with
  | None | Some Gone => None
  | Some (Ingress key m pc) => ingress_step t key m pc a s
  | Some WIdle =>
    if closed s then Some (goto t Gone s)
    else match queue s with [] => None | id :: q => Some (goto t (WStart id) (with_queue q s)) end
  | Some (WStart id) => if db_ok a then Some (goto t (WRun id) (with_db (Update id Running (db s)) s)) else Some (goto t WIdle s)
  | Some (WRun id) =>
    match a with
    | AOutcome OFailed => Some (goto t (WFinish id Failed false) (note (LRun id) s))
    | AOutcome (OTakenOver again) => Some (goto t (WFinish id TakenOver again) (note (LRun id) s))
    | AOutcome (OCompleted again) => Some (goto t (WFinish id Completed again) (note (LRun id) s))
    | AOutcome (OReport deliveries) => Some (goto t (WPrepare id deliveries) (note (LRun id) s))
    | _ => Some (goto t WIdle (note (LRun id) s))
    end
  | Some (WFinish id st again) =>
    if db_ok a then Some (goto t WIdle (with_db (Update id st (db s)) s)) else Some (goto t (if again then WFinish id Failed false else WIdle) s)
  | Some (WPrepare id deliveries) =>
    match (if db_ok a then PrepareReport id deliveries (db s) else None) with
    | Some d => Some (goto t (WDeliver id DClaim) (with_db d s))
    | None => Some (goto t (WFinish id Failed false) s)
    end
  | Some (WDeliver id pc) =>
    let (pc, s) := deliver_step id pc a s in Some (goto t (match pc with Some pc => WDeliver id pc | None => WIdle end) s)
  | Some RIdle => if closed s then Some (goto t Gone s) else Some (goto t (if db_ok a then RNext (ListResultReadyReportIDs (db s)) else RIdle) s)
  | Some (RNext []) => Some (goto t RIdle s)
  | Some (RNext (id :: ids)) => Some (goto t (RDeliver id DClaim ids) s)
  | Some (RDeliver id pc ids) =>
    let (pc, s) := deliver_step id pc a s in Some (goto t (match pc with Some pc => RDeliver id pc ids | None => RNext ids end) s)
  end.

Inductive action := Arrive (key : gostring * gostring * gostring) (m : mode) | Step (t : nat) (a : answer) | BeginClose | Finish (ok : bool).
Definition idle (th : thread) : bool := match th with Gone | Ingress _ _ (IGone _ _) => true | _ => false end.
Definition arrive (key : gostring * gostring * gostring) (m : mode) (s : sys) : sys :=
  {| db := db s; queue := queue s; capacity := capacity s; closed := closed s; finished := finished s;
     threads := threads s ++ [Ingress key m ILookup]; log := log s |}.
Definition begin_close (s : sys) : sys :=
  {| db := db s; queue := queue s; capacity := capacity s; closed := true; finished := finished s; threads := threads s; log := log s |}.
Definition finish (ok : bool) (s : sys) : sys :=
  {| db := if ok then FailInterrupted (db s) else db s; queue := []; capacity := capacity s; closed := closed s; finished := true;
     threads := threads s; log := log s |}.
Definition exec (act : action) (s : sys) : option sys :=
  if finished s then None
  else match act with
       | Arrive key m => Some (arrive key m s)
       | Step t a => thread_step t a s
       | BeginClose => Some (begin_close s)
       | Finish ok => if closed s && forallb idle (threads s) then Some (finish ok s) else None
       end.
(** [Start] after it has reset the reports of an earlier process: [workers] workers and the recovery of reports. *)
Definition started (stored : rows) (workers capacity : nat) : sys :=
  {| db := ResetDeliveringReports (FailInterrupted stored); queue := []; capacity := capacity; closed := false; finished := false;
     threads := RIdle :: repeat WIdle workers; log := [] |}.
Inductive reachable (stored : rows) (workers capacity : nat) : sys → Prop :=
| reach_start : reachable stored workers capacity (started stored workers capacity)
| reach_step s act s' : reachable stored workers capacity s → exec act s = Some s' → reachable stored workers capacity s'.
Fixpoint execs (acts : list action) (s : sys) : option sys := match acts with [] => Some s | act :: acts => exec act s ≫= execs acts end.
