(* ===== verification/ElnisRunProps.v ===== *)
(** * Who may work on an event, and what its report guarantees (ElnisRun.v) *)
From S2P Require Import Prelude Counting GoStr Elnis ElnisRun.
Open Scope nat_scope.

(** ** Ownership *)
(** The thread works on the event before it has a report. *)
Definition pre (id : nat) (th : thread) : bool :=
  match th with
  | Ingress _ _ (IAct i _) | Ingress _ _ (IEnqueue i) | Ingress _ _ (IFinish i _) | WStart i | WRun i | WFinish i _ _ | WPrepare i _ => bool_decide (i = id)
  | _ => false
  end.
Definition claimed (pc : deliver_pc) : bool := match pc with DClaim => false | _ => true end.
(** The thread has claimed the report of the event. *)
Definition holds (id : nat) (th : thread) : bool :=
  match th with WDeliver i pc | RDeliver i pc _ => bool_decide (i = id) && claimed pc | _ => false end.
Definition waiting (id : nat) (q : list nat) : nat := cnt (λ i, bool_decide (i = id)) q.
Definition pre_count (id : nat) (s : sys) : nat := cnt (pre id) (threads s) + waiting id (queue s).
Definition hold_count (id : nat) (s : sys) : nat := cnt (holds id) (threads s).
Definition interim (r : row) : Prop := r_Status r ∈ [Accepted; Queued; Running] ∧ r_Items r = [].
Record owned (s : sys) : Prop := {
  ow_pre : ∀ id, pre_count id s ≤ 1 ∧ (0 < pre_count id s → ∃ r, db s !! id = Some r ∧ interim r);
  ow_hold : ∀ id, hold_count id s ≤ 1 ∧ (0 < hold_count id s → ∃ r, db s !! id = Some r ∧ r_Status r = Delivering)
}.

(** The state after a step of thread [t] that goes to [th'], perhaps with another table, queue and log. *)
Definition moved (t : nat) (th' : thread) (d : rows) (q : list nat) (l : list entry) (s : sys) : sys :=
  {| db := d; queue := q; capacity := capacity s; closed := closed s; finished := finished s; threads := <[t := th']> (threads s); log := l |}.
Lemma moved_goto t th' s : goto t th' s = moved t th' (db s) (queue s) (log s) s.
Proof. done. Qed.
Lemma db_moved t th' d q l s : db (moved t th' d q l s) = d.
Proof. done. Qed.
Section Moves.
Context (s : sys) (t : nat) (th th' : thread) (E : threads s !! t = Some th).
Lemma pre_moved d q l id : pre_count id (moved t th' d q l s) + b2n (pre id th) + waiting id (queue s) = pre_count id s + b2n (pre id th') + waiting id q.
Proof using E. unfold pre_count. cbn. pose proof (cnt_insert (pre id) (threads s) t th th' E). lia. Qed.
Lemma hold_moved d q l id : hold_count id (moved t th' d q l s) + b2n (holds id th) = hold_count id s + b2n (holds id th').
Proof using E. unfold hold_count. cbn. apply (cnt_insert (holds id) (threads s) t th th' E). Qed.
Lemma pre_here id : pre id th = true → 0 < pre_count id s.
Proof using E. intros P. unfold pre_count. pose proof (cnt_insert (pre id) (threads s) t th Gone E) as C. rewrite P in C. cbn in C. lia. Qed.
Lemma hold_here id : holds id th = true → 0 < hold_count id s.
Proof using E. intros P. unfold hold_count. pose proof (cnt_insert (holds id) (threads s) t th Gone E) as C. rewrite P in C. cbn in C. lia. Qed.

(** Neither the table nor the owners grow. *)
Lemma owned_same q l : owned s → (∀ id, b2n (pre id th') + waiting id q ≤ b2n (pre id th) + waiting id (queue s)) → (∀ id, b2n (holds id th') ≤ b2n (holds id th)) →
  owned (moved t th' (db s) q l s).
Proof using E.
  intros [P H] Lp Lh. split; intros id.
  - destruct (P id) as [P1 P2]. specialize (Lp id). pose proof (pre_moved (db s) q l id). split; [lia|]. intros. apply P2. lia.
  - destruct (H id) as [H1 H2]. specialize (Lh id). pose proof (hold_moved (db s) q l id). split; [lia|]. intros. apply H2. lia.
Qed.
(** The owner of a row before its report changes it. *)
Lemma owned_pre id f l : owned s → pre id th = true → (∀ i, holds i th' = false) →
  (∀ i, b2n (pre i th') ≤ b2n (pre i th)) → (∀ r, pre id th' = true → interim r → interim (f r)) → (∀ i, holds i th = false) →
  owned (moved t th' (alter f id (db s)) (queue s) l s).
Proof using E.
  intros [P H] Pt Nh Lp Fi Nt. split; intros i.
  - destruct (P i) as [P1 P2]. pose proof (pre_moved (alter f id (db s)) (queue s) l i) as M. pose proof (Lp i). split; [lia|]. intros Pos.
    destruct P2 as (r & Er & Ir); [lia|]. rewrite db_moved. destruct (decide (id = i)) as [<-|Ne]; [|rewrite list_lookup_alter_ne by done; by exists r].
    rewrite list_lookup_alter_eq, Er. exists (f r). split; [done|]. apply Fi; [|done]. destruct (pre id th') eqn:Q; [done|]. rewrite Pt in M. cbn in M. lia.
  - destruct (H i) as [H1 H2]. pose proof (hold_moved (alter f id (db s)) (queue s) l i) as M. rewrite Nh, Nt in M. cbn in M. split; [lia|]. intros Pos.
    destruct H2 as (r & Er & Ir); [lia|]. rewrite db_moved. destruct (decide (id = i)) as [<-|Ne]; [|rewrite list_lookup_alter_ne by done; by exists r].
    destruct (P id) as [_ P2]. destruct P2 as (r' & Er' & Ir' & _); [by apply pre_here|]. rewrite Er in Er'. injection Er' as <-. rewrite Ir in Ir'. set_solver.
Qed.
(** The holder of a report changes its row. *)
Lemma owned_hold id f l : owned s → holds id th = true → (∀ i, pre i th' = false) → (∀ i, pre i th = false) →
  (∀ i, b2n (holds i th') ≤ b2n (holds i th)) → (∀ r, holds id th' = true → r_Status r = Delivering → r_Status (f r) = Delivering) →
  owned (moved t th' (alter f id (db s)) (queue s) l s).
Proof using E.
  intros [P H] Ht Np Nt Lh Fi. split; intros i.
  - destruct (P i) as [P1 P2]. pose proof (pre_moved (alter f id (db s)) (queue s) l i) as M. rewrite Np, Nt in M. cbn in M. split; [lia|]. intros Pos.
    destruct P2 as (r & Er & Ir); [lia|]. rewrite db_moved. destruct (decide (id = i)) as [<-|Ne]; [|rewrite list_lookup_alter_ne by done; by exists r].
    destruct (H id) as [_ H2]. destruct H2 as (r' & Er' & Ir'); [by apply hold_here|]. rewrite Er in Er'. injection Er' as <-. destruct Ir as [Ir _].
    rewrite Ir' in Ir. set_solver.
  - destruct (H i) as [H1 H2]. pose proof (hold_moved (alter f id (db s)) (queue s) l i) as M. pose proof (Lh i). split; [lia|]. intros Pos.
    destruct H2 as (r & Er & Ir); [lia|]. rewrite db_moved. destruct (decide (id = i)) as [<-|Ne]; [|rewrite list_lookup_alter_ne by done; by exists r].
    rewrite list_lookup_alter_eq, Er. exists (f r). split; [done|]. apply Fi; [|done]. destruct (holds id th') eqn:Q; [done|]. rewrite Ht in M. cbn in M. lia.
Qed.
(** A thread claims a report that is ready. *)
Lemma owned_claim id r l : owned s → db s !! id = Some r → r_Status r = ResultReady → (∀ i, pre i th' = pre i th) → (∀ i, holds i th = false) →
  (∀ i, holds i th' = bool_decide (id = i)) → owned (moved t th' (Update id Delivering (db s)) (queue s) l s).
Proof using E.
  intros [P H] Er Sr Lp Nt Ht. unfold Update. split; intros i.
  - destruct (P i) as [P1 P2]. pose proof (pre_moved (alter (set_status Delivering) id (db s)) (queue s) l i) as M. rewrite Lp in M. split; [lia|]. intros Pos.
    destruct P2 as (r' & Er' & Ir); [lia|]. rewrite db_moved. destruct (decide (id = i)) as [<-|Ne]; [|rewrite list_lookup_alter_ne by done; by exists r'].
    rewrite Er in Er'. injection Er' as <-. destruct Ir as [Ir _]. rewrite Sr in Ir. set_solver.
  - destruct (H i) as [H1 H2]. pose proof (hold_moved (alter (set_status Delivering) id (db s)) (queue s) l i) as M. rewrite Nt, Ht in M. cbn [b2n] in M.
    destruct (decide (id = i)) as [<-|Ne].
    + rewrite bool_decide_eq_true_2 in M by done. cbn in M. assert (Z : hold_count id s = 0).
      { destruct (decide (hold_count id s = 0)); [done|]. destruct H2 as (r' & Er' & Ir); [lia|]. rewrite Er in Er'. injection Er' as <-. congruence. }
      split; [lia|]. intros _. rewrite db_moved. rewrite list_lookup_alter_eq, Er. by eexists.
    + rewrite bool_decide_eq_false_2 in M by done. cbn in M. split; [lia|]. intros Pos. destruct H2 as (r' & Er' & Ir); [lia|]. rewrite db_moved.
      rewrite list_lookup_alter_ne by done. by exists r'.
Qed.
(** A new row belongs to its request. *)
Lemma owned_create r l : owned s → interim r → (∀ i, pre i th = false) → (∀ i, holds i th = false) → (∀ i, holds i th' = false) →
  (∀ i, pre i th' = bool_decide (length (db s) = i)) → owned (moved t th' (db s ++ [r]) (queue s) l s).
Proof using E.
  intros [P H] Ir Np Nh Nh' Pt. split; intros i.
  - destruct (P i) as [P1 P2]. pose proof (pre_moved (db s ++ [r]) (queue s) l i) as M. rewrite Np, Pt in M. cbn [b2n] in M.
    destruct (decide (length (db s) = i)) as [<-|Ne].
    + rewrite bool_decide_eq_true_2 in M by done. cbn in M. assert (Z : pre_count (length (db s)) s = 0).
      { destruct (decide (pre_count (length (db s)) s = 0)); [done|]. destruct P2 as (r' & Er' & _); [lia|]. apply lookup_lt_Some in Er'. lia. }
      split; [lia|]. intros _. rewrite db_moved. exists r. by rewrite lookup_app_r, Nat.sub_diag by lia.
    + rewrite bool_decide_eq_false_2 in M by done. cbn in M. split; [lia|]. intros Pos. destruct P2 as (r' & Er' & Ii); [lia|]. rewrite db_moved.
      exists r'. by rewrite lookup_app_l by (by eapply lookup_lt_Some).
  - destruct (H i) as [H1 H2]. pose proof (hold_moved (db s ++ [r]) (queue s) l i) as M. rewrite Nh, Nh' in M. cbn in M. split; [lia|]. intros Pos.
    destruct H2 as (r' & Er' & Ii); [lia|]. rewrite db_moved. exists r'. by rewrite lookup_app_l by (by eapply lookup_lt_Some).
Qed.
End Moves.

(** ** What a step of a delivery does to the table *)
Definition dl (d : rows) (l : list entry) (s : sys) : sys :=
  {| db := d; queue := queue s; capacity := capacity s; closed := closed s; finished := finished s; threads := threads s; log := l |}.
Lemma dl_same s : dl (db s) (log s) s = s.
Proof. by destruct s. Qed.
Lemma dl_db d s : with_db d s = dl d (log s) s.
Proof. done. Qed.
Lemma goto_dl t th' d l s : goto t th' (dl d l s) = moved t th' d (queue s) l s.
Proof. done. Qed.
(** A change of the items of a row. *)
Definition item_change (f : row → row) : Prop := ∀ r, r_Key (f r) = r_Key r ∧ r_Status (f r) = r_Status r.
Lemma mark_shape id batch : ∀ d d', MarkReportDeliveriesDelivered id batch d = Some d' → ∃ f, d' = alter f id d ∧ item_change f.
Proof.
  induction batch as [|i batch IH]; intros d d'; cbn [MarkReportDeliveriesDelivered].
  - intros [= <-]. exists (λ r, r). split; [|done]. symmetry. apply list_eq. intros j. rewrite list_lookup_alter. case_decide as X; [|done]. subst. by destruct (d !! j).
  - destruct (item_at id i d) as [it|]; [|done]. destruct (undelivered it); [|done]. intros (f & -> & F)%IH.
    exists (f ∘ (λ r, set_items (alter (set_item_status Delivered) i (r_Items r)) r)). split; [unfold on_item; by rewrite list_alter_alter_eq|].
    intros r. cbn. destruct (F (set_items (alter (set_item_status Delivered) i (r_Items r)) r)) as [-> ->]. done.
Qed.
Lemma swap_spec id a b d ok d' : swap_status id a b d = (ok, d') →
  (ok = false ∧ d' = d) ∨ (ok = true ∧ d' = Update id b d ∧ ∃ r, d !! id = Some r ∧ r_Status r = a).
Proof.
  unfold swap_status. destruct (d !! id) as [r|]; [|intros [= <- <-]; by left]. case_bool_decide; intros [= <- <-]; [right|by left]. eauto.
Qed.
Inductive deliver_change (id : nat) (pc : deliver_pc) (d : rows) : option deliver_pc → rows → Prop :=
| ch_none pc' : (claimed pc = false → pc' = None) → pc' ≠ Some DClaim → deliver_change id pc d pc' d
| ch_claim r : pc = DClaim → d !! id = Some r → r_Status r = ResultReady → deliver_change id pc d (Some DGet) (Update id Delivering d)
| ch_items pc' f : claimed pc = true → item_change f → pc' ≠ Some DClaim → deliver_change id pc d pc' (alter f id d)
| ch_last f : claimed pc = true → (∀ r, r_Key (f r) = r_Key r) → deliver_change id pc d None (alter f id d).
Lemma deliver_shape id pc a s pc' s1 : deliver_step id pc a s = (pc', s1) → ∃ d l, s1 = dl d l s ∧ deliver_change id pc (db s) pc' d.
Proof.
  destruct pc as [| | |todo|first st more todo|first batch todo|batch todo| |i| |]; cbn [deliver_step].
  - destruct (db_ok a); [|intros [= <- <-]; exists (db s), (log s); rewrite dl_same; split; [done|by constructor]].
    destruct (ClaimReport id (db s)) as [ok d] eqn:C. apply swap_spec in C as [[-> ->]|(-> & -> & r & Er & Sr)]; intros [= <- <-]; rewrite dl_db.
    + exists (db s), (log s). split; [done|by constructor].
    + do 2 eexists. split; [done|by econstructor].
  - intros [= <- <-]. exists (db s), (log s). rewrite dl_same. split; [done|constructor; [done|by destruct (db_ok a)]].
  - intros [= <- <-]. exists (db s), (log s). rewrite dl_same. split; [done|constructor; [done|by destruct (db_ok a)]].
  - intros E. exists (db s), (log s). rewrite dl_same.
    assert (s1 = s ∧ pc' ≠ Some DClaim) as [-> N]; [|split; [done|by constructor]].
    destruct todo as [|[i it] rest]; [by injection E as <- <-|]. destruct a; try (by injection E as <- <-);
      (destruct (undelivered it); [destruct (batch_of ((i, it) :: rest)) as [m td]|]; by injection E as <- <-).
  - destruct more as [|i more]; [intros [= <- <-]; exists (db s), (log s); rewrite dl_same; split; [done|by constructor]|].
    unfold StartReportDelivery. destruct (db_ok a); [destruct (item_at id i (db s)) as [it|]; [destruct (undelivered it)|]|]; intros [= <- <-];
      [|exists (db s), (log s); rewrite dl_same; (split; [done|by constructor])..].
    rewrite dl_db. do 2 eexists. split; [done|]. unfold on_item. by apply ch_items.
  - intros E. exists (db s). destruct a; injection E as <- <-; (eexists; split; [reflexivity|by constructor]).
  - destruct (if db_ok a then MarkReportDeliveriesDelivered id batch (db s) else None) as [d|] eqn:M; intros [= <- <-].
    + destruct (db_ok a); [|done]. apply mark_shape in M as (f & -> & F). do 2 eexists. split; [reflexivity|]. by apply ch_items.
    + exists (db s), (log s). rewrite dl_same. split; [done|by constructor].
  - destruct (db_ok a); [|intros [= <- <-]; exists (db s), (log s); rewrite dl_same; split; [done|by constructor]].
    unfold CompleteReport. destruct (db s !! id) as [r|] eqn:Er; [|intros [= <- <-]; exists (db s), (log s); rewrite dl_same; split; [by destruct s|by constructor]].
    destruct (bool_decide (r_Status r = Delivering) && negb (existsb undelivered (r_Items r))); intros [= <- <-]; rewrite dl_db; do 2 eexists; (split; [done|]); [|by constructor].
    unfold Update. by apply ch_last.
  - intros [= <- <-]. unfold MarkReportDeliveryFailed, Update, on_item.
    destruct (db_ok a); [destruct (item_at id i (db s)) as [it|]; [destruct (undelivered it)|]|]; [|exists (db s), (log s); rewrite dl_same; (split; [done|by constructor])..].
    rewrite dl_db. do 2 eexists. split; [done|]. rewrite list_alter_alter_eq. by apply ch_last.
  - intros [= <- <-]. destruct (db_ok a); [|exists (db s), (log s); rewrite dl_same; split; [done|by constructor]].
    destruct (ReleaseReport id (db s)) as [ok d] eqn:C. rewrite dl_db. apply swap_spec in C as [[-> ->]|(-> & -> & r & Er & Sr)]; do 2 eexists; (split; [done|]).
    + by constructor.
    + unfold Update. by apply ch_last.
  - intros [= <- <-]. destruct (db_ok a); [|exists (db s), (log s); rewrite dl_same; split; [done|by constructor]].
    rewrite dl_db. do 2 eexists. split; [done|]. unfold Update. by apply ch_last.
Qed.

(** ** Every step keeps ownership *)
(** A thread that delivers: what it is while it does, and after. *)
Definition delivers (id : nat) (wr : deliver_pc → thread) (ex : thread) : Prop :=
  (∀ pc i, pre i (wr pc) = false ∧ holds i (wr pc) = bool_decide (id = i) && claimed pc) ∧ ∀ i, pre i ex = false ∧ holds i ex = false.
Definition next_of (wr : deliver_pc → thread) (ex : thread) (pc : option deliver_pc) : thread := match pc with Some pc => wr pc | None => ex end.
Lemma delivers_worker id : delivers id (WDeliver id) WIdle.
Proof. split; intros; done. Qed.
Lemma delivers_reporter id ids : delivers id (λ pc, RDeliver id pc ids) (RNext ids).
Proof. split; intros; done. Qed.
Lemma owned_deliver id wr ex t pc a s pc' s1 : delivers id wr ex → threads s !! t = Some (wr pc) → owned s → deliver_step id pc a s = (pc', s1) →
  owned (goto t (next_of wr ex pc') s1).
Proof.
  intros [W X] E O (d & l & -> & C)%deliver_shape. rewrite goto_dl.
  assert (Np : ∀ i, pre i (next_of wr ex pc') = false) by (intros i; destruct pc'; [apply W|apply X]).
  assert (Nt : ∀ i, pre i (wr pc) = false) by (intros i; apply W).
  assert (Nh : ∀ i, holds i (next_of wr ex pc') = match pc' with Some q => bool_decide (id = i) && claimed q | None => false end) by (intros i; destruct pc'; [apply W|apply X]).
  assert (Ht : ∀ i, holds i (wr pc) = bool_decide (id = i) && claimed pc) by (intros i; apply W).
  assert (Le : claimed pc = true → ∀ i, b2n (holds i (next_of wr ex pc')) ≤ b2n (holds i (wr pc))).
  { intros Cl i. rewrite Nh, Ht, Cl. destruct pc' as [q|]; [|cbn; lia]. destruct (bool_decide (id = i)), (claimed q); cbn; lia. }
  destruct C as [pc' Z _|r -> Er Sr|pc' f Cl F Nc|f Cl F].
  - apply (owned_same s t _ _ E); [done|intros i; rewrite Np; cbn; lia|].
    intros i. destruct (claimed pc) eqn:Cl; [by apply Le|]. rewrite Nh, Z by done. cbn. lia.
  - eapply (owned_claim s t _ _ E id r); [done|done|done|intros i; by rewrite Np, Nt|intros i; rewrite Ht; apply andb_false_r|intros i; rewrite Nh; apply andb_true_r].
  - eapply (owned_hold s t _ _ E); [done|by rewrite Ht, Cl, bool_decide_eq_true_2|done|done|by apply Le|]. intros r _ <-. by apply F.
  - eapply (owned_hold s t _ _ E); [done|by rewrite Ht, Cl, bool_decide_eq_true_2|done|done|by apply Le|]. intros r. by rewrite Nh.
Qed.
Lemma waiting_app id q x : waiting id (q ++ [x]) = waiting id q + b2n (bool_decide (x = id)).
Proof. unfold waiting. by rewrite cnt_app, cnt_one. Qed.
Lemma waiting_cons id q x : waiting id (x :: q) = b2n (bool_decide (x = id)) + waiting id q.
Proof. unfold waiting. change (x :: q) with ([x] ++ q). by rewrite cnt_app, cnt_one. Qed.
Lemma interim_status st r : st ∈ [Accepted; Queued; Running] → interim r → interim (set_status st r).
Proof. intros I [_ N]. done. Qed.
Ltac bools := repeat case_bool_decide; cbn; try lia.
Lemma owned_ingress t key m pc a s s' : threads s !! t = Some (Ingress key m pc) → owned s → ingress_step t key m pc a s = Some s' → owned s'.
Proof.
  intros E O H.
  assert (Keep : ∀ pc', (∀ i, pre i (Ingress key m pc') = true → pre i (Ingress key m pc) = true) → ∀ l, owned (moved t (Ingress key m pc') (db s) (queue s) l s)).
  { intros pc' Pi l. apply (owned_same s t _ _ E); [done| |done]. intros i. specialize (Pi i). destruct (pre i (Ingress key m pc')); [by rewrite Pi|cbn; lia]. }
  destruct pc; cbn [ingress_step] in H; [| | |destruct actions as [|[target|api] actions]| | |done].
  - destruct (negb (db_ok a)); [|destruct (GetByKey key (db s))]; injection H as <-; rewrite moved_goto; by apply Keep.
  - destruct (if db_ok a then Create key _ (db s) else None) as [d|] eqn:C; injection H as <-; [|rewrite moved_goto; by apply Keep].
    destruct (db_ok a); [|done]. unfold Create in C. destruct (GetByKey key (db s)); [done|]. injection C as <-. rewrite dl_db, goto_dl.
    apply (owned_create s t _ _ E); [done| |done|done|intros i; by destruct m|intros i; by destruct m]. split; [destruct m; set_solver|done].
  - injection H as <-. rewrite moved_goto. apply Keep. destruct (db_ok a && GetByKey key (db s)); done.
  - injection H as <-. rewrite moved_goto. by apply Keep.
  - injection H as <-. destruct (db_ok a); apply Keep; done.
  - injection H as <-. destruct (db_ok a); apply Keep; done.
  - unfold enqueueLLM in H. destruct (closed s); [|destruct (length (queue s) <? capacity s)]; injection H as <-; [by apply Keep| |by apply Keep].
    apply (owned_same s t _ _ E (queue s ++ [id]) (log s)); [done| |done]. intros i. rewrite waiting_app. cbn. bools.
  - destruct (db_ok a).
    + injection H as <-. rewrite dl_db, goto_dl. unfold Update. eapply (owned_pre s t _ _ E); [done|by apply bool_decide_eq_true_2|done|intros i; cbn; lia|done|done].
    + destruct m, st; injection H as <-; apply Keep; done.
Qed.
Lemma owned_step t a s s' : owned s → thread_step t a s = Some s' → owned s'.
Proof.
  intros O H. unfold thread_step in H. destruct (threads s !! t) as [th|] eqn:E; [|done]. destruct th; try done.
  - by eapply owned_ingress.
  - destruct (closed s); [injection H as <-; by apply (owned_same s t _ _ E)|]. destruct (queue s) as [|id q] eqn:Q; [done|]. injection H as <-.
    apply (owned_same s t _ _ E q (log s)); [done| |done]. intros i. rewrite Q, waiting_cons. cbn. lia.
  - destruct (db_ok a); injection H as <-; [|apply (owned_same s t _ _ E); [done|intros; cbn; lia|done]]. rewrite dl_db, goto_dl. unfold Update.
    eapply (owned_pre s t _ _ E); [done|by apply bool_decide_eq_true_2|done|done| |done]. intros r _. apply interim_status. set_solver.
  - destruct a as [| | |n|[| | |ds|]]; injection H as <-; (apply (owned_same s t _ _ E); [done|intros; cbn; lia|done]).
  - destruct (db_ok a); injection H as <-; [|apply (owned_same s t _ _ E); [done|intros; destruct again; cbn; lia|intros; by destruct again]]. rewrite dl_db, goto_dl. unfold Update.
    eapply (owned_pre s t _ _ E); [done|by apply bool_decide_eq_true_2|done|intros; cbn; lia|done|done].
  - destruct (if db_ok a then PrepareReport id deliveries (db s) else None) as [d|] eqn:C; injection H as <-.
    2: { apply (owned_same s t _ _ E); [done|intros; cbn; lia|done]. }
    destruct (db_ok a); [|done]. unfold PrepareReport in C. destruct deliveries as [|p ps]; [done|]. destruct (db s !! id) as [r|] eqn:Er; [|done].
    case_bool_decide; [|done]. injection C as <-. rewrite dl_db, goto_dl.
    replace (<[id:=_]> (db s)) with (alter (λ _, {| r_Key := r_Key r; r_Status := ResultReady; r_Items := map new_item (p :: ps) |}) id (db s)).
    2: { apply list_eq. intros j. rewrite list_lookup_alter. case_decide as X; [subst j|by rewrite list_lookup_insert_ne]. rewrite Er. cbn.
         symmetry. apply list_lookup_insert_eq. by eapply lookup_lt_Some. }
    eapply (owned_pre s t _ _ E); [done|by apply bool_decide_eq_true_2|intros i; apply andb_false_r|intros; cbn; lia|done|done].
  - destruct (deliver_step id pc a s) as [pc' s1] eqn:D. injection H as <-. by eapply (owned_deliver id (WDeliver id) WIdle); [apply delivers_worker|..].
  - destruct (closed s); injection H as <-; [by apply (owned_same s t _ _ E)|]. destruct (db_ok a); apply (owned_same s t _ _ E); done.
  - destruct ids as [|id ids]; injection H as <-; apply (owned_same s t _ _ E); try done. intros i. cbn. rewrite andb_false_r. cbn. lia.
  - destruct (deliver_step id pc a s) as [pc' s1] eqn:D. injection H as <-. by eapply (owned_deliver id (λ pc, RDeliver id pc ids) (RNext ids)); [apply delivers_reporter|..].
Qed.

(** ** The items of a report *)
Definition view (id i : nat) (d : rows) : option bool := undelivered <$> item_at id i d.
Definition items_like (d d' : rows) : Prop := ∀ id i, view id i d' = view id i d.
Definition all_delivered (id : nat) (d : rows) : Prop := ∀ i, view id i d ≠ Some true.
(** What a delivery has in hand: the batch it sends and what is left of its list. *)
Definition in_hand (pc : deliver_pc) : list nat * list (nat * item) :=
  match pc with
  | DLoop todo => ([], todo)
  | DStart _ st more todo => (st ++ more, todo)
  | DSend _ batch todo | DMark batch todo => (batch, todo)
  | _ => ([], [])
  end.
Record hand_ok (id : nat) (d : rows) (batch : list nat) (todo : list (nat * item)) : Prop := {
  ho_batch : ∀ i, i ∈ batch → view id i d = Some true;
  ho_todo : ∀ i it, (i, it) ∈ todo → view id i d = Some (undelivered it);
  ho_distinct : NoDup (batch ++ todo.*1)
}.
Definition pc_ok (id : nat) (pc : deliver_pc) (d : rows) (l : list entry) : Prop :=
  hand_ok id d (in_hand pc).1 (in_hand pc).2 ∧ match pc with DMark batch _ => ∃ n, LSend id batch n true ∈ l | _ => True end.
Definition thread_ok (d : rows) (l : list entry) (th : thread) : Prop :=
  match th with WDeliver id pc | RDeliver id pc _ => pc_ok id pc d l | _ => True end.
Definition ordered (l : list entry) : Prop := ∀ l1 l2 id b i, l = l1 ++ LMark id b :: l2 → i ∈ b →
  (∀ b' n ok, LSend id b' n ok ∈ l2 → i ∉ b') ∧ ∀ b', LMark id b' ∈ l2 → i ∉ b'.
Record reported (base : rows) (s : sys) : Prop := {
  rp_keys : NoDup (r_Key <$> db s);
  rp_pc : ∀ t th, threads s !! t = Some th → thread_ok (db s) (log s) th;
  rp_marks : ∀ id b i, LMark id b ∈ log s → i ∈ b → view id i (db s) = Some false;
  rp_sent : ∀ id i, view id i (db s) = Some false → view id i base = Some false ∨ ∃ b n, LSend id b n true ∈ log s ∧ i ∈ b;
  rp_order : ordered (log s);
  rp_done : ∀ id r, db s !! id = Some r → r_Status r = Completed → all_delivered id (db s)
}.
Lemma pc_ok_grows id pc d d' l es : items_like d d' → pc_ok id pc d l → pc_ok id pc d' (l ++ es).
Proof.
  intros V [[B T N] M]. split.
  - split; [intros i I; rewrite V; auto|intros i it I; rewrite V; auto|done].
  - destruct pc; try done. destruct M as [n I]. exists n. apply elem_of_app. by left.
Qed.
Lemma ordered_send l id b n ok : ordered l → (∀ i b', i ∈ b → LMark id b' ∈ l → i ∉ b') → ordered (l ++ [LSend id b n ok]).
Proof.
  intros O F l1 l2 id0 b0 i E I. destruct l2 as [|e l2 _] using rev_ind.
  - apply app_inj_tail in E as [_ [=]].
  - change (l1 ++ LMark id0 b0 :: l2 ++ [e]) with (l1 ++ (LMark id0 b0 :: l2) ++ [e]) in E. rewrite app_assoc in E. apply app_inj_tail in E as [-> <-].
    destruct (O l1 l2 id0 b0 i eq_refl I) as [O1 O2]. split.
    + intros b' n' ok' [J|J%list_elem_of_singleton]%elem_of_app; [by eapply O1|]. injection J as -> -> -> ->. intros Ib. eapply (F i b0); [done| |done]. set_solver.
    + intros b' [J|J%list_elem_of_singleton]%elem_of_app; [by apply O2|done].
Qed.
Lemma ordered_mark l id b : ordered l → (∀ i b', i ∈ b → LMark id b' ∈ l → i ∉ b') → ordered (l ++ [LMark id b]).
Proof.
  intros O F l1 l2 id0 b0 i E I. destruct l2 as [|e l2 _] using rev_ind; [split; intros; set_solver|].
  change (l1 ++ LMark id0 b0 :: l2 ++ [e]) with (l1 ++ (LMark id0 b0 :: l2) ++ [e]) in E. rewrite app_assoc in E. apply app_inj_tail in E as [-> <-].
  destruct (O l1 l2 id0 b0 i eq_refl I) as [O1 O2]. split.
  - intros b' n' ok' [J|J%list_elem_of_singleton]%elem_of_app; [by eapply O1|done].
  - intros b' [J|J%list_elem_of_singleton]%elem_of_app; [by apply O2|]. injection J as -> ->. intros Ib. eapply (F i b0); [done| |done]. set_solver.
Qed.
Lemma ordered_other l e : ordered l → match e with LSend _ _ _ _ | LMark _ _ => False | _ => True end → ordered (l ++ [e]).
Proof.
  intros O F l1 l2 id0 b0 i E I. destruct l2 as [|e' l2 _] using rev_ind; [split; intros; set_solver|].
  change (l1 ++ LMark id0 b0 :: l2 ++ [e']) with (l1 ++ (LMark id0 b0 :: l2) ++ [e']) in E. rewrite app_assoc in E. apply app_inj_tail in E as [-> <-].
  destruct (O l1 l2 id0 b0 i eq_refl I) as [O1 O2]. split; intros; set_solver.
Qed.

Lemma view_alter (id : nat) f (d : rows) id' i : view id' i (alter f id d) = if bool_decide (id = id') then undelivered <$> ((f <$> d !! id') ≫= λ r, r_Items r !! i) else view id' i d.
Proof. unfold view, item_at. rewrite list_lookup_alter. case_decide; [subst; by rewrite bool_decide_eq_true_2|by rewrite bool_decide_eq_false_2]. Qed.
Lemma like_alter (id : nat) f (d : rows) : (∀ r, d !! id = Some r → ∀ i, undelivered <$> r_Items (f r) !! i = undelivered <$> r_Items r !! i) → items_like d (alter f id d).
Proof.
  intros F id' i. rewrite view_alter. case_bool_decide; [subst id'|done]. unfold view, item_at. destruct (d !! id) as [r|]; [|done]. cbn. by apply F.
Qed.
Lemma keys_alter (id : nat) f (d : rows) : (∀ r, r_Key (f r) = r_Key r) → r_Key <$> alter f id d = r_Key <$> d.
Proof.
  intros F. apply list_eq. intros j. rewrite !list_lookup_fmap. destruct (decide (id = j)) as [<-|N]; [|by rewrite list_lookup_alter_ne].
  rewrite list_lookup_alter_eq. destruct (d !! id); [|done]. cbn. by rewrite F.
Qed.
Lemma delivered_like id d d' : items_like d d' → all_delivered id d → all_delivered id d'.
Proof. intros V A i. by rewrite V. Qed.
Lemma like_refl d : items_like d d.
Proof. done. Qed.
Lemma done_alter (id : nat) f (d : rows) : (∀ i r, d !! i = Some r → r_Status r = Completed → all_delivered i d) → items_like d (alter f id d) →
  (∀ r, d !! id = Some r → r_Status (f r) = Completed → r_Status r ≠ Completed → all_delivered id d) →
  ∀ i r, alter f id d !! i = Some r → r_Status r = Completed → all_delivered i (alter f id d).
Proof.
  intros D V F i r E S. apply (delivered_like _ d); [done|]. rewrite list_lookup_alter in E. case_decide; [subst i|by eapply D].
  destruct (d !! id) as [r0|] eqn:Er; [|done]. injection E as <-. destruct (decide (r_Status r0 = Completed)); [by eapply D|by eapply F].
Qed.
Lemma mark_view id batch : ∀ d d', MarkReportDeliveriesDelivered id batch d = Some d' →
  ∀ id' i, view id' i d' = if bool_decide (id = id' ∧ i ∈ batch) then Some false else view id' i d.
Proof.
  induction batch as [|j batch IH]; intros d d'; cbn [MarkReportDeliveriesDelivered].
  - intros [= <-] id' i. rewrite bool_decide_eq_false_2; [done|]. set_solver.
  - destruct (item_at id j d) as [it|] eqn:Ej; [|done]. destruct (undelivered it); [|done]. intros M id' i. rewrite (IH _ _ M). unfold on_item. rewrite view_alter.
    unfold item_at in Ej. destruct (decide (id = id')) as [<-|Ne].
    2: { rewrite (bool_decide_eq_false_2 (id = id')), !bool_decide_eq_false_2 by naive_solver. done. }
    rewrite (bool_decide_eq_true_2 (id = id)) by done. destruct (d !! id) as [r|] eqn:Er; [|done]. cbn in Ej.
    destruct (decide (i ∈ batch)) as [Ib|Nb]; [rewrite !bool_decide_eq_true_2 by set_solver; done|]. rewrite (bool_decide_eq_false_2 (id = id ∧ i ∈ batch)) by naive_solver.
    cbn [fmap option_fmap option_map mbind option_bind r_Items set_items]. rewrite list_lookup_alter. case_decide as Q.
    + subst j. rewrite Ej, bool_decide_eq_true_2 by set_solver. done.
    + rewrite bool_decide_eq_false_2 by set_solver. unfold view, item_at. by rewrite Er.
Qed.
Lemma batch_more_spec (it : item) rest : ∀ b todo,
  (fix more (rest : list (nat * item)) : list nat * list (nat * item) :=
       match rest with
       | [] => ([], [])
       | (j, next) :: rest' =>
         if bool_decide (it_Status next = Delivered) || negb (bool_decide (it_Target next = it_Target it)) then ([], rest)
         else let (b, r) := more rest' in (j :: b, r)
       end) rest = (b, todo) →
  ∃ p, rest = p ++ todo ∧ b = p.*1 ∧ ∀ j x, (j, x) ∈ p → undelivered x = true.
Proof.
  induction rest as [|[j next] rest IH]; intros b todo; [intros [= <- <-]; exists []; split_and!; [done..|intros ? ? I; inversion I]|].
  destruct (bool_decide (it_Status next = Delivered)) eqn:D; cbn [orb]; [intros [= <- <-]; exists []; split_and!; [done..|intros ? ? I; inversion I]|].
  destruct (negb _); [intros [= <- <-]; exists []; split_and!; [done..|intros ? ? I; inversion I]|].
  match goal with |- context [let (b, r) := ?x in _] => destruct x as [b' r'] eqn:M end. intros [= <- <-].
  destruct (IH b' r' eq_refl) as (p & -> & -> & U). exists ((j, next) :: p). split_and!; [done|done|]. intros k x [[= -> ->]|I]%elem_of_cons; [|by eapply U].
  unfold undelivered. by rewrite D.
Qed.
Lemma batch_spec i it rest b todo : batch_of ((i, it) :: rest) = (b, todo) → ∃ p, rest = p ++ todo ∧ b = p.*1 ∧ ∀ j x, (j, x) ∈ p → undelivered x = true.
Proof. apply batch_more_spec. Qed.

Section Report.
Context (base : rows).
Lemma reported_like s t th th' d q es : threads s !! t = Some th → reported base s → items_like (db s) d → NoDup (r_Key <$> d) →
  ordered (log s ++ es) → (∀ id b, LMark id b ∉ es) → thread_ok d (log s ++ es) th' →
  (∀ id r, d !! id = Some r → r_Status r = Completed → all_delivered id d) → reported base (moved t th' d q (log s ++ es) s).
Proof.
  intros E [K P M S O D] V Kd Od Nm To Dd. split; cbn [db log threads moved]; try done.
  - intros t' x Ex. apply list_lookup_insert_Some in Ex as [(<- & <- & _)|[_ Ex]]; [done|]. specialize (P _ _ Ex).
    destruct x; try done; cbn in *; by eapply pc_ok_grows.
  - intros id b i [I|I]%elem_of_app Ib; [rewrite V; by eapply M|by apply Nm in I].
  - intros id i. rewrite V. intros [?|(b & n & I & Ib)]%S; [by left|right]. exists b, n. split; [apply elem_of_app; by left|done].
Qed.
(** A move that leaves the table and the log alone, or adds to the log what is not about reports. *)
Lemma reported_stay s t th th' q : threads s !! t = Some th → reported base s → thread_ok (db s) (log s) th' → reported base (moved t th' (db s) q (log s) s).
Proof.
  intros E R To. replace (moved t th' (db s) q (log s) s) with (moved t th' (db s) q (log s ++ []) s) by (by rewrite app_nil_r).
  pose proof R as [K P M S O D]. eapply reported_like; rewrite ?app_nil_r; try done. intros id b I. inversion I.
Qed.
Lemma reported_note s t th th' q e : threads s !! t = Some th → reported base s → match e with LSend _ _ _ _ | LMark _ _ => False | _ => True end →
  thread_ok (db s) (log s ++ [e]) th' → reported base (moved t th' (db s) q (log s ++ [e]) s).
Proof.
  intros E R Ne To. pose proof R as [K P M S O D]. eapply reported_like; try done; [by apply ordered_other|]. intros id b I%list_elem_of_singleton. by subst.
Qed.
(** A row changes, not its items. *)
Lemma reported_row s t th th' id f : threads s !! t = Some th → reported base s → (∀ r, r_Key (f r) = r_Key r) →
  (∀ r, db s !! id = Some r → ∀ i, undelivered <$> r_Items (f r) !! i = undelivered <$> r_Items r !! i) →
  (∀ r, db s !! id = Some r → r_Status (f r) = Completed → r_Status r ≠ Completed → all_delivered id (db s)) →
  thread_ok (alter f id (db s)) (log s) th' → reported base (moved t th' (alter f id (db s)) (queue s) (log s) s).
Proof.
  intros E R Fk Fi Fd To. pose proof R as [K P M S O D].
  replace (moved t th' (alter f id (db s)) (queue s) (log s) s) with (moved t th' (alter f id (db s)) (queue s) (log s ++ []) s) by (by rewrite app_nil_r).
  eapply reported_like; rewrite ?app_nil_r; try done.
  - by apply like_alter.
  - by rewrite keys_alter.
  - intros i b I. inversion I.
  - apply done_alter; [done|by apply like_alter|done].
Qed.
Lemma interim_delivered id r d : d !! id = Some r → r_Items r = [] → all_delivered id d.
Proof. intros E I i. unfold view, item_at. rewrite E. cbn. by rewrite I. Qed.
Lemma hand_empty id d : hand_ok id d [] [].
Proof. split; [intros i I; inversion I|intros i it I; inversion I|apply NoDup_nil_2]. Qed.
Lemma hand_like id d d' b todo : items_like d d' → hand_ok id d b todo → hand_ok id d' b todo.
Proof. intros V [B T N]. split; [intros i I; rewrite V; auto|intros i it I; rewrite V; auto|done]. Qed.
Lemma thread_wr id wr ex d l pc : (∀ pc, thread_ok d l (wr pc) = pc_ok id pc d l) → thread_ok d l ex = True →
  match pc with Some pc => pc_ok id pc d l | None => True end → thread_ok d l (next_of wr ex pc).
Proof. intros W X H. destruct pc; cbn; [by rewrite W|by rewrite X]. Qed.
(** The batch in hand is not marked in the log. *)
Lemma hand_unmarked s id batch todo : reported base s → hand_ok id (db s) batch todo → ∀ i b', i ∈ batch → LMark id b' ∈ log s → i ∉ b'.
Proof. intros R H i b' I L J. pose proof (rp_marks _ _ R _ _ _ L J) as V. rewrite (ho_batch _ _ _ _ H i I) in V. done. Qed.
Lemma snapshot_ok id d : hand_ok id d [] (imap pair (match d !! id with Some r => r_Items r | None => [] end)).
Proof.
  assert (L : ∀ i it, (i, it) ∈ imap pair (match d !! id with Some r => r_Items r | None => [] end) → item_at id i d = Some it).
  { intros i it [j Ej]%list_elem_of_lookup_1. rewrite list_lookup_imap in Ej. unfold item_at. destruct (d !! id) as [r|]; [|done]. cbn.
    destruct (r_Items r !! j) as [x|] eqn:Ex; [|done]. by injection Ej as <- <-. }
  split; [intros i I; inversion I|intros i it I; unfold view; by rewrite (L _ _ I)|]. cbn [app].
  set (items := match d !! id with Some r => r_Items r | None => [] end).
  assert (E : (imap pair items).*1 = seq 0 (length items)).
  { apply list_eq. intros j. rewrite list_lookup_fmap, list_lookup_imap. destruct (items !! j) eqn:Ej.
    - cbn. symmetry. apply lookup_seq. split; [lia|by eapply lookup_lt_Some].
    - cbn. symmetry. apply lookup_ge_None. rewrite length_seq. by apply lookup_ge_None. }
  rewrite E. apply NoDup_seq.
Qed.
(** The items of a batch become delivered. *)
Lemma hand_marked id d d' batch todo : hand_ok id d batch todo → MarkReportDeliveriesDelivered id batch d = Some d' → hand_ok id d' [] todo.
Proof.
  intros [B T N] M. apply NoDup_app in N as (_ & Dj & Nt). split; [intros i I; inversion I| |done]. intros i it I.
  rewrite (mark_view _ _ _ _ M), bool_decide_eq_false_2; [by apply T|]. intros [_ J]. apply (Dj _ J). apply list_elem_of_fmap. by exists (i, it).
Qed.
Lemma reported_mark id wr ex s t batch todo n d : delivers id wr ex → (∀ d l pc, thread_ok d l (wr pc) = pc_ok id pc d l) →
  threads s !! t = Some (wr (DMark batch todo)) → owned s → reported base s → hand_ok id (db s) batch todo → LSend id batch n true ∈ log s →
  MarkReportDeliveriesDelivered id batch (db s) = Some d → reported base (goto t (wr (DLoop todo)) (note (LMark id batch) (with_db d s))).
Proof.
  intros Dv W E O R Ha Sd M. pose proof (mark_view _ _ _ _ M) as V. pose proof (hand_marked _ _ _ _ _ Ha M) as Ht.
  assert (Hc : holds id (wr (DMark batch todo)) = true) by (destruct Dv as [Dv _]; destruct (Dv (DMark batch todo) id) as [_ ->]; by rewrite bool_decide_eq_true_2).
  destruct (ow_hold _ O id) as [H1 H2]. destruct H2 as (r & Er & Sr); [by apply (hold_here s t _ E)|].
  pose proof (mark_shape _ _ _ _ M) as (f & Ed & Fc). pose proof R as [K P Mk S Od D].
  assert (Vo : ∀ id' i, id' ≠ id → view id' i d = view id' i (db s)) by (intros id' i Ne; rewrite V, bool_decide_eq_false_2; [done|naive_solver]).
  split; cbn [db log threads goto note with_db].
  - rewrite Ed, keys_alter; [done|]. intros r0. by destruct (Fc r0).
  - intros t' x Ex. apply list_lookup_insert_Some in Ex as [(<- & <- & _)|[Ne Ex]]; [rewrite W; by split|]. pose proof (P _ _ Ex) as Px.
    assert (G : ∀ id' pc, holds id' x = (bool_decide (id' = id') && claimed pc) → pc_ok id' pc (db s) (log s) → pc_ok id' pc d (log s ++ [LMark id batch])).
    { intros id' pc Hx [Hx1 Hx2]. split.
      - destruct (decide (id' = id)) as [->|Nd]; [|by destruct Hx1 as [A B C]; split; [intros i I; rewrite Vo; auto|intros i it I; rewrite Vo; auto|]].
        destruct (claimed pc) eqn:Cl; [|destruct pc; try done; apply hand_empty]. destruct Ne. eapply (cnt_one_inv (holds id)); [exact H1|exact E|exact Ex|done|].
        rewrite Hx. by rewrite bool_decide_eq_true_2.
      - destruct pc; try done. destruct Hx2 as [m I]. exists m. apply elem_of_app. by left. }
    destruct x; try done; cbn in Px |- *; by apply G.
  - intros id' b i [I|I%list_elem_of_singleton]%elem_of_app Ib.
    + rewrite V. case_bool_decide; [done|]. by eapply Mk.
    + injection I as -> ->. by rewrite V, bool_decide_eq_true_2.
  - intros id' i. rewrite V. case_bool_decide as Q; [destruct Q as [-> Q]; intros _; right; exists batch, n; split; [apply elem_of_app; by left|done]|].
    intros [?|(b & m & I & Ib)]%S; [by left|right]. exists b, m. split; [apply elem_of_app; by left|done].
  - apply ordered_mark; [done|]. by eapply hand_unmarked.
  - intros id' r' Er' Sr' i. rewrite V. case_bool_decide; [done|]. rewrite Ed in Er'.
    destruct (decide (id = id')) as [<-|Ne]; [|rewrite list_lookup_alter_ne in Er' by done; exact (D id' r' Er' Sr' i)].
    rewrite list_lookup_alter_eq, Er in Er'. injection Er' as <-. destruct (Fc r) as [_ Fs]. congruence.
Qed.
Lemma reported_deliver id wr ex s t pc a pc' s1 : delivers id wr ex → (∀ d l pc, thread_ok d l (wr pc) = pc_ok id pc d l) → (∀ d l, thread_ok d l ex = True) →
  threads s !! t = Some (wr pc) → owned s → reported base s → deliver_step id pc a s = (pc', s1) → reported base (goto t (next_of wr ex pc') s1).
Proof.
  intros Dv W X E O R H. pose proof (rp_pc _ _ R _ _ E) as Pc. rewrite W in Pc. destruct Pc as [Ha Ma].
  assert (Hd : claimed pc = true → ∃ r, db s !! id = Some r ∧ r_Status r = Delivering).
  { intros Cl. apply (ow_hold _ O). apply (hold_here s t (wr pc) E). destruct Dv as [Dv _]. destruct (Dv pc id) as [_ ->]. by rewrite Cl, bool_decide_eq_true_2. }
  assert (Stay : ∀ q, hand_ok id (db s) (in_hand q).1 (in_hand q).2 → (∀ b td, q ≠ DMark b td) → reported base (goto t (wr q) s)).
  { intros q Hq Nq. apply (reported_stay s t _ _ (queue s) E R). rewrite W. split; [done|]. destruct q; try done. by destruct (Nq batch todo). }
  assert (Leave : reported base (goto t ex s)) by (apply (reported_stay s t _ _ (queue s) E R); by rewrite X).
  assert (Free : ∀ q, in_hand q = ([], []) → (∀ b td, q ≠ DMark b td) → reported base (goto t (wr q) s)).
  { intros q Eq Nq. apply Stay; [rewrite Eq; apply hand_empty|done]. }
  assert (Rel : reported base (goto t (wr DRelease) s)) by by apply Free.
  (* a change of the row that leaves its items alone *)
  assert (Row : ∀ f pc', (∀ r, r_Key (f r) = r_Key r) → (∀ r, db s !! id = Some r → ∀ i, undelivered <$> r_Items (f r) !! i = undelivered <$> r_Items r !! i) →
    (∀ r, db s !! id = Some r → r_Status (f r) = Completed → r_Status r ≠ Completed → all_delivered id (db s)) →
    match pc' with Some q => pc_ok id q (alter f id (db s)) (log s) | None => True end →
    reported base (goto t (next_of wr ex pc') (with_db (alter f id (db s)) s))).
  { intros f q Fk Fi Fd Hq. apply (reported_row s t _ _ id f E R Fk Fi Fd). eapply thread_wr; [intros; apply W|apply X|done]. }
  assert (Same : ∀ st, st ≠ Completed → ∀ r, db s !! id = Some r → r_Status (set_status st r) = Completed → r_Status r ≠ Completed → all_delivered id (db s)) by done.
  destruct pc as [| | |todo|first st more todo|first batch todo|batch todo| |i| |]; cbn [deliver_step] in H.
  - destruct (db_ok a); [|injection H as <- <-; exact Leave]. destruct (ClaimReport id (db s)) as [ok d] eqn:C.
    apply swap_spec in C as [[-> ->]|(-> & -> & r & Er & Sr)]; injection H as <- <-; [by destruct s|]. unfold Update.
    apply (Row _ (Some DGet)); [done|done|by apply Same|split; [apply hand_empty|done]].
  - destruct (db_ok a); injection H as <- <-; [by apply Free|exact Rel].
  - destruct (db_ok a); injection H as <- <-; [|exact Rel]. apply Stay; [apply snapshot_ok|done].
  - cbn in Ha. destruct todo as [|[i it] rest]; [injection H as <- <-; by apply Free|].
    assert (G : reported base (goto t (next_of wr ex (if undelivered it then let (more, todo) := batch_of ((i, it) :: rest) in Some (DStart i [] (i :: more) todo) else Some (DLoop rest))) s)).
    { destruct Ha as [_ T N]. cbn in N. destruct (undelivered it) eqn:U.
      - destruct (batch_of ((i, it) :: rest)) as [more td] eqn:B. apply batch_spec in B as (p & -> & -> & Pu). apply Stay; [|done]. cbn [in_hand fst snd app].
        split; cbn [app].
        + intros j [->|J]%elem_of_cons; [rewrite (T i it) by (by left); by rewrite U|]. apply list_elem_of_fmap in J as ([j' x] & -> & J). cbn [fst].
          rewrite (T j' x) by (right; apply elem_of_app; by left). by rewrite (Pu _ _ J).
        + intros j x J. apply T. right. apply elem_of_app. by right.
        + by rewrite <- fmap_app.
      - apply Stay; [|done]. split; [intros j J; inversion J|intros j x J; apply T; by right|]. by apply NoDup_cons in N as [_ N]. }
    destruct a; try (injection H as <- <-; by first [exact Rel|apply Free]);
      (destruct (undelivered it); [destruct (batch_of ((i, it) :: rest)) as [more td]|]; injection H as <- <-; exact G).
  - cbn [in_hand fst snd] in Ha. destruct more as [|i more]; [injection H as <- <-; rewrite app_nil_r in Ha; by apply Stay|].
    destruct (if db_ok a then StartReportDelivery id i (db s) else None) as [d|] eqn:St; injection H as <- <-; [|by apply Free].
    destruct (db_ok a); [|done]. unfold StartReportDelivery in St. destruct (item_at id i (db s)) as [it|]; [|done]. destruct (undelivered it); [|done].
    injection St as <-. unfold on_item.
    assert (V : ∀ r j, undelivered <$> r_Items (set_items (alter start_item i (r_Items r)) r) !! j = undelivered <$> r_Items r !! j).
    { intros r j. cbn [r_Items set_items]. rewrite list_lookup_alter. case_decide; [subst j|done]. by destruct (r_Items r !! i). }
    apply (Row _ (Some (DStart first (st ++ [i]) more todo))); [done|by intros|done|]. split; [|done]. cbn [in_hand fst snd].
    rewrite <- app_assoc. eapply hand_like; [|exact Ha]. apply like_alter. by intros.
  - cbn [in_hand fst snd] in Ha.
    assert (G : ∀ q n ok, (∀ b td, q = DMark b td → b = batch ∧ ok = true) → in_hand q = ([], []) ∨ q = DMark batch todo →
      reported base (goto t (wr q) (note (LSend id batch n ok) s))).
    { intros q n ok Bq Q. apply (reported_like s t _ _ (db s) (queue s) [LSend id batch n ok] E R); [done|apply R| | | |apply R].
      - apply ordered_send; [apply R|]. by eapply hand_unmarked.
      - intros i b I%list_elem_of_singleton. done.
      - rewrite W. split; [destruct Q as [-> | ->]; [apply hand_empty|done]|]. destruct q; try done. destruct (Bq _ _ eq_refl) as [-> ->].
        exists n. apply elem_of_app. right. by left. }
    destruct a; injection H as <- <-; apply G; try (by left); try (by right); try done; by intros b td [= -> ->].
  - destruct Ma as [n0 Sd]. cbn [in_hand fst snd] in Ha.
    destruct (if db_ok a then MarkReportDeliveriesDelivered id batch (db s) else None) as [d|] eqn:Mk; injection H as <- <-; [|exact Rel].
    destruct (db_ok a); [|done]. eapply reported_mark; [exact Dv|exact W|exact E|exact O|exact R|exact Ha|exact Sd|exact Mk].
  - destruct (db_ok a); [|injection H as <- <-; exact Rel]. unfold CompleteReport in H. destruct (db s !! id) as [r|] eqn:Er; [|injection H as <- <-; by destruct s].
    destruct (bool_decide (r_Status r = Delivering) && negb (existsb undelivered (r_Items r))) eqn:C; injection H as <- <-; [|by destruct s].
    apply andb_true_iff in C as [_ C]. apply negb_true_iff in C. unfold Update. apply (Row _ None); [done|done| |done].
    intros r' _ _ _ i. unfold view, item_at. rewrite Er. cbn. destruct (r_Items r !! i) as [it|] eqn:Ei; [|done]. cbn. intros [= U].
    assert (T : existsb undelivered (r_Items r) = true); [|congruence]. apply existsb_exists. exists it. split; [|done]. apply list_elem_of_In. by eapply list_elem_of_lookup_2.
  - unfold MarkReportDeliveryFailed, Update, on_item in H. destruct (db_ok a); [destruct (item_at id i (db s)) as [it|] eqn:Ei; [destruct (undelivered it) eqn:U|]|];
      injection H as <- <-; [|exact Leave..]. rewrite list_alter_alter_eq. apply (Row _ None); [done| |by intros|done].
    intros r Er j. cbn. rewrite list_lookup_alter. case_decide; [subst j|done]. unfold item_at in Ei. rewrite Er in Ei. cbn in Ei. rewrite Ei. cbn. by rewrite U.
  - injection H as <- <-. destruct (db_ok a); [|exact Leave]. destruct (ReleaseReport id (db s)) as [ok d] eqn:C.
    apply swap_spec in C as [[-> ->]|(-> & -> & r & Er & Sr)]; [by destruct s|]. unfold Update. apply (Row _ None); [done|done|by apply Same|done].
  - injection H as <- <-. destruct (db_ok a); [|exact Leave]. unfold Update. apply (Row _ None); [done|done|by apply Same|done].
Qed.
End Report.

(** ** Every step keeps the facts about reports *)
Section Steps.
Context (base : rows).
Lemma key_fresh key d : GetByKey key d = false → key ∉ r_Key <$> d.
Proof.
  unfold GetByKey. intros F I. apply list_elem_of_fmap in I as (r & -> & I). assert (existsb (λ x, bool_decide (r_Key x = r_Key r)) d = true); [|congruence].
  apply existsb_exists. exists r. split; [by apply list_elem_of_In|by apply bool_decide_eq_true_2].
Qed.
Lemma view_create id i d r : r_Items r = [] → view id i (d ++ [r]) = view id i d.
Proof.
  intros N. unfold view, item_at. destruct (decide (id < length d)); [by rewrite lookup_app_l|]. rewrite (lookup_ge_None_2 d id) by lia.
  rewrite lookup_app_r by lia. destruct (id - length d) as [|k]; [cbn; by rewrite N|done].
Qed.
Lemma reported_create s t th th' r : threads s !! t = Some th → reported base s → r_Items r = [] → r_Status r ≠ Completed → r_Key r ∉ r_Key <$> db s →
  (∀ d l, thread_ok d l th' = True) → reported base (moved t th' (db s ++ [r]) (queue s) (log s) s).
Proof.
  intros E R N Ns Fr To. pose proof R as [K P M S O D].
  replace (moved t th' (db s ++ [r]) (queue s) (log s) s) with (moved t th' (db s ++ [r]) (queue s) (log s ++ []) s) by (by rewrite app_nil_r).
  eapply reported_like; rewrite ?app_nil_r; try done.
  - intros id i. by apply view_create.
  - rewrite fmap_app. cbn. by apply NoDup_snoc.
  - intros i b I. inversion I.
  - by rewrite To.
  - intros id r0 E0 S0 i. rewrite view_create by done. destruct (decide (id < length (db s))).
    + rewrite lookup_app_l in E0 by done. by apply (D id r0).
    + unfold view, item_at. by rewrite (lookup_ge_None_2 (db s) id) by lia.
Qed.
(** The last update of a row by its owner before a report. *)
Lemma reported_update s t th th' id st : threads s !! t = Some th → reported base s → owned s → pre id th = true → (∀ d l, thread_ok d l th' = True) →
  reported base (moved t th' (alter (set_status st) id (db s)) (queue s) (log s) s).
Proof.
  intros E R O Pt To. apply (reported_row base s t _ _ id _ E R); [done|done| |by rewrite To]. intros r Er _ _.
  destruct (ow_pre _ O id) as [_ H]. destruct H as (r' & Er' & _ & N); [by apply (pre_here s t th E)|]. rewrite Er in Er'. injection Er' as <-.
  by eapply interim_delivered.
Qed.
Lemma reported_prepare s t id deliveries d : threads s !! t = Some (WPrepare id deliveries) → owned s → reported base s →
  PrepareReport id deliveries (db s) = Some d → reported base (goto t (WDeliver id DClaim) (with_db d s)).
Proof.
  intros E O R C. destruct (ow_pre _ O id) as [_ H]. destruct H as (r & Er & Ir & N); [by apply (pre_here s t _ E), bool_decide_eq_true_2|].
  unfold PrepareReport in C. rewrite Er in C. destruct deliveries as [|p ps]; [done|]. case_bool_decide; [|done]. injection C as <-.
  set (r' := {| r_Key := r_Key r; r_Status := ResultReady; r_Items := map new_item (p :: ps) |}). pose proof R as [K P M S Od D].
  assert (Nv : ∀ i, view id i (db s) = None) by (intros i; unfold view, item_at; rewrite Er; cbn; by rewrite N).
  assert (Vo : ∀ id' i, id' ≠ id → view id' i (<[id:=r']> (db s)) = view id' i (db s)).
  { intros id' i Ne. unfold view, item_at. by rewrite list_lookup_insert_ne. }
  assert (Vn : ∀ i, view id i (<[id:=r']> (db s)) ≠ Some false).
  { intros i. unfold view, item_at. rewrite list_lookup_insert_eq by (by eapply lookup_lt_Some). cbn [mbind option_bind r' r_Items]. rewrite list_lookup_fmap.
    by destruct ((p :: ps) !! i). }
  split; cbn [db log threads goto with_db].
  - replace (r_Key <$> <[id:=r']> (db s)) with (r_Key <$> db s); [done|]. rewrite list_fmap_insert. cbn. symmetry. apply list_insert_id. by rewrite list_lookup_fmap, Er.
  - intros t' x Ex. apply list_lookup_insert_Some in Ex as [(<- & <- & _)|[Ne Ex]]; [split; [apply hand_empty|done]|]. pose proof (P _ _ Ex) as Px.
    assert (G : ∀ id' pc, pc_ok id' pc (db s) (log s) → pc_ok id' pc (<[id:=r']> (db s)) (log s)).
    { intros id' pc [[A B Nd] Mk]. split; [|done]. destruct (decide (id' = id)) as [->|Nq]; [|by split; [intros i I; rewrite Vo; auto|intros i it I; rewrite Vo; auto|]].
      split; [intros i I; apply A in I; by rewrite Nv in I|intros i it I; apply B in I; by rewrite Nv in I|done]. }
    destruct x; try done; cbn in Px |- *; by apply G.
  - intros id' b i I Ib. pose proof (M _ _ _ I Ib) as V. destruct (decide (id' = id)) as [->|Ne]; [by rewrite Nv in V|by rewrite Vo].
  - intros id' i V. destruct (decide (id' = id)) as [->|Ne]; [by apply Vn in V|]. rewrite Vo in V by done. by apply S.
  - done.
  - intros id' r0 E0 S0. destruct (decide (id' = id)) as [->|Ne].
    + rewrite list_lookup_insert_eq in E0 by (by eapply lookup_lt_Some). by injection E0 as <-.
    + rewrite list_lookup_insert_ne in E0 by done. intros i. rewrite Vo by done. by apply (D id' r0).
Qed.
Lemma reported_ingress s t key m pc a s' : threads s !! t = Some (Ingress key m pc) → owned s → reported base s → ingress_step t key m pc a s = Some s' → reported base s'.
Proof.
  intros E O R H. assert (Go : ∀ pc q, reported base (moved t (Ingress key m pc) (db s) q (log s) s)) by (intros; by apply (reported_stay base s t _ _ q E R)).
  assert (Nt : ∀ pc e, match e with LSend _ _ _ _ | LMark _ _ => False | _ => True end → reported base (moved t (Ingress key m pc) (db s) (queue s) (log s ++ [e]) s)).
  { intros q e He. by apply (reported_note base s t _ _ (queue s) e E R). }
  destruct pc; cbn [ingress_step] in H; [| | |destruct actions as [|[target|api] actions]| | |done].
  - destruct (negb (db_ok a)); [|destruct (GetByKey key (db s))]; injection H as <-; apply Go.
  - destruct (if db_ok a then Create key _ (db s) else None) as [d|] eqn:C; injection H as <-; [|apply Go].
    destruct (db_ok a); [|done]. unfold Create in C. destruct (GetByKey key (db s)) eqn:G; [done|]. injection C as <-. rewrite dl_db, goto_dl.
    apply (reported_create s t _ _ _ E R); [done|by destruct m|by apply key_fresh|by destruct m].
  - injection H as <-. apply Go.
  - injection H as <-. apply Go.
  - injection H as <-. destruct (db_ok a); by apply Nt.
  - injection H as <-. destruct (db_ok a); by apply Nt.
  - unfold enqueueLLM in H. destruct (closed s); [|destruct (length (queue s) <? capacity s)]; injection H as <-; apply Go.
  - destruct (db_ok a).
    + injection H as <-. rewrite dl_db, goto_dl. unfold Update. apply (reported_update s t _ _ id st E R O); [by apply bool_decide_eq_true_2|done].
    + destruct m, st; injection H as <-; apply Go.
Qed.
Lemma reported_step t a s s' : owned s → reported base s → thread_step t a s = Some s' → reported base s'.
Proof.
  intros O R H. unfold thread_step in H. destruct (threads s !! t) as [th|] eqn:E; [|done].
  assert (Go : ∀ th' q, (∀ d l, thread_ok d l th' = True) → reported base (moved t th' (db s) q (log s) s)).
  { intros th' q To. apply (reported_stay base s t _ _ q E R). by rewrite To. }
  assert (Dc : ∀ id d l, pc_ok id DClaim d l) by (intros; split; [apply hand_empty|done]).
  destruct th; try done.
  - by eapply reported_ingress.
  - destruct (closed s); [injection H as <-; by apply Go|]. destruct (queue s); [done|]. injection H as <-. by apply Go.
  - destruct (db_ok a); injection H as <-; [|by apply Go]. rewrite dl_db, goto_dl. unfold Update.
    apply (reported_update s t _ _ id Running E R O); [by apply bool_decide_eq_true_2|done].
  - destruct a as [| | |n|[| | |ds|]]; injection H as <-; by apply (reported_note base s t _ _ (queue s) (LRun id) E R).
  - destruct (db_ok a); injection H as <-; [|destruct again; by apply Go]. rewrite dl_db, goto_dl. unfold Update.
    apply (reported_update s t _ _ id st E R O); [by apply bool_decide_eq_true_2|done].
  - destruct (if db_ok a then PrepareReport id deliveries (db s) else None) as [d|] eqn:C; injection H as <-; [|by apply Go].
    destruct (db_ok a); [|done]. by eapply reported_prepare.
  - destruct (deliver_step id pc a s) as [pc' s1] eqn:D. injection H as <-. by eapply (reported_deliver base id (WDeliver id) WIdle); [apply delivers_worker|..].
  - destruct (closed s); injection H as <-; [by apply Go|]. destruct (db_ok a); by apply Go.
  - destruct ids as [|id ids]; injection H as <-; [by apply Go|]. apply (reported_stay base s t _ _ (queue s) E R). apply Dc.
  - destruct (deliver_step id pc a s) as [pc' s1] eqn:D. injection H as <-. by eapply (reported_deliver base id (λ pc, RDeliver id pc ids) (RNext ids)); [apply delivers_reporter|..].
Qed.
End Steps.

(** ** One winner for a key, one run for an event *)
(** The request created the row of its key. *)
Definition won (key : gostring * gostring * gostring) (th : thread) : bool :=
  match th with
  | Ingress k _ (IAct _ _) | Ingress k _ (IEnqueue _) | Ingress k _ (IFinish _ _) | Ingress k _ (IGone true false) => bool_decide (k = key)
  | _ => false
  end.
(** The agent may still be started for the event. *)
Definition early (id : nat) (th : thread) : bool :=
  match th with Ingress _ _ (IEnqueue i) | WStart i | WRun i => bool_decide (i = id) | _ => false end.
Definition runs (id : nat) (l : list entry) : nat := cnt (λ e, match e with LRun i => bool_decide (i = id) | _ => false end) l.
Definition run_count (id : nat) (s : sys) : nat := runs id (log s) + cnt (early id) (threads s) + waiting id (queue s).
Record accounts (s : sys) : Prop := {
  ac_runs : ∀ id, run_count id s ≤ 1 ∧ (0 < run_count id s → id < length (db s));
  ac_won : ∀ key, cnt (won key) (threads s) ≤ 1 ∧ (0 < cnt (won key) (threads s) → key ∈ r_Key <$> db s)
}.
Lemma runs_snoc id l e : runs id (l ++ [e]) = runs id l + match e with LRun i => b2n (bool_decide (i = id)) | _ => 0 end.
Proof. unfold runs. rewrite cnt_app, cnt_one. by destruct e. Qed.
Lemma accounts_move s t th th' d q l : threads s !! t = Some th → accounts s → length (db s) ≤ length d → (∀ key, key ∈ r_Key <$> db s → key ∈ r_Key <$> d) →
  (∀ id, runs id l + b2n (early id th') + waiting id q ≤ runs id (log s) + b2n (early id th) + waiting id (queue s)) →
  (∀ key, b2n (won key th') ≤ b2n (won key th)) → accounts (moved t th' d q l s).
Proof.
  intros E [A W] Ld Kd Lr Lw. split.
  - intros id. destruct (A id) as [A1 A2]. pose proof (Lr id). pose proof (cnt_insert (early id) (threads s) t th th' E) as C.
    assert (run_count id (moved t th' d q l s) ≤ run_count id s) by (unfold run_count; cbn; lia).
    split; [lia|]. rewrite db_moved. intros. assert (id < length (db s)); [apply A2|]; lia.
  - intros key. destruct (W key) as [W1 W2]. pose proof (Lw key). pose proof (cnt_insert (won key) (threads s) t th th' E) as C. cbn [threads moved].
    split; [lia|]. intros. rewrite db_moved. apply Kd, W2. lia.
Qed.
Lemma accounts_create s t th th' r : threads s !! t = Some th → accounts s → r_Key r ∉ r_Key <$> db s → (∀ id, early id th = false) → (∀ key, won key th = false) →
  (∀ id, early id th' = true → id = length (db s)) → (∀ key, won key th' = true → key = r_Key r) → accounts (moved t th' (db s ++ [r]) (queue s) (log s) s).
Proof.
  intros E [A W] Fr Ne Nw Ei Wi. split.
  - intros id. destruct (A id) as [A1 A2]. pose proof (cnt_insert (early id) (threads s) t th th' E) as C. rewrite Ne in C. cbn in C.
    rewrite db_moved, length_app. cbn. assert (Z : run_count id (moved t th' (db s ++ [r]) (queue s) (log s) s) = run_count id s + b2n (early id th')) by (unfold run_count; cbn; lia).
    destruct (early id th') eqn:Q; cbn in Z; [apply Ei in Q as ->|].
    + assert (run_count (length (db s)) s = 0) by (destruct (decide (run_count (length (db s)) s = 0)); [done|assert (length (db s) < length (db s)); [apply A2|]; lia]). lia.
    + split; [lia|]. intros. assert (id < length (db s)); [apply A2|]; lia.
  - intros key. destruct (W key) as [W1 W2]. pose proof (cnt_insert (won key) (threads s) t th th' E) as C. rewrite Nw in C. cbn in C. cbn [threads moved].
    rewrite db_moved, fmap_app. destruct (won key th') eqn:Q; cbn in C; [apply Wi in Q as ->|].
    + assert (cnt (won (r_Key r)) (threads s) = 0) by (destruct (decide (cnt (won (r_Key r)) (threads s) = 0)); [done|destruct Fr; apply W2; lia]).
      split; [lia|]. intros. apply elem_of_app. right. by left.
    + split; [lia|]. intros. apply elem_of_app. left. apply W2. lia.
Qed.
Lemma deliver_log id pc a s pc' s1 : deliver_step id pc a s = (pc', s1) → ∀ i, runs i (log s1) = runs i (log s).
Proof.
  intros H i. destruct pc as [| | |todo|first st more todo|first batch todo|batch todo| |j| |]; cbn [deliver_step] in H.
  - destruct (db_ok a); [destruct (ClaimReport id (db s))|]; by injection H as <- <-.
  - by injection H as <- <-.
  - by injection H as <- <-.
  - destruct todo as [|[j it] rest]; [by injection H as <- <-|]. destruct a; try (by injection H as <- <-);
      (destruct (undelivered it); [destruct (batch_of ((j, it) :: rest))|]; by injection H as <- <-).
  - destruct more; [by injection H as <- <-|]. destruct (if db_ok a then _ else _); by injection H as <- <-.
  - destruct a; injection H as <- <-; cbn [log note]; rewrite runs_snoc; lia.
  - destruct (if db_ok a then _ else _); injection H as <- <-; [|done]. cbn [log note]. rewrite runs_snoc. cbn [log with_db]. lia.
  - destruct (db_ok a); [destruct (CompleteReport id (db s))|]; by injection H as <- <-.
  - destruct (if db_ok a then _ else _); by injection H as <- <-.
  - destruct (db_ok a); by injection H as <- <-.
  - destruct (db_ok a); by injection H as <- <-.
Qed.
Lemma change_keys id pc d pc' d' : deliver_change id pc d pc' d' → r_Key <$> d' = r_Key <$> d ∧ length d' = length d.
Proof.
  intros [| |? f _ F _|f _ F]; (split; [|unfold Update; by rewrite ?length_alter]); try done; unfold Update; apply keys_alter; try done. intros r. by destruct (F r).
Qed.
Lemma accounts_deliver id wr ex s t pc a pc' s1 : (∀ i pc, early i (wr pc) = false) → (∀ k pc, won k (wr pc) = false) → (∀ i, early i ex = false) → (∀ k, won k ex = false) →
  threads s !! t = Some (wr pc) → accounts s → deliver_step id pc a s = (pc', s1) → accounts (goto t (next_of wr ex pc') s1).
Proof.
  intros We Ww Xe Xw E A H. pose proof (deliver_log _ _ _ _ _ _ H) as L. apply deliver_shape in H as (d & l & -> & C). rewrite goto_dl. cbn [log dl] in L.
  apply change_keys in C as [Ck Cl]. apply (accounts_move s t _ _ d (queue s) l E A); [lia|by rewrite Ck| |].
  - intros i. rewrite L, We. destruct pc'; cbn; rewrite ?We, ?Xe; cbn; lia.
  - intros k. rewrite Ww. destruct pc'; cbn; rewrite ?Ww, ?Xw; cbn; lia.
Qed.
Lemma accounts_ingress s t key m pc a s' : threads s !! t = Some (Ingress key m pc) → accounts s → ingress_step t key m pc a s = Some s' → accounts s'.
Proof.
  intros E A H.
  assert (Go : ∀ q, (∀ i, early i (Ingress key m q) = true → early i (Ingress key m pc) = true) → (∀ k, won k (Ingress key m q) = true → won k (Ingress key m pc) = true) →
    ∀ l, (∀ i, runs i l = runs i (log s)) → accounts (moved t (Ingress key m q) (db s) (queue s) l s)).
  { intros q Ei Wi l Ll. apply (accounts_move s t _ _ (db s) (queue s) l E A); [done|done| |].
    - intros i. rewrite Ll. specialize (Ei i). destruct (early i (Ingress key m q)); [by rewrite Ei|cbn; lia].
    - intros k. specialize (Wi k). destruct (won k (Ingress key m q)); [by rewrite Wi|cbn; lia]. }
  destruct pc; cbn [ingress_step] in H; [| | |destruct actions as [|[target|api] actions]| | |done].
  - destruct (negb (db_ok a)); [|destruct (GetByKey key (db s))]; injection H as <-; by apply Go.
  - destruct (if db_ok a then Create key _ (db s) else None) as [d|] eqn:C; injection H as <-; [|by apply Go].
    destruct (db_ok a); [|done]. unfold Create in C. destruct (GetByKey key (db s)) eqn:G; [done|]. injection C as <-. rewrite dl_db, goto_dl.
    apply (accounts_create s t _ _ _ E A); [by apply key_fresh|done|done|intros i; destruct m; cbn; try done; by intros ->%bool_decide_eq_true|].
    intros k. destruct m; cbn; by intros ->%bool_decide_eq_true.
  - injection H as <-. apply Go; [by destruct (db_ok a && GetByKey key (db s))|by destruct (db_ok a && GetByKey key (db s))|done].
  - injection H as <-. by apply Go.
  - injection H as <-. destruct (db_ok a); (apply Go; [done|done|intros i; cbn [log note]; rewrite runs_snoc; lia]).
  - injection H as <-. destruct (db_ok a); (apply Go; [done|done|intros i; cbn [log note]; rewrite runs_snoc; lia]).
  - unfold enqueueLLM in H. destruct (closed s); [|destruct (length (queue s) <? capacity s)]; injection H as <-; [by apply Go| |by apply Go].
    apply (accounts_move s t _ _ (db s) (queue s ++ [id]) (log s) E A); [done|done| |done]. intros i. rewrite waiting_app. cbn. lia.
  - destruct (db_ok a).
    + injection H as <-. rewrite dl_db, goto_dl. unfold Update. apply (accounts_move s t _ _ _ (queue s) (log s) E A); [by rewrite length_alter|by rewrite keys_alter|done|done].
    + destruct m, st; injection H as <-; by apply Go.
Qed.
Lemma accounts_step t a s s' : accounts s → thread_step t a s = Some s' → accounts s'.
Proof.
  intros A H. unfold thread_step in H. destruct (threads s !! t) as [th|] eqn:E; [|done].
  assert (Go : ∀ th' q l, (∀ i, runs i l + b2n (early i th') + waiting i q ≤ runs i (log s) + b2n (early i th) + waiting i (queue s)) → (∀ k, won k th' = false) →
    accounts (moved t th' (db s) q l s)).
  { intros th' q l Lr Nw. apply (accounts_move s t _ _ (db s) q l E A); [done|done|done|intros k; rewrite Nw; cbn; lia]. }
  assert (Up : ∀ th' id f, (∀ r, r_Key (f r) = r_Key r) → (∀ i, b2n (early i th') ≤ b2n (early i th)) → (∀ k, won k th' = false) →
    accounts (moved t th' (alter f id (db s)) (queue s) (log s) s)).
  { intros th' id f Fk Le Nw. apply (accounts_move s t _ _ _ (queue s) (log s) E A); [by rewrite length_alter|by rewrite keys_alter|intros i; specialize (Le i); lia|intros k; rewrite Nw; cbn; lia]. }
  destruct th; try done.
  - by eapply accounts_ingress.
  - destruct (closed s); [injection H as <-; by apply Go|]. destruct (queue s) as [|id q] eqn:Q; [done|]. injection H as <-.
    apply (Go (WStart id) q (log s)); [|done]. intros i. rewrite waiting_cons. cbn. lia.
  - destruct (db_ok a); injection H as <-; [rewrite dl_db, goto_dl; by apply Up|]. apply Go; [intros; cbn; lia|done].
  - destruct a as [| | |n|[| | |ds|]]; injection H as <-; (apply (Go _ (queue s)); [intros i; cbn [log note]; rewrite runs_snoc; cbn; lia|done]).
  - destruct (db_ok a); injection H as <-; [rewrite dl_db, goto_dl; by apply Up|destruct again; by apply Go].
  - destruct (if db_ok a then PrepareReport id deliveries (db s) else None) as [d|] eqn:C; injection H as <-; [|by apply Go].
    destruct (db_ok a); [|done]. unfold PrepareReport in C. destruct deliveries as [|p ps]; [done|]. destruct (db s !! id) as [r|] eqn:Er; [|done].
    case_bool_decide; [|done]. injection C as <-. rewrite dl_db, goto_dl. apply (accounts_move s t _ _ _ (queue s) (log s) E A); [by rewrite length_insert| |done|done].
    intros k. rewrite list_fmap_insert. cbn. rewrite list_insert_id; [done|]. by rewrite list_lookup_fmap, Er.
  - destruct (deliver_step id pc a s) as [pc' s1] eqn:D. injection H as <-. by eapply (accounts_deliver id (WDeliver id) WIdle).
  - destruct (closed s); injection H as <-; [by apply Go|]. destruct (db_ok a); by apply Go.
  - destruct ids as [|id ids]; injection H as <-; by apply Go.
  - destruct (deliver_step id pc a s) as [pc' s1] eqn:D. injection H as <-. by eapply (accounts_deliver id (λ pc, RDeliver id pc ids) (RNext ids)).
Qed.

(** * Every event once, every report in one hand (ElnisRun.v): the invariants over whole executions *)
(** ** From start to finish *)
Record sound (stored : rows) (s : sys) : Prop := { so_owned : owned s; so_reported : reported stored s; so_accounts : accounts s }.
(** What the table of an earlier process owes. *)
Definition stored_ok (stored : rows) : Prop :=
  NoDup (r_Key <$> stored) ∧ ∀ id r, stored !! id = Some r → r_Status r = Completed → all_delivered id stored.
(** A sweep over the table that changes the status of some rows. *)
Definition sweep (f : row → row) : Prop := ∀ r, r_Key (f r) = r_Key r ∧ r_Items (f r) = r_Items r ∧ (r_Status (f r) = Completed → f r = r).
Lemma sweep_fail : sweep (λ r, if bool_decide (r_Status r ∈ [Accepted; Queued; Running]) then set_status Failed r else r).
Proof. intros r. by case_bool_decide. Qed.
Lemma sweep_reset : sweep (λ r, if bool_decide (r_Status r = Delivering) && negb (bool_decide (length (r_Items r) = 0)) then set_status ResultReady r else r).
Proof. intros r. by destruct (bool_decide _ && _). Qed.
Lemma sweep_keys f (d : rows) : sweep f → r_Key <$> map f d = r_Key <$> d.
Proof. intros F. change (map f d) with (f <$> d). rewrite <- list_fmap_compose. apply list_fmap_ext. intros i r _. apply F. Qed.
Lemma sweep_items f (d : rows) : sweep f → items_like d (map f d).
Proof.
  intros F id i. unfold view, item_at. change (map f d) with (f <$> d). rewrite list_lookup_fmap. destruct (d !! id) as [r|]; [|done]. cbn.
  by destruct (F r) as (_ & -> & _).
Qed.
Lemma sweep_done f (d : rows) : sweep f → (∀ id r, d !! id = Some r → r_Status r = Completed → all_delivered id d) →
  ∀ id r, map f d !! id = Some r → r_Status r = Completed → all_delivered id (map f d).
Proof.
  intros F D id r E C. apply (delivered_like id d); [by apply sweep_items|]. change (map f d) with (f <$> d) in E. rewrite list_lookup_fmap in E.
  destruct (d !! id) as [r0|] eqn:Er; [|done]. injection E as <-. destruct (F r0) as (_ & _ & K). apply (D id r0 Er). rewrite K in C; done.
Qed.

Lemma hold_idle id th : idle th = true → pre id th = false ∧ holds id th = false ∧ early id th = false.
Proof. by destruct th as [? ? []| | | | | | | | | |]. Qed.
Lemma cnt_idle (f : thread → bool) l : (∀ th, idle th = true → f th = false) → forallb idle l = true → cnt f l = 0.
Proof. intros F I. apply cnt_zero. intros th E. rewrite forallb_forall in I. apply F, I. by apply list_elem_of_In. Qed.
Section Executions.
Context (stored : rows) (Ok : stored_ok stored).
Lemma sound_start workers capacity : sound stored (started stored workers capacity).
Proof using Ok.
  destruct Ok as [N D]. split.
  - assert (P : ∀ id, pre_count id (started stored workers capacity) = 0 ∧ hold_count id (started stored workers capacity) = 0).
    { intros id. assert (∀ th, th ∈ RIdle :: repeat WIdle workers → pre id th = false ∧ holds id th = false) as H.
      { intros th [->|I]%elem_of_cons; [done|]. apply list_elem_of_In, repeat_spec in I. by subst. }
      unfold pre_count, hold_count, started. cbn [threads queue]. rewrite (proj2 (cnt_zero _ _) (λ th I, proj1 (H th I))).
      by rewrite (proj2 (cnt_zero _ _) (λ th I, proj2 (H th I))). }
    split; intros id; destruct (P id) as [P1 P2]; split; lia.
  - unfold started, ResetDeliveringReports, FailInterrupted. split; cbn [db log threads].
    + by rewrite !sweep_keys by (apply sweep_reset || apply sweep_fail).
    + intros t th E. apply list_elem_of_lookup_2 in E. apply elem_of_cons in E as [->|I]; [done|]. apply list_elem_of_In, repeat_spec in I. by subst.
    + intros id b i I. set_solver.
    + intros id i V. left. by rewrite !sweep_items in V by (apply sweep_reset || apply sweep_fail).
    + intros l1 l2 id b i E. by destruct l1.
    + apply sweep_done; [apply sweep_reset|]. by apply sweep_done; [apply sweep_fail|].
  - split; intros k.
    + assert (run_count k (started stored workers capacity) = 0) as ->; [|lia]. unfold run_count, started. cbn [threads queue log].
      rewrite (proj2 (cnt_zero (early k) _)); [done|]. intros th [->|I]%elem_of_cons; [done|]. apply list_elem_of_In, repeat_spec in I. by subst.
    + unfold started. cbn [threads]. rewrite (proj2 (cnt_zero (won k) _)); [lia|]. intros th [->|I]%elem_of_cons; [done|].
      apply list_elem_of_In, repeat_spec in I. by subst.
Qed.
Lemma sound_arrive key m s : sound stored s → sound stored (arrive key m s).
Proof using.
  intros [[P H] R [A W]].
  assert (C : ∀ f : thread → bool, f (Ingress key m ILookup) = false → cnt f (threads (arrive key m s)) = cnt f (threads s)).
  { intros f F. unfold arrive. cbn [threads]. rewrite cnt_app, cnt_one, F. cbn. lia. }
  split.
  - split; intros id; unfold pre_count, hold_count; rewrite C by done; [apply P|apply H].
  - destruct R as [R1 R2 R3 R4 R5 R6]. split; [done| |done..]. intros t th E. cbn [arrive threads] in E.
    apply list_elem_of_lookup_2 in E. apply elem_of_app in E as [[t' E]%list_elem_of_lookup_1|I]; [by eapply R2|]. apply list_elem_of_singleton in I. by subst.
  - split; intros k; unfold run_count; rewrite C by done; [apply A|apply W].
Qed.
Lemma sound_close s : sound stored s → sound stored (begin_close s).
Proof using. intros [[P H] [] [A W]]. done. Qed.
Lemma sound_finish ok s : forallb idle (threads s) = true → sound stored s → sound stored (finish ok s).
Proof using.
  intros I [[P H] R [A W]].
  assert (Z : ∀ id, cnt (pre id) (threads s) = 0 ∧ cnt (holds id) (threads s) = 0 ∧ cnt (early id) (threads s) = 0).
  { intros id. repeat split; (apply cnt_idle; [|done]); intros th Ti; by destruct (hold_idle id th Ti) as (? & ? & ?). }
  assert (K : r_Key <$> db (finish ok s) = r_Key <$> db s) by (destruct ok; [|done]; apply sweep_keys, sweep_fail).
  split.
  - split; intros id; destruct (Z id) as (Z1 & Z2 & _); unfold pre_count, hold_count; cbn [finish threads queue]; rewrite ?Z1, ?Z2; change (waiting id []) with 0; lia.
  - destruct R as [R1 R2 R3 R4 R5 R6].
    assert (L : items_like (db s) (db (finish ok s))) by (destruct ok; [apply sweep_items, sweep_fail|apply like_refl]).
    split; [by rewrite K| | | |done|].
    + intros t th E. cbn [finish threads] in E. pose proof (R2 t th E) as T. apply list_elem_of_lookup_2 in E. rewrite forallb_forall in I.
      specialize (I th). destruct th; try done; (specialize (I ltac:(by apply list_elem_of_In))); done.
    + intros id b i Il Ib. rewrite L. by eapply R3.
    + intros id i. rewrite L. apply R4.
    + destruct ok; [|done]. apply sweep_done; [apply sweep_fail|done].
  - split; intros k.
    + destruct (A k) as [A1 A2]. destruct (Z k) as (_ & _ & Z3). unfold run_count in *. cbn [finish threads queue log]. rewrite Z3 in *. change (waiting k []) with 0. split; [lia|].
      intros Pos. replace (length (db (finish ok s))) with (length (db s)); [apply A2; lia|]. destruct ok; [|done]. unfold finish, FailInterrupted. cbn. by rewrite length_map.
    + destruct (W k) as [W1 W2]. rewrite K. by split.
Qed.
Lemma sound_exec act s s' : sound stored s → exec act s = Some s' → sound stored s'.
Proof using.
  intros I E. unfold exec in E. destruct (finished s); [done|]. destruct act as [key m|t a| |ok].
  - injection E as <-. by apply sound_arrive.
  - destruct I. split; [by eapply owned_step|by eapply reported_step|by eapply accounts_step].
  - injection E as <-. by apply sound_close.
  - destruct (closed s && forallb idle (threads s)) eqn:F; [|done]. apply andb_true_iff in F as [_ F]. injection E as <-. by apply sound_finish.
Qed.
Lemma sound_reachable workers capacity s : reachable stored workers capacity s → sound stored s.
Proof using Ok. induction 1; [apply sound_start|by eapply sound_exec]. Qed.
End Executions.

(** ** What no step undoes *)
Definition final (st : status) : bool := match st with Completed | TakenOver | Failed => true | _ => false end.
(** Every row stays where it is with its key, and a final row stays as it is. *)
Definition lasting (d d' : rows) : Prop := ∀ id r, d !! id = Some r → ∃ r', d' !! id = Some r' ∧ r_Key r' = r_Key r ∧ (final (r_Status r) = true → r' = r).
Lemma lasting_refl d : lasting d d.
Proof. intros id r E. by exists r. Qed.
Lemma lasting_app (d : rows) x : lasting d (d ++ [x]).
Proof. intros id r E. exists r. by rewrite lookup_app_l by (by eapply lookup_lt_Some). Qed.
Lemma lasting_alter (id : nat) f (d : rows) : (∀ r, r_Key (f r) = r_Key r) → (∀ r, d !! id = Some r → final (r_Status r) = false) → lasting d (alter f id d).
Proof.
  intros K F i r E. destruct (decide (id = i)) as [<-|Ne]; [|exists r; by rewrite list_lookup_alter_ne].
  exists (f r). rewrite list_lookup_alter_eq, E. split_and!; [done|apply K|]. by rewrite (F r E).
Qed.
Lemma lasting_keys d d' key : lasting d d' → key ∈ r_Key <$> d → key ∈ r_Key <$> d'.
Proof.
  intros L (r & -> & [i E]%list_elem_of_lookup_1)%list_elem_of_fmap. destruct (L i r E) as (r' & E' & <- & _).
  apply list_elem_of_fmap. exists r'. split; [done|]. by eapply list_elem_of_lookup_2.
Qed.
Lemma interim_open r : interim r → final (r_Status r) = false.
Proof. intros [I _]. set_unfold in I. by destruct I as [-> | [-> | [-> | []]]]. Qed.
Lemma pre_open s t th id r : owned s → threads s !! t = Some th → pre id th = true → db s !! id = Some r → final (r_Status r) = false.
Proof.
  intros O E P Er. destruct (ow_pre _ O id) as [_ H]. destruct H as (r' & Er' & I); [by apply (pre_here s t th E)|]. rewrite Er in Er'. injection Er' as <-.
  by apply interim_open.
Qed.
Lemma hold_open s t th id r : owned s → threads s !! t = Some th → holds id th = true → db s !! id = Some r → final (r_Status r) = false.
Proof.
  intros O E P Er. destruct (ow_hold _ O id) as [_ H]. destruct H as (r' & Er' & I); [by apply (hold_here s t th E)|]. rewrite Er in Er'. injection Er' as <-.
  by rewrite I.
Qed.
Lemma lasting_deliver id wr ex s t pc a pc' s1 : delivers id wr ex → threads s !! t = Some (wr pc) → owned s → deliver_step id pc a s = (pc', s1) →
  lasting (db s) (db s1).
Proof.
  intros [W _] E O (d & l & -> & C)%deliver_shape. cbn [db dl].
  assert (Open : claimed pc = true → ∀ r, db s !! id = Some r → final (r_Status r) = false).
  { intros Cl r. apply (hold_open s t _ id r O E). destruct (W pc id) as [_ ->]. by rewrite Cl, bool_decide_eq_true_2. }
  destruct C as [|r _ Er Sr|pc' f Cl F _|f Cl F]; [apply lasting_refl| | |].
  - apply lasting_alter; [done|]. intros r' E'. rewrite Er in E'. injection E' as <-. by rewrite Sr.
  - apply lasting_alter; [intros; by apply F|by apply Open].
  - apply lasting_alter; [done|by apply Open].
Qed.
Lemma lasting_ingress t key m pc a s s' : threads s !! t = Some (Ingress key m pc) → owned s → ingress_step t key m pc a s = Some s' → lasting (db s) (db s').
Proof.
  intros E O H. destruct pc; cbn [ingress_step] in H; [| | |destruct actions as [|[target|api] actions]| | |done].
  - destruct (negb (db_ok a)); [|destruct (GetByKey key (db s))]; injection H as <-; apply lasting_refl.
  - destruct (if db_ok a then Create key _ (db s) else None) as [d|] eqn:C; injection H as <-; [|apply lasting_refl].
    destruct (db_ok a); [|done]. unfold Create in C. destruct (GetByKey key (db s)); [done|]. injection C as <-. apply lasting_app.
  - injection H as <-. apply lasting_refl.
  - injection H as <-. apply lasting_refl.
  - injection H as <-. apply lasting_refl.
  - injection H as <-. apply lasting_refl.
  - unfold enqueueLLM in H. destruct (closed s); [|destruct (length (queue s) <? capacity s)]; injection H as <-; apply lasting_refl.
  - destruct (db_ok a); [|destruct m, st; injection H as <-; apply lasting_refl]. injection H as <-. apply lasting_alter; [done|].
    intros r. apply (pre_open s t _ id r O E). by apply bool_decide_eq_true_2.
Qed.
Lemma lasting_step t a s s' : owned s → thread_step t a s = Some s' → lasting (db s) (db s').
Proof.
  intros O H. unfold thread_step in H. destruct (threads s !! t) as [th|] eqn:E; [|done].
  assert (Open : ∀ id, pre id th = true → ∀ r, db s !! id = Some r → final (r_Status r) = false) by (intros id P r; by apply (pre_open s t th id r O E)).
  destruct th; try done.
  - by eapply lasting_ingress.
  - destruct (closed s); [injection H as <-; apply lasting_refl|]. destruct (queue s); [done|]. injection H as <-. apply lasting_refl.
  - destruct (db_ok a); injection H as <-; [|apply lasting_refl]. apply lasting_alter; [done|apply Open; by apply bool_decide_eq_true_2].
  - destruct a as [| | |n|[]]; injection H as <-; apply lasting_refl.
  - destruct (db_ok a); injection H as <-; [|apply lasting_refl]. apply lasting_alter; [done|apply Open; by apply bool_decide_eq_true_2].
  - destruct (if db_ok a then PrepareReport id deliveries (db s) else None) as [d|] eqn:C; injection H as <-; [|apply lasting_refl].
    destruct (db_ok a); [|done]. unfold PrepareReport in C. destruct deliveries as [|p ps]; [done|]. destruct (db s !! id) as [r|] eqn:Er; [|done].
    case_bool_decide; [|done]. injection C as <-. intros i r' E'. cbn [db goto with_db]. destruct (decide (id = i)) as [<-|Ne]; [|exists r'; by rewrite list_lookup_insert_ne].
    rewrite Er in E'. injection E' as <-. rewrite list_lookup_insert_eq by (by eapply lookup_lt_Some). eexists. split_and!; [done..|].
    by rewrite (Open id (bool_decide_eq_true_2 _ eq_refl) r Er).
  - destruct (deliver_step id pc a s) as [pc' s1] eqn:D. injection H as <-. change (lasting (db s) (db s1)). by eapply (lasting_deliver id (WDeliver id) WIdle); [apply delivers_worker|..].
  - destruct (closed s); injection H as <-; [apply lasting_refl|]. destruct (db_ok a); apply lasting_refl.
  - destruct ids as [|id ids]; injection H as <-; apply lasting_refl.
  - destruct (deliver_step id pc a s) as [pc' s1] eqn:D. injection H as <-. change (lasting (db s) (db s1)). by eapply (lasting_deliver id (λ pc, RDeliver id pc ids) (RNext ids)); [apply delivers_reporter|..].
Qed.
Lemma lasting_exec act s s' : owned s → exec act s = Some s' → lasting (db s) (db s').
Proof.
  intros O E. unfold exec in E. destruct (finished s); [done|]. destruct act as [key m|t a| |ok].
  - injection E as <-. apply lasting_refl.
  - by eapply lasting_step.
  - injection E as <-. apply lasting_refl.
  - destruct (closed s && forallb idle (threads s)); [|done]. injection E as <-. destruct ok; [|apply lasting_refl]. intros id r Er. cbn [finish db].
    unfold FailInterrupted. change (map ?f ?d) with (f <$> d). rewrite list_lookup_fmap, Er. cbn. eexists. split; [done|]. case_bool_decide as I; [|done].
    split; [done|]. intros F. set_unfold in I. by destruct I as [I|[I|[I|[]]]]; rewrite I in F.
Qed.
(** An accepted request has a row. *)
Definition acked (s : sys) : Prop := ∀ t key m dup, threads s !! t = Some (Ingress key m (IGone true dup)) → key ∈ r_Key <$> db s.
Lemma acked_found key d : GetByKey key d = true → key ∈ r_Key <$> d.
Proof. intros (r & I & K%bool_decide_eq_true)%existsb_exists. apply list_elem_of_fmap. exists r. split; [done|]. by apply list_elem_of_In. Qed.
Lemma won_key s t key m pc : accounts s → threads s !! t = Some (Ingress key m pc) → won key (Ingress key m pc) = true → key ∈ r_Key <$> db s.
Proof.
  intros [_ W] E T. destruct (W key) as [_ H]. apply H. pose proof (cnt_insert (won key) (threads s) t _ Gone E) as C. rewrite T in C. cbn in C. lia.
Qed.
Lemma acked_new t key m pc a s s' m' dup k : threads s !! t = Some (Ingress key m pc) → accounts s → owned s → ingress_step t key m pc a s = Some s' →
  threads s' !! t = Some (Ingress k m' (IGone true dup)) → k ∈ r_Key <$> db s'.
Proof.
  intros E A O H Et. pose proof (lasting_ingress _ _ _ _ _ _ _ E O H) as L. pose proof (won_key s t key m pc A E) as Wk.
  assert (At : ∀ th, <[t := th]> (threads s) !! t = Some th) by (intros; apply list_lookup_insert_eq; by eapply lookup_lt_Some).
  destruct pc; cbn [ingress_step] in H; [| | |destruct actions as [|[target|api] actions]| | |done].
  - destruct (negb (db_ok a)); [|destruct (GetByKey key (db s)) eqn:G]; injection H as <-; cbn [threads goto with_db note with_queue] in Et; rewrite At in Et; simplify_eq. by apply acked_found.
  - destruct (if db_ok a then Create key _ (db s) else None) as [d|] eqn:C; injection H as <-; cbn [threads goto with_db note with_queue] in Et; rewrite At in Et; by destruct m; simplify_eq.
  - injection H as <-. cbn [threads goto with_db note with_queue] in Et; rewrite At in Et. destruct (db_ok a && GetByKey key (db s)) eqn:G; simplify_eq. apply andb_true_iff in G as [_ G]. by apply acked_found.
  - injection H as <-. cbn [threads goto with_db note with_queue] in Et; rewrite At in Et. simplify_eq.
  - injection H as <-. cbn [threads goto with_db note with_queue] in Et; rewrite At in Et. by destruct (db_ok a).
  - injection H as <-. cbn [threads goto with_db note with_queue] in Et; rewrite At in Et. by destruct (db_ok a).
  - apply (lasting_keys _ _ _ L). unfold enqueueLLM in H.
    destruct (closed s); [|destruct (length (queue s) <? capacity s)]; injection H as <-; cbn [threads goto with_db note with_queue] in Et; rewrite At in Et; simplify_eq.
    apply Wk. by apply bool_decide_eq_true_2.
  - apply (lasting_keys _ _ _ L). assert (k = key) as ->; [|apply Wk; by apply bool_decide_eq_true_2].
    destruct (db_ok a); [|destruct m, st]; injection H as <-; cbn [threads goto with_db note with_queue] in Et; rewrite At in Et; by simplify_eq.
Qed.
(** The request a thread serves; a step changes one thread and not its request. *)
Definition request (th : thread) : option (gostring * gostring * gostring * mode) := match th with Ingress key m _ => Some (key, m) | _ => None end.
Lemma other_threads t a s s' : thread_step t a s = Some s' → ∃ th th', threads s !! t = Some th ∧ threads s' = <[t := th']> (threads s) ∧ request th' = request th.
Proof.
  intros H. unfold thread_step in H. destruct (threads s !! t) as [th|] eqn:E; [|done]. exists th.
  assert (D : ∀ id pc wr ex pc' s1, (∀ pc, request (wr pc) = None) → request ex = None → deliver_step id pc a s = (pc', s1) →
    ∃ th', Some (wr pc) = Some (wr pc) ∧ threads (goto t (next_of wr ex pc') s1) = <[t := th']> (threads s) ∧ request th' = request (wr pc)).
  { intros id pc wr ex pc' s1 Wn Xn (d & l & -> & _)%deliver_shape. eexists. split_and!; [done..|]. rewrite Wn. by destruct pc'; cbn. }
  destruct th; try done.
  - destruct pc; cbn [ingress_step] in H; [| | |destruct actions as [|[target|api] actions]| | |done].
    + destruct (negb (db_ok a)); [|destruct (GetByKey key (db s))]; injection H as <-; by eexists.
    + destruct (if db_ok a then Create key _ (db s) else None); injection H as <-; by eexists.
    + injection H as <-; by eexists.
    + injection H as <-; by eexists.
    + injection H as <-; by eexists.
    + injection H as <-; by eexists.
    + unfold enqueueLLM in H. destruct (closed s); [|destruct (length (queue s) <? capacity s)]; injection H as <-; by eexists.
    + destruct (db_ok a); [|destruct m, st]; injection H as <-; by eexists.
  - destruct (closed s); [|destruct (queue s); [done|]]; injection H as <-; by eexists.
  - destruct (db_ok a); injection H as <-; by eexists.
  - destruct a as [| | |n|[]]; injection H as <-; by eexists.
  - destruct (db_ok a), again; injection H as <-; by eexists.
  - destruct (if db_ok a then PrepareReport id deliveries (db s) else None); injection H as <-; by eexists.
  - destruct (deliver_step id pc a s) as [pc' s1] eqn:Ds. injection H as <-. by apply (D id pc (WDeliver id) WIdle pc' s1).
  - destruct (closed s), (db_ok a); injection H as <-; by eexists.
  - destruct ids as [|id ids]; injection H as <-; by eexists.
  - destruct (deliver_step id pc a s) as [pc' s1] eqn:Ds. injection H as <-. by apply (D id pc (λ pc, RDeliver id pc ids) (RNext ids) pc' s1).
Qed.
Lemma acked_exec stored act s s' : sound stored s → acked s → exec act s = Some s' → acked s'.
Proof.
  intros I K E. pose proof (lasting_exec _ _ _ (so_owned _ _ I) E) as L. unfold exec in E. destruct (finished s); [done|]. destruct act as [key m|t a| |ok].
  - injection E as <-. intros t k m' dup Et. cbn [threads arrive db] in *. apply lookup_app_Some in Et as [Et|[_ Et]]; [by eapply K|].
    apply list_elem_of_lookup_2, list_elem_of_singleton in Et. done.
  - intros t' k m dup Et. destruct (decide (t' = t)) as [->|Ne].
    + destruct (other_threads _ _ _ _ E) as (th & th' & Th & Tn & R). rewrite Tn, list_lookup_insert_eq in Et by (by eapply lookup_lt_Some). injection Et as ->.
      destruct th as [key' m' pc| | | | | | | | | |]; try done. unfold thread_step in E. rewrite Th in E.
      eapply acked_new; [exact Th|apply I|apply I|exact E|]. rewrite Tn. apply list_lookup_insert_eq. by eapply lookup_lt_Some.
    + destruct (other_threads _ _ _ _ E) as (th & th' & _ & Tn & _). rewrite Tn, list_lookup_insert_ne in Et by done. apply (lasting_keys _ _ _ L). by eapply K.
  - injection E as <-. by intros t k m dup Et%K.
  - destruct (closed s && forallb idle (threads s)); [|done]. injection E as <-. intros t k m dup Et%K. by apply (lasting_keys _ _ _ L).
Qed.
Lemma acked_reachable stored workers capacity s : stored_ok stored → reachable stored workers capacity s → acked s.
Proof.
  intros Ok R. induction R as [|s act s' R IH E]; [|by eapply acked_exec; [by eapply sound_reachable|..]].
  intros t key m dup Et. apply list_elem_of_lookup_2 in Et. apply elem_of_cons in Et as [[=]|I]. by apply list_elem_of_In, repeat_spec in I.
Qed.
Lemma reach_execs stored workers capacity acts : ∀ s s', reachable stored workers capacity s → execs acts s = Some s' → reachable stored workers capacity s'.
Proof.
  induction acts as [|act acts IH]; intros s s' R E; cbn [execs] in E; [by injection E as <-|].
  destruct (exec act s) as [s1|] eqn:E1; [|done]. by eapply IH; [by eapply reach_step|].
Qed.

(** ** A run: an event whose report fails once, is retried, and a second request for the same event *)
Definition key1 : gostring * gostring * gostring := (§"backend", §"ci", §"42").
Definition chat : ETarget := {| et_Platform := §"cli"; et_Type := §"chat"; et_ID := §"1" |}.
Definition steps (t : nat) (l : list answer) : list action := map (Step t) l.
(** Threads: 0 recovers reports, 1 is the worker, 2 and 3 are requests. *)
Definition script : list action :=
  [Arrive key1 MLLM; Arrive key1 MLLM] ++ steps 3 [AOk] ++ steps 2 [AOk; AOk] ++ steps 3 [AOk; AOk] ++ steps 2 [AOk]
  ++ steps 1 [AOk; AOk; AOutcome (OReport [(chat, §"done"); (chat, §"see log")]); AOk]
  ++ steps 1 [AOk; AOk; AOk; AOk; AOk; AOk; AOk; ASent 1; AOk]
  ++ steps 0 [AOk; AOk; AOk; AOk; AOk; AOk; AOk; AOk; AOk; AOk; AOk; AOk; AOk]
  ++ [BeginClose] ++ steps 0 [AOk; AOk] ++ steps 1 [AOk] ++ [Finish true].
Definition start1 : sys := started [] 1 4.
Definition outcome (acts : list action) : sys := default start1 (execs acts start1).
Definition end1 : sys := Eval vm_compute in outcome script.
Definition before1 : sys := Eval vm_compute in outcome (take 36 script).
Lemma end1_reached : reachable [] 1 4 end1.
Proof. apply (reach_execs [] 1 4 script start1); [apply reach_start|]. vm_compute. reflexivity. Qed.
Lemma before1_reached : reachable [] 1 4 before1.
Proof. apply (reach_execs [] 1 4 (take 36 script) start1); [apply reach_start|]. vm_compute. reflexivity. Qed.
Lemma nothing_stored : stored_ok [].
Proof. split; [constructor|]. by intros [|id] r E. Qed.


(** C27: the report of an event is in one hand at a time: two threads never hold it together. No output is sent again after it was recorded as delivered,
    nor recorded twice; an output is recorded as delivered only after a send of its whole batch succeeded (or an earlier process recorded it);
    and an event is completed only when every output of its report is recorded. *)
Theorem elnis_report_exclusive stored workers capacity s : stored_ok stored → reachable stored workers capacity s →
  (∀ id t th t' th', threads s !! t = Some th → threads s !! t' = Some th' → holds id th = true → holds id th' = true → t = t')
  ∧ (∀ l1 l2 id b i, log s = l1 ++ LMark id b :: l2 → i ∈ b → ∀ b', i ∈ b' → (LMark id b' ∉ l2) ∧ (∀ n ok, LSend id b' n ok ∉ l2))
  ∧ (∀ id r i it, db s !! id = Some r → r_Items r !! i = Some it → it_Status it = Delivered →
       view id i stored = Some false ∨ ∃ b n, LSend id b n true ∈ log s ∧ i ∈ b)
  ∧ ∀ id r, db s !! id = Some r → r_Status r = Completed → ∀ i it, r_Items r !! i = Some it → it_Status it = Delivered.
Proof.
  intros Ok R. destruct (sound_reachable _ Ok _ _ _ R) as [[_ H] Rp _]. split_and!.
  - intros id t th t' th' E E' Ht Ht'. destruct (H id) as [H1 _]. by eapply cnt_one_inv.
  - intros l1 l2 id b i E I b' I'. destruct (rp_order _ _ Rp l1 l2 id b i E I) as [O1 O2]. split; [intros J; by apply (O2 b' J)|intros n ok J; by apply (O1 b' n ok J)].
  - intros id r i it E Ei D. apply (rp_sent _ _ Rp). unfold view, item_at, undelivered. rewrite E. cbn. rewrite Ei. cbn. by rewrite D.
  - intros id r E C i it Ei. pose proof (rp_done _ _ Rp id r E C i) as V. unfold view, item_at, undelivered in V. rewrite E in V. cbn in V. rewrite Ei in V. cbn in V.
    destruct (decide (it_Status it = Delivered)) as [|N]; [done|]. by rewrite bool_decide_eq_false_2 in V by done.
Qed.
Lemma elnis_report_exclusive_witness : (∀ b', 0 ∈ b' → LMark 0 b' ∉ @nil entry) ∧ ∃ b n, LSend 0 b n true ∈ log end1 ∧ 0 ∈ b.
Proof.
  destruct (elnis_report_exclusive [] 1 4 end1 nothing_stored end1_reached) as (_ & Or & Se & _). split.
  - intros b' I. refine (proj1 (Or [LRun 0; LSend 0 [0; 1] 1 false; LSend 0 [0; 1] 2 true] [] 0 [0; 1] 0 _ _ b' I)); [reflexivity|set_solver].
  - destruct (Se 0 _ 0 _ eq_refl eq_refl eq_refl) as [V|S]; [done|exact S].
Defined.

(** An event that is completed, taken over or failed stays so: no later step of any thread, no recovery and no shutdown changes its row.
    A shutdown that reaches the table leaves no event accepted, queued or running. *)
Lemma elnis_outcome_final stored workers capacity s act s' : stored_ok stored → reachable stored workers capacity s → exec act s = Some s' →
  (∀ id r, db s !! id = Some r → final (r_Status r) = true → db s' !! id = Some r)
  ∧ (act = Finish true → ∀ r, r ∈ db s' → r_Status r ∉ [Accepted; Queued; Running]).
Proof.
  intros Ok R E. split.
  - intros id r Er F. pose proof (sound_reachable _ Ok _ _ _ R) as I. destruct (lasting_exec _ _ _ (so_owned _ _ I) E id r Er) as (r' & -> & _ & Q). by rewrite Q.
  - intros ->. unfold exec in E. destruct (finished s); [done|]. destruct (closed s && forallb idle (threads s)); [|done]. injection E as <-.
    intros r (r0 & -> & _)%list_elem_of_fmap. case_bool_decide as I; [|done]. set_solver.
Qed.
Lemma elnis_outcome_final_witness : ∃ s r, exec (Step 0 AOk) before1 = Some s ∧ r_Status r = Completed ∧ db s !! 0 = Some r.
Proof.
  do 2 eexists. split; [reflexivity|]. destruct (elnis_outcome_final [] 1 4 before1 (Step 0 AOk) _ nothing_stored before1_reached eq_refl) as [K _].
  split; [|by apply K]. reflexivity.
Defined.
