(* ===== verification/ToolTranscript.v ===== *)
(** * The transcript of a batch of tool calls ([agent/dialogue/commit.go], [agent/share/dialogue.go], [storage/dialogue.go], [storage/sqlite/tool_batch.go])

    An assistant message with its calls and one slot per call are stored at
    once; every result then replaces its slot. The table of messages is a map,
    and a commit either takes effect or fails: the errors that do not depend on
    the data (the database, the gate of the session) are an argument. The JSON
    of a message's metadata is a record of the fields the program uses, or a
    text that does not decode; strings are valid UTF-8, which JSON keeps. *)
From S2P Require Import Prelude GoStr Segment HookPipeline ToolPermit.
Open Scope Z_scope.

(** ** Stored messages *)
Record metadata := {
  md_name : gostring; md_tool_calls : option (list ToolCallRequest); md_raw_text : gostring;
  md_result_ids : option (list gostring); md_batch_status : gostring; md_result_status : gostring; md_elyph_rules_shown : bool
}.
Definition no_metadata : metadata :=
  {| md_name := []; md_tool_calls := None; md_raw_text := []; md_result_ids := None; md_batch_status := []; md_result_status := [];
     md_elyph_rules_shown := false |}.
Definition set_calls (m : metadata) (calls : list ToolCallRequest) (ids : option (list gostring)) : metadata :=
  {| md_name := md_name m; md_tool_calls := Some calls; md_raw_text := md_raw_text m;
     md_result_ids := match ids with None => md_result_ids m | _ => ids end; md_batch_status := md_batch_status m;
     md_result_status := md_result_status m; md_elyph_rules_shown := md_elyph_rules_shown m |}.
Definition set_batch_status (m : metadata) (s : gostring) : metadata :=
  {| md_name := md_name m; md_tool_calls := md_tool_calls m; md_raw_text := md_raw_text m; md_result_ids := md_result_ids m;
     md_batch_status := s; md_result_status := md_result_status m; md_elyph_rules_shown := md_elyph_rules_shown m |}.
Definition set_result_status (m : metadata) (s : gostring) : metadata :=
  {| md_name := md_name m; md_tool_calls := md_tool_calls m; md_raw_text := md_raw_text m; md_result_ids := md_result_ids m;
     md_batch_status := md_batch_status m; md_result_status := s; md_elyph_rules_shown := md_elyph_rules_shown m |}.
Definition set_rules_shown (m : metadata) : metadata :=
  {| md_name := md_name m; md_tool_calls := md_tool_calls m; md_raw_text := md_raw_text m; md_result_ids := md_result_ids m;
     md_batch_status := md_batch_status m; md_result_status := md_result_status m; md_elyph_rules_shown := true |}.

(** A JSON column: absent, decodable or broken. *)
Inductive column (A : Type) := Absent | Json (a : A) | Broken.
Arguments Absent {A}. Arguments Json {A} _. Arguments Broken {A}.
Record Message := {
  sm_ID : gostring; sm_SessionID : gostring; sm_Role : MessageRole; sm_Content : gostring; sm_ToolCallID : gostring;
  sm_Segments : column (list MessageSegment); sm_Metadata : column metadata
}.
Definition with_id (m : Message) (id : gostring) : Message :=
  {| sm_ID := id; sm_SessionID := sm_SessionID m; sm_Role := sm_Role m; sm_Content := sm_Content m; sm_ToolCallID := sm_ToolCallID m;
     sm_Segments := sm_Segments m; sm_Metadata := sm_Metadata m |}.
Definition with_metadata (m : Message) (d : metadata) : Message :=
  {| sm_ID := sm_ID m; sm_SessionID := sm_SessionID m; sm_Role := sm_Role m; sm_Content := sm_Content m; sm_ToolCallID := sm_ToolCallID m;
     sm_Segments := sm_Segments m; sm_Metadata := Json d |}.
Definition with_body (m : Message) (content : gostring) (segments : column (list MessageSegment)) : Message :=
  {| sm_ID := sm_ID m; sm_SessionID := sm_SessionID m; sm_Role := sm_Role m; sm_Content := content; sm_ToolCallID := sm_ToolCallID m;
     sm_Segments := segments; sm_Metadata := sm_Metadata m |}.
(** [DecodeSessionMetadata], [AssistantMessageMetadata] and [ToolNameFromMetadata] decode the same text. *)
Definition DecodeMetadata (c : column metadata) : res metadata :=
  match c with Absent => Ok no_metadata | Json m => Ok m | Broken => Err §"decode session metadata" end.
Definition metadata_or_none (c : column metadata) : metadata := match c with Json m => m | _ => no_metadata end.
Definition MessageSegmentsFromStorage (c : column (list MessageSegment)) : res (list MessageSegment) :=
  match c with Absent => Ok [] | Json l => Ok l | Broken => Err §"invalid segments" end.

Section Messages.
Context `{UnicodeTables} (url_parse : gostring → option (gostring * gostring)).

Definition segments_are_text (segments : list MessageSegment) : bool := forallb is_text segments.
Definition MessageContent (segments : list MessageSegment) : gostring :=
  if negb (segments_are_text segments) then SegmentsContentText url_parse segments
  else concat (map seg_Text segments).
Definition drop_url (s : MessageSegment) : MessageSegment :=
  if bool_decide (MediaID s = []) then s
  else {| Type_ := Type_ s; seg_Text := seg_Text s; URL := []; MediaID := MediaID s; MIMEType := MIMEType s; seg_Name := seg_Name s |}.
Definition StoredMessageSegments (segments : list MessageSegment) : column (list MessageSegment) :=
  match segments with
  | [] => Absent
  | [s] => if negb (bool_decide (seg_Text s = [])) && bool_decide (s = text_segment (seg_Text s)) then Absent else Json [drop_url s]
  | _ => Json (map drop_url segments)
  end.
Definition ToolCallStorageMessage (session content rawText : gostring) (calls : list ToolCallRequest) : Message :=
  {| sm_ID := []; sm_SessionID := session; sm_Role := RoleAssistant_; sm_Content := content; sm_ToolCallID := []; sm_Segments := Absent;
     sm_Metadata := Json {| md_name := []; md_tool_calls := match calls with [] => None | _ => Some calls end;
       md_raw_text := if negb (bool_decide (rawText = [])) && negb (bool_decide (rawText = content)) then rawText else [];
       md_result_ids := None; md_batch_status := []; md_result_status := []; md_elyph_rules_shown := false |} |}.
Definition ToolNameMetadata (name : gostring) : column metadata :=
  if bool_decide (name = []) then Absent
  else Json {| md_name := name; md_tool_calls := None; md_raw_text := []; md_result_ids := None; md_batch_status := [];
               md_result_status := []; md_elyph_rules_shown := false |}.
Definition ToolResultStorageMessage (session : gostring) (m : LLMMessage) : Message :=
  {| sm_ID := []; sm_SessionID := session; sm_Role := RoleTool_; sm_Content := MessageContent (lm_Segments m);
     sm_ToolCallID := lm_ToolCallID m; sm_Segments := StoredMessageSegments (lm_Segments m); sm_Metadata := ToolNameMetadata (lm_Name m) |}.
Definition MessageFromStorage (row : Message) : res LLMMessage :=
  let label s := §"message " ++ sm_ID row ++ s in
  let* segments := res_wrap (label §" segments: ") (MessageSegmentsFromStorage (sm_Segments row)) in
  let text := sm_Content row in
  let message (name text : gostring) (calls : list ToolCallRequest) :=
    Ok {| lm_Role := sm_Role row; lm_Segments := match segments with [] => TextSegments text | _ => segments end; lm_Name := name;
          lm_ToolCallID := sm_ToolCallID row; lm_ToolCalls := calls |} in
  match sm_Role row with
  | RoleAssistant_ =>
    let* m := res_wrap (label §" metadata: ") (DecodeMetadata (sm_Metadata row)) in
    message [] (if bool_decide (md_raw_text m = []) then text else md_raw_text m) (default [] (md_tool_calls m))
  | RoleTool_ =>
    let* m := res_wrap (label §" metadata: ") (DecodeMetadata (sm_Metadata row)) in message (md_name m) text []
  | _ => message [] text []
  end.

(** ** The table of messages *)
Abbreviation table := (gmap gostring Message).
Record ToolBatch := { tb_Call : Message; tb_Results : list Message }.
Record ToolResultCommit := { tr_Call : Message; tr_Result : option Message }.

Fixpoint valid_slots (calls : list ToolCallRequest) (ids : list gostring) (results : list Message) (seen callIDs : gset gostring) : bool :=
  match calls, ids, results with
  | call :: calls, id :: ids, result :: results =>
    bool_decide (sm_Role result = RoleTool_) && negb (bool_decide (sm_ID result = [])) && negb (bool_decide (sm_ID result ∈ seen))
    && bool_decide (id = sm_ID result) && negb (bool_decide (tc_ID call = [])) && negb (bool_decide (tc_ID call ∈ callIDs))
    && bool_decide (tc_ID call = sm_ToolCallID result)
    && valid_slots calls ids results ({[sm_ID result]} ∪ seen) ({[tc_ID call]} ∪ callIDs)
  | [], [], [] => true
  | _, _, _ => false
  end.
Definition validateToolBatch (b : ToolBatch) : res unit :=
  if negb (bool_decide (sm_Role (tb_Call b) = RoleAssistant_)) || bool_decide (sm_ID (tb_Call b) = [])
     || bool_decide (length (tb_Results b) = 0%nat) then Err §"invalid tool batch messages"
  else
    let* fields := DecodeMetadata (sm_Metadata (tb_Call b)) in
    match md_tool_calls fields with
    | None => Err §"unexpected end of JSON input"
    | Some calls =>
      if valid_slots calls (default [] (md_result_ids fields)) (tb_Results b) {[sm_ID (tb_Call b)]} ∅ then Ok tt
      else Err §"tool batch identity mismatch"
    end.
Definition appendMessage (t : table) (session : gostring) (m : Message) : res table :=
  if negb (bool_decide (sm_SessionID m = session)) then Err §"dialogue message session mismatch"
  else if bool_decide (sm_ID m = []) then Err §"message requires a preallocated ID"
  else match t !! sm_ID m with
       | Some _ => Err §"append message: UNIQUE constraint failed"
       | None => Ok (<[sm_ID m := m]> t)
       end.
Fixpoint appendMessages (t : table) (session : gostring) (rows : list Message) : res table :=
  match rows with
  | [] => Ok t
  | m :: rows => let* t := appendMessage t session m in appendMessages t session rows
  end.
(** The UPDATE of one row, which must match exactly one that is still pending. *)
Definition status_key (call : bool) (m : metadata) : gostring := if call then md_batch_status m else md_result_status m.
Definition update_row (t : table) (session : gostring) (call : bool) (m : Message) : res table :=
  if negb (bool_decide (sm_SessionID m = session)) then Err §"tool result session mismatch"
  else match t !! sm_ID m with
       | Some row =>
         if bool_decide (sm_SessionID row = session) && bool_decide (sm_Role row = sm_Role m)
            && bool_decide (sm_ToolCallID row = sm_ToolCallID m)
            && bool_decide (status_key call (metadata_or_none (sm_Metadata row)) = §"pending")
         then Ok (<[sm_ID m := {| sm_ID := sm_ID m; sm_SessionID := session; sm_Role := sm_Role row; sm_Content := sm_Content m;
                                   sm_ToolCallID := sm_ToolCallID row; sm_Segments := sm_Segments m; sm_Metadata := sm_Metadata m |}]> t)
         else Err (§"tool slot is absent or already sealed: " ++ sm_ID m)
       | None => Err (§"tool slot is absent or already sealed: " ++ sm_ID m)
       end.
(** Sealing the slots of a batch that did not end. *)
Definition seal_row (session : gostring) (row : Message) : Message :=
  match sm_Metadata row with
  | Json m => if bool_decide (sm_SessionID row = session) && bool_decide (md_result_status m = §"pending")
              then with_metadata row (set_result_status m §"interrupted") else row
  | _ => row
  end.
Definition seal_slot (session : gostring) (t : table) (id : gostring) : table := alter (seal_row session) id t.
Definition commitToolResult (t : table) (session : gostring) (c : ToolResultCommit) : res table :=
  let* t := update_row t session true (tr_Call c) in
  match tr_Result c with
  | Some m => update_row t session false m
  | None =>
    let* fields := DecodeMetadata (sm_Metadata (tr_Call c)) in
    Ok (foldl (seal_slot session) t (default [] (md_result_ids fields)))
  end.

(** ** The single write boundary ([MessageStore.Commit]) *)
(** [ArchiveMaterials] moves the contents of media to the object store, or
    fails; [dw_gate] is an error of the gate of the session, or a cancellation,
    and [dw_fails] an error of the database, which names the operation. *)
Record commit_env := {
  dw_archive : list MessageSegment → res (list MessageSegment); dw_gate : option gostring; dw_fails : option gostring
}.
Definition database {A} (env : commit_env) (operation : gostring) (r : res A) : res A :=
  match dw_gate env with
  | Some err => Err err
  | None => res_wrap (operation ++ §": ") (match dw_fails env with Some err => Err err | None => r end)
  end.
Definition archive_row (env : commit_env) (m : Message) : res Message :=
  let* _ := DecodeMetadata (sm_Metadata m) in
  match sm_Segments m with
  | Absent => Ok m
  | _ =>
    let* projected := MessageFromStorage m in
    let* segments := dw_archive env (lm_Segments projected) in
    Ok (with_body m (MessageContent segments) (StoredMessageSegments segments))
  end.
Definition commit_batch (t : table) (env : commit_env) (operation : gostring) (b : ToolBatch) : res (table * ToolBatch) :=
  let session := sm_SessionID (tb_Call b) in
  let* head := archive_row env (tb_Call b) in
  let* results := res_map (archive_row env) (tb_Results b) in
  let b := {| tb_Call := head; tb_Results := results |} in
  database env operation (
    let* _ := validateToolBatch b in
    let* t := appendMessages t session (head :: results) in Ok (t, b)).
Definition commit_result (t : table) (env : commit_env) (operation session : gostring) (c : ToolResultCommit) : res (table * ToolResultCommit) :=
  let* result := match tr_Result c with
                 | None => Ok None
                 | Some m => let* m := archive_row env m in Ok (Some m)
                 end in
  let c := {| tr_Call := tr_Call c; tr_Result := result |} in
  database env operation (let* t := commitToolResult t session c in Ok (t, c)).

(** ** [ToolTranscriptCommitter] *)
Record committer := {
  committed : list LLMMessage; head : Message; calls : list ToolCallRequest; results : list Message; remaining : Z
}.
Definition unknown_outcome : gostring :=
  §"tool outcome is unknown: result has not been saved; do not assume success or retry automatically".
Definition pending_slot (session : gostring) (call : ToolCallRequest) : Message :=
  let stored := ToolResultStorageMessage session (toolMessage (tc_Name call) (tc_ID call) unknown_outcome) in
  with_metadata stored (set_result_status (metadata_or_none (sm_Metadata stored)) §"pending").
(** [NewMessageID] gives the n-th identifier, or fails. *)
Section Batches.
Variable new_id : nat → res gostring.
Definition PrepareMessageID (n : nat) (m : Message) : res (nat * Message) :=
  if negb (bool_decide (sm_ID m = [])) then Ok (n, m) else let* id := new_id n in Ok (S n, with_id m id).
Fixpoint prepare_ids (n : nat) (rows : list Message) : res (nat * list Message) :=
  match rows with
  | [] => Ok (n, [])
  | m :: rows => let* (n, m) := PrepareMessageID n m in let* (n, rows) := prepare_ids n rows in Ok (n, m :: rows)
  end.
Definition NewToolBatch (n : nat) (head : Message) (calls : list ToolCallRequest) (results : list Message) : res (nat * ToolBatch) :=
  let* (n, head) := PrepareMessageID n head in
  let* (n, results) := prepare_ids n results in
  let* fields := DecodeMetadata (sm_Metadata head) in
  Ok (n, {| tb_Call := with_metadata head (set_calls fields calls (Some (map sm_ID results))); tb_Results := results |}).
Definition Begin (t : table) (env : commit_env) (n : nat) (head : Message) : res (nat * table * committer) :=
  let* m := DecodeMetadata (sm_Metadata head) in
  let calls := default [] (md_tool_calls m) in
  let results := map (pending_slot (sm_SessionID head)) calls in
  let* (n, b) := NewToolBatch n head calls results in
  let head := with_metadata (tb_Call b) (set_batch_status (metadata_or_none (sm_Metadata (tb_Call b))) §"pending") in
  let* (t, b) := commit_batch t env §"begin_tool_transcript" {| tb_Call := head; tb_Results := tb_Results b |} in
  Ok (n, t, {| committed := []; head := tb_Call b; calls := calls; results := tb_Results b; remaining := Z.of_nat (length calls) |}).
End Batches.

(** The update of [index]; a [committer] whose commit failed keeps its new fields. *)
Definition result_update (c : committer) (index : nat) (call : ToolCallRequest) (result : Message) : res (committer * ToolResultCommit) :=
  match results c !! index, calls c !! index with
  | Some slot, Some _ =>
    let stored := with_id result (sm_ID slot) in
    let stored := with_metadata stored (set_result_status (metadata_or_none (sm_Metadata stored)) §"completed") in
    let calls' := <[index := call]> (calls c) in
    let fields := set_calls (metadata_or_none (sm_Metadata (head c))) calls' None in
    let head' := with_metadata (head c) (if remaining c =? 1 then set_batch_status fields §"completed" else fields) in
    Ok ({| committed := committed c; head := head'; calls := calls'; results := <[index := stored]> (results c); remaining := remaining c |},
        {| tr_Call := head'; tr_Result := Some stored |})
  | _, _ => Panic
  end.
Definition set_result (c : committer) (index : nat) (stored : Message) (r : Z) : committer :=
  {| committed := committed c; head := head c; calls := calls c; results := <[index := stored]> (results c); remaining := r |}.
Definition Result (t : table) (env : commit_env) (c : committer) (index : nat) (call : ToolCallRequest) (result : Message)
  : res (table * committer) :=
  let* (c, update) := result_update c index call result in
  let* (t, update) := commit_result t env §"save_tool_result" (sm_SessionID (head c)) update in
  Ok (t, set_result c index (default result (tr_Result update)) (remaining c - 1)).
Definition Flush (c : committer) : res committer :=
  if negb (remaining c =? 0) then Err §"tool batch has unfinished results"
  else
    let* messages := res_map MessageFromStorage (head c :: results c) in
    Ok {| committed := committed c ++ messages; head := head c; calls := calls c; results := results c; remaining := remaining c |}.

(** The start of the next turn closes a batch that is still pending ([RunLoop] in [agent/chat/run_loop.go]). *)
Definition close_interrupted (t : table) (env : commit_env) (h : Message) : res table :=
  let* md := DecodeMetadata (sm_Metadata h) in
  if negb (bool_decide (md_batch_status md = §"pending")) then Ok t
  else
    let h := with_metadata h (set_batch_status md §"interrupted") in
    let* (t, _) := commit_result t env §"close_interrupted_tools" (sm_SessionID h) {| tr_Call := h; tr_Result := None |} in
    Ok t.
End Messages.
