(* ===== verification/ToolTranscriptProps.v ===== *)
(** * A batch of tool calls keeps a transcript the next request can use

    The rows of a batch, what each commit does to them and what a reload gives. *)
From S2P Require Import Prelude GoStr Segment HookPipeline ToolPermit ToolTranscript.
Open Scope Z_scope.

(** ** Projections of stored messages *)
Section Projection.
Context `{UnicodeTables} (url_parse : gostring → option (gostring * gostring)).

Lemma text_segments_not_nil t : t ≠ [] → TextSegments t = [text_segment t].
Proof. intros Ht. unfold TextSegments. by rewrite bool_decide_eq_false_2. Qed.
Lemma StoredMessageSegments_ok l : StoredMessageSegments l ≠ Broken
  ∧ match StoredMessageSegments l with
    | Json s => s = map drop_url l ∧ l ≠ []
    | _ => l = TextSegments (MessageContent url_parse l)
    end.
Proof.
  unfold StoredMessageSegments. destruct l as [|s [|s' l]]; [done| |done].
  destruct (decide (seg_Text s = [])) as [Ht|Ht].
  - rewrite (bool_decide_eq_true_2 _ Ht). done.
  - rewrite (bool_decide_eq_false_2 _ Ht). cbn [negb andb]. destruct (decide (s = text_segment (seg_Text s))) as [Hs|Hs].
    + rewrite (bool_decide_eq_true_2 _ Hs). split; [done|]. unfold MessageContent, segments_are_text. simpl.
      assert (is_text s = true) as -> by (rewrite Hs; done). simpl. rewrite app_nil_r, text_segments_not_nil by done. by rewrite <- Hs.
    + by rewrite (bool_decide_eq_false_2 _ Hs).
Qed.

(** What a tool message looks like after it was stored. *)
Definition stored_view (m : LLMMessage) : LLMMessage := set_segments m (map drop_url (lm_Segments m)).
Lemma drop_url_text t : map drop_url (TextSegments t) = TextSegments t.
Proof. unfold TextSegments. by case_bool_decide. Qed.
Lemma ToolResult_projects session m id status : lm_Role m = RoleTool_ → lm_ToolCalls m = [] →
  let row := ToolResultStorageMessage url_parse session m in
  MessageFromStorage (with_metadata (with_id row id) (set_result_status (metadata_or_none (sm_Metadata row)) status)) = Ok (stored_view m).
Proof.
  intros Hr Hc. destruct m as [role segments name cid tcs]. cbn [lm_Role lm_ToolCalls] in *. subst.
  destruct (StoredMessageSegments_ok segments) as [Hb Hs].
  assert (md_name (set_result_status (metadata_or_none (ToolNameMetadata name)) status) = name) as Hn.
  { unfold ToolNameMetadata. case_bool_decide; [by subst|done]. }
  unfold ToolResultStorageMessage, MessageFromStorage, stored_view, set_segments.
  cbn [sm_Segments sm_Metadata sm_Role sm_ToolCallID sm_Content sm_ID with_metadata with_id lm_Segments lm_Name lm_ToolCallID lm_Role lm_ToolCalls].
  cbn [DecodeMetadata res_wrap res_bind]. rewrite Hn.
  destruct (StoredMessageSegments segments) as [|s|]; cbn [MessageSegmentsFromStorage res_wrap res_bind]; [| |done].
  - rewrite Hs at 2. by rewrite drop_url_text, <- Hs.
  - destruct Hs as [-> Hne]. destruct (map drop_url segments) eqn:Hm; [|done]. by destruct segments.
Qed.
End Projection.

(** ** The rows of a batch *)
Definition status (done : list nat) (i : nat) : gostring := if decide (i ∈ done) then §"completed" else §"pending".
Definition decodes (m : Message) : Prop := sm_Segments m ≠ Broken.
(** The table holds the head and the slots of the committer, of which the
    results in [done] are final. *)
Record committing (t : gmap gostring Message) (c : committer) (done : list nat) : Prop := {
  cm_head : t !! sm_ID (head c) = Some (head c);
  cm_slots : ∀ i r, results c !! i = Some r → t !! sm_ID r = Some r;
  cm_ids : NoDup (sm_ID (head c) :: map sm_ID (results c));
  cm_len : length (results c) = length (calls c);
  cm_session : ∀ i r, results c !! i = Some r → sm_SessionID r = sm_SessionID (head c);
  cm_role : sm_Role (head c) = RoleAssistant_;
  cm_roles : ∀ i r, results c !! i = Some r → sm_Role r = RoleTool_;
  cm_answers : ∀ i call r, calls c !! i = Some call → results c !! i = Some r → sm_ToolCallID r = tc_ID call;
  cm_head_md : ∃ md, sm_Metadata (head c) = Json md ∧ md_tool_calls md = Some (calls c)
                 ∧ md_result_ids md = Some (map sm_ID (results c))
                 ∧ md_batch_status md = if remaining c =? 0 then §"completed" else §"pending";
  cm_status : ∀ i r, results c !! i = Some r → ∃ md, sm_Metadata r = Json md ∧ md_result_status md = status done i;
  cm_done : NoDup done ∧ ∀ i, i ∈ done → (i < length (calls c))%nat;
  cm_remaining : remaining c = Z.of_nat (length (calls c)) - Z.of_nat (length done);
  cm_decodes : decodes (head c) ∧ ∀ i r, results c !! i = Some r → decodes r;
  cm_committed : committed c = []
}.

Section Committing.
Context `{UnicodeTables} (url_parse : gostring → option (gostring * gostring)).

Lemma database_ok {A} env op (r : res A) x : database env op r = Ok x → r = Ok x.
Proof. unfold database. destruct (dw_gate env); [done|]. rewrite res_wrap_ok. by destruct (dw_fails env). Qed.
Lemma archive_row_keeps env m m' : archive_row url_parse env m = Ok m' →
  sm_ID m' = sm_ID m ∧ sm_SessionID m' = sm_SessionID m ∧ sm_Role m' = sm_Role m ∧ sm_ToolCallID m' = sm_ToolCallID m
  ∧ sm_Metadata m' = sm_Metadata m ∧ decodes m'.
Proof.
  unfold archive_row, decodes. destruct (DecodeMetadata _) as [md| |]; simpl; [|done|done].
  destruct (sm_Segments m) eqn:Hs; [by intros [= <-]; rewrite Hs| |];
  (destruct (MessageFromStorage m) as [p| |]; simpl; [|done|done]);
  (destruct (dw_archive env _) as [s| |]; simpl; [|done|done]); intros [= <-]; simpl; split_and!; try done;
  by apply (StoredMessageSegments_ok url_parse).
Qed.
Lemma archive_row_plain env m md : sm_Metadata m = Json md → sm_Segments m = Absent → archive_row url_parse env m = Ok m.
Proof. intros Hm Hs. unfold archive_row. by rewrite Hm, Hs. Qed.
Lemma update_row_ok t session call m t' : update_row t session call m = Ok t' →
  sm_SessionID m = session ∧ t' = <[sm_ID m := m]> t ∧ ∃ row, t !! sm_ID m = Some row ∧ sm_Role row = sm_Role m
    ∧ sm_ToolCallID row = sm_ToolCallID m ∧ status_key call (metadata_or_none (sm_Metadata row)) = §"pending".
Proof.
  unfold update_row. destruct (decide (sm_SessionID m = session)) as [Hs|Hs];
    [rewrite (bool_decide_eq_true_2 _ Hs)|by rewrite (bool_decide_eq_false_2 _ Hs)]. simpl.
  destruct (t !! sm_ID m) as [row|] eqn:Hr; [|done].
  destruct (_ && _) eqn:Hb; [|done]. rewrite !andb_true_iff, !bool_decide_eq_true in Hb. destruct Hb as [[[H1 H2] H3] H4].
  intros [= <-]. split; [done|]. split; [|by exists row]. f_equal. destruct m. simpl in *. congruence.
Qed.
Lemma update_row_succeeds t session call m row : sm_SessionID m = session → t !! sm_ID m = Some row → sm_SessionID row = session →
  sm_Role row = sm_Role m → sm_ToolCallID row = sm_ToolCallID m → status_key call (metadata_or_none (sm_Metadata row)) = §"pending" →
  update_row t session call m = Ok (<[sm_ID m := m]> t).
Proof.
  intros Hs Hr H1 H2 H3 H4. unfold update_row. rewrite (bool_decide_eq_true_2 _ Hs). simpl. rewrite Hr.
  rewrite !bool_decide_eq_true_2 by done. simpl. do 2 f_equal. destruct m. simpl in *. congruence.
Qed.

Lemma result_ids c index slot : results c !! index = Some slot → ∀ r, sm_ID r = sm_ID slot →
  map sm_ID (<[index := r]> (results c)) = map sm_ID (results c).
Proof.
  intros Hs r Hr. change (sm_ID <$> <[index:=r]> (results c) = sm_ID <$> results c). rewrite list_fmap_insert, Hr.
  apply list_insert_id. by rewrite list_lookup_fmap, Hs.
Qed.

(** The row a result becomes, before its contents are archived. *)
Definition result_row (slot result : Message) : Message :=
  with_metadata (with_id result (sm_ID slot)) (set_result_status (metadata_or_none (sm_Metadata result)) §"completed").
(** The head that a result gives; [last] says whether it is the last one. *)
Definition head_after (c : committer) (calls' : list ToolCallRequest) (last : bool) : Message :=
  let fields := set_calls (metadata_or_none (sm_Metadata (head c))) calls' None in
  with_metadata (head c) (if last then set_batch_status fields §"completed" else fields).
Definition next_committer (c : committer) (i : nat) (call : ToolCallRequest) (stored : Message) : committer :=
  {| committed := committed c; head := head_after c (<[i := call]> (calls c)) (remaining c =? 1); calls := <[i := call]> (calls c);
     results := <[i := stored]> (results c); remaining := remaining c - 1 |}.
Lemma Result_inv t env c i call result t' c' : Result url_parse t env c i call result = Ok (t', c') →
  ∃ slot stored t1, results c !! i = Some slot ∧ archive_row url_parse env (result_row slot result) = Ok stored
    ∧ update_row t (sm_SessionID (head c)) true (head_after c (<[i := call]> (calls c)) (remaining c =? 1)) = Ok t1
    ∧ update_row t1 (sm_SessionID (head c)) false stored = Ok t' ∧ c' = next_committer c i call stored.
Proof.
  unfold Result, result_update. destruct (results c !! i) as [slot|] eqn:Hr; [|done]. destruct (calls c !! i); [|done].
  cbn [res_bind]. rewrite res_bind_ok. intros [[t2 update] [Hc [= <- <-]]]. revert Hc.
  unfold commit_result. cbn [tr_Call tr_Result head]. fold (head_after c (<[i:=call]> (calls c)) (remaining c =? 1)).
  change (with_metadata (with_id result (sm_ID slot)) _) with (result_row slot result).
  destruct (archive_row url_parse env (result_row slot result)) as [stored| |] eqn:Ha; cbn [res_bind]; [|done|done].
  intros Hc%database_ok. revert Hc. unfold commitToolResult. cbn [tr_Call tr_Result sm_SessionID with_metadata head_after].
  rewrite !res_bind_ok. intros (t3 & (t1 & H1 & H2)%res_bind_ok & [= <- <-]).
  exists slot, stored, t1. split_and!; try done. unfold next_committer, set_result. cbn. f_equal. by rewrite list_insert_insert_eq.
Qed.

Lemma head_after_keeps c calls' last : sm_ID (head_after c calls' last) = sm_ID (head c)
  ∧ sm_SessionID (head_after c calls' last) = sm_SessionID (head c) ∧ sm_Role (head_after c calls' last) = sm_Role (head c)
  ∧ sm_Segments (head_after c calls' last) = sm_Segments (head c)
  ∧ sm_ToolCallID (head_after c calls' last) = sm_ToolCallID (head c) ∧ sm_Content (head_after c calls' last) = sm_Content (head c).
Proof. done. Qed.
Lemma slot_ids t c done i slot : committing t c done → results c !! i = Some slot → sm_ID slot ≠ sm_ID (head c).
Proof.
  intros Hc Hs Heq. pose proof (cm_ids _ _ _ Hc) as [Hn _]%NoDup_cons. apply Hn. rewrite <- Heq.
  apply list_elem_of_fmap_2, list_elem_of_lookup. eauto.
Qed.
Lemma slot_inj t c done i j a b : committing t c done → results c !! i = Some a → results c !! j = Some b → sm_ID a = sm_ID b → i = j.
Proof.
  intros Hc Ha Hb He. pose proof (cm_ids _ _ _ Hc) as [_ Hn]%NoDup_cons. rewrite NoDup_alt in Hn.
  apply (Hn i j (sm_ID a)); rewrite list_lookup_fmap; [by rewrite Ha|by rewrite Hb, He].
Qed.
Lemma status_pending done i : status done i = §"pending" → i ∉ done.
Proof. unfold status. by case_decide. Qed.
Lemma stored_slot slot result env stored : archive_row url_parse env (result_row slot result) = Ok stored →
  sm_ID stored = sm_ID slot ∧ sm_SessionID stored = sm_SessionID result ∧ sm_Role stored = sm_Role result
  ∧ sm_ToolCallID stored = sm_ToolCallID result ∧ decodes stored
  ∧ ∃ md, sm_Metadata stored = Json md ∧ md_result_status md = §"completed".
Proof. intros (H1 & H2 & H3 & H4 & H5 & H6)%archive_row_keeps. rewrite H1, H2, H3, H4, H5. split_and!; try done. by eexists. Qed.

(** A result that is committed fills a slot that was pending, and nothing else. *)
Lemma Result_step t c done env i call result t' c' : committing t c done → sm_ToolCallID result = tc_ID call →
  Result url_parse t env c i call result = Ok (t', c') →
  (i ∉ done) ∧ committing t' c' (i :: done)
  ∧ (∀ id, id ∉ (sm_ID (head c) :: map sm_ID (results c)) → t' !! id = t !! id)
  ∧ ∃ slot stored, results c !! i = Some slot ∧ archive_row url_parse env (result_row slot result) = Ok stored
      ∧ c' = next_committer c i call stored.
Proof.
  intros Hc Hcall (slot & stored & t1 & Hslot & Ha & H1 & H2 & ->)%Result_inv.
  destruct (stored_slot _ _ _ _ Ha) as (Hid & Hsess & Hrole & Htool & Hdec & md & Hmd & Hst).
  apply update_row_ok in H1 as (_ & -> & hrow & Hhrow & _ & _ & Hhp). apply update_row_ok in H2 as (Hs2 & -> & row & Hrow & Hr2 & Ht2 & Hp2).
  destruct (head_after_keeps c (<[i:=call]> (calls c)) (remaining c =? 1)) as (Eid & Ese & Ero & Esg & Etc & Eco).
  rewrite Eid in Hhrow, Hrow. rewrite (cm_head _ _ _ Hc) in Hhrow. injection Hhrow as <-. rewrite Hid in Hrow.
  pose proof (slot_ids _ _ _ _ _ Hc Hslot) as Hne. rewrite lookup_insert_ne in Hrow by done.
  rewrite (cm_slots _ _ _ Hc _ _ Hslot) in Hrow. injection Hrow as <-.
  destruct (cm_status _ _ _ Hc _ _ Hslot) as (smd & Hsmd & Hss). unfold status_key in Hp2. rewrite Hsmd in Hp2. simpl in Hp2.
  rewrite Hss in Hp2. apply status_pending in Hp2.
  destruct (cm_head_md _ _ _ Hc) as (hmd & Hhmd & Hcalls & Hids & Hbs). unfold status_key in Hhp. rewrite Hhmd in Hhp. simpl in Hhp.
  assert (i < length (calls c))%nat as Hi by (rewrite <- (cm_len _ _ _ Hc); by eapply lookup_lt_Some).
  pose proof (cm_remaining _ _ _ Hc) as Hrem. destruct (cm_done _ _ _ Hc) as [Hnd Hlt].
  split; [done|]. split; [|split].
  2:{ intros id Hout. rewrite not_elem_of_cons in Hout. destruct Hout as [Hh Ho]. rewrite !lookup_insert_ne; [done|done|].
      rewrite Hid. intros <-. apply Ho, list_elem_of_fmap_2, list_elem_of_lookup. eauto. }
  2:{ by exists slot, stored. }
  assert (map sm_ID (<[i:=stored]> (results c)) = map sm_ID (results c)) as Hmap by (by eapply result_ids).
  split; unfold next_committer; cbn [head results calls remaining committed]; rewrite ?Eid, ?Ese, ?Ero, ?Esg.
  - rewrite lookup_insert_ne by congruence. by rewrite lookup_insert_eq.
  - intros j r [(-> & -> & _)|[Hij Hr]]%list_lookup_insert_Some; [by rewrite lookup_insert_eq|].
    rewrite !lookup_insert_ne; [by apply (cm_slots _ _ _ Hc j)|by apply not_eq_sym; eapply slot_ids|].
    rewrite Hid. intros He. by apply Hij, (slot_inj _ _ _ _ _ _ _ Hc Hslot Hr).
  - rewrite Hmap. apply (cm_ids _ _ _ Hc).
  - rewrite !length_insert. apply (cm_len _ _ _ Hc).
  - intros j r [(-> & -> & _)|[Hij Hr]]%list_lookup_insert_Some; [by rewrite Hs2|by apply (cm_session _ _ _ Hc j)].
  - apply (cm_role _ _ _ Hc).
  - intros j r [(-> & -> & _)|[Hij Hr]]%list_lookup_insert_Some; [|by apply (cm_roles _ _ _ Hc j)].
    rewrite <- Hr2. by apply (cm_roles _ _ _ Hc j).
  - intros j call' r [(-> & -> & _)|[Hij Hca]]%list_lookup_insert_Some [(? & -> & _)|[Hij' Hr]]%list_lookup_insert_Some; try done.
    + by rewrite Htool.
    + by apply (cm_answers _ _ _ Hc j).
  - unfold head_after. rewrite Hhmd. cbn [sm_Metadata with_metadata metadata_or_none]. eexists. split; [done|]. rewrite Hmap.
    destruct (Z.eqb_spec (remaining c) 1) as [Hr1|Hr1]; cbn [md_tool_calls md_result_ids md_batch_status set_batch_status set_calls].
    + by rewrite Hr1, Hids.
    + split_and!; [done|done|]. rewrite Hhp. destruct (Z.eqb_spec (remaining c - 1) 0); [lia|done].
  - intros j r [(-> & -> & _)|[Hij Hr]]%list_lookup_insert_Some.
    + exists md. split; [done|]. unfold status. rewrite decide_True by left. done.
    + destruct (cm_status _ _ _ Hc j r Hr) as (rmd & ? & Hjs). exists rmd. split; [done|]. rewrite Hjs. unfold status.
      destruct (decide (j ∈ done)); [by rewrite decide_True by (by right)|]. rewrite decide_False; [done|].
      by rewrite elem_of_cons; intros [->|?].
  - rewrite length_insert. split; [by constructor|]. intros j [->|Hj]%elem_of_cons; [done|by apply Hlt].
  - rewrite length_insert. simpl length. lia.
  - split; [exact (proj1 (cm_decodes _ _ _ Hc))|].
    intros j r [(-> & -> & _)|[Hij Hr]]%list_lookup_insert_Some; [done|by apply (proj2 (cm_decodes _ _ _ Hc) j)].
  - apply (cm_committed _ _ _ Hc).
Qed.

(** ** Opening a batch *)
Lemma valid_slots_ok cs : ∀ ids rs seen callIDs, valid_slots cs ids rs seen callIDs = true →
  length rs = length cs ∧ ids = map sm_ID rs ∧ NoDup (map sm_ID rs) ∧ (∀ i r, rs !! i = Some r → (sm_ID r ∉ seen) ∧ sm_Role r = RoleTool_)
  ∧ (∀ i call r, cs !! i = Some call → rs !! i = Some r → sm_ToolCallID r = tc_ID call).
Proof.
  induction cs as [|call cs IH]; intros [|id ids] [|r rs] seen callIDs; simpl; try done.
  { intros _. split_and!; try done. constructor. }
  rewrite !andb_true_iff, !negb_true_iff, !bool_decide_eq_true, !bool_decide_eq_false.
  intros [[[[[[[Hrole _] Hseen] ->] _] _] Hid] (Hl & -> & Hnd & Hrs & Hans)%IH]. split_and!.
  - by rewrite Hl.
  - done.
  - constructor; [|done]. intros (x & Hx & [j Hj]%list_elem_of_lookup)%list_elem_of_fmap. destruct (Hrs _ _ Hj) as [Hn _].
    apply Hn, elem_of_union. left. by apply elem_of_singleton.
  - intros [|j] x; simpl; [by intros [= <-]|]. intros Hj. destruct (Hrs _ _ Hj) as [Hn ?]. split; [|done].
    intros Hx. apply Hn, elem_of_union. by right.
  - intros [|j] x y; simpl; [by intros [= <-] [= <-]|]. apply Hans.
Qed.
Lemma appendMessages_ok session rows : ∀ t t', appendMessages t session rows = Ok t' →
  NoDup (map sm_ID rows) ∧ (∀ m, m ∈ rows → t' !! sm_ID m = Some m ∧ t !! sm_ID m = None ∧ sm_SessionID m = session)
  ∧ ∀ id, id ∉ map sm_ID rows → t' !! id = t !! id.
Proof.
  induction rows as [|m rows IH]; intros t t'; simpl.
  { intros [= <-]. split_and!; [constructor| |done]. by intros m ?%not_elem_of_nil. }
  rewrite res_bind_ok. intros (t1 & Hm & (Hnd & Hin & Hout)%IH). unfold appendMessage in Hm.
  destruct (decide (sm_SessionID m = session)) as [Hs|Hs];
    [rewrite (bool_decide_eq_true_2 _ Hs) in Hm|by rewrite (bool_decide_eq_false_2 _ Hs) in Hm]. simpl in Hm.
  case_bool_decide; [done|]. destruct (t !! sm_ID m) eqn:Ht; [done|]. injection Hm as <-.
  assert (sm_ID m ∉ map sm_ID rows) as Hn.
  { intros (x & Hx & Hi)%list_elem_of_fmap. destruct (Hin x Hi) as (_ & Hf & _). rewrite <- Hx, lookup_insert_eq in Hf. done. }
  split_and!; [by constructor| |].
  - intros x [->|Hx]%elem_of_cons; [by rewrite Hout, lookup_insert_eq|]. destruct (Hin x Hx) as (H1 & H2 & H3). split_and!; [done| |done].
    rewrite lookup_insert_ne in H2; [done|]. intros He. apply Hn. rewrite He. by apply list_elem_of_fmap_2.
  - intros id. rewrite not_elem_of_cons. intros [Hne Hid]. by rewrite Hout, lookup_insert_ne.
Qed.
Lemma archive_rows_keeps env rows rows' : res_map (archive_row url_parse env) rows = Ok rows' →
  length rows' = length rows ∧ ∀ i m', rows' !! i = Some m' → ∃ m, rows !! i = Some m ∧ archive_row url_parse env m = Ok m'.
Proof.
  rewrite res_map_ok. intros Hf. split; [symmetry; by eapply Forall2_length|]. intros i m' Hm.
  destruct (Forall2_lookup_r _ _ _ _ _ Hf Hm) as (m & ? & ?). by exists m.
Qed.
Lemma pending_slot_ok session call : sm_SessionID (pending_slot url_parse session call) = session
  ∧ ∃ md, sm_Metadata (pending_slot url_parse session call) = Json md ∧ md_result_status md = §"pending".
Proof. split; [done|]. by eexists. Qed.
Lemma prepare_ids_keeps new_id rows : ∀ n n' rows', prepare_ids new_id n rows = Ok (n', rows') →
  length rows' = length rows ∧ ∀ i m', rows' !! i = Some m' → ∃ m, rows !! i = Some m ∧ (m' = m ∨ ∃ id, m' = with_id m id).
Proof.
  induction rows as [|m rows IH]; intros n n' rows'; simpl; [by intros [= <- <-]|].
  rewrite res_bind_ok. intros ([n1 m1] & Hm & ([n2 rest] & (Hl & Hr)%IH & [= <- <-])%res_bind_ok). simpl. split; [by rewrite Hl|].
  intros [|i] m'; simpl; [|apply Hr]. intros [= <-]. exists m. split; [done|]. unfold PrepareMessageID in Hm.
  case_match; [left; by simplify_eq|]. apply res_bind_ok in Hm as (id & _ & [= _ <-]). eauto.
Qed.

(** A batch that opened has its head and its pending slots in the table. *)
Lemma Begin_ok new_id t env n h n' t' c md : sm_Metadata h = Json md →
  Begin url_parse new_id t env n h = Ok (n', t', c) →
  committing t' c [] ∧ calls c = default [] (md_tool_calls md) ∧ NoDup (map sm_ID (results c))
  ∧ (∀ id, id ∉ (sm_ID (head c) :: map sm_ID (results c)) → t' !! id = t !! id)
  ∧ t !! sm_ID (head c) = None ∧ ∀ i r, results c !! i = Some r → t !! sm_ID r = None.
Proof.
  intros Hmd. unfold Begin. rewrite Hmd. cbn [DecodeMetadata res_bind]. set (cs := default [] (md_tool_calls md)).
  rewrite res_bind_ok. intros ([n1 b] & Hb & ([t1 b1] & Hc & [= <- <- <-])%res_bind_ok).
  unfold NewToolBatch in Hb. apply res_bind_ok in Hb as ([n2 h1] & Hh1 & Hb).
  apply res_bind_ok in Hb as ([n3 rs1] & (Hl1 & Hrs1)%prepare_ids_keeps & Hb).
  assert (sm_Metadata h1 = Json md) as Hmd1.
  { unfold PrepareMessageID in Hh1. case_match; [by simplify_eq|]. by apply res_bind_ok in Hh1 as (id & _ & [= _ <-]). }
  rewrite Hmd1 in Hb. cbn [DecodeMetadata res_bind] in Hb. injection Hb as -> <-. cbn [tb_Call tb_Results] in Hc.
  unfold commit_batch in Hc. cbn [tb_Call tb_Results] in Hc.
  apply res_bind_ok in Hc as (h2 & (Hh & Hhs & Hhr & _ & Hhm & Hhd)%archive_row_keeps & Hc).
  apply res_bind_ok in Hc as (rs2 & (Hl2 & Hrs2)%archive_rows_keeps & Hc). apply database_ok in Hc.
  apply res_bind_ok in Hc as ([] & Hv & Hc). apply res_bind_ok in Hc as (t2 & (_ & Hin & Hout)%appendMessages_ok & [= <- <-]).
  unfold validateToolBatch in Hv. cbn [tb_Call tb_Results] in Hv. destruct (_ || _ || _)%bool eqn:Hg; [done|].
  rewrite !orb_false_iff, negb_false_iff, bool_decide_eq_true, !bool_decide_eq_false in Hg. destruct Hg as [[Hrole _] Hne].
  rewrite Hhm in Hv. cbn [sm_Metadata with_metadata metadata_or_none DecodeMetadata res_bind set_batch_status set_calls md_tool_calls md_result_ids default from_option id] in Hv.
  destruct (valid_slots _ _ _ _ _) eqn:Hvs; [|done]. clear Hv. apply valid_slots_ok in Hvs as (Hlen & Hids & Hnd & Hslots & Hans).
  assert (∀ i r, rs2 !! i = Some r → (∃ md, sm_Metadata r = Json md ∧ md_result_status md = §"pending") ∧ decodes r) as Hpend.
  { intros i r Hr. apply Hrs2 in Hr as (r1 & Hr1 & (_ & _ & _ & _ & Hm & Hd)%archive_row_keeps). split; [|done]. rewrite Hm.
    apply Hrs1 in Hr1 as (r0 & Hr0 & Heq). rewrite list_lookup_fmap in Hr0. destruct (cs !! i) as [call|]; [|done].
    injection Hr0 as <-. destruct (pending_slot_ok (sm_SessionID h) call) as (_ & Hp). by destruct Heq as [->|[id ->]]. }
  cbn [tb_Call tb_Results head results calls remaining].
  assert (∀ i r, rs2 !! i = Some r → r ∈ h2 :: rs2) as Hmem by (intros i r Hr; right; apply list_elem_of_lookup; eauto).
  split; [|split_and!; try done].
  - split; cbn [head results calls remaining committed]; try done.
    + apply Hin. by left.
    + intros i r Hr. by apply Hin, (Hmem i).
    + constructor; [|done]. intros (r & Hr & [i Hi]%list_elem_of_lookup)%list_elem_of_fmap. destruct (Hslots _ _ Hi) as [Hn _].
      apply Hn, elem_of_singleton. done.
    + intros i r Hr. destruct (Hin r (Hmem i r Hr)) as (_ & _ & ->). symmetry. by apply Hin; left.
    + intros i r Hr. by apply (Hslots i).
    + eexists. split; [exact Hhm|]. cbn. split_and!; [done|by rewrite Hids|].
      destruct (Z.eqb_spec (Z.of_nat (length cs)) 0); [|done]. exfalso. apply Hne. lia.
    + intros i r Hr. destruct (Hpend i r Hr) as [(rmd & ? & ?) _]. exists rmd. split; [done|]. unfold status.
      rewrite decide_False by apply not_elem_of_nil. done.
    + split; [constructor|]. by intros i ?%not_elem_of_nil.
    + simpl. lia.
    + split; [done|]. intros i r Hr. by apply (Hpend i).
  - apply Hin. by left.
  - intros i r Hr. by apply Hin, (Hmem i).
Qed.

(** ** Transcripts *)

(** An assistant message with its calls, and one answer to each in their order. *)
Definition transcript (cs : list ToolCallRequest) (messages : list LLMMessage) : Prop :=
  ∃ h rs, messages = h :: rs ∧ lm_Role h = RoleAssistant_ ∧ lm_ToolCalls h = cs
    ∧ Forall2 (λ call m, lm_Role m = RoleTool_ ∧ lm_ToolCallID m = tc_ID call) cs rs.
(** What a later request reads: the head, then the rows its metadata lists. *)
Definition read_row (t : gmap gostring Message) (id : gostring) : res Message :=
  match t !! id with Some row => Ok row | None => Err §"not found" end.
Definition reload (t : gmap gostring Message) (id : gostring) : res (list LLMMessage) :=
  let* h := read_row t id in
  let* md := DecodeMetadata (sm_Metadata h) in
  let* rows := res_map (read_row t) (default [] (md_result_ids md)) in
  res_map MessageFromStorage (h :: rows).

Lemma MessageFromStorage_ok row md : decodes row → sm_Metadata row = Json md → ∃ m, MessageFromStorage row = Ok m
  ∧ lm_Role m = sm_Role row ∧ lm_ToolCallID m = sm_ToolCallID row
  ∧ (sm_Role row = RoleAssistant_ → lm_ToolCalls m = default [] (md_tool_calls md)).
Proof.
  intros Hd Hm. unfold decodes in Hd. unfold MessageFromStorage. rewrite Hm. destruct (sm_Segments row) as [|l|]; [..|done]; cbn [MessageSegmentsFromStorage res_wrap res_bind DecodeMetadata];
    destruct (sm_Role row); eexists; (split; [reflexivity|done]).
Qed.
Lemma reload_rows t id h md ids rows : t !! id = Some h → sm_Metadata h = Json md → md_result_ids md = Some ids →
  Forall2 (λ i r, t !! i = Some r) ids rows → reload t id = res_map MessageFromStorage (h :: rows).
Proof.
  intros Hh Hm Hi Hf. unfold reload. unfold read_row at 1. rewrite Hh. cbn [res_bind]. rewrite Hm. cbn [DecodeMetadata res_bind]. rewrite Hi.
  cbn [default from_option]. assert (res_map (read_row t) ids = Ok rows) as Hr.
  { apply res_map_ok. eapply Forall2_impl; [exact Hf|]. intros i r Hir. unfold read_row. by rewrite Hir. }
  unfold Datatypes.id. by rewrite Hr.
Qed.
Lemma res_map_same {A B C} (f : A → res C) (g : B → res C) l k : Forall2 (λ x y, f x = g y) l k → res_map f l = res_map g k.
Proof. induction 1 as [|x y l k Hxy _ IH]; [done|]. cbn [res_map]. by rewrite Hxy, IH. Qed.
Lemma committing_reloads t c done : committing t c done → ∃ messages,
  res_map MessageFromStorage (head c :: results c) = Ok messages ∧ reload t (sm_ID (head c)) = Ok messages ∧ transcript (calls c) messages.
Proof.
  intros Hc. destruct (cm_head_md _ _ _ Hc) as (md & Hmd & Hcs & Hids & _). destruct (cm_decodes _ _ _ Hc) as [Hd Hds].
  destruct (MessageFromStorage_ok _ _ Hd Hmd) as (h & Hh & Hrole & _ & Hcalls).
  assert (∃ rs, res_map MessageFromStorage (results c) = Ok rs
    ∧ Forall2 (λ r m, lm_Role m = sm_Role r ∧ lm_ToolCallID m = sm_ToolCallID r) (results c) rs) as (rs & Hrs & Hall).
  { assert (Forall (λ r, decodes r ∧ ∃ md, sm_Metadata r = Json md) (results c)) as Hf.
    { apply Forall_lookup. intros i r Hr. split; [by apply (Hds i)|]. destruct (cm_status _ _ _ Hc i r Hr) as (rmd & ? & _). eauto. }
    revert Hf. generalize (results c). clear. intros l. induction 1 as [|r l [Hdr [rmd Hrm]] _ IH]; [by exists []|].
    destruct IH as (rs & IH & Hrs). destruct (MessageFromStorage_ok _ _ Hdr Hrm) as (m & Hm & H1 & H2 & _). exists (m :: rs). simpl. rewrite Hm, IH. simpl.
    split; [done|]. by constructor. }
  exists (h :: rs). assert (res_map MessageFromStorage (head c :: results c) = Ok (h :: rs)) as Hall'.
  { cbn [res_map]. by rewrite Hh, Hrs. }
  split_and!; [done| |].
  - rewrite (reload_rows _ _ (head c) md (map sm_ID (results c)) (results c)); [done|apply (cm_head _ _ _ Hc)|done|done|].
    apply Forall2_fmap_l, Forall2_same_length_lookup. split; [done|]. intros i x y Hx Hy. simplify_eq. by apply (cm_slots _ _ _ Hc i).
  - exists h, rs. split_and!; [done|by rewrite Hrole, (cm_role _ _ _ Hc)|rewrite Hcalls, Hcs by apply (cm_role _ _ _ Hc); done|].
    apply Forall2_same_length_lookup. split; [by rewrite <- (cm_len _ _ _ Hc), (Forall2_length _ _ _ Hall)|]. intros i call m Hcall Hm.
    destruct (Forall2_lookup_r _ _ _ _ _ Hall Hm) as (r & Hr & H1 & H2). rewrite H1, H2.
    split; [by apply (cm_roles _ _ _ Hc i)|by apply (cm_answers _ _ _ Hc i)].
Qed.
Lemma Flush_ok t c done : committing t c done → remaining c = 0 →
  ∃ c', Flush c = Ok c' ∧ reload t (sm_ID (head c)) = Ok (committed c') ∧ transcript (calls c) (committed c').
Proof.
  intros Hc Hr. destruct (committing_reloads _ _ _ Hc) as (ms & Hms & Hre & Ht). unfold Flush. rewrite Hr. simpl negb. cbn iota.
  rewrite Hms. cbn [res_bind]. eexists. split; [done|]. cbn [committed]. by rewrite (cm_committed _ _ _ Hc).
Qed.

(** ** Any number of results, in any order *)
Record step := { st_env : commit_env; st_index : nat; st_call : ToolCallRequest; st_row : Message }.
Definition answering (s : step) : Prop := sm_ToolCallID (st_row s) = tc_ID (st_call s).
Fixpoint commit_results (t : gmap gostring Message) (c : committer) (steps : list step) : res (gmap gostring Message * committer) :=
  match steps with
  | [] => Ok (t, c)
  | s :: steps => let* (t, c) := Result url_parse t (st_env s) c (st_index s) (st_call s) (st_row s) in commit_results t c steps
  end.
Definition batch_ids (c : committer) : list gostring := sm_ID (head c) :: map sm_ID (results c).
Definition final_calls (cs : list ToolCallRequest) (steps : list step) : list ToolCallRequest :=
  foldl (λ cs s, <[st_index s := st_call s]> cs) cs steps.
Lemma commit_results_ok steps : Forall answering steps → ∀ t c done t' c', committing t c done → commit_results t c steps = Ok (t', c') →
  committing t' c' (rev (map st_index steps) ++ done) ∧ batch_ids c' = batch_ids c
  ∧ calls c' = final_calls (calls c) steps ∧ ∀ id, id ∉ batch_ids c → t' !! id = t !! id.
Proof.
  induction 1 as [|s steps Hs _ IH]; intros t c done t' c' Hc; simpl; [by intros [= <- <-]|].
  rewrite res_bind_ok. intros ([t1 c1] & Hr & Hrest). pose proof (Result_step _ _ _ _ _ _ _ _ _ Hc Hs Hr) as (_ & Hc1 & Hf & Hn).
  destruct Hn as (slot & stored & Hslot & Ha & Heq).
  assert (batch_ids c1 = batch_ids c) as Hb.
  { rewrite Heq. unfold batch_ids, next_committer. cbn [head results]. f_equal. eapply result_ids; [done|]. by apply stored_slot in Ha as [? _]. }
  destruct (IH _ _ _ _ _ Hc1 Hrest) as (Hc' & Hb' & Hcs & Hf'). split_and!.
  - by rewrite <- app_assoc.
  - by rewrite Hb'.
  - rewrite Hcs, Heq. done.
  - intros id Hid. rewrite Hf' by (by rewrite Hb). by apply Hf.
Qed.

(** Whatever results of a batch have been saved, in whatever order, a
    reload of its rows gives a whole transcript: the assistant message with its
    calls followed by one answer to each of them in their order. No result is
    saved twice, no other row is touched, and flushing succeeds exactly when
    every call has its result, with the messages that a reload gives. *)
Lemma batch_transcript_whole new_id t env n session content raw cs n' t1 c1 steps t2 c2 :
  Begin url_parse new_id t env n (ToolCallStorageMessage session content raw cs) = Ok (n', t1, c1) →
  Forall answering steps → commit_results t1 c1 steps = Ok (t2, c2) →
  NoDup (map st_index steps) ∧ Forall (λ s, (st_index s < length cs)%nat) steps
  ∧ (∀ id, id ∉ batch_ids c1 → t2 !! id = t !! id)
  ∧ (∃ messages, reload t2 (sm_ID (head c1)) = Ok messages ∧ transcript (final_calls cs steps) messages)
  ∧ (length steps = length cs → ∃ c, Flush c2 = Ok c ∧ reload t2 (sm_ID (head c1)) = Ok (committed c))
  ∧ (length steps ≠ length cs → Flush c2 = Err §"tool batch has unfinished results").
Proof.
  intros Hb Hs Hr. destruct (Begin_ok new_id t env n (ToolCallStorageMessage session content raw cs) n' t1 c1 _ eq_refl Hb) as (Hc1 & Hcs & _ & Hf1 & _). cbn in Hcs.
  assert (calls c1 = cs) as Hcs1 by (rewrite Hcs; by destruct cs). clear Hcs.
  destruct (commit_results_ok steps Hs _ _ _ _ _ Hc1 Hr) as (Hc2 & Hids & Hcalls & Hf2). rewrite app_nil_r in Hc2.
  assert (sm_ID (head c2) = sm_ID (head c1)) as Hid by (unfold batch_ids in Hids; congruence).
  destruct (cm_done _ _ _ Hc2) as [Hnd Hlt]. pose proof (cm_remaining _ _ _ Hc2) as Hrem.
  assert (length (calls c2) = length cs) as Hlen.
  { rewrite <- Hcs1, <- (cm_len _ _ _ Hc2), <- (cm_len _ _ _ Hc1). unfold batch_ids in Hids. injection Hids as _ Hm.
    rewrite <- (length_map sm_ID (results c2)), <- (length_map sm_ID (results c1)). by rewrite Hm. }
  rewrite length_rev, length_map, Hlen in Hrem. split_and!.
  - by rewrite <- Permutation_rev in Hnd.
  - apply Forall_forall. intros s Hin. rewrite <- Hlen. apply Hlt. rewrite <- Permutation_rev. by apply list_elem_of_fmap_2.
  - intros id Hout. by rewrite Hf2, Hf1.
  - destruct (committing_reloads _ _ _ Hc2) as (ms & _ & Hre & Ht). rewrite Hid in Hre. exists ms. split; [done|]. by rewrite <- Hcs1, <- Hcalls.
  - intros Hl. destruct (Flush_ok _ _ _ Hc2) as (c & Hf & Hre & _); [lia|]. exists c. by rewrite <- Hid.
  - intros Hl. unfold Flush. destruct (Z.eqb_spec (remaining c2) 0); [lia|done].
Qed.

(** ** Batches that did not end *)
Lemma seal_slots session ids : ∀ t, NoDup ids → ∀ id,
  foldl (seal_slot session) t ids !! id = if decide (id ∈ ids) then seal_row session <$> t !! id else t !! id.
Proof.
  induction ids as [|x ids IH]; intros t Hnd id; simpl; [done|]. apply NoDup_cons in Hnd as [Hx Hnd]. rewrite IH by done.
  unfold seal_slot. destruct (decide (id = x)) as [->|Hne].
  - rewrite decide_False by done. rewrite decide_True by left. apply lookup_alter_eq.
  - rewrite lookup_alter_ne by done. destruct (decide (id ∈ ids)) as [Hi|Hi]; [by rewrite decide_True by (by right)|].
    rewrite decide_False; [done|]. by rewrite elem_of_cons; intros [?|?].
Qed.
Lemma seal_row_projects session r : MessageFromStorage (seal_row session r) = MessageFromStorage r.
Proof.
  unfold seal_row. destruct (sm_Metadata r) as [|md|] eqn:Hm; [done| |done]. case_match; [|done].
  unfold MessageFromStorage. rewrite Hm. simpl. done.
Qed.
Lemma sealed_not_pending session r md : sm_SessionID r = session → sm_Metadata r = Json md →
  md_result_status (metadata_or_none (sm_Metadata (seal_row session r))) ≠ §"pending".
Proof.
  intros Hs Hm. unfold seal_row. rewrite Hm, (bool_decide_eq_true_2 _ Hs). simpl. destruct (decide (md_result_status md = §"pending")) as [Hp|Hp].
  - by rewrite (bool_decide_eq_true_2 _ Hp).
  - by rewrite (bool_decide_eq_false_2 _ Hp), Hm.
Qed.

(** A batch that was cut off, after any of its results, can be closed: the
    database accepts the closing, a reload gives the same whole transcript as
    before, in which the calls without a saved result answer that their outcome
    is unknown, and any result that comes later is refused. *)
Lemma interrupted_batch_closed t c done env : committing t c done → remaining c ≠ 0 → dw_gate env = None → dw_fails env = None →
  ∃ t' messages, close_interrupted url_parse t env (head c) = Ok t'
    ∧ reload t (sm_ID (head c)) = Ok messages ∧ reload t' (sm_ID (head c)) = Ok messages ∧ transcript (calls c) messages
    ∧ ∀ env' i call row x, Result url_parse t' env' c i call row ≠ Ok x.
Proof.
  intros Hc Hr Hg Hf. destruct (committing_reloads _ _ _ Hc) as (ms & Hms & Hre & Ht).
  destruct (cm_head_md _ _ _ Hc) as (md & Hmd & Hcs & Hids & Hbs). destruct (Z.eqb_spec (remaining c) 0); [done|].
  set (h := with_metadata (head c) (set_batch_status md §"interrupted")). set (ids := map sm_ID (results c)).
  set (t1 := <[sm_ID (head c) := h]> t). set (t' := foldl (seal_slot (sm_SessionID (head c))) t1 ids).
  pose proof (cm_ids _ _ _ Hc) as [Hhid Hnd]%NoDup_cons.
  assert (close_interrupted url_parse t env (head c) = Ok t') as Hclose.
  { unfold close_interrupted. rewrite Hmd. cbn [DecodeMetadata res_bind]. rewrite (bool_decide_eq_true_2 _ Hbs). cbn [negb].
    unfold commit_result. cbn [tr_Result res_bind tr_Call]. unfold database. rewrite Hg, Hf. unfold commitToolResult. cbn [tr_Call tr_Result].
    rewrite (update_row_succeeds t _ true h (head c)); [|done|apply (cm_head _ _ _ Hc)|done..|by rewrite Hmd].
    cbn. by rewrite Hids. }
  assert (t' !! sm_ID (head c) = Some h) as Hh'.
  { unfold t'. rewrite seal_slots by done. rewrite decide_False by done. apply lookup_insert_eq. }
  assert (∀ i r, results c !! i = Some r → t' !! sm_ID r = Some (seal_row (sm_SessionID (head c)) r)) as Hs'.
  { intros i r Hi. unfold t'. rewrite seal_slots by done. rewrite decide_True by (apply list_elem_of_fmap_2, list_elem_of_lookup; eauto).
    unfold t1. rewrite lookup_insert_ne by (apply not_eq_sym; by eapply slot_ids). by rewrite (cm_slots _ _ _ Hc i). }
  exists t', ms. split_and!; [done|done| |done|].
  - rewrite <- Hms. rewrite (reload_rows _ _ h (set_batch_status md §"interrupted") ids (map (seal_row (sm_SessionID (head c))) (results c)));
      [|done|done|done|].
    + apply res_map_same. constructor; [unfold MessageFromStorage, h; by rewrite Hmd|]. apply Forall2_fmap_l.
      apply Forall_Forall2_diag, Forall_true. intros r. apply seal_row_projects.
    + apply Forall2_fmap, Forall_Forall2_diag, Forall_lookup. intros i r Hi. by apply (Hs' i).
  - intros env' i call row x. destruct x as [t2 c2]. intros (slot & stored & t3 & Hslot & Ha & H1 & H2 & _)%Result_inv.
    apply update_row_ok in H1 as (_ & _ & hrow & Hh1 & _ & _ & Hp). cbn in Hh1. rewrite Hh' in Hh1. injection Hh1 as <-. by cbn in Hp.
Qed.
End Committing.

(** ** The properties at a batch of two calls *)
#[local] Existing Instance ascii_tables.
Definition two_calls : list ToolCallRequest :=
  [{| tc_ID := §"a"; tc_Name := §"read_file"; tc_Arguments := §"{}" |}; {| tc_ID := §"b"; tc_Name := §"shell"; tc_Arguments := §"{}" |}].
Definition calm : commit_env := {| dw_archive := λ s, Ok s; dw_gate := None; dw_fails := None |}.
Definition m_id (n : nat) : res gostring := Ok (§"m" ++ itoa (Z.of_nat n)).
Definition two_steps : list step :=
  map (λ '(i, call), {| st_env := calm; st_index := i; st_call := call;
    st_row := ToolResultStorageMessage http_parse §"s1" (toolMessage (tc_Name call) (tc_ID call) §"done") |})
    (rev (zip [0%nat; 1%nat] two_calls)).
Definition opened : res (nat * gmap gostring Message * committer) :=
  Begin http_parse m_id ∅ calm 0 (ToolCallStorageMessage §"s1" §"I look." §"I look." two_calls).

Lemma batch_transcript_whole_witness : ∃ n t1 c1 t2 c2 c, opened = Ok (n, t1, c1)
  ∧ commit_results http_parse t1 c1 two_steps = Ok (t2, c2) ∧ Flush c2 = Ok c ∧ reload t2 §"m0" = Ok (committed c).
Proof.
  destruct opened as [[[n t1] c1]| |] eqn:Ho; [|by vm_compute in Ho|by vm_compute in Ho].
  assert (∃ t2 c2, commit_results http_parse t1 c1 two_steps = Ok (t2, c2) ∧ sm_ID (head c1) = §"m0") as (t2 & c2 & Hc & Hid).
  { vm_compute in Ho. injection Ho as _ <- <-. eexists _, _. split; [vm_compute; reflexivity|done]. }
  destruct (batch_transcript_whole http_parse m_id ∅ calm 0 §"s1" §"I look." §"I look." two_calls n t1 c1 two_steps t2 c2)
    as (_ & _ & _ & _ & Hf & _); [exact Ho|by repeat constructor|done|].
  destruct (Hf eq_refl) as (c & Hflush & Hre). exists n, t1, c1, t2, c2, c. by rewrite <- Hid.
Defined.
Lemma interrupted_batch_closed_witness : ∃ n t1 c1 t' messages, opened = Ok (n, t1, c1)
  ∧ close_interrupted http_parse t1 calm (head c1) = Ok t' ∧ reload t' (sm_ID (head c1)) = Ok messages ∧ transcript (calls c1) messages.
Proof.
  destruct opened as [[[n t1] c1]| |] eqn:Ho; [|by vm_compute in Ho|by vm_compute in Ho].
  assert (remaining c1 ≠ 0) as Hr by (vm_compute in Ho; by injection Ho as _ _ <-).
  destruct (Begin_ok http_parse m_id ∅ calm 0 (ToolCallStorageMessage §"s1" §"I look." §"I look." two_calls) n t1 c1 _ eq_refl Ho) as (Hc & _).
  destruct (interrupted_batch_closed http_parse t1 c1 [] calm Hc Hr eq_refl eq_refl) as (t' & ms & H1 & _ & H2 & H3 & _).
  by exists n, t1, c1, t', ms.
Defined.
