(* ===== verification/ToolBatch.v ===== *)
(** * A batch of tool calls ([tool/execution/runner.go], [executor.go])

    [Manager.Run]: one coordinator prepares and confirms the calls one after
    the other, starts a worker for each, and saves the results that arrive in
    a buffered channel meanwhile. The coordinator's position is a program
    counter; an event is what it or a worker does next, with what the hooks,
    the tools, the confirmations and the database answer. [EElsewhere] is a
    confirmation of another batch, or of an abandoned call of this one, or a
    session that is forgotten. The fields [b_done]
    and [b_events] are a history for the statements. *)
From S2P Require Import Prelude GoStr Segment Turn HookPipeline ToolPermit ToolTranscript.
Open Scope Z_scope.

(** ** Results of tools *)
(** Of a tool's result: whether it has outputs to send, needs the ELyph rules,
    and the summary and details of a discovery. *)
Record toolResult := { r_outputs : bool; NeedsElyphRules_ : bool; DiscoveryText : option (gostring * gostring); r_segments : list MessageSegment }.
Record executionResult := {
  ex_Message : LLMMessage; ex_Result : option toolResult; ex_Error : option toolError; ExecutionStarted : bool
}.
Definition executionError (call : ToolCallRequest) (err : toolError) : executionResult :=
  let reason := if te_Canceled err then §"canceled" else if te_Denied err then §"rejected" else §"failed" in
  {| ex_Message := call_message call (§" " ++ reason ++ §": " ++ te_Text err); ex_Result := None; ex_Error := Some err;
     ExecutionStarted := false |}.
(** What the world does while a worker runs its tool: an error of the context
    before, whether the prepared call still matches, the tool's result and
    error, and an error of the context after. *)
Record tool_outcome := {
  to_before : option toolError; to_matches : bool; to_result : option toolResult; to_error : option toolError; to_after : option toolError
}.
Definition executePrepared (call : ToolCallRequest) (o : tool_outcome) : executionResult :=
  match to_before o with
  | Some err => executionError call err
  | None =>
    if negb (to_matches o) then
      executionError call {| te_Text := §"tool call changed after preparation"; te_Denied := false; te_Canceled := false |}
    else
      let failed := match to_error o with Some err => TextSegments (call_text call (§" failed: " ++ te_Text err)) | None => [] end in
      let segments :=
        match to_result o with
        | Some r => match DiscoveryText r with Some (_, details) => TextSegments details | None => r_segments r end
        | None => failed
        end in
      {| ex_Message := set_segments (toolMessage (tc_Name call) (tc_ID call) []) segments; ex_Result := to_result o; ex_Error := to_error o;
         ExecutionStarted := true |}
  end.
Definition run_worker (call : ToolCallRequest) (o : tool_outcome) : executionResult :=
  let r := executePrepared call o in
  match to_after o, ex_Error r with
  | Some err, None =>
    {| ex_Message := set_segments (ex_Message r)
         (lm_Segments (ex_Message r) ++ TextSegments ([newline] ++ call_text call §" canceled by user"));
       ex_Result := ex_Result r; ex_Error := Some err; ExecutionStarted := ExecutionStarted r |}
  | _, _ => r
  end.

(** ** The state of a run *)
Record RunResult := { rr_Err : option gostring; rr_Extra : gostring; rr_Stopped : bool }.
Definition run_error (err : gostring) : RunResult := {| rr_Err := Some err; rr_Extra := []; rr_Stopped := false |}.
(** What the coordinator waits for in [await]. *)
Inductive waiting := WPrepare | WPrepareCall (tool : resolved) | WConfirm (tool : resolved) (risk : gostring).
Inductive pc :=
| Top (i : nat) | Await (i : nat) (w : waiting) | Abandon (r : RunResult) | Drain | Joining (r : RunResult) | Returned (r : RunResult).
Record batch := Batch {
  b_table : gmap gostring Message; b_committer : committer; b_auto : auto; b_ctx : bool;
  b_prepared : list ToolCallRequest; b_results : gmap nat executionResult; b_ready : list nat; b_completed : Z; b_running : list nat;
  b_shown : bool; b_extra : gostring; b_pc : pc;
  b_done : list nat; b_events : list event
}.
Definition go (b : batch) (p : pc) : batch :=
  Batch (b_table b) (b_committer b) (b_auto b) (b_ctx b) (b_prepared b) (b_results b) (b_ready b) (b_completed b) (b_running b)
        (b_shown b) (b_extra b) p (b_done b) (b_events b).
Definition cancel (b : batch) : batch :=
  Batch (b_table b) (b_committer b) (b_auto b) true (b_prepared b) (b_results b) (b_ready b) (b_completed b) (b_running b)
        (b_shown b) (b_extra b) (b_pc b) (b_done b) (b_events b).
(** Returning: the deferred [cancel] runs, then the workers are waited for. *)
Definition leave (b : batch) (r : RunResult) : batch := go (cancel b) (Joining r).
Definition set_prepared (b : batch) (i : nat) (call : ToolCallRequest) : batch :=
  Batch (b_table b) (b_committer b) (b_auto b) (b_ctx b) (<[i := call]> (b_prepared b)) (b_results b) (b_ready b) (b_completed b)
        (b_running b) (b_shown b) (b_extra b) (b_pc b) (b_done b) (b_events b).
(** A result in the channel. *)
Definition post (b : batch) (i : nat) (r : executionResult) : batch :=
  Batch (b_table b) (b_committer b) (b_auto b) (b_ctx b) (b_prepared b) (<[i := r]> (b_results b)) (b_ready b ++ [i]) (b_completed b)
        (b_running b) (b_shown b) (b_extra b) (b_pc b) (b_done b) (b_events b).
Definition set_running (b : batch) (running : list nat) : batch :=
  Batch (b_table b) (b_committer b) (b_auto b) (b_ctx b) (b_prepared b) (b_results b) (b_ready b) (b_completed b) running
        (b_shown b) (b_extra b) (b_pc b) (b_done b) (b_events b).
Definition confirmed (b : batch) (a : auto) (extra : gostring) (e : event) : batch :=
  Batch (b_table b) (b_committer b) a (b_ctx b) (b_prepared b) (b_results b) (b_ready b) (b_completed b) (b_running b)
        (b_shown b) extra (b_pc b) (b_done b) (b_events b ++ [e]).
Definition start_worker (b : batch) (i : nat) : batch :=
  Batch (b_table b) (b_committer b) (b_auto b) (b_ctx b) (b_prepared b) (b_results b) (b_ready b) (b_completed b) (b_running b ++ [i])
        (b_shown b) (b_extra b) (b_pc b) (b_done b) (b_events b).
(** The first result is taken out of the channel and counted. *)
Definition take_ready (b : batch) (i : nat) (ready : list nat) : batch :=
  Batch (b_table b) (b_committer b) (b_auto b) (b_ctx b) (b_prepared b) (b_results b) ready (b_completed b + 1) (b_running b)
        (b_shown b) (b_extra b) (b_pc b) (b_done b ++ [i]) (b_events b).
Definition save (b : batch) (t : gmap gostring Message) (c : committer) (shown : bool) : batch :=
  Batch t c (b_auto b) (b_ctx b) (b_prepared b) (b_results b) (b_ready b) (b_completed b) (b_running b)
        shown (b_extra b) (b_pc b) (b_done b) (b_events b).

(** What the world answers while one result is completed. *)
Record complete_env := {
  x_refresh : option gostring; x_send : option gostring; x_hook : list MessageSegment → res (list MessageSegment);
  x_discovery : option gostring; x_commit : commit_env
}.
Inductive run_event :=
| ECancel
| EElsewhere (e : event)
| ETop (refresh : option gostring)
| EPrepared (call : ToolCallRequest) (err : option gostring) (tool : toolError + resolved)
| EPrepareCall (risk : toolError + gostring)
| EConfirm (env : confirm_env) (role : gostring) (shell : bool) (start : option gostring) (media : option toolError)
| ETake (env : complete_env)
| EContext
| EAbandoned
| EWork (i : nat) (o : tool_outcome)
| EFlush
| EJoined.
Definition context_canceled : gostring := §"context canceled".
Definition joinAssistantText `{UnicodeTables} (a b : gostring) : gostring :=
  let a := trim_space a in
  let b := trim_space b in
  if bool_decide (a = []) then b else if bool_decide (b = []) then a else a ++ [newline; newline] ++ b.

Section Run.
Context `{UnicodeTables} (url_parse : gostring → option (gostring * gostring)) (RuleCard : gostring).
Context (permission : Permission) (session : gostring) (requested : list ToolCallRequest).

(** ** Completing one result *)
Definition RuleCardIfNeeded (needed shown : bool) : gostring :=
  if negb needed || shown then [] else §"ELyph 规则：" ++ [newline] ++ RuleCard.
Definition blank_line : gostring := [newline; newline].
(** The message of a result, after its outputs, its hook and the ELyph rules. *)
Definition complete_message (env : complete_env) (call : ToolCallRequest) (r : executionResult) (shown : bool) : res (LLMMessage * gostring) :=
  let segments := lm_Segments (ex_Message r) in
  let segments :=
    match ex_Result r, x_send env with
    | Some result, Some err =>
      if r_outputs result then segments ++ TextSegments ([newline] ++ call_text call (§" failed: output: " ++ err)) else segments
    | _, _ => segments
    end in
  let* segments := if ExecutionStarted r then x_hook env segments else Ok segments in
  match ex_Result r with
  | None => Ok (set_segments (ex_Message r) segments, [])
  | Some result =>
    let card := RuleCardIfNeeded (NeedsElyphRules_ result) shown in
    let summary := match DiscoveryText result with Some (s, _) => if bool_decide (s = []) then [] else [s] | None => [] end in
    let parts := summary ++ (if bool_decide (card = []) then [] else [card]) in
    let segments := if bool_decide (length parts = 0%nat) then segments
                    else TextSegments (join blank_line parts ++ blank_line) ++ segments in
    if bool_decide (tc_Name call = §"discover_tool") then
      match x_discovery env with Some err => Err err | None => Ok (set_segments (ex_Message r) segments, card) end
    else Ok (set_segments (ex_Message r) segments, card)
  end.
Definition result_message (m : LLMMessage) (card : gostring) : Message :=
  let stored := ToolResultStorageMessage url_parse session m in
  if bool_decide (card = []) then stored else with_metadata stored (set_rules_shown (metadata_or_none (sm_Metadata stored))).
Definition complete (b : batch) (env : complete_env) (i : nat) : res batch :=
  if b_ctx b then Err context_canceled
  else
    match x_refresh env, b_results b !! i, b_prepared b !! i with
    | Some err, _, _ => Err err
    | None, Some r, Some call =>
      let* (m, card) := complete_message env call r (b_shown b) in
      let* (t, c) := Result url_parse (b_table b) (x_commit env) (b_committer b) i call (result_message m card) in
      Ok (save b t c (b_shown b || negb (bool_decide (card = []))))
    | None, _, _ => Panic
    end.

(** ** The coordinator and its workers *)
Definition next_call (b : batch) (i : nat) : batch := go b (if (S i <? length requested)%nat then Top (S i) else Drain).
(** Taking a result, in [await] and in the last loop; [fail] is where an error leads. *)
Definition take_step (b : batch) (env : complete_env) (fail : gostring → pc) : option batch :=
  match b_ready b with
  | [] => None
  | i :: ready =>
    let b := take_ready b i ready in
    match complete b env i with
    | Ok b => Some b
    | Err err => Some (go (cancel b) (fail err))
    | Panic => None
    end
  end.
Definition media_error (call : ToolCallRequest) (err : toolError) : executionResult :=
  {| ex_Message := call_message call (§" failed: retain media arguments: " ++ te_Text err); ex_Result := None; ex_Error := Some err;
     ExecutionStarted := false |}.
Definition refused_result (call : ToolCallRequest) (r : ConfirmResult) (err : option toolError) : executionResult :=
  let e := executionError call (default (PolicyDeniedError §"tool confirmation rejected") err) in
  match lm_Segments (cr_Message r) with
  | [] => e
  | _ => {| ex_Message := cr_Message r; ex_Result := ex_Result e; ex_Error := ex_Error e; ExecutionStarted := false |}
  end.
Definition confirm_step (b : batch) (i : nat) (tool : resolved) (risk : gostring) (env : confirm_env) (role : gostring) (shell : bool)
    (start : option gostring) (media : option toolError) : option batch :=
  match b_prepared b !! i with
  | None => None
  | Some call =>
    let q := {| q_env := env; q_role := role; q_session := session; q_call := call; q_tool := tool; q_risk := risk; q_shell := shell |} in
    let '(a, r, err) := confirm_request permission (b_auto b) q in
    let b := confirmed b a (joinAssistantText (b_extra b) (cr_Extra r)) (Confirm q) in
    if Stopped r then Some (leave b {| rr_Err := None; rr_Extra := b_extra b; rr_Stopped := true |})
    else if negb (Allowed r) then Some (next_call (post b i (refused_result call r err)) i)
    else
      match start, media with
      | Some err, _ => Some (leave b (run_error err))
      | None, Some err => Some (next_call (post b i (media_error call err)) i)
      | None, None => Some (next_call (start_worker b i) i)
      end
  end.
Definition run_step (b : batch) (e : run_event) : option batch :=
  match e, b_pc b with
  | ECancel, _ => Some (cancel b)
  | EElsewhere e, _ => Some (confirmed b (after permission (b_auto b) e) (b_extra b) e)
  | EWork i o, _ =>
    if bool_decide (i ∈ b_running b) && (length (b_ready b) <? length requested)%nat then
      match b_prepared b !! i with
      | Some call => Some (post (set_running b (filter (λ j, j ≠ i) (b_running b))) i (run_worker call o))
      | None => None
      end
    else None
  | ETop refresh, Top i =>
    if b_ctx b then Some (leave b {| rr_Err := Some context_canceled; rr_Extra := []; rr_Stopped := true |})
    else match refresh with
         | Some err => Some (leave b (run_error err))
         | None => Some (go b (Await i WPrepare))
         end
  | EPrepared call err tool, Await i WPrepare =>
    match err with
    | Some err => Some (leave b (run_error err))
    | None =>
      let b := set_prepared b i call in
      match tool with
      | inl err => Some (next_call (post b i (executionError call err)) i)
      | inr tool => Some (go b (Await i (WPrepareCall tool)))
      end
    end
  | EPrepareCall (inl err), Await i (WPrepareCall tool) =>
    match b_prepared b !! i with Some call => Some (next_call (post b i (executionError call err)) i) | None => None end
  | EPrepareCall (inr risk), Await i (WPrepareCall tool) => Some (go b (Await i (WConfirm tool risk)))
  | EConfirm env role shell start media, Await i (WConfirm tool risk) => confirm_step b i tool risk env role shell start media
  | ETake env, Await i _ => take_step b env (λ err, Abandon (run_error err))
  | EContext, Await i _ => if b_ctx b then Some (go b (Abandon (run_error context_canceled))) else None
  | EAbandoned, Abandon r => Some (leave b r)
  | ETake env, Drain =>
    if b_completed b <? Z.of_nat (length requested) then take_step b env (λ err, Joining (run_error err)) else None
  | EContext, Drain =>
    if b_ctx b && (b_completed b <? Z.of_nat (length requested))
    then Some (leave b {| rr_Err := Some context_canceled; rr_Extra := []; rr_Stopped := true |}) else None
  | EFlush, Drain =>
    if b_completed b <? Z.of_nat (length requested) then None
    else match Flush (b_committer b) with
         | Ok c => Some (leave (save b (b_table b) c (b_shown b)) {| rr_Err := None; rr_Extra := b_extra b; rr_Stopped := false |})
         | Err err => Some (leave b {| rr_Err := Some err; rr_Extra := b_extra b; rr_Stopped := false |})
         | Panic => None
         end
  | EJoined, Joining r => if bool_decide (length (b_running b) = 0%nat) then Some (go b (Returned r)) else None
  | _, _ => None
  end.
Fixpoint run_batch (b : batch) (es : list run_event) : option batch :=
  match es with
  | [] => Some b
  | e :: es => match run_step b e with Some b => run_batch b es | None => None end
  end.
(** The state after [Begin]; [Run] fails when it does. *)
Definition begin_batch (t : gmap gostring Message) (c : committer) (a : auto) (events : list event) (shown : bool) : batch :=
  Batch t c a false requested ∅ [] 0 [] shown [] (if (0 <? length requested)%nat then Top 0 else Drain) [] events.
End Run.
