(* ===== verification/ToolBatchProps.v ===== *)
(** * A batch of tool calls ends, answers every call once and runs only what is permitted *)
From S2P Require Import Prelude GoStr Segment Turn HookPipeline ToolPermit ToolTranscript ToolTranscriptProps ToolBatch.
Open Scope Z_scope.

(** ** Where the calls are *)
Definition places (b : batch) : list nat := b_done b ++ b_ready b ++ b_running b.
Definition answers_call (call : ToolCallRequest) (r : executionResult) : Prop :=
  lm_Role (ex_Message r) = RoleTool_ ∧ lm_ToolCallID (ex_Message r) = tc_ID call.
(** The calls [0 .. k-1] have been handed on, the others not yet. *)
Definition at_call (n k : nat) (p : pc) : Prop :=
  match p with Top i | Await i _ => k = i ∧ (i < n)%nat | Drain => k = n | _ => (k ≤ n)%nat end.
Definition succeeded (r : RunResult) : bool := bool_decide (rr_Err r = None) && negb (rr_Stopped r).
Definition running_pc (p : pc) : Prop := match p with Top _ | Await _ _ | Drain => True | _ => False end.
Definition ending (p : pc) : option RunResult := match p with Abandon r | Joining r | Returned r => Some r | _ => None end.

(** The committer before [Flush]. *)
Definition unflushed (c : committer) : committer :=
  {| committed := []; head := head c; calls := calls c; results := results c; remaining := remaining c |}.
Section Batch.
Context `{UnicodeTables} (url_parse : gostring → option (gostring * gostring)) (RuleCard : gostring).
Context (permission : Permission) (session : gostring) (requested : list ToolCallRequest).
Local Abbreviation step := (run_step url_parse RuleCard permission session requested).
Local Abbreviation n := (length requested).

Record binv (head_id : gostring) (b : batch) : Prop := {
  bi_places : ∃ k, places b ≡ₚ seq 0 k ∧ (k ≤ n)%nat ∧ at_call n k (b_pc b);
  bi_completed : b_completed b = Z.of_nat (length (b_done b));
  bi_prepared : length (b_prepared b) = n ∧ length (calls (b_committer b)) = n;
  bi_results : ∀ i, i ∈ b_ready b → ∃ r call, b_results b !! i = Some r ∧ b_prepared b !! i = Some call ∧ answers_call call r;
  bi_saved : ∃ done, committing (b_table b) (unflushed (b_committer b)) done ∧ done ⊆ b_done b
      ∧ (running_pc (b_pc b) → done ≡ₚ b_done b)
      ∧ ∀ i, i ∈ done → calls (b_committer b) !! i = b_prepared b !! i;
  bi_head : sm_ID (head (b_committer b)) = head_id;
  bi_flushed : match ending (b_pc b) with
      | Some r => succeeded r = true → b_done b ≡ₚ seq 0 n ∧ calls (b_committer b) = b_prepared b
                    ∧ reload (b_table b) head_id = Ok (committed (b_committer b))
                    ∧ transcript (b_prepared b) (committed (b_committer b))
      | None => committed (b_committer b) = []
      end;
  bi_returned : ∀ r, b_pc b = Returned r → b_running b = []
}.

Lemma running_not_ending p : running_pc p → ending p = None.
Proof. by destruct p. Qed.
Lemma unflushed_id c : committed c = [] → unflushed c = c.
Proof. destruct c. simpl. by intros ->. Qed.

(** A step that saves nothing. *)
Lemma binv_move hid b b' : binv hid b →
  b_table b' = b_table b → b_committer b' = b_committer b → b_done b' = b_done b → b_completed b' = b_completed b →
  length (b_prepared b') = length (b_prepared b) →
  (∀ j, j ∈ b_done b → b_prepared b' !! j = b_prepared b !! j) →
  (∃ k, places b' ≡ₚ seq 0 k ∧ (k ≤ n)%nat ∧ at_call n k (b_pc b')) →
  (∀ j, j ∈ b_ready b' → ∃ r call, b_results b' !! j = Some r ∧ b_prepared b' !! j = Some call ∧ answers_call call r) →
  (running_pc (b_pc b') → running_pc (b_pc b)) →
  (ending (b_pc b') = ending (b_pc b) ∧ b_prepared b' = b_prepared b
   ∨ running_pc (b_pc b) ∧ match ending (b_pc b') with Some r => succeeded r = false | None => True end) →
  (∀ r, b_pc b' = Returned r → b_running b' = []) → binv hid b'.
Proof.
  intros [Hp Hc Hl Hr (done & Hsv & Hsub & Hall & Hcalls) Hh Hf Hret] Ht Hcm Hd Hcp Hlen Hprep Hpl Hres Hrun Hend Hret'. split; try done.
  - by rewrite Hcp, Hd.
  - by rewrite Hlen, Hcm.
  - exists done. rewrite Ht, Hcm, Hd. split_and!; [done|done|by intros ?%Hrun%Hall|]. intros i Hi. rewrite Hcalls by done. symmetry. by apply Hprep, Hsub.
  - by rewrite Hcm.
  - destruct Hend as [[He Hpp]|[Hrn He]].
    + by rewrite He, Hpp, Hd, Hcm, Ht.
    + rewrite running_not_ending in Hf by done. destruct (ending (b_pc b')); [by rewrite He|by rewrite Hcm].
Qed.

(** ** Saving one result *)
Lemma complete_message_answers env call r shown m card : complete_message RuleCard env call r shown = Ok (m, card) →
  lm_Role m = lm_Role (ex_Message r) ∧ lm_ToolCallID m = lm_ToolCallID (ex_Message r).
Proof.
  unfold complete_message. rewrite res_bind_ok. intros (segments & _ & Hm). destruct (ex_Result r); [|by injection Hm as <- _].
  case_bool_decide; [destruct (x_discovery env); [done|]|]; by injection Hm as <- _.
Qed.
Lemma complete_ok b env i b' : complete url_parse RuleCard session b env i = Ok b' →
  ∃ r call m card t c shown, b_results b !! i = Some r ∧ b_prepared b !! i = Some call
    ∧ lm_ToolCallID m = lm_ToolCallID (ex_Message r)
    ∧ Result url_parse (b_table b) (x_commit env) (b_committer b) i call (result_message url_parse session m card) = Ok (t, c)
    ∧ b' = save b t c shown.
Proof.
  unfold complete. destruct (b_ctx b); [done|]. destruct (x_refresh env); [done|]. destruct (b_results b !! i) as [r|]; [|done].
  destruct (b_prepared b !! i) as [call|]; [|done]. rewrite res_bind_ok. intros ([m card] & Hm & Hr).
  apply res_bind_ok in Hr as ([t c] & Hr & [= <-]). apply complete_message_answers in Hm as [_ Hid]. by eexists r, call, m, card, t, c, _.
Qed.
Lemma result_message_id m card : sm_ToolCallID (result_message url_parse session m card) = lm_ToolCallID m.
Proof. unfold result_message. by case_bool_decide. Qed.

Lemma places_take b i ready : b_ready b = i :: ready → places (take_ready b i ready) ≡ₚ places b.
Proof. intros Hr. unfold places. simpl. rewrite Hr. solve_Permutation. Qed.
Lemma batch_take_ok hid b env fail b' : binv hid b → running_pc (b_pc b) → (∀ err, ending (fail err) = Some (run_error err)) →
  (∀ err r, fail err ≠ Returned r) → take_step url_parse RuleCard session b env fail = Some b' → binv hid b'.
Proof.
  intros Hb Hrun Hfail Hfail'. unfold take_step. destruct (b_ready b) as [|i ready] eqn:Hready; [done|].
  assert (∀ j, j ∈ ready → j ∈ b_ready b) as Hsub by (rewrite Hready; by right).
  pose proof (places_take b i ready Hready) as Hpl. set (b1 := take_ready b i ready) in *.
  destruct Hb as [(k & Hk & Hkn & Hat) Hc Hl Hr (done & Hsv & Hds & Hall & Hcalls) Hh Hf Hret].
  rewrite running_not_ending in Hf by done.
  destruct (complete _ _ _ _ _ _) as [b2|err|] eqn:Hcomp; [| |done].
  - intros [= <-]. apply complete_ok in Hcomp as (r & call & m & card & t & c & shown & Hres & Hprep & Hid & Hresult & ->).
    destruct (Hr i) as (r' & call' & Hr1 & Hr2 & _ & Hans); [rewrite Hready; by left|]. cbn in Hres, Hprep. simplify_eq.
    rewrite (unflushed_id _ Hf) in Hsv. cbn in Hresult.
    destruct (Result_step url_parse _ _ _ _ _ _ _ _ _ Hsv (eq_trans (result_message_id m card) (eq_trans Hid Hans)) Hresult)
      as (Hnew & Hsv' & _ & slot & stored & Hslot & Hstored & ->).
    split; try done.
    + exists k. split_and!; [by rewrite <- Hk, <- Hpl|done|done].
    + simpl. rewrite length_app. simpl. lia.
    + simpl. rewrite length_insert. tauto.
    + intros j Hj. by apply Hr, Hsub.
    + exists (i :: done). cbn [b_committer save b_table b_done b_pc b_prepared]. rewrite (unflushed_id _ (cm_committed _ _ _ Hsv')). split_and!; [done| | |].
      * intros j [->|Hj]%elem_of_cons; apply elem_of_app; [right; by apply list_elem_of_singleton|left; by apply Hds].
      * intros _. rewrite (Hall Hrun). simpl. by rewrite Permutation_cons_append.
      * intros j [->|Hj]%elem_of_cons; simpl.
        -- rewrite list_lookup_insert_eq; [done|]. destruct Hl as [H1 H2]. rewrite H2, <- H1. by eapply lookup_lt_Some.
        -- rewrite list_lookup_insert_ne by (intros ->; done). by apply Hcalls.
    + simpl. by rewrite running_not_ending.
  - intros [= <-]. split; try done; simpl.
    + exists k. split_and!; [by rewrite <- Hk, <- Hpl|done|]. specialize (Hfail err). by destruct (fail err).
    + rewrite length_app. simpl. lia.
    + intros j Hj. by apply Hr, Hsub.
    + exists done. split_and!; [done|intros j Hj; apply elem_of_app; left; by apply Hds| |done]. specialize (Hfail err). by destruct (fail err).
    + by rewrite Hfail.
    + intros r0 Hr0. by destruct (Hfail' err r0).
Qed.

(** ** Handing on a call *)
Lemma binv_prepared hid b i : binv hid b → (i < n)%nat → ∃ call, b_prepared b !! i = Some call.
Proof. intros Hb Hi. apply lookup_lt_is_Some. destruct (bi_prepared _ _ Hb) as [-> _]. done. Qed.
Lemma binv_at hid b i : binv hid b → at_call n i (b_pc b) → running_pc (b_pc b) → b_pc b ≠ Drain → places b ≡ₚ seq 0 i ∧ (i < n)%nat.
Proof.
  intros Hb Ha Hr Hd. destruct (bi_places _ _ Hb) as (k & Hk & _ & Hat). destruct (b_pc b); simpl in *; try done;
    destruct Ha as [-> ?]; destruct Hat as [-> _]; done.
Qed.
Lemma at_next i : (i < n)%nat → at_call n (S i) (if (S i <? n)%nat then Top (S i) else Drain).
Proof. intros Hi. destruct (Nat.ltb_spec (S i) n); simpl; [done|lia]. Qed.
Lemma running_next i : running_pc (if (S i <? n)%nat then Top (S i) else Drain).
Proof. by destruct (S i <? n)%nat. Qed.
Lemma not_handed hid b i j w : binv hid b → b_pc b = Await i w → j ∈ places b → j ≠ i.
Proof.
  intros Hb Hpc Hj ->. destruct (binv_at hid b i Hb) as [Hp Hi].
  - rewrite Hpc. simpl. destruct (bi_places _ _ Hb) as (k & _ & _ & Hat). rewrite Hpc in Hat. by destruct Hat as [-> ?].
  - by rewrite Hpc.
  - by rewrite Hpc.
  - rewrite Hp in Hj. apply elem_of_seq in Hj. lia.
Qed.
Lemma await_lt hid b i w : binv hid b → b_pc b = Await i w → places b ≡ₚ seq 0 i ∧ (i < n)%nat.
Proof.
  intros Hb Hpc. destruct (bi_places _ _ Hb) as (k & Hk & _ & Hat). rewrite Hpc in Hat. destruct Hat as [-> Hi]. done.
Qed.
(** A result of the call at hand goes into the channel. *)
Lemma post_ok hid b i w r call : binv hid b → b_pc b = Await i w → b_prepared b !! i = Some call → answers_call call r →
  binv hid (next_call requested (post b i r) i).
Proof.
  intros Hb Hpc Hcall Hans. destruct (await_lt _ _ _ _ Hb Hpc) as [Hp Hi]. eapply binv_move; [exact Hb|done..| | | | |].
  - exists (S i). split_and!; [|lia|by apply at_next]. rewrite seq_S, <- Hp. unfold places. simpl. solve_Permutation.
  - simpl. intros j [Hj|Hj]%elem_of_app; [|apply list_elem_of_singleton in Hj as ->].
    + assert (j ≠ i) as Hne by (eapply not_handed; [done..|]; unfold places; rewrite !elem_of_app; auto).
      rewrite lookup_insert_ne by done. by apply (bi_results _ _ Hb).
    + exists r, call. by rewrite lookup_insert_eq.
  - by rewrite Hpc.
  - right. rewrite Hpc. split; [done|]. by rewrite running_not_ending by apply running_next.
  - intros r0 Hr0. simpl in Hr0. by destruct (S i <? n)%nat.
Qed.
Lemma set_prepared_ok hid b i w w' call : binv hid b → b_pc b = Await i w → binv hid (go (set_prepared b i call) (Await i w')).
Proof.
  intros Hb Hpc. destruct (await_lt _ _ _ _ Hb Hpc) as [Hp Hi].
  assert (∀ j, j ∈ places b → <[i := call]> (b_prepared b) !! j = b_prepared b !! j) as Hsame.
  { intros j Hj. rewrite list_lookup_insert_ne; [done|]. apply not_eq_sym. by eapply not_handed. }
  eapply binv_move; [exact Hb|done..| | | | | | |].
  - simpl. by rewrite length_insert.
  - intros j Hj. apply Hsame. unfold places. rewrite elem_of_app. auto.
  - exists i. split_and!; [done|lia|done].
  - simpl. intros j Hj. rewrite Hsame by (unfold places; rewrite !elem_of_app; auto). by apply (bi_results _ _ Hb).
  - by rewrite Hpc.
  - right. by rewrite Hpc.
  - done.
Qed.
(** Moving on without a result. *)
Lemma go_ok hid b b' p k : binv hid b → b_pc b' = p → b_table b' = b_table b → b_committer b' = b_committer b → b_done b' = b_done b →
  b_completed b' = b_completed b → b_prepared b' = b_prepared b → b_ready b' = b_ready b → b_results b' = b_results b →
  running_pc (b_pc b) → places b' ≡ₚ seq 0 k → (k ≤ n)%nat → at_call n k p →
  match ending p with Some r => succeeded r = false ∧ ∀ r', p ≠ Returned r' | None => True end → binv hid b'.
Proof.
  intros Hb <- Ht Hc Hd Hcp Hpr Hre Hrs Hrun Hpl Hk Hat He. eapply binv_move; [exact Hb|try done..].
  - by rewrite Hpr.
  - by rewrite Hpr.
  - by exists k.
  - intros j. rewrite Hre, Hrs, Hpr. apply (bi_results _ _ Hb).
  - right. split; [done|]. destruct (ending (b_pc b')); [apply He|done].
  - intros r Hr. rewrite Hr in He. simpl in He. by destruct (proj2 He r).
Qed.

(** ** Every step keeps the invariant *)
Lemma executionError_answers call err : answers_call call (executionError call err).
Proof. done. Qed.
Lemma run_worker_answers call o : answers_call call (run_worker call o).
Proof.
  unfold run_worker, executePrepared. destruct (to_before o); [by destruct (to_after o)|]. destruct (to_matches o); simpl; [|by destruct (to_after o)].
  by destruct (to_after o), (to_error o).
Qed.
Lemma refused_answers a q err : let r := (confirm_request permission a q).1.2 in
  Allowed r = false → Stopped r = false → answers_call (q_call q) (refused_result (q_call q) r err).
Proof.
  intros r Ha Hs. destruct (confirm_answers permission a q Ha) as [?|(Hr & _ & Hi)]; [fold r in H0; congruence|].
  unfold refused_result. fold r. by destruct (lm_Segments (cr_Message r)).
Qed.
Lemma work_places b i r : NoDup (places b) → i ∈ b_running b →
  places (post (set_running b (filter (λ j, j ≠ i) (b_running b))) i r) ≡ₚ places b.
Proof.
  intros Hnd Hi. unfold places in *. simpl. rewrite !NoDup_app in Hnd. destruct Hnd as (_ & _ & _ & _ & Hnd).
  apply list_elem_of_split in Hi as (l1 & l2 & Hl). rewrite Hl in *.
  assert (filter (λ j, j ≠ i) (l1 ++ i :: l2) = l1 ++ l2) as ->.
  { rewrite filter_app, filter_cons_False by (by intros []). apply NoDup_app in Hnd as (_ & Hl1 & [Hl2 _]%NoDup_cons).
    f_equal; apply filter_all, Forall_forall; intros j Hj; [intros ->; apply (Hl1 i Hj); by left|by intros ->]. }
  solve_Permutation.
Qed.
Lemma places_nodup hid b : binv hid b → NoDup (places b).
Proof. intros Hb. destruct (bi_places _ _ Hb) as (k & -> & _). apply NoDup_seq. Qed.

(** Leaving with an error, and moving to another stage of the same call. *)
Lemma leave_ok hid b r : binv hid b → running_pc (b_pc b) → succeeded r = false → binv hid (leave b r).
Proof.
  intros Hb Hr Hs. destruct (bi_places _ _ Hb) as (k & Hk & Hkn & _).
  by eapply (go_ok hid b _ _ k); [exact Hb|reflexivity|..].
Qed.
Lemma abandon_ok hid b r : binv hid b → running_pc (b_pc b) → succeeded r = false → binv hid (go b (Abandon r)).
Proof.
  intros Hb Hr Hs. destruct (bi_places _ _ Hb) as (k & Hk & Hkn & _).
  by eapply (go_ok hid b _ _ k); [exact Hb|reflexivity|..].
Qed.
Lemma stage_ok hid b i w : binv hid b → running_pc (b_pc b) → at_call n i (b_pc b) → b_pc b ≠ Drain → binv hid (go b (Await i w)).
Proof.
  intros Hb Hr Ha Hd. destruct (binv_at hid b i Hb Ha Hr Hd) as [Hp Hi].
  eapply (go_ok hid b _ _ i); [exact Hb|reflexivity|..]; try done. lia.
Qed.
Lemma cancel_ok hid b : binv hid b → binv hid (cancel b).
Proof. intros []. by split. Qed.
Lemma confirmed_ok hid b a extra e : binv hid b → binv hid (confirmed b a extra e).
Proof. intros []. by split. Qed.
Lemma batch_start_ok hid b i w : binv hid b → b_pc b = Await i w → binv hid (next_call requested (start_worker b i) i).
Proof.
  intros Hb Hpc. destruct (await_lt _ _ _ _ Hb Hpc) as [Hp Hi].
  eapply (go_ok hid b _ _ (S i)); [exact Hb|reflexivity|done..|by rewrite Hpc| |lia|by apply at_next|].
  - rewrite seq_S, <- Hp. unfold places. simpl. solve_Permutation.
  - by rewrite running_not_ending by apply running_next.
Qed.
Lemma confirm_step_ok hid b i tool risk env role shell start media b' : binv hid b → b_pc b = Await i (WConfirm tool risk) →
  confirm_step permission session requested b i tool risk env role shell start media = Some b' → binv hid b'.
Proof.
  intros Hb Hpc. unfold confirm_step. destruct (b_prepared b !! i) as [call|] eqn:Hcall; [|done].
  set (q := {| q_env := env |}). pose proof (refused_answers (b_auto b) q) as Hans.
  destruct (confirm_request permission (b_auto b) q) as [[a r] err] eqn:Hcr. cbn [fst snd] in Hans.
  set (b1 := confirmed _ _ _ _). assert (binv hid b1) as Hb1 by (by apply confirmed_ok).
  assert (running_pc (b_pc b1)) as Hrun by (unfold b1; simpl; by rewrite Hpc).
  destruct (Stopped r) eqn:Hs; [|destruct (Allowed r) eqn:Ha; cbn [negb]].
  - intros [= <-]. by apply leave_ok.
  - destruct start as [e|]; [|destruct media as [e|]]; intros [= <-].
    + by apply leave_ok.
    + eapply post_ok; [done|exact Hpc|exact Hcall|done].
    + by eapply batch_start_ok.
  - intros [= <-]. eapply post_ok; [done|exact Hpc|exact Hcall|]. by apply (Hans err).
Qed.
Lemma flush_ok hid b c : binv hid b → b_pc b = Drain → ¬ (b_completed b < Z.of_nat n) → Flush (b_committer b) = Ok c →
  binv hid (leave (save b (b_table b) c (b_shown b)) {| rr_Err := None; rr_Extra := b_extra b; rr_Stopped := false |}).
Proof.
  intros Hb Hpc Hc Hfl. pose proof Hb as [(k & Hk & Hkn & Hat) Hcp [Hl1 Hl2] Hres (done & Hsv & Hds & Hall & Hcalls) Hh Hf Hret].
  rewrite Hpc in Hf, Hat, Hall. simpl in Hat. subst k. rewrite (unflushed_id _ Hf) in Hsv.
  assert (length (b_done b) = n) as Hdn.
  { rewrite Hcp in Hc. apply Permutation_length in Hk. rewrite length_seq in Hk. unfold places in Hk. rewrite length_app in Hk. lia. }
  assert (b_done b ≡ₚ seq 0 n) as Hdp.
  { apply Permutation_length in Hk as Hlen. rewrite length_seq in Hlen. unfold places in Hlen, Hk. rewrite length_app in Hlen.
    destruct (b_ready b ++ b_running b) eqn:He; [by rewrite app_nil_r in Hk|simpl in Hlen; lia]. }
  specialize (Hall I). assert (calls (b_committer b) = b_prepared b) as Hcs.
  { apply list_eq_same_length with n; [done|done|]. intros j x y Hj Hx Hy. rewrite Hcalls in Hx by (rewrite Hall, Hdp; apply elem_of_seq; lia).
    congruence. }
  pose proof (cm_remaining _ _ _ Hsv) as Hrem. assert (remaining (b_committer b) = 0) as Hr0.
  { rewrite Hrem, Hl2. apply Permutation_length in Hall. lia. }
  destruct (Flush_ok _ _ _ Hsv Hr0) as (c' & Hfl' & Hre & Ht). rewrite Hfl in Hfl'. injection Hfl' as <-.
  assert (unflushed c = b_committer b) as Hu.
  { unfold Flush in Hfl. rewrite Hr0 in Hfl. simpl negb in Hfl. cbn iota in Hfl. apply res_bind_ok in Hfl as (ms & _ & [= <-]).
    unfold unflushed. simpl. destruct (b_committer b) as [? ? ? ? ?]. simpl in Hf, Hr0. by rewrite <- Hf, <- Hr0. }
  assert (calls c = calls (b_committer b) ∧ head c = head (b_committer b)) as [Hcc Hhc] by (by rewrite <- Hu).
  split; cbn [leave go save cancel b_table b_committer b_prepared b_completed b_done b_ready b_results b_running b_pc ending running_pc].
  - exists n. done.
  - done.
  - by rewrite Hcc.
  - done.
  - exists done. rewrite Hu. split_and!; [done|done|done|]. by rewrite Hcc.
  - by rewrite Hhc.
  - intros _. rewrite Hcc, <- Hh. split_and!; [done|done|done|]. by rewrite <- Hcs.
  - done.
Qed.

Lemma step_ok hid b e b' : binv hid b → step b e = Some b' → binv hid b'.
Proof.
  intros Hb. destruct e as [|ev|refresh|call err tool|risk|env role shell start media|env| | |i o| |]; simpl.
  - intros [= <-]. by apply cancel_ok.
  - intros [= <-]. by apply confirmed_ok.
  - destruct (b_pc b) as [i| | | | |] eqn:Hpc; try done.
    destruct (b_ctx b); [|destruct refresh]; intros [= <-]; [by apply leave_ok; rewrite ?Hpc..|].
    apply stage_ok; rewrite ?Hpc; try done. destruct (bi_places _ _ Hb) as (k & _ & _ & Hat). rewrite Hpc in Hat. by destruct Hat as [-> ?].
  - destruct (b_pc b) as [|i [| |]| | | |] eqn:Hpc; try done. destruct err as [err|]; [intros [= <-]; by apply leave_ok; rewrite ?Hpc|].
    destruct (await_lt _ _ _ _ Hb Hpc) as [_ Hi]. pose proof (set_prepared_ok _ _ _ _ WPrepare call Hb Hpc) as Hb1.
    assert (<[i := call]> (b_prepared b) !! i = Some call) as Hc.
    { apply list_lookup_insert_eq. destruct (bi_prepared _ _ Hb) as [-> _]. done. }
    destruct tool as [err|tool]; intros [= <-].
    + exact (post_ok _ _ _ _ (executionError call err) call Hb1 eq_refl Hc (executionError_answers call err)).
    + exact (set_prepared_ok _ _ _ _ (WPrepareCall tool) call Hb Hpc).
  - destruct risk as [err|risk], (b_pc b) as [|i [|tool|]| | | |] eqn:Hpc; try done.
    + destruct (b_prepared b !! i) as [call|] eqn:Hc; [|done]. intros [= <-]. by eapply post_ok.
    + intros [= <-]. destruct (await_lt _ _ _ _ Hb Hpc). by apply stage_ok; rewrite ?Hpc.
  - destruct (b_pc b) as [|i [| |tool risk]| | | |] eqn:Hpc; try done. by eapply confirm_step_ok.
  - destruct (b_pc b) eqn:Hpc; try done; [|case_match; [|done]]; (eapply batch_take_ok; [done|by rewrite Hpc|done|done]).
  - destruct (b_pc b) eqn:Hpc; try done; (case_match; [|done]); intros [= <-]; [by apply abandon_ok; rewrite ?Hpc|by apply leave_ok; rewrite ?Hpc].
  - destruct (b_pc b) as [| |r| | |] eqn:Hpc; try done. intros [= <-]. destruct (bi_places _ _ Hb) as (k & Hk & Hkn & _).
    eapply binv_move; [exact Hb|done..| | | | |].
    + by exists k.
    + apply (bi_results _ _ Hb).
    + by rewrite Hpc.
    + left. by rewrite Hpc.
    + done.
  - destruct (_ && _) eqn:Hg; [|done]. apply andb_true_iff in Hg as [Hi%bool_decide_eq_true _].
    destruct (b_prepared b !! i) as [call|] eqn:Hcall; [|done]. intros [= <-].
    pose proof (work_places b i (run_worker call o) (places_nodup _ _ Hb) Hi) as Hpl. destruct (bi_places _ _ Hb) as (k & Hk & Hkn & Hat).
    eapply binv_move; [exact Hb|done..| | | | |].
    + exists k. by rewrite Hpl.
    + simpl. intros j [Hj|Hj]%elem_of_app; [|apply list_elem_of_singleton in Hj as ->].
      * destruct (decide (i = j)) as [->|Hne]; [exists (run_worker call o), call; rewrite lookup_insert_eq; auto using run_worker_answers|].
        rewrite lookup_insert_ne by done. by apply (bi_results _ _ Hb).
      * exists (run_worker call o), call. rewrite lookup_insert_eq. auto using run_worker_answers.
    + done.
    + by left.
    + simpl. intros r Hr. by rewrite (bi_returned _ _ Hb r Hr).
  - destruct (b_pc b) eqn:Hpc; try done. destruct (Z.ltb_spec (b_completed b) (Z.of_nat n)) as [|Hc]; [done|].
    destruct (Flush _) as [c|err|] eqn:Hf; [| |done]; intros [= <-].
    + eapply flush_ok; [done|done|lia|done].
    + by apply leave_ok; rewrite ?Hpc.
  - destruct (b_pc b) as [| | | |r|] eqn:Hpc; try done. case_bool_decide as Hrun; [|done]. intros [= <-].
    destruct (bi_places _ _ Hb) as (k & Hk & Hkn & _). eapply binv_move; [exact Hb|done..| | | | |].
    + by exists k.
    + apply (bi_results _ _ Hb).
    + done.
    + left. by rewrite Hpc.
    + intros _ _. simpl. by apply nil_length_inv.
Qed.
End Batch.

(** * The runs of a batch of tool calls

    What holds in every state a batch reaches and when it returns, how many
    steps it takes, and which workers it starts. *)
(** ** What the world answers, apart from which event comes next *)
Record world := {
  w_refresh : option gostring; w_call : ToolCallRequest; w_prepare : option gostring; w_tool : toolError + resolved;
  w_risk : toolError + gostring; w_confirm : confirm_env; w_role : gostring; w_shell : bool; w_start : option gostring;
  w_media : option toolError; w_complete : complete_env; w_outcome : tool_outcome
}.
(** The hooks and the archive return. *)
Definition world_ok (w : world) : Prop :=
  (∀ s, x_hook (w_complete w) s ≠ Panic) ∧ (∀ s, dw_archive (x_commit (w_complete w)) s ≠ Panic).
Inductive kind := KTop | KPrepared | KPrepareCall | KConfirm | KTake | KAbandoned | KWork (i : nat) | KFlush | KJoined.
Definition event_of (k : kind) (w : world) : run_event :=
  match k with
  | KTop => ETop (w_refresh w)
  | KPrepared => EPrepared (w_call w) (w_prepare w) (w_tool w)
  | KPrepareCall => EPrepareCall (w_risk w)
  | KConfirm => EConfirm (w_confirm w) (w_role w) (w_shell w) (w_start w) (w_media w)
  | KTake => ETake (w_complete w)
  | KAbandoned => EAbandoned
  | KWork i => EWork i (w_outcome w)
  | KFlush => EFlush
  | KJoined => EJoined
  end.
(** Not an event from outside the batch. *)
Definition own (e : run_event) : bool := match e with ECancel | EElsewhere _ => false | _ => true end.
Abbreviation is_own := (λ e : run_event, own e = true).

Section Runs.
Context `{UnicodeTables} (url_parse : gostring → option (gostring * gostring)) (RuleCard : gostring).
Context (permission : Permission) (session : gostring) (requested : list ToolCallRequest).
Local Abbreviation step := (run_step url_parse RuleCard permission session requested).
Local Abbreviation run := (run_batch url_parse RuleCard permission session requested).
Local Abbreviation n := (length requested).

(** A batch whose rows [Begin] has just stored, with what the session has confirmed by then. *)
Definition starts (head_id : gostring) (b : batch) : Prop :=
  ∃ new_id t env n content raw n' t1 c1 events shown,
    Begin url_parse new_id t env n (ToolCallStorageMessage session content raw requested) = Ok (n', t1, c1)
    ∧ head_id = sm_ID (head c1)
    ∧ b = begin_batch requested t1 c1 (foldl (after permission) nothing_confirmed events) events shown.

Lemma starts_ok hid b : starts hid b → binv requested hid b.
Proof.
  intros (new_id & t & env & m & content & raw & n' & t1 & c1 & events & shown & Hb & -> & ->).
  destruct (Begin_ok url_parse new_id t env m (ToolCallStorageMessage session content raw requested) n' t1 c1 _ eq_refl Hb) as (Hc & Hcs & _).
  assert (calls c1 = requested) as Hcs1 by (rewrite Hcs; by destruct requested). pose proof (cm_committed _ _ _ Hc) as Hcm.
  split; cbn [begin_batch b_committer b_completed b_done b_prepared b_ready b_table b_pc].
  - exists 0%nat. split; [done|]. split; [lia|]. destruct (Nat.ltb_spec 0 n); simpl; lia.
  - done.
  - by rewrite Hcs1.
  - intros i Hi. by apply elem_of_nil in Hi.
  - exists []. rewrite unflushed_id by done. split; [done|]. split; [done|]. split; [done|]. intros i Hi. by apply elem_of_nil in Hi.
  - done.
  - by destruct (0 <? n)%nat.
  - by destruct (0 <? n)%nat.
Qed.
Lemma run_ok hid es : ∀ b b', binv requested hid b → run b es = Some b' → binv requested hid b'.
Proof.
  induction es as [|e es IH]; intros b b' Hb; simpl; [by intros [= <-]|].
  destruct (step b e) as [b1|] eqn:He; [|done]. apply IH. by eapply step_ok.
Qed.

(** ** Every state can be read back *)
Lemma binv_reloads hid b : binv requested hid b → ∃ messages,
  reload (b_table b) hid = Ok messages ∧ transcript (calls (b_committer b)) messages.
Proof.
  intros [_ _ _ _ (done & Hc & _) <- _ _]. destruct (committing_reloads _ _ _ Hc) as (ms & _ & Hre & Ht). by exists ms.
Qed.

(** C6: In every state a batch of tool calls reaches, whatever its hooks, tools,
    confirmations, workers and the database do, the stored rows read back as a
    whole transcript: the assistant message, then one answer to each of its
    calls in order. When it has returned no worker is left running, and when it
    returns without an error and without being stopped every call has been
    answered exactly once, with the arguments its hook prepared, and what a
    later request reads is what the batch handed on. *)
Theorem batch_answers_every_call hid b es b' : starts hid b → run b es = Some b' →
  (∃ messages, reload (b_table b') hid = Ok messages ∧ transcript (calls (b_committer b')) messages)
  ∧ ∀ r, b_pc b' = Returned r → b_running b' = []
      ∧ (succeeded r = true → b_done b' ≡ₚ seq 0 n ∧ calls (b_committer b') = b_prepared b'
           ∧ reload (b_table b') hid = Ok (committed (b_committer b')) ∧ transcript (b_prepared b') (committed (b_committer b'))).
Proof.
  intros Hs%starts_ok Hr. pose proof (run_ok _ _ _ _ Hs Hr) as Hb. split; [by apply binv_reloads|].
  intros r Hp. split; [by eapply bi_returned|]. intros Hok. pose proof (bi_flushed _ _ _ Hb) as Hf. rewrite Hp in Hf. by apply Hf.
Qed.

(** ** Termination *)
Definition stage (w : waiting) : nat := match w with WPrepare => 2 | WPrepareCall _ => 1 | WConfirm _ _ => 0 end.
Definition weight (p : pc) : nat :=
  match p with
  | Top i => 4 * (n - i) + 3
  | Await i w => 4 * (n - i) + stage w
  | Drain => 3
  | Abandon _ => 2
  | Joining _ => 1
  | Returned _ => 0
  end.
Definition measure (b : batch) : nat := 3 * weight (b_pc b) + 2 * length (b_running b) + length (b_ready b).

Lemma weight_next b i : (i < n)%nat → (weight (b_pc (next_call requested b i)) < 4 * (n - i))%nat.
Proof. intros Hi. simpl. destruct (Nat.ltb_spec (S i) n); simpl; lia. Qed.
Lemma work_length b i (r : executionResult) : NoDup (places b) → i ∈ b_running b →
  length (b_running b) = S (length (filter (λ j, j ≠ i) (b_running b))).
Proof. intros Hnd Hi. pose proof (Permutation_length (work_places b i r Hnd Hi)) as Hl. unfold places in Hl. simpl in Hl. rewrite !length_app in Hl. simpl in Hl. lia. Qed.
Lemma complete_keeps b env i b' : complete url_parse RuleCard session b env i = Ok b' →
  b_pc b' = b_pc b ∧ b_running b' = b_running b ∧ b_ready b' = b_ready b.
Proof. intros (? & ? & ? & ? & ? & ? & ? & _ & _ & _ & _ & ->)%complete_ok. done. Qed.
Lemma take_measure b env fail b' : (∀ err, weight (fail err) ≤ weight (b_pc b))%nat →
  take_step url_parse RuleCard session b env fail = Some b' → (measure b' < measure b)%nat.
Proof.
  intros Hw. unfold take_step. destruct (b_ready b) as [|i ready] eqn:Hr; [done|].
  destruct (complete _ _ _ _ _ _) as [b2|err|] eqn:Hc; [| |done]; intros [= <-]; unfold measure.
  - apply complete_keeps in Hc as (-> & -> & ->). rewrite Hr. simpl. lia.
  - specialize (Hw err). simpl. rewrite Hr. simpl. lia.
Qed.
Lemma confirm_measure hid b i tool risk env role shell start media b' : binv requested hid b → b_pc b = Await i (WConfirm tool risk) →
  confirm_step permission session requested b i tool risk env role shell start media = Some b' → (measure b' < measure b)%nat.
Proof.
  intros Hb Hpc. destruct (await_lt _ _ _ _ _ Hb Hpc) as [_ Hi]. unfold confirm_step. destruct (b_prepared b !! i) as [call|]; [|done].
  destruct (confirm_request _ _ _) as [[a r] err]. pose proof (weight_next b i Hi) as Hw. simpl in Hw. unfold measure. rewrite Hpc.
  destruct (Stopped r); [|destruct (Allowed r); [destruct start; [|destruct media]|]]; intros [= <-];
    cbn [leave next_call go cancel confirmed post start_worker b_pc b_running b_ready weight stage]; rewrite ?length_app; cbn [length]; lia.
Qed.
Lemma top_lt hid b i : binv requested hid b → b_pc b = Top i → (i < n)%nat.
Proof. intros Hb Hpc. destruct (bi_places _ _ _ Hb) as (k & _ & _ & Hat). rewrite Hpc in Hat. apply Hat. Qed.
(** The measure of the states a step leads to, in terms of the one it leaves. *)
Local Ltac by_weight Hpc := unfold measure; rewrite ?Hpc;
  cbn [leave next_call go cancel set_prepared post b_pc b_running b_ready weight stage]; rewrite ?length_app; cbn [length]; lia.
Lemma step_measure hid b e b' : binv requested hid b → step b e = Some b' → own e = true → (measure b' < measure b)%nat.
Proof.
  intros Hb. destruct e as [|ev|refresh|call err tool|risk|env role shell start media|env| | |i o| |]; simpl; [done|done|..]; intros He _.
  - destruct (b_pc b) as [i| | | | |] eqn:Hpc; try done. pose proof (top_lt _ _ _ Hb Hpc) as Hi.
    destruct (b_ctx b); [|destruct refresh]; injection He as <-; by_weight Hpc.
  - destruct (b_pc b) as [|i [| |]| | | |] eqn:Hpc; try done. destruct (await_lt _ _ _ _ _ Hb Hpc) as [_ Hi]. pose proof (weight_next b i Hi) as Hw. simpl in Hw.
    destruct err as [err|]; [|destruct tool]; injection He as <-; by_weight Hpc.
  - destruct risk, (b_pc b) as [|i [|tool|]| | | |] eqn:Hpc; try done; destruct (await_lt _ _ _ _ _ Hb Hpc) as [_ Hi];
      pose proof (weight_next b i Hi) as Hw; simpl in Hw; [destruct (b_prepared b !! i); [|done]|]; injection He as <-; by_weight Hpc.
  - destruct (b_pc b) as [|i [| |tool risk]| | | |] eqn:Hpc; try done. by eapply confirm_measure.
  - destruct (b_pc b) as [|i w| | | |] eqn:Hpc; try done; [|destruct (b_completed b <? _); [|done]].
    + destruct (await_lt _ _ _ _ _ Hb Hpc) as [_ Hi]. eapply take_measure; [|done]. intros err. rewrite Hpc. simpl. lia.
    + eapply take_measure; [|done]. intros err. rewrite Hpc. simpl. lia.
  - destruct (b_pc b) as [|i w| | | |] eqn:Hpc; try done; (destruct (b_ctx b); simpl in He; [|done]).
    + destruct (await_lt _ _ _ _ _ Hb Hpc) as [_ Hi]. injection He as <-. by_weight Hpc.
    + destruct (b_completed b <? _); [|done]. injection He as <-. by_weight Hpc.
  - destruct (b_pc b) as [| |r| | |] eqn:Hpc; try done. injection He as <-. by_weight Hpc.
  - destruct (_ && _) eqn:Hg; [|done]. apply andb_true_iff in Hg as [Hi%bool_decide_eq_true _].
    destruct (b_prepared b !! i) as [call|]; [|done]. injection He as <-.
    pose proof (work_length b i (run_worker call o) (places_nodup _ _ _ Hb) Hi) as Hl. unfold measure. cbn [post set_running b_pc b_running b_ready].
    rewrite length_app. cbn [length]. lia.
  - destruct (b_pc b) eqn:Hpc; try done. destruct (b_completed b <? _); [done|].
    destruct (Flush _); [| |done]; injection He as <-; unfold measure; rewrite Hpc; simpl; lia.
  - destruct (b_pc b) as [| | | |r|] eqn:Hpc; try done. case_bool_decide; [|done]. injection He as <-. by_weight Hpc.
Qed.
Lemma run_measure hid es : ∀ b b', binv requested hid b → run b es = Some b' →
  (length (filter is_own es) + measure b' ≤ measure b)%nat.
Proof.
  induction es as [|e es IH]; intros b b' Hb; simpl; [intros [= <-]; lia|].
  destruct (step b e) as [b1|] eqn:He; [|done]. intros Hr. pose proof (step_ok url_parse RuleCard permission session requested _ _ _ _ Hb He) as Hb1.
  specialize (IH _ _ Hb1 Hr). destruct (own e) eqn:Ho.
  - rewrite filter_cons_True by done. pose proof (step_measure _ _ _ _ Hb He Ho). simpl. lia.
  - rewrite filter_cons_False by (by rewrite Ho). assert (measure b1 = measure b) as Heq; [|lia].
    destruct e; simpl in *; try done; by injection He as <-.
Qed.

(** ** Progress *)
Lemma bind_total {A B} (m : res A) (k : A → res B) : m ≠ Panic → (∀ a, m = Ok a → k a ≠ Panic) → res_bind m k ≠ Panic.
Proof. intros Hm Hk. destruct m; simpl; [by apply Hk|done|done]. Qed.
Lemma MessageFromStorage_total m : MessageFromStorage m ≠ Panic.
Proof.
  unfold MessageFromStorage. apply bind_total; [by destruct (sm_Segments m)|]. intros segments _.
  destruct (sm_Role m); try done; by destruct (sm_Metadata m).
Qed.
Lemma archive_row_total env m : (∀ s, dw_archive env s ≠ Panic) → archive_row url_parse env m ≠ Panic.
Proof.
  intros He. unfold archive_row. apply bind_total; [by destruct (sm_Metadata m)|]. intros _ _.
  destruct (sm_Segments m); [done|..]; (apply bind_total; [apply MessageFromStorage_total|]; intros p _; by apply bind_total).
Qed.
Lemma update_row_total t s call m : update_row t s call m ≠ Panic.
Proof. unfold update_row. repeat case_match; done. Qed.
Lemma Result_total t env c i call result : (∀ s, dw_archive env s ≠ Panic) → (i < length (calls c))%nat → length (results c) = length (calls c) →
  Result url_parse t env c i call result ≠ Panic.
Proof.
  intros He Hi Hl. unfold Result, result_update.
  destruct (lookup_lt_is_Some_2 (calls c) i Hi) as (old & ->). destruct (lookup_lt_is_Some_2 (results c) i ltac:(lia)) as (slot & ->).
  cbn [res_bind]. apply bind_total; [|by intros []]. unfold commit_result. cbn [tr_Call tr_Result].
  apply bind_total; [apply bind_total; [by apply archive_row_total|done]|]. intros m _. unfold database. destruct (dw_gate env); [done|].
  rewrite res_wrap_panic. destruct (dw_fails env); [done|].
  apply bind_total; [|done]. unfold commitToolResult. apply bind_total; [apply update_row_total|]. intros t1 _. simpl.
  destruct m; [apply update_row_total|done].
Qed.
Lemma complete_message_total env call r shown : (∀ s, x_hook env s ≠ Panic) → complete_message RuleCard env call r shown ≠ Panic.
Proof.
  intros Hh. unfold complete_message. apply bind_total; [by destruct (ExecutionStarted r)|]. intros segments _.
  destruct (ex_Result r); [|done]. case_bool_decide; [|done]. by destruct (x_discovery env).
Qed.
Lemma take_enabled hid b env fail : binv requested hid b → running_pc (b_pc b) → b_ready b ≠ [] →
  (∀ s, x_hook env s ≠ Panic) → (∀ s, dw_archive (x_commit env) s ≠ Panic) →
  is_Some (take_step url_parse RuleCard session b env fail).
Proof.
  intros Hb Hrun Hne Hh Ha. unfold take_step. destruct (b_ready b) as [|i ready] eqn:Hr; [done|].
  destruct (complete _ _ _ _ _ _) eqn:Hc; [done|done|]. exfalso. revert Hc.
  destruct (bi_results _ _ _ Hb i) as (r & call & Hres & Hcall & _); [rewrite Hr; by left|].
  destruct (bi_saved _ _ _ Hb) as (done & Hsv & _). pose proof (cm_len _ _ _ Hsv) as Hl. destruct (bi_prepared _ _ _ Hb) as [Hl1 Hl2].
  unfold complete. cbn [take_ready b_ctx b_results b_prepared b_shown b_table b_committer]. destruct (b_ctx b); [done|]. destruct (x_refresh env); [done|].
  rewrite Hres, Hcall. apply bind_total; [by apply complete_message_total|]. intros [m card] _.
  apply bind_total; [|by intros []]. apply Result_total; [done| |done]. apply lookup_lt_Some in Hcall. lia.
Qed.
Lemma flush_enabled hid b : binv requested hid b → b_pc b = Drain → Flush (b_committer b) ≠ Panic.
Proof.
  intros Hb Hpc. unfold Flush. destruct (negb _); [done|]. apply bind_total; [|done].
  generalize (results (b_committer b)). generalize (head (b_committer b)).
  assert (∀ l, res_map MessageFromStorage l ≠ Panic) as Ht; [|by intros h l; apply (Ht (h :: l))].
  induction l as [|m l IH]; simpl; [done|]. apply bind_total; [apply MessageFromStorage_total|]. intros p _. by apply bind_total.
Qed.
Lemma work_enabled hid b i l1 l2 o : binv requested hid b → b_running b = l1 ++ i :: l2 → is_Some (step b (EWork i o)).
Proof.
  intros Hb Hrun. destruct (bi_places _ _ _ Hb) as (k & Hk & Hkn & _). apply Permutation_length in Hk as Hl.
  unfold places in Hl. rewrite !length_app, length_seq, Hrun, length_app in Hl. simpl in Hl. simpl.
  assert (i ∈ b_running b) as Hin by (rewrite Hrun, elem_of_app; right; by left). rewrite bool_decide_eq_true_2 by done. destruct (Nat.ltb_spec (length (b_ready b)) n); [|lia]. simpl.
  destruct (binv_prepared _ _ _ i Hb) as (call & ->); [|done]. assert (i ∈ seq 0 k) as [_ Hi]%elem_of_seq; [|lia].
  rewrite <- Hk. unfold places. rewrite !elem_of_app. auto.
Qed.
Lemma step_enabled hid b : binv requested hid b → (∀ r, b_pc b ≠ Returned r) →
  ∃ k, ∀ w, world_ok w → is_Some (step b (event_of k w)).
Proof.
  intros Hb Hnr. destruct (b_pc b) as [i|i wt|r| |r|r] eqn:Hpc.
  - exists KTop. intros w _. simpl. rewrite Hpc. destruct (b_ctx b), (w_refresh w); done.
  - destruct (await_lt _ _ _ _ _ Hb Hpc) as [_ Hi]. destruct (binv_prepared _ _ _ i Hb Hi) as (call & Hcall). destruct wt as [|tool|tool risk].
    + exists KPrepared. intros w _. simpl. rewrite Hpc. by destruct (w_prepare w), (w_tool w).
    + exists KPrepareCall. intros w _. simpl. rewrite Hpc. destruct (w_risk w); [by rewrite Hcall|done].
    + exists KConfirm. intros w _. simpl. rewrite Hpc. unfold confirm_step. rewrite Hcall.
      destruct (confirm_request _ _ _) as [[a r] err]. destruct (Stopped r); [done|]. destruct (Allowed r); [|done].
      by destruct (w_start w), (w_media w).
  - exists KAbandoned. intros w _. simpl. by rewrite Hpc.
  - destruct (Z.ltb_spec (b_completed b) (Z.of_nat n)) as [Hlt|Hge].
    + destruct (b_ready b) as [|i ready] eqn:Hr.
      * destruct (bi_places _ _ _ Hb) as (k & Hk & _ & Hat). rewrite Hpc in Hat. simpl in Hat. subst k. apply Permutation_length in Hk as Hl.
        unfold places in Hl. rewrite Hr, length_app, length_seq in Hl. simpl in Hl. rewrite (bi_completed _ _ _ Hb) in Hlt.
        destruct (b_running b) as [|i running] eqn:Hrun; [simpl in Hl; lia|]. exists (KWork i). intros w _. by eapply (work_enabled _ _ _ []).
      * exists KTake. intros w [Hh Ha]. simpl. rewrite Hpc. destruct (Z.ltb_spec (b_completed b) (Z.of_nat n)); [|lia].
        eapply take_enabled; [done|by rewrite Hpc|by rewrite Hr|done|done].
    + exists KFlush. intros w _. simpl. rewrite Hpc. destruct (Z.ltb_spec (b_completed b) (Z.of_nat n)); [lia|].
      pose proof (flush_enabled _ _ Hb Hpc) as Hf. by destruct (Flush _).
  - destruct (b_running b) as [|i running] eqn:Hrun.
    + exists KJoined. intros w _. simpl. by rewrite Hpc, Hrun.
    + exists (KWork i). intros w _. by eapply (work_enabled _ _ _ []).
  - by destruct (Hnr r).
Qed.

Definition returned (b : batch) : Prop := ∃ r, b_pc b = Returned r.
Lemma driven w hid : world_ok w → ∀ m b, (measure b ≤ m)%nat → binv requested hid b → ∃ es b', run b es = Some b' ∧ returned b'.
Proof.
  intros Hw. induction m as [m IH] using lt_wf_ind. intros b Hm Hb. destruct (b_pc b) as [| | | | |r] eqn:Hpc.
  6: by exists [], b; split; [|exists r].
  all: (destruct (step_enabled hid b Hb) as (k & Hk); [by rewrite Hpc|]); destruct (Hk w Hw) as (b1 & Hb1);
    assert (measure b1 < measure b)%nat as Hlt by (by eapply step_measure; [| |destruct k]);
    destruct (IH (measure b1) ltac:(lia) b1 (Nat.le_refl _)) as (es & b' & Hes & Hret); [by eapply step_ok|];
    exists (event_of k w :: es), b'; split; [simpl; by rewrite Hb1|done].
Qed.

(** C7: A batch of [n] calls takes at most [12 n + 9] steps of its own, whatever
    happens around it. Until it returns one of its steps is always possible,
    whatever the hooks, tools, confirmations and the database answer; a worker
    never waits for room in the channel of results. From every state it reaches
    it can be driven to its return. *)
Theorem batch_returns hid b es b' : starts hid b → run b es = Some b' →
  (length (filter is_own es) ≤ 12 * n + 9)%nat
  ∧ (returned b' ∨ ∃ k, ∀ w, world_ok w → is_Some (step b' (event_of k w)))
  ∧ (∀ i o, i ∈ b_running b' → is_Some (step b' (EWork i o)))
  ∧ ∀ w, world_ok w → ∃ es' b'', run b' es' = Some b'' ∧ returned b''.
Proof.
  intros Hs Hr. pose proof (starts_ok _ _ Hs) as Hb. pose proof (run_ok _ _ _ _ Hb Hr) as Hb'. split_and!.
  - pose proof (run_measure _ _ _ _ Hb Hr) as Hl. destruct Hs as (? & ? & ? & ? & ? & ? & ? & ? & ? & ? & ? & _ & _ & ->).
    unfold measure in Hl at 2. simpl in Hl. destruct (Nat.ltb_spec 0 n); simpl in Hl; lia.
  - destruct (b_pc b') as [| | | | |r] eqn:Hpc; [right; apply (step_enabled hid); [done|by rewrite Hpc]..|left; by exists r].
  - intros i o Hi. apply list_elem_of_split in Hi as (l1 & l2 & Hl). by eapply work_enabled.
  - intros w Hw. by eapply (driven w hid Hw).
Qed.

(** ** What is executed is permitted *)
(** A confirmation of the call, as it is executed, has let it through. *)
Definition let_through (b : batch) (i : nat) : Prop :=
  ∃ q before later, b_prepared b !! i = Some (q_call q) ∧ q_session q = session ∧ b_events b = before ++ Confirm q :: later
    ∧ permitted permission before q.
(** The tool of a call is running, or has run. *)
Definition executing (b : batch) (i : nat) : Prop :=
  i ∈ b_running b ∨ ∃ r, b_results b !! i = Some r ∧ ExecutionStarted r = true.
Record sinv (b : batch) : Prop := {
  si_auto : b_auto b = foldl (after permission) nothing_confirmed (b_events b);
  si_executing : ∀ i, executing b i → i ∈ places b ∧ let_through b i
}.
Lemma sinv_move b b' : sinv b → b_auto b' = foldl (after permission) nothing_confirmed (b_events b') →
  (∃ l, b_events b' = b_events b ++ l) → (∀ i, i ∈ places b → b_prepared b' !! i = b_prepared b !! i ∧ i ∈ places b') →
  (∀ i, executing b' i → executing b i ∨ i ∈ places b' ∧ let_through b' i) → sinv b'.
Proof.
  intros [Ha Hx] Ha' [l Hl] Hp Hx'. split; [done|]. intros i [Hi|]%Hx'; [|done].
  destruct (Hx i Hi) as (Hpl & q & before & later & Hq & Hs & He & Hperm). destruct (Hp i Hpl) as [Hsame Hin]. split; [done|].
  exists q, before, (later ++ l). rewrite Hsame, Hl, He, <- app_assoc. done.
Qed.
(** A step that neither confirms nor executes. *)
Lemma sinv_same b b' : sinv b → b_auto b' = b_auto b → b_events b' = b_events b → b_prepared b' = b_prepared b →
  places b ≡ₚ places b' → b_running b' = b_running b → b_results b' = b_results b → sinv b'.
Proof.
  intros Hs Ha He Hp Hpl Hr Hrs. eapply sinv_move; [done| | | |].
  - rewrite Ha, He. apply (si_auto _ Hs).
  - exists []. by rewrite app_nil_r.
  - intros i Hi. by rewrite Hp, <- Hpl.
  - intros i. unfold executing. rewrite Hr, Hrs. by left.
Qed.
Lemma sinv_post b i r : sinv b → ExecutionStarted r = false → sinv (next_call requested (post b i r) i).
Proof.
  intros Hs Hr. eapply sinv_move; [done|apply (si_auto _ Hs)|exists []; by rewrite app_nil_r| |].
  - intros j Hj. split; [done|]. unfold places in *. simpl. rewrite !elem_of_app in *. tauto.
  - intros j [Hj|(r' & Hj & Hst)]; [by left; left|]. simpl in Hj. apply lookup_insert_Some in Hj as [[<- <-]|[_ Hj]]; [congruence|].
    left; right. by exists r'.
Qed.
Lemma sinv_confirmed b extra e : sinv b → sinv (confirmed b (after permission (b_auto b) e) extra e).
Proof.
  intros Hs. eapply sinv_move; [done| |by exists [e]|done|by left].
  simpl. rewrite foldl_app. simpl. by rewrite (si_auto _ Hs).
Qed.
Lemma sinv_prepared hid b i w w' call : binv requested hid b → b_pc b = Await i w → sinv b → sinv (go (set_prepared b i call) (Await i w')).
Proof.
  intros Hb Hpc Hs. eapply sinv_move; [done|apply (si_auto _ Hs)|exists []; by rewrite app_nil_r| |by left].
  intros j Hj. split; [|done]. simpl. apply list_lookup_insert_ne, not_eq_sym. by eapply not_handed.
Qed.
Lemma sinv_take b env fail b' : sinv b → take_step url_parse RuleCard session b env fail = Some b' → sinv b'.
Proof.
  intros Hs. unfold take_step. destruct (b_ready b) as [|i ready] eqn:Hr; [done|]. pose proof (places_take b i ready Hr) as Hpl.
  destruct (complete _ _ _ _ _ _) as [b2|err|] eqn:Hc; [| |done]; intros [= <-].
  - apply complete_ok in Hc as (? & ? & ? & ? & ? & ? & ? & _ & _ & _ & _ & ->). by eapply sinv_same.
  - by eapply sinv_same.
Qed.
Lemma sinv_confirm b i tool risk env role shell start media b' : sinv b →
  confirm_step permission session requested b i tool risk env role shell start media = Some b' → sinv b'.
Proof.
  intros Hs. unfold confirm_step. destruct (b_prepared b !! i) as [call|] eqn:Hcall; [|done]. set (q := {| q_env := env |}).
  pose proof (confirm_permits permission (b_events b) q) as Hperm. rewrite <- (si_auto _ Hs) in Hperm.
  pose proof (λ extra, sinv_confirmed b extra (Confirm q) Hs) as Hc. unfold after in Hc.
  destruct (confirm_request permission (b_auto b) q) as [[a r] err]. cbn [fst snd] in Hperm, Hc.
  specialize (Hc (joinAssistantText (b_extra b) (cr_Extra r))). set (b1 := confirmed _ _ _ _) in *.
  destruct (Stopped r); [intros [= <-]; by apply (sinv_same b1)|]. destruct (Allowed r).
  - destruct start; [|destruct media]; intros [= <-]; [by apply (sinv_same b1)|by apply sinv_post|].
    eapply (sinv_move b1); [done|apply (si_auto _ Hc)|exists []; by rewrite app_nil_r| |].
    + intros j Hj. split; [done|]. unfold places in *. simpl in *. rewrite !elem_of_app in *. tauto.
    + intros j [[Hj|Hj]%elem_of_app|Hj]; [by left; left| |by left; right]. apply list_elem_of_singleton in Hj as ->. right. split.
      * unfold places. simpl. rewrite !elem_of_app, list_elem_of_singleton. auto.
      * exists q, (b_events b), []. split; [done|]. split; [done|]. split; [done|]. by apply Hperm.
  - intros [= <-]. apply sinv_post; [done|]. unfold refused_result. by destruct (lm_Segments _).
Qed.
Lemma sinv_step hid b e b' : binv requested hid b → sinv b → step b e = Some b' → sinv b'.
Proof.
  intros Hb Hs. destruct e as [|ev|refresh|call err tool|risk|env role shell start media|env| | |i o| |]; simpl.
  - intros [= <-]. by apply (sinv_same b).
  - intros [= <-]. by apply sinv_confirmed.
  - destruct (b_pc b); try done. destruct (b_ctx b); [|destruct refresh]; intros [= <-]; by apply (sinv_same b).
  - destruct (b_pc b) as [|i [| |]| | | |] eqn:Hpc; try done. pose proof (λ w', sinv_prepared _ _ _ _ w' call Hb Hpc Hs) as Hsp.
    destruct err; [|destruct tool]; intros [= <-]; [by apply (sinv_same b)|by apply (sinv_post _ i _ (Hsp WPrepare))|apply Hsp].
  - destruct risk, (b_pc b) as [|i [| |]| | | |]; try done; [destruct (b_prepared b !! i); [|done]|]; intros [= <-];
      [by apply sinv_post|by apply (sinv_same b)].
  - destruct (b_pc b) as [|i [| |]| | | |]; try done. by eapply sinv_confirm.
  - destruct (b_pc b); try done; [|destruct (_ <? _); [|done]]; by eapply sinv_take.
  - destruct (b_pc b); try done; (case_match; [|done]); intros [= <-]; by apply (sinv_same b).
  - destruct (b_pc b); try done. intros [= <-]. by apply (sinv_same b).
  - destruct (_ && _) eqn:Hg; [|done]. apply andb_true_iff in Hg as [Hi%bool_decide_eq_true _].
    destruct (b_prepared b !! i) as [call|]; [|done]. intros [= <-].
    pose proof (work_places b i (run_worker call o) (places_nodup _ _ _ Hb) Hi) as Hpl.
    eapply sinv_move; [done|apply (si_auto _ Hs)|exists []; by rewrite app_nil_r| |].
    + intros j Hj. by rewrite Hpl.
    + intros j [Hj|(r & Hj & Hst)]; left; [left; simpl in Hj; by apply list_elem_of_filter in Hj as [_ ?]|].
      simpl in Hj. apply lookup_insert_Some in Hj as [[<- _]|[_ Hj]]; [by left|right; by exists r].
  - destruct (b_pc b); try done. destruct (_ <? _); [done|]. destruct (Flush _); [| |done]; intros [= <-]; by apply (sinv_same b).
  - destruct (b_pc b); try done. case_bool_decide; [|done]. intros [= <-]. by apply (sinv_same b).
Qed.
Lemma sinv_run hid es : ∀ b b', binv requested hid b → sinv b → run b es = Some b' → sinv b'.
Proof.
  induction es as [|e es IH]; intros b b' Hb Hs; simpl; [by intros [= <-]|].
  destruct (step b e) as [b1|] eqn:He; [|done]. apply IH; [by eapply step_ok|by eapply sinv_step].
Qed.

Lemma starts_sinv hid b : starts hid b → sinv b.
Proof.
  intros (? & ? & ? & ? & ? & ? & ? & ? & ? & ? & ? & _ & _ & ->). split; [done|].
  intros j [Hj|(r & Hj & _)]; [by apply elem_of_nil in Hj|]. simpl in Hj. by rewrite lookup_empty in Hj.
Qed.

End Runs.

(** ** The properties at a run of two calls *)
#[local] Existing Instance ascii_tables.
Definition a_permission : Permission := NewPermission §"medium" §"high" ∅.
Definition native : toolError + resolved := inr (ResolvedNative false false).
Definition agreement : confirm_env :=
  {| ce_accepts := true; ce_ctx := false; ce_prompt := None;
     ce_result := {| Outcome_ := RiskAnswered; Decision_ := {| Turn.Action := RiskConfirm; Reason := []; Extra := [] |}; Err_ := None |}; ce_notice := None |}.
Definition silent : complete_env :=
  {| x_refresh := None; x_send := None; x_hook := λ s, Ok s; x_discovery := None; x_commit := calm |}.
Definition works : tool_outcome := {| to_before := None; to_matches := true; to_result := None; to_error := None; to_after := None |}.
Definition call_of (i : nat) : ToolCallRequest := nth i two_calls {| tc_ID := []; tc_Name := []; tc_Arguments := [] |}.
Definition two_runs : list run_event :=
  [ETop None; EPrepared (call_of 0) None native; EPrepareCall (inr §"safe"); EConfirm agreement RoleUser false None None;
   ETop None; EPrepared (call_of 1) None native; EWork 0 works; EPrepareCall (inr §"high"); ETake silent;
   EConfirm agreement RoleSuperadmin false None None; EWork 1 works; ETake silent; EFlush; EJoined].
Definition first_state : option batch :=
  match opened with Ok (_, t1, c1) => Some (begin_batch two_calls t1 c1 nothing_confirmed [] false) | _ => None end.
Lemma first_starts b : first_state = Some b → starts http_parse a_permission §"s1" two_calls §"m0" b.
Proof.
  unfold first_state. assert (match opened with Ok (_, _, c1) => bool_decide (§"m0" = sm_ID (head c1)) | _ => true end = true) as Hid by (by vm_compute).
  destruct opened as [[[m t1] c1]| |] eqn:Ho; [|done|done]. intros [= <-].
  exists m_id, ∅, calm, 0%nat, §"I look.", §"I look.", m, t1, c1, [], false. split; [exact Ho|]. split; [|done]. by apply bool_decide_eq_true in Hid.
Qed.
Local Abbreviation run_two := (run_batch http_parse §"rules" a_permission §"s1" two_calls).
Lemma two_runs_end (test : batch → bool) :
  match first_state with Some b => match run_two b two_runs with Some b' => test b' | None => false end | None => false end = true →
  ∃ b b', starts http_parse a_permission §"s1" two_calls §"m0" b ∧ run_two b two_runs = Some b' ∧ test b' = true.
Proof.
  destruct first_state as [b|] eqn:Hb; [|done]. pose proof (first_starts b Hb) as Hs. destruct (run_two b two_runs) as [b'|] eqn:Hr; [|done].
  intros Ht. by exists b, b'.
Qed.
Lemma batch_answers_every_call_witness : ∃ b b' r, starts http_parse a_permission §"s1" two_calls §"m0" b
  ∧ run_two b two_runs = Some b' ∧ b_pc b' = Returned r
  ∧ b_running b' = [] ∧ transcript (b_prepared b') (committed (b_committer b')).
Proof.
  destruct (two_runs_end (λ b, match b_pc b with Returned r => succeeded r | _ => false end)) as (b & b' & Hs & Hr & Ht); [vm_compute; reflexivity|].
  destruct (batch_answers_every_call http_parse §"rules" a_permission §"s1" two_calls §"m0" b two_runs b' Hs Hr) as (_ & Hret).
  destruct (b_pc b') as [| | | | |r] eqn:Hpc; try done.
  destruct (Hret r eq_refl) as (Hrun & Hall). exists b, b', r. split_and!; [done..|]. by apply Hall.
Defined.
Definition calm_world : world :=
  {| w_refresh := None; w_call := call_of 0; w_prepare := None; w_tool := native; w_risk := inr §"safe"; w_confirm := agreement;
     w_role := RoleUser; w_shell := false; w_start := None; w_media := None; w_complete := silent; w_outcome := works |}.
Lemma batch_returns_witness : ∃ b es b', starts http_parse a_permission §"s1" two_calls §"m0" b ∧ run_two b es = Some b' ∧ returned b'.
Proof.
  destruct (two_runs_end (λ b, true)) as (b & _ & Hs & _); [vm_compute; reflexivity|].
  destruct (batch_returns http_parse §"rules" a_permission §"s1" two_calls §"m0" b [] b Hs eq_refl) as (_ & _ & _ & Hd).
  destruct (Hd calm_world) as (es & b' & Hr & Hret); [by split|]. by exists b, es, b'.
Defined.
