(* ===== verification/ChatPrompt.v ===== *)
(** * The messages of a chat request ([agent/chat/transcript.go], [agent/chat/preparation.go], [agent/dialogue/model_call.go])

    How stored rows and the input of a turn become the messages of a request,
    and what a request for the model goes through before it is sent: input that
    arrived meanwhile, its hook, the tools that are allowed, and the row of that
    input. The system prompt, the hooks and the archive of media are arguments;
    the expansion of media for the provider is left out. *)
From S2P Require Import Prelude GoStr Segment Turn HookPipeline ToolPermit ToolTranscript ToolTranscriptProps ToolBatch.
Open Scope Z_scope.

(** ** Prompts *)
Inductive SessionMode := ModeChat | ModeWork | ModeBackground.
Definition tools_enabled (mode : SessionMode) : bool := match mode with ModeChat => false | _ => true end.
Definition known_role (r : MessageRole) : bool := match r with RoleOther _ => false | _ => true end.
Definition is_role (r : MessageRole) (m : LLMMessage) : bool := bool_decide (lm_Role m = r).
Section Prompt.
Context `{UnicodeTables} (url_parse : gostring → option (gostring * gostring)) (RuleCard : gostring).
Definition summaryUserPrefix (summary : gostring) : gostring :=
  trim_space summary ++ [newline; newline] ++ §"当前用户输入：" ++ [newline].
(** The rows of known roles; the summary goes into the first message of the user. *)
Fixpoint project_rows (summary : option gostring) (rows : list Message) : res (list LLMMessage) :=
  match rows with
  | [] => Ok []
  | row :: rows =>
    if negb (known_role (sm_Role row)) then project_rows summary rows
    else
      let* m := MessageFromStorage row in
      match summary, sm_Role row with
      | Some s, RoleUser_ =>
        let* l := project_rows None rows in
        Ok (set_segments m (PrependSegmentText (lm_Segments m) (summaryUserPrefix s)) :: l)
      | _, _ => let* l := project_rows summary rows in Ok (m :: l)
      end
  end.
Definition plain_message (role : MessageRole) (segments : list MessageSegment) : LLMMessage :=
  {| lm_Role := role; lm_Segments := segments; lm_Name := []; lm_ToolCallID := []; lm_ToolCalls := [] |}.
Definition Build (system : res gostring) (rows : list Message) (summary : option gostring) : res (list LLMMessage) :=
  let* prompt := system in
  if bool_decide (trim_space prompt = []) then Err §"system prompt is required"
  else let* l := project_rows summary rows in Ok (plain_message RoleSystem_ (TextSegments prompt) :: l).

Fixpoint set_first_user (messages : list LLMMessage) (segments : list MessageSegment) : list LLMMessage :=
  match messages with
  | [] => []
  | m :: messages => if is_role RoleUser_ m then set_segments m segments :: messages else m :: set_first_user messages segments
  end.
(** The loop runs from the end. *)
Definition SetLatestUserSegments (messages : list LLMMessage) (segments : list MessageSegment) : list LLMMessage :=
  rev (set_first_user (rev messages) segments).

(** ** Preparing the turn *)
Definition hasStorageUserMessage (rows : list Message) : bool := existsb (λ row, bool_decide (sm_Role row = RoleUser_)) rows.
Record preparedLoop := { pl_rows : list Message; pl_summary : option gostring; compactSeedOnCurrentUser : bool; summaryOnCurrentUser : bool }.
(** [seed] is the summary of a compaction that is still to be used; [consume] marks it as used. *)
Definition PrepareTurn (rows : list Message) (summary : option gostring) (seed : res (option gostring)) (consume : option gostring) : res preparedLoop :=
  let hasUserHistory := hasStorageUserMessage rows in
  let* seed := seed in
  let* (summary, compact) := match seed with
                   | None => Ok (summary, false)
                   | Some s => if negb hasUserHistory then Ok (Some s, true)
                               else match consume with Some err => Err err | None => Ok (summary, false) end
                   end in
  Ok {| pl_rows := rows; pl_summary := summary; compactSeedOnCurrentUser := compact;
        summaryOnCurrentUser := match summary with Some _ => negb hasUserHistory && negb compact | None => false end |}.
(** What the world answers while the input of a turn is prepared; tools are their names. *)
Record input_env := {
  i_system : res gostring; i_schemas : res (list gostring); i_mode : SessionMode;
  i_hook : list LLMMessage → list gostring → res (list MessageSegment * list gostring); i_needs_rules : list gostring → res bool;
  i_rules_shown : res bool; i_archive : list MessageSegment → res (list MessageSegment)
}.
(** [Preparer.PrepareInput]: the segments of the input, the tools and the row with its mark. *)
Definition prepare_input (env : input_env) (user : Message) (messages : list LLMMessage) (tools : list gostring) (needsElyphRules : bool)
  : res (list MessageSegment * list gostring * Message) :=
  let* (segments, changed) := res_wrap §"llm turn hook: " (i_hook env messages tools) in
  let tools := if tools_enabled (i_mode env) then changed else tools in
  let* needed := match tools with [] => Ok false | _ => i_needs_rules env tools end in
  let* shown := i_rules_shown env in
  let card := RuleCardIfNeeded RuleCard (needsElyphRules || needed) shown in
  let segments := if bool_decide (card = []) then segments else TextSegments (card ++ blank_line) ++ segments in
  let* user := if bool_decide (card = []) then Ok user
               else let* d := DecodeMetadata (sm_Metadata user) in Ok (with_metadata user (set_rules_shown d)) in
  let* segments := i_archive env segments in
  Ok (segments, tools, user).
(** The messages and tools of the first request and the row of the input. *)
Definition PrepareInput (p : preparedLoop) (env : input_env) (user : Message) (needsElyphRules : bool)
  : res (list LLMMessage * list gostring * Message) :=
  let* messages := Build (i_system env) (pl_rows p ++ [user]) (pl_summary p) in
  let* tools := i_schemas env in
  let* (canonical, tools, user) := prepare_input env user messages tools needsElyphRules in
  let prefixed := match pl_summary p with
                  | Some s => if compactSeedOnCurrentUser p || summaryOnCurrentUser p
                              then PrependSegmentText canonical (summaryUserPrefix s) else canonical
                  | None => canonical
                  end in
  let stored := if compactSeedOnCurrentUser p then prefixed else canonical in
  Ok (SetLatestUserSegments messages prefixed, tools, with_body user (MessageContent url_parse stored) (StoredMessageSegments stored)).

(** ** Input that arrived during the tools *)
Record PendingUserMessage := {
  pu_NeedsElyphRules : bool; pu_Message : Message; pu_Index : nat; pu_Segments : list MessageSegment
}.
Definition user_row (session content : gostring) (segments : column (list MessageSegment)) : Message :=
  {| sm_ID := []; sm_SessionID := session; sm_Role := RoleUser_; sm_Content := content; sm_ToolCallID := []; sm_Segments := segments;
     sm_Metadata := Absent |}.
Definition drainPendingUserInput (session : gostring) (messages : list LLMMessage) (input : Input) : list LLMMessage * option PendingUserMessage :=
  if bool_decide (Text input = []) && bool_decide (length (Segments input) = 0%nat) then (messages, None)
  else
    let segments := match Segments input with [] => TextSegments (Text input) | s => s end in
    (messages ++ [plain_message RoleUser_ segments],
     Some {| pu_NeedsElyphRules := NeedsElyphRules input;
             pu_Message := user_row session (MessageContent url_parse segments) (StoredMessageSegments segments);
             pu_Index := length messages; pu_Segments := segments |}).

(** ** Rows appended on their own *)
Definition commit_messages (t : gmap gostring Message) (env : commit_env) (operation session : gostring) (rows : list Message)
  : res (gmap gostring Message) :=
  let* rows := res_map (archive_row url_parse env) rows in
  database env operation (appendMessages t session rows).

(** ** Preparing a request *)
Definition foreground_notice : LLMMessage :=
  plain_message RoleUser_ (TextSegments (§"[系统提示]" ++ [newline] ++
    §"此会话已由用户接管，当前是普通前台对话。保留原任务目标和历史，但后台无人值守、自动汇报及强制 JSON 输出要求已经解除；按当前用户要求正常回复，工具遵循前台权限和确认规则。")).
Definition ForegroundNotice (promoted : bool) : list LLMMessage := if promoted then [foreground_notice] else [].
(** What the world answers while a request is prepared. *)
Record prepare_env := {
  v_mode : SessionMode; v_promoted : bool; v_discovered : res (list gostring);
  v_hook : list LLMMessage → list gostring → list MessageSegment → res (list MessageSegment * list gostring);
  v_filter : list gostring → res (list gostring); v_archive : list MessageSegment → res (list MessageSegment);
  v_rules_shown : res bool; v_store : commit_env
}.
Section Prepare.
Variable new_id : nat → res gostring.
Definition set_message (messages : list LLMMessage) (i : nat) (segments : list MessageSegment) : res (list LLMMessage) :=
  match messages !! i with Some m => Ok (<[i := set_segments m segments]> messages) | None => Panic end.
Definition PrepareCall (t : gmap gostring Message) (n : nat) (env : prepare_env) (messages : list LLMMessage) (tools : list gostring)
    (pending : option PendingUserMessage) : res (gmap gostring Message * nat * (list LLMMessage * list LLMMessage * list gostring)) :=
  let tools := if tools_enabled (v_mode env) then tools else [] in
  let* allowed := match v_mode env with
                  | ModeBackground => let* l := v_discovered env in Ok (Some (filter (λ name, name ≠ []) l))
                  | _ => Ok None
                  end in
  let requested := messages ++ ForegroundNotice (v_promoted env) in
  let* (n, pending) := match pending with
                   | Some p => let* (n, m) := PrepareMessageID new_id n (pu_Message p) in Ok (n, Some (p, m))
                   | None => Ok (n, None)
                   end in
  let* hook_segments := match pending with
                        | Some (p, _) => match messages !! pu_Index p with Some m => Ok (lm_Segments m) | None => Panic end
                        | None => Ok []
                        end in
  let* (segments, tools) := v_hook env requested tools hook_segments in
  let* tools := res_wrap §"filter tool schemas: " (v_filter env tools) in
  let tools := match allowed with Some l => filter (λ name, name ∈ l) tools | None => tools end in
  let tools := if tools_enabled (v_mode env) then tools else [] in
  match pending with
  | None => Ok (t, n, (messages, requested, tools))
  | Some (p, m) =>
    let* segments := v_archive env segments in
    let* shown := v_rules_shown env in
    let card := RuleCardIfNeeded RuleCard (pu_NeedsElyphRules p) shown in
    let segments := if bool_decide (card = []) then segments else TextSegments (card ++ blank_line) ++ segments in
    let* m := if bool_decide (card = []) then Ok m else let* d := DecodeMetadata (sm_Metadata m) in Ok (with_metadata m (set_rules_shown d)) in
    let* messages := set_message messages (pu_Index p) segments in
    let* requested := set_message requested (pu_Index p) segments in
    let m := with_body m (MessageContent url_parse segments) (StoredMessageSegments segments) in
    let* t := commit_messages t (v_store env) §"append_pending_user_message" (sm_SessionID m) [m] in
    Ok (t, n, (messages, requested, tools))
  end.
End Prepare.
End Prompt.

(** * Every request is a conversation a provider accepts

    An assistant message with calls is followed by one answer to each of them
    in order, and there is no other answer: for the messages a turn starts with. *)

(** ** Conversations *)
(** [pending] are the calls still to be answered. *)
Fixpoint conversation (pending : list gostring) (messages : list LLMMessage) : bool :=
  match messages with
  | [] => bool_decide (length pending = 0%nat)
  | m :: messages =>
    match pending with
    | id :: pending => is_role RoleTool_ m && bool_decide (lm_ToolCallID m = id) && conversation pending messages
    | [] => negb (is_role RoleTool_ m) && conversation (if is_role RoleAssistant_ m then map tc_ID (lm_ToolCalls m) else []) messages
    end
  end.
Definition well_formed (messages : list LLMMessage) : bool := conversation [] messages.

Lemma conversation_app l1 : ∀ pending l2, conversation pending l1 = true → conversation pending (l1 ++ l2) = conversation [] l2.
Proof.
  induction l1 as [|m l1 IH]; intros pending l2; simpl.
  - by intros ->%bool_decide_eq_true%nil_length_inv.
  - destruct pending as [|id pending]; rewrite !andb_true_iff; [intros [-> H1]|intros [[-> ->] H1]]; simpl; by apply IH.
Qed.
Lemma well_formed_app l1 l2 : well_formed l1 = true → well_formed l2 = true → well_formed (l1 ++ l2) = true.
Proof. unfold well_formed. intros H1 H2. by rewrite conversation_app. Qed.
Lemma answers_conversation cs rs : Forall2 (λ call m, lm_Role m = RoleTool_ ∧ lm_ToolCallID m = tc_ID call) cs rs →
  conversation (map tc_ID cs) rs = true.
Proof.
  induction 1 as [|call m cs rs [Hr Hi] _ IH]; simpl; [done|]. unfold is_role. rewrite Hr, Hi, !bool_decide_eq_true_2 by done. by rewrite IH.
Qed.
Lemma transcript_well_formed cs messages : transcript cs messages → well_formed messages = true.
Proof.
  intros (h & rs & -> & Hh & Hcs & Hrs). unfold well_formed, is_role. simpl. unfold is_role. rewrite Hh, Hcs. simpl. by apply answers_conversation.
Qed.
Lemma one_well_formed m : lm_Role m ≠ RoleTool_ → (lm_Role m = RoleAssistant_ → lm_ToolCalls m = []) → well_formed [m] = true.
Proof.
  intros Hr Ha. unfold well_formed. simpl. unfold is_role. rewrite (bool_decide_eq_false_2 _ Hr). simpl.
  destruct (decide (lm_Role m = RoleAssistant_)) as [E|E]; [rewrite (bool_decide_eq_true_2 _ E), Ha by done; done|by rewrite (bool_decide_eq_false_2 _ E)].
Qed.

(** Only roles, IDs and calls matter. *)
Definition same_shape (m m' : LLMMessage) : Prop :=
  lm_Role m = lm_Role m' ∧ lm_ToolCallID m = lm_ToolCallID m' ∧ lm_ToolCalls m = lm_ToolCalls m'.
Lemma shape_conversation l l' : Forall2 same_shape l l' → ∀ pending, conversation pending l = conversation pending l'.
Proof.
  induction 1 as [|m m' l l' (Hr & Hi & Hc) _ IH]; intros pending; simpl; [done|]. unfold is_role. rewrite Hr, Hi, Hc.
  destruct pending; by rewrite IH.
Qed.
Lemma shape_insert messages i m segments : messages !! i = Some m → Forall2 same_shape (<[i := set_segments m segments]> messages) messages.
Proof.
  intros Hm. apply Forall2_same_length_lookup_2; [by rewrite length_insert|]. intros j x y.
  intros [(-> & <- & _)|[_ Hx]]%list_lookup_insert_Some Hy; simplify_eq; done.
Qed.

(** System messages can be taken out and put in front. *)
Definition not_system (l : list LLMMessage) : list LLMMessage := filter (λ m, is_role RoleSystem_ m = false) l.
Lemma not_system_conversation l : ∀ pending, conversation pending l = true → conversation pending (not_system l) = true.
Proof.
  induction l as [|m l IH]; intros pending; [done|]. unfold not_system in *. rewrite filter_cons. simpl.
  destruct pending as [|id pending]; rewrite !andb_true_iff.
  - intros [Hr Hc]. apply IH in Hc. destruct (decide (is_role RoleSystem_ m = false)) as [Hs|Hs]; simpl; [by rewrite Hr, Hc|].
    apply not_false_iff_true in Hs. unfold is_role in *. apply bool_decide_eq_true in Hs. by rewrite Hs in Hc.
  - intros [[Hr Hi] Hc]. apply IH in Hc. rewrite decide_True; [simpl; by rewrite Hr, Hi, Hc|].
    unfold is_role in *. apply bool_decide_eq_true in Hr. by rewrite Hr.
Qed.
Lemma systems_well_formed l : Forall (λ m, lm_Role m = RoleSystem_) l → well_formed l = true.
Proof. unfold well_formed. induction 1 as [|m l Hm _ IH]; [done|]. simpl. unfold is_role. by rewrite Hm. Qed.

(** ** What is stored *)
(** Stored rows of a session: rows without calls, and batches with their answers. *)
Definition plain_row (row : Message) : Prop :=
  sm_Role row ≠ RoleTool_ ∧ (sm_Role row = RoleAssistant_ → ∀ md, DecodeMetadata (sm_Metadata row) = Ok md → default [] (md_tool_calls md) = []).
Definition batch_rows (h : Message) (rs : list Message) : Prop :=
  sm_Role h = RoleAssistant_ ∧ ∃ md, sm_Metadata h = Json md
    ∧ Forall2 (λ call r, sm_Role r = RoleTool_ ∧ sm_ToolCallID r = tc_ID call) (default [] (md_tool_calls md)) rs.
Inductive dialogue : list Message → Prop :=
| dialogue_nil : dialogue []
| dialogue_row row rows : plain_row row → dialogue rows → dialogue (row :: rows)
| dialogue_batch h rs rows : batch_rows h rs → dialogue rows → dialogue (h :: rs ++ rows).

Lemma dialogue_app l1 l2 : dialogue l1 → dialogue l2 → dialogue (l1 ++ l2).
Proof.
  induction 1 as [|row rows Hr _ IH|h rs rows Hb _ IH]; intros H2; [done|by apply dialogue_row; [|apply IH]|].
  simpl. rewrite <- app_assoc. apply dialogue_batch; [done|by apply IH].
Qed.
(** The rows of a batch in any state it reaches are of this form. *)
Lemma committing_batch_rows t c done : committing t c done → batch_rows (head c) (results c).
Proof.
  intros Hc. destruct (cm_head_md _ _ _ Hc) as (md & Hmd & Hcs & _). split; [apply (cm_role _ _ _ Hc)|]. exists md. split; [done|].
  rewrite Hcs. simpl. apply Forall2_same_length_lookup_2; [symmetry; apply (cm_len _ _ _ Hc)|]. intros i call r Hcall Hr.
  split; [by apply (cm_roles _ _ _ Hc i)|by eapply (cm_answers _ _ _ Hc)].
Qed.

Section Prompts.
Context `{UnicodeTables} (url_parse : gostring → option (gostring * gostring)) (RuleCard : gostring).
Lemma MessageFromStorage_shape row m : MessageFromStorage row = Ok m → lm_Role m = sm_Role row ∧ lm_ToolCallID m = sm_ToolCallID row
  ∧ ((sm_Role row = RoleAssistant_ ∧ ∃ md, DecodeMetadata (sm_Metadata row) = Ok md ∧ lm_ToolCalls m = default [] (md_tool_calls md))
     ∨ sm_Role row ≠ RoleAssistant_ ∧ lm_ToolCalls m = []).
Proof.
  unfold MessageFromStorage. rewrite res_bind_ok. intros (segments & _ & Hm). destruct (sm_Role row) eqn:Hr.
  1,2,5: injection Hm as <-; cbn [lm_Role lm_ToolCallID lm_ToolCalls]; auto.
  - apply res_bind_ok in Hm as (md & Hmd & Hm). rewrite res_wrap_ok in Hmd. injection Hm as <-. cbn [lm_Role lm_ToolCallID lm_ToolCalls]. eauto 7.
  - apply res_bind_ok in Hm as (md & _ & Hm). injection Hm as <-. cbn [lm_Role lm_ToolCallID lm_ToolCalls]. auto.
Qed.
(** Projecting rows: the messages have the roles, IDs and calls of the known rows. *)
Definition row_message (row : Message) (m : LLMMessage) : Prop := ∃ p, MessageFromStorage row = Ok p ∧ same_shape m p.
Lemma project_rows_shape rows : ∀ summary messages, project_rows summary rows = Ok messages →
  Forall2 row_message (filter (λ row, known_role (sm_Role row) = true) rows) messages.
Proof.
  induction rows as [|row rows IH]; intros summary messages; simpl; [by intros [= <-]; constructor|].
  rewrite filter_cons. destruct (known_role (sm_Role row)); simpl; [|by apply IH].
  rewrite res_bind_ok. intros (m & Hm & Hl). assert (row_message row m) as Hrow by (by exists m).
  destruct summary as [s|]; [destruct (sm_Role row)|]; apply res_bind_ok in Hl as (l & Hl & [= <-]); (constructor; [|by eapply IH]); done.
Qed.
Lemma known_rows_app (a b : list Message) : filter (λ row, known_role (sm_Role row) = true) (a ++ b)
  = filter (λ row, known_role (sm_Role row) = true) a ++ filter (λ row, known_role (sm_Role row) = true) b.
Proof. apply filter_app. Qed.
Lemma answers_messages cs rs messages : Forall2 (λ call r, sm_Role r = RoleTool_ ∧ sm_ToolCallID r = tc_ID call) cs rs →
  Forall2 row_message rs messages → Forall2 (λ call m, lm_Role m = RoleTool_ ∧ lm_ToolCallID m = tc_ID call) cs messages.
Proof.
  intros Hrs. revert messages. induction Hrs as [|call r cs rs [Hr Hi] _ IH]; intros messages Hm; inversion Hm as [|? m ? ? Hrow Hms]; subst; constructor.
  - destruct Hrow as (p & (Hpr & Hpi & _)%MessageFromStorage_shape & Hmr & Hmi & _). by rewrite Hmr, Hmi, Hpr, Hpi.
  - by apply IH.
Qed.
Lemma dialogue_messages rows : dialogue rows → ∀ messages,
  Forall2 row_message (filter (λ row, known_role (sm_Role row) = true) rows) messages → well_formed messages = true.
Proof.
  induction 1 as [|row rows [Hr Ha] _ IH|h rs rows (Hh & md & Hmd & Hrs) _ IH]; intros messages Hm.
  - by inversion Hm.
  - rewrite filter_cons in Hm. destruct (decide (known_role (sm_Role row) = true)); [|by apply IH].
    inversion Hm as [|? m ? l Hrow Hl]; subst. apply (well_formed_app [m]); [|by apply IH].
    destruct Hrow as (p & (Hpr & _ & Hpc)%MessageFromStorage_shape & Hmr & _ & Hmc). apply one_well_formed; [by rewrite Hmr, Hpr|].
    rewrite Hmr, Hpr, Hmc. intros Hra. destruct Hpc as [(_ & md & Hmd & ->)|[_ ->]]; [by eapply Ha|done].
  - change (h :: rs ++ rows) with ((h :: rs) ++ rows) in Hm. rewrite known_rows_app in Hm. apply Forall2_app_inv_l in Hm as (l1 & l2 & Hl1 & Hl2 & ->).
    apply well_formed_app; [|by apply IH]. rewrite filter_all in Hl1.
    + inversion Hl1 as [|? m ? l Hrow Hl]; subst. destruct Hrow as (p & (Hpr & _ & Hpc)%MessageFromStorage_shape & Hmr & _ & Hmc).
      apply (transcript_well_formed (default [] (md_tool_calls md))). exists m, l. split; [done|]. split; [by rewrite Hmr, Hpr|].
      destruct Hpc as [(_ & md' & Hmd' & Hc)|[? _]]; [|done]. rewrite Hmd in Hmd'. injection Hmd' as <-. split; [by rewrite Hmc|]. by eapply answers_messages.
    + constructor; [by rewrite Hh|]. clear -Hrs. induction Hrs as [|call r cs rs [Hr _] _ IH]; constructor; [by rewrite Hr|done].
Qed.
Lemma Build_well_formed system rows summary messages : dialogue rows → Build system rows summary = Ok messages → well_formed messages = true.
Proof.
  intros Hd. unfold Build. rewrite res_bind_ok. intros (prompt & _ & Hb). case_bool_decide; [done|].
  apply res_bind_ok in Hb as (l & Hl & [= <-]). apply (well_formed_app [_]); [done|]. eapply dialogue_messages; [done|by eapply project_rows_shape].
Qed.

Lemma shape_refl l : Forall2 same_shape l l.
Proof. induction l; by constructor. Qed.
Lemma set_first_user_shape l segments : Forall2 same_shape (set_first_user l segments) l.
Proof. induction l as [|m l IH]; simpl; [constructor|]. destruct (is_role RoleUser_ m); constructor; try done. apply shape_refl. Qed.
Lemma shape_rev l l' : Forall2 same_shape l l' → Forall2 same_shape (rev l) (rev l').
Proof. induction 1; simpl; [constructor|]. apply Forall2_app; [done|]. constructor; [done|constructor]. Qed.
Lemma SetLatestUserSegments_shape l segments : Forall2 same_shape (SetLatestUserSegments l segments) l.
Proof.
  unfold SetLatestUserSegments. rewrite <- (rev_involutive l) at 2. apply shape_rev, set_first_user_shape.
Qed.
Lemma PrepareInput_well_formed p env user needs messages tools row : dialogue (pl_rows p) → sm_Role user = RoleUser_ →
  PrepareInput url_parse RuleCard p env user needs = Ok (messages, tools, row) → well_formed messages = true.
Proof.
  intros Hd Hu. unfold PrepareInput. rewrite res_bind_ok. intros (built & Hb & Hr). apply res_bind_ok in Hr as (schemas & _ & Hr).
  apply res_bind_ok in Hr as ([[canonical tools'] user'] & _ & [= <- _ _]). unfold well_formed. erewrite shape_conversation by apply SetLatestUserSegments_shape.
  eapply Build_well_formed; [|done]. apply dialogue_app; [done|]. apply dialogue_row; [|constructor]. by split; rewrite Hu.
Qed.

(** ** What a request is made of *)
Lemma drain_well_formed session messages input : well_formed messages = true →
  well_formed (drainPendingUserInput url_parse session messages input).1 = true.
Proof. intros Hm. unfold drainPendingUserInput. destruct (_ && _); [done|]. simpl. by apply well_formed_app. Qed.
Lemma set_message_shape messages i segments messages' : set_message messages i segments = Ok messages' → Forall2 same_shape messages' messages.
Proof. unfold set_message. destruct (messages !! i) eqn:Hm; [|done]. intros [= <-]. by apply shape_insert. Qed.
Lemma PrepareCall_well_formed new_id t n env messages tools pending t' n' base requested tools' : well_formed messages = true →
  PrepareCall url_parse RuleCard new_id t n env messages tools pending = Ok (t', n', (base, requested, tools')) →
  well_formed base = true ∧ well_formed requested = true.
Proof.
  intros Hm. unfold PrepareCall. rewrite !res_bind_ok. intros (allowed & _ & H1). apply res_bind_ok in H1 as ([n1 pend] & _ & H1).
  assert (well_formed (messages ++ ForegroundNotice (v_promoted env)) = true) as Hreq.
  { apply well_formed_app; [done|]. by destruct (v_promoted env). }
  apply res_bind_ok in H1 as (hs & _ & H1). apply res_bind_ok in H1 as ([segments tools1] & _ & H1). apply res_bind_ok in H1 as (tools2 & _ & H1).
  destruct pend as [[p m]|]; [|by injection H1 as _ _ <- <- _].
  apply res_bind_ok in H1 as (segs & _ & H1). apply res_bind_ok in H1 as (shown & _ & H1). apply res_bind_ok in H1 as (m1 & _ & H1).
  apply res_bind_ok in H1 as (base1 & Hb1 & H1). apply res_bind_ok in H1 as (req1 & Hr1 & H1). apply res_bind_ok in H1 as (t1 & _ & [= _ _ <- <- _]).
  apply set_message_shape in Hb1, Hr1. unfold well_formed. by rewrite (shape_conversation _ _ Hb1), (shape_conversation _ _ Hr1).
Qed.
End Prompts.
