(* ===== verification/ChatLoop.v ===== *)
(** * The chat loop of a turn ([agent/chat/run_loop.go], [agent/chat/model_call.go])

    [preparedLoop.RunLoop]: rounds of a request to the model and a batch of tool
    calls, until the model answers without a call or the limit of rounds is
    reached, when a summary is asked for. A round, a batch and the summary are
    one step each, with what the world answers as its event; the batch is a run
    of the tool batch. The requests are a history for the statements: they are
    kept as they are before media is expanded for the provider. *)
From S2P Require Import Prelude GoStr Segment Turn HookPipeline ToolPermit ToolTranscript ToolBatch ChatPrompt.
Open Scope Z_scope.

(** ** One call of the model ([Caller.Call]) *)
Inductive answer := AnswerErr (err : gostring) | Answer (raw : gostring) (calls : list ToolCallRequest).
(** A chunk of the provider's stream, and the error of sending its text on. *)
Record chunk := { ch_Error : option gostring; ch_DeltaContent : gostring; ch_ToolCalls : list ToolCallRequest; ch_send : option gostring }.
(** An attempt: the error of opening the stream, its chunks, and the errors of
    the context and of the last message at its end. *)
Record attempt := { at_open : option gostring; at_chunks : list chunk; at_ctx : option gostring; at_finish : option gostring }.
Fixpoint consume (toolsEnabled : bool) (assistant : gostring) (toolCalls : list ToolCallRequest) (chunks : list chunk) : answer :=
  match chunks with
  | [] => Answer assistant toolCalls
  | chunk :: chunks =>
    match ch_Error chunk with
    | Some err => AnswerErr err
    | None =>
      let toolCalls := if toolsEnabled then toolCalls ++ ch_ToolCalls chunk else toolCalls in
      let delta := ch_DeltaContent chunk in
      match (if bool_decide (delta = []) then None else ch_send chunk) with
      | Some err => AnswerErr err
      | None => consume toolsEnabled (assistant ++ delta) toolCalls chunks
      end
    end
  end.
Definition callOnce (toolsEnabled : bool) (a : attempt) : answer :=
  match at_open a with
  | Some err => AnswerErr err
  | None =>
    match consume toolsEnabled [] [] (at_chunks a), at_ctx a, at_finish a with
    | Answer raw calls, None, None => Answer raw calls
    | Answer _ _, Some err, _ | Answer _ _, None, Some err => AnswerErr err
    | AnswerErr err, _, _ => AnswerErr err
    end
  end.
(** [k_attempt] is the last attempt of the retried call; [k_canceled] says that
    an error is the one of the context, which has ended. *)
Record call_env := {
  k_prepare : prepare_env; k_materials : option gostring; k_attempt : attempt; k_canceled : bool;
  k_response : gostring → list ToolCallRequest → res (gostring * list ToolCallRequest)
}.
Record llmCallResult := { lc_Text : gostring; lc_RawText : gostring; lc_ToolCalls : list ToolCallRequest; lc_Messages : list LLMMessage }.
Record request_ := { rq_messages : list LLMMessage; rq_tools : list gostring }.

(** ** The loop *)
Inductive LoopResult :=
| Completed (raw platform : gostring) | Stopped_ | Canceled_ | Failed (err : gostring).
Inductive chat_pc := CRound | CTools (calls : list ToolCallRequest) (raw : gostring) | CSummary (calls : list ToolCallRequest) (raw : gostring) | CReturned (r : LoopResult).
Record chat := Chat {
  c_table : gmap gostring Message; c_next : nat; c_auto : auto; c_events : list event; c_messages : list LLMMessage; c_tools : list gostring;
  c_rounds : Z; c_in_tools : bool; c_prepared : bool; c_pc : chat_pc; c_requests : list request_
}.
Definition goto (c : chat) (p : chat_pc) : chat :=
  Chat (c_table c) (c_next c) (c_auto c) (c_events c) (c_messages c) (c_tools c) (c_rounds c) (c_in_tools c) (c_prepared c) p (c_requests c).
Definition failedLoop (c : chat) (err : gostring) : chat := goto c (CReturned (Failed err)).
Definition with_messages (c : chat) (messages : list LLMMessage) : chat :=
  Chat (c_table c) (c_next c) (c_auto c) (c_events c) messages (c_tools c) (c_rounds c) (c_in_tools c) (c_prepared c) (c_pc c) (c_requests c).
Definition with_tools (c : chat) (tools : list gostring) : chat :=
  Chat (c_table c) (c_next c) (c_auto c) (c_events c) (c_messages c) tools (c_rounds c) (c_in_tools c) (c_prepared c) (c_pc c) (c_requests c).
Definition with_store (c : chat) (t : gmap gostring Message) (n : nat) : chat :=
  Chat t n (c_auto c) (c_events c) (c_messages c) (c_tools c) (c_rounds c) (c_in_tools c) (c_prepared c) (c_pc c) (c_requests c).
Definition requested_ (c : chat) (r : request_) : chat :=
  Chat (c_table c) (c_next c) (c_auto c) (c_events c) (c_messages c) (c_tools c) (c_rounds c) (c_in_tools c) (c_prepared c) (c_pc c) (c_requests c ++ [r]).
Definition mark_prepared (c : chat) : chat :=
  Chat (c_table c) (c_next c) (c_auto c) (c_events c) (c_messages c) (c_tools c) (c_rounds c) (c_in_tools c) true (c_pc c) (c_requests c).
Definition mark_tools (c : chat) : chat :=
  Chat (c_table c) (c_next c) (c_auto c) (c_events c) (c_messages c) (c_tools c) (c_rounds c) true (c_prepared c) (c_pc c) (c_requests c).
(** What a batch has left: the rows, what the session confirmed and one round more. *)
Definition after_batch (c : chat) (n : nat) (b : batch) : chat :=
  Chat (b_table b) n (b_auto b) (b_events b) (c_messages c) (c_tools c) (c_rounds c + 1) (c_in_tools c) (c_prepared c) (c_pc c) (c_requests c).

(** What the world answers in a round. *)
Record round_env := {
  o_refresh : option gostring; o_promoted : bool; o_foreground : res (list LLMMessage * list gostring); o_selection : option gostring;
  o_input : Input; o_call : call_env; o_ctx : bool; o_late : bool; o_extras : option gostring; o_text : option gostring; o_later : option gostring;
  o_tool_phase : bool
}.
(** In a batch: an error before it begins, the answers of [Begin], whether the rules were shown, what
    happens in it, and the rest of its round. *)
Record batch_env := {
  h_before : option gostring; h_begin : commit_env; h_shown : bool; h_events : list run_event; h_ctx : bool;
  h_schemas : res (list gostring); h_append : commit_env
}.
Record summary_env := {
  y_begin : commit_env; y_results : nat → commit_env; y_input : Input; y_append : commit_env; y_call : call_env; y_ctx : bool; y_extras : option gostring
}.
Inductive chat_event := CElsewhere (e : event) | CRoundEvent (env : round_env) | CBatchEvent (env : batch_env) | CSummaryEvent (env : summary_env).

Section Loop.
Context `{UnicodeTables} (url_parse : gostring → option (gostring * gostring)) (RuleCard : gostring).
Context (permission : Permission) (session : gostring) (MaxRounds : Z) (new_id : nat → res gostring).

Definition attempt_model (c : chat) (env : call_env) (pending : option PendingUserMessage) : chat * res llmCallResult :=
  match PrepareCall url_parse RuleCard new_id (c_table c) (c_next c) (k_prepare env) (c_messages c) (c_tools c) pending with
  | Err err => (c, Err err)
  | Panic => (c, Panic)
  | Ok (t, n, (base, requested, tools)) =>
    let c := with_store c t n in
    match k_materials env with
    | Some err => (c, Err err)
    | None =>
      let c := requested_ c {| rq_messages := requested; rq_tools := tools |} in
      let enabled := tools_enabled (v_mode (k_prepare env)) in
      match callOnce enabled (k_attempt env) with
      | AnswerErr err => (c, Err err)
      | Answer raw calls =>
        (c, let* (text, calls) := res_wrap §"llm response hook: " (k_response env raw calls) in
            Ok {| lc_Text := text; lc_RawText := raw; lc_ToolCalls := if enabled then calls else []; lc_Messages := base |})
      end
    end
  end.
(** [None] is a call that was cut off with the context. *)
Definition call_model (c : chat) (env : call_env) (pending : option PendingUserMessage) : chat * res (option llmCallResult) :=
  let '(c, result) := attempt_model c env pending in
  (c, match result with
      | Ok r => Ok (Some r)
      | Err err => if k_canceled env then Ok None else Err err
      | Panic => Panic
      end).

(** The context of the turn has ended. *)
Definition canceled (c : chat) : chat := goto c (CReturned Canceled_).
Definition is_system (m : LLMMessage) : bool := is_role RoleSystem_ m.
(** A session that was taken over gets the prompt and the tools of the foreground, once. *)
Definition foreground (c : chat) (env : round_env) : res chat :=
  if o_promoted env && negb (c_prepared c) then
    let* (prompt, tools) := o_foreground env in
    Ok (with_tools (with_messages (mark_prepared c)
          (filter (λ m, is_system m = true) prompt ++ filter (λ m, is_system m = false) (c_messages c))) tools)
  else Ok c.
Definition round_step (c : chat) (env : round_env) : option chat :=
  match o_refresh env with
  | Some err => Some (failedLoop c err)
  | None =>
    match foreground c env with
    | Panic => None
    | Err err => Some (failedLoop c err)
    | Ok c =>
      match o_selection env with
      | Some err => Some (failedLoop c err)
      | None =>
        let '(messages, pending) := if c_in_tools c then drainPendingUserInput url_parse session (c_messages c) (o_input env) else (c_messages c, None) in
        let '(c, result) := call_model (with_messages c messages) (o_call env) pending in
        match result with
        | Panic => None
        | Err err => Some (failedLoop c err)
        | Ok None => Some (canceled c)
        | Ok (Some result) =>
          let c := with_messages c (lc_Messages result) in
          if o_ctx env then Some (canceled c)
          else match o_extras env with
          | Some err => Some (failedLoop c err)
          | None =>
            match lc_ToolCalls result with
            | [] =>
              Some (if o_late env then canceled c
                    else goto c (CReturned (Completed (trim_space (lc_RawText result)) (trim_space (lc_Text result)))))
            | calls =>
              match o_text env, o_later env with
              | Some err, _ | None, Some err => Some (failedLoop c err)
              | None, None =>
                if negb (c_in_tools c) && negb (o_tool_phase env) then Some (goto c (CReturned Stopped_))
                else
                  let c := mark_tools c in
                  Some (goto c (if MaxRounds <=? c_rounds c then CSummary calls (lc_RawText result) else CTools calls (lc_RawText result)))
              end
            end
          end
        end
      end
    end
  end.

(** ** A batch of calls *)
Definition append_input (c : chat) (env : commit_env) (content operation : gostring) : res chat :=
  let* (n, m) := PrepareMessageID new_id (c_next c) (user_row session content Absent) in
  let* t := commit_messages url_parse (c_table c) env operation session [m] in
  let* projected := MessageFromStorage m in
  Ok (with_messages (with_store c t n) (c_messages c ++ [projected])).
Definition batch_step (c : chat) (calls_ : list ToolCallRequest) (raw : gostring) (env : batch_env) : option chat :=
  match h_before env with
  | Some err => Some (failedLoop c err)
  | None =>
    match Begin url_parse new_id (c_table c) (h_begin env) (c_next c) (ToolCallStorageMessage session raw raw calls_) with
    | Panic => None
    | Err err => Some (failedLoop c err)
    | Ok (n, t, committer) =>
      match run_batch url_parse RuleCard permission session calls_ (begin_batch calls_ t committer (c_auto c) (c_events c) (h_shown env)) (h_events env) with
      | None => None
      | Some b =>
        match b_pc b with
        | Returned r =>
          let c := after_batch c n b in
          match rr_Err r with
          | Some err => Some (failedLoop c err)
          | None =>
            if rr_Stopped r then Some (if h_ctx env then canceled c else goto c (CReturned Stopped_))
            else
              let c := with_messages c (c_messages c ++ committed (b_committer b)) in
              match h_schemas env with
              | Panic => None
              | Err err => Some (failedLoop c err)
              | Ok tools =>
                let c := with_tools c tools in
                if bool_decide (rr_Extra r = []) then Some (goto c CRound)
                else match append_input c (h_append env) (§"补充：" ++ rr_Extra r) §"append_confirmation_input" with
                     | Panic => None
                     | Err err => Some (failedLoop c err)
                     | Ok c => Some (goto c CRound)
                     end
              end
          end
        | _ => None
        end
      end
    end
  end.

(** ** The limit of rounds *)
Definition skippedToolMessages (calls : list ToolCallRequest) : list LLMMessage :=
  map (λ call, toolMessage (tc_Name call) (tc_ID call)
    (§"tool call skipped: max_rounds_per_turn=" ++ itoa MaxRounds ++ §" reached. Please summarize current progress without calling more tools.")) calls.
Fixpoint save_skipped (t : gmap gostring Message) (c : committer) (env : nat → commit_env) (i : nat) (calls : list (ToolCallRequest * LLMMessage))
  : res (gmap gostring Message * committer) :=
  match calls with
  | [] => Ok (t, c)
  | (call, m) :: calls =>
    let* (t, c) := Result url_parse t (env i) c i call (ToolResultStorageMessage url_parse session m) in save_skipped t c env (S i) calls
  end.
Definition summary_input : gostring := §"工具调用轮次已达到上限，可以询问用户是否继续或者基于已有工具结果和当前上下文总结当前进度。".
Definition summary_default : gostring := §"工具调用轮次已达到上限，当前流程已停止。".
(** The skipped calls in the transcript, then the pending input and the request for a summary. *)
Definition summary_messages (c : chat) (calls_ : list ToolCallRequest) (raw : gostring) (env : summary_env) : res (chat * option PendingUserMessage) :=
  let* (n, t, k) := Begin url_parse new_id (c_table c) (y_begin env) (c_next c) (ToolCallStorageMessage session raw raw calls_) in
  let* (t, k) := save_skipped t k (y_results env) 0 (zip calls_ (skippedToolMessages calls_)) in
  let* k := Flush k in
  let c := with_messages (with_store c t n) (c_messages c ++ committed k) in
  let '(messages, pending) := drainPendingUserInput url_parse session (c_messages c) (y_input env) in
  let* c := append_input (with_messages c messages) (y_append env) summary_input §"append_summary_input" in
  Ok (with_tools c [], pending).
Definition summary_step (c : chat) (calls_ : list ToolCallRequest) (raw : gostring) (env : summary_env) : option chat :=
  match summary_messages c calls_ raw env with
  | Panic => None
  | Err err => Some (failedLoop c err)
  | Ok (c, pending) =>
    let '(c, result) := call_model c (y_call env) pending in
    match result, y_extras env with
    | Panic, _ => None
    | Err err, _ | Ok _, Some err => Some (failedLoop c err)
    | Ok None, None => Some (canceled c)
    | Ok (Some result), None =>
        let text := lc_Text result in
        let raw := lc_RawText result in
        let '(text, raw) := if bool_decide (text = []) then (summary_default, if bool_decide (raw = []) then summary_default else raw) else (text, raw) in
        Some (if y_ctx env then canceled c else goto c (CReturned (Completed (trim_space raw) (trim_space text))))
    end
  end.

(** A confirmation of another session or of a background task, or a session that is forgotten. *)
Definition elsewhere (c : chat) (e : event) : chat :=
  Chat (c_table c) (c_next c) (after permission (c_auto c) e) (c_events c ++ [e]) (c_messages c) (c_tools c) (c_rounds c) (c_in_tools c)
       (c_prepared c) (c_pc c) (c_requests c).
Definition chat_step (c : chat) (e : chat_event) : option chat :=
  match e, c_pc c with
  | CElsewhere e, _ => Some (elsewhere c e)
  | CRoundEvent env, CRound => round_step c env
  | CBatchEvent env, CTools calls raw => batch_step c calls raw env
  | CSummaryEvent env, CSummary calls raw => summary_step c calls raw env
  | _, _ => None
  end.
Fixpoint run_chat (c : chat) (es : list chat_event) : option chat :=
  match es with
  | [] => Some c
  | e :: es => match chat_step c e with Some c => run_chat c es | None => None end
  end.
Definition start_chat (t : gmap gostring Message) (n : nat) (a : auto) (events : list event) (messages : list LLMMessage) (tools : list gostring) : chat :=
  Chat t n a events messages tools 0 false false CRound [].
End Loop.
