(* ===== verification/ChatLoopProps.v ===== *)
(** * A turn makes a bounded number of requests, and each is a conversation *)
From S2P Require Import Prelude GoStr Segment Turn HookPipeline ToolPermit ToolTranscript ToolTranscriptProps ToolBatch.
From S2P Require Import ToolBatchProps ChatPrompt ChatLoop.
Open Scope Z_scope.

Section Loop.
Context `{UnicodeTables} (url_parse : gostring → option (gostring * gostring)) (RuleCard : gostring).
Context (permission : Permission) (session : gostring) (MaxRounds : Z) (new_id : nat → res gostring).
Local Abbreviation step := (chat_step url_parse RuleCard permission session MaxRounds new_id).
Local Abbreviation run := (run_chat url_parse RuleCard permission session MaxRounds new_id).
Definition rounds_limit : Z := Z.max 0 MaxRounds.

(** What holds of a state with at most [k] requests. *)
Record core (k : Z) (c : chat) : Prop := {
  co_messages : well_formed (c_messages c) = true;
  co_requests : Forall (λ r, well_formed (rq_messages r) = true) (c_requests c);
  co_count : Z.of_nat (length (c_requests c)) ≤ k;
  co_rounds : 0 ≤ c_rounds c ≤ rounds_limit;
  co_auto : c_auto c = foldl (after permission) nothing_confirmed (c_events c)
}.
Definition request_bound (c : chat) : Z :=
  match c_pc c with CRound => c_rounds c | CTools _ _ | CSummary _ _ => c_rounds c + 1 | CReturned _ => rounds_limit + 2 end.
Definition cinv (c : chat) : Prop :=
  core (request_bound c) c ∧ match c_pc c with CTools _ _ => c_rounds c < MaxRounds | _ => True end.

Lemma core_mono k k' c : core k c → k ≤ k' → core k' c.
Proof. intros [H1 H2 H3 H4 H5] Hk. split; try done. lia. Qed.
Lemma core_goto k c p : core k c → core k (goto c p).
Proof. intros []. by split. Qed.
Lemma core_tools k c tools : core k c → core k (with_tools c tools).
Proof. intros []. by split. Qed.
Lemma core_store k c t n : core k c → core k (with_store c t n).
Proof. intros []. by split. Qed.
Lemma core_messages k c l : core k c → well_formed l = true → core k (with_messages c l).
Proof. intros [] Hl. by split. Qed.
Lemma core_mark k c : core k c → core k (mark_tools c) ∧ core k (mark_prepared c).
Proof. intros []. split; by split. Qed.
Lemma core_requested k c r : core k c → well_formed (rq_messages r) = true → core (k + 1) (requested_ c r).
Proof.
  intros [] Hr. split; try done; simpl; [apply Forall_app; by repeat constructor|]. rewrite length_app. cbn [length]. lia.
Qed.
(** Every step but those of other sessions brings the turn closer to its return. *)
Definition chat_measure (c : chat) : nat :=
  match c_pc c with
  | CRound => 2 * Z.to_nat (rounds_limit - c_rounds c) + 2
  | CTools _ _ => 2 * Z.to_nat (rounds_limit - c_rounds c) + 1
  | CSummary _ _ => 1
  | CReturned _ => 0
  end.
Definition closer (c c' : chat) : Prop := cinv c' ∧ (chat_measure c' < chat_measure c)%nat.
Lemma core_returned k c c' r : core k c' → k ≤ rounds_limit + 2 → (0 < chat_measure c)%nat → closer c (goto c' (CReturned r)).
Proof. intros Hc Hk Hm. split; [|done]. split; [|done]. eapply core_mono; [by apply core_goto|done]. Qed.

(** ** A call of the model *)
Lemma attempt_core k c env pending c' r : core k c → attempt_model url_parse RuleCard new_id c env pending = (c', r) →
  core (k + 1) c' ∧ c_pc c' = c_pc c ∧ c_rounds c' = c_rounds c ∧ c_in_tools c' = c_in_tools c
  ∧ ∀ x, r = Ok x → well_formed (lc_Messages x) = true.
Proof.
  intros Hc. unfold attempt_model. assert (core (k + 1) c) as Hc1 by (eapply core_mono; [exact Hc|lia]).
  destruct (PrepareCall _ _ _ _ _ _ _ _ _) as [[[t n] [[base requested] tools]]|err|] eqn:Hp; [|by intros [= <- <-]..].
  destruct (PrepareCall_well_formed _ _ _ _ _ _ _ _ _ _ _ _ _ _ (co_messages _ _ Hc) Hp) as [Hb Hr].
  destruct (k_materials env); [intros [= <- <-]; split; [by apply core_store|done]|].
  assert (core (k + 1) (requested_ (with_store c t n) {| rq_messages := requested; rq_tools := tools |})) as Hq
    by (by apply core_requested; [apply core_store|]).
  destruct (callOnce _ _); intros [= <- <-]; (split; [done|]); repeat (split; [done|]); [done|].
  intros x. destruct (k_response env raw calls) as [[text calls']| |]; simpl; [|done|done]. by intros [= <-].
Qed.
Lemma call_core k c env pending c' r : core k c → call_model url_parse RuleCard new_id c env pending = (c', r) →
  core (k + 1) c' ∧ c_pc c' = c_pc c ∧ c_rounds c' = c_rounds c ∧ c_in_tools c' = c_in_tools c
  ∧ ∀ x, r = Ok (Some x) → well_formed (lc_Messages x) = true.
Proof.
  intros Hc. unfold call_model. destruct (attempt_model _ _ _ _ _ _) as [c1 r1] eqn:Ha. intros [= <- <-].
  destruct (attempt_core _ _ _ _ _ _ Hc Ha) as (H1 & H2 & H3 & H4 & H5). repeat (split; [done|]).
  intros x. destruct r1 as [y|e|]; [intros [= <-]; by apply H5|by destruct (k_canceled env)|done].
Qed.

(** ** The steps *)
Lemma foreground_core k c env c' : core k c → foreground c env = Ok c' → core k c' ∧ c_pc c' = c_pc c ∧ c_rounds c' = c_rounds c.
Proof.
  intros Hc. unfold foreground. destruct (_ && _); [|by intros [= <-]]. rewrite res_bind_ok. intros ([prompt tools] & _ & [= <-]).
  split; [|done]. apply core_tools, core_messages; [apply (core_mark _ _ Hc)|]. apply well_formed_app.
  - apply systems_well_formed, Forall_forall. intros m [Hm _]%list_elem_of_filter. unfold is_system, is_role in Hm. by apply bool_decide_eq_true in Hm.
  - apply not_system_conversation, (co_messages _ _ Hc).
Qed.
Lemma round_core c env c' : cinv c → c_pc c = CRound → round_step url_parse RuleCard session MaxRounds new_id c env = Some c' → closer c c'.
Proof.
  intros [Hc _] Hpc. unfold request_bound in Hc. rewrite Hpc in Hc. pose proof (co_rounds _ _ Hc) as Hro.
  assert (0 < chat_measure c)%nat as Hpos by (unfold chat_measure; rewrite Hpc; lia).
  assert (∀ k c2 q, core k c2 → k ≤ c_rounds c + 1 → closer c (goto c2 (CReturned q))) as Hret by (intros k c2 q H2 Hk; eapply core_returned; [exact H2|lia|done]).
  unfold round_step. destruct (o_refresh env); [intros [= <-]; eapply Hret; [exact Hc|lia]|].
  destruct (foreground c env) as [c1|err|] eqn:Hf; [|intros [= <-]; eapply Hret; [exact Hc|lia]|done].
  destruct (foreground_core _ _ _ _ Hc Hf) as (Hc1 & Hpc1 & Hr1). destruct (o_selection env); [intros [= <-]; eapply Hret; [exact Hc1|lia]|].
  destruct (if c_in_tools c1 then _ else _) as [messages pending] eqn:Hd.
  assert (well_formed messages = true) as Hm.
  { pose proof (co_messages _ _ Hc1) as H1. destruct (c_in_tools c1); [|by injection Hd as <- _].
    pose proof (drain_well_formed url_parse session (c_messages c1) (o_input env) H1) as H2. by rewrite Hd in H2. }
  destruct (call_model _ _ _ _ _ _) as [c2 r] eqn:Hcall.
  destruct (call_core _ _ _ _ _ _ (core_messages _ _ _ Hc1 Hm) Hcall) as (Hc2 & _ & Hr2 & _ & Hx). simpl in Hr2.
  destruct r as [[x|]|err|]; [|intros [= <-]; eapply Hret; [exact Hc2|lia]|intros [= <-]; eapply Hret; [exact Hc2|lia]|done].
  assert (core (c_rounds c + 1) (with_messages c2 (lc_Messages x))) as Hc3 by (apply core_messages; [done|by apply Hx]).
  assert (∀ q, closer c (goto (with_messages c2 (lc_Messages x)) (CReturned q))) as Hret3 by (intros q; eapply Hret; [exact Hc3|lia]).
  destruct (o_ctx env); [intros [= <-]; apply Hret3|]. destruct (o_extras env); [intros [= <-]; apply Hret3|].
  destruct (lc_ToolCalls x) as [|call calls_]; [intros [= <-]; destruct (o_late env); apply Hret3|].
  destruct (o_text env); [intros [= <-]; apply Hret3|]. destruct (o_later env); [intros [= <-]; apply Hret3|].
  destruct (_ && _); [intros [= <-]; apply Hret3|]. intros [= <-]. destruct (core_mark _ _ Hc3) as [Hc4 _].
  simpl. rewrite Hr2, Hr1. destruct (Z.leb_spec MaxRounds (c_rounds c)); (split; [split; unfold request_bound; simpl; rewrite ?Hr2, ?Hr1; try done; by apply core_goto|]);
    unfold chat_measure; rewrite Hpc; simpl; rewrite ?Hr2, ?Hr1; lia.
Qed.
Lemma plain_append_core k c env content op c' : core k c → append_input url_parse session new_id c env content op = Ok c' →
  core k c' ∧ c_pc c' = c_pc c ∧ c_rounds c' = c_rounds c.
Proof.
  intros Hc. unfold append_input. rewrite res_bind_ok. intros ([n m] & Hm & H1). apply res_bind_ok in H1 as (t & _ & H1).
  apply res_bind_ok in H1 as (p & Hp & [= <-]). split; [|done]. apply core_messages; [by apply core_store|].
  apply well_formed_app; [apply (co_messages _ _ Hc)|]. apply MessageFromStorage_shape in Hp as (Hr & _ & Hcs).
  assert (sm_Role m = RoleUser_) as Hu. { unfold PrepareMessageID in Hm. simpl in Hm. apply res_bind_ok in Hm as (id & _ & [= _ <-]). done. }
  rewrite Hu in Hr. apply one_well_formed; rewrite Hr; done.
Qed.
Lemma starts_batch k c env n t1 c1 shown raw calls_ : core k c →
  Begin url_parse new_id (c_table c) env (c_next c) (ToolCallStorageMessage session raw raw calls_) = Ok (n, t1, c1) →
  starts url_parse permission session calls_ (sm_ID (head c1)) (begin_batch calls_ t1 c1 (c_auto c) (c_events c) shown).
Proof.
  intros Hc Hb. exists new_id, (c_table c), env, (c_next c), raw, raw, n, t1, c1, (c_events c), shown. split; [exact Hb|]. split; [done|].
  by rewrite (co_auto _ _ Hc).
Qed.
Lemma after_batch_core k c n b : core k c → c_rounds c < MaxRounds → b_auto b = foldl (after permission) nothing_confirmed (b_events b) →
  core k (after_batch c n b).
Proof. intros [] Hr Ha. split; try done. simpl. unfold rounds_limit in *. lia. Qed.
Lemma batch_core c calls_ raw env c' : cinv c → c_pc c = CTools calls_ raw →
  batch_step url_parse RuleCard permission session new_id c calls_ raw env = Some c' → closer c c'.
Proof.
  intros [Hc Hlt] Hpc. unfold request_bound in Hc. rewrite Hpc in Hc, Hlt. pose proof (co_rounds _ _ Hc) as Hro.
  assert (0 < chat_measure c)%nat as Hpos by (unfold chat_measure; rewrite Hpc; lia).
  assert (∀ c2 r, core (c_rounds c + 1) c2 → closer c (goto c2 (CReturned r))) as Hret by (intros c2 r H2; eapply core_returned; [exact H2|lia|done]).
  assert (∀ c2, core (c_rounds c + 1) c2 → c_rounds c2 = c_rounds c + 1 → closer c (goto c2 CRound)) as Hnext.
  { intros c2 H2 Hr2. split; [split; [unfold request_bound; simpl; rewrite Hr2; by apply core_goto|done]|].
    unfold chat_measure. rewrite Hpc. simpl. rewrite Hr2. unfold rounds_limit. lia. }
  unfold batch_step. destruct (h_before env); [intros [= <-]; by apply Hret|].
  destruct (Begin _ _ _ _ _ _) as [[[n t1] c1]|err|] eqn:Hb; [|intros [= <-]; by apply Hret|done].
  destruct (run_batch _ _ _ _ _ _ _) as [b|] eqn:Hrun; [|done]. destruct (b_pc b) as [| | | | |r] eqn:Hbpc; try done.
  pose proof (starts_batch _ _ _ _ _ _ (h_shown env) _ _ Hc Hb) as Hst.
  pose proof (starts_ok _ _ _ _ _ _ Hst) as Hb0.
  pose proof (run_ok _ _ _ _ _ _ _ _ _ Hb0 Hrun) as Hbi. pose proof (sinv_run _ _ _ _ _ _ _ _ _ Hb0 (starts_sinv _ _ _ _ _ _ Hst) Hrun) as Hsi.
  pose proof (after_batch_core _ _ n b Hc Hlt (si_auto _ _ _ Hsi)) as Hc2.
  destruct (rr_Err r) eqn:He; [intros [= <-]; by apply Hret|].
  destruct (rr_Stopped r) eqn:Hs; [intros [= <-]; destruct (h_ctx env); by apply Hret|].
  assert (core (c_rounds c + 1) (with_messages (after_batch c n b) (c_messages c ++ committed (b_committer b)))) as Hc3.
  { apply core_messages; [done|]. apply well_formed_app; [apply (co_messages _ _ Hc)|]. eapply transcript_well_formed.
    pose proof (bi_flushed _ _ _ Hbi) as Hf. rewrite Hbpc in Hf. apply Hf. unfold succeeded. by rewrite He, Hs. }
  destruct (h_schemas env) as [tools|err|]; [|intros [= <-]; by apply Hret|done].
  apply (core_tools _ _ tools) in Hc3. set (c2 := with_tools _ _) in *.
  destruct (bool_decide _); [intros [= <-]; by apply Hnext|].
  destruct (append_input _ _ _ _ _ _ _) as [c4|err|] eqn:Happ; [|intros [= <-]; by apply Hret|done].
  destruct (plain_append_core _ _ _ _ _ _ Hc3 Happ) as (Hc4 & _ & Hr4). intros [= <-]. by apply Hnext.
Qed.

(** ** The limit of rounds *)
Lemma save_skipped_ok env cs : ∀ i t c done t' c', committing t c done → Forall (λ p : ToolCallRequest * LLMMessage, lm_ToolCallID p.2 = tc_ID p.1) cs →
  save_skipped url_parse session t c env i cs = Ok (t', c') → ∃ done', committing t' c' done'.
Proof.
  induction cs as [|[call m] cs IH]; intros i t c done t' c' Hc Hcs; simpl; [intros [= <- <-]; by exists done|].
  rewrite res_bind_ok. intros ([t1 c1] & Hr & Hrest). inversion Hcs as [|? ? Hid Hcs']; subst.
  assert (sm_ToolCallID (ToolResultStorageMessage url_parse session m) = tc_ID call) as Hid' by exact Hid.
  destruct (Result_step url_parse _ _ _ _ _ _ _ _ _ Hc Hid' Hr) as (_ & Hc1 & _). by eapply IH.
Qed.
Lemma skipped_ids cs : Forall (λ p : ToolCallRequest * LLMMessage, lm_ToolCallID p.2 = tc_ID p.1) (zip cs (skippedToolMessages MaxRounds cs)).
Proof. unfold skippedToolMessages. induction cs as [|call cs IH]; simpl; constructor; done. Qed.
Lemma summary_messages_core k c calls_ raw env c' pending : core k c →
  summary_messages url_parse session MaxRounds new_id c calls_ raw env = Ok (c', pending) → core k c' ∧ c_pc c' = c_pc c ∧ c_rounds c' = c_rounds c.
Proof.
  intros Hc. unfold summary_messages. rewrite res_bind_ok. intros ([[n t] k0] & Hb & H1).
  apply res_bind_ok in H1 as ([t1 k1] & Hs & H1). apply res_bind_ok in H1 as (k2 & Hf & H1).
  destruct (Begin_ok url_parse new_id _ _ _ (ToolCallStorageMessage session raw raw calls_) _ _ _ _ eq_refl Hb) as (Hcm & _).
  destruct (save_skipped_ok _ _ _ _ _ _ _ _ Hcm (skipped_ids calls_) Hs) as (done' & Hcm1).
  assert (remaining k1 = 0) as Hr0 by (unfold Flush in Hf; destruct (Z.eqb_spec (remaining k1) 0); done).
  destruct (Flush_ok _ _ _ Hcm1 Hr0) as (k2' & Hf' & _ & Htr). rewrite Hf in Hf'. injection Hf' as <-.
  set (c1 := with_messages _ _) in *. assert (core k c1) as Hc1.
  { apply core_messages; [by apply core_store|]. apply well_formed_app; [apply (co_messages _ _ Hc)|by eapply transcript_well_formed]. }
  pose proof (drain_well_formed url_parse session (c_messages c1) (y_input env) (co_messages _ _ Hc1)) as Hd.
  destruct (drainPendingUserInput _ _ _ _) as [messages p]. apply res_bind_ok in H1 as (c2 & Ha & [= <- <-]).
  destruct (plain_append_core _ _ _ _ _ _ (core_messages _ _ _ Hc1 Hd) Ha) as (Hc2 & Hp2 & Hr2). split; [by apply core_tools|done].
Qed.
Lemma summary_core c calls_ raw env c' : cinv c → c_pc c = CSummary calls_ raw →
  summary_step url_parse RuleCard session MaxRounds new_id c calls_ raw env = Some c' → closer c c'.
Proof.
  intros [Hc _] Hpc. unfold request_bound in Hc. rewrite Hpc in Hc. pose proof (co_rounds _ _ Hc) as Hro. unfold summary_step.
  assert (0 < chat_measure c)%nat as Hpos by (unfold chat_measure; rewrite Hpc; lia).
  destruct (summary_messages _ _ _ _ _ _ _ _) as [[c1 pending]|err|] eqn:Hs; [|intros [= <-]; eapply core_returned; [exact Hc|lia|done]|done].
  destruct (summary_messages_core _ _ _ _ _ _ _ Hc Hs) as (Hc1 & _ & _). destruct (call_model _ _ _ _ _ _) as [c2 r] eqn:Hcall.
  destruct (call_core _ _ _ _ _ _ Hc1 Hcall) as (Hc2 & _). assert (∀ q, closer c (goto c2 (CReturned q))) as Hret by (intros q; eapply core_returned; [exact Hc2|lia|done]).
  destruct r as [[x|]|err|], (y_extras env); try done; try (intros [= <-]; apply Hret).
  case_bool_decide; intros [= <-]; destruct (y_ctx env); apply Hret.
Qed.
Lemma elsewhere_core c e : cinv c → cinv (elsewhere permission c e).
Proof.
  intros [[] Hlt]. split; [|done]. split; try done. simpl. rewrite foldl_app. simpl. congruence.
Qed.
Definition is_chat_own (e : chat_event) : bool := match e with CElsewhere _ => false | _ => true end.
Lemma chat_step_ok c e c' : cinv c → step c e = Some c' →
  cinv c' ∧ (chat_measure c' + (if is_chat_own e then 1 else 0) ≤ chat_measure c)%nat.
Proof.
  intros Hc. destruct e as [e|env|env|env]; simpl; [intros [= <-]; split; [by apply elsewhere_core|unfold chat_measure; simpl; lia]|..];
    destruct (c_pc c) eqn:Hpc; try done; intros Hs.
  - destruct (round_core _ _ _ Hc Hpc Hs). split; [done|lia].
  - destruct (batch_core _ _ _ _ _ Hc Hpc Hs). split; [done|lia].
  - destruct (summary_core _ _ _ _ _ Hc Hpc Hs). split; [done|lia].
Qed.
Lemma run_chat_ok es : ∀ c c', cinv c → run c es = Some c' →
  cinv c' ∧ (length (filter (λ e, is_chat_own e = true) es) + chat_measure c' ≤ chat_measure c)%nat.
Proof.
  induction es as [|e es IH]; intros c c' Hc; simpl; [intros [= <-]; split; [done|lia]|].
  destruct (step c e) as [c1|] eqn:He; [|done]. intros Hr. destruct (chat_step_ok _ _ _ Hc He) as [Hc1 Hm].
  destruct (IH _ _ Hc1 Hr) as [Hc' Hl]. split; [done|]. rewrite filter_cons. destruct (is_chat_own e); simpl; lia.
Qed.
Lemma start_chat_ok t n events messages tools : well_formed messages = true →
  cinv (start_chat t n (foldl (after permission) nothing_confirmed events) events messages tools).
Proof. intros Hm. split; [|done]. split; try done; simpl; [unfold rounds_limit; lia]. Qed.

(** A turn whose stored rows form a dialogue, with its input prepared. *)
Definition turn_starts (c : chat) : Prop :=
  ∃ p env user needs messages tools row t n events,
    dialogue (pl_rows p) ∧ sm_Role user = RoleUser_
    ∧ PrepareInput url_parse RuleCard p env user needs = Ok (messages, tools, row)
    ∧ c = start_chat t n (foldl (after permission) nothing_confirmed events) events messages tools.
Lemma turn_starts_ok c : turn_starts c → cinv c ∧ chat_measure c = (2 * Z.to_nat rounds_limit + 2)%nat.
Proof.
  intros (p & env & user & needs & messages & tools & row & t & n & events & Hd & Hu & Hp & ->). split.
  - apply start_chat_ok. by eapply PrepareInput_well_formed.
  - unfold chat_measure. simpl. by rewrite Z.sub_0_r.
Qed.

(** C8: In a turn over stored rows that form a dialogue, whatever hooks, tools,
    users and models do, every request to the model is a conversation in which
    each assistant message with calls is followed by the answers to exactly
    these calls in order, no other message is an answer, and the messages the
    turn goes on with are one too. *)
Theorem chat_requests_well_formed c es c' : turn_starts c → run c es = Some c' →
  Forall (λ r, well_formed (rq_messages r) = true) (c_requests c') ∧ well_formed (c_messages c') = true.
Proof.
  intros [Hc _]%turn_starts_ok Hr. destruct (run_chat_ok _ _ _ Hc Hr) as [[Hi _] _]. split; [apply (co_requests _ _ Hi)|apply (co_messages _ _ Hi)].
Qed.
End Loop.

(** * A turn of the chat loop returns

    The hooks, the archive and the numbering of messages return an answer or an
    error; then no step of a turn is stuck, and a turn ends. *)
(** ** What the world answers *)
Definition archives (env : commit_env) : Prop := ∀ s, dw_archive env s ≠ Panic.
Definition prepare_ok (env : prepare_env) : Prop :=
  v_discovered env ≠ Panic ∧ (∀ m t s, v_hook env m t s ≠ Panic) ∧ (∀ t, v_filter env t ≠ Panic) ∧ (∀ s, v_archive env s ≠ Panic)
  ∧ v_rules_shown env ≠ Panic ∧ archives (v_store env).
Definition call_ok (env : call_env) : Prop := prepare_ok (k_prepare env) ∧ ∀ raw calls, k_response env raw calls ≠ Panic.
Definition round_ok (env : round_env) : Prop := o_foreground env ≠ Panic ∧ call_ok (o_call env).
Definition batch_ok (env : batch_env) : Prop := archives (h_begin env) ∧ archives (h_append env) ∧ h_schemas env ≠ Panic.
Definition summary_ok (env : summary_env) : Prop :=
  archives (y_begin env) ∧ (∀ i, archives (y_results env i)) ∧ archives (y_append env) ∧ call_ok (y_call env).
Definition with_events (env : batch_env) (es : list run_event) : batch_env :=
  {| h_before := h_before env; h_begin := h_begin env; h_shown := h_shown env; h_events := es; h_ctx := h_ctx env; h_schemas := h_schemas env;
     h_append := h_append env |}.

Section Run.
Context `{UnicodeTables} (url_parse : gostring → option (gostring * gostring)) (RuleCard : gostring).
Context (permission : Permission) (session : gostring) (MaxRounds : Z) (new_id : nat → res gostring).
Hypothesis new_id_total : ∀ n, new_id n ≠ Panic.
Local Abbreviation step := (chat_step url_parse RuleCard permission session MaxRounds new_id).
Local Abbreviation run := (run_chat url_parse RuleCard permission session MaxRounds new_id).

Lemma DecodeMetadata_total c : DecodeMetadata c ≠ Panic.
Proof. by destruct c. Qed.
Lemma PrepareMessageID_total n m : PrepareMessageID new_id n m ≠ Panic.
Proof. unfold PrepareMessageID. destruct (negb _); [done|]. by apply bind_total. Qed.
Lemma res_map_total {A B} (f : A → res B) l : (∀ a, f a ≠ Panic) → res_map f l ≠ Panic.
Proof. intros Hf. induction l as [|a l IH]; simpl; [done|]. apply bind_total; [done|]. intros b _. by apply bind_total. Qed.
Lemma appendMessages_total s rows : ∀ t, appendMessages t s rows ≠ Panic.
Proof.
  induction rows as [|m rows IH]; intros t; simpl; [done|]. apply bind_total; [|by intros a _]. unfold appendMessage.
  destruct (negb _); [done|]. case_bool_decide; [done|]. by destruct (t !! _).
Qed.
Lemma database_total {A} env op (r : res A) : r ≠ Panic → database env op r ≠ Panic.
Proof. intros Hr. unfold database. destruct (dw_gate env); [done|]. rewrite res_wrap_panic. by destruct (dw_fails env). Qed.
Lemma commit_messages_total t env op s rows : archives env → commit_messages url_parse t env op s rows ≠ Panic.
Proof.
  intros He. unfold commit_messages. apply bind_total; [apply res_map_total; intros a; by apply archive_row_total|].
  intros rows' _. apply database_total, appendMessages_total.
Qed.
Lemma prepare_ids_total rows : ∀ n, prepare_ids new_id n rows ≠ Panic.
Proof.
  induction rows as [|m rows IH]; intros n; simpl; [done|]. apply bind_total; [apply PrepareMessageID_total|]. intros [n1 m1] _.
  apply bind_total; [apply IH|]. by intros [].
Qed.
Lemma validateToolBatch_total b : validateToolBatch b ≠ Panic.
Proof.
  unfold validateToolBatch. destruct (_ || _); [done|]. apply bind_total; [apply DecodeMetadata_total|]. intros md _.
  destruct (md_tool_calls md); [|done]. by destruct (valid_slots _ _ _ _ _).
Qed.
Lemma Begin_total t env n h : archives env → Begin url_parse new_id t env n h ≠ Panic.
Proof.
  intros He. unfold Begin. apply bind_total; [apply DecodeMetadata_total|]. intros md _. apply bind_total.
  - unfold NewToolBatch. apply bind_total; [apply PrepareMessageID_total|]. intros [n1 h1] _. apply bind_total; [apply prepare_ids_total|].
    intros [n2 rs] _. apply bind_total; [apply DecodeMetadata_total|done].
  - intros [n1 b] _. apply bind_total; [|by intros []]. unfold commit_batch. apply bind_total; [by apply archive_row_total|]. intros h1 _.
    apply bind_total; [apply res_map_total; intros a; by apply archive_row_total|]. intros rs _. apply database_total.
    apply bind_total; [apply validateToolBatch_total|]. intros _ _. by apply bind_total; [apply appendMessages_total|].
Qed.
Lemma append_input_total c env content op : archives env → append_input url_parse session new_id c env content op ≠ Panic.
Proof.
  intros He. unfold append_input. apply bind_total; [apply PrepareMessageID_total|]. intros [n m] _.
  apply bind_total; [by apply commit_messages_total|]. intros t _. by apply bind_total; [apply MessageFromStorage_total|].
Qed.
Lemma save_skipped_total env cs : (∀ i, archives (env i)) → ∀ i t c saved, committing t c saved → (i + length cs ≤ length (calls c))%nat →
  Forall (λ p : ToolCallRequest * LLMMessage, lm_ToolCallID p.2 = tc_ID p.1) cs → save_skipped url_parse session t c env i cs ≠ Panic.
Proof.
  intros He. induction cs as [|[call m] cs IH]; intros i t c saved Hc Hi Hcs; simpl; [done|]. simpl in Hi. apply bind_total.
  - apply Result_total; [apply He|lia|apply (cm_len _ _ _ Hc)].
  - intros [t1 c1] Hr. inversion Hcs as [|? ? Hid Hcs']; subst. assert (sm_ToolCallID (ToolResultStorageMessage url_parse session m) = tc_ID call) as Hid' by exact Hid.
    destruct (Result_step url_parse _ _ _ _ _ _ _ _ _ Hc Hid' Hr) as (_ & Hc1 & _ & slot & stored & _ & _ & ->).
    eapply IH; [exact Hc1| |done]. simpl. rewrite length_insert. lia.
Qed.

(** ** A call of the model *)
Lemma PrepareCall_total t n env messages tools pending : prepare_ok env →
  (∀ p, pending = Some p → (pu_Index p < length messages)%nat) → PrepareCall url_parse RuleCard new_id t n env messages tools pending ≠ Panic.
Proof.
  intros (H1 & H2 & H3 & H4 & H5 & H6) Hp. unfold PrepareCall.
  apply bind_total; [destruct (v_mode env); [done|done|by apply bind_total]|]. intros allowed _.
  apply bind_total; [destruct pending; [|done]; apply bind_total; [apply PrepareMessageID_total|by intros []]|]. intros [n1 pend] Hpend.
  assert (∀ p m, pend = Some (p, m) → is_Some (messages !! pu_Index p)) as Hin.
  { intros p m ->. destruct pending as [p'|]; [|done]. apply res_bind_ok in Hpend as ([n2 m2] & _ & [= _ <- _]). by apply lookup_lt_is_Some, Hp. }
  apply bind_total; [destruct pend as [[p m]|]; [|done]; by destruct (Hin p m eq_refl) as [x ->]|]. intros hs _.
  apply bind_total; [done|]. intros [segments tools1] _. apply bind_total; [rewrite res_wrap_panic; done|]. intros tools2 _.
  destruct pend as [[p m]|]; [|done]. destruct (Hin p m eq_refl) as [x Hx].
  apply bind_total; [done|]. intros segs _. apply bind_total; [done|]. intros shown _.
  apply bind_total; [case_bool_decide; [done|]; by apply bind_total; [apply DecodeMetadata_total|]|]. intros m1 _.
  apply bind_total; [unfold set_message; by rewrite Hx|]. intros base _.
  apply bind_total; [unfold set_message; by rewrite (lookup_app_l_Some _ _ _ _ Hx)|]. intros req _.
  by apply bind_total; [apply commit_messages_total|].
Qed.
Lemma call_total c env pending : call_ok env → (∀ p, pending = Some p → (pu_Index p < length (c_messages c))%nat) →
  (call_model url_parse RuleCard new_id c env pending).2 ≠ Panic.
Proof.
  intros [Hp Hr] Hi. unfold call_model, attempt_model. pose proof (PrepareCall_total (c_table c) (c_next c) (k_prepare env) (c_messages c) (c_tools c) pending Hp Hi) as Ht.
  destruct (PrepareCall _ _ _ _ _ _ _ _ _) as [[[t n] [[base requested] tools]]|err|]; [|simpl; by destruct (k_canceled env)|done].
  destruct (k_materials env); [simpl; by destruct (k_canceled env)|]. destruct (callOnce _ _); [simpl; by destruct (k_canceled env)|]. simpl.
  specialize (Hr raw calls). destruct (k_response env raw calls) as [[text calls']| |]; simpl; [done|by destruct (k_canceled env)|done].
Qed.
Lemma drain_index s messages input p : (drainPendingUserInput url_parse s messages input).2 = Some p →
  (pu_Index p < length (drainPendingUserInput url_parse s messages input).1)%nat.
Proof. unfold drainPendingUserInput. destruct (_ && _); [done|]. simpl. intros [= <-]. rewrite length_app. simpl. lia. Qed.

(** ** Every step is possible *)
Lemma round_total c env : round_ok env → is_Some (round_step url_parse RuleCard session MaxRounds new_id c env).
Proof.
  intros [Hf Hc]. unfold round_step. destruct (o_refresh env); [done|].
  assert (foreground c env ≠ Panic) as Ht by (unfold foreground; destruct (_ && _); [|done]; apply bind_total; [done|by intros []]).
  destruct (foreground c env) as [c1|err|]; [|done|done]. destruct (o_selection env); [done|].
  destruct (if c_in_tools c1 then _ else _) as [messages pending] eqn:Hd.
  pose proof (call_total (with_messages c1 messages) (o_call env) pending Hc) as Hcall.
  destruct (call_model _ _ _ _ _ _) as [c2 r]. destruct r as [[x|]|err|]; [|done|done|].
  - destruct (o_ctx env); [done|]. destruct (o_extras env); [done|]. destruct (lc_ToolCalls x); [done|].
    destruct (o_text env), (o_later env); try done. by destruct (_ && _).
  - exfalso. apply Hcall; [|done]. intros p ->. simpl. destruct (c_in_tools c1); [|done].
    pose proof (drain_index session (c_messages c1) (o_input env) p) as Hi. rewrite Hd in Hi. by apply Hi.
Qed.
Lemma batch_total k c calls_ raw env w : core permission MaxRounds k c → batch_ok env → world_ok w →
  ∃ es, is_Some (batch_step url_parse RuleCard permission session new_id c calls_ raw (with_events env es)).
Proof.
  intros Hc (Hb & Ha & Hs) Hw. unfold batch_step. cbn [with_events h_before h_begin h_shown h_events h_ctx h_schemas h_append].
  destruct (h_before env); [by exists []|]. pose proof (Begin_total (c_table c) (h_begin env) (c_next c) (ToolCallStorageMessage session raw raw calls_) Hb) as Hbt.
  destruct (Begin _ _ _ _ _ _) as [[[n t1] c1]|err|] eqn:Hbeg; [|by exists []|done].
  pose proof (starts_batch url_parse permission session MaxRounds new_id k c (h_begin env) n t1 c1 (h_shown env) raw calls_ Hc Hbeg) as Hst.
  destruct (driven url_parse RuleCard permission session calls_ w _ Hw _ _ (Nat.le_refl _) (starts_ok _ _ _ _ _ _ Hst)) as (es & b & Hrun & r & Hr).
  exists es. rewrite Hrun, Hr. destruct (rr_Err r); [done|]. destruct (rr_Stopped r); [by destruct (h_ctx env)|].
  destruct (h_schemas env); [|done|done]. destruct (bool_decide _); [done|].
  pose proof (append_input_total (with_tools (with_messages (after_batch c n b) (c_messages (after_batch c n b) ++ committed (b_committer b))) a) (h_append env)
    (§"补充：" ++ rr_Extra r) §"append_confirmation_input" Ha) as Hap. by destruct (append_input _ _ _ _ _ _ _).
Qed.
Lemma Flush_total c : Flush c ≠ Panic.
Proof.
  unfold Flush. destruct (negb _); [done|]. apply bind_total; [|done]. apply (res_map_total MessageFromStorage (head c :: results c)), MessageFromStorage_total.
Qed.
Lemma summary_total c calls_ raw env : summary_ok env → is_Some (summary_step url_parse RuleCard session MaxRounds new_id c calls_ raw env).
Proof.
  intros (Hb & Hr & Ha & Hc). unfold summary_step.
  assert (∀ c1 p, summary_messages url_parse session MaxRounds new_id c calls_ raw env = Ok (c1, Some p) → (pu_Index p < length (c_messages c1))%nat) as Hi.
  { intros c1 p. unfold summary_messages. rewrite res_bind_ok. intros ([[n t] k] & _ & H1). apply res_bind_ok in H1 as ([t1 k1] & _ & H1).
    apply res_bind_ok in H1 as (k2 & _ & H1). destruct (drainPendingUserInput _ _ _ _) as [messages pending] eqn:Hd.
    apply res_bind_ok in H1 as (c2 & Happ & [= <- ->]). pose proof (drain_index _ _ _ p (f_equal snd Hd)) as Hlt. rewrite Hd in Hlt. simpl in Hlt.
    unfold append_input in Happ. apply res_bind_ok in Happ as ([n' m] & _ & H1). apply res_bind_ok in H1 as (t' & _ & H1).
    apply res_bind_ok in H1 as (q & _ & [= <-]). simpl. rewrite length_app. lia. }
  assert (summary_messages url_parse session MaxRounds new_id c calls_ raw env ≠ Panic) as Ht.
  { unfold summary_messages. apply bind_total; [by apply Begin_total|]. intros [[n t] k] Hbeg.
    destruct (Begin_ok url_parse new_id _ _ _ (ToolCallStorageMessage session raw raw calls_) _ _ _ _ eq_refl Hbeg) as (Hcm & Hcs & _).
    apply bind_total.
    - eapply save_skipped_total; [done|exact Hcm| |apply skipped_ids]. rewrite length_zip, Hcs. simpl. destruct calls_; simpl; lia.
    - intros [t1 k1] _. apply bind_total; [apply Flush_total|]. intros k2 _. destruct (drainPendingUserInput _ _ _ _).
      by apply bind_total; [apply append_input_total|]. }
  destruct (summary_messages _ _ _ _ _ _ _ _) as [[c1 pending]|err|]; [|done|done].
  pose proof (call_total c1 (y_call env) pending Hc) as Hcall. destruct (call_model _ _ _ _ _ _) as [c2 r].
  destruct r as [[x|]|err|].
  - destruct (y_extras env); [done|]. case_bool_decide; done.
  - by destruct (y_extras env).
  - by destruct (y_extras env).
  - exfalso. apply Hcall; [|done]. intros p ->. by apply Hi.
Qed.

(** C9: A turn makes at most two requests (each with its retries) more than its limit of rounds, runs
    at most that many batches of tools, and takes a bounded number of steps.
    Until it returns its next step is possible, whatever is answered: for a
    batch of tools, with some run of the batch. *)
Theorem chat_turn_returns c es c' : turn_starts url_parse RuleCard permission c → run c es = Some c' →
  let limit := rounds_limit MaxRounds in
  Z.of_nat (length (filter (λ e, is_chat_own e = true) es)) ≤ 2 * limit + 2
  ∧ Z.of_nat (length (c_requests c')) ≤ limit + 2 ∧ c_rounds c' ≤ limit
  ∧ match c_pc c' with
    | CRound => ∀ env, round_ok env → is_Some (step c' (CRoundEvent env))
    | CTools _ _ => ∀ env, batch_ok env → ∃ events, is_Some (step c' (CBatchEvent (with_events env events)))
    | CSummary _ _ => ∀ env, summary_ok env → is_Some (step c' (CSummaryEvent env))
    | CReturned _ => True
    end.
Proof.
  intros Hst Hr limit. assert (world_ok calm_world) as Hw by (by split). destruct (turn_starts_ok url_parse RuleCard permission MaxRounds c Hst) as [Hc Hm].
  destruct (run_chat_ok _ _ _ _ _ _ _ _ _ Hc Hr) as [[Hi _] Hl]. pose proof (co_rounds _ _ _ _ Hi) as Hro. split; [unfold limit; lia|]. split; [|split].
  - pose proof (co_count _ _ _ _ Hi). unfold request_bound in *. unfold limit. destruct (c_pc c'); lia.
  - apply Hro.
  - destruct (c_pc c') eqn:Hpc; simpl; rewrite ?Hpc; [intros env; by apply round_total|intros env He; by eapply batch_total|intros env; by apply summary_total|done].
Qed.
End Run.

(** ** The properties at a turn of one round *)
#[local] Existing Instance ascii_tables.
Definition an_input : input_env :=
  {| i_system := Ok §"You help."; i_schemas := Ok [§"read_file"]; i_mode := ModeWork; i_hook := λ m t, Ok (TextSegments §"Look!", t);
     i_needs_rules := λ t, Ok false; i_rules_shown := Ok false; i_archive := λ s, Ok s |}.
Definition a_loop : preparedLoop := {| pl_rows := [user_row §"s1" §"Hello" Absent]; pl_summary := None; compactSeedOnCurrentUser := false; summaryOnCurrentUser := false |}.
Definition an_attempt (calls : list ToolCallRequest) : attempt :=
  {| at_open := None; at_chunks := [{| ch_Error := None; ch_DeltaContent := §"I look."; ch_ToolCalls := calls; ch_send := None |}]; at_ctx := None; at_finish := None |}.
Definition a_call (calls : list ToolCallRequest) : call_env :=
  {| k_prepare := {| v_mode := ModeWork; v_promoted := false; v_discovered := Ok []; v_hook := λ _ t s, Ok (s, t); v_filter := λ t, Ok t;
                     v_archive := λ s, Ok s; v_rules_shown := Ok false; v_store := calm |};
     k_materials := None; k_attempt := an_attempt calls; k_canceled := false; k_response := λ raw calls, Ok (raw, calls) |}.
Definition a_round : round_env :=
  {| o_refresh := None; o_promoted := false; o_foreground := Ok ([], []); o_selection := None;
     o_input := {| NeedsElyphRules := false; Text := §"And?"; PlatformText := []; Segments := [] |}; o_call := a_call two_calls;
     o_ctx := false; o_late := false; o_extras := None; o_text := None; o_later := None; o_tool_phase := true |}.
Definition a_batch : batch_env :=
  {| h_before := None; h_begin := calm; h_shown := false; h_events := two_runs; h_ctx := false; h_schemas := Ok [§"read_file"]; h_append := calm |}.
Definition a_summary : summary_env :=
  {| y_begin := calm; y_results := λ _, calm; y_input := no_input; y_append := calm; y_call := a_call []; y_ctx := false; y_extras := None |}.
Definition a_turn : list chat_event := [CRoundEvent a_round; CBatchEvent a_batch; CRoundEvent a_round; CSummaryEvent a_summary].
Definition first_chat : option chat :=
  match PrepareInput http_parse §"rules" a_loop an_input (user_row §"s1" §"Look!" Absent) false with
  | Ok (messages, tools, _) => Some (start_chat ∅ 0 nothing_confirmed [] messages tools)
  | _ => None
  end.
Lemma first_chat_starts c : first_chat = Some c → turn_starts http_parse §"rules" a_permission c.
Proof.
  unfold first_chat. destruct (PrepareInput _ _ _ _ _ _) as [[[messages tools] row]| |] eqn:Hp; [|done|done]. intros [= <-].
  exists a_loop, an_input, (user_row §"s1" §"Look!" Absent), false, messages, tools, row, ∅, 0%nat, []. split; [|done].
  apply dialogue_row; [by split|constructor].
Qed.
Local Abbreviation run_turn := (run_chat http_parse §"rules" a_permission §"s1" 1 m_id).
Lemma a_turn_ends (test : chat → bool) :
  match first_chat with Some c => match run_turn c a_turn with Some c' => test c' | None => false end | None => false end = true →
  ∃ c c', turn_starts http_parse §"rules" a_permission c ∧ run_turn c a_turn = Some c' ∧ test c' = true.
Proof.
  destruct first_chat as [c|] eqn:Hc; [|done]. pose proof (first_chat_starts c Hc) as Hs. destruct (run_turn c a_turn) as [c'|] eqn:Hr; [|done].
  intros Ht. by exists c, c'.
Qed.
Lemma chat_requests_well_formed_witness : ∃ c c', turn_starts http_parse §"rules" a_permission c ∧ run_turn c a_turn = Some c'
  ∧ length (c_requests c') = 3%nat ∧ Forall (λ r, well_formed (rq_messages r) = true) (c_requests c').
Proof.
  destruct (a_turn_ends (λ c, bool_decide (length (c_requests c) = 3%nat))) as (c & c' & Hs & Hr & Ht); [vm_compute; reflexivity|].
  exists c, c'. split; [done|]. split; [done|]. split; [by apply bool_decide_eq_true in Ht|].
  by apply (chat_requests_well_formed http_parse §"rules" a_permission §"s1" 1 m_id c a_turn c' Hs Hr).
Defined.
Lemma chat_turn_returns_witness : ∃ c c' raw platform, turn_starts http_parse §"rules" a_permission c ∧ run_turn c a_turn = Some c'
  ∧ c_pc c' = CReturned (Completed raw platform) ∧ Z.of_nat (length (c_requests c')) ≤ 3.
Proof.
  destruct (a_turn_ends (λ c, match c_pc c with CReturned (Completed _ _) => true | _ => false end)) as (c & c' & Hs & Hr & Ht); [vm_compute; reflexivity|].
  destruct (chat_turn_returns http_parse §"rules" a_permission §"s1" 1 m_id (λ n, ltac:(done)) c a_turn c' Hs Hr) as (_ & Hn & _).
  destruct (c_pc c') as [| | |[raw platform| | |]] eqn:Hpc; try done. by exists c, c', raw, platform.
Defined.
