(* ===== verification/NativeStore.v ===== *)
(** * Items of the Responses protocol ([llm/responses/{response,request,tools}.go], [agent/responses/{input,context}.go])

    An item is a JSON object that is kept whole; the program reads a few of its
    fields. A JSON value is a tree with the fields in their order and numbers as
    their text; the names of fields are compared exactly, and the last of equal
    names counts. [json.Valid] of a string is a parameter. *)
From S2P Require Import Prelude GoStr Segment ToolTranscript.
Open Scope Z_scope.

Inductive jv := JNull | JBool (b : bool) | JNum (text : gostring) | JStr (s : gostring) | JArr (l : list jv) | JObj (fields : list (gostring * jv)).
Fixpoint jget (fields : list (gostring * jv)) (key : gostring) : option jv :=
  match fields with
  | [] => None
  | (k, v) :: fields => match jget fields key with Some w => Some w | None => if bool_decide (k = key) then Some v else None end
  end.
(** The fields of a value decoded into a map; [None] when it is not an object. *)
Definition fields_of (v : jv) : option (list (gostring * jv)) := match v with JObj f => Some f | JNull => Some [] | _ => None end.
Definition lookup_field (v : jv) (key : gostring) : option jv := f ← fields_of v; jget f key.
(** A field decoded into a string. *)
Definition string_of (v : option jv) : res gostring :=
  match v with None | Some JNull => Ok [] | Some (JStr s) => Ok s | _ => Err §"json: cannot unmarshal into Go value of type string" end.
Definition str_field (v : jv) (key : gostring) : res gostring :=
  match fields_of v with None => Err §"json: cannot unmarshal into Go value" | Some f => string_of (jget f key) end.
Definition str_or_empty (v : jv) (key : gostring) : gostring := match str_field v key with Ok s => s | _ => [] end.
Definition array_of (v : option jv) : res (list jv) :=
  match v with None | Some JNull => Ok [] | Some (JArr l) => Ok l | _ => Err §"json: cannot unmarshal into Go value of type []" end.

(** ** Items *)
(** [OutputContent.UnmarshalJSON]: the text fields are read only of known parts. *)
Definition check_content (part : jv) : res unit :=
  let* t := str_field part §"type" in
  if bool_decide (t ∈ [§"output_text"; §"input_text"; §"refusal"]) then
    let* _ := str_field part §"text" in let* _ := str_field part §"refusal" in Ok tt
  else Ok tt.
Definition message_type : gostring := §"message".
Definition call_type : gostring := §"function_call".
Definition output_type : gostring := §"function_call_output".
Definition tools_type : gostring := §"additional_tools".
(** [ParseItem]: the value when it is an item. Its fields beyond [type] and [id] are read only of messages and calls. *)
Definition ParseItem (raw : jv) : res jv :=
  match raw with
  | JObj fields =>
    let* t := str_field raw §"type" in
    let* _ := str_field raw §"id" in
    if bool_decide (t = []) then Err §"response item requires type"
    else if bool_decide (t ∈ [message_type; call_type]) then
      let* _ := res_map (str_field raw) [§"status"; §"role"; §"call_id"; §"name"; §"arguments"] in
      let* parts := array_of (jget fields §"content") in
      let* _ := res_map check_content parts in
      Ok raw
    else Ok raw
  | _ => Err §"response item must be a JSON object"
  end.
Definition it_Type (i : jv) : gostring := str_or_empty i §"type".
(** A field that only messages and calls have. *)
Definition view (key : gostring) (i : jv) : gostring := if bool_decide (it_Type i ∈ [message_type; call_type]) then str_or_empty i key else [].
Definition it_Role (i : jv) : gostring := view §"role" i.
Definition it_CallID (i : jv) : gostring := view §"call_id" i.
Definition it_Name (i : jv) : gostring := view §"name" i.
Definition it_Arguments (i : jv) : gostring := view §"arguments" i.

(** ** Items of the program *)
Definition omit_empty (key value : gostring) : list (gostring * jv) := if bool_decide (value = []) then [] else [(key, JStr value)].
Record InputContent := { ic_Type : gostring; ic_Text : gostring; ic_ImageURL : gostring; ic_FileURL : gostring; ic_FileData : gostring; ic_Filename : gostring }.
Definition content_json (c : InputContent) : jv :=
  JObj ((§"type", JStr (ic_Type c)) :: omit_empty §"text" (ic_Text c) ++ omit_empty §"image_url" (ic_ImageURL c)
        ++ omit_empty §"file_url" (ic_FileURL c) ++ omit_empty §"file_data" (ic_FileData c) ++ omit_empty §"filename" (ic_Filename c)).
Definition text_content (text : gostring) : InputContent :=
  {| ic_Type := §"input_text"; ic_Text := text; ic_ImageURL := []; ic_FileURL := []; ic_FileData := []; ic_Filename := [] |}.
(** A nil slice is encoded as null. *)
Definition contents_json (content : list InputContent) : jv := match content with [] => JNull | _ => JArr (map content_json content) end.
Definition InputMessage (role : gostring) (content : list InputContent) : res jv :=
  ParseItem (JObj [(§"type", JStr message_type); (§"role", JStr role); (§"content", contents_json content)]).
Definition FunctionCallOutput (callID : gostring) (output : jv) : res jv :=
  if bool_decide (callID = []) then Err §"function output requires call_id"
  else ParseItem (JObj [(§"type", JStr output_type); (§"call_id", JStr callID); (§"output", output)]).
Record FunctionTool := { ft_Name : gostring; ft_Description : gostring; ft_Parameters : jv; ft_Strict : bool }.
Definition tool_json (t : FunctionTool) : jv :=
  JObj [(§"type", JStr §"function"); (§"name", JStr (ft_Name t)); (§"description", JStr (ft_Description t)); (§"parameters", ft_Parameters t);
        (§"strict", JBool (ft_Strict t))].
(** One definition decoded; a parameter schema is an object or null. *)
Definition decode_tool (raw : jv) : res FunctionTool :=
  let* name := str_field raw §"name" in
  let* description := str_field raw §"description" in
  let* parameters := (match lookup_field raw §"parameters" with
                      | None | Some JNull => Ok JNull
                      | Some (JObj f) => Ok (JObj f)
                      | _ => Err §"json: cannot unmarshal into Go struct field FunctionTool.Parameters"
                      end) in
  let* strict := (match lookup_field raw §"strict" with
                  | None | Some JNull => Ok false
                  | Some (JBool b) => Ok b
                  | _ => Err §"json: cannot unmarshal into Go struct field FunctionTool.Strict"
                  end) in
  Ok {| ft_Name := name; ft_Description := description; ft_Parameters := parameters; ft_Strict := strict |}.
Section Items.
Context `{UnicodeTables} (json_valid : gostring → bool) (url_parse : gostring → option (gostring * gostring)).
Fixpoint decode_tools (raws : list jv) (seen : gset gostring) : res (list FunctionTool) :=
  match raws with
  | [] => Ok []
  | raw :: raws =>
    let* kind := str_field raw §"type" in
    let* tool := decode_tool raw in
    if negb (bool_decide (kind = §"function")) || bool_decide (trim_space (ft_Name tool) = []) || bool_decide (ft_Name tool ∈ seen)
    then Err (§"invalid or duplicate additional function " ++ quote (ft_Name tool))
    else let* tools := decode_tools raws ({[ft_Name tool]} ∪ seen) in Ok (tool :: tools)
  end.
Definition AdditionalToolDefinitions (item : jv) : res (list FunctionTool) :=
  let* t := str_field item §"type" in
  let* role := str_field item §"role" in
  let* tools := array_of (lookup_field item §"tools") in
  if negb (bool_decide (t = tools_type)) || negb (bool_decide (role = §"developer")) || bool_decide (length tools = 0%nat)
  then Err §"additional_tools requires developer role and non-empty function definitions"
  else decode_tools tools ∅.
Definition AdditionalTools (tools : list FunctionTool) : res jv :=
  let* item := ParseItem (JObj [(§"type", JStr tools_type); (§"role", JStr §"developer"); (§"tools", JArr (map tool_json tools))]) in
  let* _ := AdditionalToolDefinitions item in Ok item.

(** ** Inputs *)
Fixpoint input_content (segments : list MessageSegment) (images : Z) : list InputContent :=
  match segments with
  | [] => []
  | s :: segments =>
    match Type_ s with
    | SegmentText => text_content (seg_Text s) :: input_content segments images
    | SegmentImage =>
      let label := ImageReferenceText url_parse s (images + 1) in
      (if bool_decide (label = []) then [] else [text_content label])
      ++ {| ic_Type := §"input_image"; ic_Text := []; ic_ImageURL := URL s; ic_FileURL := []; ic_FileData := []; ic_Filename := [] |}
      :: input_content segments (images + 1)
    | SegmentFile =>
      (if has_prefix §"data:" (URL s) then
         {| ic_Type := §"input_file"; ic_Text := []; ic_ImageURL := []; ic_FileURL := []; ic_FileData := URL s;
            ic_Filename := if bool_decide (seg_Name s = []) then §"file" else seg_Name s |}
       else
         {| ic_Type := §"input_file"; ic_Text := []; ic_ImageURL := []; ic_FileURL := URL s; ic_FileData := []; ic_Filename := seg_Name s |})
      :: input_content segments images
    | SegmentOther _ => input_content segments images
    end
  end.
Definition inputContent (segments : list MessageSegment) : list InputContent := input_content segments 0.
Definition nativeItem (callID : gostring) (segments : list MessageSegment) : res jv :=
  let content := inputContent segments in
  if bool_decide (callID = []) then InputMessage §"user" content
  else FunctionCallOutput callID (if forallb is_text segments then JStr (MessageContent url_parse segments) else contents_json content).

(** ** Checks of a window *)
(** The parts of a message or of a result, when they are a list. *)
Definition nativeContent (item : jv) : res (list jv) :=
  if negb (bool_decide (it_Type item ∈ [message_type; output_type])) then Ok []
  else
    match fields_of item with
    | None => Err §"json: cannot unmarshal into Go value"
    | Some fields => match jget fields (if bool_decide (it_Type item = output_type) then §"output" else §"content") with Some (JArr l) => Ok l | _ => Ok [] end
    end.
Definition payload (fields : list (gostring * jv)) : bool := existsb (λ p, negb (bool_decide (p.1 ∈ [§"type"; §"id"; §"status"]))) fields.
Definition is_array (v : option jv) : bool := match v with Some (JArr _) => true | _ => false end.
Definition validateItem (item : jv) : res unit :=
  let t := it_Type item in
  match fields_of item with
  | None => Err §"json: cannot unmarshal into Go value"
  | Some fields =>
    let status := str_or_empty item §"status" in
    if negb (bool_decide (status = [])) && negb (bool_decide (status = §"completed")) then Err (§"原生 item " ++ t ++ §" 未完成")
    else if bool_decide (t = §"item_reference") then Err §"原生历史只有服务端 item 引用"
    else if bool_decide (t ∈ [§"reasoning"; §"compaction"]) && bool_decide (str_or_empty item §"encrypted_content" = [])
    then Err (§"原生 " ++ t ++ §" 缺少完整 encrypted_content")
    else if bool_decide (t = message_type) && (bool_decide (it_Role item = []) || negb (is_array (jget fields §"content")))
    then Err §"原生 message 缺少完整正文"
    else if bool_decide (t = call_type) && (bool_decide (it_CallID item = []) || bool_decide (it_Name item = []) || negb (json_valid (it_Arguments item)))
    then Err §"原生工具调用不完整"
    else
      let* _ := (if bool_decide (t = tools_type) then let* _ := AdditionalToolDefinitions item in Ok tt else Ok tt) in
      if negb (bool_decide (t ∈ [message_type; call_type; output_type; §"reasoning"; §"compaction"])) && negb (payload fields)
      then Err (§"未知原生 item " ++ t ++ §" 只有身份引用") else Ok tt
  end.
Definition validateItems (items : list jv) : res unit := let* _ := res_map validateItem items in Ok tt.
(** The calls that are open after [items], or the first fault. *)
Fixpoint open_calls (items : list jv) (opened : gset gostring) : res (gset gostring) :=
  match items with
  | [] => Ok opened
  | item :: items =>
    if bool_decide (it_Type item = call_type) then
      if bool_decide (it_CallID item = []) || bool_decide (it_CallID item ∈ opened) then Err §"原生调用关联重复或缺失"
      else open_calls items ({[it_CallID item]} ∪ opened)
    else if bool_decide (it_Type item = output_type) then
      let* id := str_field item §"call_id" in
      if bool_decide (id = []) || negb (bool_decide (id ∈ opened)) then Err §"原生工具结果缺少对应调用"
      else open_calls items (opened ∖ {[id]})
    else open_calls items opened
  end.
Definition validateCallLinks (items : list jv) (allowOpen : bool) : res unit :=
  let* opened := open_calls items ∅ in
  if negb allowOpen && negb (bool_decide (opened = ∅)) then Err §"原生历史缺少工具结果" else Ok tt.
End Items.

(** * The stored history of the Responses agent ([storage/dialogue.go], [storage/sqlite/{dialogue_repository,native_material,native_snapshot}.go])

    Requests and responses (exchanges), the inputs that wait for a request or
    were consumed by one, the calls of a response, and the checkpoints that link
    the committed responses of a session. A table is a map, or a list in the
    order of its rows where a query orders by them. A JSON column is the value
    it encodes. The messages of a dialogue are stored by the same transaction;
    their part may fail, and is otherwise the subject of the tool transcript. *)
(** [EncodeMaterials] writes a list; an absent column cannot be decoded. *)
Record Material := { ma_Index : Z; ma_MessageID : gostring; ma_Segments : list MessageSegment }.
Record LLMOrigin := { or_APIType : gostring; or_Provider : gostring; or_BaseURL : gostring }.
Record NativeInput := {
  ni_ID : gostring; ni_SessionID : gostring; ni_MessageID : gostring; ni_ExchangeID : gostring; ni_CallID : gostring;
  ni_Item : jv; ni_Media : list Material; ni_ConsumedBy : gostring; ni_CreatedAt : Z
}.
Record NativeCall := {
  nc_ExchangeID : gostring; nc_CallID : gostring; nc_Name : gostring; nc_Arguments : gostring; nc_Status : gostring; nc_ResultInputID : gostring; nc_Ordinal : Z
}.
Record NativeCheckpoint := {
  cp_ID : gostring; cp_SessionID : gostring; cp_ParentID : gostring; cp_ExchangeID : gostring; cp_ResponseID : gostring; cp_MessageID : gostring;
  cp_SeedID : gostring; cp_Calls : list NativeCall
}.
Record Response := { rs_ID : gostring; rs_Status : gostring; rs_Store : option bool; rs_Output : list jv }.
(** Of the request the model keeps whether it asked the provider to store the response. *)
Record NativeExchange := {
  nx_ID : gostring; nx_SessionID : gostring; nx_APIType : gostring; nx_Provider : gostring; nx_BaseURL : gostring; nx_Previous : gostring;
  nx_Store : option bool; nx_Response : column Response; nx_Items : column (list jv); nx_InputIDs : list gostring; nx_Status : gostring
}.
Record NativeSeed := {
  sd_ID : gostring; sd_SessionID : gostring; sd_APIType : gostring; sd_Provider : gostring; sd_BaseURL : gostring; sd_ResponseID : gostring;
  sd_Source : gostring; sd_Version : Z; sd_Items : option (list jv); sd_Materials : list Material; sd_Continuation : list jv; sd_Calls : list NativeCall;
  sd_MediaIDs : list gostring; sd_Consumed : bool
}.
(** The metadata of a session that this part reads; [se_Compact] is the seed of a compaction that is pending. *)
Record session_row := {
  se_ID : gostring; se_Origin : option LLMOrigin; se_Version : Z; se_Checkpoint : option gostring; se_Seed : option gostring; se_Compact : option gostring
}.
Record ndb := {
  d_sessions : gmap gostring session_row; d_exchanges : gmap gostring NativeExchange; d_inputs : list NativeInput;
  d_calls : gmap (gostring * gostring) NativeCall; d_checkpoints : list NativeCheckpoint; d_seeds : gmap gostring NativeSeed
}.
Definition empty_db : ndb := {| d_sessions := ∅; d_exchanges := ∅; d_inputs := []; d_calls := ∅; d_checkpoints := []; d_seeds := ∅ |}.
Definition with_inputs (d : ndb) (l : list NativeInput) : ndb :=
  {| d_sessions := d_sessions d; d_exchanges := d_exchanges d; d_inputs := l; d_calls := d_calls d; d_checkpoints := d_checkpoints d; d_seeds := d_seeds d |}.
Definition with_calls (d : ndb) (m : gmap (gostring * gostring) NativeCall) : ndb :=
  {| d_sessions := d_sessions d; d_exchanges := d_exchanges d; d_inputs := d_inputs d; d_calls := m; d_checkpoints := d_checkpoints d; d_seeds := d_seeds d |}.
Definition with_checkpoint (d : ndb) (c : NativeCheckpoint) : ndb :=
  {| d_sessions := d_sessions d; d_exchanges := d_exchanges d; d_inputs := d_inputs d; d_calls := d_calls d; d_checkpoints := d_checkpoints d ++ [c];
     d_seeds := d_seeds d |}.
Definition with_session (d : ndb) (s : session_row) : ndb :=
  {| d_sessions := <[se_ID s := s]> (d_sessions d); d_exchanges := d_exchanges d; d_inputs := d_inputs d; d_calls := d_calls d;
     d_checkpoints := d_checkpoints d; d_seeds := d_seeds d |}.
Definition with_exchange (d : ndb) (x : NativeExchange) : ndb :=
  {| d_sessions := d_sessions d; d_exchanges := <[nx_ID x := x]> (d_exchanges d); d_inputs := d_inputs d; d_calls := d_calls d;
     d_checkpoints := d_checkpoints d; d_seeds := d_seeds d |}.
Definition with_seed (d : ndb) (s : NativeSeed) : ndb :=
  {| d_sessions := d_sessions d; d_exchanges := d_exchanges d; d_inputs := d_inputs d; d_calls := d_calls d; d_checkpoints := d_checkpoints d;
     d_seeds := <[sd_ID s := s]> (d_seeds d) |}.
Definition set_checkpoint (s : session_row) (id : gostring) : session_row :=
  {| se_ID := se_ID s; se_Origin := se_Origin s; se_Version := se_Version s; se_Checkpoint := Some id; se_Seed := se_Seed s; se_Compact := se_Compact s |}.
Definition compact_done (s : session_row) (seed : gostring) : session_row :=
  {| se_ID := se_ID s; se_Origin := se_Origin s; se_Version := se_Version s; se_Checkpoint := se_Checkpoint s; se_Seed := se_Seed s;
     se_Compact := if negb (bool_decide (seed = [])) && bool_decide (se_Compact s = Some seed) then None else se_Compact s |}.
Definition find_checkpoint (d : ndb) (id : gostring) : option NativeCheckpoint := List.find (λ c, bool_decide (cp_ID c = id)) (d_checkpoints d).
Definition find_input (d : ndb) (id : gostring) : option NativeInput := List.find (λ i, bool_decide (ni_ID i = id)) (d_inputs d).
Definition sql_no_rows : gostring := §"sql: no rows in result set".
Definition not_found_row : gostring := §"not found".

(** ** Exchanges *)
(** [json.Valid] of the request and of the manifest, which this model holds decoded, is left out. *)
Definition CreateExchange (d : ndb) (row : NativeExchange) : res ndb :=
  if bool_decide (nx_APIType row = []) || bool_decide (nx_Provider row = []) then Err §"invalid native exchange"
  else
    match d_exchanges d !! nx_ID row with
    | Some _ => Err §"UNIQUE constraint failed"
    | None => Ok (with_exchange d {| nx_ID := nx_ID row; nx_SessionID := nx_SessionID row; nx_APIType := nx_APIType row; nx_Provider := nx_Provider row;
        nx_BaseURL := nx_BaseURL row; nx_Previous := nx_Previous row; nx_Store := nx_Store row; nx_Response := nx_Response row; nx_Items := nx_Items row;
        nx_InputIDs := nx_InputIDs row; nx_Status := §"pending" |})
    end.
Definition FinishExchange (d : ndb) (id status : gostring) (response : column Response) (items : column (list jv)) : res ndb :=
  if bool_decide (status = §"pending") || bool_decide (status = []) then Err §"invalid native terminal facts"
  else
    match d_exchanges d !! id with
    | Some row =>
      if bool_decide (nx_Status row = §"pending") then
        Ok (with_exchange d {| nx_ID := nx_ID row; nx_SessionID := nx_SessionID row; nx_APIType := nx_APIType row; nx_Provider := nx_Provider row;
          nx_BaseURL := nx_BaseURL row; nx_Previous := nx_Previous row; nx_Store := nx_Store row; nx_Response := response; nx_Items := items;
          nx_InputIDs := nx_InputIDs row; nx_Status := status |})
      else Err §"native exchange already finished or absent"
    | None => Err §"native exchange already finished or absent"
    end.

(** ** Commits *)
Record NativeCommit := {
  nm_Expected : gostring; nm_Checkpoint : option NativeCheckpoint; nm_Snapshot : option NativeCheckpoint; nm_Inputs : list NativeInput;
  nm_Calls : list NativeCall; nm_Consumed : list gostring; nm_ConsumeSeed : gostring
}.
(** The INSERT of an input, which may only replace the text of a result that is still pending. *)
Definition replaceable (d : ndb) (old new : NativeInput) : bool :=
  bool_decide (ni_ConsumedBy old = []) && bool_decide (ni_SessionID old = ni_SessionID new) && bool_decide (ni_MessageID old = ni_MessageID new)
  && bool_decide (ni_ExchangeID old = ni_ExchangeID new) && bool_decide (ni_CallID old = ni_CallID new)
  && match d_calls d !! (ni_ExchangeID old, ni_CallID old) with
     | Some c => bool_decide (nc_ResultInputID c = ni_ID old) && bool_decide (nc_Status c = §"pending")
     | None => false
     end.
Definition replace_text (old new : NativeInput) : NativeInput :=
  {| ni_ID := ni_ID old; ni_SessionID := ni_SessionID old; ni_MessageID := ni_MessageID old; ni_ExchangeID := ni_ExchangeID old; ni_CallID := ni_CallID old;
     ni_Item := ni_Item new; ni_Media := ni_Media new; ni_ConsumedBy := ni_ConsumedBy old; ni_CreatedAt := ni_CreatedAt old |}.
Definition append_input (session : gostring) (d : ndb) (input : NativeInput) : res ndb :=
  if negb (bool_decide (ni_SessionID input = session)) then Err §"invalid native input"
  else if bool_decide (ni_ID input = []) then Err §"native input requires a preallocated ID"
  else
    match find_input d (ni_ID input) with
    | None => Ok (with_inputs d (d_inputs d ++ [input]))
    | Some old =>
      if replaceable d old input
      then Ok (with_inputs d (map (λ i, if bool_decide (ni_ID i = ni_ID input) then replace_text i input else i) (d_inputs d)))
      else Err §"native result is already sealed or consumed"
    end.
Definition append_call (session : gostring) (d : ndb) (call : NativeCall) : res ndb :=
  match d_exchanges d !! nc_ExchangeID call with
  | None => Err sql_no_rows
  | Some x =>
    if negb (bool_decide (nx_SessionID x = session)) || bool_decide (nc_CallID call = []) then Err §"native call session mismatch"
    else
      match d_calls d !! (nc_ExchangeID call, nc_CallID call) with
      | None => Ok (with_calls d (<[(nc_ExchangeID call, nc_CallID call) := call]> (d_calls d)))
      | Some old =>
        if bool_decide (nc_Ordinal old = nc_Ordinal call) && bool_decide (nc_Name old = nc_Name call) && bool_decide (nc_Arguments old = nc_Arguments call)
        then Ok (with_calls d (<[(nc_ExchangeID call, nc_CallID call) := call]> (d_calls d)))
        else Err §"native call identity changed"
      end
  end.
Fixpoint res_fold {A B : Type} (f : A → B → res A) (a : A) (l : list B) : res A :=
  match l with [] => Ok a | x :: l => let* a := f a x in res_fold f a l end.
(** The calls of an exchange in their order. *)
Definition by_ordinal (a b : NativeCall) : Prop := nc_Ordinal a ≤ nc_Ordinal b.
#[export] Instance by_ordinal_dec : RelDecision by_ordinal.
Proof. intros a b. unfold by_ordinal. apply _. Defined.
Definition Calls (d : ndb) (exchange : gostring) : list NativeCall :=
  merge_sort by_ordinal (List.filter (λ c, bool_decide (nc_ExchangeID c = exchange)) (map_to_list (d_calls d)).*2).
Definition with_cp_calls (c : NativeCheckpoint) (calls : list NativeCall) : NativeCheckpoint :=
  {| cp_ID := cp_ID c; cp_SessionID := cp_SessionID c; cp_ParentID := cp_ParentID c; cp_ExchangeID := cp_ExchangeID c; cp_ResponseID := cp_ResponseID c;
     cp_MessageID := cp_MessageID c; cp_SeedID := cp_SeedID c; cp_Calls := calls |}.
Definition insert_checkpoint (d : ndb) (c : NativeCheckpoint) : res ndb :=
  match find_checkpoint d (cp_ID c) with Some _ => Err §"UNIQUE constraint failed" | None => Ok (with_checkpoint d c) end.
(** [head]: the id of the message of the batch or result that the commit carries. *)
Definition appendNativeSnapshot (d : ndb) (session : gostring) (head : option gostring) (n : NativeCommit) (snapshot : NativeCheckpoint) : res ndb :=
  if match nm_Checkpoint n with Some _ => true | None => false end || negb (bool_decide (nm_Consumed n = [])) || negb (bool_decide (nm_ConsumeSeed n = []))
     || bool_decide (cp_ID snapshot = []) || negb (bool_decide (cp_SessionID snapshot = session)) || negb (bool_decide (head = Some (cp_MessageID snapshot)))
  then Err §"invalid native message snapshot"
  else
    match find_checkpoint d (nm_Expected n) with
    | None => Err sql_no_rows
    | Some c =>
      if negb (bool_decide (cp_SessionID c = session)) || negb (bool_decide (cp_ParentID snapshot = cp_ParentID c))
         || negb (bool_decide (cp_ExchangeID snapshot = cp_ExchangeID c)) || negb (bool_decide (cp_ResponseID snapshot = cp_ResponseID c))
         || negb (bool_decide (cp_SeedID snapshot = cp_SeedID c))
      then Err §"native snapshot does not match current checkpoint"
      else insert_checkpoint d (with_cp_calls snapshot (Calls d (cp_ExchangeID c)))
    end.
Definition advance_checkpoint (d : ndb) (row : session_row) (n : NativeCommit) (c : NativeCheckpoint) : res ndb :=
  if negb (bool_decide (cp_SessionID c = se_ID row)) || negb (bool_decide (cp_ParentID c = nm_Expected n)) || bool_decide (cp_ResponseID c = [])
  then Err §"invalid native checkpoint"
  else
    match d_exchanges d !! cp_ExchangeID c with
    | None => Err sql_no_rows
    | Some x =>
      if negb (bool_decide (nx_SessionID x = se_ID row)) || negb (bool_decide (nx_Status x = §"completed")) then Err §"checkpoint requires a completed exchange"
      else if negb (bool_decide (cp_SeedID c = default [] (se_Seed row))) then Err §"native checkpoint seed changed"
      else insert_checkpoint d (with_cp_calls c (nm_Calls n))
    end.
Definition consume_input (session exchange : gostring) (d : ndb) (id : gostring) : res ndb :=
  match find_input d id with
  | Some i =>
    if bool_decide (ni_SessionID i = session) && bool_decide (ni_ConsumedBy i = []) then
      Ok (with_inputs d (map (λ j, if bool_decide (ni_ID j = id)
        then {| ni_ID := ni_ID j; ni_SessionID := ni_SessionID j; ni_MessageID := ni_MessageID j; ni_ExchangeID := ni_ExchangeID j; ni_CallID := ni_CallID j;
                ni_Item := ni_Item j; ni_Media := ni_Media j; ni_ConsumedBy := exchange; ni_CreatedAt := ni_CreatedAt j |} else j) (d_inputs d)))
    else Err §"native input already consumed or absent"
  | None => Err §"native input already consumed or absent"
  end.
Definition consume_seed (d : ndb) (session : gostring) (checkpoint : option NativeCheckpoint) (id : gostring) : res ndb :=
  if bool_decide (id = []) then Ok d
  else if negb (match checkpoint with Some c => bool_decide (cp_SeedID c = id) | None => false end) then Err §"seed consumption requires its checkpoint"
  else
    match d_seeds d !! id with
    | Some s =>
      if bool_decide (sd_SessionID s = session) && negb (sd_Consumed s) then
        Ok (with_seed d {| sd_ID := sd_ID s; sd_SessionID := sd_SessionID s; sd_APIType := sd_APIType s; sd_Provider := sd_Provider s;
          sd_BaseURL := sd_BaseURL s; sd_ResponseID := sd_ResponseID s; sd_Source := sd_Source s; sd_Version := sd_Version s; sd_Items := sd_Items s;
          sd_Materials := sd_Materials s; sd_Continuation := sd_Continuation s; sd_Calls := sd_Calls s; sd_MediaIDs := sd_MediaIDs s; sd_Consumed := true |})
      else Err §"native seed already consumed or absent"
    | None => Err §"native seed already consumed or absent"
    end.
(** The native part of [Commit] for a session; [others] is what the rest of the transaction gives. *)
Definition commit_native (d : ndb) (session : gostring) (head : option gostring) (others : option gostring) (n : NativeCommit) : res ndb :=
  match d_sessions d !! session with
  | None => Err not_found_row
  | Some row =>
    if negb (bool_decide (default [] (se_Checkpoint row) = nm_Expected n)) then Err §"native checkpoint changed"
    else
      match others with
      | Some e => Err e
      | None =>
        let* d := res_fold (append_input session) d (nm_Inputs n) in
        let* d := res_fold (append_call session) d (nm_Calls n) in
        let* d := (match nm_Snapshot n with Some s => appendNativeSnapshot d session head n s | None => Ok d end) in
        let* d := (match nm_Checkpoint n with Some c => advance_checkpoint d row n c | None => Ok d end) in
        match nm_Checkpoint n, nm_Consumed n with
        | None, _ :: _ => Err §"input consumption requires a checkpoint"
        | _, _ =>
          let* d := res_fold (consume_input session (match nm_Checkpoint n with Some c => cp_ExchangeID c | None => [] end)) d (nm_Consumed n) in
          let* d := consume_seed d session (nm_Checkpoint n) (nm_ConsumeSeed n) in
          Ok (match nm_Checkpoint n with
              | Some c => with_session d (compact_done (set_checkpoint row (cp_ID c)) (nm_ConsumeSeed n))
              | None => d
              end)
        end
      end
  end.

(** ** New sessions *)
Definition with_root (s : session_row) (seed : gostring) : session_row :=
  {| se_ID := se_ID s; se_Origin := se_Origin s; se_Version := se_Version s; se_Checkpoint := None; se_Seed := Some seed; se_Compact := se_Compact s |}.
Definition seed_for (s : NativeSeed) (session : gostring) : NativeSeed :=
  {| sd_ID := sd_ID s; sd_SessionID := session; sd_APIType := sd_APIType s; sd_Provider := sd_Provider s; sd_BaseURL := sd_BaseURL s;
     sd_ResponseID := sd_ResponseID s; sd_Source := sd_Source s; sd_Version := sd_Version s; sd_Items := sd_Items s; sd_Materials := sd_Materials s;
     sd_Continuation := sd_Continuation s; sd_Calls := sd_Calls s; sd_MediaIDs := sd_MediaIDs s; sd_Consumed := sd_Consumed s |}.
Definition insert_session (d : ndb) (row : session_row) : res ndb :=
  match d_sessions d !! se_ID row with Some _ => Err §"UNIQUE constraint failed" | None => Ok (with_session d row) end.
Definition check_source (d : ndb) (source expected : gostring) : res unit :=
  if bool_decide (source = []) then Ok tt
  else
    match d_sessions d !! source with
    | None => Err sql_no_rows
    | Some row => if bool_decide (default [] (se_Checkpoint row) = expected) then Ok tt else Err §"source native checkpoint changed"
    end.
(** The session and its seed; [others] is what the copied messages give. *)
Definition CreateMaterial (d : ndb) (row : session_row) (seed : option NativeSeed) (source expected : gostring) (others : option gostring) : res ndb :=
  let* _ := check_source d source expected in
  match seed with
  | None => let* d := insert_session d row in match others with Some e => Err e | None => Ok d end
  | Some seed =>
    if bool_decide (sd_ID seed = []) then Err §"native seed requires a preallocated ID"
    else
      match se_Origin row with
      | None => Err §"native seed requires saved origin: unexpected end of JSON input"
      | Some o =>
        if negb (bool_decide (sd_APIType seed = or_APIType o)) || negb (bool_decide (sd_Provider seed = or_Provider o)) then Err §"native seed origin mismatch"
        else
          let* d := insert_session d (with_root row (sd_ID seed)) in
          match others with
          | Some e => Err e
          | None =>
            if bool_decide (sd_APIType seed = []) || bool_decide (sd_Provider seed = []) || sd_Consumed seed then Err §"invalid native seed identity"
            else match d_seeds d !! sd_ID seed with
                 | Some _ => Err §"UNIQUE constraint failed"
                 | None => Ok (with_seed d (seed_for seed (se_ID row)))
                 end
          end
      end
  end.

(** ** Queries *)
Definition CurrentCheckpoint (d : ndb) (session : gostring) : res (option NativeCheckpoint) :=
  match d_sessions d !! session with
  | None => Err not_found_row
  | Some row =>
    match se_Checkpoint row with
    | None => Ok None
    | Some id =>
      match find_checkpoint d id with
      | None => Err §"native checkpoint reference is missing"
      | Some c => if bool_decide (cp_SessionID c = session) then Ok (Some c) else Err §"native checkpoint session mismatch"
      end
    end
  end.
Definition CheckpointForMessage (d : ndb) (session message : gostring) : res NativeCheckpoint :=
  match List.find (λ c, bool_decide (cp_SessionID c = session) && bool_decide (cp_MessageID c = message)) (rev (d_checkpoints d)) with
  | Some c => Ok c
  | None => Err not_found_row
  end.
(** Rows in the order of their creation time and, within one time, of their number. *)
Fixpoint insert_by_time (i : NativeInput) (l : list NativeInput) : list NativeInput :=
  match l with
  | [] => [i]
  | j :: l => if ni_CreatedAt i <? ni_CreatedAt j then i :: j :: l else j :: insert_by_time i l
  end.
Definition order_by_time (l : list NativeInput) : list NativeInput := foldl (λ l i, insert_by_time i l) [] l.
Definition PendingInputs (d : ndb) (session : gostring) : list NativeInput :=
  order_by_time (List.filter (λ i, bool_decide (ni_SessionID i = session) && bool_decide (ni_ConsumedBy i = [])) (d_inputs d)).
Record NativeWindowRecords := {
  wr_Seed : option NativeSeed; wr_Checkpoints : gmap gostring NativeCheckpoint; wr_Exchanges : gmap gostring NativeExchange;
  wr_Inputs : gmap gostring NativeInput
}.
Definition no_records : NativeWindowRecords := {| wr_Seed := None; wr_Checkpoints := ∅; wr_Exchanges := ∅; wr_Inputs := ∅ |}.
(** The recursive query for the ancestors of a checkpoint, which ends at a repeated row. *)
Fixpoint ancestors (fuel : nat) (d : ndb) (id : gostring) (rows : gmap gostring NativeCheckpoint) : gmap gostring NativeCheckpoint :=
  match fuel with
  | O => rows
  | S fuel =>
    match rows !! id, find_checkpoint d id with
    | None, Some c => ancestors fuel d (cp_ParentID c) (<[id := c]> rows)
    | _, _ => rows
    end
  end.
Definition result_ids (calls : list NativeCall) : list gostring := List.filter (λ id, negb (bool_decide (id = []))) (map nc_ResultInputID calls).
Definition LoadNativeWindow (d : ndb) (row : session_row) (checkpoint : option NativeCheckpoint) : res NativeWindowRecords :=
  match checkpoint, se_Seed row with
  | None, None => Ok no_records
  | _, _ =>
    let* seed := (match se_Seed row with
                  | None => Ok None
                  | Some id =>
                    match d_seeds d !! id with
                    | Some s => if bool_decide (sd_SessionID s = se_ID row) then Ok (Some s) else Err §"native seed reference is missing"
                    | None => Err §"native seed reference is missing"
                    end
                  end) in
    match checkpoint with
    | None => Ok {| wr_Seed := seed; wr_Checkpoints := ∅; wr_Exchanges := ∅; wr_Inputs := ∅ |}
    | Some c =>
      let rows := if bool_decide (cp_ParentID c = []) then {[cp_ID c := c]}
                  else ancestors (S (length (d_checkpoints d))) d (cp_ParentID c) {[cp_ID c := c]} in
      let ids := map cp_ExchangeID (map_to_list rows).*2 in
      let results := result_ids (cp_Calls c) in
      Ok {| wr_Seed := seed; wr_Checkpoints := rows; wr_Exchanges := filter (λ p, p.1 ∈ ids) (d_exchanges d);
            wr_Inputs := list_to_map (map (λ i, (ni_ID i, i))
              (List.filter (λ i, bool_decide (ni_ConsumedBy i ∈ ids) || bool_decide (ni_ID i ∈ results)) (d_inputs d))) |}
    end
  end.
