(* ===== verification/NativeTurn.v ===== *)
(** * Windows of the Responses agent ([agent/responses/{context,input,input_format,continuation,tool_inputs,initial_inputs,foreground_notice,branch}.go])

    A window is the conversation rebuilt from the stored rows: the items of the
    root, then for each committed response the inputs it consumed and what it
    gave. Windows serve replays, forks and copies. *)
From S2P Require Import Prelude GoStr Segment HookPipeline ToolPermit ToolTranscript NativeStore.
Open Scope Z_scope.

Inductive inputReference := RefSeed (id : gostring) (index : Z) | RefInput (id : gostring) | RefOutput (id : gostring) (index : Z)
  | RefContinuation (id : gostring) (index : Z) | RefSynthetic (item : jv).
Record nativeWindow := {
  w_Items : list jv; w_Materials : list Material; w_Origin : LLMOrigin; w_Checkpoint : option NativeCheckpoint; w_Retained : list gostring;
  w_Completed : list jv; w_References : list inputReference; w_Exchange : option NativeExchange
}.
Definition no_origin : LLMOrigin := {| or_APIType := []; or_Provider := []; or_BaseURL := [] |}.
Definition empty_window : nativeWindow :=
  {| w_Items := []; w_Materials := []; w_Origin := no_origin; w_Checkpoint := None; w_Retained := []; w_Completed := []; w_References := []; w_Exchange := None |}.
Definition at_base (o : LLMOrigin) (url : gostring) : LLMOrigin := {| or_APIType := or_APIType o; or_Provider := or_Provider o; or_BaseURL := url |}.
Definition add_item_ (w : nativeWindow) (item : jv) (refs : list inputReference) : nativeWindow :=
  {| w_Items := w_Items w ++ [item]; w_Materials := w_Materials w; w_Origin := w_Origin w; w_Checkpoint := w_Checkpoint w; w_Retained := w_Retained w;
     w_Completed := w_Completed w; w_References := w_References w ++ refs; w_Exchange := w_Exchange w |}.
(** An item with the material it shows. *)
Definition add_material (w : nativeWindow) (message : gostring) (segments : list MessageSegment) : nativeWindow :=
  {| w_Items := w_Items w; w_Materials := w_Materials w ++ [{| ma_Index := Z.of_nat (length (w_Items w)); ma_MessageID := message; ma_Segments := segments |}];
     w_Origin := w_Origin w; w_Checkpoint := w_Checkpoint w; w_Retained := w_Retained w; w_Completed := w_Completed w; w_References := w_References w;
     w_Exchange := w_Exchange w |}.
Definition add_outputs (w : nativeWindow) (x : NativeExchange) (output : list jv) : nativeWindow :=
  {| w_Items := w_Items w ++ output; w_Materials := w_Materials w; w_Origin := at_base (w_Origin w) (nx_BaseURL x); w_Checkpoint := w_Checkpoint w;
     w_Retained := w_Retained w; w_Completed := w_Completed w;
     w_References := w_References w ++ imap (λ i _, RefOutput (nx_ID x) (Z.of_nat i)) output; w_Exchange := Some x |}.
Definition add_completed (w : nativeWindow) (item : jv) : nativeWindow :=
  {| w_Items := w_Items w; w_Materials := w_Materials w; w_Origin := w_Origin w; w_Checkpoint := w_Checkpoint w; w_Retained := w_Retained w;
     w_Completed := w_Completed w ++ [item]; w_References := w_References w; w_Exchange := w_Exchange w |}.

(** ** Stored inputs *)
Definition is_media (s : MessageSegment) : bool := bool_decide (Type_ s = SegmentImage) || bool_decide (Type_ s = SegmentFile).
Definition archived_segment (s : MessageSegment) : bool := negb (is_media s && (bool_decide (MediaID s = []) || negb (bool_decide (URL s = [])))).
Definition DecodeMaterials (l : list Material) : res (list Material) :=
  if forallb (λ m, forallb archived_segment (ma_Segments m)) l then Ok l
  else Err §"archived media requires a stable reference without an expanded URL".
Definition inputSegments (input : NativeInput) : res (list MessageSegment) :=
  let* materials := DecodeMaterials (ni_Media input) in
  match materials with
  | [] => Ok []
  | [m] => if bool_decide (ma_MessageID m = ni_MessageID input) then Ok (ma_Segments m) else Err §"原生输入公共资料关联不匹配"
  | _ => Err §"原生输入公共资料关联不匹配"
  end.
Definition inputFormatVersion : Z := 2.
Definition incompatibleInputFormat : gostring := §"Responses 会话使用旧版或不支持的工具输入格式，请新建会话".
Definition checkInputFormat (row : session_row) : res unit := if se_Version row =? inputFormatVersion then Ok tt else Err incompatibleInputFormat.
Definition decodeSeedInputs (seed : NativeSeed) : res (list jv) :=
  match sd_Items seed with
  | Some items => if sd_Version seed =? inputFormatVersion then res_map ParseItem items else Err incompatibleInputFormat
  | None => Err incompatibleInputFormat
  end.

Section Windows.
Context `{UnicodeTables} (json_valid : gostring → bool) (url_parse : gostring → option (gostring * gostring)) (ArgumentMediaIDs : gostring → list gostring).
Definition queuedInput (id session message exchange callID : gostring) (now : Z) (segments : list MessageSegment) : res NativeInput :=
  let* item := nativeItem url_parse callID segments in
  Ok {| ni_ID := id; ni_SessionID := session; ni_MessageID := message; ni_ExchangeID := exchange; ni_CallID := callID; ni_Item := item;
        ni_Media := [{| ma_Index := 0; ma_MessageID := message; ma_Segments := segments |}]; ni_ConsumedBy := []; ni_CreatedAt := now |}.
Definition decodeQueuedInput (input : NativeInput) : res (jv * list MessageSegment) :=
  let* item := ParseItem (ni_Item input) in
  let* segments := inputSegments input in
  if bool_decide (it_Type item = tools_type) then
    if negb (bool_decide (ni_MessageID input = [])) || negb (bool_decide (ni_CallID input = [])) || negb (bool_decide (ni_ExchangeID input = []))
       || negb (bool_decide (segments = [])) then Err §"工具定义输入不能关联展示消息、调用或媒体"
    else let* _ := AdditionalToolDefinitions item in Ok (item, segments)
  else if bool_decide (it_Type item = message_type) then
    if negb (bool_decide (ni_CallID input = [])) || negb (bool_decide (it_Role item = §"user")) then Err §"原生用户输入关联不匹配" else Ok (item, segments)
  else if bool_decide (it_Type item = output_type) then
    let* id := str_field item §"call_id" in
    if bool_decide (ni_CallID input = []) || negb (bool_decide (ni_CallID input = id)) then Err §"原生工具结果关联不匹配" else Ok (item, segments)
  else Err (§"不支持的原生待提交输入 " ++ quote (it_Type item)).

(** ** Loading *)
(** The checkpoints from [cp] down to the first. *)
Fixpoint load_path (fuel : nat) (row : session_row) (r : NativeWindowRecords) (cp : NativeCheckpoint) (seen : gset gostring) : res (list NativeCheckpoint) :=
  match fuel with
  | O => Err §"out of fuel"
  | S fuel =>
    if negb (bool_decide (cp_SessionID cp = se_ID row)) || bool_decide (cp_ID cp ∈ seen) then Err §"原生 checkpoint 链不完整或循环"
    else if negb (bool_decide (cp_SeedID cp = match wr_Seed r with Some s => sd_ID s | None => [] end)) then Err §"原生 checkpoint 的根材料不匹配"
    else if bool_decide (cp_ParentID cp = []) then Ok [cp]
    else
      match wr_Checkpoints r !! cp_ParentID cp with
      | None => Err §"原生 checkpoint 前序缺失: not found"
      | Some parent => let* path := load_path fuel row r parent ({[cp_ID cp]} ∪ seen) in Ok (cp :: path)
      end
  end.
(** One id of the manifest; [rest] are the consumed inputs not used so far. *)
Definition load_input (row : session_row) (x : NativeExchange) (s : nativeWindow * gmap gostring NativeInput) (id : gostring)
  : res (nativeWindow * gmap gostring NativeInput) :=
  let (w, rest) := s in
  match rest !! id with
  | Some input =>
    if negb (bool_decide (ni_ConsumedBy input = nx_ID x)) then Err §"native input manifest has an absent or duplicate input"
    else if negb (bool_decide (ni_SessionID input = se_ID row)) then Err §"原生输入关联不完整"
    else
      let* (item, segments) := decodeQueuedInput input in
      if bool_decide (it_Type item = tools_type) then Ok (add_item_ w item [RefInput (ni_ID input)], delete id rest)
      else
        let* callID := str_field item §"call_id" in
        let* role := str_field item §"role" in
        if (negb (bool_decide (ni_CallID input = [])) && (negb (bool_decide (it_Type item = output_type)) || negb (bool_decide (ni_CallID input = callID))))
           || (bool_decide (ni_CallID input = []) && (negb (bool_decide (it_Type item = message_type)) || negb (bool_decide (role = §"user"))))
        then Err §"原生输入顺序或调用关联不匹配"
        else Ok (add_item_ (add_material w (ni_MessageID input) segments) item [RefInput (ni_ID input)], delete id rest)
  | None => Err §"native input manifest has an absent or duplicate input"
  end.
Definition load_checkpoint (row : session_row) (o : LLMOrigin) (r : NativeWindowRecords) (s : nativeWindow * gmap gostring NativeInput) (cp : NativeCheckpoint)
  : res (nativeWindow * gmap gostring NativeInput) :=
  let (w, rest) := s in
  match wr_Exchanges r !! cp_ExchangeID cp with
  | None => Err not_found_row
  | Some x =>
    if negb (bool_decide (nx_SessionID x = se_ID row)) || negb (bool_decide (nx_Status x = §"completed")) || negb (bool_decide (nx_Previous x = cp_ParentID cp))
       || negb (bool_decide (nx_APIType x = or_APIType o)) || negb (bool_decide (nx_Provider x = or_Provider o))
    then Err §"原生 checkpoint 的已提交响应不完整"
    else
      match nx_Response x with
      | Json response =>
        if negb (bool_decide (rs_ID response = cp_ResponseID cp)) || negb (bool_decide (rs_Status response = §"completed")) then Err §"原生响应终态与 checkpoint 不匹配"
        else if negb (bool_decide (length (nx_InputIDs x) = size (filter (λ p, ni_ConsumedBy p.2 = nx_ID x) rest))) then Err §"native input manifest is incomplete"
        else
          let* (w, rest) := res_fold (load_input row x) (w, rest) (nx_InputIDs x) in
          match nx_Items x with
          | Json items => let* output := res_map ParseItem items in Ok (add_outputs w x output, rest)
          | _ => Err §"unexpected end of JSON input"
          end
      | _ => Err §"unexpected end of JSON input"
      end
  end.
Definition load_result (row : session_row) (r : NativeWindowRecords) (cp : NativeCheckpoint) (w : nativeWindow) (call : NativeCall) : res nativeWindow :=
  if bool_decide (nc_ResultInputID call = []) || bool_decide (nc_Status call = §"pending") then Ok w
  else
    match wr_Inputs r !! nc_ResultInputID call with
    | None => Err not_found_row
    | Some input =>
      if negb (bool_decide (ni_SessionID input = se_ID row)) || negb (bool_decide (ni_ExchangeID input = cp_ExchangeID cp))
         || negb (bool_decide (ni_CallID input = nc_CallID call)) then Err §"原生分支结果关联不匹配"
      else
        let* item := ParseItem (ni_Item input) in
        let* segments := inputSegments input in
        Ok (add_completed (add_item_ (add_material w (ni_MessageID input) segments) item [RefInput (ni_ID input)]) item)
    end.
(** The window of the root material. *)
Definition load_root (row : session_row) (o : LLMOrigin) (checkpoint : option NativeCheckpoint) (r : NativeWindowRecords) : res nativeWindow :=
  match wr_Seed r with
  | Some seed =>
    if negb (bool_decide (sd_APIType seed = or_APIType o)) || negb (bool_decide (sd_Provider seed = or_Provider o)) then Err §"原生 seed 厂商或协议不匹配"
    else
      let* items := decodeSeedInputs seed in
      let* materials := DecodeMaterials (sd_Materials seed) in
      Ok {| w_Items := items; w_Materials := materials; w_Origin := at_base o (sd_BaseURL seed); w_Checkpoint := checkpoint; w_Retained := sd_MediaIDs seed;
            w_Completed := []; w_References := imap (λ i _, RefSeed (sd_ID seed) (Z.of_nat i)) items; w_Exchange := None |}
  | None =>
    let* _ := (match checkpoint with Some _ => checkInputFormat row | None => Ok tt end) in
    Ok {| w_Items := []; w_Materials := []; w_Origin := o; w_Checkpoint := checkpoint; w_Retained := []; w_Completed := []; w_References := []; w_Exchange := None |}
  end.
Definition api_response : gostring := §"response".
Definition Load (row : session_row) (checkpoint : option NativeCheckpoint) (r : NativeWindowRecords) : res nativeWindow :=
  match se_Origin row with
  | None => Err §"Responses 原生归属不完整"
  | Some o =>
    if negb (bool_decide (or_APIType o = api_response)) || bool_decide (or_Provider o = []) then Err §"Responses 原生归属不完整"
    else
      let* w := load_root row o checkpoint r in
      match checkpoint with
      | None => match wr_Seed r with Some _ => Ok w | None => Err §"缺少完整原生 checkpoint 或 seed" end
      | Some cp =>
        let* path := load_path (S (S (size (wr_Checkpoints r)))) row r cp ∅ in
        let* (w, _) := res_fold (load_checkpoint row o r) (w, wr_Inputs r) (rev path) in
        res_fold (load_result row r cp) w (cp_Calls cp)
      end
  end.

(** ** Validation and expansion *)
Fixpoint index_materials (items : nat) (l : list Material) (m : gmap Z Material) : res (gmap Z Material) :=
  match l with
  | [] => Ok m
  | x :: l =>
    if (ma_Index x <? 0) || (Z.of_nat items <=? ma_Index x) then Err §"原生素材位置缺失"
    else match m !! ma_Index x with Some _ => Err §"原生素材位置重复" | None => index_materials items l (<[ma_Index x := x]> m) end
  end.
Fixpoint match_media (parts : list jv) (media : list MessageSegment) : res nat :=
  match parts with
  | [] => Ok (length media)
  | part :: parts =>
    let t := str_or_empty part §"type" in
    match fields_of part with
    | None => Err §"json: cannot unmarshal into Go value"
    | Some _ =>
      if negb (bool_decide (t ∈ [§"input_image"; §"input_file"])) then match_media parts media
      else
        match media with
        | s :: media => if negb (Bool.eqb (bool_decide (t = §"input_image")) (bool_decide (Type_ s = SegmentImage))) then Err §"原生素材类型不匹配" else match_media parts media
        | [] => Err §"原生媒体只有服务端引用或临时 URL，缺少完整素材"
        end
    end
  end.
Definition validate_media (m : gmap Z Material) (p : nat * jv) : res unit :=
  let* parts := nativeContent p.2 in
  let media := List.filter is_media (match m !! Z.of_nat p.1 with Some x => ma_Segments x | None => [] end) in
  let* left_ := match_media parts media in
  if negb (bool_decide (media = [])) && negb (bool_decide (left_ = 0%nat)) then Err §"原生媒体与素材关联不完整" else Ok tt.
Definition Validate (ctx : option gostring) (w : nativeWindow) : res unit :=
  let* _ := validateItems json_valid (w_Items w) in
  let* m := index_materials (length (w_Items w)) (w_Materials w) ∅ in
  let* _ := res_map (validate_media m) (imap pair (w_Items w)) in
  match ctx with Some e => Err e | None => Ok tt end.
Definition mediaIDs (w : nativeWindow) : list gostring :=
  foldl (λ ids id, if bool_decide (id = []) || bool_decide (id ∈ ids) then ids else ids ++ [id]) []
    (w_Retained w ++ mjoin ((λ m, MediaID <$> ma_Segments m) <$> w_Materials w)
     ++ mjoin (ArgumentMediaIDs <$> (it_Arguments <$> List.filter (λ i, bool_decide (it_Type i = call_type)) (w_Items w)))).
(** The item of a material with its media expanded. *)
Fixpoint resolve_materials (materials : list Material) (prepared : list (list MessageSegment)) (items : list jv) : res (list jv) :=
  match materials, prepared with
  | [], _ => Ok items
  | m :: materials, segments :: prepared =>
    match items !! Z.to_nat (ma_Index m) with
    | None => Panic
    | Some original =>
      let* callID := (if bool_decide (it_Type original = output_type)
                      then match lookup_field original §"call_id" with None => Err §"unexpected end of JSON input" | Some _ => str_field original §"call_id" end
                      else Ok []) in
      let* item := nativeItem url_parse callID segments in
      resolve_materials materials prepared (<[Z.to_nat (ma_Index m) := item]> items)
    end
  | _ :: _, [] => Panic
  end.
(** [PrepareMaterials] expands the media of all materials at once. *)
Definition Resolve (ctx : option gostring) (prepare : list (list MessageSegment) → res (list (list MessageSegment))) (w : nativeWindow) : res (list jv) :=
  let* _ := Validate ctx w in
  let* prepared := prepare (ma_Segments <$> w_Materials w) in
  resolve_materials (w_Materials w) prepared (w_Items w).
(** [resolveInputs] before the expansion: the pending inputs join the window. *)
Definition append_pending (w : nativeWindow) (inputs : list NativeInput) : res nativeWindow :=
  res_fold (λ w input,
    let* (item, segments) := decodeQueuedInput input in
    Ok (add_item_ (if bool_decide (it_Type item = tools_type) then w else add_material w (ni_MessageID input) segments) item [])) w inputs.

(** ** Branches *)
Definition unknown_outcome : gostring := §"tool call outcome is unknown at this branch point; do not assume it succeeded".
Definition not_executed : gostring := §"tool call was not executed in this branch; do not assume it succeeded".
Fixpoint closeBranchCalls (w : nativeWindow) (continuation : list jv) (calls : list NativeCall) : res (nativeWindow * list jv) :=
  match calls with
  | [] => Ok (w, continuation)
  | call :: calls =>
    if negb (bool_decide (nc_ResultInputID call = [])) then closeBranchCalls w continuation calls
    else
      let* item := FunctionCallOutput (nc_CallID call) (JStr (if bool_decide (nc_Status call = §"started") then unknown_outcome else not_executed)) in
      closeBranchCalls (add_item_ w item [RefSynthetic item]) (continuation ++ [item]) calls
  end.
Definition close_branch (w : nativeWindow) (calls : list NativeCall) : res (nativeWindow * list jv) := closeBranchCalls w (w_Completed w) calls.
Definition Seed (id : gostring) (w : nativeWindow) (continuation : list jv) (calls : list NativeCall) (responseID : gostring) : NativeSeed :=
  {| sd_ID := id; sd_SessionID := []; sd_APIType := or_APIType (w_Origin w); sd_Provider := or_Provider (w_Origin w); sd_BaseURL := or_BaseURL (w_Origin w);
     sd_ResponseID := responseID; sd_Source := match w_Checkpoint w with Some c => cp_ID c | None => [] end; sd_Version := inputFormatVersion;
     sd_Items := Some (w_Items w); sd_Materials := w_Materials w; sd_Continuation := continuation; sd_Calls := calls; sd_MediaIDs := mediaIDs w;
     sd_Consumed := false |}.
(** Whether the provider keeps the response of an exchange: asked for, and not refused. *)
Definition exchange_requested (x : NativeExchange) : bool := negb (bool_decide (nx_Store x = Some false)).
Definition exchangeStorage (x : NativeExchange) : res (bool * bool) :=
  match nx_Response x with
  | Json r => Ok (exchange_requested x, exchange_requested x && negb (bool_decide (rs_Store r = Some false)))
  | _ => Err §"read native response storage: unexpected end of JSON input"
  end.
(** The continuation of a seed, with the materials of its items. *)
Fixpoint jv_eqb (a b : jv) {struct a} : bool :=
  match a, b with
  | JNull, JNull => true
  | JBool x, JBool y => Bool.eqb x y
  | JNum x, JNum y | JStr x, JStr y => bool_decide (x = y)
  | JArr l, JArr k => (fix go l k := match l, k with [], [] => true | x :: l, y :: k => jv_eqb x y && go l k | _, _ => false end) l k
  | JObj l, JObj k =>
    (fix go (l k : list (gostring * jv)) := match l, k with
       | [], [] => true
       | (n, x) :: l, (m, y) :: k => bool_decide (n = m) && jv_eqb x y && go l k
       | _, _ => false
       end) l k
  | _, _ => false
  end.
Fixpoint same_items (l k : list jv) : bool :=
  match l, k with [], [] => true | x :: l, y :: k => jv_eqb x y && same_items l k | _, _ => false end.
Definition resolveContinuation (seed : NativeSeed) : res nativeWindow :=
  let* continuation := res_map ParseItem (sd_Continuation seed) in
  match continuation with
  | [] => Ok empty_window
  | _ =>
    let* items := decodeSeedInputs seed in
    if (length items <? length continuation)%nat then Err §"原生分支续接材料缺失"
    else
      let start := (length items - length continuation)%nat in
      if negb (same_items continuation (drop start items)) then Err §"原生分支续接材料与窗口不匹配"
      else
        let* materials := DecodeMaterials (sd_Materials seed) in
        Ok {| w_Items := continuation;
              w_Materials := omap (λ m, if Z.of_nat start <=? ma_Index m
                then Some {| ma_Index := ma_Index m - Z.of_nat start; ma_MessageID := ma_MessageID m; ma_Segments := ma_Segments m |} else None) materials;
              w_Origin := no_origin; w_Checkpoint := None; w_Retained := []; w_Completed := []; w_References := []; w_Exchange := None |}
  end.
(** The seed of a window whose calls are closed. *)
Definition branch_seed (ctx : option gostring) (id : gostring) (w : nativeWindow) (calls : list NativeCall) (responseID : gostring) : res NativeSeed :=
  let* (w, continuation) := close_branch w calls in
  let* _ := validateCallLinks (w_Items w) false in
  let* _ := Validate ctx w in
  Ok (Seed id w continuation calls responseID).
Definition stored_response (w : nativeWindow) (cp : NativeCheckpoint) : res gostring :=
  match w_Exchange w with
  | None => Panic
  | Some x => let* (_, available) := exchangeStorage x in Ok (if available then cp_ResponseID cp else [])
  end.
(** [PrepareFork] at a message: the seed and the checkpoint the source must still have. *)
Definition PrepareFork (ctx : option gostring) (id : gostring) (d : ndb) (source : session_row) (message : gostring) : res (NativeSeed * gostring) :=
  let* latest := CurrentCheckpoint d (se_ID source) in
  match latest with
  | None => Err §"Responses fork 缺少完整原生 checkpoint"
  | Some latest =>
    let* cp := res_wrap §"指定回复没有完整原生 checkpoint: " (CheckpointForMessage d (se_ID source) message) in
    let* records := LoadNativeWindow d source (Some cp) in
    let* w := Load source (Some cp) records in
    let* response := stored_response w cp in
    let* seed := branch_seed ctx id w (cp_Calls cp) response in
    Ok (seed, cp_ID latest)
  end.
Definition sealed_ids (calls : list NativeCall) : res (list gostring) :=
  if existsb (λ c, bool_decide (nc_Status c = §"pending")) calls then Err §"后台副本不能包含未封存的工具批次" else Ok (map nc_ResultInputID calls).
Definition PrepareCopy (ctx : option gostring) (id : gostring) (d : ndb) (source : session_row) : res (NativeSeed * gostring) :=
  let* cp := CurrentCheckpoint d (se_ID source) in
  match PendingInputs d (se_ID source) with
  | [] =>
    let* records := LoadNativeWindow d source cp in
    let* w := Load source cp records in
    match cp with
    | None => let* seed := branch_seed ctx id w [] [] in Ok (seed, [])
    | Some c => let* response := stored_response w c in let* seed := branch_seed ctx id w (cp_Calls c) response in Ok (seed, cp_ID c)
    end
  | pending =>
    match cp with
    | None => Err §"后台副本需要完整提交的原生窗口"
    | Some c =>
      if bool_decide (cp_MessageID c = []) then Err §"后台副本需要完整提交的原生窗口"
      else
        let* snapshot := CheckpointForMessage d (se_ID source) (cp_MessageID c) in
        let* ids := sealed_ids (cp_Calls snapshot) in
        if forallb (λ i, bool_decide (ni_ID i ∈ ids)) pending then PrepareFork ctx id d source (cp_MessageID c) else Err §"后台副本需要完整提交的原生窗口"
    end
  end.

(** ** Definitions of tools and the notice of the foreground *)
Definition definitionsIn (items : list jv) : res (list gostring) :=
  res_fold (λ known item, if bool_decide (it_Type item = tools_type) then let* tools := AdditionalToolDefinitions item in Ok (known ++ map ft_Name tools) else Ok known)
    [] items.
Definition known_definitions (known : list gostring) (inputs : list NativeInput) : res (list gostring) :=
  res_fold (λ known input, let* (item, _) := decodeQueuedInput input in
    if bool_decide (it_Type item = tools_type) then let* tools := AdditionalToolDefinitions item in Ok (known ++ map ft_Name tools) else Ok known) known inputs.
(** The tools that are not defined yet, each once, and all known names. *)
Fixpoint new_definitions (known : list gostring) (tools : list FunctionTool) : list FunctionTool * list gostring :=
  match tools with
  | [] => ([], known)
  | t :: tools =>
    if bool_decide (ft_Name t ∈ known) then new_definitions known tools
    else let (added, known) := new_definitions (known ++ [ft_Name t]) tools in (t :: added, known)
  end.
Definition definition_input (id session : gostring) (now : Z) (item : jv) : NativeInput :=
  {| ni_ID := id; ni_SessionID := session; ni_MessageID := []; ni_ExchangeID := []; ni_CallID := []; ni_Item := item; ni_Media := []; ni_ConsumedBy := [];
     ni_CreatedAt := now |}.
Definition same_material (a b : Material) : bool :=
  (ma_Index a =? ma_Index b) && bool_decide (ma_MessageID a = ma_MessageID b) && bool_decide (ma_Segments a = ma_Segments b).
Fixpoint same_materials (l k : list Material) : bool :=
  match l, k with [], [] => true | a :: l, b :: k => same_material a b && same_materials l k | _, _ => false end.
Definition isForegroundNotice (input : NativeInput) (expected : option NativeInput) : bool :=
  match expected with
  | None => false
  | Some e => bool_decide (ni_SessionID input = ni_SessionID e) && bool_decide (ni_MessageID input = []) && bool_decide (ni_ExchangeID input = [])
              && bool_decide (ni_CallID input = []) && bool_decide (ni_ConsumedBy input = []) && jv_eqb (ni_Item input) (ni_Item e)
              && same_materials (ni_Media input) (ni_Media e)
  end.
(** Results first, then messages, then definitions, then notices. *)
Definition inputOrder (input : NativeInput) : Z :=
  if negb (bool_decide (ni_CallID input = [])) then 0
  else if bool_decide (str_or_empty (ni_Item input) §"type" = tools_type) then 2
  else if bool_decide (ni_MessageID input = []) then 3 else 1.
Definition of_order (n : Z) (inputs : list NativeInput) : list NativeInput := List.filter (λ i, inputOrder i =? n) inputs.
(** A stable sort by four keys. *)
Definition sort_inputs (inputs : list NativeInput) : list NativeInput := of_order 0 inputs ++ of_order 1 inputs ++ of_order 2 inputs ++ of_order 3 inputs.
End Windows.

(** * Turns of the Responses agent ([agent/responses/{loop,model_call,persistence,input_format,tool_inputs}.go])

    A turn reads the current checkpoint, commits its inputs, asks the provider
    on top of the response of the checkpoint (or replays the whole window), and
    commits each response with the inputs it consumed as the next checkpoint.
    Any number of turns and forks interleave on the database; a step is one
    database call with the computation around it. What providers, users, tools
    and hooks do, and every failure, comes from the environment of a step. The
    provider's own memory is part of the world: under the id of a response it
    holds the conversation that the response ended. *)
Definition CanSwitch (source : option LLMOrigin) (target : LLMOrigin) : res unit :=
  if bool_decide (or_APIType target = []) || bool_decide (or_Provider target = []) then Err §"目标模型缺少协议或厂商归属"
  else
    match source with
    | None => Ok tt
    | Some o =>
      if bool_decide (or_APIType o = []) then Ok tt
      else if bool_decide (or_APIType o = or_APIType target)
              && (bool_decide (or_APIType o = §"chat") || (negb (bool_decide (or_Provider o = [])) && bool_decide (or_Provider o = or_Provider target)))
      then Ok tt else Err §"会话上下文与目标模型不兼容，请新建会话或切回兼容模型"
    end.
Definition with_origin (s : session_row) (o : LLMOrigin) : session_row :=
  {| se_ID := se_ID s; se_Origin := Some o; se_Version := se_Version s; se_Checkpoint := se_Checkpoint s; se_Seed := se_Seed s; se_Compact := se_Compact s |}.
Definition with_version (s : session_row) (v : Z) : session_row :=
  {| se_ID := se_ID s; se_Origin := se_Origin s; se_Version := v; se_Checkpoint := se_Checkpoint s; se_Seed := se_Seed s; se_Compact := se_Compact s |}.
Definition RegisterOrigin (row : session_row) (target : LLMOrigin) : res session_row :=
  if bool_decide (or_APIType target = []) || bool_decide (or_Provider target = []) then Err §"dialogue origin requires a protocol and provider"
  else
    match se_Origin row with
    | None => Ok (with_origin row target)
    | Some o =>
      if negb (bool_decide (or_APIType o = or_APIType target)) then Err §"source protocol cannot be reinterpreted"
      else if negb (bool_decide (or_Provider o = [])) then Ok row else Ok (with_origin row target)
    end.

(** ** States *)
Record nrequest := {
  rq_prev : gostring; rq_window : nativeWindow; rq_input : list jv; rq_inputs : list NativeInput; rq_store : bool; rq_final : bool
}.
Definition rq_consumed (r : nrequest) : list gostring := map ni_ID (rq_inputs r).
Record slot := { sl_call : NativeCall; sl_input : NativeInput }.
Inductive npc :=
| PcStart | PcCheckpoint | PcWindow | PcFormat | PcInput | PcClose | PcCloseCommit (pending : list NativeCall)
| PcTop | PcPrepare (final : bool) | PcNotice (final : bool) (inputs : list NativeInput) | PcDefs (final : bool) (inputs : list NativeInput)
| PcBuild (final : bool) (inputs : list NativeInput) | PcSend (r : nrequest) | PcStream (r : nrequest) (exchange : gostring)
| PcReply | PcBegin | PcBatch (summary : bool) (head : gostring) (slots : list slot) | PcSummary | PcExtra
| PcDone (e : option gostring).
Record nturn := {
  t_session : gostring; t_row : session_row; t_origin : LLMOrigin; t_checkpoint : option NativeCheckpoint; t_seed : option NativeSeed;
  t_window : option nativeWindow; t_definitions : list gostring; t_exchange : option NativeExchange; t_response : gostring;
  t_consumed : list gostring; t_calls : list ToolCallRequest; t_rounds : nat; t_pc : npc
}.
Definition goto_ (t : nturn) (p : npc) : nturn :=
  {| t_session := t_session t; t_row := t_row t; t_origin := t_origin t; t_checkpoint := t_checkpoint t; t_seed := t_seed t; t_window := t_window t;
     t_definitions := t_definitions t; t_exchange := t_exchange t; t_response := t_response t; t_consumed := t_consumed t; t_calls := t_calls t;
     t_rounds := t_rounds t; t_pc := p |}.
Definition fail_ (t : nturn) (e : gostring) : nturn := goto_ t (PcDone (Some e)).
Definition with_row (t : nturn) (row : session_row) : nturn :=
  {| t_session := t_session t; t_row := row; t_origin := t_origin t; t_checkpoint := t_checkpoint t; t_seed := t_seed t; t_window := t_window t;
     t_definitions := t_definitions t; t_exchange := t_exchange t; t_response := t_response t; t_consumed := t_consumed t; t_calls := t_calls t;
     t_rounds := t_rounds t; t_pc := t_pc t |}.
Definition with_selection (t : nturn) (o : LLMOrigin) : nturn :=
  {| t_session := t_session t; t_row := t_row t; t_origin := o; t_checkpoint := t_checkpoint t; t_seed := t_seed t; t_window := t_window t;
     t_definitions := t_definitions t; t_exchange := t_exchange t; t_response := t_response t; t_consumed := t_consumed t; t_calls := t_calls t;
     t_rounds := t_rounds t; t_pc := t_pc t |}.
Definition with_root_ (t : nturn) (c : option NativeCheckpoint) (s : option NativeSeed) (w : option nativeWindow) (known : list gostring) : nturn :=
  {| t_session := t_session t; t_row := t_row t; t_origin := t_origin t; t_checkpoint := c; t_seed := s; t_window := w; t_definitions := known;
     t_exchange := t_exchange t; t_response := t_response t; t_consumed := t_consumed t; t_calls := t_calls t; t_rounds := t_rounds t; t_pc := t_pc t |}.
Definition with_known (t : nturn) (known : list gostring) : nturn := with_root_ t (t_checkpoint t) (t_seed t) (t_window t) known.
Definition with_result (t : nturn) (x : NativeExchange) (response : gostring) (consumed : list gostring) (calls : list ToolCallRequest) : nturn :=
  {| t_session := t_session t; t_row := t_row t; t_origin := t_origin t; t_checkpoint := t_checkpoint t; t_seed := t_seed t; t_window := t_window t;
     t_definitions := t_definitions t; t_exchange := Some x; t_response := response; t_consumed := consumed; t_calls := calls; t_rounds := t_rounds t;
     t_pc := t_pc t |}.
Definition next_round (t : nturn) : nturn :=
  {| t_session := t_session t; t_row := t_row t; t_origin := t_origin t; t_checkpoint := t_checkpoint t; t_seed := t_seed t; t_window := t_window t;
     t_definitions := t_definitions t; t_exchange := t_exchange t; t_response := t_response t; t_consumed := t_consumed t; t_calls := t_calls t;
     t_rounds := S (t_rounds t); t_pc := t_pc t |}.
Definition no_consumed (t : nturn) : nturn :=
  {| t_session := t_session t; t_row := t_row t; t_origin := t_origin t; t_checkpoint := t_checkpoint t; t_seed := t_seed t; t_window := t_window t;
     t_definitions := t_definitions t; t_exchange := t_exchange t; t_response := t_response t; t_consumed := []; t_calls := t_calls t;
     t_rounds := t_rounds t; t_pc := t_pc t |}.
Definition checkpoint_id (t : nturn) : gostring := match t_checkpoint t with Some c => cp_ID c | None => [] end.
Definition start_turn (session : gostring) (o : LLMOrigin) : nturn :=
  {| t_session := session; t_row := {| se_ID := session; se_Origin := None; se_Version := 0; se_Checkpoint := None; se_Seed := None; se_Compact := None |};
     t_origin := o; t_checkpoint := None; t_seed := None; t_window := None; t_definitions := []; t_exchange := None; t_response := [];
     t_consumed := []; t_calls := []; t_rounds := 0; t_pc := PcStart |}.

(** What a stream of the provider ended with. *)
Record answer := {
  an_Status : gostring; an_Response : column Response; an_Items : list jv; an_Started : bool; an_Error : option gostring; an_Unavailable : bool;
  an_Archive : option gostring; an_Allowed : list gostring
}.
(** The environment of a step; each step uses the part it needs. *)
Record nenv := {
  en_fail : option gostring; en_more : bool; en_ids : list gostring; en_now : Z; en_message : Message; en_messages : list Message;
  en_segments : list MessageSegment; en_origin : option LLMOrigin; en_notice : option (list MessageSegment); en_tools : list FunctionTool; en_store : bool;
  en_prepare : list (list MessageSegment) → res (list (list MessageSegment)); en_answer : answer; en_retry : bool; en_chat : bool; en_index : nat
}.

Section Turns.
Context `{UnicodeTables} (json_valid : gostring → bool) (url_parse : gostring → option (gostring * gostring)) (max_rounds : nat).

(** ** Reads *)
(** A first turn may start only from complete inputs that are still queued. *)
Definition missing_history : gostring := §"Responses 会话有历史但缺少完整原生 checkpoint、seed 或待提交输入".
Fixpoint split_inputs (session : gostring) (notice : option NativeInput) (inputs : list NativeInput) (users : list NativeInput) (notices : nat)
  : res (list NativeInput * nat) :=
  match inputs with
  | [] => Ok (users, notices)
  | i :: inputs =>
    let* (item, _) := decodeQueuedInput i in
    if bool_decide (it_Type item = tools_type) then
      if negb (bool_decide (ni_SessionID i = session)) || negb (bool_decide (ni_ConsumedBy i = [])) then Err missing_history
      else split_inputs session notice inputs users notices
    else if isForegroundNotice i notice then split_inputs session notice inputs users (S notices)
    else split_inputs session notice inputs (users ++ [i]) notices
  end.
Definition same_segments (a b : column (list MessageSegment)) : bool :=
  match a, b with Absent, Absent | Broken, Broken => true | Json a, Json b => bool_decide (a = b) | _, _ => false end.
Definition initial_input (session : gostring) (p : NativeInput * Message) : res unit :=
  let (i, m) := p in
  if negb (bool_decide (sm_Role m = RoleUser_)) || negb (bool_decide (sm_SessionID m = session)) || negb (bool_decide (ni_SessionID i = session))
     || negb (bool_decide (ni_MessageID i = sm_ID m)) || negb (bool_decide (ni_ExchangeID i = [])) || negb (bool_decide (ni_CallID i = []))
     || negb (bool_decide (ni_ConsumedBy i = [])) then Err missing_history
  else
    let* segments := inputSegments i in
    if negb (bool_decide (MessageContent url_parse segments = sm_Content m)) || negb (same_segments (StoredMessageSegments segments) (sm_Segments m))
    then Err missing_history
    else
      let* item := ParseItem (ni_Item i) in
      let* want := nativeItem url_parse [] segments in
      if jv_eqb item want then Ok tt else Err missing_history.
Definition validateInitialInputs (session : gostring) (notice : option NativeInput) (inputs : list NativeInput) (messages : list Message) : res unit :=
  let* (users, notices) := split_inputs session notice inputs [] 0 in
  if (1 <? notices)%nat || negb (length users =? length messages)%nat then Err missing_history
  else let* _ := res_map (initial_input session) (zip users messages) in Ok tt.
Definition notice_input (env : nenv) (id session : gostring) : res (option NativeInput) :=
  match en_notice env with
  | None => Ok None
  | Some segments => let* i := queuedInput url_parse id session [] [] [] (en_now env) segments in Ok (Some i)
  end.
(** [PrepareTurn] after its reads. *)
Definition prepare_turn (d : ndb) (t : nturn) (env : nenv) : res nturn :=
  let row := t_row t in
  let c := t_checkpoint t in
  let* records := LoadNativeWindow d row c in
  let seed := wr_Seed records in
  let* _ := (match c, seed with
             | None, None =>
               let* notice := notice_input env [] (se_ID row) in
               let* _ := validateInitialInputs (se_ID row) notice (PendingInputs d (se_ID row)) (en_messages env) in
               match en_messages env with [] => Ok tt | _ => checkInputFormat row end
             | None, Some s => if sd_Consumed s then Err §"原生 seed 已消费但缺少 checkpoint" else Ok tt
             | _, _ => Ok tt
             end) in
  let* _ := (match seed with
             | None => Ok tt
             | Some s =>
               if match se_Origin row with Some o => bool_decide (sd_APIType s = or_APIType o) && bool_decide (sd_Provider s = or_Provider o) | None => false end
               then Ok tt else Err §"原生 seed 厂商或协议不匹配"
             end) in
  let* _ := (match c with
             | Some c => if bool_decide (cp_SeedID c = match seed with Some s => sd_ID s | None => [] end) then Ok tt else Err §"原生 checkpoint 的根材料不匹配"
             | None => Ok tt
             end) in
  match c, seed with
  | None, None => Ok (with_root_ t c seed None [])
  | _, _ => let* w := Load row c records in let* known := definitionsIn (w_Items w) in Ok (with_root_ t c seed (Some w) known)
  end.

(** ** Commits *)
Definition inputs_only (t : nturn) (inputs : list NativeInput) : NativeCommit :=
  {| nm_Expected := checkpoint_id t; nm_Checkpoint := None; nm_Snapshot := None; nm_Inputs := inputs; nm_Calls := []; nm_Consumed := []; nm_ConsumeSeed := [] |}.
(** [inputCommitter.Commit]: the input of a stored message. *)
Definition message_input (t : nturn) (id : gostring) (now : Z) (m : Message) : res NativeInput :=
  let* segments := MessageSegmentsFromStorage (sm_Segments m) in
  queuedInput url_parse id (t_session t) (sm_ID m) [] [] now (match segments with [] => TextSegments (sm_Content m) | _ => segments end).
(** [advance] with the exchange of the turn. *)
Definition advance (t : nturn) (id message : gostring) (calls : list NativeCall) (inputs : list NativeInput) : option NativeCommit :=
  x ← t_exchange t;
  Some {| nm_Expected := checkpoint_id t;
          nm_Checkpoint := Some {| cp_ID := id; cp_SessionID := t_session t; cp_ParentID := checkpoint_id t; cp_ExchangeID := nx_ID x; cp_ResponseID := t_response t;
            cp_MessageID := message; cp_SeedID := match t_seed t with Some s => sd_ID s | None => [] end; cp_Calls := [] |};
          nm_Snapshot := None; nm_Inputs := inputs; nm_Calls := calls; nm_Consumed := t_consumed t;
          nm_ConsumeSeed := match t_seed t with Some s => if sd_Consumed s then [] else sd_ID s | None => [] end |}.
Definition seed_consumed (s : NativeSeed) : NativeSeed :=
  {| sd_ID := sd_ID s; sd_SessionID := sd_SessionID s; sd_APIType := sd_APIType s; sd_Provider := sd_Provider s; sd_BaseURL := sd_BaseURL s;
     sd_ResponseID := sd_ResponseID s; sd_Source := sd_Source s; sd_Version := sd_Version s; sd_Items := sd_Items s; sd_Materials := sd_Materials s;
     sd_Continuation := sd_Continuation s; sd_Calls := sd_Calls s; sd_MediaIDs := sd_MediaIDs s; sd_Consumed := true |}.
(** The turn after a commit that moved the checkpoint. *)
Definition moved (t : nturn) (n : NativeCommit) : nturn :=
  match nm_Checkpoint n with
  | None => t
  | Some c => with_root_ t (Some (with_cp_calls c (nm_Calls n))) (if bool_decide (nm_ConsumeSeed n = []) then t_seed t else seed_consumed <$> t_seed t) None (t_definitions t)
  end.
Definition pending_text : gostring := §"tool outcome is unknown: result has not been saved; do not assume success or retry automatically".
Definition begin_slot (t : nturn) (x : gostring) (now : Z) (p : nat * (ToolCallRequest * (gostring * gostring))) : res slot :=
  let '(i, (call, (message, id))) := p in
  let* input := queuedInput url_parse id (t_session t) message x (tc_ID call) now (TextSegments pending_text) in
  Ok {| sl_input := input; sl_call := {| nc_ExchangeID := x; nc_CallID := tc_ID call; nc_Name := tc_Name call; nc_Arguments := tc_Arguments call;
        nc_Status := §"pending"; nc_ResultInputID := id; nc_Ordinal := Z.of_nat i |} |}.
Definition with_status (c : NativeCall) (status : gostring) : NativeCall :=
  {| nc_ExchangeID := nc_ExchangeID c; nc_CallID := nc_CallID c; nc_Name := nc_Name c; nc_Arguments := nc_Arguments c; nc_Status := status;
     nc_ResultInputID := nc_ResultInputID c; nc_Ordinal := nc_Ordinal c |}.
Definition with_cp_id (c : NativeCheckpoint) (id message : gostring) : NativeCheckpoint :=
  {| cp_ID := id; cp_SessionID := cp_SessionID c; cp_ParentID := cp_ParentID c; cp_ExchangeID := cp_ExchangeID c; cp_ResponseID := cp_ResponseID c;
     cp_MessageID := message; cp_SeedID := cp_SeedID c; cp_Calls := cp_Calls c |}.
Definition is_pending (c : NativeCall) : bool := bool_decide (nc_Status c = §"pending").
Definition left_slots (slots : list slot) : nat := length (List.filter (λ s, is_pending (sl_call s)) slots).
(** [Result] for slot [i]: the commit and the slots after it. *)
Definition result_commit (t : nturn) (head snapshot : gostring) (slots : list slot) (i : nat) (segments : list MessageSegment) : res (NativeCommit * list slot) :=
  match slots !! i, t_checkpoint t with
  | Some s, Some c =>
    let old := sl_input s in
    let* input := queuedInput url_parse (ni_ID old) (t_session t) (ni_MessageID old) (ni_ExchangeID old) (nc_CallID (sl_call s)) (ni_CreatedAt old) segments in
    let call := with_status (sl_call s) §"completed" in
    Ok ({| nm_Expected := checkpoint_id t; nm_Checkpoint := None; nm_Inputs := [input]; nm_Calls := [call]; nm_Consumed := []; nm_ConsumeSeed := [];
           nm_Snapshot := if (left_slots slots =? 1)%nat then Some (with_cp_id c snapshot head) else None |},
        <[i := {| sl_call := call; sl_input := input |}]> slots)
  | _, _ => Panic
  end.

(** ** Requests *)
Definition pending_window (w : nativeWindow) (inputs : list NativeInput) : res nativeWindow := append_pending w inputs.
(** [replayRequest] with the window of the checkpoint. *)
Definition replay_request (env : nenv) (t : nturn) (w : nativeWindow) (inputs : list NativeInput) (store final : bool) : res nrequest :=
  let* _ := CanSwitch (Some (w_Origin w)) (t_origin t) in
  let* w := pending_window w inputs in
  let* items := Resolve json_valid url_parse (en_fail env) (en_prepare env) w in
  let* _ := validateCallLinks items false in
  Ok {| rq_prev := []; rq_window := w; rq_input := items; rq_inputs := inputs; rq_store := store; rq_final := final |}.
(** The cached window, or the one loaded now. *)
Definition window_of (d : ndb) (t : nturn) : res nativeWindow :=
  match t_window t with Some w => Ok w | None => let* records := LoadNativeWindow d (t_row t) (t_checkpoint t) in Load (t_row t) (t_checkpoint t) records end.
Definition plain_request (env : nenv) (prev : gostring) (w : nativeWindow) (inputs : list NativeInput) (store final : bool) : res nrequest :=
  let* w := pending_window w inputs in
  let* items := Resolve json_valid url_parse (en_fail env) (en_prepare env) w in
  Ok {| rq_prev := prev; rq_window := w; rq_input := items; rq_inputs := inputs; rq_store := store; rq_final := final |}.
Definition with_window (t : nturn) (w : nativeWindow) : nturn := with_root_ t (t_checkpoint t) (t_seed t) (Some w) (t_definitions t).
Definition replay (d : ndb) (env : nenv) (t : nturn) (inputs : list NativeInput) (store final : bool) : res (nturn * nrequest) :=
  let* w := window_of d t in
  let* r := replay_request env t w inputs store final in Ok (with_window t w, r).
(** The part of [prepare] that builds the request. *)
Definition build_request (d : ndb) (env : nenv) (t : nturn) (final : bool) (inputs : list NativeInput) : res (nturn * nrequest) :=
  let inputs := sort_inputs inputs in
  let base := or_BaseURL (t_origin t) in
  match t_checkpoint t, t_seed t with
  | Some c, _ =>
    match (match t_window t with Some w => w_Exchange w | None => t_exchange t end) with
    | None => Panic
    | Some x =>
      let* (_, available) := exchangeStorage x in
      let store := en_store env && available in
      if negb store || negb (bool_decide (cp_ResponseID c = [])) && negb (bool_decide (nx_BaseURL x = base))
         || bool_decide (cp_ResponseID c = []) && match t_seed t with Some _ => true | None => false end
      then replay d env t inputs store final
      else let* r := plain_request env (cp_ResponseID c) empty_window inputs store final in Ok (t, r)
    end
  | None, Some s =>
    if negb (en_store env) || bool_decide (sd_ResponseID s = []) || negb (bool_decide (sd_BaseURL s = base)) then replay d env t inputs (en_store env) final
    else let* w := resolveContinuation s in let* r := plain_request env (sd_ResponseID s) w inputs (en_store env) final in Ok (t, r)
  | None, None => let* r := plain_request env [] empty_window inputs (en_store env) final in Ok (t, r)
  end.
Definition new_exchange (t : nturn) (id : gostring) (r : nrequest) : NativeExchange :=
  {| nx_ID := id; nx_SessionID := t_session t; nx_APIType := or_APIType (t_origin t); nx_Provider := or_Provider (t_origin t);
     nx_BaseURL := or_BaseURL (t_origin t); nx_Previous := checkpoint_id t; nx_Store := Some (rq_store r); nx_Response := Absent; nx_Items := Absent;
     nx_InputIDs := rq_consumed r; nx_Status := [] |}.
(** The function calls of an answer, or its fault. *)
Fixpoint answer_calls (allowed : list gostring) (items : list jv) (seen : gset gostring) : res (list ToolCallRequest) :=
  match items with
  | [] => Ok []
  | i :: items =>
    if negb (bool_decide (it_Type i = call_type)) then answer_calls allowed items seen
    else if bool_decide (it_CallID i = []) || bool_decide (it_Name i = []) || bool_decide (it_CallID i ∈ seen) then Err §"invalid or duplicate Responses function call"
    else if negb (bool_decide (it_Name i ∈ allowed)) then Err (§"Responses returned unavailable function " ++ quote (it_Name i))
    else
      let* calls := answer_calls allowed items ({[it_CallID i]} ∪ seen) in
      Ok ({| tc_ID := it_CallID i; tc_Name := it_Name i; tc_Arguments := it_Arguments i |} :: calls)
  end.
Definition finished (x : NativeExchange) (a : answer) : NativeExchange :=
  {| nx_ID := nx_ID x; nx_SessionID := nx_SessionID x; nx_APIType := nx_APIType x; nx_Provider := nx_Provider x; nx_BaseURL := nx_BaseURL x;
     nx_Previous := nx_Previous x; nx_Store := nx_Store x; nx_Response := an_Response a; nx_Items := Json (an_Items a); nx_InputIDs := nx_InputIDs x;
     nx_Status := an_Status a |}.
(** The turn after an attempt whose facts are saved or not. *)
Definition after_answer (d : ndb) (env : nenv) (t : nturn) (r : nrequest) (x : NativeExchange) (saved : bool) : nturn :=
  let a := en_answer env in
  match an_Error a with
  | Some e =>
    if bool_decide (rq_prev r = []) || an_Started a || negb saved || negb (an_Unavailable a) then
      if en_retry env then goto_ t (PcSend r) else fail_ t e
    else
      match replay d env t (rq_inputs r) (rq_store r) (rq_final r) with
      | Ok (t, r) => if en_retry env then goto_ t (PcSend r) else fail_ t e
      | Err e => fail_ t e
      | Panic => fail_ t §"panic"
      end
  | None =>
    if negb saved then fail_ t §"save native response"
    else
      match answer_calls (an_Allowed a) (an_Items a) ∅ with
      | Ok calls =>
        if en_chat env && negb (bool_decide (calls = [])) then fail_ t §"unexpected function call with tools disabled"
        else
          match an_Response a with
          | Json response =>
            let t := with_result t (finished x a) (rs_ID response) (rq_consumed r) calls in
            match calls with
            | [] => goto_ t PcReply
            | _ => if rq_final r then fail_ t §"summary response returned function calls with no tools" else goto_ t PcBegin
            end
          | _ => fail_ t §"panic"
          end
      | Err e => fail_ t e
      | Panic => fail_ t §"panic"
      end
  end.
End Turns.

(** ** Steps *)
Record nworld := {
  nw_db : ndb; nw_turns : gmap nat nturn; nw_prepared : list (NativeSeed * gostring * gostring); nw_ids : gset gostring; nw_server : gmap gostring (list jv)
}.
Definition with_db (w : nworld) (d : ndb) : nworld :=
  {| nw_db := d; nw_turns := nw_turns w; nw_prepared := nw_prepared w; nw_ids := nw_ids w; nw_server := nw_server w |}.
Definition with_turn (w : nworld) (k : nat) (t : nturn) : nworld :=
  {| nw_db := nw_db w; nw_turns := <[k := t]> (nw_turns w); nw_prepared := nw_prepared w; nw_ids := nw_ids w; nw_server := nw_server w |}.
Definition with_server (w : nworld) (response : gostring) (items : list jv) : nworld :=
  {| nw_db := nw_db w; nw_turns := nw_turns w; nw_prepared := nw_prepared w; nw_ids := nw_ids w; nw_server := <[response := items]> (nw_server w) |}.
(** [NewID]: ids are not empty and never given twice. *)
Definition fresh_ids (w : nworld) (ids : list gostring) : bool :=
  bool_decide (NoDup ids) && forallb (λ id, negb (bool_decide (id = [])) && negb (bool_decide (id ∈ nw_ids w))) ids.
Definition take_ids (w : nworld) (ids : list gostring) : nworld :=
  {| nw_db := nw_db w; nw_turns := nw_turns w; nw_prepared := nw_prepared w; nw_ids := list_to_set ids ∪ nw_ids w; nw_server := nw_server w |}.
(** What the provider holds below a request. *)
Definition below (server : gmap gostring (list jv)) (prev : gostring) : list jv := if bool_decide (prev = []) then [] else default [] (server !! prev).
(** What a provider does: an item it sends is an item of the protocol and is not the result of a call; a completed response has a new id. *)
Definition provider_ok (w : nworld) (a : answer) : bool :=
  forallb (λ i, match ParseItem i with Ok _ => negb (bool_decide (it_Type i = output_type)) | _ => false end) (an_Items a)
  && negb (bool_decide (an_Status a ∈ [[]; §"pending"]))
  && match an_Error a with
     | Some _ => true
     | None =>
       match an_Response a with
       | Json r => bool_decide (an_Status a = §"completed") && bool_decide (rs_Status r = §"completed") && negb (bool_decide (rs_ID r = []))
                   && match nw_server w !! rs_ID r with None => true | Some _ => false end
       | _ => false
       end
     end.
(** What reaches a commit was archived before: media have a reference and no URL. *)
Definition archived_env (env : nenv) : bool :=
  forallb archived_segment (en_segments env)
  && match en_notice env with Some l => forallb archived_segment l | None => true end
  && match MessageSegmentsFromStorage (sm_Segments (en_message env)) with Ok l => forallb archived_segment l | _ => true end.
(** The environment of a step of [t]: new ids, two at least, archived material and, at the end of a stream, what a provider does. *)
Definition env_ok (w : nworld) (t : nturn) (env : nenv) : bool :=
  fresh_ids w (en_ids env) && (2 <=? length (en_ids env))%nat && archived_env env
  && match t_pc t with PcStream _ _ => provider_ok w (en_answer env) | _ => true end.
Section Steps.
Context `{UnicodeTables} (json_valid : gostring → bool) (url_parse : gostring → option (gostring * gostring)) (max_rounds : nat).
Definition id_at (env : nenv) (i : nat) : gostring := default [] (en_ids env !! i).
(** A commit of the turn, which goes on at [next] and fails otherwise. *)
Definition commit_step (d : ndb) (t : nturn) (env : nenv) (head : option gostring) (n : NativeCommit) (next : nturn) : ndb * nturn :=
  match commit_native d (t_session t) head (en_fail env) n with
  | Ok d' => (d', next)
  | Err e => (d, fail_ t e)
  | Panic => (d, fail_ t §"panic")
  end.
Definition or_fail {A : Type} (d : ndb) (t : nturn) (r : res A) (k : A → ndb * nturn) : ndb * nturn :=
  match r with Ok a => k a | Err e => (d, fail_ t e) | Panic => (d, fail_ t §"panic") end.
(** A computation that [en_fail] may cut off before the database is called. *)
Definition unless (d : ndb) (t : nturn) (env : nenv) (k : ndb * nturn) : ndb * nturn := match en_fail env with Some e => (d, fail_ t e) | None => k end.
Definition start_step (d : ndb) (t : nturn) (env : nenv) : ndb * nturn :=
  unless d t env (
    match d_sessions d !! t_session t with
    | None => (d, fail_ t not_found_row)
    | Some row =>
      if negb (bool_decide (or_APIType (t_origin t) = api_response)) then (d, fail_ t §"provider does not provide Responses streaming")
      else or_fail d t (CanSwitch (se_Origin row) (t_origin t)) (λ _,
           or_fail d t (RegisterOrigin row (t_origin t)) (λ row, (with_session d row, goto_ (with_row t row) PcCheckpoint)))
    end).
Definition format_step (d : ndb) (t : nturn) (env : nenv) : ndb * nturn :=
  unless d t env (
    if se_Version (t_row t) =? inputFormatVersion then (d, goto_ t PcInput)
    else if negb (se_Version (t_row t) =? 0) then (d, fail_ t incompatibleInputFormat)
    else
      match d_sessions d !! t_session t with
      | None => (d, fail_ t not_found_row)
      | Some row =>
        if negb (se_Version row =? 0) && negb (se_Version row =? inputFormatVersion) then (d, fail_ t incompatibleInputFormat)
        else let row := with_version row inputFormatVersion in (with_session d row, goto_ (with_row t row) PcInput)
      end).
(** The input of a stored message, committed. *)
Definition input_step (d : ndb) (t : nturn) (env : nenv) (next : npc) : ndb * nturn :=
  or_fail d t (message_input url_parse t (id_at env 0) (en_now env) (en_message env)) (λ i, commit_step d t env None (inputs_only t [i]) (goto_ t next)).
Definition close_step (d : ndb) (t : nturn) (env : nenv) : ndb * nturn :=
  unless d t env (
    match t_checkpoint t with
    | None => (d, goto_ t PcTop)
    | Some c =>
      match List.filter is_pending (Calls d (cp_ExchangeID c)) with
      | [] => (d, goto_ t PcTop)
      | pending => (d, goto_ t (PcCloseCommit (map (λ c, with_status c §"interrupted") pending)))
      end
    end).
Definition close_commit (t : nturn) (pending : list NativeCall) (snapshot : gostring) : option NativeCommit :=
  c ← t_checkpoint t;
  Some {| nm_Expected := checkpoint_id t; nm_Checkpoint := None; nm_Snapshot := Some (with_cp_id c snapshot (cp_MessageID c)); nm_Inputs := [];
          nm_Calls := pending; nm_Consumed := []; nm_ConsumeSeed := [] |}.
Definition close_commit_step (d : ndb) (t : nturn) (env : nenv) (pending : list NativeCall) : ndb * nturn :=
  match close_commit t pending (id_at env 0), t_checkpoint t with
  | Some n, Some c => commit_step d t env (Some (cp_MessageID c)) n (goto_ t PcTop)
  | _, _ => (d, fail_ t §"panic")
  end.
(** The top of a round: the session is read anew and the selection may change with it. *)
Definition top_step (d : ndb) (t : nturn) (env : nenv) : ndb * nturn :=
  unless d t env (
    match d_sessions d !! t_session t with
    | None => (d, fail_ t not_found_row)
    | Some row =>
      let t := with_selection (with_row t row) (default (t_origin t) (en_origin env)) in
      if negb (bool_decide (or_APIType (t_origin t) = api_response)) then (d, fail_ t §"provider does not provide Responses streaming")
      else or_fail d t (CanSwitch (se_Origin row) (t_origin t)) (λ _, (d, goto_ t (PcPrepare false)))
    end).
(** The pending message of a call, if any, and the queued inputs. *)
Definition prepare_step (d : ndb) (t : nturn) (env : nenv) (final : bool) : ndb * nturn :=
  if en_more env then input_step d t env (PcPrepare final)
  else unless d t env (d, goto_ t (PcNotice final (PendingInputs d (t_session t)))).
Definition notice_step (d : ndb) (t : nturn) (env : nenv) (final : bool) (inputs : list NativeInput) : ndb * nturn :=
  or_fail d t (notice_input url_parse env (id_at env 0) (t_session t)) (λ notice,
    match notice with
    | None => unless d t env (d, goto_ t (PcDefs final inputs))
    | Some i =>
      if existsb (λ j, isForegroundNotice j (Some i)) inputs then unless d t env (d, goto_ t (PcDefs final inputs))
      else commit_step d t env None (inputs_only t [i]) (goto_ t (PcDefs final (inputs ++ [i])))
    end).
Definition defs_step (d : ndb) (t : nturn) (env : nenv) (final : bool) (inputs : list NativeInput) : ndb * nturn :=
  or_fail d t (known_definitions (t_definitions t) inputs) (λ known,
    let (added, known) := new_definitions known (en_tools env) in
    match added with
    | [] => unless d t env (d, goto_ (with_known t known) (PcBuild final inputs))
    | _ =>
      or_fail d t (AdditionalTools added) (λ item,
        let i := definition_input (id_at env 0) (t_session t) (en_now env) item in
        commit_step d t env None (inputs_only t [i]) (goto_ (with_known t known) (PcBuild final (inputs ++ [i]))))
    end).
Definition build_step (d : ndb) (t : nturn) (env : nenv) (final : bool) (inputs : list NativeInput) : ndb * nturn :=
  unless d t env (or_fail d t (build_request json_valid url_parse d env t final inputs) (λ p, (d, goto_ p.1 (PcSend p.2)))).
Definition send_step (d : ndb) (t : nturn) (env : nenv) (r : nrequest) : ndb * nturn :=
  unless d t env (
    or_fail d t (CanSwitch (se_Origin (t_row t)) (t_origin t)) (λ _,
    or_fail d t (CreateExchange d (new_exchange t (id_at env 0) r)) (λ d', (d', goto_ t (PcStream r (id_at env 0)))))).
(** The end of a stream: its facts are stored, whatever it ended with. *)
Definition stream_step (d : ndb) (t : nturn) (env : nenv) (r : nrequest) (exchange : gostring) : ndb * nturn :=
  let a := en_answer env in
  let stored := match an_Archive a with Some e => Err e | None => FinishExchange d exchange (an_Status a) (an_Response a) (Json (an_Items a)) end in
  match stored, d_exchanges d !! exchange with
  | Ok d', Some x => (d', after_answer json_valid url_parse d' env t r x true)
  | _, Some x => (d, after_answer json_valid url_parse d env t r x false)
  | _, None => (d, fail_ t not_found_row)
  end.
Definition reply_step (d : ndb) (t : nturn) (env : nenv) : ndb * nturn :=
  match advance t (id_at env 0) (if en_more env then sm_ID (en_message env) else []) [] [] with
  | Some n => commit_step d t env None n (goto_ (moved t n) (PcDone None))
  | None => (d, fail_ t §"panic")
  end.
(** The ids of a batch: of the checkpoint, of its head, then a message and an input for each call. *)
Fixpoint pairs_at (n : nat) (ids : list gostring) : list (gostring * gostring) :=
  match n, ids with S n, a :: b :: ids => (a, b) :: pairs_at n ids | _, _ => [] end.
Definition begin_step (d : ndb) (t : nturn) (env : nenv) : ndb * nturn :=
  match t_exchange t with
  | None => (d, fail_ t §"panic")
  | Some x =>
    let summary := (max_rounds <=? t_rounds t)%nat in
    if negb summary && negb (en_more env) then (d, goto_ t (PcDone None))
    else if negb (length (pairs_at (length (t_calls t)) (drop 2 (en_ids env))) =? length (t_calls t))%nat then (d, fail_ t §"new id")
    else
      or_fail d t (res_map (begin_slot url_parse t (nx_ID x) (en_now env)) (imap pair (zip (t_calls t) (pairs_at (length (t_calls t)) (drop 2 (en_ids env)))))) (λ slots,
        match advance t (id_at env 0) (id_at env 1) (map sl_call slots) (map sl_input slots) with
        | Some n => commit_step d t env (Some (id_at env 1)) n (goto_ (no_consumed (moved t n)) (PcBatch summary (id_at env 1) slots))
        | None => (d, fail_ t §"panic")
        end)
  end.
(** One result of a batch, in any order; the summary's own results take this step too. *)
Definition batch_step_ (d : ndb) (t : nturn) (env : nenv) (summary : bool) (head : gostring) (slots : list slot) : ndb * nturn :=
  if (left_slots slots =? 0)%nat then unless d t env (d, goto_ (next_round t) (if summary then PcSummary else PcExtra))
  else
    match slots !! en_index env with
    | Some s =>
      if is_pending (sl_call s) then
        or_fail d t (result_commit url_parse t head (id_at env 0) slots (en_index env) (en_segments env)) (λ p,
          commit_step d t env (Some head) p.1 (goto_ t (PcBatch summary head p.2)))
      else (d, fail_ t §"tool result was committed before")
    | None => (d, fail_ t §"no such call")
    end.
Definition extra_step (d : ndb) (t : nturn) (env : nenv) : ndb * nturn :=
  if en_more env then input_step d t env PcTop else unless d t env (d, goto_ t PcTop).
Definition turn_step (d : ndb) (t : nturn) (env : nenv) : option (ndb * nturn) :=
  match t_pc t with
  | PcStart => Some (start_step d t env)
  | PcCheckpoint =>
    Some (unless d t env (or_fail d t (CurrentCheckpoint d (t_session t)) (λ c, (d, goto_ (with_root_ t c None None []) PcWindow))))
  | PcWindow => Some (unless d t env (or_fail d t (prepare_turn url_parse d t env) (λ t, (d, goto_ t PcFormat))))
  | PcFormat => Some (format_step d t env)
  | PcInput => Some (input_step d t env PcClose)
  | PcClose => Some (close_step d t env)
  | PcCloseCommit pending => Some (close_commit_step d t env pending)
  | PcTop => Some (top_step d t env)
  | PcPrepare final => Some (prepare_step d t env final)
  | PcNotice final inputs => Some (notice_step d t env final inputs)
  | PcDefs final inputs => Some (defs_step d t env final inputs)
  | PcBuild final inputs => Some (build_step d t env final inputs)
  | PcSend r => Some (send_step d t env r)
  | PcStream r x => Some (stream_step d t env r x)
  | PcReply => Some (reply_step d t env)
  | PcBegin => Some (begin_step d t env)
  | PcBatch summary head slots => Some (batch_step_ d t env summary head slots)
  | PcSummary => Some (input_step d t env (PcPrepare true))
  | PcExtra => Some (extra_step d t env)
  | PcDone _ => None
  end.
(** What the provider remembers after a step of a turn. *)
Definition remember (w : nworld) (t : nturn) (env : nenv) : nworld :=
  match t_pc t, an_Error (en_answer env), an_Response (en_answer env) with
  | PcStream r _, None, Json response =>
    with_server w (rs_ID response) (below (nw_server w) (rq_prev r) ++ w_Items (rq_window r) ++ an_Items (en_answer env))
  | _, _, _ => w
  end.
Inductive nevent :=
| NewSession (row : session_row)
| StartTurn (k : nat) (session : gostring) (o : LLMOrigin)
| Step (k : nat) (env : nenv)
| Prepare_ (fork : option gostring) (session id : gostring)
| Create (i : nat) (row : session_row) (others : option gostring).
Context (ArgumentMediaIDs : gostring → list gostring).
Definition nexec (w : nworld) (e : nevent) : option nworld :=
  match e with
  | NewSession row =>
    match CreateMaterial (nw_db w) row None [] [] None with
    | Ok d => if bool_decide (se_Checkpoint row = None) && bool_decide (se_Seed row = None) then Some (with_db w d) else None
    | _ => None
    end
  | StartTurn k session o => match nw_turns w !! k with None => Some (with_turn w k (start_turn session o)) | Some _ => None end
  | Step k env =>
    t ← nw_turns w !! k;
    if negb (env_ok w t env) then None
    else
      p ← turn_step (nw_db w) t env;
      Some (with_turn (with_db (take_ids (remember w t env) (en_ids env)) p.1) k p.2)
  | Prepare_ fork session id =>
    if negb (fresh_ids w [id]) then None
    else
      row ← d_sessions (nw_db w) !! session;
      match (match fork with
             | Some message => PrepareFork json_valid ArgumentMediaIDs None id (nw_db w) row message
             | None => PrepareCopy json_valid ArgumentMediaIDs None id (nw_db w) row
             end) with
      | Ok (seed, expected) =>
        Some (take_ids {| nw_db := nw_db w; nw_turns := nw_turns w; nw_prepared := nw_prepared w ++ [(seed, expected, session)]; nw_ids := nw_ids w;
                          nw_server := nw_server w |} [id])
      | _ => None
      end
  | Create i row others =>
    p ← nw_prepared w !! i;
    match CreateMaterial (nw_db w) row (Some p.1.1) p.2 p.1.2 others with Ok d => Some (with_db w d) | _ => None end
  end.
Fixpoint nrun (w : nworld) (l : list nevent) : option nworld := match l with [] => Some w | e :: l => w ← nexec w e; nrun w l end.
End Steps.
Definition empty_nworld : nworld := {| nw_db := empty_db; nw_turns := ∅; nw_prepared := []; nw_ids := ∅; nw_server := ∅ |}.
