(* ===== verification/NativeLoad.v ===== *)
(** * Items, stored inputs and the links between calls and results *)
From S2P Require Import Prelude GoStr Segment HookPipeline ToolPermit ToolTranscript NativeStore NativeTurn.
Open Scope Z_scope.

(** ** Items *)
Lemma ParseItem_ok raw i : ParseItem raw = Ok i → i = raw.
Proof.
  destruct raw; simpl; try done. intros Hp. apply res_bind_ok in Hp as (t & _ & Hp). apply res_bind_ok in Hp as (? & _ & Hp).
  case_bool_decide; [done|]. case_bool_decide; [|by simplify_eq].
  repeat (apply res_bind_ok in Hp as (? & _ & Hp)). by simplify_eq.
Qed.
Lemma ParseItem_all l k : res_map ParseItem l = Ok k → k = l.
Proof.
  intros Hf%res_map_ok. induction Hf as [|x y l k Hp _ IH]; [done|]. by rewrite (ParseItem_ok _ _ Hp), IH.
Qed.
Definition parses (i : jv) : Prop := ParseItem i = Ok i.
Lemma parse_all_parses l k : res_map ParseItem l = Ok k → Forall parses l.
Proof.
  intros Hf%res_map_ok. induction Hf as [|x y l k Hp _ IH]; constructor; [|done]. unfold parses. by rewrite Hp, (ParseItem_ok _ _ Hp).
Qed.
Lemma parses_all l : Forall parses l → res_map ParseItem l = Ok l.
Proof. intros Hf. apply res_map_ok. induction Hf; constructor; done. Qed.
Lemma message_item role content i :
  InputMessage role content = Ok i →
  i = JObj [(§"type", JStr message_type); (§"role", JStr role); (§"content", contents_json content)] ∧ it_Type i = message_type ∧ it_Role i = role ∧ parses i.
Proof.
  intros Hp. pose proof (ParseItem_ok _ _ Hp) as ->. repeat split.
  unfold parses. exact Hp.
Qed.
Lemma output_item callID output i :
  FunctionCallOutput callID output = Ok i → callID ≠ [] ∧ it_Type i = output_type ∧ str_field i §"call_id" = Ok callID ∧ str_field i §"role" = Ok [] ∧ parses i.
Proof.
  unfold FunctionCallOutput. case_bool_decide; [done|]. intros Hp. pose proof (ParseItem_ok _ _ Hp) as ->. split_and!; [done|reflexivity..|exact Hp].
Qed.
Lemma tools_item `{UnicodeTables} tools i :
  AdditionalTools tools = Ok i → it_Type i = tools_type ∧ parses i ∧ (∃ r, str_field i §"role" = Ok r) ∧ (∃ c, str_field i §"call_id" = Ok c) ∧ ∃ l, AdditionalToolDefinitions i = Ok l.
Proof.
  intros Hp. apply res_bind_ok in Hp as (j & Hj & Hp). apply res_bind_ok in Hp as (l & Hl & [= ->]).
  pose proof (ParseItem_ok _ _ Hj) as ->. split; [reflexivity|]. split; [exact Hj|]. split; [by eexists|]. split; [by eexists|by exists l].
Qed.

(** ** Stored inputs *)
Definition same_key (i j : NativeInput) : Prop :=
  ni_ID i = ni_ID j ∧ ni_SessionID i = ni_SessionID j ∧ ni_MessageID i = ni_MessageID j ∧ ni_ExchangeID i = ni_ExchangeID j ∧ ni_CallID i = ni_CallID j
  ∧ ni_CreatedAt i = ni_CreatedAt j.
Section Inputs.
Context `{UnicodeTables}.
(** An input whose item can be read back. *)
Record input_ok (i : NativeInput) : Prop := {
  io_decode : ∃ segments, decodeQueuedInput i = Ok (ni_Item i, segments);
  io_role : ∃ role, str_field (ni_Item i) §"role" = Ok role;
  io_call : ∃ id, str_field (ni_Item i) §"call_id" = Ok id
}.
Lemma decode_parts i p : decodeQueuedInput i = Ok p → p.1 = ni_Item i ∧ inputSegments i = Ok p.2.
Proof.
  intros Hd. unfold decodeQueuedInput in Hd. apply res_bind_ok in Hd as (item & Hi & Hd). apply res_bind_ok in Hd as (segs & -> & Hd).
  rewrite <- (ParseItem_ok _ _ Hi).
  repeat (case_bool_decide || case_match || (apply res_bind_ok in Hd as (? & _ & Hd))); by simplify_eq.
Qed.
(** What a stored input is: the result of a call, a message of the user or a list of definitions. *)
Lemma input_kind i : input_ok i →
  parses (ni_Item i) ∧ (∃ segments, inputSegments i = Ok segments)
  ∧ ((ni_CallID i ≠ [] ∧ it_Type (ni_Item i) = output_type ∧ str_field (ni_Item i) §"call_id" = Ok (ni_CallID i))
     ∨ (ni_CallID i = [] ∧ it_Type (ni_Item i) = message_type ∧ str_field (ni_Item i) §"role" = Ok §"user")
     ∨ (ni_CallID i = [] ∧ it_Type (ni_Item i) = tools_type)).
Proof.
  intros [(segs & Hd) (role & Hrole) _]. unfold decodeQueuedInput in Hd. apply res_bind_ok in Hd as (item & Hi & Hd).
  apply res_bind_ok in Hd as (segs' & Hs & Hd). pose proof (ParseItem_ok _ _ Hi) as ->. split; [done|]. split; [eauto|].
  case_bool_decide as Ht.
  { case_match eqn:Hc; [done|]. right; right. propify. by destruct Hc as [[[_ Hc] _] _]. }
  case_bool_decide as Hm.
  { case_match eqn:Hc; [done|]. right; left. propify. destruct Hc as [Hc Hr]. split_and!; [done..|].
    unfold it_Role, view, str_or_empty in Hr. rewrite Hm, Hrole in Hr. simpl in Hr. by subst role. }
  case_bool_decide as Ho; [|done]. apply res_bind_ok in Hd as (id & Hid & Hd). case_match eqn:Hc; [done|].
  propify. destruct Hc as [Hc Hn]. left. rewrite Hn at 2. done.
Qed.
Lemma archived_text text : forallb archived_segment (TextSegments text) = true.
Proof. unfold TextSegments. case_match; reflexivity. Qed.
Lemma queued_ok (url_parse : gostring → option (gostring * gostring)) id session message exchange callID now segments i :
  queuedInput url_parse id session message exchange callID now segments = Ok i → forallb archived_segment segments = true →
  input_ok i ∧ ni_ID i = id ∧ ni_SessionID i = session ∧ ni_MessageID i = message ∧ ni_ExchangeID i = exchange ∧ ni_CallID i = callID
  ∧ ni_ConsumedBy i = [] ∧ ni_CreatedAt i = now.
Proof.
  intros Hq Hs. apply res_bind_ok in Hq as (item & Hi & [= <-]). split_and!; try reflexivity. unfold nativeItem in Hi. case_bool_decide as Hc.
  - destruct (message_item _ _ _ Hi) as (-> & Ht & Hr & Hp). split; [|by eexists..]. exists segments. unfold decodeQueuedInput. cbn [ni_Item].
    rewrite Hp. cbn [res_bind]. unfold inputSegments, DecodeMaterials. simpl. rewrite Hs. simpl. rewrite bool_decide_eq_true_2 by done. simpl.
    by subst callID.
  - destruct (output_item _ _ _ Hi) as (_ & Ht & Hid & Hr & Hp). split; [|by exists []|by exists callID]. exists segments. unfold decodeQueuedInput. cbn [ni_Item].
    rewrite Hp. cbn [res_bind]. unfold inputSegments, DecodeMaterials. simpl. rewrite Hs. simpl. rewrite bool_decide_eq_true_2 by done. simpl.
    rewrite Ht. simpl. rewrite Hid. simpl. rewrite ?(bool_decide_eq_false_2 (callID = [])) by done. simpl. by rewrite bool_decide_eq_true_2.
Qed.
Lemma definition_ok id session now tools item :
  AdditionalTools tools = Ok item → input_ok (definition_input id session now item).
Proof.
  intros (Ht & Hp & Hr & Hc & l & Hl)%tools_item. split; [|done..]. exists []. unfold decodeQueuedInput, definition_input. cbn [ni_Item]. rewrite Hp. cbn -[AdditionalToolDefinitions].
  rewrite Ht. cbn -[AdditionalToolDefinitions]. by rewrite Hl.
Qed.

(** ** Links *)
Lemma open_calls_app l k o : open_calls (l ++ k) o = let* o := open_calls l o in open_calls k o.
Proof.
  revert o. induction l as [|i l IH]; intros o; [done|]. cbn [app open_calls]. case_bool_decide.
  { case_match; [done|]. apply IH. }
  case_bool_decide; [|apply IH]. destruct (str_field i §"call_id"); simpl; [|done|done]. case_match; [done|]. apply IH.
Qed.
(** The calls that a list of inputs answers. *)
Definition answered (l : list NativeInput) : list gostring := List.filter (λ id, negb (bool_decide (id = []))) (map ni_CallID l).
Lemma open_inputs l o : Forall input_ok l → NoDup (answered l) → list_to_set (answered l) ⊆ o →
  open_calls (map ni_Item l) o = Ok (o ∖ list_to_set (answered l)).
Proof.
  intros Hl. revert o. induction Hl as [|i l Hi Hl IH]; intros o Hd Ho; cbn [map open_calls].
  { f_equal. set_solver. }
  unfold answered in *. cbn [map List.filter] in *.
  destruct (input_kind i Hi) as (_ & _ & [(Hc & Ht & Hid)|Hk]).
  - rewrite (bool_decide_eq_false_2 (ni_CallID i = [])) in * by done. cbn [negb] in *. apply NoDup_cons in Hd as [Hn Hd].
    rewrite Ht, Hid. rewrite bool_decide_eq_false_2 by done. rewrite bool_decide_eq_true_2 by done. cbn [res_bind].
    rewrite (bool_decide_eq_false_2 (ni_CallID i = [])) by done. rewrite (bool_decide_eq_true_2 (ni_CallID i ∈ o)) by set_solver. cbn [negb orb].
    rewrite IH; [|done|set_solver]. f_equal. cbn [list_to_set]. set_solver.
  - assert (ni_CallID i = [] ∧ it_Type (ni_Item i) ≠ call_type ∧ it_Type (ni_Item i) ≠ output_type) as (Hc & Hn1 & Hn2)
      by (destruct Hk as [(-> & -> & _)|(-> & ->)]; done).
    rewrite (bool_decide_eq_true_2 (ni_CallID i = [])) in * by done. cbn [negb] in *. rewrite !bool_decide_eq_false_2 by done. by apply IH.
Qed.
Lemma answered_in l id : id ∈ answered l ↔ id ≠ [] ∧ ∃ i, i ∈ l ∧ ni_CallID i = id.
Proof.
  unfold answered. rewrite list_elem_of_In, filter_In, <- list_elem_of_In, negb_true_iff, bool_decide_eq_false, list_elem_of_fmap. naive_solver.
Qed.
Lemma answered_once l : NoDup (map ni_ID l) → (∀ i j, i ∈ l → j ∈ l → ni_CallID i ≠ [] → ni_CallID i = ni_CallID j → ni_ID i = ni_ID j) → NoDup (answered l).
Proof.
  induction l as [|i l IH]; intros Hd Ho; [constructor|]. cbn [map] in Hd. apply NoDup_cons in Hd as [Hn Hd].
  assert (NoDup (answered l)) as Hl by (apply IH; [done|]; intros a b Ha Hb; apply Ho; by right). unfold answered. cbn [map List.filter].
  destruct (bool_decide (ni_CallID i = [])) eqn:Hc; [done|]. apply bool_decide_eq_false in Hc. constructor; [|done].
  intros (_ & j & Hj & He)%answered_in. apply Hn. rewrite (Ho i j); [by apply (list_elem_of_fmap_2 ni_ID)|left|by right|done|done].
Qed.
Lemma open_outputs allowed l seen calls o :
  answer_calls allowed l seen = Ok calls → Forall (λ i, it_Type i ≠ output_type) l → o ⊆ seen →
  open_calls l o = Ok (list_to_set (map tc_ID calls) ∪ o) ∧ NoDup (map tc_ID calls) ∧ (∀ id, id ∈ map tc_ID calls → id ∉ seen ∧ id ≠ []).
Proof.
  intros Ha Hl. revert seen calls o Ha. induction Hl as [|i l Hi Hl IH]; intros seen calls o Ha Ho; cbn [answer_calls open_calls] in *.
  { simplify_eq. simpl. split; [f_equal; set_solver|]. split; [constructor|set_solver]. }
  case_bool_decide as Ht; cbn [negb] in Ha.
  - case_bool_decide as Hc; [done|]. cbn [orb] in *. case_bool_decide; [done|]. cbn [orb] in *. case_bool_decide as Hs; [done|].
    case_bool_decide; [|done]. cbn [negb] in Ha. apply res_bind_ok in Ha as (calls' & Ha & [= <-]).
    rewrite (bool_decide_eq_false_2 (it_CallID i ∈ o)) by set_solver. cbn [map tc_ID].
    destruct (IH _ _ ({[it_CallID i]} ∪ o) Ha ltac:(set_solver)) as (He & Hd & Hn). rewrite He. cbn [list_to_set]. split; [f_equal; set_solver|].
    split; [constructor; [|done]; intros Hin; apply Hn in Hin; set_solver|]. intros id [->|Hin]%elem_of_cons; [done|]. apply Hn in Hin. set_solver.
  - rewrite bool_decide_eq_false_2 by done. by apply IH.
Qed.
(** What an item does to the open calls: only this matters of a list of items. *)
Inductive link := LinkCall (id : gostring) | LinkResult (id : res gostring) | LinkNone.
Definition link_of (i : jv) : link :=
  if bool_decide (it_Type i = call_type) then LinkCall (it_CallID i) else if bool_decide (it_Type i = output_type) then LinkResult (str_field i §"call_id") else LinkNone.
Lemma open_calls_links l k o : map link_of l = map link_of k → open_calls l o = open_calls k o.
Proof.
  revert k o. induction l as [|i l IH]; intros [|j k] o Hl; try done. cbn [map] in Hl. injection Hl as Hij Hl. cbn [open_calls]. unfold link_of in Hij.
  destruct (bool_decide (it_Type i = call_type)), (bool_decide (it_Type j = call_type)); try (by repeat case_match).
  - injection Hij as ->. case_match; [done|]. by apply IH.
  - destruct (bool_decide (it_Type i = output_type)), (bool_decide (it_Type j = output_type)); [|done|done|by apply IH].
    injection Hij as ->. destruct (str_field j §"call_id"); simpl; [|done|done]. case_match; [done|by apply IH].
Qed.
End Inputs.

(** ** The window of a checkpoint

    What a database keeps of the committed responses, relative to the provider's
    memory, and that the window of any checkpoint then loads: it is the
    conversation the provider holds under the response of the checkpoint,
    followed by the results that the checkpoint has beyond it. *)
(** ** Rows *)
Definition cur (d : ndb) (s : gostring) : gostring := match d_sessions d !! s with Some row => default [] (se_Checkpoint row) | None => [] end.
Definition complete (o : LLMOrigin) : Prop := or_APIType o ≠ [] ∧ or_Provider o ≠ [].
Definition all_archived (l : list Material) : bool := forallb (λ m, forallb archived_segment (ma_Segments m)) l.
(** An item that may show material: a message, or the result of a call. *)
Definition shows (item : jv) : Prop := it_Type item = message_type ∨ it_Type item = output_type ∧ ∃ id, str_field item §"call_id" = Ok id ∧ id ≠ [].
(** Archived material, each at an item that may show it. *)
Definition sound (items : list jv) (materials : list Material) : Prop :=
  all_archived materials = true ∧ Forall (λ m, 0 ≤ ma_Index m ∧ ∃ item, items !! Z.to_nat (ma_Index m) = Some item ∧ shows item) materials.
Record seed_ok (σ : gmap gostring (list jv)) (s : NativeSeed) (items : list jv) : Prop := {
  so_items : sd_Items s = Some items;
  so_parses : Forall parses items;
  so_version : sd_Version s = inputFormatVersion;
  so_materials : sound items (sd_Materials s);
  so_continuation : Forall parses (sd_Continuation s);
  so_response : sd_ResponseID s ≠ [] → ∃ h, σ !! sd_ResponseID s = Some h ∧ items = h ++ sd_Continuation s
}.
(** The items a session starts from. *)
Definition root_items (d : ndb) (row : session_row) : list jv :=
  match se_Seed row with Some id => match d_seeds d !! id with Some s => default [] (sd_Items s) | None => [] end | None => [] end.
Record root_ok (d : ndb) (σ : gmap gostring (list jv)) (row : session_row) (id : gostring) : Prop := {
  ro_id : id ≠ [];
  ro_seed : ∃ seed items o, d_seeds d !! id = Some seed ∧ sd_ID seed = id ∧ sd_SessionID seed = se_ID row ∧ seed_ok σ seed items
    ∧ se_Origin row = Some o ∧ complete o ∧ sd_APIType seed = or_APIType o ∧ sd_Provider seed = or_Provider o
}.
(** A call whose result is a stored input. *)
Definition call_ok (d : ndb) (s : gostring) (e : gostring) (c : NativeCall) : Prop :=
  nc_ExchangeID c = e ∧ ∃ i, i ∈ d_inputs d ∧ ni_ID i = nc_ResultInputID c ∧ ni_SessionID i = s ∧ ni_ExchangeID i = e ∧ ni_CallID i = nc_CallID c
    ∧ nc_CallID c ≠ [].
(** The rows that belong to a checkpoint. *)
Record cp_facts (d : ndb) (c : NativeCheckpoint) (row : session_row) (o : LLMOrigin) (x : NativeExchange) (outs : list jv) (ins : list NativeInput) : Prop := {
  cf_row : d_sessions d !! cp_SessionID c = Some row;
  cf_origin : se_Origin row = Some o;
  cf_complete : or_APIType o = api_response ∧ or_Provider o ≠ [];
  cf_version : se_Seed row = None → se_Version row = inputFormatVersion;
  cf_seed : cp_SeedID c = default [] (se_Seed row);
  cf_exchange : d_exchanges d !! cp_ExchangeID c = Some x;
  cf_session : nx_SessionID x = cp_SessionID c;
  cf_status : nx_Status x = §"completed";
  cf_previous : nx_Previous x = cp_ParentID c;
  cf_wire : nx_APIType x = or_APIType o ∧ nx_Provider x = or_Provider o;
  cf_response : ∃ r, nx_Response x = Json r ∧ rs_ID r = cp_ResponseID c ∧ rs_Status r = §"completed";
  cf_named : cp_ResponseID c ≠ [];
  cf_items : nx_Items x = Json outs;
  cf_parses : Forall parses outs;
  cf_manifest : nx_InputIDs x = map ni_ID ins;
  cf_inputs : ∀ i, i ∈ ins ↔ i ∈ d_inputs d ∧ ni_ConsumedBy i = nx_ID x;
  cf_mine : Forall (λ i, ni_SessionID i = cp_SessionID c) ins;
  cf_once : NoDup (map ni_ID ins);
  cf_calls : Forall (call_ok d (cp_SessionID c) (cp_ExchangeID c)) (cp_Calls c)
}.
(** What the provider holds below the response of a checkpoint. *)
Definition cp_base (d : ndb) (σ : gmap gostring (list jv)) (before : list NativeCheckpoint) (c : NativeCheckpoint) (row : session_row) (base : list jv) : Prop :=
  (cp_ParentID c = [] ∧ base = root_items d row)
  ∨ ∃ p, p ∈ before ∧ cp_ParentID c = cp_ID p ∧ cp_SessionID p = cp_SessionID c ∧ σ !! cp_ResponseID p = Some base.
Definition cp_ok (d : ndb) (σ : gmap gostring (list jv)) (before : list NativeCheckpoint) (c : NativeCheckpoint) : Prop :=
  cp_ID c ≠ [] ∧ cp_ID c ∉ map cp_ID before
  ∧ ∃ row o x outs ins base, cp_facts d c row o x outs ins ∧ cp_base d σ before c row base ∧ σ !! cp_ResponseID c = Some (base ++ map ni_Item ins ++ outs).
Section Rows.
Context `{UnicodeTables}.
Record rows_ok (d : ndb) (σ : gmap gostring (list jv)) : Prop := {
  rw_sessions : ∀ s row, d_sessions d !! s = Some row → se_ID row = s;
  rw_roots : ∀ s row id, d_sessions d !! s = Some row → se_Seed row = Some id → root_ok d σ row id;
  rw_seeds : ∀ id sd, d_seeds d !! id = Some sd → sd_ID sd = id;
  rw_exchanges : ∀ e x, d_exchanges d !! e = Some x → nx_ID x = e ∧ e ≠ [];
  rw_inputs : Forall (λ i, input_ok i ∧ ni_ID i ≠ [] ∧ is_Some (d_sessions d !! ni_SessionID i)) (d_inputs d);
  rw_ids : NoDup (map ni_ID (d_inputs d));
  rw_checkpoints : ∀ before c after, d_checkpoints d = before ++ c :: after → cp_ok d σ before c
}.
End Rows.

(** ** Lookups *)
Lemma kept_in {A : Type} (p : A → bool) (l : list A) x : x ∈ List.filter p l ↔ x ∈ l ∧ p x = true.
Proof. by rewrite !list_elem_of_In, filter_In. Qed.
Lemma NoDup_filter_map {A : Type} (f : A → gostring) (p : A → bool) l : NoDup (map f l) → NoDup (map f (List.filter p l)).
Proof.
  induction l as [|x l IH]; cbn [map List.filter]; [done|]. intros [Hn Hd]%NoDup_cons. destruct (p x); [|by apply IH]. constructor; [|by apply IH].
  intros (y & He & Hy)%list_elem_of_fmap. apply Hn. rewrite He. apply kept_in in Hy as [Hy _]. by apply (list_elem_of_fmap_2 f).
Qed.
Lemma find_in {A : Type} (f : A → gostring) (l : list A) x : NoDup (map f l) → x ∈ l → List.find (λ y, bool_decide (f y = f x)) l = Some x.
Proof.
  induction l as [|y l IH]; cbn [map List.find]; [by rewrite elem_of_nil|]. intros [Hn Hd]%NoDup_cons [->|Hx]%elem_of_cons.
  - by rewrite bool_decide_eq_true_2.
  - rewrite bool_decide_eq_false_2; [by apply IH|]. intros He. apply Hn. rewrite He. apply list_elem_of_fmap. eauto.
Qed.
Lemma find_some {A : Type} (f : A → gostring) (l : list A) id x : List.find (λ y, bool_decide (f y = id)) l = Some x → x ∈ l ∧ f x = id.
Proof. intros [Hx Hf]%find_some. split; [by apply list_elem_of_In|by apply bool_decide_eq_true in Hf]. Qed.
Lemma find_absent {A : Type} (f : A → gostring) (l : list A) id : List.find (λ y, bool_decide (f y = id)) l = None ↔ id ∉ map f l.
Proof.
  split.
  - intros Hf (x & -> & Hx)%list_elem_of_fmap. apply list_elem_of_In in Hx. pose proof (find_none _ _ Hf _ Hx) as He.
    by apply bool_decide_eq_false in He.
  - intros Hn. destruct (List.find _ l) as [x|] eqn:Hx; [|done]. apply find_some in Hx as [Hx <-]. destruct Hn. apply list_elem_of_fmap. eauto.
Qed.
Lemma map_unique {A : Type} (f : A → gostring) (l : list A) x y : NoDup (map f l) → x ∈ l → y ∈ l → f x = f y → x = y.
Proof. intros Hd Hx Hy He. pose proof (find_in f l x Hd Hx) as H1. pose proof (find_in f l y Hd Hy) as H2. rewrite He in H1. congruence. Qed.
Section Lookups.
Context `{UnicodeTables} (d : ndb) (σ : gmap gostring (list jv)) (OK : rows_ok d σ).
Lemma checkpoint_ids : NoDup (map cp_ID (d_checkpoints d)).
Proof.
  assert (∀ l after, d_checkpoints d = l ++ after → NoDup (map cp_ID l)) as Hl; [|apply (Hl _ []); by rewrite app_nil_r].
  induction l as [|c l IH] using rev_ind; intros after He; [constructor|]. rewrite map_app. apply NoDup_snoc; [by apply (IH (c :: after)); rewrite He, <- app_assoc|].
  rewrite <- app_assoc in He. by apply (rw_checkpoints _ _ OK) in He as (_ & Hn & _).
Qed.
Lemma find_checkpoint_in c : c ∈ d_checkpoints d → find_checkpoint d (cp_ID c) = Some c.
Proof. apply find_in, checkpoint_ids. Qed.
Lemma checkpoint_ok c : c ∈ d_checkpoints d → ∃ before, cp_ok d σ before c.
Proof. intros (l & k & He)%list_elem_of_split. exists l. by apply (rw_checkpoints _ _ OK l c k). Qed.
Lemma checkpoint_facts c : c ∈ d_checkpoints d → ∃ row o x outs ins, cp_facts d c row o x outs ins.
Proof. intros (before & _ & _ & row & o & x & outs & ins & _ & F & _)%checkpoint_ok. by exists row, o, x, outs, ins. Qed.
(** Checkpoints of one exchange belong to one session and continue the same one. *)
Lemma exchange_shared c c' : c ∈ d_checkpoints d → c' ∈ d_checkpoints d → cp_ExchangeID c = cp_ExchangeID c' →
  cp_SessionID c = cp_SessionID c' ∧ cp_ParentID c = cp_ParentID c'.
Proof.
  intros (row & o & x & outs & ins & [])%checkpoint_facts (row' & o' & x' & outs' & ins' & [])%checkpoint_facts He. rewrite He in *.
  assert (x' = x) as -> by congruence. split; congruence.
Qed.
Lemma no_empty_checkpoint : find_checkpoint d [] = None.
Proof. apply find_absent. intros (c & He & Hc)%list_elem_of_fmap. by destruct (checkpoint_ok c Hc) as (before & Hn & _). Qed.
Lemma find_input_in i : i ∈ d_inputs d → find_input d (ni_ID i) = Some i.
Proof. apply find_in, (rw_ids _ _ OK). Qed.
Lemma input_ok_in i : i ∈ d_inputs d → input_ok i ∧ ni_ID i ≠ [].
Proof. intros Hi. pose proof (rw_inputs _ _ OK) as Hf. rewrite Forall_forall in Hf. by destruct (Hf i Hi) as (? & ? & _). Qed.
End Lookups.

(** ** Loading *)
(** A window grown by some items, which came with archived material. *)
Record grows (w w' : nativeWindow) (items : list jv) : Prop := {
  gr_items : w_Items w' = w_Items w ++ items;
  gr_completed : w_Completed w' = w_Completed w;
  gr_checkpoint : w_Checkpoint w' = w_Checkpoint w;
  gr_wire : or_APIType (w_Origin w') = or_APIType (w_Origin w) ∧ or_Provider (w_Origin w') = or_Provider (w_Origin w);
  gr_sound : sound (w_Items w) (w_Materials w) → sound (w_Items w') (w_Materials w')
}.
Lemma grows_refl w : grows w w [].
Proof. split; [by rewrite app_nil_r|done..]. Qed.
Lemma grows_trans w w' w'' l k : grows w w' l → grows w' w'' k → grows w w'' (l ++ k).
Proof. intros [] []. split; [rewrite app_assoc; congruence|congruence|congruence|destruct_and?; split; congruence|auto]. Qed.
Lemma all_archived_app l k : all_archived (l ++ k) = all_archived l && all_archived k.
Proof. apply forallb_app. Qed.
Lemma decode_archived i segments : inputSegments i = Ok segments → forallb archived_segment segments = true.
Proof.
  intros Hs. apply res_bind_ok in Hs as (l & Hl & Hs). unfold DecodeMaterials in Hl.
  destruct (forallb _ (ni_Media i)) eqn:Ha; simplify_eq. destruct (ni_Media i) as [|m [|]]; simplify_eq; [done|].
  case_bool_decide; simplify_eq. simpl in Ha. by apply andb_true_iff in Ha as [Ha _].
Qed.
Lemma decode_materials l : all_archived l = true → DecodeMaterials l = Ok l.
Proof. unfold all_archived, DecodeMaterials. by intros ->. Qed.
Lemma sound_app items more materials : sound items materials → sound (items ++ more) materials.
Proof.
  intros [Ha Hf]. split; [done|]. eapply Forall_impl; [exact Hf|]. intros m (Hm & item & Hi & Hs). split; [done|]. exists item. split; [|done]. by apply lookup_app_l_Some.
Qed.
Lemma sound_item items materials message segments item : sound items materials → forallb archived_segment segments = true → shows item →
  sound (items ++ [item]) (materials ++ [{| ma_Index := Z.of_nat (length items); ma_MessageID := message; ma_Segments := segments |}]).
Proof.
  intros Hs Ha Hi. pose proof (sound_app items [item] materials Hs) as [H1 H2]. split.
  - rewrite all_archived_app, H1. simpl. by rewrite Ha.
  - apply Forall_snoc; [done|]. cbn [ma_Index]. split; [lia|]. exists item. split; [|done]. rewrite Nat2Z.id, lookup_app_r, Nat.sub_diag by lia. done.
Qed.
Lemma grows_plain w item refs : grows w (add_item_ w item refs) [item].
Proof. split; try done. simpl. apply sound_app. Qed.
Lemma grows_item w i segments item refs : inputSegments i = Ok segments → shows item → grows w (add_item_ (add_material w (ni_MessageID i) segments) item refs) [item].
Proof.
  intros Hs Hi. split; try done. simpl. intros Ha. apply sound_item; [done| |done]. by apply (decode_archived i).
Qed.
(** The material of the later items. *)
Lemma sound_drop h k materials : sound (h ++ k) materials →
  sound k (omap (λ m, if Z.of_nat (length h) <=? ma_Index m
    then Some {| ma_Index := ma_Index m - Z.of_nat (length h); ma_MessageID := ma_MessageID m; ma_Segments := ma_Segments m |} else None) materials).
Proof.
  intros [Ha Hf]. unfold sound. induction Hf as [|m l (Hm & item & Hi & Hs) _ IH]; [done|]. cbn [all_archived forallb] in Ha. apply andb_true_iff in Ha as [Ha1 Ha2].
  destruct (IH Ha2) as [I1 I2]. cbn [omap list_omap]. destruct (Z.of_nat (length h) <=? ma_Index m) eqn:Hle; [|done]. apply Z.leb_le in Hle. split; [by apply andb_true_iff|].
  constructor; [|done]. cbn [ma_Index]. split; [lia|]. exists item. split; [|done]. rewrite lookup_app_r in Hi by lia. rewrite <- Hi. f_equal. lia.
Qed.
Lemma res_fold_app {A B : Type} (f : A → B → res A) a l k : res_fold f a (l ++ k) = let* a := res_fold f a l in res_fold f a k.
Proof. revert a. induction l as [|x l IH]; intros a; [done|]. simpl. destruct (f a x); simpl; [apply IH|done..]. Qed.
Section Loading.
Context `{UnicodeTables}.
Lemma decode_shows i p : decodeQueuedInput i = Ok p → it_Type p.1 = tools_type ∨ shows p.1.
Proof.
  intros Hd. unfold decodeQueuedInput in Hd. apply res_bind_ok in Hd as (item & _ & Hd). apply res_bind_ok in Hd as (segs & _ & Hd).
  case_bool_decide as Ht; [left; case_match; [done|]; by apply res_bind_ok in Hd as (? & _ & [= <-])|]. right.
  case_bool_decide as Hm; [case_match; [done|]; injection Hd as <-; by left|].
  case_bool_decide as Ho; [|done]. apply res_bind_ok in Hd as (id & Hid & Hd). case_match eqn:Hc; [done|]. injection Hd as <-. propify. destruct Hc as [Hc1 Hc2].
  right. split; [done|]. exists id. split; [done|]. by subst id.
Qed.
(** The expansion of material changes neither calls nor the calls that results answer. *)
Lemma resolve_keeps (url_parse : gostring → option (gostring * gostring)) materials prepared items k :
  Forall (λ m, 0 ≤ ma_Index m ∧ ∃ item, items !! Z.to_nat (ma_Index m) = Some item ∧ shows item) materials →
  resolve_materials url_parse materials prepared items = Ok k → map link_of k = map link_of items.
Proof.
  revert prepared items. induction materials as [|m materials IH]; intros prepared items Hf Hr; cbn [resolve_materials] in Hr; [by injection Hr as <-|].
  destruct prepared as [|segs prepared]; [done|]. apply Forall_cons in Hf as [(_ & item & Hi & Hs) Hf]. rewrite Hi in Hr.
  apply res_bind_ok in Hr as (id & Hid & Hr). apply res_bind_ok in Hr as (new & Hnew & Hr).
  assert (link_of new = link_of item ∧ shows new) as [Hl Hn].
  { unfold nativeItem in Hnew. destruct Hs as [Hm|(Ho & id' & Hid' & Hne)].
    - rewrite Hm in Hid. injection Hid as <-. rewrite bool_decide_eq_true_2 in Hnew by done. destruct (message_item _ _ _ Hnew) as (_ & Ht & _).
      split; [unfold link_of; by rewrite Ht, Hm|by left].
    - rewrite Ho, bool_decide_eq_true_2 in Hid by done. destruct (lookup_field item _); [|done]. assert (id = id') as -> by congruence. rewrite bool_decide_eq_false_2 in Hnew by done.
      destruct (output_item _ _ _ Hnew) as (_ & Ht & Hc & _). split; [unfold link_of; rewrite Ht, Ho, Hc, Hid'; done|right; eauto]. }
  rewrite (IH _ _) with (2 := Hr); [|].
  - change (link_of <$> <[Z.to_nat (ma_Index m) := new]> items = link_of <$> items). rewrite list_fmap_insert, Hl. apply list_insert_id. by rewrite list_lookup_fmap, Hi.
  - eapply Forall_impl; [exact Hf|]. intros m' (Hm' & item' & Hi' & Hs'). split; [done|].
    destruct (decide (Z.to_nat (ma_Index m') = Z.to_nat (ma_Index m))) as [He|He].
    + exists new. split; [|done]. rewrite He. apply list_lookup_insert_eq. by eapply lookup_lt_Some.
    + exists item'. split; [|done]. by rewrite list_lookup_insert_ne.
Qed.
Lemma resolve_links (json_valid : gostring → bool) (url_parse : gostring → option (gostring * gostring)) ctx prepare w k :
  Resolve json_valid url_parse ctx prepare w = Ok k → sound (w_Items w) (w_Materials w) → map link_of k = map link_of (w_Items w).
Proof.
  intros Hr [_ Hf]. unfold Resolve in Hr. apply res_bind_ok in Hr as (_ & _ & Hr). apply res_bind_ok in Hr as (prepared & _ & Hr).
  by apply (resolve_keeps url_parse) in Hr.
Qed.
Lemma load_input_one row x w rest i : rest !! ni_ID i = Some i → input_ok i → ni_ConsumedBy i = nx_ID x → ni_SessionID i = se_ID row →
  ∃ w', load_input row x (w, rest) (ni_ID i) = Ok (w', delete (ni_ID i) rest) ∧ grows w w' [ni_Item i].
Proof.
  intros Hr Hi Hc Hs. destruct (input_kind i Hi) as (_ & _ & Hk). destruct Hi as [(segs & Hd) (role & Hrole) (id & Hid)].
  destruct (decode_parts _ _ Hd) as [_ Hsegs]. cbn [snd] in Hsegs.
  unfold load_input. rewrite Hr. rewrite (bool_decide_eq_true_2 (ni_ConsumedBy i = _)), (bool_decide_eq_true_2 (ni_SessionID i = _)) by done.
  cbn [negb]. rewrite Hd. cbn [res_bind]. case_bool_decide as Ht; [by eauto using grows_plain|].
  rewrite Hid, Hrole. cbn [res_bind].
  destruct Hk as [(Hn & Ho & Hcall)|[(Hn & Ho & Hu)|(_ & ?)]]; [..|done]; rewrite Ho.
  - rewrite Hid in Hcall. simplify_eq. rewrite (bool_decide_eq_false_2 (ni_CallID i = [])) by done. rewrite !bool_decide_eq_true_2 by done. simpl.
    eexists. split; [done|]. apply (grows_item _ i); [done|]. right. eauto.
  - rewrite Hrole in Hu. simplify_eq. rewrite Hn. simpl. eexists. split; [done|]. apply (grows_item _ i); [done|by left].
Qed.
Lemma load_inputs row x : ∀ ins w rest, NoDup (map ni_ID ins) → Forall input_ok ins →
  Forall (λ i, rest !! ni_ID i = Some i ∧ ni_ConsumedBy i = nx_ID x ∧ ni_SessionID i = se_ID row) ins →
  ∃ w' rest', res_fold (load_input row x) (w, rest) (map ni_ID ins) = Ok (w', rest') ∧ grows w w' (map ni_Item ins)
    ∧ (∀ id, rest' !! id = if bool_decide (id ∈ map ni_ID ins) then None else rest !! id).
Proof.
  induction ins as [|i ins IH]; intros w rest Hd Hok Hf; cbn [map res_fold].
  { exists w, rest. split; [done|]. split; [apply grows_refl|]. intros id. by rewrite bool_decide_eq_false_2 by apply not_elem_of_nil. }
  apply NoDup_cons in Hd as [Hn Hd]. apply Forall_cons in Hok as [Hi Hok]. apply Forall_cons in Hf as [(Hr & Hc & Hs) Hf].
  destruct (load_input_one row x w rest i) as (w1 & -> & G1); [done..|]. cbn [res_bind].
  destruct (IH w1 (delete (ni_ID i) rest)) as (w' & rest' & -> & G2 & Hrest); [done|done| |].
  { rewrite Forall_forall in Hf |- *. intros j Hj. destruct (Hf j Hj) as (Hr' & ? & ?). split_and!; [|done..]. rewrite lookup_delete_ne; [done|].
    intros He. apply Hn. rewrite He. apply list_elem_of_fmap. eauto. }
  exists w', rest'. split; [done|]. split; [exact (grows_trans _ _ _ _ _ G1 G2)|]. intros id. rewrite Hrest.
  case_bool_decide as H1; case_bool_decide as H2; try done.
  - destruct H2. by right.
  - apply elem_of_cons in H2 as [->|]; [by simplify_map_eq|done].
  - rewrite lookup_delete_ne; [done|]. intros He. apply H2. rewrite He. by left.
Qed.

(** [rest] holds the inputs of the exchanges [todo]. *)
Definition holds (d : ndb) (rest : gmap gostring NativeInput) (todo : list gostring) : Prop :=
  (∀ id i, rest !! id = Some i → i ∈ d_inputs d ∧ ni_ID i = id)
  ∧ ∀ i, i ∈ d_inputs d → ni_ConsumedBy i ∈ todo → rest !! ni_ID i = Some i.
Lemma manifest_size d σ (OK : rows_ok d σ) rest e todo ins : holds d rest (e :: todo) → (∀ i, i ∈ ins ↔ i ∈ d_inputs d ∧ ni_ConsumedBy i = e) →
  NoDup (map ni_ID ins) → size (filter (λ p : gostring * NativeInput, ni_ConsumedBy p.2 = e) rest) = length ins.
Proof.
  intros [H1 H2] Hins Hd.
  assert (filter (λ p : gostring * NativeInput, ni_ConsumedBy p.2 = e) rest = list_to_map (map (λ i, (ni_ID i, i)) ins)) as ->.
  { apply map_eq. intros id. apply option_eq. intros i. rewrite map_lookup_filter_Some. cbn [snd]. rewrite <- elem_of_list_to_map.
    - rewrite list_elem_of_fmap. split.
      + intros [Hr He]. destruct (H1 _ _ Hr) as (Hi & <-). exists i. split; [done|]. by apply Hins.
      + intros (j & [= -> ->] & Hj). apply Hins in Hj as [Hj He]. split; [|done]. apply H2; [done|]. rewrite He. by left.
    - by rewrite <- list_fmap_compose. }
  rewrite map_size_list_to_map; [by rewrite length_fmap|]. by rewrite <- list_fmap_compose.
Qed.
Lemma load_checkpoint_ok d σ (OK : rows_ok d σ) c row o x outs ins r w rest todo :
  cp_facts d c row o x outs ins → wr_Exchanges r !! cp_ExchangeID c = Some x → holds d rest (cp_ExchangeID c :: todo) → cp_ExchangeID c ∉ todo →
  ∃ w' rest', load_checkpoint row o r (w, rest) c = Ok (w', rest') ∧ grows w w' (map ni_Item ins ++ outs) ∧ w_Exchange w' = Some x
    ∧ holds d rest' todo.
Proof.
  intros F Hx Hh Hnew. destruct F. destruct cf_response0 as (resp & Hr & Hrid & Hrs). pose proof (rw_exchanges _ _ OK _ _ cf_exchange0) as [Hid Hne].
  pose proof (rw_sessions _ _ OK _ _ cf_row0) as Hrow. destruct cf_wire0 as [Hw1 Hw2]. rewrite Hid in cf_inputs0.
  unfold load_checkpoint. rewrite Hx. rewrite !bool_decide_eq_true_2 by congruence. cbn [negb orb]. rewrite Hr.
  rewrite !bool_decide_eq_true_2; try congruence; cycle 1.
  { rewrite cf_manifest0, Hid, (manifest_size d σ OK rest _ todo ins Hh); [by rewrite length_fmap|done..]. }
  cbn [negb orb]. rewrite cf_manifest0.
  destruct (load_inputs row x ins w rest) as (w1 & rest1 & -> & G & Hrest); [done| | |].
  { rewrite Forall_forall. intros i Hi. by apply (input_ok_in d σ OK i), cf_inputs0. }
  { rewrite Forall_forall in cf_mine0 |- *. intros i Hi. split_and!; [|rewrite Hid; by apply cf_inputs0|rewrite Hrow; by apply cf_mine0].
    apply Hh; [by apply cf_inputs0|]. apply cf_inputs0 in Hi as [_ ->]. by left. }
  cbn [res_bind]. rewrite cf_items0, parses_all by done. cbn [res_bind]. eexists _, _. split; [done|]. destruct G, Hh as [H1 H2]. split; [|split; [done|split]].
  - split; simpl; try done; [by rewrite gr_items0, <- app_assoc|]. intros Ha. by apply sound_app, gr_sound0.
  - intros id i. rewrite Hrest. case_bool_decide; [done|]. apply H1.
  - intros i Hi Hc. rewrite Hrest, bool_decide_eq_false_2; [apply H2; [done|by right]|]. intros (j & He & Hj)%list_elem_of_fmap.
    assert (i = j) as -> by (apply (map_unique ni_ID (d_inputs d)); [apply (rw_ids _ _ OK)|done|by apply cf_inputs0|done]).
    apply cf_inputs0 in Hj as [_ Hj]. by rewrite Hj in Hc.
Qed.

(** ** Lineages *)
(** A checkpoint, the ones below it, and the conversation they add to the root. *)
Inductive lineage (d : ndb) (row : session_row) : NativeCheckpoint → list NativeCheckpoint → list jv → Prop :=
| lin_root c o x outs ins : cp_facts d c row o x outs ins → cp_ParentID c = [] → lineage d row c [] (map ni_Item ins ++ outs)
| lin_step c o x outs ins p l h : cp_facts d c row o x outs ins → cp_ParentID c = cp_ID p → p ∈ d_checkpoints d → lineage d row p l h →
    lineage d row c (p :: l) (h ++ map ni_Item ins ++ outs).
Lemma lineage_facts d row c l h : lineage d row c l h → Forall (λ p, ∃ o x outs ins, cp_facts d p row o x outs ins) (c :: l).
Proof. induction 1; apply Forall_cons; (split; [by eauto 10|]); [constructor|done]. Qed.
Lemma lineage_parents d row c l h : lineage d row c l h → map cp_ParentID (c :: l) = map cp_ID l ++ [[]].
Proof. induction 1 as [????? F He|???????? F He Hp Hl IH]; cbn [map app] in *; [by rewrite He|]. by rewrite He, IH. Qed.
Lemma lineage_in d row c l h : lineage d row c l h → Forall (λ p, p ∈ d_checkpoints d) l.
Proof. induction 1; by constructor. Qed.
Lemma lineage_of d σ (OK : rows_ok d σ) n : ∀ before c after, length before = n → d_checkpoints d = before ++ c :: after →
  ∃ row l h, lineage d row c l h ∧ σ !! cp_ResponseID c = Some (root_items d row ++ h) ∧ NoDup (map cp_ID (c :: l)) ∧ Forall (λ p, p ∈ before) l.
Proof.
  induction (lt_wf n) as [n _ IH]. intros before c after Hn He. destruct (rw_checkpoints _ _ OK before c after He) as (Hne & Hnew & row & o & x & outs & ins & base & F & Hb & Hσ).
  destruct Hb as [[Hp ->]|(p & Hp & Hid & Hs & Hbase)].
  - exists row, [], (map ni_Item ins ++ outs). split_and!; [by econstructor|done| |constructor]. apply NoDup_singleton.
  - apply list_elem_of_split in Hp as (b1 & b2 & ->). rewrite <- app_assoc in He. simpl in He.
    destruct (IH (length b1)) with (before := b1) (c := p) (after := b2 ++ c :: after) as (row' & l & h & Hl & Hσ' & Hd & Hf); [rewrite length_app in Hn; simpl in Hn; lia|done|done|].
    assert (row' = row) as ->.
    { pose proof (cf_row _ _ _ _ _ _ _ F) as H1. pose proof (lineage_facts _ _ _ _ _ Hl) as H2. apply Forall_cons in H2 as [(o' & x' & outs' & ins' & F') _].
      pose proof (cf_row _ _ _ _ _ _ _ F') as H2. rewrite Hs in H2. congruence. }
    exists row, (p :: l), (h ++ map ni_Item ins ++ outs). split_and!.
    + eapply lin_step; [done..| |done]. rewrite He, elem_of_app. right. by left.
    + rewrite Hσ. f_equal. rewrite Hσ' in Hbase. simplify_eq. by rewrite <- app_assoc.
    + cbn [map] in *. constructor; [|done]. intros [Hx|(q & Hq & Hin)%list_elem_of_fmap]%elem_of_cons.
      * apply Hnew. rewrite Hx, map_app. apply elem_of_app. right. by left.
      * apply Hnew. rewrite Hq. apply list_elem_of_fmap. exists q. split; [done|]. rewrite Forall_forall in Hf. apply elem_of_app. left. by apply Hf.
    + constructor; [apply elem_of_app; right; by left|]. eapply Forall_impl; [done|]. intros q Hq. apply elem_of_app. by left.
Qed.
(** Distinct checkpoints of a lineage have distinct exchanges, since an exchange names the checkpoint it continues. *)
Lemma lineage_exchanges d row c l h : lineage d row c l h → NoDup (map cp_ID (c :: l)) → Forall (λ p, cp_ID p ≠ []) l → NoDup (map cp_ExchangeID (c :: l)).
Proof.
  intros Hl Hd Hne. apply (NoDup_fmap_1 (λ e, match d_exchanges d !! e with Some x => nx_Previous x | None => [] end)).
  rewrite <- list_fmap_compose. replace (_ <$> (c :: l)) with (map cp_ParentID (c :: l)).
  - rewrite (lineage_parents _ _ _ _ _ Hl). apply NoDup_snoc; [by apply NoDup_cons in Hd as [_ Hd]|].
    intros (p & He & Hp)%list_elem_of_fmap. rewrite Forall_forall in Hne. by destruct (Hne p Hp).
  - apply map_ext_in. intros p Hp%list_elem_of_In. pose proof (lineage_facts _ _ _ _ _ Hl) as Hf. rewrite Forall_forall in Hf.
    destruct (Hf p Hp) as (o & x & outs & ins & F). unfold compose. rewrite (cf_exchange _ _ _ _ _ _ _ F). by rewrite (cf_previous _ _ _ _ _ _ _ F).
Qed.

(** ** Reading the records of a lineage *)
Definition seed_id (s : option NativeSeed) : gostring := match s with Some s => sd_ID s | None => [] end.
Lemma load_path_ok d row r : ∀ c l h, lineage d row c l h → ∀ fuel seen, (length l < fuel)%nat → NoDup (map cp_ID (c :: l)) → (∀ p, p ∈ c :: l → cp_ID p ∉ seen) →
  Forall (λ p, wr_Checkpoints r !! cp_ID p = Some p ∧ cp_ID p ≠ []) l → Forall (λ p, cp_SessionID p = se_ID row ∧ cp_SeedID p = seed_id (wr_Seed r)) (c :: l) →
  load_path fuel row r c seen = Ok (c :: l).
Proof.
  induction 1 as [c o x outs ins F Hp|c o x outs ins p l h F Hp Hin Hl IH]; intros fuel seen Hfuel Hd Hs Hr Hrow;
    (destruct fuel as [|fuel]; [simpl in Hfuel; lia|]); cbn [load_path]; apply Forall_cons in Hrow as [[Hsess Hseed] Hrow];
    rewrite (bool_decide_eq_true_2 (_ = se_ID row)) by done; rewrite (bool_decide_eq_false_2 (_ ∈ seen)) by (apply Hs; left);
    change (match wr_Seed r with Some s => sd_ID s | None => [] end) with (seed_id (wr_Seed r)); rewrite (bool_decide_eq_true_2 (cp_SeedID c = _)) by done;
    cbn [negb orb].
  - by rewrite bool_decide_eq_true_2.
  - apply Forall_cons in Hr as [[Hrp Hne] Hr]. rewrite Hp. rewrite bool_decide_eq_false_2 by done. rewrite Hrp. apply NoDup_cons in Hd as [Hn Hd].
    rewrite IH; [done| |done| |done|done]; [simpl in Hfuel; lia|]. intros q Hq [He%elem_of_singleton|Hin']%elem_of_union.
    + apply Hn. rewrite <- He. apply (list_elem_of_fmap_2 cp_ID (p :: l)), Hq.
    + apply (Hs q); [by right|done].
Qed.
Lemma load_lineage d σ (OK : rows_ok d σ) row o r c l h : lineage d row c l h → se_Origin row = Some o → ∀ w rest todo,
  (∀ p, p ∈ c :: l → wr_Exchanges r !! cp_ExchangeID p = d_exchanges d !! cp_ExchangeID p) → NoDup (map cp_ExchangeID (c :: l)) →
  (∀ p, p ∈ c :: l → cp_ExchangeID p ∉ todo) → holds d rest (map cp_ExchangeID (c :: l) ++ todo) →
  ∃ w' rest', res_fold (load_checkpoint row o r) (w, rest) (rev (c :: l)) = Ok (w', rest') ∧ grows w w' h
    ∧ w_Exchange w' = d_exchanges d !! cp_ExchangeID c ∧ holds d rest' todo.
Proof.
  intros Hl Ho. induction Hl as [c o' x outs ins F Hp|c o' x outs ins p l h F Hp Hin Hl IH]; intros w rest todo Hx Hd Ht Hh;
    pose proof (cf_exchange _ _ _ _ _ _ _ F) as Hcx; assert (o' = o) as -> by (pose proof (cf_origin _ _ _ _ _ _ _ F); congruence).
  - destruct (load_checkpoint_ok d σ OK c row o x outs ins r w rest todo F) as (w' & rest' & He & G & Hw & Hh'); [by rewrite Hx by left|done|by apply Ht; left|].
    cbn [rev app res_fold]. rewrite He. exists w', rest'. rewrite Hcx. done.
  - change (rev (c :: p :: l)) with (rev (p :: l) ++ [c]). rewrite res_fold_app.
    destruct (IH w rest (cp_ExchangeID c :: todo)) as (w1 & rest1 & -> & G1 & _ & H1).
    + intros q Hq. apply Hx. by right.
    + by apply NoDup_cons in Hd as [_ Hd].
    + intros q Hq [He|Hin']%elem_of_cons; [|by apply (Ht q); [right|]]. apply NoDup_cons in Hd as [Hd _]. apply Hd. rewrite <- He.
      apply (list_elem_of_fmap_2 cp_ExchangeID (p :: l)), Hq.
    + destruct Hh as [Ha Hb]. split; [done|]. intros i Hi Hc. apply Hb; [done|]. cbn [map app] in *. set_solver.
    + cbn [res_bind]. destruct (load_checkpoint_ok d σ OK c row o x outs ins r w1 rest1 todo F) as (w' & rest' & He & G & Hw & Hh'); [by rewrite Hx by left|done|by apply Ht; left|].
      cbn [res_fold]. rewrite He. exists w', rest'. rewrite Hcx. split; [done|]. split; [exact (grows_trans _ _ _ _ _ G1 G)|done].
Qed.
Lemma ancestors_ok d σ (OK : rows_ok d σ) row c l h : lineage d row c l h → ∀ fuel rows, (length l < fuel)%nat → NoDup (map cp_ID l) → Forall (λ p, rows !! cp_ID p = None) l →
  let rows' := ancestors fuel d (cp_ParentID c) rows in
  (size rows' = size rows + length l)%nat ∧ (∀ id p, rows' !! id = Some p ↔ rows !! id = Some p ∨ p ∈ l ∧ id = cp_ID p).
Proof.
  induction 1 as [c o x outs ins F Hp|c o x outs ins p l h F Hp Hin Hl IH]; intros fuel rows Hfuel Hd Hr; (destruct fuel as [|fuel]; [simpl in Hfuel; lia|]); cbn [ancestors].
  - rewrite Hp, (no_empty_checkpoint d σ OK). destruct (rows !! []); simpl; (split; [lia|intros id q; rewrite elem_of_nil; tauto]).
  - apply Forall_cons in Hr as [Hrp Hr]. rewrite Hp, Hrp, (find_checkpoint_in d σ OK p Hin). apply NoDup_cons in Hd as [Hn Hd].
    destruct (IH fuel (<[cp_ID p := p]> rows)) as [Hs Hlook]; [simpl in Hfuel; lia|done| |].
    { rewrite Forall_forall in Hr |- *. intros q Hq. rewrite lookup_insert_ne; [by apply Hr|]. intros He. apply Hn. rewrite He. apply list_elem_of_fmap. eauto. }
    split; [rewrite Hs, map_size_insert_None by done; simpl; lia|]. intros id q. rewrite Hlook, lookup_insert_Some, elem_of_cons. split.
    + intros [[[He ->]|[? ?]]|[? ?]]; eauto.
    + intros [Hq|[[Hq|Hq] Hid]]; [|by subst; left; left|by right]. destruct (decide (cp_ID p = id)) as [<-|]; [congruence|]. by left; right.
Qed.

(** The results a checkpoint has beyond its response. *)
Definition results_of (d : ndb) (calls : list NativeCall) : list NativeInput :=
  omap (λ c, if bool_decide (nc_ResultInputID c = []) || bool_decide (nc_Status c = §"pending") then None else find_input d (nc_ResultInputID c)) calls.
Lemma load_results d σ (OK : rows_ok d σ) row r c : ∀ calls w, Forall (call_ok d (se_ID row) (cp_ExchangeID c)) calls →
  (∀ call i, call ∈ calls → i ∈ d_inputs d → ni_ID i = nc_ResultInputID call → wr_Inputs r !! ni_ID i = Some i) →
  ∃ w', res_fold (load_result row r c) w calls = Ok w' ∧ w_Items w' = w_Items w ++ map ni_Item (results_of d calls)
    ∧ w_Completed w' = w_Completed w ++ map ni_Item (results_of d calls) ∧ w_Exchange w' = w_Exchange w ∧ w_Origin w' = w_Origin w
    ∧ w_Checkpoint w' = w_Checkpoint w ∧ (sound (w_Items w) (w_Materials w) → sound (w_Items w') (w_Materials w')).
Proof.
  induction calls as [|call calls IH]; intros w Hc Hr; cbn [res_fold].
  { exists w. unfold results_of. simpl. by rewrite !app_nil_r. }
  apply Forall_cons in Hc as [(He & i & Hi & Hid & Hs & Hx & Hcall & Hcne) Hc]. unfold results_of in *. cbn [omap list_omap]. unfold load_result at 1.
  destruct (bool_decide (nc_ResultInputID call = []) || bool_decide (nc_Status call = §"pending")); cbn [res_bind].
  { apply IH; [done|]. intros call' j Hin. apply Hr. by right. }
  pose proof (Hr call i ltac:(left) Hi Hid) as Hri. rewrite Hid in Hri. rewrite Hri. rewrite !bool_decide_eq_true_2 by done. cbn [negb orb].
  destruct (input_kind i) as (-> & (segs & Hsegs) & Hk); [by apply (input_ok_in d σ OK i)|]. rewrite Hsegs. cbn [res_bind].
  rewrite <- Hid, (find_input_in d σ OK i Hi). cbn [map].
  edestruct IH as (w' & -> & H1 & H2 & H3 & H4 & H5 & H6); [done|intros call' j Hin; apply Hr; by right|].
  exists w'. split; [done|]. split_and!; [by rewrite H1; simpl; rewrite <- app_assoc|by rewrite H2; simpl; rewrite <- app_assoc|done..|].
  intros Ha. apply H6. simpl. apply sound_item; [done|by apply (decode_archived i)|].
  destruct Hk as [(Hn & Ho & Hid')|[(Hn & _)|(Hn & _)]]; [right; eauto|congruence..].
Qed.
Lemma load_root_ok d σ row checkpoint r o : (∀ id, se_Seed row = Some id → root_ok d σ row id) → se_Origin row = Some o →
  wr_Seed r = (id ← se_Seed row; d_seeds d !! id) → (se_Seed row = None → se_Version row = inputFormatVersion) →
  ∃ w, load_root row o checkpoint r = Ok w ∧ w_Items w = root_items d row ∧ w_Completed w = [] ∧ w_Checkpoint w = checkpoint
    ∧ (or_APIType (w_Origin w) = or_APIType o ∧ or_Provider (w_Origin w) = or_Provider o) ∧ sound (w_Items w) (w_Materials w).
Proof.
  intros Hroot Ho Hs Hv. unfold load_root, root_items. rewrite Hs. destruct (se_Seed row) as [id|]; cbn [mbind option_bind].
  - destruct (Hroot id eq_refl) as [_ (seed & items & o' & Hseed & Hid & Hsess & [] & Ho' & _ & Ha & Hp)]. assert (o' = o) as -> by congruence.
    rewrite Hseed, Ha, Hp, !bool_decide_eq_true_2 by done. cbn [negb orb]. unfold decodeSeedInputs. rewrite so_items0, so_version0. cbn.
    rewrite parses_all by done. cbn. rewrite decode_materials by apply so_materials0. cbn. eexists. split; [done|]. done.
  - destruct checkpoint; [unfold checkInputFormat; rewrite Hv by done|]; cbn; eexists; (split; [done|]); done.
Qed.
Lemma window_records d σ (OK : rows_ok d σ) row c l h : lineage d row c l h → NoDup (map cp_ID (c :: l)) →
  (∀ id, se_Seed row = Some id → root_ok d σ row id) →
  ∃ r, LoadNativeWindow d row (Some c) = Ok r ∧ wr_Seed r = (id ← se_Seed row; d_seeds d !! id) ∧ (length l < S (size (wr_Checkpoints r)))%nat
    ∧ Forall (λ p, wr_Checkpoints r !! cp_ID p = Some p) l
    ∧ (∀ p, p ∈ c :: l → wr_Exchanges r !! cp_ExchangeID p = d_exchanges d !! cp_ExchangeID p)
    ∧ holds d (wr_Inputs r) (map cp_ExchangeID (c :: l) ++ [])
    ∧ (∀ call i, call ∈ cp_Calls c → i ∈ d_inputs d → ni_ID i = nc_ResultInputID call → wr_Inputs r !! ni_ID i = Some i).
Proof.
  intros Hl Hd Hroot. pose proof Hd as [Hc Hd']%NoDup_cons.
  set (rows := ancestors (S (length (d_checkpoints d))) d (cp_ParentID c) {[cp_ID c := c]}).
  destruct (ancestors_ok d σ OK row c l h Hl (S (length (d_checkpoints d))) {[cp_ID c := c]}) as [Hsize Hrows].
  { apply Nat.lt_succ_r, submseteq_length, NoDup_submseteq; [by eapply NoDup_fmap_1|]. pose proof (lineage_in _ _ _ _ _ Hl) as Hin. by rewrite Forall_forall in Hin. }
  { done. }
  { rewrite Forall_forall. intros p Hp. apply lookup_singleton_ne. intros He. apply Hc. change (cp_ID <$> l) with (map cp_ID l). rewrite He.
    by apply (list_elem_of_fmap_2 cp_ID). }
  fold rows in Hsize, Hrows. rewrite map_size_singleton in Hsize.
  assert (∀ p, p ∈ c :: l → rows !! cp_ID p = Some p) as Hin.
  { intros p [->|Hp]%elem_of_cons; apply Hrows; [left; by simplify_map_eq|by right]. }
  assert (∀ id p, rows !! id = Some p → p ∈ c :: l) as Hback.
  { intros id p [Hp|[Hp _]]%Hrows; [apply lookup_singleton_Some in Hp as [_ <-]; left|by right]. }
  set (ids := map cp_ExchangeID (map_to_list rows).*2).
  assert (∀ e, e ∈ ids ↔ e ∈ map cp_ExchangeID (c :: l)) as Hids.
  { intros e. unfold ids. split; intros (p & -> & Hp)%list_elem_of_fmap; apply (list_elem_of_fmap_2 cp_ExchangeID).
    - apply list_elem_of_fmap in Hp as ([id q] & -> & Hq%elem_of_map_to_list). by apply (Hback id).
    - apply list_elem_of_fmap. exists (cp_ID p, p). split; [done|]. apply elem_of_map_to_list. by apply Hin. }
  set (inputs := List.filter (λ i, bool_decide (ni_ConsumedBy i ∈ ids) || bool_decide (ni_ID i ∈ result_ids (cp_Calls c))) (d_inputs d)).
  assert (∀ id i, (list_to_map (map (λ i, (ni_ID i, i)) inputs) : gmap gostring NativeInput) !! id = Some i ↔ i ∈ inputs ∧ ni_ID i = id) as Hin2.
  { intros id i. rewrite <- elem_of_list_to_map.
    - rewrite list_elem_of_fmap. split; [intros (j & [= -> ->] & Hj); done|]. intros [Hi <-]. eauto.
    - rewrite <- list_fmap_compose. change (NoDup (map ni_ID inputs)). apply (NoDup_filter_map ni_ID), (rw_ids _ _ OK). }
  assert (∀ i, i ∈ inputs ↔ i ∈ d_inputs d ∧ (ni_ConsumedBy i ∈ ids ∨ ni_ID i ∈ result_ids (cp_Calls c))) as Hin3.
  { intros i. unfold inputs. rewrite kept_in, orb_true_iff, !bool_decide_eq_true. done. }
  exists {| wr_Seed := id ← se_Seed row; d_seeds d !! id; wr_Checkpoints := rows; wr_Exchanges := filter (λ p, p.1 ∈ ids) (d_exchanges d);
            wr_Inputs := list_to_map (map (λ i, (ni_ID i, i)) inputs) |}.
  split_and!; cbn [wr_Seed wr_Checkpoints wr_Exchanges wr_Inputs].
  - unfold LoadNativeWindow. fold inputs.
    assert ((if bool_decide (cp_ParentID c = []) then {[cp_ID c := c]} else rows) = rows) as Hcase.
    { case_bool_decide as Hp; [|done]. unfold rows. cbn [ancestors]. rewrite Hp, (no_empty_checkpoint d σ OK). by destruct (_ !! []). }
    destruct (se_Seed row) as [id|]; cbn [res_bind mbind option_bind]; [|by fold rows; rewrite Hcase].
    destruct (Hroot id eq_refl) as [_ (seed & items & o & Hseed & _ & Hsess & _)]. rewrite Hseed. rewrite bool_decide_eq_true_2 by done.
    cbn [res_bind]. fold rows. by rewrite Hcase.
  - done.
  - lia.
  - rewrite Forall_forall. intros p Hp. apply Hin. by right.
  - intros p Hp. apply option_eq. intros x. rewrite map_lookup_filter_Some. cbn [fst]. rewrite Hids.
    split; [by intros [? _]|]. intros Hx. split; [done|]. by apply (list_elem_of_fmap_2 cp_ExchangeID).
  - rewrite app_nil_r. split; [intros id i [Hi <-]%Hin2; by apply Hin3 in Hi as [? _]|]. intros i Hi He. apply Hin2. split; [|done].
    apply Hin3. split; [done|]. left. by apply Hids.
  - intros call i Hcall Hi He. apply Hin2. split; [|done]. apply Hin3. split; [done|]. right. unfold result_ids. apply kept_in.
    split; [rewrite He; by apply (list_elem_of_fmap_2 nc_ResultInputID)|].
    rewrite bool_decide_eq_false_2; [done|]. by apply (input_ok_in d σ OK i).
Qed.
(** The window of a checkpoint and what it shows. *)
Record loaded (d : ndb) (row : session_row) (c : NativeCheckpoint) (conversation : list jv) (r : NativeWindowRecords) (w : nativeWindow) : Prop := {
  lo_records : LoadNativeWindow d row (Some c) = Ok r;
  lo_load : Load row (Some c) r = Ok w;
  lo_items : w_Items w = conversation ++ map ni_Item (results_of d (cp_Calls c));
  lo_completed : w_Completed w = map ni_Item (results_of d (cp_Calls c));
  lo_exchange : w_Exchange w = d_exchanges d !! cp_ExchangeID c;
  lo_checkpoint : w_Checkpoint w = Some c;
  lo_wire : ∃ o, se_Origin row = Some o ∧ complete o ∧ or_APIType (w_Origin w) = or_APIType o ∧ or_Provider (w_Origin w) = or_Provider o;
  lo_sound : sound (w_Items w) (w_Materials w)
}.
Lemma load_total d σ (OK : rows_ok d σ) row c : c ∈ d_checkpoints d → d_sessions d !! cp_SessionID c = Some row →
  ∃ h r w, σ !! cp_ResponseID c = Some h ∧ loaded d row c h r w.
Proof.
  intros Hc Hrow. apply list_elem_of_split in Hc as (before & after & He).
  destruct (lineage_of d σ OK _ before c after eq_refl He) as (row' & l & h & Hl & Hσ & Hd & Hbefore).
  pose proof (lineage_facts _ _ _ _ _ Hl) as Hfacts. pose proof Hfacts as [(o & x & outs & ins & F) _]%Forall_cons.
  assert (row' = row) as -> by (pose proof (cf_row _ _ _ _ _ _ _ F); congruence).
  pose proof (rw_sessions _ _ OK _ _ Hrow) as Hid.
  assert (∀ id, se_Seed row = Some id → root_ok d σ row id) as Hroot by (intros id; apply (rw_roots _ _ OK _ _ id Hrow)).
  destruct (window_records d σ OK row c l h Hl Hd Hroot) as (r & Hr & Hseed & Hfuel & Hcps & Hx & Hh & Hres).
  destruct (load_root_ok d σ row (Some c) r o Hroot (cf_origin _ _ _ _ _ _ _ F) Hseed (cf_version _ _ _ _ _ _ _ F)) as (w0 & Hw0 & Hi0 & Hc0 & Hcp0 & Hwire0 & Ha0).
  assert (Forall (λ p, cp_ID p ≠ []) l) as Hne.
  { pose proof (lineage_in _ _ _ _ _ Hl) as Hin. eapply Forall_impl; [done|]. intros p Hp. by destruct (checkpoint_ok d σ OK p Hp) as (? & ? & _). }
  assert (load_path (S (S (size (wr_Checkpoints r)))) row r c ∅ = Ok (c :: l)) as Hpath.
  { apply (load_path_ok d row r c l h Hl); [lia|done|intros p _; apply not_elem_of_empty| |].
    - rewrite Forall_forall in Hcps, Hne |- *. eauto.
    - eapply Forall_impl; [done|]. intros p (o' & x' & outs' & ins' & F'). pose proof (cf_row _ _ _ _ _ _ _ F') as Hrow'.
      split; [by rewrite (rw_sessions _ _ OK _ _ Hrow')|]. rewrite (cf_seed _ _ _ _ _ _ _ F'), Hseed. destruct (se_Seed row) as [id|]; [|done].
      destruct (Hroot id eq_refl) as [_ (seed & items & o'' & Hs & Hsid & _)]. cbn. rewrite Hs. by rewrite <- Hsid. }
  destruct (load_lineage d σ OK row o r c l h Hl (cf_origin _ _ _ _ _ _ _ F) w0 (wr_Inputs r) []) as (w1 & rest & Hfold & G & Hw1 & _); [done| |set_solver|done|].
  { by apply (lineage_exchanges d row c l h Hl Hd). }
  destruct (load_results d σ OK row r c (cp_Calls c) w1) as (w & Hw & H1 & H2 & H3 & H4 & H5 & H6); [|done|].
  { rewrite Hid. apply (cf_calls _ _ _ _ _ _ _ F). }
  destruct G, (cf_complete _ _ _ _ _ _ _ F) as [Hapi Hprov], Hwire0, gr_wire0.
  exists (root_items d row ++ h), r, w. split; [done|]. split; [done| | | |congruence|congruence| |auto].
  - unfold Load. rewrite (cf_origin _ _ _ _ _ _ _ F), Hapi. rewrite (bool_decide_eq_true_2 (_ = api_response)) by done.
    rewrite (bool_decide_eq_false_2 (or_Provider o = [])) by done. cbn [negb orb]. rewrite Hw0. cbn [res_bind]. rewrite Hpath. cbn [res_bind].
    rewrite Hfold. exact Hw.
  - by rewrite H1, gr_items0, Hi0.
  - by rewrite H2, gr_completed0, Hc0.
  - exists o. split; [by apply (cf_origin _ _ _ _ _ _ _ F)|]. split; [split; [by rewrite Hapi|done]|]. rewrite H4. split; congruence.
Qed.
End Loading.
