(* ===== verification/NativeCommit.v ===== *)
(** * Commits of the stored history

    The invariant of the database, relative to the provider's memory, what a
    commit may change, and that the commits of a turn keep the invariant. *)
From S2P Require Import Prelude GoStr Segment HookPipeline ToolPermit ToolTranscript NativeStore NativeTurn NativeLoad.
Open Scope Z_scope.

(** ** The invariant *)
Abbreviation memory := (gmap gostring (list jv)).
Definition history (d : ndb) (σ : memory) (s : gostring) : list jv :=
  if bool_decide (cur d s = []) then match d_sessions d !! s with Some row => root_items d row | None => [] end
  else match find_checkpoint d (cur d s) with Some c => default [] (σ !! cp_ResponseID c) | None => [] end.
(** The result of a call that waits for the next request of its session. *)
Definition pending_result (d : ndb) (s : gostring) (i : NativeInput) : Prop :=
  i ∈ d_inputs d ∧ ni_SessionID i = s ∧ ni_ConsumedBy i = [] ∧ ni_CallID i ≠ [].
Record session_ok (d : ndb) (σ : memory) (s : gostring) : Prop := {
  ss_current : cur d s ≠ [] → ∃ c, c ∈ d_checkpoints d ∧ cp_ID c = cur d s ∧ cp_SessionID c = s ∧ Forall (λ c, nc_Status c = §"pending") (cp_Calls c);
  ss_top : ∀ c, c ∈ d_checkpoints d → cp_SessionID c = s → cp_ParentID c ≠ cur d s;
  ss_links : ∃ o, open_calls (history d σ s) ∅ = Ok o ∧ ∀ id, id ∈ o ↔ ∃ i, pending_result d s i ∧ ni_CallID i = id;
  ss_one : ∀ i j, pending_result d s i → pending_result d s j → ni_CallID i = ni_CallID j → ni_ID i = ni_ID j;
  ss_results : ∀ i, pending_result d s i → ∃ c call, c ∈ d_checkpoints d ∧ cp_ID c = cur d s ∧ ni_ExchangeID i = cp_ExchangeID c
    ∧ d_calls d !! (ni_ExchangeID i, ni_CallID i) = Some call;
  ss_done : ∀ i, i ∈ d_inputs d → ni_SessionID i = s → ni_ConsumedBy i ≠ [] → ni_Item i ∈ history d σ s
}.
Section Invariant.
Context `{UnicodeTables}.
Record db_ok (d : ndb) (σ : memory) : Prop := {
  do_rows : rows_ok d σ;
  do_named : ∀ s row, d_sessions d !! s = Some row → se_Checkpoint row ≠ Some [];
  do_calls : ∀ k c, d_calls d !! k = Some c → k = (nc_ExchangeID c, nc_CallID c) ∧ nc_CallID c ≠ []
    ∧ ∃ cp, cp ∈ d_checkpoints d ∧ cp_ExchangeID cp = nc_ExchangeID c ∧ call_ok d (cp_SessionID cp) (nc_ExchangeID c) c;
  do_consumed : ∀ i, i ∈ d_inputs d → ni_ConsumedBy i ≠ [] → ∃ cp, cp ∈ d_checkpoints d ∧ cp_ExchangeID cp = ni_ConsumedBy i;
  do_sessions : ∀ s, is_Some (d_sessions d !! s) → session_ok d σ s
}.
End Invariant.

(** ** Change *)
Definition row_step (r r' : session_row) : Prop :=
  se_ID r' = se_ID r ∧ se_Seed r' = se_Seed r ∧ (∀ o, se_Origin r = Some o → complete o → se_Origin r' = Some o)
  ∧ (se_Version r = inputFormatVersion → se_Version r' = inputFormatVersion).
Definition exchange_step (x x' : NativeExchange) : Prop :=
  nx_SessionID x' = nx_SessionID x ∧ nx_APIType x' = nx_APIType x ∧ nx_Provider x' = nx_Provider x ∧ nx_Previous x' = nx_Previous x
  ∧ nx_InputIDs x' = nx_InputIDs x ∧ (nx_Status x ≠ §"pending" → x' = x).
Definition seed_step (s s' : NativeSeed) : Prop := s' = s ∨ s' = seed_consumed s.
Definition call_pending (d : ndb) (i : NativeInput) : Prop := ∃ c, d_calls d !! (ni_ExchangeID i, ni_CallID i) = Some c ∧ nc_Status c = §"pending".
(** No committed response came from exchange [e]. *)
Definition uncommitted (d : ndb) (e : gostring) : Prop := ∀ c, c ∈ d_checkpoints d → cp_ExchangeID c ≠ e.
Record input_step (d d' : ndb) (i i' : NativeInput) : Prop := {
  is_key : same_key i i';
  is_consumed : ni_ConsumedBy i ≠ [] → i' = i;
  is_by : ni_ConsumedBy i' = ni_ConsumedBy i ∨ ni_ConsumedBy i = [] ∧ cur d' (ni_SessionID i) ≠ cur d (ni_SessionID i) ∧ uncommitted d (ni_ConsumedBy i');
  is_item : call_pending d i ∨ ni_Item i' = ni_Item i ∧ ni_Media i' = ni_Media i
}.
Record evolve (d d' : ndb) : Prop := {
  ev_row : ∀ s row, d_sessions d !! s = Some row → ∃ row', d_sessions d' !! s = Some row' ∧ row_step row row';
  ev_exchange : ∀ e x, d_exchanges d !! e = Some x → ∃ x', d_exchanges d' !! e = Some x' ∧ exchange_step x x';
  ev_cps : ∃ l, d_checkpoints d' = d_checkpoints d ++ l ∧ Forall (λ c, cp_ParentID c ≠ cur d' (cp_SessionID c)) l;
  ev_cur : ∀ s, is_Some (d_sessions d !! s) → cur d' s = cur d s ∨ cur d' s ≠ [] ∧ cur d' s ∉ map cp_ID (d_checkpoints d);
  ev_seed : ∀ id s, d_seeds d !! id = Some s → ∃ s', d_seeds d' !! id = Some s' ∧ seed_step s s';
  ev_input : ∀ i, i ∈ d_inputs d → ∃ i', i' ∈ d_inputs d' ∧ input_step d d' i i';
  ev_back : ∀ i', i' ∈ d_inputs d' → (∃ i, i ∈ d_inputs d ∧ input_step d d' i i')
    ∨ ni_ID i' ∉ map ni_ID (d_inputs d) ∧ ni_ConsumedBy i' = [] ∧ (ni_CallID i' = [] ∨ cur d' (ni_SessionID i') ≠ cur d (ni_SessionID i'));
  ev_call : ∀ k c, d_calls d !! k = Some c → ∃ c', d_calls d' !! k = Some c' ∧ nc_ResultInputID c' = nc_ResultInputID c;
  ev_call_back : ∀ k c', d_calls d' !! k = Some c' → nc_Status c' = §"pending" →
    (∃ c, d_calls d !! k = Some c ∧ nc_Status c = §"pending") ∨ uncommitted d k.1
}.
Lemma input_step_refl d d' i : input_step d d' i i.
Proof. split; [done..|by left|by right]. Qed.
Lemma row_step_refl r : row_step r r.
Proof. by split_and!. Qed.
Lemma exchange_step_refl x : exchange_step x x.
Proof. by split_and!. Qed.
#[local] Hint Resolve input_step_refl row_step_refl exchange_step_refl : core.
Lemma input_eq i j : same_key i j → ni_ConsumedBy i = ni_ConsumedBy j → ni_Item i = ni_Item j → ni_Media i = ni_Media j → i = j.
Proof. destruct i, j; simpl. intros (? & ? & ? & ? & ? & ?) ? ? ?. simpl in *. by subst. Qed.
Lemma same_key_refl i : same_key i i.
Proof. by split_and!. Qed.
Lemma seed_step_facts s s' : seed_step s s' →
  sd_ID s' = sd_ID s ∧ sd_SessionID s' = sd_SessionID s ∧ sd_Items s' = sd_Items s ∧ sd_APIType s' = sd_APIType s ∧ sd_Provider s' = sd_Provider s
  ∧ sd_ResponseID s' = sd_ResponseID s ∧ sd_Continuation s' = sd_Continuation s ∧ sd_BaseURL s' = sd_BaseURL s ∧ sd_Materials s' = sd_Materials s.
Proof. intros [-> | ->]; done. Qed.
Lemma seed_step_ok σ σ' s s' items : seed_step s s' → σ ⊆ σ' → seed_ok σ s items → seed_ok σ' s' items.
Proof.
  intros Hs Hσ []. assert (sd_ResponseID s ≠ [] → ∃ h, σ' !! sd_ResponseID s = Some h ∧ items = h ++ sd_Continuation s) as Hr.
  { intros Hn. destruct (so_response Hn) as (h & Hh & He). exists h. split; [by eapply lookup_weaken|done]. }
  destruct Hs as [-> | ->]; by split.
Qed.

(** ** What a change keeps *)
Section Keep.
Context `{UnicodeTables} (d d' : ndb) (σ σ' : memory) (OK : db_ok d σ) (EV : evolve d d') (MEM : σ ⊆ σ').
Let ROWS : rows_ok d σ := do_rows d σ OK.
Lemma old_checkpoint c : c ∈ d_checkpoints d → c ∈ d_checkpoints d'.
Proof. destruct (ev_cps _ _ EV) as (l & -> & _). intros Hc. apply elem_of_app. by left. Qed.
Lemma consumed_same i : i ∈ d_inputs d → ni_ConsumedBy i ≠ [] → i ∈ d_inputs d'.
Proof. intros Hi Hc. destruct (ev_input _ _ EV i Hi) as (i' & Hi' & S). by rewrite <- (is_consumed _ _ _ _ S Hc). Qed.
(** The inputs of a committed exchange stay as they are. *)
Lemma committed_inputs c i : c ∈ d_checkpoints d → cp_ExchangeID c ≠ [] → (i ∈ d_inputs d' ∧ ni_ConsumedBy i = cp_ExchangeID c ↔ i ∈ d_inputs d ∧ ni_ConsumedBy i = cp_ExchangeID c).
Proof.
  intros Hc Hne. split; intros [Hi He]; [|split; [|done]; apply consumed_same; [done|by rewrite He]].
  destruct (ev_back _ _ EV i Hi) as [(j & Hj & S)|(_ & Hn & _)]; [|congruence]. destruct (decide (ni_ConsumedBy j = [])) as [Hj'|Hj'].
  - destruct (is_by _ _ _ _ S) as [Hb|(_ & _ & Hu)]; [congruence|]. by destruct (Hu c Hc).
  - by rewrite (is_consumed _ _ _ _ S Hj') in *.
Qed.
Lemma call_ok_keep s e c : call_ok d s e c → call_ok d' s e c.
Proof.
  intros (He & i & Hi & H1 & H2 & H3 & H4 & H5). split; [done|]. destruct (ev_input _ _ EV i Hi) as (i' & Hi' & [(K1 & K2 & _ & K4 & K5 & _) _ _ _]).
  exists i'. split; [done|]. split_and!; congruence.
Qed.
Lemma root_items_keep s row row' : d_sessions d !! s = Some row → row_step row row' → root_items d' row' = root_items d row.
Proof.
  intros Hr (_ & Hs & _). unfold root_items. rewrite Hs. destruct (se_Seed row) as [id|] eqn:Hid; [|done].
  destruct (rw_roots _ _ ROWS _ _ _ Hr Hid) as [_ (seed & items & o & Hseed & _)]. destruct (ev_seed _ _ EV _ _ Hseed) as (seed' & Hseed' & St).
  rewrite Hseed, Hseed'. f_equal. by destruct (seed_step_facts _ _ St) as (_ & _ & -> & _).
Qed.
Lemma root_ok_keep s row row' id : d_sessions d !! s = Some row → row_step row row' → se_Seed row' = Some id → root_ok d' σ' row' id.
Proof.
  intros Hr (Hid & Hs & Ho & _) Hseed. rewrite Hs in Hseed. destruct (rw_roots _ _ ROWS _ _ _ Hr Hseed) as [Hne (seed & items & o & H1 & H2 & H3 & H4 & H5 & H6 & H7 & H8)].
  destruct (ev_seed _ _ EV _ _ H1) as (seed' & H1' & St). destruct (seed_step_facts _ _ St) as (E1 & E2 & E3 & E4 & E5 & _). split; [done|].
  exists seed', items, o. split_and!; try congruence; [by eapply seed_step_ok|auto].
Qed.
Lemma cp_facts_keep c row o x outs ins : c ∈ d_checkpoints d → cp_facts d c row o x outs ins →
  ∃ row', d_sessions d' !! cp_SessionID c = Some row' ∧ row_step row row' ∧ cp_facts d' c row' o x outs ins.
Proof.
  intros Hc []. destruct (ev_row _ _ EV _ _ cf_row) as (row' & Hr' & R). exists row'. split; [done|]. split; [done|].
  destruct R as (R1 & R2 & R3 & R4), cf_complete as [Ca Cp]. destruct (ev_exchange _ _ EV _ _ cf_exchange) as (x' & Hx' & X).
  assert (x' = x) as ->. { apply X. by rewrite cf_status. }
  pose proof (rw_exchanges _ _ ROWS _ _ cf_exchange) as [Hid Hne].
  split; try done.
  - apply R3; [done|]. split; [by rewrite Ca|done].
  - intros Hn. apply R4, cf_version. by rewrite <- R2.
  - by rewrite R2.
  - intros i. rewrite cf_inputs, Hid. symmetry. by apply committed_inputs.
  - eapply Forall_impl; [exact cf_calls|]. intros call. apply call_ok_keep.
Qed.
Lemma cp_ok_keep before c after : d_checkpoints d = before ++ c :: after → cp_ok d' σ' before c.
Proof.
  intros He. assert (c ∈ d_checkpoints d) as Hc by (rewrite He, elem_of_app; right; left).
  destruct (rw_checkpoints _ _ ROWS before c after He) as (H1 & H2 & row & o & x & outs & ins & base & F & Hb & Hσ).
  split; [done|]. split; [done|]. destruct (cp_facts_keep _ _ _ _ _ _ Hc F) as (row' & Hr' & R & F'). exists row', o, x, outs, ins, base.
  split; [done|]. split; [|by eapply lookup_weaken]. destruct Hb as [[Hp ->]|(p & Hp & Hid & Hs & Hbase)].
  - left. split; [done|]. symmetry. apply (root_items_keep (cp_SessionID c)); [apply (cf_row _ _ _ _ _ _ _ F)|done].
  - right. exists p. split_and!; [done..|]. by eapply lookup_weaken.
Qed.
(** The rows of the changed database, from what is new in it. *)
Lemma rows_keep :
  (∀ s row, d_sessions d' !! s = Some row → se_ID row = s ∧ (d_sessions d !! s = None → ∀ id, se_Seed row = Some id → root_ok d' σ' row id)) →
  (∀ id sd, d_seeds d' !! id = Some sd → sd_ID sd = id) → (∀ e x, d_exchanges d' !! e = Some x → nx_ID x = e ∧ e ≠ []) →
  Forall (λ i, input_ok i ∧ ni_ID i ≠ [] ∧ is_Some (d_sessions d' !! ni_SessionID i)) (d_inputs d') → NoDup (map ni_ID (d_inputs d')) →
  (∃ l, d_checkpoints d' = d_checkpoints d ++ option_list l ∧ ∀ c, l = Some c → cp_ok d' σ' (d_checkpoints d) c) → rows_ok d' σ'.
Proof.
  intros Hs Hsd Hx Hi Hd Hc. split; [by intros s row Hr; apply Hs| |done..|].
  - intros s row id Hr Hid. destruct (d_sessions d !! s) as [row0|] eqn:Hr0; [|by apply (Hs _ _ Hr)].
    destruct (ev_row _ _ EV _ _ Hr0) as (row' & Hr' & R). assert (row' = row) as -> by congruence. by apply (root_ok_keep s row0).
  - destruct Hc as (l & Hl & Hc). intros before c after He. rewrite Hl in He. destruct l as [n|]; simpl in He.
    + destruct after as [|a after _] using rev_ind.
      * apply app_inj_tail in He as [<- <-]. by apply Hc.
      * rewrite app_comm_cons, app_assoc in He. apply app_inj_tail in He as [He _]. by eapply cp_ok_keep.
    + rewrite app_nil_r in He. by eapply cp_ok_keep.
Qed.
(** A session whose current checkpoint stays. *)
Lemma pending_back s i' : cur d' s = cur d s → pending_result d' s i' → ∃ i, pending_result d s i ∧ same_key i i' ∧ i ∈ d_inputs d ∧ input_step d d' i i'.
Proof.
  intros Hcur (Hi' & Hs & Hb & Hc). destruct (ev_back _ _ EV i' Hi') as [(i & Hi & S)|(_ & _ & [?|Hn])]; [|done|by rewrite Hs in Hn].
  exists i. destruct (is_key _ _ _ _ S) as (K1 & K2 & K3 & K4 & K5 & K6). split; [|by split_and!]. split_and!; [done|congruence| |congruence].
  destruct (is_by _ _ _ _ S) as [He|(Hz & _)]; congruence.
Qed.
Lemma pending_forward s i : cur d' s = cur d s → pending_result d s i → ∃ i', pending_result d' s i' ∧ same_key i i'.
Proof.
  intros Hcur (Hi & Hs & Hb & Hc). destruct (ev_input _ _ EV i Hi) as (i' & Hi' & S). exists i'. destruct (is_key _ _ _ _ S) as (K1 & K2 & K3 & K4 & K5 & K6).
  split; [|done]. split_and!; [done|congruence| |congruence]. destruct (is_by _ _ _ _ S) as [He|(_ & Hn & _)]; [congruence|]. by rewrite Hs in Hn.
Qed.
Lemma history_keep s : rows_ok d' σ' → is_Some (d_sessions d !! s) → cur d' s = cur d s → history d' σ' s = history d σ s.
Proof.
  intros ROWS' [row Hr] Hcur. unfold history. rewrite Hcur. case_bool_decide as Hn.
  - destruct (ev_row _ _ EV _ _ Hr) as (row' & Hr' & R). rewrite Hr, Hr'. by apply (root_items_keep s).
  - destruct (ss_current _ _ _ (do_sessions _ _ OK s (mk_is_Some _ _ Hr)) Hn) as (c & Hc & Hid & _). rewrite <- Hid.
    rewrite (find_checkpoint_in d σ ROWS c Hc), (find_checkpoint_in d' σ' ROWS' c (old_checkpoint c Hc)).
    destruct (checkpoint_ok d σ ROWS c Hc) as (before & _ & _ & row' & o & x & outs & ins & base & _ & _ & Hσ). rewrite Hσ.
    by rewrite (lookup_weaken _ _ _ _ Hσ MEM).
Qed.
Lemma session_keep s : rows_ok d' σ' → is_Some (d_sessions d !! s) → cur d' s = cur d s → session_ok d' σ' s.
Proof.
  intros ROWS' Hs Hcur. pose proof (do_sessions _ _ OK s Hs) as []. pose proof (history_keep s ROWS' Hs Hcur) as Hh. split; rewrite ?Hcur, ?Hh.
  - intros Hn. destruct (ss_current0 Hn) as (c & Hc & ?). exists c. split; [by apply old_checkpoint|done].
  - intros c Hc He. destruct (ev_cps _ _ EV) as (l & Hl & Hnew). rewrite Hl in Hc. apply elem_of_app in Hc as [Hc|Hc]; [by apply ss_top0|].
    rewrite Forall_forall in Hnew. specialize (Hnew c Hc). by rewrite He, Hcur in Hnew.
  - destruct ss_links0 as (o & Ho & Hlinks). exists o. split; [done|]. intros id. rewrite Hlinks. split.
    + intros (i & Hi & <-). destruct (pending_forward s i Hcur Hi) as (i' & Hi' & (_ & _ & _ & _ & K & _)). eauto.
    + intros (i' & Hi' & <-). destruct (pending_back s i' Hcur Hi') as (i & Hi & (_ & _ & _ & _ & K & _) & _). eauto.
  - intros i' j' Hi' Hj' He. destruct (pending_back s i' Hcur Hi') as (i & Hi & (Ki & _ & _ & _ & Ki' & _) & _).
    destruct (pending_back s j' Hcur Hj') as (j & Hj & (Kj & _ & _ & _ & Kj' & _) & _). rewrite <- Ki, <- Kj. apply ss_one0; [done..|congruence].
  - intros i' Hi'. destruct (pending_back s i' Hcur Hi') as (i & Hi & (_ & _ & _ & K4 & K5 & _) & _). destruct (ss_results0 i Hi) as (c & call & Hc & Hid & He & Hcall).
    destruct (ev_call _ _ EV _ _ Hcall) as (call' & Hcall' & _). exists c, call'. split_and!; [by apply old_checkpoint|done|congruence|congruence].
  - intros i' Hi' Hsi Hb. destruct (ev_back _ _ EV i' Hi') as [(i & Hi & S)|(_ & ? & _)]; [|done].
    destruct (is_key _ _ _ _ S) as (_ & K2 & _). destruct (is_by _ _ _ _ S) as [He|(_ & Hn & _)]; [|by rewrite K2, Hsi in Hn].
    assert (i' = i) as ->; [|by apply ss_done0]. apply (is_consumed _ _ _ _ S). congruence.
Qed.
(** A change that leaves every session at its checkpoint and adds no call. *)
Lemma db_keep : rows_ok d' σ' → (∀ s row, d_sessions d' !! s = Some row → se_Checkpoint row ≠ Some []) →
  (∀ k c', d_calls d' !! k = Some c' → ∃ c, d_calls d !! k = Some c ∧ nc_ExchangeID c' = nc_ExchangeID c ∧ nc_CallID c' = nc_CallID c
    ∧ nc_ResultInputID c' = nc_ResultInputID c) →
  (∀ s, is_Some (d_sessions d !! s) → cur d' s = cur d s) →
  (∀ s, d_sessions d !! s = None → is_Some (d_sessions d' !! s) → session_ok d' σ' s) → db_ok d' σ'.
Proof.
  intros ROWS' Hn Hcalls Hcur Hnew. split; [done|done| | |].
  - intros k c' Hc'. destruct (Hcalls k c' Hc') as (c & Hc & E1 & E2 & E3). destruct (do_calls _ _ OK k c Hc) as (-> & Hne & cp & Hcp & He & Hok).
    rewrite E1, E2. split; [done|]. split; [done|]. exists cp. split; [by apply old_checkpoint|]. split; [done|]. apply call_ok_keep in Hok as (_ & i & Hi & ?).
    split; [done|]. exists i. split; [done|]. by rewrite E2, E3.
  - intros i' Hi' Hb. destruct (ev_back _ _ EV i' Hi') as [(i & Hi & S)|(_ & ? & _)]; [|done].
    destruct (is_by _ _ _ _ S) as [He|(_ & Hc & _)].
    + rewrite He in *. destruct (do_consumed _ _ OK i Hi Hb) as (cp & Hcp & ?). exists cp. split; [by apply old_checkpoint|done].
    + destruct Hc. apply Hcur. pose proof (rw_inputs _ _ ROWS) as Hf. rewrite Forall_forall in Hf. by apply Hf.
  - intros s Hs. destruct (d_sessions d !! s) as [row|] eqn:Hr; [|by apply Hnew]. apply session_keep; [done|by rewrite Hr|apply Hcur; by rewrite Hr].
Qed.
End Keep.

(** ** Rows *)
Lemma cur_row d s row : d_sessions d !! s = Some row → cur d s = default [] (se_Checkpoint row).
Proof. unfold cur. by intros ->. Qed.
(** A change of rows, exchanges and seeds only. *)
Lemma evolve_tables d d' : d_inputs d' = d_inputs d → d_calls d' = d_calls d → d_checkpoints d' = d_checkpoints d →
  (∀ s row, d_sessions d !! s = Some row → ∃ row', d_sessions d' !! s = Some row' ∧ row_step row row' ∧ se_Checkpoint row' = se_Checkpoint row) →
  (∀ e x, d_exchanges d !! e = Some x → ∃ x', d_exchanges d' !! e = Some x' ∧ exchange_step x x') →
  (∀ id s, d_seeds d !! id = Some s → d_seeds d' !! id = Some s) →
  evolve d d' ∧ ∀ s, is_Some (d_sessions d !! s) → cur d' s = cur d s.
Proof.
  intros Hi Hc Hp Hs Hx Hd.
  assert (∀ s, is_Some (d_sessions d !! s) → cur d' s = cur d s) as Hcur.
  { intros s [row Hr]. destruct (Hs _ _ Hr) as (row' & Hr' & _ & He). by rewrite (cur_row _ _ _ Hr), (cur_row _ _ _ Hr'), He. }
  split; [|done]. split.
  - intros s row Hr. destruct (Hs _ _ Hr) as (row' & ? & ? & _). eauto.
  - done.
  - exists []. rewrite Hp, app_nil_r. split; [done|constructor].
  - intros s Hr. left. by apply Hcur.
  - intros id s Hr. exists s. split; [by apply Hd|by left].
  - rewrite Hi. intros i Hin. exists i. split; [done|apply input_step_refl].
  - rewrite Hi. intros i Hin. left. exists i. split; [done|apply input_step_refl].
  - rewrite Hc. eauto.
  - rewrite Hc. intros k c Hk ?. left. eauto.
Qed.
(** Calls written over a table. *)
Definition call_key (c : NativeCall) : gostring * gostring := (nc_ExchangeID c, nc_CallID c).
Definition put_calls (calls : list NativeCall) (m : gmap (gostring * gostring) NativeCall) : gmap (gostring * gostring) NativeCall :=
  foldl (λ m c, <[call_key c := c]> m) m calls.
Lemma put_in calls m k c : put_calls calls m !! k = Some c → c ∈ calls ∧ k = call_key c ∨ m !! k = Some c ∧ k ∉ map call_key calls.
Proof.
  revert m. induction calls as [|a calls IH]; intros m Hk; cbn [put_calls foldl map] in *; [right; split; [done|apply not_elem_of_nil]|].
  apply IH in Hk as [[Hc ->]|[Hk Hn]]; [left; split; [by right|done]|]. apply lookup_insert_Some in Hk as [[<- <-]|[Hne Hk]]; [left; split; [left|done]|].
  right. split; [done|]. by apply not_elem_of_cons.
Qed.
Lemma put_some calls m k c0 : m !! k = Some c0 → ∃ c, put_calls calls m !! k = Some c ∧ (c = c0 ∨ c ∈ calls ∧ k = call_key c).
Proof.
  revert m c0. induction calls as [|a calls IH]; intros m c0 Hk; cbn [put_calls foldl]; [eauto|]. destruct (decide (call_key a = k)) as [<-|Hne].
  - destruct (IH (<[call_key a := a]> m) a) as (c & Hc & Hor); [by rewrite lookup_insert_eq|]. exists c. split; [done|]. right.
    destruct Hor as [-> |[? ?]]; (split; [|done]); [left|by right].
  - destruct (IH (<[call_key a := a]> m) c0) as (c & Hc & Hor); [by rewrite lookup_insert_ne|]. exists c. split; [done|].
    destruct Hor as [-> |[? ?]]; [by left|]. right. split; [by right|done].
Qed.
Lemma put_new calls m c : c ∈ calls → ∃ c', put_calls calls m !! call_key c = Some c' ∧ c' ∈ calls ∧ call_key c' = call_key c.
Proof.
  revert m. induction calls as [|a calls IH]; intros m; [by intros ?%elem_of_nil|]. intros [->|Hc]%elem_of_cons; cbn [put_calls foldl].
  - destruct (put_some calls (<[call_key a := a]> m) (call_key a) a) as (c' & Hc' & Hor); [by rewrite lookup_insert_eq|]. exists c'. split; [done|].
    destruct Hor as [-> |[? He]]; (split; [|done]); [left|by right].
  - destruct (IH (<[call_key a := a]> m) Hc) as (c' & ? & ? & ?). exists c'. split; [done|]. split; [by right|done].
Qed.
Lemma append_calls_shape s : ∀ calls d0 d1, res_fold (append_call s) d0 calls = Ok d1 →
  d1 = with_calls d0 (put_calls calls (d_calls d0)) ∧ Forall (λ c, nc_CallID c ≠ [] ∧ ∃ x, d_exchanges d0 !! nc_ExchangeID c = Some x ∧ nx_SessionID x = s) calls.
Proof.
  induction calls as [|c calls IH]; intros d0 d1 Hf; cbn [res_fold] in Hf.
  { injection Hf as <-. split; [by destruct d0|constructor]. }
  apply res_bind_ok in Hf as (d2 & Hc & Hf). unfold append_call in Hc. destruct (d_exchanges d0 !! nc_ExchangeID c) as [x|] eqn:Hx; [|done].
  case_bool_decide as Hs; [|done]. cbn [negb orb] in Hc. case_bool_decide as Hn; [done|].
  assert (d2 = with_calls d0 (<[call_key c := c]> (d_calls d0))) as ->.
  { destruct (d_calls d0 !! _); [|by injection Hc as <-]. case_match; [|done]. by injection Hc as <-. }
  apply IH in Hf as [-> Hf]. split; [done|]. constructor; [eauto|]. exact Hf.
Qed.
Lemma Calls_in d e c : c ∈ Calls d e ↔ nc_ExchangeID c = e ∧ ∃ k, d_calls d !! k = Some c.
Proof.
  unfold Calls. rewrite (merge_sort_Permutation by_ordinal), kept_in, bool_decide_eq_true, list_elem_of_fmap. split.
  - intros [([k c'] & -> & Hk%elem_of_map_to_list) He]. eauto.
  - intros [He [k Hk]]. split; [|done]. exists (k, c). split; [done|]. by apply elem_of_map_to_list.
Qed.
(** A snapshot says what its checkpoint says, but for its calls. *)
Lemma cp_ok_snapshot `{UnicodeTables} d σ before c all n : cp_ok d σ before c → cp_ID n ≠ [] → cp_ID n ∉ map cp_ID all →
  cp_SessionID n = cp_SessionID c ∧ cp_ParentID n = cp_ParentID c ∧ cp_ExchangeID n = cp_ExchangeID c ∧ cp_ResponseID n = cp_ResponseID c
  ∧ cp_SeedID n = cp_SeedID c → (∀ q, q ∈ before → q ∈ all) → Forall (call_ok d (cp_SessionID c) (cp_ExchangeID c)) (cp_Calls n) → cp_ok d σ all n.
Proof.
  intros (_ & _ & row & o & x & outs & ins & base & [] & Hb & Hσ) Hne Hnew (E1 & E2 & E3 & E4 & E5) Hall Hcalls. split; [done|]. split; [done|].
  exists row, o, x, outs, ins, base. rewrite E4. split; [split; rewrite ?E1, ?E2, ?E3, ?E4, ?E5; done|]. split; [|done].
  destruct Hb as [[Hp ->]|(p & Hp & ? & ? & ?)]; [left; by rewrite E2|]. right. exists p. rewrite E1, E2. auto.
Qed.
Section Tables.
Context `{UnicodeTables} (d : ndb) (σ : memory) (OK : db_ok d σ).
Let ROWS : rows_ok d σ := do_rows d σ OK.
Lemma row_named row : d_sessions d !! se_ID row = Some row → se_Checkpoint row ≠ Some [].
Proof. apply (do_named _ _ OK). Qed.
(** One session's row, whose checkpoint stays. *)
Lemma set_row_ok row row' : d_sessions d !! se_ID row = Some row → row_step row row' → se_Checkpoint row' = se_Checkpoint row →
  db_ok (with_session d row') σ ∧ evolve d (with_session d row').
Proof.
  intros Hr R He. pose proof R as (Hid & _). assert (∀ s r, d_sessions (with_session d row') !! s = Some r →
    ∃ r0, d_sessions d !! s = Some r0 ∧ row_step r0 r ∧ se_Checkpoint r = se_Checkpoint r0) as Hback.
  { simpl. intros s r [[<- <-]|[_ Hs]]%lookup_insert_Some; [rewrite Hid; by exists row|]. exists r. by split_and!. }
  destruct (evolve_tables d (with_session d row')) as [EV Hcur]; [done..| | |done|].
  { simpl. intros s r Hs. destruct (decide (se_ID row' = s)) as [<-|Hne].
    - exists row'. rewrite lookup_insert_eq. rewrite Hid in Hs. rewrite Hr in Hs. by simplify_eq.
    - exists r. rewrite lookup_insert_ne by done. by split_and!. }
  { simpl. eauto. }
  split; [|done]. eapply (db_keep d _ σ σ OK EV); [done| |..]; [| |by eauto|done|].
  - apply (rows_keep d _ σ σ OK EV); [done| |apply (rw_seeds _ _ ROWS)|apply (rw_exchanges _ _ ROWS)| |apply (rw_ids _ _ ROWS)|].
    + intros s r Hs. destruct (Hback s r Hs) as (r0 & Hr0 & (E & _) & _). split; [|by rewrite Hr0]. rewrite E. by apply (rw_sessions _ _ ROWS).
    + eapply Forall_impl; [apply (rw_inputs _ _ ROWS)|]. intros i (? & ? & [r Hi]). split; [done|]. split; [done|].
      destruct (ev_row _ _ EV _ _ Hi) as (r' & ? & _). eauto.
    + exists None. simpl. by rewrite app_nil_r.
  - intros s r Hs. destruct (Hback s r Hs) as (r0 & Hr0 & _ & ->). by apply (do_named _ _ OK s).
  - intros s Hn [r Hs]. destruct (Hback s r Hs) as (r0 & Hr0 & _). congruence.
Qed.
Lemma set_exchange_ok x : nx_ID x ≠ [] → (∀ x0, d_exchanges d !! nx_ID x = Some x0 → exchange_step x0 x) →
  db_ok (with_exchange d x) σ ∧ evolve d (with_exchange d x).
Proof.
  intros Hne Hx. destruct (evolve_tables d (with_exchange d x)) as [EV Hcur]; [done..|simpl; eauto using row_step_refl| |done|].
  { simpl. intros e x0 He. destruct (decide (nx_ID x = e)) as [<-|]; [rewrite lookup_insert_eq|rewrite lookup_insert_ne by done]; eauto. }
  split; [|done]. eapply (db_keep d _ σ σ OK EV); [done| |apply (do_named _ _ OK)|simpl; eauto 10|done|].
  - apply (rows_keep d _ σ σ OK EV); [done| |apply (rw_seeds _ _ ROWS)| |apply (rw_inputs _ _ ROWS)|apply (rw_ids _ _ ROWS)|].
    + simpl. intros s r Hs. split; [by apply (rw_sessions _ _ ROWS)|]. by rewrite Hs.
    + simpl. intros e x0 [[<- <-]|[_ He]]%lookup_insert_Some; [done|]. by apply (rw_exchanges _ _ ROWS).
    + exists None. simpl. by rewrite app_nil_r.
  - simpl. intros s Hn [r Hs]. congruence.
Qed.
Lemma create_exchange_ok x d' : nx_ID x ≠ [] → CreateExchange d x = Ok d' → db_ok d' σ ∧ evolve d d' ∧
  ∃ x', d_exchanges d' !! nx_ID x = Some x' ∧ d' = with_exchange d x' ∧ d_exchanges d !! nx_ID x = None ∧ nx_ID x' = nx_ID x ∧ nx_SessionID x' = nx_SessionID x
    ∧ nx_APIType x' = nx_APIType x ∧ nx_Provider x' = nx_Provider x ∧ nx_Previous x' = nx_Previous x ∧ nx_InputIDs x' = nx_InputIDs x
    ∧ nx_Status x' = §"pending".
Proof.
  intros Hne Hc. unfold CreateExchange in Hc. case_match; [done|]. destruct (d_exchanges d !! nx_ID x) eqn:Hx; [done|]. injection Hc as <-.
  match goal with |- db_ok (with_exchange d ?x') _ ∧ _ => destruct (set_exchange_ok x') as [H1 H2]; [done|simpl; intros x0 Hx0; congruence|] end.
  split; [done|]. split; [done|]. eexists. split; [apply lookup_insert_eq|]. by split_and!.
Qed.
Lemma finish_exchange_ok e status response items d' : FinishExchange d e status response items = Ok d' → db_ok d' σ ∧ evolve d d' ∧
  ∃ x x', d_exchanges d !! e = Some x ∧ d_exchanges d' !! e = Some x' ∧ exchange_step x x' ∧ nx_ID x' = e ∧ nx_Status x' = status ∧ nx_Response x' = response
    ∧ nx_Items x' = items ∧ nx_Store x' = nx_Store x ∧ nx_BaseURL x' = nx_BaseURL x ∧ nx_Status x = §"pending" ∧ nx_ID x = e.
Proof.
  intros Hc. unfold FinishExchange in Hc. case_match; [done|]. destruct (d_exchanges d !! e) as [x|] eqn:Hx; [|done].
  case_bool_decide as Hs; [|done]. injection Hc as <-. destruct (rw_exchanges _ _ ROWS _ _ Hx) as [Hid Hne].
  match goal with |- db_ok (with_exchange d ?x') _ ∧ _ => assert (exchange_step x x') as Hst; [by split_and!|
    destruct (set_exchange_ok x') as [H1 H2]; [by rewrite <- Hid in Hne|simpl; rewrite Hid, Hx; intros x0 [= <-]; done|]] end.
  split; [done|]. split; [done|]. eexists x, _. split; [done|]. split; [rewrite <- Hid; apply lookup_insert_eq|]. by split_and!.
Qed.
(** ** New sessions *)
Definition prepared_ok (σ : memory) (seed : NativeSeed) : Prop := ∃ items, seed_ok σ seed items ∧ open_calls items ∅ = Ok ∅.
(** The database with a new session on a seed, or on nothing. *)
Definition opened (row : session_row) (seed : option NativeSeed) : ndb :=
  match seed with Some s => with_seed (with_session d row) s | None => with_session d row end.
Lemma new_session_ok row seed : d_sessions d !! se_ID row = None → se_Checkpoint row = None → se_Seed row = sd_ID <$> seed →
  (∀ s, seed = Some s → sd_ID s ≠ [] ∧ d_seeds d !! sd_ID s = None ∧ sd_SessionID s = se_ID row ∧ prepared_ok σ s
     ∧ ∃ o, se_Origin row = Some o ∧ complete o ∧ sd_APIType s = or_APIType o ∧ sd_Provider s = or_Provider o) →
  db_ok (opened row seed) σ ∧ evolve d (opened row seed).
Proof.
  intros Hr Hc Hs Hseed. set (d' := opened row seed).
  assert (d_sessions d' = <[se_ID row := row]> (d_sessions d)) as Hd' by (by unfold d', opened; destruct seed).
  assert (d_checkpoints d' = d_checkpoints d ∧ d_inputs d' = d_inputs d ∧ d_calls d' = d_calls d ∧ d_exchanges d' = d_exchanges d) as (Hcp & Hin & Hca & Hex)
    by (by unfold d', opened; destruct seed).
  destruct (evolve_tables d d') as [EV Hcur]; [done..| | | |].
  { intros s r Hs'. exists r. rewrite Hd', lookup_insert_ne by congruence. split; [done|]. split; [apply row_step_refl|done]. }
  { rewrite Hex. intros e x He. exists x. split; [done|apply exchange_step_refl]. }
  { unfold d', opened. destruct seed as [sd|]; [|done]. destruct (Hseed _ eq_refl) as (_ & Hn & _). simpl. intros id x Hx. rewrite lookup_insert_ne by congruence. done. }
  assert (root_items d' row = match seed with Some s => default [] (sd_Items s) | None => [] end) as Hroot.
  { unfold root_items. rewrite Hs. destruct seed as [sd|]; [|done]. simpl. by rewrite lookup_insert_eq. }
  split; [|done]. eapply (db_keep d _ σ σ OK EV); [done| | |by rewrite Hca; eauto 10|done|].
  - apply (rows_keep d _ σ σ OK EV); [done| | |rewrite Hex; apply (rw_exchanges _ _ ROWS)| |rewrite Hin; apply (rw_ids _ _ ROWS)|].
    + intros s r Hs'. rewrite Hd' in Hs'. apply lookup_insert_Some in Hs' as [[<- <-]|[_ Hs']]; [|split; [by apply (rw_sessions _ _ ROWS)|congruence]].
      split; [done|]. intros _ id Hid. rewrite Hs in Hid. destruct seed as [sd|]; [|done]. injection Hid as <-.
      destruct (Hseed _ eq_refl) as (Hne & _ & Hsess & (items & Hok & _) & o & Ho & Hco & Ha & Hp). split; [done|]. exists sd, items, o.
      split; [unfold d'; simpl; apply lookup_insert_eq|]. by split_and!.
    + unfold d', opened. destruct seed as [sd|]; [|apply (rw_seeds _ _ ROWS)]. simpl. intros id x [[<- <-]|[_ Hx]]%lookup_insert_Some; [done|]. by apply (rw_seeds _ _ ROWS).
    + rewrite Hin. eapply Forall_impl; [apply (rw_inputs _ _ ROWS)|]. intros i (? & ? & [r Hi]). split; [done|]. split; [done|].
      rewrite Hd', lookup_insert_ne by congruence. eauto.
    + exists None. rewrite Hcp. simpl. by rewrite app_nil_r.
  - intros s r Hs'. rewrite Hd' in Hs'. apply lookup_insert_Some in Hs' as [[_ <-]|[_ Hs']]; [congruence|by apply (do_named _ _ OK s)].
  - intros s Hn [r Hs']. rewrite Hd' in Hs'. apply lookup_insert_Some in Hs' as [[<- <-]|[_ Hs']]; [|congruence].
    assert (d_sessions d' !! se_ID row = Some row) as Hrow by (rewrite Hd'; apply lookup_insert_eq).
    assert (cur d' (se_ID row) = []) as Hz by (by rewrite (cur_row _ _ _ Hrow), Hc).
    assert (∀ c, c ∈ d_checkpoints d' → cp_SessionID c ≠ se_ID row) as Hnocp.
    { rewrite Hcp. intros c Hin' He. destruct (checkpoint_ok d σ ROWS c Hin') as (? & _ & _ & ? & ? & ? & ? & ? & ? & F & _).
      pose proof (cf_row _ _ _ _ _ _ _ F). congruence. }
    assert (∀ i, i ∈ d_inputs d' → ni_SessionID i ≠ se_ID row) as Hnoin.
    { rewrite Hin. intros i Hi He. pose proof (rw_inputs _ _ ROWS) as Hf. rewrite Forall_forall in Hf. destruct (Hf i Hi) as (_ & _ & [? ?]). congruence. }
    split.
    + by rewrite Hz.
    + intros c Hin' He. by destruct (Hnocp c Hin').
    + exists ∅. split; [|intros id; split; [by intros ?%elem_of_empty|intros (i & (Hi & He & _) & _); by destruct (Hnoin i Hi)]].
      unfold history. rewrite Hz, Hrow, Hroot. simpl. destruct seed as [sd|]; [|done].
      destruct (Hseed _ eq_refl) as (_ & _ & _ & (items & [] & Hopen) & _). by rewrite so_items.
    + intros i j (Hi & He & _). by destruct (Hnoin i Hi).
    + intros i (Hi & He & _). by destruct (Hnoin i Hi).
    + intros i Hi He. by destruct (Hnoin i Hi).
Qed.

(** ** Commits that keep the checkpoint *)
Lemma append_new d0 s i d1 : append_input s d0 i = Ok d1 → ni_ID i ∉ map ni_ID (d_inputs d0) →
  d1 = with_inputs d0 (d_inputs d0 ++ [i]) ∧ ni_SessionID i = s ∧ ni_ID i ≠ [].
Proof.
  intros Ha Hn. unfold append_input in Ha. case_bool_decide; [|done]. cbn [negb] in Ha. case_bool_decide; [done|].
  assert (find_input d0 (ni_ID i) = None) as Hf by (by apply find_absent). rewrite Hf in Ha. by injection Ha as <-.
Qed.
(** The parts of a commit that moves no checkpoint. *)
Lemma commit_parts s head n d' : nm_Checkpoint n = None → commit_native d s head None n = Ok d' →
  is_Some (d_sessions d !! s) ∧ cur d s = nm_Expected n ∧ nm_Consumed n = []
  ∧ ∃ d1 d2, res_fold (append_input s) d (nm_Inputs n) = Ok d1 ∧ res_fold (append_call s) d1 (nm_Calls n) = Ok d2
    ∧ match nm_Snapshot n with Some c => appendNativeSnapshot d2 s head n c | None => Ok d2 end = Ok d'.
Proof.
  intros Hc Hn. unfold commit_native in Hn. destruct (d_sessions d !! s) as [row|] eqn:Hr; [|done]. rewrite Hc in Hn. rewrite (cur_row _ _ _ Hr).
  case_bool_decide as He; [|done]. cbn [negb] in Hn. apply res_bind_ok in Hn as (d1 & H1 & Hn). apply res_bind_ok in Hn as (d2 & H2 & Hn).
  apply res_bind_ok in Hn as (d3 & H3 & Hn). cbn [res_bind] in Hn. destruct (nm_Consumed n); [|done]. cbn [res_fold res_bind] in Hn.
  apply res_bind_ok in Hn as (d4 & H4 & [= <-]). unfold consume_seed in H4. case_bool_decide; [|by case_match]. injection H4 as <-.
  split; [by eexists|]. split; [done|]. split; [done|]. exists d1, d2. done.
Qed.
Lemma add_input_ok i : input_ok i → ni_ID i ≠ [] → ni_ID i ∉ map ni_ID (d_inputs d) → ni_CallID i = [] → ni_ConsumedBy i = [] → is_Some (d_sessions d !! ni_SessionID i) →
  db_ok (with_inputs d (d_inputs d ++ [i])) σ ∧ evolve d (with_inputs d (d_inputs d ++ [i])).
Proof.
  intros Hok Hne Hn Hc Hb Hs. set (d' := with_inputs d (d_inputs d ++ [i])).
  assert (∀ s, cur d' s = cur d s) as Hcur by done.
  assert (evolve d d') as EV.
  { split; try (simpl; by eauto using row_step_refl, exchange_step_refl).
    - exists []. simpl. rewrite app_nil_r. split; [done|constructor].
    - intros id x Hx. exists x. split; [done|by left].
    - simpl. intros j Hj. exists j. split; [apply elem_of_app; by left|apply input_step_refl].
    - simpl. intros j [Hj| ->%list_elem_of_singleton]%elem_of_app; [left; exists j; split; [done|apply input_step_refl]|]. right. split_and!; [done|done|by left]. }
  split; [|done]. eapply (db_keep d _ σ σ OK EV); [done| |apply (do_named _ _ OK)|simpl; eauto 10|done|].
  - apply (rows_keep d _ σ σ OK EV); [done| |apply (rw_seeds _ _ ROWS)|apply (rw_exchanges _ _ ROWS)| | |].
    + simpl. intros s r Hs'. split; [by apply (rw_sessions _ _ ROWS)|congruence].
    + simpl. apply Forall_snoc; [apply (rw_inputs _ _ ROWS)|done].
    + simpl. rewrite map_app. apply NoDup_snoc; [apply (rw_ids _ _ ROWS)|done].
    + exists None. simpl. by rewrite app_nil_r.
  - simpl. intros s Hn' [r Hs']. congruence.
Qed.
(** The commit of an input that answers no call. *)
Lemma inputs_commit_ok s head e i d' : let n := {| nm_Expected := e; nm_Checkpoint := None; nm_Snapshot := None; nm_Inputs := [i]; nm_Calls := []; nm_Consumed := []; nm_ConsumeSeed := [] |} in
  commit_native d s head None n = Ok d' → input_ok i → (ni_ID i ≠ [] → ni_ID i ∉ map ni_ID (d_inputs d)) → ni_CallID i = [] → ni_ConsumedBy i = [] →
  db_ok d' σ ∧ evolve d d' ∧ d' = with_inputs d (d_inputs d ++ [i]) ∧ cur d s = e ∧ ni_SessionID i = s ∧ ni_ID i ≠ [].
Proof.
  intros n Hn Hok Hfresh Hc Hb. apply commit_parts in Hn as (Hs & Hcur & _ & d1 & d2 & H1 & H2 & H3); [|done]. subst n. cbn [nm_Inputs nm_Calls nm_Snapshot nm_Expected] in *.
  cbn [res_fold] in *. injection H2 as <-. injection H3 as <-. apply res_bind_ok in H1 as (d2 & H1 & [= <-]).
  assert (ni_ID i ≠ []) as Hne. { intros He. unfold append_input in H1. rewrite He in H1. by case_match. }
  apply append_new in H1 as (-> & Hsess & _); [|by apply Hfresh].
  destruct (add_input_ok i) as [D E]; [done|done|by apply Hfresh|done|done|by rewrite Hsess|]. done.
Qed.
(** Results written over their slots, calls closed, and a snapshot of the checkpoint. *)
Definition resealed (f : NativeInput → NativeInput) (calls : list NativeCall) (snapshot : option NativeCheckpoint) : ndb :=
  {| d_sessions := d_sessions d; d_exchanges := d_exchanges d; d_inputs := map f (d_inputs d); d_calls := put_calls calls (d_calls d);
     d_checkpoints := d_checkpoints d ++ option_list snapshot; d_seeds := d_seeds d |}.
Record snapshot_of (calls : list NativeCall) (n c : NativeCheckpoint) : Prop := {
  sn_from : c ∈ d_checkpoints d ∧ cp_ID c = cur d (cp_SessionID c);
  sn_id : cp_ID n ≠ [] ∧ cp_ID n ∉ map cp_ID (d_checkpoints d);
  sn_same : cp_SessionID n = cp_SessionID c ∧ cp_ParentID n = cp_ParentID c ∧ cp_ExchangeID n = cp_ExchangeID c ∧ cp_ResponseID n = cp_ResponseID c
    ∧ cp_SeedID n = cp_SeedID c;
  sn_calls : Forall (λ call, put_calls calls (d_calls d) !! call_key call = Some call ∧ nc_ExchangeID call = cp_ExchangeID c) (cp_Calls n)
}.
Lemma reseal_ok f calls snapshot :
  (∀ j, j ∈ d_inputs d → input_ok (f j) ∧ same_key j (f j) ∧ ni_ConsumedBy (f j) = ni_ConsumedBy j ∧ (f j = j ∨ ni_ConsumedBy j = [] ∧ call_pending d j)) →
  Forall (λ c, nc_Status c ≠ §"pending" ∧ ∃ c0, d_calls d !! call_key c = Some c0 ∧ nc_ResultInputID c = nc_ResultInputID c0) calls →
  (∀ n, snapshot = Some n → ∃ c, snapshot_of calls n c) → db_ok (resealed f calls snapshot) σ ∧ evolve d (resealed f calls snapshot).
Proof.
  intros Hf Hcalls Hsnap. set (d' := resealed f calls snapshot). assert (∀ s, cur d' s = cur d s) as Hcur by done. rewrite Forall_forall in Hcalls.
  assert (∀ j, j ∈ d_inputs d → input_step d d' j (f j)) as Hstep.
  { intros j Hj. destruct (Hf j Hj) as (_ & K & Hb & Hor). split; [done| |by left|].
    - intros Hne. by destruct Hor as [->|[? _]].
    - destruct Hor as [->|[_ ?]]; [by right|by left]. }
  assert (∀ k c', d_calls d' !! k = Some c' → (d_calls d !! k = Some c' ∨ nc_Status c' ≠ §"pending")
    ∧ ∃ c, d_calls d !! k = Some c ∧ nc_ExchangeID c' = nc_ExchangeID c ∧ nc_CallID c' = nc_CallID c ∧ nc_ResultInputID c' = nc_ResultInputID c) as Hback.
  { intros k c' [[Hc ->]|[Hk _]]%put_in; [|split; [by left|eauto 10]]. destruct (Hcalls c' Hc) as (Hp & c0 & Hc0 & He). split; [by right|].
    exists c0. destruct (do_calls _ _ OK _ _ Hc0) as ([= H1 H2] & _). split_and!; congruence. }
  assert (evolve d d') as EV.
  { split; try (simpl; by eauto using row_step_refl, exchange_step_refl).
    - exists (option_list snapshot). split; [done|]. destruct snapshot as [n|]; [|constructor]. apply Forall_singleton.
      destruct (Hsnap n eq_refl) as (c & [[Hc _] _ (E1 & E2 & _) _]). rewrite E1, E2, Hcur. destruct (checkpoint_ok d σ ROWS c Hc) as (? & _ & _ & row & ? & ? & ? & ? & ? & F & _).
      apply (ss_top _ _ _ (do_sessions _ _ OK (cp_SessionID c) (mk_is_Some _ _ (cf_row _ _ _ _ _ _ _ F)))); done.
    - intros id x Hx. exists x. split; [done|by left].
    - intros j Hj. exists (f j). split; [by apply list_elem_of_fmap_2|by apply Hstep].
    - intros j (i & -> & Hi)%list_elem_of_fmap. left. exists i. split; [done|by apply Hstep].
    - intros k c Hk. destruct (put_some calls (d_calls d) k c Hk) as (c' & Hc' & Hor). exists c'. split; [done|]. destruct Hor as [->|[Hin ->]]; [done|].
      destruct (Hcalls c' Hin) as (_ & c0 & Hc0 & ->). congruence.
    - intros k c' Hk Hp. left. destruct (Hback k c' Hk) as [[?|?] _]; [eauto|done]. }
  split; [|done]. eapply (db_keep d _ σ σ OK EV); [done| |apply (do_named _ _ OK)|intros k c' Hk; by apply Hback|done|].
  - apply (rows_keep d _ σ σ OK EV); [done| |apply (rw_seeds _ _ ROWS)|apply (rw_exchanges _ _ ROWS)| | |].
    + simpl. intros s r Hs'. split; [by apply (rw_sessions _ _ ROWS)|congruence].
    + simpl. rewrite Forall_forall. intros j (i & -> & Hi)%list_elem_of_fmap. destruct (Hf i Hi) as (Hok & (K1 & K2 & _) & _).
      pose proof (rw_inputs _ _ ROWS) as Hall. rewrite Forall_forall in Hall. destruct (Hall i Hi) as (_ & ? & ?). by rewrite <- K1, <- K2.
    + simpl. replace (map ni_ID (map f (d_inputs d))) with (map ni_ID (d_inputs d)); [apply (rw_ids _ _ ROWS)|].
      rewrite map_map. apply map_ext_in. intros j Hj%list_elem_of_In. by destruct (Hf j Hj) as (_ & (K & _) & _).
    + exists snapshot. split; [done|]. intros n ->. destruct (Hsnap n eq_refl) as (c & [[Hc _] [Hne Hnew] (E1 & E2 & E3 & E4 & E5) Hsn]).
      apply list_elem_of_split in Hc as (before & after & He). apply (cp_ok_snapshot d' σ before c); [by eapply (cp_ok_keep d d' σ σ OK EV)| | | | |]; try done.
      { rewrite He. intros q Hq. apply elem_of_app. by left. }
      eapply Forall_impl; [exact Hsn|]. intros call [Hk Hex]. destruct (Hback (call_key call) call Hk) as (_ & c0 & Hc0 & _ & _ & Hres).
      destruct (do_calls _ _ OK _ _ Hc0) as ([= K1 K2] & _ & cp & Hcp & Hcpe & Hcall).
      assert (cp_SessionID cp = cp_SessionID c) as Hss.
      { apply (exchange_shared d σ ROWS); [done|rewrite He, elem_of_app; right; left|congruence]. }
      destruct (call_ok_keep d d' EV _ _ _ Hcall) as (_ & i & Hi & I1 & I2 & I3 & I4 & I5). split; [done|]. exists i. split; [done|]. split_and!; congruence.
  - simpl. intros s Hn' [r Hs']. congruence.
Qed.
Lemma input_ok_ext i j : ni_Item i = ni_Item j → ni_Media i = ni_Media j → ni_MessageID i = ni_MessageID j → ni_ExchangeID i = ni_ExchangeID j → ni_CallID i = ni_CallID j →
  input_ok i → input_ok j.
Proof.
  intros E1 E2 E3 E4 E5 [(segs & Hd) Hr Hc]. rewrite E1 in *. split; [|done..]. exists segs. rewrite <- Hd. unfold decodeQueuedInput, inputSegments.
  by rewrite E1, E2, E3, E4, E5.
Qed.
(** The text of a result that is still open is replaced. *)
Definition replaced (i : NativeInput) (j : NativeInput) : NativeInput := if bool_decide (ni_ID j = ni_ID i) then replace_text j i else j.
Lemma append_old s i old d1 : append_input s d i = Ok d1 → old ∈ d_inputs d → ni_ID old = ni_ID i → input_ok i →
  d1 = with_inputs d (map (replaced i) (d_inputs d)) ∧ call_pending d old
  ∧ ∀ j, j ∈ d_inputs d → input_ok (replaced i j) ∧ same_key j (replaced i j) ∧ ni_ConsumedBy (replaced i j) = ni_ConsumedBy j
      ∧ (replaced i j = j ∨ ni_ConsumedBy j = [] ∧ call_pending d j).
Proof.
  intros Ha Hold Hid Hi. unfold append_input in Ha. destruct (negb _); [done|]. destruct (bool_decide (ni_ID i = [])); [done|]. rewrite <- Hid, (find_input_in d σ ROWS old Hold) in Ha.
  destruct (replaceable d old i) eqn:Hr; [|done]. injection Ha as <-. unfold replaceable in Hr. repeat (apply andb_true_iff in Hr as [Hr ?]).
  apply bool_decide_eq_true in Hr. repeat match goal with H : bool_decide _ = true |- _ => apply bool_decide_eq_true in H end.
  assert (call_pending d old) as Hp.
  { unfold call_pending. destruct (d_calls d !! _) as [c|]; [|done]. exists c. split; [done|]. match goal with H : _ && _ = true |- _ => apply andb_true_iff in H as [_ H]; by apply bool_decide_eq_true in H end. }
  split; [unfold replaced; by rewrite Hid|]. split; [done|]. intros j Hj. unfold replaced. case_bool_decide as He.
  - assert (j = old) as -> by (apply (map_unique ni_ID (d_inputs d)); [apply (rw_ids _ _ ROWS)|done|done|congruence]).
    split; [|split; [by split_and!|split; [done|by right]]]. by apply (input_ok_ext i).
  - split; [exact (proj1 (input_ok_in d σ ROWS j Hj))|]. split; [by split_and!|]. split; [done|by left].
Qed.
Lemma snapshot_shape s head n sn d2 d' : appendNativeSnapshot d2 s head n sn = Ok d' →
  ∃ c, find_checkpoint d2 (nm_Expected n) = Some c ∧ cp_SessionID c = s ∧ cp_ID sn ≠ [] ∧ cp_SessionID sn = s ∧ cp_ID sn ∉ map cp_ID (d_checkpoints d2)
    ∧ cp_ParentID sn = cp_ParentID c ∧ cp_ExchangeID sn = cp_ExchangeID c ∧ cp_ResponseID sn = cp_ResponseID c ∧ cp_SeedID sn = cp_SeedID c
    ∧ d' = with_checkpoint d2 (with_cp_calls sn (Calls d2 (cp_ExchangeID c))).
Proof.
  intros Ha. unfold appendNativeSnapshot in Ha. destruct (nm_Checkpoint n); [done|]. cbn [orb] in Ha.
  case_match eqn:Hg; [done|]. propify. destruct Hg as [[[[Hg1 Hg2] Hg3] Hg4] Hg5].
  destruct (find_checkpoint d2 (nm_Expected n)) as [c|] eqn:Hf; [|done].
  case_match eqn:Hm; [done|]. propify. destruct Hm as [[[[M1 M2] M3] M4] M5].
  unfold insert_checkpoint in Ha. cbn [cp_ID with_cp_calls] in Ha. destruct (find_checkpoint d2 (cp_ID sn)) eqn:Hn; [done|]. injection Ha as <-.
  exists c. apply find_absent in Hn. by split_and!.
Qed.
(** The commit of a result, or of the interruption of a batch. *)
Lemma reseal_commit_ok s head n d' : commit_native d s head None n = Ok d' → nm_Checkpoint n = None →
  (nm_Inputs n = [] ∨ ∃ i old, nm_Inputs n = [i] ∧ input_ok i ∧ old ∈ d_inputs d ∧ ni_ID old = ni_ID i) →
  Forall (λ c, nc_Status c ≠ §"pending" ∧ ∃ c0, d_calls d !! call_key c = Some c0 ∧ nc_ResultInputID c = nc_ResultInputID c0) (nm_Calls n) →
  db_ok d' σ ∧ evolve d d' ∧ cur d s = nm_Expected n ∧ d_calls d' = put_calls (nm_Calls n) (d_calls d)
  ∧ (∀ i old, nm_Inputs n = [i] → old ∈ d_inputs d → ni_ID old = ni_ID i → call_pending d old) ∧ map ni_ID (d_inputs d') = map ni_ID (d_inputs d).
Proof.
  intros Hn Hc Hi Hcalls. apply commit_parts in Hn as (Hs & Hcur & _ & d1 & d2 & H1 & H2 & H3); [|done].
  assert (∃ f, d1 = with_inputs d (map f (d_inputs d)) ∧ (∀ j, j ∈ d_inputs d → input_ok (f j) ∧ same_key j (f j) ∧ ni_ConsumedBy (f j) = ni_ConsumedBy j
      ∧ (f j = j ∨ ni_ConsumedBy j = [] ∧ call_pending d j)) ∧ (∀ i old, nm_Inputs n = [i] → old ∈ d_inputs d → ni_ID old = ni_ID i → call_pending d old)) as (f & -> & Hf & Hopen).
  { destruct Hi as [Hi|(i & old & Hi & Hok & Hold & Hid)]; rewrite Hi in *; cbn [res_fold] in H1.
    - injection H1 as <-. exists id. split; [by destruct d; unfold with_inputs; simpl; rewrite map_id|]. split; [|done]. intros j Hj.
      split; [exact (proj1 (input_ok_in d σ ROWS j Hj))|]. split; [by split_and!|]. split; [done|by left].
    - apply res_bind_ok in H1 as (d3 & H1 & [= <-]). destruct (append_old s i old d3 H1 Hold Hid Hok) as (-> & Hp & Hf). exists (replaced i). split; [done|].
      split; [done|]. intros i' old' [= <-] Hold' Hid'. by assert (old' = old) as -> by (apply (map_unique ni_ID (d_inputs d)); [apply (rw_ids _ _ ROWS)|done|done|congruence]). }
  apply append_calls_shape in H2 as [-> _]. cbn [d_calls with_inputs with_calls] in *.
  assert (∃ snap, d' = resealed f (nm_Calls n) snap ∧ ∀ sn, snap = Some sn → ∃ c, snapshot_of (nm_Calls n) sn c) as (snap & -> & Hsnap).
  { destruct (nm_Snapshot n) as [sn|].
    - apply snapshot_shape in H3 as (c & Hfind & Hsess & Hne & Hsess' & Hnew & E1 & E2 & E3 & E4 & ->). apply find_some in Hfind as [Hcin Hcid].
      eexists (Some _). split; [reflexivity|]. intros sn' [= <-]. exists c. split; simpl; [|done| |].
      + split; [done|]. by rewrite Hsess, Hcur.
      + by split_and!; [congruence|..].
      + rewrite Forall_forall. intros call [He [k Hk]]%Calls_in. split; [|done]. simpl in Hk. assert (k = call_key call) as <-; [|done].
        apply put_in in Hk as [[_ ->]|[Hk _]]; [done|]. by destruct (do_calls _ _ OK _ _ Hk) as [-> _].
    - injection H3 as <-. exists None. split; [|done]. unfold resealed. simpl. by rewrite app_nil_r. }
  destruct (reseal_ok f (nm_Calls n) snap Hf Hcalls Hsnap) as [D E]. split_and!; try done. simpl.
  rewrite map_map. apply map_ext_in. intros j Hj%list_elem_of_In. by destruct (Hf j Hj) as (_ & (<- & _) & _).
Qed.
End Tables.

(** ** Commits that move the checkpoint *)
(** The inputs a commit consumes. *)
Definition taken (e : gostring) (ids : list gostring) (j : NativeInput) : NativeInput :=
  if bool_decide (ni_ID j ∈ ids)
  then {| ni_ID := ni_ID j; ni_SessionID := ni_SessionID j; ni_MessageID := ni_MessageID j; ni_ExchangeID := ni_ExchangeID j; ni_CallID := ni_CallID j;
          ni_Item := ni_Item j; ni_Media := ni_Media j; ni_ConsumedBy := e; ni_CreatedAt := ni_CreatedAt j |}
  else j.
Lemma taken_key e ids j : same_key j (taken e ids j) ∧ ni_Item (taken e ids j) = ni_Item j ∧ ni_Media (taken e ids j) = ni_Media j.
Proof. unfold taken. by case_bool_decide; split_and!. Qed.
Lemma taken_none e l : map (taken e []) l = l.
Proof. rewrite <- (map_id l) at 2. apply map_ext. intros j. unfold taken. by rewrite bool_decide_eq_false_2 by apply not_elem_of_nil. Qed.
Lemma consume_shape s e : ∀ ids d0 d1, res_fold (consume_input s e) d0 ids = Ok d1 → d1 = with_inputs d0 (map (taken e ids) (d_inputs d0)).
Proof.
  induction ids as [|id ids IH]; intros d0 d1 Hf; cbn [res_fold] in Hf.
  { injection Hf as <-. rewrite taken_none. by destruct d0. }
  apply res_bind_ok in Hf as (d2 & Hc & Hf). unfold consume_input in Hc. destruct (find_input d0 id); [|done].
  destruct (_ && _); [|done]. injection Hc as <-. apply IH in Hf as ->. unfold with_inputs. simpl. f_equal. rewrite map_map. apply map_ext. intros j.
  unfold taken. destruct (decide (ni_ID j = id)) as [He|He].
  - rewrite (bool_decide_eq_true_2 (ni_ID j = id)) by done. simpl. rewrite (bool_decide_eq_true_2 (ni_ID j ∈ id :: ids)) by (rewrite He; left).
    by case_bool_decide.
  - rewrite (bool_decide_eq_false_2 (ni_ID j = id)) by done. destruct (decide (ni_ID j ∈ ids)) as [Hi|Hi].
    + rewrite !bool_decide_eq_true_2; [done|by right|done].
    + rewrite !bool_decide_eq_false_2; [done|by apply not_elem_of_cons|done].
Qed.
Lemma append_all_new s : ∀ ins d0 d1, res_fold (append_input s) d0 ins = Ok d1 → NoDup (map ni_ID ins) → (∀ i, i ∈ ins → ni_ID i ∉ map ni_ID (d_inputs d0)) →
  d1 = with_inputs d0 (d_inputs d0 ++ ins) ∧ Forall (λ i, ni_SessionID i = s ∧ ni_ID i ≠ []) ins.
Proof.
  induction ins as [|i ins IH]; intros d0 d1 Hf Hd Hn; cbn [res_fold] in Hf.
  { injection Hf as <-. rewrite app_nil_r. split; [by destruct d0|constructor]. }
  apply res_bind_ok in Hf as (d2 & Ha & Hf). apply append_new in Ha as (-> & Hs & Hne); [|apply Hn; left]. apply NoDup_cons in Hd as [Hd1 Hd2].
  apply IH in Hf as [-> Hf]; [|done|].
  - simpl. rewrite <- app_assoc. split; [done|]. by constructor.
  - simpl. intros j Hj. rewrite map_app. intros [Hin|Hin%list_elem_of_singleton]%elem_of_app; [by apply (Hn j); [right|]|].
    apply Hd1. rewrite <- Hin. by apply (list_elem_of_fmap_2 ni_ID).
Qed.
(** The database after a commit with a checkpoint. *)
Lemma advance_shape d s head n c d' : (∀ id sd, d_seeds d !! id = Some sd → sd_ID sd = id) → commit_native d s head None n = Ok d' → nm_Checkpoint n = Some c → nm_Snapshot n = None →
  NoDup (map ni_ID (nm_Inputs n)) → (∀ i, i ∈ nm_Inputs n → ni_ID i ∉ map ni_ID (d_inputs d)) →
  ∃ row seeds, d_sessions d !! s = Some row ∧ cur d s = nm_Expected n ∧ Forall (λ i, ni_SessionID i = s ∧ ni_ID i ≠ []) (nm_Inputs n)
    ∧ cp_SessionID c = se_ID row ∧ cp_ParentID c = nm_Expected n ∧ cp_SeedID c = default [] (se_Seed row)
    ∧ cp_ID c ∉ map cp_ID (d_checkpoints d) ∧ Forall (λ k, nc_CallID k ≠ []) (nm_Calls n)
    ∧ (∀ id sd, d_seeds d !! id = Some sd → ∃ sd', seeds !! id = Some sd' ∧ seed_step sd sd')
    ∧ (∀ id sd, seeds !! id = Some sd → sd_ID sd = id)
    ∧ d' = {| d_sessions := <[se_ID row := compact_done (set_checkpoint row (cp_ID c)) (nm_ConsumeSeed n)]> (d_sessions d); d_exchanges := d_exchanges d;
             d_inputs := map (taken (cp_ExchangeID c) (nm_Consumed n)) (d_inputs d ++ nm_Inputs n); d_calls := put_calls (nm_Calls n) (d_calls d);
             d_checkpoints := d_checkpoints d ++ [with_cp_calls c (nm_Calls n)]; d_seeds := seeds |}.
Proof.
  intros Hids Hn Hc Hsn Hd Hnew. unfold commit_native in Hn. destruct (d_sessions d !! s) as [row|] eqn:Hr; [|done]. rewrite Hc, Hsn in Hn. rewrite (cur_row _ _ _ Hr).
  case_bool_decide as He; [|done]. cbn [negb] in Hn. apply res_bind_ok in Hn as (d1 & H1 & Hn). apply append_all_new in H1 as [-> Hins]; [|done..].
  apply res_bind_ok in Hn as (d2 & H2 & Hn). apply append_calls_shape in H2 as [-> Hcalls]. cbn [res_bind] in Hn.
  apply res_bind_ok in Hn as (d3 & H3 & Hn). unfold advance_checkpoint in H3. case_match eqn:Hg; [done|]. propify. destruct Hg as [[G1 G2] G3].
  destruct (d_exchanges _ !! cp_ExchangeID c) as [x|] eqn:Hx; [|done]. case_match; [done|]. case_bool_decide as Hseed; [|done]. cbn [negb] in H3.
  unfold insert_checkpoint in H3. destruct (find_checkpoint _ _) eqn:Hf; [done|]. injection H3 as <-. apply find_absent in Hf.
  apply res_bind_ok in Hn as (d4 & H4 & Hn). apply consume_shape in H4 as ->. apply res_bind_ok in Hn as (d5 & H5 & [= <-]).
  assert (∃ seeds, d5 = {| d_sessions := d_sessions d; d_exchanges := d_exchanges d; d_inputs := map (taken (cp_ExchangeID c) (nm_Consumed n)) (d_inputs d ++ nm_Inputs n);
      d_calls := put_calls (nm_Calls n) (d_calls d); d_checkpoints := d_checkpoints d ++ [with_cp_calls c (nm_Calls n)]; d_seeds := seeds |}
    ∧ (∀ id sd, d_seeds d !! id = Some sd → ∃ sd', seeds !! id = Some sd' ∧ seed_step sd sd') ∧ (∀ id sd, seeds !! id = Some sd → sd_ID sd = id))
    as (seeds & -> & Hseeds & Hseed_ids).
  { unfold consume_seed in H5. case_bool_decide.
    - injection H5 as <-. exists (d_seeds d). split; [done|]. split; [|done]. intros id sd Hsd. exists sd. split; [done|by left].
    - case_match; [done|]. cbn [d_seeds with_inputs with_checkpoint with_calls] in H5. destruct (d_seeds d !! nm_ConsumeSeed n) as [sd|] eqn:Hsd; [|done].
      case_match; [|done]. injection H5 as <-. eexists. split; [reflexivity|]. simpl. split; [|intros id sd0 [[<- <-]|[_ Hsd0]]%lookup_insert_Some; [done|by apply Hids]]. intros id sd0 Hsd0.
      pose proof (Hids _ _ Hsd) as Hid. destruct (decide (sd_ID sd = id)) as [He'|Hne]; [|rewrite lookup_insert_ne by done; exists sd0; split; [done|by left]].
      assert (sd0 = sd) as -> by congruence. rewrite He'. rewrite lookup_insert_eq. eexists. split; [done|]. right. unfold seed_consumed. by rewrite He'. }
  exists row, seeds. split_and!; try done. eapply Forall_impl; [exact Hcalls|]. by intros call [? _].
Qed.
(** What a turn knows when it commits a response: the exchange [x] with the items [outs], the inputs [ins] it consumed, and the calls with their slots. *)
Record response_ready `{UnicodeTables} (d : ndb) (σ : memory) (s : gostring) (row : session_row) (o : LLMOrigin) (x : NativeExchange) (outs : list jv)
  (ins : list NativeInput) (c : NativeCheckpoint) : Prop := {
  rr_row : d_sessions d !! s = Some row;
  rr_origin : se_Origin row = Some o;
  rr_complete : or_APIType o = api_response ∧ or_Provider o ≠ [];
  rr_version : se_Seed row = None → se_Version row = inputFormatVersion;
  rr_checkpoint : cp_ID c ≠ [] ∧ cp_ID c ∉ map cp_ID (d_checkpoints d) ∧ cp_SessionID c = s ∧ cp_ParentID c = cur d s ∧ cp_ExchangeID c = nx_ID x
    ∧ cp_SeedID c = default [] (se_Seed row) ∧ cp_ResponseID c ≠ [];
  rr_exchange : d_exchanges d !! nx_ID x = Some x ∧ nx_SessionID x = s ∧ nx_Status x = §"completed" ∧ nx_Previous x = cur d s
    ∧ nx_APIType x = or_APIType o ∧ nx_Provider x = or_Provider o;
  rr_response : ∃ r, nx_Response x = Json r ∧ rs_ID r = cp_ResponseID c ∧ rs_Status r = §"completed";
  rr_items : nx_Items x = Json outs ∧ Forall parses outs;
  rr_manifest : nx_InputIDs x = map ni_ID ins ∧ NoDup (map ni_ID ins);
  rr_inputs : Forall (λ i, i ∈ d_inputs d ∧ ni_ConsumedBy i = [] ∧ ni_SessionID i = s) ins;
  rr_answers : ∀ i, pending_result d s i → i ∈ ins;
  rr_memory : σ !! cp_ResponseID c = Some (history d σ s ++ map ni_Item ins ++ outs)
}.
Record slots_ready `{UnicodeTables} (d : ndb) (s : gostring) (x : NativeExchange) (outs : list jv) (calls : list NativeCall) (new : list NativeInput) : Prop := {
  sr_links : open_calls outs ∅ = Ok (list_to_set (map nc_CallID calls)) ∧ NoDup (map nc_CallID calls) ∧ Forall (λ k, nc_CallID k ≠ []) calls;
  sr_calls : Forall2 (λ k i, nc_ExchangeID k = nx_ID x ∧ nc_Status k = §"pending" ∧ nc_ResultInputID k = ni_ID i ∧ ni_CallID i = nc_CallID k
    ∧ ni_ExchangeID i = nx_ID x) calls new;
  sr_inputs : Forall (λ i, ni_SessionID i = s ∧ ni_ConsumedBy i = [] ∧ input_ok i ∧ ni_ID i ≠ [] ∧ ni_ID i ∉ map ni_ID (d_inputs d)) new;
  sr_ids : NoDup (map ni_ID new)
}.
(** The conversation of a session with inputs that hold every waiting result has no open calls. *)
Lemma held_close `{UnicodeTables} d σ (OK : db_ok d σ) s ins : is_Some (d_sessions d !! s) → Forall (λ i, i ∈ d_inputs d ∧ ni_ConsumedBy i = [] ∧ ni_SessionID i = s) ins →
  NoDup (map ni_ID ins) → (∀ i, pending_result d s i → i ∈ ins) → open_calls (history d σ s ++ map ni_Item ins) ∅ = Ok ∅.
Proof.
  intros Hs Hins Hd Hall. destruct (do_sessions _ _ OK s Hs). destruct ss_links0 as (op & Hop & Hlinks). rewrite Forall_forall in Hins.
  assert (∀ i, i ∈ ins → ni_CallID i ≠ [] → pending_result d s i) as Hp. { intros i Hi Hc. destruct (Hins i Hi) as (? & ? & ?). by split_and!. }
  assert (∀ id, id ∈ answered ins ↔ id ∈ op) as Ha.
  { intros id. rewrite answered_in, Hlinks. split.
    - intros (Hne & i & Hi & <-). eauto.
    - intros (i & Hi & <-). split; [apply Hi|]. exists i. split; [|done]. by apply Hall. }
  rewrite open_calls_app, Hop. cbn [res_bind]. rewrite open_inputs.
  - f_equal. apply set_eq. intros id. rewrite elem_of_difference, elem_of_list_to_set, Ha. set_solver.
  - rewrite Forall_forall. intros i Hi. apply (input_ok_in d σ (do_rows _ _ OK) i), Hins, Hi.
  - apply answered_once; [done|]. intros i j Hi Hj Hc He. apply ss_one0; [by apply Hp|apply Hp; [done|congruence]|done].
  - intros id. rewrite elem_of_list_to_set, Ha. done.
Qed.
Section Advance.
Context `{UnicodeTables} (d : ndb) (σ : memory) (OK : db_ok d σ) (s : gostring) (row : session_row) (o : LLMOrigin) (x : NativeExchange) (outs : list jv)
  (ins new : list NativeInput) (calls : list NativeCall) (c : NativeCheckpoint) (seeds : gmap gostring NativeSeed) (done_seed : gostring)
  (READY : response_ready d σ s row o x outs ins c) (SLOTS : slots_ready d s x outs calls new)
  (SEEDS : ∀ id sd, d_seeds d !! id = Some sd → ∃ sd', seeds !! id = Some sd' ∧ seed_step sd sd')
  (SEED_IDS : ∀ id sd, seeds !! id = Some sd → sd_ID sd = id).
Let ROWS : rows_ok d σ := do_rows d σ OK.
Let row' : session_row := compact_done (set_checkpoint row (cp_ID c)) done_seed.
Let c' : NativeCheckpoint := with_cp_calls c calls.
Let take_ (j : NativeInput) : NativeInput := taken (nx_ID x) (map ni_ID ins) j.
Definition advanced : ndb :=
  {| d_sessions := <[se_ID row := row']> (d_sessions d); d_exchanges := d_exchanges d; d_inputs := map take_ (d_inputs d ++ new); d_calls := put_calls calls (d_calls d);
     d_checkpoints := d_checkpoints d ++ [c']; d_seeds := seeds |}.
Lemma row_id : se_ID row = s.
Proof using OK READY. apply (rw_sessions _ _ ROWS), (rr_row _ _ _ _ _ _ _ _ _ READY). Qed.
Lemma exchange_id : nx_ID x ≠ [].
Proof using OK READY. destruct (rr_exchange _ _ _ _ _ _ _ _ _ READY) as (Hx & _). by apply (rw_exchanges _ _ ROWS) in Hx as [_ ?]. Qed.
Lemma not_committed : uncommitted d (nx_ID x).
Proof using OK READY.
  intros cp Hcp He. destruct (rr_exchange _ _ _ _ _ _ _ _ _ READY) as (Hx & Hs & _ & Hp & _).
  destruct (checkpoint_facts d σ ROWS cp Hcp) as (r & o' & x' & outs' & ins' & []). rewrite He, Hx in cf_exchange. injection cf_exchange as <-.
  apply (ss_top d σ s (do_sessions _ _ OK s (mk_is_Some _ _ (rr_row _ _ _ _ _ _ _ _ _ READY))) cp Hcp); congruence.
Qed.
Lemma advanced_cur s' : cur advanced s' = if bool_decide (s' = s) then cp_ID c else cur d s'.
Proof using OK READY.
  unfold cur, advanced. simpl. rewrite row_id. case_bool_decide as He; [subst; by rewrite lookup_insert_eq|by rewrite lookup_insert_ne].
Qed.
Lemma fresh_cur : cp_ID c ≠ cur d s.
Proof using OK READY.
  destruct (rr_checkpoint _ _ _ _ _ _ _ _ _ READY) as (Hne & Hnew & _). intros He.
  destruct (ss_current d σ s (do_sessions _ _ OK s (mk_is_Some _ _ (rr_row _ _ _ _ _ _ _ _ _ READY)))) as (cp & Hcp & Hid & _); [by rewrite <- He|].
  apply Hnew. rewrite He, <- Hid. by apply (list_elem_of_fmap_2 cp_ID).
Qed.
(** An input of the database and whether the commit takes it. *)
Lemma take_cases j : j ∈ d_inputs d →
  j ∈ ins ∧ ni_ConsumedBy j = [] ∧ ni_SessionID j = s ∧ ni_ConsumedBy (take_ j) = nx_ID x ∨ j ∉ ins ∧ take_ j = j.
Proof using OK READY.
  intros Hj. unfold take_, taken. case_bool_decide as Hin.
  - left. apply list_elem_of_fmap in Hin as (i & He & Hi). pose proof (rr_inputs _ _ _ _ _ _ _ _ _ READY) as Hins. rewrite Forall_forall in Hins.
    destruct (Hins i Hi) as (Hi' & Hb & Hs). assert (j = i) as -> by (apply (map_unique ni_ID (d_inputs d)); [apply (rw_ids _ _ ROWS)|done..]). done.
  - right. split; [|done]. intros Hj'. apply Hin. by apply (list_elem_of_fmap_2 ni_ID).
Qed.
Lemma take_new j : j ∈ new → take_ j = j.
Proof using OK READY SLOTS.
  intros Hj. unfold take_, taken. rewrite bool_decide_eq_false_2; [done|]. intros (i & He & Hi)%list_elem_of_fmap.
  pose proof (rr_inputs _ _ _ _ _ _ _ _ _ READY) as Hins. rewrite Forall_forall in Hins. destruct (Hins i Hi) as (Hi' & _).
  pose proof (sr_inputs _ _ _ _ _ _ SLOTS) as Hnew. rewrite Forall_forall in Hnew. destruct (Hnew j Hj) as (_ & _ & _ & _ & Hn). apply Hn. rewrite He.
  by apply (list_elem_of_fmap_2 ni_ID).
Qed.
Lemma advanced_inputs i : i ∈ d_inputs advanced ↔ (∃ j, j ∈ d_inputs d ∧ i = take_ j) ∨ i ∈ new.
Proof using OK READY SLOTS.
  unfold advanced. simpl. rewrite list_elem_of_fmap. split.
  - intros (j & -> & [Hj|Hj]%elem_of_app); [left; eauto|right]. by rewrite take_new.
  - intros [(j & Hj & ->)|Hi]; [exists j; split; [done|apply elem_of_app; by left]|]. exists i. rewrite take_new by done. split; [done|apply elem_of_app; by right].
Qed.
Lemma slot_call k : k ∈ calls → ∃ i, i ∈ new ∧ nc_ExchangeID k = nx_ID x ∧ nc_Status k = §"pending" ∧ nc_ResultInputID k = ni_ID i ∧ ni_CallID i = nc_CallID k
  ∧ ni_ExchangeID i = nx_ID x.
Proof using SLOTS.
  intros [n Hn]%list_elem_of_lookup. destruct (Forall2_lookup_l _ _ _ _ _ (sr_calls _ _ _ _ _ _ SLOTS) Hn) as (i & Hi & ?). exists i.
  split; [by eapply list_elem_of_lookup_2|done].
Qed.
Lemma slot_input i : i ∈ new → ∃ k, k ∈ calls ∧ nc_ExchangeID k = nx_ID x ∧ nc_ResultInputID k = ni_ID i ∧ ni_CallID i = nc_CallID k ∧ ni_ExchangeID i = nx_ID x.
Proof using SLOTS.
  intros [n Hn]%list_elem_of_lookup. destruct (Forall2_lookup_r _ _ _ _ _ (sr_calls _ _ _ _ _ _ SLOTS) Hn) as (k & Hk & ? & _ & ?). exists k.
  split; [by eapply list_elem_of_lookup_2|done].
Qed.
Lemma take_step j : j ∈ d_inputs d → input_step d advanced j (take_ j).
Proof using OK READY.
  intros Hj. destruct (taken_key (nx_ID x) (map ni_ID ins) j) as (K & Hi & Hm). destruct (take_cases j Hj) as [(_ & Hb & Hs & Hx)|[_ He]].
  - split; [done|by rewrite Hb| |by right]. right. split; [done|]. rewrite Hs, advanced_cur, bool_decide_eq_true_2 by done. split; [apply fresh_cur|].
    rewrite Hx. apply not_committed.
  - rewrite He. apply input_step_refl.
Qed.
Lemma advanced_evolve : evolve d advanced.
Proof using OK READY SLOTS SEEDS.
  pose proof (rr_row _ _ _ _ _ _ _ _ _ READY) as Hrow. destruct (rr_checkpoint _ _ _ _ _ _ _ _ _ READY) as (Hne & Hnew & Hcs & Hcp & _). split.
  - intros s' r Hr. unfold advanced. simpl. rewrite row_id. destruct (decide (s = s')) as [<-|Hd]; [|rewrite lookup_insert_ne by done; eauto using row_step_refl].
    rewrite lookup_insert_eq. exists row'. split; [done|]. assert (r = row) as -> by congruence. by split_and!.
  - simpl. eauto using exchange_step_refl.
  - exists [c']. split; [done|]. apply Forall_singleton. rewrite advanced_cur. simpl. rewrite Hcs, Hcp, bool_decide_eq_true_2 by done. intros He. by apply fresh_cur.
  - intros s' _. rewrite advanced_cur. case_bool_decide; [by right|by left].
  - exact SEEDS.
  - intros i Hi. exists (take_ i). split; [apply advanced_inputs; left; eauto|by apply take_step].
  - intros i Hi. apply advanced_inputs in Hi as [(j & Hj & ->)|Hi]; [left; exists j; split; [done|by apply take_step]|]. right.
    pose proof (sr_inputs _ _ _ _ _ _ SLOTS) as Hins. rewrite Forall_forall in Hins. destruct (Hins i Hi) as (Hs & Hb & _ & _ & Hn). split_and!; [done..|].
    right. rewrite Hs, advanced_cur, bool_decide_eq_true_2 by done. apply fresh_cur.
  - simpl. intros k k0 Hk. destruct (put_some calls (d_calls d) k k0 Hk) as (k1 & Hk1 & Hor). exists k1. split; [done|]. destruct Hor as [->|[Hin ->]]; [done|].
    destruct (do_calls _ _ OK _ _ Hk) as ([= E1 _] & _ & cp & Hcp' & He & _). destruct (not_committed cp Hcp'). rewrite He, <- E1.
    by destruct (slot_call k1 Hin) as (i & _ & -> & _).
  - simpl. intros k k1 Hk Hp. apply put_in in Hk as [[Hin ->]|[Hk _]]; [|left; eauto]. right. simpl.
    destruct (slot_call k1 Hin) as (i & _ & -> & _). apply not_committed.
Qed.
Lemma new_input i : i ∈ new → ni_SessionID i = s ∧ ni_ConsumedBy i = [] ∧ input_ok i ∧ ni_ID i ≠ [] ∧ ni_ID i ∉ map ni_ID (d_inputs d).
Proof using SLOTS. pose proof (sr_inputs _ _ _ _ _ _ SLOTS) as Hf. rewrite Forall_forall in Hf. apply Hf. Qed.
Lemma new_call_ok : Forall (call_ok advanced s (nx_ID x)) calls.
Proof using OK READY SLOTS.
  rewrite Forall_forall. intros k Hk. destruct (slot_call k Hk) as (i & Hi & He & _ & Hr & Hc & Hx). split; [done|]. exists i. split; [apply advanced_inputs; by right|].
  destruct (new_input i Hi) as (Hs & _), (sr_links _ _ _ _ _ _ SLOTS) as (_ & _ & Hne). rewrite Forall_forall in Hne. split_and!; try done. by apply Hne.
Qed.
Lemma consumed_inputs i : i ∈ map take_ ins ↔ i ∈ d_inputs advanced ∧ ni_ConsumedBy i = nx_ID x.
Proof using OK READY SLOTS.
  rewrite advanced_inputs, list_elem_of_fmap. pose proof (rr_inputs _ _ _ _ _ _ _ _ _ READY) as Hins. rewrite Forall_forall in Hins. split.
  - intros (j & -> & Hj). destruct (Hins j Hj) as (Hin & _). split; [left; eauto|]. by destruct (take_cases j Hin) as [(_ & _ & _ & ?)|[? _]].
  - intros [[(j & Hj & ->)|Hn] Hb]; [|destruct (new_input i Hn) as (_ & Hz & _); by destruct exchange_id; congruence].
    destruct (take_cases j Hj) as [(? & _)|[_ He]]; [eauto|]. rewrite He in Hb.
    destruct (do_consumed _ _ OK j Hj) as (cp & Hcp & Hcx); [rewrite Hb; apply exchange_id|]. destruct (not_committed cp Hcp). congruence.
Qed.
Lemma row_new : d_sessions advanced !! s = Some row'.
Proof using OK READY. unfold advanced. simpl. by rewrite row_id, lookup_insert_eq. Qed.
Lemma items_taken : map ni_Item (map take_ ins) = map ni_Item ins.
Proof. unfold take_. rewrite map_map. apply map_ext. intros j. by destruct (taken_key (nx_ID x) (map ni_ID ins) j) as (_ & -> & _). Qed.
Lemma ids_taken l : map ni_ID (map take_ l) = map ni_ID l.
Proof. unfold take_. rewrite map_map. apply map_ext. intros j. by destruct (taken_key (nx_ID x) (map ni_ID ins) j) as ((<- & _) & _). Qed.
Lemma advanced_checkpoint : cp_ok advanced σ (d_checkpoints d) c'.
Proof using OK READY SLOTS SEEDS.
  destruct READY. destruct rr_checkpoint0 as (Hne & Hnew & Hcs & Hcp & Hcx & Hcsd & Hcr), rr_exchange0 as (Hx & Hxs & Hxst & Hxp & Hxa & Hxpr), rr_items0, rr_manifest0.
  split; [done|]. split; [done|]. exists row', o, x, outs, (map take_ ins), (history d σ s). split; [split; simpl; rewrite ?Hcs, ?Hcx, ?Hcp; try done|split].
  - by rewrite row_id, lookup_insert_eq.
  - by rewrite ids_taken.
  - apply consumed_inputs.
  - rewrite Forall_forall in rr_inputs0 |- *. intros i (j & -> & Hj)%list_elem_of_fmap. unfold take_. destruct (taken_key (nx_ID x) (map ni_ID ins) j) as ((_ & <- & _) & _).
    by apply rr_inputs0.
  - by rewrite ids_taken.
  - apply new_call_ok.
  - unfold cp_base, history. simpl. rewrite Hcp. case_bool_decide as Hz.
    + left. split; [done|]. rewrite rr_row0. symmetry. apply (root_items_keep d advanced σ OK advanced_evolve s); [done|].
      destruct (ev_row _ _ advanced_evolve _ _ rr_row0) as (r & Hr & R). rewrite row_new in Hr. by injection Hr as <-.
    + right. destruct (ss_current d σ s (do_sessions _ _ OK s (mk_is_Some _ _ rr_row0)) Hz) as (p & Hp & Hid & Hps & _).
      exists p. rewrite <- Hid, (find_checkpoint_in d σ ROWS p Hp). split_and!; [done|done|congruence|].
      destruct (checkpoint_ok d σ ROWS p Hp) as (? & _ & _ & ? & ? & ? & ? & ? & ? & _ & _ & ->). done.
  - simpl. rewrite items_taken. done.
Qed.
Lemma advanced_rows : rows_ok advanced σ.
Proof using OK READY SLOTS SEEDS SEED_IDS.
  apply (rows_keep d advanced σ σ OK advanced_evolve); [done| |exact SEED_IDS|apply (rw_exchanges _ _ ROWS)| | |].
  - intros s' r Hs'. unfold advanced in Hs'. simpl in Hs'. rewrite row_id in Hs'. apply lookup_insert_Some in Hs' as [[<- <-]|[_ Hs']].
    + split; [apply row_id|]. rewrite (rr_row _ _ _ _ _ _ _ _ _ READY). done.
    + split; [by apply (rw_sessions _ _ ROWS)|congruence].
  - rewrite Forall_forall. pose proof (rw_inputs _ _ ROWS) as Hall. rewrite Forall_forall in Hall. intros i Hi. apply advanced_inputs in Hi as [(j & Hj & ->)|Hi].
    + destruct (Hall j Hj) as (Hok & Hne & [r Hr]). destruct (taken_key (nx_ID x) (map ni_ID ins) j) as ((K1 & K2 & K3 & K4 & K5 & _) & Ki & Km). unfold take_.
      rewrite <- K1, <- K2. split; [by apply (input_ok_ext j)|]. split; [done|]. destruct (ev_row _ _ advanced_evolve _ _ Hr) as (r' & ? & _). eauto.
    + destruct (new_input i Hi) as (-> & _ & ? & ? & _). split; [done|]. split; [done|]. rewrite row_new. eauto.
  - unfold advanced. simpl. rewrite ids_taken, map_app. apply NoDup_app. split; [apply (rw_ids _ _ ROWS)|]. split; [|apply (sr_ids _ _ _ _ _ _ SLOTS)].
    intros id Hid (i & -> & Hi)%list_elem_of_fmap. by destruct (new_input i Hi) as (_ & _ & _ & _ & ?).
  - exists (Some c'). split; [done|]. intros n [= <-]. apply advanced_checkpoint.
Qed.
Lemma advanced_history : history advanced σ s = history d σ s ++ map ni_Item ins ++ outs.
Proof using OK READY SLOTS SEEDS SEED_IDS.
  unfold history at 1. rewrite advanced_cur, (bool_decide_eq_true_2 (s = s)) by done. destruct (rr_checkpoint _ _ _ _ _ _ _ _ _ READY) as (Hne & _).
  rewrite bool_decide_eq_false_2 by done. change (cp_ID c) with (cp_ID c'). rewrite (find_checkpoint_in advanced σ advanced_rows c'); [|apply elem_of_app; right; left].
  simpl. by rewrite (rr_memory _ _ _ _ _ _ _ _ _ READY).
Qed.
Lemma advanced_pending i : pending_result advanced s i ↔ i ∈ new ∧ ni_CallID i ≠ [].
Proof using OK READY SLOTS.
  unfold pending_result. rewrite advanced_inputs. split.
  - intros ([(j & Hj & ->)|Hi] & Hs & Hb & Hc); [|done]. destruct (take_cases j Hj) as [(_ & _ & _ & Hx)|[Hn He]]; [destruct exchange_id; congruence|].
    rewrite He in *. destruct Hn. by apply (rr_answers _ _ _ _ _ _ _ _ _ READY).
  - intros [Hi Hc]. destruct (new_input i Hi) as (? & ? & _). split; [by right|done].
Qed.
Lemma inputs_close : open_calls (history d σ s ++ map ni_Item ins) ∅ = Ok ∅.
Proof using OK READY.
  apply (held_close d σ OK); [eexists; apply (rr_row _ _ _ _ _ _ _ _ _ READY)|apply (rr_inputs _ _ _ _ _ _ _ _ _ READY)|apply (rr_manifest _ _ _ _ _ _ _ _ _ READY)|].
  apply (rr_answers _ _ _ _ _ _ _ _ _ READY).
Qed.
Lemma advanced_session : session_ok advanced σ s.
Proof using OK READY SLOTS SEEDS SEED_IDS.
  destruct (sr_links _ _ _ _ _ _ SLOTS) as (Hlinks & Hd & Hne). rewrite Forall_forall in Hne. destruct (rr_checkpoint _ _ _ _ _ _ _ _ _ READY) as (Hcn & Hnew & Hcs & Hcp & Hcx & _).
  assert (c' ∈ d_checkpoints advanced) as Hin by (apply elem_of_app; right; left).
  assert (cur advanced s = cp_ID c) as Hcur by (by rewrite advanced_cur, bool_decide_eq_true_2).
  split; rewrite ?Hcur, ?advanced_history.
  - intros _. exists c'. split_and!; [done..|]. simpl. rewrite Forall_forall. intros k Hk. by destruct (slot_call k Hk) as (_ & _ & _ & ? & _).
  - intros cp [Hcp'| ->%list_elem_of_singleton]%elem_of_app Hs; simpl; [|rewrite Hcp; intros He; by apply fresh_cur].
    intros He. apply list_elem_of_split in Hcp' as (b1 & b2 & Hsplit). destruct (rw_checkpoints _ _ ROWS b1 cp b2 Hsplit) as (_ & _ & r & o' & x' & outs' & ins' & base & _ & Hb & _).
    destruct Hb as [[Hz _]|(p & Hp & Hpid & _)]; [congruence|]. apply Hnew. rewrite <- He, Hpid. apply (list_elem_of_fmap_2 cp_ID). rewrite Hsplit. apply elem_of_app. by left.
  - exists (list_to_set (map nc_CallID calls)). rewrite app_assoc, open_calls_app, inputs_close. split; [done|]. intros id. rewrite elem_of_list_to_set, list_elem_of_fmap. split.
    + intros (k & -> & Hk). destruct (slot_call k Hk) as (i & Hi & _ & _ & _ & He & _). exists i. split; [|done]. apply advanced_pending. split; [done|]. rewrite He. by apply Hne.
    + intros (i & [Hi _]%advanced_pending & <-). destruct (slot_input i Hi) as (k & Hk & _ & _ & He & _). eauto.
  - intros i j [Hi _]%advanced_pending [Hj _]%advanced_pending He. destruct (slot_input i Hi) as (k & Hk & _ & E1 & E2 & _).
    destruct (slot_input j Hj) as (k' & Hk' & _ & E1' & E2' & _). rewrite <- E1, <- E1'. f_equal. apply (map_unique nc_CallID calls); [done..|congruence].
  - intros i [Hi Hc]%advanced_pending. destruct (slot_input i Hi) as (k & Hk & E0 & E1 & E2 & E3). destruct (put_new calls (d_calls d) k Hk) as (k' & Hk' & _).
    exists c', k'. split_and!; [done|done|by rewrite E3|]. rewrite E2, E3, <- E0. done.
  - intros i Hi Hs Hb. apply advanced_inputs in Hi as [(j & Hj & ->)|Hi]; [|by destruct (new_input i Hi) as (_ & ? & _)].
    destruct (take_cases j Hj) as [(Hji & _)|[_ He]].
    + destruct (taken_key (nx_ID x) (map ni_ID ins) j) as (_ & Hitem & _). unfold take_. rewrite Hitem. apply elem_of_app. right. apply elem_of_app. left.
      by apply (list_elem_of_fmap_2 ni_Item).
    + rewrite He in *. apply elem_of_app. left. by apply (ss_done _ _ _ (do_sessions _ _ OK s (mk_is_Some _ _ (rr_row _ _ _ _ _ _ _ _ _ READY)))).
Qed.
Lemma advanced_ok : db_ok advanced σ.
Proof using OK READY SLOTS SEEDS SEED_IDS.
  destruct (rr_checkpoint _ _ _ _ _ _ _ _ _ READY) as (Hcn & _ & Hcs & _ & Hcx & _). pose proof advanced_evolve as EV.
  assert (c' ∈ d_checkpoints advanced) as Hin by (apply elem_of_app; right; left). split.
  - apply advanced_rows.
  - intros s' r Hs'. unfold advanced in Hs'. simpl in Hs'. apply lookup_insert_Some in Hs' as [[_ <-]|[_ Hs']]; [simpl; congruence|by apply (do_named _ _ OK s')].
  - simpl. intros k k1 [[Hk ->]|[Hk _]]%put_in.
    + destruct (slot_call k1 Hk) as (i & _ & He & _). destruct (sr_links _ _ _ _ _ _ SLOTS) as (_ & _ & Hne). rewrite Forall_forall in Hne.
      split; [done|]. split; [by apply Hne|]. exists c'. split; [done|]. simpl. rewrite Hcs, Hcx, He. split; [done|].
      pose proof new_call_ok as Hok. rewrite Forall_forall in Hok. by apply Hok.
    + destruct (do_calls _ _ OK k k1 Hk) as (-> & Hne & cp & Hcp & He & Hok). split; [done|]. split; [done|]. exists cp.
      split; [by apply (old_checkpoint d advanced EV)|]. split; [done|]. by apply (call_ok_keep d advanced EV).
  - intros i Hi Hb. apply advanced_inputs in Hi as [(j & Hj & ->)|Hi]; [|by destruct (new_input i Hi) as (_ & ? & _)].
    destruct (take_cases j Hj) as [(_ & _ & _ & He)|[_ He]]; rewrite He in *.
    + exists c'. split; [done|]. by simpl.
    + destruct (do_consumed _ _ OK j Hj Hb) as (cp & Hcp & ?). exists cp. split; [by apply (old_checkpoint d advanced EV)|done].
  - intros s' [r Hs']. destruct (decide (s' = s)) as [->|Hne]; [apply advanced_session|].
    unfold advanced in Hs'. simpl in Hs'. rewrite row_id, lookup_insert_ne in Hs' by done.
    apply (session_keep d advanced σ σ OK EV); [done|apply advanced_rows|eauto|]. by rewrite advanced_cur, bool_decide_eq_false_2.
Qed.
End Advance.
Lemma commit_current d s head others n d' : commit_native d s head others n = Ok d' → cur d s = nm_Expected n ∧ others = None.
Proof.
  unfold commit_native. destruct (d_sessions d !! s) as [row|] eqn:Hr; [|done]. rewrite (cur_row _ _ _ Hr). case_bool_decide; [|done]. by destruct others.
Qed.
(** The commit of a response and of its calls. *)
Lemma advance_commit_ok `{UnicodeTables} d σ (OK : db_ok d σ) s row o x outs ins c head n d' : commit_native d s head None n = Ok d' →
  nm_Checkpoint n = Some c → nm_Snapshot n = None → nm_Consumed n = map ni_ID ins →
  response_ready d σ s row o x outs ins c → slots_ready d s x outs (nm_Calls n) (nm_Inputs n) →
  ∃ seeds, d' = advanced d row x ins (nm_Inputs n) (nm_Calls n) c seeds (nm_ConsumeSeed n) ∧ db_ok d' σ ∧ evolve d d'.
Proof.
  intros Hn Hc Hsn Hcons READY SLOTS. pose proof (do_rows _ _ OK) as ROWS.
  destruct (advance_shape d s head n c d' (rw_seeds _ _ ROWS) Hn Hc Hsn (sr_ids _ _ _ _ _ _ SLOTS)) as (row' & seeds & Hr & _ & _ & _ & _ & _ & _ & _ & Hs1 & Hs2 & He).
  { intros i Hi. by destruct (new_input d s x outs _ _ SLOTS i Hi) as (_ & _ & _ & _ & ?). }
  assert (row' = row) as -> by (pose proof (rr_row _ _ _ _ _ _ _ _ _ READY); congruence).
  destruct (rr_checkpoint _ _ _ _ _ _ _ _ _ READY) as (_ & _ & _ & _ & Hcx & _). rewrite Hcx, Hcons in He.
  exists seeds. rewrite He. split; [done|]. split; [by eapply advanced_ok|by eapply advanced_evolve].
Qed.
