(* ===== verification/NativeTurnProps.v ===== *)
(** * Turns of the Responses agent keep the conversation

    What a turn knows at each of its points, that other turns do not disturb it
    while the session stays at the checkpoint of the turn, and that every step
    keeps the database and the turns in this state. *)
From S2P Require Import Prelude GoStr Segment HookPipeline ToolPermit ToolTranscript NativeStore NativeTurn NativeLoad NativeCommit.
Open Scope Z_scope.

(** ** What a turn knows *)
(** The session is still at the checkpoint of the turn. *)
Definition live (d : ndb) (t : nturn) : Prop := cur d (t_session t) = checkpoint_id t.
(** The conversation a turn continues. *)
Definition thistory (σ : memory) (t : nturn) : list jv :=
  match t_checkpoint t with
  | Some c => default [] (σ !! cp_ResponseID c)
  | None => match t_seed t with Some s => default [] (sd_Items s) | None => [] end
  end.
Definition held_ok (d : ndb) (s : gostring) (inputs : list NativeInput) : Prop :=
  Forall (λ i, i ∈ d_inputs d ∧ ni_ConsumedBy i = [] ∧ ni_SessionID i = s) inputs ∧ NoDup (map ni_ID inputs) ∧ ∀ i, pending_result d s i → i ∈ inputs.
(** No call of the last response waits for its result. *)
Definition sealed (d : ndb) (t : nturn) : Prop :=
  ∀ c k call, t_checkpoint t = Some c → d_calls d !! k = Some call → nc_ExchangeID call = cp_ExchangeID c → nc_Status call ≠ §"pending".
Definition row_known (d : ndb) (t : nturn) (o : LLMOrigin) : Prop :=
  se_ID (t_row t) = t_session t ∧ se_Origin (t_row t) = Some o ∧ or_APIType o = api_response ∧ or_Provider o ≠ []
  ∧ ∃ row, d_sessions d !! t_session t = Some row ∧ se_Origin row = Some o ∧ se_Seed (t_row t) = se_Seed row
      ∧ (se_Version (t_row t) = inputFormatVersion → se_Version row = inputFormatVersion).
Definition cp_known (d : ndb) (t : nturn) : Prop :=
  ∀ c, t_checkpoint t = Some c → c ∈ d_checkpoints d ∧ cp_SessionID c = t_session t ∧ Forall (λ k, nc_Status k = §"pending") (cp_Calls c).
Definition seed_known (d : ndb) (t : nturn) : Prop :=
  match t_seed t with
  | Some s => ∃ id s', se_Seed (t_row t) = Some id ∧ d_seeds d !! id = Some s' ∧ sd_ID s = id ∧ sd_Items s = sd_Items s' ∧ sd_ResponseID s = sd_ResponseID s'
                ∧ sd_Continuation s = sd_Continuation s' ∧ sd_Materials s = sd_Materials s'
  | None => se_Seed (t_row t) = None
  end.
Definition window_known (σ : memory) (t : nturn) : Prop := ∀ w, t_window t = Some w → w_Items w = thistory σ t ∧ sound (w_Items w) (w_Materials w).
Definition version_known (d : ndb) (t : nturn) : Prop :=
  t_seed t = None → se_Version (t_row t) = inputFormatVersion ∧ ∃ row, d_sessions d !! t_session t = Some row ∧ se_Version row = inputFormatVersion.
Definition rooted (d : ndb) (σ : memory) (t : nturn) : Prop := (∃ o, row_known d t o) ∧ cp_known d t ∧ seed_known d t ∧ window_known σ t.
Definition ready (d : ndb) (σ : memory) (t : nturn) : Prop := rooted d σ t ∧ version_known d t.
(** A request continues the conversation with the inputs it holds. *)
Definition request_ok (d : ndb) (σ : memory) (t : nturn) (r : nrequest) : Prop :=
  below σ (rq_prev r) ++ w_Items (rq_window r) = thistory σ t ++ map ni_Item (rq_inputs r) ∧ (rq_prev r ≠ [] → is_Some (σ !! rq_prev r))
  ∧ map link_of (rq_input r) = map link_of (w_Items (rq_window r)) ∧ (live d t → held_ok d (t_session t) (rq_inputs r) ∧ sealed d t).
Definition exchange_of (d : ndb) (t : nturn) (e : gostring) (x : NativeExchange) (ids : list gostring) : Prop :=
  d_exchanges d !! e = Some x ∧ nx_ID x = e ∧ nx_SessionID x = t_session t ∧ nx_Previous x = checkpoint_id t ∧ nx_InputIDs x = ids
  ∧ ∃ o, se_Origin (t_row t) = Some o ∧ nx_APIType x = or_APIType o ∧ nx_Provider x = or_Provider o.
(** A finished response that is not committed yet. *)
Section Known.
Context `{UnicodeTables}.
Definition answered_ok (d : ndb) (σ : memory) (t : nturn) : Prop :=
  ∃ x outs inputs r allowed, t_exchange t = Some x ∧ exchange_of d t (nx_ID x) x (map ni_ID inputs) ∧ nx_Status x = §"completed"
    ∧ (nx_Response x = Json r ∧ rs_ID r = t_response t ∧ rs_Status r = §"completed" ∧ t_response t ≠ [])
    ∧ nx_Items x = Json outs ∧ Forall parses outs ∧ Forall (λ i, it_Type i ≠ output_type) outs
    ∧ t_consumed t = map ni_ID inputs ∧ answer_calls allowed outs ∅ = Ok (t_calls t)
    ∧ σ !! t_response t = Some (thistory σ t ++ map ni_Item inputs ++ outs) ∧ (live d t → held_ok d (t_session t) inputs ∧ sealed d t).
Definition slot_ok (d : ndb) (c : NativeCheckpoint) (s : slot) : Prop :=
  nc_ExchangeID (sl_call s) = cp_ExchangeID c ∧ nc_ResultInputID (sl_call s) = ni_ID (sl_input s)
  ∧ (∃ i, i ∈ d_inputs d ∧ ni_ID i = ni_ID (sl_input s))
  ∧ ∃ c0, d_calls d !! call_key (sl_call s) = Some c0 ∧ nc_ResultInputID c0 = nc_ResultInputID (sl_call s).
(** Every call that waits is one of [pending]. *)
Definition covers (d : ndb) (c : NativeCheckpoint) (pending : list NativeCall) : Prop :=
  ∀ k call, d_calls d !! k = Some call → nc_ExchangeID call = cp_ExchangeID c → nc_Status call = §"pending" → k ∈ map call_key pending.
Definition batch_ok (d : ndb) (t : nturn) (slots : list slot) : Prop :=
  ∃ c, t_checkpoint t = Some c ∧ Forall (slot_ok d c) slots ∧ (live d t → covers d c (List.filter is_pending (map sl_call slots))).
Definition close_ok (d : ndb) (t : nturn) (pending : list NativeCall) : Prop :=
  ∃ c, t_checkpoint t = Some c ∧ Forall (λ k, nc_Status k ≠ §"pending" ∧ ∃ c0, d_calls d !! call_key k = Some c0 ∧ nc_ResultInputID k = nc_ResultInputID c0) pending
    ∧ (live d t → covers d c pending).
Definition turn_ok (d : ndb) (σ : memory) (t : nturn) : Prop :=
  match t_pc t with
  | PcStart | PcDone _ => True
  | PcCheckpoint => ∃ o, row_known d t o
  | PcWindow => (∃ o, row_known d t o) ∧ cp_known d t
  | PcFormat => rooted d σ t
  | PcInput | PcClose => ready d σ t
  | PcCloseCommit pending => ready d σ t ∧ close_ok d t pending
  | PcTop | PcPrepare _ | PcSummary | PcExtra => ready d σ t ∧ (live d t → sealed d t)
  | PcNotice _ inputs | PcDefs _ inputs | PcBuild _ inputs => ready d σ t ∧ (live d t → held_ok d (t_session t) inputs ∧ sealed d t)
  | PcSend r => ready d σ t ∧ request_ok d σ t r
  | PcStream r e => ready d σ t ∧ request_ok d σ t r ∧ ∃ x, exchange_of d t e x (map ni_ID (rq_inputs r))
  | PcReply => ready d σ t ∧ answered_ok d σ t ∧ t_calls t = []
  | PcBegin => ready d σ t ∧ answered_ok d σ t
  | PcBatch _ _ slots => ready d σ t ∧ batch_ok d t slots
  end.
End Known.

(** ** What other steps keep of it *)
Section Stable.
Context `{UnicodeTables} (d d' : ndb) (σ σ' : memory) (OK : db_ok d σ) (OK' : db_ok d' σ') (EV : evolve d d') (MEM : σ ⊆ σ').
Let ROWS : rows_ok d σ := do_rows d σ OK.
Let ROWS' : rows_ok d' σ' := do_rows d' σ' OK'.
Lemma row_keep t o : row_known d t o → row_known d' t o.
Proof.
  intros (H1 & H2 & H3 & H4 & row & Hr & Ho & Hs & Hv). destruct (ev_row _ _ EV _ _ Hr) as (row' & Hr' & R1 & R2 & R3 & R4). split_and!; try done.
  exists row'. split_and!; [done| |congruence|auto]. apply R3; [done|]. split; [by rewrite H3|done].
Qed.
Lemma cp_keep t : cp_known d t → cp_known d' t.
Proof. intros Hc c He. destruct (Hc c He) as (Hin & ?). split; [by apply (old_checkpoint d d' EV)|done]. Qed.
Lemma seed_keep t : seed_known d t → seed_known d' t.
Proof.
  unfold seed_known. destruct (t_seed t) as [s|]; [|done]. intros (id & s' & H1 & H2 & H3 & H4 & H5 & H6 & H7). destruct (ev_seed _ _ EV _ _ H2) as (s2 & H2' & St).
  destruct (seed_step_facts _ _ St) as (E1 & E2 & E3 & E4 & E5 & E6 & E7 & E8 & E9). exists id, s2. split_and!; congruence.
Qed.
Lemma thistory_keep t : cp_known d t → thistory σ' t = thistory σ t.
Proof.
  unfold thistory. intros Hc. destruct (t_checkpoint t) as [c|] eqn:He; [|done]. destruct (Hc c He) as (Hin & _).
  destruct (checkpoint_ok d σ ROWS c Hin) as (? & _ & _ & ? & ? & ? & ? & ? & ? & _ & _ & Hσ). by rewrite Hσ, (lookup_weaken _ _ _ _ Hσ MEM).
Qed.
Lemma rooted_keep t : rooted d σ t → rooted d' σ' t.
Proof.
  intros ((o & Hr) & Hc & Hs & Hw). split; [exists o; by apply row_keep|]. split; [by apply cp_keep|]. split; [by apply seed_keep|].
  intros w He. rewrite thistory_keep by done. by apply Hw.
Qed.
Lemma ready_keep t : ready d σ t → ready d' σ' t.
Proof.
  intros [Hr Hv]. split; [by apply rooted_keep|]. intros Hn. destruct (Hv Hn) as (? & row & Hrow & He). split; [done|].
  destruct (ev_row _ _ EV _ _ Hrow) as (row' & Hr' & _ & _ & _ & R). exists row'. split; [done|by apply R].
Qed.
Lemma live_back t o : row_known d t o → cp_known d t → live d' t → live d t.
Proof.
  unfold live. intros (_ & _ & _ & _ & row & Hr & _) Hc Hl. destruct (ev_cur _ _ EV (t_session t) (mk_is_Some _ _ Hr)) as [He|[Hne Hn]]; [congruence|].
  rewrite Hl in Hne, Hn. unfold checkpoint_id in *. destruct (t_checkpoint t) as [c|] eqn:He; [|done]. destruct (Hc c He) as (Hin & _).
  destruct Hn. by apply (list_elem_of_fmap_2 cp_ID).
Qed.
Lemma checkpoint_unique c c' : c ∈ d_checkpoints d → c' ∈ d_checkpoints d → cp_ID c = cp_ID c' → c = c'.
Proof. apply (map_unique cp_ID), (checkpoint_ids d σ ROWS). Qed.
(** While the session stays, an input whose call has its result stays. *)
Lemma input_keep t o i : row_known d t o → cp_known d t → live d t → live d' t → sealed d t → i ∈ d_inputs d → ni_SessionID i = t_session t → ni_ConsumedBy i = [] → i ∈ d_inputs d'.
Proof.
  intros (_ & _ & _ & _ & row & Hr & _) Hcp Hl Hl' Hsealed Hi Hs Hb. destruct (ev_input _ _ EV i Hi) as (i' & Hi' & S). assert (i' = i) as <-; [|done].
  symmetry. destruct (is_by _ _ _ _ S) as [He|(_ & Hn & _)]; [|destruct Hn; rewrite Hs; congruence].
  destruct (is_item _ _ _ _ S) as [(call & Hcall & Hp)|[E1 E2]]; [|by apply input_eq; [apply S|congruence|done..]].
  destruct (do_calls _ _ OK _ _ Hcall) as ([= K1 K2] & Hne & _). assert (pending_result d (t_session t) i) as Hpend by (split_and!; [done..|congruence]).
  destruct (ss_results _ _ _ (do_sessions _ _ OK _ (mk_is_Some _ _ Hr)) i Hpend) as (c & _ & Hc & Hid & Hx & _). rewrite Hl in Hid. unfold checkpoint_id in Hid.
  destruct (t_checkpoint t) as [c0|] eqn:Ht; [|by destruct (checkpoint_ok d σ ROWS c Hc) as (? & ? & _)]. destruct (Hcp c0 Ht) as (Hc0 & _).
  assert (c = c0) as -> by (by apply checkpoint_unique). by destruct (Hsealed c0 _ call Ht Hcall ltac:(congruence)).
Qed.
Lemma held_keep t o inputs : row_known d t o → cp_known d t → live d t → live d' t → sealed d t → held_ok d (t_session t) inputs → held_ok d' (t_session t) inputs.
Proof.
  intros Hr Hcp Hl Hl' Hsealed (Hin & Hd & Hall). split; [|split; [done|]].
  - rewrite Forall_forall in Hin |- *. intros i Hi. destruct (Hin i Hi) as (H1 & H2 & H3). split_and!; [|done..]. by apply (input_keep t o).
  - intros i' Hi'. destruct (pending_back d d' EV (t_session t) i') as (i & Hi & K & Hid & S); [by rewrite Hl, Hl'|done|]. assert (i = i') as <-; [|by apply Hall].
    destruct Hi as (H1 & H2 & H3 & H4). pose proof (input_keep t o i Hr Hcp Hl Hl' Hsealed H1 H2 H3) as Hi''.
    apply (map_unique ni_ID (d_inputs d')); [apply (rw_ids _ _ ROWS')|done|apply Hi'|apply K].
Qed.
Lemma sealed_keep t : cp_known d t → sealed d t → sealed d' t.
Proof.
  intros Hcp Hs c k call He Hk Hx Hp. destruct (Hcp c He) as (Hc & _). destruct (do_calls _ _ OK' _ _ Hk) as (Hkey & _).
  destruct (ev_call_back _ _ EV k call Hk Hp) as [(call0 & Hk0 & Hp0)|Hu].
  - destruct (do_calls _ _ OK _ _ Hk0) as (Hkey0 & _). apply (Hs c k call0 He Hk0); [congruence|done].
  - apply (Hu c Hc). rewrite Hkey. done.
Qed.
Lemma holds_keep t o inputs : row_known d t o → cp_known d t → (live d t → held_ok d (t_session t) inputs ∧ sealed d t) →
  live d' t → held_ok d' (t_session t) inputs ∧ sealed d' t.
Proof.
  intros Hr Hcp Hh Hl'. pose proof (live_back t o Hr Hcp Hl') as Hl. destruct (Hh Hl) as [H1 H2]. split; [by apply (held_keep t o)|by apply sealed_keep].
Qed.
Lemma covers_keep c pending : c ∈ d_checkpoints d → covers d c pending → covers d' c pending.
Proof.
  intros Hc Hp k call Hk Hx Hs. destruct (do_calls _ _ OK' _ _ Hk) as (Hkey & _). destruct (ev_call_back _ _ EV k call Hk Hs) as [(call0 & Hk0 & Hp0)|Hu].
  - destruct (do_calls _ _ OK _ _ Hk0) as (Hkey0 & _). apply (Hp k call0 Hk0); [congruence|done].
  - destruct (Hu c Hc). rewrite Hkey. done.
Qed.
Lemma below_keep prev : (prev ≠ [] → is_Some (σ !! prev)) → below σ' prev = below σ prev.
Proof. unfold below. intros Hp. case_bool_decide as Hn; [done|]. destruct (Hp Hn) as [h Hh]. by rewrite Hh, (lookup_weaken _ _ _ _ Hh MEM). Qed.
Lemma request_keep t o r : row_known d t o → cp_known d t → request_ok d σ t r → request_ok d' σ' t r.
Proof.
  intros Hr Hcp (He & Hp & Hl & Hh). split; [by rewrite below_keep, thistory_keep|]. split; [|split; [done|by apply (holds_keep t o)]].
  intros Hn. destruct (Hp Hn) as [h Hh']. exists h. by eapply lookup_weaken.
Qed.
Lemma exchange_keep t e x ids : exchange_of d t e x ids → ∃ x', exchange_of d' t e x' ids ∧ (nx_Status x ≠ §"pending" → x' = x).
Proof.
  intros (Hx & H1 & H2 & H3 & H4 & o & H5 & H6 & H7). destruct (ev_exchange _ _ EV _ _ Hx) as (x' & Hx' & E1 & E2 & E3 & E4 & E5 & E6). exists x'.
  split; [|done]. split_and!; try congruence; [by apply (rw_exchanges _ _ ROWS') in Hx' as [? _]|]. exists o. split_and!; congruence.
Qed.
Lemma answered_keep t o : row_known d t o → cp_known d t → answered_ok d σ t → answered_ok d' σ' t.
Proof.
  intros Hr Hcp (x & outs & inputs & r & allowed & H1 & H2 & H3 & (H4 & H4' & H4'' & H4''') & H5 & H6 & H7 & H8 & H9 & H10 & H11). exists x, outs, inputs, r, allowed.
  destruct (exchange_keep _ _ _ _ H2) as (x' & H2' & Hx). rewrite Hx in H2' by (by rewrite H3). split_and!; try done.
  - rewrite thistory_keep by done. by eapply lookup_weaken.
  - by apply (holds_keep t o).
Qed.
Lemma slot_keep c s : slot_ok d c s → slot_ok d' c s.
Proof.
  intros (H1 & H2 & (i & Hi & H3) & c0 & H4 & H5). destruct (ev_input _ _ EV i Hi) as (i' & Hi' & S). destruct (is_key _ _ _ _ S) as (K & _).
  destruct (ev_call _ _ EV _ _ H4) as (c1 & H4' & H6). split_and!; [done|done|exists i'; split; [done|congruence]|]. exists c1. split; [done|congruence].
Qed.
Lemma turn_keep t : turn_ok d σ t → turn_ok d' σ' t.
Proof.
  assert (∀ P : Prop, ready d σ t ∧ P → ∃ o, row_known d t o ∧ cp_known d t ∧ ready d σ t ∧ P) as Hready.
  { intros P [Hr Hp]. pose proof Hr as [((o & Hrow) & Hc & _) _]. by exists o. }
  assert (∀ inputs, ready d σ t ∧ (live d t → held_ok d (t_session t) inputs ∧ sealed d t) → ready d' σ' t ∧ (live d' t → held_ok d' (t_session t) inputs ∧ sealed d' t)) as Hheld.
  { intros inputs (o & Hrow & Hc & Hr & Hh)%Hready. split; [by apply ready_keep|by apply (holds_keep t o)]. }
  assert (ready d σ t ∧ (live d t → sealed d t) → ready d' σ' t ∧ (live d' t → sealed d' t)) as Hseal.
  { intros (o & Hrow & Hc & Hr & Hh)%Hready. split; [by apply ready_keep|]. intros Hl. apply (live_back t o Hrow Hc) in Hl. apply sealed_keep; auto. }
  unfold turn_ok. destruct (t_pc t); try done; try by apply Hheld; try apply Hseal.
  - intros (o & Hr). exists o. by apply row_keep.
  - intros [(o & Hr) Hc]. split; [exists o; by apply row_keep|by apply cp_keep].
  - apply rooted_keep.
  - apply ready_keep.
  - apply ready_keep.
  - intros (o & Hrow & Hcp & Hr & c & Hc & Hf & Hcov)%Hready. split; [by apply ready_keep|]. exists c. split; [done|]. split.
    + eapply Forall_impl; [done|]. intros k (Hs & c0 & Hk & He). split; [done|]. destruct (ev_call _ _ EV _ _ Hk) as (c1 & Hk' & He'). exists c1. split; [done|congruence].
    + intros Hl. apply (live_back t o Hrow Hcp) in Hl. apply covers_keep; [by apply Hcp|auto].
  - intros (o & Hrow & Hcp & Hr & Hq)%Hready. split; [by apply ready_keep|by apply (request_keep t o)].
  - intros (o & Hrow & Hcp & Hr & Hq & x & Hx)%Hready. split; [by apply ready_keep|]. split; [by apply (request_keep t o)|].
    destruct (exchange_keep _ _ _ _ Hx) as (x' & Hx' & _). by exists x'.
  - intros (o & Hrow & Hcp & Hr & Ha & Hn)%Hready. split; [by apply ready_keep|]. split; [by apply (answered_keep t o)|done].
  - intros (o & Hrow & Hcp & Hr & Ha)%Hready. split; [by apply ready_keep|by apply (answered_keep t o)].
  - intros (o & Hrow & Hcp & Hr & c & Hc & Hf & Hcov)%Hready. split; [by apply ready_keep|]. exists c. split; [done|]. split.
    + eapply Forall_impl; [done|]. intros s0. apply slot_keep.
    + intros Hl. apply (live_back t o Hrow Hcp) in Hl. apply covers_keep; [by apply Hcp|auto].
Qed.
End Stable.

(** ** Reads and registrations *)
Lemma evolve_refl d : evolve d d.
Proof.
  split; try (by eauto using row_step_refl, exchange_step_refl).
  - exists []. rewrite app_nil_r. split; [done|constructor].
  - intros id s Hs. exists s. split; [done|by left].
  - intros i Hi. exists i. split; [done|apply input_step_refl].
  - intros i Hi. left. exists i. split; [done|apply input_step_refl].
Qed.
Lemma insert_by_time_perm i l : insert_by_time i l ≡ₚ i :: l.
Proof. induction l as [|j l IH]; simpl; [done|]. case_match; [done|]. rewrite IH. by rewrite Permutation_swap. Qed.
Lemma order_by_time_perm l : order_by_time l ≡ₚ l.
Proof.
  unfold order_by_time. enough (∀ k, foldl (λ l i, insert_by_time i l) k l ≡ₚ k ++ l) as He by (rewrite He; done).
  induction l as [|i l IH]; intros k; cbn [foldl]; [by rewrite app_nil_r|]. rewrite IH, insert_by_time_perm. by rewrite <- Permutation_middle.
Qed.
Lemma sort_inputs_perm l : sort_inputs l ≡ₚ l.
Proof.
  unfold sort_inputs, of_order. induction l as [|i l IH]; [done|]. cbn [List.filter].
  assert (inputOrder i = 0 ∨ inputOrder i = 1 ∨ inputOrder i = 2 ∨ inputOrder i = 3) as [E|[E|[E|E]]] by (unfold inputOrder; repeat case_match; lia);
    rewrite E; cbn [Z.eqb]; simpl; rewrite <- ?Permutation_middle; by rewrite IH.
Qed.
Lemma held_perm d s l k : l ≡ₚ k → held_ok d s l → held_ok d s k.
Proof.
  intros Hp (H1 & H2 & H3). split; [by rewrite <- Hp|]. split; [by rewrite <- Hp|]. intros i Hi. rewrite <- Hp. by apply H3.
Qed.
Lemma pending_inputs_held `{UnicodeTables} d σ (OK : db_ok d σ) s : held_ok d s (PendingInputs d s).
Proof.
  apply (held_perm d s (List.filter (λ i, bool_decide (ni_SessionID i = s) && bool_decide (ni_ConsumedBy i = [])) (d_inputs d))).
  { symmetry. apply order_by_time_perm. }
  split; [|split].
  - rewrite Forall_forall. intros i [Hi He]%kept_in. apply andb_true_iff in He as [H1 H2]. apply bool_decide_eq_true in H1, H2. done.
  - apply NoDup_filter_map, (rw_ids _ _ (do_rows _ _ OK)).
  - intros i (Hi & Hs & Hb & _). apply kept_in. split; [done|]. by rewrite !bool_decide_eq_true_2.
Qed.
Lemma CanSwitch_same o target : or_APIType o = api_response → CanSwitch (Some o) target = Ok tt → or_APIType target = or_APIType o ∧ or_Provider target = or_Provider o ∧ or_Provider o ≠ [].
Proof.
  intros Ha Hc. unfold CanSwitch in Hc. rewrite Ha in *. case_match eqn:H1; [done|]. rewrite bool_decide_eq_false_2 in Hc by done.
  case_match eqn:H2; [|done]. apply andb_true_iff in H2 as [H2 H3]. apply bool_decide_eq_true in H2. rewrite bool_decide_eq_false_2 in H3 by done. cbn [orb] in H3.
  apply andb_true_iff in H3 as [H3 H4]. apply bool_decide_eq_true in H4. apply negb_true_iff, bool_decide_eq_false in H3. done.
Qed.
Lemma register_ok row target row' : or_APIType target = api_response → CanSwitch (se_Origin row) target = Ok tt → RegisterOrigin row target = Ok row' →
  row_step row row' ∧ se_Checkpoint row' = se_Checkpoint row ∧ ∃ o, se_Origin row' = Some o ∧ or_APIType o = api_response ∧ or_Provider o ≠ [].
Proof.
  intros Ha Hc Hr. unfold RegisterOrigin in Hr. destruct (bool_decide (or_APIType target = []) || bool_decide (or_Provider target = [])) eqn:Hne; [done|].
  apply orb_false_iff in Hne as [_ Hp]. apply bool_decide_eq_false in Hp.
  destruct (se_Origin row) as [o|] eqn:Ho.
  - case_bool_decide as He; [|done]. cbn [negb] in Hr. assert (or_APIType o = api_response) as Hoa by congruence.
    destruct (CanSwitch_same o target Hoa Hc) as (_ & _ & Hn). rewrite bool_decide_eq_false_2 in Hr by done. injection Hr as <-.
    split; [apply row_step_refl|]. split; [done|]. by exists o.
  - injection Hr as <-. split; [|split; [done|by exists target]]. split_and!; try done. by rewrite Ho.
Qed.

(** ** Windows of a turn *)
Section TurnWindows.
Context `{UnicodeTables}.
Lemma load_path_ext fuel row row' r cp seen : se_ID row = se_ID row' → load_path fuel row r cp seen = load_path fuel row' r cp seen.
Proof.
  intros He. revert cp seen. induction fuel as [|fuel IH]; intros cp seen; [done|]. cbn [load_path]. rewrite He. repeat (case_match; try done); by rewrite IH.
Qed.
Lemma res_fold_ext {A B : Type} (f g : A → B → res A) a l : (∀ a b, f a b = g a b) → res_fold f a l = res_fold g a l.
Proof. intros He. revert a. induction l as [|b l IH]; intros a; [done|]. simpl. rewrite He. destruct (g a b); simpl; [apply IH|done..]. Qed.
Lemma load_input_ext row row' x s id : se_ID row = se_ID row' → load_input row x s id = load_input row' x s id.
Proof. intros He. unfold load_input. by rewrite He. Qed.
Lemma load_checkpoint_ext row row' o r s cp : se_ID row = se_ID row' → load_checkpoint row o r s cp = load_checkpoint row' o r s cp.
Proof.
  intros He. unfold load_checkpoint. rewrite He. destruct s as [w rest]. repeat (case_match; try done).
  all: rewrite (res_fold_ext (load_input row n) (load_input row' n)) by (intros; by apply load_input_ext); done.
Qed.
Lemma load_result_ext row row' r cp w call : se_ID row = se_ID row' → load_result row r cp w call = load_result row' r cp w call.
Proof. intros He. unfold load_result. by rewrite He. Qed.
(** The version of the row only decides whether the window loads. *)
Lemma Load_ext row row' cp r w w' : se_ID row = se_ID row' → se_Origin row = se_Origin row' → Load row cp r = Ok w → Load row' cp r = Ok w' → w = w'.
Proof.
  intros Hid Ho. unfold Load. rewrite <- Ho. destruct (se_Origin row) as [o|]; [|done]. case_match; [done|].
  intros (w1 & Hw1 & H1)%res_bind_ok (w2 & Hw2 & H2)%res_bind_ok. assert (w1 = w2) as <-.
  { unfold load_root in *. destruct (wr_Seed r); [congruence|]. apply res_bind_ok in Hw1 as (? & _ & ?), Hw2 as (? & _ & ?). congruence. }
  destruct cp as [cp|]; [|congruence]. rewrite <- (load_path_ext _ row row') in H2 by done.
  apply res_bind_ok in H1 as (path & Hp & H1). rewrite Hp in H2. cbn [res_bind] in H2.
  rewrite (res_fold_ext (load_checkpoint row' o r) (load_checkpoint row o r)) in H2 by (intros; by apply load_checkpoint_ext).
  apply res_bind_ok in H1 as ([w3 rest] & Hf & H1). rewrite Hf in H2. cbn [res_bind] in H2.
  rewrite (res_fold_ext (load_result row' r cp) (load_result row r cp)) in H2 by (intros; by apply load_result_ext). congruence.
Qed.
Lemma records_ext d row row' cp : se_ID row = se_ID row' → se_Seed row = se_Seed row' → LoadNativeWindow d row cp = LoadNativeWindow d row' cp.
Proof. intros H1 H2. unfold LoadNativeWindow. by rewrite H1, H2. Qed.
(** What a turn loads is the conversation it continues. *)
Lemma results_pending d calls : Forall (λ k, nc_Status k = §"pending") calls → results_of d calls = [].
Proof. unfold results_of. induction 1 as [|k calls Hk _ IH]; [done|]. cbn [omap list_omap]. rewrite Hk, orb_true_r. exact IH. Qed.
Lemma loaded_history d σ (OK : db_ok d σ) t r w : (∃ o, row_known d t o) → cp_known d t → seed_known d t →
  LoadNativeWindow d (t_row t) (t_checkpoint t) = Ok r → Load (t_row t) (t_checkpoint t) r = Ok w → w_Items w = thistory σ t ∧ sound (w_Items w) (w_Materials w).
Proof.
  intros (o & Hid & Ho & Hapi & Hprov & row & Hrow & Hro & Hrs & _) Hcp Hseed Hr Hw. pose proof (do_rows _ _ OK) as ROWS. pose proof (rw_sessions _ _ ROWS _ _ Hrow) as Hrid.
  unfold thistory. destruct (t_checkpoint t) as [c|] eqn:Hc.
  - destruct (Hcp c Hc) as (Hin & Hs & Hp). rewrite <- Hs in Hrow. destruct (load_total d σ ROWS row c Hin Hrow) as (h & r' & w' & Hσ & []).
    rewrite (records_ext d (t_row t) row) in Hr by congruence. assert (r' = r) as -> by congruence.
    rewrite (Load_ext (t_row t) row _ _ w w' ltac:(congruence) ltac:(congruence) Hw lo_load). split; [|done].
    rewrite Hσ, lo_items, results_pending by done. by rewrite app_nil_r.
  - unfold seed_known in Hseed. unfold LoadNativeWindow in Hr. unfold Load in Hw. rewrite Ho in Hw. destruct (negb _ || _); [done|]. apply res_bind_ok in Hw as (w1 & Hw1 & Hw).
    destruct (t_seed t) as [sd|].
    + destruct Hseed as (id & sd' & H1 & H2 & H3 & H4 & _). rewrite Hrs in H1. destruct (rw_roots _ _ ROWS _ _ _ Hrow H1) as [_ (sd2 & items2 & o2 & E2 & _ & _ & [] & _)].
      assert (sd2 = sd') as -> by congruence. rewrite <- Hrs in H1. rewrite H1, H2 in Hr. case_bool_decide; [|done]. cbn [res_bind] in Hr. injection Hr as <-.
      cbn [wr_Seed] in *. injection Hw as <-. unfold load_root in Hw1. cbn [wr_Seed] in Hw1. destruct (negb _ || _); [done|]. apply res_bind_ok in Hw1 as (items & Hi & Hw1).
      apply res_bind_ok in Hw1 as (ms & Hms & [= <-]). simpl. unfold decodeSeedInputs in Hi. rewrite H4. rewrite so_items in Hi |- *. case_match; [|done]. apply ParseItem_all in Hi as ->.
      rewrite (decode_materials (sd_Materials sd')) in Hms by apply so_materials. injection Hms as <-. by split.
    + rewrite Hseed in Hr. injection Hr as <-. by cbn [wr_Seed no_records] in Hw.
Qed.
End TurnWindows.

(** ** Steps *)
Section Steps.
Context `{UnicodeTables} (json_valid : gostring → bool) (url_parse : gostring → option (gostring * gostring)) (max_rounds : nat).
Context (d : ndb) (σ : memory) (OK : db_ok d σ) (t : nturn) (env : nenv).
Context (FRESH : ∀ id, id ∈ en_ids env → id ≠ [] ∧ id ∉ map ni_ID (d_inputs d)) (ONCE : NoDup (en_ids env)) (TWO : (2 <= length (en_ids env))%nat).
Context (ARCHIVED : archived_env env = true).
Let ROWS : rows_ok d σ := do_rows d σ OK.
Record good (p : ndb * nturn) : Prop := {
  gd_db : db_ok p.1 σ;
  gd_evolve : evolve d p.1;
  gd_turn : turn_ok p.1 σ p.2;
  gd_ids : ∀ i, i ∈ d_inputs p.1 → ni_ID i ∈ en_ids env ∨ ni_ID i ∈ map ni_ID (d_inputs d)
}.
Lemma good_stay t' : turn_ok d σ t' → good (d, t').
Proof. intros Ht. split; [done|apply evolve_refl|done|]. intros i Hi. right. by apply (list_elem_of_fmap_2 ni_ID). Qed.
Lemma good_fail t0 e : good (d, fail_ t0 e).
Proof. by apply good_stay. Qed.
Lemma good_commit head n next : (∀ d', commit_native d (t_session t) head None n = Ok d' → good (d', next)) → good (commit_step d t env head n next).
Proof.
  intros Hn. unfold commit_step. destruct (commit_native d (t_session t) head (en_fail env) n) as [d'|e|] eqn:Hc; [|apply good_fail..].
  destruct (commit_current _ _ _ _ _ _ Hc) as [_ He]. rewrite He in Hc. by apply Hn.
Qed.
Lemma good_or_fail {A : Type} t0 (r : res A) k : (∀ a, r = Ok a → good (k a)) → good (or_fail d t0 r k).
Proof. intros Hk. unfold or_fail. destruct r; [by apply Hk|apply good_fail..]. Qed.
Lemma good_unless k : good k → good (unless d t env k).
Proof. intros Hk. unfold unless. case_match; [apply good_fail|done]. Qed.
Lemma new_id n : (n < 2)%nat → id_at env n ∈ en_ids env.
Proof using TWO.
  intros Hn. unfold id_at. destruct (en_ids env !! n) as [id|] eqn:He; [by eapply list_elem_of_lookup_2|]. apply lookup_ge_None in He. lia.
Qed.
Lemma two_ids : id_at env 0 ≠ [] ∧ id_at env 1 ≠ [].
Proof using FRESH TWO. split; apply FRESH, new_id; lia. Qed.
(** An input of the environment, committed. *)
Lemma commit_input i head next : input_ok i → ni_ID i = id_at env 0 → ni_CallID i = [] → ni_ConsumedBy i = [] →
  (∀ d', db_ok d' σ → evolve d d' → d' = with_inputs d (d_inputs d ++ [i]) → cur d (t_session t) = checkpoint_id t → ni_SessionID i = t_session t → turn_ok d' σ next) →
  good (commit_step d t env head (inputs_only t [i]) next).
Proof using OK FRESH TWO.
  intros Hi Hid Hc Hb Hnext. apply good_commit. intros d' Hd'. pose proof (new_id 0 ltac:(lia)) as Hin. rewrite <- Hid in Hin.
  destruct (inputs_commit_ok d σ OK (t_session t) head (checkpoint_id t) i d' Hd' Hi) as (D & E & He & Hcur & Hs & _); [intros _; by apply FRESH|done|done|].
  split; [done|done|by apply Hnext|]. intros j Hj. simpl in Hj. rewrite He in Hj. simpl in Hj. apply elem_of_app in Hj as [Hj| ->%list_elem_of_singleton]; [|by left].
  right. by apply (list_elem_of_fmap_2 ni_ID).
Qed.
Lemma message_input_ok id now i : message_input url_parse t id now (en_message env) = Ok i →
  input_ok i ∧ ni_ID i = id ∧ ni_CallID i = [] ∧ ni_ConsumedBy i = [].
Proof using ARCHIVED.
  intros Hm. unfold message_input in Hm. apply res_bind_ok in Hm as (segs & Hs & Hq). unfold archived_env in ARCHIVED. rewrite Hs in ARCHIVED.
  apply queued_ok in Hq as (? & ? & ? & ? & ? & ? & ? & ?); [done|]. apply andb_true_iff in ARCHIVED as [_ Ha]. destruct segs; [apply archived_text|done].
Qed.
Lemma input_step_good next : turn_ok d σ (goto_ t next) → good (NativeTurn.input_step url_parse d t env next).
Proof using OK FRESH TWO ARCHIVED.
  intros Ht. unfold NativeTurn.input_step. apply good_or_fail. intros i (Hi & Hid & Hc & Hb)%message_input_ok. apply commit_input; [done..|].
  intros d' D E _ _ _. by apply (turn_keep d d' σ σ OK D E).
Qed.
Lemma start_good : good (start_step d t env).
Proof using OK.
  unfold start_step. apply good_unless. destruct (d_sessions d !! t_session t) as [row|] eqn:Hr; [|apply good_fail].
  case_bool_decide as Ha; [|apply good_fail]. cbn [negb]. apply good_or_fail. intros [] Hc. apply good_or_fail. intros row' Hreg.
  destruct (register_ok row (t_origin t) row' Ha Hc Hreg) as (R & Hcp & o & Ho & Hapi & Hp). pose proof (rw_sessions _ _ ROWS _ _ Hr) as Hid.
  destruct (set_row_ok d σ OK row row') as [D E]; [by rewrite Hid|done|done|]. pose proof R as (Rid & _).
  split; [done|done| |simpl; intros i Hi; right; by apply (list_elem_of_fmap_2 ni_ID)].
  exists o. split_and!; try done; [simpl; congruence|]. exists row'. split; [|done]. simpl. rewrite <- Hid, <- Rid. apply lookup_insert_eq.
Qed.
Lemma checkpoint_good : (∃ o, row_known d t o) →
  good (unless d t env (or_fail d t (CurrentCheckpoint d (t_session t)) (λ c, (d, goto_ (with_root_ t c None None []) PcWindow)))).
Proof using OK.
  intros (o & Hrow). apply good_unless, good_or_fail. intros c Hc. apply good_stay. simpl. split; [by exists o|]. intros c' He. simpl in He. subst c.
  unfold CurrentCheckpoint in Hc. destruct (d_sessions d !! t_session t) as [row|] eqn:Hr; [|done]. destruct (se_Checkpoint row) as [id|] eqn:Hid; [|done].
  destruct (find_checkpoint d id) as [c|] eqn:Hf; [|done]. case_bool_decide as Hs; [|done]. injection Hc as <-. apply find_some in Hf as [Hin Hcid].
  split; [done|]. split; [done|]. assert (cur d (t_session t) = id) as Hcur by (by rewrite (cur_row _ _ _ Hr), Hid).
  destruct (ss_current _ _ _ (do_sessions _ _ OK _ (mk_is_Some _ _ Hr))) as (c1 & Hc1 & Hid1 & _ & Hp).
  { rewrite Hcur. intros ->. by apply (do_named _ _ OK _ _ Hr). }
  assert (c1 = c) as <-; [|done]. apply (checkpoint_unique d σ OK); [done..|congruence].
Qed.
Lemma records_seed row cp r : LoadNativeWindow d row cp = Ok r →
  match wr_Seed r with Some s => ∃ id, se_Seed row = Some id ∧ d_seeds d !! id = Some s | None => se_Seed row = None end.
Proof using d.
  unfold LoadNativeWindow. intros Hr.
  assert (∀ seed, match se_Seed row with
      | None => Ok None
      | Some id => match d_seeds d !! id with Some s => if bool_decide (sd_SessionID s = se_ID row) then Ok (Some s) else Err §"native seed reference is missing"
                   | None => Err §"native seed reference is missing" end end = Ok seed →
    match seed with Some s => ∃ id, se_Seed row = Some id ∧ d_seeds d !! id = Some s | None => se_Seed row = None end) as Hs.
  { intros seed Hs. destruct (se_Seed row) as [id|]; [|by injection Hs as <-]. destruct (d_seeds d !! id) eqn:Hd; [|done]. case_bool_decide; [|done]. injection Hs as <-. eauto. }
  destruct cp as [c|].
  - apply res_bind_ok in Hr as (seed & Hseed & [= <-]). by apply Hs.
  - destruct (se_Seed row) eqn:He; [|by injection Hr as <-]. apply res_bind_ok in Hr as (seed & Hseed & [= <-]). by apply Hs.
Qed.
Lemma prepare_turn_ok t' : (∃ o, row_known d t o) → cp_known d t → prepare_turn url_parse d t env = Ok t' → rooted d σ t'.
Proof using OK.
  intros Hrow Hcp Hp. unfold prepare_turn in Hp. apply res_bind_ok in Hp as (r & Hr & Hp). apply res_bind_ok in Hp as (_ & _ & Hp).
  apply res_bind_ok in Hp as (_ & _ & Hp). apply res_bind_ok in Hp as (_ & _ & Hp).
  assert (∀ w k, seed_known d (with_root_ t (t_checkpoint t) (wr_Seed r) w k)) as Hseed.
  { intros w k. unfold seed_known. cbn [t_seed t_row with_root_]. pose proof (records_seed _ _ _ Hr) as Hs. destruct (wr_Seed r) as [s|]; [|done].
    destruct Hs as (id & H1 & H2). exists id, s. split_and!; try done. by apply (rw_seeds _ _ ROWS). }
  assert (∀ w known, Load (t_row t) (t_checkpoint t) r = Ok w → rooted d σ (with_root_ t (t_checkpoint t) (wr_Seed r) (Some w) known)) as Hload.
  { intros w known Hw. split; [done|]. split; [done|]. split; [apply Hseed|]. intros w' [= <-]. cbn [t_window with_root_].
    by apply (loaded_history d σ OK (with_root_ t (t_checkpoint t) (wr_Seed r) (Some w) known) r w). }
  destruct (t_checkpoint t) as [c|] eqn:Hc, (wr_Seed r) as [sd|] eqn:Hsd.
  4: { injection Hp as <-. split; [done|]. split; [by intros ? [=]|]. split; [by apply Hseed|done]. }
  all: apply res_bind_ok in Hp as (w & Hw & Hp); apply res_bind_ok in Hp as (known & _ & [= <-]); by apply Hload.
Qed.
Lemma window_good : (∃ o, row_known d t o) ∧ cp_known d t → good (unless d t env (or_fail d t (prepare_turn url_parse d t env) (λ t, (d, goto_ t PcFormat)))).
Proof using OK. intros [Hrow Hcp]. apply good_unless, good_or_fail. intros t' Ht. apply good_stay. exact (prepare_turn_ok t' Hrow Hcp Ht). Qed.
Lemma format_good : rooted d σ t → good (format_step d t env).
Proof using OK.
  intros Ht. pose proof Ht as ((o & Hid & Ho & Ha & Hp & row & Hr & Hro & Hrs & Hv) & Hcp & Hseed & Hw). unfold format_step. apply good_unless.
  destruct (se_Version (t_row t) =? inputFormatVersion) eqn:Hver.
  - apply Z.eqb_eq in Hver. apply good_stay. split; [done|]. intros _. split; [done|]. exists row. auto.
  - destruct (negb _); [apply good_fail|]. rewrite Hr. destruct (_ && _); [apply good_fail|]. pose proof (rw_sessions _ _ ROWS _ _ Hr) as Hrid.
    destruct (set_row_ok d σ OK row (with_version row inputFormatVersion)) as [D E]; [by rewrite Hrid|by split_and!|done|].
    split; [done|done| |simpl; intros i Hi; right; by apply (list_elem_of_fmap_2 ni_ID)].
    assert (d_sessions (with_session d (with_version row inputFormatVersion)) !! t_session t = Some (with_version row inputFormatVersion)) as Hr'.
    { simpl. rewrite Hrid. apply lookup_insert_eq. }
    split; [split; [|split; [|split]]|].
    + exists o. split_and!; try done. by exists (with_version row inputFormatVersion).
    + apply (cp_keep d _ E t Hcp).
    + unfold seed_known in *. simpl. rewrite <- Hrs. exact Hseed.
    + exact Hw.
    + intros _. split; [done|]. by exists (with_version row inputFormatVersion).
Qed.
Lemma close_good : ready d σ t → good (close_step d t env).
Proof using OK.
  intros Ht. unfold close_step. apply good_unless. destruct (t_checkpoint t) as [c|] eqn:Hc.
  - assert (∀ call k, d_calls d !! k = Some call → nc_ExchangeID call = cp_ExchangeID c → nc_Status call = §"pending" → call ∈ List.filter is_pending (Calls d (cp_ExchangeID c))) as Hin.
    { intros call k Hk He Hp. apply kept_in. split; [|by apply bool_decide_eq_true]. apply Calls_in. eauto. }
    destruct (List.filter is_pending (Calls d (cp_ExchangeID c))) as [|p ps] eqn:Hps.
    + apply good_stay. split; [done|]. intros _ c0 k call He Hk Hx Hp. simpl in He. rewrite Hc in He. injection He as <-.
      by apply (elem_of_nil call), (Hin call k).
    + apply good_stay. split; [done|]. exists c. split; [done|]. rewrite <- Hps in *. split.
      * rewrite Forall_forall. intros k (k0 & -> & Hk0)%list_elem_of_fmap. apply kept_in in Hk0 as [[He [key Hk]]%Calls_in _]. split; [done|].
        exists k0. destruct (do_calls _ _ OK _ _ Hk) as (-> & _). done.
      * intros _ k call Hk Hx Hp. rewrite map_map. destruct (do_calls _ _ OK _ _ Hk) as (-> & _). apply (list_elem_of_fmap_2 (λ c, call_key (with_status c _))).
        by eapply Hin.
  - apply good_stay. split; [done|]. intros _ c0 k call He. simpl in He. congruence.
Qed.
(** After a commit over calls, the ones that wait are those of the cover that were not written. *)
Lemma put_covers d' c pending calls : d_calls d' = put_calls calls (d_calls d) → Forall (λ k, nc_Status k ≠ §"pending") calls → covers d c pending →
  ∀ k call, d_calls d' !! k = Some call → nc_ExchangeID call = cp_ExchangeID c → nc_Status call = §"pending" → k ∈ map call_key pending ∧ k ∉ map call_key calls.
Proof using d.
  intros He Hf Hp k call Hk Hx Hs. rewrite He in Hk. apply put_in in Hk as [[Hin _]|[Hk Hn]]; [rewrite Forall_forall in Hf; by destruct (Hf call Hin)|].
  split; [by apply (Hp k call)|done].
Qed.
Lemma close_commit_good pending : ready d σ t ∧ close_ok d t pending → good (close_commit_step d t env pending).
Proof using OK.
  intros (Ht & c & Hc & Hf & Hcov). unfold close_commit_step, close_commit. rewrite Hc. cbn [mbind option_bind]. apply good_commit. intros d' Hd'.
  destruct (reseal_commit_ok d σ OK (t_session t) (Some (cp_MessageID c)) _ d' Hd' eq_refl) as (D & E & Hcur & Hcalls & _ & Hids); [by left|exact Hf|].
  cbn [nm_Expected nm_Calls] in *. split; [done|done| |].
  - split; [by apply (ready_keep d d' σ σ OK E (reflexivity σ))|]. intros _ c0 k call He Hk Hx Hp. simpl in He. rewrite Hc in He. injection He as <-.
    destruct (put_covers d' c pending pending Hcalls ltac:(by eapply Forall_impl; [exact Hf|intros ? [? _]]) (Hcov Hcur) k call Hk Hx Hp). done.
  - intros i Hi. right. cbn [fst] in Hi. rewrite <- Hids. by apply (list_elem_of_fmap_2 ni_ID).
Qed.
Lemma top_good : ready d σ t ∧ (live d t → sealed d t) → good (top_step d t env).
Proof using OK.
  intros [[((o & Hid & Ho & Ha & Hp & row & Hr & Hro & Hrs & Hv) & Hcp & Hseed & Hw) Hver] Hsealed]. unfold top_step. apply good_unless. rewrite Hr.
  case_match; [apply good_fail|]. apply good_or_fail. intros _ _. apply good_stay. split; [|exact Hsealed]. split; [split; [|split; [|split]]|].
  - exists o. split_and!; try done; [by apply (rw_sessions _ _ ROWS)|]. by exists row.
  - exact Hcp.
  - unfold seed_known in *. simpl. rewrite <- Hrs. exact Hseed.
  - exact Hw.
  - intros Hn. destruct (Hver Hn) as (_ & row0 & Hr0 & Hv0). assert (row0 = row) as -> by congruence. split; [exact Hv0|by exists row].
Qed.
Lemma prepare_good final : ready d σ t ∧ (live d t → sealed d t) → good (prepare_step url_parse d t env final).
Proof using OK FRESH TWO ARCHIVED.
  intros [Ht Hs]. unfold prepare_step. destruct (en_more env).
  - apply input_step_good. by split.
  - apply good_unless, good_stay. split; [done|]. intros Hl. split; [by apply (pending_inputs_held d σ OK)|by apply Hs].
Qed.
Lemma held_more s inputs i : held_ok d s inputs → ni_SessionID i = s → ni_ConsumedBy i = [] → ni_CallID i = [] → ni_ID i ∉ map ni_ID (d_inputs d) →
  held_ok (with_inputs d (d_inputs d ++ [i])) s (inputs ++ [i]).
Proof using d.
  intros (H1 & H2 & H3) Hs Hb Hc Hn. split; [|split].
  - apply Forall_snoc.
    + eapply Forall_impl; [exact H1|]. intros j (Hj & ?). split; [apply elem_of_app; by left|done].
    + split; [apply elem_of_app; right; by left|done].
  - rewrite map_app. apply NoDup_snoc; [done|]. intros (j & He & Hj)%list_elem_of_fmap. apply Hn. rewrite He. apply (list_elem_of_fmap_2 ni_ID).
    rewrite Forall_forall in H1. by apply H1.
  - intros j (Hj & Hjs & Hjb & Hjc). simpl in Hj. apply elem_of_app in Hj as [Hj| ->%list_elem_of_singleton]; [|done]. apply elem_of_app. left. by apply H3.
Qed.
(** The commit of one more input of a request. *)
Lemma more_good inputs i t' p : ready d σ t ∧ (live d t → held_ok d (t_session t) inputs ∧ sealed d t) → input_ok i → ni_ID i = id_at env 0 → ni_CallID i = [] → ni_ConsumedBy i = [] →
  (ready d σ t → ready d σ t') → t_session t' = t_session t → checkpoint_id t' = checkpoint_id t → t_checkpoint t' = t_checkpoint t → t_pc t' = p (inputs ++ [i]) →
  (∀ d0 l, turn_ok d0 σ (goto_ t' (p l)) = (ready d0 σ (goto_ t' (p l)) ∧ (live d0 (goto_ t' (p l)) → held_ok d0 (t_session (goto_ t' (p l))) l ∧ sealed d0 (goto_ t' (p l))))) →
  goto_ t' (t_pc t') = t' → good (commit_step d t env None (inputs_only t [i]) t').
Proof using OK FRESH TWO.
  intros [Ht Hh] Hi Hid Hc Hb Hready Hs Hcid Hcp Hpc Hok Hgoto. apply commit_input; [done..|]. intros d' D E He Hcur Hsi. rewrite <- Hgoto, Hpc, Hok.
  split; [apply (ready_keep d d' σ σ OK E (reflexivity σ)), Hready, Ht|]. intros _. destruct (Hh Hcur) as [Hheld Hsealed]. simpl. rewrite Hs, He. split.
  - apply held_more; [done..|]. rewrite Hid. apply FRESH, new_id. lia.
  - intros c k call Hcc. simpl in Hcc. rewrite Hcp in Hcc. by apply Hsealed.
Qed.
Lemma notice_input_ok i : notice_input url_parse env (id_at env 0) (t_session t) = Ok (Some i) →
  input_ok i ∧ ni_ID i = id_at env 0 ∧ ni_CallID i = [] ∧ ni_ConsumedBy i = [].
Proof using ARCHIVED.
  intros Hn. unfold notice_input in Hn. unfold archived_env in ARCHIVED. destruct (en_notice env) as [segs|]; [|done]. apply res_bind_ok in Hn as (j & Hq & [= <-]).
  apply andb_true_iff in ARCHIVED as [Ha _]. apply andb_true_iff in Ha as [_ Ha]. by apply queued_ok in Hq as (? & ? & _ & _ & _ & ? & ? & _).
Qed.
Lemma notice_good final inputs : ready d σ t ∧ (live d t → held_ok d (t_session t) inputs ∧ sealed d t) → good (notice_step url_parse d t env final inputs).
Proof using OK FRESH TWO ARCHIVED.
  intros Ht. unfold notice_step. apply good_or_fail. intros [i|] Hi; [|by apply good_unless, good_stay].
  destruct (existsb _ _); [by apply good_unless, good_stay|]. destruct (notice_input_ok i Hi) as (H1 & H2 & H3 & H4).
  by apply (more_good inputs i _ (PcDefs final)).
Qed.
Lemma defs_good final inputs : ready d σ t ∧ (live d t → held_ok d (t_session t) inputs ∧ sealed d t) → good (defs_step d t env final inputs).
Proof using OK FRESH TWO.
  intros Ht. unfold defs_step. apply good_or_fail. intros known _. destruct (new_definitions known (en_tools env)) as [added known']. destruct added as [|a added].
  - by apply good_unless, good_stay.
  - apply good_or_fail. intros item Hitem. apply (more_good inputs _ _ (PcBuild final)); try done. by apply (definition_ok _ _ _ (a :: added)).
Qed.
(** ** Requests *)
Lemma append_pending_items inputs w w' : append_pending w inputs = Ok w' →
  w_Items w' = w_Items w ++ map ni_Item inputs ∧ (sound (w_Items w) (w_Materials w) → sound (w_Items w') (w_Materials w')).
Proof using.
  unfold append_pending. revert w. induction inputs as [|i inputs IH]; intros w Hf; cbn [res_fold] in Hf; [injection Hf as <-; by rewrite app_nil_r|].
  apply res_bind_ok in Hf as (w1 & H1 & Hf). apply res_bind_ok in H1 as ([item segs] & Hd & [= <-]). apply IH in Hf as [-> Hs]. destruct (decode_parts _ _ Hd) as [He Ha].
  cbn [fst snd] in *. subst item. cbn [map]. split; [case_match; simpl; by rewrite <- app_assoc|]. intros Hw. apply Hs. case_bool_decide as Ht; simpl; [by apply sound_app|].
  apply sound_item; [done|by apply (decode_archived i)|]. by destruct (decode_shows _ _ Hd).
Qed.
Lemma plain_request_ok prev w inputs store final r : plain_request json_valid url_parse env prev w inputs store final = Ok r → sound (w_Items w) (w_Materials w) →
  rq_prev r = prev ∧ rq_inputs r = inputs ∧ w_Items (rq_window r) = w_Items w ++ map ni_Item inputs ∧ map link_of (rq_input r) = map link_of (w_Items (rq_window r)).
Proof using.
  intros Hp Hs. apply res_bind_ok in Hp as (w' & Hw & Hp). apply res_bind_ok in Hp as (items & Hr & [= <-]). destruct (append_pending_items _ _ _ Hw) as [Hi Hs'].
  split_and!; [done..|]. by apply (resolve_links _ _ _ _ _ _ Hr), Hs'.
Qed.
Lemma window_of_items w : ready d σ t → window_of d t = Ok w → w_Items w = thistory σ t ∧ sound (w_Items w) (w_Materials w).
Proof using OK.
  intros [(Hr & Hc & Hs & Hw) _] Hwin. unfold window_of in Hwin. destruct (t_window t) as [w0|] eqn:He; [injection Hwin as <-; by apply Hw|].
  apply res_bind_ok in Hwin as (r & Hrec & Hload). by apply (loaded_history d σ OK t r w).
Qed.
Lemma replay_ok inputs store final t' r : ready d σ t → replay json_valid url_parse d env t inputs store final = Ok (t', r) →
  ready d σ t' ∧ (∃ w, t' = with_window t w) ∧ rq_prev r = [] ∧ rq_inputs r = inputs ∧ w_Items (rq_window r) = thistory σ t ++ map ni_Item inputs
    ∧ map link_of (rq_input r) = map link_of (w_Items (rq_window r)).
Proof using OK.
  intros Ht Hr. apply res_bind_ok in Hr as (w & Hw & Hr). apply res_bind_ok in Hr as (r' & Hr' & [= <- <-]). pose proof (window_of_items w Ht Hw) as [Hi Hso].
  split; [destruct Ht as [(H1 & H2 & H3 & H4) H5]; split; [|done]; split_and!; [done..|]; by intros w' [= <-]|]. split; [eauto|].
  apply res_bind_ok in Hr' as (_ & _ & Hr'). apply res_bind_ok in Hr' as (w' & Hw' & Hr'). apply res_bind_ok in Hr' as (items & Hres & Hr').
  apply res_bind_ok in Hr' as (_ & _ & [= <-]). destruct (append_pending_items _ _ _ Hw') as [Hi' Hs']. split_and!; [done..|by rewrite <- Hi|].
  by apply (resolve_links _ _ _ _ _ _ Hres), Hs'.
Qed.
Lemma continuation_items s w h items : resolveContinuation s = Ok w → sd_Items s = Some items → items = h ++ sd_Continuation s → sound items (sd_Materials s) →
  w_Items w = sd_Continuation s ∧ sound (w_Items w) (w_Materials w).
Proof using.
  unfold resolveContinuation. intros Hr Hitems Happ Hs. apply res_bind_ok in Hr as (k & Hk & Hr). apply ParseItem_all in Hk as ->.
  destruct (sd_Continuation s) as [|i k]; [by injection Hr as <-|]. apply res_bind_ok in Hr as (items' & Hd & Hr).
  unfold decodeSeedInputs in Hd. rewrite Hitems in Hd. destruct (sd_Version s =? inputFormatVersion); [|done]. apply ParseItem_all in Hd as ->.
  case_match; [done|]. case_match; [done|].
  rewrite (decode_materials (sd_Materials s)) in Hr by apply Hs. cbn [res_bind] in Hr. injection Hr as <-. split; [done|]. cbn [w_Items w_Materials].
  rewrite Happ, length_app, Nat.add_sub. rewrite Happ in Hs. by apply sound_drop.
Qed.
Lemma request_from r inputs t' w : (live d t → held_ok d (t_session t) inputs ∧ sealed d t) → t' = t ∨ t' = with_window t w → rq_inputs r = sort_inputs inputs →
  below σ (rq_prev r) ++ w_Items (rq_window r) = thistory σ t ++ map ni_Item (rq_inputs r) → (rq_prev r ≠ [] → is_Some (σ !! rq_prev r)) →
  map link_of (rq_input r) = map link_of (w_Items (rq_window r)) → request_ok d σ t' r.
Proof using.
  intros Hh Ht' Hi He Hp Hlinks. split; [by destruct Ht' as [-> | ->]|]. split; [done|]. split; [done|]. intros Hl.
  assert (live d t) as Hlt by (destruct Ht' as [-> | ->]; exact Hl). destruct (Hh Hlt) as [H1 H2]. rewrite Hi.
  destruct Ht' as [-> | ->]; (split; [|exact H2]); (apply (held_perm d _ inputs); [symmetry; apply sort_inputs_perm|done]).
Qed.
Lemma build_ok final inputs t' r : ready d σ t ∧ (live d t → held_ok d (t_session t) inputs ∧ sealed d t) →
  build_request json_valid url_parse d env t final inputs = Ok (t', r) → ready d σ t' ∧ request_ok d σ t' r.
Proof using OK.
  intros [Ht Hh] Hb. unfold build_request in Hb. pose proof Ht as [((o & Hrow) & Hcp & Hseed & _) _].
  assert (∀ store, replay json_valid url_parse d env t (sort_inputs inputs) store final = Ok (t', r) → ready d σ t' ∧ request_ok d σ t' r) as Hreplay.
  { intros store Hr. destruct (replay_ok _ _ _ _ _ Ht Hr) as (Ht' & (w & He) & Hp & Hi & Hw & Hl). split; [done|].
    apply (request_from r inputs t' w); [done|by right|done| |by rewrite Hp|done]. rewrite Hp, Hi, Hw. done. }
  assert (∀ prev w store, (let* r := plain_request json_valid url_parse env prev w (sort_inputs inputs) store final in Ok (t, r)) = Ok (t', r) →
    below σ prev ++ w_Items w = thistory σ t → sound (w_Items w) (w_Materials w) → (prev ≠ [] → is_Some (σ !! prev)) → ready d σ t' ∧ request_ok d σ t' r) as Hplain.
  { intros prev w store Hr He Hso Hs. apply res_bind_ok in Hr as (r' & Hr & [= <- <-]). destruct (plain_request_ok _ _ _ _ _ _ Hr Hso) as (Hp & Hi & Hw & Hl). split; [done|].
    apply (request_from r' inputs t w); [done|by left|done| |by rewrite Hp|done]. rewrite Hp, Hi, Hw, app_assoc. by rewrite He. }
  destruct (t_checkpoint t) as [c|] eqn:Hc.
  - destruct (match t_window t with Some w => w_Exchange w | None => t_exchange t end) as [x|]; [|done]. apply res_bind_ok in Hb as ([? available] & _ & Hb).
    case_match; [by eapply Hreplay|]. destruct (Hcp c Hc) as (Hin & _). destruct (checkpoint_ok d σ ROWS c Hin) as (? & _ & _ & ? & ? & ? & ? & ? & ? & F & _ & Hσ).
    apply (Hplain _ _ _ Hb); [|done|rewrite Hσ; eauto]. unfold below, thistory. rewrite Hc, Hσ, bool_decide_eq_false_2 by apply (cf_named _ _ _ _ _ _ _ F). by rewrite app_nil_r.
  - destruct (t_seed t) as [s|] eqn:Hs.
    + case_match eqn:Hcase; [by eapply Hreplay|]. apply res_bind_ok in Hb as (w & Hw & Hb). propify. destruct Hcase as [[_ Hne] _].
      pose proof Hseed as Hk. unfold seed_known in Hk. rewrite Hs in Hk. destruct Hk as (id & s' & H1 & H2 & H3 & H4 & H5 & H6 & H7).
      destruct Hrow as (_ & _ & _ & _ & row & Hr & _ & Hrs & _). rewrite Hrs in H1. destruct (rw_roots _ _ ROWS _ _ _ Hr H1) as [_ (s2 & items & o2 & Hs2 & _ & _ & [] & _)].
      assert (s2 = s') as -> by congruence. rewrite <- H5, <- H6 in so_response. destruct (so_response Hne) as (h & Hh' & Hitems).
      destruct (continuation_items s w h items Hw) as [Hcont Hso]; [congruence|congruence|by rewrite H7|].
      apply (Hplain _ _ _ Hb); [|done|rewrite Hh'; eauto]. rewrite Hcont. unfold below, thistory.
      rewrite bool_decide_eq_false_2, Hh', Hc, Hs, H4, so_items by done. exact (eq_sym Hitems).
    + apply (Hplain _ _ _ Hb); [|done|done]. unfold below, thistory. by rewrite Hc, Hs.
Qed.
Lemma build_good final inputs : ready d σ t ∧ (live d t → held_ok d (t_session t) inputs ∧ sealed d t) → good (build_step json_valid url_parse d t env final inputs).
Proof using OK.
  intros Ht. unfold build_step. apply good_unless, good_or_fail. intros [t' r] Hb. apply good_stay. exact (build_ok final inputs t' r Ht Hb).
Qed.
(** ** Exchanges and commits *)
Lemma send_good r : ready d σ t ∧ request_ok d σ t r → good (send_step d t env r).
Proof using OK FRESH TWO.
  intros [Ht Hr]. pose proof Ht as [((o & Hrow) & Hcp & _) _]. unfold send_step. apply good_unless, good_or_fail. intros [] Hc. apply good_or_fail. intros d' Hd'.
  destruct (create_exchange_ok d σ OK (new_exchange t (id_at env 0) r) d') as (D & E & x & Hx & He & _ & X1 & X2 & X3 & X4 & X5 & X6 & X7); [apply two_ids|done|].
  split; [done|done| |intros i Hi; right; rewrite He in Hi; by apply (list_elem_of_fmap_2 ni_ID)].
  split; [by apply (ready_keep d d' σ σ OK E (reflexivity σ))|]. split; [by apply (request_keep d d' σ σ OK D E (reflexivity σ) t o)|].
  exists x. split_and!; [exact Hx|exact X1|exact X2|exact X5|exact X6|]. destruct Hrow as (_ & Ho & Ha & _). exists o. split; [done|]. rewrite X3, X4. simpl.
  rewrite Ho in Hc. by destruct (CanSwitch_same o (t_origin t) Ha Hc) as (? & ? & _).
Qed.
Lemma live_history : rooted d σ t → live d t → history d σ (t_session t) = thistory σ t.
Proof using OK.
  intros ((o & _ & _ & _ & _ & row & Hr & _ & Hrs & _) & Hcp & Hseed & _) Hl. unfold history, thistory. rewrite Hl. unfold checkpoint_id in *.
  destruct (t_checkpoint t) as [c|] eqn:Hc.
  - destruct (Hcp c Hc) as (Hin & _). destruct (checkpoint_ok d σ ROWS c Hin) as (? & Hne & _). rewrite bool_decide_eq_false_2 by done.
    by rewrite (find_checkpoint_in d σ ROWS c Hin).
  - rewrite bool_decide_eq_true_2, Hr by done. unfold root_items. rewrite <- Hrs. unfold seed_known in Hseed. destruct (t_seed t) as [s|]; [|by rewrite Hseed].
    destruct Hseed as (id & s' & -> & -> & _ & -> & _). done.
Qed.
(** The commit of a response finds everything ready. *)
Lemma advance_ready head id message calls inputs n d' : ready d σ t → answered_ok d σ t → id ≠ [] → advance t id message calls inputs = Some n →
  commit_native d (t_session t) head None n = Ok d' → NoDup (map ni_ID inputs) → (∀ i, i ∈ inputs → ni_ID i ∉ map ni_ID (d_inputs d)) →
  ∃ row o x outs ins c, nm_Checkpoint n = Some c ∧ nm_Snapshot n = None ∧ nm_Consumed n = map ni_ID ins ∧ nm_Calls n = calls ∧ nm_Inputs n = inputs ∧ t_exchange t = Some x
    ∧ cp_Calls c = [] ∧ cp_ID c = id ∧ response_ready d σ (t_session t) row o x outs ins c ∧ (∃ allowed, answer_calls allowed outs ∅ = Ok (t_calls t))
    ∧ Forall (λ i, it_Type i ≠ output_type) outs.
Proof using OK.
  intros Ht (x & outs & ins & r & allowed & H1 & H2 & H3 & (H4 & H5 & H6 & H7) & H8 & H9 & H10 & H11 & H12 & H13 & H14) Hid Ha Hn Hd Hf.
  pose proof Ht as [Hroot Hver]. pose proof Hroot as ((o & Hrid & Hro & Hapi & Hprov & row & Hr & Hor & Hrs & _) & Hcp & Hseed & _).
  unfold advance in Ha. rewrite H1 in Ha. injection Ha as <-. cbn [nm_Checkpoint nm_Snapshot nm_Consumed nm_Calls nm_Inputs].
  destruct (advance_shape d (t_session t) head _ _ d' (rw_seeds _ _ ROWS) Hn eq_refl eq_refl Hd Hf) as (row' & seeds & Hr' & Hcur & _ & _ & _ & Hsd & Hnew & _ & _ & _ & _).
  cbn [nm_Expected cp_SeedID cp_ID] in *. assert (row' = row) as -> by congruence. destruct (H14 Hcur) as [(Hin & Hdup & Hall) _].
  destruct H2 as (Hx & _ & Hxs & Hxp & Hxi & o' & Ho' & Hxa & Hxpr). assert (o' = o) as -> by congruence.
  eexists row, o, x, outs, ins, _. split_and!; try done; [|eauto]. split; cbn; try done.
  - intros Hn'. unfold seed_known in Hseed. destruct (t_seed t) as [s|] eqn:Hs; [destruct Hseed as (? & ? & Hq & _); congruence|].
    destruct (Hver Hs) as (_ & row0 & Hr0 & Hv0). congruence.
  - split_and!; first [done|congruence|exact (eq_sym Hcur)].
  - exists r. split_and!; congruence.
  - rewrite (live_history Hroot Hcur). done.
Qed.
Lemma advanced_ids row x ins new calls c seeds q i : i ∈ d_inputs (advanced d row x ins new calls c seeds q) → ni_ID i ∈ map ni_ID new ∨ ni_ID i ∈ map ni_ID (d_inputs d).
Proof using d.
  simpl. intros (j & -> & Hj)%list_elem_of_fmap. destruct (taken_key (nx_ID x) (map ni_ID ins) j) as ((<- & _) & _).
  apply elem_of_app in Hj as [Hj|Hj]; [right|left]; by apply (list_elem_of_fmap_2 ni_ID).
Qed.
Lemma reply_good : ready d σ t ∧ answered_ok d σ t ∧ t_calls t = [] → good (reply_step d t env).
Proof using OK FRESH TWO.
  intros (Ht & Ha & Hcalls). unfold reply_step. destruct (advance t _ _ [] []) as [n|] eqn:Hn; [|apply good_fail]. apply good_commit. intros d' Hd'.
  destruct (advance_ready None _ _ [] [] n d' Ht Ha (proj1 two_ids) Hn Hd') as (row & o & x & outs & ins & c & N1 & N2 & N3 & N4 & N5 & _ & _ & _ & READY & (allowed & Hans) & Hout);
    [constructor|by intros i ?%elem_of_nil|].
  destruct (advance_commit_ok d σ OK (t_session t) row o x outs ins c None n d' Hd' N1 N2 N3 READY) as (seeds & -> & D & E).
  { rewrite N4, N5. destruct (open_outputs allowed outs ∅ (t_calls t) ∅ Hans Hout) as (Hopen & _); [done|]. rewrite Hcalls in Hopen. split; cbn.
    - split; [rewrite Hopen; f_equal; set_solver|]. split; [constructor|constructor].
    - constructor.
    - constructor.
    - constructor. }
  split; [done|done|done|]. intros i Hi. apply advanced_ids in Hi as [Hi|Hi]; [|by right]. rewrite N5 in Hi. by apply elem_of_nil in Hi.
Qed.
Lemma extra_good : ready d σ t ∧ (live d t → sealed d t) → good (extra_step url_parse d t env).
Proof using OK FRESH TWO ARCHIVED.
  intros Ht. unfold extra_step. destruct (en_more env); [by apply input_step_good|by apply good_unless, good_stay].
Qed.
(** ** Batches *)
Lemma pairs_ids : ∀ n ids, length (pairs_at n ids) = n → NoDup ids → NoDup (map snd (pairs_at n ids)) ∧ ∀ id, id ∈ map snd (pairs_at n ids) → id ∈ ids.
Proof using.
  induction n as [|n IH]; intros [|a [|b ids]] Hl Hd; cbn [pairs_at map] in *; try done; try (by split; [constructor|intros id Hid; by apply elem_of_nil in Hid]).
  simpl in Hl. injection Hl as Hl. apply NoDup_cons in Hd as [Ha Hd]. apply NoDup_cons in Hd as [Hb Hd]. destruct (IH ids Hl Hd) as [H1 H2]. split.
  - constructor; [|done]. intros Hin. by apply Hb, H2.
  - intros id [->|Hin]%elem_of_cons; [by right; left|]. right; right. by apply H2.
Qed.
Lemma Forall2_maps {A B C : Type} (f : A → C) (g : B → C) l k : Forall2 (λ x y, f x = g y) l k → map f l = map g k.
Proof using. induction 1 as [|x y l k He _ IH]; [done|]. cbn [map]. by rewrite He, IH. Qed.
Lemma slots_shape x now l slots : res_map (begin_slot url_parse t x now) (imap pair l) = Ok slots →
  map (λ s, nc_CallID (sl_call s)) slots = map (λ p, tc_ID p.1) l ∧ map (λ s, ni_ID (sl_input s)) slots = map (λ p, p.2.2) l
  ∧ Forall (λ s, nc_ExchangeID (sl_call s) = x ∧ nc_Status (sl_call s) = §"pending" ∧ nc_ResultInputID (sl_call s) = ni_ID (sl_input s)
      ∧ ni_CallID (sl_input s) = nc_CallID (sl_call s) ∧ ni_ExchangeID (sl_input s) = x ∧ ni_SessionID (sl_input s) = t_session t
      ∧ ni_ConsumedBy (sl_input s) = [] ∧ input_ok (sl_input s)) slots.
Proof using.
  intros Hs%res_map_ok.
  assert (Forall2 (λ p s, nc_CallID (sl_call s) = tc_ID p.2.1 ∧ ni_ID (sl_input s) = p.2.2.2 ∧ nc_ExchangeID (sl_call s) = x ∧ nc_Status (sl_call s) = §"pending"
      ∧ nc_ResultInputID (sl_call s) = ni_ID (sl_input s) ∧ ni_CallID (sl_input s) = nc_CallID (sl_call s) ∧ ni_ExchangeID (sl_input s) = x
      ∧ ni_SessionID (sl_input s) = t_session t ∧ ni_ConsumedBy (sl_input s) = [] ∧ input_ok (sl_input s)) (imap pair l) slots) as Hf.
  { eapply Forall2_impl; [exact Hs|]. intros [i [call [message id]]] s Hb. unfold begin_slot in Hb. apply res_bind_ok in Hb as (input & Hq & [= <-]). simpl.
    apply queued_ok in Hq as (? & ? & ? & ? & ? & ? & ? & ?); [|apply archived_text]. by split_and!. }
  assert (∀ {C} (h : _ → C), map h l = map (λ p, h p.2) (imap pair l)) as Hsnd.
  { intros C h. rewrite <- (map_map snd h). f_equal. symmetry. change (snd <$> imap pair l = l). rewrite fmap_imap. change (imap (λ _ x, id x) l = l). by rewrite (imap_const id), list_fmap_id. }
  rewrite !Hsnd. split_and!.
  - symmetry. apply Forall2_maps. eapply Forall2_impl; [exact Hf|]. by intros p s (-> & _).
  - symmetry. apply Forall2_maps. eapply Forall2_impl; [exact Hf|]. by intros p s (_ & -> & _).
  - rewrite Forall_forall. intros s [n Hn]%list_elem_of_lookup. destruct (Forall2_lookup_r _ _ _ _ _ Hf Hn) as (p & _ & _ & _ & ?). done.
Qed.
Lemma drop_NoDup n : NoDup (drop n (en_ids env)) ∧ ∀ id, id ∈ drop n (en_ids env) → id ∈ en_ids env.
Proof using ONCE.
  pose proof ONCE as Hd. rewrite <- (take_drop n (en_ids env)) in Hd. apply NoDup_app in Hd as (_ & _ & Hd). split; [done|].
  intros id Hid. rewrite <- (take_drop n (en_ids env)). apply elem_of_app. by right.
Qed.
(** A turn that moved to its new checkpoint. *)
Lemma moved_ready d' n calls c : ready d' σ t → with_cp_calls c calls ∈ d_checkpoints d' → cp_SessionID c = t_session t → Forall (λ k, nc_Status k = §"pending") calls →
  ready d' σ (with_root_ t (Some (with_cp_calls c calls)) (if bool_decide (nm_ConsumeSeed n = []) then t_seed t else seed_consumed <$> t_seed t) None (t_definitions t)).
Proof using.
  intros [(Hr & _ & Hs & _) Hv] Hin Hsess Hp. split; [split; [|split; [|split]]|].
  - exact Hr.
  - intros c0 He. simpl in He. injection He as <-. done.
  - unfold seed_known in *. simpl. destruct (bool_decide _); [done|]. destruct (t_seed t); [exact Hs|done].
  - done.
  - intros Hn. apply Hv. simpl in Hn. destruct (bool_decide _); [done|]. by destruct (t_seed t).
Qed.
Lemma begin_good : ready d σ t ∧ answered_ok d σ t → good (begin_step url_parse max_rounds d t env).
Proof using OK FRESH TWO ONCE ARCHIVED json_valid.
  intros [Ht Ha]. unfold begin_step. destruct (t_exchange t) as [x|] eqn:Hx; [|apply good_fail]. destruct (_ && negb (en_more env)); [by apply good_stay|].
  destruct (negb _) eqn:Hlen; [apply good_fail|]. apply negb_false_iff, Nat.eqb_eq in Hlen. apply good_or_fail. intros slots Hslots.
  destruct (slots_shape _ _ _ _ Hslots) as (Hcalls & Hids & Hf). set (calls := map sl_call slots) in *. set (new := map sl_input slots) in *.
  assert (map nc_CallID calls = map tc_ID (t_calls t)) as Hcall_ids.
  { unfold calls. rewrite map_map, Hcalls. rewrite <- (map_map fst tc_ID). f_equal. apply fst_zip. lia. }
  assert (map ni_ID new = map snd (pairs_at (length (t_calls t)) (drop 2 (en_ids env)))) as Hnew_ids.
  { unfold new. rewrite map_map, Hids. rewrite <- (map_map snd snd). f_equal. apply snd_zip. lia. }
  destruct (drop_NoDup 2) as [Hdrop Hdrop_in]. destruct (pairs_ids _ _ Hlen Hdrop) as [Hnd Hin].
  destruct (advance t _ _ calls new) as [n|] eqn:Hn; [|apply good_fail]. apply good_commit. intros d' Hd'. rewrite Forall_forall in Hf.
  assert (∀ i, i ∈ new → ni_ID i ∈ en_ids env) as Hnew_in. { intros i Hi. apply Hdrop_in, Hin. rewrite <- Hnew_ids. by apply (list_elem_of_fmap_2 ni_ID). }
  destruct (advance_ready (Some (id_at env 1)) _ _ calls new n d' Ht Ha (proj1 two_ids) Hn Hd') as (row & o & x' & outs & ins & c & N1 & N2 & N3 & N4 & N5 & Hx' & Hcc & Hcid & READY & (allowed & Hans) & Hout);
    [by rewrite Hnew_ids|intros i Hi; by apply FRESH, Hnew_in|]. assert (x' = x) as -> by congruence.
  destruct (open_outputs allowed outs ∅ (t_calls t) ∅ Hans Hout) as (Hopen & Hcnd & Hcne); [done|].
  assert (slots_ready d (t_session t) x outs calls new) as SLOTS.
  { split.
    - rewrite Hcall_ids. split; [rewrite Hopen; f_equal; set_solver|]. split; [done|]. rewrite Forall_forall. intros k Hk. apply Hcne. rewrite <- Hcall_ids.
      by apply (list_elem_of_fmap_2 nc_CallID).
    - unfold calls, new. apply Forall2_fmap. apply Forall_Forall2_diag. rewrite Forall_forall. intros s0 Hs0. destruct (Hf s0 Hs0) as (? & ? & ? & ? & ? & _). by split_and!.
    - rewrite Forall_forall. intros i Hi. pose proof (Hnew_in i Hi) as Hie. destruct (FRESH _ Hie). unfold new in Hi. apply list_elem_of_fmap in Hi as (s0 & -> & Hs0).
      destruct (Hf s0 Hs0) as (_ & _ & _ & _ & _ & ? & ? & ?). by split_and!.
    - by rewrite Hnew_ids. }
  destruct (advance_commit_ok d σ OK (t_session t) row o x outs ins c (Some (id_at env 1)) n d' Hd' N1 N2 N3 READY) as (seeds & Heq & D & E); [by rewrite N4, N5|].
  rewrite N4, N5 in Heq. destruct (rr_checkpoint _ _ _ _ _ _ _ _ _ READY) as (_ & _ & Hcs & _ & Hcx & _).
  assert (with_cp_calls c calls ∈ d_checkpoints d') as Hcin by (rewrite Heq; apply elem_of_app; right; left).
  unfold moved. rewrite N1, N4. split; [done|done| |].
  - split; [|exists (with_cp_calls c calls); split; [done|split; [|intros _]]].
    + apply (moved_ready d' n calls c); [by apply (ready_keep d d' σ σ OK E (reflexivity σ))|done|done|].
      rewrite Forall_forall. intros k (s0 & -> & Hs0)%list_elem_of_fmap. by destruct (Hf s0 Hs0) as (_ & ? & _).
    + rewrite Forall_forall. intros s0 Hs0. destruct (Hf s0 Hs0) as (F1 & F2 & F3 & F4 & _). split_and!; [by rewrite F1|done| |].
      * exists (sl_input s0). split; [|done]. rewrite Heq. apply (advanced_inputs d σ OK (t_session t) row o x outs ins new calls c seeds (nm_ConsumeSeed n) READY SLOTS). right.
        by apply (list_elem_of_fmap_2 sl_input).
      * destruct (put_new calls (d_calls d) (sl_call s0)) as (k' & Hk' & Hk'in & Hkey); [by apply (list_elem_of_fmap_2 sl_call)|]. exists k'. rewrite Heq. split; [done|]. f_equal.
        injection Hkey as _ Hkey. apply (map_unique nc_CallID calls); [by rewrite Hcall_ids|done|by apply (list_elem_of_fmap_2 sl_call)|done].
    + intros k call Hk He Hp. rewrite Heq in Hk. apply put_in in Hk as [[Hk ->]|[Hk _]].
      * apply (list_elem_of_fmap_2 call_key), kept_in. split; [done|]. by apply bool_decide_eq_true.
      * destruct (do_calls _ _ OK _ _ Hk) as (_ & _ & cp & Hcp & Hcpx & _). destruct (not_committed d σ OK (t_session t) row o x outs ins c READY cp Hcp).
        simpl in He. congruence.
  - rewrite Heq. intros i Hi. apply advanced_ids in Hi as [(j & -> & Hj)%list_elem_of_fmap|Hi]; [left; by apply Hnew_in|by right].
Qed.
Lemma pending_slots slots : map sl_call (List.filter (λ s, is_pending (sl_call s)) slots) = List.filter is_pending (map sl_call slots).
Proof using. induction slots as [|s0 slots IH]; [done|]. cbn [List.filter map]. destruct (is_pending (sl_call s0)); cbn [map]; by rewrite IH. Qed.
Lemma batch_good summary head slots : ready d σ t ∧ batch_ok d t slots → good (batch_step_ url_parse d t env summary head slots).
Proof using OK ARCHIVED.
  intros (Ht & c & Hc & Hf & Hcov). unfold batch_step_. destruct (left_slots slots =? 0)%nat eqn:Hleft.
  - apply good_unless, good_stay. assert (ready d σ t ∧ (live d t → sealed d t)) as Hdone.
    { split; [done|]. intros Hl c0 k call He Hk Hx Hp. assert (c0 = c) as -> by congruence. pose proof (Hcov Hl k call Hk Hx Hp) as Hin. rewrite <- pending_slots in Hin.
      apply Nat.eqb_eq in Hleft. unfold left_slots in Hleft. apply length_zero_iff_nil in Hleft. rewrite Hleft in Hin. by apply elem_of_nil in Hin. }
    by destruct summary.
  - destruct (slots !! en_index env) as [s0|] eqn:Hs0; [|apply good_fail]. destruct (is_pending (sl_call s0)) eqn:Hpend; [|apply good_fail].
    apply good_or_fail. intros [n slots'] Hres. unfold result_commit in Hres. rewrite Hs0, Hc in Hres. apply res_bind_ok in Hres as (input & Hq & [= <- <-]). cbn [fst snd].
    apply good_commit. intros d' Hd'. rewrite Forall_forall in Hf. pose proof (list_elem_of_lookup_2 _ _ _ Hs0) as Hin0. destruct (Hf s0 Hin0) as (F1 & F2 & (old & Hold & F3) & c0 & F4 & F5).
    apply queued_ok in Hq as (Q1 & Q2 & _); [|by unfold archived_env in ARCHIVED; apply andb_true_iff in ARCHIVED as [Ha _]; apply andb_true_iff in Ha as [Ha _]].
    destruct (reseal_commit_ok d σ OK (t_session t) (Some head) _ d' Hd' eq_refl) as (D & E & Hcur & Hcalls & _ & Hids).
    { right. exists input, old. split_and!; [done..|congruence]. }
    { apply Forall_singleton. split; [done|]. exists c0. by split. }
    cbn [nm_Calls nm_Expected] in *. split; [done|done| |intros i Hi; right; cbn [fst] in Hi; rewrite <- Hids; by apply (list_elem_of_fmap_2 ni_ID)].
    split; [by apply (ready_keep d d' σ σ OK E (reflexivity σ))|]. exists c. split; [done|]. split.
    + rewrite Forall_forall. intros s1 Hs1. apply list_elem_of_lookup in Hs1 as [j Hj]. apply list_lookup_insert_Some in Hj as [(<- & <- & _)|[_ Hj]].
      * destruct (slot_keep d d' E c s0 (Hf s0 Hin0)) as (K1 & K2 & (i & Hi & K3) & c1 & K4 & K5). split_and!; simpl; [done|congruence|exists i; split; [done|congruence]|].
        exists c1. done.
      * apply (slot_keep d d' E), Hf. by eapply list_elem_of_lookup_2.
    + intros _ k call Hk Hx Hp. destruct (put_covers d' c _ _ Hcalls ltac:(by apply Forall_singleton) (Hcov Hcur) k call Hk Hx Hp) as [Hin Hout].
      apply list_elem_of_fmap in Hin as (k0 & -> & Hk0). rewrite <- pending_slots in Hk0. apply list_elem_of_fmap in Hk0 as (s1 & -> & Hs1). apply kept_in in Hs1 as [Hs1 Hp1].
      rewrite <- pending_slots. apply (list_elem_of_fmap_2 call_key), (list_elem_of_fmap_2 sl_call), kept_in. split; [|done].
      apply list_elem_of_lookup in Hs1 as [j Hj]. apply list_elem_of_lookup. exists j. rewrite list_lookup_insert_ne; [done|]. intros <-.
      assert (s1 = s0) as -> by congruence. apply Hout. by left.
Qed.
End Steps.

(** ** Answers *)
Lemma memory_ok `{UnicodeTables} d σ σ' : db_ok d σ → σ ⊆ σ' → db_ok d σ'.
Proof.
  intros OK MEM. pose proof (do_rows _ _ OK) as ROWS. pose proof (evolve_refl d) as EV.
  apply (db_keep d d σ σ' OK EV MEM); [|apply (do_named _ _ OK)|eauto 10|done|intros s Hn [? ?]; congruence].
  apply (rows_keep d d σ σ' OK EV MEM).
  - intros s row Hr. split; [by apply (rw_sessions _ _ ROWS)|congruence].
  - apply (rw_seeds _ _ ROWS).
  - apply (rw_exchanges _ _ ROWS).
  - apply (rw_inputs _ _ ROWS).
  - apply (rw_ids _ _ ROWS).
  - exists None. simpl. by rewrite app_nil_r.
Qed.
Lemma remember_grows w t env : match t_pc t with PcStream _ _ => provider_ok w (en_answer env) | _ => true end = true → nw_server w ⊆ nw_server (remember w t env).
Proof.
  unfold remember. destruct (t_pc t); try done. unfold provider_ok. intros Hp. apply andb_true_iff in Hp as [_ Hp].
  destruct (an_Error (en_answer env)); [done|]. destruct (an_Response (en_answer env)) as [|r0|]; [done| |done]. repeat (apply andb_true_iff in Hp as [Hp ?]).
  simpl. apply insert_subseteq. by destruct (nw_server w !! rs_ID r0).
Qed.
Section Answers.
Context `{UnicodeTables} (json_valid : gostring → bool) (url_parse : gostring → option (gostring * gostring)).
(** The facts an answer leaves, whatever the turn makes of it. *)
Lemma after_failure d σ (OK : db_ok d σ) t env r x saved e : ready d σ t → request_ok d σ t r → an_Error (en_answer env) = Some e →
  turn_ok d σ (after_answer json_valid url_parse d env t r x saved).
Proof.
  intros Ht Hr He. unfold after_answer. rewrite He. case_match; [by case_match|].
  destruct (replay json_valid url_parse d env t (rq_inputs r) (rq_store r) (rq_final r)) as [[t' r']|?|] eqn:Hreplay; [|done..].
  case_match; [|done]. destruct (replay_ok json_valid url_parse d σ OK t env _ _ _ _ _ Ht Hreplay) as (Ht' & (w & ->) & Hp & Hi & Hw & Hl). split; [exact Ht'|].
  destruct Hr as (Heq & _ & _ & Hh). split; [|split; [|split]].
  - rewrite Hp, Hi, Hw. done.
  - by rewrite Hp.
  - exact Hl.
  - rewrite Hi. exact Hh.
Qed.
Lemma after_success d σ t env r x resp : ready d σ t → request_ok d σ t r → an_Error (en_answer env) = None → an_Response (en_answer env) = Json resp →
  an_Status (en_answer env) = §"completed" → rs_Status resp = §"completed" → rs_ID resp ≠ [] →
  Forall (λ i, parses i ∧ it_Type i ≠ output_type) (an_Items (en_answer env)) →
  exchange_of d t (nx_ID x) (finished x (en_answer env)) (map ni_ID (rq_inputs r)) →
  σ !! rs_ID resp = Some (below σ (rq_prev r) ++ w_Items (rq_window r) ++ an_Items (en_answer env)) →
  turn_ok d σ (after_answer json_valid url_parse d env t r x true).
Proof.
  intros Ht (Heq & _ & _ & Hh) He Hresp Hst Hrs Hne Hitems Hx Hσ. unfold after_answer. rewrite He. cbn [negb].
  destruct (answer_calls (an_Allowed (en_answer env)) (an_Items (en_answer env)) ∅) as [calls|?|] eqn:Hcalls; [|done..]. destruct (_ && _); [done|]. rewrite Hresp.
  apply Forall_and in Hitems as [Hp Ho].
  assert (answered_ok d σ (with_result t (finished x (en_answer env)) (rs_ID resp) (rq_consumed r) calls)) as Ha.
  { exists (finished x (en_answer env)), (an_Items (en_answer env)), (rq_inputs r), resp, (an_Allowed (en_answer env)). split_and!; try done.
    cbn [t_response with_result]. rewrite Hσ, app_assoc, Heq, <- app_assoc. done. }
  destruct calls as [|k calls]; [split; [exact Ht|split; [exact Ha|done]]|]. case_match; [done|]. split; [exact Ht|exact Ha].
Qed.
Lemma stream_good w t env r e : let d := nw_db w in let σ' := nw_server (remember w t env) in let p := stream_step json_valid url_parse d t env r e in
  t_pc t = PcStream r e → db_ok d (nw_server w) → turn_ok d (nw_server w) t → provider_ok w (en_answer env) = true →
  db_ok p.1 σ' ∧ evolve d p.1 ∧ turn_ok p.1 σ' p.2 ∧ d_inputs p.1 = d_inputs d.
Proof.
  intros d σ' p Hpc OK Ht Hprov. assert (nw_server w ⊆ σ') as MEM by (apply remember_grows; by rewrite Hpc).
  pose proof (memory_ok d _ σ' OK MEM) as OK'. pose proof (turn_keep d d _ σ' OK OK' (evolve_refl d) MEM t Ht) as Ht'.
  unfold turn_ok in Ht'. rewrite Hpc in Ht'. destruct Ht' as (Hready & Hreq & x & Hx).
  pose proof Hx as (Hxd & Hxid & _). unfold provider_ok in Hprov. apply andb_true_iff in Hprov as [Hprov Hend]. apply andb_true_iff in Hprov as [Hitems _].
  assert (turn_ok d σ' (after_answer json_valid url_parse d env t r x false)) as Hunsaved.
  { destruct (an_Error (en_answer env)) as [err|] eqn:He; [by eapply after_failure|]. unfold after_answer. by rewrite He. }
  subst p. unfold stream_step. rewrite Hxd.
  destruct (match an_Archive (en_answer env) with Some e => Err e | None => FinishExchange _ _ _ _ _ end) as [d'|err|] eqn:Hst; [|split_and!; [done|apply evolve_refl|done|done]..].
  destruct (an_Archive (en_answer env)); [done|]. destruct (finish_exchange_ok d σ' OK' e _ _ _ d' Hst) as (D & E & _).
  assert (d' = with_exchange d (finished x (en_answer env))) as ->.
  { unfold FinishExchange in Hst. rewrite Hxd in Hst. case_match; [done|]. case_match; [|done]. by injection Hst as <-. }
  set (d' := with_exchange d (finished x (en_answer env))) in *. split; [done|]. split; [done|]. split; [|done]. cbn [fst snd].
  pose proof (ready_keep d d' σ' σ' OK' E (reflexivity σ') t Hready) as Hready'.
  pose proof Hready as [((o & Hrow) & Hcp & _) _]. pose proof (request_keep d d' σ' σ' OK' D E (reflexivity σ') t o r Hrow Hcp Hreq) as Hreq'.
  destruct (an_Error (en_answer env)) as [err|] eqn:He; [by eapply after_failure|].
  destruct (an_Response (en_answer env)) as [|resp|] eqn:Hresp; [done| |done]. repeat (apply andb_true_iff in Hend as [Hend ?]).
  repeat match goal with H : bool_decide _ = true |- _ => apply bool_decide_eq_true in H | H : negb (bool_decide _) = true |- _ => apply negb_true_iff, bool_decide_eq_false in H end.
  apply (after_success d' σ' t env r x resp); try done.
  - rewrite Forall_forall. intros i Hi. apply forallb_forall with (x := i) in Hitems; [|by apply list_elem_of_In]. destruct (ParseItem i) as [i'| |] eqn:Hparse; [|done..].
    apply negb_true_iff, bool_decide_eq_false in Hitems. split; [|done]. unfold parses. by rewrite Hparse, (ParseItem_ok _ _ Hparse).
  - destruct Hx as (_ & X1 & X2 & X3 & X4 & X5). split_and!; [|done..]. unfold d'. simpl. rewrite lookup_insert_eq. done.
  - unfold turn_ok in Ht. rewrite Hpc in Ht. destruct Ht as (_ & (_ & Hprev & _) & _). rewrite (below_keep (nw_server w) σ' MEM _ Hprev).
    unfold σ', remember. rewrite Hpc, He, Hresp. simpl. apply lookup_insert_eq.
Qed.
End Answers.
