(* ===== verification/NativeTheorems.v ===== *)
(** * The conversation of the Responses agent is never lost

    Reachable worlds of turns, forks and copies: the stored history of every
    session rebuilds the conversation the provider holds, every request
    continues it with all calls answered, a branch starts from the conversation
    of its source, and no stored input is lost or used twice. *)
From S2P Require Import Prelude GoStr Segment HookPipeline ToolPermit ToolTranscript NativeStore NativeTurn NativeLoad NativeCommit.
From S2P Require Import NativeTurnProps.
Open Scope Z_scope.

(** ** Branches *)
Section Branches.
Context `{UnicodeTables} (json_valid : gostring → bool) (media_ids : gostring → list gostring) (d : ndb) (σ : memory) (OK : db_ok d σ).
Let ROWS : rows_ok d σ := do_rows d σ OK.
Lemma close_calls calls w k w' k' : closeBranchCalls w k calls = Ok (w', k') →
  ∃ l, w_Items w' = w_Items w ++ l ∧ k' = k ++ l ∧ Forall parses l ∧ w_Materials w' = w_Materials w ∧ w_Origin w' = w_Origin w.
Proof using.
  revert w k. induction calls as [|c calls IH]; intros w k Hc; cbn [closeBranchCalls] in Hc.
  { injection Hc as <- <-. exists []. rewrite !app_nil_r. by split_and!. }
  case_match; [by apply IH in Hc|]. apply res_bind_ok in Hc as (item & Hi & Hc). apply IH in Hc as (l & H1 & -> & H3 & H4 & H5).
  exists (item :: l). rewrite H1, H4, H5. simpl. rewrite <- !app_assoc. split_and!; try done. constructor; [|done]. by apply output_item in Hi as (_ & _ & _ & _ & ?).
Qed.
Lemma parsed_root row id : se_Seed row = Some id → root_ok d σ row id → Forall parses (root_items d row).
Proof using. intros Hs [_ (seed & items & o & Hseed & _ & _ & [] & _)]. unfold root_items. rewrite Hs, Hseed, so_items. done. Qed.
Lemma parsed_history c h : c ∈ d_checkpoints d → σ !! cp_ResponseID c = Some h → Forall parses h.
Proof using OK.
  intros (before & after & He)%list_elem_of_split Hσ. destruct (lineage_of d σ ROWS _ before c after eq_refl He) as (row & l & h' & Hl & Hσ' & _).
  assert (h = root_items d row ++ h') as -> by congruence. apply Forall_app. split.
  - pose proof (lineage_facts _ _ _ _ _ Hl) as [(o & x & outs & ins & F) _]%Forall_cons. pose proof (cf_row _ _ _ _ _ _ _ F) as Hr.
    destruct (se_Seed row) as [id|] eqn:Hs; [|unfold root_items; rewrite Hs; constructor]. apply (parsed_root row id Hs). by apply (rw_roots _ _ ROWS _ _ _ Hr).
  - clear -Hl ROWS. assert (∀ c o x outs ins, cp_facts d c row o x outs ins → Forall parses (map ni_Item ins ++ outs)) as Hone.
    { intros c0 o x outs ins F. apply Forall_app. split; [|apply (cf_parses _ _ _ _ _ _ _ F)]. rewrite Forall_forall. intros i (j & -> & Hj)%list_elem_of_fmap.
      apply (cf_inputs _ _ _ _ _ _ _ F) in Hj as [Hj _]. destruct (input_kind j) as [? _]; [by apply (input_ok_in d σ ROWS j)|done]. }
    induction Hl as [c o x outs ins F _|c o x outs ins p l h F _ _ _ IH]; [by eapply Hone|]. apply Forall_app. split; [done|by eapply Hone].
Qed.
Lemma results_parse calls : Forall parses (map ni_Item (results_of d calls)).
Proof using OK.
  rewrite Forall_forall. intros i (j & -> & (c & Hc & Hj)%list_elem_of_omap)%list_elem_of_fmap. case_match; [done|]. apply find_some in Hj as [Hj _].
  destruct (input_kind j) as [? _]; [by apply (input_ok_in d σ ROWS j)|done].
Qed.
(** The seed of a window is ready for a new session, and continues the response it names. *)
Lemma branch_ok ctx id w calls response seed : branch_seed json_valid media_ids ctx id w calls response = Ok seed →
  Forall parses (w_Items w) → Forall parses (w_Completed w) → sound (w_Items w) (w_Materials w) →
  (response ≠ [] → ∃ h, σ !! response = Some h ∧ w_Items w = h ++ w_Completed w) → prepared_ok σ seed.
Proof using.
  intros Hb Hp Hc Ha Hr. apply res_bind_ok in Hb as ([w' k] & Hclose & Hb). apply res_bind_ok in Hb as ([] & Hlinks & Hb). apply res_bind_ok in Hb as (_ & _ & [= <-]).
  destruct (close_calls _ _ _ _ _ Hclose) as (l & H1 & -> & H3 & H4 & _). exists (w_Items w'). split; [split; cbn; try done|].
  - rewrite H1. by apply Forall_app.
  - rewrite H1, H4. by apply sound_app.
  - by apply Forall_app.
  - intros Hn. destruct (Hr Hn) as (h & Hh & He). exists h. split; [done|]. by rewrite H1, He, <- app_assoc.
  - apply res_bind_ok in Hlinks as (o & Ho & Hlinks). cbn [negb andb] in Hlinks. case_bool_decide as He; [|done]. by rewrite Ho, He.
Qed.
Lemma loaded_branch ctx id c row r w response seed : c ∈ d_checkpoints d → d_sessions d !! cp_SessionID c = Some row → LoadNativeWindow d row (Some c) = Ok r → Load row (Some c) r = Ok w →
  stored_response w c = Ok response → branch_seed json_valid media_ids ctx id w (cp_Calls c) response = Ok seed → prepared_ok σ seed.
Proof using OK.
  intros Hc Hrow Hr Hw Hs Hb. destruct (load_total d σ ROWS row c Hc Hrow) as (h & r' & w' & Hσ & []). assert (r' = r) as -> by congruence. assert (w' = w) as -> by congruence.
  apply (branch_ok ctx id w (cp_Calls c) response seed Hb); [|rewrite lo_completed; apply results_parse|done|].
  - rewrite lo_items. apply Forall_app. split; [by apply (parsed_history c)|apply results_parse].
  - intros Hn. unfold stored_response in Hs. destruct (w_Exchange w) as [x|]; [|done]. apply res_bind_ok in Hs as ([? available] & _ & [= <-]).
    destruct available; [|done]. exists h. split; [done|]. by rewrite lo_items, lo_completed.
Qed.
Lemma message_checkpoint s message c : CheckpointForMessage d s message = Ok c → c ∈ d_checkpoints d ∧ cp_SessionID c = s.
Proof using.
  unfold CheckpointForMessage. intros Hf. destruct (List.find _ _) as [c'|] eqn:Hc; [|done]. injection Hf as <-. apply List.find_some in Hc as [Hin Hb].
  apply andb_true_iff in Hb as [Hb _]. apply bool_decide_eq_true in Hb. split; [|done]. by apply list_elem_of_In, in_rev.
Qed.
Lemma current_checkpoint s c : CurrentCheckpoint d s = Ok (Some c) → c ∈ d_checkpoints d ∧ cp_SessionID c = s.
Proof using.
  unfold CurrentCheckpoint. intros Hc. destruct (d_sessions d !! s); [|done]. destruct (se_Checkpoint _); [|done]. destruct (find_checkpoint d _) as [c'|] eqn:Hf; [|done].
  case_bool_decide; [|done]. injection Hc as <-. by apply find_some in Hf as [? _].
Qed.
Lemma wrap_ok {A : Type} p (m : res A) a : res_wrap p m = Ok a → m = Ok a.
Proof using. apply res_wrap_ok. Qed.
Lemma fork_ok ctx id row message seed expected : d_sessions d !! se_ID row = Some row →
  PrepareFork json_valid media_ids ctx id d row message = Ok (seed, expected) → prepared_ok σ seed.
Proof using OK.
  intros Hrow Hf. apply res_bind_ok in Hf as (latest & _ & Hf). destruct latest as [latest|]; [|done]. apply res_bind_ok in Hf as (c & Hc & Hf).
  apply wrap_ok, message_checkpoint in Hc as [Hc Hs]. apply res_bind_ok in Hf as (r & Hr & Hf). apply res_bind_ok in Hf as (w & Hw & Hf).
  apply res_bind_ok in Hf as (response & Hresp & Hf). apply res_bind_ok in Hf as (seed' & Hseed & [= <- <-]).
  by apply (loaded_branch ctx id c row r w response seed' Hc); [rewrite Hs|..].
Qed.
Lemma copy_ok ctx id row seed expected : d_sessions d !! se_ID row = Some row →
  PrepareCopy json_valid media_ids ctx id d row = Ok (seed, expected) → prepared_ok σ seed.
Proof using OK.
  intros Hrow Hf. apply res_bind_ok in Hf as (cp & Hcp & Hf). destruct (PendingInputs d (se_ID row)) as [|i inputs].
  - apply res_bind_ok in Hf as (r & Hr & Hf). apply res_bind_ok in Hf as (w & Hw & Hf). destruct cp as [c|].
    + apply current_checkpoint in Hcp as [Hc Hs]. apply res_bind_ok in Hf as (response & Hresp & Hf). apply res_bind_ok in Hf as (seed' & Hseed & [= <- <-]).
      by apply (loaded_branch ctx id c row r w response seed' Hc); [rewrite Hs|..].
    + apply res_bind_ok in Hf as (seed' & Hseed & [= <- <-]). unfold Load in Hw. destruct (se_Origin row) as [o|]; [|done].
      destruct (negb _ || _); [done|]. apply res_bind_ok in Hw as (w' & Hw' & Hw). destruct (wr_Seed r) as [sd|] eqn:Hsd; [|done]. injection Hw as ->.
      unfold load_root in Hw'. rewrite Hsd in Hw'. destruct (negb _ || _); [done|]. apply res_bind_ok in Hw' as (items & Hitems & Hw'). apply res_bind_ok in Hw' as (ms & Hms & [= <-]).
      pose proof (records_seed d _ _ _ Hr) as Hrs. rewrite Hsd in Hrs. destruct Hrs as (sid & Hsid & Hdb).
      destruct (rw_roots _ _ ROWS _ _ _ Hrow Hsid) as [_ (sd2 & items2 & o2 & E2 & _ & _ & [] & _)]. assert (sd2 = sd) as -> by congruence.
      assert (items = items2) as ->.
      { unfold decodeSeedInputs in Hitems. rewrite so_items in Hitems. destruct (sd_Version sd =? inputFormatVersion); [|done]. by apply ParseItem_all in Hitems. }
      rewrite (decode_materials (sd_Materials sd)) in Hms by apply so_materials. injection Hms as <-.
      by apply (branch_ok ctx id _ [] [] seed' Hseed); cbn.
  - destruct cp as [c|]; [|done]. case_match; [done|]. apply res_bind_ok in Hf as (snapshot & _ & Hf). apply res_bind_ok in Hf as (ids & _ & Hf).
    case_match; [|done]. by eapply fork_ok.
Qed.
End Branches.

(** ** Worlds *)
Section Worlds.
Context `{UnicodeTables} (json_valid : gostring → bool) (url_parse : gostring → option (gostring * gostring)) (max_rounds : nat) (media_ids : gostring → list gostring).
Record world_ok (w : nworld) : Prop := {
  wo_db : db_ok (nw_db w) (nw_server w);
  wo_turns : ∀ k t, nw_turns w !! k = Some t → turn_ok (nw_db w) (nw_server w) t;
  wo_ids : ∀ i, i ∈ d_inputs (nw_db w) → ni_ID i ∈ nw_ids w;
  wo_prepared : Forall (λ p : NativeSeed * gostring * gostring, prepared_ok (nw_server w) p.1.1) (nw_prepared w)
}.
Lemma prepared_keep σ σ' seed : σ ⊆ σ' → prepared_ok σ seed → prepared_ok σ' seed.
Proof using. intros MEM (items & Hs & Ho). exists items. split; [|done]. apply (seed_step_ok σ σ' seed seed items); [by left|done|done]. Qed.
Lemma fresh_facts w ids : fresh_ids w ids = true → NoDup ids ∧ ∀ id, id ∈ ids → id ≠ [] ∧ id ∉ nw_ids w.
Proof using.
  intros Hf. apply andb_true_iff in Hf as [Hd Hf]. apply bool_decide_eq_true in Hd. split; [done|]. intros id Hid%list_elem_of_In.
  rewrite forallb_forall in Hf. specialize (Hf id Hid). apply andb_true_iff in Hf as [H1 H2]. apply negb_true_iff, bool_decide_eq_false in H1, H2. done.
Qed.
Lemma empty_ok : world_ok empty_nworld.
Proof using.
  split; [|by intros k t|by intros i Hi; apply elem_of_nil in Hi|constructor]. split.
  - split; try done; [apply NoDup_nil_2|]. intros before c after He. by destruct before.
  - done.
  - done.
  - intros i Hi. by apply elem_of_nil in Hi.
  - by intros s [? ?].
Qed.
(** One step of a turn. *)
Lemma turn_step_ok w k t env p : world_ok w → nw_turns w !! k = Some t → env_ok w t env = true → turn_step json_valid url_parse max_rounds (nw_db w) t env = Some p →
  let σ' := nw_server (remember w t env) in
  db_ok p.1 σ' ∧ evolve (nw_db w) p.1 ∧ turn_ok p.1 σ' p.2 ∧ ∀ i, i ∈ d_inputs p.1 → ni_ID i ∈ en_ids env ∨ ni_ID i ∈ map ni_ID (d_inputs (nw_db w)).
Proof using.
  intros [D T I P] Ht He Hs σ'. pose proof (T k t Ht) as Hok. unfold env_ok in He. apply andb_true_iff in He as [He Hprov]. apply andb_true_iff in He as [He Harch].
  apply andb_true_iff in He as [Hfresh Htwo]. apply Nat.leb_le in Htwo. apply fresh_facts in Hfresh as [Honce Hfresh].
  assert (∀ id, id ∈ en_ids env → id ≠ [] ∧ id ∉ map ni_ID (d_inputs (nw_db w))) as Hf.
  { intros id Hid. destruct (Hfresh id Hid) as [Hne Hn]. split; [done|]. intros (i & -> & Hi)%list_elem_of_fmap. by apply Hn, I. }
  assert (∀ q, good (nw_db w) (nw_server w) env q → σ' = nw_server w →
    db_ok q.1 σ' ∧ evolve (nw_db w) q.1 ∧ turn_ok q.1 σ' q.2 ∧ ∀ i, i ∈ d_inputs q.1 → ni_ID i ∈ en_ids env ∨ ni_ID i ∈ map ni_ID (d_inputs (nw_db w))) as Hgood.
  { intros q [G1 G2 G3 G4] ->. done. }
  destruct (t_pc t) eqn:Hpc; unfold turn_step in Hs; rewrite Hpc in Hs; try done; injection Hs as <-; unfold turn_ok in Hok; rewrite Hpc in Hok.
  14: { destruct (stream_good json_valid url_parse w t env r exchange Hpc D (T k t Ht) Hprov) as (G1 & G2 & G3 & G4). split_and!; [done..|].
    intros i Hi. right. rewrite G4 in Hi. by apply (list_elem_of_fmap_2 ni_ID). }
  all: apply Hgood; [|by unfold σ', remember; rewrite Hpc].
  - by apply start_good.
  - by apply checkpoint_good.
  - by apply window_good.
  - by apply format_good.
  - by apply input_step_good.
  - by apply close_good.
  - by apply close_commit_good.
  - by apply top_good.
  - by apply prepare_good.
  - by apply notice_good.
  - by apply defs_good.
  - by apply build_good.
  - by apply send_good.
  - by apply reply_good.
  - by apply begin_good.
  - by apply batch_good.
  - by apply input_step_good.
  - by apply extra_good.
Qed.
(** A change of the database by someone else. *)
Lemma others_ok w d' σ' turns ids prepared : world_ok w → db_ok d' σ' → evolve (nw_db w) d' → nw_server w ⊆ σ' →
  (∀ k t, turns !! k = Some t → nw_turns w !! k = Some t ∨ turn_ok d' σ' t) → (∀ i, i ∈ d_inputs d' → ni_ID i ∈ ids ∨ ni_ID i ∈ map ni_ID (d_inputs (nw_db w))) → nw_ids w ⊆ ids →
  Forall (λ p : NativeSeed * gostring * gostring, prepared_ok σ' p.1.1) prepared →
  world_ok {| nw_db := d'; nw_turns := turns; nw_prepared := prepared; nw_ids := ids; nw_server := σ' |}.
Proof using.
  intros [D T I P] D' E MEM Ht Hi Hids Hp. split; cbn; [done| | |done].
  - intros k t Hk. destruct (Ht k t Hk) as [Hk'|]; [|done]. by apply (turn_keep (nw_db w) d' (nw_server w) σ' D D' E MEM), (T k).
  - intros i Hin. destruct (Hi i Hin) as [?|(j & -> & Hj)%list_elem_of_fmap]; [done|]. by apply Hids, I.
Qed.
Lemma prepared_grows w σ' : world_ok w → nw_server w ⊆ σ' → Forall (λ p : NativeSeed * gostring * gostring, prepared_ok σ' p.1.1) (nw_prepared w).
Proof using. intros [_ _ _ P] MEM. eapply Forall_impl; [exact P|]. intros p. by apply prepared_keep. Qed.
Lemma create_ok d σ row seed source expected others d' : db_ok d σ → prepared_ok σ seed → CreateMaterial d row (Some seed) source expected others = Ok d' →
  db_ok d' σ ∧ evolve d d' ∧ d_inputs d' = d_inputs d.
Proof using.
  intros D Hp Hc. unfold CreateMaterial in Hc. apply res_bind_ok in Hc as (_ & _ & Hc). case_bool_decide as Hid; [done|].
  destruct (se_Origin row) as [o|] eqn:Ho; [|done]. destruct (negb _ || _) eqn:Hwire; [done|]. propify. destruct Hwire as [W1 W2].
  apply res_bind_ok in Hc as (d1 & H1 & Hc). unfold insert_session in H1. destruct (d_sessions d !! _) eqn:Hrow; [done|]. injection H1 as <-.
  destruct others; [done|]. destruct (_ || _ || _) eqn:Hid2; [done|]. propify. destruct Hid2 as [[I1 I2] _].
  destruct (d_seeds _ !! sd_ID seed) eqn:Hseed; [done|]. injection Hc as <-.
  destruct (new_session_ok d σ D (with_root row (sd_ID seed)) (Some (seed_for seed (se_ID row)))) as [D' E']; [done|done|done| |done].
  intros s [= <-]. split_and!; try done.
  - destruct Hp as (items & [] & Hopen). exists items. split; [|done]. by split.
  - exists o. unfold complete. rewrite <- W1, <- W2. by split_and!.
Qed.
Lemma exec_ok w e w' : world_ok w → nexec json_valid url_parse max_rounds media_ids w e = Some w' → world_ok w'.
Proof using.
  intros W He. pose proof W as [D T I P]. destruct e as [row|k session o|k env|fork session id|n row others]; cbn [nexec] in He.
  - destruct (CreateMaterial _ row None [] [] None) as [d'|?|] eqn:Hc; [|done..]. destruct (_ && _) eqn:Hb; [|done]. injection He as <-.
    apply andb_true_iff in Hb as [H1 H2]. apply bool_decide_eq_true in H1, H2. apply res_bind_ok in Hc as (_ & _ & Hc). apply res_bind_ok in Hc as (d1 & Hins & [= ->]).
    unfold insert_session in Hins. destruct (d_sessions _ !! se_ID row) eqn:Hn; [done|]. injection Hins as <-.
    destruct (new_session_ok (nw_db w) (nw_server w) D row None) as [D' E']; [done|done|by rewrite H2|done|]. simpl in D', E'.
    apply (others_ok w _ _ _ _ _ W D' E' (reflexivity _)); [by left|intros i Hi; right; by apply (list_elem_of_fmap_2 ni_ID)|done|done].
  - destruct (nw_turns w !! k) eqn:Hk; [done|]. injection He as <-. apply (others_ok w _ _ _ _ _ W D (evolve_refl _) (reflexivity _)); [|intros i Hi; right; by apply (list_elem_of_fmap_2 ni_ID)|done|done].
    intros k' t [[_ <-]|[_ Hk']]%lookup_insert_Some; [by right|by left].
  - apply bind_Some in He as (t & Ht & He). destruct (env_ok w t env) eqn:Henv; [|done]. cbn [negb] in He. apply bind_Some in He as (p & Hp & [= <-]).
    destruct (turn_step_ok w k t env p W Ht Henv Hp) as (D' & E' & T' & I').
    assert (nw_server w ⊆ nw_server (remember w t env)) as MEM.
    { apply remember_grows. unfold env_ok in Henv. by apply andb_true_iff in Henv as [_ ?]. }
    assert (nw_turns (remember w t env) = nw_turns w ∧ nw_prepared (remember w t env) = nw_prepared w ∧ nw_ids (remember w t env) = nw_ids w) as (R1 & R2 & R3).
    { unfold remember. repeat case_match; done. }
    unfold with_turn, with_db, take_ids. simpl. rewrite R1, R2, R3. apply (others_ok w _ _ _ _ _ W D' E' MEM).
    + intros k' t' [[_ <-]|[_ Hk']]%lookup_insert_Some; [by right|by left].
    + intros i Hi. destruct (I' i Hi); [left; set_solver|by right].
    + set_solver.
    + by apply (prepared_grows w).
  - destruct (fresh_ids w [id]) eqn:Hf; [|done]. cbn [negb] in He. apply bind_Some in He as (row & Hrow & He). pose proof (rw_sessions _ _ (do_rows _ _ D) _ _ Hrow) as Hid.
    rewrite <- Hid in Hrow.
    assert (∀ seed expected, (match fork with Some message => PrepareFork json_valid media_ids None id (nw_db w) row message
        | None => PrepareCopy json_valid media_ids None id (nw_db w) row end) = Ok (seed, expected) → prepared_ok (nw_server w) seed) as Hprep.
    { intros seed expected Hq. destruct fork as [g|]; [by apply (fork_ok json_valid media_ids (nw_db w) (nw_server w) D None id row g seed expected)|
        by apply (copy_ok json_valid media_ids (nw_db w) (nw_server w) D None id row seed expected)]. }
    destruct (match fork with Some _ => _ | None => _ end) as [[seed expected]|?|] eqn:Hq; [|done..]. injection He as <-. specialize (Hprep _ _ eq_refl).
    unfold take_ids. simpl. apply (others_ok w _ _ _ _ _ W D (evolve_refl _) (reflexivity _)); [by left|intros i Hi; right; by apply (list_elem_of_fmap_2 ni_ID)|set_solver|].
    apply Forall_app. split; [done|]. by apply Forall_singleton.
  - apply bind_Some in He as (p & Hp & He). destruct (CreateMaterial _ _ _ _ _ _) as [d'|?|] eqn:Hc; [|done..]. injection He as <-.
    rewrite Forall_forall in P. pose proof (P p (list_elem_of_lookup_2 _ _ _ Hp)) as Hseed. destruct (create_ok _ _ _ _ _ _ _ _ D Hseed Hc) as (D' & E' & Hin).
    apply (others_ok w _ _ _ _ _ W D' E' (reflexivity _)); [by left| |done|by rewrite Forall_forall]. rewrite Hin. intros i Hi. right. by apply (list_elem_of_fmap_2 ni_ID).
Qed.
Lemma nrun_ok l w w' : world_ok w → nrun json_valid url_parse max_rounds media_ids w l = Some w' → world_ok w'.
Proof using.
  revert w. induction l as [|e l IH]; intros w W Hr; cbn [nrun] in Hr; [by injection Hr as <-|].
  apply bind_Some in Hr as (w1 & H1 & Hr). eapply IH; [|exact Hr]. by eapply exec_ok.
Qed.
End Worlds.

(** ** What is kept *)
(** ** What the invariant says *)
Section Kept.
Context `{UnicodeTables} (d : ndb) (σ : memory) (OK : db_ok d σ).
Let ROWS : rows_ok d σ := do_rows d σ OK.
Lemma current_pending s c : CurrentCheckpoint d s = Ok (Some c) → c ∈ d_checkpoints d ∧ Forall (λ k, nc_Status k = §"pending") (cp_Calls c).
Proof using OK.
  intros Hc. pose proof (current_checkpoint d s c Hc) as [Hin _]. split; [done|]. unfold CurrentCheckpoint in Hc. destruct (d_sessions d !! s) as [row|] eqn:Hr; [|done].
  destruct (se_Checkpoint row) as [id|] eqn:Hid; [|done]. destruct (find_checkpoint d id) as [c'|] eqn:Hf; [|done]. case_bool_decide; [|done]. injection Hc as ->.
  apply find_some in Hf as [_ Hcid]. assert (cur d s = id) as Hcur by (by rewrite (cur_row _ _ _ Hr), Hid).
  destruct (ss_current _ _ _ (do_sessions _ _ OK _ (mk_is_Some _ _ Hr))) as (c1 & Hc1 & Hid1 & _ & Hp).
  { rewrite Hcur. intros ->. by apply (do_named _ _ OK _ _ Hr). }
  assert (c1 = c) as <-; [|done]. apply (checkpoint_unique d σ OK); [done..|congruence].
Qed.
(** The first checkpoint of a session that has one. *)
Lemma first_checkpoint c : c ∈ d_checkpoints d → ∃ c0, c0 ∈ d_checkpoints d ∧ cp_SessionID c0 = cp_SessionID c ∧ cp_ParentID c0 = [].
Proof using OK.
  assert (∀ before after, d_checkpoints d = before ++ after → ∀ c, c ∈ before → ∃ c0, c0 ∈ d_checkpoints d ∧ cp_SessionID c0 = cp_SessionID c ∧ cp_ParentID c0 = []) as Hb.
  { induction before as [|c1 before IH] using rev_ind; intros after He c' Hc'; [by apply elem_of_nil in Hc'|]. rewrite <- app_assoc in He.
    apply elem_of_app in Hc' as [Hc'| ->%list_elem_of_singleton]; [by apply (IH _ He)|].
    destruct (rw_checkpoints _ _ ROWS before c1 after He) as (_ & _ & ? & ? & ? & ? & ? & ? & _ & [[Hp _]|(p & Hp & _ & Hs & _)] & _).
    - exists c1. split_and!; [|done..]. rewrite He. apply elem_of_app. right. by left.
    - destruct (IH _ He p Hp) as (c0 & H1 & H2 & H3). exists c0. split_and!; congruence. }
  apply (Hb _ []). by rewrite app_nil_r.
Qed.
Lemma checkpoint_current c : c ∈ d_checkpoints d → ∃ cp h, CurrentCheckpoint d (cp_SessionID c) = Ok (Some cp) ∧ σ !! cp_ResponseID cp = Some h ∧ h = history d σ (cp_SessionID c).
Proof using OK.
  intros Hc. destruct (first_checkpoint c Hc) as (c0 & Hc0 & Hs & Hp). destruct (checkpoint_facts d σ ROWS c Hc) as (row & o & x & outs & ins & F). pose proof (cf_row _ _ _ _ _ _ _ F) as Hr.
  pose proof (do_sessions _ _ OK _ (mk_is_Some _ _ Hr)) as S. assert (cur d (cp_SessionID c) ≠ []) as Hne.
  { intros He. apply (ss_top _ _ _ S c0 Hc0 Hs). congruence. }
  destruct (ss_current _ _ _ S Hne) as (cp & Hcp & Hid & Hcs & _). destruct (checkpoint_ok d σ ROWS cp Hcp) as (? & _ & _ & ? & ? & ? & ? & ? & ? & _ & _ & Hσ).
  eexists cp, _. split; [|split; [exact Hσ|]].
  - unfold CurrentCheckpoint. rewrite Hr. rewrite (cur_row _ _ _ Hr) in Hid, Hne. destruct (se_Checkpoint row) as [id|]; [|done]. simpl in Hid. subst id.
    rewrite (find_checkpoint_in d σ ROWS cp Hcp). by rewrite bool_decide_eq_true_2.
  - unfold history. rewrite bool_decide_eq_false_2 by done. rewrite <- Hid, (find_checkpoint_in d σ ROWS cp Hcp). by rewrite Hσ.
Qed.
Lemma consumed_kept i : i ∈ d_inputs d → ni_ConsumedBy i ≠ [] →
  ∃ c h, CurrentCheckpoint d (ni_SessionID i) = Ok (Some c) ∧ σ !! cp_ResponseID c = Some h ∧ ni_Item i ∈ h.
Proof using OK.
  intros Hi Hb. destruct (do_consumed _ _ OK i Hi Hb) as (cp & Hcp & He). destruct (checkpoint_facts d σ ROWS cp Hcp) as (row & o & x & outs & ins & F).
  pose proof (cf_exchange _ _ _ _ _ _ _ F) as Hx. apply (rw_exchanges _ _ ROWS) in Hx as [Hx _]. pose proof (proj2 (cf_inputs _ _ _ _ _ _ _ F i)) as Hin.
  pose proof (cf_mine _ _ _ _ _ _ _ F) as Hm. rewrite Forall_forall in Hm. assert (ni_SessionID i = cp_SessionID cp) as Hs by (apply Hm, Hin; split; [done|congruence]).
  destruct (checkpoint_current cp Hcp) as (c & h & H1 & H2 & H3). exists c, h. rewrite Hs. split_and!; [done..|]. rewrite H3, <- Hs.
  apply (ss_done d σ (ni_SessionID i)); [|done..]. apply (do_sessions _ _ OK). rewrite Hs. eexists. apply (cf_row _ _ _ _ _ _ _ F).
Qed.
(** The manifests of committed responses are disjoint. *)
Lemma manifests_disjoint c c' x x' id : c ∈ d_checkpoints d → c' ∈ d_checkpoints d → d_exchanges d !! cp_ExchangeID c = Some x → d_exchanges d !! cp_ExchangeID c' = Some x' →
  id ∈ nx_InputIDs x → id ∈ nx_InputIDs x' → cp_ExchangeID c = cp_ExchangeID c' ∧ NoDup (nx_InputIDs x).
Proof using OK.
  intros Hc Hc' Hx Hx' Hi Hi'. destruct (checkpoint_facts d σ ROWS c Hc) as (? & ? & y & ? & ins & F), (checkpoint_facts d σ ROWS c' Hc') as (? & ? & y' & ? & ins' & F').
  pose proof (cf_exchange _ _ _ _ _ _ _ F) as Hy. pose proof (cf_exchange _ _ _ _ _ _ _ F') as Hy'. assert (y = x) as -> by congruence. assert (y' = x') as -> by congruence.
  apply (rw_exchanges _ _ ROWS) in Hx as [Hx _], Hx' as [Hx' _]. rewrite (cf_manifest _ _ _ _ _ _ _ F) in Hi |- *. rewrite (cf_manifest _ _ _ _ _ _ _ F') in Hi'.
  split; [|apply (cf_once _ _ _ _ _ _ _ F)]. apply list_elem_of_fmap in Hi as (i & He & Hi), Hi' as (i' & He' & Hi'). apply (cf_inputs _ _ _ _ _ _ _ F) in Hi as [Hi Hb].
  apply (cf_inputs _ _ _ _ _ _ _ F') in Hi' as [Hi' Hb']. assert (i = i') as <-; [|congruence]. apply (map_unique ni_ID (d_inputs d)); [apply (rw_ids _ _ ROWS)|done..|congruence].
Qed.
(** A request of a turn at its session's checkpoint. *)
Lemma request_closed t r : ready d σ t → request_ok d σ t r → live d t →
  open_calls (below σ (rq_prev r) ++ rq_input r) ∅ = Ok ∅ ∧ below σ (rq_prev r) ++ w_Items (rq_window r) = history d σ (t_session t) ++ map ni_Item (rq_inputs r).
Proof using OK.
  intros [Hroot _] (He & _ & Hlinks & Hh) Hl. destruct (Hh Hl) as [(Hin & Hd & Hall) _]. rewrite (live_history d σ OK t Hroot Hl). split; [|done].
  rewrite (open_calls_links _ (below σ (rq_prev r) ++ w_Items (rq_window r))) by (by rewrite !map_app, Hlinks). rewrite He, <- (live_history d σ OK t Hroot Hl).
  apply (held_close d σ OK); [|done..]. destruct Hroot as ((o & _ & _ & _ & _ & row & Hr & _) & _). eauto.
Qed.
End Kept.
(** ** Forks *)
Section Forks.
Context `{UnicodeTables} (json_valid : gostring → bool) (media_ids : gostring → list gostring) (d : ndb) (σ : memory) (OK : db_ok d σ).
Let ROWS : rows_ok d σ := do_rows d σ OK.
Lemma closed_already calls w k : Forall (λ c, nc_ResultInputID c ≠ []) calls → closeBranchCalls w k calls = Ok (w, k).
Proof using. induction 1 as [|c calls Hc _ IH]; [done|]. cbn [closeBranchCalls]. by rewrite bool_decide_eq_false_2. Qed.
Lemma calls_named c : c ∈ d_checkpoints d → Forall (λ k, nc_ResultInputID k ≠ []) (cp_Calls c).
Proof using OK.
  intros Hc. destruct (checkpoint_facts d σ ROWS c Hc) as (row & o & x & outs & ins & F). eapply Forall_impl; [exact (cf_calls _ _ _ _ _ _ _ F)|].
  intros k (_ & i & Hi & <- & _). by destruct (input_ok_in d σ ROWS i Hi).
Qed.
Lemma fork_conversation ctx id row message seed expected : d_sessions d !! se_ID row = Some row →
  PrepareFork json_valid media_ids ctx id d row message = Ok (seed, expected) →
  ∃ c h, CheckpointForMessage d (se_ID row) message = Ok c ∧ σ !! cp_ResponseID c = Some h
    ∧ sd_Items seed = Some (h ++ map ni_Item (results_of d (cp_Calls c))) ∧ sd_Continuation seed = map ni_Item (results_of d (cp_Calls c))
    ∧ open_calls (h ++ map ni_Item (results_of d (cp_Calls c))) ∅ = Ok ∅ ∧ sd_ResponseID seed ∈ [[]; cp_ResponseID c] ∧ expected = cur d (se_ID row).
Proof using OK.
  intros Hrow Hf. apply res_bind_ok in Hf as (latest & Hlatest & Hf). destruct latest as [latest|]; [|done]. apply res_bind_ok in Hf as (c & Hc & Hf). apply wrap_ok in Hc.
  pose proof (message_checkpoint _ _ _ _ Hc) as [Hin Hs]. apply res_bind_ok in Hf as (r & Hr & Hf). apply res_bind_ok in Hf as (w & Hw & Hf).
  apply res_bind_ok in Hf as (response & Hresp & Hf). apply res_bind_ok in Hf as (seed' & Hseed & [= <- <-]).
  destruct (load_total d σ ROWS row c Hin) as (h & r' & w' & Hσ & []); [by rewrite Hs|]. assert (r' = r) as -> by congruence. assert (w' = w) as -> by congruence.
  unfold branch_seed, close_branch in Hseed. rewrite closed_already in Hseed by (by apply calls_named). cbn [res_bind] in Hseed.
  apply res_bind_ok in Hseed as ([] & Hlinks & Hseed). apply res_bind_ok in Hseed as (_ & _ & [= <-]). exists c, h. cbn. rewrite lo_items, lo_completed in *. split_and!; try done.
  - apply res_bind_ok in Hlinks as (o & Ho & Hlinks). cbn [negb andb] in Hlinks. case_bool_decide as He; [|done]. by rewrite Ho, He.
  - unfold stored_response in Hresp. destruct (w_Exchange w); [|done]. apply res_bind_ok in Hresp as ([? available] & _ & [= <-]). destruct available; set_solver.
  - unfold CurrentCheckpoint in Hlatest. unfold cur. rewrite Hrow in *. destruct (se_Checkpoint row) as [cid|]; [|done]. destruct (find_checkpoint d cid) eqn:Hfind; [|done].
    case_bool_decide; [|done]. injection Hlatest as ->. by apply find_some in Hfind as [_ ->].
Qed.
End Forks.
(** ** A run *)
Section Sample.
#[local] Existing Instance ascii_tables.
Definition sample_origin : LLMOrigin := {| or_APIType := api_response; or_Provider := §"p"; or_BaseURL := §"b" |}.
Definition sample_row (id : gostring) : session_row :=
  {| se_ID := id; se_Origin := None; se_Version := 0; se_Checkpoint := None; se_Seed := None; se_Compact := None |}.
Definition sample_message (id : gostring) : Message :=
  {| sm_ID := id; sm_SessionID := §"s"; sm_Role := RoleUser_; sm_Content := §"hi"; sm_ToolCallID := []; sm_Segments := Absent; sm_Metadata := Absent |}.
Definition sample_answer (id : gostring) (items : list jv) : answer :=
  {| an_Status := §"completed"; an_Response := Json {| rs_ID := id; rs_Status := §"completed"; rs_Store := None; rs_Output := items |}; an_Items := items;
     an_Started := true; an_Error := None; an_Unavailable := false; an_Archive := None; an_Allowed := [§"f"] |}.
Definition sample_env (more : bool) (ids : list gostring) (message : gostring) (a : answer) : nenv :=
  {| en_fail := None; en_more := more; en_ids := ids; en_now := 0; en_message := sample_message message; en_messages := []; en_segments := TextSegments §"done";
     en_origin := None; en_notice := None; en_tools := []; en_store := true; en_prepare := Ok; en_answer := a; en_retry := false; en_chat := false; en_index := 0 |}.
Definition sample_reply : jv :=
  JObj [(§"type", JStr message_type); (§"role", JStr §"assistant"); (§"content", JArr [JObj [(§"type", JStr §"output_text"); (§"text", JStr §"ok")]])].
Definition sample_call : jv := JObj [(§"type", JStr call_type); (§"call_id", JStr §"k"); (§"name", JStr §"f"); (§"arguments", JStr §"{}")].
Definition plain_step (a b : gostring) : nevent := Step 0 (sample_env false [a; b] [] (sample_answer [] [])).
(** A turn up to its second request: a message, a call, its result. *)
Definition sample_start : list nevent :=
  [NewSession (sample_row §"s"); StartTurn 0 §"s" sample_origin; plain_step §"a1" §"b1"; plain_step §"a2" §"b2"; plain_step §"a3" §"b3"; plain_step §"a4" §"b4";
   Step 0 (sample_env true [§"i1"; §"b5"] §"m1" (sample_answer [] [])); plain_step §"a6" §"b6"; plain_step §"a7" §"b7"; plain_step §"a8" §"b8";
   plain_step §"a9" §"b9"; plain_step §"a10" §"b10"; plain_step §"a11" §"b11"; plain_step §"x1" §"b12";
   Step 0 (sample_env false [§"a13"; §"b13"] [] (sample_answer §"r1" [sample_call]));
   Step 0 (sample_env true [§"c1"; §"h1"; §"m2"; §"i2"] §"m1" (sample_answer [] [])); plain_step §"h2" §"b15"; plain_step §"a16" §"b16"; plain_step §"a17" §"b17";
   plain_step §"a18" §"b18"; plain_step §"a19" §"b19"; plain_step §"a20" §"b20"; plain_step §"a21" §"b21"; plain_step §"a22" §"b22"].
(** Then the reply, and a fork at it. *)
Definition sample_end : list nevent :=
  [plain_step §"x2" §"b23"; Step 0 (sample_env false [§"a24"; §"b24"] [] (sample_answer §"r2" [sample_reply]));
   Step 0 (sample_env true [§"c2"; §"h3"] §"m3" (sample_answer [] []))].
Definition sample_run (l : list nevent) : option nworld := nrun (λ _, true) (λ _, None) 3 (λ _, []) empty_nworld l.
End Sample.

(** ** The properties *)
Section Properties.
Context `{UnicodeTables} (json_valid : gostring → bool) (url_parse : gostring → option (gostring * gostring)) (max_rounds : nat) (media_ids : gostring → list gostring).
Abbreviation reached l w := (nrun json_valid url_parse max_rounds media_ids empty_nworld l = Some w).
Lemma reached_ok l w : reached l w → db_ok (nw_db w) (nw_server w) ∧ ∀ k t, nw_turns w !! k = Some t → turn_ok (nw_db w) (nw_server w) t.
Proof using. intros Hr. pose proof (nrun_ok json_valid url_parse max_rounds media_ids l _ w empty_ok Hr) as []. done. Qed.
(** C10: whatever the turns, commits, forks, copies and failures before, the window of every stored checkpoint loads: its items are the conversation the
    provider holds under the checkpoint's response, followed by the results the checkpoint already has; at the current checkpoint of a session they are
    exactly that conversation. *)
Theorem history_replays l w c : reached l w → c ∈ d_checkpoints (nw_db w) →
  ∃ row h r win, d_sessions (nw_db w) !! cp_SessionID c = Some row ∧ nw_server w !! cp_ResponseID c = Some h
    ∧ LoadNativeWindow (nw_db w) row (Some c) = Ok r ∧ Load row (Some c) r = Ok win ∧ w_Items win = h ++ map ni_Item (results_of (nw_db w) (cp_Calls c))
    ∧ (CurrentCheckpoint (nw_db w) (cp_SessionID c) = Ok (Some c) → w_Items win = h).
Proof using.
  intros [OK _]%reached_ok Hc. destruct (checkpoint_facts _ _ (do_rows _ _ OK) c Hc) as (row & o & x & outs & ins & F). pose proof (cf_row _ _ _ _ _ _ _ F) as Hr.
  destruct (load_total _ _ (do_rows _ _ OK) row c Hc Hr) as (h & r & win & Hσ & []). exists row, h, r, win. split_and!; try done.
  intros [_ Hp]%(current_pending _ _ OK). rewrite lo_items, results_pending by done. by rewrite app_nil_r.
Qed.
(** C12: a fork at a message starts from the conversation under the response of that message followed by the results of its calls, with no call open; when it
    continues the response on the provider's side, it sends just those results. *)
Theorem forks_continue l w ctx id row message seed expected : reached l w → d_sessions (nw_db w) !! se_ID row = Some row →
  PrepareFork json_valid media_ids ctx id (nw_db w) row message = Ok (seed, expected) →
  ∃ c h, CheckpointForMessage (nw_db w) (se_ID row) message = Ok c ∧ nw_server w !! cp_ResponseID c = Some h
    ∧ sd_Items seed = Some (h ++ map ni_Item (results_of (nw_db w) (cp_Calls c))) ∧ sd_Continuation seed = map ni_Item (results_of (nw_db w) (cp_Calls c))
    ∧ open_calls (h ++ map ni_Item (results_of (nw_db w) (cp_Calls c))) ∅ = Ok ∅ ∧ sd_ResponseID seed ∈ [[]; cp_ResponseID c]
    ∧ expected = cur (nw_db w) (se_ID row).
Proof using. intros [OK _]%reached_ok. by apply fork_conversation. Qed.
(** C13: no stored input is lost and none is used twice: an input waits for the next request of its session, or its item is in the conversation under the current
    checkpoint of the session; the requests of different committed responses share no input, and none holds one twice. *)
Theorem inputs_kept l w : reached l w →
  (∀ i, i ∈ d_inputs (nw_db w) → (ni_ConsumedBy i = [] ∧ i ∈ PendingInputs (nw_db w) (ni_SessionID i))
    ∨ ∃ c h, CurrentCheckpoint (nw_db w) (ni_SessionID i) = Ok (Some c) ∧ nw_server w !! cp_ResponseID c = Some h ∧ ni_Item i ∈ h)
  ∧ ∀ c c' x x' id, c ∈ d_checkpoints (nw_db w) → c' ∈ d_checkpoints (nw_db w) → d_exchanges (nw_db w) !! cp_ExchangeID c = Some x →
      d_exchanges (nw_db w) !! cp_ExchangeID c' = Some x' → id ∈ nx_InputIDs x → id ∈ nx_InputIDs x' → cp_ExchangeID c = cp_ExchangeID c' ∧ NoDup (nx_InputIDs x).
Proof using.
  intros [OK _]%reached_ok. split; [|intros c c' x x' id; by apply (manifests_disjoint _ (nw_server w) OK)]. intros i Hi.
  destruct (decide (ni_ConsumedBy i = [])) as [Hb|Hb]; [left|right; by apply consumed_kept]. split; [done|].
  unfold PendingInputs. rewrite order_by_time_perm. apply kept_in. by rewrite !bool_decide_eq_true_2.
Qed.
End Properties.

(** ** Witnesses *)
#[local] Existing Instance ascii_tables.
Definition sample_world (l : list nevent) : nworld := default empty_nworld (sample_run l).
Lemma sample_reached l : match sample_run l with Some _ => true | None => false end = true → nrun (λ _, true) (λ _, None) 3 (λ _, []) empty_nworld l = Some (sample_world l).
Proof. unfold sample_world. change (nrun _ _ _ _ _ _) with (sample_run l). by destruct (sample_run l). Qed.
Lemma sample_half : nrun (λ _, true) (λ _, None) 3 (λ _, []) empty_nworld sample_start = Some (sample_world sample_start).
Proof. apply sample_reached. vm_compute. reflexivity. Qed.
Abbreviation sample_all := (sample_start ++ sample_end).
Lemma sample_whole : nrun (λ _, true) (λ _, None) 3 (λ _, []) empty_nworld sample_all = Some (sample_world sample_all).
Proof. apply sample_reached. vm_compute. reflexivity. Qed.
Abbreviation sample_d := (nw_db (sample_world sample_all)).
Abbreviation sample_fork row := (PrepareFork (λ _, true) (λ _, []) None §"seed" sample_d row §"m3").
Definition sample_test (w : nworld) : bool :=
  match CurrentCheckpoint (nw_db w) §"s", d_sessions (nw_db w) !! §"s", d_inputs (nw_db w), d_checkpoints (nw_db w) with
  | Ok (Some c), Some row, i :: _, c1 :: c2 :: _ =>
    bool_decide (cp_SessionID c = §"s") && bool_decide ((length <$> nw_server w !! cp_ResponseID c) = Some 4%nat) && bool_decide (se_ID row = §"s")
    && match PrepareFork (λ _, true) (λ _, []) None §"seed" (nw_db w) row §"m3" with Ok (seed, _) => bool_decide (sd_ResponseID seed = §"r2") | _ => false end
    && negb (bool_decide (ni_ConsumedBy i = []))
    && match d_exchanges (nw_db w) !! cp_ExchangeID c1, d_exchanges (nw_db w) !! cp_ExchangeID c2 with
       | Some x, Some x' => bool_decide (ni_ID i ∈ nx_InputIDs x) && bool_decide (ni_ID i ∈ nx_InputIDs x') && negb (bool_decide (cp_ID c1 = cp_ID c2))
       | _, _ => false
       end
  | _, _, _, _ => false
  end.
(** What the whole run ends with: two more checkpoints of the first exchange, a reply, and a fork at it. *)
Lemma sample_facts : ∃ c row i x x' c1 c2 seed, CurrentCheckpoint sample_d §"s" = Ok (Some c) ∧ cp_SessionID c = §"s"
  ∧ (length <$> nw_server (sample_world sample_all) !! cp_ResponseID c) = Some 4%nat ∧ d_sessions sample_d !! se_ID row = Some row
  ∧ sample_fork row = Ok seed ∧ sd_ResponseID seed.1 = §"r2" ∧ i ∈ d_inputs sample_d ∧ ni_ConsumedBy i ≠ []
  ∧ c1 ∈ d_checkpoints sample_d ∧ c2 ∈ d_checkpoints sample_d ∧ cp_ID c1 ≠ cp_ID c2 ∧ d_exchanges sample_d !! cp_ExchangeID c1 = Some x
  ∧ d_exchanges sample_d !! cp_ExchangeID c2 = Some x' ∧ ni_ID i ∈ nx_InputIDs x ∧ ni_ID i ∈ nx_InputIDs x'.
Proof.
  assert (sample_test (sample_world sample_all) = true) as Ht by (vm_compute; reflexivity). generalize (sample_world sample_all) Ht. clear Ht. intros w Ht. unfold sample_test in Ht.
  destruct (CurrentCheckpoint (nw_db w) §"s") as [[c|]|?|] eqn:Hc; [|done..]. destruct (d_sessions (nw_db w) !! §"s") as [row|] eqn:Hrow; [|done].
  destruct (d_inputs (nw_db w)) as [|i l] eqn:Hi; [done|]. destruct (d_checkpoints (nw_db w)) as [|c1 [|c2 k]] eqn:Hk; [done..|].
  destruct (PrepareFork _ _ _ _ _ row _) as [[seed e]|?|] eqn:Hseed; [|by rewrite ?andb_false_r in Ht..].
  destruct (d_exchanges (nw_db w) !! cp_ExchangeID c1) as [x|] eqn:Hx; [|by rewrite andb_false_r in Ht].
  destruct (d_exchanges (nw_db w) !! cp_ExchangeID c2) as [x'|] eqn:Hx'; [|by rewrite andb_false_r in Ht].
  repeat match goal with H : _ && _ = true |- _ => apply andb_true_iff in H as [? H] end.
  repeat match goal with H : bool_decide _ = true |- _ => apply bool_decide_eq_true in H | H : negb (bool_decide _) = true |- _ => apply negb_true_iff, bool_decide_eq_false in H end.
  exists c, row, i, x, x', c1, c2, (seed, e). split_and!; try done; [congruence|by left|by left|by right; left].
Qed.
Lemma history_replays_witness : ∃ c row h r win, CurrentCheckpoint sample_d §"s" = Ok (Some c) ∧ length h = 4%nat ∧ d_sessions sample_d !! cp_SessionID c = Some row
  ∧ nw_server (sample_world sample_all) !! cp_ResponseID c = Some h ∧ LoadNativeWindow sample_d row (Some c) = Ok r ∧ Load row (Some c) r = Ok win ∧ w_Items win = h.
Proof.
  destruct sample_facts as (c & _ & _ & _ & _ & _ & _ & _ & H1 & H2 & H3 & _).
  destruct (history_replays (λ _, true) (λ _, None) 3 (λ _, []) sample_all _ c sample_whole) as (row & h & r & win & E1 & E2 & E3 & E4 & _ & E6); [by apply (current_checkpoint _ _ _ H1)|].
  exists c, row, h, r, win. rewrite E2 in H3. injection H3 as H3. rewrite H2 in E6. specialize (E6 H1). split_and!; assumption.
Defined.
(** After its first half, the turn is about to send the result of its call. *)
Definition sends_test (w : nworld) : bool :=
  match nw_turns w !! 0%nat with
  | Some t =>
    match t_pc t with
    | PcSend r => bool_decide (cur (nw_db w) (t_session t) = checkpoint_id t) && bool_decide (rq_prev r = §"r1") && (length (rq_input r) =? 1)%nat
    | _ => false
    end
  | None => false
  end.
Lemma sends_ok w : sends_test w = true →
  ∃ t r, nw_turns w !! 0%nat = Some t ∧ t_pc t = PcSend r ∧ cur (nw_db w) (t_session t) = checkpoint_id t ∧ rq_prev r = §"r1" ∧ length (rq_input r) = 1%nat.
Proof.
  unfold sends_test. destruct (nw_turns w !! 0%nat) as [t|]; [|done]. destruct (t_pc t) eqn:Hpc; try done. intros Ht. apply andb_true_iff in Ht as [Ht Hlen].
  apply andb_true_iff in Ht as [Hl Hp]. apply bool_decide_eq_true in Hl, Hp. apply Nat.eqb_eq in Hlen. by exists t, r.
Qed.
Lemma forks_continue_witness : ∃ row seed c h, sample_fork row = Ok seed ∧ sd_ResponseID seed.1 = §"r2"
  ∧ nw_server (sample_world sample_all) !! cp_ResponseID c = Some h ∧ sd_Items seed.1 = Some (h ++ map ni_Item (results_of sample_d (cp_Calls c))).
Proof.
  destruct sample_facts as (_ & row & _ & _ & _ & _ & _ & [seed e] & _ & _ & _ & H1 & H2 & H3 & _).
  destruct (forks_continue (λ _, true) (λ _, None) 3 (λ _, []) sample_all _ None §"seed" row §"m3" seed e sample_whole H1 H2) as (c & h & _ & E1 & E2 & _).
  exists row, (seed, e), c, h. split_and!; assumption.
Defined.
Lemma inputs_kept_witness : ∃ i c h c1 c2, i ∈ d_inputs sample_d ∧ CurrentCheckpoint sample_d (ni_SessionID i) = Ok (Some c)
  ∧ nw_server (sample_world sample_all) !! cp_ResponseID c = Some h ∧ ni_Item i ∈ h
  ∧ c1 ∈ d_checkpoints sample_d ∧ c2 ∈ d_checkpoints sample_d ∧ cp_ID c1 ≠ cp_ID c2 ∧ cp_ExchangeID c1 = cp_ExchangeID c2.
Proof.
  destruct sample_facts as (_ & _ & i & x & x' & c1 & c2 & _ & _ & _ & _ & _ & _ & _ & Hi & Hb & H1 & H2 & H3 & H4 & H5 & H6 & H7).
  destruct (inputs_kept (λ _, true) (λ _, None) 3 (λ _, []) sample_all _ sample_whole) as [Hk Ho].
  destruct (Hk i Hi) as [[He _]|(c & h & E1 & E2 & E3)]; [destruct (Hb He)|]. exists i, c, h, c1, c2. split_and!; try assumption.
  apply (Ho c1 c2 x x' (ni_ID i)); assumption.
Defined.
