(* ===== verification/Expiry.v ===== *)
(** * Deadlines of keys ([internal/hook/runtime/expiry.go], with [container/heap])

    [expiryQueue]: a binary heap of entries ordered by deadline with an index from
    keys to entries. Entries are shared: the slice and the map hold pointers to the
    same objects, each of which records its position in the slice. The heap
    operations are those of the standard library's [container/heap]. A time is a
    number of nanoseconds since the zero [time.Time]. [None] is a run-time panic
    or an exhausted fuel; the queue never gives it. *)
From S2P Require Import Prelude.
Open Scope nat_scope.

Definition Time := Z.
Record expiryEntry := { e_key : gostring; e_deadline : Time; e_index : nat }.
Record expiryQueue := { q_entries : list nat; q_byKey : gmap gostring nat; q_objs : gmap nat expiryEntry; q_fresh : nat }.
Definition zeroQueue : expiryQueue := {| q_entries := []; q_byKey := ∅; q_objs := ∅; q_fresh := 0 |}.
Definition deref (q : expiryQueue) (i : nat) : option (nat * expiryEntry) :=
  p ← q_entries q !! i; e ← q_objs q !! p; Some (p, e).
Definition set_index (i : nat) (e : expiryEntry) : expiryEntry := {| e_key := e_key e; e_deadline := e_deadline e; e_index := i |}.
Definition set_deadline (d : Time) (e : expiryEntry) : expiryEntry := {| e_key := e_key e; e_deadline := d; e_index := e_index e |}.
Definition with_objs (q : expiryQueue) (m : gmap nat expiryEntry) : expiryQueue :=
  {| q_entries := q_entries q; q_byKey := q_byKey q; q_objs := m; q_fresh := q_fresh q |}.

(** ** The methods of [heap.Interface] *)
Definition Len (q : expiryQueue) : nat := length (q_entries q).
Definition Less (q : expiryQueue) (i j : nat) : option bool :=
  '(_, a) ← deref q i; '(_, b) ← deref q j; Some (bool_decide (e_deadline a < e_deadline b)%Z).
Definition Swap (q : expiryQueue) (i j : nat) : option expiryQueue :=
  '(pi, _) ← deref q i; '(pj, _) ← deref q j;
  let entries := <[j := pi]> (<[i := pj]> (q_entries q)) in
  Some {| q_entries := entries; q_byKey := q_byKey q; q_objs := alter (set_index j) pi (alter (set_index i) pj (q_objs q)); q_fresh := q_fresh q |}.
(** The caller allocates the entry. *)
Definition Push (q : expiryQueue) (key : gostring) (deadline : Time) : expiryQueue :=
  let p := q_fresh q in
  {| q_entries := q_entries q ++ [p]; q_byKey := <[key := p]> (q_byKey q);
     q_objs := <[p := {| e_key := key; e_deadline := deadline; e_index := length (q_entries q) |}]> (q_objs q); q_fresh := S p |}.
Definition Pop (q : expiryQueue) : option (expiryQueue * expiryEntry) :=
  let last := pred (length (q_entries q)) in
  '(_, e) ← deref q last;
  Some ({| q_entries := take last (q_entries q); q_byKey := delete (e_key e) (q_byKey q); q_objs := q_objs q; q_fresh := q_fresh q |}, e).

(** ** [container/heap] *)
Definition parent (j : nat) : nat := (j - 1) / 2.
Fixpoint up (fuel : nat) (q : expiryQueue) (j : nat) : option expiryQueue :=
  match fuel with
  | O => None
  | S fuel =>
    let i := parent j in
    if bool_decide (i = j) then Some q
    else less ← Less q j i; if less : bool then q ← Swap q i j; up fuel q i else Some q
  end.
Definition heap_up (q : expiryQueue) (j : nat) : option expiryQueue := up (S j) q j.
(** The child that may take the place of [i] among the first [n]. *)
Definition least_child (q : expiryQueue) (i n : nat) : option nat :=
  let j1 := 2 * i + 1 in
  if bool_decide (j1 + 1 < n) then less ← Less q (j1 + 1) j1; Some (if less : bool then j1 + 1 else j1) else Some j1.
Fixpoint down (fuel : nat) (q : expiryQueue) (i n : nat) : option (expiryQueue * nat) :=
  match fuel with
  | O => None
  | S fuel =>
    if bool_decide (n <= 2 * i + 1) then Some (q, i)
    else j ← least_child q i n; less ← Less q j i; if less : bool then q ← Swap q i j; down fuel q j n else Some (q, i)
  end.
Definition heap_down (q : expiryQueue) (i0 n : nat) : option (expiryQueue * bool) :=
  '(q, i) ← down (S n) q i0 n; Some (q, bool_decide (i0 < i)).
Definition heap_Push (q : expiryQueue) (key : gostring) (deadline : Time) : option expiryQueue :=
  let q := Push q key deadline in heap_up q (Len q - 1).
Definition heap_Pop (q : expiryQueue) : option (expiryQueue * expiryEntry) :=
  let n := Len q - 1 in q ← Swap q 0 n; '(q, _) ← heap_down q 0 n; Pop q.
Definition heap_Fix (q : expiryQueue) (i : nat) : option expiryQueue :=
  '(q, moved) ← heap_down q i (Len q); if moved : bool then Some q else heap_up q i.
Definition heap_Remove (q : expiryQueue) (i : nat) : option (expiryQueue * expiryEntry) :=
  let n := Len q - 1 in
  q ← (if bool_decide (n = i) then Some q
       else q ← Swap q i n; '(q, moved) ← heap_down q i n; if moved : bool then Some q else heap_up q i);
  Pop q.

(** ** The queue *)
(** The zero [time.Time] stands for no deadline. *)
Definition next (q : expiryQueue) : Time := match deref q 0 with Some (_, e) => e_deadline e | None => 0%Z end.
Definition set (q : expiryQueue) (key : gostring) (deadline : Time) : option (expiryQueue * bool) :=
  let previous := next q in
  q ← match q_byKey q !! key with
      | Some p => e ← q_objs q !! p; heap_Fix (with_objs q (<[p := set_deadline deadline e]> (q_objs q))) (e_index e)
      | None => heap_Push q key deadline
      end;
  Some (q, negb (bool_decide (previous = next q))).
Definition remove (q : expiryQueue) (key : gostring) : option (expiryQueue * bool) :=
  let previous := next q in
  q ← match q_byKey q !! key with
      | Some p => e ← q_objs q !! p; '(q, _) ← heap_Remove q (e_index e); Some q
      | None => Some q
      end;
  Some (q, negb (bool_decide (previous = next q))).
Definition popDue (q : expiryQueue) (now : Time) : option (expiryQueue * option gostring) :=
  if bool_decide (Len q = 0) || bool_decide (now < next q)%Z then Some (q, None)
  else '(q, e) ← heap_Pop q; Some (q, Some (e_key e)).

(** * The queue of deadlines is a finite map with a least element

    The heap operations keep the heap order, the positions recorded in the entries
    and the index of keys; seen as a map from keys to deadlines, [set] inserts,
    [remove] deletes and [popDue] removes a key whose deadline is least and due. No
    operation panics and the fuel is enough. *)

(** ** Heap order of a function from positions *)
Section order.
Implicit Types (d : nat -> Z) (n i j k : nat).
Definition heap d n : Prop := ∀ k, 0 < k < n → (d (parent k) <= d k)%Z.
(** A position below which, above which, or around which the order may fail. *)
Definition grand d n i : Prop := 0 < i → ∀ k, 0 < k < n → parent k = i → (d (parent i) <= d k)%Z.
Definition fails_up d n i : Prop := (∀ k, 0 < k < n → k ≠ i → (d (parent k) <= d k)%Z) ∧ grand d n i.
Definition fails_down d n i : Prop := (∀ k, 0 < k < n → parent k ≠ i → (d (parent k) <= d k)%Z) ∧ grand d n i.
Definition fails_at d n i : Prop := (∀ k, 0 < k < n → k ≠ i → parent k ≠ i → (d (parent k) <= d k)%Z) ∧ grand d n i.
Definition swapf d i j k : Z := d (if decide (k = i) then j else if decide (k = j) then i else k).

Lemma parent_lt k : 0 < k → parent k < k.
Proof. intros. unfold parent. apply Nat.Div0.div_lt_upper_bound; lia. Qed.
Lemma parent_child k i : 0 < k → parent k = i ↔ k = 2 * i + 1 ∨ k = 2 * i + 2.
Proof.
  intros P. unfold parent. pose proof (Nat.div_mod_eq (k - 1) 2). pose proof (Nat.mod_upper_bound (k - 1) 2). lia.
Qed.
Lemma parent_zero : parent 0 = 0.
Proof. done. Qed.
Lemma heap_root (d : nat → Z) n k : heap d n → k < n → (d 0%nat <= d k)%Z.
Proof.
  intros H. induction (lt_wf k) as [k _ IH]. intros L. destruct k as [|k]; [lia|].
  pose proof (parent_lt (S k) ltac:(lia)). specialize (IH (parent (S k)) ltac:(lia) ltac:(lia)).
  specialize (H (S k) ltac:(lia)). lia.
Qed.
Lemma swapf_l d i j : swapf d i j i = d j.
Proof. unfold swapf. by rewrite decide_True. Qed.
Lemma swapf_r d i j : swapf d i j j = d i.
Proof. unfold swapf. case_decide; [by subst|]. by rewrite decide_True. Qed.
Lemma swapf_o d i j k : k ≠ i → k ≠ j → swapf d i j k = d k.
Proof. intros. unfold swapf. by rewrite !decide_False. Qed.
Lemma up_moves d n j : fails_up d n j → 0 < j < n → (d j < d (parent j))%Z → fails_up (swapf d (parent j) j) n (parent j).
Proof.
  intros [E G] J L. pose proof (parent_lt j ltac:(lia)) as Pj. split.
  - intros k K N. pose proof (parent_lt k ltac:(lia)) as Pk. destruct (decide (k = j)) as [->|Kj].
    + rewrite swapf_l, swapf_r. lia.
    + rewrite (swapf_o _ _ _ k) by done. specialize (E k K Kj).
      destruct (decide (parent k = parent j)) as [Q|Q]; [rewrite Q, swapf_l in *; lia|].
      destruct (decide (parent k = j)) as [Q'|Q']; [|by rewrite swapf_o].
      rewrite Q', swapf_r. by apply G; [lia| |].
  - intros P k K Pk. pose proof (parent_lt (parent j) P). pose proof (parent_lt k ltac:(lia)).
    rewrite (swapf_o _ _ _ (parent (parent j))) by lia.
    pose proof (E (parent j) ltac:(lia) ltac:(lia)). destruct (decide (k = j)) as [->|Kj]; [by rewrite swapf_r|].
    rewrite swapf_o by lia. specialize (E k K Kj). rewrite Pk in E. lia.
Qed.
Lemma up_stops d n j : fails_up d n j → (j = 0 ∨ (d (parent j) <= d j)%Z) → heap d n.
Proof. intros [E _] S k K. destruct (decide (k = j)) as [->|]; [destruct S; [lia|done]|by apply E]. Qed.
Lemma fails_down_at d n i : fails_down d n i → fails_at d n i.
Proof. intros [E G]. split; [|done]. intros. by apply E. Qed.
Lemma down_moves d n i j :
  fails_at d n i → 0 < j < n → parent j = i → (d j < d i)%Z → (∀ k, 0 < k < n → parent k = i → (d j <= d k)%Z) →
  fails_down (swapf d i j) n j.
Proof.
  intros [E G] J Pj L M. pose proof (parent_lt j ltac:(lia)). split.
  - intros k K N. pose proof (parent_lt k ltac:(lia)). destruct (decide (k = i)) as [->|Ki].
    + rewrite swapf_l, swapf_o by lia. apply G; [lia|lia|done].
    + destruct (decide (parent k = i)) as [Q|Q].
      * rewrite Q, swapf_l. destruct (decide (k = j)) as [->|]; [rewrite swapf_r; lia|rewrite swapf_o by done; by apply M].
      * rewrite !swapf_o by congruence. by apply E.
  - intros _ k K Pk. pose proof (parent_lt k ltac:(lia)). rewrite Pj, swapf_l, swapf_o by lia. specialize (E k K ltac:(lia) ltac:(lia)). by rewrite Pk in E.
Qed.
Lemma down_stops d n i : fails_down d n i → (∀ k, 0 < k < n → parent k = i → (d i <= d k)%Z) → heap d n.
Proof. intros [E _] M k K. destruct (decide (parent k = i)) as [<-|]; [by apply M|by apply E]. Qed.
Lemma stays_up d n i : fails_at d n i → (∀ k, 0 < k < n → parent k = i → (d i <= d k)%Z) → fails_up d n i.
Proof. intros [E G] M. split; [|done]. intros k K N. destruct (decide (parent k = i)) as [<-|]; [by apply M|by apply E]. Qed.
Lemma heap_fails_at d d' n i : heap d n → (∀ k, k ≠ i → d' k = d k) → fails_at d' n i.
Proof.
  intros H Q. split.
  - intros k K N N'. rewrite !Q by done. by apply H.
  - intros P k K Pk. pose proof (parent_lt i P). pose proof (parent_lt k ltac:(lia)). rewrite !Q by lia.
    pose proof (H i ltac:(lia)). specialize (H k K). rewrite Pk in H. lia.
Qed.
Lemma heap_mono d n m : m <= n → heap d n → heap d m.
Proof. intros L H k K. apply H. lia. Qed.
End order.

(** ** The shared entries *)
Record consistent (q : expiryQueue) : Prop := {
  c_entry : ∀ i p, q_entries q !! i = Some p → ∃ e, q_objs q !! p = Some e ∧ e_index e = i ∧ q_byKey q !! e_key e = Some p;
  c_key : ∀ key p, q_byKey q !! key = Some p → ∃ e, q_objs q !! p = Some e ∧ e_key e = key ∧ q_entries q !! e_index e = Some p;
  c_fresh : ∀ p e, q_objs q !! p = Some e → p < q_fresh q
}.
(** The key and the deadline at a position, and the deadline of a key. *)
Definition at_pos (q : expiryQueue) (i : nat) : option (gostring * Time) := '(_, e) ← deref q i; Some (e_key e, e_deadline e).
Definition deadline_at (q : expiryQueue) (i : nat) : Time := match at_pos q i with Some (_, d) => d | None => 0%Z end.
Definition deadlines (q : expiryQueue) : gmap gostring Time := omap (λ p, e_deadline <$> q_objs q !! p) (q_byKey q).
Definition ordered (q : expiryQueue) : Prop := heap (deadline_at q) (Len q).
Record good (q : expiryQueue) : Prop := { g_consistent : consistent q; g_ordered : ordered q }.
(** What the operations of a heap keep. *)
Record same_keys (q q' : expiryQueue) : Prop := {
  s_consistent : consistent q'; s_deadlines : deadlines q' = deadlines q; s_len : Len q' = Len q
}.

Lemma lookup_deadlines q key : deadlines q !! key = (p ← q_byKey q !! key; e_deadline <$> q_objs q !! p).
Proof. unfold deadlines. rewrite lookup_omap. by destruct (q_byKey q !! key). Qed.
Lemma deref_in q i : consistent q → i < Len q → ∃ p e, q_entries q !! i = Some p ∧ q_objs q !! p = Some e ∧ deref q i = Some (p, e) ∧
  e_index e = i ∧ q_byKey q !! e_key e = Some p.
Proof.
  intros C [p Ep]%lookup_lt_is_Some_2. destruct (c_entry q C i p Ep) as (e & Eo & Ei & Ek).
  exists p, e. unfold deref. rewrite Ep. simpl. rewrite Eo. done.
Qed.
Lemma at_pos_deadlines q key d : consistent q → deadlines q !! key = Some d ↔ ∃ i, at_pos q i = Some (key, d).
Proof.
  intros C. rewrite lookup_deadlines. unfold at_pos, deref. split.
  - intros (p & Ep & E)%bind_Some. destruct (c_key q C key p Ep) as (e & Eo & Ek & Ei). rewrite Eo in E. injection E as <-.
    exists (e_index e). rewrite Ei. simpl. rewrite Eo. simpl. by rewrite Ek.
  - intros (i & E). destruct (q_entries q !! i) as [p|] eqn:Ep; [|done]. destruct (c_entry q C i p Ep) as (e & Eo & Ei & Ek).
    simpl in E. rewrite Eo in E. injection E as <- <-. rewrite Ek. simpl. by rewrite Eo.
Qed.
Lemma at_pos_lt q i x : at_pos q i = Some x → i < Len q.
Proof. unfold at_pos, deref. destruct (q_entries q !! i) eqn:E; [|done]. intros _. by eapply lookup_lt_Some. Qed.
Lemma at_pos_in q i : consistent q → i < Len q → ∃ key, at_pos q i = Some (key, deadline_at q i).
Proof. intros C L. destruct (deref_in q i C L) as (p & e & _ & _ & D & _). exists (e_key e). unfold deadline_at, at_pos. by rewrite D. Qed.
Lemma at_pos_key q i j key d d' : consistent q → at_pos q i = Some (key, d) → at_pos q j = Some (key, d') → i = j.
Proof.
  intros C Ei Ej. destruct (deref_in q i C (at_pos_lt _ _ _ Ei)) as (p & e & _ & Eo & D & <- & Ek).
  destruct (deref_in q j C (at_pos_lt _ _ _ Ej)) as (p' & e' & _ & Eo' & D' & <- & Ek').
  unfold at_pos in Ei, Ej. rewrite D in Ei. rewrite D' in Ej. simpl in *. injection Ei as K _. injection Ej as K' _. congruence.
Qed.
Lemma Less_at q i j : consistent q → i < Len q → j < Len q → Less q i j = Some (bool_decide (deadline_at q i < deadline_at q j)%Z).
Proof.
  intros C I J. destruct (deref_in q i C I) as (p & e & _ & _ & D & _), (deref_in q j C J) as (p' & e' & _ & _ & D' & _).
  unfold Less, deadline_at, at_pos. by rewrite D, D'.
Qed.
Lemma same_refl q : consistent q → same_keys q q.
Proof. by split. Qed.
Lemma same_trans q1 q2 q3 : same_keys q1 q2 → same_keys q2 q3 → same_keys q1 q3.
Proof. intros [_ D L] [C' D' L']. split; [done|congruence..]. Qed.
Lemma Swap_same q i j : consistent q → i < Len q → j < Len q →
  ∃ q', Swap q i j = Some q' ∧ same_keys q q' ∧ ∀ k, at_pos q' k = at_pos q (if decide (k = i) then j else if decide (k = j) then i else k).
Proof.
  intros C I J. destruct (deref_in q i C I) as (pi & ei & Ei & Oi & Di & Xi & Ki), (deref_in q j C J) as (pj & ej & Ej & Oj & Dj & Xj & Kj).
  unfold Swap. rewrite Di, Dj. simpl. eexists. split; [done|].
  set (q' := {| q_entries := _ |}).
  assert (L : Len q' = Len q) by (unfold Len, q'; simpl; by rewrite !length_insert).
  assert (EE : ∀ k, q_entries q' !! k = q_entries q !! (if decide (k = i) then j else if decide (k = j) then i else k)).
  { intros k. unfold q'. simpl. destruct (decide (k = j)) as [->|Nj].
    - rewrite list_lookup_insert_eq by (rewrite length_insert; done). case_decide; [subst; congruence|congruence].
    - rewrite list_lookup_insert_ne by done. case_decide; [subst; rewrite list_lookup_insert_eq by done; done|]. by rewrite list_lookup_insert_ne. }
  assert (OO : ∀ p, q_objs q' !! p = (λ e, set_index (if decide (p = pi) then j else if decide (p = pj) then i else e_index e) e) <$> q_objs q !! p).
  { intros p. unfold q'. simpl. destruct (decide (p = pi)) as [->|Ni].
    - rewrite lookup_alter_eq. destruct (decide (pi = pj)) as [<-|N].
      + rewrite lookup_alter_eq. rewrite Oi. done.
      + rewrite lookup_alter_ne by done. by rewrite Oi.
    - rewrite lookup_alter_ne by done. destruct (decide (p = pj)) as [->|Nj].
      + rewrite lookup_alter_eq. by rewrite Oj.
      + rewrite lookup_alter_ne by done. destruct (q_objs q !! p) as [[]|]; done. }
  assert (BK : q_byKey q' = q_byKey q) by done. assert (FR : q_fresh q' = q_fresh q) by done. clearbody q'.
  assert (AP : ∀ k, at_pos q' k = at_pos q (if decide (k = i) then j else if decide (k = j) then i else k)).
  { intros k. unfold at_pos, deref. rewrite EE. destruct (q_entries q !! (if decide (k = i) then j else if decide (k = j) then i else k)) as [p|]; [|done]. simpl.
 rewrite OO. by destruct (q_objs q !! p). }
  split; [|done]. split; [|..|done].
  - split.
    + rewrite BK. intros k p. rewrite EE, OO. intros Ep. destruct (c_entry q C _ _ Ep) as (e & Eo & Ee & Ek). rewrite Eo. eexists. split; [done|].
      simpl. split; [|done]. destruct (decide (p = pi)) as [->|Ni].
      * rewrite Oi in Eo. injection Eo as <-. repeat case_decide; congruence.
      * destruct (decide (p = pj)) as [->|Nj]; [rewrite Oj in Eo; injection Eo as <-; repeat case_decide; congruence|].
        repeat case_decide; congruence.
    + rewrite BK. intros key p Ep. destruct (c_key q C key p Ep) as (e & Eo & Ek & Ee). rewrite OO, Eo. eexists. split; [done|]. simpl. split; [done|].
      rewrite EE. destruct (decide (p = pi)) as [->|Ni]; [rewrite Oi in Eo; injection Eo as <-; repeat case_decide; congruence|].
      destruct (decide (p = pj)) as [->|Nj]; [rewrite Oj in Eo; injection Eo as <-; repeat case_decide; congruence|].
      repeat case_decide; congruence.
    + rewrite FR. intros p e. rewrite OO. intros (e0 & Eo & ->)%fmap_Some. by eapply c_fresh.
  - apply map_eq. intros key. rewrite !lookup_deadlines. rewrite BK. destruct (q_byKey q !! key) as [p|]; [|done].
    simpl. rewrite OO. by destruct (q_objs q !! p).
Qed.
Lemma swap_deadline q q' i j : (∀ k, at_pos q' k = at_pos q (if decide (k = i) then j else if decide (k = j) then i else k)) →
  ∀ k, deadline_at q' k = swapf (deadline_at q) i j k.
Proof. intros A k. unfold deadline_at, swapf. by rewrite A. Qed.

(** ** Moving an entry to its place *)
(** The positions from [n] on stay as they are. *)
Definition same_from (n : nat) (q q' : expiryQueue) : Prop := ∀ k, n <= k → at_pos q' k = at_pos q k.
Lemma up_restores fuel q j n : consistent q → n <= Len q → j < n → j < fuel → fails_up (deadline_at q) n j →
  ∃ q', up fuel q j = Some q' ∧ same_keys q q' ∧ same_from n q q' ∧ heap (deadline_at q') n.
Proof.
  revert q j. induction fuel as [|fuel IH]; intros q j C N J F U; [lia|]. simpl. case_bool_decide as E.
  - exists q. split_and!; [done|by apply same_refl|done|]. apply (up_stops _ _ j U). left. destruct (decide (j = 0)) as [|Z]; [done|].
    pose proof (parent_lt j ltac:(lia)). lia.
  - assert (P : 0 < j). { destruct (decide (j = 0)) as [->|]; [done|lia]. }
    pose proof (parent_lt j P) as L. rewrite Less_at by (try done; lia). simpl. case_bool_decide as D.
    + destruct (Swap_same q (parent j) j C ltac:(lia) ltac:(lia)) as (q1 & -> & S & A). simpl.
      destruct (IH q1 (parent j)) as (q' & E' & S' & SF & O'); [apply S|rewrite (s_len _ _ S); lia|lia|lia| |].
      * pose proof (up_moves _ _ j U ltac:(lia) D) as [U1 U2]. pose proof (swap_deadline _ _ _ _ A) as W.
        split; [intros k K M; rewrite !W; by apply U1|intros P' k K K'; rewrite !W; by apply U2].
      * exists q'. split_and!; [done|by eapply same_trans| |done]. intros k K. rewrite SF by done. by rewrite A, !decide_False by lia.
    + exists q. split_and!; [done|by apply same_refl|done|]. apply (up_stops _ _ j U). right. lia.
Qed.
Lemma least_child_at q i n : consistent q → n <= Len q → 2 * i + 1 < n → ∃ j, least_child q i n = Some j ∧ 0 < j < n ∧ parent j = i ∧
  ∀ k, 0 < k < n → parent k = i → (deadline_at q j <= deadline_at q k)%Z.
Proof.
  intros C N I. unfold least_child. remember (2 * i + 1) as j1 eqn:J1.
  assert (P : ∀ k, 0 < k < n → parent k = i → k = j1 ∨ k = j1 + 1) by (intros k K E; apply parent_child in E; lia).
  case_bool_decide as B.
  - rewrite Less_at by (try done; lia). simpl. case_bool_decide as D; eexists; (split; [done|split; [lia|split; [apply parent_child; lia|]]]);
      intros k K E; destruct (P k K E) as [->| ->]; lia.
  - eexists. split; [done|]. split; [lia|]. split; [apply parent_child; lia|]. intros k K E. destruct (P k K E) as [->| ->]; lia.
Qed.
Lemma fails_ext (d d' : nat → Z) n i : (∀ k, d' k = d k) → fails_down d n i → fails_down d' n i.
Proof. intros E [A B]. split; [intros k K N; rewrite !E; by apply A|intros P k K N; rewrite !E; by apply B]. Qed.
(** One step of [down] at a position where the order may fail on both sides. *)
Lemma down_step fuel q i n : consistent q → n <= Len q → i < n → fails_at (deadline_at q) n i →
  (down (S fuel) q i n = Some (q, i) ∧ ∀ k, 0 < k < n → parent k = i → (deadline_at q i <= deadline_at q k)%Z) ∨
  ∃ q' j, down (S fuel) q i n = down fuel q' j n ∧ i < j < n ∧ same_keys q q' ∧ same_from n q q' ∧ fails_down (deadline_at q') n j.
Proof.
  intros C N I F. simpl. case_bool_decide as B.
  - left. split; [done|]. intros k K P. apply parent_child in P; lia.
  - destruct (least_child_at q i n C N ltac:(lia)) as (j & -> & J & P & M). simpl. rewrite Less_at by (try done; lia). simpl.
    pose proof (parent_lt j ltac:(lia)). case_bool_decide as D.
    + right. destruct (Swap_same q i j C ltac:(lia) ltac:(lia)) as (q' & -> & S & A). exists q', j.
      split_and!; [done|lia|lia|done| |].
      * intros k K. rewrite A, !decide_False by lia. done.
      * apply (fails_ext _ _ _ _ (swap_deadline _ _ _ _ A)). by apply down_moves.
    + left. split; [done|]. intros k K P'. specialize (M k K P'). lia.
Qed.
Lemma down_restores fuel q i n : consistent q → n <= Len q → i < n → n < i + fuel → fails_down (deadline_at q) n i →
  ∃ q' i', down fuel q i n = Some (q', i') ∧ i <= i' ∧ same_keys q q' ∧ same_from n q q' ∧ heap (deadline_at q') n.
Proof.
  revert q i. induction fuel as [|fuel IH]; intros q i C N I F D; [lia|].
  destruct (down_step fuel q i n C N I (fails_down_at _ _ _ D)) as [[-> M]|(q1 & j & -> & J & S & SF & D')].
  - exists q, i. split_and!; [done|lia|by apply same_refl|done|by eapply down_stops].
  - destruct (IH q1 j) as (q' & i' & E & L & S' & SF' & H); [apply S|rewrite (s_len _ _ S); lia|lia|lia|done|].
    exists q', i'. split_and!; [done|lia|by eapply same_trans| |done]. intros k K. rewrite SF' by done. by apply SF.
Qed.
Lemma heap_down_restores q i n : consistent q → n <= Len q → i < n → fails_at (deadline_at q) n i →
  ∃ q' moved, heap_down q i n = Some (q', moved) ∧ same_keys q q' ∧ same_from n q q' ∧
    if moved : bool then heap (deadline_at q') n else q' = q ∧ fails_up (deadline_at q') n i.
Proof.
  intros C N I F. unfold heap_down. destruct (down_step n q i n C N I F) as [[-> M]|(q1 & j & -> & J & S & SF & D)]; simpl.
  - exists q, false. rewrite bool_decide_eq_false_2 by lia. split_and!; [done|by apply same_refl|done|done|by apply stays_up].
  - destruct (down_restores n q1 j n) as (q' & i' & -> & L & S' & SF' & H); [apply S|rewrite (s_len _ _ S); lia|lia|lia|done|].
    exists q', true. simpl. rewrite bool_decide_eq_true_2 by lia.
    split_and!; [done|by eapply same_trans|intros k K; rewrite SF' by done; by apply SF|done].
Qed.

(** ** Adding, changing and removing an entry *)
Lemma Pop_last q : consistent q → 0 < Len q → ∃ q' e, Pop q = Some (q', e) ∧ at_pos q (Len q - 1) = Some (e_key e, e_deadline e) ∧
  consistent q' ∧ deadlines q' = delete (e_key e) (deadlines q) ∧ Len q' = Len q - 1 ∧ ∀ k, k < Len q - 1 → at_pos q' k = at_pos q k.
Proof.
  intros C P. destruct (deref_in q (Len q - 1) C ltac:(lia)) as (p & e & Ep & Eo & D & Ei & Ek).
  unfold Pop. replace (pred (length (q_entries q))) with (Len q - 1) by (unfold Len; lia). rewrite D. simpl. eexists _, e. split; [done|].
  split; [unfold at_pos; by rewrite D|]. split_and!.
  - split; simpl.
    + intros k p' [El L]%lookup_take_Some. destruct (c_entry q C k p' El) as (e' & Eo' & Ei' & Ek'). exists e'. split_and!; [done..|].
      rewrite lookup_delete_ne; [done|]. intros Q. rewrite <- Q, Ek in Ek'. injection Ek' as <-. rewrite Eo in Eo'. injection Eo' as <-. lia.
    + intros key p' [Q El]%lookup_delete_Some. destruct (c_key q C key p' El) as (e' & Eo' & Ek' & Ei'). exists e'. split_and!; [done..|].
      rewrite lookup_take_lt; [done|]. pose proof (lookup_lt_Some _ _ _ Ei'). destruct (decide (e_index e' = Len q - 1)) as [Q'|]; [|unfold Len in *; lia].
      rewrite Q', Ep in Ei'. injection Ei' as <-. rewrite Eo in Eo'. injection Eo' as <-. congruence.
    + apply (c_fresh q C).
  - apply map_eq. intros key. destruct (decide (e_key e = key)) as [<-|N].
    + rewrite lookup_delete_eq, lookup_deadlines. simpl. by rewrite lookup_delete_eq.
    + rewrite lookup_delete_ne, !lookup_deadlines by done. simpl. by rewrite lookup_delete_ne.
  - unfold Len. simpl. rewrite length_take. lia.
  - intros k K. unfold at_pos, deref. simpl. by rewrite lookup_take_lt.
Qed.
Lemma Push_last q key deadline : consistent q → q_byKey q !! key = None → consistent (Push q key deadline) ∧
  deadlines (Push q key deadline) = <[key := deadline]> (deadlines q) ∧ Len (Push q key deadline) = S (Len q) ∧
  ∀ k, k < Len q → at_pos (Push q key deadline) k = at_pos q k.
Proof.
  intros C K. assert (F : ∀ k p, q_entries q !! k = Some p → p ≠ q_fresh q).
  { intros k p E ->. destruct (c_entry q C k _ E) as (e & Eo & _). apply (c_fresh q C) in Eo. lia. }
  assert (F' : ∀ k p, q_byKey q !! k = Some p → p ≠ q_fresh q).
  { intros k p E ->. destruct (c_key q C k _ E) as (e & Eo & _). apply (c_fresh q C) in Eo. lia. }
  split_and!.
  - split; simpl.
    + intros i p [E|[L E]]%lookup_app_Some.
      * destruct (c_entry q C i p E) as (e & Eo & Ei & Ek). exists e. rewrite lookup_insert_ne by (symmetry; by eapply F). split_and!; [done..|].
        rewrite lookup_insert_ne; [done|]. congruence.
      * apply list_lookup_singleton_Some in E as [E <-]. eexists. rewrite lookup_insert_eq. split_and!; [done| |simpl; by rewrite lookup_insert_eq]. simpl. lia.
    + intros k p [[<- <-]|[N E]]%lookup_insert_Some.
      * eexists. rewrite lookup_insert_eq. split_and!; [done..|]. simpl. by rewrite lookup_app_r, Nat.sub_diag by lia.
      * destruct (c_key q C k p E) as (e & Eo & Ek & Ei). exists e. rewrite lookup_insert_ne by (symmetry; by eapply F'). split_and!; [done..|].
        by apply lookup_app_l_Some.
    + intros p e [[<- _]|[N E]]%lookup_insert_Some; [lia|]. apply (c_fresh q C) in E. lia.
  - apply map_eq. intros k. rewrite lookup_deadlines. simpl. destruct (decide (key = k)) as [<-|N].
    + rewrite !lookup_insert_eq. simpl. by rewrite lookup_insert_eq.
    + rewrite !lookup_insert_ne, lookup_deadlines by done. destruct (q_byKey q !! k) as [p|] eqn:E; [|done]. simpl.
      by rewrite lookup_insert_ne by (symmetry; by eapply F').
  - unfold Len. simpl. rewrite length_app. simpl. lia.
  - intros k L. unfold at_pos, deref. simpl. rewrite lookup_app_l by done. destruct (q_entries q !! k) as [p|] eqn:E; [|done]. simpl.
    by rewrite lookup_insert_ne by (symmetry; by eapply F).
Qed.
Lemma changed_entry q key p e deadline : consistent q → q_byKey q !! key = Some p → q_objs q !! p = Some e →
  let q' := with_objs q (<[p := set_deadline deadline e]> (q_objs q)) in
  consistent q' ∧ deadlines q' = <[key := deadline]> (deadlines q) ∧ ∀ k, k ≠ e_index e → at_pos q' k = at_pos q k.
Proof.
  intros C K Eo q'. destruct (c_key q C key p K) as (e0 & Eo' & Ek & Ei). rewrite Eo in Eo'. injection Eo' as <-.
  assert (OO : ∀ p', q_objs q' !! p' = (λ e', if decide (p' = p) then set_deadline deadline e' else e') <$> q_objs q !! p').
  { intros p'. unfold q'. simpl. destruct (decide (p' = p)) as [->|N]; [by rewrite lookup_insert_eq, Eo|].
    rewrite lookup_insert_ne by done. by destruct (q_objs q !! p'). }
  split_and!.
  - split.
    + intros i p' E. destruct (c_entry q C i p' E) as (e' & Eo' & Ei' & Ek'). rewrite OO, Eo'. eexists. split; [done|]. by case_decide.
    + intros k p' E. destruct (c_key q C k p' E) as (e' & Eo' & Ek' & Ei'). rewrite OO, Eo'. eexists. split; [done|]. by case_decide.
    + intros p' e'. rewrite OO. intros (e0 & E & _)%fmap_Some. by eapply (c_fresh q C).
  - apply map_eq. intros k. rewrite lookup_deadlines. change (q_byKey q') with (q_byKey q). destruct (decide (key = k)) as [<-|N].
    + rewrite K, lookup_insert_eq. simpl. rewrite OO, Eo. simpl. by rewrite decide_True.
    + rewrite lookup_insert_ne, lookup_deadlines by done. destruct (q_byKey q !! k) as [p'|] eqn:E; [|done]. simpl. rewrite OO.
      destruct (q_objs q !! p') eqn:Q; [|done]. simpl. rewrite decide_False; [done|]. intros ->. destruct (c_key q C k p E) as (e' & Eo' & Ek' & _). congruence.
  - intros k N. unfold at_pos, deref. change (q_entries q') with (q_entries q). destruct (q_entries q !! k) as [p'|] eqn:E; [|done]. simpl. rewrite OO.
    destruct (q_objs q !! p') eqn:Q; [|done]. simpl. rewrite decide_False; [done|]. intros ->. destruct (c_entry q C k p E) as (e' & Eo' & Ei' & _). congruence.
Qed.
Lemma deadline_ext q q' k : at_pos q' k = at_pos q k → deadline_at q' k = deadline_at q k.
Proof. unfold deadline_at. by intros ->. Qed.
Lemma Fix_restores q i : consistent q → i < Len q → fails_at (deadline_at q) (Len q) i →
  ∃ q', heap_Fix q i = Some q' ∧ same_keys q q' ∧ ordered q'.
Proof.
  intros C I F. unfold heap_Fix. destruct (heap_down_restores q i (Len q) C ltac:(lia) I F) as (q' & [] & -> & S & _ & H); simpl.
  - exists q'. split_and!; [done..|]. unfold ordered. by rewrite (s_len _ _ S).
  - destruct H as [-> U]. destruct (up_restores (Datatypes.S i) q i (Len q) C ltac:(lia) I ltac:(lia) U) as (q2 & E & S2 & _ & H).
    exists q2. split_and!; [done..|]. unfold ordered. by rewrite (s_len _ _ S2).
Qed.
Lemma heap_Push_good q key deadline : good q → q_byKey q !! key = None →
  ∃ q', heap_Push q key deadline = Some q' ∧ good q' ∧ deadlines q' = <[key := deadline]> (deadlines q).
Proof.
  intros [C O] K. unfold heap_Push, heap_up. destruct (Push_last q key deadline C K) as (C' & D & L & A). set (q1 := Push q key deadline) in *.
  destruct (up_restores (S (Len q1 - 1)) q1 (Len q1 - 1) (Len q1)) as (q' & -> & S & _ & O'); [done|lia|lia|lia| |].
  - split; [|intros _ k Kk Pk; pose proof (parent_lt k ltac:(lia)); lia].
    intros k Kk N. pose proof (parent_lt k ltac:(lia)). rewrite !(deadline_ext q q1) by (apply A; lia). apply O. lia.
  - exists q'. split_and!; [done|split; [apply S|unfold ordered; by rewrite (s_len _ _ S)]|]. by rewrite (s_deadlines _ _ S).
Qed.
(** The entry that goes last is removed, once the others are in order. *)
Lemma Pop_good q n key d : consistent q → Len q = S n → heap (deadline_at q) n → at_pos q n = Some (key, d) →
  ∃ q' e, Pop q = Some (q', e) ∧ e_key e = key ∧ e_deadline e = d ∧ (good q' ∧ Len q' = n) ∧ deadlines q' = delete key (deadlines q).
Proof.
  intros C L H E. destruct (Pop_last q C ltac:(lia)) as (q' & e & EP & Ek & C' & D & L' & A). replace (Len q - 1) with n in * by lia.
  rewrite E in Ek. injection Ek as -> ->. exists q', e. split_and!; [done..| |done|done]. split; [done|]. unfold ordered. rewrite L'.
  intros k K. pose proof (parent_lt k ltac:(lia)). rewrite !(deadline_ext q q') by (apply A; lia). by apply H.
Qed.
Lemma heap_Remove_good q i key d : good q → at_pos q i = Some (key, d) →
  ∃ q' e, heap_Remove q i = Some (q', e) ∧ e_key e = key ∧ e_deadline e = d ∧ (good q' ∧ Len q' = Len q - 1) ∧ deadlines q' = delete key (deadlines q).
Proof.
  intros [C O] E. pose proof (at_pos_lt _ _ _ E) as I. unfold heap_Remove. case_bool_decide as N.
  - simpl. subst i. apply (Pop_good q (Len q - 1) key d); [done|lia| |done]. eapply heap_mono; [|exact O]. lia.
  - destruct (Swap_same q i (Len q - 1) C I ltac:(lia)) as (q1 & -> & S & A). simpl.
    assert (F : fails_at (deadline_at q1) (Len q - 1) i).
    { assert (F : fails_at (λ k, if decide (k = Len q - 1) then deadline_at q k else deadline_at q1 k) (Len q - 1) i).
      { apply heap_fails_at with (deadline_at q); [eapply heap_mono; [|exact O]; lia|]. intros k K. case_decide; [done|].
        apply deadline_ext. rewrite A, !decide_False by done. done. }
      destruct F as [F1 F2]. split.
      - intros k K M M'. pose proof (parent_lt k ltac:(lia)). specialize (F1 k K M M'). simpl in F1. rewrite !decide_False in F1 by lia. done.
      - intros P k K M. pose proof (parent_lt i P). specialize (F2 P k K M). simpl in F2. rewrite !decide_False in F2 by lia. done. }
    destruct (heap_down_restores q1 i (Len q - 1)) as (q2 & moved & -> & S2 & SF & H); [apply S|rewrite (s_len _ _ S); lia|lia|done|]. simpl.
    assert (E1 : at_pos q1 (Len q - 1) = Some (key, d)) by (rewrite A, decide_False, decide_True by lia; done).
    assert (E2 : ∃ q3, (if moved then Some q2 else heap_up q2 i) = Some q3 ∧ same_keys q q3 ∧ same_from (Len q - 1) q1 q3 ∧ heap (deadline_at q3) (Len q - 1)).
    { pose proof (same_trans _ _ _ S S2) as S'. destruct moved; [by exists q2|]. destruct H as [-> U]. unfold heap_up.
      destruct (up_restores (Datatypes.S i) q1 i (Len q - 1)) as (q3 & -> & S3 & SF3 & H3); [apply S|rewrite (s_len _ _ S); lia|lia|lia|done|].
      exists q3. split_and!; [done|by eapply same_trans|done|done]. }
    destruct E2 as (q3 & -> & S3 & SF3 & H3). simpl.
    destruct (Pop_good q3 (Len q - 1) key d) as (q' & e & -> & ? & ? & [G LG] & D);
      [apply S3|rewrite (s_len _ _ S3); lia|done|by rewrite SF3 by lia|].
    exists q', e. split_and!; [done..|]. by rewrite D, (s_deadlines _ _ S3).
Qed.

(** ** The queue as a map of deadlines *)
Definition least (m : gmap gostring Time) (d : Time) : Prop :=
  (∃ key, m !! key = Some d) ∧ ∀ key d', m !! key = Some d' → (d <= d')%Z.
Lemma next_least q : good q → match Len q with O => deadlines q = ∅ ∧ next q = 0%Z | S _ => least (deadlines q) (next q) end.
Proof.
  intros [C O]. destruct (Len q) as [|n] eqn:L.
  - split.
    + apply map_eq. intros key. rewrite lookup_empty. destruct (deadlines q !! key) as [d|] eqn:E; [|done].
      apply at_pos_deadlines in E as (i & E); [|done]. apply at_pos_lt in E. lia.
    + unfold next, deref. unfold Len in L. apply nil_length_inv in L. by rewrite L.
  - destruct (at_pos_in q 0 C ltac:(lia)) as (key & E).
    assert (N : next q = deadline_at q 0). { unfold next, deadline_at, at_pos. by destruct (deref q 0) as [[]|]. }
    rewrite N. split; [exists key; apply at_pos_deadlines; eauto|]. intros key' d (i & E')%at_pos_deadlines; [|done].
    pose proof (at_pos_lt _ _ _ E'). pose proof (heap_root _ _ i O ltac:(lia)). unfold deadline_at at 2 in H0. by rewrite E' in H0.
Qed.
Lemma byKey_deadlines q key : consistent q → q_byKey q !! key = None ↔ deadlines q !! key = None.
Proof.
  intros C. rewrite lookup_deadlines. split; [by intros ->|]. destruct (q_byKey q !! key) as [p|] eqn:E; [|done].
  destruct (c_key q C key p E) as (e & Eo & _). simpl. by rewrite Eo.
Qed.
Lemma zeroQueue_good : good zeroQueue.
Proof. split; [|intros k K; unfold Len in K; cbn in K; lia]. split; intros ? ?; simpl; [rewrite lookup_nil|rewrite lookup_empty|rewrite lookup_empty]; done. Qed.
Lemma set_inserts q key deadline : good q → ∃ q' changed, set q key deadline = Some (q', changed) ∧ good q' ∧
  deadlines q' = <[key := deadline]> (deadlines q) ∧ changed = negb (bool_decide (next q = next q')).
Proof.
  intros [C O]. unfold set. destruct (q_byKey q !! key) as [p|] eqn:K.
  - destruct (c_key q C key p K) as (e & Eo & Ek & Ei). rewrite Eo. simpl.
    destruct (changed_entry q key p e deadline C K Eo) as (C' & D & A). set (q1 := with_objs q _) in *.
    destruct (Fix_restores q1 (e_index e) C') as (q' & -> & S & O').
    + by apply lookup_lt_Some in Ei.
    + apply heap_fails_at with (deadline_at q); [exact O|]. intros k N. apply deadline_ext. by apply A.
    + simpl. eexists q', _. split_and!; [done|split; [apply S|done]| |done]. by rewrite (s_deadlines _ _ S).
  - destruct (heap_Push_good q key deadline (Build_good _ C O) K) as (q' & -> & G & D). simpl. eexists q', _. by split_and!.
Qed.
Lemma remove_deletes q key : good q → ∃ q' changed, remove q key = Some (q', changed) ∧ good q' ∧
  deadlines q' = delete key (deadlines q) ∧ changed = negb (bool_decide (next q = next q')).
Proof.
  intros [C O]. unfold remove. destruct (q_byKey q !! key) as [p|] eqn:K.
  - destruct (c_key q C key p K) as (e & Eo & Ek & Ei). rewrite Eo. simpl.
    destruct (heap_Remove_good q (e_index e) key (e_deadline e) (Build_good _ C O)) as (q' & e' & -> & _ & _ & [G _] & D).
    + unfold at_pos, deref. rewrite Ei. simpl. rewrite Eo. simpl. by rewrite Ek.
    + simpl. eexists q', _. by split_and!.
  - simpl. eexists q, _. split_and!; [done|by split| |done]. rewrite delete_id; [done|]. by apply byKey_deadlines.
Qed.
Lemma remove_absent q key : consistent q → deadlines q !! key = None → remove q key = Some (q, false).
Proof. intros C N. apply byKey_deadlines in N; [|done]. unfold remove. rewrite N. simpl. by rewrite bool_decide_eq_true_2. Qed.
Lemma popDue_least q now : good q → ∃ q' due, popDue q now = Some (q', due) ∧ good q' ∧
  match due with
  | None => q' = q ∧ ∀ key d, deadlines q !! key = Some d → (now < d)%Z
  | Some key => Len q = S (Len q') ∧ deadlines q' = delete key (deadlines q) ∧ ∃ d, deadlines q !! key = Some d ∧ (d <= now)%Z ∧ least (deadlines q) d
  end.
Proof.
  intros G. pose proof (next_least q G) as N. destruct G as [C O]. unfold popDue. destruct (Len q) as [|n] eqn:L.
  - exists q, None. split_and!; [done|by split|done|]. intros key d. destruct N as [-> _]. by rewrite lookup_empty.
  - rewrite (bool_decide_eq_false_2 (S n = 0)) by lia. cbn [orb]. case_bool_decide as D.
    + exists q, None. split_and!; [done|by split|done|]. intros key d E. apply N in E. lia.
    + unfold heap_Pop. rewrite L. cbn [Nat.sub]. rewrite Nat.sub_0_r.
      destruct (Swap_same q 0 n C ltac:(lia) ltac:(lia)) as (q1 & -> & S & A). simpl.
      destruct (at_pos_in q 0 C ltac:(lia)) as (key & E).
      assert (E1 : at_pos q1 n = Some (key, next q)).
      { rewrite A. replace (next q) with (deadline_at q 0) by (unfold next, deadline_at, at_pos; by destruct (deref q 0) as [[]|]).
        destruct (decide (n = 0)) as [->|]; [done|]. by rewrite decide_True. }
      assert (E2 : ∃ q2 moved, heap_down q1 0 n = Some (q2, moved) ∧ same_keys q1 q2 ∧ same_from n q1 q2 ∧ heap (deadline_at q2) n).
      { destruct (decide (n = 0)) as [->|Z].
        - exists q1, false. split_and!; [done|apply same_refl, S|done|]. intros k K. lia.
        - destruct (heap_down_restores q1 0 n) as (q2 & moved & -> & S2 & SF & H); [apply S|rewrite (s_len _ _ S); lia|lia| |].
          + split; [|intros ?; lia]. intros k K K0 Pk. pose proof (parent_lt k ltac:(lia)). rewrite !(swap_deadline _ _ _ _ A), !swapf_o by lia. apply O. lia.
          + exists q2, moved. split_and!; [done..|]. destruct moved; [done|]. destruct H as [_ U]. eapply up_stops; [done|by left]. }
      destruct E2 as (q2 & moved & -> & S2 & SF & H). simpl.
      destruct (Pop_good q2 n key (next q)) as (q' & e & -> & <- & Ed & [G' L'] & D'); [apply S2|rewrite (s_len _ _ S2), (s_len _ _ S); done|done|by rewrite SF|].
      simpl. eexists q', (Some _). split_and!; [done|done|congruence| |].
      * by rewrite D', (s_deadlines _ _ S2), (s_deadlines _ _ S).
      * exists (next q). split_and!; [|lia|done]. apply at_pos_deadlines; [done|]. exists 0. rewrite E.
        by replace (next q) with (deadline_at q 0) by (unfold next, deadline_at, at_pos; by destruct (deref q 0) as [[]|]).
Qed.
