(* ===== verification/Shared.v ===== *)
(** * State shared by hooks ([internal/hook/runtime/shared.go], the maintenance loop of [manager.go])

    [SharedState]: a bounded in-memory store of compact JSON values whose entries
    expire after a time without access and are evicted, the least recently used
    first, when a new entry needs room. Every method is one critical section at a
    clock reading of its own, taken before the lock: readings may go backwards
    from one section to the next. [json.Compact] is the scanner of
    [encoding/json]; the decoding of request parameters into a struct is an
    argument of [HandleRequest]. [None] is a run-time panic. *)
From S2P Require Import Prelude GoStr Admission ToolState Expiry.
Open Scope Z_scope.

(** ** [json.Compact] *)
Inductive parse := parseObjectKey | parseObjectValue | parseArrayValue.
(** The state functions of the scanner; [stateEndTop] is also its [endTop]. *)
Inductive scan_state :=
| stateBeginValueOrEmpty | stateBeginValue | stateBeginStringOrEmpty | stateBeginString | stateEndValue | stateEndTop
| stateInString | stateInStringEsc | stateInStringEscU (digits : nat)
| stateNeg | state1 | state0 | stateDot | stateDot0 | stateE | stateESign | stateE0 | stateLiteral (c : ascii) (rest : gostring).
Record scanner := { sc_step : scan_state; sc_stack : list parse }.
Definition maxNestingDepth : Z := 10000.
Definition isSpace (c : ascii) : bool := bool_decide (byte_val c ∈ [32; 9; 13; 10]).
Definition is_dec (c : ascii) : bool := in_range 48 57 c.
Definition is_hex (c : ascii) : bool := in_range 48 57 c || in_range 97 102 c || in_range 65 70 c.
Definition ch (s : string) (c : ascii) : bool := match lit s with [x] => bool_decide (c = x) | _ => false end.
Definition to (st : scan_state) (s : scanner) : scanner := {| sc_step := st; sc_stack := sc_stack s |}.
Definition go_on (st : scan_state) (s : scanner) : option (scanner * bool) := Some (to st s, false).
Definition skip (s : scanner) : option (scanner * bool) := Some (s, true).
Definition pushParseState (s : scanner) (st : scan_state) (p : parse) : option (scanner * bool) :=
  if Z.of_nat (length (sc_stack s)) <? maxNestingDepth then Some ({| sc_step := st; sc_stack := p :: sc_stack s |}, false) else None.
Definition popParseState (stack : list parse) : option (scanner * bool) :=
  Some ({| sc_step := match stack with [] => stateEndTop | _ => stateEndValue end; sc_stack := stack |}, false).
Definition step_EndTop (s : scanner) (c : ascii) : option (scanner * bool) := if isSpace c then skip (to stateEndTop s) else None.
Definition step_EndValue (s : scanner) (c : ascii) : option (scanner * bool) :=
  match sc_stack s with
  | [] => step_EndTop s c
  | p :: stack =>
    if isSpace c then skip (to stateEndValue s)
    else match p with
         | parseObjectKey => if ch ":" c then Some ({| sc_step := stateBeginValue; sc_stack := parseObjectValue :: stack |}, false) else None
         | parseObjectValue =>
           if ch "," c then Some ({| sc_step := stateBeginString; sc_stack := parseObjectKey :: stack |}, false)
           else if ch "}" c then popParseState stack else None
         | parseArrayValue => if ch "," c then go_on stateBeginValue s else if ch "]" c then popParseState stack else None
         end
  end.
Definition step_BeginValue (s : scanner) (c : ascii) : option (scanner * bool) :=
  if isSpace c then skip s
  else if ch "{" c then pushParseState s stateBeginStringOrEmpty parseObjectKey
  else if ch "[" c then pushParseState s stateBeginValueOrEmpty parseArrayValue
  else if bool_decide (c = dquote) then go_on stateInString s
  else if ch "-" c then go_on stateNeg s
  else if ch "0" c then go_on state0 s
  else if ch "t" c then go_on (stateLiteral "r" §"ue") s
  else if ch "f" c then go_on (stateLiteral "a" §"lse") s
  else if ch "n" c then go_on (stateLiteral "u" §"ll") s
  else if is_dec c then go_on state1 s else None.
Definition step_BeginString (s : scanner) (c : ascii) : option (scanner * bool) :=
  if isSpace c then skip s else if bool_decide (c = dquote) then go_on stateInString s else None.
Definition step_0 (s : scanner) (c : ascii) : option (scanner * bool) :=
  if ch "." c then go_on stateDot s else if ch "e" c || ch "E" c then go_on stateE s else step_EndValue s c.
Definition step_digit (st : scan_state) (s : scanner) (c : ascii) : option (scanner * bool) := if is_dec c then go_on st s else None.
(** The next scanner and whether the byte is skipped; [None] is a syntax error. *)
Definition scan_step (s : scanner) (c : ascii) : option (scanner * bool) :=
  match sc_step s with
  | stateBeginValueOrEmpty => if isSpace c then skip s else if ch "]" c then step_EndValue s c else step_BeginValue s c
  | stateBeginValue => step_BeginValue s c
  | stateBeginStringOrEmpty =>
    if isSpace c then skip s
    else if ch "}" c then step_EndValue {| sc_step := sc_step s; sc_stack := match sc_stack s with [] => [] | _ :: l => parseObjectValue :: l end |} c
    else step_BeginString s c
  | stateBeginString => step_BeginString s c
  | stateEndValue => step_EndValue s c
  | stateEndTop => step_EndTop s c
  | stateInString =>
    if bool_decide (c = dquote) then go_on stateEndValue s
    else if ch "\" c then go_on stateInStringEsc s else if byte_val c <? 32 then None else go_on stateInString s
  | stateInStringEsc =>
    if bool_decide (c ∈ §"bfnrt\/") || bool_decide (c = dquote) then go_on stateInString s
    else if ch "u" c then go_on (stateInStringEscU 3) s else None
  | stateInStringEscU n => if is_hex c then go_on match n with O => stateInString | S n => stateInStringEscU n end s else None
  | stateNeg => if ch "0" c then go_on state0 s else if is_dec c then go_on state1 s else None
  | state1 => if is_dec c then go_on state1 s else step_0 s c
  | state0 => step_0 s c
  | stateDot => step_digit stateDot0 s c
  | stateDot0 => if is_dec c then go_on stateDot0 s else if ch "e" c || ch "E" c then go_on stateE s else step_EndValue s c
  | stateE => if ch "+" c || ch "-" c then go_on stateESign s else step_digit stateE0 s c
  | stateESign => step_digit stateE0 s c
  | stateE0 => if is_dec c then go_on stateE0 s else step_EndValue s c
  | stateLiteral x rest =>
    if bool_decide (c = x) then go_on match rest with [] => stateEndValue | y :: rest => stateLiteral y rest end s else None
  end.
Definition scan_eof (s : scanner) : bool :=
  match sc_step s with
  | stateEndTop => true
  | _ => match scan_step s " " with Some (s', _) => match sc_step s' with stateEndTop => true | _ => false end | None => false end
  end.
Fixpoint compact_go (s : scanner) (src : gostring) : option gostring :=
  match src with
  | [] => if scan_eof s then Some [] else None
  | c :: src =>
    match scan_step s c with
    | Some (s', skipped) => (if skipped : bool then id else cons c) <$> compact_go s' src
    | None => None
    end
  end.
Definition compactJSON (value : gostring) : option gostring := compact_go {| sc_step := stateBeginValue; sc_stack := [] |} value.

(** ** Entries *)
Definition maxSharedKeyBytes : Z := 256.
Definition maxSharedValueBytes : Z := Z.shiftl 1 20.
Definition maxSharedStateBytes : Z := Z.shiftl 32 20.
Definition maxSharedStateEntries : Z := 10000.
Definition defaultSharedTTL : Z := 600 * 1000000000.
Definition maxSharedTTLSeconds : Z := max_int64 / 1000000000.
Record sharedEntry := { se_value : gostring; se_ttl : Z; se_lastAccess : Time }.
Record SharedState := {
  items : gmap gostring sharedEntry; size : Z; maxEntries : Z; maxSize : Z; expiry : expiryQueue; wake : bool
}.
Definition NewSharedState : SharedState :=
  {| items := ∅; size := 0; maxEntries := maxSharedStateEntries; maxSize := maxSharedStateBytes; expiry := zeroQueue; wake := false |}.
Definition expires (e : sharedEntry) : Time := se_lastAccess e + se_ttl e.
Definition expired (now : Time) (e : sharedEntry) : bool := (0 <? se_ttl e) && negb (now <? expires e).
Definition sharedEntrySize (key : gostring) (e : sharedEntry) : Z := Z.of_nat (length key + length (se_value e)).
Definition normalizeSharedValue (key value : gostring) : res (gostring * gostring) :=
  let key := trim_space key in
  if bool_decide (key = []) then Err §"shared key must not be empty"
  else if maxSharedKeyBytes <? Z.of_nat (length key) then Err (§"shared key exceeds " ++ itoa maxSharedKeyBytes ++ §" byte limit")
  else match compactJSON value with
       | None => Err §"shared value must be valid JSON"
       | Some compact =>
         if maxSharedValueBytes <? Z.of_nat (length compact)
         then Err (§"shared value exceeds " ++ itoa (Z.shiftr maxSharedValueBytes 20) ++ §" MiB limit") else Ok (key, compact)
       end.
Definition sharedTTL (ttlSeconds : option Z) : res Z :=
  match ttlSeconds with
  | None => Ok defaultSharedTTL
  | Some n =>
    if n <? 0 then Err §"ttl_seconds must not be negative"
    else if maxSharedTTLSeconds <? n then Err §"ttl_seconds is too large" else Ok (wrap64 (n * 1000000000))
  end.

(** ** The critical sections *)
Definition with_expiry (s : SharedState) (q : expiryQueue) (changed : bool) : SharedState :=
  {| items := items s; size := size s; maxEntries := maxEntries s; maxSize := maxSize s; expiry := q; wake := wake s || changed |}.
Definition with_items (s : SharedState) (m : gmap gostring sharedEntry) (n : Z) : SharedState :=
  {| items := m; size := n; maxEntries := maxEntries s; maxSize := maxSize s; expiry := expiry s; wake := wake s |}.
Definition wakeExpiry (s : SharedState) : SharedState := with_expiry s (expiry s) true.
Definition deleteLocked (s : SharedState) (key : gostring) (e : sharedEntry) : option SharedState :=
  let s := with_items s (delete key (items s)) (size s - sharedEntrySize key e) in
  '(q, changed) ← remove (expiry s) key; Some (with_expiry s q changed).
Definition scheduleExpiryLocked (s : SharedState) (key : gostring) (e : sharedEntry) : option SharedState :=
  '(q, changed) ← (if bool_decide (se_ttl e = 0) then remove (expiry s) key else set (expiry s) key (expires e));
  Some (with_expiry s q changed).
Definition no_entry : sharedEntry := {| se_value := []; se_ttl := 0; se_lastAccess := 0 |}.
Fixpoint prune_go (fuel : nat) (s : SharedState) (now : Time) (removed : bool) : option (SharedState * bool) :=
  match fuel with
  | O => None
  | S fuel =>
    '(q, due) ← popDue (expiry s) now;
    match due with
    | None => Some (s, removed)
    | Some key => let s := with_expiry s q false in s ← deleteLocked s key (default no_entry (items s !! key)); prune_go fuel s now true
    end
  end.
Definition pruneExpiredLocked (s : SharedState) (now : Time) : option SharedState :=
  '(s, removed) ← prune_go (S (Len (expiry s))) s now false; Some (if removed : bool then wakeExpiry s else s).
(** The order of candidates for eviction. *)
Definition older (a b : gostring * sharedEntry) : Prop :=
  se_lastAccess a.2 < se_lastAccess b.2 ∨ se_lastAccess a.2 = se_lastAccess b.2 ∧ string_le a.1 b.1.
#[export] Instance older_dec : RelDecision older.
Proof. intros a b. unfold older. apply _. Defined.
Definition candidates (s : SharedState) (key : gostring) : list gostring :=
  map fst (merge_sort older (filter (λ p, p.1 ≠ key) (map_to_list (items s)))).
Definition fits (s : SharedState) (key : gostring) (incoming : sharedEntry) (exists_ : bool) (currentSize : Z) : bool :=
  let count := Z.of_nat (base.size (items s)) + (if exists_ then 0 else 1) in
  (count <=? maxEntries s) && (size s - currentSize + sharedEntrySize key incoming <=? maxSize s).
(** The state after evicting, and whether the entry fits. *)
Fixpoint evict (s : SharedState) (key : gostring) (incoming : sharedEntry) (exists_ : bool) (currentSize : Z) (keys : list gostring)
  : option (SharedState * bool) :=
  match keys with
  | [] => Some (s, false)
  | k :: keys =>
    s ← deleteLocked s k (default no_entry (items s !! k));
    if fits s key incoming exists_ currentSize then Some (s, true) else evict s key incoming exists_ currentSize keys
  end.
Section shared.
Context `{UnicodeTables}.
Definition makeRoomLocked (s : SharedState) (key : gostring) (incoming : sharedEntry) : option (SharedState * res unit) :=
  if maxSize s <? sharedEntrySize key incoming then Some (s, Err (§"hook shared state entry exceeds " ++ itoa (maxSize s) ++ §" byte limit"))
  else
    let '(exists_, currentSize) := match items s !! key with Some e => (true, sharedEntrySize key e) | None => (false, 0) end in
    if fits s key incoming exists_ currentSize then Some (s, Ok tt)
    else '(s, ok) ← evict s key incoming exists_ currentSize (candidates s key);
         Some (s, if ok : bool then Ok tt else Err (§"hook shared state cannot make room for key " ++ quote key)).
Definition storeLocked (s : SharedState) (key : gostring) (e : sharedEntry) : option (SharedState * res unit) :=
  s ← pruneExpiredLocked s (se_lastAccess e);
  '(s, r) ← makeRoomLocked s key e;
  match r with
  | Ok _ =>
    let n := match items s !! key with Some previous => size s - sharedEntrySize key previous | None => size s end in
    s ← scheduleExpiryLocked (with_items s (<[key := e]> (items s)) (n + sharedEntrySize key e)) key e; Some (s, Ok tt)
  | _ => Some (s, r)
  end.

(** ** The methods, at a clock reading *)
Definition Get (s : SharedState) (now : Time) (key : gostring) : option (SharedState * option gostring) :=
  let key := trim_space key in
  match items s !! key with
  | None => Some (s, None)
  | Some e =>
    if expired now e then s ← deleteLocked s key e; Some (s, None)
    else
      let e := {| se_value := se_value e; se_ttl := se_ttl e; se_lastAccess := now |} in
      s ← scheduleExpiryLocked (with_items s (<[key := e]> (items s)) (size s)) key e; Some (s, Some (se_value e))
  end.
Definition SetWithTTL (s : SharedState) (now : Time) (key value : gostring) (ttl : Z) : option (SharedState * res unit) :=
  match normalizeSharedValue key value with
  | Ok (key, value) => storeLocked s key {| se_value := value; se_ttl := ttl; se_lastAccess := now |}
  | Err m => Some (s, Err m)
  | Panic => None
  end.
Definition Delete (s : SharedState) (now : Time) (key : gostring) : option (SharedState * bool) :=
  let key := trim_space key in
  match items s !! key with
  | None => Some (s, false)
  | Some e => s ← deleteLocked s key e; Some (s, negb (expired now e))
  end.
Definition List (s : SharedState) (now : Time) (prefix : gostring) : option (SharedState * list gostring) :=
  let prefix := trim_space prefix in
  s ← pruneExpiredLocked s now;
  Some (s, merge_sort string_le (List.filter (has_prefix prefix) (map fst (map_to_list (items s))))).
Definition CompareAndSwapWithTTL (s : SharedState) (now : Time) (key expected value : gostring) (ttl : Z) : option (SharedState * res bool) :=
  match normalizeSharedValue key value with
  | Err m => Some (s, Err m)
  | Panic => None
  | Ok (key, value) =>
    match (if bool_decide (expected = []) then Some [] else compactJSON expected) with
    | None => Some (s, Err §"shared expected value must be valid JSON")
    | Some expected =>
      '(s, current) ← match items s !! key with
                      | Some e => if expired now e then s ← deleteLocked s key e; Some (s, None) else Some (s, Some e)
                      | None => Some (s, None)
                      end;
      if match current with
         | Some e => bool_decide (expected = []) || negb (bool_decide (se_value e = expected))
         | None => negb (bool_decide (expected = []))
         end
      then Some (s, Ok false)
      else '(s, r) ← storeLocked s key {| se_value := value; se_ttl := ttl; se_lastAccess := now |};
           Some (s, match r with Ok _ => Ok true | Err m => Err m | Panic => Panic end)
    end
  end.
Inductive SharedResult := RDeleted (b : bool) | RFound (value : option gostring) | ROk | RSwapped (b : bool) | RKeys (keys : list gostring).
(** [json.Unmarshal] of the parameters into the structs of the methods. *)
Record decoders := {
  dec_key : gostring → res gostring; dec_prefix : gostring → res gostring;
  dec_store : gostring → res (gostring * gostring * gostring * option Z)
}.
Definition reply {A} (f : A → SharedResult) (r : option (SharedState * A)) : option (SharedState * res SharedResult) := '(s, a) ← r; Some (s, Ok (f a)).
Definition reply_res {A} (f : A → SharedResult) (r : option (SharedState * res A)) : option (SharedState * res SharedResult) :=
  '(s, a) ← r; Some (s, let* x := a in Ok (f x)).
Definition HandleRequest (D : decoders) (s : SharedState) (now : Time) (method params : gostring) : option (SharedState * res SharedResult) :=
  let decoded {A} (r : res A) (k : A → option (SharedState * res SharedResult)) :=
    match r with Ok a => k a | Err m => Some (s, Err m) | Panic => None end in
  if bool_decide (method = §"shared.delete") then decoded (dec_key D params) (λ key, reply RDeleted (Delete s now key))
  else if bool_decide (method = §"shared.get") then decoded (dec_key D params) (λ key, reply RFound (Get s now key))
  else if bool_decide (method ∈ [§"shared.set"; §"shared.compare_and_swap"]) then
    decoded (dec_store D params) (λ '(key, expected, value, ttlSeconds),
      decoded (sharedTTL ttlSeconds) (λ ttl,
        if bool_decide (method = §"shared.set") then reply_res (λ _, ROk) (SetWithTTL s now key value ttl)
        else reply_res RSwapped (CompareAndSwapWithTTL s now key expected value ttl)))
  else if bool_decide (method = §"shared.list") then decoded (dec_prefix D params) (λ prefix, reply RKeys (List s now prefix))
  else Some (s, Err (§"unsupported hook shared method " ++ quote method)).

(** ** The maintenance loop *)
(** About to check its context; to sweep; waiting for the timer of the next
    deadline ([0] when there is none) or a wake-up; returned. *)
Inductive loop := LoopCheck | LoopSweep | LoopWait (due : Time) | LoopDone.
Record system := { sy_state : SharedState; sy_loop : loop; sy_closed : bool }.
Definition init_system : system := {| sy_state := NewSharedState; sy_loop := LoopCheck; sy_closed := false |}.
Inductive action := Request (now : Time) (method params : gostring) | Check | Sweep (now : Time) | Woken | Fired (now : Time) | Cancel | Leave.
Definition with_loop (w : system) (s : SharedState) (l : loop) : system := {| sy_state := s; sy_loop := l; sy_closed := sy_closed w |}.
Definition woken (s : SharedState) : SharedState :=
  {| items := items s; size := size s; maxEntries := maxEntries s; maxSize := maxSize s; expiry := expiry s; wake := false |}.
(** [None]: the action is not possible. *)
Definition maintain_step (D : decoders) (w : system) (a : action) : option system :=
  let s := sy_state w in
  match a, sy_loop w with
  | Request now method params, l => '(s, _) ← HandleRequest D s now method params; Some (with_loop w s l)
  | Check, LoopCheck => Some (with_loop w s (if sy_closed w then LoopDone else LoopSweep))
  | Sweep now, LoopSweep => s ← pruneExpiredLocked s now; Some (with_loop w s (LoopWait (next (expiry s))))
  | Woken, LoopWait _ => if wake s then Some (with_loop w (woken s) LoopCheck) else None
  | Fired now, LoopWait due => if negb (bool_decide (due = 0)) && (due <=? now) then Some (with_loop w s LoopCheck) else None
  | Cancel, l => Some {| sy_state := s; sy_loop := l; sy_closed := true |}
  | Leave, LoopWait _ => if sy_closed w then Some (with_loop w s LoopDone) else None
  | _, _ => None
  end.
Fixpoint maintain_run (D : decoders) (w : system) (l : list action) : option system :=
  match l with [] => Some w | a :: l => w ← maintain_step D w a; maintain_run D w l end.
End shared.
