(* ===== verification/SharedProps.v ===== *)
(** * The state shared by hooks keeps its limits and forgets what has expired

    Compaction is idempotent, so stored values are compared byte by byte. Every
    request keeps the exact size, the limits and the index of deadlines; it
    removes an entry only when it is deleted, has expired, or is among the least
    recently used and has to make room. The maintenance loop never waits past
    the next deadline. *)
From S2P Require Import Prelude GoStr Admission ToolState ToolStateProps Expiry Shared.
Open Scope Z_scope.

(** ** Compaction *)
(** A number may go on; a value that has ended does not. *)
Definition may_end (st : scan_state) : bool := match st with state1 | state0 | stateDot0 | stateE0 | stateEndValue => true | _ => false end.
(** Two scanners that differ in skipped bytes only. *)
Definition alike (s s' : scanner) : Prop :=
  sc_stack s = sc_stack s' ∧ (sc_step s = sc_step s' ∨
    may_end (sc_step s') = true ∧ (sc_step s = stateEndValue ∨ sc_step s = stateEndTop ∧ sc_stack s = [])).
Lemma ch_eq x c : ch x c = true → lit x = [c].
Proof. unfold ch. destruct (lit x) as [|y []]; try done. rewrite bool_decide_eq_true. by intros ->. Qed.
Lemma space_ends st stack c : may_end st = true → isSpace c = true →
  scan_step {| sc_step := st; sc_stack := stack |} c =
  Some ({| sc_step := match stack with [] => stateEndTop | _ => stateEndValue end; sc_stack := stack |}, true).
Proof.
  intros M S. unfold isSpace in S. apply bool_decide_eq_true in S.
  assert (V : c = byte_of 32 ∨ c = byte_of 9 ∨ c = byte_of 13 ∨ c = byte_of 10).
  { assert (B : byte_of (byte_val c) = c) by (unfold byte_of, byte_val; rewrite N2Z.id; apply ascii_N_embedding). rewrite <- B.
    rewrite !elem_of_cons, elem_of_nil in S. destruct S as [->|[->|[->|[->|[]]]]]; auto. }
  destruct V as [->|[->|[->| ->]]]; destruct st, stack; done.
Qed.
Lemma end_goes_on st stack c s1 : may_end st = true → step_EndValue {| sc_step := stateEndValue; sc_stack := stack |} c = Some (s1, false) →
  scan_step {| sc_step := st; sc_stack := stack |} c = Some (s1, false).
Proof.
  intros M E. assert (V : c = ":"%char ∨ c = ","%char ∨ c = "}"%char ∨ c = "]"%char).
  { unfold step_EndValue in E. cbn [sc_stack] in E. destruct stack as [|p stack]; [unfold step_EndTop in E; by destruct (isSpace c)|].
    destruct (isSpace c); [done|]. destruct p; repeat (case_match; try done);
      repeat match goal with H : ch _ c = true |- _ => apply ch_eq in H; injection H as <- end; auto. }
  destruct V as [->|[->|[->| ->]]]; destruct st; try done.
Qed.
Lemma end_space stack c s1 : step_EndValue {| sc_step := stateEndValue; sc_stack := stack |} c = Some (s1, true) → isSpace c = true.
Proof.
  unfold step_EndValue. cbn [sc_stack]. unfold step_EndTop, pushParseState, popParseState, go_on, skip.
  destruct stack as [|p stack]; repeat (case_match; try done); by destruct (isSpace c).
Qed.
Lemma skip_spec s c s1 : scan_step s c = Some (s1, true) → isSpace c = true ∧ sc_stack s1 = sc_stack s ∧
  (s1 = s ∨ may_end (sc_step s) = true ∧ sc_step s1 = match sc_stack s with [] => stateEndTop | _ => stateEndValue end).
Proof.
  intros E. assert (S : isSpace c = true).
  { destruct (isSpace c) eqn:S; [done|]. destruct s as [st stack]. unfold scan_step, step_BeginValue, step_BeginString, step_0, step_digit, step_EndValue, step_EndTop, pushParseState, popParseState, go_on, skip in E. cbn [sc_step sc_stack] in E. rewrite S in E.
    repeat (case_match; simplify_eq/=). }
  split; [done|]. destruct s as [st stack]. destruct (may_end st) eqn:M.
  - rewrite (space_ends st stack c M S) in E. injection E as <-. by auto.
  - unfold scan_step in E. destruct st; try done; cbn [sc_step sc_stack] in E;
      unfold step_BeginValue, step_BeginString, step_digit, step_EndTop, go_on, skip in E; rewrite ?S in E; repeat (case_match; simplify_eq/=); auto.
Qed.
Lemma alike_skip s s' c s1 : alike s s' → scan_step s c = Some (s1, true) → alike s1 s'.
Proof.
  intros [K A] E. destruct (skip_spec s c s1 E) as (_ & K1 & [->|[M E1]]); [by split|]. split; [congruence|]. right.
  destruct A as [A|[M' A]]; (split; [congruence|]); rewrite E1, K1; destruct (sc_stack s); auto.
Qed.
Lemma alike_step s s' c s1 : alike s s' → scan_step s c = Some (s1, false) → scan_step s' c = Some (s1, false).
Proof.
  intros [K [A|[M A]]] E; destruct s as [st stack], s' as [st' stack']; cbn in K, A; subst stack'; [by subst|].
  destruct A as [->|[-> ->]].
  - by apply end_goes_on.
  - unfold scan_step, step_EndTop in E. cbn in E. by destruct (isSpace c).
Qed.
Lemma alike_eof s s' : alike s s' → scan_eof s = true → scan_eof s' = true.
Proof.
  intros [K [A|[M A]]] E; destruct s as [st stack], s' as [st' stack']; cbn in K, A; subst stack'; [by subst|].
  assert (Z : stack = []).
  { destruct A as [->|[-> ->]]; [|done]. unfold scan_eof in E. cbn [sc_step] in E. rewrite (space_ends stateEndValue) in E by done.
    by destruct stack. }
  subst stack. unfold scan_eof. cbn [sc_step]. rewrite (space_ends st') by done. by destruct st'.
Qed.
Lemma compact_alike src : ∀ s s' out, alike s s' → compact_go s src = Some out → compact_go s' out = Some out.
Proof.
  induction src as [|c src IH]; intros s s' out A E; cbn [compact_go] in E.
  - destruct (scan_eof s) eqn:F; [|done]. injection E as <-. cbn. by rewrite (alike_eof _ _ A F).
  - destruct (scan_step s c) as [[s1 []]|] eqn:S; [| |done]; apply fmap_Some in E as (out' & E & ->).
    + eapply IH; [|exact E]. by eapply alike_skip.
    + cbn [compact_go]. rewrite (alike_step _ _ _ _ A S). rewrite (IH s1 s1 out'); [done| |done]. split; [done|by left].
Qed.
Lemma compact_idempotent value out : compactJSON value = Some out → compactJSON out = Some out.
Proof. apply compact_alike. split; [done|by left]. Qed.
Lemma compact_shorter src : ∀ s out, compact_go s src = Some out → (length out <= length src)%nat.
Proof.
  induction src as [|c src IH]; intros s out E; cbn [compact_go] in E; [destruct (scan_eof s); [by injection E as <-|done]|].
  destruct (scan_step s c) as [[s1 []]|]; [| |done]; apply fmap_Some in E as (out' & E & ->); apply IH in E; simpl; lia.
Qed.

(** ** What a state means *)
Definition total_size (m : gmap gostring sharedEntry) : Z := map_fold (λ k e n, sharedEntrySize k e + n) 0 m.
Definition due_at (e : sharedEntry) : option Time := if bool_decide (se_ttl e = 0) then None else Some (expires e).
Definition schedule (m : gmap gostring sharedEntry) : gmap gostring Time := omap due_at m.
Definition live (now : Time) (m : gmap gostring sharedEntry) : gmap gostring sharedEntry := filter (λ p, expired now p.2 = false) m.
(** The size is exact and the queue holds the deadlines. *)
Record indexed (s : SharedState) : Prop := {
  ix_queue : good (expiry s); ix_deadlines : deadlines (expiry s) = schedule (items s); ix_size : size s = total_size (items s);
  ix_ttl : map_Forall (λ _ e, 0 <= se_ttl e) (items s)
}.
(** The limits stay, and a change of the next deadline is signalled. *)
Record signalled (s s' : SharedState) : Prop := {
  sg_entries : maxEntries s' = maxEntries s; sg_size : maxSize s' = maxSize s; sg_wake : wake s = true → wake s' = true;
  sg_next : next (expiry s') = next (expiry s) ∨ wake s' = true
}.
#[export] Instance signalled_refl : Reflexive signalled.
Proof. intros s. split; auto. Qed.
#[export] Instance signalled_trans : Transitive signalled.
Proof. intros s1 s2 s3 [E1 S1 W1 N1] [E2 S2 W2 N2]. split; [congruence|congruence|auto|]. destruct N2 as [->|]; [|auto]. destruct N1 as [->|]; auto. Qed.

Lemma total_size_insert m k e : m !! k = None → total_size (<[k := e]> m) = sharedEntrySize k e + total_size m.
Proof. intros N. unfold total_size. rewrite map_fold_insert_L; [done| |done]. intros. lia. Qed.
Lemma total_size_delete m k e : m !! k = Some e → total_size (delete k m) = total_size m - sharedEntrySize k e.
Proof.
  intros E. assert (H : total_size m = sharedEntrySize k e + total_size (delete k m)); [|lia].
  rewrite <- total_size_insert by apply lookup_delete_eq. by rewrite insert_delete_id.
Qed.
Lemma total_size_replace m k e : total_size (<[k := e]> m) = sharedEntrySize k e + total_size (delete k m).
Proof. rewrite <- insert_delete_eq. apply total_size_insert, lookup_delete_eq. Qed.
Lemma total_size_nonneg m : 0 <= total_size m.
Proof. unfold total_size. apply (map_fold_weak_ind (λ n _, 0 <= n)); [lia|]. intros k e m' n _ H. unfold sharedEntrySize. lia. Qed.
Lemma lookup_schedule m k : schedule m !! k = (e ← m !! k; due_at e).
Proof. unfold schedule. by rewrite lookup_omap. Qed.
Lemma schedule_delete m k : schedule (delete k m) = delete k (schedule m).
Proof. apply omap_delete. Qed.
Lemma schedule_insert m k e : schedule (<[k := e]> m) = match due_at e with Some d => <[k := d]> (schedule m) | None => delete k (schedule m) end.
Proof.
  apply map_eq. intros k'. rewrite lookup_schedule. destruct (decide (k = k')) as [<-|N].
  - rewrite lookup_insert_eq. simpl. destruct (due_at e); by rewrite ?lookup_insert_eq, ?lookup_delete_eq.
  - rewrite lookup_insert_ne, <- lookup_schedule by done. destruct (due_at e); by rewrite ?lookup_insert_ne, ?lookup_delete_ne.
Qed.
Lemma due_zero e : due_at e = None ↔ se_ttl e = 0.
Proof. unfold due_at. case_bool_decide; naive_solver. Qed.
Lemma expired_due now e : 0 <= se_ttl e → expired now e = true ↔ ∃ d, due_at e = Some d ∧ d <= now.
Proof.
  intros P. unfold expired, due_at. rewrite andb_true_iff, negb_true_iff, Z.ltb_lt, Z.ltb_ge. case_bool_decide; split.
  - lia.
  - naive_solver.
  - intros []. eauto.
  - intros (d & [= <-] & L). lia.
Qed.
(** The flag that [set] and [remove] return says whether a wake-up is needed. *)
Lemma changed_signals s q changed : changed = negb (bool_decide (next (expiry s) = next q)) → signalled s (with_expiry s q changed).
Proof. intros ->. split; [done|done| |]; simpl; [by intros ->|]. case_bool_decide as N; [by left|right; apply orb_true_r]. Qed.
Lemma items_signals s m n : signalled s (with_items s m n).
Proof. split; auto. Qed.

Lemma deleteLocked_spec s key e : indexed s → items s !! key = Some e →
  ∃ s', deleteLocked s key e = Some s' ∧ indexed s' ∧ signalled s s' ∧ items s' = delete key (items s).
Proof.
  intros [Q D S T] E. unfold deleteLocked. cbn [with_items expiry]. destruct (remove_deletes (expiry s) key Q) as (q & changed & -> & G & D' & C).
  simpl. eexists. split; [done|]. split_and!.
  - split; cbn; [done| |by rewrite S, (total_size_delete _ _ _ E)|by apply map_Forall_delete]. by rewrite D', D, schedule_delete.
  - etransitivity; [apply (items_signals s)|by apply changed_signals].
  - done.
Qed.
(** An entry put in place of what the key had, with its deadline. *)
Lemma put_spec s key e : indexed s → 0 <= se_ttl e →
  ∃ s', scheduleExpiryLocked (with_items s (<[key := e]> (items s)) (total_size (<[key := e]> (items s)))) key e = Some s' ∧
    indexed s' ∧ signalled s s' ∧ items s' = <[key := e]> (items s).
Proof.
  intros [Q D S T] P. unfold scheduleExpiryLocked. cbn [with_items expiry].
  assert (H : ∃ q changed, (if bool_decide (se_ttl e = 0) then remove (expiry s) key else set (expiry s) key (expires e)) = Some (q, changed) ∧
    good q ∧ deadlines q = schedule (<[key := e]> (items s)) ∧ changed = negb (bool_decide (next (expiry s) = next q))).
  { rewrite schedule_insert. unfold due_at. case_bool_decide as Z; rewrite <- D; [by apply remove_deletes|by apply set_inserts]. }
  destruct H as (q & changed & -> & G & D' & C). simpl. eexists. split; [done|]. split_and!.
  - split; cbn; [done..|]. by apply map_Forall_insert_2.
  - etransitivity; [apply (items_signals s)|by apply changed_signals].
  - done.
Qed.

(** ** Removing what has expired *)
Lemma live_delete now m k e : m !! k = Some e → expired now e = true → live now (delete k m) = live now m.
Proof. intros E X. apply map_filter_delete_not. intros y Y. cbn. rewrite E in Y. injection Y as <-. congruence. Qed.
Lemma live_all now m : map_Forall (λ _ e, expired now e = false) m → live now m = m.
Proof. intros H. apply map_filter_id. intros k e E. by apply H in E. Qed.
Lemma lookup_live now m k : live now m !! k = match m !! k with Some e => if expired now e then None else Some e | None => None end.
Proof.
  unfold live. destruct (m !! k) as [e|] eqn:E.
  - destruct (expired now e) eqn:X.
    + apply map_lookup_filter_None. right. intros y Y. cbn. rewrite E in Y. injection Y as <-. congruence.
    + by apply map_lookup_filter_Some.
  - apply map_lookup_filter_None. by left.
Qed.
Lemma prune_go_spec now fuel : ∀ s removed, indexed s → (Len (expiry s) < fuel)%nat →
  ∃ s' removed', prune_go fuel s now removed = Some (s', removed') ∧ indexed s' ∧ items s' = live now (items s) ∧
    maxEntries s' = maxEntries s ∧ maxSize s' = maxSize s ∧ wake s' = wake s ∧ (removed' = removed ∧ s' = s ∨ removed' = true).
Proof.
  induction fuel as [|fuel IH]; intros s removed [Q D S T] F; [lia|]. cbn [prune_go].
  destruct (popDue_least (expiry s) now Q) as (q & due & -> & G & H). cbn [mbind option_bind]. destruct due as [key|].
  - destruct H as (L & D' & d & Ed & Ld & _). rewrite D, lookup_schedule in Ed. apply bind_Some in Ed as (e & Ee & Ed).
    assert (X : expired now e = true) by (apply expired_due; [by apply (T key)|eauto]). cbn [with_expiry items]. rewrite Ee. cbn [default].
    unfold deleteLocked. cbn [with_items with_expiry expiry]. rewrite remove_absent; [|apply G|by rewrite D', lookup_delete_eq].
    cbn [mbind option_bind]. set (s1 := with_expiry _ q false).
    destruct (IH s1 true) as (s' & r' & -> & I & E & M1 & M2 & W & R).
    + split; cbn; [done| |by rewrite S, (total_size_delete _ _ _ Ee)|by apply map_Forall_delete]. by rewrite D', D, schedule_delete.
    + cbn. lia.
    + exists s', r'. split_and!; [done|done| |done|done| |].
      * rewrite E. cbn. by eapply live_delete.
      * rewrite W. cbn. by rewrite !orb_false_r.
      * right. by destruct R as [[-> _]|].
  - destruct H as [-> H]. exists s, removed. split_and!; [done|by split| |done|done|done|by left].
    symmetry. apply live_all. intros k e E. destruct (expired now e) eqn:X; [|done]. apply expired_due in X as (d & Ed & Ld); [|by apply (T k)].
    specialize (H k d). rewrite D, lookup_schedule, E in H. specialize (H Ed). lia.
Qed.
Lemma prune_spec s now : indexed s → ∃ s', pruneExpiredLocked s now = Some s' ∧ indexed s' ∧ signalled s s' ∧ items s' = live now (items s).
Proof.
  intros I. unfold pruneExpiredLocked. destruct (prune_go_spec now (Datatypes.S (Len (expiry s))) s false I) as (s' & r & -> & I' & E & M1 & M2 & W & R); [lia|].
  simpl. eexists. split; [done|]. destruct R as [[-> ->]| ->]; [by split_and!|]. split_and!; [|split; cbn; auto|done].
  - by destruct I'.
  - intros _. apply orb_true_r.
  - right. apply orb_true_r.
Qed.

(** ** Making room *)
Definition without (m : gmap gostring sharedEntry) (ks : list gostring) : gmap gostring sharedEntry := filter (λ p, p.1 ∉ ks) m.
Definition within (entries bytes : Z) (m : gmap gostring sharedEntry) : Prop := Z.of_nat (base.size m) <= entries ∧ total_size m <= bytes.
(** The keys to evict before [key] gets [e]: oldest first, and no more than needed. *)
Record evicts (entries bytes : Z) (m : gmap gostring sharedEntry) (key : gostring) (e : sharedEntry) (ks : list gostring) : Prop := {
  ev_in : ∀ k, k ∈ ks → k ≠ key ∧ is_Some (m !! k);
  ev_oldest : ∀ k x k' x', m !! k = Some x → m !! k' = Some x' → k ∈ ks → k' ∉ ks → k' ≠ key →
    se_lastAccess x < se_lastAccess x' ∨ se_lastAccess x = se_lastAccess x' ∧ string_le k k';
  ev_needed : ∀ n, (n < length ks)%nat → ¬ within entries bytes (<[key := e]> (without m (take n ks)));
  ev_enough : within entries bytes (<[key := e]> (without m ks))
}.
Lemma without_nil m : without m [] = m.
Proof. apply map_filter_id. intros k x _. cbn. by intros ?%elem_of_nil. Qed.
Lemma without_cons m k ks : without m (k :: ks) = without (delete k m) ks.
Proof.
  apply map_eq. intros j. apply option_eq. intros x. unfold without. rewrite !map_lookup_filter_Some, lookup_delete_Some. cbn.
  rewrite not_elem_of_cons. naive_solver.
Qed.
Lemma lookup_without m ks k : k ∉ ks → without m ks !! k = m !! k.
Proof. intros N. apply option_eq. intros x. unfold without. rewrite map_lookup_filter_Some. cbn. naive_solver. Qed.
Lemma fits_within s key e : indexed s →
  fits s key e (match items s !! key with Some _ => true | None => false end) (match items s !! key with Some c => sharedEntrySize key c | None => 0 end)
  = true ↔ within (maxEntries s) (maxSize s) (<[key := e]> (items s)).
Proof.
  intros [_ _ S _]. unfold fits, within. rewrite andb_true_iff, !Z.leb_le, S, total_size_replace.
  destruct (items s !! key) as [c|] eqn:E.
  - rewrite map_size_insert_Some by eauto. rewrite (total_size_delete _ _ _ E). lia.
  - rewrite map_size_insert_None, delete_id by done. lia.
Qed.
Lemma shared_evict_spec key e ex cs ks : ∀ s, indexed s → NoDup ks → (∀ k, k ∈ ks → k ≠ key ∧ is_Some (items s !! k)) →
  ex = match items s !! key with Some _ => true | None => false end → cs = match items s !! key with Some c => sharedEntrySize key c | None => 0 end →
  ¬ within (maxEntries s) (maxSize s) (<[key := e]> (items s)) →
  ∃ s' ok n, evict s key e ex cs ks = Some (s', ok) ∧ indexed s' ∧ signalled s s' ∧ items s' = without (items s) (take n ks) ∧ (n <= length ks)%nat ∧
    (∀ m, (m < n)%nat → ¬ within (maxEntries s) (maxSize s) (<[key := e]> (without (items s) (take m ks)))) ∧
    if ok : bool then within (maxEntries s) (maxSize s) (<[key := e]> (items s'))
    else n = length ks ∧ ¬ within (maxEntries s) (maxSize s) (<[key := e]> (items s')).
Proof.
  induction ks as [|k ks IH]; intros s I N In Ex Cs W; cbn [evict].
  - exists s, false, 0%nat. split_and!; [done|done|done|by rewrite without_nil|done|lia|done|done].
  - apply NoDup_cons in N as [Nk N]. destruct (In k ltac:(left)) as [Kk [x Ek]]. rewrite Ek. change (default no_entry (Some x)) with x.
    destruct (deleteLocked_spec s k x I Ek) as (s1 & -> & I1 & S1 & E1). cbn [mbind option_bind].
    assert (L1 : items s1 !! key = items s !! key) by (by rewrite E1, lookup_delete_ne).
    pose proof (fits_within s1 key e I1) as FW. rewrite L1, <- Ex, <- Cs, (sg_entries _ _ S1), (sg_size _ _ S1) in FW.
    destruct (fits s1 key e ex cs) eqn:F.
    + exists s1, true, 1%nat. split_and!; [done|done|done| |simpl; lia| |by apply FW].
      * simpl. by rewrite take_0, without_cons, without_nil, E1.
      * intros m M. replace m with 0%nat by lia. by rewrite take_0, without_nil.
    + destruct (IH s1 I1 N) as (s' & ok & n & -> & I' & S' & E' & Ln & Nd & R); rewrite ?L1; try done.
      * intros j J. destruct (In j ltac:(by right)) as [J1 J2]. split; [done|]. rewrite E1, lookup_delete_ne; [done|]. congruence.
      * rewrite (sg_entries _ _ S1), (sg_size _ _ S1). intros X. apply FW in X. congruence.
      * rewrite (sg_entries _ _ S1), (sg_size _ _ S1) in *. exists s', ok, (Datatypes.S n). split_and!; [done|done|by etransitivity| |simpl; lia| |].
        -- simpl. by rewrite without_cons, E', E1.
        -- intros [|m] M; [by rewrite take_0, without_nil|]. simpl. rewrite without_cons, <- E1. apply Nd. lia.
        -- destruct ok; [done|]. destruct R as [-> R]. done.
Qed.
#[export] Instance older_trans : Transitive older.
Proof. intros a b c [H|[H H']] [K|[K K']]; unfold older; [left; lia..|right]. split; [lia|by etransitivity]. Qed.
#[export] Instance older_total : Total older.
Proof.
  intros a b. unfold older. destruct (Z.lt_total (se_lastAccess a.2) (se_lastAccess b.2)) as [|[E|]]; [auto| |auto].
  destruct (total string_le a.1 b.1); [left|right]; right; auto.
Qed.
Lemma elem_candidates s key k : k ∈ candidates s key ↔ k ≠ key ∧ is_Some (items s !! k).
Proof.
  unfold candidates. rewrite list_elem_of_fmap. setoid_rewrite (merge_sort_Permutation older). setoid_rewrite list_elem_of_filter. split.
  - intros ([j x] & -> & N & M%elem_of_map_to_list). eauto.
  - intros [N [x E]]. exists (k, x). split_and!; [done|done|by apply elem_of_map_to_list].
Qed.

Section methods.
Context `{UnicodeTables}.
Lemma NoDup_candidates s key : NoDup (candidates s key).
Proof.
  unfold candidates. rewrite (merge_sort_Permutation older). pose proof (NoDup_fst_map_to_list (items s)) as N. revert N.
  generalize (map_to_list (items s)). intros l. induction l as [|p l IH]; intros N; [done|]. apply NoDup_cons in N as [Np N].
  rewrite filter_cons. case_decide; [|by apply IH]. cbn. apply NoDup_cons. split; [|by apply IH]. intros (q & E & M)%list_elem_of_fmap.
  apply list_elem_of_filter in M as [_ M]. apply Np. rewrite E. apply list_elem_of_fmap. eauto.
Qed.
Lemma candidates_oldest s key n k x k' x' : items s !! k = Some x → items s !! k' = Some x' → k ∈ take n (candidates s key) →
  k' ∉ take n (candidates s key) → k' ≠ key → older (k, x) (k', x').
Proof.
  intros E E' I I' N. assert (J : k' ∈ candidates s key) by (apply elem_candidates; eauto).
  rewrite <- (take_drop n (candidates s key)) in J. apply elem_of_app in J as [J|J]; [done|]. clear I'. revert I J. unfold candidates.
  set (l := merge_sort older _). assert (S : StronglySorted older l) by apply (StronglySorted_merge_sort older).
  assert (L : ∀ j y, (j, y) ∈ l → items s !! j = Some y).
  { intros j y. unfold l. rewrite (merge_sort_Permutation older), list_elem_of_filter. intros [_ M]. by apply elem_of_map_to_list. }
  rewrite <- fmap_take, <- fmap_drop, !list_elem_of_fmap. intros ([k1 x1] & -> & I) ([k2 x2] & -> & J). cbn in *.
  rewrite <- (take_drop n l) in S. assert (E1 : x1 = x). { assert (In : (k1, x1) ∈ l) by (rewrite <- (take_drop n l); apply elem_of_app; by left). apply L in In. congruence. }
  assert (E2 : x2 = x'). { assert (In : (k2, x2) ∈ l) by (rewrite <- (take_drop n l); apply elem_of_app; by right). apply L in In. congruence. }
  subst. by apply (StronglySorted_app_1_elem_of older _ _ _ _ S).
Qed.
Lemma makeRoom_spec s key e : indexed s → 1 <= maxEntries s → sharedEntrySize key e <= maxSize s →
  ∃ s' ks, makeRoomLocked s key e = Some (s', Ok tt) ∧ indexed s' ∧ signalled s s' ∧ items s' = without (items s) ks ∧
    evicts (maxEntries s) (maxSize s) (items s) key e ks.
Proof.
  intros I M B. unfold makeRoomLocked. assert (Z : (maxSize s <? sharedEntrySize key e) = false) by (apply Z.ltb_ge; lia). rewrite Z.
  pose proof (fits_within s key e I) as FW. set (ex := match items s !! key with Some _ => true | None => false end) in FW.
  set (cs := match items s !! key with Some c => sharedEntrySize key c | None => 0 end) in FW.
  replace (match items s !! key with Some e0 => (true, sharedEntrySize key e0) | None => (false, 0) end) with (ex, cs) by (unfold ex, cs; by destruct (items s !! key)).
  cbn iota. destruct (fits s key e ex cs) eqn:F.
  - exists s, []. split_and!; [done|done|done|by rewrite without_nil|]. split.
    + by intros k ?%elem_of_nil.
    + by intros k x k' x' _ _ ?%elem_of_nil.
    + intros n L. simpl in L. lia.
    + rewrite without_nil. by apply FW.
  - assert (W : ¬ within (maxEntries s) (maxSize s) (<[key := e]> (items s))) by (rewrite <- FW; congruence).
    destruct (shared_evict_spec key e ex cs (candidates s key) s) as (s' & ok & n & -> & I' & S' & E & L & Nd & R); try done;
      [apply NoDup_candidates|intros k; apply elem_candidates|]. cbn [mbind option_bind].
    exists s', (take n (candidates s key)). assert (ok = true) as ->; [|split_and!; [done..|]; split].
    + destruct ok; [done|]. exfalso. destruct R as [-> R]. apply R. rewrite E, firstn_all.
      assert (Only : <[key := e]> (without (items s) (candidates s key)) = {[key := e]}).
      { apply map_eq. intros k. destruct (decide (key = k)) as [<-|N]; [by rewrite lookup_insert_eq, lookup_singleton_eq|].
        rewrite lookup_insert_ne, lookup_singleton_ne by done. apply map_lookup_filter_None. destruct (items s !! k) as [x|] eqn:Ek; [right|by left].
        intros y _. cbn. intros Nk. apply Nk, elem_candidates. split; [done|by exists x]. }
      rewrite Only. split.
      * rewrite map_size_singleton. lia.
      * rewrite <- insert_empty, total_size_insert by done. unfold total_size. rewrite map_fold_empty. lia.
    + intros k K. apply elem_candidates. apply elem_of_take in K as (i & K & _). by eapply list_elem_of_lookup_2.
    + intros k x k' x' E1 E2 K1 K2 K3. by apply (candidates_oldest s key n k x k' x').
    + intros m Lm. rewrite length_take in Lm. rewrite take_take. replace (min m n) with m by lia. apply Nd. lia.
    + by rewrite <- E.
Qed.

(** ** The methods *)
Record valid_entry (key : gostring) (e : sharedEntry) : Prop := {
  ve_key : trim_space key = key ∧ key ≠ [] ∧ Z.of_nat (length key) <= maxSharedKeyBytes;
  ve_value : compactJSON (se_value e) = Some (se_value e) ∧ Z.of_nat (length (se_value e)) <= maxSharedValueBytes;
  ve_times : 0 <= se_ttl e ∧ 0 < se_lastAccess e
}.
Record shared_ok (s : SharedState) : Prop := {
  so_indexed : indexed s; so_limits : maxEntries s = maxSharedStateEntries ∧ maxSize s = maxSharedStateBytes;
  so_within : within maxSharedStateEntries maxSharedStateBytes (items s); so_entries : map_Forall valid_entry (items s)
}.
Lemma maxSize_room key e : valid_entry key e → sharedEntrySize key e <= maxSharedStateBytes.
Proof.
  intros [(_ & _ & K) [_ V] _]. unfold sharedEntrySize, maxSharedStateBytes, maxSharedKeyBytes, maxSharedValueBytes in *.
  change (Z.shiftl 1 20) with 1048576 in V. change (Z.shiftl 32 20) with 33554432. lia.
Qed.
Lemma compact_nonempty value out : compactJSON value = Some out → out ≠ [].
Proof.
  unfold compactJSON. intros E ->. revert E. induction value as [|c v IH]; cbn [compact_go]; [done|].
  destruct (scan_step _ c) as [[s1 []]|] eqn:S; [| |done]; intros E; apply fmap_Some in E as (out & E & O); [|done].
  cbn in O. subst out. destruct (skip_spec _ _ _ S) as (_ & _ & [->|[M _]]); [by apply IH|done].
Qed.
Lemma normalize_valid key value key' value' ttl now : normalizeSharedValue key value = Ok (key', value') → 0 <= ttl → 0 < now →
  valid_entry key' {| se_value := value'; se_ttl := ttl; se_lastAccess := now |}.
Proof.
  unfold normalizeSharedValue. case_bool_decide as K; [done|]. case_match eqn:L; [done|]. destruct (compactJSON value) as [c|] eqn:C; [|done].
  case_match eqn:V; [done|]. intros [= <- <-] T N. apply Z.ltb_ge in L, V. split; [|split; [by eapply compact_idempotent|done]|done].
  split_and!; [apply trim_space_idem|done|done].
Qed.
Lemma ttl_nonneg n ttl : sharedTTL n = Ok ttl → 0 <= ttl.
Proof.
  unfold sharedTTL. destruct n as [n|]; [|intros [= <-]; unfold defaultSharedTTL; lia]. case_match eqn:A; [done|]. case_match eqn:B; [done|].
  intros [= <-]. apply Z.ltb_ge in A, B. change maxSharedTTLSeconds with 9223372036 in B.
  rewrite wrap64_id; [lia|]. change (2 ^ 63) with 9223372036854775808. lia.
Qed.
Lemma within_sub m m' : m' ⊆ m → within maxSharedStateEntries maxSharedStateBytes m → within maxSharedStateEntries maxSharedStateBytes m'.
Proof.
  intros S [A B]. split.
  - apply map_subseteq_size in S. lia.
  - enough (total_size m' <= total_size m) by lia. clear A B. revert m S. induction m' as [|k e m0 N IH] using map_ind; intros m S.
    + apply total_size_nonneg.
    + assert (E : m !! k = Some e) by (eapply lookup_weaken; [apply lookup_insert_eq|done]). rewrite total_size_insert by done.
      pose proof (total_size_delete m k e E) as T. assert (S' : m0 ⊆ delete k m); [|apply IH in S'; lia].
      apply map_subseteq_spec. intros j x J. assert (k ≠ j) by congruence. rewrite lookup_delete_ne by done.
      eapply lookup_weaken; [|exact S]. by rewrite lookup_insert_ne.
Qed.
Lemma live_sub now m : live now m ⊆ m.
Proof. apply map_filter_subseteq. Qed.
Lemma ok_sub s s' : shared_ok s → indexed s' → signalled s s' → items s' ⊆ items s → shared_ok s'.
Proof.
  intros [_ [L1 L2] W V] I [E1 E2 _ _] S. split; [done|by rewrite E1, E2|by eapply within_sub|]. intros k e E. apply V. by eapply lookup_weaken.
Qed.
(** The entry is stored, in place of what has expired and what is evicted. *)
Definition stores (m : gmap gostring sharedEntry) (key : gostring) (e : sharedEntry) (m' : gmap gostring sharedEntry) : Prop :=
  ∃ ks, evicts maxSharedStateEntries maxSharedStateBytes (live (se_lastAccess e) m) key e ks ∧ m' = <[key := e]> (without (live (se_lastAccess e) m) ks).
Lemma shared_store_spec s key e : shared_ok s → valid_entry key e →
  ∃ s', storeLocked s key e = Some (s', Ok tt) ∧ shared_ok s' ∧ signalled s s' ∧ stores (items s) key e (items s').
Proof.
  intros O V. unfold storeLocked. destruct (prune_spec s (se_lastAccess e) (so_indexed s O)) as (s1 & -> & I1 & S1 & E1). cbn [mbind option_bind].
  assert (O1 : shared_ok s1) by (eapply ok_sub; [done..|rewrite E1; apply live_sub]). destruct O1 as [_ [L1 L2] W1 V1].
  destruct (makeRoom_spec s1 key e I1) as (s2 & ks & -> & I2 & S2 & E2 & Ev); [by rewrite L1|rewrite L2; by apply maxSize_room|].
  cbn [mbind option_bind]. rewrite L1, L2, E1 in Ev. rewrite E1 in E2.
  assert (Sz : (match items s2 !! key with Some previous => size s2 - sharedEntrySize key previous | None => size s2 end) + sharedEntrySize key e
    = total_size (<[key := e]> (items s2))).
  { rewrite total_size_replace, (ix_size _ I2). destruct (items s2 !! key) as [x|] eqn:X; [rewrite (total_size_delete _ _ _ X)|rewrite delete_id by done]; lia. }
  rewrite Sz. destruct (put_spec s2 key e I2) as (s3 & -> & I3 & S3 & E3); [apply V|]. simpl. eexists. split; [done|].
  assert (ST : stores (items s) key e (items s3)) by (exists ks; split; [done|]; by rewrite E3, E2).
  split_and!; [|by do 2 (etransitivity; [eassumption|])|done]. split; [done| | |].
  - by rewrite (sg_entries _ _ S3), (sg_size _ _ S3), (sg_entries _ _ S2), (sg_size _ _ S2).
  - rewrite E3, E2. apply Ev.
  - rewrite E3, E2. apply map_Forall_insert_2; [done|]. intros k x X. apply (so_entries s O). eapply lookup_weaken; [exact X|].
    etransitivity; [apply map_filter_subseteq|apply live_sub].
Qed.

(** ** What each request does to the entries *)
Definition refreshed (now : Time) (e : sharedEntry) : sharedEntry := {| se_value := se_value e; se_ttl := se_ttl e; se_lastAccess := now |}.
(** The requests that are refused: their parameters do not decode, or the key, the value or the time to live is not acceptable. *)
Definition is_err {A} (r : res A) : Prop := ∃ message, r = Err message.
Definition refuses (D : decoders) (method params : gostring) : Prop :=
  method ∈ [§"shared.get"; §"shared.delete"] ∧ is_err (dec_key D params) ∨ method = §"shared.list" ∧ is_err (dec_prefix D params) ∨
  method ∈ [§"shared.set"; §"shared.compare_and_swap"] ∧ (is_err (dec_store D params) ∨
    ∃ raw expected value ttlSeconds, dec_store D params = Ok (raw, expected, value, ttlSeconds) ∧
      (is_err (sharedTTL ttlSeconds) ∨ is_err (normalizeSharedValue raw value) ∨
       method = §"shared.compare_and_swap" ∧ expected ≠ [] ∧ compactJSON expected = None)) ∨
  method ∉ [§"shared.get"; §"shared.delete"; §"shared.list"; §"shared.set"; §"shared.compare_and_swap"].
Definition drop_expired (now : Time) (m : gmap gostring sharedEntry) (key : gostring) : gmap gostring sharedEntry :=
  match live now m !! key with Some _ => m | None => delete key m end.
Inductive shared_spec (D : decoders) (m : gmap gostring sharedEntry) (now : Time)
  : gostring → gostring → res SharedResult → gmap gostring sharedEntry → Prop :=
| SpecFound params raw e : dec_key D params = Ok raw → live now m !! trim_space raw = Some e →
    shared_spec D m now §"shared.get" params (Ok (RFound (Some (se_value e)))) (<[trim_space raw := refreshed now e]> m)
| SpecMissing params raw : dec_key D params = Ok raw → live now m !! trim_space raw = None →
    shared_spec D m now §"shared.get" params (Ok (RFound None)) (delete (trim_space raw) m)
| SpecDelete params raw : dec_key D params = Ok raw →
    shared_spec D m now §"shared.delete" params (Ok (RDeleted (bool_decide (is_Some (live now m !! trim_space raw))))) (delete (trim_space raw) m)
| SpecList params prefix keys : dec_prefix D params = Ok prefix → StronglySorted string_le keys → NoDup keys →
    (∀ k, k ∈ keys ↔ is_Some (live now m !! k) ∧ has_prefix (trim_space prefix) k = true) →
    shared_spec D m now §"shared.list" params (Ok (RKeys keys)) (live now m)
| SpecSet params raw expected value ttlSeconds ttl key compact m' :
    dec_store D params = Ok (raw, expected, value, ttlSeconds) → sharedTTL ttlSeconds = Ok ttl → normalizeSharedValue raw value = Ok (key, compact) →
    stores m key {| se_value := compact; se_ttl := ttl; se_lastAccess := now |} m' → shared_spec D m now §"shared.set" params (Ok ROk) m'
| SpecSwap params raw expected value ttlSeconds ttl key compact wanted m' :
    dec_store D params = Ok (raw, expected, value, ttlSeconds) → sharedTTL ttlSeconds = Ok ttl → normalizeSharedValue raw value = Ok (key, compact) →
    (if bool_decide (expected = []) then wanted = None else wanted ≠ None ∧ compactJSON expected = wanted) →
    se_value <$> live now m !! key = wanted → stores m key {| se_value := compact; se_ttl := ttl; se_lastAccess := now |} m' →
    shared_spec D m now §"shared.compare_and_swap" params (Ok (RSwapped true)) m'
| SpecDiffers params raw expected value ttlSeconds ttl key compact wanted :
    dec_store D params = Ok (raw, expected, value, ttlSeconds) → sharedTTL ttlSeconds = Ok ttl → normalizeSharedValue raw value = Ok (key, compact) →
    (if bool_decide (expected = []) then wanted = None else wanted ≠ None ∧ compactJSON expected = wanted) →
    se_value <$> live now m !! key ≠ wanted →
    shared_spec D m now §"shared.compare_and_swap" params (Ok (RSwapped false)) (drop_expired now m key)
| SpecRefused method params message : refuses D method params → shared_spec D m now method params (Err message) m.

Lemma Get_spec s now raw : shared_ok s → 0 < now → ∃ s' r, Get s now raw = Some (s', r) ∧ shared_ok s' ∧ signalled s s' ∧
  match live now (items s) !! trim_space raw with
  | Some e => r = Some (se_value e) ∧ items s' = <[trim_space raw := refreshed now e]> (items s)
  | None => r = None ∧ items s' = delete (trim_space raw) (items s)
  end.
Proof.
  intros O P. pose proof (so_indexed s O) as I. unfold Get. rewrite lookup_live. destruct (items s !! trim_space raw) as [e|] eqn:E.
  - destruct (expired now e) eqn:X.
    + destruct (deleteLocked_spec s _ e I E) as (s' & -> & I' & S' & E'). simpl. eexists s', None. split_and!; [done| |done|done|done].
      eapply ok_sub; [done..|]. rewrite E'. apply delete_subseteq.
    + destruct (so_entries s O _ _ E) as [VK VV VT]. fold (refreshed now e).
      assert (Sz : size s = total_size (<[trim_space raw := refreshed now e]> (items s))).
      { rewrite (ix_size _ I), total_size_replace, (total_size_delete _ _ _ E). unfold sharedEntrySize. simpl. lia. }
      rewrite Sz. destruct (put_spec s (trim_space raw) (refreshed now e) I) as (s' & -> & I' & S' & E'); [apply VT|]. simpl.
      eexists s', _. split_and!; [done| |done|done|done]. split; [done| | |].
      * destruct (so_limits s O) as [L1 L2]. by rewrite (sg_entries _ _ S'), (sg_size _ _ S').
      * rewrite E'. destruct (so_within s O) as [W1 W2]. split; [rewrite map_size_insert_Some by eauto; done|]. rewrite <- Sz, (ix_size _ I). done.
      * rewrite E'. apply map_Forall_insert_2; [|apply (so_entries s O)]. split; [done|done|]. split; [apply VT|done].
  - eexists s, None. split_and!; [done|done|done|done|]. by rewrite delete_id.
Qed.
Lemma Delete_spec s now raw : shared_ok s → ∃ s' r, Delete s now raw = Some (s', r) ∧ shared_ok s' ∧ signalled s s' ∧
  r = bool_decide (is_Some (live now (items s) !! trim_space raw)) ∧ items s' = delete (trim_space raw) (items s).
Proof.
  intros O. unfold Delete. rewrite lookup_live. destruct (items s !! trim_space raw) as [e|] eqn:E.
  - destruct (deleteLocked_spec s _ e (so_indexed s O) E) as (s' & -> & I' & S' & E'). simpl. eexists s', _. split_and!; [done| |done| |done].
    + eapply ok_sub; [done..|]. rewrite E'. apply delete_subseteq.
    + destruct (expired now e); done.
  - eexists s, false. split_and!; [done|done|done|done|]. by rewrite delete_id.
Qed.
Lemma List_spec s now prefix : shared_ok s → ∃ s' keys, List s now prefix = Some (s', keys) ∧ shared_ok s' ∧ signalled s s' ∧
  StronglySorted string_le keys ∧ NoDup keys ∧ (∀ k, k ∈ keys ↔ is_Some (live now (items s) !! k) ∧ has_prefix (trim_space prefix) k = true) ∧
  items s' = live now (items s).
Proof.
  intros O. unfold List. destruct (prune_spec s now (so_indexed s O)) as (s' & -> & I' & S' & E'). cbn [mbind option_bind]. eexists s', _.
  split; [done|]. split; [eapply ok_sub; [done..|rewrite E'; apply live_sub]|]. split_and!; [done|apply (StronglySorted_merge_sort string_le)| | |done].
  - rewrite (merge_sort_Permutation string_le). apply NoDup_ListNoDup, List.NoDup_filter, NoDup_ListNoDup, NoDup_fst_map_to_list.
  - intros k. rewrite (merge_sort_Permutation string_le), list_elem_of_In, List.filter_In, <- list_elem_of_In, list_elem_of_fmap, E'.
    split; intros [A B]; (split; [|done]).
    + destruct A as ([j x] & -> & M%elem_of_map_to_list). eauto.
    + destruct A as [x M]. exists (k, x). split; [done|]. by apply elem_of_map_to_list.
Qed.
Lemma SetWithTTL_spec s now raw value ttl : shared_ok s → 0 <= ttl → 0 < now → ∃ s' r, SetWithTTL s now raw value ttl = Some (s', r) ∧ shared_ok s' ∧ signalled s s' ∧
  ((∃ key compact, normalizeSharedValue raw value = Ok (key, compact) ∧ r = Ok tt ∧
    stores (items s) key {| se_value := compact; se_ttl := ttl; se_lastAccess := now |} (items s')) ∨
   (is_err r ∧ is_err (normalizeSharedValue raw value)) ∧ s' = s).
Proof.
  intros O T P. unfold SetWithTTL. destruct (normalizeSharedValue raw value) as [[key compact]|message|] eqn:N.
  - pose proof (normalize_valid _ _ _ _ _ _ N T P) as V. destruct (shared_store_spec s key _ O V) as (s' & -> & O' & S' & ST). eexists s', _. split_and!; [done|done|done|left; eauto 10].
  - exists s, (Err message). split_and!; [done|done|done|right; split; [split; by eexists|done]].
  - unfold normalizeSharedValue in N. repeat case_match; done.
Qed.
Lemma live_insert_absent now m key : live now (delete key m) = delete key (live now m).
Proof. unfold live. by rewrite map_filter_delete. Qed.
Lemma Swap_spec s now raw expected value ttl : shared_ok s → 0 <= ttl → 0 < now →
  ∃ s' r, CompareAndSwapWithTTL s now raw expected value ttl = Some (s', r) ∧ shared_ok s' ∧ signalled s s' ∧
  ((∃ key compact wanted, normalizeSharedValue raw value = Ok (key, compact) ∧
    (if bool_decide (expected = []) then wanted = None else wanted ≠ None ∧ compactJSON expected = wanted) ∧
    (r = Ok true ∧ se_value <$> live now (items s) !! key = wanted ∧ stores (items s) key {| se_value := compact; se_ttl := ttl; se_lastAccess := now |} (items s') ∨
     r = Ok false ∧ se_value <$> live now (items s) !! key ≠ wanted ∧
     items s' = drop_expired now (items s) key)) ∨
   (is_err r ∧ (is_err (normalizeSharedValue raw value) ∨ expected ≠ [] ∧ compactJSON expected = None)) ∧ s' = s).
Proof.
  intros O T P. unfold CompareAndSwapWithTTL. destruct (normalizeSharedValue raw value) as [[key compact]|message|] eqn:N.
  2: { exists s, (Err message). split_and!; [done|done|done|right; split; [split; [by eexists|left; by eexists]|done]]. }
  2: { unfold normalizeSharedValue in N. repeat case_match; done. }
  pose proof (normalize_valid _ _ _ _ _ _ N T P) as V. set (e := {| se_value := compact; se_ttl := ttl; se_lastAccess := now |}) in *.
  set (wanted := if bool_decide (expected = []) then None else compactJSON expected).
  destruct (if bool_decide (expected = []) then Some [] else compactJSON expected) as [ex|] eqn:Ex; [|exists s, (Err §"shared expected value must be valid JSON"); split_and!; [done|done|done|right; split; [split; [by eexists|right]|done]]].
  2: { by case_bool_decide. }
  assert (Wa : if bool_decide (expected = []) then wanted = None else wanted ≠ None ∧ compactJSON expected = wanted).
  { unfold wanted. case_bool_decide; [done|]. by rewrite Ex. }
  assert (Wx : wanted = if bool_decide (ex = []) then None else Some ex).
  { unfold wanted. case_bool_decide as B; [by injection Ex as <-|]. rewrite Ex, bool_decide_eq_false_2; [done|]. by eapply compact_nonempty. }
  (* the entry as the comparison sees it *)
  assert (C : ∃ s1, match items s !! key with
                    | Some x => if expired now x then s ← deleteLocked s key x; Some (s, None) else Some (s, Some x)
                    | None => Some (s, None)
                    end = Some (s1, live now (items s) !! key) ∧ shared_ok s1 ∧ signalled s s1 ∧ live now (items s1) = live now (items s) ∧
                    items s1 = drop_expired now (items s) key).
  { unfold drop_expired. rewrite lookup_live. destruct (items s !! key) as [x|] eqn:E; [destruct (expired now x) eqn:X|].
    - destruct (deleteLocked_spec s key x (so_indexed s O) E) as (s' & -> & I' & S' & E'). simpl. exists s'. split_and!; [done| |done| |done].
      + eapply ok_sub; [done..|]. rewrite E'. apply delete_subseteq.
      + rewrite E'. by eapply live_delete.
    - exists s. split_and!; done.
    - exists s. split_and!; [done..|]. by rewrite delete_id. }
  destruct C as (s1 & -> & O1 & S1 & L1 & E1). cbn [mbind option_bind].
  assert (Dec : match live now (items s) !! key with
                | Some x => bool_decide (ex = []) || negb (bool_decide (se_value x = ex)) | None => negb (bool_decide (ex = [])) end
                = negb (bool_decide (se_value <$> live now (items s) !! key = wanted))).
  { rewrite Wx. destruct (live now (items s) !! key) as [x|]; simpl; repeat case_bool_decide; simplify_eq/=; congruence. }
  rewrite Dec. clear Dec. destruct (decide (se_value <$> live now (items s) !! key = wanted)) as [Q|Q];
    [rewrite (bool_decide_eq_true_2 _ Q)|rewrite (bool_decide_eq_false_2 _ Q)]; cbn [negb].
  - destruct (shared_store_spec s1 key e O1 V) as (s' & -> & O' & S' & ST). cbn [mbind option_bind].
    eexists s', (Ok true). split; [done|]. split; [done|]. split; [by etransitivity|].
    left. exists key, compact, wanted. split_and!; [done|done|]. left. split_and!; [done|done|]. unfold stores in *. cbn [se_lastAccess] in *. by rewrite <- L1.
  - eexists s1, _. split_and!; [done|done|done|]. left. exists key, compact, wanted. split_and!; [done|done|]. right. done.
Qed.

Definition decodes (D : decoders) : Prop := ∀ params, dec_key D params ≠ Panic ∧ dec_prefix D params ≠ Panic ∧ dec_store D params ≠ Panic.
Lemma bool_decide_is_Some {A} (o : option A) : bool_decide (is_Some o) = match o with Some _ => true | None => false end.
Proof. by destruct o. Qed.
Lemma HandleRequest_spec D s now method params : decodes D → shared_ok s → 0 < now →
  ∃ s' r, HandleRequest D s now method params = Some (s', r) ∧ shared_ok s' ∧ signalled s s' ∧ shared_spec D (items s) now method params r (items s').
Proof.
  intros DD O P. destruct (DD params) as (DK & DP & DS). unfold HandleRequest.
  assert (Refused : ∀ message, refuses D method params → ∃ s' r, Some (s, Err message) = Some (s', r) ∧ shared_ok s' ∧ signalled s s' ∧
    shared_spec D (items s) now method params r (items s')).
  { intros message R. exists s, (Err message). split_and!; [done..|by constructor]. }
  case_bool_decide as M1; [|case_bool_decide as M2; [|case_bool_decide as M3; [|case_bool_decide as M4]]].
  - subst. destruct (dec_key D params) as [raw|message|] eqn:E; [|apply Refused; left; split; [by right; left|by eexists]|done].
    destruct (Delete_spec s now raw O) as (s' & r & -> & O' & S' & -> & E'). simpl. eexists s', _. split_and!; [done..|]. rewrite E'. by constructor.
  - subst. destruct (dec_key D params) as [raw|message|] eqn:E; [|apply Refused; left; split; [by left|by eexists]|done].
    destruct (Get_spec s now raw O P) as (s' & r & -> & O' & S' & HG). simpl. eexists s', _. split_and!; [done..|].
    destruct (live now (items s) !! trim_space raw) as [e|] eqn:L; destruct HG as [-> E']; rewrite E'; by econstructor.
  - destruct (dec_store D params) as [[[[raw expected] value] ttlSeconds]|message|] eqn:E;
      [|apply Refused; right; right; left; split; [done|left; by eexists]|done].
    destruct (sharedTTL ttlSeconds) as [ttl|message|] eqn:T;
      [|apply Refused; right; right; left; split; [done|right; do 4 eexists; split; [done|left; by eexists]]|unfold sharedTTL in T; repeat case_match; done].
    pose proof (ttl_nonneg _ _ T) as TN. case_bool_decide as M.
    + subst. destruct (SetWithTTL_spec s now raw value ttl O TN P) as (s' & r & -> & O' & S' & [(key & c & N & -> & ST)|[[[message ->] N] ->]]); simpl.
      * eexists s', _. split_and!; [done..|]. by econstructor.
      * apply Refused. right; right; left. split; [done|]. right. do 4 eexists. split; [done|]. by right; left.
    + destruct (Swap_spec s now raw expected value ttl O TN P) as (s' & r & -> & O' & S' & HW).
      assert (method = §"shared.compare_and_swap") as -> by (apply elem_of_cons in M3 as [|M3]; [done|]; by apply list_elem_of_singleton in M3).
      destruct HW as [(key & c & w & N & W & [(-> & Q & ST)|(-> & Q & E')])|[[[message ->] R] ->]]; simpl.
      * eexists s', _. split_and!; [done..|]. by eapply SpecSwap.
      * eexists s', _. split_and!; [done..|]. rewrite E'. by eapply SpecDiffers.
      * apply Refused. right; right; left. split; [done|]. right. do 4 eexists. split; [done|]. right. naive_solver.
  - subst. destruct (dec_prefix D params) as [prefix|message|] eqn:E; [|apply Refused; right; left; split; [done|by eexists]|done].
    destruct (List_spec s now prefix O) as (s' & keys & -> & O' & S' & SS & ND & K & E'). simpl. eexists s', _. split_and!; [done..|]. rewrite E'. by econstructor.
  - apply Refused. do 3 right. rewrite !not_elem_of_cons in *. naive_solver.
Qed.

(** ** The loop *)
Definition timed (a : action) : Prop := match a with Request now _ _ | Sweep now | Fired now => 0 < now | _ => True end.
Record system_ok (w : system) : Prop := {
  sw_state : shared_ok (sy_state w);
  sw_wait : match sy_loop w with LoopWait due => wake (sy_state w) = true ∨ due = next (expiry (sy_state w)) | _ => True end;
  sw_done : sy_loop w = LoopDone → sy_closed w = true
}.
Lemma shared_init_ok : system_ok init_system.
Proof.
  split; [|done|done]. split; [|done| |].
  - split; [apply zeroQueue_good| |done|apply map_Forall_empty]. apply map_eq. intros k. rewrite lookup_deadlines, lookup_schedule. cbn. by rewrite !lookup_empty.
  - split; apply Z.leb_le; vm_compute; reflexivity.
  - apply map_Forall_empty.
Qed.
Lemma maintain_step_ok D w a w' : decodes D → timed a → system_ok w → maintain_step D w a = Some w' → system_ok w'.
Proof.
  intros DD T [O W F] E. unfold maintain_step in E. destruct a as [now method params| |now| |now| |].
  - destruct (HandleRequest_spec D (sy_state w) now method params DD O T) as (s' & r & Q & O' & S' & _). rewrite Q in E. injection E as <-.
    split; [done| |done]. cbn. destruct (sy_loop w); try done. destruct S' as [_ _ SW [->|SN]]; [|by left]. destruct W; auto.
  - destruct (sy_loop w); try done. injection E as <-. split; [done|cbn; by destruct (sy_closed w)|cbn; by destruct (sy_closed w)].
  - destruct (sy_loop w); try done. destruct (prune_spec (sy_state w) now (so_indexed _ O)) as (s' & Q & I' & S' & E'). rewrite Q in E. injection E as <-.
    split; [|by right|done]. apply (ok_sub (sy_state w) s'); [done..|]. rewrite E'. apply live_sub.
  - destruct (sy_loop w); try done. destruct (wake (sy_state w)); [|done]. injection E as <-. split; [|done|done].
    destruct O as [[Q Dl Sz Tt] L Wi V]. split; [by split|done..].
  - destruct (sy_loop w); try done. case_match; [|done]. injection E as <-. by split.
  - injection E as <-. split; [done..|]. by intros _.
  - destruct (sy_loop w); try done. destruct (sy_closed w) eqn:Cl; [|done]. injection E as <-. by split.
Qed.
Lemma shared_run_ok D l : ∀ w w', decodes D → Forall timed l → system_ok w → maintain_run D w l = Some w' → system_ok w'.
Proof.
  induction l as [|a l IH]; intros w w' DD T O E; cbn in E; [by injection E as <-|]. apply Forall_cons in T as [Ta T].
  apply bind_Some in E as (w1 & E1 & E). eapply IH; [done|done| |done]. by eapply maintain_step_ok.
Qed.

(** ** The properties *)
(** C16: HandleRequest (shared.go), in every state the requests and the maintenance
    loop reach and at any clock reading: it returns, and its reply and the entries
    afterwards are those of a map of live values. [shared.get] gives the value of
    an entry that has not expired and renews its time; [shared.compare_and_swap]
    stores exactly when the live value, or its absence, is the expected one;
    storing drops what has expired and then evicts the least recently used other
    entries, no more than the limits need, and never fails for lack of room; a
    refused request changes nothing. *)
Theorem shared_requests D l w now method params :
  decodes D → Forall timed l → maintain_run D init_system l = Some w → 0 < now →
  ∃ s' r, HandleRequest D (sy_state w) now method params = Some (s', r) ∧
    shared_spec D (items (sy_state w)) now method params r (items s').
Proof.
  intros DD T R P. pose proof (sw_state _ (shared_run_ok D l _ _ DD T shared_init_ok R)) as O.
  destruct (HandleRequest_spec D (sy_state w) now method params DD O P) as (s' & r & E & _ & _ & SP). by exists s', r.
Qed.
(** C17: SharedState (shared.go) after any requests at any clock readings, with the
    sweeps of the maintenance loop between them: the size is exactly the bytes of
    the keys and values, at most 32 MiB in at most 10000 entries; keys are trimmed,
    not empty and at most 256 bytes, values are compact JSON of at most 1 MiB; and
    the queue of expiry.go holds exactly the entries with a time to live, each with
    its own deadline, the first of them at its head. *)
Theorem shared_limits D l w : decodes D → Forall timed l → maintain_run D init_system l = Some w →
  let s := sy_state w in
  size s = total_size (items s) ∧ within 10000 33554432 (items s) ∧ map_Forall valid_entry (items s) ∧
  (∀ key d, deadlines (expiry s) !! key = Some d ↔ ∃ e, items s !! key = Some e ∧ se_ttl e ≠ 0 ∧ d = expires e) ∧
  ((∀ key e, items s !! key = Some e → se_ttl e = 0) ∧ next (expiry s) = 0 ∨ least (deadlines (expiry s)) (next (expiry s))).
Proof.
  intros DD T R s. destruct (sw_state _ (shared_run_ok D l _ _ DD T shared_init_ok R)) as [[Q Dl Sz _] _ W V]. fold s in Q, Dl, Sz, W, V. split; [done|]. split; [exact W|]. split; [done|]. split.
  - intros key d. rewrite Dl, lookup_schedule, bind_Some. unfold due_at. split.
    + intros (e & E & U). case_bool_decide; [done|]. injection U as <-. eauto.
    + intros (e & E & N & ->). exists e. split; [done|]. by rewrite bool_decide_eq_false_2.
  - pose proof (next_least _ Q) as N. destruct (Len (expiry s)); [left|by right]. destruct N as [N1 N2]. split; [|done].
    intros key e E. apply due_zero. destruct (due_at e) as [d|] eqn:U; [|done]. assert (Z : schedule (items s) !! key = Some d) by (rewrite lookup_schedule, E; done).
    by rewrite <- Dl, N1 in Z.
Qed.
(** C18: Manager.maintain over SharedState (manager.go, shared.go): when an entry has
    expired and the manager is not closed, the loop alone, without any request, has
    at most three steps to take, each possible at once, after which exactly the
    entries that are still live remain; while it waits its timer is set for the
    first deadline or a wake-up is pending. *)
Theorem shared_expiry_swept D l w now key e : decodes D → Forall timed l → maintain_run D init_system l = Some w →
  sy_closed w = false → items (sy_state w) !! key = Some e → 0 < now → expired now e = true →
  (∀ due, sy_loop w = LoopWait due → wake (sy_state w) = true ∨ due = next (expiry (sy_state w))) ∧
  ∃ l' w', (length l' <= 3)%nat ∧ (∀ a, a ∈ l' → a ∈ [Check; Sweep now; Woken; Fired now]) ∧ maintain_run D w l' = Some w' ∧
    items (sy_state w') = live now (items (sy_state w)).
Proof.
  intros DD T R C E P X. pose proof (shared_run_ok D l _ _ DD T shared_init_ok R) as [O W F]. split; [by intros due Q; rewrite Q in W|].
  destruct (prune_spec (sy_state w) now (so_indexed _ O)) as (s' & Q & _ & _ & E').
  assert (Swept : ∀ w0, sy_state w0 = sy_state w ∨ sy_state w0 = woken (sy_state w) → sy_loop w0 = LoopSweep →
    ∃ w', maintain_step D w0 (Sweep now) = Some w' ∧ items (sy_state w') = live now (items (sy_state w))).
  { intros w0 S0 L0. unfold maintain_step. rewrite L0. destruct S0 as [->| ->]; [rewrite Q; simpl; by eexists|].
    destruct (prune_spec (woken (sy_state w)) now) as (s2 & -> & _ & _ & E2); [by destruct (so_indexed _ O)|]. simpl. by eexists. }
  assert (Checked : ∀ w0, sy_loop w0 = LoopCheck → sy_closed w0 = false → maintain_step D w0 Check = Some (with_loop w0 (sy_state w0) LoopSweep)).
  { intros w0 L0 C0. unfold maintain_step. by rewrite L0, C0. }
  destruct (sy_loop w) as [| |due|] eqn:L.
  - destruct (Swept (with_loop w (sy_state w) LoopSweep)) as (w' & S' & I'); [by left|done|]. exists [Check; Sweep now], w'.
    split_and!; [simpl; lia|set_solver| |done]. cbn [maintain_run]. rewrite (Checked w L C). cbn [mbind option_bind]. by rewrite S'.
  - destruct (Swept w) as (w' & S' & I'); [by left|done|]. exists [Sweep now], w'. split_and!; [simpl; lia|set_solver| |done]. cbn [maintain_run]. by rewrite S'.
  - destruct (wake (sy_state w)) eqn:Wk.
    + destruct (Swept (with_loop w (woken (sy_state w)) LoopSweep)) as (w' & S' & I'); [by right|done|]. exists [Woken; Check; Sweep now], w'.
      split_and!; [simpl; lia|set_solver| |done]. cbn [maintain_run].
      assert (St : maintain_step D w Woken = Some (with_loop w (woken (sy_state w)) LoopCheck)) by (unfold maintain_step; by rewrite L, Wk).
      rewrite St. cbn [mbind option_bind]. rewrite Checked by done. cbn [mbind option_bind]. change (with_loop (with_loop w (woken (sy_state w)) LoopCheck) _ LoopSweep) with (with_loop w (woken (sy_state w)) LoopSweep). by rewrite S'.
    + destruct W as [|W]; [done|]. assert (Due : due ≠ 0 ∧ due <= now).
      { pose proof (so_indexed _ O) as [Qg Dl _ Tt]. pose proof (so_entries _ O) as V. apply expired_due in X as (d & U & Ld); [|by apply (Tt key)].
        assert (Z : deadlines (expiry (sy_state w)) !! key = Some d) by (rewrite Dl, lookup_schedule, E; done).
        pose proof (next_least _ Qg) as N. destruct (Len (expiry (sy_state w))); [destruct N as [N _]; by rewrite N in Z|]. destruct N as [[k' N1] N2].
        rewrite W. split; [|specialize (N2 _ _ Z); lia]. rewrite Dl, lookup_schedule in N1. apply bind_Some in N1 as (e' & Ee & U').
        destruct (V _ _ Ee) as [_ _ [V1 V2]]. unfold due_at in U'. case_bool_decide; [done|]. injection U' as <-. unfold expires. lia. }
      destruct (Swept (with_loop w (sy_state w) LoopSweep)) as (w' & S' & I'); [by left|done|]. exists [Fired now; Check; Sweep now], w'.
      split_and!; [simpl; lia|set_solver| |done]. cbn [maintain_run].
      assert (St : maintain_step D w (Fired now) = Some (with_loop w (sy_state w) LoopCheck)).
      { unfold maintain_step. rewrite L, bool_decide_eq_false_2 by apply Due. cbn [negb andb]. by rewrite (proj2 (Z.leb_le due now)) by apply Due. }
      rewrite St. cbn [mbind option_bind]. rewrite Checked by done. cbn [mbind option_bind]. change (with_loop (with_loop w (sy_state w) LoopCheck) _ LoopSweep) with (with_loop w (sy_state w) LoopSweep). by rewrite S'.
  - by rewrite F in C.
Qed.
End methods.

(** ** A store in use *)
#[local] Existing Instance ascii_tables.
Definition sample_decoders : decoders := {| dec_key := λ p, Ok p; dec_prefix := λ p, Ok p; dec_store := λ p, Ok (§" k ", [], p, Some 5) |}.
Definition sample_set : list action := [Check; Sweep 5; Request 10 §"shared.set" §"[ 1 ]"].
Definition sample_expiry : Time := 6000000000.
Lemma sample_decodes : decodes sample_decoders.
Proof. intros p. by split_and!. Qed.
Lemma sample_timed : Forall timed sample_set.
Proof. repeat constructor. Qed.
Lemma shared_sample_reached : ∃ w e, maintain_run sample_decoders init_system sample_set = Some w ∧ sy_closed w = false ∧ items (sy_state w) !! §"k" = Some e ∧ expired sample_expiry e = true.
Proof.
  assert (B : match maintain_run sample_decoders init_system sample_set with
              | Some w => match items (sy_state w) !! §"k" with Some e => negb (sy_closed w) && expired sample_expiry e | None => false end
              | None => false end = true) by (vm_compute; reflexivity).
  destruct (maintain_run sample_decoders init_system sample_set) as [w|]; [|done]. destruct (items (sy_state w) !! §"k") as [e|] eqn:E; [|done].
  apply andb_true_iff in B as [B1 B2]. apply negb_true_iff in B1. eauto 10.
Qed.
Lemma shared_requests_witness : ∃ w s' r, maintain_run sample_decoders init_system sample_set = Some w ∧
  HandleRequest sample_decoders (sy_state w) 20 §"shared.get" §"k" = Some (s', r) ∧
  shared_spec sample_decoders (items (sy_state w)) 20 §"shared.get" §"k" r (items s').
Proof.
  destruct shared_sample_reached as (w & e & R & _). exists w.
  destruct (shared_requests sample_decoders sample_set w 20 §"shared.get" §"k" sample_decodes sample_timed R eq_refl) as (s' & r & E & S).
  exists s', r. exact (conj R (conj E S)).
Defined.
Lemma shared_limits_witness : ∃ w, maintain_run sample_decoders init_system sample_set = Some w ∧
  size (sy_state w) = total_size (items (sy_state w)) ∧ within 10000 33554432 (items (sy_state w)).
Proof.
  destruct shared_sample_reached as (w & e & R & _). exists w.
  destruct (shared_limits sample_decoders sample_set w sample_decodes sample_timed R) as (S & W & _). exact (conj R (conj S W)).
Defined.
Lemma shared_expiry_swept_witness : ∃ w l' w', maintain_run sample_decoders init_system sample_set = Some w ∧ (length l' <= 3)%nat ∧
  maintain_run sample_decoders w l' = Some w' ∧ items (sy_state w') = live sample_expiry (items (sy_state w)).
Proof.
  destruct shared_sample_reached as (w & e & R & C & E & X). exists w.
  destruct (shared_expiry_swept sample_decoders sample_set w sample_expiry §"k" e sample_decodes sample_timed R C E eq_refl X) as (_ & l' & w' & L & _ & R' & I).
  exists l', w'. exact (conj R (conj L (conj R' I))).
Defined.
